(* ===== verification/_CoqProject ===== *)
-Q . S2P
Prelude.v
CLib.v
World.v
Network.v
Sha256.v
Authentication.v
ContactBook.v
ServiceConfig.v
Arbitration.v
Transcript.v
Conversation.v
Protocol.v
FileTransfer.v
CouncilService.v
CouncilInvariants.v
CouncilWeb.v
CouncilTools.v
Process.v
NativeRegistry.v
NeoState.v
HwDisplay.v
HwLed.v
NeoDaemon.v
NeoReplies.v
NeoScanner.v
NeoSafety.v
NeoReads.v
WispServer.v
WispFacts.v
EspRecord.v
EspRegistry.v
EspVm.v
EspVmFacts.v
EspVmRun.v
EspProgram.v
EspSequence.v
EspSequenceFacts.v
EspSequencePlay.v
EspDispatch.v
EspDispatchFacts.v
EspThreads.v
EspThreadsFacts.v
EspRuntime.v
EspRuntimeFacts.v
EspCard.v
EspSd.v
EspStore.v
EspStoreFacts.v
EspStoreRestart.v
EspIrDecoder.v
EspIrDecoderFacts.v
EspIrCapture.v
EspIrCaptureFacts.v
EspIrReplay.v
EspSensors.v
EspSensorsFacts.v
IrisNeoBridge.v
IrisNeoBridgeFacts.v
IrisNeoLink.v
IrisNeoCalls.v
IrisNeo.v
IrisArtifacts.v
EspWifi.v
EspWifiFacts.v
IrisIrThread.v
IrisArtifactsFacts.v
IrisIrThreadFacts.v
EspTcp.v
Iris.v
IrisFacts.v
IrisLoop.v
CDouble.v
NeoWavGain.v
RosePipeline.v
RoseStage.v
RoseRemote.v
RoseSpeech.v
RoseHue.v
Health.v
RoseCamera.v
