(* ===== verification/Prelude.v ===== *)
(** * Noobia: a verification library

    Noobia is a small network of machines that talk to each other.  Its own C
    and C++ code has six parts, and this library models each of them.

    - The council (src/council/): a daemon in which members with a shared key
      hold one turn-based conversation, exchange files and vote its end, with
      its clients, a web gateway, a bridge that lets an external program take
      turns and a service that watches the machine.
    - Neo (src/neo/tools/): a daemon on a single-board computer that answers
      one request per connection, starts fixed helper programs and drives an
      infrared receiver, a display and output lines.
    - Wisp (src/wisp/): an HTTP server around one shell, with an editor.
    - The ESP runtime (src/esp/common/src/): the firmware library of the
      micro-controllers, called noobs: a registry of native functions, a
      byte-code machine, a sequencer, background threads, a line protocol and
      the cooperative loop that runs them, with the services for a memory card,
      sensors, infrared and Wi-Fi and a TCP transport.
    - Iris (src/iris/firmware/): the firmware of one noob, which composes the ESP
      runtime with the devices of its board, records and replays infrared frames
      and reaches Neo over a private network.
    - Rose (src/rose_tools/): command line tools that speak, share the work of
      speaking with other machines, drive lights and look for objects with a
      camera.

    ** Conventions

    A byte is an integer of [Z]; a C string is the list of its bytes without the
    terminating NUL, a pointer into it the suffix it points at.  Machine
    integers are [Z] with the wrap-around of their width written out ([u32],
    [i32], [mod]).  Imperative code is written in the state monad [st] of this
    file ([x <- e ;; k]) or, for code that may leave early, with a sum or an
    option; failing system calls are values.  World.v holds what the programs
    share with the outside: files, clock, random bytes, connections.  All that
    the operating system or a peer decides (a failing call, a short read, the
    next clock value, received bytes, the exit of a child) is read from oracle
    lists of that state, so a theorem about every state covers every decision;
    creating, writing, renaming and removing a file may each fail.
    Process.v does the same for children, pipes and output lines and records
    what the program makes the system do in a trace.  The connections of the
    council daemon are threads (Module [Threads] of CouncilService.v): a step of one
    is a critical section of the lock, a single read of the shared service outside
    it, or calls that do not touch the service; everything that other threads or
    processes do to the files meanwhile is a step of the world.  A thread that runs
    undisturbed is the handler the theorems on single commands are about
    ([connection_thread_alone]).  The threads of the speech pipeline, the processes at the lock of the
    lights and the signals of the voice worker are interleaved at every lock
    operation, system call and signal.  Code outside src/ (the called AI program,
    [strerror], [pow], the camera program, vendor drivers behind native
    functions) is an argument of the definitions that use it.

    Loops that are not structural have fuel, always a quantity the loop
    consumes: the length of the input still to be read or sent ([send_loop],
    [copy_loop], the parsers), the number of entries of a table, or the
    instruction budget the code itself has (the 16 instructions of a slice of
    the byte-code machine).  A busy wait for the clock has the number of its
    [turns] as an argument: its theorems say how many are enough for a clock that
    advances.  A download from Neo has one turn per byte of its buffer and one
    more ([DOWNLOAD_TURNS]).  The result of both is an option, with [None] for
    turns that run out.  Endless loops (accept loops, the firmware's loop) are
    modelled by their body, and theorems quantify over sequences of it.

    ** The files

    Common ground.
    - Prelude.v: bytes, widths, the state monad, tactics, hints, list lemmas.
    - CLib.v: the C library functions used, with the laws of printing and
      scanning numbers, hexadecimal text and string search.
    - World.v, Process.v: the operating system.
    - CDouble.v: double precision in C, with [strtod] and printing.

    The council.
    - Network.v: network.c, exact delivery and exact reading on a socket that
      cuts the data anywhere.
    - Sha256.v, Authentication.v: sha256.c and authentication.c; streaming
      hashing equals the one-shot definition, HMAC equals its specification.
    - ContactBook.v, ServiceConfig.v: the JSON contact book and the settings
      file; printing and loading a book is the identity.
    - Arbitration.v: arbitration.c, the round robin, its choice and fairness.
    - Transcript.v: transcript.c, the append-only log: polling delivers every
      record exactly once, a stream of context is the right suffix.
    - Conversation.v: conversation_memory.c and conversation_activity.c, the
      summary rebuilt from the log and the lease of a conversation.
    - Protocol.v: protocol.c and presence.c, the challenge-response handshake:
      only the right key is accepted, and two honest sides reach a session.
    - FileTransfer.v: file_storage.c and file_commands.c; a received file
      appears whole or not at all (what may remain is the temporary file when it
      cannot be removed), and sending then receiving is the identity.
    - CouncilService.v: council_service.c, every command on the shared
      [council_service], as a handler (Module [Council]) and as a thread (Module
      [Threads]); CouncilInvariants.v: the invariant of the service under all
      interleavings of the threads, a run in which an accepted objection is
      overruled, the exclusive reservation, the right to speak, who hears
      what, and the closing vote as the refinement of an abstract vote.
    - CouncilWeb.v: council_web.c; whatever a browser sends, all that reaches the
      council is the gateway's authentication and at most one well formed command.
    - CouncilTools.v: the bridge, the initiator, the clients.
    - Health.v: health.c; whatever the contact file contains only local addresses
      are tried, each once; in the compact text of a book its own scanner finds the
      same contacts as the parser of the daemon.

    Neo.
    - NativeRegistry.v: noob_native_registry.h, the argument parser.
    - NeoState.v, HwDisplay.v, HwLed.v, NeoDaemon.v: the daemon.
    - NeoReplies.v, NeoScanner.v, NeoSafety.v, NeoReads.v: one reply per
      request, the infrared ring as a bounded queue, the only effects clients
      can cause, and reading files and output lines back.
    - NeoWavGain.v: noob-wav-gain.c; its output is complete or withdrawn.

    Wisp.
    - WispServer.v: server.c; reading past the end of a body is an outcome of its
      own, [Undefined], after which nothing is claimed.  WispFacts.v: clients
      without a session cannot act, a request with one has a single effect and
      edits stay below the working directory, a file edited through the page
      round-trips; only a body with a backslash can be undefined.

    The ESP runtime.
    - EspRecord.v, EspRegistry.v: records, queues and native functions.
    - EspVm.v: the byte-code machine; EspVmFacts.v, EspVmRun.v: no operation
      leaves its arrays, a step executes the encoded instruction, waiting ends
      on time across the wrap of the clock.
    - EspProgram.v, EspSequence.v: channels and the sequencer;
      EspSequenceFacts.v, EspSequencePlay.v: its invariant and the equality of
      its calls with those of a reference scheduler.
    - EspDispatch.v, EspDispatchFacts.v: frames, LOAD and CALL_MIXED with their
      round trips.
    - EspThreads.v, EspThreadsFacts.v: background threads and what they detect.
    - EspRuntime.v, EspRuntimeFacts.v: the boot self test, the line transport
      and the loop; native functions are shown to meet the assumptions of the
      machine and of the sequencer, so the loop keeps both invariants.
    - EspCard.v, EspSd.v: the memory card as an interface, and the card service
      (Esp32SdMmcService.cpp).  EspStore.v, EspStoreFacts.v, EspStoreRestart.v:
      the program store (Esp32VmProgramStore.cpp): power cuts never start a
      wrong program, and a started program runs again after the next boot.
    - EspIrDecoder.v, EspIrDecoderFacts.v: Esp32IrDecoder.cpp; frames of the
      three encodings are decoded to what they carry, inside the arrays.
    - EspIrCapture.v, EspIrCaptureFacts.v: the capture interrupt of
      Esp32IrService.cpp records the next frame, after any silence and while the
      main loop looks at it (the capture functions run as wholes between the
      interrupts), and the replay check of the Iris
      firmware (thread_ir_capture.cpp) computes a longest alignment.
    - EspIrReplay.v: replaying an envelope, with and without capturing it.
    - EspSensors.v, EspSensorsFacts.v: the converter, the DHT11, the ultrasonic
      sensor, lamps and outputs, and the carrier functions of the infrared
      service; damaged DHT11 frames are refused and busy waits end.
    - EspTcp.v: noob_tcp_server_transport.cpp; a connection delivers exactly its
      lines of a fitting length.
    - EspWifi.v, EspWifiFacts.v: Esp32WifiService.cpp; credentials survive a
      restart and a scan is reported once.

    Iris.
    - IrisNeoBridge.v, IrisNeoBridgeFacts.v: hw_neo_bridge.cpp; a download ends
      inside its buffer whatever the peer sends.  IrisNeoLink.v: a link on which
      the bridge talks to the model of the Neo daemon.  IrisNeoCalls.v, IrisNeo.v:
      a call arrives as it was made, and a VM file read from Neo is stored on the
      card byte for byte.
    - IrisArtifacts.v, IrisArtifactsFacts.v: hw_artifacts.cpp; a stored capture
      replays as it was recorded.
    - IrisIrThread.v, IrisIrThreadFacts.v: thread_ir_capture.cpp; the receiver is
      on only while the thread runs, a published frame is on the card, and the
      dictionary grows by the entry asked for.
    - Iris.v, IrisFacts.v: iris.cpp with its configuration, capabilities, boot
      probes, sequences and threads; for every choice of services the tables are
      filled completely, the boot plan fits, and what is referred to by number
      exists.  IrisLoop.v:
      the functions of Iris do their part, so the firmware as a whole keeps the
      invariants of the runtime.

    Rose.
    - RosePipeline.v: rose_voice.c.  Its Module [RosePipeline] has the four threads
      with their mutex and condition variable: speech ends, in order, without a
      lost wake-up.  Its Module [RoseVoice] has the text: sentences are what the
      splitting rule says and nothing is lost.
    - RoseStage.v: voice_stage.c; the envelope covers the recording exactly.
    - RoseRemote.v: Module [RoseRemote], the dialogue of voice_remote.c with
      voice_worker.c; Module [RoseWorker], the accept loop of the worker with its
      children and signals.
    - RoseSpeech.v: what rose_voice.c does before and after the pipeline; no
      temporary file is left behind that can be removed.  Of [mkstemps] only the
      documented behaviour is assumed: when it fails the name is undefined.
    - RoseHue.v: Module [HueLock], the lock file of hue_client.c among processes that
      acquire, release and clear it by force; Module [RoseHue], the rest of it with
      rose_hue.c and rose_hue_off.c, the lock file as seen by one process: a
      pattern ends dark, in the bytes sent to the bridge.
    - RoseCamera.v: rose_detect.c and rose_snapshot.c; a failed detection takes its
      files back.

    ** Interfaces

    The ESP components live in one device state that native functions may
    change as a whole.  The classes [HasClock], [HasVm] and [HasSequence] say
    where a component finds its part of the state and which laws the accessors
    obey; every component's theorems are proved against these classes, and
    EspVmRun.v, EspSequencePlay.v and EspRuntimeFacts.v instantiate them with
    concrete devices.  [SdCard] and [ReliableCard] state what the services rely
    on of the board's file system, without and with the absence of faults;
    [HasPins] and [HasIr] do so for pins, clock and the infrared transmitter, and
    [NeoLink] for the sockets of the bridge.  [HasWifi] holds the radio and the
    flash store, and [IrisDevice] collects what the whole firmware needs of its
    board, so that the theorem on its loop holds for every such board.  The record [drivers] holds the
    vendor drivers Iris only calls.  The daemon of the Neo is put together from
    the promises [quiet] and [replies] of its parts.

    ** Not modelled

    Socket set-up, [fork], [exec] and the installation of signal handlers (system
    calls without logic of their own); the text of the council's web page (a
    constant); the terminal interface of council_live.c; the BLE transports, the
    USB network bridge, and the camera and microphone services (callbacks and
    calls of vendor code, without which their order cannot be stated); the player
    process and the animation of the lamps in rose_voice.c, jbl_keepalive.c and
    projector_cast.c (processes fed with media).  Allocation failure is not
    modelled in Wisp.

    ** Limits of the models

    [exists] of the memory card tells the truth, while its other calls may fail.
    The capture functions [captureStart], [captureReady] and [captureRearm] are not
    interrupted in the middle.  Signed overflow in the byte-code machine, which
    C++ leaves undefined, wraps around.  The specification of SHA-256 shares the
    compression function with the code; vectors of the RFC tie it to the standard.
    Calls that do not touch the shared service of the daemon are one step of its
    thread.  The reservation theorem assumes a clock that does not go back. *)
From Stdlib Require Export ZArith Lia.
From stdpp Require Export base strings numbers gmap list.

Open Scope Z_scope.

(** ** Bytes and byte strings *)

(** A [char]/[uint8_t] is kept as the integer [0..255] it denotes; a C string
    is the list of its bytes without the terminating NUL. *)
Abbreviation byte := Z.
Abbreviation bytes := (list Z).

(** String literals of the source. *)
Fixpoint str (s : string) : bytes :=
  match s with
  | EmptyString => []
  | String a s' => Z.of_N (Ascii.N_of_ascii a) :: str s'
  end.

Definition NUL : byte := 0.
Definition TAB : byte := 9.
Definition NL : byte := 10.
Definition CR : byte := 13.
Definition SP : byte := 32.
Definition DQ : byte := 34.

Definition byte_ok (c : Z) : Prop := 0 <= c < 256.
Abbreviation bytes_ok := (Forall byte_ok).

#[global] Instance byte_ok_dec c : Decision (byte_ok c).
Proof. unfold byte_ok. apply _. Defined.

(** [a = b] on byte strings, as the boolean that [!strcmp(a,b)] computes. *)
Definition bytes_eqb (a b : bytes) : bool := bool_decide (a = b).

Lemma bytes_eqb_true a b : bytes_eqb a b = true <-> a = b.
Proof. apply bool_decide_eq_true. Qed.

Lemma bytes_eqb_false a b : bytes_eqb a b = false <-> a <> b.
Proof. apply bool_decide_eq_false. Qed.

Lemma bytes_eqb_refl a : bytes_eqb a a = true.
Proof. by apply bytes_eqb_true. Qed.

(** ** The state monad of the models

    Stateful C code is a function from the state to a result and the next
    state; stdpp's [x ← m; k] and [m ;; k] sequence it. *)

Definition st (S A : Type) : Type := S -> A * S.

#[global] Instance st_ret {S} : MRet (st S) := fun A a s => (a, s).
#[global] Instance st_bind {S} : MBind (st S) :=
  fun A B f m s => let '(a, s') := m s in f a s'.

Definition get {S} : st S S := fun s => (s, s).
Definition gets {S A} (f : S -> A) : st S A := fun s => (f s, s).
Definition put {S} (s : S) : st S unit := fun _ => (tt, s).
Definition modify {S} (f : S -> S) : st S unit := fun s => (tt, f s).

(** A command run only when its guard holds. *)
Definition when {S} (b : bool) (m : st S unit) : st S unit :=
  if b then m else mret tt.

(** Iteration of a command over a list, left to right. *)
Fixpoint for_each {S A} (f : A -> st S unit) (l : list A) : st S unit :=
  match l with
  | [] => mret tt
  | x :: l' => f x ;; for_each f l'
  end.

(** A command on one half of a pair of states. *)
Definition on_fst {S T A} (m : st S A) : st (S * T) A := fun s =>
  let '(a, x) := m s.1 in (a, (x, s.2)).
Definition on_snd {S T A} (m : st T A) : st (S * T) A := fun s =>
  let '(a, x) := m s.2 in (a, (s.1, x)).

(** The loop [for (x in l) if (!f(x)) return failure;]. *)
Fixpoint for_all_ok {S A} (f : A -> st S bool) (l : list A) : st S bool :=
  match l with
  | [] => mret true
  | x :: l' => ok ← f x; if ok : bool then for_all_ok f l' else mret false
  end.

Lemma on_fst_run {S T A} (m : st S A) (s : S * T) :
  on_fst m s = ((m s.1).1, ((m s.1).2, s.2)).
Proof. unfold on_fst. by destruct (m s.1). Qed.

Lemma on_snd_run {S T A} (m : st T A) (s : S * T) :
  on_snd m s = ((m s.2).1, (s.1, (m s.2).2)).
Proof. unfold on_snd. by destruct (m s.2). Qed.

Lemma st_bind_run {S A B} (m : st S A) (f : A -> st S B) s :
  (m ≫= f) s = f (fst (m s)) (snd (m s)).
Proof. unfold mbind, st_bind. by destruct (m s). Qed.

Lemma bind_on_fst {S T A B} (m : st S A) (f : A -> st (S * T) B) s t :
  (on_fst m ≫= f) (s, t) = f (m s).1 ((m s).2, t).
Proof. unfold mbind, st_bind, on_fst. cbn [fst]. by destruct (m s). Qed.

Lemma bind_on_snd {S T A B} (m : st T A) (f : A -> st (S * T) B) s t :
  (on_snd m ≫= f) (s, t) = f (m t).1 (s, (m t).2).
Proof. unfold mbind, st_bind, on_snd. cbn [snd]. by destruct (m t). Qed.

Lemma st_ret_bind {S A B} (a : A) (f : A -> st S B) s :
  (mret a ≫= f) s = f a s.
Proof. done. Qed.

Lemma for_each_app {S A} (f : A -> st S unit) l1 l2 s :
  for_each f (l1 ++ l2) s = (for_each f l1 ;; for_each f l2) s.
Proof.
  revert s; induction l1 as [|x l1 IH]; intros s; [done|].
  cbn. rewrite !st_bind_run, IH, !st_bind_run. done.
Qed.

(** An invariant kept by the body is kept by the loop. *)
Lemma for_each_invariant {S A} (I : S -> Prop) (f : A -> st S unit) l s :
  (forall x s', I s' -> I (snd (f x s'))) -> I s -> I (snd (for_each f l s)).
Proof.
  intros Hf. revert s; induction l as [|x l IH]; intros s Hs; [done|].
  cbn. rewrite st_bind_run. apply IH, Hf, Hs.
Qed.

(** ** Automation *)

Create HintDb noobia.
Create Rewrite HintDb noobia_rw.
#[export] Hint Resolve bytes_eqb_refl : noobia.
#[export] Hint Rewrite bytes_eqb_true bytes_eqb_false bytes_eqb_refl : noobia_rw.

(** ** The last elements of a list *)

Definition lastn {A} (k : nat) (l : list A) : list A := drop (length l - k) l.

Lemma lastn_all {A} k (l : list A) : (length l <= k)%nat -> lastn k l = l.
Proof. intros H. unfold lastn. by replace (length l - k)%nat with 0%nat by lia. Qed.

Lemma lastn_app {A} k (a b : list A) : lastn k (lastn k a ++ b) = lastn k (a ++ b).
Proof.
  unfold lastn. rewrite !length_app, length_drop.
  destruct (Nat.le_gt_cases (length a) k).
  - replace (length a - k)%nat with 0%nat by lia. rewrite drop_0, Nat.sub_0_r. done.
  - rewrite !drop_app, drop_drop, length_drop. f_equal; f_equal; lia.
Qed.

Lemma length_lastn {A} k (l : list A) : (length (lastn k l) <= k)%nat.
Proof. unfold lastn. rewrite length_drop. lia. Qed.

(** ** Invariants of commands *)

(** Every run of [m] from a state of [I] ends in a state of [I]. *)
Definition keeps {S A} (I : S -> Prop) (m : st S A) : Prop := forall s, I s -> I (m s).2.

Section keeps.
Context {S : Type} (I : S -> Prop).

Lemma keeps_ret {A} (a : A) : keeps I (mret a).
Proof. by intros s. Qed.

Lemma keeps_bind {A B} (m : st S A) (f : A -> st S B) :
  keeps I m -> (forall a, keeps I (f a)) -> keeps I (m ≫= f).
Proof. intros Hm Hf s Hs. rewrite st_bind_run. apply Hf, Hm, Hs. Qed.

Lemma keeps_gets {A} (f : S -> A) : keeps I (gets f).
Proof. by intros s. Qed.

Lemma keeps_if {A} (b : bool) (m1 m2 : st S A) :
  (b = true -> keeps I m1) -> (b = false -> keeps I m2) -> keeps I (if b then m1 else m2).
Proof. destruct b; auto. Qed.

Lemma keeps_when b (m : st S unit) : keeps I m -> keeps I (when b m).
Proof. intros H. destruct b; [done|apply keeps_ret]. Qed.

Lemma keeps_for_each {A} (f : A -> st S unit) l :
  (forall x, keeps I (f x)) -> keeps I (for_each f l).
Proof.
  intros H. induction l as [|x l IH]; [apply keeps_ret|]. apply keeps_bind; [apply H|]. done.
Qed.
End keeps.

(** A command on the other half of the state. *)
Lemma keeps_on_snd {S T A} (I : S -> Prop) (m : st T A) : keeps (fun s => I s.1) (on_snd m).
Proof. intros s Hs. by rewrite on_snd_run. Qed.

Lemma keeps_on_fst_modify {S T} (I : S -> Prop) (f : S -> S) :
  (forall s, I s -> I (f s)) -> keeps (fun s : S * T => I s.1) (on_fst (modify f)).
Proof. intros H s Hs. rewrite on_fst_run. cbn. by apply H. Qed.

#[export] Hint Resolve keeps_ret keeps_gets keeps_when keeps_for_each keeps_on_snd : noobia.

(** Walk through a command, leaving the steps that change the state. *)
Ltac keeps_step :=
  match goal with
  | |- keeps _ (_ ≫= _) => apply keeps_bind; [|intros ?]
  | |- keeps _ (if _ then _ else _) => apply keeps_if; intros ?
  | |- keeps _ (match ?x with _ => _ end) => destruct x eqn:?
  | |- keeps _ (let '(_, _) := ?x in _) => destruct x eqn:?
  | |- keeps _ (when _ _) => apply keeps_when
  | |- keeps _ (for_each _ _) => apply keeps_for_each; intros ?
  | |- keeps _ _ => solve [auto with noobia]
  end.
Ltac keeps_auto := repeat keeps_step.

(** Turn the boolean tests of the models into propositions. *)
Ltac to_prop :=
  repeat match goal with
  | H : bytes_eqb _ _ = true |- _ => apply bytes_eqb_true in H
  | H : bytes_eqb _ _ = false |- _ => apply bytes_eqb_false in H
  | H : andb _ _ = true |- _ => apply andb_true_iff in H; destruct H
  | H : orb _ _ = false |- _ => apply orb_false_iff in H; destruct H
  | H : negb _ = true |- _ => apply negb_true_iff in H
  | H : negb _ = false |- _ => apply negb_false_iff in H
  | H : Z.eqb _ _ = true |- _ => apply Z.eqb_eq in H
  | H : Z.eqb _ _ = false |- _ => apply Z.eqb_neq in H
  | H : Z.leb _ _ = true |- _ => apply Z.leb_le in H
  | H : Z.leb _ _ = false |- _ => apply Z.leb_gt in H
  | H : Z.ltb _ _ = true |- _ => apply Z.ltb_lt in H
  | H : Z.ltb _ _ = false |- _ => apply Z.ltb_ge in H
  | H : Nat.eqb _ _ = true |- _ => apply Nat.eqb_eq in H
  | H : Nat.eqb _ _ = false |- _ => apply Nat.eqb_neq in H
  | H : Nat.leb _ _ = true |- _ => apply Nat.leb_le in H
  | H : Nat.leb _ _ = false |- _ => apply Nat.leb_gt in H
  | H : Nat.ltb _ _ = true |- _ => apply Nat.ltb_lt in H
  | H : Nat.ltb _ _ = false |- _ => apply Nat.ltb_ge in H
  | H : bool_decide _ = true |- _ => apply bool_decide_eq_true in H
  | H : bool_decide _ = false |- _ => apply bool_decide_eq_false in H
  end.

(** Case on the outermost [if]/[match] scrutinee of the goal or a hypothesis. *)
Ltac split_if :=
  match goal with
  | |- context [if ?b then _ else _] => destruct b eqn:?
  | H : context [if ?b then _ else _] |- _ => destruct b eqn:?
  end.

(** Expose one step of monadic sequencing. *)
Ltac run_st := rewrite ?st_bind_run; cbn [fst snd mret st_ret get gets put modify].
