(* ===== verification/CLib.v ===== *)
(** * The C library functions the sources use

    Character classes, string search, number scanning and printing, [fgets],
    [snprintf] truncation and the [sscanf] directives, over C strings as lists
    of bytes (no terminating NUL).  A C pointer into a string is the suffix it
    points at; a failed search is [None]. *)
From S2P Require Import Prelude.

Open Scope Z_scope.

(** ** ctype.h, in the "C" locale *)

Definition isspace (c : byte) : bool := (c =? 32) || ((9 <=? c) && (c <=? 13)).
Definition isdigit (c : byte) : bool := (48 <=? c) && (c <=? 57).
Definition isupper (c : byte) : bool := (65 <=? c) && (c <=? 90).
Definition islower (c : byte) : bool := (97 <=? c) && (c <=? 122).
Definition isalpha (c : byte) : bool := isupper c || islower c.
Definition isalnum (c : byte) : bool := isalpha c || isdigit c.
Definition tolower (c : byte) : byte := if isupper c then c + 32 else c.

(** ** string.h *)

(** Split at the first byte satisfying [p]: what precedes it, and the suffix
    that starts with it. *)
Fixpoint span (p : byte -> bool) (s : bytes) : bytes * bytes :=
  match s with
  | [] => ([], [])
  | c :: s' => if p c then ([], s) else let '(a, b) := span p s' in (c :: a, b)
  end.

(** The C string held by a buffer: its bytes up to the first NUL. *)
Definition cstr (b : bytes) : bytes := (span (Z.eqb 0) b).1.

(** [buf[strcspn(buf, stops)] = 0]. *)
Definition cut_at (p : byte -> bool) (s : bytes) : bytes := (span p s).1.

Definition is_crlf (c : byte) : bool := (c =? CR) || (c =? NL).

Definition strchr (s : bytes) (c : byte) : option bytes :=
  match (span (Z.eqb c) s).2 with [] => None | r => Some r end.

Definition strpbrk (s : bytes) (p : byte -> bool) : option bytes :=
  match (span p s).2 with [] => None | r => Some r end.

(** The suffix after the last occurrence of [c], as [strrchr(s,c)+1]. *)
Fixpoint after_last (c : byte) (s : bytes) : option bytes :=
  match s with
  | [] => None
  | x :: s' => match after_last c s' with
               | Some r => Some r
               | None => if x =? c then Some s' else None
               end
  end.

(** [!strncmp(s, p, strlen(p))]. *)
Fixpoint starts_with (p s : bytes) : bool :=
  match p, s with
  | [], _ => true
  | _, [] => false
  | a :: p', b :: s' => (a =? b) && starts_with p' s'
  end.

(** [strstr]: the suffix of [s] at the first occurrence of [needle]. *)
Fixpoint strstr (s needle : bytes) : option bytes :=
  if starts_with needle s then Some s
  else match s with [] => None | _ :: s' => strstr s' needle end.

Definition contains (s needle : bytes) : bool := bool_decide (is_Some (strstr s needle)).

Definition skip_space (s : bytes) : bytes := (span (fun c => negb (isspace c)) s).2.

(** The first byte of a string, NUL at its end: [*p]. *)
Definition peek (s : bytes) : byte := match s with [] => NUL | c :: _ => c end.

(** ** Numbers *)

Definition INT_MAX : Z := 2147483647.
Definition INT_MIN : Z := -2147483648.
Definition LONG_MAX : Z := 9223372036854775807.
Definition LONG_MIN : Z := -9223372036854775808.
Definition ULONG_MAX : Z := 18446744073709551615.

(** The value of a digit in the bases [strtol] knows. *)
Definition digit_value (c : byte) : Z :=
  if isdigit c then c - 48
  else if islower c then c - 87
  else if isupper c then c - 55 else 99.

(** Longest run of digits, accumulated from the left without bound. *)
Fixpoint scan_digits (base acc : Z) (s : bytes) : Z * bytes :=
  match s with
  | [] => (acc, [])
  | c :: s' => if digit_value c <? base
               then scan_digits base (acc * base + digit_value c) s' else (acc, s)
  end.

(** [strtol]'s syntax: white space, a sign, digits.  [None] when no digit is
    found ([end == p]); otherwise the sign, the magnitude and the suffix. *)
Definition scan_number (base : Z) (s : bytes) : option (bool * Z * bytes) :=
  let s := skip_space s in
  let '(neg, s) := match s with
                   | c :: s' => if c =? 45 then (true, s')
                                else if c =? 43 then (false, s') else (false, s)
                   | [] => (false, [])
                   end in
  match s with
  | [] => None
  | c :: _ => if digit_value c <? base
              then let '(v, r) := scan_digits base 0 s in Some (neg, v, r)
              else None
  end.

Definition clamp (lo hi v : Z) : Z := Z.max lo (Z.min hi v).

(** [strtol(s,&end,10)]: the clamped value and [end], [None] when [end == s]. *)
Definition strtol (s : bytes) : option (Z * bytes) :=
  match scan_number 10 s with
  | Some (neg, v, r) => Some (clamp LONG_MIN LONG_MAX (if neg then - v else v), r)
  | None => None
  end.

(** Whether [strtol] sets [errno] to [ERANGE]. *)
Definition strtol_erange (s : bytes) : bool :=
  match scan_number 10 s with
  | Some (neg, v, _) => let x := if neg then - v else v in
                        (x <? LONG_MIN) || (LONG_MAX <? x)
  | None => false
  end.

(** [strtoul]/[strtoull]: 64-bit unsigned, a minus sign negates modulo 2^64. *)
Definition unsigned_value (neg : bool) (v : Z) : Z :=
  if ULONG_MAX <? v then ULONG_MAX else if neg then (- v) mod 2 ^ 64 else v.

Definition strtoul (s : bytes) : option (Z * bytes) :=
  match scan_number 10 s with
  | Some (neg, v, r) => Some (unsigned_value neg v, r)
  | None => None
  end.

Definition strtoul_erange (s : bytes) : bool :=
  match scan_number 10 s with Some (_, v, _) => ULONG_MAX <? v | None => false end.

(** The value when the end pointer is not looked at: 0 without digits. *)
Definition value_or_0 (r : option (Z * bytes)) : Z := match r with Some (v, _) => v | None => 0 end.

(** Two's-complement conversion to a [w]-bit signed integer. *)
Definition to_signed (w v : Z) : Z := (v + 2 ^ (w - 1)) mod 2 ^ w - 2 ^ (w - 1).

(** [atoi] is [(int)strtol(s,NULL,10)]. *)
Definition atoi (s : bytes) : Z := to_signed 32 (value_or_0 (strtol s)).

(** [(uint16_t)v]. *)
Definition to_u16 (v : Z) : Z := v mod 65536.

(** ** printf conversions *)

(** Decimal digits of [n >= 0], least significant produced first. *)
Fixpoint dec_digits (fuel : nat) (n : Z) (acc : bytes) : bytes :=
  let acc' := 48 + n mod 10 :: acc in
  match fuel with
  | O => acc'
  | S f => if n / 10 =? 0 then acc' else dec_digits f (n / 10) acc'
  end.

(** [%u], [%lu], [%llu], [%zu]: one digit per bit is always enough fuel. *)
Definition print_nat (n : Z) : bytes := dec_digits (Z.to_nat (Z.log2 n)) n [].

(** [%d], [%ld], [%lld]. *)
Definition print_int (n : Z) : bytes :=
  if n <? 0 then 45 :: print_nat (- n) else print_nat n.

Definition hex_digit (v : Z) : byte := if v <? 10 then 48 + v else 87 + v.

(** [%02x] of one byte. *)
Definition hex_byte (b : byte) : bytes := [hex_digit (Z.shiftr b 4); hex_digit (Z.land b 15)].

Definition hex_encode (b : bytes) : bytes := b ≫= hex_byte.

(** The text [snprintf(buf, n, ...)] leaves in [buf]. *)
Definition snprintf (n : nat) (text : bytes) : bytes := take (n - 1) text.
#[global] Arguments snprintf : simpl never.

(** ** stdio input *)

(** [fgets(buf, n, f)] on the unread content: at most [n - 1] bytes, ending
    after the first newline. *)
Fixpoint fgets_upto (n : nat) (s : bytes) : bytes * bytes :=
  match n, s with
  | O, _ => ([], s)
  | _, [] => ([], [])
  | S n', c :: s' => if c =? NL then ([c], s')
                     else let '(a, b) := fgets_upto n' s' in (c :: a, b)
  end.

Definition fgets (n : nat) (s : bytes) : option (bytes * bytes) :=
  match s with [] => None | _ => Some (fgets_upto (n - 1) s) end.

(** All the buffers [while (fgets(buf, n, f))] produces. *)
Fixpoint fgets_loop (fuel n : nat) (s : bytes) : list bytes :=
  match fuel with
  | O => []
  | S f => match fgets n s with
           | None => []
           | Some (l, r) => l :: fgets_loop f n r
           end
  end.

Definition fgets_all (n : nat) (s : bytes) : list bytes := fgets_loop (length s) n s.

(** ** sscanf directives *)

(** A literal in the format. *)
Definition scan_lit (p s : bytes) : option bytes :=
  if starts_with p s then Some (drop (length p) s) else None.

(** White space in the format. *)
Definition scan_ws (s : bytes) : bytes := skip_space s.

(** At most [n] bytes that are not white space. *)
Fixpoint take_word (n : nat) (s : bytes) : bytes * bytes :=
  match n, s with
  | O, _ => ([], s)
  | _, [] => ([], [])
  | S n', c :: s' => if isspace c then ([], s)
                     else let '(a, b) := take_word n' s' in (c :: a, b)
  end.

(** [%<n>s]. *)
Definition scan_word (n : nat) (s : bytes) : option (bytes * bytes) :=
  let '(w, r) := take_word n (skip_space s) in
  match w with [] => None | _ => Some (w, r) end.

(** [%llu]/[%lu]. *)
Definition scan_u64 (s : bytes) : option (Z * bytes) := strtoul s.

(** [isspace]-trimming of both ends. *)
Fixpoint rtrim (s : bytes) : bytes :=
  match s with
  | [] => []
  | c :: s' => match rtrim s' with
               | [] => if isspace c then [] else [c]
               | r => c :: r
               end
  end.

Definition trim (s : bytes) : bytes := rtrim (skip_space s).

(** ** Lemmas *)

Lemma span_app p s : (span p s).1 ++ (span p s).2 = s.
Proof.
  induction s as [|c s IH]; [done|]. cbn. destruct (p c); [done|].
  destruct (span p s) as [a b]. cbn in *. by rewrite IH.
Qed.

Lemma span_fst_Forall p s : Forall (fun c => p c = false) (span p s).1.
Proof.
  induction s as [|c s IH]; [constructor|]. cbn. destruct (p c) eqn:E; [constructor|].
  destruct (span p s) as [a b]. by constructor.
Qed.

Lemma span_snd_head p s c r : (span p s).2 = c :: r -> p c = true.
Proof.
  induction s as [|d s IH]; [done|]. cbn. destruct (p d) eqn:E.
  - cbn. congruence.
  - destruct (span p s) as [a b]. exact IH.
Qed.

(** A prefix without stop bytes followed by a stop byte (or the end). *)
Lemma span_prefix p a b :
  Forall (fun c => p c = false) a ->
  (match b with [] => True | c :: _ => p c = true end) ->
  span p (a ++ b) = (a, b).
Proof.
  intros Ha Hb. induction Ha as [|c a Hc Ha IH]; cbn.
  - destruct b as [|c b]; [done|]. cbn. by rewrite Hb.
  - by rewrite Hc, IH.
Qed.

Lemma cstr_id s : Forall (fun c => 0 < c) s -> cstr s = s.
Proof.
  intros H. unfold cstr. rewrite <- (app_nil_r s) at 1.
  rewrite span_prefix; [done| |done].
  eapply Forall_impl; [exact H|]. intros c Hc; cbn in Hc. apply Z.eqb_neq. lia.
Qed.

Lemma cut_at_id p s : Forall (fun c => p c = false) s -> cut_at p s = s.
Proof.
  intros H. unfold cut_at. rewrite <- (app_nil_r s) at 1. by rewrite span_prefix.
Qed.

Lemma cut_at_stop p a c b :
  Forall (fun c => p c = false) a -> p c = true -> cut_at p (a ++ c :: b) = a.
Proof. intros Ha Hc. unfold cut_at. by rewrite span_prefix. Qed.

Lemma strchr_None s c : strchr s c = None <-> c ∉ s.
Proof.
  unfold strchr. split.
  - intros H Hin. destruct ((span (Z.eqb c) s).2) eqn:E; [|done].
    pose proof (span_app (Z.eqb c) s) as Happ. rewrite E, app_nil_r in Happ.
    pose proof (span_fst_Forall (Z.eqb c) s) as HF. rewrite Happ in HF.
    rewrite Forall_forall in HF. apply HF in Hin. lia.
  - intros Hn. destruct ((span (Z.eqb c) s).2) as [|d r] eqn:E; [done|]. exfalso. apply Hn.
    pose proof (span_snd_head _ _ _ _ E) as Hd. apply Z.eqb_eq in Hd. subst d.
    rewrite <- (span_app (Z.eqb c) s), E. set_solver.
Qed.

Lemma starts_with_spec p s : starts_with p s = true <-> exists r, s = p ++ r.
Proof.
  revert s; induction p as [|a p IH]; intros s; cbn; [by split; eauto|].
  destruct s as [|b s]; [by split; [done|intros [r ?]]|].
  rewrite andb_true_iff, Z.eqb_eq, IH. split.
  - intros (-> & r & ->). by exists r.
  - intros (r & [= -> ->]). split; [done|by exists r].
Qed.

Lemma starts_with_app p r : starts_with p (p ++ r) = true.
Proof. apply starts_with_spec. eauto. Qed.

Lemma starts_with_drop p s : starts_with p s = true -> s = p ++ drop (length p) s.
Proof. rewrite starts_with_spec. intros [r ->]. by rewrite drop_app_length. Qed.

Lemma scan_lit_app p r : scan_lit p (p ++ r) = Some r.
Proof. unfold scan_lit. by rewrite starts_with_app, drop_app_length. Qed.

(** [strstr] finds an occurrence, and the first one. *)
Lemma strstr_Some s n r :
  strstr s n = Some r -> exists a b, s = a ++ r /\ r = n ++ b.
Proof.
  revert r; induction s as [|c s IH]; intros r; cbn.
  - destruct (starts_with n []) eqn:E; [|done]. intros [= <-].
    apply starts_with_spec in E as [b E]. by exists [], b.
  - destruct (starts_with n (c :: s)) eqn:E.
    + intros [= <-]. apply starts_with_spec in E as [b E]. by exists [], b.
    + intros H. destruct (IH _ H) as (a & b & -> & ->). by exists (c :: a), b.
Qed.

Lemma strstr_app s n r : is_Some (strstr (s ++ n ++ r) n).
Proof.
  induction s as [|c s IH].
  - rewrite app_nil_l. assert (H : starts_with n (n ++ r) = true) by apply starts_with_app.
    destruct (n ++ r); cbn [strstr]; rewrite H; eauto.
  - cbn. split_if; eauto.
Qed.

(** A text that starts with the needle. *)
Lemma strstr_here n r : n <> [] -> strstr (n ++ r) n = Some (n ++ r).
Proof. intros Hn. destruct n as [|c n]; [done|]. cbn [app strstr]. change (c :: n ++ r) with ((c :: n) ++ r). by rewrite starts_with_app. Qed.

(** A text without the needle's first character is skipped. *)
Lemma strstr_skip c x s n : c ∉ x -> strstr (x ++ s) (c :: n) = strstr s (c :: n).
Proof.
  induction x as [|d x IH]; intros H; [done|]. rewrite not_elem_of_cons in H. destruct H as [Hd Hx].
  cbn. destruct (Z.eqb_spec c d); [done|]. by apply IH.
Qed.

Lemma contains_spec s n : contains s n = true <-> exists a b, s = a ++ n ++ b.
Proof.
  unfold contains. rewrite bool_decide_eq_true. split.
  - intros [r H]. apply strstr_Some in H as (a & b & -> & ->). eauto.
  - intros (a & b & ->). apply strstr_app.
Qed.

Lemma fgets_upto_app n s : (fgets_upto n s).1 ++ (fgets_upto n s).2 = s.
Proof.
  revert s; induction n as [|n IH]; intros s; [done|]. destruct s as [|c s]; [done|].
  cbn. destruct (c =? NL); [done|]. specialize (IH s). destruct (fgets_upto n s) as [a b].
  cbn in *. by rewrite IH.
Qed.

Lemma fgets_upto_length n s : (length (fgets_upto n s).1 <= n)%nat.
Proof.
  revert s; induction n as [|n IH]; intros s; [cbn; lia|]. destruct s as [|c s]; [cbn; lia|].
  cbn. destruct (c =? NL); [cbn; lia|]. specialize (IH s). destruct (fgets_upto n s). cbn in *. lia.
Qed.

Lemma fgets_progress n s l r :
  (1 < n)%nat -> fgets n s = Some (l, r) -> s = l ++ r /\ l <> [] /\ (length r < length s)%nat.
Proof.
  intros Hn H. unfold fgets in H. destruct s as [|c s]; [done|].
  replace (n - 1)%nat with (S (n - 2)) in H by lia.
  assert (H' : fgets_upto (S (n - 2)) (c :: s) = (l, r)) by congruence.
  clear H; rename H' into H. pose proof (fgets_upto_app (S (n - 2)) (c :: s)) as Happ.
  rewrite H in Happ. cbn [fst snd] in Happ. split; [done|].
  assert (Hl : l <> []).
  { cbn in H. destruct (c =? NL); [injection H as <- <-; done|].
    destruct (fgets_upto (n - 2) s). injection H as <- <-. done. }
  split; [done|]. rewrite <- Happ, length_app. destruct l; [done|]. cbn. lia.
Qed.

(** The buffers read by the loop, put together, are the file: the loop reads
    all of it whatever the buffer size. *)
Lemma fgets_loop_concat fuel n s :
  (1 < n)%nat -> (length s <= fuel)%nat -> concat (fgets_loop fuel n s) = s.
Proof.
  intros Hn. revert s; induction fuel as [|f IH]; intros s Hf.
  - destruct s; [done|cbn in Hf; lia].
  - cbn. destruct (fgets n s) as [[l r]|] eqn:E.
    + apply fgets_progress in E as (-> & Hl & Hlt); [|done]. cbn.
      rewrite IH; [done|]. rewrite length_app in *. lia.
    + unfold fgets in E. by destruct s.
Qed.

Lemma fgets_all_concat n s : (1 < n)%nat -> concat (fgets_all n s) = s.
Proof. intros. by apply fgets_loop_concat. Qed.

(** A record without newline that fits the buffer is read back whole. *)
Lemma fgets_upto_line n a b :
  NL ∉ a -> (length a < n)%nat -> fgets_upto n (a ++ NL :: b) = (a ++ [NL], b).
Proof.
  revert a; induction n as [|n IH]; intros a Ha Hn; [lia|].
  destruct a as [|c a]; [done|]. cbn in Ha |- *.
  destruct (Z.eqb_spec c NL) as [->|Hc]; [set_solver|].
  rewrite IH; [done|set_solver|cbn in Hn; lia].
Qed.

Lemma fgets_loop_fuel f1 f2 n s :
  (1 < n)%nat -> (length s <= f1)%nat -> (length s <= f2)%nat ->
  fgets_loop f1 n s = fgets_loop f2 n s.
Proof.
  intros Hn. revert f2 s; induction f1 as [|f1 IH]; intros f2 s H1 H2.
  - destruct s; [|cbn in H1; lia]. by destruct f2.
  - destruct f2 as [|f2]; [destruct s; [done|cbn in H2; lia]|]. cbn.
    destruct (fgets n s) as [[l r]|] eqn:E; [|done].
    apply fgets_progress in E as (-> & _ & Hlt); [|done].
    f_equal. rewrite length_app in *. apply IH; lia.
Qed.

Lemma fgets_all_line n a b :
  (1 < n)%nat -> NL ∉ a -> (length a + 1 < n)%nat ->
  fgets_all n (a ++ NL :: b) = (a ++ [NL]) :: fgets_all n b.
Proof.
  intros Hn Ha Hl. unfold fgets_all. rewrite length_app. cbn [length].
  replace (length a + S (length b))%nat with (S (length a + length b)) by lia.
  cbn [fgets_loop]. unfold fgets at 1. destruct (a ++ NL :: b) as [|x l] eqn:E; [by destruct a|].
  rewrite <- E, fgets_upto_line by (done || lia). f_equal.
  apply fgets_loop_fuel; lia.
Qed.

(** ** Decimal round trip *)

Lemma digit_value_48 v : 0 <= v < 10 -> digit_value (48 + v) = v.
Proof. intros. unfold digit_value, isdigit. repeat split_if; to_prop; lia. Qed.

Lemma scan_digits_dec fuel n acc :
  0 <= n < 10 ^ (Z.of_nat fuel + 1) ->
  scan_digits 10 0 (dec_digits fuel n acc) = scan_digits 10 n acc.
Proof.
  revert n acc; induction fuel as [|f IH]; intros n acc Hn.
  - change (10 ^ (Z.of_nat 0 + 1)) with 10 in Hn. cbn [dec_digits scan_digits].
    rewrite Z.mod_small, digit_value_48 by lia. destruct (Z.ltb_spec n 10); [|lia].
    f_equal; lia.
  - cbn [dec_digits]. pose proof (Z.mod_pos_bound n 10 ltac:(lia)) as Hm.
    destruct (Z.eqb_spec (n / 10) 0) as [E|E].
    + cbn [scan_digits]. rewrite digit_value_48 by lia.
      destruct (Z.ltb_spec (n mod 10) 10); [|lia]. f_equal.
      rewrite (Z.div_mod n 10) at 2 by lia. lia.
    + rewrite IH.
      * cbn [scan_digits]. rewrite digit_value_48 by lia.
        destruct (Z.ltb_spec (n mod 10) 10); [|lia]. f_equal.
        rewrite (Z.div_mod n 10) at 3 by lia. lia.
      * rewrite Nat2Z.inj_succ, <- Z.add_1_l, <- Z.add_assoc, Z.pow_add_r in Hn by lia.
        split; [apply Z.div_pos; lia|]. apply Z.div_lt_upper_bound; lia.
Qed.

Lemma dec_digits_app fuel n acc : dec_digits fuel n acc = dec_digits fuel n [] ++ acc.
Proof.
  revert n acc; induction fuel as [|f IH]; intros n acc; [done|]. cbn [dec_digits].
  destruct (n / 10 =? 0); [done|]. rewrite IH, (IH _ [_]), <- app_assoc. done.
Qed.

Lemma dec_digits_isdigit fuel n : Forall (fun c => isdigit c = true) (dec_digits fuel n []).
Proof.
  revert n; induction fuel as [|f IH]; intros n; cbn [dec_digits];
    pose proof (Z.mod_pos_bound n 10 ltac:(lia)) as Hm;
    (assert (Hd : isdigit (48 + n mod 10) = true)
      by (unfold isdigit; apply andb_true_iff; rewrite !Z.leb_le; lia)).
  - by repeat constructor.
  - destruct (n / 10 =? 0); [by repeat constructor|].
    rewrite dec_digits_app. apply Forall_app. split; [apply IH|by repeat constructor].
Qed.

Lemma dec_digits_nonempty fuel n acc : dec_digits fuel n acc <> [].
Proof.
  revert n acc; induction fuel as [|f IH]; intros n acc; cbn [dec_digits]; [done|].
  destruct (n / 10 =? 0); [done|]. apply IH.
Qed.

Lemma print_nat_isdigit n : Forall (fun c => isdigit c = true) (print_nat n).
Proof. apply dec_digits_isdigit. Qed.

Lemma print_nat_nonempty n : print_nat n <> [].
Proof. apply dec_digits_nonempty. Qed.

Lemma print_nat_fuel n : 0 <= n -> n < 10 ^ (Z.of_nat (Z.to_nat (Z.log2 n)) + 1).
Proof.
  intros Hn. rewrite Z2Nat.id by apply Z.log2_nonneg.
  destruct (Z.eq_dec n 0) as [->|H0]; [cbn; lia|].
  eapply Z.lt_le_trans; [apply (Z.log2_spec n); lia|].
  apply Z.pow_le_mono_l. lia.
Qed.

Lemma isdigit_facts c :
  isdigit c = true -> 48 <= c <= 57 /\ isspace c = false /\ digit_value c < 10.
Proof.
  unfold isdigit, isspace, digit_value. intros H. to_prop.
  repeat split; [lia|lia| |].
  - apply orb_false_iff. rewrite Z.eqb_neq, andb_false_iff, !Z.leb_gt. lia.
  - unfold isdigit. repeat split_if; to_prop; lia.
Qed.

Lemma scan_digits_print n rest :
  0 <= n -> (match rest with [] => True | c :: _ => isalnum c = false end) ->
  scan_digits 10 0 (print_nat n ++ rest) = (n, rest).
Proof.
  intros Hn Hr. unfold print_nat. rewrite <- dec_digits_app, scan_digits_dec.
  - destruct rest as [|c r]; [done|]. cbn.
    destruct (Z.ltb_spec (digit_value c) 10) as [H|]; [|done].
    unfold isalnum, isalpha in Hr. unfold digit_value in H.
    repeat match type of Hr with _ || _ = false => apply orb_false_iff in Hr as [? Hr] end.
    to_prop. rewrite Hr in H. repeat split_if; try congruence; lia.
  - split; [done|]. by apply print_nat_fuel.
Qed.

Lemma skip_space_nonspace c r : isspace c = false -> skip_space (c :: r) = c :: r.
Proof. intros H. unfold skip_space. cbn. by rewrite H. Qed.

(** [strtol] and [strtoul] read back what [%lu] printed. *)
Lemma scan_number_print n rest :
  0 <= n -> (match rest with [] => True | c :: _ => isalnum c = false end) ->
  scan_number 10 (print_nat n ++ rest) = Some (false, n, rest).
Proof.
  intros Hn Hr. pose proof (scan_digits_print n rest Hn Hr) as Hs.
  pose proof (print_nat_isdigit n) as Hd. destruct (print_nat n) as [|d ds] eqn:E;
    [by apply print_nat_nonempty in E|].
  apply Forall_cons in Hd as [Hd _]. apply isdigit_facts in Hd as (H48 & Hsp & Hv).
  unfold scan_number. cbn [app]. rewrite skip_space_nonspace by done.
  destruct (Z.eqb_spec d 45); [lia|]. destruct (Z.eqb_spec d 43); [lia|].
  destruct (Z.ltb_spec (digit_value d) 10); [|lia].
  change (d :: ds ++ rest) with ((d :: ds) ++ rest). by rewrite Hs.
Qed.

(** ** Bounds on printed numbers *)

Lemma dec_digits_length fuel n acc :
  0 <= n -> (length (dec_digits fuel n acc) <= fuel + 1 + length acc)%nat.
Proof.
  revert n acc; induction fuel as [|f IH]; intros n acc Hn; cbn [dec_digits]; [cbn; lia|].
  destruct (n / 10 =? 0); [cbn; lia|]. pose proof (IH (n / 10) (48 + n mod 10 :: acc) ltac:(apply Z.div_pos; lia)).
  cbn [length] in *. lia.
Qed.

Lemma print_nat_length n k : 0 <= n < 2 ^ Z.of_nat k -> (length (print_nat n) <= k + 1)%nat.
Proof.
  intros Hn. unfold print_nat. etransitivity; [apply dec_digits_length; lia|]. cbn [length].
  destruct (Z.eq_dec n 0) as [->|H0]; [cbn; lia|].
  assert (Z.log2 n < Z.of_nat k) by (apply Z.log2_lt_pow2; lia). pose proof (Z.log2_nonneg n). lia.
Qed.

Lemma print_int_length n k : - 2 ^ Z.of_nat k < n < 2 ^ Z.of_nat k -> (length (print_int n) <= k + 2)%nat.
Proof.
  intros Hn. unfold print_int. destruct (Z.ltb_spec n 0).
  - cbn [length]. pose proof (print_nat_length (- n) k). lia.
  - pose proof (print_nat_length n k). lia.
Qed.

(** [k] decimal digits are enough below [10^k]. *)
Lemma dec_digits_length10 k : forall fuel n acc, 0 <= n < 10 ^ Z.of_nat (S k) ->
  (length (dec_digits fuel n acc) <= S k + length acc)%nat.
Proof.
  induction k as [|k IH]; intros fuel n acc Hn; destruct fuel as [|f]; cbn [dec_digits]; try (cbn [length]; lia).
  - change (10 ^ Z.of_nat 1) with 10 in Hn. rewrite Z.div_small by lia. cbn. lia.
  - destruct (Z.eqb_spec (n / 10) 0); [cbn [length]; lia|].
    etransitivity; [apply IH|cbn [length]; lia]. rewrite (Nat2Z.inj_succ (S k)), Z.pow_succ_r in Hn by lia.
    split; [apply Z.div_pos; lia|apply Z.div_lt_upper_bound; lia].
Qed.

Lemma print_nat_length10 k n : 0 <= n < 10 ^ Z.of_nat (S k) -> (length (print_nat n) <= S k)%nat.
Proof. intros Hn. etransitivity; [by apply dec_digits_length10|]. cbn. lia. Qed.

(** The two hexadecimal digits of a byte. *)
Lemma nibbles c : 0 <= c < 256 ->
  0 <= Z.shiftr c 4 < 16 /\ 0 <= Z.land c 15 < 16 /\ Z.shiftr c 4 * 16 + Z.land c 15 = c.
Proof.
  intros H. rewrite Z.shiftr_div_pow2 by lia. change 15 with (Z.ones 4). rewrite Z.land_ones by lia.
  change (2 ^ 4) with 16. pose proof (Z.div_mod c 16). pose proof (Z.mod_pos_bound c 16). lia.
Qed.

(** Bit fields put together without overlap. *)
Lemma lor_shiftl x y k : 0 <= k -> 0 <= y < 2 ^ k -> Z.lor (Z.shiftl x k) y = x * 2 ^ k + y.
Proof.
  intros Hk Hy. rewrite <- Z.shiftl_mul_pow2 by done.
  assert (H0 : Z.land (Z.shiftl x k) y = 0).
  { apply Z.bits_inj'. intros n Hn. rewrite Z.land_spec, Z.bits_0. destruct (Z.lt_ge_cases n k).
    - by rewrite Z.shiftl_spec_low.
    - replace (Z.testbit y n) with false; [by rewrite andb_false_r|]. symmetry.
      destruct (Z.eq_dec y 0) as [->|]; [apply Z.bits_0|]. apply Z.bits_above_log2; [lia|].
      apply Z.lt_le_trans with k; [|done]. apply Z.log2_lt_pow2; lia. }
  pose proof (Z.add_lor_land (Z.shiftl x k) y). lia.
Qed.
