(* ===== verification/World.v ===== *)
(** * The operating system as the programs see it

    Files, the wall clock, random bytes, fallible system calls and the peers a
    program connects to are one explicit state, [world].  What the kernel
    decides (a call that fails, the next clock value, the bytes a peer sends,
    the size of each [recv]/[send]) is read from oracle lists in that state, so
    a theorem about every [world] is a theorem about every such decision. *)
From S2P Require Import Prelude CLib.

Open Scope Z_scope.

(** ** Sockets *)

(** A connected stream socket: the bytes the peer will send, the bytes sent so
    far, and the results of the next [recv]/[send] calls: a value [<= 0] is an
    error or time-out, a positive one limits the transfer; when the list is
    exhausted calls transfer as much as they can. *)
Record socket := Socket { s_in : bytes; s_out : bytes; s_chunks : list Z }.

(** How many bytes the kernel lets the next call move, [None] for an error. *)
Definition next_chunk (n : nat) (s : socket) : option nat * list Z :=
  match s_chunks s with
  | [] => (Some n, [])
  | z :: zs => (if z <=? 0 then None else Some (Nat.min (Z.to_nat z) n), zs)
  end.

(** [recv(s, buf, n, 0)]: the bytes received, [None] when it returns [<= 0]. *)
Definition recv (n : nat) : st socket (option bytes) := fun s =>
  let '(k, zs) := next_chunk n s in
  match k, s_in s with
  | Some k, _ :: _ => (Some (take k (s_in s)), Socket (drop k (s_in s)) (s_out s) zs)
  | _, _ => (None, Socket (s_in s) (s_out s) zs)
  end.

(** [send(s, d, n, 0)]: the number of bytes sent, [None] when it returns [<= 0]. *)
Definition send (d : bytes) : st socket (option nat) := fun s =>
  let '(k, zs) := next_chunk (length d) s in
  match k with
  | Some k => (Some k, Socket (s_in s) (s_out s ++ take k d) zs)
  | None => (None, Socket (s_in s) (s_out s) zs)
  end.

(** The kernel never refuses a transfer on this socket. *)
Definition willing (s : socket) : Prop := Forall (fun z => 0 < z) (s_chunks s).

#[global] Instance willing_dec s : Decision (willing s).
Proof. unfold willing. apply _. Defined.

(** ** The rest of the system *)

Record world := World {
  w_fs : gmap (list Z) (list Z);   (** path |-> content *)
  w_now : Z;                       (** the value [time] returned last *)
  w_ticks : list Z;                (** how far the clock moves before each call *)
  w_faults : list bool;            (** whether each next fallible call fails *)
  w_random : list (option bytes);  (** successive reads of /dev/urandom *)
  w_peers : list (option socket);  (** successive outgoing connections *)
  w_mtimes : gmap (list Z) Z;      (** path |-> last modification, for [stat] *)
  w_closed : list (bytes * Z * socket); (** outgoing connections that are over:
                                            host, port and final state *)
  w_kept : list bool               (** whether each next removal of a file fails *)
}.

(** The file [path] with the given content, modified now. *)
Definition store (path content : bytes) (w : world) : world :=
  World (<[path := content]> (w_fs w)) (w_now w) (w_ticks w) (w_faults w) (w_random w) (w_peers w)
        (<[path := w_now w]> (w_mtimes w)) (w_closed w) (w_kept w).

Definition unlink (path : bytes) (w : world) : world :=
  World (delete path (w_fs w)) (w_now w) (w_ticks w) (w_faults w) (w_random w) (w_peers w)
        (delete path (w_mtimes w)) (w_closed w) (w_kept w).

(** The file [from], with its modification time, under the name [to]. *)
Definition move (from to : bytes) (content : bytes) (w : world) : world :=
  World (<[to := content]> (delete from (w_fs w))) (w_now w) (w_ticks w) (w_faults w)
        (w_random w) (w_peers w)
        (match w_mtimes w !! from with
         | Some m => <[to := m]> (delete from (w_mtimes w))
         | None => w_mtimes w
         end) (w_closed w) (w_kept w).

(** [time(NULL)]. *)
Definition time : st world Z := fun w =>
  match w_ticks w with
  | [] => (w_now w, w)
  | t :: ts => (w_now w + t, World (w_fs w) (w_now w + t) ts (w_faults w) (w_random w) (w_peers w) (w_mtimes w) (w_closed w) (w_kept w))
  end.

(** Whether the next fallible call fails. *)
Definition fault : st world bool := fun w =>
  match w_faults w with
  | [] => (false, w)
  | b :: bs => (b, World (w_fs w) (w_now w) (w_ticks w) bs (w_random w) (w_peers w) (w_mtimes w) (w_closed w) (w_kept w))
  end.

(** Reading [n] bytes of /dev/urandom; a short read is a failure. *)
Definition urandom (n : nat) : st world (option bytes) := fun w =>
  match w_random w with
  | [] => (None, w)
  | r :: rs => (match r with
                | Some b => if (length b =? n)%nat then Some b else None
                | None => None
                end,
                World (w_fs w) (w_now w) (w_ticks w) (w_faults w) rs (w_peers w) (w_mtimes w) (w_closed w) (w_kept w))
  end.

(** Opening a connection to a peer. *)
Definition connect_peer : st world (option socket) := fun w =>
  match w_peers w with
  | [] => (None, w)
  | p :: ps => (p, World (w_fs w) (w_now w) (w_ticks w) (w_faults w) (w_random w) ps (w_mtimes w) (w_closed w) (w_kept w))
  end.

(** [network_close] of an outgoing connection. *)
Definition close_peer (host : bytes) (port : Z) (s : socket) : st world unit := modify (fun w =>
  World (w_fs w) (w_now w) (w_ticks w) (w_faults w) (w_random w) (w_peers w) (w_mtimes w)
        (w_closed w ++ [(host, port, s)]) (w_kept w)).

(** ** Files *)

(** [fopen(path,"r")] followed by reading: [None] when the file is missing. *)
Definition file_read (path : bytes) : st world (option bytes) := gets (fun w => w_fs w !! path).

(** [fopen(path,"a")], write, close; [false] when the file cannot be opened. *)
Definition file_append (path data : bytes) : st world bool :=
  bad ← fault;
  if bad : bool then mret false
  else modify (fun w => store path (default [] (w_fs w !! path) ++ data) w) ;; mret true.

(** [fopen(path,"w")]: the file is created empty; [false] on failure. *)
Definition file_create (path : bytes) : st world bool :=
  bad ← fault;
  if bad : bool then mret false
  else modify (store path []) ;; mret true.

(** Writing to an open file: on a failure nothing of [data] is kept. *)
Definition file_write (path data : bytes) : st world bool :=
  bad ← fault;
  if bad : bool then mret false
  else modify (fun w => store path (default [] (w_fs w !! path) ++ data) w) ;; mret true.

(** Whether the next removal fails. *)
Definition removal_fails : st world bool := fun w =>
  match w_kept w with
  | [] => (false, w)
  | b :: bs => (b, World (w_fs w) (w_now w) (w_ticks w) (w_faults w) (w_random w) (w_peers w) (w_mtimes w) (w_closed w) bs)
  end.

(** [remove(path)] and [unlink(path)]; [false] when the file cannot be removed. *)
Definition file_remove (path : bytes) : st world bool :=
  kept ← removal_fails;
  if kept : bool then mret false
  else modify (unlink path) ;; mret true.

(** [stat(path, &info)]: the modification time. *)
Definition file_mtime (path : bytes) : st world (option Z) := gets (fun w => w_mtimes w !! path).

(** [rename(from, to)]; [false] also when [from] does not exist. *)
Definition file_rename (from to : bytes) : st world bool :=
  bad ← fault;
  found ← file_read from;
  match bad, found with
  | false, Some c => modify (move from to c) ;; mret true
  | _, _ => mret false
  end.

(** A clock that never goes back. *)
Definition monotone (w : world) : Prop := Forall (fun t => 0 <= t) (w_ticks w).

#[global] Instance monotone_dec w : Decision (monotone w).
Proof. unfold monotone. apply _. Defined.

(** ** When no call fails *)

Section no_faults.
Context (w : world) (Hw : w_faults w = []).

Lemma fault_none : fault w = (false, w).
Proof. unfold fault. by rewrite Hw. Qed.

Lemma file_append_ok path data :
  file_append path data w = (true, store path (default [] (w_fs w !! path) ++ data) w).
Proof. unfold file_append. by rewrite st_bind_run, fault_none. Qed.

Lemma file_create_ok path : file_create path w = (true, store path [] w).
Proof. unfold file_create. by rewrite st_bind_run, fault_none. Qed.

Lemma file_write_ok path data :
  file_write path data w = (true, store path (default [] (w_fs w !! path) ++ data) w).
Proof. unfold file_write. by rewrite st_bind_run, fault_none. Qed.

Lemma file_rename_ok from to c :
  w_fs w !! from = Some c -> file_rename from to w = (true, move from to c w).
Proof.
  intros Hc. unfold file_rename. rewrite st_bind_run, fault_none. cbn [fst snd].
  rewrite st_bind_run. cbn [fst snd file_read gets]. by rewrite Hc.
Qed.
End no_faults.

(** ** What each call does to the files, in every case *)

Lemma fault_fs w : w_fs (fault w).2 = w_fs w.
Proof. unfold fault. by destruct (w_faults w). Qed.

Lemma time_fs w : w_fs (time w).2 = w_fs w.
Proof. unfold time. by destruct (w_ticks w). Qed.

Lemma urandom_fs n w : w_fs (urandom n w).2 = w_fs w.
Proof. unfold urandom. by destruct (w_random w). Qed.

Lemma file_create_fs path w :
  let '(b, w') := file_create path w in
  w_fs w' = if b then <[path := []]> (w_fs w) else w_fs w.
Proof.
  unfold file_create. rewrite st_bind_run. pose proof (fault_fs w) as H.
  destruct (fault w) as [[] w1]; cbn [fst snd] in *; [done|].
  rewrite st_bind_run. cbn [fst snd modify mret st_ret store w_fs]. by rewrite H.
Qed.

Lemma file_write_fs path data w :
  let '(b, w') := file_write path data w in
  w_fs w' = if b then <[path := default [] (w_fs w !! path) ++ data]> (w_fs w) else w_fs w.
Proof.
  unfold file_write. rewrite st_bind_run. pose proof (fault_fs w) as H.
  destruct (fault w) as [[] w1]; cbn [fst snd] in *; [done|].
  rewrite st_bind_run. cbn [fst snd modify mret st_ret store w_fs]. by rewrite H.
Qed.

Lemma file_remove_fs path w :
  let '(b, w') := file_remove path w in
  b = negb (hd false (w_kept w)) /\ w_fs w' = (if b then delete path (w_fs w) else w_fs w) /\ w_kept w' = tl (w_kept w).
Proof. unfold file_remove, removal_fails. rewrite st_bind_run. by destruct w as [? ? ? ? ? ? ? ? [|[] ?]]. Qed.

Lemma file_remove_ok path w : w_kept w = [] -> file_remove path w = (true, unlink path w).
Proof. intros H. unfold file_remove, removal_fails. rewrite st_bind_run, H. done. Qed.

(** Only removals decide about removals. *)
Lemma fault_kept w : w_kept (fault w).2 = w_kept w.
Proof. unfold fault. by destruct (w_faults w). Qed.

Lemma urandom_kept n w : w_kept (urandom n w).2 = w_kept w.
Proof. unfold urandom. by destruct (w_random w). Qed.

Lemma file_create_kept path w : w_kept (file_create path w).2 = w_kept w.
Proof. unfold file_create. rewrite st_bind_run, <- (fault_kept w). by destruct (fault w) as [[] w1]. Qed.

Lemma file_write_kept path data w : w_kept (file_write path data w).2 = w_kept w.
Proof. unfold file_write. rewrite st_bind_run, <- (fault_kept w). by destruct (fault w) as [[] w1]. Qed.

Lemma file_rename_kept from to w : w_kept (file_rename from to w).2 = w_kept w.
Proof.
  unfold file_rename. rewrite st_bind_run, <- (fault_kept w). destruct (fault w) as [b w1]. cbn [fst snd].
  rewrite st_bind_run. cbn [fst snd file_read gets]. by destruct b, (w_fs w1 !! from).
Qed.

Lemma file_rename_fs from to w :
  let '(b, w') := file_rename from to w in
  if b then exists c, w_fs w !! from = Some c /\ w_fs w' = <[to := c]> (delete from (w_fs w))
  else w_fs w' = w_fs w.
Proof.
  unfold file_rename. rewrite st_bind_run. pose proof (fault_fs w) as H.
  destruct (fault w) as [b w1]. cbn [fst snd] in *. rewrite st_bind_run.
  cbn [fst snd file_read gets]. rewrite H.
  destruct b, (w_fs w !! from) as [c|] eqn:E; try done. rewrite st_bind_run.
  cbn [fst snd modify mret st_ret move w_fs]. rewrite H. eauto.
Qed.
