(* ===== verification/Network.v ===== *)
(** * council/src/network.c: the byte-stream layer

    [network_send_bytes], [network_read_bytes], [network_send] and
    [network_read_line] on a connected socket.  A result [true] (or [Some]) is
    the C return value [0] (or the length), [false] (or [None]) is [-1]. *)
From S2P Require Import Prelude CLib World.

Open Scope Z_scope.

(** [while(n){z=send(s,d,n,0);if(z<=0)return -1;d+=z;n-=z;}]; every iteration
    sends at least one byte, so the length of the data is enough fuel. *)
Fixpoint send_loop (fuel : nat) (d : bytes) : st socket bool :=
  match d, fuel with
  | [], _ => mret true
  | _, O => mret false
  | _, S f => z ← send d;
              match z with
              | None => mret false
              | Some k => send_loop f (drop k d)
              end
  end.

Definition network_send_bytes (d : bytes) : st socket bool := send_loop (length d) d.

(** [network_send] sends a C string. *)
Definition network_send (d : bytes) : st socket bool := network_send_bytes (cstr d).

(** [while(n){z=recv(s,d,n,0);if(z<=0)return -1;d+=z;n-=z;}]. *)
Fixpoint read_loop (fuel n : nat) (acc : bytes) : st socket (option bytes) :=
  match n, fuel with
  | O, _ => mret (Some acc)
  | _, O => mret None
  | _, S f => z ← recv n;
              match z with
              | None => mret None
              | Some b => read_loop f (n - length b) (acc ++ b)
              end
  end.

Definition network_read_bytes (n : nat) : st socket (option bytes) := read_loop n n [].

(** [while(u+1<n){recv one byte; stop at newline; store unless CR} return -1;]
    The loop consumes a byte of input per iteration, so the length of the
    input, plus one for the call that finds it empty, is enough fuel.  Callers
    use the buffer as a C string. *)
Fixpoint read_line_loop (fuel n : nat) (acc : bytes) : st socket (option bytes) :=
  match fuel with
  | O => mret None
  | S f =>
      if (length acc + 1 <? n)%nat then
        z ← recv 1;
        match z with
        | Some [x] => if x =? NL then mret (Some (cstr acc))
                      else if x =? CR then read_line_loop f n acc
                      else read_line_loop f n (acc ++ [x])
        | _ => mret None
        end
      else mret None
  end.

Definition network_read_line (n : nat) : st socket (option bytes) := fun s =>
  read_line_loop (S (length (s_in s))) n [] s.

(** ** Transfers do not depend on how the kernel cuts them up *)

Lemma next_chunk_willing n s :
  willing s -> (0 < n)%nat ->
  exists k zs, next_chunk n s = (Some k, zs) /\ (0 < k <= n)%nat /\ Forall (fun z => 0 < z) zs.
Proof.
  unfold willing, next_chunk. intros Hw Hn. destruct (s_chunks s) as [|z zs].
  - exists n, []. split_and!; done || lia.
  - apply Forall_cons in Hw as [Hz Hzs]. destruct (Z.leb_spec z 0); [lia|].
    exists (Nat.min (Z.to_nat z) n), zs. split_and!; done || lia.
Qed.

Lemma next_chunk_bound n s k zs : next_chunk n s = (Some k, zs) -> (k <= n)%nat.
Proof.
  unfold next_chunk. destruct (s_chunks s) as [|z ?]; [naive_solver lia|].
  destruct (z <=? 0); [done|]. intros [= <- _]. lia.
Qed.

Lemma send_loop_ok fuel d s :
  willing s -> (length d <= fuel)%nat ->
  exists zs, send_loop fuel d s = (true, Socket (s_in s) (s_out s ++ d) zs)
             /\ Forall (fun z => 0 < z) zs.
Proof.
  revert d s; induction fuel as [|f IH]; intros d s Hw Hf.
  - destruct d; [|cbn in Hf; lia]. cbn. exists (s_chunks s). split; [|done].
    unfold mret, st_ret. destruct s; cbn. by rewrite app_nil_r.
  - destruct d as [|x d].
    + cbn. exists (s_chunks s). split; [|done]. unfold mret, st_ret.
      destruct s; cbn. by rewrite app_nil_r.
    + cbn [send_loop]. rewrite st_bind_run. unfold send.
      destruct (next_chunk_willing (length (x :: d)) s Hw ltac:(cbn; lia))
        as (k & zs & -> & Hk & Hzs). cbn [fst snd].
      destruct (IH (drop k (x :: d)) (Socket (s_in s) (s_out s ++ take k (x :: d)) zs) Hzs)
        as (zs' & -> & Hzs').
      { rewrite length_drop. cbn [length] in *. lia. }
      exists zs'. split; [|done]. cbn [s_in s_out].
      by rewrite <- app_assoc, take_drop.
Qed.

Lemma network_send_bytes_ok d s :
  willing s -> exists zs, network_send_bytes d s = (true, Socket (s_in s) (s_out s ++ d) zs)
                          /\ Forall (fun z => 0 < z) zs.
Proof. intros. by apply send_loop_ok. Qed.

(** In every case what has been sent is a prefix of the data, all of it when
    the call succeeds. *)
Lemma send_loop_prefix fuel d s b s' :
  send_loop fuel d s = (b, s') ->
  s_in s' = s_in s /\ exists p q, d = p ++ q /\ s_out s' = s_out s ++ p /\ (b = true -> q = []).
Proof.
  revert d s; induction fuel as [|f IH]; intros d s.
  - destruct d; cbn; intros [= <- <-]; (split; [done|]); eexists [], _;
      (split_and!; [reflexivity|by rewrite app_nil_r|done]).
  - destruct d as [|x d].
    { cbn. intros [= <- <-]. split; [done|]. eexists [], _.
      split_and!; [reflexivity|by rewrite app_nil_r|done]. }
    cbn [send_loop]. rewrite st_bind_run. unfold send.
    destruct (next_chunk (length (x :: d)) s) as [[k|] zs] eqn:E; cbn [fst snd].
    + intros H. apply IH in H as (Hin & p & q & Hd & Hout & Hb). cbn in Hin, Hout.
      split; [done|]. exists (take k (x :: d) ++ p), q.
      rewrite <- app_assoc, <- Hd, take_drop, Hout, app_assoc. done.
    + intros [= <- <-]. split; [done|]. eexists [], _.
      split_and!; [reflexivity|cbn; by rewrite app_nil_r|done].
Qed.

Lemma read_loop_ok fuel n acc s :
  willing s -> (n <= fuel)%nat -> (n <= length (s_in s))%nat ->
  exists zs, read_loop fuel n acc s
             = (Some (acc ++ take n (s_in s)), Socket (drop n (s_in s)) (s_out s) zs)
             /\ Forall (fun z => 0 < z) zs.
Proof.
  revert n acc s; induction fuel as [|f IH]; intros n acc s Hw Hf Hn.
  - assert (n = 0%nat) as -> by lia. cbn. exists (s_chunks s). split; [|done].
    unfold mret, st_ret. destruct s; cbn. by rewrite app_nil_r.
  - destruct n as [|n].
    + cbn. exists (s_chunks s). split; [|done]. unfold mret, st_ret.
      destruct s; cbn. by rewrite app_nil_r.
    + cbn [read_loop]. rewrite st_bind_run. unfold recv.
      destruct (next_chunk_willing (S n) s Hw ltac:(lia)) as (k & zs & -> & Hk & Hzs).
      destruct (s_in s) as [|x xs] eqn:Ein; [cbn in Hn; lia|]. rewrite <- Ein in *. cbn [fst snd].
      rewrite length_take, Nat.min_l by lia.
      destruct (IH (S n - k)%nat (acc ++ take k (s_in s)) (Socket (drop k (s_in s)) (s_out s) zs))
        as (zs' & -> & Hzs'); [done|lia|cbn; rewrite length_drop; lia|].
      exists zs'. split; [|done]. cbn [s_in s_out]. rewrite drop_drop, <- app_assoc.
      replace (k + (S n - k))%nat with (S n) by lia. f_equal. f_equal. f_equal.
      rewrite take_drop_commute. replace (k + (S n - k))%nat with (S n) by lia.
      etransitivity; [|apply (take_drop k)]. rewrite take_take, Nat.min_l by lia. done.
Qed.

(** Whatever [network_read_bytes] returns was sent by the peer, in order. *)
Lemma read_loop_sound fuel n acc s r s' :
  read_loop fuel n acc s = (Some r, s') ->
  exists d, r = acc ++ d /\ length d = n /\ s_in s = d ++ s_in s' /\ s_out s' = s_out s.
Proof.
  revert n acc s; induction fuel as [|f IH]; intros n acc s.
  - destruct n; cbn; [|done]. intros [= <- <-]. exists []. by rewrite app_nil_r.
  - destruct n as [|n]; [cbn; intros [= <- <-]; exists []; by rewrite app_nil_r|].
    cbn [read_loop]. rewrite st_bind_run. unfold recv.
    destruct (next_chunk (S n) s) as [[k|] zs] eqn:E; [|by destruct (s_in s)].
    destruct (s_in s) as [|x xs] eqn:Ein; [done|]. rewrite <- Ein. cbn [fst snd].
    intros H. apply IH in H as (d & -> & Hd & Hin & Hout). cbn in Hin, Hout.
    apply next_chunk_bound in E. exists (take k (s_in s) ++ d).
    split_and!; [by rewrite app_assoc| |by rewrite <- app_assoc, <- Hin, take_drop|done].
    rewrite length_app, length_take in *. lia.
Qed.

(** Reading never sends. *)
Lemma recv_out n s : s_out (recv n s).2 = s_out s.
Proof. unfold recv, next_chunk. by repeat case_match. Qed.

Lemma read_line_out n s : s_out (network_read_line n s).2 = s_out s.
Proof.
  unfold network_read_line. generalize (S (length (s_in s))), (@nil byte). intros fuel.
  revert s; induction fuel as [|f IH]; intros s acc; cbn [read_line_loop]; [done|]. destruct (_ <? n)%nat; [|done].
  rewrite st_bind_run, <- (recv_out 1 s). destruct (recv 1 s) as [[[|x [|y l]]|] s1]; cbn [fst snd]; try done.
  destruct (x =? NL); [done|]. destruct (x =? CR); apply IH.
Qed.

(** A string sent reaches the peer as a prefix of it. *)
Lemma network_send_prefix d s :
  exists p, s_out (network_send d s).2 = s_out s ++ p /\ p `prefix_of` cstr d
    /\ ((network_send d s).1 = true -> p = cstr d).
Proof.
  unfold network_send, network_send_bytes. destruct (send_loop _ _ s) as [b s'] eqn:E.
  apply send_loop_prefix in E as (_ & p & q & Hd & Ho & Hb). exists p. cbn [fst snd]. split_and!; [done| |].
  - rewrite Hd. by exists q.
  - intros ->. by rewrite Hd, (Hb eq_refl), app_nil_r.
Qed.

Lemma read_loop_out fuel n acc s r s' : read_loop fuel n acc s = (r, s') -> s_out s' = s_out s.
Proof.
  revert n acc s; induction fuel as [|f IH]; intros n acc s.
  - destruct n; cbn; by intros [= _ <-].
  - destruct n as [|n]; [cbn; by intros [= _ <-]|].
    cbn [read_loop]. rewrite st_bind_run. unfold recv.
    destruct (next_chunk (S n) s) as [[k|] zs], (s_in s); cbn [fst snd];
      try (intros [= _ <-]; done). intros H. by apply IH in H.
Qed.

Lemma network_read_bytes_sound n s r s' :
  network_read_bytes n s = (Some r, s') ->
  length r = n /\ s_in s = r ++ s_in s' /\ s_out s' = s_out s.
Proof. intros H. apply read_loop_sound in H as (d & -> & ? & ? & ?). done. Qed.

Lemma network_read_bytes_ok n s :
  willing s -> (n <= length (s_in s))%nat ->
  exists zs, network_read_bytes n s = (Some (take n (s_in s)), Socket (drop n (s_in s)) (s_out s) zs)
             /\ Forall (fun z => 0 < z) zs.
Proof. intros. by apply read_loop_ok. Qed.

(** ** Lines *)

(** A byte of a protocol line: not a line ending and not NUL. *)
Definition line_byte (c : byte) : Prop := 0 < c /\ c <> NL /\ c <> CR.

#[global] Instance line_byte_dec c : Decision (line_byte c).
Proof. unfold line_byte. apply _. Defined.

Lemma recv_1_willing x xs o zs :
  Forall (fun z => 0 < z) zs ->
  exists zs', recv 1 (Socket (x :: xs) o zs) = (Some [x], Socket xs o zs')
              /\ Forall (fun z => 0 < z) zs'.
Proof.
  intros Hw. destruct (next_chunk_willing 1 (Socket (x :: xs) o zs) Hw ltac:(lia))
    as (k & zs' & E & Hk & Hzs'). assert (k = 1%nat) as -> by lia.
  exists zs'. unfold recv. rewrite E. done.
Qed.

Lemma read_line_loop_ok fuel n acc line rest o zs :
  Forall (fun z => 0 < z) zs -> Forall line_byte acc -> Forall line_byte line ->
  (length line < fuel)%nat -> (length acc + length line + 1 < n)%nat ->
  exists zs', read_line_loop fuel n acc (Socket (line ++ NL :: rest) o zs)
              = (Some (acc ++ line), Socket rest o zs') /\ Forall (fun z => 0 < z) zs'.
Proof.
  revert acc line zs; induction fuel as [|f IH]; intros acc line zs Hw Hacc Hl Hf Hn; [lia|].
  cbn [read_line_loop]. destruct (Nat.ltb_spec (length acc + 1) n); [|lia].
  rewrite st_bind_run. destruct line as [|x line].
  - cbn [app]. destruct (recv_1_willing NL rest o zs Hw) as (zs' & -> & Hzs').
    cbn [fst snd]. exists zs'. split; [|done]. rewrite Z.eqb_refl, app_nil_r.
    unfold mret, st_ret. rewrite cstr_id; [done|].
    eapply Forall_impl; [exact Hacc|]. by intros ? [? _].
  - cbn [app]. destruct (recv_1_willing x (line ++ NL :: rest) o zs Hw) as (zs' & -> & Hzs').
    cbn [fst snd]. apply Forall_cons in Hl as [[Hx0 [Hx1 Hx2]] Hl].
    destruct (Z.eqb_spec x NL); [done|]. destruct (Z.eqb_spec x CR); [done|].
    destruct (IH (acc ++ [x]) line zs') as (zs'' & -> & Hzs''); try done.
    + apply Forall_app. split; [done|]. by repeat constructor.
    + cbn in Hf; lia.
    + rewrite length_app. cbn in *. lia.
    + exists zs''. by rewrite <- app_assoc.
Qed.

(** A line sent by the peer that fits the buffer is read back exactly. *)
Lemma network_read_line_ok n line rest o zs :
  Forall (fun z => 0 < z) zs -> Forall line_byte line -> (length line + 1 < n)%nat ->
  exists zs', network_read_line n (Socket (line ++ NL :: rest) o zs)
              = (Some line, Socket rest o zs') /\ Forall (fun z => 0 < z) zs'.
Proof.
  intros Hw Hl Hn. unfold network_read_line. cbn [s_in].
  apply (read_line_loop_ok _ n [] line); try done; cbn; rewrite ?length_app; cbn; lia.
Qed.
