(* ===== verification/Sha256.v ===== *)
(** * council/src/sha256.c: SHA-256 and HMAC-SHA-256

    The streaming context of the C code ([h], [bits], [buf], [used]) with its
    in-place buffer, and the theorem that any sequence of [sha256_update] calls
    followed by [sha256_final] computes the one-shot FIPS 180-4 digest of the
    concatenated input. *)
From S2P Require Import Prelude CLib.

Open Scope Z_scope.

Module Sha.

(** ** 32-bit words *)

Definition w32 (x : Z) : Z := x mod 2 ^ 32.

Definition add32 (x y : Z) : Z := w32 (x + y).

(** [#define R(x,n) (((x)>>(n))|((x)<<(32-(n))))] on [uint32_t]. *)
Definition R (x n : Z) : Z := Z.lor (Z.shiftr x n) (w32 (Z.shiftl x (32 - n))).

Definition not32 (x : Z) : Z := Z.lxor x 4294967295.

(** [static const uint32_t k[64]], in decimal. *)
Definition k : list Z := [
  1116352408; 1899447441; 3049323471; 3921009573;
  961987163; 1508970993; 2453635748; 2870763221;
  3624381080; 310598401; 607225278; 1426881987;
  1925078388; 2162078206; 2614888103; 3248222580;
  3835390401; 4022224774; 264347078; 604807628;
  770255983; 1249150122; 1555081692; 1996064986;
  2554220882; 2821834349; 2952996808; 3210313671;
  3336571891; 3584528711; 113926993; 338241895;
  666307205; 773529912; 1294757372; 1396182291;
  1695183700; 1986661051; 2177026350; 2456956037;
  2730485921; 2820302411; 3259730800; 3345764771;
  3516065817; 3600352804; 4094571909; 275423344;
  430227734; 506948616; 659060556; 883997877;
  958139571; 1322822218; 1537002063; 1747873779;
  1955562222; 2024104815; 2227730452; 2361852424;
  2428436474; 2756734187; 3204031479; 3329325298].

(** The initial hash value of [sha256_init]. *)
Definition IV : list Z :=
  [1779033703; 3144134277; 1013904242; 2773480762;
  1359893119; 2600822924; 528734635; 1541459225].

Definition at_ (l : list Z) (i : nat) : Z := nth i l 0.

(** [w[i]] for [i < 16]: big-endian words of the block. *)
Definition be32_load (p : bytes) (i : nat) : Z :=
  Z.lor (Z.lor (Z.lor (Z.shiftl (at_ p (i * 4)) 24) (Z.shiftl (at_ p (i * 4 + 1)) 16))
               (Z.shiftl (at_ p (i * 4 + 2)) 8)) (at_ p (i * 4 + 3)).

(** The message schedule, extended one word at a time from [w[16]]. *)
Definition schedule_word (w : list Z) (i : nat) : Z :=
  let x := at_ w (i - 15) in
  let y := at_ w (i - 2) in
  add32 (add32 (add32 (Z.lxor (Z.lxor (R x 7) (R x 18)) (Z.shiftr x 3)) (at_ w (i - 16)))
               (Z.lxor (Z.lxor (R y 17) (R y 19)) (Z.shiftr y 10)))
        (at_ w (i - 7)).

Definition schedule (p : bytes) : list Z :=
  foldl (fun w i => w ++ [schedule_word w i]) (map (be32_load p) (seq 0 16)) (seq 16 48).

Record vars := Vars { va : Z; vb : Z; vc : Z; vd : Z; ve : Z; vf : Z; vg : Z; vh : Z }.

(** One iteration of the 64-round loop. *)
Definition round (v : vars) (kw : Z * Z) : vars :=
  let 'Vars a b cc d e f g h := v in
  let t1 := add32 (add32 (add32 (add32 h (Z.lxor (Z.lxor (R e 6) (R e 11)) (R e 25)))
                                (Z.lxor (Z.land e f) (Z.land (not32 e) g))) (fst kw)) (snd kw) in
  let t2 := add32 (Z.lxor (Z.lxor (R a 2) (R a 13)) (R a 22))
                  (Z.lxor (Z.lxor (Z.land a b) (Z.land a cc)) (Z.land b cc)) in
  Vars (add32 t1 t2) a b cc (add32 d t1) e f g.

(** [block]: the new [c->h] from the old one and a 64-byte block. *)
Definition block (h : list Z) (p : bytes) : list Z :=
  let v := foldl round (Vars (at_ h 0) (at_ h 1) (at_ h 2) (at_ h 3)
                             (at_ h 4) (at_ h 5) (at_ h 6) (at_ h 7))
                 (zip k (schedule p)) in
  [add32 (at_ h 0) (va v); add32 (at_ h 1) (vb v); add32 (at_ h 2) (vc v); add32 (at_ h 3) (vd v);
   add32 (at_ h 4) (ve v); add32 (at_ h 5) (vf v); add32 (at_ h 6) (vg v); add32 (at_ h 7) (vh v)].

(** ** The streaming context *)

Record sha256_ctx := Ctx { h : list Z; bits : Z; buf : bytes; used : nat }.

(** [memcpy(buf + at, src, length src)]. *)
Definition overlay (b : bytes) (off : nat) (src : bytes) : bytes :=
  take off b ++ src ++ drop (off + length src) b.

Definition sha256_init (b : bytes) : sha256_ctx := Ctx IV 0 b 0.

(** One iteration of the [while(n)] loop, then the rest; [length p] iterations
    are enough because each consumes at least one byte. *)
Fixpoint update_loop (fuel : nat) (c : sha256_ctx) (p : bytes) : sha256_ctx :=
  match p, fuel with
  | [], _ | _, O => c
  | _, S f =>
      let z := Nat.min (64 - used c) (length p) in
      let b := overlay (buf c) (used c) (take z p) in
      let u := (used c + z)%nat in
      let c' := if (u =? 64)%nat then Ctx (block (h c) b) (bits c) b 0 else Ctx (h c) (bits c) b u in
      update_loop f c' (drop z p)
  end.

Definition sha256_update (c : sha256_ctx) (p : bytes) : sha256_ctx :=
  update_loop (length p)
    (Ctx (h c) ((bits c + Z.of_nat (length p) * 8) mod 2 ^ 64) (buf c) (used c)) p.

(** [(uint8_t)(bits>>(i*8))] stored at [buf[63-i]], [i = 0..7]. *)
Definition be64 (v : Z) : bytes :=
  map (fun i => Z.shiftr v (Z.of_nat i * 8) mod 256) (rev (seq 0 8)).

Definition be32 (v : Z) : bytes :=
  [Z.shiftr v 24 mod 256; Z.shiftr v 16 mod 256; Z.shiftr v 8 mod 256; v mod 256].

(** [while(used<to)buf[used++]=0]. *)
Definition zero_fill (b : bytes) (from to : nat) : bytes := overlay b from (replicate (to - from) 0).

Definition sha256_final (c : sha256_ctx) : bytes :=
  let b := overlay (buf c) (used c) [128] in
  let u := S (used c) in
  let '(h1, b, u) := if (56 <? u)%nat
                     then let b := zero_fill b u 64 in (block (h c) b, b, 0%nat)
                     else (h c, b, u) in
  let b := zero_fill b u 56 in
  let b := overlay b 56 (be64 (bits c)) in
  concat (map be32 (block h1 b)).

(** [hmac_sha256]: [kb] is the key padded with zeros to 64 bytes, or its digest
    when longer; [junk] is the uninitialised [buf] of the local context. *)
Definition digest_of (junk : bytes) (parts : list bytes) : bytes :=
  sha256_final (foldl sha256_update (sha256_init junk) parts).

Definition hmac_sha256 (junk key data : bytes) : bytes :=
  let kb := if (64 <? length key)%nat
            then overlay (replicate 64 0) 0 (digest_of junk [key])
            else overlay (replicate 64 0) 0 key in
  let ip := map (fun b => Z.lxor b 0x36) kb in
  let op := map (fun b => Z.lxor b 0x5c) kb in
  let inner := digest_of junk [ip; data] in
  digest_of junk [op; inner].

(** ** FIPS 180-4, one shot *)

Fixpoint chunks (fuel : nat) (m : bytes) : list bytes :=
  match fuel, m with
  | S f, _ :: _ => take 64 m :: chunks f (drop 64 m)
  | _, _ => []
  end.

(** Append 0x80, zeros up to 8 bytes short of a block, the bit length. *)
Definition pad (m : bytes) : bytes :=
  m ++ [128] ++ replicate (Z.to_nat ((55 - Z.of_nat (length m)) mod 64)) 0
    ++ be64 (Z.of_nat (length m) * 8 mod 2 ^ 64).

Definition sha256_spec (m : bytes) : bytes :=
  concat (map be32 (foldl block IV (chunks (length (pad m)) (pad m)))).

(** RFC 2104. *)
Definition hmac_spec (key data : bytes) : bytes :=
  let k0 := if (64 <? length key)%nat then sha256_spec key else key in
  let kb := k0 ++ replicate (64 - length k0) 0 in
  sha256_spec (map (fun b => Z.lxor b 0x5c) kb
               ++ sha256_spec (map (fun b => Z.lxor b 0x36) kb ++ data)).

(** ** The streaming code implements it *)

(** What a context means: the full blocks of the input are hashed into [h], the
    remaining [used] bytes sit at the front of [buf]. *)
Definition absorbed (c : sha256_ctx) (m : bytes) : Prop :=
  exists bs tail, m = concat bs ++ tail /\ Forall (fun b => length b = 64%nat) bs
    /\ length tail = used c /\ (used c < 64)%nat /\ length (buf c) = 64%nat
    /\ take (used c) (buf c) = tail /\ h c = foldl block IV bs.

Lemma overlay_length b off src :
  (off + length src <= length b)%nat -> length (overlay b off src) = length b.
Proof. intros H. unfold overlay. rewrite !length_app, length_take, length_drop. lia. Qed.

Lemma overlay_take b off src :
  (off <= length b)%nat -> take (off + length src) (overlay b off src) = take off b ++ src.
Proof.
  intros Hb. unfold overlay. rewrite app_assoc.
  rewrite take_app_le by (rewrite length_app, length_take; lia).
  apply take_ge. rewrite length_app, length_take. lia.
Qed.

Lemma update_step c p m :
  absorbed c m -> p <> [] ->
  let z := Nat.min (64 - used c) (length p) in
  let b := overlay (buf c) (used c) (take z p) in
  let u := (used c + z)%nat in
  absorbed (if (u =? 64)%nat then Ctx (block (h c) b) (bits c) b 0 else Ctx (h c) (bits c) b u)
           (m ++ take z p) /\ (0 < z <= length p)%nat.
Proof.
  intros (bs & tail & -> & Hbs & Ht & Hu & Hbuf & Htk & Hh) Hp z b u.
  assert (Hp' : (0 < length p)%nat) by (destruct p; cbn; [done|lia]).
  assert (Hz : (0 < z <= length p)%nat /\ (z <= 64 - used c)%nat) by (unfold z; lia).
  assert (Hlz : length (take z p) = z) by (rewrite length_take; lia).
  split; [|lia].
  assert (Hb : length b = 64%nat) by (unfold b; rewrite overlay_length; lia).
  assert (Htb : take u b = tail ++ take z p).
  { unfold u, b. rewrite <- Hlz at 1. rewrite overlay_take by lia. by rewrite Htk. }
  destruct (Nat.eqb_spec u 64) as [Eu|Eu].
  - exists (bs ++ [b]), []. cbn. rewrite app_nil_r, concat_app. cbn. rewrite app_nil_r.
    rewrite Eu, take_ge in Htb by lia.
    split_and!; try done || lia.
    + by rewrite Htb, app_assoc.
    + apply Forall_app. split; [done|]. by repeat constructor.
    + by rewrite foldl_app, Hh.
  - exists bs, (tail ++ take z p). cbn.
    split_and!; try done || lia.
    + by rewrite app_assoc.
    + rewrite length_app. unfold u. lia.
Qed.

Lemma update_loop_absorbed fuel c p m :
  absorbed c m -> (length p <= fuel)%nat ->
  absorbed (update_loop fuel c p) (m ++ p) /\ bits (update_loop fuel c p) = bits c.
Proof.
  revert c p m; induction fuel as [|f IH]; intros c p m Hc Hf.
  - destruct p; [|cbn in Hf; lia]. cbn. by rewrite app_nil_r.
  - destruct p as [|x p]; [cbn; by rewrite app_nil_r|]. cbn [update_loop].
    destruct (update_step c (x :: p) m Hc) as [Hs Hz]; [done|].
    set (z := Nat.min (64 - used c) (length (x :: p))) in *.
    set (c' := if (used c + z =? 64)%nat then _ else _) in Hs |- *.
    destruct (IH c' (drop z (x :: p)) (m ++ take z (x :: p)) Hs) as [IH1 IH2].
    { rewrite length_drop. cbn [length] in *. lia. }
    rewrite <- app_assoc, take_drop in IH1. split; [done|].
    rewrite IH2. unfold c'. by split_if.
Qed.

Lemma overlay_full b off src :
  (off + length src = length b)%nat -> overlay b off src = take off b ++ src.
Proof. intros H. unfold overlay. by rewrite (drop_ge b), app_nil_r by lia. Qed.

Lemma zero_fill_length b from to :
  (from <= to <= length b)%nat -> length (zero_fill b from to) = length b.
Proof. intros. unfold zero_fill. apply overlay_length. rewrite length_replicate. lia. Qed.

Lemma zero_fill_take b from to :
  (from <= to <= length b)%nat -> take to (zero_fill b from to) = take from b ++ replicate (to - from) 0.
Proof.
  intros. unfold zero_fill. rewrite <- overlay_take by lia.
  rewrite length_replicate. f_equal. lia.
Qed.

Lemma chunks_concat fuel bs :
  Forall (fun b => length b = 64%nat) bs -> (length (concat bs) <= fuel)%nat ->
  chunks fuel (concat bs) = bs.
Proof.
  intros Hbs. revert fuel; induction Hbs as [|b bs Hb Hbs IH]; intros fuel Hf; [by destruct fuel|].
  cbn in *. rewrite length_app in Hf. destruct fuel as [|f]; [lia|].
  destruct (b ++ concat bs) as [|x l] eqn:E; [destruct b; cbn in *; done|].
  cbn [chunks]. rewrite <- E, take_app_length', drop_app_length' by done. f_equal. apply IH. lia.
Qed.

Lemma length_concat_64 (bs : list bytes) :
  Forall (fun b => length b = 64%nat) bs -> length (concat bs) = (64 * length bs)%nat.
Proof. induction 1 as [|b bs Hb _ IH]; [done|]. cbn. rewrite length_app, IH. lia. Qed.

Lemma be64_length v : length (be64 v) = 8%nat.
Proof. done. Qed.

(** The last one or two blocks [sha256_final] hashes. *)
Definition last_blocks (tail : bytes) (len : bytes) : list bytes :=
  if (length tail <? 56)%nat
  then [tail ++ [128] ++ replicate (55 - length tail) 0 ++ len]
  else [tail ++ [128] ++ replicate (63 - length tail) 0; replicate 56 0 ++ len].

Lemma pad_last_blocks bs tail :
  Forall (fun b => length b = 64%nat) bs -> (length tail < 64)%nat ->
  let m := concat bs ++ tail in
  pad m = concat (bs ++ last_blocks tail (be64 (Z.of_nat (length m) * 8 mod 2 ^ 64))).
Proof.
  intros Hbs Ht m. unfold pad, last_blocks. rewrite concat_app. unfold m at 1.
  rewrite <- app_assoc. f_equal.
  assert (Hm : (55 - Z.of_nat (length m)) mod 64 = (55 - Z.of_nat (length tail)) mod 64).
  { unfold m. rewrite length_app, (length_concat_64 bs) by done.
    rewrite Nat2Z.inj_add, Nat2Z.inj_mul.
    replace (55 - (Z.of_nat 64 * Z.of_nat (length bs) + Z.of_nat (length tail)))
      with (55 - Z.of_nat (length tail) + (- Z.of_nat (length bs)) * 64) by lia.
    apply Z.mod_add. lia. }
  rewrite Hm. destruct (Nat.ltb_spec (length tail) 56).
  - rewrite Z.mod_small by lia. cbn [concat]. rewrite app_nil_r.
    replace (Z.to_nat (55 - Z.of_nat (length tail))) with (55 - length tail)%nat by lia. done.
  - replace (55 - Z.of_nat (length tail)) with (119 - Z.of_nat (length tail) + (-1) * 64) by lia.
    rewrite Z.mod_add, Z.mod_small by lia. cbn [concat]. rewrite app_nil_r.
    replace (Z.to_nat (119 - Z.of_nat (length tail))) with ((63 - length tail) + 56)%nat by lia.
    rewrite replicate_add, <- !app_assoc. done.
Qed.

Lemma last_blocks_length tail len :
  length len = 8%nat -> (length tail < 64)%nat ->
  Forall (fun b => length b = 64%nat) (last_blocks tail len).
Proof.
  intros Hl Ht. unfold last_blocks. destruct (Nat.ltb_spec (length tail) 56);
    repeat constructor; rewrite ?length_app, ?length_replicate; cbn [length]; lia.
Qed.

#[local] Opaque block.

Lemma sha256_final_blocks c tail :
  length tail = used c -> (used c < 64)%nat -> length (buf c) = 64%nat ->
  take (used c) (buf c) = tail ->
  sha256_final c = concat (map be32 (foldl block (h c) (last_blocks tail (be64 (bits c))))).
Proof.
  intros Ht Hu Hb Htk. unfold sha256_final, last_blocks. rewrite Ht.
  assert (Hb1 : length (overlay (buf c) (used c) [128]) = 64%nat)
    by (rewrite overlay_length; cbn; lia).
  assert (Htk1 : take (S (used c)) (overlay (buf c) (used c) [128]) = tail ++ [128]).
  { replace (S (used c)) with (used c + length [128%Z])%nat by (cbn; lia).
    rewrite overlay_take by lia. by rewrite Htk. }
  set (b1 := overlay (buf c) (used c) [128]) in *.
  destruct (Nat.ltb_spec 56 (S (used c))); destruct (Nat.ltb_spec (used c) 56); try lia.
  - assert (Hb2 : zero_fill b1 (S (used c)) 64 = tail ++ [128] ++ replicate (63 - used c) 0).
    { rewrite <- (take_ge (zero_fill b1 (S (used c)) 64) 64)
        by (rewrite zero_fill_length; lia).
      rewrite zero_fill_take, Htk1, <- app_assoc by lia. done. }
    assert (Hl2 : length (tail ++ [128] ++ replicate (63 - used c) 0) = 64%nat)
      by (rewrite <- Hb2, zero_fill_length; lia).
    rewrite Hb2. cbn [foldl].
    rewrite overlay_full by (rewrite zero_fill_length, be64_length; lia).
    by rewrite zero_fill_take by lia.
  - cbn [foldl].
    rewrite overlay_full by (rewrite zero_fill_length, be64_length; lia).
    rewrite zero_fill_take, Htk1, <- !app_assoc by lia.
    by replace (56 - S (used c))%nat with (55 - used c)%nat by lia.
Qed.

(** The whole context of a message: absorbed bytes and the bit counter. *)
Definition streams (c : sha256_ctx) (m : bytes) : Prop :=
  absorbed c m /\ bits c = Z.of_nat (length m) * 8 mod 2 ^ 64.

Lemma sha256_init_streams junk : length junk = 64%nat -> streams (sha256_init junk) [].
Proof. intros Hj. split; [|done]. exists [], []. cbn. split_and!; done || lia. Qed.

Lemma sha256_update_streams c m p : streams c m -> streams (sha256_update c p) (m ++ p).
Proof.
  intros [Hc Hbits]. unfold sha256_update.
  destruct (update_loop_absorbed (length p)
    (Ctx (h c) ((bits c + Z.of_nat (length p) * 8) mod 2 ^ 64) (buf c) (used c)) p m)
    as [H1 H2]; [exact Hc|done|].
  split; [exact H1|]. rewrite H2. cbn [bits]. rewrite Hbits, length_app, Zplus_mod_idemp_l.
  f_equal. lia.
Qed.

Lemma sha256_final_spec c m : streams c m -> sha256_final c = sha256_spec m.
Proof.
  intros [(bs & tail & -> & Hbs & Ht & Hu & Hb & Htk & Hh) Hbits].
  rewrite (sha256_final_blocks c tail) by done. unfold sha256_spec.
  rewrite (pad_last_blocks bs tail) by (done || lia).
  rewrite chunks_concat.
  - by rewrite foldl_app, <- Hh, Hbits.
  - apply Forall_app. split; [done|]. apply last_blocks_length; [done|lia].
  - done.
Qed.

Lemma digest_of_spec junk parts :
  length junk = 64%nat -> digest_of junk parts = sha256_spec (concat parts).
Proof.
  intros Hj. unfold digest_of. apply sha256_final_spec.
  assert (H : forall c m, streams c m -> streams (foldl sha256_update c parts) (m ++ concat parts)).
  { induction parts as [|p parts IH]; intros c m Hc; cbn; [by rewrite app_nil_r|].
    rewrite app_assoc. apply IH, sha256_update_streams, Hc. }
  by apply (H _ []), sha256_init_streams.
Qed.

Lemma block_length hs p : length (block hs p) = 8%nat.
Proof. Transparent block. done. Qed.

#[local] Opaque block.

Lemma sha256_spec_length m : length (sha256_spec m) = 32%nat.
Proof.
  unfold sha256_spec.
  assert (H : forall l hs, length hs = 8%nat -> length (foldl block hs l) = 8%nat).
  { induction l as [|b l IH]; intros hs Hh; [done|]. apply IH, block_length. }
  specialize (H (chunks (length (pad m)) (pad m)) IV eq_refl). revert H.
  generalize (foldl block IV (chunks (length (pad m)) (pad m))). intros l Hl.
  do 9 (destruct l as [|? l]; [done|]). done.
Qed.

(** Every byte of a digest is a byte. *)
Lemma sha256_spec_bytes m : bytes_ok (sha256_spec m).
Proof.
  unfold sha256_spec. generalize (foldl block IV (chunks (length (pad m)) (pad m))).
  induction l as [|w l IH]; [constructor|]. cbn [map concat]. apply Forall_app. split; [|done].
  unfold be32. repeat constructor; apply Z.mod_pos_bound; lia.
Qed.

Lemma hmac_sha256_spec junk key data :
  length junk = 64%nat -> hmac_sha256 junk key data = hmac_spec key data.
Proof.
  intros Hj. unfold hmac_sha256, hmac_spec. rewrite !digest_of_spec by done.
  cbn [concat]. rewrite !app_nil_r.
  set (k0 := if (64 <? length key)%nat then sha256_spec key else key).
  assert (Hk : (length k0 <= 64)%nat).
  { unfold k0. destruct (Nat.ltb_spec 64 (length key)); [rewrite sha256_spec_length|]; lia. }
  assert (Ho : overlay (replicate 64 0) 0 k0 = k0 ++ replicate (64 - length k0) 0).
  { unfold overlay. rewrite take_0. cbn [app Nat.add]. by rewrite drop_replicate. }
  by replace (if (64 <? length key)%nat then _ else _) with (overlay (replicate 64 0) 0 k0)
    by (unfold k0; by destruct (64 <? length key)%nat); rewrite Ho.
Qed.

(** ** Claims *)

(** C36: [hmac_sha256], with its in-place 64-byte buffer, its two-part updates
    and whatever the uninitialised context buffers contain, computes RFC 2104's
    HMAC over the one-shot FIPS 180-4 digest, for every key and message. *)
Theorem hmac_sha256_correct (junk key data : bytes) :
  length junk = 64%nat ->
  hmac_sha256 junk key data = hmac_spec key data /\ length (hmac_sha256 junk key data) = 32%nat.
Proof.
  intros Hj. rewrite hmac_sha256_spec by done. split; [done|]. apply sha256_spec_length.
Qed.

Example hmac_sha256_correct_witness :
  length (replicate 64 7) = 64%nat
  /\ hex_encode (hmac_spec (str "Jefe") (str "what do ya want for nothing?"))
     = str "5bdcc146bf60754e6a042426089575c75a003f089d2739839dec58b964ec3843"
  /\ hmac_sha256 (replicate 64 7) (str "Jefe") (str "what do ya want for nothing?")
     = hmac_spec (str "Jefe") (str "what do ya want for nothing?").
Proof.
  split; [done|]. split; [vm_compute; reflexivity|].
  apply (hmac_sha256_correct (replicate 64 7)). done.
Defined.

(** streaming is chunk-independent: any sequence of [sha256_update] calls,
    then [sha256_final], gives the digest of the concatenated data. *)
Theorem sha256_streaming (junk : bytes) (parts : list bytes) :
  length junk = 64%nat ->
  sha256_final (foldl sha256_update (sha256_init junk) parts) = sha256_spec (concat parts).
Proof. apply digest_of_spec. Qed.

Example sha256_streaming_witness :
  hex_encode (sha256_final (foldl sha256_update (sha256_init (replicate 64 0))
                                  [str "a"; str "bc"; []]))
  = str "ba7816bf8f01cfea414140de5dae2223b00361a396177a9cb410ff61f20015ad"
  /\ sha256_final (foldl sha256_update (sha256_init (replicate 64 0)) [str "a"; str "bc"; []])
     = sha256_spec (concat [str "a"; str "bc"; []]).
Proof.
  split; [vm_compute; reflexivity|]. apply sha256_streaming. done.
Defined.

End Sha.
