(* ===== verification/Authentication.v ===== *)
(** * council/src/authentication.c: nonces, digests and their comparison *)
From S2P Require Import Prelude CLib World Sha256.

Open Scope Z_scope.

Module Auth.

Definition digits : bytes := str "0123456789abcdef".

(** [hex(b, n, o)]. *)
Definition hex (b : bytes) : bytes :=
  concat (map (fun x => [Sha.at_ digits (Z.to_nat (Z.shiftr x 4));
                         Sha.at_ digits (Z.to_nat (Z.land x 15))]) b).

(** [authentication_nonce]: 16 random bytes in hexadecimal, [None] is [-1]. *)
Definition authentication_nonce : st world (option bytes) :=
  b ← urandom 16; mret (hex <$> b).

(** The uninitialised [buf] of the local [sha256_ctx]; the digest does not
    depend on it. *)
Definition stack_junk : bytes := replicate 64 0.

(** [authentication_digest(k, n, x, o)] with the 256-byte message buffer. *)
Definition authentication_digest (k n x : bytes) : bytes :=
  let m := snprintf 256 (n ++ str "|" ++ x) in
  hex (Sha.hmac_sha256 stack_junk k m).

(** [for(i=0;i<n;i++)d|=(unsigned char)(a[i]^b[i]); return d==0;] *)
Definition authentication_matches (a b : bytes) : bool :=
  if negb (length a =? length b)%nat then false
  else foldl (fun d ab => Z.lor d (Z.lxor (fst ab) (snd ab) mod 256)) 0 (zip a b) =? 0.

(** ** Hexadecimal is injective *)

Definition unhex_digit (c : byte) : Z := if c <? 58 then c - 48 else c - 87.

Fixpoint unhex (s : bytes) : bytes :=
  match s with
  | a :: b :: s' => unhex_digit a * 16 + unhex_digit b :: unhex s'
  | _ => []
  end.

Lemma digits_at v : 0 <= v < 16 ->
  unhex_digit (Sha.at_ digits (Z.to_nat v)) = v /\ isspace (Sha.at_ digits (Z.to_nat v)) = false
  /\ 48 <= Sha.at_ digits (Z.to_nat v) <= 102.
Proof.
  intros Hv. assert (H : (Z.to_nat v < 16)%nat) by lia.
  rewrite <- (Z2Nat.id v) at 2 by lia. revert H. generalize (Z.to_nat v). clear v Hv.
  intros n H. do 16 (destruct n as [|n]; [vm_compute; split_and!; done|]). lia.
Qed.

Lemma unhex_hex b : bytes_ok b -> unhex (hex b) = b.
Proof.
  induction 1 as [|x b Hx Hb IH]; [done|]. unfold hex in *. cbn [map concat app unhex].
  rewrite IH. destruct (nibbles x Hx) as (H1 & H2 & H3).
  destruct (digits_at _ H1) as [-> _], (digits_at _ H2) as [-> _]. by rewrite H3.
Qed.

Lemma hex_inj a b : bytes_ok a -> bytes_ok b -> hex a = hex b -> a = b.
Proof. intros Ha Hb E. by rewrite <- (unhex_hex a), <- (unhex_hex b), E. Qed.

Lemma hex_length b : length (hex b) = (2 * length b)%nat.
Proof. induction b as [|x b IH]; [done|]. unfold hex in *.
  cbn [map concat app length]. rewrite IH. lia. Qed.

Lemma hex_chars b :
  bytes_ok b -> Forall (fun c => isspace c = false /\ 48 <= c <= 102) (hex b).
Proof.
  induction 1 as [|x b Hx Hb IH]; [constructor|]. unfold hex in *. cbn [map concat app].
  destruct (nibbles x Hx) as (H1 & H2 & _).
  destruct (digits_at _ H1) as (_ & ? & ?), (digits_at _ H2) as (_ & ? & ?).
  by repeat (constructor; [done|]).
Qed.

(** ** The digest *)

Lemma authentication_digest_spec k n x :
  (length n + length x < 255)%nat ->
  authentication_digest k n x = hex (Sha.hmac_spec k (n ++ str "|" ++ x)).
Proof.
  intros Hl. unfold authentication_digest, snprintf. rewrite take_ge.
  - by rewrite Sha.hmac_sha256_spec.
  - rewrite !length_app. cbn. lia.
Qed.

Lemma hmac_bytes k m : bytes_ok (Sha.hmac_spec k m) /\ length (Sha.hmac_spec k m) = 32%nat.
Proof. split; [apply Sha.sha256_spec_bytes|apply Sha.sha256_spec_length]. Qed.

Lemma authentication_digest_shape k n x :
  length (authentication_digest k n x) = 64%nat
  /\ Forall (fun c => isspace c = false /\ 48 <= c <= 102) (authentication_digest k n x).
Proof.
  unfold authentication_digest. rewrite Sha.hmac_sha256_spec by done.
  destruct (hmac_bytes k (snprintf 256 (n ++ str "|" ++ x))) as [Hb Hl].
  rewrite hex_length, Hl. split; [done|]. by apply hex_chars.
Qed.

(** ** Constant-time comparison *)

Lemma log2_byte a : byte_ok a -> Z.log2 a < 8.
Proof.
  unfold byte_ok. intros Ha. destruct (Z.eq_dec a 0) as [->|]; [done|].
  apply Z.log2_lt_pow2; lia.
Qed.

Lemma lor_xor_fold l d :
  0 <= d -> Forall (fun ab => byte_ok (fst ab) /\ byte_ok (snd ab)) l ->
  foldl (fun d ab => Z.lor d (Z.lxor (fst ab) (snd ab) mod 256)) d l = 0
  <-> d = 0 /\ Forall (fun ab => fst ab = snd ab) l.
Proof.
  intros Hd Hl. revert d Hd; induction Hl as [|[a b] l [Ha Hb] Hl IH]; intros d Hd; cbn in *.
  - split; [done|tauto].
  - assert (Hx : 0 <= Z.lxor a b < 2 ^ 8).
    { unfold byte_ok in Ha, Hb.
      assert (H0 : 0 <= Z.lxor a b) by (apply Z.lxor_nonneg; lia). split; [done|].
      destruct (Z.eq_dec (Z.lxor a b) 0) as [->|]; [done|].
      apply Z.log2_lt_pow2; [lia|].
      eapply Z.le_lt_trans; [apply Z.log2_lxor; lia|].
      by apply Z.max_lub_lt; apply log2_byte. }
    rewrite Z.mod_small by exact Hx.
    rewrite IH by (apply Z.lor_nonneg; lia). rewrite Z.lor_eq_0_iff, Z.lxor_eq_0_iff.
    rewrite Forall_cons. cbn. tauto.
Qed.

Lemma zip_eq (a b : bytes) :
  length a = length b -> (Forall (fun ab => fst ab = snd ab) (zip a b) <-> a = b).
Proof.
  revert b; induction a as [|x a IH]; intros [|y b] Hl; cbn in *; try lia; [by split|].
  rewrite Forall_cons. cbn. rewrite IH by lia. split; [by intros [-> ->]|by intros [= -> ->]].
Qed.

Lemma zip_bytes_ok a b :
  bytes_ok a -> bytes_ok b -> Forall (fun ab => byte_ok (fst ab) /\ byte_ok (snd ab)) (zip a b).
Proof.
  intros Ha. revert b; induction Ha as [|x a Hx Ha IH]; intros b Hb; [constructor|].
  destruct Hb as [|y b Hy Hb]; [constructor|]. cbn. constructor; [done|]. by apply IH.
Qed.

(** The branch-free comparison decides equality. *)
Lemma authentication_matches_eq a b :
  bytes_ok a -> bytes_ok b -> (authentication_matches a b = true <-> a = b).
Proof.
  intros Ha Hb. unfold authentication_matches. destruct (Nat.eqb_spec (length a) (length b)) as [E|E]; cbn [negb].
  - rewrite Z.eqb_eq, lor_xor_fold by (done || by apply zip_bytes_ok).
    rewrite zip_eq by done. tauto.
  - split; [done|]. intros ->. lia.
Qed.

(** ** Claims *)

(** [authentication_matches], which never branches on the data, accepts
    exactly when the two strings are equal, so a digest that differs in a single
    bit is refused. *)
Theorem authentication_matches_correct (a b : bytes) :
  bytes_ok a -> bytes_ok b -> authentication_matches a b = bytes_eqb a b.
Proof.
  intros Ha Hb. apply eq_true_iff_eq.
  by rewrite authentication_matches_eq, bytes_eqb_true.
Qed.

Example authentication_matches_correct_witness :
  bytes_ok (str "abc1") /\ bytes_ok (str "abc0")
  /\ authentication_matches (str "abc1") (str "abc0") = bytes_eqb (str "abc1") (str "abc0")
  /\ authentication_matches (str "abc1") (str "abc1") = true.
Proof.
  assert (H : bytes_ok (str "abc1") /\ bytes_ok (str "abc0"))
    by (split; repeat constructor; done).
  destruct H as [H1 H2]. split; [done|]. split; [done|]. split; [|reflexivity].
  by apply authentication_matches_correct.
Defined.

End Auth.
