(* ===== verification/ContactBook.v ===== *)
(** * council/src/contact_book.c: the contact book and its JSON loader

    The loader is the C parser, cursor by cursor: a pointer is the suffix it
    points at, [goto invalid] is [inl] of the cursor at that moment (the byte
    offset of the error message), success is [inr]. *)
From S2P Require Import Prelude CLib World.

Open Scope Z_scope.

(** ** contact_book.h *)

(** [contact_role]; a zeroed [contact] has neither enumerator. *)
Inductive contact_role := CONTACT_UNSET | CONTACT_HUMAN | CONTACT_AI.

#[global] Instance contact_role_eq_dec : EqDecision contact_role.
Proof. solve_decision. Defined.

Definition COUNCIL_MAX_CONTACTS : nat := 64.
Definition COUNCIL_NAME_LENGTH : nat := 64.
Definition COUNCIL_HOST_LENGTH : nat := 256.
Definition COUNCIL_KEY_LENGTH : nat := 128.

Record contact := Contact {
  name : bytes;
  role : contact_role;
  host : bytes;
  port : Z;
  shared_key : bytes;
  arbiter_priority : Z;
  ram_gb : Z
}.

#[global] Instance contact_eq_dec : EqDecision contact.
Proof. solve_decision. Defined.

(** [contact_book]: [items[0..count-1]]. *)
Abbreviation contact_book := (list contact).

Module Book.

(** [memset(&item, 0, sizeof(item))]. *)
Definition zero_contact : contact := Contact [] CONTACT_UNSET [] 0 [] 0 0.

(** ** The parser *)

Definition parse (A : Type) : Type := (bytes + A)%type.

#[global] Instance parse_ret : MRet parse := fun _ a => inr a.
#[global] Instance parse_bind : MBind parse :=
  fun _ _ f m => match m with inl e => inl e | inr a => f a end.

(** [goto invalid] with the cursor at [p] when the call failed. *)
Definition attempt {A} (p : bytes) (o : option A) : parse A :=
  match o with Some a => inr a | None => inl p end.

Definition guard_at (p : bytes) (ok : bool) : parse unit := if ok then inr tt else inl p.

Definition BACKSLASH : byte := 92.

(** The loop of [json_string]: [used + 1 >= size] is the overflow test. *)
Fixpoint json_chars (size : nat) (out p : bytes) : option (bytes * bytes) :=
  match p with
  | [] => None
  | v :: p' =>
      if v =? DQ then Some (out, p')
      else if v =? BACKSLASH then
        match p' with
        | [] => None
        | v2 :: p'' =>
            if negb ((v2 =? BACKSLASH) || (v2 =? DQ) || (v2 =? 47)) then None
            else if (v2 <? 32) || (size <=? length out + 1)%nat then None
            else json_chars size (out ++ [v2]) p''
        end
      else if (v <? 32) || (size <=? length out + 1)%nat then None
      else json_chars size (out ++ [v]) p'
  end.

Definition json_string (size : nat) (cursor : bytes) : option (bytes * bytes) :=
  match skip_space cursor with
  | c :: p => if c =? DQ then json_chars size [] p else None
  | [] => None
  end.

Definition expect (token : byte) (cursor : bytes) : option bytes :=
  match skip_space cursor with
  | c :: p => if c =? token then Some p else None
  | [] => None
  end.

(** [copy_value]: refuse a value that does not fit the field. *)
Definition fits (size : nat) (value : bytes) : bool := (length value <? size)%nat.

(** The numeric members: [p = skip_space(p)], [strtol], range test. *)
Definition number_field (p : bytes) (num : bytes -> option (Z * bytes)) (lo hi : Z)
  : parse (Z * bytes) :=
  let p := skip_space p in
  '(v, e) ← attempt p (num p);
  guard_at p ((lo <=? v) && (v <=? hi)) ;; mret (v, e).

Definition set_port v c := Contact (name c) (role c) (host c) v (shared_key c) (arbiter_priority c) (ram_gb c).
Definition set_ram v c := Contact (name c) (role c) (host c) (port c) (shared_key c) (arbiter_priority c) v.
Definition set_priority v c := Contact (name c) (role c) (host c) (port c) (shared_key c) v (ram_gb c).
Definition set_name v c := Contact v (role c) (host c) (port c) (shared_key c) (arbiter_priority c) (ram_gb c).
Definition set_role v c := Contact (name c) v (host c) (port c) (shared_key c) (arbiter_priority c) (ram_gb c).
Definition set_host v c := Contact (name c) (role c) v (port c) (shared_key c) (arbiter_priority c) (ram_gb c).
Definition set_key v c := Contact (name c) (role c) (host c) (port c) v (arbiter_priority c) (ram_gb c).

Definition role_of (p value : bytes) : parse contact_role :=
  if bytes_eqb value (str "human") then inr CONTACT_HUMAN
  else if bytes_eqb value (str "ai") then inr CONTACT_AI else inl p.

(** One member of an object: the item and the [fields] bit set it updates. *)
Definition parse_member (item : contact) (fields : Z) (p : bytes) : parse (contact * Z * bytes) :=
  '(key, p) ← attempt p (json_string 32 p);
  p ← attempt p (expect 58 p);
  if bytes_eqb key (str "port") then
    '(v, e) ← number_field p strtol 1 65535; mret (set_port v item, Z.lor fields 8, e)
  else if bytes_eqb key (str "RAM") then
    '(v, e) ← number_field p strtoul 0 1048576; mret (set_ram v item, fields, e)
  else if bytes_eqb key (str "arbiter_priority") then
    '(v, e) ← number_field p strtol 0 1000000; mret (set_priority v item, fields, e)
  else
    '(value, p) ← attempt p (json_string COUNCIL_HOST_LENGTH p);
    if bytes_eqb key (str "name") then
      guard_at p (fits COUNCIL_NAME_LENGTH value) ;; mret (set_name value item, Z.lor fields 1, p)
    else if bytes_eqb key (str "role") then
      r ← role_of p value; mret (set_role r item, Z.lor fields 2, p)
    else if bytes_eqb key (str "host") then
      guard_at p (fits COUNCIL_HOST_LENGTH value) ;; mret (set_host value item, Z.lor fields 4, p)
    else if bytes_eqb key (str "shared_key") then
      guard_at p (fits COUNCIL_KEY_LENGTH value) ;; mret (set_key value item, Z.lor fields 16, p)
    else inl p.

(** [p = skip_space(p); if ( *p == ',') p++; else if ( *p != close) goto invalid;] *)
Definition separator (close : byte) (p : bytes) : parse bytes :=
  let p := skip_space p in
  if peek p =? 44 then inr (drop 1 p)
  else if peek p =? close then inr p else inl p.

(** [while ( *skip_space(p) != '}')]; every member consumes input, so the length
    of the text is enough fuel. *)
Fixpoint parse_members (fuel : nat) (item : contact) (fields : Z) (p : bytes)
  : parse (contact * Z * bytes) :=
  if peek (skip_space p) =? 125 then inr (item, fields, p)
  else match fuel with
  | O => inl p
  | S f =>
      '(item, fields, p) ← parse_member item fields p;
      p ← separator 125 p;
      parse_members f item fields p
  end.

(** [while ( *skip_space(p) != ']')], the objects of the array. *)
Fixpoint parse_items (fuel : nat) (book : contact_book) (p : bytes) : parse (contact_book * bytes) :=
  if peek (skip_space p) =? 93 then inr (book, p)
  else match fuel with
  | O => inl p
  | S f =>
      guard_at p (negb (length book =? COUNCIL_MAX_CONTACTS)%nat) ;;
      p ← attempt p (expect 123 p);
      '(item, fields, p) ← parse_members (length p) zero_contact 0 p;
      let p := drop 1 p in
      guard_at p (fields =? 31) ;;
      p ← separator 93 p;
      parse_items f (book ++ [item]) p
  end.

Definition parse_book (text : bytes) : parse contact_book :=
  p ← attempt text (expect 91 text);
  '(book, p) ← parse_items (length p) [] p;
  let p := drop 1 p in
  match skip_space p with [] => inr book | _ => inl p end.

(** The two messages [contact_book_load] reports. *)
Inductive load_error := CannotOpen (path : bytes) | InvalidNear (offset : nat).

(** [contact_book_load(path, book, ...)]: read the file, parse it as a C string. *)
Definition contact_book_load (path : bytes) : st world (load_error + contact_book) :=
  found ← file_read path;
  mret (match found with
        | None => inl (CannotOpen path)
        | Some content =>
            let text := cstr content in
            match parse_book text with
            | inl p => inl (InvalidNear (length text - length p))
            | inr book => inr book
            end
        end).

(** [contact_book_find]: the first entry with that name, as its index. *)
Fixpoint contact_book_find (book : contact_book) (n : bytes) : option nat :=
  match book with
  | [] => None
  | c :: book' => if bytes_eqb (name c) n then Some 0%nat else S <$> contact_book_find book' n
  end.

(** ** Every loaded book is well formed *)

Definition text_ok (s : bytes) : Prop := Forall (fun c => 32 <= c) s.

Definition wf_contact (c : contact) : Prop :=
  (text_ok (name c) /\ (length (name c) < COUNCIL_NAME_LENGTH)%nat)
  /\ role c <> CONTACT_UNSET
  /\ (text_ok (host c) /\ (length (host c) < COUNCIL_HOST_LENGTH)%nat)
  /\ 1 <= port c <= 65535
  /\ (text_ok (shared_key c) /\ (length (shared_key c) < COUNCIL_KEY_LENGTH)%nat)
  /\ 0 <= arbiter_priority c <= 1000000
  /\ 0 <= ram_gb c <= 1048576.

Definition wf_book (b : contact_book) : Prop :=
  Forall wf_contact b /\ (length b <= COUNCIL_MAX_CONTACTS)%nat.

#[global] Instance wf_book_dec b : Decision (wf_book b).
Proof. unfold wf_book, wf_contact, text_ok. apply _. Defined.

(** What holds of an item under construction, given the [fields] seen so far. *)
Definition partial_item (c : contact) (fields : Z) : Prop :=
  (text_ok (name c) /\ (length (name c) < COUNCIL_NAME_LENGTH)%nat)
  /\ (Z.testbit fields 1 = true -> role c <> CONTACT_UNSET)
  /\ (text_ok (host c) /\ (length (host c) < COUNCIL_HOST_LENGTH)%nat)
  /\ (Z.testbit fields 3 = true -> 1 <= port c <= 65535)
  /\ (text_ok (shared_key c) /\ (length (shared_key c) < COUNCIL_KEY_LENGTH)%nat)
  /\ 0 <= arbiter_priority c <= 1000000
  /\ 0 <= ram_gb c <= 1048576.

Lemma parse_bind_inr {A B} (m : parse A) (f : A -> parse B) b :
  (m ≫= f) = inr b -> exists a, m = inr a /\ f a = inr b.
Proof. destruct m; [done|]. eauto. Qed.

Lemma attempt_inr {A} p (o : option A) a : attempt p o = inr a -> o = Some a.
Proof. destruct o; cbn; congruence. Qed.

Lemma guard_at_inr p b u : guard_at p b = inr u -> b = true.
Proof. by destruct b. Qed.

(** Decompose a successful run of the parser. *)
Ltac parsed :=
  repeat match goal with
  | H : (_ ≫= _) = inr _ |- _ =>
      let x := fresh "r" in let E := fresh "E" in
      apply parse_bind_inr in H as (x & E & H); cbn beta in H
  | r : (_ * _)%type |- _ => destruct r
  | H : attempt _ _ = inr _ |- _ => apply attempt_inr in H
  | H : guard_at _ _ = inr _ |- _ => apply guard_at_inr in H
  | H : mret _ = inr _ |- _ => injection H as ?; subst
  | H : inr _ = inr _ |- _ => injection H as ?; subst
  end.

Lemma json_chars_text size out p v r :
  json_chars size out p = Some (v, r) -> text_ok out -> (length out < size)%nat ->
  text_ok v /\ (length v < size)%nat.
Proof.
  assert (Hlen : forall n p out, (length p <= n)%nat -> json_chars size out p = Some (v, r) ->
    text_ok out -> (length out < size)%nat -> text_ok v /\ (length v < size)%nat).
  { clear p out. induction n as [|n IH]; intros [|c p] out Hn H Ho Hl; cbn in Hn, H; try done; try lia.
    destruct (c =? DQ); [injection H as <- <-; done|].
    assert (Hstep : forall x q, (length q <= n)%nat -> (x <? 32) || (size <=? length out + 1)%nat = false ->
      json_chars size (out ++ [x]) q = Some (v, r) -> text_ok v /\ (length v < size)%nat).
    { intros x q Hq Hx Hr. apply orb_false_iff in Hx as [Hx1 Hx2]. to_prop.
      apply (IH q (out ++ [x]) Hq Hr).
      - apply Forall_app. split; [done|]. by repeat constructor.
      - rewrite length_app. cbn. lia. }
    destruct (c =? BACKSLASH).
    - destruct p as [|c2 p]; [done|]. destruct (negb _); [done|].
      destruct (_ || _) eqn:E; [done|]. apply (Hstep c2 p); [cbn in *; lia|done|done].
    - destruct (_ || _) eqn:E; [done|]. apply (Hstep c p); [lia|done|done]. }
  intros. eapply Hlen; eauto.
Qed.

Lemma json_string_text size p v r :
  json_string size p = Some (v, r) -> (0 < size)%nat -> text_ok v /\ (length v < size)%nat.
Proof.
  unfold json_string. destruct (skip_space p) as [|c q]; [done|]. destruct (c =? DQ); [|done].
  intros H Hs. eapply json_chars_text; [exact H|constructor|done].
Qed.

Lemma number_field_range p num lo hi v e :
  number_field p num lo hi = inr (v, e) -> lo <= v <= hi.
Proof. unfold number_field. intros H. parsed. to_prop. lia. Qed.

Lemma testbit_lor f b i : Z.testbit (Z.lor f b) i = Z.testbit f i || Z.testbit b i.
Proof. apply Z.lor_spec. Qed.

(** Evaluate the bit tests on the literal masks. *)
Ltac eval_testbit :=
  repeat match goal with
  | |- context [Z.testbit (Zpos ?p) (Zpos ?q)] =>
      let b := eval vm_compute in (Z.testbit (Zpos p) (Zpos q)) in
      change (Z.testbit (Zpos p) (Zpos q)) with b
  end.

Lemma parse_member_partial item fields p item' fields' p' :
  parse_member item fields p = inr (item', fields', p') ->
  partial_item item fields -> partial_item item' fields'.
Proof.
  unfold parse_member. intros H (Hn & Hr & Hh & Hp & Hk & Ha & Hm).
  parsed. repeat case_match; parsed; repeat
    match goal with
    | E : number_field _ _ _ _ = inr _ |- _ => apply number_field_range in E
    | E : json_string 256 _ = Some _ |- _ => apply json_string_text in E; [|lia]
    | E : json_string COUNCIL_HOST_LENGTH _ = Some _ |- _ => apply json_string_text in E; [|unfold COUNCIL_HOST_LENGTH; lia]
    | E : role_of _ _ = inr _ |- _ => unfold role_of in E; repeat case_match; try done; injection E as <-
    | E : fits _ _ = true |- _ => unfold fits in E; apply Nat.ltb_lt in E
    end; unfold partial_item; cbn [name role host port shared_key arbiter_priority ram_gb
      set_port set_ram set_priority set_name set_role set_host set_key];
    rewrite ?testbit_lor; eval_testbit; rewrite ?orb_false_r; naive_solver.
Qed.

Lemma parse_members_partial fuel item fields p item' fields' p' :
  parse_members fuel item fields p = inr (item', fields', p') ->
  partial_item item fields -> partial_item item' fields'.
Proof.
  revert item fields p; induction fuel as [|f IH]; intros item fields p; cbn [parse_members].
  - case_match; [|done]. by intros [= <- <- <-].
  - destruct (_ =? 125) eqn:Eb; [by intros [= <- <- <-]|]. intros H Hp. parsed.
    eapply IH; [exact H|]. eapply parse_member_partial; eauto.
Qed.

Lemma zero_contact_partial : partial_item zero_contact 0.
Proof. unfold partial_item, text_ok. cbn. split_and!; try constructor; try lia; done. Qed.

Lemma partial_item_complete c : partial_item c 31 -> wf_contact c.
Proof. unfold partial_item, wf_contact. eval_testbit. naive_solver. Qed.

Lemma parse_items_wf fuel book p book' p' :
  parse_items fuel book p = inr (book', p') -> wf_book book -> wf_book book'.
Proof.
  revert book p; induction fuel as [|f IH]; intros book p; cbn [parse_items].
  - case_match; [|done]. by intros [= <- <-].
  - destruct (_ =? 93) eqn:Eb; [by intros [= <- <-]|]. intros H [Hb Hl]. parsed.
    parsed. to_prop. subst. eapply IH; [exact H|]. split.
    + apply Forall_app. split; [done|]. apply Forall_singleton.
      apply partial_item_complete. eapply parse_members_partial; [eassumption|].
      apply zero_contact_partial.
    + rewrite length_app. cbn. unfold COUNCIL_MAX_CONTACTS in *. lia.
Qed.

Lemma parse_book_wf text book : parse_book text = inr book -> wf_book book.
Proof.
  unfold parse_book. intros H. parsed. case_match; [|done]. injection H as <-.
  eapply parse_items_wf; [eassumption|]. split; [constructor|]. cbn. lia.
Qed.

(** ** Fuel is never the reason for a rejection *)

Lemma skip_space_length p : (length (skip_space p) <= length p)%nat.
Proof.
  unfold skip_space. rewrite <- (span_app (fun c => negb (isspace c)) p) at 2.
  rewrite length_app. lia.
Qed.

Lemma json_chars_length size out p v r :
  json_chars size out p = Some (v, r) -> (length r < length p)%nat.
Proof.
  assert (H : forall n p out, (length p <= n)%nat -> json_chars size out p = Some (v, r) ->
    (length r < length p)%nat).
  { clear p out. induction n as [|n IH]; intros [|c p] out Hn; cbn [json_chars]; try done; [cbn in Hn; lia|].
    cbn in Hn. destruct (c =? DQ); [intros [= <- <-]; cbn; lia|].
    destruct (c =? BACKSLASH).
    - destruct p as [|c2 p]; [done|]. destruct (negb _); [done|]. destruct (_ || _); [done|].
      intros H. apply IH in H; cbn in *; lia.
    - destruct (_ || _); [done|]. intros H. apply IH in H; cbn in *; lia. }
  intros. by eapply H.
Qed.

Lemma json_string_length size p v r :
  json_string size p = Some (v, r) -> (length r < length p)%nat.
Proof.
  unfold json_string. pose proof (skip_space_length p) as Hs.
  destruct (skip_space p) as [|c q]; [done|]. destruct (c =? DQ); [|done].
  intros H. apply json_chars_length in H. cbn in Hs. lia.
Qed.

Lemma expect_length t p r : expect t p = Some r -> (length r < length p)%nat.
Proof.
  unfold expect. pose proof (skip_space_length p) as Hs.
  destruct (skip_space p) as [|c q]; [done|]. destruct (c =? t); [|done].
  intros [= <-]. cbn in Hs. lia.
Qed.

Lemma scan_digits_length base acc s : (length (scan_digits base acc s).2 <= length s)%nat.
Proof.
  revert acc; induction s as [|c s IH]; intros acc; cbn; [lia|].
  destruct (digit_value c <? base); [|cbn; lia]. etrans; [apply IH|lia].
Qed.

Lemma scan_number_length base s x v r :
  scan_number base s = Some (x, v, r) -> (length r <= length s)%nat.
Proof.
  unfold scan_number. pose proof (skip_space_length s) as Hs.
  destruct (match skip_space s with [] => _ | _ :: _ => _ end) as [neg q] eqn:E.
  assert (Hq : (length q <= length s)%nat).
  { destruct (skip_space s) as [|c q']; [injection E as <- <-; cbn; lia|]. cbn in Hs.
    destruct (c =? 45), (c =? 43); injection E as <- <-; cbn; lia. }
  destruct q as [|c q]; [done|]. destruct (digit_value c <? base); [|done].
  pose proof (scan_digits_length base 0 (c :: q)) as Hd.
  destruct (scan_digits base 0 (c :: q)). intros [= <- <- <-]. cbn [snd] in Hd. lia.
Qed.

Lemma number_field_length p num lo hi v e :
  (forall s v r, num s = Some (v, r) -> (length r <= length s)%nat) ->
  number_field p num lo hi = inr (v, e) -> (length e <= length p)%nat.
Proof.
  intros Hn. unfold number_field. intros H. parsed.
  pose proof (skip_space_length p). apply Hn in E. lia.
Qed.

Lemma strtol_length s v r : strtol s = Some (v, r) -> (length r <= length s)%nat.
Proof.
  unfold strtol. destruct (scan_number 10 s) as [[[x w] q]|] eqn:E; [|done].
  apply scan_number_length in E. by intros [= <- <-].
Qed.

Lemma strtoul_length s v r : strtoul s = Some (v, r) -> (length r <= length s)%nat.
Proof.
  unfold strtoul. destruct (scan_number 10 s) as [[[x w] q]|] eqn:E; [|done].
  apply scan_number_length in E. by intros [= <- <-].
Qed.

Lemma parse_member_length item fields p item' fields' p' :
  parse_member item fields p = inr (item', fields', p') -> (length p' < length p)%nat.
Proof.
  unfold parse_member. intros H. parsed. repeat case_match; parsed; repeat match goal with
    | E : number_field _ strtol _ _ = inr _ |- _ => apply number_field_length in E; [|apply strtol_length]
    | E : number_field _ strtoul _ _ = inr _ |- _ => apply number_field_length in E; [|apply strtoul_length]
    | E : json_string _ _ = Some _ |- _ => apply json_string_length in E
    | E : expect _ _ = Some _ |- _ => apply expect_length in E
    end; try done; lia.
Qed.

Lemma separator_length c p p' : separator c p = inr p' -> (length p' <= length p)%nat.
Proof.
  unfold separator. pose proof (skip_space_length p). repeat case_match; try done;
    intros [= <-]; rewrite ?length_drop; lia.
Qed.

(** With at least as much fuel as text, more fuel changes nothing: the loop
    ends by itself. *)
Lemma parse_members_fuel f1 f2 item fields p :
  (length p <= f1)%nat -> (length p <= f2)%nat ->
  parse_members f1 item fields p = parse_members f2 item fields p.
Proof.
  assert (Hnil : forall f i fl, parse_members f i fl [] = inl []) by (by intros [|f]).
  revert f2 item fields p; induction f1 as [|f1 IH]; intros f2 item fields p H1 H2.
  - destruct p; [by rewrite !Hnil|cbn in H1; lia].
  - destruct f2 as [|f2]; [destruct p; [by rewrite !Hnil|cbn in H2; lia]|].
    cbn [parse_members]. destruct (_ =? 125); [done|].
    destruct (parse_member item fields p) as [e|[[i fl] q]] eqn:E; [done|]. cbn.
    apply parse_member_length in E. destruct (separator 125 q) as [e|q'] eqn:Es; [done|]. cbn.
    apply separator_length in Es. apply IH; lia.
Qed.

Lemma parse_members_length fuel item fields p item' fields' p' :
  parse_members fuel item fields p = inr (item', fields', p') -> (length p' <= length p)%nat.
Proof.
  revert item fields p; induction fuel as [|f IH]; intros item fields p; cbn [parse_members].
  - case_match; [|done]. by intros [= <- <- <-].
  - destruct (_ =? 125) eqn:Eb; [by intros [= <- <- <-]|]. intros H. parsed.
    apply parse_member_length in E. apply separator_length in E0. apply IH in H. lia.
Qed.

Lemma parse_items_fuel f1 f2 book p :
  (length p <= f1)%nat -> (length p <= f2)%nat -> parse_items f1 book p = parse_items f2 book p.
Proof.
  assert (Hnil : forall f b, parse_items f b [] = inl []).
  { intros [|f] b; [done|]. cbn. by destruct (_ =? _)%nat. }
  revert f2 book p; induction f1 as [|f1 IH]; intros f2 book p H1 H2.
  - destruct p; [by rewrite !Hnil|cbn in H1; lia].
  - destruct f2 as [|f2]; [destruct p; [by rewrite !Hnil|cbn in H2; lia]|].
    cbn [parse_items]. destruct (_ =? 93); [done|]. destruct (guard_at p _); [done|]. cbn.
    destruct (expect 123 p) as [q|] eqn:E; [|done]. cbn. apply expect_length in E.
    destruct (parse_members (length q) zero_contact 0 q) as [e|[[i fl] q']] eqn:Em; [done|]. cbn.
    apply parse_members_length in Em. destruct (guard_at _ _); [done|]. cbn.
    destruct (separator 93 (drop 1 q')) as [e|q''] eqn:Es; [done|]. cbn.
    apply separator_length in Es. rewrite length_drop in Es. apply IH; lia.
Qed.

(** ** Printing and the round trip *)

Definition escape (s : bytes) : bytes :=
  s ≫= fun c => if (c =? DQ) || (c =? BACKSLASH) then [BACKSLASH; c] else [c].

Definition quote (s : bytes) : bytes := DQ :: escape s ++ [DQ].

Definition member (key value : bytes) : bytes := quote key ++ 58 :: value.

Definition print_role (r : contact_role) : bytes :=
  match r with CONTACT_HUMAN => str "human" | _ => str "ai" end.

(** The canonical text of an entry, members in the order of the template
    [config/contacts.json.example]. *)
Definition print_contact (c : contact) : bytes :=
  123 :: member (str "name") (quote (name c)) ++
  44 :: member (str "role") (quote (print_role (role c))) ++
  44 :: member (str "host") (quote (host c)) ++
  44 :: member (str "port") (print_nat (port c)) ++
  44 :: member (str "shared_key") (quote (shared_key c)) ++
  44 :: member (str "arbiter_priority") (print_nat (arbiter_priority c)) ++
  44 :: member (str "RAM") (print_nat (ram_gb c)) ++ [125].

Fixpoint print_items (b : contact_book) : bytes :=
  match b with
  | [] => []
  | [c] => print_contact c
  | c :: b' => print_contact c ++ 44 :: print_items b'
  end.

Definition print_book (b : contact_book) : bytes := 91 :: print_items b ++ [93].

Lemma json_chars_escape size out s rest :
  text_ok s -> (length out + length s < size)%nat ->
  json_chars size out (escape s ++ DQ :: rest) = Some (out ++ s, rest).
Proof.
  intros Hs. revert out; induction Hs as [|c s Hc Hs IH]; intros out Hl.
  - cbn. by rewrite app_nil_r.
  - cbn [length] in Hl. unfold escape. cbn [mbind list_bind].
    fold (escape s).
    assert (Ho : (size <=? length out + 1)%nat = false) by (apply Nat.leb_gt; lia).
    assert (Hc' : (c <? 32) = false) by (apply Z.ltb_ge; lia).
    assert (Hn : json_chars size (out ++ [c]) (escape s ++ DQ :: rest) = Some (out ++ c :: s, rest)).
    { rewrite IH by (rewrite length_app; cbn; lia). by rewrite <- app_assoc. }
    destruct (Z.eqb_spec c DQ) as [E|E]; cbn [orb].
    { cbn [app json_chars]. rewrite E in *. change (BACKSLASH =? DQ) with false.
      change (BACKSLASH =? BACKSLASH) with true. change (DQ =? BACKSLASH) with false.
      change (DQ =? DQ) with true. cbn [orb negb]. by rewrite Hc', Ho. }
    destruct (Z.eqb_spec c BACKSLASH) as [E'|E'].
    { cbn [app json_chars]. rewrite E' in *. change (BACKSLASH =? DQ) with false.
      change (BACKSLASH =? BACKSLASH) with true. cbn [orb negb]. by rewrite Hc', Ho. }
    cbn [app json_chars]. destruct (Z.eqb_spec c DQ); [done|].
    destruct (Z.eqb_spec c BACKSLASH); [done|]. by rewrite Hc', Ho.
Qed.

Lemma json_string_quote size s rest :
  text_ok s -> (length s < size)%nat -> json_string size (quote s ++ rest) = Some (s, rest).
Proof.
  intros Hs Hl. unfold json_string, quote. cbn [app]. rewrite skip_space_nonspace by done.
  change (DQ =? DQ) with true. cbn iota. rewrite <- app_assoc. cbn [app].
  by apply json_chars_escape.
Qed.

(** The key and the colon of a member. *)
Lemma member_key key v rest :
  text_ok key -> (length key < 32)%nat ->
  exists q, json_string 32 (member key v ++ rest) = Some (key, q) /\ expect 58 q = Some (v ++ rest).
Proof.
  intros Hk Hl. exists (58 :: v ++ rest). split; [|done].
  unfold member. rewrite <- app_assoc. cbn [app]. by apply json_string_quote.
Qed.

Lemma number_field_print n rest lo hi num :
  0 <= n -> lo <= n <= hi ->
  (match rest with [] => True | c :: _ => isalnum c = false end) ->
  num (print_nat n ++ rest) = Some (n, rest) ->
  number_field (print_nat n ++ rest) num lo hi = inr (n, rest).
Proof.
  intros Hn Hr Hrest Hnum. unfold number_field.
  assert (Hs : skip_space (print_nat n ++ rest) = print_nat n ++ rest).
  { pose proof (print_nat_isdigit n) as Hd. destruct (print_nat n) as [|d ds] eqn:E;
      [by apply print_nat_nonempty in E|]. apply Forall_cons in Hd as [Hd _].
    apply isdigit_facts in Hd as (_ & Hsp & _). by apply skip_space_nonspace. }
  rewrite Hs, Hnum. cbn. destruct (Z.leb_spec lo n), (Z.leb_spec n hi); done || lia.
Qed.

Lemma strtol_print n rest :
  0 <= n <= LONG_MAX -> (match rest with [] => True | c :: _ => isalnum c = false end) ->
  strtol (print_nat n ++ rest) = Some (n, rest).
Proof.
  intros Hn Hr. unfold strtol. rewrite scan_number_print by (done || lia).
  unfold clamp, LONG_MIN, LONG_MAX in *. do 2 f_equal. lia.
Qed.

Lemma strtoul_print n rest :
  0 <= n <= ULONG_MAX -> (match rest with [] => True | c :: _ => isalnum c = false end) ->
  strtoul (print_nat n ++ rest) = Some (n, rest).
Proof.
  intros Hn Hr. unfold strtoul. rewrite scan_number_print by (done || lia).
  unfold unsigned_value. destruct (Z.ltb_spec ULONG_MAX n); [lia|done].
Qed.

(** Parse the key of a literal member and select its branch. *)
Ltac member_branch key v rest :=
  let q := fresh "q" in let H1 := fresh in let H2 := fresh in
  destruct (member_key (str key) v rest) as (q & H1 & H2);
  [repeat constructor; done|cbn; lia|];
  unfold parse_member; rewrite H1; cbn [attempt mbind parse_bind];
  rewrite H2; cbn [attempt mbind parse_bind];
  repeat (match goal with |- context [bytes_eqb (str ?a) (str ?b)] =>
    let r := eval vm_compute in (bytes_eqb (str a) (str b)) in
    change (bytes_eqb (str a) (str b)) with r end; cbn iota).

Section members.
Context (item : contact) (fields : Z) (v rest : bytes).
Hypothesis (Hrest : match rest with [] => True | c :: _ => isalnum c = false end).

Lemma member_name : text_ok v -> (length v < 64)%nat ->
    parse_member item fields (member (str "name") (quote v) ++ rest)
    = inr (set_name v item, Z.lor fields 1, rest).
Proof.
    intros Hv Hl. member_branch "name"%string (quote v) rest.
    rewrite json_string_quote by (done || unfold COUNCIL_HOST_LENGTH; lia). cbn [attempt mbind parse_bind].
    unfold fits, COUNCIL_NAME_LENGTH. by destruct (Nat.ltb_spec (length v) 64); [|lia].
Qed.

Lemma member_role r : r <> CONTACT_UNSET ->
    parse_member item fields (member (str "role") (quote (print_role r)) ++ rest)
    = inr (set_role r item, Z.lor fields 2, rest).
Proof.
    clear Hrest. intros Hr. member_branch "role"%string (quote (print_role r)) rest.
    rewrite json_string_quote; [|destruct r; apply Forall_forall; cbn; set_solver by lia
      |unfold COUNCIL_HOST_LENGTH; destruct r; cbn [print_role str length]; lia].
    by destruct r.
Qed.

Lemma member_host : text_ok v -> (length v < 256)%nat ->
    parse_member item fields (member (str "host") (quote v) ++ rest)
    = inr (set_host v item, Z.lor fields 4, rest).
Proof.
    intros Hv Hl. member_branch "host"%string (quote v) rest.
    rewrite json_string_quote by (done || unfold COUNCIL_HOST_LENGTH; lia). cbn [attempt mbind parse_bind].
    unfold fits, COUNCIL_HOST_LENGTH. by destruct (Nat.ltb_spec (length v) 256); [|lia].
Qed.

Lemma member_shared_key : text_ok v -> (length v < 128)%nat ->
    parse_member item fields (member (str "shared_key") (quote v) ++ rest)
    = inr (set_key v item, Z.lor fields 16, rest).
Proof.
    intros Hv Hl. member_branch "shared_key"%string (quote v) rest.
    rewrite json_string_quote by (done || unfold COUNCIL_HOST_LENGTH; lia). cbn [attempt mbind parse_bind].
    unfold fits, COUNCIL_KEY_LENGTH. by destruct (Nat.ltb_spec (length v) 128); [|lia].
Qed.

Lemma member_port n : 1 <= n <= 65535 ->
    parse_member item fields (member (str "port") (print_nat n) ++ rest)
    = inr (set_port n item, Z.lor fields 8, rest).
Proof.
    intros Hn. member_branch "port"%string (print_nat n) rest.
    rewrite number_field_print; try done; try lia. apply strtol_print; [unfold LONG_MAX; lia|done].
Qed.

Lemma member_priority n : 0 <= n <= 1000000 ->
    parse_member item fields (member (str "arbiter_priority") (print_nat n) ++ rest)
    = inr (set_priority n item, fields, rest).
Proof.
    intros Hn. member_branch "arbiter_priority"%string (print_nat n) rest.
    rewrite number_field_print; try done; try lia. apply strtol_print; [unfold LONG_MAX; lia|done].
Qed.

Lemma member_ram n : 0 <= n <= 1048576 ->
    parse_member item fields (member (str "RAM") (print_nat n) ++ rest)
    = inr (set_ram n item, fields, rest).
Proof.
    intros Hn. member_branch "RAM"%string (print_nat n) rest.
    rewrite number_field_print; try done; try lia. apply strtoul_print; [unfold ULONG_MAX; lia|done].
Qed.
End members.

(** A member followed by a comma, or by the closing brace. *)
Lemma parse_members_step f item fields key v rest item' fields' :
  parse_member item fields (member key v ++ 44 :: rest) = inr (item', fields', 44 :: rest) ->
  parse_members (S f) item fields (member key v ++ 44 :: rest) = parse_members f item' fields' rest.
Proof. intros H. cbn [parse_members]. rewrite H. done. Qed.

Lemma parse_members_last f item fields key v rest item' fields' :
  parse_member item fields (member key v ++ 125 :: rest) = inr (item', fields', 125 :: rest) ->
  parse_members (S f) item fields (member key v ++ 125 :: rest) = inr (item', fields', 125 :: rest).
Proof. intros H. cbn [parse_members]. rewrite H. cbn. by destruct f. Qed.

Lemma parse_members_print c rest :
  wf_contact c ->
  let p := drop 1 (print_contact c ++ rest) in
  parse_members (length p) zero_contact 0 p = inr (c, 31, 125 :: rest).
Proof.
  intros (Hn & Hr & Hh & Hp & Hk & Ha & Hm) p.
  rewrite (parse_members_fuel _ (7 + length p)) by lia.
  generalize (length p) as f; intros f. unfold p, print_contact; clear p. cbn [app drop].
  rewrite drop_0. repeat (rewrite <- app_assoc; cbn [app]).
  cbn [Nat.add].
  do 3 (erewrite parse_members_step; [|first [apply member_name|apply member_role|apply member_host]; tauto]).
  erewrite parse_members_step; [|by apply member_port].
  erewrite parse_members_step; [|apply member_shared_key; tauto].
  erewrite parse_members_step; [|by apply member_priority].
  erewrite parse_members_last; [|by apply member_ram].
  by destruct c.
Qed.

Lemma skip_space_head c r : isspace c = false -> peek (skip_space (c :: r)) = c.
Proof. intros H. by rewrite skip_space_nonspace. Qed.

(** One entry of the array and its separator. *)
Lemma parse_items_entry f book c rest :
  wf_contact c -> (length book < COUNCIL_MAX_CONTACTS)%nat ->
  parse_items (S f) book (print_contact c ++ rest)
  = (p ← separator 93 rest; parse_items f (book ++ [c]) p).
Proof.
  intros Hc Hl. cbn [parse_items].
  destruct (Nat.eqb_spec (length book) COUNCIL_MAX_CONTACTS); [lia|]. cbn [negb guard_at].
  pose proof (parse_members_print c rest Hc) as H. cbn zeta in H.
  set (q := drop 1 (print_contact c ++ rest)) in *.
  assert (Eq : print_contact c ++ rest = 123 :: q) by done. rewrite Eq. clearbody q. clear Eq.
  rewrite skip_space_head by done. change (123 =? 93) with false. cbn iota.
  unfold expect. rewrite skip_space_nonspace by done. change (123 =? 123) with true. cbn iota.
  cbn [mbind parse_bind attempt]. rewrite H. cbn [mbind parse_bind drop]. done.
Qed.

Lemma parse_items_print fuel book b rest :
  Forall wf_contact b -> (length book + length b <= COUNCIL_MAX_CONTACTS)%nat ->
  (length b <= fuel)%nat ->
  parse_items fuel book (print_items b ++ 93 :: rest) = inr (book ++ b, 93 :: rest).
Proof.
  intros Hb. revert fuel book; induction Hb as [|c b Hc Hb IH]; intros fuel book Hl Hf.
  - cbn. rewrite app_nil_r. by destruct fuel.
  - cbn in Hl, Hf. destruct fuel as [|f]; [lia|]. destruct b as [|c' b].
    + cbn [print_items]. rewrite parse_items_entry by (done || lia). cbn. by destruct f.
    + change (print_items (c :: c' :: b)) with (print_contact c ++ 44 :: print_items (c' :: b)).
      rewrite <- app_assoc. rewrite parse_items_entry by (done || lia). cbn [app].
      unfold separator. rewrite skip_space_nonspace by done. cbn [peek drop].
      change (44 =? 44) with true. cbn [mbind parse_bind].
      rewrite drop_0, (IH f (book ++ [c])); [by rewrite <- app_assoc| |cbn in *; lia].
      rewrite length_app. cbn in *. lia.
Qed.

Lemma print_items_length b : (length b <= length (print_items b))%nat.
Proof.
  induction b as [|c [|c' b] IH]; [done|cbn; lia|].
  change (print_items (c :: c' :: b)) with (print_contact c ++ 44 :: print_items (c' :: b)).
  rewrite length_app. cbn [length] in *. lia.
Qed.

Lemma parse_print_book b : wf_book b -> parse_book (print_book b) = inr b.
Proof.
  intros [Hb Hl]. unfold parse_book, print_book, expect.
  rewrite skip_space_nonspace by done. change (91 =? 91) with true. cbn [attempt mbind parse_bind].
  rewrite (parse_items_print _ [] b []); [done|done|done|].
  rewrite length_app. pose proof (print_items_length b). lia.
Qed.

Lemma contact_book_find_spec b n :
  match contact_book_find b n with
  | Some i => exists c, b !! i = Some c /\ name c = n
              /\ forall j d, (j < i)%nat -> b !! j = Some d -> name d <> n
  | None => Forall (fun c => name c <> n) b
  end.
Proof.
  induction b as [|c b IH]; cbn; [constructor|].
  destruct (bytes_eqb (name c) n) eqn:E; to_prop.
  - exists c. split; [done|]. split; [done|]. lia.
  - destruct (contact_book_find b n) as [i|]; cbn.
    + destruct IH as (d & H1 & H2 & H3). exists d. split; [done|]. split; [done|].
      intros [|j] e Hj He; [by injection He as <-|]. apply (H3 j); [lia|done].
    + by constructor.
Qed.

(** ** Claims *)

(** round trip: the text the template format prints for a well-formed book
    loads back as exactly that book, escapes included. *)
Theorem contact_book_roundtrip (b : contact_book) (path : bytes) (w : world) :
  wf_book b -> w_fs w !! path = Some (print_book b) -> Forall (fun c => 0 < c) (print_book b) ->
  contact_book_load path w = (inr b, w).
Proof.
  intros Hb Hp Hz. unfold contact_book_load. rewrite st_bind_run. unfold file_read, gets.
  cbn [fst snd]. rewrite Hp. unfold mret, st_ret. rewrite cstr_id by done.
  by rewrite parse_print_book.
Qed.

Example sample_book : contact_book :=
  [Contact (str "Aria") CONTACT_AI (str "192.168.100.6") 47101 (str "key-a") 10 8;
   Contact (str "Noob") CONTACT_HUMAN (str "127.0.0.1") 47100 (DQ :: str "key\n") 0 0].

Example contact_book_roundtrip_witness :
  let w := World {[ str "c.json" := print_book sample_book ]} 0 [] [] [] [] ∅ [] [] in
  wf_book sample_book /\ contact_book_load (str "c.json") w = (inr sample_book, w).
Proof.
  split; [by apply (bool_decide_unpack _); vm_compute|].
  apply contact_book_roundtrip.
  - by apply (bool_decide_unpack _); vm_compute.
  - vm_compute. reflexivity.
  - by apply (bool_decide_unpack _); vm_compute.
Defined.

(** whatever the file contains, a book that loads has at most 64 entries,
    each with bounded printable strings, a real role, a port in 1..65535 and
    bounded numbers: every later fixed-size copy of these fields fits. *)
Theorem contact_book_load_wf (path : bytes) (w : world) (b : contact_book) :
  (contact_book_load path w).1 = inr b -> wf_book b.
Proof.
  unfold contact_book_load. rewrite st_bind_run. unfold file_read, gets. cbn [fst snd].
  destruct (w_fs w !! path) as [content|]; [|done]. unfold mret, st_ret. cbn [fst].
  destruct (parse_book (cstr content)) eqn:E; [done|]. intros [= <-].
  by eapply parse_book_wf.
Qed.

Example contact_book_load_wf_witness :
  let w := World {[ str "c.json" := print_book sample_book ]} 0 [] [] [] [] ∅ [] [] in
  (contact_book_load (str "c.json") w).1 = inr sample_book /\ wf_book sample_book.
Proof.
  assert (H : (contact_book_load (str "c.json")
    (World {[ str "c.json" := print_book sample_book ]} 0 [] [] [] [] ∅ [] [])).1 = inr sample_book)
    by (vm_compute; reflexivity).
  split; [exact H|]. exact (contact_book_load_wf _ _ _ H).
Defined.

End Book.
