(* ===== verification/ServiceConfig.v ===== *)
(** * council/src/service_config.c: the daemon's settings file *)
From S2P Require Import Prelude CLib World ContactBook.

Open Scope Z_scope.

Definition COUNCIL_PATH_LENGTH : nat := 512.

(** service_config.h; [cfg_name]/[cfg_role] are the members [name]/[role]. *)
Record service_config := ServiceConfig {
  cfg_name : bytes;
  cfg_role : contact_role;
  bind_address : bytes;
  human_port : Z;
  ai_port : Z;
  is_hub : bool;
  hub_host : bytes;
  hub_port : Z;
  own_key : bytes;
  contacts_path : bytes;
  transcript_path : bytes;
  inbox_path : bytes;
  summary_path : bytes;
  activity_path : bytes;
  files_directory : bytes;
  max_file_bytes : Z;
  presence_seconds : Z
}.

Module Config.

(** Assignment to one member. *)
Definition set_cfg_name (v : bytes) (c : service_config) : service_config :=
  ServiceConfig v (cfg_role c) (bind_address c) (human_port c) (ai_port c) (is_hub c) (hub_host c) (hub_port c) (own_key c) (contacts_path c) (transcript_path c) (inbox_path c) (summary_path c) (activity_path c) (files_directory c) (max_file_bytes c) (presence_seconds c).
Definition set_cfg_role (v : contact_role) (c : service_config) : service_config :=
  ServiceConfig (cfg_name c) v (bind_address c) (human_port c) (ai_port c) (is_hub c) (hub_host c) (hub_port c) (own_key c) (contacts_path c) (transcript_path c) (inbox_path c) (summary_path c) (activity_path c) (files_directory c) (max_file_bytes c) (presence_seconds c).
Definition set_bind_address (v : bytes) (c : service_config) : service_config :=
  ServiceConfig (cfg_name c) (cfg_role c) v (human_port c) (ai_port c) (is_hub c) (hub_host c) (hub_port c) (own_key c) (contacts_path c) (transcript_path c) (inbox_path c) (summary_path c) (activity_path c) (files_directory c) (max_file_bytes c) (presence_seconds c).
Definition set_human_port (v : Z) (c : service_config) : service_config :=
  ServiceConfig (cfg_name c) (cfg_role c) (bind_address c) v (ai_port c) (is_hub c) (hub_host c) (hub_port c) (own_key c) (contacts_path c) (transcript_path c) (inbox_path c) (summary_path c) (activity_path c) (files_directory c) (max_file_bytes c) (presence_seconds c).
Definition set_ai_port (v : Z) (c : service_config) : service_config :=
  ServiceConfig (cfg_name c) (cfg_role c) (bind_address c) (human_port c) v (is_hub c) (hub_host c) (hub_port c) (own_key c) (contacts_path c) (transcript_path c) (inbox_path c) (summary_path c) (activity_path c) (files_directory c) (max_file_bytes c) (presence_seconds c).
Definition set_is_hub (v : bool) (c : service_config) : service_config :=
  ServiceConfig (cfg_name c) (cfg_role c) (bind_address c) (human_port c) (ai_port c) v (hub_host c) (hub_port c) (own_key c) (contacts_path c) (transcript_path c) (inbox_path c) (summary_path c) (activity_path c) (files_directory c) (max_file_bytes c) (presence_seconds c).
Definition set_hub_host (v : bytes) (c : service_config) : service_config :=
  ServiceConfig (cfg_name c) (cfg_role c) (bind_address c) (human_port c) (ai_port c) (is_hub c) v (hub_port c) (own_key c) (contacts_path c) (transcript_path c) (inbox_path c) (summary_path c) (activity_path c) (files_directory c) (max_file_bytes c) (presence_seconds c).
Definition set_hub_port (v : Z) (c : service_config) : service_config :=
  ServiceConfig (cfg_name c) (cfg_role c) (bind_address c) (human_port c) (ai_port c) (is_hub c) (hub_host c) v (own_key c) (contacts_path c) (transcript_path c) (inbox_path c) (summary_path c) (activity_path c) (files_directory c) (max_file_bytes c) (presence_seconds c).
Definition set_own_key (v : bytes) (c : service_config) : service_config :=
  ServiceConfig (cfg_name c) (cfg_role c) (bind_address c) (human_port c) (ai_port c) (is_hub c) (hub_host c) (hub_port c) v (contacts_path c) (transcript_path c) (inbox_path c) (summary_path c) (activity_path c) (files_directory c) (max_file_bytes c) (presence_seconds c).
Definition set_contacts_path (v : bytes) (c : service_config) : service_config :=
  ServiceConfig (cfg_name c) (cfg_role c) (bind_address c) (human_port c) (ai_port c) (is_hub c) (hub_host c) (hub_port c) (own_key c) v (transcript_path c) (inbox_path c) (summary_path c) (activity_path c) (files_directory c) (max_file_bytes c) (presence_seconds c).
Definition set_transcript_path (v : bytes) (c : service_config) : service_config :=
  ServiceConfig (cfg_name c) (cfg_role c) (bind_address c) (human_port c) (ai_port c) (is_hub c) (hub_host c) (hub_port c) (own_key c) (contacts_path c) v (inbox_path c) (summary_path c) (activity_path c) (files_directory c) (max_file_bytes c) (presence_seconds c).
Definition set_inbox_path (v : bytes) (c : service_config) : service_config :=
  ServiceConfig (cfg_name c) (cfg_role c) (bind_address c) (human_port c) (ai_port c) (is_hub c) (hub_host c) (hub_port c) (own_key c) (contacts_path c) (transcript_path c) v (summary_path c) (activity_path c) (files_directory c) (max_file_bytes c) (presence_seconds c).
Definition set_summary_path (v : bytes) (c : service_config) : service_config :=
  ServiceConfig (cfg_name c) (cfg_role c) (bind_address c) (human_port c) (ai_port c) (is_hub c) (hub_host c) (hub_port c) (own_key c) (contacts_path c) (transcript_path c) (inbox_path c) v (activity_path c) (files_directory c) (max_file_bytes c) (presence_seconds c).
Definition set_activity_path (v : bytes) (c : service_config) : service_config :=
  ServiceConfig (cfg_name c) (cfg_role c) (bind_address c) (human_port c) (ai_port c) (is_hub c) (hub_host c) (hub_port c) (own_key c) (contacts_path c) (transcript_path c) (inbox_path c) (summary_path c) v (files_directory c) (max_file_bytes c) (presence_seconds c).
Definition set_files_directory (v : bytes) (c : service_config) : service_config :=
  ServiceConfig (cfg_name c) (cfg_role c) (bind_address c) (human_port c) (ai_port c) (is_hub c) (hub_host c) (hub_port c) (own_key c) (contacts_path c) (transcript_path c) (inbox_path c) (summary_path c) (activity_path c) v (max_file_bytes c) (presence_seconds c).
Definition set_max_file_bytes (v : Z) (c : service_config) : service_config :=
  ServiceConfig (cfg_name c) (cfg_role c) (bind_address c) (human_port c) (ai_port c) (is_hub c) (hub_host c) (hub_port c) (own_key c) (contacts_path c) (transcript_path c) (inbox_path c) (summary_path c) (activity_path c) (files_directory c) v (presence_seconds c).
Definition set_presence_seconds (v : Z) (c : service_config) : service_config :=
  ServiceConfig (cfg_name c) (cfg_role c) (bind_address c) (human_port c) (ai_port c) (is_hub c) (hub_host c) (hub_port c) (own_key c) (contacts_path c) (transcript_path c) (inbox_path c) (summary_path c) (activity_path c) (files_directory c) (max_file_bytes c) v.

(** [memset(c, 0, sizeof( *c))] and the three defaults. *)
Definition defaults : service_config :=
  ServiceConfig [] CONTACT_UNSET (str "0.0.0.0") 0 0 false [] 0 [] [] [] [] [] [] [] 10485760 15.

(** [copy_text]: a value that does not fit leaves the member as it was (the
    caller ignores the result). *)
Definition copy_text (size : nat) (set : bytes -> service_config -> service_config)
  (value : bytes) (c : service_config) : service_config :=
  if (size <=? length value)%nat then c else set value c.

Definition is_key (key : bytes) (s : string) : bool := bytes_eqb key (str s).

(** Keys that the installer and systemd read from the same file. *)
Definition foreign_keys : list string :=
  ["os_user"; "bridge_host"; "bridge_port"; "bridge_key_file"; "bridge_state_dir";
   "work_directory"; "web_bind"; "web_port"; "web_identity"; "web_hub_host"; "web_hub_port";
   "web_key_file"; "web_password_file"; "desired_ip"; "mac"]%string.

(** The [strcmp] chain; [None] is [goto invalid]. *)
Definition apply_setting (key value : bytes) (c : service_config) : option service_config :=
  let key_is := is_key key in
  if key_is "name" then Some (copy_text COUNCIL_NAME_LENGTH set_cfg_name value c)
  else if key_is "role" then
    Some (set_cfg_role (if bytes_eqb value (str "human") then CONTACT_HUMAN else CONTACT_AI) c)
  else if key_is "bind_address" then Some (copy_text COUNCIL_HOST_LENGTH set_bind_address value c)
  else if key_is "human_port" then Some (set_human_port (to_u16 (atoi value)) c)
  else if key_is "ai_port" then Some (set_ai_port (to_u16 (atoi value)) c)
  else if key_is "is_hub" then
    Some (set_is_hub (bytes_eqb value (str "true") || bytes_eqb value (str "1")) c)
  else if key_is "hub_host" then Some (copy_text COUNCIL_HOST_LENGTH set_hub_host value c)
  else if key_is "hub_port" then Some (set_hub_port (to_u16 (atoi value)) c)
  else if key_is "own_key" then Some (copy_text COUNCIL_KEY_LENGTH set_own_key value c)
  else if key_is "contacts_file" then Some (copy_text COUNCIL_PATH_LENGTH set_contacts_path value c)
  else if key_is "transcript_file" then Some (copy_text COUNCIL_PATH_LENGTH set_transcript_path value c)
  else if key_is "inbox_file" then Some (copy_text COUNCIL_PATH_LENGTH set_inbox_path value c)
  else if key_is "summary_file" then Some (copy_text COUNCIL_PATH_LENGTH set_summary_path value c)
  else if key_is "activity_file" then Some (copy_text COUNCIL_PATH_LENGTH set_activity_path value c)
  else if key_is "files_directory" then Some (copy_text COUNCIL_PATH_LENGTH set_files_directory value c)
  else if key_is "max_file_bytes" then Some (set_max_file_bytes (value_or_0 (strtoul value)) c)
  else if key_is "presence_seconds" then Some (set_presence_seconds (atoi value) c)
  else if existsb key_is foreign_keys then Some c
  else None.

(** One buffer of the [fgets] loop. *)
Definition apply_line (buffer : bytes) (c : service_config) : option service_config :=
  let line := trim (cstr buffer) in
  if (peek line =? NUL) || (peek line =? 35) || (peek line =? 91) then Some c
  else match strchr line 61 with
       | None => None
       | Some equals =>
           apply_setting (trim (cut_at (Z.eqb 61) line)) (trim (drop 1 equals)) c
       end.

Inductive config_error := CannotOpenConfig | InvalidSetting (line_number : Z) | MissingRequired.

(** The loop: [line_number] counts the buffers read. *)
Fixpoint apply_lines (line_number : Z) (ls : list bytes) (c : service_config)
  : config_error + service_config :=
  match ls with
  | [] => inr c
  | l :: ls' => match apply_line l c with
                | None => inl (InvalidSetting (line_number + 1))
                | Some c' => apply_lines (line_number + 1) ls' c'
                end
  end.

(** The check after the loop. *)
Definition required (c : service_config) : bool :=
  negb (peek (cfg_name c) =? NUL) && negb (human_port c =? 0) && negb (ai_port c =? 0)
  && negb (peek (contacts_path c) =? NUL).

Definition service_config_load (path : bytes) : st world (config_error + service_config) :=
  found ← file_read path;
  mret (match found with
        | None => inl CannotOpenConfig
        | Some content =>
            match apply_lines 0 (fgets_all 1024 content) defaults with
            | inl e => inl e
            | inr c => if required c then inr c else inl MissingRequired
            end
        end).

(** ** Every loaded configuration respects the member sizes *)

Definition u16 (v : Z) : Prop := 0 <= v < 65536.

Definition config_bounds (c : service_config) : Prop :=
  (length (cfg_name c) < COUNCIL_NAME_LENGTH)%nat
  /\ (length (bind_address c) < COUNCIL_HOST_LENGTH)%nat
  /\ (length (hub_host c) < COUNCIL_HOST_LENGTH)%nat
  /\ (length (own_key c) < COUNCIL_KEY_LENGTH)%nat
  /\ Forall (fun p => length p < COUNCIL_PATH_LENGTH)%nat
       [contacts_path c; transcript_path c; inbox_path c; summary_path c; activity_path c; files_directory c]
  /\ u16 (human_port c) /\ u16 (ai_port c) /\ u16 (hub_port c)
  /\ 0 <= max_file_bytes c <= ULONG_MAX /\ INT_MIN <= presence_seconds c <= INT_MAX.

Lemma to_u16_range v : u16 (to_u16 v).
Proof. apply Z.mod_pos_bound. lia. Qed.

Lemma atoi_range s : INT_MIN <= atoi s <= INT_MAX.
Proof.
  unfold atoi, to_signed, INT_MIN, INT_MAX. change (2 ^ (32 - 1)) with 2147483648.
  pose proof (Z.mod_pos_bound (value_or_0 (strtol s) + 2147483648) (2 ^ 32) ltac:(lia)).
  change (2 ^ 32) with 4294967296 in *. lia.
Qed.

Lemma scan_digits_nonneg base acc s : 0 <= base -> 0 <= acc -> 0 <= (scan_digits base acc s).1.
Proof.
  intros Hb. revert acc; induction s as [|c s IH]; intros acc Ha; cbn; [done|].
  destruct (digit_value c <? base) eqn:E; [|done]. apply IH.
  assert (0 <= digit_value c).
  { unfold digit_value, isdigit, islower, isupper. repeat split_if; to_prop; lia. }
  nia.
Qed.

Lemma scan_number_nonneg base s x v r :
  0 <= base -> scan_number base s = Some (x, v, r) -> 0 <= v.
Proof.
  intros Hb. unfold scan_number.
  destruct (match skip_space s with [] => _ | _ :: _ => _ end) as [neg q].
  destruct q as [|c q]; [done|]. destruct (digit_value c <? base); [|done].
  pose proof (scan_digits_nonneg base 0 (c :: q) Hb ltac:(lia)) as Hd.
  destruct (scan_digits base 0 (c :: q)). by intros [= <- <- <-].
Qed.

Lemma strtoul_range s : 0 <= value_or_0 (strtoul s) <= ULONG_MAX.
Proof.
  unfold strtoul, value_or_0. destruct (scan_number 10 s) as [[[x v] r]|] eqn:E; [|done].
  apply scan_number_nonneg in E; [|lia]. unfold unsigned_value, ULONG_MAX in *.
  destruct (Z.ltb_spec 18446744073709551615 v); [done|]. destruct x; [|lia].
  pose proof (Z.mod_pos_bound (- v) (2 ^ 64) ltac:(lia)).
  change (2 ^ 64) with 18446744073709551616 in *. lia.
Qed.

#[local] Hint Resolve to_u16_range atoi_range strtoul_range : noobia.

Lemma copy_text_bounds (size : nat) set v c :
  config_bounds c -> ((length v < size)%nat -> config_bounds (set v c)) ->
  config_bounds (copy_text size set v c).
Proof.
  intros Hc Hs. unfold copy_text. destruct (Nat.leb_spec size (length v)); [done|]. by apply Hs.
Qed.

Lemma apply_setting_bounds key value c c' :
  apply_setting key value c = Some c' -> config_bounds c -> config_bounds c'.
Proof.
  unfold apply_setting. intros H Hc. repeat case_match; simplify_eq; try done;
    try (apply copy_text_bounds; [done|intros Hl]);
    destruct Hc as (? & ? & ? & ? & HF & ? & ? & ? & ? & ?);
    repeat (apply Forall_cons in HF as [? HF]);
    unfold config_bounds; cbn; split_and!; eauto with noobia; try lia;
    first [by apply strtoul_range | by apply atoi_range | by rewrite !Forall_cons, Forall_nil].
Qed.

Lemma apply_line_bounds l c c' :
  apply_line l c = Some c' -> config_bounds c -> config_bounds c'.
Proof.
  unfold apply_line. case_match; [by intros [= <-]|]. case_match; [|done].
  apply apply_setting_bounds.
Qed.

Lemma apply_lines_bounds n ls c c' :
  apply_lines n ls c = inr c' -> config_bounds c -> config_bounds c'.
Proof.
  revert n c; induction ls as [|l ls IH]; intros n c; cbn; [by intros [= <-]|].
  destruct (apply_line l c) as [c1|] eqn:E; [|done]. intros H Hc.
  eapply IH; [exact H|]. by eapply apply_line_bounds.
Qed.

Lemma defaults_bounds : config_bounds defaults.
Proof.
  unfold config_bounds, u16, ULONG_MAX, INT_MIN, INT_MAX, COUNCIL_PATH_LENGTH, COUNCIL_KEY_LENGTH,
    COUNCIL_HOST_LENGTH, COUNCIL_NAME_LENGTH. cbn.
  split_and!; try lia; rewrite !Forall_cons, Forall_nil; cbn; lia.
Qed.

(** ** Well-formed settings files *)

(** A [key=value] line of a settings file. *)
Definition setting_line (kv : bytes * bytes) : bytes := fst kv ++ 61 :: snd kv ++ [NL].

(** Text that survives trimming and line splitting unchanged. *)
Definition token (s : bytes) : Prop :=
  Forall (fun c => 0 < c /\ c <> NL) s /\ skip_space s = s /\ rtrim s = s.

#[global] Instance token_dec s : Decision (token s).
Proof. unfold token. apply _. Defined.

Definition plain_setting (kv : bytes * bytes) : Prop :=
  token (fst kv) /\ fst kv <> [] /\ peek (fst kv) <> 35 /\ peek (fst kv) <> 91 /\ (61 ∉ fst kv)
  /\ token (snd kv) /\ (length (fst kv) + length (snd kv) < 1022)%nat.

#[global] Instance plain_setting_dec kv : Decision (plain_setting kv).
Proof. unfold plain_setting. apply _. Defined.

Definition apply_settings (kvs : list (bytes * bytes)) (c : service_config) : option service_config :=
  foldl (fun o kv => o ≫= apply_setting (fst kv) (snd kv)) (Some c) kvs.

Lemma rtrim_app s t : rtrim t <> [] -> rtrim (s ++ t) = s ++ rtrim t.
Proof.
  intros Ht. induction s as [|c s IH]; [done|]. cbn. rewrite IH.
  by destruct (s ++ rtrim t) eqn:E; [destruct s|].
Qed.

Lemma rtrim_space s c : isspace c = true -> rtrim (s ++ [c]) = rtrim s.
Proof.
  intros Hc. induction s as [|d s IH]; cbn; [by rewrite Hc|]. by rewrite IH.
Qed.

Lemma skip_space_fix c s : skip_space (c :: s) = c :: s -> isspace c = false.
Proof.
  unfold skip_space. cbn. destruct (isspace c) eqn:E; [|done]. cbn.
  intros H. pose proof (span_app (fun c => negb (isspace c)) s) as Ha.
  destruct (span (fun c => negb (isspace c)) s) as [a b]. cbn in *.
  apply (f_equal length) in H. rewrite <- Ha, length_cons, length_app in H. lia.
Qed.

(** The text of a setting is a fixed point of the trimming. *)
Lemma trim_setting k v :
  token k -> k <> [] -> token v -> trim (k ++ 61 :: v ++ [NL]) = k ++ 61 :: v.
Proof.
  intros (_ & Hk & _) Hne (_ & _ & Hv). unfold trim. destruct k as [|c k]; [done|].
  pose proof (skip_space_fix c k Hk) as Hc. cbn [app]. rewrite skip_space_nonspace by done.
  replace (c :: k ++ 61 :: v ++ [NL]) with (((c :: k) ++ 61 :: v) ++ [NL])
    by (cbn; by rewrite <- app_assoc).
  rewrite rtrim_space by done. destruct v as [|x v].
  - by rewrite (rtrim_app (c :: k) [61]).
  - rewrite cons_middle, app_assoc, rtrim_app by (by rewrite Hv). rewrite Hv.
    by rewrite <- app_assoc.
Qed.

Lemma token_trim s : token s -> trim s = s.
Proof. intros (_ & H1 & H2). unfold trim. by rewrite H1. Qed.

Lemma apply_line_setting kv c :
  plain_setting kv -> apply_line (setting_line kv) c = apply_setting (fst kv) (snd kv) c.
Proof.
  destruct kv as [k v]. intros (Hk & Hne & H35 & H91 & H61 & Hv & Hl). cbn [fst snd] in *.
  unfold apply_line, setting_line. cbn [fst snd]. rewrite cstr_id.
  - rewrite trim_setting by done.
    assert (Hpk : peek (k ++ 61 :: v) = peek k) by (by destruct k).
    assert (H0 : peek k <> NUL).
    { destruct k as [|c0 k]; [done|]. destruct Hk as [Hk _]. apply Forall_cons in Hk as [[? _] _]. cbn. unfold NUL. lia. }
    rewrite Hpk. destruct (Z.eqb_spec (peek k) NUL); [done|].
    destruct (Z.eqb_spec (peek k) 35); [done|]. destruct (Z.eqb_spec (peek k) 91); [done|]. cbn [orb].
    unfold strchr, cut_at. rewrite (span_prefix (Z.eqb 61) k (61 :: v)); [|
      apply Forall_forall; intros x Hx; apply Z.eqb_neq; by intros <- | done].
    cbn [fst snd drop]. by rewrite !token_trim.
  - destruct Hk as [Hk _], Hv as [Hv _]. apply Forall_app. split; [eapply Forall_impl; [exact Hk|]; naive_solver|].
    constructor; [lia|]. apply Forall_app. split; [eapply Forall_impl; [exact Hv|]; naive_solver|].
    constructor; [unfold NL; lia|constructor].
Qed.

Lemma fgets_all_settings kvs :
  Forall plain_setting kvs ->
  fgets_all 1024 (concat (map setting_line kvs)) = map setting_line kvs.
Proof.
  induction 1 as [|[k v] kvs Hkv Hk IH]; [done|]. cbn [map concat].
  destruct Hkv as ([Hk1 _] & _ & _ & _ & _ & [Hv1 _] & Hl). unfold setting_line at 1. cbn [fst snd] in *.
  replace ((k ++ 61 :: v ++ [NL]) ++ concat (map setting_line kvs))
    with ((k ++ 61 :: v) ++ NL :: concat (map setting_line kvs))
    by (cbn; rewrite <- !app_assoc; cbn; by rewrite <- !app_assoc).
  rewrite fgets_all_line.
  - rewrite IH. cbn [fst snd]. f_equal. by rewrite <- app_assoc.
  - lia.
  - rewrite Forall_forall in Hk1, Hv1. unfold NL in *. intros Hin.
    apply elem_of_app in Hin as [Hin|Hin]; [by apply Hk1 in Hin as [_ ?]|].
    apply elem_of_cons in Hin as [?|Hin]; [done|by apply Hv1 in Hin as [_ ?]].
  - rewrite length_app. cbn. lia.
Qed.

Lemma apply_lines_settings kvs n c c' :
  Forall plain_setting kvs -> apply_settings kvs c = Some c' ->
  apply_lines n (map setting_line kvs) c = inr c'.
Proof.
  intros Hk. revert n c; induction Hk as [|kv kvs Hkv Hk IH]; intros n c; cbn [map apply_lines].
  - by intros [= <-].
  - unfold apply_settings. cbn [foldl]. rewrite apply_line_setting by done. cbn [mbind option_bind].
    destruct (apply_setting (fst kv) (snd kv) c) as [c1|]; [apply IH|].
    intros H. exfalso. clear -H. induction kvs; cbn in *; [done|auto].
Qed.

(** ** Claims *)

(** a settings file of plain [key=value] lines loads as the settings applied
    in file order to the defaults (later lines win, over-long values are
    ignored), provided the four required members end up set. *)
Theorem service_config_load_settings (kvs : list (bytes * bytes)) (c : service_config)
    (path : bytes) (w : world) :
  Forall plain_setting kvs -> apply_settings kvs defaults = Some c -> required c = true ->
  w_fs w !! path = Some (concat (map setting_line kvs)) ->
  service_config_load path w = (inr c, w).
Proof.
  intros Hk Ha Hr Hp. unfold service_config_load. rewrite st_bind_run. unfold file_read, gets.
  cbn [fst snd]. rewrite Hp, fgets_all_settings by done.
  rewrite (apply_lines_settings kvs 0 defaults c) by done. by rewrite Hr.
Qed.

Definition sample_settings : list (bytes * bytes) :=
  [(str "name", str "Aria"); (str "human_port", str "47100"); (str "ai_port", str "47101");
   (str "is_hub", str "true"); (str "contacts_file", str "/c"); (str "name", str "Argus")].

Example service_config_load_settings_witness :
  let c := set_cfg_name (str "Argus") (set_contacts_path (str "/c") (set_is_hub true
             (set_ai_port 47101 (set_human_port 47100 defaults)))) in
  let w := World {[ str "s" := concat (map setting_line sample_settings) ]} 0 [] [] [] [] ∅ [] [] in
  service_config_load (str "s") w = (inr c, w).
Proof.
  apply (service_config_load_settings sample_settings).
  - by apply (bool_decide_unpack _); vm_compute.
  - vm_compute. reflexivity.
  - vm_compute. reflexivity.
  - vm_compute. reflexivity.
Defined.

(** whatever the file contains, a configuration that loads keeps every
    string within its member's buffer, ports within 16 bits and nonzero where
    required, and the required members set. *)
Theorem service_config_load_bounds (path : bytes) (w : world) (c : service_config) :
  (service_config_load path w).1 = inr c ->
  config_bounds c /\ 1 <= human_port c /\ 1 <= ai_port c /\ cfg_name c <> [] /\ contacts_path c <> [].
Proof.
  unfold service_config_load. rewrite st_bind_run. unfold file_read, gets. cbn [fst snd].
  destruct (w_fs w !! path) as [content|]; [|done]. unfold mret, st_ret. cbn [fst].
  destruct (apply_lines 0 (fgets_all 1024 content) defaults) as [|c0] eqn:E; [done|].
  destruct (required c0) eqn:Hr; [|done]. intros [= <-].
  apply apply_lines_bounds in E; [|apply defaults_bounds]. split; [done|].
  destruct E as (_ & _ & _ & _ & _ & [? _] & [? _] & _). unfold required in Hr. to_prop.
  split_and!; try lia; intros En; by rewrite En in *.
Qed.

Example service_config_load_bounds_witness :
  let w := World {[ str "s" := concat (map setting_line sample_settings) ]} 0 [] [] [] [] ∅ [] [] in
  exists c, (service_config_load (str "s") w).1 = inr c /\ 1 <= human_port c.
Proof.
  eexists. split; [vm_compute; reflexivity|].
  refine (proj1 (proj2 (service_config_load_bounds (str "s")
    (World {[ str "s" := concat (map setting_line sample_settings) ]} 0 [] [] [] [] ∅ [] []) _ _))).
  vm_compute. reflexivity.
Defined.

End Config.
