(* ===== verification/Arbitration.v ===== *)
(** * council/src/arbitration.c: whose turn it is

    The round-robin arbiter: its state, the four operations, the cyclic order
    in which [arbitration_next] looks at the contacts and the fairness this
    order gives. *)
From S2P Require Import Prelude CLib ContactBook.

Open Scope Z_scope.

Module Arb.

Record arbitration_state := Arbitration { next_index : nat; current_speaker : bytes }.

#[global] Instance arbitration_state_eq_dec : EqDecision arbitration_state.
Proof. solve_decision. Defined.

Definition arbitration_init : arbitration_state := Arbitration 0 [].

Definition arbitration_grant (n : bytes) (s : arbitration_state) : arbitration_state :=
  Arbitration (next_index s) (snprintf COUNCIL_NAME_LENGTH n).

(** [!s->current_speaker[0] || !strcmp(s->current_speaker, n)]. *)
Definition arbitration_can_speak (s : arbitration_state) (n : bytes) : bool :=
  match current_speaker s with [] => true | c => bytes_eqb c n end.

(** [online[i] && strcmp(c->name, previous)] for the contact at index [i]. *)
Definition eligible (b : contact_book) (previous : bytes) (online : list bool) (i : nat) : bool :=
  match b !! i with
  | Some c => nth i online false && negb (bytes_eqb (name c) previous)
  | None => false
  end.

(** The [for] loop: [todo] iterations are left, [checked] are done. *)
Fixpoint next_loop (todo checked start : nat) (b : contact_book) (previous : bytes)
    (online : list bool) : option nat :=
  match todo with
  | O => None
  | S todo' =>
      let i := ((start + checked) mod length b)%nat in
      if eligible b previous online i then Some i
      else next_loop todo' (S checked) start b previous online
  end.

(** The chosen contact is returned by its index in the book. *)
Definition arbitration_next (b : contact_book) (previous : bytes) (online : list bool)
    : st arbitration_state (option nat) := fun s =>
  match next_loop (length b) 0 (next_index s) b previous online with
  | Some i => (Some i, arbitration_grant (default [] (name <$> b !! i))
                         (Arbitration ((i + 1) mod length b) (current_speaker s)))
  | None => (None, Arbitration (next_index s) [])
  end.

(** ** The order of the search *)

Section search.
Context (b : contact_book) (previous : bytes) (online : list bool).

Lemma next_loop_Some todo checked start i :
  next_loop todo checked start b previous online = Some i ->
  exists k, (checked <= k < checked + todo)%nat /\ i = ((start + k) mod length b)%nat
            /\ eligible b previous online i = true
            /\ forall j, (checked <= j < k)%nat ->
                         eligible b previous online ((start + j) mod length b)%nat = false.
Proof.
  revert checked; induction todo as [|t IH]; intros checked; [done|]. cbn [next_loop].
  destruct (eligible b previous online ((start + checked) mod length b)) eqn:E.
  - intros [= <-]. exists checked. split_and!; [lia|lia|done|done|]. intros; lia.
  - intros H. apply IH in H as (k & Hk & -> & Hel & Hbefore).
    exists k. split_and!; [lia|lia|done|done|]. intros j Hj.
    destruct (decide (j = checked)) as [->|]; [done|]. apply Hbefore. lia.
Qed.

Lemma next_loop_None todo checked start :
  next_loop todo checked start b previous online = None <->
  forall j, (checked <= j < checked + todo)%nat ->
            eligible b previous online ((start + j) mod length b)%nat = false.
Proof.
  revert checked; induction todo as [|t IH]; intros checked; cbn [next_loop].
  { split; [intros; lia|done]. }
  destruct (eligible b previous online ((start + checked) mod length b)) eqn:E.
  - split; [done|]. intros H. rewrite H in E; [done|lia].
  - rewrite IH. split; intros H j Hj.
    + destruct (decide (j = checked)) as [->|]; [done|]. apply H. lia.
    + apply H. lia.
Qed.

(** Every index of the book is visited once per turn of the wheel. *)
Lemma cyclic_position start i n :
  (i < n)%nat -> exists k, (k < n)%nat /\ ((start + k) mod n = i)%nat.
Proof.
  intros Hi. exists ((i + (n - start mod n)) mod n)%nat.
  split; [apply Nat.mod_upper_bound; lia|].
  rewrite Nat.Div0.add_mod_idemp_r, <- Nat.Div0.add_mod_idemp_l.
  pose proof (Nat.mod_upper_bound start n ltac:(lia)).
  replace (start mod n + (i + (n - start mod n)))%nat with (i + 1 * n)%nat by lia.
  rewrite Nat.Div0.mod_add. by apply Nat.mod_small.
Qed.

Lemma eligible_bound i : eligible b previous online i = true -> (i < length b)%nat.
Proof.
  unfold eligible. destruct (b !! i) eqn:E; [|done]. intros _. by eapply lookup_lt_Some.
Qed.

Lemma eligible_true i :
  eligible b previous online i = true ->
  exists c, b !! i = Some c /\ nth i online false = true /\ name c <> previous.
Proof.
  unfold eligible. destruct (b !! i) as [c|]; [|done]. intros. to_prop. eauto.
Qed.

End search.

(** [arbitration_next] picks the first contact, in cyclic order from
    [next_index], that is online and is not the previous speaker, grants it the
    floor and moves the index behind it; it returns NULL, and clears the
    speaker, exactly when no contact of the book qualifies. *)
Theorem arbitration_next_correct b previous online s :
  match arbitration_next b previous online s with
  | (Some i, s') =>
      exists k c, (k < length b)%nat /\ i = ((next_index s + k) mod length b)%nat
        /\ b !! i = Some c /\ nth i online false = true /\ name c <> previous
        /\ (forall j, (j < k)%nat ->
              eligible b previous online ((next_index s + j) mod length b)%nat = false)
        /\ s' = Arbitration ((i + 1) mod length b) (snprintf COUNCIL_NAME_LENGTH (name c))
  | (None, s') =>
      (forall i, eligible b previous online i = false) /\ s' = Arbitration (next_index s) []
  end.
Proof.
  unfold arbitration_next. destruct (next_loop _ _ _ _ _ _) as [i|] eqn:E.
  - apply next_loop_Some in E as (k & Hk & Hi & Hel & Hbefore).
    destruct (eligible_true _ _ _ _ Hel) as (c & Hc & Hon & Hne).
    exists k, c. rewrite Hc. split_and!; try done; try lia. intros j Hj. apply Hbefore. lia.
  - split; [|done]. intros i. destruct (eligible b previous online i) eqn:Ei; [|done].
    destruct (cyclic_position (next_index s) i (length b) (eligible_bound _ _ _ _ Ei))
      as (k & Hk & <-). rewrite (proj1 (next_loop_None _ _ _ _ _ _) E) in Ei; [done|lia].
Qed.

(** ** Fairness *)

(** A sequence of calls, each with the previous speaker and the presence it is
    given; the indices chosen. *)
Fixpoint turns (b : contact_book) (calls : list (bytes * list bool)) (s : arbitration_state)
    : list (option nat) :=
  match calls with
  | [] => []
  | (previous, online) :: calls' =>
      let '(i, s') := arbitration_next b previous online s in i :: turns b calls' s'
  end.

Lemma arbitration_next_approach b previous online s i d :
  eligible b previous online i = true -> ((next_index s + d) mod length b = i)%nat ->
  (d < length b)%nat ->
  exists j s', arbitration_next b previous online s = (Some j, s') /\
    (j = i \/ exists d', (d' < d)%nat /\ ((next_index s' + d') mod length b = i)%nat).
Proof.
  intros Hel Hd Hlt. unfold arbitration_next.
  destruct (next_loop _ _ _ _ _ _) as [j|] eqn:E.
  - do 2 eexists. split; [done|]. cbn [arbitration_grant next_index].
    apply next_loop_Some in E as (k & Hk & -> & _ & Hbefore).
    destruct (Nat.lt_trichotomy k d) as [Hkd|[->|Hkd]].
    + right. exists (d - k - 1)%nat. split; [lia|]. rewrite <- Hd.
      rewrite Nat.Div0.add_mod_idemp_l, <- Nat.add_assoc, Nat.Div0.add_mod_idemp_l.
      f_equal. lia.
    + by left.
    + rewrite <- Hd, Hbefore in Hel; [done|lia].
  - rewrite <- Hd in Hel. rewrite (proj1 (next_loop_None _ _ _ _ _ _) E) in Hel; [done|lia].
Qed.

Lemma turns_reach b calls s i d :
  Forall (fun call => eligible b call.1 call.2 i = true) calls ->
  ((next_index s + d) mod length b = i)%nat -> (d < length calls)%nat -> (d < length b)%nat ->
  Some i ∈ turns b calls s.
Proof.
  revert s d; induction calls as [|[previous online] calls IH]; intros s d Hel Hd Hn Hb.
  { cbn in Hn. lia. }
  apply Forall_cons in Hel as [Hel0 Hel].
  destruct (arbitration_next_approach b previous online s i d Hel0 Hd Hb)
    as (j & s' & E & Hcase). cbn [turns]. rewrite E. destruct Hcase as [->|(d' & Hd' & Hi)].
  - by left.
  - right. apply (IH s' d'); [done|done|cbn in Hn; lia|lia].
Qed.

(** no contact is starved: one that stays online and is not the previous
    speaker in as many consecutive calls as there are contacts is granted a
    turn in one of them, whatever the others do. *)
Theorem arbitration_fair b calls s i :
  (length b <= length calls)%nat ->
  (i < length b)%nat ->
  Forall (fun call => eligible b call.1 call.2 i = true) calls ->
  Some i ∈ turns b calls s.
Proof.
  intros Hn Hi Hel. destruct (cyclic_position (next_index s) i (length b) Hi) as (d & Hd & E).
  apply (turns_reach b calls s i d); done || lia.
Qed.

Definition sample_contacts : contact_book :=
  [Contact (str "Aria") CONTACT_HUMAN [] 1 [] 0 0; Contact (str "Iris") CONTACT_AI [] 2 [] 0 0;
   Contact (str "Neo") CONTACT_AI [] 3 [] 0 0].

Lemma arbitration_fair_witness :
  Some 1%nat ∈ turns sample_contacts
    [(str "Aria", [true; true; true]); (str "Neo", [true; true; true]); (str "Aria", [false; true; true])]
    (Arbitration 2 []).
Proof.
  apply (arbitration_fair sample_contacts _ (Arbitration 2 []) 1).
  - cbn. lia.
  - cbn. lia.
  - by apply (bool_decide_unpack _); vm_compute.
Defined.

End Arb.
