(* ===== verification/Transcript.v ===== *)
(** * council/src/transcript.c: the append-only conversation log

    Records are [stamp TAB speaker TAB event TAB message NL].  The operations
    work on the file system and on the client's socket, the pair [io]. *)
From S2P Require Import Prelude CLib World Network.

Open Scope Z_scope.

(** What a connection handler can touch besides the service state. *)
Abbreviation io := (world * socket)%type.

Module Log.

(** ** Time stamps *)

(** [gmtime_r]: days since 1970 to year, month, day of the proleptic Gregorian
    calendar, counting years from March. *)
Definition civil (days : Z) : Z * Z * Z :=
  let z := days + 719468 in
  let era := z / 146097 in
  let doe := z mod 146097 in
  let yoe := (doe - doe / 1460 + doe / 36524 - doe / 146096) / 365 in
  let doy := doe - (365 * yoe + yoe / 4 - yoe / 100) in
  let mp := (5 * doy + 2) / 153 in
  let d := doy - (153 * mp + 2) / 5 + 1 in
  let m := if mp <? 10 then mp + 3 else mp - 9 in
  (yoe + era * 400 + (if m <=? 2 then 1 else 0), m, d).

(** [%02d] of a number below 100. *)
Definition pad2 (v : Z) : bytes := [48 + v / 10 mod 10; 48 + v mod 10].

(** [strftime("%Y-%m-%dT%H:%M:%SZ")]; the 32-byte buffer holds it for every
    year of at most 16 digits. *)
Definition stamp (now : Z) : bytes :=
  let '(y, m, d) := civil (now / 86400) in
  let s := now mod 86400 in
  print_int y ++ str "-" ++ pad2 m ++ str "-" ++ pad2 d ++ str "T"
    ++ pad2 (s / 3600) ++ str ":" ++ pad2 (s / 60 mod 60) ++ str ":" ++ pad2 (s mod 60) ++ str "Z".

(** ** Appending *)

Definition record_text (stamp speaker event message : bytes) : bytes :=
  stamp ++ TAB :: speaker ++ TAB :: event ++ TAB :: message.

Definition transcript_append (path speaker event message : bytes) : st world bool :=
  now ← time;
  match path with
  | [] => mret true
  | _ => file_append path (record_text (stamp now) speaker event message ++ [NL])
  end.

(** ** Streaming *)

Definition LINE_SIZE : nat := Z.to_nat 8192.
Definition OUT_SIZE : nat := Z.to_nat 8224.

(** One line of the log, as the loop bodies send it. *)
Definition send_record (prefix line : bytes) : st socket bool :=
  network_send (snprintf OUT_SIZE (prefix ++ cut_at is_crlf (cstr line) ++ [NL])).

(** [while(fgets(line,sizeof(line),f)){...if(network_send(socket,out))return -1;}] *)
Definition stream_lines (prefix content : bytes) : st socket bool :=
  for_all_ok (send_record prefix) (fgets_all LINE_SIZE content).

(** [None] is the return value [-1], [Some n] is [0] with [*next_offset = n].
    [fseek] within the file cannot fail. *)
Definition transcript_stream_since (path : bytes) (offset : Z) : st io (option Z) :=
  f ← on_fst (file_read path);
  match f with
  | None => mret (Some 0)
  | Some content =>
      let offset := Z.max 0 offset in
      let endp := Z.of_nat (length content) in
      let offset := if endp <? offset then 0 else offset in
      ok ← on_snd (stream_lines (str "EVENT ") (drop (Z.to_nat offset) content));
      mret (if ok : bool then Some endp else None)
  end.

Definition GRANT : bytes := TAB :: str "grant" ++ [TAB].
Definition OFFLINE_GRANT : bytes := TAB :: str "offline-grant" ++ [TAB].
Definition CONVERSATION_END : bytes := TAB :: str "conversation-end" ++ [TAB].
Definition ARROW : bytes := str " -> ".

(** [strstr(s,n)] advanced past the match. *)
Definition after (s n : bytes) : option bytes := drop (length n) <$> strstr s n.

(** [arrow=strstr(value," -> "); value=arrow?arrow+4:value]. *)
Definition past_arrow (value : bytes) : bytes := default value (after value ARROW).

(** The [p]/[q]/[value] computation that [is_grant_for] and
    [transcript_last_speaker] share. *)
Definition grant_value (line : bytes) : option bytes :=
  let q := after line OFFLINE_GRANT in
  let value := match after line GRANT with Some v => Some v | None => q end in
  match value, q with
  | Some v, Some _ => Some (past_arrow v)
  | v, _ => v
  end.

Definition is_grant_for (line participant : bytes) : bool :=
  match grant_value (cstr line) with
  | None => false
  | Some value =>
      starts_with participant value &&
      (let c := peek (drop (length participant) value) in (c =? NL) || (c =? CR) || (c =? 0))
  end.

(** The first loop of [transcript_stream_context]: [ftell] is the number of
    bytes consumed, and [previous]/[current] the last two grants seen. *)
Fixpoint find_grants (participant : bytes) (lines : list bytes) (position previous current : nat)
    : nat * nat :=
  match lines with
  | [] => (previous, current)
  | line :: lines' =>
      let '(previous, current) :=
        if is_grant_for line participant then (current, position) else (previous, current) in
      find_grants participant lines' (position + length line) previous current
  end.

Definition transcript_stream_context (path participant : bytes) : st io bool :=
  f ← on_fst (file_read path);
  match f with
  | None => mret true
  | Some content =>
      let start := (find_grants participant (fgets_all LINE_SIZE content) 0 0 0).1 in
      on_snd (stream_lines (str "CONTEXT ") (drop start content))
  end.

(** The body of the loop of [transcript_last_speaker]. *)
Definition last_speaker_line (size : nat) (speaker line : bytes) : bytes :=
  let line := cstr line in
  if contains line CONVERSATION_END then []
  else match grant_value line with
       | None => speaker
       | Some value => snprintf size (past_arrow (cut_at is_crlf value))
       end.

(** The speaker buffer; the function returns 0 in every case. *)
Definition transcript_last_speaker (path : bytes) (speaker_size : nat) : st world bytes :=
  f ← file_read path;
  mret (match f with
        | None => []
        | Some content => foldl (last_speaker_line speaker_size) [] (fgets_all LINE_SIZE content)
        end).

(** ** Streaming sends each record once *)

(** The text of a log holding the given lines. *)
Definition unlines (ls : list bytes) : bytes := concat (map (fun l => l ++ [NL]) ls).

(** A line that fits the buffer of the readers. *)
Definition log_line (l : bytes) : Prop := Forall line_byte l /\ (length l + 1 < LINE_SIZE)%nat.

#[global] Instance log_line_dec l : Decision (log_line l).
Proof. unfold log_line. apply _. Defined.

(** What a client receives for the given lines. *)
Definition replies (prefix : bytes) (ls : list bytes) : bytes :=
  concat (map (fun l => prefix ++ l ++ [NL]) ls).

Lemma unlines_app l1 l2 : unlines (l1 ++ l2) = unlines l1 ++ unlines l2.
Proof. unfold unlines. by rewrite map_app, concat_app. Qed.

Lemma replies_app p l1 l2 : replies p (l1 ++ l2) = replies p l1 ++ replies p l2.
Proof. unfold replies. by rewrite map_app, concat_app. Qed.

Lemma LINE_SIZE_val : LINE_SIZE = Z.to_nat 8192. Proof. done. Qed.
Lemma OUT_SIZE_val : OUT_SIZE = Z.to_nat 8224. Proof. done. Qed.

#[local] Opaque LINE_SIZE OUT_SIZE.

Lemma line_byte_facts l : Forall line_byte l ->
  (NL ∉ l) /\ Forall (fun c => is_crlf c = false) l /\ Forall (fun c => 0 < c) l.
Proof.
  intros H. split_and!.
  - intros Hin. by apply (proj1 (Forall_forall _ _) H) in Hin as (_ & ? & _).
  - eapply Forall_impl; [exact H|]. intros c (_ & Hn & Hr). unfold is_crlf.
    destruct (Z.eqb_spec c CR), (Z.eqb_spec c NL); done.
  - eapply Forall_impl; [exact H|]. by intros c (? & _).
Qed.

Lemma fgets_all_unlines ls :
  Forall log_line ls -> fgets_all LINE_SIZE (unlines ls) = map (fun l => l ++ [NL]) ls.
Proof.
  induction 1 as [|l ls [Hl Hlen] _ IH]; [done|].
  change (unlines (l :: ls)) with ((l ++ [NL]) ++ unlines ls). rewrite <- app_assoc. cbn [app].
  rewrite fgets_all_line; [by rewrite IH| | |done].
  - rewrite LINE_SIZE_val. lia.
  - by apply line_byte_facts.
Qed.

Lemma cstr_line l : Forall line_byte l -> cstr (l ++ [NL]) = l ++ [NL].
Proof.
  intros H. apply cstr_id, Forall_app. split; [by apply line_byte_facts|]. by repeat constructor.
Qed.

Lemma send_record_ok prefix l s :
  willing s -> log_line l -> (length prefix <= 16)%nat -> Forall (fun c => 0 < c) prefix ->
  exists zs, send_record prefix (l ++ [NL]) s
             = (true, Socket (s_in s) (s_out s ++ prefix ++ l ++ [NL]) zs)
             /\ Forall (fun z => 0 < z) zs.
Proof.
  intros Hw [Hl Hlen] Hp Hp0. unfold send_record, network_send.
  destruct (line_byte_facts l Hl) as (_ & Hcr & H0).
  rewrite cstr_line by done. rewrite cut_at_stop by done.
  unfold snprintf. rewrite take_ge.
  - rewrite cstr_id; [by apply network_send_bytes_ok|].
    rewrite !Forall_app. split_and!; [done|done|]. by repeat constructor.
  - rewrite !length_app. cbn [length]. rewrite LINE_SIZE_val in Hlen. rewrite OUT_SIZE_val. lia.
Qed.

Lemma stream_lines_ok prefix ls s :
  willing s -> Forall log_line ls -> (length prefix <= 16)%nat -> Forall (fun c => 0 < c) prefix ->
  exists zs, stream_lines prefix (unlines ls) s
             = (true, Socket (s_in s) (s_out s ++ replies prefix ls) zs)
             /\ Forall (fun z => 0 < z) zs.
Proof.
  intros Hw Hls Hp Hp0. unfold stream_lines. rewrite fgets_all_unlines by done.
  revert s Hw; induction Hls as [|l ls Hl _ IH]; intros s Hw; cbn [map for_all_ok].
  - exists (s_chunks s). split; [|done]. unfold replies. cbn. rewrite app_nil_r. by destruct s.
  - rewrite st_bind_run.
    destruct (send_record_ok prefix l s Hw Hl Hp Hp0) as (zs & -> & Hzs). cbn [fst snd].
    destruct (IH (Socket (s_in s) (s_out s ++ prefix ++ l ++ [NL]) zs) Hzs) as (zs' & -> & Hzs').
    exists zs'. split; [|done]. cbn [s_in s_out]. rewrite <- app_assoc. done.
Qed.

(** A poll from a line boundary sends the lines after it and moves the cursor
    to the end of the log. *)
Lemma stream_since_boundary path pre ls w s :
  w_fs w !! path = Some (pre ++ unlines ls) -> willing s -> Forall log_line ls ->
  exists zs, transcript_stream_since path (Z.of_nat (length pre)) (w, s)
             = (Some (Z.of_nat (length (pre ++ unlines ls))),
                (w, Socket (s_in s) (s_out s ++ replies (str "EVENT ") ls) zs))
             /\ Forall (fun z => 0 < z) zs.
Proof.
  intros Hf Hw Hls. unfold transcript_stream_since. rewrite st_bind_run, on_fst_run.
  cbn [fst snd file_read gets]. rewrite Hf.
  replace (Z.max 0 (Z.of_nat (length pre))) with (Z.of_nat (length pre)) by lia.
  destruct (Z.ltb_spec (Z.of_nat (length (pre ++ unlines ls))) (Z.of_nat (length pre))) as [H|_].
  { rewrite length_app in H. lia. }
  rewrite Nat2Z.id, drop_app_length, st_bind_run, on_snd_run. cbn [fst snd].
  destruct (stream_lines_ok (str "EVENT ") ls s Hw Hls) as (zs & -> & Hzs);
    [cbn; lia|by apply (bool_decide_unpack _); vm_compute|].
  exists zs. by split.
Qed.

(** ** Stamps are printable and short *)

(** The clock stays within a range whose years fit the stamp. *)
Definition clock_ok (w : world) : Prop :=
  monotone w /\ 0 <= w_now w /\ w_now w + foldr Z.add 0 (w_ticks w) < 2 ^ 62.

#[global] Instance clock_ok_dec w : Decision (clock_ok w).
Proof. unfold clock_ok. apply _. Defined.

Lemma ticks_nonneg ts : Forall (fun t => 0 <= t) ts -> 0 <= foldr Z.add 0 ts.
Proof. induction 1; cbn; lia. Qed.

Lemma time_clock w : clock_ok w ->
  clock_ok (time w).2 /\ 0 <= (time w).1 < 2 ^ 62 /\ w_fs (time w).2 = w_fs w
  /\ w_faults (time w).2 = w_faults w.
Proof.
  unfold clock_ok, monotone, time. intros (Hm & Hn & Hs). destruct (w_ticks w) as [|t ts] eqn:E.
  - cbn in *. rewrite E. cbn. split_and!; done || lia.
  - cbn in Hs. apply Forall_cons in Hm as [Ht Hts]. pose proof (ticks_nonneg ts Hts). cbn.
    split_and!; done || lia.
Qed.

Lemma civil_year t : 0 <= t < 2 ^ 62 -> 0 <= (civil (t / 86400)).1.1 < 2 ^ 62.
Proof.
  intros Ht. unfold civil. cbn [fst].
  assert (Hd : 0 <= t / 86400 < 2 ^ 46).
  { split; [apply Z.div_pos; lia|]. apply Z.div_lt_upper_bound; lia. }
  set (z := t / 86400 + 719468). assert (Hz : 0 <= z < 2 ^ 47) by (subst z; lia).
  pose proof (Z.mod_pos_bound z 146097 ltac:(lia)) as Hdoe. set (doe := z mod 146097) in *.
  assert (He : 0 <= z / 146097 < 2 ^ 47).
  { split; [apply Z.div_pos; lia|]. apply Z.div_lt_upper_bound; lia. }
  assert (Hy : 0 <= (doe - doe / 1460 + doe / 36524 - doe / 146096) / 365 < 2 ^ 20).
  { assert (0 <= doe / 146096 <= doe / 36524).
    { split; [apply Z.div_pos; lia|]. apply Z.div_le_compat_l; lia. }
    assert (doe / 1460 <= doe) by (apply Z.div_le_upper_bound; lia).
    assert (0 <= doe / 1460) by (apply Z.div_pos; lia).
    assert (doe / 36524 <= doe) by (apply Z.div_le_upper_bound; lia).
    split; [apply Z.div_pos; lia|]. apply Z.div_lt_upper_bound; lia. }
  destruct (_ <=? 2); lia.
Qed.

(** A byte of a field of a record. *)
Definition field_byte (c : byte) : Prop := line_byte c /\ c <> TAB.

#[global] Instance field_byte_dec c : Decision (field_byte c).
Proof. unfold field_byte. apply _. Defined.

Lemma isdigit_field_byte c : isdigit c = true -> field_byte c.
Proof. intros H. apply isdigit_facts in H as (? & _). unfold field_byte, line_byte, NL, CR, TAB. lia. Qed.

Lemma field_line l : Forall field_byte l -> Forall line_byte l.
Proof. intros H. eapply Forall_impl; [exact H|]. by intros ? [? _]. Qed.

Lemma field_no_tab l : Forall field_byte l -> TAB ∉ l.
Proof. intros H Hin. by apply (proj1 (Forall_forall _ _) H) in Hin as [_ ?]. Qed.

Lemma pad2_field v : Forall field_byte (pad2 v).
Proof.
  unfold pad2. pose proof (Z.mod_pos_bound (v / 10) 10 ltac:(lia)).
  pose proof (Z.mod_pos_bound v 10 ltac:(lia)).
  repeat constructor; unfold NL, CR, TAB; lia.
Qed.

Lemma stamp_field t : 0 <= t < 2 ^ 62 -> Forall field_byte (stamp t) /\ (length (stamp t) <= 90)%nat.
Proof.
  intros Ht. pose proof (civil_year t Ht) as Hy. unfold stamp.
  destruct (civil (t / 86400)) as [[y m] d]. cbn [fst] in Hy. unfold print_int.
  destruct (Z.ltb_spec y 0); [lia|]. split.
  - rewrite !Forall_app. split_and!; try apply pad2_field;
      try (by apply (bool_decide_unpack _); vm_compute).
    eapply Forall_impl; [apply print_nat_isdigit|]. apply isdigit_field_byte.
  - pose proof (print_nat_length y 62 Hy). rewrite !length_app. cbn. lia.
Qed.

(** ** Appending and polling *)

(** Speaker, event and message of a record. *)
Abbreviation entry := (bytes * bytes * bytes)%type.

Definition entry_ok (e : entry) : Prop :=
  let '(speaker, event, message) := e in
  Forall line_byte speaker /\ Forall line_byte event /\ Forall line_byte message
  /\ Z.of_nat (length speaker + length event + length message) < 8000.

#[global] Instance entry_ok_dec e : Decision (entry_ok e).
Proof. destruct e as [[] ]. unfold entry_ok. apply _. Defined.

Definition entry_line (t : Z) (e : entry) : bytes :=
  let '(speaker, event, message) := e in record_text (stamp t) speaker event message.

Definition append_entry (path : bytes) (e : entry) : st world unit :=
  let '(speaker, event, message) := e in transcript_append path speaker event message ;; mret tt.

Lemma entry_line_ok t e : 0 <= t < 2 ^ 62 -> entry_ok e -> log_line (entry_line t e).
Proof.
  intros Ht. destruct e as [[sp ev] msg]. intros (Hs & He & Hm & Hl).
  destruct (stamp_field t Ht) as [Hst%field_line Hlen]. unfold log_line, entry_line, record_text. split.
  - rewrite !Forall_app, !Forall_cons, !Forall_app, !Forall_cons, !Forall_app, !Forall_cons.
    split_and!; done.
  - rewrite !length_app; cbn [length]. rewrite !length_app; cbn [length].
    rewrite !length_app; cbn [length]. rewrite LINE_SIZE_val. lia.
Qed.

Lemma append_entry_ok path e w :
  path <> [] -> clock_ok w -> w_faults w = [] -> entry_ok e ->
  exists t w', append_entry path e w = (tt, w') /\ clock_ok w' /\ w_faults w' = []
    /\ log_line (entry_line t e)
    /\ w_fs w' = <[path := default [] (w_fs w !! path) ++ entry_line t e ++ [NL]]> (w_fs w).
Proof.
  intros Hp Hc Hf He. destruct (time_clock w Hc) as (Hc' & Ht & Hfs & Hff).
  exists (time w).1. destruct e as [[sp ev] msg]. unfold append_entry, transcript_append.
  rewrite !st_bind_run. destruct path as [|x path]; [done|].
  rewrite file_append_ok by (by rewrite Hff). cbn [fst snd].
  eexists. split; [reflexivity|]. cbn [store w_fs w_faults]. rewrite Hfs.
  split_and!; [done|by rewrite Hff| |done].
  by apply (entry_line_ok _ (sp, ev, msg)).
Qed.

(** Entries appended between polls; every poll starts at the cursor the
    previous one returned. *)
Fixpoint poll_rounds (path : bytes) (rounds : list (list entry)) (cursor : Z) : st io (option Z) :=
  match rounds with
  | [] => mret (Some cursor)
  | es :: rounds' =>
      on_fst (for_each (append_entry path) es) ;;
      c ← transcript_stream_since path cursor;
      match c with
      | Some c => poll_rounds path rounds' c
      | None => mret None
      end
  end.

Lemma append_entries_ok path es w content :
  path <> [] -> clock_ok w -> w_faults w = [] -> Forall entry_ok es ->
  default [] (w_fs w !! path) = content ->
  exists ts w', for_each (append_entry path) es w = (tt, w') /\ clock_ok w' /\ w_faults w' = []
    /\ length ts = length es /\ Forall log_line (zip_with entry_line ts es)
    /\ default [] (w_fs w' !! path) = content ++ unlines (zip_with entry_line ts es)
    /\ (es <> [] \/ is_Some (w_fs w !! path) -> is_Some (w_fs w' !! path)).
Proof.
  intros Hp. revert w content; induction es as [|e es IH]; intros w content Hc Hf He Hcont.
  - exists [], w. cbn. unfold unlines. cbn. rewrite app_nil_r. split_and!; try done. naive_solver.
  - apply Forall_cons in He as [He Hes].
    destruct (append_entry_ok path e w Hp Hc Hf He) as (t & w1 & E & Hc1 & Hf1 & Hl & Hfs).
    destruct (IH w1 (content ++ entry_line t e ++ [NL]) Hc1 Hf1 Hes)
      as (ts & w' & E' & Hc' & Hf' & Hlen & Hls & Hcont' & Hex).
    { rewrite Hfs, lookup_insert_eq, Hcont. done. }
    exists (t :: ts), w'. cbn [for_each]. rewrite st_bind_run, E. cbn [fst snd zip_with].
    split_and!; try done; [cbn; lia|by constructor| |].
    + rewrite Hcont'. change (unlines (?a :: ?l)) with ((a ++ [NL]) ++ unlines l).
      by rewrite <- !app_assoc.
    + intros _. apply Hex. right. rewrite Hfs, lookup_insert_eq. eauto.
Qed.

Lemma poll_rounds_ok path rounds w s pre :
  path <> [] -> clock_ok w -> w_faults w = [] -> Forall (Forall entry_ok) rounds ->
  willing s -> w_fs w !! path = Some pre ->
  exists ts w' zs c,
    poll_rounds path rounds (Z.of_nat (length pre)) (w, s)
    = (Some c, (w', Socket (s_in s)
                 (s_out s ++ replies (str "EVENT ") (zip_with entry_line ts (concat rounds))) zs))
    /\ length ts = length (concat rounds)
    /\ w_fs w' !! path = Some (pre ++ unlines (zip_with entry_line ts (concat rounds))).
Proof.
  intros Hp. revert w s pre; induction rounds as [|es rounds IH]; intros w s pre Hc Hf Hr Hw Hpre.
  - exists [], w, (s_chunks s), (Z.of_nat (length pre)). cbn. unfold unlines, replies. cbn.
    rewrite !app_nil_r. split_and!; try done. by destruct s.
  - apply Forall_cons in Hr as [Hes Hr]. cbn [poll_rounds concat].
    destruct (append_entries_ok path es w pre Hp Hc Hf Hes) as
      (ts & w1 & E & Hc1 & Hf1 & Hlen & Hls & Hcont & Hex); [by rewrite Hpre|].
    assert (Hfile : w_fs w1 !! path = Some (pre ++ unlines (zip_with entry_line ts es))).
    { destruct Hex as [c Hex]; [rewrite Hpre; eauto|]. rewrite Hex in *. cbn in Hcont.
      by rewrite Hcont. }
    rewrite st_bind_run, on_fst_run. cbn [fst snd]. rewrite E. cbn [fst snd].
    rewrite st_bind_run.
    destruct (stream_since_boundary path pre _ w1 s Hfile Hw Hls) as (zs & -> & Hzs).
    cbn [fst snd].
    destruct (IH w1 (Socket (s_in s) (s_out s ++ replies (str "EVENT ") (zip_with entry_line ts es)) zs)
                _ Hc1 Hf1 Hr Hzs Hfile) as (ts' & w' & zs' & c & -> & Hlen' & Hfile').
    exists (ts ++ ts'), w', zs', c. rewrite zip_with_app by done.
    rewrite replies_app, unlines_app, !length_app, Hfile'. cbn [s_in s_out].
    rewrite <- !app_assoc. split_and!; done || lia.
Qed.

(** a client that polls [EVENTS] with the cursor of its previous poll
    receives every record appended in between exactly once and in order, and
    the log itself is exactly those records after its old content. *)
Theorem transcript_poll_exactly_once path rounds w s pre :
  path <> [] -> clock_ok w -> w_faults w = [] -> Forall (Forall entry_ok) rounds ->
  willing s -> w_fs w !! path = Some pre ->
  exists ts w' zs c,
    poll_rounds path rounds (Z.of_nat (length pre)) (w, s)
    = (Some c, (w', Socket (s_in s)
                 (s_out s ++ replies (str "EVENT ") (zip_with entry_line ts (concat rounds))) zs))
    /\ length ts = length (concat rounds)
    /\ w_fs w' !! path = Some (pre ++ unlines (zip_with entry_line ts (concat rounds))).
Proof. apply poll_rounds_ok. Qed.

Lemma transcript_poll_exactly_once_witness :
  exists ts w' zs c,
    poll_rounds (str "log") [[(str "Aria", str "message", str "hi")]; [(str "hub", str "grant", str "Neo")]]
      0 (World {[str "log" := []]} 1700000000 [5; 0; 7] [] [] [] ∅ [] [], Socket [] [] [3; 1])
    = (Some c, (w', Socket [] (replies (str "EVENT ")
         (zip_with entry_line ts [(str "Aria", str "message", str "hi"); (str "hub", str "grant", str "Neo")])) zs))
    /\ length ts = 2%nat
    /\ w_fs w' !! str "log" = Some (unlines (zip_with entry_line ts
         [(str "Aria", str "message", str "hi"); (str "hub", str "grant", str "Neo")])).
Proof.
  apply (transcript_poll_exactly_once (str "log")
    [[(str "Aria", str "message", str "hi")]; [(str "hub", str "grant", str "Neo")]]
    (World {[str "log" := []]} 1700000000 [5; 0; 7] [] [] [] ∅ [] []) (Socket [] [] [3; 1]) []).
  - done.
  - by apply (bool_decide_unpack _); vm_compute.
  - done.
  - by apply (bool_decide_unpack _); vm_compute.
  - by apply (bool_decide_unpack _); vm_compute.
  - by vm_compute.
Defined.

(** ** Reading the log back *)

(** The records the readers of the log distinguish. *)
Inductive log_event :=
| Grant (to : bytes)
| OfflineGrant (from to : bytes)
| ConversationEnd (detail : bytes)
| Other (event message : bytes).

Definition event_field (e : log_event) : bytes :=
  match e with
  | Grant _ => str "grant"
  | OfflineGrant _ _ => str "offline-grant"
  | ConversationEnd _ => str "conversation-end"
  | Other event _ => event
  end.

Definition message_field (e : log_event) : bytes :=
  match e with
  | Grant to => to
  | OfflineGrant from to => from ++ ARROW ++ to
  | ConversationEnd detail => detail
  | Other _ message => message
  end.

Record log_record := LogRecord { r_time : Z; r_speaker : bytes; r_event : log_event }.

Definition record_line (r : log_record) : bytes :=
  entry_line (r_time r) (r_speaker r, event_field (r_event r), message_field (r_event r)).

Definition reserved : list bytes := [str "grant"; str "offline-grant"; str "conversation-end"].

(** A contact name as it appears in a record. *)
Definition log_name (n : bytes) : Prop :=
  Forall (fun c => field_byte c /\ c <> SP) n /\ (length n < 64)%nat.

#[global] Instance log_name_dec n : Decision (log_name n).
Proof. unfold log_name. apply _. Defined.

Definition event_ok (e : log_event) : Prop :=
  match e with
  | Grant to => log_name to
  | OfflineGrant from to => log_name from /\ log_name to
  | ConversationEnd _ => True
  | Other event _ => event ∉ reserved
  end.

Definition record_ok (r : log_record) : Prop :=
  0 <= r_time r < 2 ^ 62 /\ (r_speaker r ∉ reserved) /\ Forall field_byte (r_speaker r)
  /\ Forall field_byte (event_field (r_event r)) /\ Forall field_byte (message_field (r_event r))
  /\ Z.of_nat (length (r_speaker r) + length (event_field (r_event r))
               + length (message_field (r_event r))) < 8000
  /\ event_ok (r_event r).

#[global] Instance event_ok_dec e : Decision (event_ok e).
Proof. destruct e; unfold event_ok; apply _. Defined.

#[global] Instance record_ok_dec r : Decision (record_ok r).
Proof. unfold record_ok. apply _. Defined.

Lemma strstr_nowhere c x n : c ∉ x -> strstr x (c :: n) = None.
Proof. intros H. rewrite <- (app_nil_r x), strstr_skip by done. done. Qed.

Definition mark (e : bytes) : bytes := TAB :: e ++ [TAB].

Lemma starts_with_mark e f r :
  TAB ∉ e -> TAB ∉ f -> starts_with (mark e) (TAB :: f ++ TAB :: r) = bytes_eqb f e.
Proof.
  intros He Hf. destruct (bytes_eqb f e) eqn:E; to_prop.
  - subst. change (TAB :: e ++ TAB :: r) with ((TAB :: e) ++ [TAB] ++ r).
    rewrite app_assoc. apply starts_with_app.
  - destruct (starts_with _ _) eqn:S; [|done]. apply starts_with_spec in S as [q S].
    unfold mark in S. cbn in S. injection S as S. rewrite <- app_assoc in S. cbn in S. exfalso.
    apply E. clear E. revert e He S; induction f as [|c f IH]; intros [|d e] He S; cbn in S.
    + done.
    + injection S as <- _. exfalso. apply He. left.
    + injection S as -> _. exfalso. apply Hf. left.
    + injection S as <- S. f_equal. rewrite not_elem_of_cons in He, Hf. destruct He, Hf. by apply IH.
Qed.

Lemma strstr_field e f r :
  TAB ∉ e -> TAB ∉ f ->
  strstr (TAB :: f ++ TAB :: r) (mark e)
  = if bytes_eqb f e then Some (mark e ++ r) else strstr (TAB :: r) (mark e).
Proof.
  intros He Hf. destruct (bytes_eqb f e) eqn:E.
  - cbn [strstr]. rewrite starts_with_mark, E by done. to_prop. subst. unfold mark. cbn.
    by rewrite <- app_assoc.
  - etransitivity; [cbn [strstr]; rewrite starts_with_mark, E by done; reflexivity|].
    unfold mark. by rewrite strstr_skip.
Qed.

(** The value that follows the event marker [e] in a record. *)
Lemma after_record e st sp ev msg :
  TAB ∉ e -> TAB ∉ st -> TAB ∉ sp -> TAB ∉ ev -> TAB ∉ msg -> sp <> e ->
  after (record_text st sp ev msg ++ [NL]) (mark e)
  = if bytes_eqb ev e then Some (msg ++ [NL]) else None.
Proof.
  intros He Hst Hsp Hev Hmsg Hne. unfold after, record_text.
  repeat rewrite <- ?app_assoc, <- ?app_comm_cons.
  unfold mark at 2. rewrite strstr_skip by done. change (TAB :: e ++ [TAB]) with (mark e).
  rewrite strstr_field by done. rewrite (proj2 (bytes_eqb_false _ _)) by done.
  rewrite strstr_field by done. destruct (bytes_eqb ev e) eqn:E.
  - cbn [fmap option_fmap option_map]. by rewrite drop_app_length.
  - cbn [fmap]. assert (Hn : strstr (TAB :: msg ++ [NL]) (mark e) = None); [|by rewrite Hn].
    cbn [strstr]. destruct (starts_with (mark e) (TAB :: msg ++ [NL])) eqn:S.
    + exfalso. apply starts_with_spec in S as [q S]. unfold mark in S. cbn in S.
      injection S as S. assert (Hin : TAB ∈ msg ++ [NL]).
      { rewrite S, <- app_assoc. apply elem_of_app. right. left. }
      apply elem_of_app in Hin as [|Hin]; [done|]. apply list_elem_of_singleton in Hin. done.
    + unfold mark. apply strstr_nowhere. rewrite elem_of_app, list_elem_of_singleton. naive_solver.
Qed.

Lemma record_line_ok r : record_ok r -> log_line (record_line r).
Proof.
  intros (Ht & _ & Hs & He & Hm & Hl & _). apply entry_line_ok; [done|].
  split_and!; [by apply field_line..|done].
Qed.

Lemma after_record_line r e :
  record_ok r -> e ∈ reserved ->
  after (record_line r ++ [NL]) (mark e)
  = if bytes_eqb (event_field (r_event r)) e then Some (message_field (r_event r) ++ [NL]) else None.
Proof.
  intros (Ht & Hr & Hs & He & Hm & _ & _) Hin. apply after_record.
  - revert Hin. apply (proj1 (Forall_forall (fun e => TAB ∉ e) reserved)).
    by apply (bool_decide_unpack _); vm_compute.
  - by apply field_no_tab, stamp_field.
  - by apply field_no_tab.
  - by apply field_no_tab.
  - by apply field_no_tab.
  - by intros <-.
Qed.

Lemma contains_after s n : contains s n = bool_decide (is_Some (after s n)).
Proof.
  unfold contains, after. apply bool_decide_ext. by rewrite fmap_is_Some.
Qed.

Lemma log_name_field n : log_name n -> Forall field_byte n /\ SP ∉ n.
Proof.
  intros [H _]. split; [eapply Forall_impl; [exact H|]; by intros ? []|].
  intros Hin. by apply (proj1 (Forall_forall _ _) H) in Hin as [_ ?].
Qed.

Lemma past_arrow_none n : SP ∉ n -> past_arrow n = n.
Proof. intros H. unfold past_arrow, after. change (strstr n ARROW) with (strstr n (SP :: str "-> ")). by rewrite strstr_nowhere. Qed.

Lemma past_arrow_app a r : SP ∉ a -> past_arrow (a ++ ARROW ++ r) = r.
Proof.
  intros H. unfold past_arrow, after.
  assert (E : strstr (a ++ ARROW ++ r) ARROW = Some (ARROW ++ r)).
  { change (strstr (a ++ ARROW ++ r) (SP :: str "-> ") = Some (ARROW ++ r)).
    by rewrite strstr_skip. }
  by rewrite E.
Qed.

(** The target of a grant, as the readers compute it. *)
Definition grant_to (e : log_event) : option bytes :=
  match e with Grant to | OfflineGrant _ to => Some to | _ => None end.

Lemma grant_value_record r :
  record_ok r -> grant_value (record_line r ++ [NL]) = (fun to => to ++ [NL]) <$> grant_to (r_event r).
Proof.
  intros Hr. unfold grant_value. change OFFLINE_GRANT with (mark (str "offline-grant")).
  change GRANT with (mark (str "grant")).
  rewrite !after_record_line by (done || by apply (bool_decide_unpack _); vm_compute).
  destruct Hr as (_ & _ & _ & _ & _ & _ & Hok).
  destruct (r_event r) as [to|from to|d|ev msg]; cbn [event_field message_field grant_to].
  - done.
  - destruct Hok as [Hf _]. apply log_name_field in Hf as [_ Hf].
    rewrite (proj2 (bytes_eqb_false _ _)) by done. rewrite bytes_eqb_refl.
    by rewrite <- !app_assoc, past_arrow_app.
  - done.
  - cbn [event_ok] in Hok. unfold reserved in Hok. rewrite !not_elem_of_cons in Hok.
    destruct Hok as (Hg & Ho & _). by rewrite !(proj2 (bytes_eqb_false _ _)).
Qed.

(** What a record means for the floor. *)
Definition next_speaker (speaker : bytes) (e : log_event) : bytes :=
  match e with
  | ConversationEnd _ => []
  | e => default speaker (grant_to e)
  end.

Lemma cut_line n : Forall field_byte n -> cut_at is_crlf (n ++ [NL]) = n.
Proof. intros H%field_line. apply cut_at_stop; [by apply line_byte_facts|done]. Qed.

Lemma grant_to_name r to : record_ok r -> grant_to (r_event r) = Some to -> log_name to.
Proof.
  intros (_ & _ & _ & _ & _ & _ & Hok). destruct (r_event r); cbn in *; naive_solver.
Qed.

Lemma cstr_record r : record_ok r -> cstr (record_line r ++ [NL]) = record_line r ++ [NL].
Proof. intros H. apply cstr_line. by apply record_line_ok. Qed.

Lemma last_speaker_record r speaker :
  record_ok r ->
  last_speaker_line 64 speaker (record_line r ++ [NL]) = next_speaker speaker (r_event r).
Proof.
  intros Hr. unfold last_speaker_line. rewrite cstr_record by done.
  rewrite contains_after. change CONVERSATION_END with (mark (str "conversation-end")).
  rewrite after_record_line by (done || by apply (bool_decide_unpack _); vm_compute).
  rewrite grant_value_record by done. pose proof (grant_to_name r) as Hn.
  assert (Hend : forall ev msg, r_event r = Other ev msg -> ev <> str "conversation-end").
  { intros ev msg E ->. destruct Hr as (_ & _ & _ & _ & _ & _ & Hok). rewrite E in Hok.
    apply Hok. by apply (bool_decide_unpack _); vm_compute. }
  assert (Hto : forall to, grant_to (r_event r) = Some to ->
                snprintf 64 (past_arrow (cut_at is_crlf (to ++ [NL]))) = to).
  { intros to E. specialize (Hn to Hr E). pose proof Hn as [_ Hlen].
    apply log_name_field in Hn as [Hf Hsp]. rewrite cut_line, past_arrow_none by done.
    unfold snprintf. apply take_ge. lia. }
  destruct (r_event r) as [to|from to|d|ev msg]; cbn [event_field grant_to next_speaker fmap option_fmap option_map].
  - by apply Hto.
  - by apply Hto.
  - done.
  - by rewrite (proj2 (bytes_eqb_false _ _)) by (by eapply Hend).
Qed.

Lemma fgets_records rs :
  Forall record_ok rs ->
  fgets_all LINE_SIZE (unlines (map record_line rs)) = map (fun r => record_line r ++ [NL]) rs.
Proof.
  intros H. rewrite fgets_all_unlines, map_map; [done|]. apply Forall_fmap.
  eapply Forall_impl; [exact H|]. apply record_line_ok.
Qed.

Lemma last_speaker_records rs sp :
  Forall record_ok rs ->
  foldl (last_speaker_line 64) sp (map (fun r => record_line r ++ [NL]) rs)
  = foldl next_speaker sp (map r_event rs).
Proof.
  intros Hrs. revert sp. induction Hrs as [|r rs Hr _ IH]; intros sp; [done|].
  cbn [map foldl]. by rewrite last_speaker_record, IH.
Qed.

(** the speaker restored from the log at start-up is the target of the last
    grant (or offline grant) record, or nobody when none follows the last
    [conversation-end] record. *)
Theorem transcript_last_speaker_correct path rs w :
  w_fs w !! path = Some (unlines (map record_line rs)) ->
  Forall record_ok rs ->
  transcript_last_speaker path 64 w = (foldl next_speaker [] (map r_event rs), w).
Proof.
  intros Hf Hrs. unfold transcript_last_speaker. rewrite st_bind_run. cbn [fst snd file_read gets].
  rewrite Hf, fgets_records by done. unfold mret, st_ret. f_equal.
  by apply last_speaker_records.
Qed.

Definition sample_log : list log_record :=
  [LogRecord 1700000000 (str "hub") (Grant (str "Neo"));
   LogRecord 1700000005 (str "Neo") (Other (str "message") (str "hello -> all"));
   LogRecord 1700000007 (str "hub") (OfflineGrant (str "Neo") (str "Iris"));
   LogRecord 1700000009 (str "hub") (Grant (str "Neo"))].

Definition sample_log_world : world :=
  World {[str "log" := unlines (map record_line sample_log)]} 0 [] [] [] [] ∅ [] [].

Lemma transcript_last_speaker_correct_witness :
  transcript_last_speaker (str "log") 64 sample_log_world = (str "Neo", sample_log_world).
Proof.
  apply (transcript_last_speaker_correct (str "log") sample_log sample_log_world).
  - by vm_compute.
  - by apply (bool_decide_unpack _); vm_compute.
Defined.

(** ** The context of a participant *)

Definition grants (participant : bytes) (r : log_record) : bool :=
  bool_decide (grant_to (r_event r) = Some participant).

Definition count_grants (participant : bytes) (rs : list log_record) : nat :=
  length (filter (fun r => grants participant r = true) rs).

(** The shortest suffix of the log with two grants to the participant, the
    whole log when there are fewer. *)
Fixpoint context_suffix (participant : bytes) (rs : list log_record) : list log_record :=
  match rs with
  | [] => []
  | r :: rs' => if (2 <=? count_grants participant rs')%nat then context_suffix participant rs'
                else r :: rs'
  end.

Lemma is_grant_record participant r :
  record_ok r -> log_name participant ->
  is_grant_for (record_line r ++ [NL]) participant = grants participant r.
Proof.
  intros Hr Hp. unfold is_grant_for, grants. rewrite cstr_record, grant_value_record by done.
  destruct (grant_to (r_event r)) as [to|] eqn:E; cbn [fmap option_fmap option_map];
    [|by rewrite bool_decide_eq_false_2].
  pose proof (proj1 (log_name_field _ (grant_to_name r to Hr E))) as Ht.
  apply log_name_field in Hp as [Hp _]. apply eq_true_iff_eq. rewrite bool_decide_eq_true. split.
  - intros H. to_prop. apply starts_with_drop in H. set (q := drop _ _) in *.
    destruct (app_eq_inv _ _ _ _ H) as [(k & -> & Hq)|(k & -> & Hq)].
    + destruct k as [|c k]; [by rewrite app_nil_r|]. exfalso.
      rewrite Hq in H0. cbn in H0. apply Forall_app in Ht as [_ Ht].
      apply Forall_cons in Ht as [[(? & ? & ?) _] _].
      destruct (Z.eqb_spec c NL), (Z.eqb_spec c CR), (Z.eqb_spec c 0); cbn in H0; done || lia.
    + destruct k as [|c k]; [by rewrite app_nil_r|]. cbn in Hq. injection Hq as <- _.
      apply Forall_app in Hp as [_ Hp]. apply Forall_cons in Hp as [[(_ & ? & _) _] _]. done.
  - intros [= ->]. by rewrite starts_with_app, drop_app_length.
Qed.

Lemma count_grants_cons participant r rs :
  count_grants participant (r :: rs)
  = ((if grants participant r then 1 else 0) + count_grants participant rs)%nat.
Proof.
  unfold count_grants. rewrite filter_cons. by destruct (grants participant r).
Qed.

Lemma find_grants_spec participant rs position previous current :
  Forall record_ok rs -> log_name participant ->
  (find_grants participant (map (fun r => record_line r ++ [NL]) rs) position previous current).1
  = match count_grants participant rs with
    | O => previous
    | S O => current
    | _ => (position + (length (unlines (map record_line rs))
                        - length (unlines (map record_line (context_suffix participant rs)))))%nat
    end.
Proof.
  intros Hrs Hp. revert position previous current.
  induction Hrs as [|r rs Hr _ IH]; intros position previous current; [done|].
  cbn [map find_grants]. rewrite is_grant_record by done.
  assert (Hlen : length (unlines (map record_line (r :: rs)))
                 = (length (record_line r ++ [NL]) + length (unlines (map record_line rs)))%nat).
  { unfold unlines. cbn [map concat]. by rewrite length_app. }
  rewrite count_grants_cons. cbn [context_suffix].
  assert (Hle : (length (unlines (map record_line (context_suffix participant rs)))
                 <= length (unlines (map record_line rs)))%nat).
  { clear. induction rs as [|r' rs IH]; [done|]. cbn [context_suffix].
    destruct (2 <=? _)%nat; [|done]. unfold unlines in *. cbn [map concat]. rewrite length_app. lia. }
  destruct (grants participant r); rewrite IH; destruct (count_grants participant rs) as [|[|n]];
    cbn [Nat.add Nat.leb map] in *; rewrite ?Hlen; done || lia.
Qed.

Lemma context_suffix_all participant rs :
  (count_grants participant rs < 2)%nat -> context_suffix participant rs = rs.
Proof.
  destruct rs as [|r rs]; [done|]. cbn [context_suffix]. rewrite count_grants_cons. intros H.
  destruct (Nat.leb_spec 2 (count_grants participant rs)); [lia|done].
Qed.

Lemma context_suffix_split participant rs :
  exists pre, rs = pre ++ context_suffix participant rs.
Proof.
  induction rs as [|r rs [pre IH]]; [by exists []|]. cbn [context_suffix].
  destruct (_ <=? _)%nat; [exists (r :: pre); cbn; by f_equal|by exists []].
Qed.

(** [CONTEXT] sends a participant the log from its last but one grant on
    (the whole log when it has had fewer than two), every record once. *)
Theorem transcript_stream_context_correct path participant rs w s :
  w_fs w !! path = Some (unlines (map record_line rs)) ->
  Forall record_ok rs -> log_name participant -> willing s ->
  exists zs, transcript_stream_context path participant (w, s)
    = (true, (w, Socket (s_in s)
         (s_out s ++ replies (str "CONTEXT ") (map record_line (context_suffix participant rs))) zs)).
Proof.
  intros Hf Hrs Hp Hw. unfold transcript_stream_context. rewrite st_bind_run, on_fst_run.
  cbn [fst snd file_read gets]. rewrite Hf, fgets_records, find_grants_spec by done.
  rewrite on_snd_run. cbn [fst snd].
  destruct (context_suffix_split participant rs) as [pre Hpre].
  set (start := match count_grants participant rs with O => _ | _ => _ end).
  assert (Hdrop : drop start (unlines (map record_line rs))
                  = unlines (map record_line (context_suffix participant rs))).
  { subst start. destruct (count_grants participant rs) as [|[|n]] eqn:E.
    - by rewrite context_suffix_all by lia.
    - by rewrite context_suffix_all by lia.
    - assert (Hu : unlines (map record_line rs) = unlines (map record_line pre)
                   ++ unlines (map record_line (context_suffix participant rs))).
      { rewrite Hpre at 1. by rewrite map_app, unlines_app. }
      rewrite Hu, length_app, Nat.add_0_l, Nat.add_sub. by rewrite drop_app_length. }
  rewrite Hdrop.
  destruct (stream_lines_ok (str "CONTEXT ") (map record_line (context_suffix participant rs)) s Hw)
    as (zs & -> & _); [|cbn; lia|by apply (bool_decide_unpack _); vm_compute|by exists zs].
  apply Forall_fmap. rewrite Hpre in Hrs. apply Forall_app in Hrs as [_ Hrs].
  eapply Forall_impl; [exact Hrs|]. apply record_line_ok.
Qed.

Lemma transcript_stream_context_correct_witness :
  exists zs, transcript_stream_context (str "log") (str "Neo") (sample_log_world, Socket [] [] [7])
    = (true, (sample_log_world, Socket []
         (replies (str "CONTEXT ") (map record_line sample_log)) zs)).
Proof.
  apply (transcript_stream_context_correct (str "log") (str "Neo") sample_log sample_log_world
           (Socket [] [] [7])).
  - by vm_compute.
  - by apply (bool_decide_unpack _); vm_compute.
  - by apply (bool_decide_unpack _); vm_compute.
  - by apply (bool_decide_unpack _); vm_compute.
Defined.

End Log.
