(* ===== verification/Conversation.v ===== *)
(** * council/src/conversation_memory.c and conversation_activity.c

    [Memory]: the conversation summary with its ring of recent log lines.
    [Activity]: the time stamp file behind the conversation lease. *)
From S2P Require Import Prelude CLib World.

Open Scope Z_scope.

(** [snprintf(temporary, sizeof(temporary), "%s.new", path)]. *)
Definition temporary_name (path : bytes) : bytes := snprintf (Z.to_nat 1024) (path ++ str ".new").

Module Memory.

Definition RECENT_LINES : nat := 20.
Definition LOG_LINE_SIZE : nat := Z.to_nat 8192.

(** The local variables of [conversation_summary_rebuild]. *)
Record state := State {
  events : Z; messages : Z; decisions : Z;
  recent : list (option bytes); index : nat; count : nat
}.

Definition initial : state := State 0 0 0 (replicate RECENT_LINES None) 0 0.

Definition has (line : bytes) (event : string) : bool := contains line (TAB :: str event ++ [TAB]).

(** [free(recent[index]); recent[index]=copy; index=(index+1)%RECENT_LINES;
    if(count<RECENT_LINES)count++;] *)
Definition push (line : bytes) (s : state) : state :=
  State (events s) (messages s) (decisions s) (<[index s := Some line]> (recent s))
        ((index s + 1) mod RECENT_LINES)
        (if (count s <? RECENT_LINES)%nat then count s + 1 else count s)%nat.

Definition tally (line : bytes) (s : state) : state :=
  State (events s + 1)
        (messages s + (if has line "message" || has line "initiate" then 1 else 0))
        (decisions s + (if has line "grant" || has line "speak" then 1 else 0))
        (recent s) (index s) (count s).

(** The reading loop; a failing [malloc] drops the line but counts it. *)
Fixpoint read_lines (lines : list bytes) (s : state) : st world state :=
  match lines with
  | [] => mret s
  | buffer :: lines' =>
      let line := cstr buffer in
      let s := tally line s in
      no_memory ← fault;
      read_lines lines' (if no_memory : bool then s else push line s)
  end.

Definition header (s : state) : bytes :=
  str "Council memory" ++ [NL] ++ str "Events: " ++ print_nat (events s)
    ++ str "; messages: " ++ print_nat (messages s)
    ++ str "; speaking decisions: " ++ print_nat (decisions s) ++ str "." ++ [NL]
    ++ str "Recent context:" ++ [NL].

(** [position=(index+RECENT_LINES-count+i)%RECENT_LINES; fputs(recent[position],output);] *)
Definition recent_text (s : state) : bytes :=
  concat ((fun i => default [] (mjoin (recent s !! ((index s + RECENT_LINES - count s + i)
                                                     mod RECENT_LINES)%nat)))
          <$> seq 0 (count s)).

(** [true] is the return value 0.  What stdio buffered reaches the file when
    it is closed. *)
Definition conversation_summary_rebuild (log_path summary_path : bytes) : st world bool :=
  match summary_path with
  | [] => mret true
  | _ =>
      input ← file_read log_path;
      let temporary := temporary_name summary_path in
      opened ← file_create temporary;
      if opened : bool then
        s ← match input with
            | Some content => read_lines (fgets_all LOG_LINE_SIZE content) initial
            | None => mret initial
            end;
        closed ← file_write temporary (header s ++ recent_text s);
        if closed : bool then file_rename temporary summary_path else mret false
      else mret false
  end.

(** ** The ring holds the last lines *)

(** The last [n] elements. *)
Definition last_n {A} (n : nat) (l : list A) : list A := drop (length l - n) l.

(** The ring after the lines [ls] went through it. *)
Definition ring_inv (ls : list bytes) (s : state) : Prop :=
  length (recent s) = RECENT_LINES /\ index s = (length ls mod RECENT_LINES)%nat
  /\ count s = Nat.min (length ls) RECENT_LINES
  /\ forall k, (length ls - count s <= k < length ls)%nat ->
       recent s !! (k mod RECENT_LINES)%nat = Some (ls !! k).

Lemma ring_inv_initial : ring_inv [] initial.
Proof. split_and!; [done|done|done|]. intros k. cbn. lia. Qed.

(** Two positions less than a turn apart are different slots. *)
Lemma slots_distinct a b n :
  (a < b < a + n)%nat -> (a mod n <> b mod n)%nat.
Proof.
  intros H E. assert (Hn : n <> 0%nat) by lia.
  pose proof (Nat.div_mod a n Hn). pose proof (Nat.div_mod b n Hn). rewrite E in *.
  assert ((a / n < b / n)%nat) by nia. nia.
Qed.

Lemma ring_inv_push ls line s : ring_inv ls s -> ring_inv (ls ++ [line]) (push line s).
Proof.
  intros (Hlen & Hi & Hc & Hk). unfold ring_inv, push. cbn [recent index count].
  rewrite length_insert, length_app. cbn [length].
  assert (Hc' : (if (count s <? RECENT_LINES)%nat then count s + 1 else count s)%nat
                = Nat.min (length ls + 1) RECENT_LINES).
  { rewrite Hc. destruct (Nat.ltb_spec (length ls `min` RECENT_LINES) RECENT_LINES); lia. }
  rewrite Hc', Hi. split_and!; [done|by rewrite Nat.Div0.add_mod_idemp_l|done|].
  assert (HR : RECENT_LINES = 20%nat) by done.
  intros k Hk'. destruct (decide (k = length ls)) as [->|Hne].
  - rewrite list_lookup_insert_eq by (rewrite Hlen; apply Nat.mod_upper_bound; lia).
    by rewrite lookup_app_r, Nat.sub_diag by lia.
  - rewrite list_lookup_insert_ne.
    + rewrite Hk by lia. by rewrite lookup_app_l by lia.
    + apply not_eq_sym, slots_distinct. lia.
Qed.

Lemma tally_ring ls line s : ring_inv ls s -> ring_inv ls (tally line s).
Proof. done. Qed.

Lemma ring_inv_text ls s : ring_inv ls s -> recent_text s = concat (last_n RECENT_LINES ls).
Proof.
  intros (Hlen & Hi & Hc & Hk). unfold recent_text. f_equal.
  assert (HR : RECENT_LINES = 20%nat) by done.
  apply list_eq. intros i. unfold last_n. rewrite lookup_drop, list_lookup_fmap.
  destruct (decide (i < count s)%nat) as [Hlt|Hge].
  - rewrite lookup_seq_lt by done. cbn [fmap option_fmap option_map].
    assert (E : ((index s + RECENT_LINES - count s + (0 + i)) mod RECENT_LINES
                 = (length ls - RECENT_LINES + i) mod RECENT_LINES)%nat).
    { rewrite Hi. replace (length ls mod RECENT_LINES + RECENT_LINES - count s + (0 + i))%nat
        with (length ls mod RECENT_LINES + (RECENT_LINES - count s + i))%nat by lia.
      rewrite Nat.Div0.add_mod_idemp_l.
      destruct (le_lt_dec RECENT_LINES (length ls)).
      - replace (length ls + (RECENT_LINES - count s + i))%nat
          with (length ls - RECENT_LINES + i + 1 * RECENT_LINES)%nat by lia.
        by rewrite Nat.Div0.mod_add.
      - replace (length ls + (RECENT_LINES - count s + i))%nat
          with (length ls - RECENT_LINES + i + 1 * RECENT_LINES)%nat by lia.
        by rewrite Nat.Div0.mod_add. }
    rewrite E, Hk by lia.
    destruct (lookup_lt_is_Some_2 ls (length ls - RECENT_LINES + i)%nat) as [x Hx]; [lia|].
    by rewrite Hx.
  - rewrite lookup_seq_ge by lia. symmetry. apply lookup_ge_None_2. lia.
Qed.

(** ** What the summary says *)

Definition tally_all (lines : list bytes) (s : state) : state := foldl (fun s l => push l (tally l s)) s lines.

Lemma read_lines_ok bs s w :
  w_faults w = [] -> read_lines bs s w = (tally_all (map cstr bs) s, w).
Proof.
  intros Hw. revert s; induction bs as [|b bs IH]; intros s; [done|].
  cbn [read_lines map]. rewrite st_bind_run, fault_none by done. cbn [fst snd]. by rewrite IH.
Qed.

Lemma tally_all_ring ls ls' s : ring_inv ls s -> ring_inv (ls ++ ls') (tally_all ls' s).
Proof.
  revert ls s; induction ls' as [|l ls' IH]; intros ls s H; [by rewrite app_nil_r|].
  cbn. replace (ls ++ l :: ls') with ((ls ++ [l]) ++ ls') by by rewrite <- app_assoc.
  apply IH, ring_inv_push, tally_ring, H.
Qed.

Definition count_if (p : bytes -> bool) (ls : list bytes) : Z :=
  foldr (fun l n => (if p l then 1 else 0) + n) 0 ls.

Lemma tally_all_counts ls s :
  events (tally_all ls s) = events s + Z.of_nat (length ls)
  /\ messages (tally_all ls s) = messages s + count_if (fun l => has l "message" || has l "initiate") ls
  /\ decisions (tally_all ls s) = decisions s + count_if (fun l => has l "grant" || has l "speak") ls.
Proof.
  revert s; induction ls as [|l ls IH]; intros s.
  - cbn. lia.
  - change (tally_all (l :: ls) s) with (tally_all ls (push l (tally l s))).
    destruct (IH (push l (tally l s))) as (-> & -> & ->). cbn [events messages decisions push tally length count_if foldr].
    fold (count_if (fun l => has l "message" || has l "initiate") ls).
    fold (count_if (fun l => has l "grant" || has l "speak") ls). lia.
Qed.

(** The summary of a log with the given lines. *)
Definition summary_text (ls : list bytes) : bytes :=
  header (State (Z.of_nat (length ls))
                (count_if (fun l => has l "message" || has l "initiate") ls)
                (count_if (fun l => has l "grant" || has l "speak") ls) [] 0 0)
  ++ concat (last_n RECENT_LINES ls).

Lemma tally_all_summary ls :
  header (tally_all ls initial) ++ recent_text (tally_all ls initial) = summary_text ls.
Proof.
  unfold summary_text. f_equal.
  - unfold header. destruct (tally_all_counts ls initial) as (-> & -> & ->). done.
  - apply ring_inv_text. apply (tally_all_ring [] ls initial), ring_inv_initial.
Qed.

(** when no call fails, the rebuilt summary is exactly the counts of the
    log's events, messages and speaking decisions followed by its last twenty
    lines in order; it replaces the old summary and the log is untouched. *)
Theorem conversation_summary_rebuild_correct log_path summary_path content w :
  w_faults w = [] -> summary_path <> [] ->
  log_path <> summary_path -> log_path <> temporary_name summary_path ->
  temporary_name summary_path <> summary_path ->
  w_fs w !! log_path = Some content ->
  exists w', conversation_summary_rebuild log_path summary_path w = (true, w')
    /\ w_fs w' !! summary_path = Some (summary_text (map cstr (fgets_all LOG_LINE_SIZE content)))
    /\ w_fs w' !! log_path = Some content
    /\ w_fs w' !! temporary_name summary_path = None.
Proof.
  intros Hw Hs Hls Hlt Hts Hc. unfold conversation_summary_rebuild.
  destruct summary_path as [|c path]; [done|]. set (sp := c :: path) in *.
  set (tmp := temporary_name sp) in *.
  rewrite st_bind_run. cbn [fst snd file_read gets]. rewrite Hc.
  rewrite st_bind_run, file_create_ok by done. cbn [fst snd].
  rewrite st_bind_run, read_lines_ok by done. cbn [fst snd].
  rewrite st_bind_run, file_write_ok by done. cbn [fst snd store w_fs].
  rewrite lookup_insert_eq. cbn [default app].
  set (text := header _ ++ recent_text _).
  erewrite file_rename_ok; [|done|cbn [store w_fs]; by rewrite lookup_insert_eq].
  eexists. split; [reflexivity|]. cbn [move store w_fs]. split_and!.
  - rewrite lookup_insert_eq. subst text. by rewrite tally_all_summary.
  - by rewrite lookup_insert_ne, lookup_delete_ne, !lookup_insert_ne.
  - by rewrite lookup_insert_ne, lookup_delete_eq.
Qed.

Definition sample_log : bytes :=
  str "t" ++ [TAB] ++ str "Aria" ++ [TAB] ++ str "message" ++ [TAB] ++ str "hi" ++ [NL].

Lemma conversation_summary_rebuild_correct_witness :
  let w := World {[str "l" := sample_log]} 0 [] [] [] [] ∅ [] [] in
  exists w', conversation_summary_rebuild (str "l") (str "s") w = (true, w')
    /\ w_fs w' !! str "s" = Some (summary_text (map cstr (fgets_all LOG_LINE_SIZE sample_log)))
    /\ w_fs w' !! str "l" = Some sample_log
    /\ w_fs w' !! temporary_name (str "s") = None.
Proof.
  apply (conversation_summary_rebuild_correct (str "l") (str "s") sample_log); by vm_compute.
Defined.

End Memory.

Module Activity.

(** Write [text] to [path ++ ".new"] and rename it over [path]. *)
Definition replace_file (path text : bytes) : st world bool :=
  opened ← file_create (temporary_name path);
  if opened : bool then
    closed ← file_write (temporary_name path) text;
    if closed : bool then file_rename (temporary_name path) path else mret false
  else mret false.

(** [true] is the return value 0. *)
Definition conversation_activity_mark (path : bytes) : st world bool :=
  now ← time;
  match path with
  | [] => mret false
  | _ => replace_file path (print_int now ++ [NL])
  end.

Definition conversation_activity_clear (path : bytes) : st world bool :=
  match path with
  | [] => mret false
  | _ => replace_file path (str "-1" ++ [NL])
  end.

(** [fscanf(file,"%lld",&recorded)!=1] leaves 0. *)
Definition scan_recorded (content : bytes) : Z := value_or_0 (strtol content).

Definition conversation_activity_remaining (path log_path : bytes) (lease : Z) : st world Z :=
  now ← time;
  file ← match path with [] => mret None | _ => file_read path end;
  let recorded := match file with Some c => scan_recorded c | None => 0 end in
  if recorded <? 0 then mret 0
  else
    info ← match log_path with [] => mret None | _ => file_mtime log_path end;
    let recorded := if recorded =? 0 then default 0 info else recorded in
    mret (if recorded =? 0 then 0
          else if now <=? recorded then lease
          else if lease <=? now - recorded then 0
          else lease - (now - recorded)).

(** ** The lease *)

(** Seconds left at [now] of a lease that started at [start]. *)
Definition lease_left (lease start now : Z) : Z := clamp 0 lease (lease - (now - start)).

Lemma replace_file_ok path text w :
  w_faults w = [] -> temporary_name path <> path ->
  exists w', replace_file path text w = (true, w') /\ w_fs w' !! path = Some text
    /\ w_fs w' = <[path := text]> (delete (temporary_name path) (w_fs w))
    /\ w_now w' = w_now w /\ w_ticks w' = w_ticks w /\ w_faults w' = []
    /\ w_random w' = w_random w /\ w_peers w' = w_peers w.
Proof.
  intros Hw Hne. unfold replace_file. set (tmp := temporary_name path) in *.
  rewrite st_bind_run, file_create_ok by done. cbn [fst snd].
  rewrite st_bind_run, file_write_ok by done. cbn [fst snd store w_fs].
  rewrite lookup_insert_eq. cbn [default app].
  erewrite file_rename_ok; [|done|cbn [store w_fs]; by rewrite lookup_insert_eq].
  eexists. split; [reflexivity|].
  cbn [move store w_fs w_now w_ticks w_faults w_random w_peers]. split_and!; try done.
  - by rewrite lookup_insert_eq.
  - by rewrite insert_insert_eq, delete_insert_eq.
Qed.

Lemma scan_print_int n : 0 <= n <= LONG_MAX -> scan_recorded (print_int n ++ [NL]) = n.
Proof.
  intros Hn. unfold scan_recorded, strtol, print_int. destruct (Z.ltb_spec n 0); [lia|].
  rewrite scan_number_print by (done || lia). cbn. unfold clamp, LONG_MIN, LONG_MAX in *. lia.
Qed.

(** The value computed from a positive time stamp in the file. *)
Lemma remaining_recorded path log_path lease content w :
  path <> [] -> w_fs w !! path = Some content -> 0 < scan_recorded content -> 0 < lease ->
  conversation_activity_remaining path log_path lease w
  = (lease_left lease (scan_recorded content) (time w).1, (time w).2).
Proof.
  intros Hp Hf Hr Hl. assert (Hfs : w_fs (time w).2 = w_fs w) by (unfold time; by destruct (w_ticks w)).
  unfold conversation_activity_remaining. rewrite st_bind_run. destruct path as [|c path]; [done|].
  rewrite st_bind_run. cbn [fst snd file_read gets]. rewrite Hfs, Hf.
  destruct (Z.ltb_spec (scan_recorded content) 0); [lia|]. rewrite st_bind_run.
  destruct (Z.eqb_spec (scan_recorded content) 0); [lia|]. destruct (Z.eqb_spec (scan_recorded content) 0); [lia|]. unfold mret, st_ret. f_equal.
  - unfold lease_left, clamp. destruct (Z.leb_spec (time w).1 (scan_recorded content)); [lia|].
    destruct (Z.leb_spec lease ((time w).1 - scan_recorded content)); lia.
  - by destruct log_path.
Qed.

Lemma remaining_cleared path log_path lease content w :
  path <> [] -> w_fs w !! path = Some content -> scan_recorded content < 0 ->
  conversation_activity_remaining path log_path lease w = (0, (time w).2).
Proof.
  intros Hp Hf Hr. assert (Hfs : w_fs (time w).2 = w_fs w) by (unfold time; by destruct (w_ticks w)).
  unfold conversation_activity_remaining. rewrite st_bind_run. destruct path as [|c path]; [done|].
  rewrite st_bind_run. cbn [fst snd file_read gets]. rewrite Hfs, Hf.
  destruct (Z.ltb_spec (scan_recorded content) 0); [done|lia].
Qed.

(** In every state of the file the remaining time lies within the lease. *)
Lemma remaining_bounds path log_path lease w :
  0 < lease -> 0 <= (conversation_activity_remaining path log_path lease w).1 <= lease.
Proof.
  intros Hl. unfold conversation_activity_remaining. rewrite !st_bind_run.
  destruct (_ <? 0); [cbn; lia|]. rewrite st_bind_run. cbn [fst mret st_ret].
  set (r := if _ =? 0 then default 0 _ else _). clearbody r.
  destruct (Z.eqb_spec r 0); [lia|]. destruct (Z.leb_spec (time w).1 r); [lia|].
  destruct (Z.leb_spec lease ((time w).1 - r)); lia.
Qed.

(** after [mark] the lease runs down from the moment of the call and reads
    zero once it is over; after [clear] it reads zero at once. *)
Theorem activity_lease_correct path log_path lease w :
  w_faults w = [] -> path <> [] -> temporary_name path <> path -> 0 < lease ->
  0 < (time w).1 <= LONG_MAX ->
  (exists w', conversation_activity_mark path w = (true, w')
    /\ (conversation_activity_remaining path log_path lease w').1
       = lease_left lease (time w).1 (time w').1)
  /\ (exists w', conversation_activity_clear path w = (true, w')
    /\ (conversation_activity_remaining path log_path lease w').1 = 0).
Proof.
  intros Hw Hp Ht Hl Hn. assert (Hff : w_faults (time w).2 = []) by (unfold time; by destruct (w_ticks w)).
  split.
  - destruct (replace_file_ok path (print_int (time w).1 ++ [NL]) (time w).2 Hff Ht)
      as (w' & E & Hf & _). exists w'. split.
    + unfold conversation_activity_mark. rewrite st_bind_run. by destruct path.
    + erewrite remaining_recorded; [|done|exact Hf| |done]; rewrite scan_print_int by (unfold LONG_MAX in *; lia); [done|lia].
  - destruct (replace_file_ok path (str "-1" ++ [NL]) w Hw Ht) as (w' & E & Hf & _).
    exists w'. split.
    + unfold conversation_activity_clear. by destruct path.
    + erewrite remaining_cleared; [done|done|exact Hf|by vm_compute].
Qed.

Lemma activity_lease_correct_witness :
  let w := World ∅ 1700000000 [4; 100] [] [] [] ∅ [] [] in
  (exists w', conversation_activity_mark (str "a") w = (true, w')
    /\ (conversation_activity_remaining (str "a") (str "log") 300 w').1 = lease_left 300 1700000004 (time w').1)
  /\ (exists w', conversation_activity_clear (str "a") w = (true, w')
    /\ (conversation_activity_remaining (str "a") (str "log") 300 w').1 = 0).
Proof.
  apply (activity_lease_correct (str "a") (str "log") 300 (World ∅ 1700000000 [4; 100] [] [] [] ∅ [] []));
    [done|done|by vm_compute|lia|by vm_compute].
Defined.

End Activity.
