(* ===== verification/Protocol.v ===== *)
(** * council/src/protocol.c and presence.c: the challenge-response handshake

    The accepting side works on the pair of world and client socket; the
    connecting side on a fresh connection taken from the world, which is
    recorded in [w_closed] when it is over. *)
From S2P Require Import Prelude CLib World Network Sha256 Authentication ContactBook Transcript.

Open Scope Z_scope.

Module Proto.

Definition COUNCIL_MESSAGE_LENGTH : nat := Z.to_nat 8192.

(** [sscanf(line, "AUTH %63s %64s", name, given) == 2]. *)
Definition scan_auth (line : bytes) : option (bytes * bytes) :=
  r ← scan_lit (str "AUTH") line;
  '(name, r) ← scan_word 63 (scan_ws r);
  '(given, _) ← scan_word 64 (scan_ws r);
  Some (name, given).

Definition nonce_line (nonce : bytes) : bytes :=
  snprintf COUNCIL_MESSAGE_LENGTH (str "NONCE " ++ nonce ++ [NL]).

(** What the server answers to the name and digest of the client: the contact
    it accepts and the line it sends. *)
Definition judge (book : contact_book) (expected : contact_role) (nonce n given : bytes)
    : option nat * bytes :=
  match Book.contact_book_find book n with
  | None => (None, str "ERROR IDENTITY" ++ [NL])
  | Some i =>
      match book !! i with
      | Some person =>
          if negb (bool_decide (role person = expected)) then (None, str "ERROR IDENTITY" ++ [NL])
          else if negb (Auth.authentication_matches given
                          (Auth.authentication_digest (shared_key person) n nonce))
          then (None, str "ERROR AUTHENTICATION" ++ [NL])
          else (Some i, str "OK" ++ [NL])
      | None => (None, str "ERROR IDENTITY" ++ [NL])
      end
  end.

(** [protocol_accept_identity]; [uninit] is the content of the [nonce] array
    when [authentication_nonce], whose result is not looked at, fails. *)
Definition protocol_accept_identity (uninit : bytes) (book : contact_book)
    (expected : contact_role) : st io (option nat) :=
  fresh ← on_fst Auth.authentication_nonce;
  let nonce := default uninit fresh in
  sent ← on_snd (network_send (nonce_line nonce));
  if sent : bool then
    line ← on_snd (network_read_line COUNCIL_MESSAGE_LENGTH);
    match line ≫= scan_auth with
    | None => mret None
    | Some (n, given) =>
        let '(person, answer) := judge book expected nonce n given in
        ok ← on_snd (network_send answer);
        mret (if ok : bool then person else None)
    end
  else mret None.

(** ** The connecting side *)

Definition auth_line (key local_name nonce : bytes) : bytes :=
  snprintf COUNCIL_MESSAGE_LENGTH
    (str "AUTH " ++ local_name ++ [SP] ++ Auth.authentication_digest key local_name nonce ++ [NL]).

(** The dialogue of [protocol_connect_identity] on an open connection. *)
Definition client_handshake (key local_name : bytes) : st socket bool :=
  line ← network_read_line COUNCIL_MESSAGE_LENGTH;
  match line ≫= scan_lit (str "NONCE ") with
  | None => mret false
  | Some nonce =>
      sent ← network_send (auth_line key local_name nonce);
      if sent : bool then
        line ← network_read_line COUNCIL_MESSAGE_LENGTH;
        mret (bool_decide (line = Some (str "OK")))
      else mret false
  end.

Definition protocol_connect_identity (d : contact) (local_name : bytes) : st world (option socket) :=
  p ← connect_peer;
  match p with
  | None => mret None
  | Some s =>
      let '(ok, s) := client_handshake (shared_key d) local_name s in
      if ok : bool then mret (Some s) else close_peer (host d) (port d) s ;; mret None
  end.

(** The variant with a time-out for [connect] repeats the same dialogue. *)
Definition protocol_connect_identity_timeout (d : contact) (n : bytes) (ms : Z)
    : st world (option socket) :=
  p ← connect_peer;
  match p with
  | None => mret None
  | Some s =>
      let '(ok, s) := client_handshake (shared_key d) n s in
      if ok : bool then mret (Some s) else close_peer (host d) (port d) s ;; mret None
  end.

(** [strchr(command,'\n') || strchr(command,'\r')]. *)
Definition multi_line (command : bytes) : bool :=
  bool_decide (is_Some (strchr command NL)) || bool_decide (is_Some (strchr command CR)).

(** Send a command on an authenticated connection and read the reply. *)
Definition exchange (command : bytes) (reply_size : nat) : st socket (option bytes) :=
  sent ← network_send (snprintf COUNCIL_MESSAGE_LENGTH (command ++ [NL]));
  if sent : bool then network_read_line reply_size else mret None.

Definition protocol_send_command (d : contact) (local_name command : bytes) (reply_size : nat)
    : st world (option bytes) :=
  if multi_line command then mret None
  else
    c ← protocol_connect_identity d local_name;
    match c with
    | None => mret None
    | Some s =>
        let '(reply, s) := exchange command reply_size s in
        close_peer (host d) (port d) s ;; mret reply
    end.

Definition protocol_send_command_timeout (d : contact) (n c : bytes) (z : nat) (ms : Z)
    : st world (option bytes) :=
  if multi_line c then mret None
  else
    conn ← protocol_connect_identity_timeout d n ms;
    match conn with
    | None => mret None
    | Some s =>
        let '(reply, s) := exchange c z s in
        close_peer (host d) (port d) s ;; mret reply
    end.

(** presence.c. *)
Definition presence_check (p : contact) (local_name : bytes) : st world bool :=
  reply ← protocol_send_command p local_name (str "PING") 64;
  mret (bool_decide (reply = Some (str "PONG"))).

(** ** Scanning the client's line *)

(** A name or digest as it travels in the handshake. *)
Definition wire_token (t : bytes) : Prop :=
  t <> [] /\ Forall (fun c => isspace c = false /\ line_byte c) t.

#[global] Instance wire_token_dec t : Decision (wire_token t).
Proof. unfold wire_token. apply _. Defined.

Lemma take_word_stop n t r :
  Forall (fun c => isspace c = false) t -> (length t <= n)%nat ->
  match r with [] => True | c :: _ => isspace c = true end ->
  take_word n (t ++ r) = (t, r).
Proof.
  intros Ht. revert n; induction Ht as [|c t Hc _ IH]; intros n Hn Hr.
  - destruct n, r as [|c r]; cbn; try done. by rewrite Hr.
  - destruct n as [|n]; [cbn in Hn; lia|]. cbn. rewrite Hc.
    rewrite IH; [done|cbn in Hn; lia|done].
Qed.

Lemma wire_token_space t : wire_token t -> Forall (fun c => isspace c = false) t.
Proof. intros [_ H]. eapply Forall_impl; [exact H|]. by intros ? []. Qed.

Lemma wire_token_line t : wire_token t -> Forall line_byte t.
Proof. intros [_ H]. eapply Forall_impl; [exact H|]. by intros ? []. Qed.

Lemma skip_space_token t r : wire_token t -> skip_space (t ++ r) = t ++ r.
Proof.
  intros [Hne H]. destruct t as [|c t]; [done|]. apply Forall_cons in H as [[Hc _] _].
  by apply skip_space_nonspace.
Qed.

Lemma scan_word_token n t r :
  wire_token t -> (length t <= n)%nat -> match r with [] => True | c :: _ => isspace c = true end ->
  scan_word n (t ++ r) = Some (t, r).
Proof.
  intros Ht Hn Hr. unfold scan_word. rewrite skip_space_token by done.
  rewrite take_word_stop; [|by apply wire_token_space|done|done].
  destruct Ht as [Hne _]. by destruct t.
Qed.

Lemma skip_space_SP r : skip_space (SP :: r) = skip_space r.
Proof. unfold skip_space. cbn. by destruct (span _ r). Qed.

Lemma scan_auth_line n g :
  wire_token n -> wire_token g -> (length n <= 63)%nat -> (length g <= 64)%nat ->
  scan_auth (str "AUTH " ++ n ++ [SP] ++ g) = Some (n, g).
Proof.
  intros Hn Hg Hln Hlg. unfold scan_auth.
  change (str "AUTH " ++ n ++ [SP] ++ g) with (str "AUTH" ++ SP :: (n ++ SP :: g)).
  rewrite scan_lit_app. cbn [mbind option_bind]. unfold scan_ws.
  rewrite skip_space_SP, skip_space_token by done.
  rewrite scan_word_token by done. cbn [mbind option_bind].
  assert (E : scan_word 64 (skip_space (SP :: g)) = Some (g, [])); [|by rewrite E].
  rewrite skip_space_SP, <- (app_nil_r g) at 1. rewrite skip_space_token by done.
  by apply scan_word_token.
Qed.

(** ** The accepting side decides on the digest *)

Lemma fresh_nonce w r rs :
  w_random w = Some r :: rs -> length r = 16%nat ->
  exists w', Auth.authentication_nonce w = (Some (Auth.hex r), w') /\ w_fs w' = w_fs w /\ w_faults w' = w_faults w /\ w_random w' = rs /\ w_kept w' = w_kept w.
Proof.
  intros Hr Hl. unfold Auth.authentication_nonce. rewrite st_bind_run. unfold urandom.
  rewrite Hr, Hl. cbn. eexists. split_and!; done.
Qed.

Lemma COUNCIL_MESSAGE_LENGTH_val : COUNCIL_MESSAGE_LENGTH = Z.to_nat 8192. Proof. done. Qed.
#[local] Opaque COUNCIL_MESSAGE_LENGTH.

Lemma nonce_line_eq nonce :
  (length nonce <= 64)%nat -> nonce_line nonce = str "NONCE " ++ nonce ++ [NL].
Proof.
  intros H. unfold nonce_line, snprintf. apply take_ge. rewrite !length_app. cbn.
  rewrite COUNCIL_MESSAGE_LENGTH_val. lia.
Qed.

Lemma hex_token r : bytes_ok r -> (0 < length r)%nat -> wire_token (Auth.hex r).
Proof.
  intros Hr Hl. split.
  - intros E. pose proof (Auth.hex_length r) as H. rewrite E in H. cbn in H. lia.
  - eapply Forall_impl; [by apply Auth.hex_chars|]. intros c [Hs Hc].
    unfold line_byte, NL, CR. split; [done|]. lia.
Qed.

Lemma digest_token k n x : wire_token (Auth.authentication_digest k n x).
Proof.
  destruct (Auth.authentication_digest_shape k n x) as [Hl Hc]. split.
  - intros E. by rewrite E in Hl.
  - eapply Forall_impl; [exact Hc|]. intros c [Hs Hc']. unfold line_byte, NL, CR. split; [done|]. lia.
Qed.

(** [network_send] of a text without NUL on a willing socket. *)
Lemma network_send_ok d s :
  willing s -> Forall (fun c => 0 < c) d ->
  exists zs, network_send d s = (true, Socket (s_in s) (s_out s ++ d) zs)
             /\ Forall (fun z => 0 < z) zs.
Proof. intros Hw Hd. unfold network_send. rewrite cstr_id by done. by apply network_send_bytes_ok. Qed.

Lemma positive_line l : Forall line_byte l -> Forall (fun c => 0 < c) (l ++ [NL]).
Proof.
  intros H. apply Forall_app. split; [by apply Log.line_byte_facts|]. by repeat constructor.
Qed.

(** The line of a client that names itself [n] and presents [g]. *)
Definition auth_text (n g : bytes) : bytes := str "AUTH " ++ n ++ [SP] ++ g.

Lemma auth_text_line n g : wire_token n -> wire_token g -> Forall line_byte (auth_text n g).
Proof.
  intros Hn%wire_token_line Hg%wire_token_line. unfold auth_text. rewrite !Forall_app.
  split_and!; [by apply (bool_decide_unpack _); vm_compute|done|by repeat constructor|done].
Qed.

Lemma judge_answer book expected nonce n g :
  Forall (fun c => 0 < c) (judge book expected nonce n g).2.
Proof.
  unfold judge. repeat case_match; by apply (bool_decide_unpack _); vm_compute.
Qed.

Lemma accept_identity_run uninit book expected r rs n g rest w s :
  w_random w = Some r :: rs -> length r = 16%nat -> bytes_ok r ->
  willing s -> s_in s = auth_text n g ++ NL :: rest ->
  wire_token n -> wire_token g -> (length n <= 63)%nat -> (length g <= 64)%nat ->
  let '(person, answer) := judge book expected (Auth.hex r) n g in
  exists w' zs, protocol_accept_identity uninit book expected (w, s)
    = (person, (w', Socket rest (s_out s ++ (str "NONCE " ++ Auth.hex r ++ [NL]) ++ answer) zs))
    /\ Forall (fun z => 0 < z) zs /\ w_fs w' = w_fs w /\ w_faults w' = w_faults w /\ w_random w' = rs /\ w_kept w' = w_kept w.
Proof.
  intros Hr Hl Hb Hw Hin Hn Hg Hln Hlg.
  pose proof (judge_answer book expected (Auth.hex r) n g) as Hpos.
  destruct (judge book expected (Auth.hex r) n g) as [person answer] eqn:Ej. cbn [snd] in Hpos.
  destruct (fresh_nonce w r rs Hr Hl) as (w' & En & Hfs & Hft & Hrd & Hkp).
  unfold protocol_accept_identity. rewrite st_bind_run, on_fst_run. cbn [fst snd].
  rewrite En. cbn [fst snd].
  change (default uninit (Some (Auth.hex r))) with (Auth.hex r).
  rewrite nonce_line_eq by (rewrite Auth.hex_length; lia).
  rewrite st_bind_run, on_snd_run. cbn [fst snd].
  destruct (network_send_ok (str "NONCE " ++ Auth.hex r ++ [NL]) s Hw) as (zs & -> & Hzs).
  { rewrite app_assoc. apply positive_line. apply Forall_app. split; [by apply (bool_decide_unpack _); vm_compute|].
    apply wire_token_line, hex_token; [done|lia]. }
  cbn [fst snd]. rewrite st_bind_run, on_snd_run. cbn [fst snd]. rewrite Hin.
  destruct (network_read_line_ok COUNCIL_MESSAGE_LENGTH (auth_text n g) rest
    (s_out s ++ str "NONCE " ++ Auth.hex r ++ [NL]) zs Hzs) as (zs2 & -> & Hzs2).
  { by apply auth_text_line. }
  { unfold auth_text. rewrite !length_app. cbn. rewrite COUNCIL_MESSAGE_LENGTH_val. lia. }
  cbn [fst snd mbind option_bind]. unfold auth_text. rewrite scan_auth_line by done. rewrite Ej.
  rewrite st_bind_run, on_snd_run. cbn [fst snd].
  destruct (network_send_ok answer (Socket rest (s_out s ++ str "NONCE " ++ Auth.hex r ++ [NL]) zs2) Hzs2 Hpos)
    as (zs3 & -> & Hzs3). cbn [fst snd s_in s_out].
  exists w', zs3. rewrite <- !app_assoc. split_and!; done.
Qed.

Lemma digest_bytes k n x : bytes_ok (Auth.authentication_digest k n x).
Proof.
  destruct (Auth.authentication_digest_shape k n x) as [_ H]. eapply Forall_impl; [exact H|].
  intros c [_ Hc]. unfold byte_ok. lia.
Qed.

Lemma judge_Some book expected nonce n g i :
  bytes_ok g ->
  (judge book expected nonce n g).1 = Some i <->
  exists c, Book.contact_book_find book n = Some i /\ book !! i = Some c /\ role c = expected
            /\ g = Auth.authentication_digest (shared_key c) n nonce.
Proof.
  intros Hg. unfold judge. destruct (Book.contact_book_find book n) as [j|] eqn:Ef; [|naive_solver].
  destruct (book !! j) as [c|] eqn:Ec; [|naive_solver].
  destruct (bool_decide (role c = expected)) eqn:Er; cbn [negb]; to_prop; [|naive_solver].
  pose proof (Auth.authentication_matches_eq g (Auth.authentication_digest (shared_key c) n nonce)
                Hg (digest_bytes _ _ _)) as Hm.
  destruct (Auth.authentication_matches _ _); cbn [negb fst].
  - split; [intros [= <-]; exists c; split_and!; try done; by apply Hm|]. naive_solver.
  - split; [done|]. intros (c' & [= <-] & Hc & _ & Hd). exfalso.
    assert (c' = c) as -> by congruence. by apply Hm in Hd.
Qed.

(** The answer tells the client whether it was accepted. *)
Lemma judge_OK book expected nonce n g :
  (judge book expected nonce n g).2 = str "OK" ++ [NL] <-> is_Some (judge book expected nonce n g).1.
Proof. unfold judge. repeat case_match; split; done || (by intros [? ?]) || eauto. Qed.

(** for every well-formed [AUTH] line the server sends its nonce, accepts
    exactly the contact of that name and listener role whose key gives the
    digest presented for this nonce, and says OK only then. *)
Theorem accept_identity_correct uninit book expected r rs n g rest w s :
  w_random w = Some r :: rs -> length r = 16%nat -> bytes_ok r ->
  willing s -> s_in s = auth_text n g ++ NL :: rest ->
  wire_token n -> wire_token g -> (length n <= 63)%nat -> (length g <= 64)%nat -> bytes_ok g ->
  exists verdict answer w' zs,
    protocol_accept_identity uninit book expected (w, s)
    = (verdict, (w', Socket rest (s_out s ++ (str "NONCE " ++ Auth.hex r ++ [NL]) ++ answer) zs))
    /\ (forall i, verdict = Some i <->
         exists c, Book.contact_book_find book n = Some i /\ book !! i = Some c /\ role c = expected
                   /\ g = Auth.authentication_digest (shared_key c) n (Auth.hex r))
    /\ (answer = str "OK" ++ [NL] <-> is_Some verdict) /\ w_fs w' = w_fs w.
Proof.
  intros Hr Hl Hb Hw Hin Hn Hg Hln Hlg Hgb.
  pose proof (accept_identity_run uninit book expected r rs n g rest w s Hr Hl Hb Hw Hin Hn Hg Hln Hlg) as H.
  pose proof (fun i => judge_Some book expected (Auth.hex r) n g i Hgb) as Hj.
  pose proof (judge_OK book expected (Auth.hex r) n g) as Hok.
  destruct (judge book expected (Auth.hex r) n g) as [verdict answer].
  destruct H as (w' & zs & E & _ & Hfs & _). exists verdict, answer, w', zs. split_and!; done.
Qed.

Definition sample_person : contact := Contact (str "Neo") CONTACT_AI (str "h") 7001 (str "key") 0 0.
Definition sample_random : bytes := [0;1;2;3;4;5;6;7;8;9;10;11;12;13;14;255].
Definition sample_digest : bytes :=
  Auth.authentication_digest (str "key") (str "Neo") (Auth.hex sample_random).

Lemma accept_identity_correct_witness :
  let s := Socket (auth_text (str "Neo") (str "0badc0de") ++ [NL]) [] [1; 100; 2] in
  let w := World ∅ 0 [] [] [Some sample_random] [] ∅ [] [] in
  exists verdict answer w' zs,
    protocol_accept_identity [] [sample_person] CONTACT_AI (w, s)
    = (verdict, (w', Socket [] ((str "NONCE " ++ Auth.hex sample_random ++ [NL]) ++ answer) zs))
    /\ (forall i, verdict = Some i <->
         exists c, Book.contact_book_find [sample_person] (str "Neo") = Some i
                   /\ [sample_person] !! i = Some c /\ role c = CONTACT_AI
                   /\ str "0badc0de" = Auth.authentication_digest (shared_key c) (str "Neo") (Auth.hex sample_random))
    /\ (answer = str "OK" ++ [NL] <-> is_Some verdict) /\ w_fs w' = ∅.
Proof.
  apply (accept_identity_correct [] [sample_person] CONTACT_AI sample_random [] (str "Neo") (str "0badc0de") []);
    first [done | by apply (bool_decide_unpack _); vm_compute | cbn; lia].
Defined.

(** ** Nobody is accepted without the digest of its key *)

Lemma read_line_loop_bytes (P : byte -> Prop) fuel n acc s l s' :
  Forall P acc -> Forall P (s_in s) -> read_line_loop fuel n acc s = (Some l, s') -> Forall P l.
Proof.
  revert acc s; induction fuel as [|f IH]; intros acc s Hacc Hs; [done|]. cbn [read_line_loop].
  destruct (_ <? n)%nat; [|done]. rewrite st_bind_run. unfold recv.
  destruct (next_chunk 1 s) as [[k|] zs]; [|by destruct (s_in s)].
  destruct (s_in s) as [|x xs] eqn:Ein; [done|].
  cbn [fst snd]. apply Forall_cons in Hs as [Hx Hxs].
  destruct k as [|k]; cbn [take drop]; [done|].
  destruct (take k xs) as [|y ys] eqn:Et; [|done].
  assert (Hrest : Forall P (drop k xs)).
  { rewrite <- (take_drop k xs), Et in Hxs. done. }
  destruct (x =? NL).
  - intros [= <- _]. unfold cstr.
    rewrite <- (span_app (Z.eqb 0) acc) in Hacc. by apply Forall_app in Hacc as [? _].
  - destruct (x =? CR); intros H; eapply IH in H; try done.
    apply Forall_app. split; [done|]. by constructor.
Qed.

Lemma take_word_bytes (P : byte -> Prop) n s :
  Forall P s -> Forall P (take_word n s).1 /\ Forall P (take_word n s).2.
Proof.
  intros H. revert n; induction H as [|c s Hc Hs IH]; intros n.
  - by destruct n.
  - destruct n as [|n]; cbn; [by repeat constructor|]. destruct (isspace c); [by repeat constructor|].
    specialize (IH n). destruct (take_word n s) as [a b]. cbn in *. destruct IH. by split; [constructor|].
Qed.

Lemma skip_space_bytes (P : byte -> Prop) s : Forall P s -> Forall P (skip_space s).
Proof.
  intros H. unfold skip_space. rewrite <- (span_app (fun c => negb (isspace c)) s) in H.
  by apply Forall_app in H as [_ ?].
Qed.

Lemma scan_word_bytes (P : byte -> Prop) n s w r :
  Forall P s -> scan_word n s = Some (w, r) -> Forall P w /\ Forall P r.
Proof.
  intros H%skip_space_bytes. apply (take_word_bytes P n) in H. unfold scan_word.
  destruct (take_word n (skip_space s)) as [[|c a] b]; [done|]. by intros [= <- <-].
Qed.

Lemma scan_auth_bytes (P : byte -> Prop) line n g :
  Forall P line -> scan_auth line = Some (n, g) -> Forall P n /\ Forall P g.
Proof.
  intros H. unfold scan_auth, scan_lit, scan_ws. destruct (starts_with _ line); [|done].
  cbn [mbind option_bind]. apply (Forall_drop P (length (str "AUTH"))) in H.
  apply skip_space_bytes in H. destruct (scan_word 63 _) as [[n' r]|] eqn:E1; [|done].
  apply (scan_word_bytes P) in E1 as [Hn Hr]; [|done]. cbn [mbind option_bind].
  apply skip_space_bytes in Hr. destruct (scan_word 64 _) as [[g' r']|] eqn:E2; [|done].
  apply (scan_word_bytes P) in E2 as [Hg _]; [|done]. cbn. by intros [= <- <-].
Qed.

(** An accepted contact is one of the book with the listener's role. *)
Lemma judge_role book expected nonce n g i :
  (judge book expected nonce n g).1 = Some i -> exists c, book !! i = Some c /\ role c = expected.
Proof.
  unfold judge. destruct (Book.contact_book_find book n) as [j|]; [|done].
  destruct (book !! j) as [c|] eqn:Ec; [|done].
  destruct (bool_decide (role c = expected)) eqn:Er; cbn [negb]; [|done]. to_prop.
  destruct (negb _); [done|]. intros [= <-]. eauto.
Qed.

Lemma accept_identity_contact uninit book expected x i :
  (protocol_accept_identity uninit book expected x).1 = Some i ->
  exists c, book !! i = Some c /\ role c = expected.
Proof.
  destruct x as [w s]. unfold protocol_accept_identity. rewrite st_bind_run, on_fst_run. cbn [fst snd].
  set (nonce := default uninit _). rewrite st_bind_run, on_snd_run. cbn [fst snd].
  destruct (network_send (nonce_line nonce) s) as [b1 s1]. cbn [fst snd]. destruct b1; [|done].
  rewrite st_bind_run, on_snd_run. cbn [fst snd].
  destruct (network_read_line COUNCIL_MESSAGE_LENGTH s1) as [[line|] s2]; [|done].
  cbn [fst snd mbind option_bind]. destruct (scan_auth line) as [[n g]|]; [|done].
  pose proof (judge_role book expected nonce n g i) as Hj.
  destruct (judge book expected nonce n g) as [person answer]. cbn [fst] in Hj.
  rewrite st_bind_run, on_snd_run. cbn [fst snd]. destruct (network_send answer s2) as [[] s3]; [|done].
  exact Hj.
Qed.

(** C1: whatever bytes a client sends and however the connection behaves, a
    contact is accepted only if the client presented that contact's name and
    the HMAC of this connection's nonce under that contact's key, and the
    contact has the role of the listener. *)
Theorem accept_identity_sound uninit book expected w s i w' s' :
  bytes_ok (s_in s) ->
  protocol_accept_identity uninit book expected (w, s) = (Some i, (w', s')) ->
  exists c line, book !! i = Some c /\ role c = expected
    /\ (exists s1 s2, network_read_line COUNCIL_MESSAGE_LENGTH s1 = (Some line, s2) /\ s_in s1 = s_in s)
    /\ scan_auth line
       = Some (name c, Auth.authentication_digest (shared_key c) (name c)
                         (default uninit (Auth.authentication_nonce w).1)).
Proof.
  intros Hs. unfold protocol_accept_identity. rewrite st_bind_run, on_fst_run. cbn [fst snd].
  set (nonce := default uninit _). rewrite st_bind_run, on_snd_run. cbn [fst snd].
  destruct (network_send (nonce_line nonce) s) as [b1 s1] eqn:E1. cbn [fst snd].
  destruct b1; [|done]. unfold network_send, network_send_bytes in E1.
  apply send_loop_prefix in E1 as [Hin1 _].
  rewrite st_bind_run, on_snd_run. cbn [fst snd].
  destruct (network_read_line COUNCIL_MESSAGE_LENGTH s1) as [[line|] s2] eqn:E2; [|done].
  cbn [fst snd mbind option_bind]. destruct (scan_auth line) as [[n g]|] eqn:Es; [|done].
  assert (Hline : bytes_ok line).
  { unfold network_read_line in E2. eapply read_line_loop_bytes; [| |exact E2]; [done|]. by rewrite Hin1. }
  apply (scan_auth_bytes byte_ok) in Es as Hg; [|done]. destruct Hg as [_ Hg].
  pose proof (judge_Some book expected nonce n g i Hg) as Hj.
  destruct (judge book expected nonce n g) as [person answer]. cbn [fst] in Hj.
  rewrite st_bind_run, on_snd_run. cbn [fst snd]. destruct (network_send answer s2) as [[] s3]; [|done].
  cbn [fst snd]. intros [= Hp _ _]. apply Hj in Hp as (c & Hf & Hc & Hr & Hd).
  pose proof (Book.contact_book_find_spec book n) as Hspec. rewrite Hf in Hspec.
  destruct Hspec as (c' & Hc' & Hn & _). assert (c' = c) as -> by congruence.
  exists c, line. split_and!; [done|done| |by rewrite Es, Hn, Hd].
  exists s1, s2. split; [done|]. by rewrite Hin1.
Qed.

(** ** A client that knows the key is accepted *)

Lemma client_handshake_run key local nonce rest s :
  willing s -> s_in s = (str "NONCE " ++ nonce ++ [NL]) ++ (str "OK" ++ [NL]) ++ rest ->
  wire_token nonce -> wire_token local -> (length nonce <= 64)%nat -> (length local <= 63)%nat ->
  exists zs, client_handshake key local s
    = (true, Socket rest (s_out s ++ auth_text local (Auth.authentication_digest key local nonce) ++ [NL]) zs)
    /\ Forall (fun z => 0 < z) zs.
Proof.
  intros Hw Hin Hn Hl Hln Hll. unfold client_handshake. rewrite st_bind_run.
  destruct s as [i o zs0]. cbn [s_in s_out] in *. subst i.
  replace ((str "NONCE " ++ nonce ++ [NL]) ++ (str "OK" ++ [NL]) ++ rest)
    with ((str "NONCE " ++ nonce) ++ NL :: (str "OK" ++ NL :: rest)) by by rewrite <- !app_assoc.
  destruct (network_read_line_ok COUNCIL_MESSAGE_LENGTH (str "NONCE " ++ nonce) (str "OK" ++ NL :: rest) o zs0 Hw)
    as (zs & -> & Hzs).
  { apply Forall_app. split; [by apply (bool_decide_unpack _); vm_compute|by apply wire_token_line]. }
  { rewrite length_app, COUNCIL_MESSAGE_LENGTH_val. cbn. lia. }
  cbn [fst snd mbind option_bind]. rewrite scan_lit_app.
  set (g := Auth.authentication_digest key local nonce).
  assert (Hg : wire_token g) by apply digest_token.
  assert (Hgl : length g = 64%nat) by apply Auth.authentication_digest_shape.
  assert (Ha : auth_line key local nonce = auth_text local g ++ [NL]).
  { unfold auth_line, snprintf, auth_text. fold g. rewrite <- !app_assoc. apply take_ge.
    rewrite !length_app. cbn. rewrite COUNCIL_MESSAGE_LENGTH_val. lia. }
  rewrite Ha, st_bind_run.
  destruct (network_send_ok (auth_text local g ++ [NL]) (Socket (str "OK" ++ NL :: rest) o zs) Hzs)
    as (zs2 & -> & Hzs2); [by apply positive_line, auth_text_line|]. cbn [fst snd s_in s_out].
  rewrite st_bind_run.
  destruct (network_read_line_ok COUNCIL_MESSAGE_LENGTH (str "OK") rest (o ++ auth_text local g ++ [NL]) zs2 Hzs2)
    as (zs3 & -> & Hzs3).
  { by apply (bool_decide_unpack _); vm_compute. }
  { rewrite COUNCIL_MESSAGE_LENGTH_val. cbn. lia. }
  by exists zs3.
Qed.

(** The accepting side with such a client. *)
Lemma accept_known uninit book i c r rs srest w ss :
  Book.contact_book_find book (name c) = Some i -> book !! i = Some c -> wire_token (name c) -> (length (name c) <= 63)%nat ->
  w_random w = Some r :: rs -> length r = 16%nat -> bytes_ok r -> willing ss ->
  s_in ss = (auth_text (name c) (Auth.authentication_digest (shared_key c) (name c) (Auth.hex r)) ++ [NL]) ++ srest ->
  exists w' zs, protocol_accept_identity uninit book (role c) (w, ss)
      = (Some i, (w', Socket srest (s_out ss ++ (str "NONCE " ++ Auth.hex r ++ [NL]) ++ str "OK" ++ [NL]) zs))
    /\ Forall (fun z => 0 < z) zs /\ w_fs w' = w_fs w /\ w_faults w' = w_faults w /\ w_random w' = rs /\ w_kept w' = w_kept w.
Proof.
  intros Hf Hc Hn Hln Hr Hl Hb Hss Hsin. set (g := Auth.authentication_digest (shared_key c) (name c) (Auth.hex r)) in *.
  assert (Hj : judge book (role c) (Auth.hex r) (name c) g = (Some i, str "OK" ++ [NL])).
  { unfold judge. rewrite Hf, Hc, bool_decide_true by done. cbn [negb]. fold g.
    by rewrite (proj2 (Auth.authentication_matches_eq g g (digest_bytes _ _ _) (digest_bytes _ _ _))). }
  pose proof (accept_identity_run uninit book (role c) r rs (name c) g srest w ss Hr Hl Hb Hss) as H.
  rewrite Hj in H. apply H; try done.
  - rewrite Hsin. by rewrite <- app_assoc.
  - apply digest_token.
  - unfold g. destruct (Auth.authentication_digest_shape (shared_key c) (name c) (Auth.hex r)) as [-> _]. lia.
Qed.

(** C37: the two ends of the handshake fit: when the client holds the key the
    server has for its name, what each end sends is exactly what the other one
    reads, the client sees OK and the server returns the client's contact. *)
Theorem handshake_session uninit book i c r rs srest crest w cs ss :
  Book.contact_book_find book (name c) = Some i -> book !! i = Some c ->
  wire_token (name c) -> (length (name c) <= 63)%nat ->
  w_random w = Some r :: rs -> length r = 16%nat -> bytes_ok r ->
  willing cs -> willing ss ->
  let client_says := auth_text (name c) (Auth.authentication_digest (shared_key c) (name c) (Auth.hex r)) ++ [NL] in
  let server_says := (str "NONCE " ++ Auth.hex r ++ [NL]) ++ str "OK" ++ [NL] in
  s_in cs = server_says ++ crest -> s_in ss = client_says ++ srest ->
  (exists zs, client_handshake (shared_key c) (name c) cs = (true, Socket crest (s_out cs ++ client_says) zs))
  /\ (exists w' zs, protocol_accept_identity uninit book (role c) (w, ss)
        = (Some i, (w', Socket srest (s_out ss ++ server_says) zs))).
Proof.
  intros Hf Hc Hn Hln Hr Hl Hb Hcs Hss client_says server_says Hcin Hsin. split.
  - destruct (client_handshake_run (shared_key c) (name c) (Auth.hex r) crest cs) as (zs & E & _);
      [done| | |done| |done|by exists zs].
    + subst server_says. by rewrite Hcin, <- !app_assoc.
    + apply hex_token; [done|lia].
    + rewrite Auth.hex_length. lia.
  - destruct (accept_known uninit book i c r rs srest w ss) as (w' & zs & E & _); try done. by exists w', zs.
Qed.

Definition sample_server_says : bytes :=
  (str "NONCE " ++ Auth.hex sample_random ++ [NL]) ++ str "OK" ++ [NL].
Definition sample_client_says : bytes := auth_text (str "Neo") sample_digest ++ [NL].

Lemma handshake_session_witness :
  (exists zs, client_handshake (str "key") (str "Neo") (Socket sample_server_says [] [1; 2; 3])
              = (true, Socket [] sample_client_says zs))
  /\ (exists w' zs, protocol_accept_identity [] [sample_person] CONTACT_AI
        (World ∅ 0 [] [] [Some sample_random] [] ∅ [] [], Socket sample_client_says [] [5])
        = (Some 0%nat, (w', Socket [] sample_server_says zs))).
Proof.
  apply (handshake_session [] [sample_person] 0 sample_person sample_random [] [] []
           (World ∅ 0 [] [] [Some sample_random] [] ∅ [] [])
           (Socket sample_server_says [] [1; 2; 3]) (Socket sample_client_says [] [5])).
  - vm_compute. reflexivity.
  - reflexivity.
  - by apply (bool_decide_unpack _); vm_compute.
  - cbn. lia.
  - reflexivity.
  - reflexivity.
  - by apply (bool_decide_unpack _); vm_compute.
  - by apply (bool_decide_unpack _); vm_compute.
  - by apply (bool_decide_unpack _); vm_compute.
  - vm_compute. reflexivity.
  - vm_compute. reflexivity.
Defined.

Lemma accept_identity_sound_witness :
  exists c line, [sample_person] !! 0%nat = Some c /\ role c = CONTACT_AI
    /\ (exists s1 s2, network_read_line COUNCIL_MESSAGE_LENGTH s1 = (Some line, s2)
                      /\ s_in s1 = sample_client_says)
    /\ scan_auth line = Some (name c, Auth.authentication_digest (shared_key c) (name c) (Auth.hex sample_random)).
Proof.
  apply (accept_identity_sound [] [sample_person] CONTACT_AI
           (World ∅ 0 [] [] [Some sample_random] [] ∅ [] []) (Socket sample_client_says [] []) 0
           (World ∅ 0 [] [] [] [] ∅ [] []) (Socket [] sample_server_says [])).
  - by apply (bool_decide_unpack _); vm_compute.
  - vm_compute. reflexivity.
Defined.

End Proto.
