(* ===== verification/FileTransfer.v ===== *)
(** * council/src/file_storage.c and file_commands.c: file transfer

    Names, digests, the streaming of a file over a socket, its atomic reception
    (a [.part] file that is renamed only when the digest fits) and the [FILE]
    and [STORE] commands. *)
From S2P Require Import Prelude CLib World Network Sha256 Authentication ContactBook ServiceConfig.
From S2P Require Import Transcript Conversation Protocol.

Open Scope Z_scope.

Module Files.

Definition COUNCIL_FILE_NAME : nat := 128.
Definition BUFFER : nat := Z.to_nat 16384.

(** [digest_hex]. *)
Definition digest_hex (b : bytes) : bytes :=
  concat (map (fun x => [Sha.at_ Auth.digits (Z.to_nat (Z.shiftr x 4));
                         Sha.at_ Auth.digits (Z.to_nat (Z.land x 15))]) b).

Definition name_char (c : byte) : bool := isalnum c || (c =? 46) || (c =? 95) || (c =? 45).

Definition file_transfer_name_is_safe (name : bytes) : bool :=
  if (length name =? 0)%nat || (COUNCIL_FILE_NAME <=? length name)%nat
     || bytes_eqb name (str ".") || bytes_eqb name (str "..") then false
  else forallb name_char name.

(** [base] moves behind the last slash, then behind a later backslash. *)
Definition base_name (path : bytes) : bytes :=
  let base := default path (after_last 47 path) in
  match after_last 92 path with
  | Some b => if (length b <? length base)%nat then b else base
  | None => base
  end.

(** The buffers [while((count=fread(buffer,1,n,file))>0)] goes through. *)
Fixpoint fread_loop (fuel n : nat) (content : bytes) : list bytes :=
  match fuel, content with
  | S f, _ :: _ => take n content :: fread_loop f n (drop n content)
  | _, _ => []
  end.

Definition fread_all (n : nat) (content : bytes) : list bytes := fread_loop (length content) n content.

(** SHA-256 of a sequence of buffers, with an uninitialised context buffer. *)
Definition hash_buffers (parts : list bytes) : bytes :=
  digest_hex (Sha.digest_of Auth.stack_junk parts).

(** [ferror(file)] is the fault of the reads. *)
Definition file_transfer_describe (path : bytes) : st world (option (bytes * Z * bytes)) :=
  let base := base_name path in
  if negb (file_transfer_name_is_safe base) then mret None
  else
    file ← file_read path;
    match file with
    | None => mret None
    | Some content =>
        let parts := fread_all BUFFER content in
        let size := foldl (fun n p => (n + Z.of_nat (length p)) mod 2 ^ 64) 0 parts in
        bad ← fault;
        if bad : bool then mret None
        else mret (Some (snprintf COUNCIL_FILE_NAME base, size, hash_buffers parts))
    end.

Definition file_transfer_send_stream (path : bytes) : st io bool :=
  file ← on_fst (file_read path);
  match file with
  | None => mret false
  | Some content =>
      sent ← on_snd (for_all_ok network_send_bytes (fread_all BUFFER content));
      if sent : bool then bad ← on_fst fault; mret (negb bad) else mret false
  end.

(** The return values 0 (with [stored]), -1 and -2. *)
Inductive receive_result := Received (stored : bytes) | ReceiveFailed | DigestMismatch.

(** [while(remaining){...}]; [None] is the exit with [remove(temporary)].  An
    iteration takes a full buffer or all that remains. *)
Fixpoint receive_loop (fuel : nat) (temporary : bytes) (remaining : nat) (parts : list bytes)
    : st io (option (list bytes)) :=
  match remaining, fuel with
  | O, _ => mret (Some parts)
  | _, O => mret None
  | _, S f =>
      let wanted := Nat.min remaining BUFFER in
      buffer ← on_snd (network_read_bytes wanted);
      match buffer with
      | None => mret None
      | Some buffer =>
          written ← on_fst (file_write temporary buffer);
          if written : bool
          then receive_loop f temporary (remaining - wanted) (parts ++ [buffer])
          else mret None
      end
  end.

Definition final_name (directory nonce name : bytes) : bytes :=
  directory ++ str "/" ++ nonce ++ str "-" ++ name.

Definition discard (temporary : bytes) (r : receive_result) : st io receive_result :=
  on_fst (file_remove temporary) ;; mret r.

Definition file_transfer_receive_stream (directory name : bytes) (size : Z) (digest : bytes)
    (stored_size : nat) : st io receive_result :=
  if negb (file_transfer_name_is_safe name) then mret ReceiveFailed
  else
    nonce ← on_fst Auth.authentication_nonce;
    match nonce with
    | None => mret ReceiveFailed
    | Some nonce =>
        let final := snprintf (Z.to_nat 1024) (final_name directory nonce name) in
        if (Z.to_nat 1024 <=? length final + 5)%nat || (stored_size <=? length final)%nat
        then mret ReceiveFailed
        else
          let temporary := final ++ str ".part" in
          opened ← on_fst (file_create temporary);
          if opened : bool then
            parts ← receive_loop (Z.to_nat size) temporary (Z.to_nat size) [];
            match parts with
            | None => discard temporary ReceiveFailed
            | Some parts =>
                close_failed ← on_fst fault;
                if close_failed : bool then discard temporary ReceiveFailed
                else if negb (bytes_eqb (hash_buffers parts) digest)
                then discard temporary DigestMismatch
                else
                  renamed ← on_fst (file_rename temporary final);
                  if renamed : bool then mret (Received final)
                  else discard temporary ReceiveFailed
            end
          else mret ReceiveFailed
    end.

(** The dialogue of [file_transfer_forward] after the handshake. *)
Definition forward_dialogue (command path : bytes) (reply_size : nat) : st io bool :=
  sent ← on_snd (network_send command);
  if sent : bool then
    reply ← on_snd (network_read_line reply_size);
    if bool_decide (reply = Some (str "READY")) then
      streamed ← file_transfer_send_stream path;
      if streamed : bool then
        reply ← on_snd (network_read_line reply_size);
        mret (bool_decide (reply = Some (str "STORED")))
      else mret false
    else mret false
  else mret false.

(** Run a dialogue on a connection of one's own. *)
Definition with_socket {A} (s : socket) (m : st io A) : st world (A * socket) := fun w =>
  let '(a, (w, s)) := m (w, s) in (a, s, w).

Definition store_command (sender name : bytes) (size : Z) (digest : bytes) : bytes :=
  snprintf 512 (str "STORE " ++ sender ++ [SP] ++ name ++ [SP] ++ print_nat size ++ [SP] ++ digest ++ [NL]).

(** [true] is the return value 0. *)
Definition file_transfer_forward (destination : contact) (local_name sender path name : bytes)
    (size : Z) (digest : bytes) (reply_size : nat) : st world bool :=
  c ← Proto.protocol_connect_identity destination local_name;
  match c with
  | None => mret false
  | Some s =>
      '(ok, s) ← with_socket s (forward_dialogue (store_command sender name size digest) path reply_size);
      close_peer (host destination) (port destination) s ;; mret ok
  end.

(** ** file_commands.c *)

(** [find_ai]. *)
Definition find_ai (book : contact_book) (n : bytes) : option contact :=
  i ← Book.contact_book_find book n;
  c ← book !! i;
  if bool_decide (role c = CONTACT_AI) then Some c else None.

(** [sscanf(text, "%63s %127s %llu %64s", who, name, &size, digest) == 4]. *)
Definition scan_file_header (text : bytes) : option (bytes * bytes * Z * bytes) :=
  '(who, r) ← scan_word 63 text;
  '(name, r) ← scan_word 127 (scan_ws r);
  '(size, r) ← scan_u64 (scan_ws r);
  '(digest, _) ← scan_word 64 (scan_ws r);
  Some (who, name, size, digest).

(** [network_send(socket, text)] with the result ignored. *)
Definition say (text : bytes) : st io unit := on_snd (network_send (text ++ [NL])) ;; mret tt.

Definition event_text (who name : bytes) (state stored : bytes) : bytes :=
  snprintf (Z.to_nat 1400) (who ++ [SP] ++ name ++ [SP] ++ state ++ str ":" ++ stored).

Definition append_event (path speaker event text : bytes) : st io unit :=
  on_fst (Log.transcript_append path speaker event text) ;; mret tt.

Definition mark_file_activity (config : service_config) : st io unit :=
  on_fst (Activity.conversation_activity_mark (activity_path config)) ;; mret tt.

(** [READY], the reception and its two error replies; [Some stored] to go on. *)
Definition receive_reply (config : service_config) (name : bytes) (size : Z) (digest : bytes)
    : st io (option bytes) :=
  ready ← on_snd (network_send (str "READY" ++ [NL]));
  if ready : bool then
    received ← file_transfer_receive_stream (files_directory config) name size digest (Z.to_nat 1024);
    match received with
    | DigestMismatch => say (str "ERROR FILE_DIGEST") ;; mret None
    | ReceiveFailed => say (str "ERROR FILE_STORE") ;; mret None
    | Received stored => mret (Some stored)
    end
  else mret None.

(** The [FILE] command of a human. *)
Definition handle_file (args : bytes) (sender : contact) (config : service_config)
    (contacts : contact_book) (has_turn : bool) : st io unit :=
  if negb (bool_decide (role sender = CONTACT_HUMAN)) then say (str "ERROR HUMAN_FILES_ONLY")
  else if negb has_turn then say (str "ERROR NOT_YOUR_TURN")
  else match scan_file_header args with
  | None => say (str "ERROR FILE_HEADER")
  | Some (target_name, name, size, digest) =>
      if max_file_bytes config <? size then say (str "ERROR FILE_TOO_LARGE")
      else match find_ai contacts target_name with
      | None => say (str "ERROR TARGET_UNKNOWN")
      | Some target =>
          stored ← receive_reply config name size digest;
          match stored with
          | None => mret tt
          | Some stored =>
              forwarded ← on_fst (file_transfer_forward target (cfg_name config)
                             (ContactBook.name sender) stored name size digest 128);
              if forwarded : bool then
                append_event (transcript_path config) (ContactBook.name sender) (str "file")
                  (event_text target_name name (str "stored") stored) ;;
                mark_file_activity config ;;
                say (str "STORED")
              else
                append_event (transcript_path config) (ContactBook.name sender) (str "file-pending")
                  (event_text target_name name (str "retained") stored) ;;
                say (str "ERROR TARGET_OFFLINE")
          end
      end
  end.

(** The [STORE] command of another node. *)
Definition handle_store (args : bytes) (sender : contact) (config : service_config) : st io unit :=
  if negb (bool_decide (role sender = CONTACT_AI)) then say (str "ERROR AI_STORE_ONLY")
  else match scan_file_header args with
  | None => say (str "ERROR FILE_HEADER")
  | Some (sender_name, name, size, digest) =>
      if max_file_bytes config <? size then say (str "ERROR FILE_TOO_LARGE")
      else
        stored ← receive_reply config name size digest;
        match stored with
        | None => mret tt
        | Some stored =>
            append_event (inbox_path config) (ContactBook.name sender) (str "file")
              (event_text sender_name name (str "stored") stored) ;;
            mark_file_activity config ;;
            say (str "STORED")
        end
  end.

(** [true] is the return value 1: the line was a file command. *)
Definition file_command_handle (line : bytes) (sender : contact) (config : service_config)
    (contacts : contact_book) (has_turn : bool) : st io bool :=
  if starts_with (str "FILE ") line then
    handle_file (drop 5 line) sender config contacts has_turn ;; mret true
  else if starts_with (str "STORE ") line then
    handle_store (drop 6 line) sender config ;; mret true
  else mret false.

(** ** Safe names *)

Lemma name_is_safe_spec name :
  file_transfer_name_is_safe name = true <->
  (0 < length name < COUNCIL_FILE_NAME)%nat /\ name <> str "." /\ name <> str ".."
  /\ Forall (fun c => name_char c = true) name.
Proof.
  unfold file_transfer_name_is_safe.
  destruct (Nat.eqb_spec (length name) 0); cbn [orb]; [split; [done|]; lia|].
  destruct (Nat.leb_spec COUNCIL_FILE_NAME (length name)); cbn [orb]; [split; [done|]; lia|].
  destruct (bytes_eqb name (str ".")) eqn:E1; cbn [orb]; to_prop; [split; [done|]; naive_solver|].
  destruct (bytes_eqb name (str "..")) eqn:E2; cbn [orb]; to_prop; [split; [done|]; naive_solver|].
  rewrite forallb_forall, Forall_forall. split.
  - intros Hf. split_and!; try done; try lia. intros x Hx. apply Hf. by apply list_elem_of_In.
  - intros (_ & _ & _ & Hf) x Hx. apply Hf. by apply list_elem_of_In.
Qed.

Lemma name_char_facts c : name_char c = true -> c <> 47 /\ c <> 92 /\ isspace c = false /\ line_byte c.
Proof.
  unfold name_char, isalnum, isalpha, isupper, islower, isdigit, isspace, line_byte, NL, CR. intros H.
  repeat (apply orb_true_iff in H as [H|H]); to_prop;
    (split_and!; try lia); apply orb_false_iff; rewrite Z.eqb_neq, andb_false_iff, !Z.leb_gt; lia.
Qed.

Lemma safe_name_no_slash name :
  file_transfer_name_is_safe name = true -> (47 ∉ name) /\ (92 ∉ name).
Proof.
  rewrite name_is_safe_spec. intros (_ & _ & _ & H).
  split; intros Hin; apply (proj1 (Forall_forall _ _) H) in Hin; apply name_char_facts in Hin; naive_solver.
Qed.

(** ** Reception is atomic *)

Lemma hash_buffers_spec parts : hash_buffers parts = Auth.hex (Sha.sha256_spec (concat parts)).
Proof. unfold hash_buffers. by rewrite Sha.digest_of_spec. Qed.

Lemma BUFFER_pos : (0 < BUFFER)%nat.
Proof. unfold BUFFER. lia. Qed.
#[local] Opaque BUFFER.

(** Only the temporary file is written; on success it holds exactly the bytes
    that the peer sent. *)
Lemma receive_loop_fs fuel tmp remaining parts w s c0 :
  w_fs w !! tmp = Some c0 ->
  let '(r, (w', s')) := receive_loop fuel tmp remaining parts (w, s) in
  exists d, w_fs w' = <[tmp := c0 ++ d]> (w_fs w) /\ s_out s' = s_out s
    /\ d `prefix_of` s_in s /\ w_kept w' = w_kept w /\ forall parts', r = Some parts' ->
         concat parts' = concat parts ++ d /\ length d = remaining /\ s_in s = d ++ s_in s'.
Proof.
  revert remaining parts w s c0; induction fuel as [|f IH]; intros remaining parts w s c0 Hc.
  - destruct remaining; cbn; exists []; rewrite app_nil_r, insert_id by done;
      split_and!; try done; try apply prefix_nil. intros ? [= <-]. by rewrite app_nil_r.
  - destruct remaining as [|rem].
    { cbn. exists []. rewrite app_nil_r, insert_id by done. split_and!; try done; [apply prefix_nil|].
      intros ? [= <-]. by rewrite app_nil_r. }
    cbn [receive_loop]. set (wanted := Nat.min (S rem) BUFFER).
    rewrite st_bind_run, on_snd_run. cbn [fst snd].
    destruct (network_read_bytes wanted s) as [[buffer|] s1] eqn:E1; cbn [fst snd].
    + apply network_read_bytes_sound in E1 as (Hl & Hin & Hout).
      rewrite st_bind_run, on_fst_run. cbn [fst snd].
      pose proof (file_write_fs tmp buffer w) as Hw. pose proof (file_write_kept tmp buffer w) as Hk.
      destruct (file_write tmp buffer w) as [b w1]. cbn [fst snd] in Hk |- *. destruct b.
      * rewrite Hc in Hw. cbn in Hw.
        specialize (IH (S rem - wanted)%nat (parts ++ [buffer]) w1 s1 (c0 ++ buffer)).
        destruct (receive_loop f tmp (S rem - wanted) (parts ++ [buffer]) (w1, s1)) as [r [w' s']].
        destruct IH as (d & Hfs & Hout' & Hpre & Hkept & Hr); [by rewrite Hw, lookup_insert_eq|].
        exists (buffer ++ d). rewrite Hfs, Hw, insert_insert_eq, <- app_assoc.
        split_and!; [done|by rewrite Hout', Hout|rewrite Hin; by apply prefix_app|by rewrite Hkept|]. intros parts' Hp.
        apply Hr in Hp as (Hcat & Hlen & Hin'). rewrite concat_app in Hcat. cbn [concat] in Hcat.
        rewrite app_nil_r in Hcat. rewrite Hcat, <- !app_assoc, length_app, Hl, Hlen, Hin, Hin'.
        split_and!; [done|lia|done].
      * exists []. rewrite app_nil_r, Hw, insert_id by done. split_and!; try done; apply prefix_nil.
    + exists []. rewrite app_nil_r, insert_id by done.
      split_and!; [done| |apply prefix_nil|done|done].
      pose proof E1 as E1'. unfold network_read_bytes in E1'. clear -E1'.
      eapply read_loop_out; exact E1'.
Qed.

Lemma hex_no_slash b : 47 ∉ Auth.hex b.
Proof.
  assert (Hd : forall n, Sha.at_ Auth.digits n <> 47).
  { intros n. unfold Sha.at_. destruct (nth_in_or_default n Auth.digits 0) as [H|H]; [|by rewrite H].
    intros E. rewrite E in H. apply list_elem_of_In in H. revert H.
    by apply (bool_decide_unpack _); vm_compute. }
  unfold Auth.hex. induction b as [|x b IH]; cbn [map concat app].
  - apply not_elem_of_nil.
  - rewrite !not_elem_of_cons. split_and!; [by apply not_eq_sym, Hd|by apply not_eq_sym, Hd|done].
Qed.

Lemma nonce_shape w nonce w' :
  Auth.authentication_nonce w = (Some nonce, w') ->
  exists r rs, w_random w = Some r :: rs /\ length r = 16%nat /\ nonce = Auth.hex r
    /\ (47 ∉ nonce) /\ w_fs w' = w_fs w /\ w_kept w' = w_kept w.
Proof.
  unfold Auth.authentication_nonce. rewrite st_bind_run. unfold urandom.
  destruct (w_random w) as [|[b|] rs]; [done| |done]. destruct (Nat.eqb_spec (length b) 16) as [Hl|]; cbn [fst snd]; [|done].
  intros [= <- <-]. exists b, rs. split_and!; try done. apply hex_no_slash.
Qed.

(** Discarding removes the temporary file, if the system lets it. *)
Lemma discard_run tmp r w s :
  exists w', discard tmp r (w, s) = (r, (w', s))
    /\ w_fs w' = if hd false (w_kept w) then w_fs w else delete tmp (w_fs w).
Proof.
  unfold discard. rewrite st_bind_run, on_fst_run. pose proof (file_remove_fs tmp w) as H.
  cbn [fst snd]. destruct (file_remove tmp w) as [b w']. destruct H as (Hb & H & _). exists w'. split; [done|].
  rewrite H, Hb. by destruct (hd false (w_kept w)).
Qed.

(** What is left of the temporary file [tmp] when a reception ends without
    success: nothing, or, if the system refuses to remove it, a first part of the
    data. *)
Definition discarded (tmp : bytes) (s : socket) (w w' : world) : Prop :=
  if hd false (w_kept w) then exists data, data `prefix_of` s_in s /\ w_fs w' = <[tmp := data]> (w_fs w)
  else w_fs w' = delete tmp (w_fs w).

(** The temporary file of a reception: its name holds the next random number. *)
Definition is_temporary (directory name : bytes) (w : world) (tmp : bytes) : Prop :=
  exists r rs, w_random w = Some r :: rs /\ length r = 16%nat /\ tmp = final_name directory (Auth.hex r) name ++ str ".part".

Lemma receive_opened final size digest w w1 s :
  let tmp := final ++ str ".part" in
  w_fs w1 = <[tmp := []]> (w_fs w) -> w_kept w1 = w_kept w ->
  let '(r, (w', s')) :=
    (parts ← receive_loop (Z.to_nat size) tmp (Z.to_nat size) [];
     match parts with
     | None => discard tmp ReceiveFailed
     | Some parts =>
         close_failed ← on_fst fault;
         if close_failed : bool then discard tmp ReceiveFailed
         else if negb (bytes_eqb (hash_buffers parts) digest) then discard tmp DigestMismatch
         else
           renamed ← on_fst (file_rename tmp final);
           if renamed : bool then mret (Received final) else discard tmp ReceiveFailed
     end) (w1, s) in
  match r with
  | Received stored =>
      exists data, stored = final /\ length data = Z.to_nat size /\ s_in s = data ++ s_in s'
        /\ digest = Auth.hex (Sha.sha256_spec data)
        /\ w_fs w' = <[final := data]> (delete tmp (w_fs w))
  | _ => discarded tmp s w w'
  end.
Proof.
  intros tmp Hw1 Hk1. rewrite st_bind_run.
  pose proof (receive_loop_fs (Z.to_nat size) tmp (Z.to_nat size) [] w1 s []) as Hl.
  destruct (receive_loop _ _ _ _ _) as [r [w2 s2]]. cbn [fst snd].
  destruct Hl as (d & Hfs & _ & Hpre & Hk2 & Hr); [by rewrite Hw1, lookup_insert_eq|]. cbn [app] in Hfs.
  rewrite Hw1, insert_insert_eq in Hfs.
  assert (Hdel : forall w3 o, w_fs w3 = w_fs w2 -> w_kept w3 = w_kept w2 ->
    exists w4, discard tmp o (w3, s2) = (o, (w4, s2)) /\ discarded tmp s w w4).
  { intros w3 o E Ek. destruct (discard_run tmp o w3 s2) as (w4 & E4 & H4). exists w4. split; [done|].
    unfold discarded. rewrite Ek, Hk2, Hk1, E, Hfs, delete_insert_eq in H4. destruct (hd false (w_kept w)); [by exists d|done]. }
  destruct r as [parts|]; [|by destruct (Hdel w2 ReceiveFailed) as (w4 & -> & H4)].
  rewrite st_bind_run, on_fst_run. cbn [fst snd]. pose proof (fault_fs w2) as Hf. pose proof (fault_kept w2) as Hkf.
  destruct (fault w2) as [[] w3]; cbn [fst snd] in *; [by destruct (Hdel w3 ReceiveFailed) as (w4 & -> & H4)|].
  destruct (bytes_eqb (hash_buffers parts) digest) eqn:E; cbn [negb];
    [|by destruct (Hdel w3 DigestMismatch) as (w4 & -> & H4)]. to_prop.
  rewrite st_bind_run, on_fst_run. cbn [fst snd]. pose proof (file_rename_fs tmp final w3) as Hren.
  pose proof (file_rename_kept tmp final w3) as Hkr.
  destruct (file_rename tmp final w3) as [b w4]. cbn [fst snd] in Hkr |- *. destruct b.
  - destruct Hren as (c & Hc & Hw4). cbn. destruct (Hr parts eq_refl) as (Hcat & Hlen & Hin).
    cbn [concat app] in Hcat. exists d. rewrite Hw4. rewrite Hf, Hfs in Hc.
    rewrite lookup_insert_eq in Hc. injection Hc as <-.
    rewrite Hf, Hfs, delete_insert_eq. rewrite <- E, hash_buffers_spec, Hcat. split_and!; done.
  - destruct (Hdel w4 ReceiveFailed) as (w5 & -> & H5); [by rewrite Hren|by rewrite Hkr|done].
Qed.

(** C6: reception is atomic, whatever the network, the disk and the sender
    do: either the file appears under its final name, in the directory and with
    exactly the announced size, bytes and digest, or no file but the temporary one,
    whose name holds a fresh random number, has changed; and that one is gone unless
    the system refuses to remove it. *)
Theorem receive_stream_atomic directory name size digest stored_size w s :
  let '(r, (w', s')) :=
    file_transfer_receive_stream directory name size digest stored_size (w, s) in
  match r with
  | Received stored =>
      exists leaf data, stored = directory ++ str "/" ++ leaf /\ (47 ∉ leaf)
        /\ (length stored < stored_size)%nat
        /\ length data = Z.to_nat size /\ s_in s = data ++ s_in s'
        /\ digest = Auth.hex (Sha.sha256_spec data)
        /\ w_fs w' = <[stored := data]> (delete (stored ++ str ".part") (w_fs w))
  | _ => w_fs w' = w_fs w \/ exists tmp, is_temporary directory name w tmp /\ discarded tmp s w w'
  end.
Proof.
  unfold file_transfer_receive_stream.
  destruct (file_transfer_name_is_safe name) eqn:Hsafe; cbn [negb]; [|by left].
  rewrite st_bind_run, on_fst_run. cbn [fst snd].
  destruct (Auth.authentication_nonce w) as [[nonce|] w1] eqn:En; cbn [fst snd].
  2: { left. unfold Auth.authentication_nonce in En. rewrite st_bind_run in En.
       pose proof (urandom_fs 16 w) as H. destruct (urandom 16 w). injection En as _ <-. done. }
  apply nonce_shape in En as (r0 & rs & Hr0 & Hl0 & -> & Hn & Hfs1 & Hk1).
  set (nonce := Auth.hex r0) in *.
  set (final := snprintf (Z.to_nat 1024) (final_name directory nonce name)).
  destruct (Nat.leb_spec (Z.to_nat 1024) (length final + 5)) as [|Hshort]; cbn [orb]; [by left|].
  destruct (Nat.leb_spec stored_size (length final)) as [|Hfit]; [by left|].
  assert (Hfinal : final = final_name directory nonce name).
  { subst final. unfold snprintf in *. apply take_ge. rewrite length_take in Hshort. lia. }
  rewrite st_bind_run, on_fst_run. cbn [fst snd].
  pose proof (file_create_fs (final ++ str ".part") w1) as Hcr. pose proof (file_create_kept (final ++ str ".part") w1) as Hck.
  destruct (file_create (final ++ str ".part") w1) as [b w2]. cbn [fst snd] in Hck |- *. destruct b; [|left; by rewrite Hcr].
  rewrite Hfs1 in Hcr. rewrite Hk1 in Hck. pose proof (receive_opened final size digest w w2 s Hcr Hck) as H.
  revert H. match goal with |- context [(?m ≫= ?f) (w2, s)] =>
    destruct ((m ≫= f) (w2, s)) as [r [w' s']] end. intros H.
  destruct r as [stored| |]; [|right; exists (final ++ str ".part"); split; [exists r0, rs; by rewrite Hfinal|done]..].
  destruct H as (data & -> & Hl & Hin & Hd & Hw). exists (nonce ++ str "-" ++ name), data.
  split_and!; try done. rewrite !not_elem_of_app. split_and!; [done| |by apply safe_name_no_slash].
  by apply (bool_decide_unpack _); vm_compute.
Qed.

(** ** A file sent is the file received *)

Lemma fread_loop_concat fuel n content :
  (0 < n)%nat -> (length content <= fuel)%nat -> concat (fread_loop fuel n content) = content.
Proof.
  intros Hn. revert content; induction fuel as [|f IH]; intros content Hf.
  - destruct content; [done|cbn in Hf; lia].
  - destruct content as [|c content]; [done|]. cbn [fread_loop concat].
    rewrite IH; [apply take_drop|]. rewrite length_drop. cbn [length] in *. lia.
Qed.

Lemma fread_all_concat content : concat (fread_all BUFFER content) = content.
Proof. apply fread_loop_concat; [apply BUFFER_pos|done]. Qed.

Lemma total_size (parts : list bytes) n :
  0 <= n -> n + Z.of_nat (length (concat parts)) < 2 ^ 64 ->
  foldl (fun n p => (n + Z.of_nat (length p)) mod 2 ^ 64) n parts = n + Z.of_nat (length (concat parts)).
Proof.
  revert n; induction parts as [|p parts IH]; intros n Hn Hlt; cbn in *; [lia|].
  rewrite length_app in *. rewrite Z.mod_small by lia. rewrite IH; lia.
Qed.

Lemma send_parts_ok parts s :
  willing s ->
  exists zs, for_all_ok network_send_bytes parts s
             = (true, Socket (s_in s) (s_out s ++ concat parts) zs) /\ Forall (fun z => 0 < z) zs.
Proof.
  revert s; induction parts as [|p parts IH]; intros s Hw; cbn [for_all_ok concat].
  - exists (s_chunks s). rewrite app_nil_r. by destruct s.
  - rewrite st_bind_run. destruct (network_send_bytes_ok p s Hw) as (zs & -> & Hzs). cbn [fst snd].
    destruct (IH (Socket (s_in s) (s_out s ++ p) zs) Hzs) as (zs' & -> & Hz').
    exists zs'. cbn [s_in s_out]. by rewrite <- app_assoc.
Qed.

Lemma receive_loop_ok fuel tmp remaining parts w s c0 :
  w_faults w = [] -> willing s -> (remaining <= fuel)%nat -> (remaining <= length (s_in s))%nat ->
  w_fs w !! tmp = Some c0 ->
  exists parts' w' zs, receive_loop fuel tmp remaining parts (w, s)
    = (Some parts', (w', Socket (drop remaining (s_in s)) (s_out s) zs)) /\ w_faults w' = []
      /\ w_random w' = w_random w /\ Forall (fun z => 0 < z) zs.
Proof.
  revert remaining parts w s c0; induction fuel as [|f IH]; intros remaining parts w s c0 Hw Hs Hf Hn Hc.
  - assert (remaining = 0%nat) as -> by lia. cbn. exists parts, w, (s_chunks s). by destruct s.
  - destruct remaining as [|rem]; [cbn; exists parts, w, (s_chunks s); by destruct s|].
    cbn [receive_loop]. set (wanted := Nat.min (S rem) BUFFER).
    pose proof BUFFER_pos. rewrite st_bind_run, on_snd_run. cbn [fst snd].
    destruct (network_read_bytes_ok wanted s Hs) as (zs & -> & Hzs); [lia|]. cbn [fst snd].
    rewrite st_bind_run, on_fst_run. cbn [fst snd]. rewrite file_write_ok by done. cbn [fst snd].
    edestruct (IH (S rem - wanted)%nat) as (parts' & w' & zs' & E & Hw' & Hr' & Hz');
      [| | | | |exists parts', w', zs'; rewrite E]; cbn [store w_fs w_faults w_random s_in s_out] in *;
      [done|done|lia|rewrite length_drop; lia|by rewrite lookup_insert_eq|].
    rewrite drop_drop. replace (wanted + (S rem - wanted))%nat with (S rem) by lia. done.
Qed.

(** A fault-free reception of a described file. *)
Lemma receive_run name content directory r rs rest w s :
  w_faults w = [] -> w_random w = Some r :: rs -> length r = 16%nat ->
  file_transfer_name_is_safe name = true -> (length directory <= 800)%nat ->
  willing s -> s_in s = content ++ rest ->
  exists stored w' zs,
    file_transfer_receive_stream directory name (Z.of_nat (length content))
      (Auth.hex (Sha.sha256_spec content)) (Z.to_nat 1024) (w, s)
    = (Received stored, (w', Socket rest (s_out s) zs))
    /\ w_fs w' = <[stored := content]> (delete (stored ++ str ".part") (w_fs w))
    /\ stored = final_name directory (Auth.hex r) name
    /\ w_faults w' = [] /\ w_random w' = rs /\ w_kept w' = w_kept w /\ Forall (fun z => 0 < z) zs.
Proof.
  intros Hw Hr Hl Hsafe Hdir Hs Hin. unfold file_transfer_receive_stream. rewrite Hsafe. cbn [negb].
  rewrite st_bind_run, on_fst_run. cbn [fst snd]. unfold Auth.authentication_nonce.
  rewrite st_bind_run. unfold urandom. rewrite Hr, Hl. cbn [fst snd Nat.eqb mret st_ret fmap option_fmap option_map].
  set (w1 := World _ _ _ _ _ _ _ _ _).
  set (final := snprintf (Z.to_nat 1024) (final_name directory (Auth.hex r) name)).
  assert (Hlen : (length final <= 962)%nat).
  { subst final. unfold snprintf, final_name. rewrite length_take, !length_app, Auth.hex_length, Hl.
    apply name_is_safe_spec in Hsafe as ([_ H] & _). unfold COUNCIL_FILE_NAME in H. cbn [str length]. lia. }
  destruct (Nat.leb_spec (Z.to_nat 1024) (length final + 5)); [lia|]. cbn [orb].
  destruct (Nat.leb_spec (Z.to_nat 1024) (length final)); [lia|].
  rewrite st_bind_run, on_fst_run. cbn [fst snd]. rewrite file_create_ok by done. cbn [fst snd].
  set (tmp := final ++ str ".part"). set (w2 := store tmp [] w1).
  assert (Htmp : w_fs w2 !! tmp = Some []) by (cbn [w2 store w_fs]; by rewrite lookup_insert_eq).
  rewrite st_bind_run. rewrite Nat2Z.id.
  destruct (receive_loop_ok (length content) tmp (length content) [] w2 s []) as (parts & w3 & zs & E & Hf3 & Hr3 & Hz3);
    [done|done|done|rewrite Hin, length_app; lia|done|].
  pose proof (receive_loop_fs (length content) tmp (length content) [] w2 s [] Htmp) as Hfs.
  rewrite E in Hfs |- *. destruct Hfs as (d & Hfs & _ & _ & Hk3 & Hp).
  destruct (Hp parts eq_refl) as (Hcat & Hdl & Hin'). cbn [concat app] in *. cbn [s_in] in Hin'.
  assert (d = content) as ->.
  { rewrite Hin in Hin'. by apply app_inj_1 in Hin' as [? _]. }
  cbn [fst snd]. rewrite st_bind_run, on_fst_run. cbn [fst snd]. rewrite fault_none by done. cbn [fst snd].
  rewrite hash_buffers_spec, Hcat, bytes_eqb_refl. cbn [negb].
  rewrite st_bind_run, on_fst_run. cbn [fst snd].
  rewrite (file_rename_ok w3 Hf3 tmp final content) by (by rewrite Hfs, lookup_insert_eq). cbn [fst snd].
  assert (Hfin : final = final_name directory (Auth.hex r) name).
  { subst final. unfold snprintf in *. apply take_ge. apply name_is_safe_spec in Hsafe as ([_ Hn] & _). unfold COUNCIL_FILE_NAME in Hn.
    unfold final_name. rewrite !length_app, Auth.hex_length, Hl. cbn [str length]. lia. }
  exists final, (move tmp final content w3), zs. split_and!; try done.
  - rewrite Hin, drop_app_length. done.
  - cbn [move w_fs]. rewrite Hfs, delete_insert_eq. subst w2 w1. cbn [store w_fs]. by rewrite delete_insert_eq.
Qed.

(** A fault-free description and a fault-free transmission. *)
Lemma describe_run path content w : w_fs w !! path = Some content -> w_faults w = [] ->
  file_transfer_name_is_safe (base_name path) = true -> Z.of_nat (length content) < 2 ^ 64 ->
  file_transfer_describe path w = (Some (base_name path, Z.of_nat (length content), Auth.hex (Sha.sha256_spec content)), w).
Proof.
  intros Hfile Hf Hsafe Hsize.
  assert (Hname : snprintf COUNCIL_FILE_NAME (base_name path) = base_name path).
  { unfold snprintf. apply take_ge. apply name_is_safe_spec in Hsafe as ([_ H] & _). lia. }
  assert (Htot : foldl (fun n p => (n + Z.of_nat (length p)) mod 2 ^ 64) 0 (fread_all BUFFER content)
                 = Z.of_nat (length content)).
  { rewrite total_size by (rewrite ?fread_all_concat; lia). by rewrite fread_all_concat. }
  unfold file_transfer_describe. rewrite Hsafe. cbn [negb]. rewrite st_bind_run.
  cbn [fst snd file_read gets]. rewrite Hfile. rewrite st_bind_run, fault_none by done.
  cbn [fst snd]. by rewrite Hname, Htot, hash_buffers_spec, fread_all_concat.
Qed.

Lemma send_stream_run path content w s : w_fs w !! path = Some content -> w_faults w = [] -> willing s ->
  exists zs, file_transfer_send_stream path (w, s) = (true, (w, Socket (s_in s) (s_out s ++ content) zs)) /\ Forall (fun z => 0 < z) zs.
Proof.
  intros Hfile Hf Hs. destruct (send_parts_ok (fread_all BUFFER content) s Hs) as (zs & Esend & Hz). rewrite fread_all_concat in Esend.
  exists zs. split; [|done]. unfold file_transfer_send_stream. rewrite st_bind_run, on_fst_run. cbn [fst snd file_read gets].
  rewrite Hfile, st_bind_run, on_snd_run. cbn [fst snd]. rewrite Esend. cbn [fst snd].
  by rewrite st_bind_run, on_fst_run; cbn [fst snd]; rewrite fault_none.
Qed.

(** C38: when no call fails, describing a file, sending it and receiving it
    with the description reproduces it byte for byte at the receiver. *)
Theorem file_transfer_roundtrip path content directory r rs rest w1 w2 cs ss :
  w_fs w1 !! path = Some content -> w_faults w1 = [] -> w_faults w2 = [] ->
  w_random w2 = Some r :: rs -> length r = 16%nat ->
  file_transfer_name_is_safe (base_name path) = true ->
  Z.of_nat (length content) < 2 ^ 64 -> (length directory <= 800)%nat ->
  willing cs -> willing ss -> s_in ss = content ++ rest ->
  exists name size digest stored w2' zs zs',
    file_transfer_describe path w1 = (Some (name, size, digest), w1)
    /\ file_transfer_send_stream path (w1, cs)
       = (true, (w1, Socket (s_in cs) (s_out cs ++ content) zs))
    /\ file_transfer_receive_stream directory name size digest (Z.to_nat 1024) (w2, ss)
       = (Received stored, (w2', Socket rest (s_out ss) zs'))
    /\ w_fs w2' !! stored = Some content.
Proof.
  intros Hfile Hf1 Hf2 Hr Hrl Hsafe Hsize Hdir Hcs Hss Hin.
  destruct (send_stream_run path content w1 cs Hfile Hf1 Hcs) as (zs & Estream & _).
  destruct (receive_run (base_name path) content directory r rs rest w2 ss) as (stored & w2' & zs' & E & Hst & _); try done.
  exists (base_name path), (Z.of_nat (length content)), (Auth.hex (Sha.sha256_spec content)), stored, w2', zs, zs'.
  split_and!; [by apply describe_run|done|done|]. by rewrite Hst, lookup_insert_eq.
Qed.

Lemma file_transfer_roundtrip_witness :
  let w1 := World {[str "/tmp/a.txt" := str "hello"]} 0 [] [] [] [] ∅ [] [] in
  let w2 := World ∅ 0 [] [] [Some (replicate 16 7)] [] ∅ [] [] in
  exists name size digest stored w2' zs zs',
    file_transfer_describe (str "/tmp/a.txt") w1 = (Some (name, size, digest), w1)
    /\ file_transfer_send_stream (str "/tmp/a.txt") (w1, Socket [] [] [2])
       = (true, (w1, Socket [] (str "hello") zs))
    /\ file_transfer_receive_stream (str "files") name size digest (Z.to_nat 1024)
         (w2, Socket (str "hello" ++ str "PING") [] [1; 3])
       = (Received stored, (w2', Socket (str "PING") [] zs'))
    /\ w_fs w2' !! stored = Some (str "hello").
Proof.
  apply (file_transfer_roundtrip (str "/tmp/a.txt") (str "hello") (str "files") (replicate 16 7) []
    (str "PING") (World {[str "/tmp/a.txt" := str "hello"]} 0 [] [] [] [] ∅ [] [])
    (World ∅ 0 [] [] [Some (replicate 16 7)] [] ∅ [] []) (Socket [] [] [2])
    (Socket (str "hello" ++ str "PING") [] [1; 3]));
    first [reflexivity | by apply (bool_decide_unpack _); vm_compute | cbn; lia].
Defined.

(** ** Who may store files *)

Lemma say_then text w s :
  (say text ;; mret true) (w, s) = (true, (w, (network_send (text ++ [NL]) s).2)).
Proof. rewrite st_bind_run. unfold say. by rewrite st_bind_run, on_snd_run. Qed.

(** Name the outcome of the computation in the goal. *)
Ltac finish_run :=
  match goal with |- context [(?m ≫= ?f) ?s] => destruct ((m ≫= f) s) as [? [? ?]] end.

(** The conditions under which a command may touch the files. *)
Definition may_store (line : bytes) (sender : contact) (config : service_config)
    (contacts : contact_book) (has_turn : bool) : Prop :=
  (exists args who name size digest, line = str "FILE " ++ args
     /\ scan_file_header args = Some (who, name, size, digest)
     /\ role sender = CONTACT_HUMAN /\ has_turn = true /\ size <= max_file_bytes config
     /\ is_Some (find_ai contacts who))
  \/ (exists args who name size digest, line = str "STORE " ++ args
     /\ scan_file_header args = Some (who, name, size, digest)
     /\ role sender = CONTACT_AI /\ size <= max_file_bytes config).

(** a file command changes files only for a human holding the turn who
    names a known AI ([FILE]) or for an AI ([STORE]), and only within the size
    limit; every other line leaves the files untouched. *)
Theorem file_command_guarded line sender config contacts has_turn w s :
  let '(_, (w', _)) := file_command_handle line sender config contacts has_turn (w, s) in
  w_fs w' = w_fs w \/ may_store line sender config contacts has_turn.
Proof.
  unfold file_command_handle. destruct (starts_with (str "FILE ") line) eqn:Ef.
  - apply starts_with_drop in Ef. unfold handle_file.
    destruct (bool_decide (role sender = CONTACT_HUMAN)) eqn:Er; cbn [negb];
      [|rewrite say_then; by left].
    destruct has_turn; cbn [negb];
      [|rewrite say_then; by left].
    destruct (scan_file_header (drop 5 line)) as [[[[who name] size] digest]|] eqn:Eh;
      [|rewrite say_then; by left].
    destruct (Z.ltb_spec (max_file_bytes config) size);
      [rewrite say_then; by left|].
    destruct (find_ai contacts who) as [target|] eqn:Et;
      [|rewrite say_then; by left].
    finish_run. right. left. to_prop. exists (drop 5 line), who, name, size, digest.
    split_and!; try done.
  - destruct (starts_with (str "STORE ") line) eqn:Es; [|by left].
    apply starts_with_drop in Es. unfold handle_store.
    destruct (bool_decide (role sender = CONTACT_AI)) eqn:Er; cbn [negb];
      [|rewrite say_then; by left].
    destruct (scan_file_header (drop 6 line)) as [[[[who name] size] digest]|] eqn:Eh;
      [|rewrite say_then; by left].
    destruct (Z.ltb_spec (max_file_bytes config) size);
      [rewrite say_then; by left|].
    finish_run. right. right. to_prop. exists (drop 6 line), who, name, size, digest.
    split_and!; done.
Qed.

End Files.
