(* ===== verification/CouncilService.v ===== *)
(** * council/src/council_service.c: the council daemon

    Module [Council]: the shared [council_service], every helper of the connection
    handler, the handler itself and the start-up of [main].  Module [Threads]: the
    handler as a thread among others, and the system of all threads.  The state of a handler is the
    service together with the world and its socket.  A contact is identified by
    its index in the book, as the code does with pointers into [contacts.items]. *)
From S2P Require Import Prelude CLib World Network ContactBook ServiceConfig Arbitration.
From S2P Require Import Transcript Conversation Protocol FileTransfer.

Open Scope Z_scope.

Module Council.

Definition CONVERSATION_LEASE_SECONDS : Z := 300.

Record council_service := Service {
  config : service_config;
  contacts : contact_book;
  arbitration : Arb.arbitration_state;
  online : list bool;
  last_seen : list Z;
  activity_until : Z;
  closure_id : Z;
  closure_active : bool;
  closure_expected : list bool;
  closure_votes : list Z;
  closure_proposer : bytes
}.

Definition set_arbitration (v : Arb.arbitration_state) (s : council_service) : council_service :=
  Service (config s) (contacts s) v (online s) (last_seen s) (activity_until s) (closure_id s)
    (closure_active s) (closure_expected s) (closure_votes s) (closure_proposer s).
Definition set_online (v : list bool) (s : council_service) : council_service :=
  Service (config s) (contacts s) (arbitration s) v (last_seen s) (activity_until s) (closure_id s)
    (closure_active s) (closure_expected s) (closure_votes s) (closure_proposer s).
Definition set_last_seen (v : list Z) (s : council_service) : council_service :=
  Service (config s) (contacts s) (arbitration s) (online s) v (activity_until s) (closure_id s)
    (closure_active s) (closure_expected s) (closure_votes s) (closure_proposer s).
Definition set_activity_until (v : Z) (s : council_service) : council_service :=
  Service (config s) (contacts s) (arbitration s) (online s) (last_seen s) v (closure_id s)
    (closure_active s) (closure_expected s) (closure_votes s) (closure_proposer s).
Definition set_closure (id : Z) (active : bool) (expected : list bool) (votes : list Z)
    (proposer : bytes) (s : council_service) : council_service :=
  Service (config s) (contacts s) (arbitration s) (online s) (last_seen s) (activity_until s) id
    active expected votes proposer.
Definition set_closure_active (v : bool) (s : council_service) : council_service :=
  set_closure (closure_id s) v (closure_expected s) (closure_votes s) (closure_proposer s) s.
Definition set_closure_votes (v : list Z) (s : council_service) : council_service :=
  set_closure (closure_id s) (closure_active s) (closure_expected s) v (closure_proposer s) s.

(** ** The handler's monad *)

(** A thread of the daemon without a socket, and a connection handler. *)
Abbreviation node := (council_service * world)%type.
Abbreviation handler := (council_service * io)%type.

(** Run a computation that does not use the socket inside a handler. *)
Definition on_node {A} (m : st node A) : st handler A := fun h =>
  let '(s, (w, k)) := h in let '(a, (s, w)) := m (s, w) in (a, (s, (w, k))).

Definition on_sock {A} (m : st socket A) : st handler A := on_snd (on_snd m).

Definition send_text (text : bytes) : st handler unit := on_sock (network_send text) ;; mret tt.
Definition reply (text : string) : st handler unit := send_text (str text ++ [NL]).

Definition svc {A} (f : council_service -> A) : st node A := gets (fun n => f n.1).
Definition update (f : council_service -> council_service) : st node unit := on_fst (modify f).

Definition contact_at (s : council_service) (i : nat) : contact :=
  default Book.zero_contact (contacts s !! i).

(** [transcript_append] with the result ignored. *)
Definition log_event (path speaker event message : bytes) : st node unit :=
  on_snd (Log.transcript_append path speaker event message) ;; mret tt.

(** ** Presence and the conversation lease *)

Definition mark_seen (i : nat) : st node unit :=
  update (fun s => set_online (<[i := true]> (online s)) s) ;;
  now ← on_snd time;
  update (fun s => set_last_seen (<[i := now]> (last_seen s)) s).

Definition activity_log (s : council_service) : bytes :=
  if is_hub (config s) then transcript_path (config s) else inbox_path (config s).

Definition mark_activity : st node unit :=
  now ← on_snd time;
  update (set_activity_until (now + CONVERSATION_LEASE_SECONDS)) ;;
  path ← svc (fun s => activity_path (config s));
  on_snd (Activity.conversation_activity_mark path) ;;
  mret tt.

(** [conversation_activity_remaining] with the service's paths. *)
Definition file_remaining : st node Z :=
  s ← svc id;
  on_snd (Activity.conversation_activity_remaining (activity_path (config s)) (activity_log s)
            CONVERSATION_LEASE_SECONDS).

(** [if(s->activity_until>now&&s->activity_until-now>remaining)
     remaining=(int)(s->activity_until-now);] *)
Definition lease_remaining (until now remaining : Z) : Z :=
  if (now <? until) && (remaining <? until - now) then to_signed 32 (until - now) else remaining.

Definition busy_remaining : st node Z :=
  remaining ← file_remaining;
  now ← on_snd time;
  until ← svc activity_until;
  mret (lease_remaining until now remaining).

(** The critical section of [reserve_initiation]; [now] was read before it. *)
Definition reserve_locked (now : Z) : st node Z :=
  remaining ← file_remaining;
  until ← svc activity_until;
  let remaining := lease_remaining until now remaining in
  if remaining =? 0 then
    update (set_activity_until (now + CONVERSATION_LEASE_SECONDS)) ;;
    path ← svc (fun s => activity_path (config s));
    on_snd (Activity.conversation_activity_mark path) ;;
    mret remaining
  else mret remaining.

Definition reserve_initiation : st node Z := now ← on_snd time; reserve_locked now.

Definition release_initiation : st node unit :=
  update (set_activity_until 0) ;;
  path ← svc (fun s => activity_path (config s));
  on_snd (Activity.conversation_activity_clear path) ;;
  mret tt.

(** ** Delivery *)

(** The contact to connect to, with this node's own key. *)
Definition outbound_contact (s : council_service) (to : contact) : option contact :=
  i ← Book.contact_book_find (contacts s) (cfg_name (config s));
  self ← contacts s !! i;
  Some (Book.set_key (snprintf COUNCIL_KEY_LENGTH (shared_key self)) to).

Definition set_presence (i : nat) (v : bool) : st node unit :=
  update (fun s => set_online (<[i := v]> (online s)) s).

(** [true] is the return value 0; any reply counts. *)
Definition deliver (to : nat) (command : bytes) : st node bool :=
  s ← svc id;
  ok ← match outbound_contact s (contact_at s to) with
       | None => mret false
       | Some authenticated =>
           r ← on_snd (Proto.protocol_send_command authenticated (cfg_name (config s)) command 128);
           mret (bool_decide (is_Some r))
       end;
  set_presence to ok ;;
  mret ok.

Definition is_delimiter (c : byte) : bool := (c =? 44) || (c =? 58).

(** The [for] loop of [message_target]. *)
Fixpoint find_prefix (i : nat) (book : contact_book) (prefix message : bytes) : option nat :=
  match book with
  | [] => None
  | candidate :: book' =>
      if (length (name candidate) =? length prefix)%nat && starts_with (name candidate) message
      then Some i
      else find_prefix (S i) book' prefix message
  end.

(** The target, and [*addressed]. *)
Definition message_target (s : council_service) (message : bytes) : option nat * bool :=
  match strpbrk message is_delimiter with
  | None => (None, false)
  | Some _ =>
      let prefix := cut_at is_delimiter message in
      if bool_decide (SP ∈ prefix) then (None, false)
      else match find_prefix 0 (contacts s) prefix message with
           | Some i => (Some i, true)
           | None => (None, false)
           end
  end.

(** The return values 0, -1, -2 and -3 of [relay_message]. *)
Inductive routed := Routed | Offline | TargetUnknown | TargetSelf.

Definition deliver_command (from : contact) (message : bytes) : bytes :=
  let limit := (Proto.COUNCIL_MESSAGE_LENGTH - length (name from) - 10)%nat in
  snprintf Proto.COUNCIL_MESSAGE_LENGTH (str "DELIVER " ++ name from ++ [SP] ++ take limit message).

(** [destination->role!=CONTACT_AI||destination==from||(target&&destination!=target)]. *)
Definition skips (s : council_service) (from : nat) (target : option nat) (i : nat) : bool :=
  negb (bool_decide (role (contact_at s i) = CONTACT_AI)) || (i =? from)%nat
  || match target with Some t => negb (i =? t)%nat | None => false end.

(** The delivery loop over the indices still to do, with [next]. *)
Fixpoint relay_loop (todo : list nat) (from : nat) (target : option nat) (message : bytes)
    (next : option nat) : st node (option nat) :=
  match todo with
  | [] => mret next
  | i :: todo' =>
      s ← svc id;
      if skips s from target i then relay_loop todo' from target message next
      else
        ok ← deliver i (deliver_command (contact_at s from) message);
        relay_loop todo' from target message
          (match target with Some t => if ok : bool then Some t else next | None => next end)
  end.

(** [arbitration_next] on the service's state. *)
Definition next_speaker (previous : bytes) : st node (option nat) :=
  s ← svc id;
  let '(i, a) := Arb.arbitration_next (contacts s) previous (online s) (arbitration s) in
  update (set_arbitration a) ;; mret i.

Definition grant_floor (n : bytes) : st node unit :=
  update (fun s => set_arbitration (Arb.arbitration_grant n (arbitration s)) s).

(** The end of [relay_message]: tell the next speaker and log the grant. *)
Definition announce (s : council_service) (from : nat) (next : option nat) : st node routed :=
  match next with
  | None => mret Offline
  | Some n =>
      (if bool_decide (role (contact_at s n) = CONTACT_AI)
       then deliver n (snprintf Proto.COUNCIL_MESSAGE_LENGTH
                         (str "SPEAK " ++ name (contact_at s from))) ;; mret tt
       else mret tt) ;;
      log_event (transcript_path (config s)) (cfg_name (config s)) (str "grant") (name (contact_at s n)) ;;
      mret Routed
  end.

Definition relay_message (from : nat) (message : bytes) : st node routed :=
  s ← svc id;
  let '(target, addressed) := message_target s message in
  if addressed && negb (bool_decide (is_Some target)) then mret TargetUnknown
  else if bool_decide (target = Some from) then mret TargetSelf
  else
    let next := match target with
                | Some t => if bool_decide (role (contact_at s t) = CONTACT_HUMAN) && nth t (online s) false
                            then Some t else None
                | None => None
                end in
    next ← relay_loop (seq 0 (length (contacts s))) from target message next;
    next ← match target, next with
           | None, _ => next_speaker (name (contact_at s from))
           | Some _, Some n => grant_floor (name (contact_at s n)) ;; mret next
           | Some _, None => mret None
           end;
    announce s from next.

(** ** Status, events and context *)

(** The presence of contact [i], as [send_status] determines it. *)
Definition check_presence (now : Z) (i : nat) : st node bool :=
  s ← svc id;
  let p := contact_at s i in
  if bool_decide (role p = CONTACT_AI) then
    match outbound_contact s p with
    | None => mret false
    | Some authenticated => on_snd (Proto.presence_check authenticated (cfg_name (config s)))
    end
  else
    let seen := nth i (last_seen s) 0 in
    mret (negb (seen =? 0) && (now - seen <=? presence_seconds (config s))).

Definition status_line (now : Z) (i : nat) : st handler unit :=
  on ← on_node (check_presence now i);
  on_node (set_presence i on) ;;
  s ← on_node (svc id);
  send_text (snprintf 256 (str "PRESENCE " ++ name (contact_at s i) ++ [SP]
                             ++ (if on : bool then str "online" else str "offline") ++ [NL])).

Definition send_status : st handler unit :=
  now ← on_node (on_snd time);
  s ← on_node (svc id);
  for_each (status_line now) (seq 0 (length (contacts s))) ;;
  reply "END" ;;
  s ← on_node (svc id);
  match Arb.current_speaker (arbitration s) with
  | [] => mret tt
  | current =>
      let holds := match Book.contact_book_find (contacts s) current with
                   | Some h => nth h (online s) false
                   | None => false
                   end in
      if holds : bool then mret tt
      else
        next ← on_node (next_speaker current);
        match next with
        | None => mret tt
        | Some n =>
            (if bool_decide (role (contact_at s n) = CONTACT_AI)
             then on_node (deliver n (snprintf 128 (str "SPEAK offline:" ++ current))) ;; mret tt
             else mret tt) ;;
            on_node (log_event (transcript_path (config s)) (cfg_name (config s)) (str "offline-grant")
                       (snprintf 256 (current ++ str " -> " ++ name (contact_at s n))))
        end
  end.

Definition send_events (offset : Z) : st handler unit :=
  s ← on_node (svc id);
  if negb (is_hub (config s)) then reply "ERROR NOT_ARBITER"
  else
    next ← on_snd (Log.transcript_stream_since (transcript_path (config s)) offset);
    match next with
    | None => reply "ERROR TRANSCRIPT"
    | Some next =>
        let speaker := Arb.current_speaker (arbitration s) in
        send_text (snprintf 256 (str "CURSOR " ++ print_int next ++ [NL])) ;;
        send_text (snprintf 256 (str "TURN " ++ (match speaker with [] => str "none" | _ => speaker end) ++ [NL])) ;;
        send_text (snprintf 256 (str "CLOSURE " ++ (if closure_active s then str "open" else str "none") ++ [SP]
                     ++ print_nat (closure_id s) ++ [SP]
                     ++ (if closure_active s then closure_proposer s else str "none") ++ [NL])) ;;
        reply "END"
    end.

Definition send_context (person : nat) : st handler unit :=
  s ← on_node (svc id);
  if negb (is_hub (config s)) then reply "ERROR NOT_ARBITER"
  else
    reply "CONTEXT_BEGIN" ;;
    ok ← on_snd (Log.transcript_stream_context (transcript_path (config s)) (name (contact_at s person)));
    if ok : bool then reply "CONTEXT_END" else reply "ERROR TRANSCRIPT".

(** ** Ending a conversation *)

Definition closure_complete (s : council_service) : bool :=
  forallb (fun i => negb (nth i (closure_expected s) false && negb (nth i (closure_votes s) 0 =? 1)))
          (seq 0 (length (contacts s))).

Definition closure_finish : st node unit :=
  s ← svc id;
  log_event (transcript_path (config s)) (cfg_name (config s)) (str "conversation-end")
    (snprintf 128 (str "proposal=" ++ print_nat (closure_id s) ++ str " unanimous")) ;;
  update (fun s => set_arbitration (Arb.arbitration_grant [] (arbitration s)) (set_closure_active false s)) ;;
  release_initiation.

(** Whether contact [i] takes part in a vote opened at [now]. *)
Definition expected_voter (s : council_service) (now : Z) (i : nat) : bool :=
  if bool_decide (role (contact_at s i) = CONTACT_AI) then nth i (online s) false
  else let seen := nth i (last_seen s) 0 in
       negb (seen =? 0) && (now - seen <=? presence_seconds (config s)).

(** The arrays after the [memset]s and the loop of [closure_propose]. *)
Definition ballot (s : council_service) (now : Z) : list bool :=
  map (fun i => (i <? length (contacts s))%nat && expected_voter s now i) (seq 0 COUNCIL_MAX_CONTACTS).
Definition first_votes (s : council_service) (now : Z) (proposer : nat) : list Z :=
  map (fun i => if (i <? length (contacts s))%nat && expected_voter s now i && (i =? proposer)%nat
                then 1 else 0) (seq 0 COUNCIL_MAX_CONTACTS).

(** The critical section of [closure_propose]; [false] when a vote is open. *)
Definition open_closure (now : Z) (person : nat) : st node bool :=
  s ← svc id;
  if closure_active s then mret false
  else update (set_closure (now mod 2 ^ 64) true (ballot s now) (first_votes s now person)
                 (snprintf COUNCIL_NAME_LENGTH (name (contact_at s person)))) ;; mret true.

Definition finish_if_complete : st node unit :=
  s ← svc id; if closure_complete s then closure_finish else mret tt.

Definition closure_propose (person : nat) (reason : bytes) (has_turn : bool) : st handler unit :=
  now ← on_node (on_snd time);
  s ← on_node (svc id);
  let p := contact_at s person in
  if negb (is_hub (config s)) || (arbiter_priority p <=? 0) then reply "ERROR ARBITER_ONLY"
  else if negb has_turn then reply "ERROR NOT_YOUR_TURN"
  else
    opened ← on_node (open_closure now person);
    if opened : bool then
      s ← on_node (svc id);
      let text := match reason with [] => str "conversation appears complete" | _ => reason end in
      on_node (log_event (transcript_path (config s)) (name p) (str "end-proposal")
        (snprintf Proto.COUNCIL_MESSAGE_LENGTH
           (str "proposal=" ++ print_nat (closure_id s) ++ str " reason="
              ++ take (Proto.COUNCIL_MESSAGE_LENGTH - 48) text))) ;;
      reply "ACCEPTED" ;;
      on_node finish_if_complete
    else reply "ERROR CLOSURE_ACTIVE".

(** [Some true] for a close vote, [Some false] for continue with a reason. *)
Definition parse_vote (vote : bytes) : option bool :=
  let c := peek (drop 5 vote) in
  if starts_with (str "close") vote && ((c =? 0) || (c =? SP)) then Some true
  else if starts_with (str "continue ") vote && negb (peek (drop 9 vote) =? 0) then Some false
  else None.

(** [reason=strchr(vote,' '); reason=reason?reason+1:"no further matters"]. *)
Definition vote_reason (vote : bytes) : bytes :=
  match strchr vote SP with Some r => drop 1 r | None => str "no further matters" end.

(** The critical section of [closure_vote]: the proposal's number, if the vote
    counts. *)
Definition cast_vote (person : nat) (close : bool) : st node (option Z) :=
  s ← svc id;
  if negb (closure_active s) || negb (nth person (closure_expected s) false) then mret None
  else update (set_closure_votes (<[person := if close then 1 else -1]> (closure_votes s))) ;;
       mret (Some (closure_id s)).

Definition closure_cancel (person : nat) : st node unit :=
  s ← svc id;
  let n := name (contact_at s person) in
  update (fun s => set_arbitration (Arb.arbitration_grant n (arbitration s)) (set_closure_active false s)) ;;
  log_event (transcript_path (config s)) (cfg_name (config s)) (str "end-cancelled") n ;;
  log_event (transcript_path (config s)) (cfg_name (config s)) (str "grant") n ;;
  mark_activity.

Definition closure_vote (person : nat) (vote : bytes) : st handler unit :=
  match parse_vote vote with
  | None => reply "ERROR VOTE_USE_CLOSE_OR_CONTINUE_WITH_REASON"
  | Some close =>
      counted ← on_node (cast_vote person close);
      match counted with
      | None => reply "ERROR NO_CLOSURE_VOTE"
      | Some id_ =>
          s ← on_node (svc id);
          on_node (log_event (transcript_path (config s)) (name (contact_at s person)) (str "end-vote")
            (snprintf Proto.COUNCIL_MESSAGE_LENGTH
               (str "proposal=" ++ print_nat id_ ++ str " vote="
                  ++ (if close : bool then str "close" else str "continue")
                  ++ str " reason=" ++ take (Proto.COUNCIL_MESSAGE_LENGTH - 80) (vote_reason vote)))) ;;
          reply "ACCEPTED" ;;
          on_node (if close then finish_if_complete else closure_cancel person)
      end
  end.

(** ** Messages and the connection handler *)

Definition accept_message (person : nat) (message event : bytes) (reserved : bool) : st handler unit :=
  r ← on_node (relay_message person message);
  match r with
  | TargetUnknown => on_node (when reserved release_initiation) ;; reply "ERROR TARGET_UNKNOWN"
  | TargetSelf => on_node (when reserved release_initiation) ;; reply "ERROR TARGET_SELF"
  | Offline => on_node (when reserved release_initiation) ;; reply "ERROR TARGET_OFFLINE"
  | Routed =>
      s ← on_node (svc id);
      on_node (log_event (transcript_path (config s)) (name (contact_at s person)) event message) ;;
      on_node mark_activity ;;
      reply "ACCEPTED"
  end.

Definition busy_reply (remaining : Z) : bytes := snprintf 64 (str "BUSY " ++ print_int remaining ++ [NL]).

(** The command of an authenticated peer. *)
Definition dispatch (person : nat) (line : bytes) (has_turn : bool) : st handler unit :=
  s ← on_node (svc id);
  let p := contact_at s person in
  if bytes_eqb line (str "PING") then reply "PONG"
  else if bytes_eqb line (str "BUSY") then
    remaining ← on_node busy_remaining;
    if remaining =? 0 then reply "IDLE" else send_text (busy_reply remaining)
  else if bytes_eqb line (str "STATUS") then send_status
  else if starts_with (str "EVENTS ") line then send_events (value_or_0 (strtol (drop 7 line)))
  else if bytes_eqb line (str "CONTEXT") then send_context person
  else if starts_with (str "END_PROPOSE ") line then closure_propose person (drop 12 line) has_turn
  else if starts_with (str "END_VOTE ") line then closure_vote person (drop 9 line)
  else if starts_with (str "INITIATE ") line then
    remaining ← on_node reserve_initiation;
    if remaining =? 0 then accept_message person (drop 9 line) (str "initiate") true
    else send_text (busy_reply remaining)
  else if starts_with (str "SAY ") line then
    if negb has_turn then reply "ERROR NOT_YOUR_TURN"
    else accept_message person (drop 4 line) (str "message") false
  else if starts_with (str "DELIVER ") line then
    on_node (log_event (inbox_path (config s)) (name p) (str "message") (drop 8 line)) ;;
    on_node mark_activity ;;
    reply "ACCEPTED"
  else if starts_with (str "SPEAK ") line then
    on_node (log_event (inbox_path (config s)) (name p) (str "speak") (drop 6 line)) ;;
    reply "ACCEPTED"
  else if starts_with (str "GRANT ") line && is_hub (config s) then
    on_node (grant_floor (drop 6 line)) ;;
    on_node (log_event (transcript_path (config s)) (name p) (str "grant") (drop 6 line)) ;;
    reply "ACCEPTED"
  else reply "ERROR COMMAND".

Definition handle_connection (uninit : bytes) (listener_role : contact_role) : st handler unit :=
  s ← on_node (svc id);
  person ← on_snd (Proto.protocol_accept_identity uninit (contacts s) listener_role);
  match person with
  | None => mret tt
  | Some person =>
      on_node (mark_seen person) ;;
      line ← on_sock (network_read_line Proto.COUNCIL_MESSAGE_LENGTH);
      match line with
      | None => mret tt
      | Some line =>
          s ← on_node (svc id);
          let p := contact_at s person in
          let has_turn := Arb.arbitration_can_speak (arbitration s) (name p) in
          handled ← on_snd (Files.file_command_handle line p (config s) (contacts s) has_turn);
          if handled : bool then mret tt else dispatch person line has_turn
      end
  end.

(** ** Start-up *)

(** The zero-initialised static [service] with its configuration. *)
Definition fresh_service (c : service_config) (b : contact_book) : council_service :=
  Service c b Arb.arbitration_init (replicate COUNCIL_MAX_CONTACTS false)
    (replicate COUNCIL_MAX_CONTACTS 0) 0 0 false (replicate COUNCIL_MAX_CONTACTS false)
    (replicate COUNCIL_MAX_CONTACTS 0) [].

(** [main] up to the listeners; [None] is the exit with status 2. *)
Definition start (config_path : bytes) : st world (option council_service) :=
  c ← Config.service_config_load config_path;
  match c with
  | inl _ => mret None
  | inr c =>
      b ← Book.contact_book_load (contacts_path c);
      match b with
      | inl _ => mret None
      | inr b =>
          Memory.conversation_summary_rebuild (if is_hub c then transcript_path c else inbox_path c)
            (summary_path c) ;;
          if is_hub c then
            restored ← Log.transcript_last_speaker (transcript_path c) COUNCIL_NAME_LENGTH;
            match restored with
            | [] => Activity.conversation_activity_clear (activity_path c) ;;
                    mret (Some (fresh_service c b))
            | n => mret (Some (set_arbitration (Arb.arbitration_grant n Arb.arbitration_init) (fresh_service c b)))
            end
          else mret (Some (fresh_service c b))
      end
  end.

End Council.

(** ** The daemon's threads

    Every connection is served by a thread of its own ([connection_thread]),
    and the threads share the service.  Here the handler is written once more
    as the sequence of what it does between two points where another thread may
    run; [Council.handle_connection] is what it does undisturbed. *)
Module Threads.
Import Council.

(** The rest of a thread's program.  A [Step] happens at once: a critical
    section from [LOCK] to [UNLOCK], one access to the service outside any, or
    calls that do not touch the service.  [At i] stands before the accesses to
    element [i] of the service's arrays: with [i] outside them the thread has no
    defined continuation. *)
Inductive prog (A : Type) : Type :=
| Ret (a : A)
| At (i : nat) (p : prog A)
| Step (X : Type) (m : st handler X) (k : X -> prog A).
Arguments Ret {A} a.
Arguments At {A} i p.
Arguments Step {A X} m k.

Fixpoint and_then {A B} (f : A -> prog B) (p : prog A) : prog B :=
  match p with
  | Ret a => f a
  | At i p => At i (and_then f p)
  | Step m k => Step m (fun x => and_then f (k x))
  end.

#[global] Instance prog_ret : MRet prog := fun A a => Ret a.
#[global] Instance prog_bind : MBind prog := fun A B f p => and_then f p.

(** A critical section. *)
Definition critical {A} (m : st node A) : prog A := Step (on_node m) Ret.
(** One read of the service without the lock. *)
Definition read {A} (f : council_service -> A) : prog A := Step (on_node (svc f)) Ret.
(** Calls that only use the world and the thread's socket. *)
Definition calls {A} (m : st io A) : prog A := Step (on_snd m) Ret.
(** Access to element [i] of the arrays. *)
Definition access (i : nat) : prog unit := At i (Ret tt).

Definition say (text : bytes) : prog unit := Step (send_text text) Ret.
Definition reply_line (text : string) : prog unit := say (str text ++ [NL]).
Definition clock : prog Z := calls (on_fst time).
Definition log (path speaker event message : bytes) : prog unit :=
  calls (on_fst (Log.transcript_append path speaker event message)) ;; mret tt.

Fixpoint each {A} (f : A -> prog unit) (l : list A) : prog unit :=
  match l with
  | [] => mret tt
  | x :: l' => f x ;; each f l'
  end.

(** The elements a loop over the contacts accesses. *)
Definition at_contacts (s : council_service) : prog unit := each access (seq 0 (length (contacts s))).

Definition mark_seen_thread (i : nat) : prog unit := access i ;; critical (mark_seen i).

(** The critical section of [mark_activity]. *)
Definition extend_lease : st node unit :=
  now ← on_snd time; update (set_activity_until (now + CONVERSATION_LEASE_SECONDS)).

Definition mark_activity_thread : prog unit :=
  critical extend_lease ;;
  path ← read (fun s => activity_path (config s));
  calls (on_fst (Activity.conversation_activity_mark path)) ;;
  mret tt.

Definition busy_remaining_thread : prog Z :=
  s ← read id;
  remaining ← calls (on_fst (Activity.conversation_activity_remaining (activity_path (config s))
                               (activity_log s) CONVERSATION_LEASE_SECONDS));
  now ← clock;
  critical (svc (fun s => lease_remaining (activity_until s) now remaining)).

Definition reserve_thread : prog Z := now ← clock; critical (reserve_locked now).

Definition deliver_thread (to : nat) (command : bytes) : prog bool :=
  s ← read id;
  ok ← match outbound_contact s (contact_at s to) with
       | None => mret false
       | Some authenticated =>
           r ← calls (on_fst (Proto.protocol_send_command authenticated (cfg_name (config s)) command 128));
           mret (bool_decide (is_Some r))
       end;
  access to ;;
  critical (set_presence to ok) ;;
  mret ok.

Fixpoint relay_loop_thread (todo : list nat) (from : nat) (target : option nat) (message : bytes)
    (next : option nat) : prog (option nat) :=
  match todo with
  | [] => mret next
  | i :: todo' =>
      s ← read id;
      if skips s from target i then relay_loop_thread todo' from target message next
      else
        ok ← deliver_thread i (deliver_command (contact_at s from) message);
        relay_loop_thread todo' from target message
          (match target with Some t => if ok : bool then Some t else next | None => next end)
  end.

Definition announce_thread (s : council_service) (from : nat) (next : option nat) : prog routed :=
  match next with
  | None => mret Offline
  | Some n =>
      (if bool_decide (role (contact_at s n) = CONTACT_AI)
       then deliver_thread n (snprintf Proto.COUNCIL_MESSAGE_LENGTH
                                (str "SPEAK " ++ name (contact_at s from))) ;; mret tt
       else mret tt) ;;
      log (transcript_path (config s)) (cfg_name (config s)) (str "grant") (name (contact_at s n)) ;;
      mret Routed
  end.

Definition relay_thread (from : nat) (message : bytes) : prog routed :=
  s ← read id;
  let '(target, addressed) := message_target s message in
  if addressed && negb (bool_decide (is_Some target)) then mret TargetUnknown
  else if bool_decide (target = Some from) then mret TargetSelf
  else
    next ← match target with
           | Some t =>
               if bool_decide (role (contact_at s t) = CONTACT_HUMAN)
               then access t ;; critical (svc (fun s => if nth t (online s) false then Some t else None))
               else mret None
           | None => mret None
           end;
    next ← relay_loop_thread (seq 0 (length (contacts s))) from target message next;
    next ← match target, next with
           | None, _ => at_contacts s ;; critical (next_speaker (name (contact_at s from)))
           | Some _, Some n => critical (grant_floor (name (contact_at s n))) ;; mret next
           | Some _, None => mret None
           end;
    announce_thread s from next.

(** [s->last_seen[i]&&now-s->last_seen[i]<=...]: two reads. *)
Definition check_presence_thread (now : Z) (i : nat) : prog bool :=
  s ← read id;
  let p := contact_at s i in
  if bool_decide (role p = CONTACT_AI) then
    match outbound_contact s p with
    | None => mret false
    | Some authenticated => calls (on_fst (Proto.presence_check authenticated (cfg_name (config s))))
    end
  else
    access i ;;
    seen ← read (fun s => nth i (last_seen s) 0);
    if seen =? 0 then mret false
    else
      seen ← read (fun s => nth i (last_seen s) 0);
      mret (now - seen <=? presence_seconds (config s)).

Definition status_line_thread (now : Z) (i : nat) : prog unit :=
  on ← check_presence_thread now i;
  access i ;;
  critical (set_presence i on) ;;
  s ← read id;
  say (snprintf 256 (str "PRESENCE " ++ name (contact_at s i) ++ [SP]
                       ++ (if on : bool then str "online" else str "offline") ++ [NL])).

Definition status_thread : prog unit :=
  now ← clock;
  s ← read id;
  each (status_line_thread now) (seq 0 (length (contacts s))) ;;
  reply_line "END" ;;
  current ← critical (svc (fun s => Arb.current_speaker (arbitration s)));
  s ← read id;
  match current with
  | [] => mret tt
  | _ =>
      holds ← match Book.contact_book_find (contacts s) current with
              | Some h => access h ;; read (fun s => nth h (online s) false)
              | None => mret false
              end;
      if holds : bool then mret tt
      else
        at_contacts s ;;
        next ← critical (next_speaker current);
        match next with
        | None => mret tt
        | Some n =>
            (if bool_decide (role (contact_at s n) = CONTACT_AI)
             then deliver_thread n (snprintf 128 (str "SPEAK offline:" ++ current)) ;; mret tt
             else mret tt) ;;
            log (transcript_path (config s)) (cfg_name (config s)) (str "offline-grant")
              (snprintf 256 (current ++ str " -> " ++ name (contact_at s n)))
        end
  end.

Definition events_thread (offset : Z) : prog unit :=
  s ← read id;
  if negb (is_hub (config s)) then reply_line "ERROR NOT_ARBITER"
  else
    next ← calls (Log.transcript_stream_since (transcript_path (config s)) offset);
    match next with
    | None => reply_line "ERROR TRANSCRIPT"
    | Some next =>
        s ← critical (svc id);
        let speaker := Arb.current_speaker (arbitration s) in
        say (snprintf 256 (str "CURSOR " ++ print_int next ++ [NL])) ;;
        say (snprintf 256 (str "TURN " ++ (match speaker with [] => str "none" | _ => speaker end) ++ [NL])) ;;
        say (snprintf 256 (str "CLOSURE " ++ (if closure_active s then str "open" else str "none") ++ [SP]
               ++ print_nat (closure_id s) ++ [SP]
               ++ (if closure_active s then closure_proposer s else str "none") ++ [NL])) ;;
        reply_line "END"
    end.

Definition context_thread (person : nat) : prog unit :=
  s ← read id;
  if negb (is_hub (config s)) then reply_line "ERROR NOT_ARBITER"
  else
    reply_line "CONTEXT_BEGIN" ;;
    ok ← calls (Log.transcript_stream_context (transcript_path (config s)) (name (contact_at s person)));
    if ok : bool then reply_line "CONTEXT_END" else reply_line "ERROR TRANSCRIPT".

(** [closure_complete], which runs without the lock: every element is read on
    its own. *)
Fixpoint complete_loop (todo : list nat) : prog bool :=
  match todo with
  | [] => mret true
  | i :: todo' =>
      access i ;;
      expected ← read (fun s => nth i (closure_expected s) false);
      if expected : bool then
        vote ← read (fun s => nth i (closure_votes s) 0);
        if vote =? 1 then complete_loop todo' else mret false
      else complete_loop todo'
  end.

Definition complete_thread : prog bool :=
  s ← read id; complete_loop (seq 0 (length (contacts s))).

(** The critical section of [closure_finish]. *)
Definition end_closure : st node unit :=
  update (fun s => set_arbitration (Arb.arbitration_grant [] (arbitration s)) (set_closure_active false s)).

Definition finish_thread : prog unit :=
  s ← read id;
  log (transcript_path (config s)) (cfg_name (config s)) (str "conversation-end")
    (snprintf 128 (str "proposal=" ++ print_nat (closure_id s) ++ str " unanimous")) ;;
  critical end_closure ;;
  critical release_initiation.

Definition finish_if_complete_thread : prog unit :=
  complete ← complete_thread; if complete : bool then finish_thread else mret tt.

Definition propose_thread (person : nat) (reason : bytes) (has_turn : bool) : prog unit :=
  now ← clock;
  s ← read id;
  let p := contact_at s person in
  if negb (is_hub (config s)) || (arbiter_priority p <=? 0) then reply_line "ERROR ARBITER_ONLY"
  else if negb has_turn then reply_line "ERROR NOT_YOUR_TURN"
  else
    at_contacts s ;;
    opened ← critical (open_closure now person);
    if opened : bool then
      s ← read id;
      let text := match reason with [] => str "conversation appears complete" | _ => reason end in
      log (transcript_path (config s)) (name p) (str "end-proposal")
        (snprintf Proto.COUNCIL_MESSAGE_LENGTH
           (str "proposal=" ++ print_nat (closure_id s) ++ str " reason="
              ++ take (Proto.COUNCIL_MESSAGE_LENGTH - 48) text)) ;;
      reply_line "ACCEPTED" ;;
      finish_if_complete_thread
    else reply_line "ERROR CLOSURE_ACTIVE".

(** The critical section of [closure_vote] for a veto. *)
Definition end_with_floor (n : bytes) : st node unit :=
  update (fun s => set_arbitration (Arb.arbitration_grant n (arbitration s)) (set_closure_active false s)).

Definition cancel_thread (person : nat) : prog unit :=
  s ← read id;
  let n := name (contact_at s person) in
  critical (end_with_floor n) ;;
  log (transcript_path (config s)) (cfg_name (config s)) (str "end-cancelled") n ;;
  log (transcript_path (config s)) (cfg_name (config s)) (str "grant") n ;;
  mark_activity_thread.

Definition vote_thread (person : nat) (vote : bytes) : prog unit :=
  match parse_vote vote with
  | None => reply_line "ERROR VOTE_USE_CLOSE_OR_CONTINUE_WITH_REASON"
  | Some close =>
      access person ;;
      counted ← critical (cast_vote person close);
      match counted with
      | None => reply_line "ERROR NO_CLOSURE_VOTE"
      | Some id_ =>
          s ← read id;
          log (transcript_path (config s)) (name (contact_at s person)) (str "end-vote")
            (snprintf Proto.COUNCIL_MESSAGE_LENGTH
               (str "proposal=" ++ print_nat id_ ++ str " vote="
                  ++ (if close : bool then str "close" else str "continue")
                  ++ str " reason=" ++ take (Proto.COUNCIL_MESSAGE_LENGTH - 80) (vote_reason vote))) ;;
          reply_line "ACCEPTED" ;;
          (if close then finish_if_complete_thread else cancel_thread person)
      end
  end.

Definition release_if (reserved : bool) : prog unit :=
  if reserved then critical release_initiation else mret tt.

Definition accept_thread (person : nat) (message event : bytes) (reserved : bool) : prog unit :=
  r ← relay_thread person message;
  match r with
  | TargetUnknown => release_if reserved ;; reply_line "ERROR TARGET_UNKNOWN"
  | TargetSelf => release_if reserved ;; reply_line "ERROR TARGET_SELF"
  | Offline => release_if reserved ;; reply_line "ERROR TARGET_OFFLINE"
  | Routed =>
      s ← read id;
      log (transcript_path (config s)) (name (contact_at s person)) event message ;;
      mark_activity_thread ;;
      reply_line "ACCEPTED"
  end.

Definition dispatch_thread (person : nat) (line : bytes) (has_turn : bool) : prog unit :=
  s ← read id;
  let p := contact_at s person in
  if bytes_eqb line (str "PING") then reply_line "PONG"
  else if bytes_eqb line (str "BUSY") then
    remaining ← busy_remaining_thread;
    if remaining =? 0 then reply_line "IDLE" else say (busy_reply remaining)
  else if bytes_eqb line (str "STATUS") then status_thread
  else if starts_with (str "EVENTS ") line then events_thread (value_or_0 (strtol (drop 7 line)))
  else if bytes_eqb line (str "CONTEXT") then context_thread person
  else if starts_with (str "END_PROPOSE ") line then propose_thread person (drop 12 line) has_turn
  else if starts_with (str "END_VOTE ") line then vote_thread person (drop 9 line)
  else if starts_with (str "INITIATE ") line then
    remaining ← reserve_thread;
    if remaining =? 0 then accept_thread person (drop 9 line) (str "initiate") true
    else say (busy_reply remaining)
  else if starts_with (str "SAY ") line then
    if negb has_turn then reply_line "ERROR NOT_YOUR_TURN"
    else accept_thread person (drop 4 line) (str "message") false
  else if starts_with (str "DELIVER ") line then
    log (inbox_path (config s)) (name p) (str "message") (drop 8 line) ;;
    mark_activity_thread ;;
    reply_line "ACCEPTED"
  else if starts_with (str "SPEAK ") line then
    log (inbox_path (config s)) (name p) (str "speak") (drop 6 line) ;;
    reply_line "ACCEPTED"
  else if starts_with (str "GRANT ") line && is_hub (config s) then
    critical (grant_floor (drop 6 line)) ;;
    log (transcript_path (config s)) (name p) (str "grant") (drop 6 line) ;;
    reply_line "ACCEPTED"
  else reply_line "ERROR COMMAND".

Definition connection_thread (uninit : bytes) (listener_role : contact_role) : prog unit :=
  s ← read id;
  person ← calls (Proto.protocol_accept_identity uninit (contacts s) listener_role);
  match person with
  | None => mret tt
  | Some person =>
      mark_seen_thread person ;;
      line ← calls (on_snd (network_read_line Proto.COUNCIL_MESSAGE_LENGTH));
      match line with
      | None => mret tt
      | Some line =>
          s ← read id;
          let p := contact_at s person in
          has_turn ← critical (svc (fun s => Arb.arbitration_can_speak (arbitration s) (name p)));
          handled ← calls (Files.file_command_handle line p (config s) (contacts s) has_turn);
          if handled : bool then mret tt else dispatch_thread person line has_turn
      end
  end.

(** ** The system *)

Record system := System {
  shared : council_service;
  outside : world;
  threads : list (socket * prog unit)
}.

(** One step of the daemon: a thread runs on, a listener accepts a connection,
    or the world around the daemon changes.  A thread before an access outside
    the arrays has no step. *)
Inductive step : system -> system -> Prop :=
| step_run s w ts n k X (m : st handler X) c x s' w' k' :
    ts !! n = Some (k, Step m c) -> m (s, (w, k)) = (x, (s', (w', k'))) ->
    step (System s w ts) (System s' w' (<[n := (k', c x)]> ts))
| step_index s w ts n k i p :
    ts !! n = Some (k, At i p) -> (i < COUNCIL_MAX_CONTACTS)%nat ->
    step (System s w ts) (System s w (<[n := (k, p)]> ts))
| step_accept s w ts k uninit role :
    step (System s w ts) (System s w (ts ++ [(k, connection_thread uninit role)]))
| step_world s w w' ts : step (System s w ts) (System s w' ts).

(** A thread about to access an element its array does not have. *)
Definition overruns (p : prog unit) : bool :=
  match p with At i _ => (COUNCIL_MAX_CONTACTS <=? i)%nat | _ => false end.

(** A thread alone, without anybody else's steps. *)
Fixpoint alone {A} (p : prog A) : st handler A :=
  match p with
  | Ret a => mret a
  | At _ p => alone p
  | Step m k => fun h => let '(x, h') := m h in alone (k x) h'
  end.

(** The next step of thread [n], executed. *)
Definition turn (n : nat) (y : system) : option system :=
  match threads y !! n with
  | Some (k, Step m c) =>
      let '(x, (s, (w, k))) := m (shared y, (outside y, k)) in
      Some (System s w (<[n := (k, c x)]> (threads y)))
  | Some (k, At i p) =>
      if decide (i < COUNCIL_MAX_CONTACTS)%nat
      then Some (System (shared y) (outside y) (<[n := (k, p)]> (threads y)))
      else None
  | _ => None
  end.

(** A schedule: the threads in the order in which they take their steps. *)
Fixpoint play (schedule : list nat) (y : system) : option system :=
  match schedule with
  | [] => Some y
  | n :: schedule' => turn n y ≫= play schedule'
  end.

End Threads.
