(* ===== verification/CouncilInvariants.v ===== *)
(** * Theorems about the council daemon

    The state invariant of the service under every interleaving of its threads,
    the sequential handler as a thread that runs alone, the exclusive
    lease of [INITIATE], the right to speak, where messages go, and the vote
    that ends a conversation as the refinement of an abstract one. *)
From S2P Require Import Prelude CLib World Network ContactBook ServiceConfig Arbitration.
From S2P Require Import Transcript Conversation Authentication Protocol FileTransfer CouncilService.

Open Scope Z_scope.

Module CouncilFacts.
Import Council.

(** ** The daemon's threads keep the service well formed *)

(** The arrays have their size and carry data of contacts only; a vote other
    than 0 is the consent or the veto of an expected voter; an open vote was
    opened at the hub by a contact with arbiter priority; names fit their
    buffers; the arbiter's index lies within the book; configuration and contacts
    are those that were loaded. *)
Record service_ok (c : service_config) (b : contact_book) (s : council_service) : Prop := {
  ok_config : config s = c;
  ok_contacts : contacts s = b;
  ok_sizes : length (online s) = COUNCIL_MAX_CONTACTS /\ length (last_seen s) = COUNCIL_MAX_CONTACTS
    /\ length (closure_expected s) = COUNCIL_MAX_CONTACTS
    /\ length (closure_votes s) = COUNCIL_MAX_CONTACTS;
  ok_online : forall i, nth i (online s) false = true -> (i < length b)%nat;
  ok_seen : forall i, nth i (last_seen s) 0 <> 0 -> (i < length b)%nat;
  ok_expected : forall i, nth i (closure_expected s) false = true -> (i < length b)%nat;
  ok_votes : forall i, let v := nth i (closure_votes s) 0 in
    v = 0 \/ ((v = 1 \/ v = -1) /\ nth i (closure_expected s) false = true);
  ok_open : closure_active s = true -> is_hub c = true
    /\ exists i p, b !! i = Some p /\ 0 < arbiter_priority p /\ closure_proposer s = name p;
  ok_id : 0 <= closure_id s < 2 ^ 64;
  ok_speaker : (length (Arb.current_speaker (arbitration s)) < COUNCIL_NAME_LENGTH)%nat;
  ok_proposer : (length (closure_proposer s) < COUNCIL_NAME_LENGTH)%nat;
  ok_index : (Arb.next_index (arbitration s) < Nat.max 1 (length b))%nat
}.

Lemma nth_insert {A} (l : list A) i j x d :
  (i < length l)%nat -> nth j (<[i := x]> l) d = if decide (i = j) then x else nth j l d.
Proof.
  intros Hi. rewrite !nth_lookup. case_decide as E.
  - subst. by rewrite list_lookup_insert_eq.
  - by rewrite list_lookup_insert_ne.
Qed.

Lemma nth_insert_cases {A} (l : list A) i j x d :
  nth j (<[i := x]> l) d = nth j l d \/ (j = i /\ nth j (<[i := x]> l) d = x).
Proof.
  destruct (decide (i < length l)%nat) as [Hi|Hi]; [|left; by rewrite list_insert_ge by lia].
  rewrite nth_insert by done. case_decide; [by right|by left].
Qed.

Lemma nth_map_seq {A} (f : nat -> A) n i d : (i < n)%nat -> nth i (map f (seq 0 n)) d = f i.
Proof.
  intros Hi. rewrite (nth_indep _ d (f 0%nat)) by (by rewrite length_map, length_seq).
  by rewrite map_nth, seq_nth.
Qed.

Lemma nth_map_seq_cases {A} (f : nat -> A) n i d :
  nth i (map f (seq 0 n)) d = d \/ ((i < n)%nat /\ nth i (map f (seq 0 n)) d = f i).
Proof.
  destruct (decide (i < n)%nat) as [Hi|Hi]; [right; split; [done|by apply nth_map_seq]|].
  left. apply nth_overflow. rewrite length_map, length_seq. lia.
Qed.

Lemma nth_replicate_same {A} i n (x : A) : nth i (replicate n x) x = x.
Proof. rewrite nth_lookup. destruct (replicate n x !! i) as [y|] eqn:E; [|done]. by apply lookup_replicate in E as [-> _]. Qed.

Lemma name_buffer t : (length (snprintf COUNCIL_NAME_LENGTH t) < COUNCIL_NAME_LENGTH)%nat.
Proof. unfold snprintf, COUNCIL_NAME_LENGTH. rewrite length_take. lia. Qed.

Section threads.
Context (c : service_config) (b : contact_book).
Abbreviation ok := (service_ok c b).

(** Every step of [p] keeps the service well formed whatever the other threads
    have made of it meanwhile, every access it makes is within the arrays, and
    its result satisfies [Q]. *)
Fixpoint wp {A} (p : Threads.prog A) (Q : A -> Prop) : Prop :=
  match p with
  | Threads.Ret a => Q a
  | Threads.At i p => (i < COUNCIL_MAX_CONTACTS)%nat /\ wp p Q
  | Threads.Step m k => forall s w sk, ok s ->
      ok (m (s, (w, sk))).2.1 /\ wp (k (m (s, (w, sk))).1) Q
  end.

Lemma wp_bind {A B} (p : Threads.prog A) (f : A -> Threads.prog B) Q :
  wp p (fun a => wp (f a) Q) -> wp (p ≫= f) Q.
Proof.
  unfold mbind, Threads.prog_bind. induction p as [a|i p IH|X m k IH]; cbn; [done|naive_solver|].
  intros H s w sk Hs. destruct (H s w sk Hs) as [H1 H2]. split; [done|]. by apply IH.
Qed.

Lemma wp_mono {A} (p : Threads.prog A) (Q R : A -> Prop) : wp p Q -> (forall a, Q a -> R a) -> wp p R.
Proof.
  intros H HQ. induction p as [a|i p IH|X m k IH]; cbn in *; [auto|naive_solver|].
  intros s w sk Hs. destruct (H s w sk Hs). auto.
Qed.

Lemma wp_ret {A} (a : A) (Q : A -> Prop) : Q a -> wp (mret a) Q.
Proof. done. Qed.

Lemma wp_then {A B} (p : Threads.prog A) (f : A -> Threads.prog B) (R : A -> Prop) Q :
  wp p R -> (forall a, R a -> wp (f a) Q) -> wp (p ≫= f) Q.
Proof. intros H Hf. by apply wp_bind, (wp_mono p R). Qed.

Lemma wp_calls {A} (m : st io A) (Q : A -> Prop) : (forall x, Q (m x).1) -> wp (Threads.calls m) Q.
Proof. intros H s w sk Hs. rewrite on_snd_run. by split; [|apply H]. Qed.

Lemma wp_say t (Q : unit -> Prop) : Q tt -> wp (Threads.say t) Q.
Proof. intros H s w sk Hs. unfold send_text, on_sock. by rewrite st_bind_run, !on_snd_run. Qed.

Lemma wp_critical {A} (m : st node A) (Q : A -> Prop) :
  (forall s w, ok s -> ok (m (s, w)).2.1 /\ Q (m (s, w)).1) -> wp (Threads.critical m) Q.
Proof.
  intros H s w sk Hs. unfold on_node. specialize (H s w Hs). by destruct (m (s, w)) as [a [s' w']].
Qed.

Lemma wp_read {A} (f : council_service -> A) (Q : A -> Prop) :
  (forall s, ok s -> Q (f s)) -> wp (Threads.read f) Q.
Proof. intros H. apply (wp_critical (svc f)). intros s w Hs. split; [done|]. by apply H. Qed.

Lemma wp_update f (Q : unit -> Prop) :
  (forall s, ok s -> ok (f s)) -> Q tt -> wp (Threads.critical (update f)) Q.
Proof.
  intros H HQ. apply wp_critical. intros s w Hs. unfold update. rewrite on_fst_run. by split; [apply H|].
Qed.

Lemma wp_each {A} (f : A -> Threads.prog unit) l (Q : unit -> Prop) :
  (forall x, x ∈ l -> wp (f x) (fun _ => True)) -> Q tt -> wp (Threads.each f l) Q.
Proof.
  intros Hf HQ. induction l as [|x l IH]; [done|]. cbn [Threads.each].
  eapply wp_then; [apply Hf; by left|]. intros _ _. apply IH. intros y Hy. apply Hf. by right.
Qed.

Lemma wp_log p sp e m (Q : unit -> Prop) : Q tt -> wp (Threads.log p sp e m) Q.
Proof. intros H. eapply wp_then; [by apply (wp_calls _ (fun _ => True))|done]. Qed.

Lemma wp_clock (Q : Z -> Prop) : (forall t, Q t) -> wp Threads.clock Q.
Proof. intros H. apply wp_calls. intros x. apply H. Qed.

(** Run the next read, call, answer or log entry of a thread. *)
Tactic Notation "wp_next" simple_intropattern(x) :=
  eapply wp_then;
    [first [by apply (wp_read _ (fun _ => True)) | by apply (wp_calls _ (fun _ => True))
           | by apply (wp_say _ (fun _ => True)) | by apply (wp_log _ _ _ _ (fun _ => True))
           | by apply (wp_clock (fun _ => True))]|];
    intros x _.

(** *** What the critical sections do to the service *)

Context (Hb : Book.wf_book b).

Lemma book_size : (length b <= COUNCIL_MAX_CONTACTS)%nat.
Proof. apply Hb. Qed.

Lemma at_contact i (Q : unit -> Prop) : (i < length b)%nat -> Q tt -> wp (Threads.access i) Q.
Proof. intros Hi HQ. split; [|done]. pose proof book_size. lia. Qed.

Lemma at_all_contacts s (Q : unit -> Prop) : contacts s = b -> Q tt -> wp (Threads.at_contacts s) Q.
Proof.
  intros Hs HQ. apply wp_each; [|done]. intros i Hi. rewrite Hs in Hi. apply elem_of_seq in Hi.
  apply at_contact; [lia|done].
Qed.

Lemma online_ok i v s : (i < length b)%nat -> ok s -> ok (set_online (<[i := v]> (online s)) s).
Proof.
  intros Hi []. split; cbn; try done.
  - rewrite length_insert. done.
  - intros j Hj. destruct (nth_insert_cases (online s) i j v false) as [E|[-> _]]; [|done].
    rewrite E in Hj. eauto.
Qed.

Lemma seen_ok i v s : (i < length b)%nat -> ok s -> ok (set_last_seen (<[i := v]> (last_seen s)) s).
Proof.
  intros Hi []. split; cbn; try done.
  - rewrite length_insert. done.
  - intros j Hj. destruct (nth_insert_cases (last_seen s) i j v 0) as [E|[-> _]]; [|done].
    rewrite E in Hj. eauto.
Qed.

Lemma until_ok v s : ok s -> ok (set_activity_until v s).
Proof. by intros []. Qed.

Lemma grant_ok n s : ok s -> ok (set_arbitration (Arb.arbitration_grant n (arbitration s)) s).
Proof. intros []. split; cbn; try done. apply name_buffer. Qed.

Lemma inactive_ok s : ok s -> ok (set_closure_active false s).
Proof. by intros []. Qed.

Lemma end_closure_ok n s :
  ok s -> ok (set_arbitration (Arb.arbitration_grant n (arbitration s)) (set_closure_active false s)).
Proof. intros H. by apply (grant_ok n (set_closure_active false s)), inactive_ok. Qed.

Lemma arbitration_next_ok previous on s i a :
  ok s -> Arb.arbitration_next (contacts s) previous on (arbitration s) = (i, a) ->
  ok (set_arbitration a s) /\ forall j, i = Some j -> (j < length b)%nat.
Proof.
  intros Hs E. unfold Arb.arbitration_next in E. pose proof (ok_contacts _ _ _ Hs) as Hc.
  destruct (Arb.next_loop _ _ _ _ _ _) as [j|] eqn:En; injection E as <- <-.
  - apply Arb.next_loop_Some in En as (k & Hk & Ej & _). rewrite Hc in Hk, Ej. rewrite Hc.
    split.
    + destruct Hs. split; cbn; try done; [apply name_buffer|].
      eapply Nat.lt_le_trans; [apply Nat.mod_upper_bound; lia|lia].
    + intros ? [= <-]. rewrite Ej. apply Nat.mod_upper_bound. lia.
  - split; [|done]. destruct Hs. split; cbn; try done. unfold COUNCIL_NAME_LENGTH. lia.
Qed.

Lemma cast_ok p v s :
  nth p (closure_expected s) false = true -> v = 1 \/ v = -1 -> ok s ->
  ok (set_closure_votes (<[p := v]> (closure_votes s)) s).
Proof.
  intros He Hv []. split; cbn; try done.
  - rewrite length_insert. done.
  - intros i. destruct (nth_insert_cases (closure_votes s) p i v 0) as [E|[-> E]]; rewrite E; [apply ok_votes0|].
    by right.
Qed.

Lemma open_ok now i p s :
  b !! i = Some p -> 0 < arbiter_priority p -> is_hub c = true -> ok s ->
  ok (set_closure (now mod 2 ^ 64) true (ballot s now) (first_votes s now i)
        (snprintf COUNCIL_NAME_LENGTH (name (contact_at s i))) s).
Proof.
  intros Hp Hpr Hh Hs. pose proof book_size as Hsize. pose proof (ok_contacts _ _ _ Hs) as Hc.
  assert (Hname : snprintf COUNCIL_NAME_LENGTH (name (contact_at s i)) = name p).
  { unfold contact_at. rewrite Hc, Hp. cbn. unfold snprintf. apply take_ge.
    destruct Hb as [Hw _]. rewrite Forall_lookup in Hw. destruct (Hw _ _ Hp) as ([_ Hn] & _).
    unfold COUNCIL_NAME_LENGTH in *. lia. }
  rewrite Hname. destruct Hs.
  split; cbn [set_closure config contacts arbitration online last_seen activity_until closure_id closure_active
              closure_expected closure_votes closure_proposer]; try done.
  - unfold ballot, first_votes. rewrite !length_map, !length_seq. naive_solver.
  - intros j. unfold ballot. destruct (nth_map_seq_cases (fun i => (i <? length (contacts s))%nat && expected_voter s now i)
      COUNCIL_MAX_CONTACTS j false) as [->|[_ ->]]; [done|]. intros Hj. to_prop. by rewrite <- Hc.
  - intros j. unfold first_votes, ballot.
    destruct (nth_map_seq_cases (fun j => if (j <? length (contacts s))%nat && expected_voter s now j && (j =? i)%nat
      then 1 else 0) COUNCIL_MAX_CONTACTS j 0) as [->|[Hj ->]]; [by left|].
    rewrite (nth_map_seq (fun i => (i <? length (contacts s))%nat && expected_voter s now i)) by done.
    destruct ((j <? length (contacts s))%nat && expected_voter s now j); cbn [andb]; [|by left].
    destruct (j =? i)%nat; [right|left]; [|done]. split; [by left|done].
  - intros _. split; [done|]. by exists i, p.
  - apply Z.mod_pos_bound. lia.
  - rewrite <- Hname. apply name_buffer.
Qed.

(** *** The threads *)

Lemma wp_presence i v (Q : unit -> Prop) :
  (i < length b)%nat -> Q tt -> wp (Threads.critical (set_presence i v)) Q.
Proof. intros Hi HQ. apply wp_update; [|done]. intros s. by apply online_ok. Qed.

Lemma wp_mark_seen i (Q : unit -> Prop) : (i < length b)%nat -> Q tt -> wp (Threads.mark_seen_thread i) Q.
Proof.
  intros Hi HQ. eapply wp_then; [by apply (at_contact i (fun _ => True))|]. intros _ _. apply wp_critical.
  intros s w Hs. unfold mark_seen. rewrite !st_bind_run. unfold update. rewrite !on_fst_run, on_snd_run. cbn.
  split; [|done]. by apply (seen_ok i _ (set_online _ s)), online_ok.
Qed.

Lemma wp_mark_activity (Q : unit -> Prop) : Q tt -> wp Threads.mark_activity_thread Q.
Proof.
  intros HQ. eapply wp_then.
  { apply (wp_critical _ (fun _ => True)). intros s w Hs. unfold Threads.extend_lease, update.
    rewrite st_bind_run, on_fst_run, on_snd_run. split; [by apply until_ok|done]. }
  intros _ _. wp_next p.
  eapply wp_then; [by apply (wp_calls _ (fun _ => True))|done].
Qed.

Lemma wp_release (Q : unit -> Prop) : Q tt -> wp (Threads.critical release_initiation) Q.
Proof.
  intros HQ. apply wp_critical. intros s w Hs. unfold release_initiation, update.
  rewrite !st_bind_run, on_snd_run, on_fst_run. split; [by apply until_ok|done].
Qed.

Lemma wp_busy (Q : Z -> Prop) : (forall r, Q r) -> wp Threads.busy_remaining_thread Q.
Proof.
  intros HQ. wp_next s.
  wp_next r.
  wp_next t.
  apply wp_read. intros. apply HQ.
Qed.

Lemma wp_reserve (Q : Z -> Prop) : (forall r, Q r) -> wp Threads.reserve_thread Q.
Proof.
  intros HQ. wp_next t.
  apply wp_critical. intros s w Hs. split; [|apply HQ]. unfold reserve_locked, file_remaining.
  rewrite !st_bind_run, on_snd_run. cbn [fst snd svc gets id].
  destruct (_ =? 0); [|done]. rewrite !st_bind_run. unfold update. rewrite on_snd_run, on_fst_run. by apply until_ok.
Qed.

Lemma wp_deliver i cmd (Q : bool -> Prop) :
  (i < length b)%nat -> (forall r, Q r) -> wp (Threads.deliver_thread i cmd) Q.
Proof.
  intros Hi HQ. wp_next s.
  eapply (wp_then _ _ (fun _ => True)).
  { destruct (outbound_contact _ _); [|done]. eapply wp_then; [by apply (wp_calls _ (fun _ => True))|done]. }
  intros r _. eapply wp_then; [by apply (at_contact i (fun _ => True))|]. intros _ _.
  eapply wp_then; [by apply (wp_presence i r (fun _ => True))|]. intros _ _. apply wp_ret, HQ.
Qed.

Lemma ai_contact s i : contacts s = b -> role (contact_at s i) = CONTACT_AI -> (i < length b)%nat.
Proof.
  intros <-. unfold contact_at. destruct (contacts s !! i) eqn:E; [|done]. intros _. by eapply lookup_lt_Some.
Qed.

Lemma human_contact s i : contacts s = b -> role (contact_at s i) = CONTACT_HUMAN -> (i < length b)%nat.
Proof.
  intros <-. unfold contact_at. destruct (contacts s !! i) eqn:E; [|done]. intros _. by eapply lookup_lt_Some.
Qed.

Lemma wp_relay_loop todo from target message next (Q : option nat -> Prop) :
  (forall r, Q r) -> wp (Threads.relay_loop_thread todo from target message next) Q.
Proof.
  intros HQ. revert next; induction todo as [|i todo IH]; intros next; cbn [Threads.relay_loop_thread]; [apply HQ|].
  eapply wp_then; [by apply (wp_read id ok)|]. intros s Hs. destruct (skips s from target i) eqn:E; [apply IH|].
  unfold skips in E. to_prop. eapply wp_then; [apply (wp_deliver i _ (fun _ => True)); [|done]|intros; apply IH].
  eapply ai_contact; [apply Hs|done].
Qed.

Lemma wp_next_speaker p (Q : option nat -> Prop) :
  (forall r, Q r) -> wp (Threads.critical (next_speaker p)) Q.
Proof.
  intros HQ. apply wp_critical. intros s w Hs. unfold next_speaker. rewrite st_bind_run. cbn [fst snd svc gets id].
  destruct (Arb.arbitration_next _ _ _ _) as [i a] eqn:E. split; [|apply HQ].
  by apply (arbitration_next_ok p (online s) s i a).
Qed.

Lemma wp_announce s from next (Q : routed -> Prop) :
  contacts s = b -> (forall r, Q r) -> wp (Threads.announce_thread s from next) Q.
Proof.
  intros Hs HQ. destruct next as [n|]; [|apply HQ]. cbn [Threads.announce_thread].
  eapply (wp_then _ _ (fun _ => True)).
  { case_bool_decide as E; [|done].
    eapply wp_then; [apply (wp_deliver n _ (fun _ => True)); [by eapply ai_contact|done]|done]. }
  intros _ _. wp_next _. apply wp_ret, HQ.
Qed.

Lemma wp_relay from message (Q : routed -> Prop) :
  (forall r, Q r) -> wp (Threads.relay_thread from message) Q.
Proof.
  intros HQ. unfold Threads.relay_thread. eapply wp_then; [by apply (wp_read id ok)|]. intros s Hs.
  pose proof (ok_contacts _ _ _ Hs) as Hc. destruct (message_target s message) as [target addressed].
  destruct (addressed && _); [apply HQ|]. destruct (bool_decide (target = _)); [apply HQ|].
  eapply (wp_then _ _ (fun _ => True)).
  { destruct target as [t|]; [|done]. case_bool_decide as E; [|done].
    eapply wp_then; [apply (at_contact t (fun _ => True)); [by eapply human_contact|done]|].
    intros _ _. by apply (wp_read _ (fun _ => True)). }
  intros next _. eapply wp_then; [by apply (wp_relay_loop _ _ _ _ _ (fun _ => True))|]. intros next' _.
  eapply (wp_then _ _ (fun _ => True)); [|intros; by apply wp_announce].
  destruct target as [t|].
  - destruct next'; [|done]. eapply wp_then; [|done]. apply (wp_update _ (fun _ => True)); [|done].
    intros; by apply grant_ok.
  - eapply wp_then; [by apply (at_all_contacts s (fun _ => True))|]. intros _ _. by apply wp_next_speaker.
Qed.

Lemma wp_check_presence now i (Q : bool -> Prop) :
  (i < length b)%nat -> (forall r, Q r) -> wp (Threads.check_presence_thread now i) Q.
Proof.
  intros Hi HQ. wp_next s. cbn zeta. case_bool_decide.
  - destruct (outbound_contact _ _); [|apply HQ]. apply wp_calls. intros; apply HQ.
  - eapply wp_then; [by apply (at_contact i (fun _ => True))|]. intros _ _.
    wp_next v. destruct (v =? 0); [apply HQ|].
    eapply wp_then; [by apply (wp_read _ (fun _ => True))|]. intros; apply HQ.
Qed.

Lemma wp_status (Q : unit -> Prop) : Q tt -> wp Threads.status_thread Q.
Proof.
  intros HQ. wp_next t.
  eapply wp_then; [by apply (wp_read id ok)|]. intros s Hs. pose proof (ok_contacts _ _ _ Hs) as Hc.
  eapply wp_then.
  { apply (wp_each _ _ (fun _ => True)); [|done]. intros i Hi. rewrite Hc in Hi. apply elem_of_seq in Hi.
    assert (Hi' : (i < length b)%nat) by lia.
    eapply wp_then; [by apply (wp_check_presence t i (fun _ => True))|]. intros on _.
    eapply wp_then; [by apply (at_contact i (fun _ => True))|]. intros _ _.
    eapply wp_then; [by apply (wp_presence i on (fun _ => True))|]. intros _ _.
    eapply wp_then; [by apply (wp_read _ (fun _ => True))|]. intros; by apply wp_say. }
  intros _ _. wp_next _.
  wp_next current. eapply wp_then; [by apply (wp_read id ok)|]. clear s Hs Hc. intros s Hs.
  pose proof (ok_contacts _ _ _ Hs) as Hc. destruct current as [|x current]; [done|].
  eapply (wp_then _ _ (fun _ => True)).
  { pose proof (Book.contact_book_find_spec (contacts s) (x :: current)) as Hf.
    destruct (Book.contact_book_find _ _) as [h|]; [|done]. destruct Hf as (p & Hp & _). rewrite Hc in Hp.
    eapply wp_then; [apply (at_contact h (fun _ => True)); [by eapply lookup_lt_Some|done]|].
    intros _ _. by apply wp_read. }
  intros holds _. destruct holds; [done|].
  eapply wp_then; [by apply (at_all_contacts s (fun _ => True))|]. intros _ _.
  eapply wp_then; [by apply (wp_next_speaker _ (fun _ => True))|]. intros [n|] _; [|done].
  eapply (wp_then _ _ (fun _ => True)).
  { case_bool_decide as E; [|done].
    eapply wp_then; [apply (wp_deliver n _ (fun _ => True)); [by eapply ai_contact|done]|done]. }
  intros _ _. by apply wp_log.
Qed.

Lemma wp_events o (Q : unit -> Prop) : Q tt -> wp (Threads.events_thread o) Q.
Proof.
  intros HQ. wp_next s.
  destruct (negb _); [by apply wp_say|]. wp_next [n|]; [|by apply wp_say]. wp_next s'.
  do 3 wp_next _. by apply wp_say.
Qed.

Lemma wp_context p (Q : unit -> Prop) : Q tt -> wp (Threads.context_thread p) Q.
Proof.
  intros HQ. wp_next s.
  destruct (negb _); [by apply wp_say|]. wp_next _.
  wp_next []; by apply wp_say.
Qed.

Lemma wp_complete_loop todo (Q : bool -> Prop) :
  (forall i, i ∈ todo -> (i < length b)%nat) -> (forall r, Q r) -> wp (Threads.complete_loop todo) Q.
Proof.
  intros Ht HQ. induction todo as [|i todo IH]; cbn [Threads.complete_loop]; [apply HQ|].
  assert (Hrest : wp (Threads.complete_loop todo) Q) by (apply IH; intros; apply Ht; by right).
  eapply wp_then; [apply (at_contact i (fun _ => True)); [apply Ht; by left|done]|]. intros _ _.
  wp_next []; [|done].
  wp_next v. destruct (v =? 1); [done|apply HQ].
Qed.

Lemma wp_finish (Q : unit -> Prop) : Q tt -> wp Threads.finish_if_complete_thread Q.
Proof.
  intros HQ. eapply (wp_then _ _ (fun _ => True)).
  { eapply wp_then; [by apply (wp_read id ok)|]. intros s Hs. apply wp_complete_loop; [|done].
    intros i Hi. rewrite (ok_contacts _ _ _ Hs) in Hi. apply elem_of_seq in Hi. lia. }
  intros [] _; [|done]. wp_next s.
  wp_next _.
  eapply wp_then; [|intros _ _; by apply wp_release]. apply (wp_update _ (fun _ => True)); [|done].
  intros; by apply end_closure_ok.
Qed.

Lemma wp_propose i p reason turn (Q : unit -> Prop) :
  b !! i = Some p -> Q tt -> wp (Threads.propose_thread i reason turn) Q.
Proof.
  intros Hp HQ. wp_next now.
  eapply wp_then; [by apply (wp_read id ok)|]. intros s Hs. pose proof (ok_contacts _ _ _ Hs) as Hc.
  cbn zeta. destruct (_ || _) eqn:E; [by apply wp_say|].
  destruct (negb turn); [by apply wp_say|]. rewrite (ok_config _ _ _ Hs) in E.
  assert (Hat : contact_at s i = p) by (unfold contact_at; by rewrite Hc, Hp). rewrite Hat in E. to_prop.
  eapply wp_then; [by apply (at_all_contacts s (fun _ => True))|]. intros _ _.
  eapply wp_then.
  { apply (wp_critical _ (fun _ => True)). intros s' w Hs'. unfold open_closure. rewrite st_bind_run.
    cbn [fst snd svc gets id]. destruct (closure_active s'); [done|]. rewrite st_bind_run. unfold update.
    rewrite on_fst_run. split; [|done]. apply (open_ok now i p); [done|lia|by destruct (is_hub c)|done]. }
  intros [] _; [|by apply wp_say]. wp_next s'.
  wp_next _.
  wp_next _. by apply wp_finish.
Qed.

Lemma wp_vote i vote (Q : unit -> Prop) :
  (i < length b)%nat -> Q tt -> wp (Threads.vote_thread i vote) Q.
Proof.
  intros Hi HQ. unfold Threads.vote_thread. destruct (parse_vote vote) as [close|]; [|by apply wp_say].
  eapply wp_then; [by apply (at_contact i (fun _ => True))|]. intros _ _. eapply wp_then.
  { apply (wp_critical _ (fun _ => True)). intros s w Hs. unfold cast_vote. rewrite st_bind_run.
    cbn [fst snd svc gets id]. destruct (_ || _) eqn:E; [done|]. to_prop. rewrite st_bind_run. unfold update.
    rewrite on_fst_run. split; [|done]. apply cast_ok; [by destruct (nth i _ _)| |done]. destruct close; auto. }
  intros [id_|] _; [|by apply wp_say]. wp_next s.
  wp_next _.
  wp_next _. destruct close; [by apply wp_finish|].
  wp_next s'.
  eapply wp_then; [apply (wp_update _ (fun _ => True)); [intros; by apply end_closure_ok|done]|]. intros _ _.
  do 2 wp_next _. by apply wp_mark_activity.
Qed.

Lemma wp_accept i message event reserved (Q : unit -> Prop) :
  Q tt -> wp (Threads.accept_thread i message event reserved) Q.
Proof.
  intros HQ. eapply wp_then; [by apply (wp_relay _ _ (fun _ => True))|].
  assert (Hr : forall text, wp (Threads.release_if reserved ;; Threads.reply_line text) Q).
  { intros text. eapply (wp_then _ _ (fun _ => True)); [|intros _ _; by apply wp_say].
    destruct reserved; [by apply wp_release|done]. }
  intros [] _; [|apply Hr..]. wp_next s.
  wp_next _.
  eapply wp_then; [by apply (wp_mark_activity (fun _ => True))|]. intros _ _. by apply wp_say.
Qed.

Lemma wp_dispatch i p line turn (Q : unit -> Prop) :
  b !! i = Some p -> Q tt -> wp (Threads.dispatch_thread i line turn) Q.
Proof.
  intros Hp HQ. assert (Hi : (i < length b)%nat) by (by eapply lookup_lt_Some).
  assert (Hsay : forall t, wp (Threads.say t) Q) by (intros; by apply wp_say).
  assert (Hlog : forall pa sp e m (q : Threads.prog unit), wp q Q -> wp (Threads.log pa sp e m ;; q) Q).
  { intros pa sp e m q Hq. eapply wp_then; [by apply (wp_log _ _ _ _ (fun _ => True))|done]. }
  wp_next s. cbn zeta.
  repeat match goal with |- wp (if ?x then _ else _) _ => destruct x end;
    first [apply Hsay | by apply wp_status | by apply wp_events | by apply wp_context | by eapply wp_propose
          | by apply wp_vote | by apply wp_accept | apply Hlog; apply Hsay | idtac].
  - eapply wp_then; [by apply (wp_busy (fun _ => True))|]. intros r _. destruct (r =? 0); apply Hsay.
  - eapply wp_then; [by apply (wp_reserve (fun _ => True))|]. intros r _.
    destruct (r =? 0); [by apply wp_accept|apply Hsay].
  - apply Hlog. eapply wp_then; [by apply (wp_mark_activity (fun _ => True))|]. intros; apply Hsay.
  - eapply wp_then; [apply (wp_update _ (fun _ => True)); [intros; by apply grant_ok|done]|].
    intros _ _. apply Hlog, Hsay.
Qed.

Lemma wp_connection uninit r : wp (Threads.connection_thread uninit r) (fun _ => True).
Proof.
  eapply wp_then; [by apply (wp_read id ok)|]. intros s Hs. pose proof (ok_contacts _ _ _ Hs) as Hc.
  eapply wp_then.
  { apply (wp_calls _ (fun o => forall i, o = Some i -> is_Some (b !! i))). intros [w sk] i E.
    rewrite Hc in E. apply Proto.accept_identity_contact in E as (p & Hp & _). by rewrite Hp. }
  intros [i|] Hi; [|done]. destruct (Hi i eq_refl) as [p Hp].
  eapply wp_then; [apply (wp_mark_seen i (fun _ => True)); [by eapply lookup_lt_Some|done]|]. intros _ _.
  wp_next [line|]; [|done]. wp_next s'.
  wp_next turn.
  wp_next []; [done|]. by eapply wp_dispatch.
Qed.

(** *** The whole system *)

Definition system_ok (y : Threads.system) : Prop :=
  ok (Threads.shared y) /\ Forall (fun t => wp t.2 (fun _ => True)) (Threads.threads y).

Lemma step_ok y y' : Threads.step y y' -> system_ok y -> system_ok y'.
Proof.
  intros Hstep [Hs Ht]. destruct Hstep as [s w ts n k X m cont x s' w' k' Hn E|s w ts n k i p Hn Hi|s w ts k u r|s w w' ts];
    cbn [Threads.shared Threads.threads] in *; split; cbn [Threads.shared Threads.threads]; try done.
  - pose proof (Forall_lookup_1 _ _ _ _ Ht Hn) as Hw. cbn in Hw. specialize (Hw s w k Hs). rewrite E in Hw. apply Hw.
  - apply Forall_insert; [done|]. pose proof (Forall_lookup_1 _ _ _ _ Ht Hn) as Hw. cbn in Hw.
    specialize (Hw s w k Hs). rewrite E in Hw. apply Hw.
  - apply Forall_insert; [done|]. pose proof (Forall_lookup_1 _ _ _ _ Ht Hn) as Hw. apply Hw.
  - apply Forall_app_2; [done|]. apply Forall_singleton, wp_connection.
Qed.

Lemma wp_in_range p : wp p (fun _ : unit => True) -> Threads.overruns p = false.
Proof. destruct p as [a|i p|X m k]; [done| |done]. intros [H _]. by apply Nat.leb_gt. Qed.

Lemma fresh_service_ok : ok (fresh_service c b).
Proof.
  split; cbn [fresh_service config contacts arbitration online last_seen closure_expected closure_votes
              closure_active closure_id closure_proposer Arb.arbitration_init Arb.current_speaker Arb.next_index];
    try done.
  - intros i. by rewrite nth_replicate_same.
  - intros i. by rewrite nth_replicate_same.
  - intros i. by rewrite nth_replicate_same.
  - intros i. left. apply nth_replicate_same.
  - cbn. unfold COUNCIL_NAME_LENGTH. lia.
  - cbn. unfold COUNCIL_NAME_LENGTH. lia.
  - cbn. lia.
Qed.
End threads.

Lemma start_ok path w s w' :
  start path w = (Some s, w') -> Book.wf_book (contacts s) /\ service_ok (config s) (contacts s) s.
Proof.
  unfold start. rewrite st_bind_run. destruct (Config.service_config_load path w).1 as [e|c]; [done|].
  rewrite st_bind_run. destruct (Book.contact_book_load (contacts_path c) (Config.service_config_load path w).2).1
    as [e|b] eqn:Eb; [done|].
  apply Book.contact_book_load_wf in Eb as Hb. clear Eb. rewrite st_bind_run. destruct (is_hub c).
  - rewrite st_bind_run. destruct (Log.transcript_last_speaker _ _ _).1 as [|x n] eqn:E.
    + rewrite st_bind_run. intros [= <- _]. split; [done|]. apply fresh_service_ok.
    + intros [= <- _]. split; [done|]. apply (grant_ok c b (x :: n) (fresh_service c b)), fresh_service_ok.
  - intros [= <- _]. split; [done|]. apply fresh_service_ok.
Qed.

(** C2: the daemon's threads never spoil the shared service: from a successful
    start on, however many connections are accepted, whatever their clients
    send, and however the scheduler interleaves the threads between their
    critical sections, unlocked reads and system calls, the service is well
    formed, and no thread ever stands before an access outside the arrays. *)
Theorem service_invariant path w s w1 y :
  start path w = (Some s, w1) -> rtc Threads.step (Threads.System s w1 []) y ->
  service_ok (config s) (contacts s) (Threads.shared y)
  /\ Forall (fun t => Threads.overruns t.2 = false) (Threads.threads y).
Proof.
  intros Hs Hy. apply start_ok in Hs as [Hb Hs].
  assert (H : system_ok (config s) (contacts s) y).
  { assert (H0 : system_ok (config s) (contacts s) (Threads.System s w1 [])) by (by split).
    revert H0. generalize (Threads.System s w1 []), y, Hy. clear -Hb. intros a z. induction 1; [done|].
    intros Ha. apply IHHy. by eapply step_ok. }
  destruct H as [H1 H2]. split; [done|]. eapply Forall_impl; [exact H2|]. intros t. apply wp_in_range.
Qed.

Lemma thread_turn_step n y y' : Threads.turn n y = Some y' -> Threads.step y y'.
Proof.
  destruct y as [s w ts]. unfold Threads.turn. cbn [Threads.threads Threads.shared Threads.outside].
  destruct (ts !! n) as [[k [a|i p|X m c]]|] eqn:En; [done| | |done].
  - case_decide; [|done]. intros [= <-]. by eapply Threads.step_index.
  - destruct (m (s, (w, k))) as [x [s' [w' k']]] eqn:E. intros [= <-]. by eapply Threads.step_run.
Qed.

Lemma play_steps schedule y y' : Threads.play schedule y = Some y' -> rtc Threads.step y y'.
Proof.
  revert y; induction schedule as [|n l IH]; intros y; cbn; [intros [= <-]; apply rtc_refl|].
  destruct (Threads.turn n y) as [z|] eqn:E; [|done]. cbn. intros H.
  eapply rtc_l; [by apply (thread_turn_step n)|by apply IH].
Qed.

Definition sample_config_text : bytes :=
  str "name=hub" ++ [NL] ++ str "human_port=7000" ++ [NL] ++ str "ai_port=7001" ++ [NL]
  ++ str "contacts_file=c" ++ [NL] ++ str "is_hub=true" ++ [NL] ++ str "transcript_file=t" ++ [NL]
  ++ str "activity_file=a" ++ [NL].

Definition sample_book : contact_book :=
  [Contact (str "hub") CONTACT_AI (str "h") 7001 (str "k0") 1 0;
   Contact (str "Neo") CONTACT_AI (str "n") 7002 (str "k1") 0 0].

Definition sample_world : world :=
  World {[str "s" := sample_config_text; str "c" := Book.print_book sample_book]} 100 [] [] [] [] ∅ [] [].

Definition sample_service : council_service :=
  match (start (str "s") sample_world).1 with
  | Some s => s
  | None => fresh_service Config.defaults []
  end.

(** A connection of contact [c] to the AI port that sends [line]. *)
Definition client_of (c : contact) (line : bytes) : socket * Threads.prog unit :=
  (Socket (Proto.auth_line (shared_key c) (name c) (Auth.hex Proto.sample_random) ++ line ++ [NL]) [] [],
   Threads.connection_thread [] CONTACT_AI).

Definition hub_contact : contact := contact_at sample_service 0.
Definition neo_contact : contact := contact_at sample_service 1.

(** The hub after its start, with random bytes for four handshakes. *)
Definition sample_running : world :=
  World {[str "c" := Book.print_book sample_book]} 100 [] []
    (replicate 4 (Some Proto.sample_random)) [] ∅ [] [].

Lemma accepts s w ts n : rtc Threads.step (Threads.System s w ts)
  (Threads.System s w (ts ++ map (fun sk => (sk, Threads.connection_thread [] CONTACT_AI)) n)).
Proof.
  revert ts; induction n as [|k n IH]; intros ts; cbn [map]; [by rewrite app_nil_r|].
  eapply rtc_l; [apply (Threads.step_accept _ _ _ k [] CONTACT_AI)|]. specialize (IH (ts ++ [(k, Threads.connection_thread [] CONTACT_AI)])). by rewrite <- app_assoc in IH.
Qed.

(** Four clients: Neo reports, the hub proposes to end the conversation, and
    Neo votes twice, each on a connection of its own. *)
Definition four_clients : list (socket * Threads.prog unit) :=
  [client_of neo_contact (str "PING"); client_of hub_contact (str "END_PROPOSE done");
   client_of neo_contact (str "END_VOTE close"); client_of neo_contact (str "END_VOTE continue wait")].

(** Neo's second vote falls between the end of [closure_complete] and
    [closure_finish] of the first. *)
Definition overtaken : list nat :=
  replicate 10 0%nat ++ replicate 24 1%nat ++ replicate 21 2%nat ++ replicate 21 3%nat ++ replicate 4 2%nat.

Definition overtaken_system : Threads.system :=
  default (Threads.System sample_service sample_running [])
    (Threads.play overtaken (Threads.System sample_service sample_running four_clients)).

Lemma overtaken_reached :
  rtc Threads.step (Threads.System sample_service (start (str "s") sample_world).2 []) overtaken_system.
Proof.
  eapply rtc_l; [apply (Threads.step_world _ _ sample_running)|].
  etransitivity; [apply (accepts sample_service sample_running [] (map fst four_clients))|].
  apply (play_steps overtaken). vm_compute. reflexivity.
Qed.

Lemma service_invariant_witness :
  service_ok (config sample_service) (contacts sample_service) (Threads.shared overtaken_system)
  /\ Forall (fun t => Threads.overruns t.2 = false) (Threads.threads overtaken_system).
Proof.
  apply (service_invariant (str "s") sample_world sample_service (start (str "s") sample_world).2 overtaken_system).
  - vm_compute. reflexivity.
  - exact overtaken_reached.
Defined.

(** What a run of the daemon from its start can end in: all four clients were
    answered ACCEPTED or PONG, Neo's objection cancelled the vote and gave it the
    floor, and yet the conversation was then ended as unanimous and the floor
    taken away, because [closure_finish] does not look at the vote again under
    the lock. *)
Lemma veto_overruled :
  rtc Threads.step (Threads.System sample_service (start (str "s") sample_world).2 []) overtaken_system
  /\ w_fs (Threads.outside overtaken_system) !! str "t"
     = Some (concat (map (fun e => Log.entry_line 100 e ++ [NL])
         [(str "hub", str "end-proposal", str "proposal=100 reason=done");
          (str "Neo", str "end-vote", str "proposal=100 vote=close reason=no further matters");
          (str "Neo", str "end-vote", str "proposal=100 vote=continue reason=wait");
          (str "hub", str "end-cancelled", str "Neo"); (str "hub", str "grant", str "Neo");
          (str "hub", str "conversation-end", str "proposal=100 unanimous")]))
  /\ Arb.current_speaker (arbitration (Threads.shared overtaken_system)) = [].
Proof. split; [exact overtaken_reached|]. split; vm_compute; reflexivity. Qed.

(** ** Running handlers *)

Lemma on_node_run {A} (m : st node A) s w k :
  on_node m (s, (w, k)) = ((m (s, w)).1, ((m (s, w)).2.1, ((m (s, w)).2.2, k))).
Proof. unfold on_node. by destruct (m (s, w)) as [a [s' w']]. Qed.

Lemma send_text_run t s w k :
  send_text t (s, (w, k)) = (tt, (s, (w, (network_send t k).2))).
Proof. unfold send_text, on_sock. by rewrite st_bind_run, !on_snd_run. Qed.

Lemma reply_run t s w k :
  reply t (s, (w, k)) = (tt, (s, (w, (network_send (str t ++ [NL]) k).2))).
Proof. apply send_text_run. Qed.

Lemma log_event_run p sp e m s w :
  log_event p sp e m (s, w) = (tt, (s, (Log.transcript_append p sp e m w).2)).
Proof. unfold log_event. by rewrite st_bind_run, on_snd_run. Qed.

Lemma mark_seen_run i s w :
  mark_seen i (s, w)
  = (tt, (set_last_seen (<[i := (time w).1]> (last_seen s)) (set_online (<[i := true]> (online s)) s),
          (time w).2)).
Proof. unfold mark_seen. rewrite !st_bind_run. unfold update. by rewrite !on_fst_run, on_snd_run. Qed.

(** *** A thread alone does what the handler does *)

(** [p], run without anybody else's steps, is [m]. *)
Definition agrees {A} (p : Threads.prog A) (m : st handler A) : Prop := forall h, Threads.alone p h = m h.

Lemma agrees_elim {A} (p : Threads.prog A) m h : agrees p m -> Threads.alone p h = m h.
Proof. intros H. apply H. Qed.

Lemma alone_bind {A B} (p : Threads.prog A) (f : A -> Threads.prog B) h :
  Threads.alone (p ≫= f) h = Threads.alone (f (Threads.alone p h).1) (Threads.alone p h).2.
Proof.
  unfold mbind, Threads.prog_bind. revert h; induction p as [a|i p IH|X m k IH]; intros h; cbn; [done|apply IH|].
  destruct (m h) as [x h']. apply IH.
Qed.

Lemma agrees_bind {A B} (p : Threads.prog A) m (f : A -> Threads.prog B) g :
  agrees p m -> (forall a, agrees (f a) (g a)) -> agrees (p ≫= f) (m ≫= g).
Proof. intros H Hf h. by rewrite alone_bind, st_bind_run, H, Hf. Qed.

Lemma agrees_ret {A} (a : A) : agrees (mret a) (mret a).
Proof. done. Qed.

Lemma agrees_at {A} i (p : Threads.prog A) m : agrees p m -> agrees (Threads.access i ;; p) m.
Proof. done. Qed.

Lemma alone_each_at l h : Threads.alone (Threads.each Threads.access l) h = (tt, h).
Proof. by induction l. Qed.

Lemma agrees_at_contacts {A} s (p : Threads.prog A) m : agrees p m -> agrees (Threads.at_contacts s ;; p) m.
Proof. intros H h. rewrite alone_bind. unfold Threads.at_contacts. rewrite alone_each_at. apply H. Qed.

Lemma agrees_critical {A} (m : st node A) : agrees (Threads.critical m) (on_node m).
Proof. intros h. cbn. by destruct (on_node m h). Qed.

Lemma agrees_read {A} (f : council_service -> A) : agrees (Threads.read f) (on_node (svc f)).
Proof. apply agrees_critical. Qed.

Lemma alone_read {A B} (f : council_service -> A) (g : A -> Threads.prog B) s w k :
  Threads.alone (Threads.read f ≫= g) (s, (w, k)) = Threads.alone (g (f s)) (s, (w, k)).
Proof. done. Qed.

Lemma alone_locked_read {A B} (f : council_service -> A) (g : A -> Threads.prog B) s w k :
  Threads.alone (Threads.critical (svc f) ≫= g) (s, (w, k)) = Threads.alone (g (f s)) (s, (w, k)).
Proof. done. Qed.

Lemma agrees_calls {A} (m : st io A) : agrees (Threads.calls m) (on_snd m).
Proof. intros h. unfold Threads.calls. cbn [Threads.alone]. by destruct (on_snd m h). Qed.

Lemma agrees_world {A} (m : st world A) : agrees (Threads.calls (on_fst m)) (on_node (on_snd m)).
Proof.
  intros [s [w k]]. rewrite agrees_calls, on_snd_run, on_node_run, on_snd_run. cbn [fst snd]. by rewrite on_fst_run.
Qed.

Lemma agrees_clock : agrees Threads.clock (on_node (on_snd time)).
Proof. apply agrees_world. Qed.

Lemma agrees_say t : agrees (Threads.say t) (send_text t).
Proof. intros h. unfold Threads.say. cbn [Threads.alone]. by destruct (send_text t h). Qed.

Lemma agrees_reply_line t : agrees (Threads.reply_line t) (reply t).
Proof. apply agrees_say. Qed.

Lemma agrees_on_node {A B} (p : Threads.prog A) m (f : A -> Threads.prog B) g :
  agrees p (on_node m) -> (forall a, agrees (f a) (on_node (g a))) -> agrees (p ≫= f) (on_node (m ≫= g)).
Proof.
  intros H Hf [s [w k]]. rewrite alone_bind, H, Hf, !on_node_run, st_bind_run. cbn [fst snd].
  rewrite on_node_run. by destruct (m (s, w)) as [a [s' w']].
Qed.

Lemma agrees_on_node_ret {A} (a : A) : agrees (mret a) (on_node (mret a)).
Proof. by intros [s [w k]]. Qed.

Lemma agrees_log p sp e m : agrees (Threads.log p sp e m) (on_node (log_event p sp e m)).
Proof. apply agrees_on_node; [apply agrees_world|intros; apply agrees_on_node_ret]. Qed.

#[local] Hint Resolve agrees_ret agrees_critical agrees_read agrees_calls agrees_world agrees_clock agrees_say agrees_reply_line agrees_on_node_ret
  agrees_log : noobia.

(** Walk through a thread and the handler side by side. *)
Ltac agrees_step :=
  match goal with
  | |- agrees (Threads.access _ ≫= _) _ => apply agrees_at
  | |- agrees (Threads.at_contacts _ ≫= _) _ => apply agrees_at_contacts
  | |- agrees _ _ => solve [auto with noobia]
  | |- agrees (_ ≫= _) (on_node (_ ≫= _)) => apply agrees_on_node; [|intros ?]
  | |- agrees (_ ≫= _) (_ ≫= _) => apply agrees_bind; [|intros ?]
  | |- agrees (if ?x then _ else _) _ => destruct x
  | |- agrees (match ?x with _ => _ end) _ => destruct x
  end.
Ltac agrees_auto := repeat (cbn zeta; agrees_step).

Lemma agrees_eq {A} (p : Threads.prog A) (m m' : st node A) :
  (forall s w, m (s, w) = m' (s, w)) -> agrees p (on_node m) -> agrees p (on_node m').
Proof. intros E H [s [w k]]. rewrite H, !on_node_run. by rewrite E. Qed.

Lemma agrees_mark_activity : agrees Threads.mark_activity_thread (on_node mark_activity).
Proof.
  apply (agrees_eq _ (Threads.extend_lease ;; path ← svc (fun s => activity_path (config s));
                      on_snd (Activity.conversation_activity_mark path) ;; mret tt)).
  - intros s w. unfold Threads.extend_lease, mark_activity. by rewrite !st_bind_run.
  - unfold Threads.mark_activity_thread. agrees_auto.
Qed.

Lemma agrees_mark_seen i : agrees (Threads.mark_seen_thread i) (on_node (mark_seen i)).
Proof. unfold Threads.mark_seen_thread. agrees_auto. Qed.

Lemma agrees_busy : agrees Threads.busy_remaining_thread (on_node busy_remaining).
Proof.
  apply (agrees_eq _ (s ← svc id;
    remaining ← on_snd (Activity.conversation_activity_remaining (activity_path (config s)) (activity_log s)
                          CONVERSATION_LEASE_SECONDS);
    now ← on_snd time; svc (fun s => lease_remaining (activity_until s) now remaining))).
  - intros s w. unfold busy_remaining, file_remaining. by rewrite !st_bind_run.
  - unfold Threads.busy_remaining_thread. agrees_auto.
Qed.

Lemma agrees_reserve : agrees Threads.reserve_thread (on_node reserve_initiation).
Proof. unfold Threads.reserve_thread, reserve_initiation. agrees_auto. Qed.

Lemma agrees_deliver i cmd : agrees (Threads.deliver_thread i cmd) (on_node (deliver i cmd)).
Proof. unfold Threads.deliver_thread, deliver. agrees_auto. Qed.
#[local] Hint Resolve agrees_mark_activity agrees_mark_seen agrees_busy agrees_reserve agrees_deliver : noobia.

Lemma agrees_relay_loop todo from target message next :
  agrees (Threads.relay_loop_thread todo from target message next)
    (on_node (relay_loop todo from target message next)).
Proof.
  revert next; induction todo as [|i todo IH]; intros next; cbn [Threads.relay_loop_thread relay_loop];
    agrees_auto; apply IH.
Qed.

Lemma agrees_announce s from next :
  agrees (Threads.announce_thread s from next) (on_node (announce s from next)).
Proof. unfold Threads.announce_thread, announce. destruct next; agrees_auto. Qed.
#[local] Hint Resolve agrees_relay_loop agrees_announce : noobia.

Lemma agrees_relay from message : agrees (Threads.relay_thread from message) (on_node (relay_message from message)).
Proof.
  intros [s [w k]]. unfold Threads.relay_thread. rewrite alone_read, on_node_run. cbn [id]. unfold relay_message. rewrite st_bind_run. cbn [fst snd svc gets id].
  destruct (message_target s message) as [target addressed]. destruct (addressed && _); [done|].
  destruct (bool_decide (target = Some from)); [done|]. cbn zeta.
  set (next0 := match target with Some t => _ | None => None end).
  rewrite alone_bind.
  assert (H0 : Threads.alone (match target with
      | Some t => if bool_decide (role (contact_at s t) = CONTACT_HUMAN)
          then Threads.access t ;; Threads.critical (svc (fun s => if nth t (online s) false then Some t else None))
          else mret None
      | None => mret None end) (s, (w, k)) = (next0, (s, (w, k)))).
  { unfold next0. destruct target as [t|]; [|done]. by destruct (bool_decide _). }
  rewrite H0. cbn [fst snd]. rewrite <- on_node_run. apply agrees_elim. clear H0.
  apply agrees_on_node; [apply agrees_relay_loop|]. intros next.
  apply agrees_on_node; [|intros; apply agrees_announce].
  destruct target as [t|]; [destruct next|]; agrees_auto.
Qed.

Lemma agrees_check_presence now i :
  agrees (Threads.check_presence_thread now i) (on_node (check_presence now i)).
Proof.
  intros [s [w k]]. unfold Threads.check_presence_thread, check_presence. rewrite alone_read, on_node_run, st_bind_run.
  cbn [fst snd svc gets id]. cbn zeta. case_bool_decide; [|by cbn; destruct (nth i (last_seen s) 0 =? 0)].
  rewrite <- on_node_run. destruct (outbound_contact _ _); [apply agrees_world|done].
Qed.

Lemma agrees_each {A} (f : A -> Threads.prog unit) g l :
  (forall x, agrees (f x) (g x)) -> agrees (Threads.each f l) (for_each g l).
Proof. intros H. induction l as [|x l IH]; [done|]. by apply agrees_bind. Qed.

#[local] Hint Resolve agrees_relay agrees_check_presence : noobia.

Lemma agrees_status_line now i : agrees (Threads.status_line_thread now i) (status_line now i).
Proof. unfold Threads.status_line_thread, status_line. agrees_auto. Qed.

#[local] Hint Resolve agrees_each agrees_status_line : noobia.

Lemma agrees_status : agrees Threads.status_thread send_status.
Proof.
  unfold Threads.status_thread, send_status. apply agrees_bind; [auto with noobia|]. intros now.
  apply agrees_bind; [auto with noobia|]. intros s0. apply agrees_bind; [auto with noobia|]. intros _.
  apply agrees_bind; [apply agrees_say|]. intros _ [s [w k]]. rewrite alone_locked_read, alone_read, st_bind_run, on_node_run.
  cbn [fst snd svc gets id]. destruct (Arb.current_speaker (arbitration s)) as [|x n]; [done|]. cbn zeta.
  rewrite alone_bind.
  assert (H : Threads.alone (match Book.contact_book_find (contacts s) (x :: n) with
      | Some h => Threads.access h ;; Threads.read (fun s => nth h (online s) false)
      | None => mret false end) (s, (w, k))
    = (match Book.contact_book_find (contacts s) (x :: n) with Some h => nth h (online s) false | None => false end,
       (s, (w, k)))) by (by destruct (Book.contact_book_find _ _)).
  rewrite H. cbn [fst snd]. clear H.
  destruct (match Book.contact_book_find _ _ with Some h => _ | None => _ end); [done|].
  apply agrees_elim. apply agrees_at_contacts. agrees_auto.
Qed.

Lemma agrees_events o : agrees (Threads.events_thread o) (send_events o).
Proof.
  intros [s [w k]]. unfold Threads.events_thread, send_events. rewrite alone_read, st_bind_run, on_node_run.
  cbn [fst snd svc gets id]. destruct (negb (is_hub (config s))); [apply agrees_say|].
  rewrite alone_bind, st_bind_run, agrees_calls, on_snd_run. cbn [fst snd].
  destruct (Log.transcript_stream_since _ _ _) as [[n|] [w' k']]; [|apply agrees_say]. cbn [fst snd].
  rewrite alone_locked_read. cbn [id]. apply agrees_elim.
  repeat (apply agrees_bind; [apply agrees_say|intros _]). apply agrees_say.
Qed.

Lemma agrees_context p : agrees (Threads.context_thread p) (send_context p).
Proof. unfold Threads.context_thread, send_context. agrees_auto. Qed.

Lemma alone_complete todo s w k :
  Threads.alone (Threads.complete_loop todo) (s, (w, k))
  = (forallb (fun i => negb (nth i (closure_expected s) false && negb (nth i (closure_votes s) 0 =? 1))) todo, (s, (w, k))).
Proof.
  induction todo as [|i todo IH]; [done|]. cbn [Threads.complete_loop forallb].
  rewrite (agrees_at i _ _ (fun h => eq_refl)), alone_read.
  destruct (nth i (closure_expected s) false); cbn [andb negb]; [|done]. rewrite alone_read.
  by destruct (nth i (closure_votes s) 0 =? 1).
Qed.

Lemma agrees_finish : agrees Threads.finish_if_complete_thread (on_node finish_if_complete).
Proof.
  intros [s [w k]]. unfold Threads.finish_if_complete_thread, Threads.complete_thread.
  rewrite alone_bind, alone_read, alone_complete. cbn [fst snd id]. rewrite on_node_run. unfold finish_if_complete.
  rewrite st_bind_run. cbn [fst snd svc gets id]. fold (closure_complete s).
  destruct (closure_complete s); [|done]. rewrite <- on_node_run. apply agrees_elim.
  unfold Threads.finish_thread, Threads.end_closure, closure_finish. agrees_auto.
Qed.
#[local] Hint Resolve agrees_status agrees_events agrees_context agrees_finish : noobia.

Lemma agrees_propose i r t : agrees (Threads.propose_thread i r t) (closure_propose i r t).
Proof. unfold Threads.propose_thread, closure_propose. agrees_auto. Qed.

Lemma agrees_cancel i : agrees (Threads.cancel_thread i) (on_node (closure_cancel i)).
Proof. unfold Threads.cancel_thread, Threads.end_with_floor, closure_cancel. agrees_auto. Qed.
#[local] Hint Resolve agrees_propose agrees_cancel : noobia.

Lemma agrees_vote i v : agrees (Threads.vote_thread i v) (closure_vote i v).
Proof. unfold Threads.vote_thread, closure_vote. agrees_auto. Qed.

Lemma agrees_release r : agrees (Threads.release_if r) (on_node (when r release_initiation)).
Proof. destruct r; [apply agrees_critical|apply agrees_on_node_ret]. Qed.
#[local] Hint Resolve agrees_vote agrees_release : noobia.

Lemma agrees_accept i m e r : agrees (Threads.accept_thread i m e r) (accept_message i m e r).
Proof. unfold Threads.accept_thread, accept_message. agrees_auto. Qed.
#[local] Hint Resolve agrees_accept : noobia.

Lemma agrees_dispatch i l t : agrees (Threads.dispatch_thread i l t) (dispatch i l t).
Proof. unfold Threads.dispatch_thread, dispatch. agrees_auto. Qed.

(** A connection served while no other thread runs is exactly the sequential
    handler: what is proved about [handle_connection] holds of such a thread. *)
Lemma connection_thread_alone uninit r :
  agrees (Threads.connection_thread uninit r) (handle_connection uninit r).
Proof.
  unfold Threads.connection_thread, handle_connection. apply agrees_bind; [auto with noobia|]. intros s0.
  apply agrees_bind; [auto with noobia|]. intros [i|]; [|done]. apply agrees_bind; [auto with noobia|]. intros _.
  apply agrees_bind; [apply agrees_calls|]. intros [line|]; [|done]. intros [s [w k]].
  rewrite (alone_read id), st_bind_run, on_node_run. cbn [fst snd svc gets id]. cbn zeta.
  rewrite alone_locked_read.
  apply agrees_elim. apply agrees_bind; [apply agrees_calls|]. intros [|]; [done|].
  apply agrees_dispatch.
Qed.

(** ** The conversation lease is exclusive *)

(** The clock only moves forward. *)
Definition clock_from (t : Z) (w : world) : Prop := monotone w /\ t <= w_now w.

Section clock.
Context (t : Z).

Lemma keeps_time : keeps (clock_from t) time.
Proof.
  intros w [Hm Ht]. unfold clock_from, monotone, time in *. destruct (w_ticks w) as [|x xs] eqn:E; cbn.
  - by rewrite E.
  - apply Forall_cons in Hm as [Hx Hxs]. split; [done|lia].
Qed.

Lemma keeps_fault : keeps (clock_from t) fault.
Proof. intros w H. unfold fault. by destruct (w_faults w). Qed.

Lemma keeps_store f : (forall w, w_ticks (f w) = w_ticks w /\ w_now (f w) = w_now w) -> keeps (clock_from t) (modify f).
Proof. intros Hf w [Hm Ht]. unfold clock_from, monotone in *. cbn. by destruct (Hf w) as [-> ->]. Qed.

#[local] Hint Resolve keeps_time keeps_fault : noobia.

Lemma keeps_replace_file p x : keeps (clock_from t) (Activity.replace_file p x).
Proof.
  unfold Activity.replace_file, file_create, file_write, file_rename, file_read.
  keeps_auto; by apply keeps_store.
Qed.

Lemma keeps_activity_mark p : keeps (clock_from t) (Activity.conversation_activity_mark p).
Proof. unfold Activity.conversation_activity_mark. keeps_auto. apply keeps_replace_file. Qed.

Lemma keeps_activity_remaining p l x :
  keeps (clock_from t) (Activity.conversation_activity_remaining p l x).
Proof. unfold Activity.conversation_activity_remaining, file_read, file_mtime. keeps_auto. Qed.
End clock.

(** A thread read [now] at most about 34 years before it entered its critical
    section. *)
Definition read_before (now : Z) (n : node) : Prop := w_now n.2 - 2 ^ 30 <= now <= w_now n.2.

(** What other threads may do meanwhile, short of releasing the lease. *)
Inductive lease_step : node -> node -> Prop :=
| lease_reserve now n : read_before now n -> lease_step n (reserve_locked now n).2
| lease_mark n : lease_step n (mark_activity n).2
| lease_other n n' :
    activity_until n'.1 = activity_until n.1 -> monotone n'.2 -> w_now n.2 <= w_now n'.2 -> lease_step n n'.

(** The lease taken at [t0] is still running. *)
Definition leased (t0 : Z) (n : node) : Prop :=
  clock_from t0 n.2 /\ t0 + 300 <= activity_until n.1 <= w_now n.2 + 300.

Lemma file_remaining_run n :
  let '(r, n') := file_remaining n in
  0 <= r <= 300 /\ n'.1 = n.1 /\ forall t, clock_from t n.2 -> clock_from t n'.2.
Proof.
  unfold file_remaining. rewrite st_bind_run, on_snd_run. cbn [fst snd svc gets id].
  split; [by apply Activity.remaining_bounds|]. split; [done|].
  intros t H. by apply keeps_activity_remaining.
Qed.

Lemma to_signed_small v : 0 <= v < 2 ^ 31 -> to_signed 32 v = v.
Proof. intros Hv. unfold to_signed. rewrite Z.mod_small by lia. lia. Qed.

Lemma lease_remaining_zero until now r :
  0 <= r -> until - now < 2 ^ 31 -> lease_remaining until now r = 0 -> until <= now.
Proof.
  intros Hr Hd. unfold lease_remaining. destruct (Z.ltb_spec now until); [|lia]. cbn [andb].
  destruct (Z.ltb_spec r (until - now)); [rewrite to_signed_small; lia|lia].
Qed.

(** A reservation: refused without a change to the lease, or taken from [now]
    on, which is only possible once the old lease is over. *)
Lemma reserve_locked_run now n :
  monotone n.2 ->
  let '(r, n') := reserve_locked now n in
  (forall t, clock_from t n.2 -> clock_from t n'.2)
  /\ (r <> 0 -> activity_until n'.1 = activity_until n.1)
  /\ (r = 0 -> activity_until n'.1 = now + 300
               /\ (activity_until n.1 - now < 2 ^ 31 -> activity_until n.1 <= now)).
Proof.
  intros Hm. unfold reserve_locked. rewrite st_bind_run. pose proof (file_remaining_run n) as Hf.
  destruct (file_remaining n) as [r n1]. destruct Hf as (Hr & E1 & Hc). cbn [fst snd].
  rewrite st_bind_run. cbn [fst snd svc gets]. rewrite E1.
  destruct (Z.eqb_spec (lease_remaining (activity_until n.1) now r) 0) as [E|E].
  - rewrite !st_bind_run. unfold update. rewrite on_fst_run, on_snd_run. cbn [fst snd modify svc gets mret st_ret].
    split_and!.
    + intros t H. by apply keeps_activity_mark, Hc.
    + done.
    + intros _. split; [by rewrite E1|]. intros Hd. eapply lease_remaining_zero; [|exact Hd|exact E]. lia.
  - cbn. split_and!; [done|by rewrite E1|done].
Qed.

Lemma mark_activity_run n :
  clock_from (w_now n.2) n.2 ->
  let n' := (mark_activity n).2 in
  (forall t, clock_from t n.2 -> clock_from t n'.2)
  /\ w_now n.2 + 300 <= activity_until n'.1 <= w_now n'.2 + 300.
Proof.
  intros Hn. unfold mark_activity. rewrite !st_bind_run. unfold update. rewrite !on_snd_run, on_fst_run.
  cbn [fst snd svc gets modify mret st_ret]. pose proof (keeps_time (w_now n.2) n.2 Hn) as [_ Ht].
  assert (Hnow : (time n.2).1 = w_now (time n.2).2) by (unfold time; by destruct (w_ticks n.2)).
  split.
  - intros t H. by apply keeps_activity_mark, keeps_time.
  - cbn. rewrite Hnow. unfold CONVERSATION_LEASE_SECONDS. split; [lia|].
    assert (Hm : clock_from (w_now (time n.2).2) (time n.2).2).
    { split; [|lia]. by apply (keeps_time (w_now n.2)). }
    destruct (keeps_activity_mark _ (activity_path (config n.1)) _ Hm) as [_ H]. lia.
Qed.

Lemma leased_step t0 n n' : lease_step n n' -> leased t0 n -> leased t0 n'.
Proof.
  intros Hs [[Hm Ht] Hu]. destruct Hs as [now n [Hlo Hhi]|n|n n' E Hm' Hw].
  - pose proof (reserve_locked_run now n Hm) as H. destruct (reserve_locked now n) as [r n'].
    destruct H as (Hc & Hne & Heq). cbn [snd].
    assert (Hc' : clock_from (w_now n.2) n'.2) by by apply Hc.
    split; [by apply Hc|]. destruct Hc' as [_ Hw]. destruct (Z.eq_dec r 0) as [->|Hr].
    + destruct (Heq eq_refl) as [-> Hover]. specialize (Hover ltac:(lia)). lia.
    + rewrite (Hne Hr). lia.
  - destruct (mark_activity_run n) as [Hc Hb]; [by split|].
    split; [by apply Hc|]. lia.
  - split; [split; [done|lia]|]. rewrite E. lia.
Qed.

(** C7: [INITIATE] is exclusive: after a successful reservation, and until
    somebody releases it, no other thread's reservation succeeds before the 300
    seconds of the lease have passed, whatever interleaving of reservations,
    activity and other steps happens in between. *)
Theorem reservation_exclusive now0 n0 n1 n2 now1 n3 :
  monotone n0.2 -> read_before now0 n0 -> reserve_locked now0 n0 = (0, n1) ->
  rtc lease_step n1 n2 ->
  read_before now1 n2 -> reserve_locked now1 n2 = (0, n3) ->
  now0 + 300 <= now1.
Proof.
  intros Hm [Hlo0 Hhi0] E0 Hsteps [Hlo1 Hhi1] E1.
  assert (H1 : leased now0 n1).
  { pose proof (reserve_locked_run now0 n0 Hm) as H. rewrite E0 in H. destruct H as (Hc & _ & Heq).
    destruct (Heq eq_refl) as [Hu _].
    assert (Hc' : clock_from (w_now n0.2) n1.2) by by apply Hc. destruct Hc' as [? ?].
    split; [split; [done|lia]|lia]. }
  assert (H2 : leased now0 n2).
  { clear -Hsteps H1. induction Hsteps as [|a b' c' Hs _ IH]; [done|]. by apply IH, (leased_step now0 a). }
  destruct H2 as [[Hm2 _] Hu]. pose proof (reserve_locked_run now1 n2 Hm2) as H. rewrite E1 in H.
  destruct H as (_ & _ & Heq). destruct (Heq eq_refl) as [_ Hover]. specialize (Hover ltac:(lia)). lia.
Qed.

Lemma reservation_exclusive_witness :
  let n0 : node := (fresh_service Config.defaults [], World ∅ 1000 [0; 400] [] [] [] ∅ [] []) in
  let n1 := (reserve_locked 1000 n0).2 in
  let n2 : node := (n1.1, World ∅ 1400 [] [] [] [] ∅ [] []) in
  (reserve_locked 1000 n0).1 = 0 /\ (reserve_locked 1299 n1).1 <> 0
  /\ (reserve_locked 1350 n2).1 = 0 /\ 1000 + 300 <= 1350.
Proof.
  intros n0 n1 n2. do 3 (split; [by vm_compute|]).
  apply (reservation_exclusive 1000 n0 n1 n2 1350 (reserve_locked 1350 n2).2).
  - by apply (bool_decide_unpack _); vm_compute.
  - split; vm_compute; done.
  - vm_compute. reflexivity.
  - apply rtc_once, lease_other; [done|constructor|by vm_compute].
  - split; vm_compute; done.
  - vm_compute. reflexivity.
Defined.

(** a participant who does not hold the floor cannot speak: [SAY] is
    answered with NOT_YOUR_TURN, nothing is logged or relayed, and the floor, the
    vote and the lease stay as they were. *)
Theorem say_requires_turn uninit r s w k person w1 k1 m k2 :
  Proto.protocol_accept_identity uninit (contacts s) r (w, k) = (Some person, (w1, k1)) ->
  network_read_line Proto.COUNCIL_MESSAGE_LENGTH k1 = (Some (str "SAY " ++ m), k2) ->
  Arb.arbitration_can_speak (arbitration s) (name (contact_at s person)) = false ->
  exists w', handle_connection uninit r (s, (w, k))
    = (tt, (set_last_seen (<[person := w_now w']> (last_seen s))
              (set_online (<[person := true]> (online s)) s),
            (w', (network_send (str "ERROR NOT_YOUR_TURN" ++ [NL]) k2).2)))
    /\ w_fs w' = w_fs w1 /\ w_closed w' = w_closed w1.
Proof.
  intros Ha Hl Ht. unfold handle_connection. rewrite st_bind_run, on_node_run. cbn [fst snd svc gets id].
  rewrite st_bind_run, on_snd_run. cbn [fst snd]. rewrite Ha. cbn [fst snd].
  rewrite st_bind_run, on_node_run, mark_seen_run. cbn [fst snd].
  set (s1 := set_last_seen _ _). set (w2 := (time w1).2).
  assert (Hnow : (time w1).1 = w_now w2) by (unfold w2, time; by destruct (w_ticks w1)).
  rewrite st_bind_run. unfold on_sock. rewrite !on_snd_run. cbn [fst snd]. rewrite Hl. cbn [fst snd].
  rewrite st_bind_run, on_node_run. cbn [fst snd svc gets id].
  change (arbitration s1) with (arbitration s). change (contact_at s1 person) with (contact_at s person).
  rewrite Ht. rewrite st_bind_run, on_snd_run.
  assert (Hf : Files.file_command_handle (str "SAY " ++ m) (contact_at s person) (config s1) (contacts s1) false
                 (w2, k2) = (false, (w2, k2))) by done.
  cbn [fst snd]. rewrite Hf. cbn [fst snd]. unfold dispatch. rewrite st_bind_run, on_node_run. cbn [fst snd svc gets id].
  exists w2. split.
  - repeat (rewrite (proj2 (bytes_eqb_false _ _)) by done).
    repeat match goal with |- context [starts_with (str ?p) (str "SAY " ++ m)] =>
      first [change (starts_with (str p) (str "SAY " ++ m)) with false
            |change (starts_with (str p) (str "SAY " ++ m)) with true] end.
    cbn [negb]. rewrite reply_run. unfold s1. by rewrite Hnow.
  - unfold w2, time. by destruct (w_ticks w1).
Qed.

Definition busy_service : council_service :=
  set_arbitration (Arb.arbitration_grant (str "hub") Arb.arbitration_init)
    (fresh_service Config.defaults [Proto.sample_person]).

Definition neo_socket : socket :=
  Socket (Proto.sample_client_says ++ str "SAY hi" ++ [NL]) [] [].

Lemma say_requires_turn_witness :
  let w := World ∅ 50 [] [] [Some Proto.sample_random] [] ∅ [] [] in
  let a := Proto.protocol_accept_identity [] [Proto.sample_person] CONTACT_AI (w, neo_socket) in
  exists w', handle_connection [] CONTACT_AI (busy_service, (w, neo_socket))
    = (tt, (set_last_seen (<[0%nat := w_now w']> (last_seen busy_service))
              (set_online (<[0%nat := true]> (online busy_service)) busy_service),
            (w', (network_send (str "ERROR NOT_YOUR_TURN" ++ [NL])
                    (network_read_line Proto.COUNCIL_MESSAGE_LENGTH a.2.2).2).2)))
    /\ w_fs w' = w_fs a.2.1 /\ w_closed w' = w_closed a.2.1.
Proof.
  intros w a.
  apply (say_requires_turn [] CONTACT_AI busy_service w neo_socket 0 a.2.1 a.2.2 (str "hi")
           (network_read_line Proto.COUNCIL_MESSAGE_LENGTH a.2.2).2).
  - vm_compute. reflexivity.
  - vm_compute. reflexivity.
  - vm_compute. reflexivity.
Defined.

(** ** Where messages go *)

(** The outgoing connections made since [base] all satisfy [P], and the
    contacts are those of [b]. *)
Definition only_to (b : contact_book) (base : list (bytes * Z * socket)) (P : bytes -> Z -> Prop)
    (n : node) : Prop :=
  contacts n.1 = b
  /\ exists l, w_closed n.2 = base ++ l /\ Forall (fun e => P e.1.1 e.1.2) l.

Section recipients.
Context (b : contact_book) (base : list (bytes * Z * socket)) (P : bytes -> Z -> Prop).
Abbreviation I := (only_to b base P).

(** The world part of the invariant. *)
Definition sent_to (w : world) : Prop :=
  exists l, w_closed w = base ++ l /\ Forall (fun e => P e.1.1 e.1.2) l.

Lemma keeps_I_world {A} (m : st world A) : keeps sent_to m -> keeps I (on_snd m).
Proof. intros H n [Hc Hs]. rewrite on_snd_run. split; [done|]. by apply H. Qed.

Lemma keeps_I_update f : (forall s, contacts (f s) = contacts s) -> keeps I (update f).
Proof. intros H n [Hc Hs]. unfold update. rewrite on_fst_run. split; [by rewrite <- Hc; apply H|done]. Qed.

Lemma keeps_I_svc {A} (f : council_service -> A) : keeps I (svc f).
Proof. apply keeps_gets. Qed.

Lemma keeps_same_closed {A} (m : st world A) :
  (forall w, w_closed (m w).2 = w_closed w) -> keeps sent_to m.
Proof. intros H w (l & Hl & HP). exists l. by rewrite H. Qed.

Lemma keeps_close_peer h p k : P h p -> keeps sent_to (close_peer h p k).
Proof.
  intros HP w (l & Hl & Hf). exists (l ++ [(h, p, k)]). cbn. rewrite Hl, <- app_assoc.
  split; [done|]. apply Forall_app. split; [done|]. by repeat constructor.
Qed.

Lemma connect_peer_closed w : w_closed (connect_peer w).2 = w_closed w.
Proof. unfold connect_peer. by destruct (w_peers w). Qed.

Lemma keeps_send_command d n cmd z :
  P (host d) (port d) -> keeps sent_to (Proto.protocol_send_command d n cmd z).
Proof.
  intros HP. unfold Proto.protocol_send_command, Proto.protocol_connect_identity.
  keeps_auto; try (by apply keeps_close_peer). apply keeps_same_closed, connect_peer_closed.
Qed.

Lemma transcript_append_closed p sp e m w :
  w_closed (Log.transcript_append p sp e m w).2 = w_closed w.
Proof.
  unfold Log.transcript_append. rewrite st_bind_run.
  assert (Ht : w_closed (time w).2 = w_closed w) by (unfold time; by destruct (w_ticks w)).
  destruct p as [|c p]; [done|]. unfold file_append. rewrite st_bind_run.
  assert (Hf : forall w, w_closed (fault w).2 = w_closed w) by (intros x; unfold fault; by destruct (w_faults x)).
  specialize (Hf (time w).2). rewrite <- Ht, <- Hf. destruct (fault (time w).2) as [[] w2]; done.
Qed.

Lemma keeps_I_log p sp e m : keeps I (log_event p sp e m).
Proof.
  unfold log_event. keeps_auto. apply keeps_I_world, keeps_same_closed, transcript_append_closed.
Qed.

Lemma deliver_recipients i cmd :
  (forall c, b !! i = Some c -> P (host c) (port c)) -> (i < length b)%nat -> keeps I (deliver i cmd).
Proof.
  intros HP Hi. destruct (lookup_lt_is_Some_2 b i Hi) as [c Hc]. intros n Hn.
  unfold deliver. rewrite st_bind_run. cbn [fst snd svc gets id].
  assert (Hat : contact_at n.1 i = c) by (unfold contact_at; destruct Hn as [-> _]; by rewrite Hc).
  rewrite Hat. revert n Hn Hat. intros n Hn _.
  apply (keeps_bind I); [| |done].
  - destruct (outbound_contact n.1 c) as [d|] eqn:Ed; [|apply keeps_ret].
    assert (Hd : host d = host c /\ port d = port c).
    { unfold outbound_contact in Ed. destruct (Book.contact_book_find _ _); [|done]. cbn in Ed.
      destruct (contacts n.1 !! _); [|done]. cbn in Ed. by injection Ed as <-. }
    keeps_auto. apply keeps_I_world, keeps_send_command. destruct Hd as [-> ->]. by apply HP.
  - intros ok. keeps_auto. by apply keeps_I_update.
Qed.
End recipients.

(** The contacts a message of [from] may be delivered to. *)
Definition recipient (b : contact_book) (from : nat) (target : option nat) (h : bytes) (p : Z) : Prop :=
  exists i c, b !! i = Some c /\ role c = CONTACT_AI /\ i <> from
    /\ (forall t, target = Some t -> i = t) /\ h = host c /\ p = port c.

Lemma ai_in_book s i : role (contact_at s i) = CONTACT_AI -> contacts s !! i = Some (contact_at s i).
Proof. unfold contact_at. by destruct (contacts s !! i). Qed.

Lemma relay_loop_recipients b base todo from target message next n :
  only_to b base (recipient b from target) n ->
  let '(next', n') := relay_loop todo from target message next n in
  only_to b base (recipient b from target) n' /\ (next' = next \/ (next' = target /\ is_Some target)).
Proof.
  revert next n; induction todo as [|i todo IH]; intros next n Hn; cbn [relay_loop].
  { cbn. split; [done|by left]. }
  rewrite st_bind_run. cbn [fst snd svc gets id]. destruct (skips n.1 from target i) eqn:Es; [by apply IH|].
  unfold skips in Es. to_prop. destruct target as [t|] eqn:Et.
  - rewrite st_bind_run. to_prop. subst i.
    assert (Hb : b !! t = Some (contact_at n.1 t)) by (destruct Hn as [<- _]; by apply ai_in_book).
    assert (Hn' : only_to b base (recipient b from (Some t)) (deliver t (deliver_command (contact_at n.1 from) message) n).2).
    { apply deliver_recipients; [|by eapply lookup_lt_Some|done].
      intros c Hc. assert (c = contact_at n.1 t) as -> by congruence. exists t, (contact_at n.1 t). naive_solver. }
    specialize (IH (if (deliver t (deliver_command (contact_at n.1 from) message) n).1 then Some t else next) _ Hn').
    destruct (relay_loop _ _ _ _ _ _) as [next' n']. destruct IH as [HI HN]. split; [done|].
    destruct (deliver _ _ _).1; naive_solver.
  - rewrite st_bind_run. to_prop.
    assert (Hb : b !! i = Some (contact_at n.1 i)) by (destruct Hn as [<- _]; by apply ai_in_book).
    apply IH. apply deliver_recipients; [|by eapply lookup_lt_Some|done].
    intros c Hc. assert (c = contact_at n.1 i) as -> by congruence. exists i, (contact_at n.1 i). naive_solver.
Qed.

Lemma announce_recipients b base s from target next n :
  contacts s = b -> only_to b base (recipient b from target) n ->
  (forall m, next = Some m -> m <> from /\ (forall t, target = Some t -> m = t)) ->
  only_to b base (recipient b from target) (announce s from next n).2.
Proof.
  intros Hs Hn Hm. destruct next as [m|]; [|done]. destruct (Hm m eq_refl) as [Hne Htm].
  apply (keeps_bind (only_to b base (recipient b from target))); [|intros ?|done].
  - destruct (bool_decide (role (contact_at s m) = CONTACT_AI)) eqn:Er; [|apply keeps_ret]. to_prop.
    apply keeps_bind; [|intros; apply keeps_ret]. pose proof (ai_in_book s m Er) as Hb. rewrite Hs in Hb.
    apply deliver_recipients; [|by eapply lookup_lt_Some].
    intros c Hc. assert (c = contact_at s m) as -> by congruence.
    exists m, (contact_at s m). split_and!; done.
  - keeps_auto. apply keeps_I_log.
Qed.

(** a message reaches only AI contacts other than its sender, and, when
    it is addressed to a contact, nobody but that contact: every connection
    that relaying opens, for delivery or for the following grant, is to such a
    contact. *)
Theorem relay_recipients from message s w :
  only_to (contacts s) (w_closed w) (recipient (contacts s) from (message_target s message).1)
    (relay_message from message (s, w)).2.
Proof.
  set (b := contacts s). set (base := w_closed w).
  assert (H0 : forall P, only_to b base P (s, w)).
  { intros P. split; [done|]. exists []. by rewrite app_nil_r. }
  unfold relay_message. rewrite st_bind_run. cbn [fst snd svc gets id].
  destruct (message_target s message) as [target addressed] eqn:Em. cbn [fst].
  destruct (addressed && _); [by apply H0|]. destruct (bool_decide (target = Some from)) eqn:Ef; [by apply H0|].
  to_prop. rewrite st_bind_run.
  set (next0 := match target with Some t => _ | None => None end).
  assert (Hn0 : next0 = None \/ (next0 = target /\ is_Some target)).
  { subst next0. destruct target as [t|]; [|by left]. destruct (_ && _); [right|left]; eauto. }
  pose proof (relay_loop_recipients b base (seq 0 (length (contacts s))) from target message next0 (s, w) (H0 _)) as Hl.
  destruct (relay_loop _ _ _ _ _ (s, w)) as [next1 n1]. cbn [fst snd]. destruct Hl as [Hn1 Hnext1].
  set (P := recipient b from target) in *.
  rewrite st_bind_run. destruct target as [t|].
  - destruct next1 as [m|]; [|done]. assert (m = t) as ->.
    { destruct Hnext1 as [E|[E _]]; [|congruence]. destruct Hn0 as [|[E' _]]; congruence. }
    apply announce_recipients; [done|..]; rewrite st_bind_run; cbn [fst snd mret st_ret].
    + by apply keeps_I_update.
    + intros m [= <-]. split; [by intros ->|]. by intros ? [= <-].
  - unfold next_speaker. rewrite st_bind_run. cbn [fst snd svc gets id].
    destruct (Arb.arbitration_next _ _ _ _) as [i a] eqn:Ea.
    apply announce_recipients; [done|..]; rewrite st_bind_run; cbn [fst snd mret st_ret].
    + by apply keeps_I_update.
    + intros m ->. split; [|done].
      unfold Arb.arbitration_next in Ea.
      destruct (Arb.next_loop _ _ _ _ _ _) as [j|] eqn:Ej; [|done]. injection Ea as -> _.
      apply Arb.next_loop_Some in Ej as (k & _ & _ & Hel & _).
      apply Arb.eligible_true in Hel as (c & Hc & _ & Hne). intros ->. apply Hne.
      unfold contact_at. destruct Hn1 as [Hn1 _]. rewrite Hn1 in Hc. fold b. by rewrite Hc.
Qed.

(** ** Ending a conversation is a unanimous vote *)

(** The abstract vote: [None] when none is open, otherwise the contacts whose
    consent is still missing. *)
Definition vote_state : Type := option (gset nat).

(** Nobody left to ask closes the vote. *)
Definition settle (missing : gset nat) : vote_state :=
  if bool_decide (missing = ∅) then None else Some missing.

(** A proposal by [p] among the present [voters]. *)
Definition vote_open (voters : gset nat) (p : nat) : vote_state := settle (voters ∖ {[p]}).

(** A counted vote of [p]: consent, or a veto that ends the vote at once. *)
Definition vote_cast (v : vote_state) (p : nat) (close : bool) : vote_state :=
  match v with
  | None => None
  | Some missing => if close then settle (missing ∖ {[p]}) else None
  end.

Definition missing_votes (s : council_service) : gset nat :=
  list_to_set (filter (fun i => nth i (closure_expected s) false = true /\ nth i (closure_votes s) 0 <> 1)
                      (seq 0 (length (contacts s)))).

(** The abstraction of the service's closure fields. *)
Definition vote_of (s : council_service) : vote_state :=
  if closure_active s then Some (missing_votes s) else None.

Lemma elem_of_missing s i :
  i ∈ missing_votes s <-> (i < length (contacts s))%nat
    /\ nth i (closure_expected s) false = true /\ nth i (closure_votes s) 0 <> 1.
Proof.
  unfold missing_votes. rewrite elem_of_list_to_set, list_elem_of_filter, elem_of_seq. split; [|intros]; naive_solver lia.
Qed.

Lemma closure_complete_missing s : closure_complete s = bool_decide (missing_votes s = ∅).
Proof.
  apply eq_true_iff_eq. rewrite bool_decide_eq_true. unfold closure_complete. rewrite forallb_forall. split.
  - intros H. apply set_eq. intros i. rewrite elem_of_missing. split; [|set_solver].
    intros (Hi & He & Hv). exfalso. specialize (H i). rewrite He in H. cbn [andb] in H.
    assert (Hin : In i (seq 0 (length (contacts s)))) by (apply in_seq; lia).
    apply H in Hin. to_prop. congruence.
  - intros H i Hi%in_seq. destruct (nth i (closure_expected s) false) eqn:He; [|done]. cbn [andb].
    destruct (Z.eqb_spec (nth i (closure_votes s) 0) 1) as [|Hv]; [done|]. exfalso.
    assert (Hin : i ∈ missing_votes s) by (apply elem_of_missing; split_and!; done || lia).
    rewrite H in Hin. set_solver.
Qed.

Lemma missing_after_close s p :
  (p < length (closure_votes s))%nat ->
  missing_votes (set_closure_votes (<[p := 1]> (closure_votes s)) s) = missing_votes s ∖ {[p]}.
Proof.
  intros Hp. apply set_eq. intros i. rewrite elem_of_difference, !elem_of_missing, elem_of_singleton.
  cbn. rewrite nth_insert by done. case_decide; naive_solver.
Qed.

Lemma finish_run n :
  vote_of (finish_if_complete n).2.1 = (if closure_active n.1 then settle (missing_votes n.1) else None)
  /\ (Arb.current_speaker (arbitration (finish_if_complete n).2.1)
      = if closure_complete n.1 then [] else Arb.current_speaker (arbitration n.1)).
Proof.
  destruct n as [s w]. unfold finish_if_complete. rewrite st_bind_run. cbn [fst snd svc gets id].
  unfold settle. rewrite <- closure_complete_missing. destruct (closure_complete s).
  - unfold closure_finish. rewrite st_bind_run. cbn [fst snd svc gets id]. rewrite st_bind_run, log_event_run.
    cbn [fst snd]. rewrite st_bind_run. unfold update, release_initiation. rewrite on_fst_run. cbn [fst snd modify].
    rewrite !st_bind_run, !on_snd_run. unfold update. rewrite on_fst_run. cbn.
    unfold vote_of. cbn. by destruct (closure_active s).
  - cbn. unfold vote_of. by destruct (closure_active s).
Qed.

Lemma cancel_run p n :
  vote_of (closure_cancel p n).2.1 = None
  /\ Arb.current_speaker (arbitration (closure_cancel p n).2.1)
     = snprintf COUNCIL_NAME_LENGTH (name (contact_at n.1 p)).
Proof.
  destruct n as [s w]. unfold closure_cancel. rewrite st_bind_run. cbn [fst snd svc gets id].
  rewrite st_bind_run. unfold update. rewrite on_fst_run. cbn [fst snd modify].
  rewrite st_bind_run, log_event_run. cbn [fst snd]. rewrite st_bind_run, log_event_run. cbn [fst snd].
  unfold mark_activity. rewrite !st_bind_run, !on_snd_run. unfold update. rewrite on_fst_run. done.
Qed.

(** Whether the vote of [p] is one the service counts. *)
Definition may_vote (s : council_service) (p : nat) : bool :=
  closure_active s && nth p (closure_expected s) false.

Definition after_vote (s : council_service) (p : nat) (vote : bytes) : vote_state :=
  match parse_vote vote with
  | Some close => if may_vote s p then vote_cast (vote_of s) p close else vote_of s
  | None => vote_of s
  end.

(** C35: [END_VOTE] refines the abstract vote on every input: a malformed or
    uninvited vote changes nothing, consent removes the voter from those still
    missing and the conversation ends exactly when nobody is missing, a veto
    cancels the vote and gives the floor to the dissenter. *)
Theorem closure_vote_refines person vote s w k :
  (person < length (closure_votes s))%nat ->
  let s' := (closure_vote person vote (s, (w, k))).2.1 in
  vote_of s' = after_vote s person vote
  /\ Arb.current_speaker (arbitration s') =
     match parse_vote vote with
     | Some close =>
         if may_vote s person
         then if close
              then if bool_decide (after_vote s person vote = None) then []
                   else Arb.current_speaker (arbitration s)
              else snprintf COUNCIL_NAME_LENGTH (name (contact_at s person))
         else Arb.current_speaker (arbitration s)
     | None => Arb.current_speaker (arbitration s)
     end.
Proof.
  intros Hp s'. unfold s', after_vote, closure_vote, may_vote. destruct (parse_vote vote) as [close|];
    [|by rewrite reply_run].
  rewrite st_bind_run, on_node_run. unfold cast_vote. rewrite st_bind_run. cbn [fst snd svc gets id].
  destruct (closure_active s) eqn:Ea; cbn [negb orb andb]; [|cbn; by rewrite reply_run].
  destruct (nth person (closure_expected s) false) eqn:Ee; cbn [negb]; [|cbn; by rewrite reply_run].
  rewrite st_bind_run. unfold update. rewrite on_fst_run. cbn [fst snd modify mret st_ret].
  set (s1 := set_closure_votes _ s). rewrite st_bind_run, on_node_run. cbn [fst snd svc gets id].
  rewrite st_bind_run, on_node_run, log_event_run. cbn [fst snd].
  rewrite st_bind_run, reply_run. cbn [fst snd]. rewrite on_node_run. cbn [fst snd].
  set (w1 := (Log.transcript_append _ _ _ _ _).2).
  assert (Hv : vote_of s = Some (missing_votes s)) by (unfold vote_of; by rewrite Ea). rewrite Hv.
  destruct close; cbn [vote_cast].
  - destruct (finish_run (s1, w1)) as [-> ->]. cbn [fst]. rewrite closure_complete_missing.
    change (closure_active s1) with (closure_active s). rewrite Ea.
    assert (Hm : missing_votes s1 = missing_votes s ∖ {[person]}) by (by apply missing_after_close).
    rewrite Hm. split; [done|]. unfold settle.
    by destruct (bool_decide (missing_votes s ∖ {[person]} = ∅)).
  - destruct (cancel_run person (s1, w1)) as [-> ->]. done.
Qed.

Definition voting_service : council_service :=
  set_closure 7 true (map (fun i => i <? 2)%nat (seq 0 64)) (1 :: replicate 63 0) (str "hub")
    (fresh_service Config.defaults sample_book).

Lemma closure_vote_refines_witness :
  let s' := (closure_vote 1 (str "close") (voting_service, (sample_world, Socket [] [] []))).2.1 in
  vote_of s' = after_vote voting_service 1 (str "close")
  /\ Arb.current_speaker (arbitration s') =
     match parse_vote (str "close") with
     | Some close =>
         if may_vote voting_service 1
         then if close
              then if bool_decide (after_vote voting_service 1 (str "close") = None) then []
                   else Arb.current_speaker (arbitration voting_service)
              else snprintf COUNCIL_NAME_LENGTH (name (contact_at voting_service 1))
         else Arb.current_speaker (arbitration voting_service)
     | None => Arb.current_speaker (arbitration voting_service)
     end.
Proof.
  apply (closure_vote_refines 1 (str "close") voting_service sample_world (Socket [] [] [])). cbn. lia.
Defined.

(** The contacts present when a vote is opened. *)
Definition voters (s : council_service) (now : Z) : gset nat :=
  list_to_set (filter (fun i => expected_voter s now i = true) (seq 0 (length (contacts s)))).

Lemma missing_after_open s now p :
  (length (contacts s) <= COUNCIL_MAX_CONTACTS)%nat ->
  missing_votes (set_closure (now mod 2 ^ 64) true (ballot s now) (first_votes s now p)
                   (snprintf COUNCIL_NAME_LENGTH (name (contact_at s p))) s)
  = voters s now ∖ {[p]}.
Proof.
  intros Hb. apply set_eq. intros i. rewrite elem_of_difference, elem_of_missing, elem_of_singleton.
  unfold voters. rewrite elem_of_list_to_set, list_elem_of_filter, elem_of_seq.
  cbn [contacts closure_expected closure_votes set_closure]. split.
  - intros (Hi & He & Hv). unfold ballot in He. unfold first_votes in Hv. rewrite nth_map_seq in He by lia.
    rewrite nth_map_seq in Hv by lia.
    to_prop. rewrite H0 in Hv. destruct (Nat.ltb_spec i (length (contacts s))); [|lia]. cbn [andb] in Hv.
    split; [split; [done|lia]|]. intros ->. by rewrite Nat.eqb_refl in Hv.
  - intros [[He [_ Hi]] Hne]. cbn in Hi. split; [done|]. unfold ballot, first_votes.
    rewrite !nth_map_seq by lia. rewrite He. destruct (Nat.ltb_spec i (length (contacts s))); [|lia].
    cbn [andb]. by destruct (Nat.eqb_spec i p).
Qed.

(** Who may open a vote. *)
Definition may_propose (s : council_service) (p : nat) (has_turn : bool) : bool :=
  is_hub (config s) && (0 <? arbiter_priority (contact_at s p)) && has_turn && negb (closure_active s).

(** [END_PROPOSE] opens a vote only at the hub, for a contact with
    arbiter priority that holds the turn and while none is open; the vote then
    waits for exactly the contacts present, less the proposer, and in every
    other case nothing changes. *)
Theorem closure_propose_refines person reason has_turn s w k :
  (length (contacts s) <= COUNCIL_MAX_CONTACTS)%nat ->
  let s' := (closure_propose person reason has_turn (s, (w, k))).2.1 in
  vote_of s' = if may_propose s person has_turn then vote_open (voters s (time w).1) person else vote_of s.
Proof.
  intros Hb s'. unfold s', closure_propose, may_propose. rewrite st_bind_run, on_node_run, on_snd_run. cbn [fst snd].
  rewrite st_bind_run, on_node_run. cbn [fst snd svc gets id].
  destruct (is_hub (config s)); cbn [negb orb andb]; [|by rewrite reply_run].
  destruct (Z.leb_spec (arbiter_priority (contact_at s person)) 0), (Z.ltb_spec 0 (arbiter_priority (contact_at s person)));
    try lia; cbn [andb]; [by rewrite reply_run|].
  destruct has_turn; cbn [negb andb]; [|by rewrite reply_run].
  rewrite st_bind_run, on_node_run. unfold open_closure. rewrite st_bind_run. cbn [fst snd svc gets id].
  destruct (closure_active s) eqn:Ea; cbn [negb]; [cbn; by rewrite reply_run|].
  rewrite st_bind_run. unfold update. rewrite on_fst_run. cbn [fst snd modify mret st_ret].
  rewrite st_bind_run, on_node_run. cbn [fst snd svc gets id].
  rewrite st_bind_run, on_node_run, log_event_run. cbn [fst snd]. rewrite st_bind_run, reply_run.
  cbn [fst snd]. rewrite on_node_run. cbn [fst snd].
  match goal with |- vote_of (finish_if_complete ?n).2.1 = _ => destruct (finish_run n) as [-> _] end.
  cbn [fst]. rewrite missing_after_open by done. done.
Qed.

Lemma closure_propose_refines_witness :
  let s := sample_service in
  vote_of (closure_propose 0 [] true (s, (sample_world, Socket [] [] []))).2.1
  = if may_propose s 0 true then vote_open (voters s 100) 0 else vote_of s.
Proof.
  apply (closure_propose_refines 0 [] true sample_service sample_world (Socket [] [] [])).
  vm_compute. lia.
Defined.

(** ** A failed initiation gives the lease back *)

(** an [INITIATE] that cannot be routed leaves no lease behind: after any
    error reply the reservation is released, so the next initiator need not wait
    for it. *)
Theorem failed_initiation_releases person message event s w k :
  (relay_message person message (s, w)).1 <> Routed ->
  activity_until (accept_message person message event true (s, (w, k))).2.1 = 0.
Proof.
  intros Hr. unfold accept_message. rewrite st_bind_run, on_node_run. cbn [fst snd].
  assert (H : forall text n, activity_until ((on_node (when true release_initiation) ;; reply text) n).2.1 = 0).
  { intros text [s1 [w1 k1]]. rewrite st_bind_run, on_node_run. cbn [when]. unfold release_initiation.
    rewrite !st_bind_run, !on_snd_run. unfold update. rewrite on_fst_run. cbn [fst snd modify mret st_ret].
    by rewrite reply_run. }
  destruct (relay_message person message (s, w)) as [[] [s1 w1]]; cbn [fst snd] in *; [done|apply H..].
Qed.

Lemma failed_initiation_releases_witness :
  (relay_message 0 (str "hub, hi") (sample_service, sample_world)).1 = TargetSelf
  /\ activity_until (accept_message 0 (str "hub, hi") (str "initiate") true
                       (sample_service, (sample_world, Socket [] [] []))).2.1 = 0.
Proof.
  assert (E : (relay_message 0 (str "hub, hi") (sample_service, sample_world)).1 = TargetSelf)
    by (vm_compute; reflexivity).
  split; [exact E|]. apply (failed_initiation_releases 0 (str "hub, hi") (str "initiate")). by rewrite E.
Defined.

End CouncilFacts.
