(* ===== verification/CouncilWeb.v ===== *)
(** * council/src/council_web.c: the HTTP gateway

    Basic authentication, request parsing, the translation of requests into
    single council commands and the command line.  The two parts of the static
    HTML page (web_page.c) are arguments. *)
From S2P Require Import Prelude CLib World Network Sha256 ContactBook Transcript Protocol.

Open Scope Z_scope.

Module Web.

Definition REQUEST_CAPACITY : nat := Z.to_nat 16384.
Definition COUNCIL_REPLY_CAPACITY : nat := Z.to_nat (2 * 1024 * 1024).

Record web_config := WebConfig { hub : contact; web_name : bytes; authorization : bytes }.

Definition CRLF : bytes := [CR; NL].

(** [None] is -1. *)
Definition read_secret (path : bytes) (size : nat) : st world (option bytes) :=
  f ← file_read path;
  mret (match f with
        | None => None
        | Some content =>
            match fgets size content with
            | None => None
            | Some (line, _) =>
                match cut_at is_crlf (cstr line) with [] => None | secret => Some secret end
            end
        end).

(** ** Base64 *)

Definition table : bytes := str "ABCDEFGHIJKLMNOPQRSTUVWXYZabcdefghijklmnopqrstuvwxyz0123456789+/".

Definition symbol (v : Z) : byte := Sha.at_ table (Z.to_nat (Z.land v 63)).

(** The four characters of one iteration. *)
Definition group (a : byte) (b c : option byte) : bytes :=
  let value := Z.lor (Z.lor (Z.shiftl a 16) (Z.shiftl (default 0 b) 8)) (default 0 c) in
  [symbol (Z.shiftr value 18); symbol (Z.shiftr value 12);
   match b with Some _ => symbol (Z.shiftr value 6) | None => 61 end;
   match c with Some _ => symbol value | None => 61 end].

(** [for(i=0;i<length;i+=3)]: [None] when the output does not fit. *)
Fixpoint base64_loop (input out : bytes) (size : nat) : option bytes :=
  match input with
  | [] => Some out
  | [a] => if (size <=? length out + 4)%nat then None else Some (out ++ group a None None)
  | [a; b] => if (size <=? length out + 4)%nat then None else Some (out ++ group a (Some b) None)
  | a :: b :: c :: input' =>
      if (size <=? length out + 4)%nat then None
      else base64_loop input' (out ++ group a (Some b) (Some c)) size
  end.

Definition base64 (input : bytes) (size : nat) : option bytes := base64_loop input [] size.

Definition make_authorization (name password : bytes) (size : nat) : option bytes :=
  let plain := name ++ str ":" ++ password in
  if (512 <=? length plain)%nat then None
  else encoded ← base64 plain 768;
       let text := str "Basic " ++ encoded in
       if (size <=? length text)%nat then None else Some text.

(** ** HTTP *)

Definition authorized (request wanted : bytes) : bool :=
  match strstr request (CRLF ++ str "Authorization: ") with
  | None => false
  | Some line => bytes_eqb (cut_at is_crlf (drop 17 line)) wanted
  end.

Definition reason (code : Z) : bytes :=
  if code =? 200 then str "OK" else if code =? 401 then str "Unauthorized"
  else if code =? 409 then str "Conflict" else str "Bad Request".

Definition reply_header (code : Z) (type : bytes) (len : nat) : bytes :=
  snprintf 512 (str "HTTP/1.1 " ++ print_int code ++ [SP] ++ reason code ++ CRLF
    ++ str "Content-Type: " ++ type ++ str "; charset=utf-8" ++ CRLF
    ++ str "Content-Length: " ++ print_nat (Z.of_nat len) ++ CRLF
    ++ str "Cache-Control: no-store" ++ CRLF ++ str "Connection: close" ++ CRLF
    ++ (if code =? 401 then str "WWW-Authenticate: Basic realm=" ++ [DQ] ++ str "Noobia Council" ++ [DQ] ++ CRLF
        else [])
    ++ CRLF).

Definition http_reply (code : Z) (body : bytes) : st io unit :=
  on_snd (network_send_bytes (reply_header code (str "text/plain") (length body))) ;;
  on_snd (network_send_bytes body) ;; mret tt.

Definition text_reply (code : Z) (text : string) : st io unit := http_reply code (str text ++ [NL]).

Definition http_page_reply (layout controller : bytes) : st io unit :=
  let len := (length layout + length controller)%nat in
  on_snd (network_send_bytes (snprintf 384 (str "HTTP/1.1 200 OK" ++ CRLF
    ++ str "Content-Type: text/html; charset=utf-8" ++ CRLF
    ++ str "Content-Length: " ++ print_nat (Z.of_nat len) ++ CRLF
    ++ str "Cache-Control: no-store" ++ CRLF ++ str "Connection: close" ++ CRLF ++ CRLF))) ;;
  on_snd (network_send_bytes layout) ;;
  on_snd (network_send_bytes controller) ;; mret tt.

(** ** The exchange with the council *)

(** [while(network_read_line(...)>=0){...}]; [None] when the reply overflows.
    Every iteration consumes a line of the input. *)
Fixpoint exchange_loop (fuel : nat) (multiline : bool) (out : bytes) (size : nat)
    : st socket (option bytes) :=
  match fuel with
  | O => mret (Some out)
  | S f =>
      line ← network_read_line (Z.to_nat 8224);
      match line with
      | None => mret (Some out)
      | Some line =>
          if (size <? length line + length out + 2)%nat then mret None
          else
            let out := out ++ line ++ [NL] in
            if negb multiline || bytes_eqb line (str "END") then mret (Some out)
            else exchange_loop f multiline out size
      end
  end.

Definition exchange_read (multiline : bool) (size : nat) : st socket (option bytes) := fun k =>
  exchange_loop (S (length (s_in k))) multiline [] size k.

Definition exchange_dialogue (command : bytes) (multiline : bool) (size : nat) : st socket (option bytes) :=
  sent ← network_send (command ++ [NL]);
  if sent : bool then exchange_read multiline size else mret None.

Definition council_exchange (config : web_config) (command : bytes) (multiline : bool) (size : nat)
    : st world (option bytes) :=
  if bool_decide (is_Some (strchr command CR)) || bool_decide (is_Some (strchr command NL))
     || (Z.to_nat 8192 <=? length command + 1)%nat then mret None
  else
    c ← Proto.protocol_connect_identity (hub config) (web_name config);
    match c with
    | None => mret None
    | Some k =>
        let '(out, k) := exchange_dialogue command multiline size k in
        close_peer (host (hub config)) (port (hub config)) k ;;
        mret (match out with Some [] => None | r => r end)
    end.

(** ** Requests *)

(** The request up to [used] and the offset of the body; every [recv] of the
    loop makes progress. *)
Fixpoint receive_loop (fuel size : nat) (request : bytes) : st socket (option (bytes * bytes)) :=
  match fuel with
  | O => mret None
  | S f =>
      if (length request + 1 <? size)%nat then
        b ← recv (size - length request - 1);
        match b with
        | None => mret None
        | Some b =>
            let request := request ++ b in
            let text := cstr request in
            match strstr text (CRLF ++ CRLF) with
            | None => receive_loop f size request
            | Some headers =>
                let body := drop 4 headers in
                let offset := Z.of_nat (length text - length body) in
                let needed := match strstr text (CRLF ++ str "Content-Length:") with
                              | Some h => value_or_0 (strtoul (drop 17 h))
                              | None => 0
                              end in
                if (offset + needed) mod 2 ^ 64 <=? Z.of_nat (length request)
                then mret (Some (text, body)) else receive_loop f size request
            end
        end
      else mret None
  end.

Definition receive_request (size : nat) : st socket (option (bytes * bytes)) := receive_loop size size [].

(** The message as the command uses it, [None] for -1.  [length] is taken
    before the leading white space is removed. *)
Definition clean_message (message : bytes) : option bytes :=
  let trailing := rtrim message in
  let m := skip_space trailing in
  if bytes_eqb m [] || bool_decide (is_Some (strchr m CR)) || bool_decide (is_Some (strchr m NL))
     || (Z.to_nat 7900 <? length trailing)%nat then None else Some m.

(** What a request asks for. *)
Inductive request_action :=
| ServePage
| Command (command : bytes) (multiline : bool)
| InvalidMessage
| UnknownEndpoint.

(** The verb of a [POST] endpoint. *)
Definition verb_of (path : bytes) : option bytes :=
  if bytes_eqb path (str "/api/initiate") then Some (str "INITIATE")
  else if bytes_eqb path (str "/api/say") then Some (str "SAY")
  else if bytes_eqb path (str "/api/vote") then Some (str "END_VOTE") else None.

Definition route (method path body : bytes) : request_action :=
  let get := bytes_eqb method (str "GET") in
  if get && bytes_eqb path (str "/") then ServePage
  else if get && starts_with (str "/api/events?cursor=") path then
    Command (snprintf 64 (str "EVENTS " ++ print_nat (value_or_0 (strtoul (drop 19 path))))) true
  else if get && bytes_eqb path (str "/api/status") then Command (str "STATUS") true
  else match (if bytes_eqb method (str "POST") then verb_of path else None) with
       | Some verb => match clean_message body with
                      | None => InvalidMessage
                      | Some m => Command (verb ++ [SP] ++ m) false
                      end
       | None => UnknownEndpoint
       end.

Definition scan_request (request : bytes) : option (bytes * bytes) :=
  '(method, r) ← scan_word 7 request;
  '(path, _) ← scan_word 511 (scan_ws r);
  Some (method, path).

(** The end of [handle_request]: one exchange and its reply. *)
Definition relay_command (config : web_config) (command : bytes) (multiline : bool) : st io unit :=
  no_memory ← on_fst fault;
  reply ← (if no_memory : bool then mret None
           else on_fst (council_exchange config command multiline COUNCIL_REPLY_CAPACITY));
  match reply with
  | None => text_reply 409 "Council unavailable"
  | Some reply => http_reply (if starts_with (str "ERROR") reply then 409 else 200) (cstr reply)
  end.

(** The authenticated part of [handle_request]. *)
Definition answer_request (layout controller : bytes) (config : web_config) (method path body : bytes)
    : st io unit :=
  match route method path body with
  | ServePage => http_page_reply layout controller
  | action =>
      no_memory ← on_fst fault;
      if no_memory : bool then text_reply 400 "out of memory"
      else match action with
      | Command command multiline => relay_command config command multiline
      | InvalidMessage => text_reply 400 "invalid message"
      | _ => text_reply 400 "unknown endpoint"
      end
  end.

(** What [handle_request] does with what [receive_request] returned. *)
Definition handle_received (layout controller : bytes) (config : web_config)
    (request : option (bytes * bytes)) : st io unit :=
  match request ≫= (fun rb => scan_request rb.1 ≫= (fun mp => Some (rb, mp))) with
  | None => text_reply 400 "bad request"
  | Some ((text, body), (method, path)) =>
      if negb (authorized text (authorization config)) then text_reply 401 "authentication required"
      else answer_request layout controller config method path body
  end.

Definition handle_request (layout controller : bytes) (config : web_config) : st io unit :=
  request ← on_snd (receive_request REQUEST_CAPACITY);
  handle_received layout controller config request.

(** ** The command line *)

Record options := Options {
  o_bind : option bytes; o_port : Z; o_hub_host : bytes; o_hub_port : Z; o_name : bytes;
  o_key_file : option bytes; o_password_file : option bytes
}.

Definition no_options : options := Options None 0 [] 0 [] None None.

(** A flag in last position advances [i] past [argv], and the next [strcmp]
    reads [argv[argc]]. *)
Inductive parsed (A : Type) := Parsed (a : A) | Usage | NullArgument.
Arguments Parsed {A}. Arguments Usage {A}. Arguments NullArgument {A}.

Definition set_option (flag value : bytes) (o : options) : option options :=
  if bytes_eqb flag (str "--bind") then
    Some (Options (Some value) (o_port o) (o_hub_host o) (o_hub_port o) (o_name o) (o_key_file o) (o_password_file o))
  else if bytes_eqb flag (str "--port") then
    Some (Options (o_bind o) (to_u16 (atoi value)) (o_hub_host o) (o_hub_port o) (o_name o) (o_key_file o) (o_password_file o))
  else if bytes_eqb flag (str "--hub") then
    Some (Options (o_bind o) (o_port o) (snprintf COUNCIL_HOST_LENGTH value) (o_hub_port o) (o_name o) (o_key_file o) (o_password_file o))
  else if bytes_eqb flag (str "--hub-port") then
    Some (Options (o_bind o) (o_port o) (o_hub_host o) (to_u16 (atoi value)) (o_name o) (o_key_file o) (o_password_file o))
  else if bytes_eqb flag (str "--name") then
    Some (Options (o_bind o) (o_port o) (o_hub_host o) (o_hub_port o) (snprintf COUNCIL_NAME_LENGTH value) (o_key_file o) (o_password_file o))
  else if bytes_eqb flag (str "--key-file") then
    Some (Options (o_bind o) (o_port o) (o_hub_host o) (o_hub_port o) (o_name o) (Some value) (o_password_file o))
  else if bytes_eqb flag (str "--password-file") then
    Some (Options (o_bind o) (o_port o) (o_hub_host o) (o_hub_port o) (o_name o) (o_key_file o) (Some value))
  else None.

(** The last flag compares itself with nothing after it. *)
Definition last_flag (flag : bytes) : parsed options :=
  if bytes_eqb flag (str "--password-file") then Usage
  else match set_option flag [] no_options with Some _ => NullArgument | None => Usage end.

Fixpoint parse_args (args : list bytes) (o : options) : parsed options :=
  match args with
  | [] => Parsed o
  | [flag] => last_flag flag
  | flag :: value :: args' =>
      match set_option flag value o with
      | Some o => parse_args args' o
      | None => Usage
      end
  end.

(** [main] up to the listener: the configuration, its bind address and port. *)
Definition web_main (args : list bytes) : st world (parsed (web_config * bytes * Z)) :=
  match parse_args args no_options with
  | NullArgument => mret NullArgument
  | Usage => mret Usage
  | Parsed o =>
      match o_bind o, o_key_file o, o_password_file o with
      | Some bind, Some key_file, Some password_file =>
          if (o_port o =? 0) || bytes_eqb (o_hub_host o) [] || (o_hub_port o =? 0) || bytes_eqb (o_name o) []
          then mret Usage
          else
            key ← read_secret key_file COUNCIL_KEY_LENGTH;
            match key with
            | None => mret Usage
            | Some key =>
                password ← read_secret password_file 384;
                match password ≫= (fun p => make_authorization (o_name o) p (Z.to_nat 1024)) with
                | None => mret Usage
                | Some auth =>
                    let h := Contact [] CONTACT_UNSET (o_hub_host o) (o_hub_port o) key 0 0 in
                    mret (Parsed (WebConfig h (o_name o) auth, bind, o_port o))
                end
            end
      | _, _, _ => mret Usage
      end
  end.

(** ** Base64 loses nothing *)

Fixpoint index_of (c : byte) (l : bytes) : Z :=
  match l with [] => 0 | x :: l' => if x =? c then 0 else 1 + index_of c l' end.

(** The value of a character; the padding counts as zero. *)
Definition unsymbol (c : byte) : Z := if c =? 61 then 0 else index_of c table.

Fixpoint unbase64 (s : bytes) : bytes :=
  match s with
  | c1 :: c2 :: c3 :: c4 :: s' =>
      let v := unsymbol c1 * 262144 + unsymbol c2 * 4096 + unsymbol c3 * 64 + unsymbol c4 in
      if c3 =? 61 then [v / 65536]
      else if c4 =? 61 then [v / 65536; v / 256 mod 256]
      else v / 65536 :: v / 256 mod 256 :: v mod 256 :: unbase64 s'
  | _ => []
  end.

Lemma symbol_inverse v : unsymbol (symbol v) = v mod 64 /\ symbol v <> 61.
Proof.
  unfold symbol. change 63 with (Z.ones 6). rewrite Z.land_ones by lia. change (2 ^ 6) with 64.
  pose proof (Z.mod_pos_bound v 64 ltac:(lia)) as H. generalize dependent (v mod 64). clear v. intros v Hv.
  assert (Hn : (Z.to_nat v < 64)%nat) by lia. rewrite <- (Z2Nat.id v) at 2 by lia. revert Hn.
  generalize (Z.to_nat v). clear v Hv. intros n Hn.
  do 64 (destruct n as [|n]; [vm_compute; split; done|]). lia.
Qed.

Lemma group_value a b c :
  byte_ok a -> byte_ok b -> byte_ok c ->
  Z.lor (Z.lor (Z.shiftl a 16) (Z.shiftl b 8)) c = a * 65536 + b * 256 + c.
Proof.
  unfold byte_ok. intros Ha Hb Hc. rewrite <- Z.lor_assoc.
  rewrite (lor_shiftl b c 8) by lia. rewrite lor_shiftl by lia. lia.
Qed.

Lemma shiftr_div v k : 0 <= k -> Z.shiftr v k = v / 2 ^ k.
Proof. apply Z.shiftr_div_pow2. Qed.

(** The value of four characters made from one 24-bit number. *)
Lemma regroup v :
  0 <= v < 16777216 ->
  v / 262144 mod 64 * 262144 + v / 4096 mod 64 * 4096 + v / 64 mod 64 * 64 + v mod 64 = v.
Proof. intros. Z.to_euclidean_division_equations. lia. Qed.

Lemma unbase64_group3 a b c rest :
  byte_ok a -> byte_ok b -> byte_ok c ->
  unbase64 (group a (Some b) (Some c) ++ rest) = a :: b :: c :: unbase64 rest.
Proof.
  intros Ha Hb Hc. unfold group. cbn [default from_option id]. rewrite group_value by done.
  set (v := a * 65536 + b * 256 + c). cbn [app unbase64].
  destruct (symbol_inverse (Z.shiftr v 18)) as [-> _], (symbol_inverse (Z.shiftr v 12)) as [-> _].
  destruct (symbol_inverse (Z.shiftr v 6)) as [-> H3], (symbol_inverse v) as [-> H4].
  rewrite (proj2 (Z.eqb_neq _ _) H3), (proj2 (Z.eqb_neq _ _) H4).
  rewrite !shiftr_div by lia. change (2 ^ 18) with 262144. change (2 ^ 12) with 4096. change (2 ^ 6) with 64.
  unfold byte_ok in *. rewrite regroup by (subst v; lia). subst v.
  repeat f_equal; Z.to_euclidean_division_equations; lia.
Qed.

Lemma unbase64_group2 a b :
  byte_ok a -> byte_ok b -> unbase64 (group a (Some b) None) = [a; b].
Proof.
  intros Ha Hb. unfold group. cbn [default from_option id]. rewrite group_value by (done || unfold byte_ok; lia).
  set (v := a * 65536 + b * 256 + 0). cbn [unbase64].
  destruct (symbol_inverse (Z.shiftr v 18)) as [-> _], (symbol_inverse (Z.shiftr v 12)) as [-> _].
  destruct (symbol_inverse (Z.shiftr v 6)) as [-> H3].
  rewrite (proj2 (Z.eqb_neq _ _) H3). cbn [Z.eqb Pos.eqb]. change (unsymbol 61) with 0.
  rewrite !shiftr_div by lia. change (2 ^ 18) with 262144. change (2 ^ 12) with 4096. change (2 ^ 6) with 64.
  unfold byte_ok in *. assert (Hv : v mod 64 = 0) by (subst v; Z.to_euclidean_division_equations; lia).
  assert (E : v / 262144 mod 64 * 262144 + v / 4096 mod 64 * 4096 + v / 64 mod 64 * 64 + 0 = v).
  { rewrite <- Hv. apply regroup. subst v. lia. }
  rewrite E. subst v. repeat f_equal; Z.to_euclidean_division_equations; lia.
Qed.

Lemma unbase64_group1 a : byte_ok a -> unbase64 (group a None None) = [a].
Proof.
  intros Ha. unfold group. cbn [default from_option id]. rewrite group_value by (done || unfold byte_ok; lia).
  set (v := a * 65536 + 0 * 256 + 0). cbn [unbase64].
  destruct (symbol_inverse (Z.shiftr v 18)) as [-> _], (symbol_inverse (Z.shiftr v 12)) as [-> _].
  cbn [Z.eqb Pos.eqb]. change (unsymbol 61) with 0. rewrite !shiftr_div by lia.
  change (2 ^ 18) with 262144. change (2 ^ 12) with 4096. unfold byte_ok in *. subst v.
  f_equal. Z.to_euclidean_division_equations. lia.
Qed.

Lemma length_group a b c : length (group a b c) = 4%nat.
Proof. done. Qed.

Lemma base64_loop_spec n input out size :
  (length input <= n)%nat -> bytes_ok input ->
  match base64_loop input out size with
  | Some e => exists t, e = out ++ t /\ unbase64 t = input /\ length t = (4 * ((length input + 2) / 3))%nat
  | None => (size <= length out + 4 * ((length input + 2) / 3))%nat
  end.
Proof.
  revert input out; induction n as [|n IH]; intros input out Hn Hb.
  { destruct input; [|cbn in Hn; lia]. cbn. exists []. by rewrite app_nil_r. }
  destruct input as [|a [|b [|c input]]]; cbn [base64_loop].
  - exists []. by rewrite app_nil_r.
  - apply Forall_cons in Hb as [Ha _]. destruct (Nat.leb_spec size (length out + 4)); [cbn; lia|].
    exists (group a None None). split_and!; [done|by apply unbase64_group1|done].
  - apply Forall_cons in Hb as [Ha Hb]. apply Forall_cons in Hb as [Hb _].
    destruct (Nat.leb_spec size (length out + 4)); [cbn; lia|].
    exists (group a (Some b) None). split_and!; [done|by apply unbase64_group2|done].
  - rewrite !Forall_cons in Hb. destruct Hb as (Ha & Hb & Hc & Hin).
    assert (Hdiv : ((length (a :: b :: c :: input) + 2) / 3 = 1 + (length input + 2) / 3)%nat).
    { cbn [length]. replace (S (S (S (length input))) + 2)%nat with (length input + 2 + 1 * 3)%nat by lia.
      rewrite Nat.div_add by lia. lia. }
    rewrite Hdiv. destruct (Nat.leb_spec size (length out + 4)); [lia|].
    specialize (IH input (out ++ group a (Some b) (Some c)) ltac:(cbn in Hn; lia) Hin).
    destruct (base64_loop _ _ _) as [e|].
    + destruct IH as (t & -> & Ht & Hl). exists (group a (Some b) (Some c) ++ t).
      rewrite <- app_assoc, unbase64_group3, Ht, length_app, length_group, Hl by done.
      split_and!; done || lia.
    + rewrite length_app, length_group in IH. lia.
Qed.

(** [base64] never loses information: whatever it encodes decodes to its
    input, and it succeeds exactly when the encoding and its NUL fit. *)
Theorem base64_roundtrip input size :
  bytes_ok input -> input <> [] ->
  match base64 input size with
  | Some e => unbase64 e = input /\ (length e < size)%nat /\ length e = (4 * ((length input + 2) / 3))%nat
  | None => (size <= 4 * ((length input + 2) / 3))%nat
  end.
Proof.
  intros Hb Hne. unfold base64. pose proof (base64_loop_spec (length input) input [] size (le_n _) Hb) as H.
  destruct (base64_loop input [] size) as [e|] eqn:E; [|exact H].
  destruct H as (t & -> & Ht & Hl). cbn [app] in *. split_and!; [done| |done].
  assert (Hs : forall n input out e, (length input <= n)%nat -> input <> [] ->
            base64_loop input out size = Some e -> (length e < size)%nat).
  { clear. induction n as [|n IH]; intros input out e Hn Hne E; [destruct input; [done|cbn in Hn; lia]|].
    destruct input as [|a [|b [|c input]]]; cbn [base64_loop] in E; [done|..];
      destruct (Nat.leb_spec size (length out + 4)); try done.
    - injection E as <-. rewrite length_app, length_group. lia.
    - injection E as <-. rewrite length_app, length_group. lia.
    - destruct input as [|d input].
      + injection E as <-. rewrite length_app, length_group. lia.
      + eapply IH; [| |exact E]; [cbn in *; lia|done]. }
  by eapply Hs.
Qed.

Lemma base64_roundtrip_witness :
  base64 (str "ab:cd") 768 = Some (str "YWI6Y2Q=")
  /\ unbase64 (str "YWI6Y2Q=") = str "ab:cd"
  /\ match base64 (str "ab:cd") 768 with
     | Some e => unbase64 e = str "ab:cd" /\ (length e < 768)%nat /\ length e = 8%nat
     | None => (768 <= 8)%nat
     end.
Proof.
  split; [vm_compute; reflexivity|]. split; [vm_compute; reflexivity|].
  apply (base64_roundtrip (str "ab:cd") 768); [|done]. by apply (bool_decide_unpack _); vm_compute.
Defined.

(** ** Only authenticated, single commands reach the council *)

Definition verbs : list bytes :=
  [str "EVENTS "; str "STATUS"; str "INITIATE "; str "SAY "; str "END_VOTE "].

(** A command the gateway may send: one line that starts with a known verb. *)
Definition gateway_command (c : bytes) : Prop :=
  (NL ∉ c) /\ (CR ∉ c) /\ exists v, v ∈ verbs /\ starts_with v c = true.

Lemma clean_message_spec body m :
  clean_message body = Some m ->
  m <> [] /\ (NL ∉ m) /\ (CR ∉ m) /\ Z.of_nat (length m) <= 7900.
Proof.
  unfold clean_message. set (t := rtrim body).
  destruct (_ || _) eqn:E; [done|]. intros [= <-]. to_prop.
  split_and!.
  - done.
  - by apply strchr_None, eq_None_not_Some.
  - by apply strchr_None, eq_None_not_Some.
  - assert (length (skip_space t) <= length t)%nat.
    { unfold skip_space. rewrite <- (span_app (fun c => negb (isspace c)) t) at 2. rewrite length_app. lia. }
    lia.
Qed.

Lemma digits_no_eol n : (NL ∉ print_nat n) /\ (CR ∉ print_nat n).
Proof.
  pose proof (print_nat_isdigit n) as H.
  split; intros Hin; apply (proj1 (Forall_forall _ _) H) in Hin; done.
Qed.

Lemma not_in_take c n (l : bytes) : c ∉ l -> c ∉ take n l.
Proof. intros H Hin. apply H. rewrite <- (take_drop n l). apply elem_of_app. by left. Qed.

Lemma route_command method path body c multi :
  route method path body = Command c multi -> gateway_command c.
Proof.
  unfold route. destruct (_ && bytes_eqb path (str "/")); [done|].
  destruct (_ && starts_with _ path).
  { intros E. apply (f_equal (fun a => match a with Command c _ => c | _ => [] end)) in E.
    cbv beta iota in E. subst c. destruct (digits_no_eol (value_or_0 (strtoul (drop 19 path)))) as [H1 H2].
    split_and!.
    - unfold snprintf. apply not_in_take, not_elem_of_app. split; [by apply (bool_decide_unpack _); vm_compute|done].
    - unfold snprintf. apply not_in_take, not_elem_of_app. split; [by apply (bool_decide_unpack _); vm_compute|done].
    - exists (str "EVENTS "). split; [by apply (bool_decide_unpack _); vm_compute|done]. }
  destruct (_ && bytes_eqb path _).
  { intros [= <- _]. split_and!; [by apply (bool_decide_unpack _); vm_compute..|].
    exists (str "STATUS"). split; [by apply (bool_decide_unpack _); vm_compute|done]. }
  destruct (if bytes_eqb method (str "POST") then verb_of path else None) as [verb|] eqn:Ev; [|done].
  destruct (clean_message body) as [m|] eqn:Em; [|done]. intros [= <- _].
  apply clean_message_spec in Em as (_ & Hn & Hr & _).
  assert (Hv : verb ∈ [str "INITIATE"; str "SAY"; str "END_VOTE"]).
  { destruct (bytes_eqb method _); [|done]. unfold verb_of in Ev.
    repeat (destruct (bytes_eqb path _); [injection Ev as <-; by apply (bool_decide_unpack _); vm_compute|]). done. }
  assert (Hf : (NL ∉ verb ++ [SP]) /\ (CR ∉ verb ++ [SP]) /\ verb ++ [SP] ∈ verbs).
  { revert verb Hv Ev. intros verb Hv _. revert verb Hv. apply Forall_forall.
    by apply (bool_decide_unpack _); vm_compute. }
  destruct Hf as (Hvn & Hvr & Hin).
  replace (verb ++ SP :: m) with ((verb ++ [SP]) ++ m) by (by rewrite <- app_assoc).
  unfold gateway_command.
  rewrite !not_elem_of_app. rewrite not_elem_of_app in Hvn. rewrite not_elem_of_app in Hvr.
  destruct Hvn, Hvr. split_and!; try done.
  exists (verb ++ [SP]). split; [done|apply starts_with_app].
Qed.

(** What a connection to the hub may have carried when it is closed: one of the
    peers of [w] received, after whatever it had received before, a beginning of
    the line that authenticates the gateway followed by the line of command [c]. *)
Definition carried (config : web_config) (c : bytes) (w : world) (e : bytes * Z * socket) : Prop :=
  e.1 = (host (hub config), port (hub config))
  /\ exists s0 nonce sent, Some s0 ∈ w_peers w /\ s_out e.2 = s_out s0 ++ sent
     /\ sent `prefix_of`
          cstr (Proto.auth_line (shared_key (hub config)) (web_name config) nonce) ++ c ++ [NL].

Lemma cstr_prefix t : cstr t `prefix_of` t.
Proof.
  unfold cstr. exists (span (Z.eqb 0) t).2. by rewrite span_app.
Qed.

Lemma handshake_sent key n s :
  exists nonce p, s_out (Proto.client_handshake key n s).2 = s_out s ++ p
    /\ p `prefix_of` cstr (Proto.auth_line key n nonce)
    /\ ((Proto.client_handshake key n s).1 = true -> p = cstr (Proto.auth_line key n nonce)).
Proof.
  unfold Proto.client_handshake. rewrite st_bind_run. pose proof (read_line_out Proto.COUNCIL_MESSAGE_LENGTH s) as Ho.
  destruct (network_read_line Proto.COUNCIL_MESSAGE_LENGTH s) as [line s1]. cbn [fst snd] in *.
  destruct (line ≫= scan_lit (str "NONCE ")) as [nonce|].
  - exists nonce. destruct (network_send_prefix (Proto.auth_line key n nonce) s1) as (p & Hp & Hpre & Hall).
    rewrite Ho in Hp. exists p. rewrite st_bind_run.
    destruct (network_send (Proto.auth_line key n nonce) s1) as [[] s2]; cbn [fst snd] in *; [|by split_and!].
    rewrite st_bind_run. pose proof (read_line_out Proto.COUNCIL_MESSAGE_LENGTH s2) as Ho2.
    destruct (network_read_line Proto.COUNCIL_MESSAGE_LENGTH s2) as [l s3]. cbn [fst snd mret st_ret] in *.
    rewrite Ho2. by split_and!; [| |intros _; apply Hall].
  - exists [], []. cbn. rewrite app_nil_r. split_and!; [done|apply prefix_nil|done].
Qed.

Lemma exchange_loop_out fuel multi out size s : s_out (exchange_loop fuel multi out size s).2 = s_out s.
Proof.
  revert out s; induction fuel as [|f IH]; intros out s; cbn [exchange_loop]; [done|]. rewrite st_bind_run.
  rewrite <- (read_line_out (Z.to_nat 8224) s).
  destruct (network_read_line (Z.to_nat 8224) s) as [[line|] s1]; cbn [fst snd]; [|done].
  destruct (_ <? _)%nat; [done|]. destruct (_ || _); [done|apply IH].
Qed.

Lemma dialogue_sent c multi size s :
  exists p, s_out (exchange_dialogue c multi size s).2 = s_out s ++ p /\ p `prefix_of` c ++ [NL].
Proof.
  unfold exchange_dialogue. rewrite st_bind_run.
  destruct (network_send_prefix (c ++ [NL]) s) as (p & Hp & Hpre & _). exists p.
  split; [|by etransitivity; [exact Hpre|apply cstr_prefix]].
  destruct (network_send (c ++ [NL]) s) as [[] s1]; cbn [fst snd] in *; [|done].
  unfold exchange_read. by rewrite exchange_loop_out.
Qed.

(** An exchange opens at most one connection, to the hub, and sends nothing but
    the authentication and its command. *)
Lemma council_exchange_closed config c multi size w :
  exists l, w_closed (council_exchange config c multi size w).2 = w_closed w ++ l
    /\ (length l <= 1)%nat /\ Forall (carried config c w) l.
Proof.
  assert (Hnil : exists l, w_closed w = w_closed w ++ l /\ (length l <= 1)%nat /\ Forall (carried config c w) l).
  { exists []. rewrite app_nil_r. split_and!; [done|cbn; lia|constructor]. }
  unfold council_exchange. destruct (_ || _); [done|]. rewrite st_bind_run.
  unfold Proto.protocol_connect_identity. rewrite st_bind_run.
  assert (Hc : w_closed (connect_peer w).2 = w_closed w) by (unfold connect_peer; by destruct (w_peers w)).
  assert (Hp : forall k, (connect_peer w).1 = Some k -> Some k ∈ w_peers w).
  { intros k. unfold connect_peer. destruct (w_peers w) as [|p ps]; cbn; [done|]. intros ->. by left. }
  destruct (connect_peer w) as [[k|] w1]; cbn [fst snd] in *; [|cbn; by rewrite Hc].
  specialize (Hp k eq_refl).
  destruct (handshake_sent (shared_key (hub config)) (web_name config) k) as (nonce & p & Ho & Hpre & Hall).
  destruct (Proto.client_handshake _ _ k) as [[] k1]; cbn [fst snd] in *.
  - cbn [fst snd mret st_ret]. destruct (dialogue_sent c multi size k1) as (q & Hq & Hqpre).
    destruct (exchange_dialogue c multi size k1) as [out k2]. cbn [snd] in Hq.
    exists [(host (hub config), port (hub config), k2)]. rewrite st_bind_run. cbn [fst snd close_peer modify w_closed mret st_ret].
    rewrite Hc. split_and!; [done|cbn; lia|]. apply Forall_singleton. split; [done|].
    exists k, nonce, (p ++ q). rewrite app_assoc, <- Ho. split_and!; [done|done|].
    rewrite (Hall eq_refl). by apply prefix_app.
  - exists [(host (hub config), port (hub config), k1)]. rewrite !st_bind_run. cbn [fst snd close_peer modify w_closed mret st_ret].
    rewrite Hc. split_and!; [done|cbn; lia|]. apply Forall_singleton. split; [done|].
    exists k, nonce, p. split_and!; [done|done|]. by apply prefix_app_r.
Qed.

Lemma reply_world code text w k : (text_reply code text (w, k)).2.1 = w.
Proof. unfold text_reply, http_reply. by rewrite !st_bind_run, !on_snd_run. Qed.

Lemma fault_closed w : w_closed (fault w).2 = w_closed w /\ w_peers (fault w).2 = w_peers w.
Proof. unfold fault. by destruct (w_faults w). Qed.

Lemma carried_peers config c w w' e : w_peers w' = w_peers w -> carried config c w' e -> carried config c w e.
Proof. unfold carried. by intros ->. Qed.

Lemma relay_command_closed config c multi w k :
  exists l, w_closed (relay_command config c multi (w, k)).2.1 = w_closed w ++ l
    /\ (length l <= 1)%nat /\ Forall (carried config c w) l.
Proof.
  unfold relay_command. rewrite st_bind_run, on_fst_run. cbn [fst snd]. destruct (fault_closed w) as [Hf Hfp].
  destruct (fault w) as [[] w1]; cbn [fst snd] in *; rewrite st_bind_run.
  - cbn [fst snd mret st_ret]. rewrite reply_world, Hf. exists []. rewrite app_nil_r.
    split_and!; [done|cbn; lia|constructor].
  - rewrite on_fst_run. cbn [fst snd].
    destruct (council_exchange_closed config c multi COUNCIL_REPLY_CAPACITY w1) as (l & Hl & Hn & HF).
    exists l. rewrite <- Hf, <- Hl. split; [|split; [done|by eapply Forall_impl; [exact HF|intros e; apply carried_peers]]].
    destruct (council_exchange _ _ _ _ _) as [[r|] w2]; cbn [fst snd].
    + unfold http_reply. by rewrite !st_bind_run, !on_snd_run.
    + by rewrite reply_world.
Qed.

(** The connections made for an authenticated request. *)
Lemma answer_request_closed layout controller config method path body w k :
  exists l, w_closed (answer_request layout controller config method path body (w, k)).2.1 = w_closed w ++ l
    /\ (l = [] \/ exists e c multi, l = [e] /\ carried config c w e
          /\ route method path body = Command c multi /\ gateway_command c).
Proof.
  assert (Hnil : forall P : list (bytes * Z * socket) -> Prop,
            exists l, w_closed w = w_closed w ++ l /\ (l = [] \/ P l)).
  { intros P. exists []. rewrite app_nil_r. auto. }
  unfold answer_request. destruct (fault_closed w) as [Hf Hfp].
  destruct (route method path body) as [|c multi| |] eqn:Er.
  - unfold http_page_reply. rewrite !st_bind_run, !on_snd_run. apply Hnil.
  - rewrite st_bind_run, on_fst_run. cbn [fst snd].
    destruct (fault w) as [[] w1]; cbn [fst snd] in *; [rewrite reply_world, Hf; apply Hnil|].
    destruct (relay_command_closed config c multi w1 k) as (l & Hl & Hn & HF).
    exists l. rewrite Hl, Hf. split; [done|]. destruct l as [|e [|e' l]]; [by left| |cbn in Hn; lia].
    right. exists e, c, multi. apply Forall_cons in HF as [HF _].
    split; [done|]. split; [exact (carried_peers config c w w1 e Hfp HF)|]. split; [done|by eapply route_command].
  - rewrite st_bind_run, on_fst_run. cbn [fst snd].
    destruct (fault w) as [[] w1]; cbn [fst snd] in *; rewrite reply_world, Hf; apply Hnil.
  - rewrite st_bind_run, on_fst_run. cbn [fst snd].
    destruct (fault w) as [[] w1]; cbn [fst snd] in *; rewrite reply_world, Hf; apply Hnil.
Qed.

Lemma handle_received_closed layout controller config request w k :
  exists l, w_closed (handle_received layout controller config request (w, k)).2.1 = w_closed w ++ l
    /\ (l = [] \/ exists e text body method path c multi,
          l = [e] /\ carried config c w e
          /\ request = Some (text, body)
          /\ authorized text (authorization config) = true
          /\ scan_request text = Some (method, path)
          /\ route method path body = Command c multi /\ gateway_command c).
Proof.
  unfold handle_received. destruct request as [[text body]|]; cbn [fst snd mbind option_bind].
  - destruct (scan_request text) as [[method path]|] eqn:Es; cbn [mbind option_bind].
    + destruct (authorized text (authorization config)) eqn:Ea; cbn [negb].
      * destruct (answer_request_closed layout controller config method path body w k) as (l & Hl & Hc).
        exists l. split; [done|]. destruct Hc as [->|(e & c & multi & -> & He & Hr & Hg)]; [by left|right].
        exists e, text, body, method, path, c, multi. by do 5 (split; [done|]).
      * rewrite reply_world. exists []. rewrite app_nil_r. auto.
    + rewrite reply_world. exists []. rewrite app_nil_r. auto.
  - rewrite reply_world. exists []. rewrite app_nil_r. auto.
Qed.

(** C39: the gateway talks to the council only for a request that carries the
    configured credentials, at most once per request and only with the hub; all
    that such a connection ever carries is a beginning of the gateway's own
    authentication line followed by one command, a single line with one of the
    gateway's verbs that [route] made of the request.  So a browser cannot
    smuggle in another protocol command. *)
Theorem gateway_safe layout controller config w k :
  exists l, w_closed (handle_request layout controller config (w, k)).2.1 = w_closed w ++ l
    /\ (l = [] \/ exists e text body method path c multi,
          l = [e] /\ carried config c w e
          /\ (receive_request REQUEST_CAPACITY k).1 = Some (text, body)
          /\ authorized text (authorization config) = true
          /\ scan_request text = Some (method, path)
          /\ route method path body = Command c multi /\ gateway_command c).
Proof.
  unfold handle_request. rewrite bind_on_snd. apply handle_received_closed.
Qed.

End Web.
