(* ===== verification/CouncilTools.v ===== *)
(** * The council's client programs

    [Bridge]: council_codex_bridge.c, which lets an external AI take its turns.
    [Initiator]: council_initiator.c.  [Client]: the commands of
    council_client.c, council_live.c and council_file_sender.c.  The [codex]
    program the bridge starts is a parameter. *)
From Stdlib Require Import Sorting.Sorted.
From S2P Require Import Prelude CLib World Network ContactBook ServiceConfig Transcript Conversation.
From S2P Require Import Protocol FileTransfer.

Open Scope Z_scope.

Definition REPLY_LINE : nat := Z.to_nat 8224.

(** [snprintf(path, 1024, "%s/<leaf>", directory)]. *)
Definition state_file (directory : bytes) (leaf : string) : bytes :=
  snprintf (Z.to_nat 1024) (directory ++ str "/" ++ str leaf).

Module Bridge.

Definition CONTEXT_CAPACITY : Z := 1024 * 1024.

Definition read_key (path : bytes) (size : nat) : st world (option bytes) :=
  f ← file_read path;
  mret (match f ≫= fgets size with
        | None => None
        | Some (line, _) => match cut_at is_crlf (cstr line) with [] => None | k => Some k end
        end).

(** The buffer so far and the text to add, in [size_t] arithmetic: the test is
    [length > capacity - *used - 2]. *)
Definition append_text (capacity : Z) (buffer text : bytes) : option bytes :=
  if (capacity - Z.of_nat (length buffer) - 2) mod 2 ^ 64 <? Z.of_nat (length text) then None
  else Some (buffer ++ text ++ [NL]).

(** The reading loop of [fetch_context]: context and grant identifier. *)
Fixpoint context_loop (fuel : nat) (name context grant_id : bytes) : st socket (option (bytes * bytes)) :=
  match fuel with
  | O => mret None
  | S f =>
      line ← network_read_line REPLY_LINE;
      match line with
      | None => mret None
      | Some line =>
          if starts_with (str "CONTEXT ") line then
            let record := drop 8 line in
            let grant_id :=
              if (contains record Log.GRANT || contains record Log.OFFLINE_GRANT) && contains record name
              then snprintf REPLY_LINE record else grant_id in
            match append_text CONTEXT_CAPACITY context record with
            | None => mret None
            | Some context => context_loop f name context grant_id
            end
          else if bytes_eqb line (str "CONTEXT_END") then
            mret (match grant_id with [] => None | _ => Some (context, grant_id) end)
          else if starts_with (str "ERROR") line then mret None
          else context_loop f name context grant_id
      end
  end.

Definition context_dialogue (name : bytes) : st socket (option (bytes * bytes)) := fun k =>
  context_loop (S (length (s_in k))) name [] [] k.

Definition fetch_context (hub : contact) (name : bytes) : st world (option (bytes * bytes)) :=
  c ← Proto.protocol_connect_identity hub name;
  match c with
  | None => mret None
  | Some k =>
      let '(sent, k) := network_send (str "CONTEXT" ++ [NL]) k in
      if sent : bool then
        let '(r, k) := context_dialogue name k in
        close_peer (host hub) (port hub) k ;; mret r
      else mret None
  end.

(** What a poll of the events tells the bridge. *)
Record poll := Poll { p_cursor : Z; p_turn : bytes; p_closure : Z; p_proposer : bytes }.

(** [sscanf(text, "%15s %lu %63s", state, &id, proposer) == 3]. *)
Definition scan_closure (text : bytes) : option (bytes * Z * bytes) :=
  '(state, r) ← scan_word 15 text;
  '(n, r) ← scan_u64 (scan_ws r);
  '(proposer, _) ← scan_word 63 (scan_ws r);
  Some (state, n, proposer).

(** One line of the reply to [EVENTS]: [inl ok] ends the loop. *)
Definition poll_line (line : bytes) (p : poll) : bool + poll :=
  if starts_with (str "CURSOR ") line then
    inr (Poll (value_or_0 (strtol (drop 7 line))) (p_turn p) (p_closure p) (p_proposer p))
  else if starts_with (str "TURN ") line then
    inr (Poll (p_cursor p) (snprintf 64 (drop 5 line)) (p_closure p) (p_proposer p))
  else if starts_with (str "CLOSURE ") line then
    inr (match scan_closure (drop 8 line) with
         | Some (state, n, proposer) =>
             if bytes_eqb state (str "open") then Poll (p_cursor p) (p_turn p) n (snprintf 64 proposer) else p
         | None => p
         end)
  else if bytes_eqb line (str "END") then inl true
  else if starts_with (str "ERROR") line then inl false
  else inr p.

Fixpoint poll_loop (fuel : nat) (p : poll) : st socket (bool * poll) :=
  match fuel with
  | O => mret (false, p)
  | S f =>
      line ← network_read_line REPLY_LINE;
      match line with
      | None => mret (false, p)
      | Some line => match poll_line line p with
                     | inl ok => mret (ok, p)
                     | inr p => poll_loop f p
                     end
      end
  end.

Definition poll_dialogue (p : poll) : st socket (bool * poll) := fun k =>
  poll_loop (S (length (s_in k))) p k.

(** [current_turn]: the first component is [true] for 0; cursor and turn keep
    what was read even when the call fails. *)
Definition current_turn (hub : contact) (name : bytes) (cursor : Z) (turn : bytes) : st world (bool * poll) :=
  let p := Poll cursor turn 0 [] in
  c ← Proto.protocol_connect_identity hub name;
  match c with
  | None => mret (false, p)
  | Some k =>
      let '(sent, k) := network_send (snprintf 64 (str "EVENTS " ++ print_int cursor ++ [NL])) k in
      if sent : bool then
        let '(r, k) := poll_dialogue p k in
        close_peer (host hub) (port hub) k ;; mret r
      else close_peer (host hub) (port hub) k ;; mret (false, p)
  end.

(** [None] for an error other than a missing file. *)
Definition load_done (path : bytes) (size : nat) : st world (option bytes) :=
  f ← file_read path;
  match f with
  | None => bad ← fault; mret (if bad : bool then None else Some [])
  | Some content =>
      mret (Some (match fgets size content with
                  | None => []
                  | Some (line, _) => cut_at is_crlf (cstr line)
                  end))
  end.

Definition save_done (path grant : bytes) : st world bool :=
  let temporary := snprintf (Z.to_nat 1030) (path ++ str ".tmp") in
  opened ← file_create temporary;
  if opened : bool then
    written ← file_write temporary (grant ++ [NL]);
    if written : bool then file_rename temporary path else mret false
  else mret false.

(** The character loop of [read_response]. *)
Fixpoint squeeze (input out : bytes) (size : nat) : bytes :=
  match input with
  | [] => out
  | ch :: input' =>
      if (length out + 1 <? size)%nat then
        let ch := if (ch =? CR) || (ch =? NL) || (ch =? TAB) then SP else ch in
        if (ch =? SP) && bool_decide (last out = Some SP) then squeeze input' out size
        else squeeze input' (out ++ [ch]) size
      else out
  end.

(** [while(used&&out[used-1]==' ')used--;]. *)
Fixpoint drop_spaces (s : bytes) : bytes :=
  match s with
  | [] => []
  | c :: s' => match drop_spaces s' with
               | [] => if c =? SP then [] else [c]
               | r => c :: r
               end
  end.

Definition RESPONSE_SIZE : nat := Z.to_nat 8192.

Definition read_response (path : bytes) : st world (option bytes) :=
  f ← file_read path;
  mret (match f with
        | None => None
        | Some content => match drop_spaces (squeeze content [] RESPONSE_SIZE) with
                          | [] => None
                          | r => Some r
                          end
        end).

Definition send_action (hub : contact) (name verb payload : bytes) : st world bool :=
  if (Z.to_nat 8189 <? length verb + length payload)%nat then mret false
  else
    c ← Proto.protocol_connect_identity hub name;
    match c with
    | None => mret false
    | Some k =>
        let '(reply, k) :=
          (sent ← network_send (snprintf (Z.to_nat 8192) (verb ++ [SP] ++ payload ++ [NL]));
           if sent : bool then network_read_line 256 else mret None) k in
        close_peer (host hub) (port hub) k ;;
        mret (bool_decide (reply = Some (str "ACCEPTED")))
    end.

(** ** The main loop *)

(** The options of the program. *)
Record settings := Settings { hub : contact; me : bytes; work_dir : bytes; state_dir : bytes }.

Definition done_path (o : settings) : bytes := state_file (state_dir o) "last-completed-grant".
Definition pending_path (o : settings) : bytes := state_file (state_dir o) "pending-grant".
Definition voted_path (o : settings) : bytes := state_file (state_dir o) "last-voted-closure".
Definition response_path (o : settings) : bytes := state_file (state_dir o) "last-response.txt".
Definition vote_path (o : settings) : bytes := state_file (state_dir o) "last-vote.txt".
Definition outbound_path (o : settings) : bytes := state_file (state_dir o) "outbound-transcript.tsv".

(** The variables that survive an iteration. *)
Record memory := Memory { cursor : Z; turn : bytes; done : bytes; pending : bytes; voted : bytes }.

(** What an iteration did: [Acted] and [Voted] say whether the answer was also
    recorded on disk. *)
Inductive outcome :=
| Waited
| Voted (closure : bytes) (vote : bytes) (saved : bool)
| Acted (grant : bytes) (response : bytes) (saved : bool).

Section bridge.

(** [run_codex] with its work directory, response file, name, context and
    whether it is asked for a vote; [true] for success. *)
Context (run_codex : bytes -> bytes -> bytes -> bytes -> bool -> st world bool).
Context (o : settings).

(** The answer to a closure proposal, as the protocol wants it. *)
Definition vote_text (response : bytes) : option bytes :=
  if starts_with (str "CLOSE ") response then Some (snprintf RESPONSE_SIZE (str "close " ++ drop 6 response))
  else if starts_with (str "CONTINUE ") response then Some (snprintf RESPONSE_SIZE (str "continue " ++ drop 9 response))
  else None.

Definition ask (path context : bytes) (voting : bool) : st world (option bytes) :=
  ran ← run_codex (work_dir o) path (me o) context voting;
  if ran : bool then read_response path else mret None.

(** The vote on proposal number [closure_text]. *)
Definition vote_round (m : memory) (closure_text : bytes) : st world (outcome * memory) :=
  context ← fetch_context (hub o) (me o);
  match context with
  | None => mret (Waited, m)
  | Some (context, _) =>
      response ← ask (vote_path o) context true;
      match response ≫= (fun r => vote_text r ≫= (fun v => Some (r, v))) with
      | None => mret (Waited, m)
      | Some (response, vote) =>
          sent ← send_action (hub o) (me o) (str "END_VOTE") vote;
          if sent : bool then
            Log.transcript_append (outbound_path o) (me o) (str "closure-vote-sent") response ;;
            saved ← save_done (voted_path o) closure_text;
            mret (Voted closure_text vote saved,
                  if saved : bool
                  then Memory (cursor m) (turn m) (done m) (pending m) (snprintf 32 closure_text) else m)
          else mret (Waited, m)
      end
  end.

Definition is_action (response : bytes) : bool :=
  starts_with (str "SAY ") response || starts_with (str "END ") response.

(** The response to the grant: asked for and preserved, or the preserved one. *)
Definition decide_response (m : memory) (context grant : bytes) : st world (option (bytes * memory)) :=
  if bytes_eqb grant (pending m) then
    response ← read_response (response_path o);
    mret (match response with Some r => Some (r, m) | None => None end)
  else
    response ← ask (response_path o) context false;
    match response with
    | None => mret None
    | Some r =>
        if negb (is_action r) then mret None
        else
          logged ← Log.transcript_append (outbound_path o) (me o) (str "outbound-pending") r;
          if logged : bool then
            saved ← save_done (pending_path o) grant;
            if saved : bool
            then mret (Some (r, Memory (cursor m) (turn m) (done m) (snprintf REPLY_LINE grant) (voted m)))
            else mret None
          else mret None
    end.

(** Sending the response; one that is neither [SAY] nor [END] counts as sent. *)
Definition transmit (response : bytes) : st world bool :=
  if starts_with (str "SAY ") response then send_action (hub o) (me o) (str "SAY") (drop 4 response)
  else if starts_with (str "END ") response then send_action (hub o) (me o) (str "END_PROPOSE") (drop 4 response)
  else mret true.

Definition turn_round (m : memory) : st world (outcome * memory) :=
  fetched ← fetch_context (hub o) (me o);
  match fetched with
  | None => mret (Waited, m)
  | Some (context, grant) =>
      if bytes_eqb grant (done m) then mret (Waited, m)
      else
        decided ← decide_response m context grant;
        match decided with
        | None => mret (Waited, m)
        | Some (response, m) =>
            sent ← transmit response;
            if sent : bool then
              Log.transcript_append (outbound_path o) (me o) (str "outbound-sent") response ;;
              saved ← save_done (done_path o) grant;
              file_remove (pending_path o) ;;
              mret (Acted grant response saved,
                    Memory (cursor m) (turn m) (if saved : bool then snprintf REPLY_LINE grant else done m)
                      [] (voted m))
            else mret (Waited, m)
        end
  end.

(** One iteration of [while(!stopping)]. *)
Definition bridge_round (m : memory) : st world (outcome * memory) :=
  '(ok, p) ← current_turn (hub o) (me o) (cursor m) (turn m);
  let m := Memory (p_cursor p) (p_turn p) (done m) (pending m) (voted m) in
  if negb ok then mret (Waited, m)
  else if negb (p_closure p =? 0) then
    let closure_text := snprintf 32 (print_nat (p_closure p)) in
    if negb (bytes_eqb (p_proposer p) (me o)) && negb (bytes_eqb (voted m) closure_text)
    then vote_round m closure_text
    else mret (Waited, m)
  else if negb (bytes_eqb (turn m) (me o)) then mret (Waited, m)
  else turn_round m.

(** [n] iterations and what they did, oldest first. *)
Fixpoint bridge_run (n : nat) (m : memory) : st world (list outcome * memory) :=
  match n with
  | O => mret ([], m)
  | S n' =>
      '(out, m) ← bridge_round m;
      '(outs, m) ← bridge_run n' m;
      mret (out :: outs, m)
  end.

End bridge.

(** The part of [main] before the loop: the state files. *)
Definition bridge_start (o : settings) : st world (option memory) :=
  d ← load_done (done_path o) REPLY_LINE;
  match d with
  | None => mret None
  | Some d =>
      p ← load_done (pending_path o) REPLY_LINE;
      match p with
      | None => mret None
      | Some p =>
          v ← load_done (voted_path o) 32;
          mret (match v with None => None | Some v => Some (Memory 0 (str "none") d p v) end)
      end
  end.

(** ** A grant is answered once *)

Lemma snprintf_idem n t : snprintf n (snprintf n t) = snprintf n t.
Proof. unfold snprintf. by rewrite take_take, Nat.min_id. Qed.

Lemma context_loop_grant fuel nm context grant_id k c g k' :
  snprintf REPLY_LINE grant_id = grant_id ->
  context_loop fuel nm context grant_id k = (Some (c, g), k') -> snprintf REPLY_LINE g = g.
Proof.
  revert context grant_id k; induction fuel as [|f IH]; intros context grant_id k Hg; [done|].
  cbn [context_loop]. rewrite st_bind_run. destruct (network_read_line REPLY_LINE k) as [[line|] k1]; [|done].
  cbn [fst snd]. destruct (starts_with (str "CONTEXT ") line).
  - destruct (append_text _ _ _) as [context'|]; [|done]. apply IH.
    destruct (_ && _); [apply snprintf_idem|done].
  - destruct (bytes_eqb line (str "CONTEXT_END")).
    + destruct grant_id as [|x g']; [done|]. by intros [= _ <- _].
    + destruct (starts_with (str "ERROR") line); [done|]. by apply IH.
Qed.

Lemma fetch_context_grant h nm w c g w' :
  fetch_context h nm w = (Some (c, g), w') -> snprintf REPLY_LINE g = g.
Proof.
  unfold fetch_context. rewrite st_bind_run. destruct (Proto.protocol_connect_identity h nm w) as [[k|] w1]; [|done].
  cbn [fst snd]. destruct (network_send _ k) as [[] k1]; [|done].
  destruct (context_dialogue nm k1) as [r k2] eqn:E. rewrite st_bind_run. cbn [fst snd].
  intros H. injection H as -> _. eapply context_loop_grant; [|exact E]. done.
Qed.

Section once.
Context (run_codex : bytes -> bytes -> bytes -> bytes -> bool -> st world bool) (o : settings).

(** What an iteration may do to the two marks. *)
Definition marks_ok (m : memory) (om : outcome * memory) : Prop :=
  match om.1 with
  | Waited => done om.2 = done m /\ voted om.2 = voted m
  | Voted c _ saved => c <> voted m /\ done om.2 = done m /\ voted om.2 = if saved then c else voted m
  | Acted g _ saved => g <> done m /\ voted om.2 = voted m /\ done om.2 = if saved then g else done m
  end.

Lemma vote_round_marks m c w :
  snprintf 32 c = c -> c <> voted m -> marks_ok m (vote_round run_codex o m c w).1.
Proof.
  intros Hc Hne. unfold vote_round. rewrite st_bind_run.
  destruct (fetch_context _ _ w) as [[[context g]|] w1]; [|done]. cbn [fst snd]. rewrite st_bind_run.
  destruct (_ ≫= _) as [[r v]|]; [|done]. rewrite st_bind_run.
  destruct (send_action _ _ _ _ _) as [[] w3]; [|done]. cbn [fst snd]. rewrite !st_bind_run.
  destruct (save_done _ _ _) as [[] w4]; cbn; split_and!; done.
Qed.

Lemma decide_response_done m context g w r m' :
  (decide_response run_codex o m context g w).1 = Some (r, m') -> done m' = done m /\ voted m' = voted m.
Proof.
  unfold decide_response. destruct (bytes_eqb g (pending m)).
  - rewrite st_bind_run. destruct (read_response _ _) as [[x|] w1]; cbn; [|done]. by intros [= _ <-].
  - rewrite st_bind_run. destruct (ask _ _ _ _ _ _) as [[x|] w1]; cbn [fst snd]; [|done].
    destruct (negb (is_action x)); [done|]. rewrite st_bind_run.
    destruct (Log.transcript_append _ _ _ _ _) as [[] w2]; cbn [fst snd]; [|done]. rewrite st_bind_run.
    destruct (save_done _ _ _) as [[] w3]; cbn; [|done]. by intros [= _ <-].
Qed.

Lemma turn_round_marks m w : marks_ok m (turn_round run_codex o m w).1.
Proof.
  unfold turn_round. rewrite st_bind_run.
  destruct (fetch_context _ _ w) as [[[context g]|] w1] eqn:Ef; [|done]. cbn [fst snd].
  destruct (bytes_eqb g (done m)) eqn:Eg; [done|]. to_prop. rewrite st_bind_run.
  destruct (decide_response _ _ m context g w1) as [[[r m']|] w2] eqn:Ed; [|done]. cbn [fst snd].
  assert (Hm : done m' = done m /\ voted m' = voted m).
  { eapply (decide_response_done m context g w1). by rewrite Ed. }
  destruct Hm as [Hd Hv]. rewrite st_bind_run. destruct (transmit _ _ _) as [[] w3]; [|done].
  cbn [fst snd]. rewrite !st_bind_run. destruct (save_done _ _ _) as [saved w4]. cbn [fst snd marks_ok].
  split_and!; [done|done|]. cbn. apply fetch_context_grant in Ef. destruct saved; [done|done].
Qed.

Lemma bridge_round_marks m w : marks_ok m (bridge_round run_codex o m w).1.
Proof.
  unfold bridge_round. rewrite st_bind_run. destruct (current_turn _ _ _ _ _) as [[ok p] w1]. cbn [fst snd].
  set (m1 := Memory _ _ _ _ _). destruct ok; cbn [negb]; [|done].
  destruct (p_closure p =? 0); cbn [negb].
  - destruct (negb _); [done|]. apply (turn_round_marks m1).
  - destruct (negb (bytes_eqb (p_proposer p) (me o)) && _) eqn:E; [|done]. to_prop.
    apply (vote_round_marks m1); [apply snprintf_idem|]. by apply not_eq_sym.
Qed.

(** The grant last recorded as answered, and the proposal last voted on. *)
Definition answered (d : bytes) (out : outcome) : bytes :=
  match out with Acted g _ true => g | _ => d end.
Definition balloted (d : bytes) (out : outcome) : bytes :=
  match out with Voted c _ true => c | _ => d end.

(** however the hub, the network, the disk and the AI behave, the bridge
    never answers the grant it has last recorded as answered, and never votes
    again on the proposal it has last recorded as voted on. *)
Theorem bridge_never_repeats n m w outs m' w' :
  bridge_run run_codex o n m w = ((outs, m'), w') ->
  forall before out after, outs = before ++ out :: after ->
    match out with
    | Acted g _ _ => g <> foldl answered (done m) before
    | Voted c _ _ => c <> foldl balloted (voted m) before
    | Waited => True
    end.
Proof.
  revert m w outs m' w'; induction n as [|n IH]; intros m w outs m' w'; cbn [bridge_run].
  { intros [= <- _ _] before out after E. by destruct before. }
  rewrite st_bind_run. pose proof (bridge_round_marks m w) as Hm.
  destruct (bridge_round run_codex o m w) as [[out1 m1] w1]. cbn [fst snd] in *. rewrite st_bind_run.
  destruct (bridge_run run_codex o n m1 w1) as [[outs1 m2] w2] eqn:E1. cbn [fst snd].
  intros [= <- _ _] before out after E. destruct before as [|b before]; cbn in E.
  - injection E as <- _. cbn. unfold marks_ok in Hm. cbn in Hm. destruct out1; naive_solver.
  - injection E as <- E. specialize (IH m1 w1 outs1 m2 w2 E1 before out after E).
    assert (Hd : done m1 = answered (done m) out1 /\ voted m1 = balloted (voted m) out1).
    { unfold marks_ok in Hm. cbn in Hm. destruct out1 as [|? ? []|? ? []]; cbn; naive_solver. }
    destruct Hd as [Hd Hv]. cbn [foldl]. rewrite <- Hd, <- Hv. done.
Qed.
End once.

(** A [codex] that always answers with the same line. *)
Definition canned_codex (answer : bytes) (work path nm context : bytes) (voting : bool) : st world bool :=
  modify (store path answer) ;; mret true.

Definition sample_settings : settings :=
  Settings (Contact [] CONTACT_UNSET (str "h") 1 (str "k") 0 0) (str "Neo") (str "w") (str "s").

Definition session (text : bytes) : option socket :=
  Some (Socket (str "NONCE n" ++ [NL] ++ str "OK" ++ [NL] ++ text) [] []).

(** The hub says that it is Neo's turn, sends a context with one grant and
    accepts the message. *)
Definition grant_record : bytes :=
  str "t" ++ [TAB] ++ str "hub" ++ [TAB] ++ str "grant" ++ [TAB] ++ str "Neo".
Definition bridge_world : world :=
  World ∅ 0 [] [] []
    [session (str "TURN Neo" ++ [NL] ++ str "END" ++ [NL]);
     session (str "CONTEXT " ++ grant_record ++ [NL] ++ str "CONTEXT_END" ++ [NL]);
     session (str "ACCEPTED" ++ [NL])] ∅ [] [].

Lemma triple_eta {A B C} (x : A * B * C) : x = (x.1.1, x.1.2, x.2).
Proof. by destruct x as [[]]. Qed.

Lemma bridge_never_repeats_witness :
  let r := bridge_run (canned_codex (str "SAY hello")) sample_settings 1
             (Memory 0 [] (str "old") [] []) bridge_world in
  r.1.1 = [Acted grant_record (str "SAY hello") true] /\ grant_record <> str "old".
Proof.
  intros r.
  assert (E : r.1.1 = [Acted grant_record (str "SAY hello") true]) by (vm_compute; reflexivity).
  split; [exact E|].
  apply (bridge_never_repeats (canned_codex (str "SAY hello")) sample_settings 1
           (Memory 0 [] (str "old") [] []) bridge_world r.1.1 r.1.2 r.2 (triple_eta _) []
           (Acted grant_record (str "SAY hello") true) []).
  exact E.
Defined.

(** ** The context buffer *)

(** the bound of [append_text] is computed in unsigned arithmetic: as long
    as two bytes are free the buffer stays within its capacity, but once an
    earlier record has filled all but the last byte any text is accepted and the
    buffer overflows. *)
Theorem append_text_bounds capacity buffer text :
  2 <= capacity < 2 ^ 63 -> Z.of_nat (length buffer) < capacity -> Z.of_nat (length text) < 2 ^ 63 ->
  match append_text capacity buffer text with
  | Some b => (Z.of_nat (length buffer) + 2 <= capacity -> Z.of_nat (length b) < capacity)
              /\ (Z.of_nat (length buffer) = capacity - 1 -> capacity <= Z.of_nat (length b))
  | None => Z.of_nat (length buffer) + 2 <= capacity
  end.
Proof.
  intros Hc Hb Ht. unfold append_text.
  destruct (Z.ltb_spec ((capacity - Z.of_nat (length buffer) - 2) mod 2 ^ 64) (Z.of_nat (length text))) as [H|H].
  - destruct (Z.le_gt_cases (Z.of_nat (length buffer) + 2) capacity); [done|exfalso].
    assert (E : capacity - Z.of_nat (length buffer) - 2 = -1) by lia. rewrite E in H.
    change (-1 mod 2 ^ 64) with (2 ^ 64 - 1) in H. lia.
  - rewrite !length_app. cbn [length]. split; [|lia]. intros Hf. rewrite Z.mod_small in H by lia. lia.
Qed.

Lemma append_text_bounds_witness :
  append_text 8 (str "1234567") (str "overflow") = Some (str "1234567overflow" ++ [NL])
  /\ match append_text 8 (str "1234567") (str "overflow") with
     | Some b => (7 + 2 <= 8 -> Z.of_nat (length b) < 8) /\ (7 = 8 - 1 -> 8 <= Z.of_nat (length b))
     | None => 7 + 2 <= 8
     end.
Proof.
  split; [vm_compute; reflexivity|]. apply (append_text_bounds 8 (str "1234567") (str "overflow")); cbn; lia.
Defined.

End Bridge.

Module Initiator.

(** [next_arbiter]: the scan over the book with the best candidate so far. *)
Fixpoint next_arbiter_loop (i : nat) (b : contact_book) (after : Z) (best : option (nat * Z)) : option (nat * Z) :=
  match b with
  | [] => best
  | c :: b' =>
      next_arbiter_loop (S i) b' after
        (if arbiter_priority c <=? after then best
         else match best with
              | None => Some (i, arbiter_priority c)
              | Some (_, p) => if arbiter_priority c <? p then Some (i, arbiter_priority c) else best
              end)
  end.

(** The index of the arbiter. *)
Definition next_arbiter (b : contact_book) (after : Z) : option nat :=
  fst <$> next_arbiter_loop 0 b after None.

Inductive operation := Busy | Initiate (message : bytes) | OtherOperation.

(** What one arbiter answers: go on with the next one, or the exit status. *)
Inductive attempt := TryNext | Exit (status : Z).

Definition contact_arbiter (config : service_config) (self arbiter : contact) (op : operation)
    : st world attempt :=
  let authenticated := Book.set_key (snprintf COUNCIL_KEY_LENGTH (shared_key self)) arbiter in
  reply ← Proto.protocol_send_command authenticated (cfg_name config) (str "BUSY") 256;
  match reply with
  | None => mret TryNext
  | Some reply =>
      match op with
      | Busy => mret (Exit 0)
      | _ =>
          if negb (starts_with (str "IDLE") reply) then mret (Exit 3)
          else match op with
          | Initiate message =>
              if Proto.multi_line message then mret (Exit 2)
              else
                r ← Proto.protocol_send_command authenticated (cfg_name config)
                      (snprintf Proto.COUNCIL_MESSAGE_LENGTH (str "INITIATE " ++ message)) 256;
                match r with
                | None => mret TryNext
                | Some r =>
                    if bytes_eqb r (str "ACCEPTED") then
                      Activity.conversation_activity_mark (activity_path config) ;; mret (Exit 0)
                    else mret (Exit 1)
                end
          | _ => mret (Exit 2)
          end
      end
  end.

(** [while((arbiter=next_arbiter(&book,priority))!=NULL)]: the indices tried
    and the exit status, [None] for the final "no arbiter reachable".  The
    priority grows, so the book's length is enough fuel. *)
Fixpoint try_arbiters (fuel : nat) (config : service_config) (self : contact) (book : contact_book)
    (op : operation) (priority : Z) (tried : list nat) : st world (list nat * option Z) :=
  match fuel, next_arbiter book priority with
  | S f, Some i =>
      let arbiter := default Book.zero_contact (book !! i) in
      a ← contact_arbiter config self arbiter op;
      match a with
      | TryNext => try_arbiters f config self book op (arbiter_priority arbiter) (tried ++ [i])
      | Exit status => mret (tried ++ [i], Some status)
      end
  | _, _ => mret (tried, None)
  end.

Definition run_initiator (config : service_config) (self : contact) (book : contact_book) (op : operation)
    : st world (list nat * option Z) :=
  try_arbiters (S (length book)) config self book op 0 [].

(** ** The order of the arbiters *)

Definition priority_at (b : contact_book) (i : nat) : Z :=
  arbiter_priority (default Book.zero_contact (b !! i)).

Lemma next_arbiter_loop_spec b0 b i after best :
  (forall j c, b !! j = Some c -> b0 !! (i + j)%nat = Some c) ->
  (forall k p, best = Some (k, p) -> p = priority_at b0 k /\ after < p /\ (k < length b0)%nat) ->
  match next_arbiter_loop i b after best with
  | Some (k, p) => p = priority_at b0 k /\ after < p /\ (k < length b0)%nat
      /\ (forall c, c ∈ b -> after < arbiter_priority c -> p <= arbiter_priority c)
      /\ (forall k' p', best = Some (k', p') -> p <= p')
  | None => best = None /\ forall c, c ∈ b -> arbiter_priority c <= after
  end.
Proof.
  revert i best; induction b as [|c b IH]; intros i best Hb Hbest; cbn [next_arbiter_loop].
  - destruct best as [[k p]|]; [|split; [done|set_solver]]. destruct (Hbest k p eq_refl) as (-> & ? & ?).
    split_and!; try done; [set_solver|]. by intros k' p' [= <- <-].
  - assert (Hc : b0 !! i = Some c) by (specialize (Hb 0%nat c eq_refl); by rewrite Nat.add_0_r in Hb).
    assert (Hi : (i < length b0)%nat) by (by eapply lookup_lt_Some).
    assert (Hp : arbiter_priority c = priority_at b0 i) by (unfold priority_at; by rewrite Hc).
    set (best' := if arbiter_priority c <=? after then best else _).
    specialize (IH (S i) best'). assert (Hb' : forall j c', b !! j = Some c' -> b0 !! (S i + j)%nat = Some c').
    { intros j c' Hj. specialize (Hb (S j) c' Hj). by rewrite Nat.add_succ_r in Hb. }
    assert (Hbest' : forall k p, best' = Some (k, p) -> p = priority_at b0 k /\ after < p /\ (k < length b0)%nat).
    { intros k p. subst best'. destruct (Z.leb_spec (arbiter_priority c) after); [apply Hbest|].
      destruct best as [[k0 p0]|]; [|by intros [= <- <-]].
      destruct (Z.ltb_spec (arbiter_priority c) p0); [by intros [= <- <-]|apply Hbest]. }
    specialize (IH Hb' Hbest'). destruct (next_arbiter_loop (S i) b after best') as [[k p]|].
    + destruct IH as (Hk & Hafter & Hlt & Hmin & Hle). split_and!; try done.
      * intros c' [->|Hin]%elem_of_cons Hac; [|by apply Hmin]. subst best'.
        destruct (Z.leb_spec (arbiter_priority c) after); [lia|]. destruct best as [[k0 p0]|].
        -- destruct (Z.ltb_spec (arbiter_priority c) p0); [by eapply Hle|]. specialize (Hle _ _ eq_refl). lia.
        -- by eapply Hle.
      * intros k' p' ->. subst best'. destruct (Z.leb_spec (arbiter_priority c) after); [by eapply Hle|].
        destruct (Z.ltb_spec (arbiter_priority c) p'); [specialize (Hle _ _ eq_refl); lia|by eapply Hle].
    + destruct IH as [Hnone Hall]. subst best'. destruct (Z.leb_spec (arbiter_priority c) after).
      * split; [done|]. intros c' [->|Hin]%elem_of_cons; [done|by apply Hall].
      * destruct best as [[k0 p0]|]; [|done]. by destruct (_ <? _).
Qed.

Lemma next_arbiter_spec b after :
  match next_arbiter b after with
  | Some i => after < priority_at b i /\ (i < length b)%nat
      /\ forall c, c ∈ b -> after < arbiter_priority c -> priority_at b i <= arbiter_priority c
  | None => forall c, c ∈ b -> arbiter_priority c <= after
  end.
Proof.
  unfold next_arbiter.
  pose proof (next_arbiter_loop_spec b b 0 after None ltac:(done) ltac:(done)) as H.
  destruct (next_arbiter_loop 0 b after None) as [[k p]|]; cbn.
  - destruct H as (-> & ? & ? & ? & _). done.
  - by destruct H.
Qed.

(** The priorities still ahead of [after]. *)
Definition ahead (b : contact_book) (after : Z) : nat :=
  length (filter (fun c => after < arbiter_priority c) b).

Lemma ahead_decreases b after i :
  next_arbiter b after = Some i -> (ahead b (priority_at b i) < ahead b after)%nat.
Proof.
  intros E. pose proof (next_arbiter_spec b after) as H. rewrite E in H. destruct H as (Hlt & Hi & _).
  destruct (lookup_lt_is_Some_2 b i Hi) as [c Hc]. unfold priority_at in *. rewrite Hc in *. cbn in *.
  apply list_elem_of_split_length in Hc as (l1 & l2 & -> & _). unfold ahead.
  rewrite !filter_app, !filter_cons, !length_app.
  rewrite decide_False by lia. rewrite decide_True by done. cbn [length].
  assert (Hle : forall l : contact_book,
    (length (filter (fun c0 => (arbiter_priority c < arbiter_priority c0)%Z) l)
     <= length (filter (fun c0 => (after < arbiter_priority c0)%Z) l))%nat).
  { induction l as [|x l IH]; [done|]. rewrite !filter_cons.
    destruct (decide (arbiter_priority c < arbiter_priority x)), (decide (after < arbiter_priority x));
      cbn [length]; lia. }
  pose proof (Hle l1). pose proof (Hle l2). lia.
Qed.

(** The tried arbiters: strictly increasing priorities above [after]. *)
Definition increasing (b : contact_book) (after : Z) (l : list nat) : Prop :=
  StronglySorted Z.lt (after :: map (priority_at b) l).

Lemma try_arbiters_order fuel config self b op priority tried w :
  (ahead b priority < fuel)%nat ->
  let '((l, status), _) := try_arbiters fuel config self b op priority tried w in
  exists more, l = tried ++ more /\ increasing b priority more
    /\ (status = None -> forall c, c ∈ b -> priority < arbiter_priority c ->
          arbiter_priority c ∈ map (priority_at b) more).
Proof.
  revert priority tried w; induction fuel as [|f IH]; intros priority tried w Hf; [lia|]. cbn [try_arbiters].
  pose proof (next_arbiter_spec b priority) as Hs. pose proof (ahead_decreases b priority) as Hd.
  destruct (next_arbiter b priority) as [i|].
  - destruct Hs as (Hlt & Hi & Hmin). specialize (Hd i eq_refl). rewrite st_bind_run.
    destruct (contact_arbiter config self _ op w) as [[|status] w1]; cbn [fst snd].
    + specialize (IH (arbiter_priority (default Book.zero_contact (b !! i))) (tried ++ [i]) w1).
      destruct (try_arbiters f _ _ _ _ _ _ w1) as [[l status] w2].
      destruct IH as (more & -> & Hinc & Hall); [unfold priority_at in Hd; lia|].
      exists (i :: more). rewrite <- app_assoc. split; [done|]. split.
      * unfold increasing in *. cbn [map]. constructor; [done|]. apply StronglySorted_inv in Hinc as [_ Hf'].
        constructor; [done|]. eapply Forall_impl; [exact Hf'|]. intros z. unfold priority_at in Hlt. lia.
      * intros Hst c Hc Hp. cbn [map]. apply elem_of_cons.
        destruct (Z.eq_dec (arbiter_priority c) (priority_at b i)) as [|Hne]; [by left|right].
        apply Hall; [done|done|]. specialize (Hmin c Hc Hp). unfold priority_at in *. lia.
    + exists [i]. split; [done|]. split; [|done]. by repeat constructor.
  - exists []. rewrite app_nil_r. split; [done|]. split; [by repeat constructor|].
    intros _ c Hc Hp. specialize (Hs c Hc). lia.
Qed.

(** the initiator tries arbiters in strictly increasing priority, and
    gives up only after one arbiter of every positive priority in the book has
    been tried; its loop ends on every book. *)
Theorem initiator_order config self b op w :
  let '((l, status), _) := run_initiator config self b op w in
  StronglySorted Z.lt (0 :: map (priority_at b) l)
  /\ (status = None -> forall c, c ∈ b -> 0 < arbiter_priority c ->
        arbiter_priority c ∈ map (priority_at b) l).
Proof.
  unfold run_initiator.
  assert (Hf : (ahead b 0 < S (length b))%nat) by (unfold ahead; pose proof (length_filter (fun c => (0 < arbiter_priority c)%Z) b); lia).
  pose proof (try_arbiters_order (S (length b)) config self b op 0 [] w Hf) as H.
  destruct (try_arbiters _ _ _ _ _ _ _ w) as [[l status] w']. destruct H as (more & -> & Hinc & Hall). done.
Qed.

End Initiator.

Module Client.

(** [read_key] of council_client.c and council_file_sender.c trims the end. *)
Fixpoint trim_key (s : bytes) : bytes :=
  match s with
  | [] => []
  | c :: s' => match trim_key s' with
               | [] => if (c =? NL) || (c =? CR) || (c =? SP) then [] else [c]
               | r => c :: r
               end
  end.

Definition read_key (path : bytes) (size : nat) : st world (option bytes) :=
  f ← file_read path;
  mret (match f ≫= fgets size with
        | None => None
        | Some (line, _) => match trim_key (cstr line) with [] => None | k => Some k end
        end).

(** The line for a subcommand of councilctl. *)
Definition command_line (command argument : bytes) : option bytes :=
  let line verb := Some (snprintf Proto.COUNCIL_MESSAGE_LENGTH (verb ++ [SP] ++ argument ++ [NL])) in
  if bytes_eqb command (str "say") then line (str "SAY")
  else if bytes_eqb command (str "status") then Some (str "STATUS" ++ [NL])
  else if bytes_eqb command (str "grant") then line (str "GRANT")
  else if bytes_eqb command (str "end-propose") then line (str "END_PROPOSE")
  else if bytes_eqb command (str "end-vote") then line (str "END_VOTE")
  else None.

(** The reply loop: the lines printed and the exit status. *)
Fixpoint reply_loop (fuel : nat) (status : bool) (printed : list bytes) (result : Z) : st socket (list bytes * Z) :=
  match fuel with
  | O => mret (printed, result)
  | S f =>
      line ← network_read_line Proto.COUNCIL_MESSAGE_LENGTH;
      match line with
      | None => mret (printed, result)
      | Some line =>
          let result := if starts_with (str "ERROR") line then 1 else result in
          if negb status || bytes_eqb line (str "END") then mret (printed ++ [line], result)
          else reply_loop f status (printed ++ [line]) result
      end
  end.

Definition reply_lines (status : bool) : st socket (list bytes * Z) := fun k =>
  reply_loop (S (length (s_in k))) status [] 0 k.

(** [main] of councilctl after its options: output and exit status. *)
Definition councilctl (hub : contact) (name command argument : bytes) : st world (list bytes * Z) :=
  if Proto.multi_line argument then mret ([], 2)
  else
    c ← Proto.protocol_connect_identity hub name;
    match c with
    | None => mret ([], 1)
    | Some k =>
        match command_line command argument with
        | None => close_peer (host hub) (port hub) k ;; mret ([], 2)
        | Some line =>
            let '(sent, k) := network_send line k in
            if sent : bool then
              let '(r, k) := reply_lines (bytes_eqb command (str "status")) k in
              close_peer (host hub) (port hub) k ;; mret r
            else close_peer (host hub) (port hub) k ;; mret ([], 1)
        end
    end.

(** [main] of council-send-file after its options: the last line and status. *)
Definition send_file (arbiter : contact) (local_name target path : bytes) : st world (bytes * Z) :=
  described ← Files.file_transfer_describe path;
  match described with
  | None => mret ([], 2)
  | Some (file_name, size, digest) =>
      c ← Proto.protocol_connect_identity arbiter local_name;
      match c with
      | None => mret ([], 1)
      | Some k =>
          let command := snprintf 512 (str "FILE " ++ target ++ [SP] ++ file_name ++ [SP]
                                         ++ print_nat size ++ [SP] ++ digest ++ [NL]) in
          '((line, status), k) ← Files.with_socket k (
            sent ← on_snd (network_send command);
            if sent : bool then
              line ← on_snd (network_read_line 512);
              match line with
              | None => mret ([], 1)
              | Some line =>
                  if negb (bytes_eqb line (str "READY")) then mret (line, 1)
                  else
                    streamed ← Files.file_transfer_send_stream path;
                    if streamed : bool then
                      last ← on_snd (network_read_line 512);
                      mret (match last with
                            | None => ([], 1)
                            | Some last => (last, if bytes_eqb last (str "STORED") then 0 else 1)
                            end)
                    else mret ([], 1)
              end
            else mret ([], 1));
          close_peer (host arbiter) (port arbiter) k ;;
          mret (line, status)
      end
  end.

(** council_live.c: [say] and [end_vote]. *)
Definition live_send (hub : contact) (name line : bytes) : st world bool :=
  c ← Proto.protocol_connect_identity hub name;
  match c with
  | None => mret false
  | Some k =>
      let '(reply, k) :=
        (sent ← network_send line; if sent : bool then network_read_line 256 else mret None) k in
      close_peer (host hub) (port hub) k ;;
      mret (bool_decide (reply = Some (str "ACCEPTED")))
  end.

Definition live_say (hub : contact) (name message : bytes) : st world bool :=
  if (Z.to_nat 8186 <? length message)%nat || Proto.multi_line message then mret false
  else live_send hub name (snprintf (Z.to_nat 8192) (str "SAY " ++ message ++ [NL])).

Definition live_end_vote (hub : contact) (name vote : bytes) : st world bool :=
  let c := peek (drop 5 vote) in
  let close := starts_with (str "close") vote && ((c =? 0) || (c =? SP)) in
  let continue_ := starts_with (str "continue ") vote && negb (peek (drop 9 vote) =? 0) in
  if negb close && negb continue_ then mret false
  else if (Z.to_nat 8181 <? length vote)%nat then mret false
  else live_send hub name (snprintf (Z.to_nat 8192) (str "END_VOTE " ++ vote ++ [NL])).

End Client.
