(* ===== verification/Process.v ===== *)
(** * Processes, pipes and GPIO lines, as neo/tools/ uses them

    The daemon on the Neo forks helpers, polls them with [waitpid], reads a
    pipe without blocking and drives GPIO lines through [ioctl].  What the
    kernel decides is read from oracle lists; what the program makes the kernel
    do is recorded in a trace of events. *)
From S2P Require Import Prelude CLib World.

Open Scope Z_scope.

(** The outcome of [waitpid(pid, &status, WNOHANG)]. *)
Inductive exit_status := Exited (code : Z) | Signaled.
Inductive wait_result := StillRunning | Reaped (status : exit_status) | WaitFailed.

(** The outcome of [read] on a non-blocking pipe; [Got []] is end of file. *)
Inductive read_result := Got (data : bytes) | WouldBlock | ReadFailed.

Inductive event :=
  | Spawned (pid : Z) (argv : list bytes)  (** a fork whose child runs [execl] *)
  | Killed (pid : Z) (sig : Z)
  | Waited (pid : Z)                       (** a blocking [waitpid] *)
  | Slept (nanoseconds : Z)
  | Closed (fd : Z)
  | LineClaimed (line : Z) (fd : Z)        (** [GPIO_V2_GET_LINE_IOCTL], output, low *)
  | LineSet (fd : Z) (bits : Z).           (** [GPIO_V2_LINE_SET_VALUES_IOCTL] *)

#[global] Instance exit_status_eq_dec : EqDecision exit_status.
Proof. solve_decision. Defined.
#[global] Instance event_eq_dec : EqDecision event.
Proof. solve_decision. Defined.

Record os := Os {
  o_world : world;                   (** files, and whether each fallible call fails *)
  o_waits : list wait_result;        (** successive [waitpid(WNOHANG)] *)
  o_reads : list read_result;        (** successive reads of the scanner's pipe *)
  o_forks : list (option positive);  (** successive [fork]s: the child's pid *)
  o_fds : list Z;                    (** successive descriptors the kernel hands out *)
  o_gpio : gmap Z Z;                 (** the value of each claimed line, by descriptor *)
  o_error : Z;                       (** [errno] after a failed call *)
  o_trace : list event
}.

(** [WIFEXITED(status) ? WEXITSTATUS(status) : 128]. *)
Definition exit_code (s : exit_status) : Z := match s with Exited c => c | Signaled => 128 end.

Definition SIGKILL : Z := 9.
Definition SIGTERM : Z := 15.

Definition log_event (e : event) : st os unit := modify (fun o =>
  Os (o_world o) (o_waits o) (o_reads o) (o_forks o) (o_fds o) (o_gpio o) (o_error o)
     (o_trace o ++ [e])).

(** A command of [World] run by the process. *)
Definition on_world {A} (m : st world A) : st os A := fun o =>
  let '(a, w) := m (o_world o) in
  (a, Os w (o_waits o) (o_reads o) (o_forks o) (o_fds o) (o_gpio o) (o_error o) (o_trace o)).

(** A call with no result but success or failure. *)
Definition fails : st os bool := on_world fault.

Definition waitpid_nohang : st os wait_result := fun o =>
  match o_waits o with
  | [] => (StillRunning, o)
  | r :: rs => (r, Os (o_world o) rs (o_reads o) (o_forks o) (o_fds o) (o_gpio o) (o_error o) (o_trace o))
  end.

(** [read(fd, buf, n)]: at most [n] bytes, the others stay in the pipe. *)
Definition read_pipe (n : nat) : st os read_result := fun o =>
  match o_reads o with
  | [] => (WouldBlock, o)
  | r :: rs =>
      let '(a, rest) := match r with
                        | Got d => (Got (take n d), match drop n d with [] => rs | d' => Got d' :: rs end)
                        | _ => (r, rs)
                        end in
      (a, Os (o_world o) (o_waits o) rest (o_forks o) (o_fds o) (o_gpio o) (o_error o) (o_trace o))
  end.

(** [fork] and, in the child, [execl(argv[0], argv[0], ...)]: the child's pid
    in the parent, [-1] when there is no child. *)
Definition spawn (argv : list bytes) : st os Z := fun o =>
  match o_forks o with
  | [] => (-1, o)
  | None :: fs => (-1, Os (o_world o) (o_waits o) (o_reads o) fs (o_fds o) (o_gpio o) (o_error o) (o_trace o))
  | Some p :: fs => (Zpos p, Os (o_world o) (o_waits o) (o_reads o) fs (o_fds o) (o_gpio o) (o_error o)
                              (o_trace o ++ [Spawned (Zpos p) argv]))
  end.

(** A new descriptor, [-1] when the call fails. *)
Definition new_fd : st os Z := fun o =>
  match o_fds o with
  | [] => (-1, o)
  | f :: fs => (Z.max f (-1), Os (o_world o) (o_waits o) (o_reads o) (o_forks o) fs (o_gpio o) (o_error o) (o_trace o))
  end.

(** [pipe2]: the descriptors of both ends. *)
Definition pipe2 : st os (option (Z * Z)) :=
  a ← new_fd; b ← new_fd;
  mret (if (a <? 0) || (b <? 0) then None else Some (a, b)).

(** [open(path, O_WRONLY | O_CREAT | O_APPEND | O_CLOEXEC | O_NOFOLLOW, 0600)];
    [false] on failure. *)
Definition open_log (path : bytes) : st os bool :=
  bad ← fails;
  if bad : bool then mret false
  else found ← on_world (file_read path);
       match found with
       | Some _ => mret true
       | None => on_world (modify (store path [])) ;; mret true
       end.

(** Claiming a line as an output driven low. *)
Definition gpio_claim (line : Z) : st os Z :=
  fd ← new_fd;
  if fd <? 0 then mret (-1)
  else modify (fun o => Os (o_world o) (o_waits o) (o_reads o) (o_forks o) (o_fds o)
                           (<[fd := 0]> (o_gpio o)) (o_error o) (o_trace o)) ;;
       log_event (LineClaimed line fd) ;; mret fd.

(** Setting the value of a claimed line; [false] when the [ioctl] fails. *)
Definition gpio_set (fd bits : Z) : st os bool :=
  bad ← fails;
  if bad : bool then mret false
  else modify (fun o => Os (o_world o) (o_waits o) (o_reads o) (o_forks o) (o_fds o)
                           (<[fd := Z.land bits 1]> (o_gpio o)) (o_error o) (o_trace o)) ;;
       log_event (LineSet fd bits) ;; mret true.

(** Reading it back; an unclaimed descriptor reads as a failure. *)
Definition gpio_get (fd : Z) : st os (option Z) :=
  bad ← fails;
  if bad : bool then mret None else gets (fun o => o_gpio o !! fd).
