(* ===== verification/NativeRegistry.v ===== *)
(** * neo/tools/noob_native_registry.h: native calls and their arguments

    The table look-up and the parser of the argument text of a CALL: up to
    eight 32-bit numbers and, for CALL_MIXED, one quoted ASCII string with
    backslash escapes.  The parser is proved to invert the printer a caller
    uses and to accept nothing outside the argument record's bounds. *)
From S2P Require Import Prelude CLib.

Open Scope Z_scope.

Module Native.

(** [numbers] holds the first [count] entries of the C array, whose other
    entries are zero. *)
Record NoobNativeArguments := Arguments_ { numbers : list Z; ascii : bytes }.
Definition count (a : NoobNativeArguments) : nat := length (numbers a).
(** [args->numbers[i]]. *)
Definition number (a : NoobNativeArguments) (i : nat) : Z := nth i (numbers a) 0.

(** A table entry; [call] is the native's handler. *)
Record NoobNativeEntry {F : Type} := Entry { name : bytes; want_numbers : nat; text : bool; call : F }.
Arguments NoobNativeEntry : clear implicits.

Fixpoint noob_native_find {F} (entries : list (NoobNativeEntry F)) (nm : bytes)
  : option (NoobNativeEntry F) :=
  match entries with
  | [] => None
  | e :: es => if bytes_eqb (name e) nm then Some e else noob_native_find es nm
  end.

Definition INT32_MIN : Z := -2147483648.
Definition INT32_MAX : Z := 2147483647.
Definition BACKSLASH : byte := 92.

(** Skip the blanks at the front. *)
Fixpoint skip_blanks (s : bytes) : bytes :=
  match s with
  | c :: s' => if c =? SP then skip_blanks s' else s
  | [] => []
  end.

(** One number: the value of [strtol], [None] for the [return 0] paths. *)
Definition parse_number (text : bytes) : option (Z * bytes) :=
  match strtol text with
  | None => None
  | Some (value, rest) =>
      if strtol_erange text || (value <? INT32_MIN) || (INT32_MAX <? value)
         || negb ((peek rest =? NUL) || (peek rest =? SP))
      then None else Some (value, rest)
  end.

(** The loop up to the end of the text or a quote: each number takes at least one
    byte of the text, whose length is enough fuel. *)
Fixpoint parse_numbers (fuel : nat) (text : bytes) (acc : list Z) : option (list Z * bytes) :=
  match text with
  | [] => Some (acc, [])
  | c :: _ =>
      if c =? DQ then Some (acc, text)
      else if (length acc =? 8)%nat then None
      else match fuel, parse_number text with
           | S f, Some (value, rest) => parse_numbers f (skip_blanks rest) (acc ++ [value])
           | _, _ => None
           end
  end.

(** The characters between the quotes, at most 191 of them.  The result is the
    decoded string and the text from the closing quote on. *)
Fixpoint parse_quoted (text : bytes) (acc : bytes) : option (bytes * bytes) :=
  let store c rest :=
    if (c <? 32) || (126 <? c) || (192 <=? Z.of_nat (length acc) + 1) then None
    else parse_quoted rest (acc ++ [c]) in
  match text with
  | [] => Some (acc, [])
  | c :: text' =>
      if c =? DQ then Some (acc, text)
      else if c =? BACKSLASH then
        match text' with
        | [] => None
        | e :: text'' => if (e =? BACKSLASH) || (e =? DQ) then store e text'' else None
        end
      else store c text'
  end.

Definition noob_native_parse (text : bytes) (mixed : bool) : option NoobNativeArguments :=
  let text := skip_blanks text in
  match parse_numbers (length text) text [] with
  | None => None
  | Some (ns, text) =>
      if negb mixed then (if peek text =? NUL then Some (Arguments_ ns []) else None)
      else match text with
           | q :: text =>
               if q =? DQ then
                 match parse_quoted text [] with
                 | Some (a, q' :: text) =>
                     if (q' =? DQ) && (peek (skip_blanks text) =? NUL)
                     then Some (Arguments_ ns a) else None
                 | _ => None
                 end
               else None
           | [] => None
           end
  end.

(** ** What a caller sends *)

Definition escape_char (c : byte) : bytes :=
  if (c =? DQ) || (c =? BACKSLASH) then [BACKSLASH; c] else [c].

Fixpoint print_numbers (ns : list Z) : bytes :=
  match ns with [] => [] | n :: ns => print_int n ++ SP :: print_numbers ns end.

Definition print_arguments (mixed : bool) (a : NoobNativeArguments) : bytes :=
  print_numbers (numbers a) ++ (if mixed then DQ :: (ascii a ≫= escape_char) ++ [DQ] else []).

Definition printable (c : byte) : Prop := 32 <= c <= 126.

#[global] Instance printable_dec c : Decision (printable c).
Proof. unfold printable. apply _. Defined.

(** The bounds of the C record. *)
Definition arguments_wf (a : NoobNativeArguments) : Prop :=
  (count a <= 8)%nat /\ Forall (fun n => INT32_MIN <= n <= INT32_MAX) (numbers a)
  /\ (length (ascii a) <= 191)%nat /\ Forall printable (ascii a).

#[global] Instance arguments_wf_dec a : Decision (arguments_wf a).
Proof. unfold arguments_wf. apply _. Defined.

(** ** Lemmas *)

Lemma find_name {F} (es : list (NoobNativeEntry F)) nm e :
  noob_native_find es nm = Some e -> e ∈ es /\ name e = nm.
Proof.
  induction es as [|x es IH]; [done|]. cbn. destruct (bytes_eqb (name x) nm) eqn:E; to_prop.
  - intros [= <-]. split; [left|done].
  - intros H. destruct (IH H). split; [by right|done].
Qed.

Lemma skip_blanks_nonblank c r : c <> SP -> skip_blanks (c :: r) = c :: r.
Proof. intros H. cbn. by destruct (Z.eqb_spec c SP). Qed.

Lemma print_int_head n r :
  exists c t, print_int n ++ r = c :: t /\ c <> SP /\ c <> DQ /\ isspace c = false.
Proof.
  unfold print_int. pose proof (print_nat_isdigit n) as H1. pose proof (print_nat_nonempty n) as H2.
  destruct (n <? 0); [by exists 45, (print_nat (- n) ++ r)|].
  destruct (print_nat n) as [|d ds]; [done|]. apply Forall_cons in H1 as [H1 _].
  apply isdigit_facts in H1 as (Hd & Hsp & _). exists d, (ds ++ r). unfold SP, DQ. split_and!; done || lia.
Qed.

Lemma scan_number_print_int n rest :
  (match rest with [] => True | c :: _ => isalnum c = false end) ->
  scan_number 10 (print_int n ++ rest) = Some (n <? 0, Z.abs n, rest).
Proof.
  intros Hr. unfold print_int. destruct (Z.ltb_spec n 0) as [Hn|Hn].
  - pose proof (scan_digits_print (- n) rest ltac:(lia) Hr) as Hs.
    pose proof (print_nat_isdigit (- n)) as Hd. unfold scan_number. cbn [app].
    rewrite skip_space_nonspace by done. cbn [Z.eqb Pos.eqb].
    destruct (print_nat (- n)) as [|d ds] eqn:E; [by apply print_nat_nonempty in E|].
    apply Forall_cons in Hd as [Hd _]. apply isdigit_facts in Hd as (_ & _ & Hv). cbn [app].
    destruct (Z.ltb_spec (digit_value d) 10); [|lia].
    change (d :: ds ++ rest) with ((d :: ds) ++ rest). rewrite Hs. repeat f_equal. lia.
  - rewrite scan_number_print by done. repeat f_equal. lia.
Qed.

Lemma parse_number_print n rest :
  INT32_MIN <= n <= INT32_MAX -> parse_number (print_int n ++ SP :: rest) = Some (n, SP :: rest).
Proof.
  unfold INT32_MIN, INT32_MAX. intros Hn. unfold parse_number, strtol, strtol_erange.
  rewrite scan_number_print_int by done.
  assert (Hv : (if n <? 0 then - Z.abs n else Z.abs n) = n) by (destruct (Z.ltb_spec n 0); lia).
  rewrite Hv. unfold clamp, LONG_MIN, LONG_MAX. rewrite Z.min_r, Z.max_r by lia.
  unfold INT32_MIN, INT32_MAX.
  repeat match goal with |- context [?a <? ?b] => destruct (Z.ltb_spec a b); [lia|] end. done.
Qed.

Lemma parse_numbers_print ns fuel acc rest :
  Forall (fun n => INT32_MIN <= n <= INT32_MAX) ns -> (length acc + length ns <= 8)%nat ->
  (length ns <= fuel)%nat -> (match rest with [] => True | c :: _ => c = DQ end) ->
  parse_numbers fuel (skip_blanks (print_numbers ns ++ rest)) acc = Some (acc ++ ns, rest).
Proof.
  intros Hns. revert fuel acc. induction Hns as [|n ns Hn Hns IH]; intros fuel acc Hl Hf Hr.
  - cbn [print_numbers app]. rewrite app_nil_r. destruct rest as [|c r]; [by destruct fuel|].
    subst c. rewrite skip_blanks_nonblank by done. by destruct fuel.
  - cbn [print_numbers]. rewrite <- app_assoc. cbn [app length] in *.
    destruct (print_int_head n (SP :: print_numbers ns ++ rest)) as (c & t & E & H1 & H2 & _).
    pose proof (parse_number_print n (print_numbers ns ++ rest) Hn) as Hp. rewrite E in *.
    rewrite skip_blanks_nonblank by done. destruct fuel as [|f]; [lia|]. cbn [parse_numbers].
    destruct (Z.eqb_spec c DQ); [done|]. destruct (Nat.eqb_spec (length acc) 8); [lia|].
    rewrite Hp. cbn [skip_blanks]. rewrite Z.eqb_refl, IH; try done; try lia.
    + by rewrite <- app_assoc.
    + rewrite length_app. cbn. lia.
Qed.

Lemma parse_quoted_print s acc rest :
  Forall printable s -> (length acc + length s <= 191)%nat ->
  parse_quoted ((s ≫= escape_char) ++ DQ :: rest) acc = Some (acc ++ s, DQ :: rest).
Proof.
  intros Hs. revert acc. induction Hs as [|c s Hc Hs IH]; intros acc Hl.
  - cbn. by rewrite app_nil_r.
  - assert (Hok : ((c <? 32) || (126 <? c) || (192 <=? Z.of_nat (length acc) + 1)) = false).
    { unfold printable in Hc. cbn in Hl. rewrite !orb_false_iff, !Z.ltb_ge, Z.leb_gt. lia. }
    specialize (IH (acc ++ [c])). rewrite <- app_assoc in IH. cbn [app] in IH.
    cbn [mbind list_bind]. rewrite <- app_assoc. unfold escape_char at 1.
    destruct (Z.eqb_spec c DQ) as [->|H1]; [|destruct (Z.eqb_spec c BACKSLASH) as [->|H2]];
      cbn [orb app parse_quoted].
    + unfold BACKSLASH, DQ in *. cbn [Z.eqb Pos.eqb orb]. rewrite Hok. apply IH. rewrite length_app; cbn in *; lia.
    + unfold BACKSLASH, DQ in *. cbn [Z.eqb Pos.eqb orb]. rewrite Hok. apply IH. rewrite length_app; cbn in *; lia.
    + destruct (Z.eqb_spec c DQ); [done|]. destruct (Z.eqb_spec c BACKSLASH); [done|].
      rewrite Hok. apply IH. rewrite length_app; cbn in *; lia.
Qed.

Lemma print_numbers_length ns : (length ns <= length (print_numbers ns))%nat.
Proof. induction ns as [|n ns IH]; [done|]. cbn. rewrite length_app. cbn. lia. Qed.

(** What the parser accepts is within the record's bounds. *)
Lemma parse_numbers_wf fuel text acc ns r :
  parse_numbers fuel text acc = Some (ns, r) ->
  (length acc <= 8)%nat -> Forall (fun n => INT32_MIN <= n <= INT32_MAX) acc ->
  (length ns <= 8)%nat /\ Forall (fun n => INT32_MIN <= n <= INT32_MAX) ns.
Proof.
  revert text acc; induction fuel as [|f IH]; intros text acc; destruct text as [|c t]; cbn [parse_numbers];
    try (by intros [= <- <-]).
  - destruct (c =? DQ); [by intros [= <- <-]|]. by destruct (_ =? 8)%nat.
  - destruct (c =? DQ); [by intros [= <- <-]|]. destruct (Nat.eqb_spec (length acc) 8); [done|].
    destruct (parse_number (c :: t)) as [[v rest]|] eqn:E; [|done]. intros H Hl Hacc.
    eapply IH; [exact H|rewrite length_app; cbn; lia|]. apply Forall_app. split; [done|].
    constructor; [|done]. unfold parse_number in E. destruct (strtol (c :: t)) as [[x ?]|]; [|done].
    split_if; [done|]. injection E as -> _. to_prop. lia.
Qed.

Lemma parse_quoted_wf_aux k text acc a r :
  (length text <= k)%nat -> parse_quoted text acc = Some (a, r) ->
  (length acc <= 191)%nat -> Forall printable acc -> (length a <= 191)%nat /\ Forall printable a.
Proof.
  revert text acc; induction k as [|k IH]; intros text acc Hk H Hl Hacc.
  { destruct text; [|cbn in Hk; lia]. cbn in H. by simplify_eq. }
  assert (Hstore : forall c rest, (length rest <= k)%nat ->
    (if (c <? 32) || (126 <? c) || (192 <=? Z.of_nat (length acc) + 1) then None
     else parse_quoted rest (acc ++ [c])) = Some (a, r) -> (length a <= 191)%nat /\ Forall printable a).
  { intros c rest Hrest Hs. split_if; [done|]. to_prop. eapply IH; [|exact Hs| |]; [done| |].
    - rewrite length_app. cbn. lia.
    - apply Forall_app. split; [done|]. constructor; [unfold printable; lia|done]. }
  destruct text as [|c text]; cbn [parse_quoted] in H; [by simplify_eq|].
  destruct (c =? DQ); [by simplify_eq|]. destruct (c =? BACKSLASH).
  - destruct text as [|e t]; [done|]. destruct (_ || _); [|done]. eapply Hstore; [|exact H]. cbn in *; lia.
  - eapply Hstore; [|exact H]. cbn in *; lia.
Qed.

Lemma noob_native_parse_bounds text mixed a :
  noob_native_parse text mixed = Some a -> arguments_wf a.
Proof.
  unfold noob_native_parse. destruct (parse_numbers _ _ _) as [[ns rest]|] eqn:E; [|done].
  apply parse_numbers_wf in E as [H1 H2]; [|cbn; lia|constructor]. destruct mixed; cbn [negb].
  - destruct rest as [|q t]; [done|]. destruct (q =? DQ); [|done].
    destruct (parse_quoted t []) as [[s [|q' t']]|] eqn:Eq; [done| |done].
    apply (parse_quoted_wf_aux (length t)) in Eq as [H3 H4]; [|done|cbn; lia|constructor].
    split_if; [|done]. intros [= <-]. done.
  - split_if; [|done]. intros [= <-]. split_and!; [done|done|cbn; lia|constructor].
Qed.

(** ** Properties *)

(** the argument text of a CALL is read back exactly: for every argument
    record within the bounds of the C structure, the text a caller prints for
    it (numbers separated by blanks, then for CALL_MIXED the quoted and escaped
    string) parses to that record. *)
Theorem noob_native_parse_roundtrip (mixed : bool) (a : NoobNativeArguments) :
  arguments_wf a -> (mixed = false -> ascii a = []) ->
  noob_native_parse (print_arguments mixed a) mixed = Some a.
Proof.
  intros (H8 & Hn & Hl & Hp) Hm. destruct a as [ns s]. unfold count in H8. cbn [numbers ascii] in *.
  unfold noob_native_parse, print_arguments. cbn [numbers ascii].
  set (rest := if mixed then DQ :: (s ≫= escape_char) ++ [DQ] else []).
  pose proof (parse_numbers_print ns (length (skip_blanks (print_numbers ns ++ rest))) [] rest Hn) as H.
  rewrite H; clear H.
  - cbn [app]. destruct mixed; cbn [negb].
    + unfold rest. rewrite Z.eqb_refl, (parse_quoted_print s [] []) by (done || cbn; lia).
      cbn. done.
    + by rewrite Hm.
  - cbn; lia.
  - destruct ns as [|n ns]; [cbn; lia|]. cbn [print_numbers]. rewrite <- app_assoc.
    destruct (print_int_head n ((SP :: print_numbers ns) ++ rest)) as (c & t & E & H1 & _).
    rewrite E, skip_blanks_nonblank, <- E by done. rewrite !length_app. cbn [length].
    pose proof (print_numbers_length ns). lia.
  - unfold rest. by destruct mixed.
Qed.

Lemma noob_native_parse_roundtrip_witness :
  noob_native_parse (print_arguments true (Arguments_ [-5; 1200] (str "a\b" ++ [DQ]))) true
  = Some (Arguments_ [-5; 1200] (str "a\b" ++ [DQ])).
Proof.
  apply noob_native_parse_roundtrip; [by apply (bool_decide_unpack _); vm_compute|done].
Defined.

End Native.
