(* ===== verification/NeoState.v ===== *)
(** * neo/tools/noob-neod.c: the daemon's state and its replies

    The static variables of noob-neod.c, hw_display.c and hw_led.c grouped by
    the part that owns them, the operating system underneath, the connected
    client, and [respond].  The relations [quiet] (nothing is sent) and
    [replies] (exactly one reply line is sent) are what the daemon's parts
    promise to its request handler. *)
From S2P Require Import Prelude CLib World Network Process.

Open Scope Z_scope.

Definition IR_QUEUE_SIZE : nat := 16.

(** The infrared scanner and its queue of scancodes. *)
Record scanner := Scanner {
  scan_pid : Z; scan_output : Z; scan_line : bytes;   (** [scan_line[0..scan_line_used)] *)
  ir_queue : list Z; ir_head : nat; ir_count : nat }.

(** The asynchronous file or audio job. *)
Record job := Job { file_pid : Z; file_exit : Z }.

(** The display worker (hw_display.c). *)
Record display := Display {
  worker : Z; thread : bool; last_exit : Z; active_image : bytes; active_interval : Z }.

(** What [main] takes from the environment; [None] is an unset variable. *)
Record settings := Settings {
  ir_tool : bytes; file_tool : bytes; vm_directory : bytes; job_directory : bytes;
  env_esp_dir : option bytes; env_display_tool : option bytes }.

Record neo := Neo {
  n_scan : scanner; n_job : job; n_display : display;
  n_handles : list Z;                       (** hw_led.c: fd + 1, zero means unclaimed *)
  n_settings : settings; n_os : os; n_client : socket }.

Definition set_scan (f : scanner -> scanner) : st neo unit := modify (fun n =>
  Neo (f (n_scan n)) (n_job n) (n_display n) (n_handles n) (n_settings n) (n_os n) (n_client n)).
Definition set_job (f : job -> job) : st neo unit := modify (fun n =>
  Neo (n_scan n) (f (n_job n)) (n_display n) (n_handles n) (n_settings n) (n_os n) (n_client n)).
Definition set_display (f : display -> display) : st neo unit := modify (fun n =>
  Neo (n_scan n) (n_job n) (f (n_display n)) (n_handles n) (n_settings n) (n_os n) (n_client n)).
Definition set_handles (f : list Z -> list Z) : st neo unit := modify (fun n =>
  Neo (n_scan n) (n_job n) (n_display n) (f (n_handles n)) (n_settings n) (n_os n) (n_client n)).
Definition on_os {A} (m : st os A) : st neo A := fun n =>
  let '(a, o) := m (n_os n) in
  (a, Neo (n_scan n) (n_job n) (n_display n) (n_handles n) (n_settings n) o (n_client n)).
Definition on_client {A} (m : st socket A) : st neo A := fun n =>
  let '(a, c) := m (n_client n) in
  (a, Neo (n_scan n) (n_job n) (n_display n) (n_handles n) (n_settings n) (n_os n) c).

Definition REPLY_BYTES : nat := Z.to_nat 768.

(** The line [respond] formats: ["NRP/1 <id> <status>[ <payload>]\n"]. *)
Definition reply_line (id : Z) (status payload : bytes) : bytes :=
  str "NRP/1 " ++ print_nat id ++ SP :: status
  ++ (match payload with [] => [] | _ => SP :: payload end) ++ [NL].

(** A line that does not fit [reply] is not sent at all. *)
Definition respond (id : Z) (status payload : bytes) : st neo unit :=
  let line := reply_line id status payload in
  when (length line <? REPLY_BYTES)%nat (on_client (network_send_bytes line) ;; mret tt).

(** ** The promises *)

(** The client's socket is left alone. *)
Definition quiet {A} (m : st neo A) : Prop := forall n, n_client (m n).2 = n_client n.

(** A text of a reply: one line, short enough to leave room for the id. *)
Definition reply_text (status payload : bytes) : Prop :=
  (NL ∉ (status ++ payload)) /\ (length status + length payload <= 700)%nat.

(** On a socket the kernel does not fail, exactly one reply to request [id] is
    sent. *)
Definition replies (id : Z) (m : st neo unit) : Prop := forall n, willing (n_client n) ->
  exists status payload, reply_text status payload
    /\ s_out (n_client (m n).2) = s_out (n_client n) ++ reply_line id status payload.

Section promises.

Lemma quiet_ret {A} (a : A) : quiet (mret a).
Proof. by intros n. Qed.

Lemma quiet_gets {A} (f : neo -> A) : quiet (gets f).
Proof. by intros n. Qed.

Lemma quiet_set_scan f : quiet (set_scan f).
Proof. by intros n. Qed.

Lemma quiet_set_job f : quiet (set_job f).
Proof. by intros n. Qed.

Lemma quiet_set_display f : quiet (set_display f).
Proof. by intros n. Qed.

Lemma quiet_set_handles f : quiet (set_handles f).
Proof. by intros n. Qed.

Lemma quiet_on_os {A} (m : st os A) : quiet (on_os m).
Proof. intros n. unfold on_os. by destruct (m (n_os n)). Qed.

Lemma quiet_bind {A B} (m : st neo A) (f : A -> st neo B) :
  quiet m -> (forall a, quiet (f a)) -> quiet (m ≫= f).
Proof. intros Hm Hf n. rewrite st_bind_run, Hf. apply Hm. Qed.

Lemma quiet_if {A} (b : bool) (m1 m2 : st neo A) : quiet m1 -> quiet m2 -> quiet (if b then m1 else m2).
Proof. by destruct b. Qed.

Lemma quiet_when b m : quiet m -> quiet (when b m).
Proof. intros. destruct b; [done|apply quiet_ret]. Qed.

Lemma quiet_for_each {A} (f : A -> st neo unit) l : (forall x, quiet (f x)) -> quiet (for_each f l).
Proof.
  intros H. induction l as [|x l IH]; [apply quiet_ret|]. apply quiet_bind; [apply H|done].
Qed.

Lemma replies_bind {A} id (m : st neo A) (f : A -> st neo unit) :
  quiet m -> (forall a, replies id (f a)) -> replies id (m ≫= f).
Proof.
  intros Hm Hf n Hn. rewrite st_bind_run. specialize (Hm n).
  destruct (Hf (m n).1 (m n).2) as (s & p & Ht & E); [by rewrite Hm|].
  exists s, p. by rewrite E, Hm.
Qed.

(** As [replies_bind], where what [m] returns bounds what is sent. *)
Lemma replies_bind_post {A} id (Q : A -> Prop) (m : st neo A) (f : A -> st neo unit) :
  quiet m -> (forall n, Q (m n).1) -> (forall a, Q a -> replies id (f a)) -> replies id (m ≫= f).
Proof.
  intros Hm HQ Hf n Hn. rewrite st_bind_run. specialize (Hm n).
  destruct (Hf (m n).1 (HQ n) (m n).2) as (s & p & Ht & E); [by rewrite Hm|].
  exists s, p. by rewrite E, Hm.
Qed.

Lemma replies_if id (b : bool) m1 m2 :
  (b = true -> replies id m1) -> (b = false -> replies id m2) -> replies id (if b then m1 else m2).
Proof. destruct b; auto. Qed.
End promises.

#[export] Hint Resolve quiet_ret quiet_gets quiet_set_scan quiet_set_job quiet_set_display
  quiet_set_handles quiet_on_os quiet_when quiet_for_each : noobia.

(** ** Bounds on printed numbers *)

Lemma print_nat_no_NL n : NL ∉ print_nat n.
Proof.
  intros H. pose proof (print_nat_isdigit n) as HF. rewrite Forall_forall in HF. by apply HF in H.
Qed.

Lemma print_int_no_NL n : NL ∉ print_int n.
Proof.
  unfold print_int. destruct (n <? 0); [|apply print_nat_no_NL].
  intros [H|H]%elem_of_cons; [done|]. by apply print_nat_no_NL in H.
Qed.

(** A 32-bit request id takes at most 33 bytes. *)
Definition id_ok (id : Z) : Prop := 0 <= id < 2 ^ 32.

#[global] Instance id_ok_dec id : Decision (id_ok id).
Proof. unfold id_ok. apply _. Defined.

Lemma reply_line_fits id status payload :
  id_ok id -> reply_text status payload -> (length (reply_line id status payload) < REPLY_BYTES)%nat.
Proof.
  intros Hid [_ Hl]. pose proof (print_nat_length id 32 Hid). unfold reply_line, REPLY_BYTES.
  rewrite !length_app. cbn [length str]. rewrite length_app. destruct payload; cbn [length app] in *; rewrite ?length_app; cbn [length]; lia.
Qed.

Lemma replies_respond id status payload :
  id_ok id -> reply_text status payload -> replies id (respond id status payload).
Proof.
  intros Hid Ht n Hn. exists status, payload. split; [done|]. unfold respond.
  pose proof (reply_line_fits id status payload Hid Ht) as Hf. apply Nat.ltb_lt in Hf. rewrite Hf.
  cbn [when]. rewrite st_bind_run. unfold on_client.
  destruct (network_send_bytes_ok (reply_line id status payload) (n_client n) Hn) as (zs & -> & _).
  done.
Qed.

(** One step of a proof that a command is quiet or replies. *)
Ltac promise_step :=
  match goal with
  | |- quiet (_ ≫= _) => apply quiet_bind; [|intros ?]
  | |- quiet (if _ then _ else _) => apply quiet_if
  | |- quiet (match ?x with _ => _ end) => destruct x
  | |- quiet (when _ _) => apply quiet_when
  | |- quiet (for_each _ _) => apply quiet_for_each; intros ?
  | |- quiet _ => solve [auto with noobia]
  | |- replies _ (if _ then _ else _) => apply replies_if; intros ?
  | |- replies _ (match ?x with _ => _ end) => destruct x eqn:?
  | |- replies _ (_ ≫= _) => apply replies_bind; [solve [repeat promise_step]|intros ?]
  | |- replies _ (respond _ _ _) => apply replies_respond; [assumption|]
  | |- replies _ _ => solve [auto with noobia]
  end.
Ltac promise_auto := repeat promise_step.

(** A newline-free text cut to its buffer is newline-free. *)
Lemma snprintf_no_NL n t : NL ∉ t -> NL ∉ snprintf n t.
Proof.
  intros H Hin. apply H. unfold snprintf in Hin.
  rewrite <- (take_drop (n - 1) t). apply elem_of_app. by left.
Qed.

(** A formatted reply in a buffer of at most 600 bytes. *)
Lemma reply_text_printf status n t :
  NL ∉ status -> (length status <= 100)%nat -> (n <= Z.to_nat 600)%nat -> NL ∉ t ->
  reply_text status (snprintf n t).
Proof.
  intros Hs Hl Hn Ht. split.
  - apply not_elem_of_app. split; [done|by apply snprintf_no_NL].
  - unfold snprintf. rewrite length_take. lia.
Qed.

(** A reply whose text is a literal. *)
Ltac literal_text := apply (bool_decide_unpack _); vm_compute; reflexivity.

#[global] Instance reply_text_dec s p : Decision (reply_text s p).
Proof. unfold reply_text. apply _. Defined.

(** No newline in a text put together from literals and numbers. *)
Ltac no_NL :=
  repeat (apply not_elem_of_app; split);
  lazymatch goal with
  | |- _ ∉ print_nat _ => apply print_nat_no_NL
  | |- _ ∉ print_int _ => apply print_int_no_NL
  | |- _ ∉ str _ => literal_text
  | |- _ ∉ (if _ then _ else _) => case_match; no_NL
  | |- _ ∉ _ :: _ => apply not_elem_of_cons; split; [done|no_NL]
  | |- _ => auto
  end.
Ltac reply_text_auto :=
  lazymatch goal with
  | |- reply_text (str _) (snprintf _ _) => apply reply_text_printf; [literal_text|literal_text|lia|no_NL]
  | |- reply_text (str _) (str _) => literal_text
  | |- _ => idtac
  end.
