(* ===== verification/HwDisplay.v ===== *)
(** * neo/tools/hw_display.c: the display worker

    One child process at a time owns the display: a one-shot sequence or a
    repeating thread.  [reap], [stop] and the whole of [hw_display_call]. *)
From S2P Require Import Prelude CLib World Network Process NativeRegistry NeoState.

Open Scope Z_scope.

Module HwDisplay.
Import Native.

Definition get_worker : st neo Z := gets (fun n => worker (n_display n)).
Definition set_worker (pid : Z) : st neo unit := set_display (fun d =>
  Display pid (thread d) (last_exit d) (active_image d) (active_interval d)).

Definition reap : st neo unit :=
  pid ← get_worker;
  when (0 <? pid)
    (r ← on_os waitpid_nohang;
     match r with
     | Reaped status => set_display (fun d =>
         Display (-1) (thread d) (exit_code status) (active_image d) (active_interval d))
     | _ => mret tt
     end).

(** Up to twenty polls, 10 ms apart; [true] when the worker is gone. *)
Fixpoint stop_polls (k : nat) : st neo bool :=
  match k with
  | O => mret false
  | S k' => reap ;;
            pid ← get_worker;
            if pid <=? 0 then mret true
            else on_os (log_event (Slept 10000000)) ;; stop_polls k'
  end.

Definition stop : st neo unit :=
  pid ← get_worker;
  if pid <=? 0 then mret tt
  else on_os (log_event (Killed (- pid) SIGTERM)) ;;
       gone ← stop_polls 20;
       if gone : bool then mret tt
       else pid ← get_worker;
            on_os (log_event (Killed (- pid) SIGKILL)) ;;
            on_os (log_event (Waited pid)) ;;
            set_worker (-1).

Definition bit (b : bool) : bytes := if b then str "1" else str "0".

Definition hw_display_call (id : Z) (nm : bytes) (args : NoobNativeArguments) : st neo unit :=
  reap ;;
  d ← gets n_display;
  if bytes_eqb nm (str "DISPLAY_STATUS") then
    let busy := bit (0 <? worker d) in
    respond id (str "OK") (snprintf 128
      (str "value=" ++ busy ++ str " running=" ++ busy ++ str " channel_busy=" ++ busy
       ++ str " type=" ++ (if thread d then str "thread" else str "sequence")
       ++ str " exit=" ++ print_int (last_exit d)))
  else if bytes_eqb nm (str "DISPLAY_STOP") then
    stop ;; respond id (str "OK") (str "value=0 stopped=1 channel_busy=0")
  else
  let start := bytes_eqb nm (str "DISPLAY_START") in
  if start && ((number args 0 <? 1000) || (60000 <? number args 0)) then
    respond id (str "ERR BAD_ARGUMENTS") (str "interval_ms must be 1000..60000")
  else
  when ((0 <? worker d) && start && thread d
        && (negb (bytes_eqb (active_image d) (ascii args))
            || negb (active_interval d =? number args 0))) stop ;;
  pid ← get_worker;
  if 0 <? pid then
    if start && thread d then respond id (str "OK") (str "value=1 already_running=1")
    else respond id (str "ERR BUSY") (str "display channel occupied")
  else
  let operation := if start then str "thread"
                   else if bytes_eqb nm (str "IMAGE_FORMAT") then str "format"
                   else if bytes_eqb nm (str "OLED_DRAW") then str "image" else str "text" in
  let interval := snprintf 16 (print_int (number args 0)) in
  cfg ← gets n_settings;
  let path := default (str "/esp") (env_esp_dir cfg) ++ str "/.display.log" in
  if (256 <=? length path)%nat then respond id (str "ERR IO") (str "display log path too long")
  else
  opened ← on_os (open_log path);
  if negb opened then respond id (str "ERR IO") (str "display log unavailable")
  else
  let tool := default (str "/usr/local/bin/noob-display") (env_display_tool cfg) in
  pid ← on_os (spawn ([tool; operation; ascii args] ++ if start then [interval] else []));
  set_worker pid ;;
  if pid <? 0 then respond id (str "ERR IO") (str "display worker failed")
  else
  set_display (fun d => Display (worker d) start (-1) (snprintf 192 (ascii args)) (number args 0)) ;;
  respond id (str "OK") (str "value=1 started=1 async=1 channel_busy=1").

Lemma quiet_reap : quiet reap.
Proof. unfold reap, get_worker. promise_auto. Qed.

Lemma quiet_stop_polls k : quiet (stop_polls k).
Proof.
  induction k as [|k IH]; [apply quiet_ret|]. cbn [stop_polls]. unfold get_worker.
  repeat (apply quiet_reap || apply IH || promise_step).
Qed.

Lemma quiet_stop : quiet stop.
Proof.
  unfold stop, get_worker, set_worker. pose proof quiet_stop_polls. promise_auto.
Qed.
#[export] Hint Resolve quiet_reap quiet_stop : noobia.

(** Every display call sends exactly one reply. *)
Lemma hw_display_call_replies id nm args : id_ok id -> replies id (hw_display_call id nm args).
Proof.
  intros Hid. unfold hw_display_call, get_worker, set_worker. promise_auto;
    reply_text_auto; unfold bit; no_NL.
Qed.
End HwDisplay.
