(* ===== verification/HwLed.v ===== *)
(** * neo/tools/hw_led.c: output lines by physical pin

    The pin table of hw_led_config.h, claiming a line once and keeping its
    descriptor, and [hw_led_call].  [strerror] is an argument. *)
From S2P Require Import Prelude CLib World Network Process NativeRegistry NeoState.

Open Scope Z_scope.

Module HwLed.
Import Native.

Definition NOOB_LED_BOOT_PIN : Z := 23.
(** (pin, line) pairs. *)
Definition noob_led_pins : list (Z * Z) :=
  [(7, 203); (11, 0); (12, 6); (13, 2); (15, 3); (19, 64); (21, 65); (22, 1); (23, 66); (24, 67)].
Definition LED_COUNT : nat := length noob_led_pins.

Fixpoint index_from (pins : list (Z * Z)) (i : nat) (pin : Z) : option nat :=
  match pins with
  | [] => None
  | (p, _) :: pins => if p =? pin then Some i else index_from pins (S i) pin
  end.
(** [None] is [-1]. *)
Definition index_of (pin : Z) : option nat := index_from noob_led_pins 0 pin.

Definition line_of (i : nat) : Z := (nth i noob_led_pins (0, 0)).2.
Definition handle_of (i : nat) (n : neo) : Z := nth i (n_handles n) 0.

(** The line's descriptor, [-1] on failure. *)
Definition claim (i : nat) : st neo Z :=
  h ← gets (handle_of i);
  if negb (h =? 0) then mret (h - 1)
  else
  bad ← on_os fails;                 (* open(NOOB_LED_CHIP) *)
  if bad : bool then mret (-1)
  else
  fd ← on_os (gpio_claim (line_of i));
  if fd <? 0 then mret (-1)
  else set_handles (fun hs => <[i := fd + 1]> hs) ;; mret fd.

Definition hw_led_boot : st neo Z :=
  match index_of NOOB_LED_BOOT_PIN with
  | None => mret (-1)
  | Some i => fd ← claim i; mret (if fd <? 0 then -1 else 0)
  end.

(** The two [ioctl]s: the value of the line, [None] when the call fails. *)
Definition led_ioctl (set : bool) (fd bits : Z) : st os (option Z) :=
  if set then ok ← gpio_set fd bits; mret (if ok : bool then Some bits else None)
  else gpio_get fd.

Section call.
Context (strerror : Z -> bytes).

Definition gpio_error (args : NoobNativeArguments) (e : Z) : bytes :=
  snprintf 160 (str "pin=" ++ print_int (number args 0) ++ str " errno=" ++ print_int e
                ++ SP :: strerror e).

Definition hw_led_call (id : Z) (nm : bytes) (args : NoobNativeArguments) : st neo unit :=
  let set := bytes_eqb nm (str "LED_SET") in
  let bad := respond id (str "ERR BAD_ARGUMENTS")
                     (str "LED_SET physical_pin 0|1; LED_STATUS physical_pin") in
  match (if (count args =? 0)%nat then None else index_of (number args 0)) with
  | None => bad
  | Some i =>
      if negb (count args =? (if set then 2 else 1))%nat || negb (peek (ascii args) =? NUL)
         || (set && negb (number args 1 =? 0) && negb (number args 1 =? 1))
      then bad
      else
      h ← gets (handle_of i);
      if negb set && (h =? 0) then respond id (str "OK") (str "claimed=0 state=unknown")
      else
      fd ← claim i;
      value ← (if fd <? 0 then mret None else on_os (led_ioctl set fd (number args 1)));
      match value with
      | None => e ← gets (fun n => o_error (n_os n));
                respond id (str "ERR GPIO") (gpio_error args e)
      | Some bits =>
          respond id (str "OK") (snprintf 96
            (str "pin=" ++ print_int (number args 0) ++ str " claimed=1 value="
             ++ print_nat (Z.land bits 1)))
      end
  end.
End call.

(** ** Lemmas *)

Lemma quiet_claim i : quiet (claim i).
Proof. unfold claim. promise_auto. Qed.
#[export] Hint Resolve quiet_claim : noobia.

(** Every LED call sends exactly one reply. *)
Lemma hw_led_call_replies strerror id nm args :
  id_ok id -> (forall e, NL ∉ strerror e) -> replies id (hw_led_call strerror id nm args).
Proof.
  intros Hid He. unfold hw_led_call. unfold gpio_error. promise_auto; reply_text_auto.
Qed.

Lemma index_from_Some pins i pin k :
  index_from pins i pin = Some k ->
  exists j line, k = (i + j)%nat /\ pins !! j = Some (pin, line) /\ nth j pins (0, 0) = (pin, line).
Proof.
  revert i; induction pins as [|[p l] pins IH]; intros i; [done|]. cbn.
  destruct (Z.eqb_spec p pin) as [->|].
  - intros [= <-]. exists 0%nat, l. split_and!; [lia|done|done].
  - intros H. apply IH in H as (j & line & -> & H1 & H2). exists (S j), line. split_and!; [lia|done|done].
Qed.

Lemma index_of_Some pin i :
  index_of pin = Some i -> noob_led_pins !! i = Some (pin, line_of i) /\ (i < LED_COUNT)%nat.
Proof.
  intros H. apply index_from_Some in H as (j & line & -> & H1 & H2). cbn [Nat.add] in *.
  unfold line_of. rewrite H2. split; [done|]. by apply lookup_lt_Some in H1.
Qed.

(** The claimed handles: one slot per pin, each claimed descriptor is known to
    the kernel. *)
Definition leds_wf (n : neo) : Prop :=
  length (n_handles n) = LED_COUNT /\
  Forall (fun h => 0 <= h /\ (h <> 0 -> is_Some (o_gpio (n_os n) !! (h - 1)))) (n_handles n).

#[global] Instance leds_wf_dec n : Decision (leds_wf n).
Proof. unfold leds_wf. apply _. Defined.

Lemma nth_lookup_handles n i :
  leds_wf n -> (i < LED_COUNT)%nat -> n_handles n !! i = Some (handle_of i n).
Proof.
  intros [Hl _] Hi. unfold handle_of. destruct (lookup_lt_is_Some_2 (n_handles n) i) as [h Hh]; [lia|].
  by rewrite Hh, (nth_lookup_Some _ _ 0 _ Hh).
Qed.
End HwLed.
