(* ===== verification/NeoDaemon.v ===== *)
(** * neo/tools/noob-neod.c: the Neo daemon

    The infrared scanner and its ring of scancodes, the asynchronous file and
    audio jobs, the VM file reader, the legacy command dispatcher, the native
    call table and [handle], one request per connection.  [main]'s settings and
    the body of its accept loop are modelled as well; creating the listening
    socket is not. *)
From S2P Require Import Prelude CLib World Network Process NativeRegistry NeoState HwDisplay HwLed.

Open Scope Z_scope.

Module Neod.
Import Native.

(** ** Scancodes *)

(** [strtoul(s, &end, 0)]: the base is taken from the prefix. *)
Definition strtoul_any (s : bytes) : option (Z * bytes) :=
  let s := skip_space s in
  let '(neg, s) := match s with
                   | c :: s' => if c =? 45 then (true, s')
                                else if c =? 43 then (false, s') else (false, s)
                   | [] => (false, [])
                   end in
  let finish '(v, r) := Some (unsigned_value neg v, r) in
  match s with
  | 48 :: x :: h :: r =>
      if ((x =? 120) || (x =? 88)) && (digit_value h <? 16) then finish (scan_digits 16 0 (h :: r))
      else finish (scan_digits 8 0 s)
  | 48 :: _ => finish (scan_digits 8 0 s)
  | c :: _ => if digit_value c <? 10 then finish (scan_digits 10 0 s) else None
  | [] => None
  end.

(** The scancode a line of ir-keytable reports. *)
Definition scancode_of (line : bytes) : option Z :=
  match strstr line (str "scancode = ") with
  | None => None
  | Some field => match strtoul_any (drop 11 field) with
                  | None => None
                  | Some (value, _) => Some (value mod 2 ^ 32)
                  end
  end.

(** The ring: the oldest code is dropped when it is full. *)
Definition push_code (code : Z) (s : scanner) : scanner :=
  let '(head, cnt) := if (ir_count s =? IR_QUEUE_SIZE)%nat
                      then (((ir_head s + 1) mod IR_QUEUE_SIZE)%nat, (ir_count s - 1)%nat)
                      else (ir_head s, ir_count s) in
  Scanner (scan_pid s) (scan_output s) (scan_line s)
          (<[((head + cnt) mod IR_QUEUE_SIZE)%nat := code]> (ir_queue s)) head (cnt + 1).

Definition queue_scancode (line : bytes) (s : scanner) : scanner :=
  match scancode_of line with None => s | Some code => push_code code s end.

Definition set_line (line : bytes) (s : scanner) : scanner :=
  Scanner (scan_pid s) (scan_output s) line (ir_queue s) (ir_head s) (ir_count s).

Definition SCAN_LINE : nat := Z.to_nat 256.

Definition collect_char (c : byte) (s : scanner) : scanner :=
  if (c =? NL) || (c =? CR) then set_line [] (queue_scancode (scan_line s) s)
  else if (length (scan_line s) + 1 <? SCAN_LINE)%nat && (32 <=? c) && (c <? 127)
  then set_line (scan_line s ++ [c]) s
  else if (SCAN_LINE <=? length (scan_line s) + 1)%nat then set_line [] s
  else s.

Definition collect_scancodes (data : bytes) (s : scanner) : scanner :=
  fold_left (fun s c => collect_char c s) data s.

(** Taking the oldest code; 0 when there is none. *)
Definition pop_code (s : scanner) : Z * scanner :=
  if (ir_count s =? 0)%nat then (0, s)
  else (nth (ir_head s) (ir_queue s) 0,
        Scanner (scan_pid s) (scan_output s) (scan_line s) (ir_queue s)
                ((ir_head s + 1) mod IR_QUEUE_SIZE) (ir_count s - 1)).

(** ** The scanner process *)

Definition get_scan_pid : st neo Z := gets (fun n => scan_pid (n_scan n)).
Definition get_scan_output : st neo Z := gets (fun n => scan_output (n_scan n)).
Definition set_process (pid output : Z) (s : scanner) : scanner :=
  Scanner pid output (scan_line s) (ir_queue s) (ir_head s) (ir_count s).

Fixpoint stop_waits (k : nat) : st neo unit :=
  match k with
  | O => mret tt
  | S k' => r ← on_os waitpid_nohang;
            match r with
            | StillRunning => on_os (log_event (Slept 10000000)) ;; stop_waits k'
            | _ => mret tt
            end
  end.

Definition stop_scan : st neo unit :=
  pid ← get_scan_pid;
  when (0 <? pid)
    (on_os (log_event (Killed pid SIGTERM)) ;;
     stop_waits 20 ;;
     r ← on_os waitpid_nohang;
     match r with
     | StillRunning => on_os (log_event (Killed pid SIGKILL)) ;; on_os (log_event (Waited pid))
     | _ => mret tt
     end) ;;
  fd ← get_scan_output;
  when (0 <=? fd) (on_os (log_event (Closed fd))) ;;
  set_scan (fun s => Scanner (-1) (-1) [] (ir_queue s) 0 0).

(** At most eight reads of 512 bytes. *)
Fixpoint drain_reads (k : nat) : st neo unit :=
  match k with
  | O => mret tt
  | S k' => r ← on_os (read_pipe (Z.to_nat 512));
            match r with
            | Got (c :: d) => set_scan (collect_scancodes (c :: d)) ;; drain_reads k'
            | _ => mret tt
            end
  end.

Definition drain_scan : st neo unit :=
  fd ← get_scan_output;
  when (0 <=? fd) (drain_reads 8) ;;
  pid ← get_scan_pid;
  when (0 <? pid)
    (r ← on_os waitpid_nohang;
     match r with
     | Reaped _ =>
         when (0 <=? fd) (on_os (log_event (Closed fd))) ;;
         set_scan (set_process (-1) (-1))
     | _ => mret tt
     end).

(** [path_exists("/sys/class/rc/rc0") && access(ir_tool, X_OK) == 0]. *)
Definition path_exists : st neo bool := bad ← on_os fails; mret (negb bad).
Definition ir_ready : st neo bool :=
  found ← path_exists;
  if found : bool then bad ← on_os fails; mret (negb bad) else mret false.

(** ** Names *)

(** The value of a hexadecimal digit, [-1] for another character. *)
Definition hex_value (c : byte) : Z :=
  if isdigit c then c - 48
  else if (97 <=? c) && (c <=? 102) then c - 97 + 10
  else if (65 <=? c) && (c <=? 70) then c - 65 + 10 else -1.

Fixpoint unhex_loop (hex : bytes) : option bytes :=
  match hex with
  | [] => Some []
  | a :: b :: hex =>
      if hex_value a <? 0 then None
      else if hex_value b <? 0 then None
      else let value := hex_value a * 16 + hex_value b in
           if (value <? 32) || (126 <? value) then None
           else match unhex_loop hex with Some out => Some (value :: out) | None => None end
  | _ => None
  end.

Definition unhex (hex : bytes) (capacity : nat) : option bytes :=
  let len := length hex in
  if (len =? 0)%nat || negb (len mod 2 =? 0)%nat || (capacity <=? len / 2)%nat then None
  else unhex_loop hex.

Definition basename_char (c : byte) : bool := isalnum c || (c =? 95) || (c =? 45) || (c =? 46).

Definition basename_ok (name : bytes) : bool :=
  negb ((peek name =? NUL) || (peek name =? 46) || contains name (str ".."))
  && forallb basename_char name.

(** ** File jobs *)

Definition NAME_BYTES : nat := 192.

Definition reap_file : st neo unit :=
  pid ← gets (fun n => file_pid (n_job n));
  when (0 <? pid)
    (r ← on_os waitpid_nohang;
     match r with
     | Reaped status => set_job (fun _ => Job (-1) (exit_code status))
     | _ => mret tt
     end).

(** [%u] of [sscanf]: [strtoul] cut to 32 bits. *)
Definition scan_u32 (s : bytes) : option (Z * bytes) :=
  match strtoul s with Some (v, r) => Some (v mod 2 ^ 32, r) | None => None end.

(** [sscanf(arguments, "%u %383s %c", ...) == 2]. *)
Definition scan_vm_read (arguments : bytes) : option (Z * bytes) :=
  match scan_u32 arguments with
  | None => None
  | Some (offset, r) =>
      match scan_word (Z.to_nat 383) r with
      | None => None
      | Some (hex, r) => match skip_space r with [] => Some (offset, hex) | _ => None end
      end
  end.

(** The file's content when it can be opened and is a regular file. *)
Definition open_vm (name : bytes) : st neo (option bytes) :=
  dir ← gets (fun n => vm_directory (n_settings n));
  bad ← on_os fails;                                   (* open(vm_directory) *)
  if bad : bool then mret None
  else
  found ← on_os (on_world (file_read (dir ++ str "/" ++ name)));
  match found with
  | None => mret None                                  (* openat *)
  | Some content => bad ← on_os fails;                 (* fstat, S_ISREG *)
                    mret (if bad : bool then None else Some content)
  end.

(** The reply to a read of [got] bytes at [offset]. *)
Definition vm_payload (offset : Z) (content got : bytes) : bytes :=
  str "value=" ++ print_nat (Z.of_nat (length got)) ++ str " size="
  ++ print_nat (Z.of_nat (length content)) ++ str " eof="
  ++ HwDisplay.bit ((offset + Z.of_nat (length got)) mod 2 ^ 32 =? Z.of_nat (length content))
  ++ str " data=" ++ hex_encode got.

(** [pread(fd, bytes, 128, offset)] of a regular file, as [unsigned char]s. *)
Definition pread (content : bytes) (offset : Z) : bytes :=
  map (fun c => c mod 256) (take 128 (drop (Z.to_nat offset) content)).

Definition vm_read (id : Z) (arguments : bytes) : st neo unit :=
  let bad := respond id (str "ERR BAD_REQUEST") (str "expected offset and hex VM basename") in
  match scan_vm_read arguments with
  | None => bad
  | Some (offset, hex) =>
      match unhex hex NAME_BYTES with
      | None => bad
      | Some name =>
          if negb (basename_ok name) then bad
          else if (length name <? 5)%nat
                  || negb (bytes_eqb (drop (length name - 4) name) (str ".nvm"))
          then respond id (str "ERR BAD_PATH") (str "VM file must end in .nvm")
          else
          content ← open_vm name;
          let unavailable := respond id (str "ERR VM_FILE") (str "VM unavailable or invalid size") in
          match content with
          | None => unavailable
          | Some content =>
              let size := Z.of_nat (length content) in
              if (size <? 1) || (1024 <? size) || (size <? offset) then unavailable
              else
              bad ← on_os fails;
              if bad : bool then respond id (str "ERR IO") (str "VM read failed")
              else respond id (str "OK") (snprintf 384 (vm_payload offset content (pread content offset)))
          end
      end
  end.

(** Starting the file tool; the request has been checked. *)
Definition start_job (id : Z) (fetch : bool) (name : bytes) : st neo unit :=
  cfg ← gets n_settings;
  opened ← on_os (open_log (snprintf (Z.to_nat 4096) (job_directory cfg ++ str "/.job.log")));
  if negb opened then respond id (str "ERR IO") (str "job log unavailable")
  else
  pid ← on_os (spawn [file_tool cfg; if fetch then str "fetch" else str "play"; name]);
  set_job (fun j => Job pid (file_exit j)) ;;
  if pid <? 0 then respond id (str "ERR IO") (str "job start failed")
  else set_job (fun j => Job (file_pid j) (-1)) ;;
       respond id (str "OK") (str "value=1 started=1 async=1").

(** The checks on a path to fetch and a name to play. *)
Definition job_name_ok (fetch : bool) (name : bytes) : bool :=
  if fetch then (peek name =? 47) && negb (contains name (str "..")) && negb (bool_decide (BACKSLASH ∈ name))
  else basename_ok name.

Definition file_command (id : Z) (command arguments : bytes) : st neo unit :=
  reap_file ;;
  if bytes_eqb command (str "FILE_STATUS") && (peek arguments =? NUL) then
    j ← gets n_job;
    respond id (str "OK") (snprintf 96
      (str "value=" ++ HwDisplay.bit (0 <? file_pid j) ++ str " running="
       ++ HwDisplay.bit (0 <? file_pid j) ++ str " exit=" ++ print_int (file_exit j)))
  else if bytes_eqb command (str "VM_READ") then vm_read id arguments
  else
  let fetch := bytes_eqb command (str "FILE_DOWNLOAD") in
  let play := bytes_eqb command (str "AUDIO_PLAY") in
  let bad := respond id (str "ERR BAD_REQUEST") (str "invalid file operation or path") in
  if negb fetch && negb play then bad
  else
  match unhex arguments NAME_BYTES with
  | None => bad
  | Some name =>
      if negb (job_name_ok fetch name) then bad
      else
      pid ← gets (fun n => file_pid (n_job n));
      if 0 <? pid then respond id (str "ERR BUSY") (str "file or audio job running")
      else start_job id fetch name
  end.

(** ** Legacy commands *)

Definition ir_unavailable (id : Z) : st neo unit :=
  respond id (str "ERR IR_UNAVAILABLE") (str "no rc0 device or ir-keytable; enable the HAT IR driver first").

(** [%08x] of a 32-bit value. *)
Definition hex_u32 (v : Z) : bytes :=
  hex_encode [Z.shiftr v 24 mod 256; Z.shiftr v 16 mod 256; Z.shiftr v 8 mod 256; v mod 256].

Definition ir_status (id : Z) : st neo unit :=
  ready ← ir_ready;
  if negb ready then ir_unavailable id
  else pid ← get_scan_pid;
       respond id (str "OK") (snprintf 64
         (str "value=" ++ HwDisplay.bit (0 <? pid) ++ str " ready=1 scanning=" ++ HwDisplay.bit (0 <? pid))).

(** The child's command: line-buffered ir-keytable on rc0. *)
Definition scanner_argv (tool : bytes) : list bytes :=
  [str "/usr/bin/stdbuf"; str "-oL"; str "-eL"; tool; str "-s"; str "rc0"; str "-t"].

Definition ir_scan_start (id : Z) : st neo unit :=
  ready ← ir_ready;
  if negb ready then ir_unavailable id
  else
  pid ← get_scan_pid;
  if 0 <? pid then respond id (str "OK") (str "value=1 already_running=1")
  else
  output ← on_os pipe2;
  match output with
  | None => respond id (str "ERR IO") (str "cannot create scanner pipe")
  | Some (reader, writer) =>
      tool ← gets (fun n => ir_tool (n_settings n));
      pid ← on_os (spawn (scanner_argv tool));
      on_os (log_event (Closed writer)) ;;
      if pid <? 0 then
        on_os (log_event (Closed reader)) ;;
        set_scan (fun s => set_process (-1) (scan_output s) s) ;;
        respond id (str "ERR IO") (str "cannot start ir-keytable")
      else
        set_scan (set_process pid reader) ;;
        respond id (str "OK") (str "value=1 started=1")
  end.

Definition ir_scan_read (id : Z) : st neo unit :=
  pid ← get_scan_pid;
  fd ← get_scan_output;
  if (pid <=? 0) || (fd <? 0) then respond id (str "ERR NOT_RUNNING") (str "start IR_SCAN first")
  else
  r ← on_os (read_pipe (Z.to_nat 479));
  match r with
  | ReadFailed => respond id (str "ERR IO") (str "scanner read failed")
  | _ =>
      let raw := match r with Got d => d | _ => [] end in
      set_scan (collect_scancodes raw) ;;
      code ← gets (fun n => (pop_code (n_scan n)).1);
      set_scan (fun s => (pop_code s).2) ;;
      left ← gets (fun n => ir_count (n_scan n));
      respond id (str "OK") (snprintf 96
        (str "value=" ++ print_int (to_signed 32 code) ++ str " scancode=0x" ++ hex_u32 code
         ++ str " queued=" ++ print_nat (Z.of_nat left)))
  end.

Definition hw_command (id : Z) (command arguments : bytes) : st neo unit :=
  let cmd name := bytes_eqb command (str name) in
  if cmd "FILE_DOWNLOAD"%string || cmd "FILE_STATUS"%string || cmd "AUDIO_PLAY"%string || cmd "VM_READ"%string
  then file_command id command arguments
  else if negb (peek arguments =? NUL) then
    respond id (str "ERR BAD_REQUEST") (str "unexpected arguments")
  else if cmd "PING"%string then respond id (str "OK") (str "PONG")
  else if cmd "CAPS"%string then
    respond id (str "OK") (str "name=Neo functions=IR_STATUS,IR_SCAN_START,IR_SCAN_STOP,IR_SCAN_READ,FILE_DOWNLOAD,FILE_STATUS,VM_READ,AUDIO_PLAY")
  else if cmd "IR_STATUS"%string then ir_status id
  else if cmd "IR_SCAN_START"%string then ir_scan_start id
  else if cmd "IR_SCAN_STOP"%string then
    stop_scan ;; respond id (str "OK") (str "value=1 stopped=1")
  else if cmd "IR_SCAN_READ"%string then ir_scan_read id
  else respond id (str "ERR UNKNOWN_COMMAND") command.

(** ** Native calls *)

Definition native_adapter (id : Z) (nm : bytes) (args : NoobNativeArguments) : st neo unit :=
  let encoded := hex_encode (ascii args) in
  if negb (count args =? 0)%nat then
    if number args 0 <? 0 then
      respond id (str "ERR BAD_ARGUMENTS") (str "offset must be nonnegative")
    else hw_command id nm (snprintf (Z.to_nat 432) (print_int (number args 0) ++ SP :: encoded))
  else hw_command id nm (snprintf (Z.to_nat 432) encoded).

Definition native_call : Type := Z -> bytes -> NoobNativeArguments -> st neo unit.

Definition natives (strerror : Z -> bytes) : list (NoobNativeEntry native_call) :=
  [ Entry _ (str "LED_SET") 2 false (HwLed.hw_led_call strerror);
    Entry _ (str "LED_STATUS") 1 false (HwLed.hw_led_call strerror);
    Entry _ (str "IR_STATUS") 0 false native_adapter;
    Entry _ (str "IR_SCAN_START") 0 false native_adapter;
    Entry _ (str "IR_SCAN_STOP") 0 false native_adapter;
    Entry _ (str "IR_SCAN_READ") 0 false native_adapter;
    Entry _ (str "FILE_DOWNLOAD") 0 true native_adapter;
    Entry _ (str "FILE_STATUS") 0 false native_adapter;
    Entry _ (str "VM_READ") 1 true native_adapter;
    Entry _ (str "AUDIO_PLAY") 0 true native_adapter;
    Entry _ (str "IMAGE_FORMAT") 0 true HwDisplay.hw_display_call;
    Entry _ (str "OLED_DRAW") 0 true HwDisplay.hw_display_call;
    Entry _ (str "OLED_TEXT") 0 true HwDisplay.hw_display_call;
    Entry _ (str "DISPLAY_START") 1 true HwDisplay.hw_display_call;
    Entry _ (str "DISPLAY_STOP") 0 false HwDisplay.hw_display_call;
    Entry _ (str "DISPLAY_STATUS") 0 false HwDisplay.hw_display_call ].

(** The names of the table, separated by commas. *)
Fixpoint join_names (es : list (NoobNativeEntry native_call)) : bytes :=
  match es with
  | [] => []
  | [e] => name e
  | e :: es => name e ++ str "," ++ join_names es
  end.

(** ** Requests *)

Inductive request := Closed_ | TooLong | Line (text : bytes).

(** One byte at a time, at most 511 of them. *)
Fixpoint read_request (k : nat) (acc : bytes) : st socket request :=
  match k with
  | O => mret TooLong
  | S k' => z ← recv 1;
            match z with
            | Some [c] => if c =? NL then mret (Line acc)
                          else if c =? NUL then mret Closed_
                          else read_request k' (acc ++ [c])
            | _ => mret Closed_
            end
  end.

(** [sscanf(request, "NRP/1 %u %47s %n", ...)]: the id read so far, and the
    command and arguments when both fields are present. *)
Definition scan_request (request : bytes) : Z * option (bytes * bytes) :=
  match scan_lit (str "NRP/1") request with
  | None => (0, None)
  | Some r => match scan_u32 (scan_ws r) with
              | None => (0, None)
              | Some (id, r) => (id, match scan_word 47 r with
                                     | None => None
                                     | Some (command, r) => Some (command, scan_ws r)
                                     end)
              end
  end.

(** CALL and CALL_MIXED. *)
Definition call_native (strerror : Z -> bytes) (id : Z) (mixed : bool) (arguments : bytes) : st neo unit :=
  match scan_word 47 arguments with
  | None => respond id (str "ERR BAD_REQUEST") (str "missing native name")
  | Some (nm, rest) =>
      match noob_native_find (natives strerror) nm with
      | None => respond id (str "ERR UNKNOWN_FUNCTION") nm
      | Some entry =>
          let bad := respond id (str "ERR BAD_ARGUMENTS") (str "wrong numeric/ASCII arguments") in
          match noob_native_parse (scan_ws rest) mixed with
          | None => bad
          | Some parsed =>
              if negb (count parsed =? want_numbers entry)%nat
                 || negb (Bool.eqb (negb (peek (ascii parsed) =? NUL)) (text entry))
              then bad
              else call entry id (name entry) parsed
          end
      end
  end.

Definition dispatch (strerror : Z -> bytes) (request : bytes) : st neo unit :=
  match scan_request request with
  | (id, None) => respond id (str "ERR BAD_REQUEST") (str "expected NRP/1 id command")
  | (id, Some (command, arguments)) =>
      if bytes_eqb command (str "PING") && (peek arguments =? NUL) then
        respond id (str "OK") (str "PONG")
      else if bytes_eqb command (str "CAPS") && (peek arguments =? NUL) then
        respond id (str "OK") (str "name=Neo native_calls=CALL,CALL_MIXED functions="
                               ++ join_names (natives strerror))
      else if bytes_eqb command (str "CALL") || bytes_eqb command (str "CALL_MIXED") then
        call_native strerror id (bytes_eqb command (str "CALL_MIXED")) arguments
      else match noob_native_find (natives strerror) command with
           | Some _ => hw_command id command arguments
           | None => respond id (str "ERR UNKNOWN_COMMAND") command
           end
  end.

Definition handle (strerror : Z -> bytes) : st neo unit :=
  r ← on_client (read_request (Z.to_nat 511) []);
  match r with
  | Closed_ => mret tt
  | TooLong => respond 0 (str "ERR BAD_REQUEST") (str "request too long")
  | Line request => drain_scan ;; dispatch strerror request
  end.

(** ** [main] *)

(** The port: 4243 unless NOOB_NEOD_PORT is set; [None] is exit status 2. *)
Definition main_port (port_text : option bytes) : option Z :=
  match port_text with
  | Some (c :: t) =>
      match strtol (c :: t) with
      | Some (port, []) => if (port <? 1) || (65535 <? port) then None
                           else Some (value_or_0 (strtoul (c :: t)) mod 2 ^ 32)
      | _ => None
      end
  | _ => Some 4243
  end.

(** An environment variable that is set and not empty, or a default. *)
Definition env_or (v : option bytes) (d : bytes) : bytes :=
  match v with Some (c :: t) => c :: t | _ => d end.

Definition main_settings (tool vm_path esp_path display_tool : option bytes) : settings :=
  Settings (env_or tool (str "/usr/bin/ir-keytable")) (str "/usr/local/bin/noob-files")
           (env_or vm_path (str "/vm")) (env_or esp_path (str "/esp")) esp_path display_tool.

(** The static initialisers. *)
Definition neod_init (cfg : settings) (o : os) : neo :=
  Neo (Scanner (-1) (-1) [] (repeat 0 IR_QUEUE_SIZE) 0 0) (Job (-1) (-1))
      (Display (-1) false (-1) [] 0) (repeat 0 HwLed.LED_COUNT) cfg o (Socket [] [] []).

(** One turn of the accept loop: [None] when [poll] times out. *)
Definition serve_turn (strerror : Z -> bytes) (client : option socket) : st neo unit :=
  drain_scan ;;
  reap_file ;;
  match client with
  | None => mret tt
  | Some c => modify (fun n => Neo (n_scan n) (n_job n) (n_display n) (n_handles n) (n_settings n) (n_os n) c) ;;
              handle strerror
  end.
End Neod.
