(* ===== verification/NeoReplies.v ===== *)
(** * Every request to the Neo daemon gets exactly one reply

    The parts of noob-neod.c, hw_display.c and hw_led.c each promise [quiet] or
    [replies]; the request handler's theorem is assembled from the promises. *)
From S2P Require Import Prelude CLib World Network Process NativeRegistry NeoState HwDisplay HwLed NeoDaemon.

Open Scope Z_scope.

Module NeodReplies.
Import Native Neod.

(** ** The quiet parts *)

Lemma quiet_stop_waits k : quiet (stop_waits k).
Proof. induction k as [|k IH]; [apply quiet_ret|]. cbn [stop_waits]. repeat (apply IH || promise_step). Qed.

Lemma quiet_drain_reads k : quiet (drain_reads k).
Proof. induction k as [|k IH]; [apply quiet_ret|]. cbn [drain_reads]. repeat (apply IH || promise_step). Qed.
#[local] Hint Resolve quiet_stop_waits quiet_drain_reads : noobia.

Lemma quiet_stop_scan : quiet stop_scan.
Proof. unfold stop_scan, get_scan_pid, get_scan_output. promise_auto. Qed.

Lemma quiet_drain_scan : quiet drain_scan.
Proof. unfold drain_scan, get_scan_pid, get_scan_output. promise_auto. Qed.

Lemma quiet_ir_ready : quiet ir_ready.
Proof. unfold ir_ready, path_exists. promise_auto. Qed.

Lemma quiet_reap_file : quiet reap_file.
Proof. unfold reap_file. promise_auto. Qed.

Lemma quiet_open_vm nm : quiet (open_vm nm).
Proof. unfold open_vm. promise_auto. Qed.
#[local] Hint Resolve quiet_stop_scan quiet_drain_scan quiet_ir_ready quiet_reap_file quiet_open_vm : noobia.

(** ** Words and hexadecimal texts have no newline *)

Lemma take_word_facts k s :
  (length (take_word k s).1 <= k)%nat /\ Forall (fun c => isspace c = false) (take_word k s).1.
Proof.
  revert s; induction k as [|k IH]; intros s; [cbn; split; [lia|constructor]|].
  destruct s as [|c s]; [cbn; split; [lia|constructor]|]. cbn. destruct (isspace c) eqn:E.
  - split; [cbn; lia|constructor].
  - specialize (IH s). destruct (take_word k s) as [a b]. cbn in *. split; [lia|]. constructor; [done|apply IH].
Qed.

(** A word short enough to be echoed. *)
Definition word_ok (w : bytes) : Prop := (NL ∉ w) /\ (length w <= 47)%nat.

#[global] Instance word_ok_dec w : Decision (word_ok w).
Proof. unfold word_ok. apply _. Defined.

Lemma scan_word_ok s w r : scan_word 47 s = Some (w, r) -> word_ok w.
Proof.
  unfold scan_word. pose proof (take_word_facts 47 (skip_space s)) as [H1 H2].
  destruct (take_word 47 (skip_space s)) as [a b]. destruct a; [done|]. intros [= <- <-]. split; [|done].
  intros Hin. rewrite Forall_forall in H2. by apply H2 in Hin.
Qed.

Lemma hex_encode_no_NL d : bytes_ok d -> NL ∉ hex_encode d.
Proof.
  intros Hd. unfold hex_encode. rewrite list_elem_of_bind. intros (x & Hx & Hin).
  rewrite Forall_forall in Hd. apply Hd in Hin. unfold byte_ok, hex_byte in *.
  assert (Hdig : forall v, 0 <= v -> NL <> hex_digit v).
  { intros v Hv. unfold hex_digit, NL. split_if; to_prop; lia. }
  apply elem_of_cons in Hx as [Hx|Hx]; [|apply list_elem_of_singleton in Hx]; revert Hx; apply Hdig.
  - apply Z.shiftr_nonneg. lia.
  - apply Z.land_nonneg. lia.
Qed.

Lemma hex_u32_no_NL v : NL ∉ hex_u32 v.
Proof.
  apply hex_encode_no_NL. repeat constructor; apply Z.mod_pos_bound; lia.
Qed.

#[local] Opaque hex_u32 hex_encode.

Lemma echo_text status w :
  NL ∉ status -> (length status <= 100)%nat -> word_ok w -> reply_text status w.
Proof. intros H1 H2 [H3 H4]. split; [by apply not_elem_of_app|lia]. Qed.

(** ** The replying parts *)

Section replies.
Context (id : Z) (Hid : id_ok id).

Lemma start_job_replies fetch nm : replies id (start_job id fetch nm).
Proof. unfold start_job. promise_auto; reply_text_auto. Qed.

Lemma vm_read_replies arguments : replies id (vm_read id arguments).
Proof.
  unfold vm_read. promise_auto; reply_text_auto.
  unfold vm_payload, HwDisplay.bit. no_NL. apply hex_encode_no_NL. unfold pread.
  apply Forall_fmap, Forall_true. intros c. apply Z.mod_pos_bound. lia.
Qed.

Lemma file_command_replies command arguments : replies id (file_command id command arguments).
Proof.
  pose proof start_job_replies. pose proof vm_read_replies. unfold file_command.
  promise_auto; reply_text_auto; unfold HwDisplay.bit; no_NL.
Qed.

Lemma ir_status_replies : replies id (ir_status id).
Proof.
  unfold ir_status, ir_unavailable, get_scan_pid. promise_auto; reply_text_auto; unfold HwDisplay.bit; no_NL.
Qed.

Lemma ir_scan_start_replies : replies id (ir_scan_start id).
Proof. unfold ir_scan_start, ir_unavailable, get_scan_pid. promise_auto; reply_text_auto. Qed.

Lemma ir_scan_read_replies : replies id (ir_scan_read id).
Proof.
  unfold ir_scan_read, get_scan_pid, get_scan_output. promise_auto; reply_text_auto; apply hex_u32_no_NL.
Qed.

Lemma hw_command_replies command arguments : word_ok command -> replies id (hw_command id command arguments).
Proof.
  intros Hc. pose proof file_command_replies. pose proof ir_status_replies.
  pose proof ir_scan_start_replies. pose proof ir_scan_read_replies. unfold hw_command.
  promise_auto; reply_text_auto. apply echo_text; [literal_text|literal_text|done].
Qed.

Lemma native_adapter_replies nm args : word_ok nm -> replies id (native_adapter id nm args).
Proof.
  intros Hn. pose proof hw_command_replies. unfold native_adapter. promise_auto; reply_text_auto.
Qed.

(** Every entry of the table replies once. *)
Lemma natives_reply strerror e args :
  (forall e, NL ∉ strerror e) -> e ∈ natives strerror -> replies id (call e id (name e) args).
Proof.
  intros He Hin. unfold natives in Hin.
  repeat (apply elem_of_cons in Hin as [->|Hin]; [cbn [call name];
    solve [ by apply HwLed.hw_led_call_replies | by apply HwDisplay.hw_display_call_replies
          | apply native_adapter_replies; literal_text ] | ]).
  by apply elem_of_nil in Hin.
Qed.

Lemma call_native_replies strerror mixed arguments :
  (forall e, NL ∉ strerror e) -> replies id (call_native strerror id mixed arguments).
Proof.
  intros He. unfold call_native. promise_auto; reply_text_auto.
  - apply find_name in Heqo0 as [Hin _]. by eapply natives_reply.
  - apply echo_text; [literal_text|literal_text|by eapply scan_word_ok].
Qed.
End replies.

(** The capability list fits its buffer of 480 bytes and is one line. *)
Lemma caps_text strerror :
  (length (str "name=Neo native_calls=CALL,CALL_MIXED functions=" ++ join_names (natives strerror)) < 480)%nat
  /\ reply_text (str "OK") (str "name=Neo native_calls=CALL,CALL_MIXED functions=" ++ join_names (natives strerror)).
Proof. unfold natives. cbn [join_names name]. split; literal_text. Qed.

Lemma scan_request_id request : id_ok (scan_request request).1.
Proof.
  unfold scan_request, scan_u32, id_ok. repeat case_match; cbn [fst]; simplify_eq; try lia;
    apply Z.mod_pos_bound; lia.
Qed.

Lemma dispatch_replies strerror request :
  (forall e, NL ∉ strerror e) ->
  replies (scan_request request).1 (dispatch strerror request).
Proof.
  intros He. pose proof (scan_request_id request) as Hid. unfold dispatch.
  destruct (scan_request request) as [id [[command arguments]|]] eqn:E; cbn [fst] in *;
    [|promise_auto; reply_text_auto].
  assert (Hc : word_ok command).
  { unfold scan_request in E. repeat case_match; simplify_eq. by eapply scan_word_ok. }
  pose proof (call_native_replies id Hid strerror). pose proof (hw_command_replies id Hid).
  promise_auto; reply_text_auto.
  - apply caps_text.
  - apply echo_text; [literal_text|literal_text|done].
Qed.

(** Reading a request that fits the buffer. *)
Lemma read_request_line k acc line rest out zs :
  Forall (fun z => 0 < z) zs -> Forall (fun c => c <> NL /\ c <> NUL) line -> (length line < k)%nat ->
  exists zs', read_request k acc (Socket (line ++ NL :: rest) out zs)
              = (Line (acc ++ line), Socket rest out zs') /\ Forall (fun z => 0 < z) zs'.
Proof.
  revert acc line zs; induction k as [|k IH]; intros acc line zs Hz Hl Hk; [lia|].
  cbn [read_request]. rewrite st_bind_run. destruct line as [|c line]; cbn [app].
  - destruct (recv_1_willing NL rest out zs Hz) as (zs' & -> & Hz'). exists zs'.
    cbn [fst snd]. rewrite Z.eqb_refl, app_nil_r. done.
  - destruct (recv_1_willing c (line ++ NL :: rest) out zs Hz) as (zs' & -> & Hz'). cbn [fst snd].
    apply Forall_cons in Hl as [[H1 H2] Hl].
    destruct (Z.eqb_spec c NL); [done|]. destruct (Z.eqb_spec c NUL); [done|].
    destruct (IH (acc ++ [c]) line zs' Hz' Hl ltac:(cbn in Hk; lia)) as (zs'' & -> & Hz'').
    exists zs''. by rewrite <- app_assoc.
Qed.

(** ** Property *)

(** whatever the state of the daemon and of the kernel's decisions (jobs
    running or not, failing system calls, scanner output of any kind), a
    request line of at most 510 bytes gets exactly one reply, a single line
    carrying the request's id and fitting the reply buffer; nothing else is
    sent. *)
Theorem handle_replies_once (strerror : Z -> bytes) (n : neo) (request rest : bytes) (zs : list Z) :
  (forall e, NL ∉ strerror e) ->
  n_client n = Socket (request ++ NL :: rest) [] zs -> willing (n_client n) ->
  Forall (fun c => c <> NL /\ c <> NUL) request -> (length request < Z.to_nat 511)%nat ->
  exists status payload,
    s_out (n_client (handle strerror n).2) = reply_line (scan_request request).1 status payload
    /\ reply_text status payload
    /\ (length (reply_line (scan_request request).1 status payload) < REPLY_BYTES)%nat.
Proof.
  intros He Hc Hw Hr Hl. unfold handle. rewrite st_bind_run. unfold on_client at 1 2.
  unfold willing in Hw. rewrite Hc in *. cbn [s_chunks] in Hw.
  destruct (read_request_line (Z.to_nat 511) [] request rest [] zs Hw Hr Hl) as (zs' & E & Hz').
  rewrite E. cbn [fst snd app].
  destruct (replies_bind _ _ (fun _ => dispatch strerror request) quiet_drain_scan
             (fun _ => dispatch_replies strerror request He)
             (Neo (n_scan n) (n_job n) (n_display n) (n_handles n) (n_settings n) (n_os n)
                  (Socket rest [] zs')) Hz') as (s & p & Ht & Ho).
  exists s, p. split_and!; [exact Ho|done|]. apply reply_line_fits; [apply scan_request_id|done].
Qed.

Lemma handle_replies_once_witness :
  let n := neod_init (main_settings None None None None)
             (Os (World ∅ 0 [] [] [] [] ∅ [] []) [] [] [] [] ∅ 0 []) in
  let request := str "NRP/1 7 CALL LED_STATUS 23" in
  exists status payload,
    s_out (n_client (handle (fun _ => str "error")
      (Neo (n_scan n) (n_job n) (n_display n) (n_handles n) (n_settings n) (n_os n)
           (Socket (request ++ [NL]) [] []))).2) = reply_line (scan_request request).1 status payload
    /\ reply_text status payload
    /\ (length (reply_line (scan_request request).1 status payload) < REPLY_BYTES)%nat.
Proof.
  intros n request.
  apply (handle_replies_once _ _ request [] []); [intros _; literal_text|done|constructor| |];
    literal_text.
Defined.
End NeodReplies.
