(* ===== verification/NeoScanner.v ===== *)
(** * The Neo daemon's infrared queue is a bounded FIFO

    The ring [ir_queue]/[ir_head]/[ir_count] of noob-neod.c refines a list that
    keeps the last sixteen scancodes; the line buffer never overruns. *)
From S2P Require Import Prelude CLib World Network Process NativeRegistry NeoState HwDisplay HwLed NeoDaemon.

Open Scope Z_scope.

Module NeodScanner.
Import Neod.

(** The codes in the ring, oldest first. *)
Definition queued (s : scanner) : list Z :=
  map (fun k => nth ((ir_head s + k) mod IR_QUEUE_SIZE) (ir_queue s) 0) (seq 0 (ir_count s)).

Definition scan_wf (s : scanner) : Prop :=
  length (ir_queue s) = IR_QUEUE_SIZE /\ (ir_head s < IR_QUEUE_SIZE)%nat
  /\ (ir_count s <= IR_QUEUE_SIZE)%nat /\ (length (scan_line s) < SCAN_LINE)%nat.

#[global] Instance scan_wf_dec s : Decision (scan_wf s).
Proof. unfold scan_wf. apply _. Defined.

Lemma length_queued s : length (queued s) = ir_count s.
Proof. unfold queued. by rewrite length_map, length_seq. Qed.

Lemma ring_distinct h i j :
  (i < IR_QUEUE_SIZE)%nat -> (j < IR_QUEUE_SIZE)%nat ->
  ((h + i) mod IR_QUEUE_SIZE = (h + j) mod IR_QUEUE_SIZE)%nat -> i = j.
Proof.
  unfold IR_QUEUE_SIZE. intros Hi Hj H.
  pose proof (Nat.div_mod_eq (h + i) 16). pose proof (Nat.div_mod_eq (h + j) 16). lia.
Qed.

(** Writing behind the last element appends it. *)
Lemma queued_append pid out line q h c code :
  length q = IR_QUEUE_SIZE -> (c < IR_QUEUE_SIZE)%nat ->
  queued (Scanner pid out line (<[((h + c) mod IR_QUEUE_SIZE)%nat := code]> q) h (c + 1))
  = queued (Scanner pid out line q h c) ++ [code].
Proof.
  intros Hq Hc. unfold queued. cbn [ir_head ir_count ir_queue].
  rewrite seq_app, map_app. f_equal.
  - apply map_ext_in. intros k Hk. apply in_seq in Hk.
    rewrite !nth_lookup, list_lookup_insert_ne; [done|].
    intros E. apply ring_distinct in E; lia.
  - cbn [seq map Nat.add]. rewrite nth_lookup, list_lookup_insert_eq; [done|].
    rewrite Hq. apply Nat.mod_upper_bound. done.
Qed.

(** Advancing the head drops the oldest element. *)
Lemma queued_drop pid out line q h c :
  queued (Scanner pid out line q ((h + 1) mod IR_QUEUE_SIZE) c)
  = tail (queued (Scanner pid out line q h (S c))).
Proof.
  unfold queued. cbn [ir_head ir_count ir_queue seq map tail].
  rewrite <- seq_shift, map_map. apply map_ext. intros k. f_equal.
  rewrite Nat.Div0.add_mod_idemp_l. f_equal. lia.
Qed.

Lemma queued_head pid out line q h c :
  (h < IR_QUEUE_SIZE)%nat ->
  queued (Scanner pid out line q h (S c))
  = nth h q 0 :: queued (Scanner pid out line q ((h + 1) mod IR_QUEUE_SIZE) c).
Proof.
  intros Hh. rewrite queued_drop. unfold queued. cbn [ir_head ir_count ir_queue seq map tail].
  by rewrite Nat.add_0_r, Nat.mod_small.
Qed.

Lemma push_code_queued code s :
  scan_wf s -> scan_wf (push_code code s)
               /\ queued (push_code code s) = lastn IR_QUEUE_SIZE (queued s ++ [code]).
Proof.
  intros (Hq & Hh & Hc & Hl). destruct s as [pid out line q h c]. cbn [ir_queue ir_head ir_count scan_line] in *.
  unfold push_code. cbn [ir_queue ir_head ir_count scan_line scan_pid scan_output].
  unfold lastn. rewrite length_app, length_queued. cbn [length ir_count].
  destruct (Nat.eqb_spec c IR_QUEUE_SIZE) as [->|Hne].
  - split.
    + unfold scan_wf. cbn [ir_queue ir_head ir_count scan_line]. rewrite length_insert.
      split_and!; [done|by apply Nat.mod_upper_bound|unfold IR_QUEUE_SIZE in *; lia|done].
    + rewrite queued_append by (done || unfold IR_QUEUE_SIZE in *; lia).
      rewrite queued_drop. change (S (IR_QUEUE_SIZE - 1)) with IR_QUEUE_SIZE.
      replace (IR_QUEUE_SIZE + 1 - IR_QUEUE_SIZE)%nat with 1%nat by done.
      pose proof (length_queued (Scanner pid out line q h IR_QUEUE_SIZE)) as HL.
      destruct (queued (Scanner pid out line q h IR_QUEUE_SIZE)); [done|]. done.
  - split.
    + unfold scan_wf. cbn [ir_queue ir_head ir_count scan_line]. rewrite length_insert.
      split_and!; [done|done|lia|done].
    + rewrite queued_append by lia. by replace (c + 1 - IR_QUEUE_SIZE)%nat with 0%nat by lia.
Qed.

Lemma pop_code_queued s :
  scan_wf s ->
  scan_wf (pop_code s).2 /\
  match queued s with
  | [] => pop_code s = (0, s)
  | c :: q => (pop_code s).1 = c /\ queued (pop_code s).2 = q
  end.
Proof.
  intros (Hq & Hh & Hc & Hl). destruct s as [pid out line q h c]. unfold pop_code.
  cbn [ir_queue ir_head ir_count scan_line scan_pid scan_output] in *.
  destruct c as [|c]; cbn [Nat.eqb].
  - split; [done|]. done.
  - rewrite queued_head by done. cbn [fst snd Nat.sub]. rewrite Nat.sub_0_r.
    split; [|done]. unfold scan_wf. cbn [ir_queue ir_head ir_count scan_line].
    split_and!; [done|by apply Nat.mod_upper_bound|lia|done].
Qed.

Lemma set_line_queued line s : queued (set_line line s) = queued s.
Proof. done. Qed.

Lemma set_line_wf line s : scan_wf s -> (length line < SCAN_LINE)%nat -> scan_wf (set_line line s).
Proof. intros (? & ? & ? & _) ?. done. Qed.

Lemma queue_scancode_queued line s :
  scan_wf s ->
  scan_wf (queue_scancode line s) /\
  queued (queue_scancode line s)
  = lastn IR_QUEUE_SIZE (queued s ++ match scancode_of line with Some c => [c] | None => [] end).
Proof.
  intros Hs. unfold queue_scancode. destruct (scancode_of line); [by apply push_code_queued|].
  split; [done|]. rewrite app_nil_r. unfold lastn. rewrite length_queued.
  destruct Hs as (_ & _ & Hc & _). by replace (ir_count s - IR_QUEUE_SIZE)%nat with 0%nat by lia.
Qed.

(** Any output of the scanner keeps the buffers in bounds. *)
Lemma collect_char_wf c s : scan_wf s -> scan_wf (collect_char c s).
Proof.
  intros Hs. unfold collect_char. repeat split_if; to_prop; [| | |done].
  - apply set_line_wf; [by apply queue_scancode_queued|unfold SCAN_LINE; cbn; lia].
  - apply set_line_wf; [done|]. rewrite length_app. cbn. lia.
  - apply set_line_wf; [done|unfold SCAN_LINE; cbn; lia].
Qed.

Lemma collect_scancodes_wf data s : scan_wf s -> scan_wf (collect_scancodes data s).
Proof.
  revert s; induction data as [|c data IH]; intros s Hs; [done|]. cbn. by apply IH, collect_char_wf.
Qed.

(** A line of ir-keytable. *)
Definition scan_text (line : bytes) : Prop :=
  Forall (fun c => 32 <= c < 127) line /\ (length line < SCAN_LINE)%nat.

#[global] Instance scan_text_dec line : Decision (scan_text line).
Proof. unfold scan_text. apply _. Defined.

Lemma collect_text line s :
  Forall (fun c => 32 <= c < 127) line -> (length (scan_line s) + length line < SCAN_LINE)%nat ->
  collect_scancodes line s = set_line (scan_line s ++ line) s.
Proof.
  intros Hl. revert s. induction Hl as [|c line Hc Hl IH]; intros s Hs.
  - rewrite app_nil_r. by destruct s.
  - cbn [collect_scancodes fold_left]. fold (collect_scancodes line (collect_char c s)).
    assert (E : collect_char c s = set_line (scan_line s ++ [c]) s).
    { unfold collect_char, NL, CR. cbn [length] in Hs.
      destruct (Z.eqb_spec c 10); [lia|]. destruct (Z.eqb_spec c 13); [lia|]. cbn [orb].
      destruct (Nat.ltb_spec (length (scan_line s) + 1) SCAN_LINE); [|lia].
      destruct (Z.leb_spec 32 c); [|lia]. destruct (Z.ltb_spec c 127); [|lia]. done. }
    rewrite E, IH; cbn [scan_line set_line]; rewrite ?length_app; cbn [length] in *; [|lia].
    unfold set_line. cbn. by rewrite <- app_assoc.
Qed.

Lemma collect_scancodes_app a b s :
  collect_scancodes (a ++ b) s = collect_scancodes b (collect_scancodes a s).
Proof. apply fold_left_app. Qed.

Lemma collect_line line s :
  scan_wf s -> scan_line s = [] -> scan_text line ->
  let s' := collect_scancodes (line ++ [NL]) s in
  scan_wf s' /\ scan_line s' = [] /\
  queued s' = lastn IR_QUEUE_SIZE (queued s ++ match scancode_of line with Some c => [c] | None => [] end).
Proof.
  intros Hs He [Hl Hn]. cbn zeta. rewrite collect_scancodes_app, (collect_text line s) by (done || by rewrite He).
  rewrite He. cbn [app collect_scancodes fold_left]. unfold collect_char. cbn [Z.eqb Pos.eqb NL orb].
  cbn [scan_line set_line]. destruct (queue_scancode_queued line (set_line line s)) as [H1 H2];
    [by apply set_line_wf|].
  split_and!; [apply set_line_wf; [done|unfold SCAN_LINE; cbn; lia]|done|].
  by rewrite set_line_queued, H2, set_line_queued.
Qed.

(** The codes of a sequence of reads, one per [IR_SCAN_READ]. *)
Fixpoint pops (k : nat) (s : scanner) : list Z :=
  match k with O => [] | S k' => (pop_code s).1 :: pops k' (pop_code s).2 end.

Lemma pops_queued q s : scan_wf s -> queued s = q -> pops (length q) s = q.
Proof.
  revert s; induction q as [|c q IH]; intros s Hs Hq; [done|].
  destruct (pop_code_queued s Hs) as [H1 H2]. rewrite Hq in H2. destruct H2 as [H2 H3].
  cbn [length pops]. by rewrite H2, IH.
Qed.

Lemma collect_lines_queued lines s :
  scan_wf s -> scan_line s = [] -> Forall scan_text lines ->
  let s' := collect_scancodes (lines ≫= fun l => l ++ [NL]) s in
  scan_wf s' /\ scan_line s' = [] /\
  queued s' = lastn IR_QUEUE_SIZE (queued s ++ omap scancode_of lines).
Proof.
  cbn zeta. intros Hs He Hl. revert s Hs He. induction Hl as [|l lines Hl Hls IH]; intros s Hs He.
  - cbn. rewrite app_nil_r. unfold lastn. rewrite length_queued.
    destruct Hs as (? & ? & Hc & ?). by replace (ir_count s - IR_QUEUE_SIZE)%nat with 0%nat by lia.
  - cbn [mbind list_bind]. rewrite collect_scancodes_app.
    destruct (collect_line l s Hs He Hl) as (H1 & H2 & H3).
    destruct (IH _ H1 H2) as (H4 & H5 & H6). split_and!; [done|done|].
    rewrite H6, H3, lastn_app, <- app_assoc. f_equal. f_equal.
    cbn. by destruct (scancode_of l).
Qed.

(** ** Property *)

(** the ring buffer of scancodes refines a FIFO of the last sixteen codes.
    Feeding it the lines of ir-keytable, in whatever pieces the pipe delivers
    them, leaves queued exactly the last sixteen of the codes that were queued
    and the codes the lines report, in order; reading them out one by one
    returns that sequence; head, count and line buffer stay in bounds. *)
Theorem ir_queue_fifo (lines : list bytes) (pieces : list bytes) (s : scanner) :
  scan_wf s -> scan_line s = [] -> Forall scan_text lines ->
  concat pieces = (lines ≫= fun l => l ++ [NL]) ->
  let s' := fold_left (fun s d => collect_scancodes d s) pieces s in
  let codes := lastn IR_QUEUE_SIZE (queued s ++ omap scancode_of lines) in
  scan_wf s' /\ queued s' = codes /\ pops (length codes) s' = codes.
Proof.
  intros Hs He Hl Hp. cbn zeta.
  assert (E : fold_left (fun s d => collect_scancodes d s) pieces s = collect_scancodes (concat pieces) s).
  { clear Hp Hs He. revert s; induction pieces as [|d ds IH]; intros s; [done|].
    cbn. by rewrite IH, collect_scancodes_app. }
  rewrite E, Hp. destruct (collect_lines_queued lines s Hs He Hl) as (H1 & _ & H2).
  split_and!; [done|done|]. by apply pops_queued.
Qed.

Lemma ir_queue_fifo_witness :
  let s := Scanner 5 6 [] (repeat 0 16) 0 0 in
  let lines := [str "lirc protocol(nec): scancode = 0x40 toggle=1"; str "noise"; str "scancode = 017"] in
  let pieces := [str "lirc protocol(nec): scancode = 0x4"; str "0 toggle=1" ++ [NL] ++ str "noise" ++ [NL];
                 str "scancode = 017" ++ [NL]] in
  queued (fold_left (fun s d => collect_scancodes d s) pieces s) = [64; 15].
Proof.
  intros s lines pieces.
  destruct (ir_queue_fifo lines pieces s) as (_ & H & _);
    [literal_text|done|literal_text|vm_compute; reflexivity|].
  etransitivity; [exact H|]. vm_compute. reflexivity.
Defined.
End NeodScanner.
