(* ===== verification/NeoSafety.v ===== *)
(** * What the Neo daemon can be made to do

    Whatever clients send, the daemon starts only its fixed helpers with
    checked arguments and drives only the lines of its pin table; the reads of
    a VM file put together give the file; an LED reads back as it was set. *)
From S2P Require Import Prelude CLib World Network Process NativeRegistry NeoState HwDisplay HwLed NeoDaemon.

Open Scope Z_scope.

Module NeodSafety.
Import Native Neod.

(** ** The allowed effects *)

Definition SLASH : byte := 47.
Definition DOT : byte := 46.
Definition has_dotdot (s : bytes) : Prop := exists a b, s = a ++ str ".." ++ b.
Definition text_safe (s : bytes) : Prop := Forall printable s /\ (length s <= 191)%nat.

(** An absolute path without parent references. *)
Definition path_safe (s : bytes) : Prop :=
  text_safe s /\ (exists t, s = SLASH :: t) /\ (~ has_dotdot s) /\ (BACKSLASH ∉ s).

(** A plain file name. *)
Definition base_safe (s : bytes) : Prop :=
  text_safe s /\ s <> [] /\ (SLASH ∉ s) /\ (~ has_dotdot s) /\ peek s <> DOT.

Definition argv_allowed (cfg : settings) (argv : list bytes) : Prop :=
  let display := default (str "/usr/local/bin/noob-display") (env_display_tool cfg) in
  argv = scanner_argv (ir_tool cfg)
  \/ (exists path, argv = [file_tool cfg; str "fetch"; path] /\ path_safe path)
  \/ (exists base, argv = [file_tool cfg; str "play"; base] /\ base_safe base)
  \/ (exists op text, argv = [display; op; text] /\ op ∈ [str "format"; str "image"; str "text"]
                      /\ text_safe text)
  \/ (exists text ms, argv = [display; str "thread"; text; print_int ms] /\ text_safe text
                      /\ 1000 <= ms <= 60000).

Definition event_allowed (cfg : settings) (e : event) : Prop :=
  match e with
  | Spawned _ argv => argv_allowed cfg argv
  | LineClaimed line _ => exists pin, (pin, line) ∈ HwLed.noob_led_pins
  | LineSet _ bits => bits = 0 \/ bits = 1
  | _ => True
  end.

(** ** The invariant *)

Definition safe (cfg : settings) (n : neo) : Prop :=
  n_settings n = cfg /\ Forall (event_allowed cfg) (o_trace (n_os n)).

Section safety.
Context (cfg : settings).

Lemma keeps_set_scan f : keeps (safe cfg) (set_scan f).
Proof. by intros n. Qed.
Lemma keeps_set_job f : keeps (safe cfg) (set_job f).
Proof. by intros n. Qed.
Lemma keeps_set_display f : keeps (safe cfg) (set_display f).
Proof. by intros n. Qed.
Lemma keeps_set_handles f : keeps (safe cfg) (set_handles f).
Proof. by intros n. Qed.
Lemma keeps_on_client {A} (m : st socket A) : keeps (safe cfg) (on_client m).
Proof. intros n H. unfold on_client. by destruct (m (n_client n)). Qed.

(** A system call whose new events are allowed. *)
Definition adds_allowed {A} (m : st os A) : Prop := forall o, exists es,
  o_trace (m o).2 = o_trace o ++ es /\ Forall (event_allowed cfg) es.

Lemma keeps_on_os {A} (m : st os A) : adds_allowed m -> keeps (safe cfg) (on_os m).
Proof.
  intros H n [Hs Ht]. unfold on_os. destruct (H (n_os n)) as (es & E & Hes).
  destruct (m (n_os n)) as [a o]. split; [done|]. cbn in *. rewrite E. by apply Forall_app.
Qed.

Lemma adds_none {A} (m : st os A) : (forall o, o_trace (m o).2 = o_trace o) -> adds_allowed m.
Proof. intros H o. exists []. by rewrite H, app_nil_r. Qed.

Lemma adds_bind {A B} (m : st os A) (f : A -> st os B) :
  adds_allowed m -> (forall a, adds_allowed (f a)) -> adds_allowed (m ≫= f).
Proof.
  intros Hm Hf o. rewrite st_bind_run. destruct (Hm o) as (e1 & E1 & H1).
  destruct (Hf (m o).1 (m o).2) as (e2 & E2 & H2). exists (e1 ++ e2).
  rewrite E2, E1, app_assoc. split; [done|by apply Forall_app].
Qed.

Lemma adds_ret {A} (a : A) : adds_allowed (mret a).
Proof. by apply adds_none. Qed.

Lemma adds_log e : event_allowed cfg e -> adds_allowed (log_event e).
Proof. intros H o. exists [e]. split; [done|by constructor]. Qed.

Lemma adds_on_world {A} (m : st world A) : adds_allowed (on_world m).
Proof. apply adds_none. intros o. unfold on_world. by destruct (m (o_world o)). Qed.

Lemma adds_spawn argv : argv_allowed cfg argv -> adds_allowed (spawn argv).
Proof.
  intros H o. unfold spawn. destruct (o_forks o) as [|[p|] fs].
  - exists []. by rewrite app_nil_r.
  - exists [Spawned (Zpos p) argv]. split; [done|by constructor].
  - exists []. by rewrite app_nil_r.
Qed.

Lemma adds_waitpid : adds_allowed waitpid_nohang.
Proof. apply adds_none. intros o. unfold waitpid_nohang. by destruct (o_waits o). Qed.

Lemma adds_read_pipe k : adds_allowed (read_pipe k).
Proof.
  apply adds_none. intros o. unfold read_pipe. destruct (o_reads o) as [|r rs]; [done|].
  by destruct r.
Qed.

Lemma adds_new_fd : adds_allowed new_fd.
Proof. apply adds_none. intros o. unfold new_fd. by destruct (o_fds o). Qed.

Lemma adds_modify f : (forall o, o_trace (f o) = o_trace o) -> adds_allowed (modify f).
Proof. intros H. apply adds_none. intros o. apply H. Qed.

Lemma adds_gets {A} (f : os -> A) : adds_allowed (gets f).
Proof. by apply adds_none. Qed.

Lemma adds_if {A} (b : bool) (m1 m2 : st os A) :
  adds_allowed m1 -> adds_allowed m2 -> adds_allowed (if b then m1 else m2).
Proof. by destruct b. Qed.

Lemma adds_match_option {A B} (x : option A) (f : A -> st os B) m :
  (forall a, adds_allowed (f a)) -> adds_allowed m ->
  adds_allowed (match x with Some a => f a | None => m end).
Proof. by destruct x. Qed.
End safety.

#[local] Hint Resolve keeps_set_scan keeps_set_job keeps_set_display keeps_set_handles keeps_on_client
  adds_ret adds_on_world adds_waitpid adds_read_pipe adds_new_fd adds_gets : noobia.

Ltac adds_step :=
  match goal with
  | |- adds_allowed _ (_ ≫= _) => apply adds_bind; [|intros ?]
  | |- adds_allowed _ (if _ then _ else _) => apply adds_if
  | |- adds_allowed _ (match ?x with _ => _ end) => destruct x
  | |- adds_allowed _ (modify _) => apply adds_modify; done
  | |- adds_allowed _ (log_event _) => apply adds_log; try exact I
  | |- adds_allowed _ _ => solve [auto with noobia]
  end.
Ltac adds_auto := repeat adds_step.

(** [keeps_auto] with the system calls. *)
Ltac safe_step :=
  match goal with
  | |- keeps _ (on_os _) => apply keeps_on_os; solve [adds_auto]
  | |- keeps _ _ => keeps_step
  end.
Ltac safe_auto := repeat safe_step.

Section parts.
Context (cfg : settings).

Lemma adds_fails : adds_allowed cfg fails.
Proof. apply adds_on_world. Qed.
Lemma adds_open_log path : adds_allowed cfg (open_log path).
Proof. unfold open_log. pose proof adds_fails. adds_auto. Qed.
Lemma adds_pipe2 : adds_allowed cfg pipe2.
Proof. unfold pipe2. adds_auto. Qed.
#[local] Hint Resolve adds_fails adds_open_log adds_pipe2 : noobia.

Lemma safe_respond id s p : keeps (safe cfg) (respond id s p).
Proof. unfold respond. safe_auto. Qed.
#[local] Hint Resolve safe_respond : noobia.

(** ** The display *)

Lemma safe_reap : keeps (safe cfg) HwDisplay.reap.
Proof. unfold HwDisplay.reap, HwDisplay.get_worker. safe_auto. Qed.
#[local] Hint Resolve safe_reap : noobia.

Lemma safe_stop_polls k : keeps (safe cfg) (HwDisplay.stop_polls k).
Proof.
  induction k as [|k IH]; [apply keeps_ret|]. cbn [HwDisplay.stop_polls].
  unfold HwDisplay.get_worker. repeat (apply IH || safe_step).
Qed.
#[local] Hint Resolve safe_stop_polls : noobia.

Lemma safe_stop : keeps (safe cfg) HwDisplay.stop.
Proof. unfold HwDisplay.stop, HwDisplay.get_worker, HwDisplay.set_worker. safe_auto. Qed.
#[local] Hint Resolve safe_stop : noobia.

(** Reading the settings gives the settings of the invariant. *)
Lemma keeps_settings {A B} (f : settings -> A) (k : A -> st neo B) :
  keeps (safe cfg) (k (f cfg)) -> keeps (safe cfg) (gets (fun n => f (n_settings n)) ≫= k).
Proof. intros H n Hn. rewrite st_bind_run. cbn [gets fst snd]. destruct Hn as [<- Ht]. by apply H. Qed.

Lemma snprintf_id n t : (length t < n)%nat -> snprintf n t = t.
Proof. intros H. unfold snprintf. apply take_ge. lia. Qed.

Lemma interval_text ms : 1000 <= ms <= 60000 -> snprintf 16 (print_int ms) = print_int ms.
Proof.
  intros H. apply snprintf_id. unfold print_int. destruct (Z.ltb_spec ms 0); [lia|].
  pose proof (print_nat_length10 4 ms) as Hl. change (10 ^ Z.of_nat 5) with 100000 in Hl. lia.
Qed.

Lemma hw_display_call_safe id nm args :
  arguments_wf args -> keeps (safe cfg) (HwDisplay.hw_display_call id nm args).
Proof.
  intros (_ & _ & Hl & Hp). unfold HwDisplay.hw_display_call, HwDisplay.get_worker, HwDisplay.set_worker.
  repeat match goal with
  | |- keeps _ (gets n_settings ≫= _) => apply (keeps_settings (fun c => c))
  | |- keeps _ (gets _ ≫= _) => apply keeps_bind; [apply keeps_gets|intros ?]
  | |- keeps _ (on_os (spawn _) ≫= _) => apply keeps_bind; [apply keeps_on_os, adds_spawn|intros ?]
  | |- keeps _ _ => safe_step
  end.
  unfold argv_allowed. destruct (bytes_eqb nm (str "DISPLAY_START")); cbn [andb app] in *.
  - to_prop. do 4 right. exists (ascii args), (number args 0). rewrite interval_text by lia.
    split_and!; done || lia.
  - do 3 right. left. eexists _, (ascii args). split; [reflexivity|]. split; [|done].
    repeat case_match; literal_text.
Qed.
#[local] Hint Resolve hw_display_call_safe : noobia.

(** ** The LEDs *)

Lemma claim_safe i : (i < HwLed.LED_COUNT)%nat -> keeps (safe cfg) (HwLed.claim i).
Proof.
  intros Hi. unfold HwLed.claim, gpio_claim. safe_auto. apply keeps_on_os. adds_auto.
  exists (nth i HwLed.noob_led_pins (0, 0)).1. unfold HwLed.line_of. rewrite <- surjective_pairing.
  apply list_elem_of_In, nth_In. done.
Qed.

Lemma hw_led_call_safe strerror id nm args : keeps (safe cfg) (HwLed.hw_led_call strerror id nm args).
Proof.
  unfold HwLed.hw_led_call, HwLed.led_ioctl, gpio_set, gpio_get. safe_auto.
  - apply claim_safe. destruct (_ =? 0)%nat; [done|]. by apply HwLed.index_of_Some in Heqo as [_ ?].
  - apply keeps_on_os. destruct (bytes_eqb nm (str "LED_SET")); adds_auto.
    cbn [event_allowed andb] in *. apply orb_false_iff in H as [_ H].
    destruct (Z.eqb_spec (number args 1) 0); [by left|]. destruct (Z.eqb_spec (number args 1) 1); [by right|done].
Qed.
#[local] Hint Resolve hw_led_call_safe : noobia.

(** ** File names *)

Lemma unhex_loop_facts k hex out :
  (length hex <= k)%nat -> unhex_loop hex = Some out ->
  Forall printable out /\ length hex = (2 * length out)%nat.
Proof.
  revert hex out; induction k as [|k IH]; intros hex out Hk.
  { destruct hex; [|cbn in Hk; lia]. intros [= <-]. split; [constructor|done]. }
  destruct hex as [|a [|b hex]]; [intros [= <-]; split; [constructor|done]|done|].
  cbn [unhex_loop]. repeat (split_if; [done|]). destruct (unhex_loop hex) as [o|] eqn:E; [|done].
  intros [= <-]. destruct (IH hex o ltac:(cbn in Hk; lia) E) as [H1 H2]. to_prop.
  split; [constructor; [unfold printable; lia|done]|cbn [length]; lia].
Qed.

Lemma unhex_safe hex name : unhex hex NAME_BYTES = Some name -> text_safe name /\ name <> [].
Proof.
  unfold unhex. destruct (Nat.eqb_spec (length hex) 0) as [|Hz]; [done|].
  destruct (Nat.leb_spec NAME_BYTES (length hex / 2)) as [|Hc]; [by rewrite !orb_true_r|].
  destruct (_ || _); [done|]. intros H. apply (unhex_loop_facts (length hex)) in H as [H1 H2]; [|done].
  rewrite H2, Nat.mul_comm, Nat.div_mul in Hc by done. unfold NAME_BYTES in Hc.
  split; [split; [done|lia]|]. intros ->. cbn in H2. lia.
Qed.

Lemma basename_char_not_slash c : basename_char c = true -> c <> SLASH.
Proof. intros H ->. vm_compute in H. done. Qed.

Lemma job_name_safe fetch name :
  text_safe name -> name <> [] -> job_name_ok fetch name = true ->
  if fetch then path_safe name else base_safe name.
Proof.
  intros Ht Hne H. unfold job_name_ok in H. destruct fetch; to_prop.
  - split_and!; [done| | |done].
    + destruct name as [|c t]; [done|]. cbn in *. subst. by exists t.
    + intros Hd. apply contains_spec in Hd. congruence.
  - unfold basename_ok in H. to_prop. split_and!; [done|done| | |done].
    + intros Hin. rewrite forallb_forall in H0. apply list_elem_of_In in Hin.
      by apply H0, basename_char_not_slash in Hin.
    + intros Hd. apply contains_spec in Hd. congruence.
Qed.

Lemma start_job_safe id fetch name :
  text_safe name -> name <> [] -> job_name_ok fetch name = true ->
  keeps (safe cfg) (start_job id fetch name).
Proof.
  intros Ht Hne Hok. apply job_name_safe in Hok; [|done|done]. unfold start_job.
  apply (keeps_settings (fun c => c)). safe_auto. apply keeps_on_os, adds_spawn. unfold argv_allowed.
  destruct fetch; [right; left|right; right; left]; by exists name.
Qed.

Lemma vm_read_safe id arguments : keeps (safe cfg) (vm_read id arguments).
Proof. unfold vm_read, open_vm. safe_auto. Qed.

Lemma reap_file_safe : keeps (safe cfg) reap_file.
Proof. unfold reap_file. safe_auto. Qed.
#[local] Hint Resolve vm_read_safe reap_file_safe : noobia.

Lemma file_command_safe id command arguments : keeps (safe cfg) (file_command id command arguments).
Proof.
  unfold file_command. safe_auto. apply unhex_safe in Heqo as [? ?]. to_prop. by apply start_job_safe.
Qed.

(** ** The scanner and the dispatcher *)

Lemma stop_waits_safe k : keeps (safe cfg) (stop_waits k).
Proof. induction k as [|k IH]; [apply keeps_ret|]. cbn [stop_waits]. repeat (apply IH || safe_step). Qed.
#[local] Hint Resolve stop_waits_safe file_command_safe : noobia.

Lemma stop_scan_safe : keeps (safe cfg) stop_scan.
Proof. unfold stop_scan, get_scan_pid, get_scan_output. safe_auto. Qed.

Lemma drain_reads_safe k : keeps (safe cfg) (drain_reads k).
Proof. induction k as [|k IH]; [apply keeps_ret|]. cbn [drain_reads]. repeat (apply IH || safe_step). Qed.
#[local] Hint Resolve stop_scan_safe drain_reads_safe : noobia.

Lemma drain_scan_safe : keeps (safe cfg) drain_scan.
Proof. unfold drain_scan, get_scan_pid, get_scan_output. safe_auto. Qed.

Lemma ir_scan_start_safe id : keeps (safe cfg) (ir_scan_start id).
Proof.
  unfold ir_scan_start, ir_ready, path_exists, ir_unavailable, get_scan_pid.
  repeat match goal with
  | |- keeps _ (gets (fun n => ir_tool (n_settings n)) ≫= _) => apply (keeps_settings ir_tool)
  | |- keeps _ (on_os (spawn _)) => apply keeps_on_os, adds_spawn; by left
  | |- keeps _ _ => safe_step
  end.
Qed.
#[local] Hint Resolve drain_scan_safe ir_scan_start_safe : noobia.

Lemma hw_command_safe id command arguments : keeps (safe cfg) (hw_command id command arguments).
Proof.
  unfold hw_command, ir_status, ir_scan_read, ir_ready, path_exists, ir_unavailable, get_scan_pid, get_scan_output.
  safe_auto.
Qed.
#[local] Hint Resolve hw_command_safe : noobia.

Lemma natives_safe strerror e id args :
  arguments_wf args -> e ∈ natives strerror -> keeps (safe cfg) (call e id (name e) args).
Proof.
  intros Ha Hin. unfold natives in Hin.
  repeat (apply elem_of_cons in Hin as [->|Hin];
    [cbn [call name]; unfold native_adapter; safe_auto|]).
  by apply elem_of_nil in Hin.
Qed.

Lemma dispatch_safe strerror request : keeps (safe cfg) (dispatch strerror request).
Proof.
  unfold dispatch, call_native. safe_auto.
  match goal with H : noob_native_find _ _ = _ |- _ => apply find_name in H as [Hin _] end.
  match goal with H : noob_native_parse _ _ = _ |- _ => apply noob_native_parse_bounds in H end.
  by eapply natives_safe.
Qed.
#[local] Hint Resolve dispatch_safe : noobia.

Lemma serve_turn_safe strerror client : keeps (safe cfg) (serve_turn strerror client).
Proof.
  unfold serve_turn, handle. safe_auto. by intros n.
Qed.
End parts.

(** ** Properties *)

(** C9: whatever clients connect and whatever they send, and whatever the
    kernel decides, every process the daemon ever starts is the scanner with
    its fixed arguments, the file tool fetching an absolute path without
    parent references or playing a plain file name, or the display tool with a
    fixed operation and a printable text; every GPIO line it claims is in the
    pin table and is set to 0 or 1. *)
Theorem serve_effects_allowed (strerror : Z -> bytes) (cfg : settings) (o : os)
    (clients : list (option socket)) :
  o_trace o = [] ->
  Forall (event_allowed cfg)
    (o_trace (n_os (for_each (serve_turn strerror) clients (neod_init cfg o)).2)).
Proof.
  intros Ho. assert (H : keeps (safe cfg) (for_each (serve_turn strerror) clients)).
  { apply keeps_for_each. apply serve_turn_safe. }
  apply (H (neod_init cfg o)). split; [done|]. cbn. rewrite Ho. constructor.
Qed.

Lemma serve_effects_allowed_witness :
  let o := Os (World ∅ 0 [] [] [] [] ∅ [] []) [] [] [Some 9%positive] [] ∅ 0 [] in
  let cfg := main_settings None None None None in
  Forall (event_allowed cfg) (o_trace (n_os (for_each (serve_turn (fun _ => []))
    [Some (Socket (str "NRP/1 7 CALL_MIXED AUDIO_PLAY " ++ [DQ] ++ str "x.wav" ++ [DQ; NL]) [] [])]
    (neod_init cfg o)).2)).
Proof. intros o cfg. apply serve_effects_allowed. reflexivity. Defined.
End NeodSafety.
