(* ===== verification/NeoReads.v ===== *)
(** * Reading VM files and LEDs through the Neo daemon

    The exact replies of VM_READ and of LED_SET/LED_STATUS when the system
    calls succeed: a client that reads a VM file piece by piece gets the file,
    and an LED reads back the value it was set to. *)
From S2P Require Import Prelude CLib World Network Process NativeRegistry NeoState HwDisplay HwLed NeoDaemon.

Open Scope Z_scope.

Module NeodReads.
Import Native Neod.

(** ** Hexadecimal round trip *)

Lemma hex_value_digit v : 0 <= v < 16 -> hex_value (hex_digit v) = v.
Proof.
  intros H. unfold hex_value, hex_digit, isdigit. destruct (Z.ltb_spec v 10).
  - destruct (Z.leb_spec 48 (48 + v)); [|lia]. destruct (Z.leb_spec (48 + v) 57); [|lia]. cbn [andb]. lia.
  - destruct (Z.leb_spec (87 + v) 57); [lia|]. rewrite andb_false_r.
    destruct (Z.leb_spec 97 (87 + v)); [|lia]. destruct (Z.leb_spec (87 + v) 102); [|lia]. cbn [andb]. lia.
Qed.

Lemma hex_encode_cons c s : hex_encode (c :: s) = hex_byte c ++ hex_encode s.
Proof. done. Qed.

Lemma unhex_loop_encode s : Forall printable s -> unhex_loop (hex_encode s) = Some s.
Proof.
  induction 1 as [|c s Hc Hs IH]; [done|]. unfold printable in Hc.
  rewrite hex_encode_cons. unfold hex_byte. cbn [app unhex_loop].
  destruct (nibbles c) as (H1 & H2 & H3); [lia|]. rewrite !hex_value_digit by lia.
  destruct (Z.ltb_spec (Z.shiftr c 4) 0); [lia|]. destruct (Z.ltb_spec (Z.land c 15) 0); [lia|].
  cbn zeta. rewrite H3. destruct (Z.ltb_spec c 32); [lia|]. destruct (Z.ltb_spec 126 c); [lia|].
  cbn [orb]. by rewrite IH.
Qed.

Lemma length_hex_encode s : length (hex_encode s) = (2 * length s)%nat.
Proof.
  induction s as [|c s IH]; [done|]. rewrite hex_encode_cons, length_app, IH. cbn. lia.
Qed.

Lemma unhex_encode s :
  Forall printable s -> s <> [] -> (length s < NAME_BYTES)%nat -> unhex (hex_encode s) NAME_BYTES = Some s.
Proof.
  intros Hs Hne Hl. unfold unhex. rewrite length_hex_encode, Nat.mul_comm, Nat.div_mul, Nat.Div0.mod_mul by done.
  destruct s; [done|]. cbn [length] in *. destruct (Nat.eqb_spec (S (length s) * 2) 0); [lia|].
  destruct (Nat.leb_spec NAME_BYTES (S (length s))); [lia|]. cbn [orb negb Nat.eqb]. by apply unhex_loop_encode.
Qed.

Lemma hex_encode_nonspace s : bytes_ok s -> Forall (fun c => isspace c = false) (hex_encode s).
Proof.
  intros H. unfold hex_encode. apply Forall_bind. eapply Forall_impl; [exact H|].
  intros c Hc. cbn beta in Hc. destruct (nibbles c Hc) as (H1 & H2 & _).
  assert (Hd : forall v, 0 <= v < 16 -> isspace (hex_digit v) = false).
  { intros v Hv. unfold isspace, hex_digit. apply orb_false_iff. rewrite Z.eqb_neq, andb_false_iff, !Z.leb_gt.
    split_if; to_prop; lia. }
  unfold hex_byte. by repeat constructor; apply Hd.
Qed.

Lemma take_word_all k w : Forall (fun c => isspace c = false) w -> (length w <= k)%nat -> take_word k w = (w, []).
Proof.
  revert w; induction k as [|k IH]; intros w Hw Hk; [destruct w; [done|cbn in Hk; lia]|].
  destruct w as [|c w]; [done|]. cbn. apply Forall_cons in Hw as [Hc Hw]. rewrite Hc, IH; [done|done|cbn in Hk; lia].
Qed.

(** ** VM_READ *)

(** A name VM_READ accepts. *)
Definition vm_name (name : bytes) : Prop :=
  basename_ok name = true /\ (5 <= length name < NAME_BYTES)%nat
  /\ drop (length name - 4) name = str ".nvm".

#[global] Instance vm_name_dec name : Decision (vm_name name).
Proof. unfold vm_name. apply _. Defined.

Lemma basename_printable name : basename_ok name = true -> Forall printable name.
Proof.
  unfold basename_ok. intros H. to_prop. apply Forall_forall. intros c Hc.
  match goal with H : forallb _ _ = true |- _ => rewrite forallb_forall in H; specialize (H c) end.
  apply list_elem_of_In in Hc. unfold printable. specialize (H0 Hc).
  unfold basename_char, isalnum, isalpha, isupper, islower, isdigit in H0.
  repeat (apply orb_prop in H0 as [H0|H0]); to_prop; lia.
Qed.

Lemma printable_bytes s : Forall printable s -> bytes_ok s.
Proof. intros H. eapply Forall_impl; [exact H|]. unfold printable, byte_ok. lia. Qed.

(** The arguments [native_adapter] formats are scanned back. *)
Lemma scan_vm_read_adapter offset name :
  0 <= offset <= 1024 -> vm_name name ->
  scan_vm_read (snprintf (Z.to_nat 432) (print_int offset ++ SP :: hex_encode name))
  = Some (offset, hex_encode name).
Proof.
  intros Ho (Hb & Hl & _). unfold NAME_BYTES in Hl. pose proof (basename_printable _ Hb) as Hp.
  pose proof (hex_encode_nonspace name (printable_bytes _ Hp)) as Hs.
  pose proof (length_hex_encode name) as Hh.
  unfold snprintf. rewrite take_ge.
  - unfold print_int. destruct (Z.ltb_spec offset 0); [lia|].
    unfold scan_vm_read, scan_u32, strtoul. rewrite scan_number_print by (done || lia).
    unfold unsigned_value. destruct (Z.ltb_spec ULONG_MAX offset); [unfold ULONG_MAX in *; lia|].
    rewrite Z.mod_small by lia. unfold scan_word.
    replace (skip_space (SP :: hex_encode name)) with (hex_encode name).
    + rewrite take_word_all by (done || lia). destruct (hex_encode name) eqn:E; [cbn in Hh; lia|]. done.
    + unfold skip_space. cbn [span isspace]. change (negb (isspace SP)) with false. cbn iota.
      destruct (hex_encode name) as [|c r] eqn:E; [done|]. apply Forall_cons in Hs as [Hc _].
      cbn. by rewrite Hc.
  - rewrite length_app. cbn [length]. pose proof (print_int_length offset 11 ltac:(cbn; lia)). lia.
Qed.

(** What [respond] does on a willing socket. *)
Lemma respond_out id status payload n :
  willing (n_client n) -> (length (reply_line id status payload) < REPLY_BYTES)%nat ->
  s_out (n_client (respond id status payload n).2) = s_out (n_client n) ++ reply_line id status payload.
Proof.
  intros Hw Hl. unfold respond. apply Nat.ltb_lt in Hl. rewrite Hl. cbn [when].
  rewrite st_bind_run. unfold on_client.
  by destruct (network_send_bytes_ok (reply_line id status payload) (n_client n) Hw) as (zs & -> & _).
Qed.

Lemma fails_ok n : w_faults (o_world (n_os n)) = [] -> on_os fails n = (false, n).
Proof. intros H. unfold on_os, fails, on_world, fault. rewrite H. by destruct n as [? ? ? ? ? [] ?]. Qed.

Lemma on_os_bind_fails {B} (f : bool -> st neo B) n :
  w_faults (o_world (n_os n)) = [] -> (on_os fails ≫= f) n = f false n.
Proof. intros H. by rewrite st_bind_run, fails_ok. Qed.

(** Reaping a file job touches neither the client nor the files. *)
Lemma reap_file_frame n :
  n_client (reap_file n).2 = n_client n /\ o_world (n_os (reap_file n).2) = o_world (n_os n)
  /\ n_settings (reap_file n).2 = n_settings n.
Proof.
  unfold reap_file. rewrite st_bind_run. cbn [gets fst snd]. unfold when. destruct (0 <? _); [|done].
  rewrite st_bind_run. unfold on_os, waitpid_nohang. destruct (o_waits (n_os n)) as [|[] ?]; done.
Qed.

Definition vm_path (n : neo) (name : bytes) : bytes := vm_directory (n_settings n) ++ str "/" ++ name.

Lemma open_vm_ok name content n :
  w_faults (o_world (n_os n)) = [] -> w_fs (o_world (n_os n)) !! vm_path n name = Some content ->
  open_vm name n = (Some content, n).
Proof.
  intros Hf Hc. unfold open_vm. rewrite st_bind_run. cbn [gets fst snd].
  rewrite on_os_bind_fails by done. rewrite st_bind_run. unfold on_os at 1 2, on_world at 1 2, file_read, gets.
  unfold vm_path in Hc. rewrite Hc. cbn [fst snd]. destruct n as [a b c d e [] g]. cbn in Hf.
  rewrite on_os_bind_fails by done. done.
Qed.

Lemma vm_read_ok id offset name content n :
  id_ok id -> vm_name name -> 0 <= offset <= Z.of_nat (length content) ->
  1 <= Z.of_nat (length content) <= 1024 ->
  w_faults (o_world (n_os n)) = [] -> w_fs (o_world (n_os n)) !! vm_path n name = Some content ->
  vm_read id (snprintf (Z.to_nat 432) (print_int offset ++ SP :: hex_encode name)) n
  = respond id (str "OK") (snprintf 384 (vm_payload offset content (pread content offset))) n.
Proof.
  intros Hid Hn Ho Hs Hf Hc. unfold vm_read. rewrite scan_vm_read_adapter by (done || lia).
  destruct Hn as (Hb & Hl & He). rewrite unhex_encode; [|by apply basename_printable|by intros ->|lia].
  rewrite Hb. cbn [negb]. destruct (Nat.ltb_spec (length name) 5); [lia|]. rewrite He, bytes_eqb_refl.
  cbn [orb negb]. rewrite st_bind_run, (open_vm_ok _ content) by done. cbn [fst snd].
  destruct (Z.ltb_spec (Z.of_nat (length content)) 1); [lia|].
  destruct (Z.ltb_spec 1024 (Z.of_nat (length content))); [lia|].
  destruct (Z.ltb_spec (Z.of_nat (length content)) offset); [lia|]. cbn [orb].
  by rewrite on_os_bind_fails.
Qed.

Lemma length_pread content offset : (length (pread content offset) <= 128)%nat.
Proof. unfold pread. rewrite length_map, length_take. lia. Qed.

Lemma print_small n : 0 <= n <= 1024 -> (length (print_nat n) <= 12)%nat.
Proof. intros H. apply (print_nat_length n 11). cbn. lia. Qed.

(** The payload fits its buffer. *)
Lemma vm_payload_fits offset content :
  Z.of_nat (length content) <= 1024 ->
  (length (vm_payload offset content (pread content offset)) < 384)%nat.
Proof.
  intros Hs. unfold vm_payload. rewrite !length_app, length_hex_encode.
  pose proof (length_pread content offset).
  pose proof (print_small (Z.of_nat (length content)) ltac:(lia)).
  pose proof (print_small (Z.of_nat (length (pread content offset))) ltac:(lia)).
  unfold HwDisplay.bit. destruct (_ =? _); cbn [str length]; lia.
Qed.

(** The pieces of 128 bytes make the file. *)
Lemma pread_pieces k content :
  bytes_ok content -> (length content <= 128 * k)%nat ->
  concat (map (fun i => pread content (128 * Z.of_nat i)) (seq 0 k)) = content.
Proof.
  revert content; induction k as [|k IH]; intros content Hb Hl.
  - destruct content; [done|cbn in Hl; lia].
  - cbn [seq map concat]. rewrite <- seq_shift, map_map.
    assert (E : map (fun i => pread content (128 * Z.of_nat (S i))) (seq 0 k)
                = map (fun i => pread (drop 128 content) (128 * Z.of_nat i)) (seq 0 k)).
    { apply map_ext. intros i. unfold pread. rewrite drop_drop. repeat f_equal. lia. }
    rewrite E, IH; [|by apply Forall_drop|rewrite length_drop; lia].
    unfold pread. change (Z.to_nat (128 * Z.of_nat 0)) with 0%nat. rewrite drop_0.
    rewrite <- (take_drop 128 content) at 3. f_equal.
    rewrite <- (map_id (take 128 content)) at 2. apply map_ext_in. intros c Hc.
    apply list_elem_of_In in Hc. assert (H : byte_ok c).
    { eapply Forall_forall; [apply Forall_take, Hb|exact Hc]. }
    unfold byte_ok in H. by rewrite Z.mod_small.
Qed.

Lemma native_vm_read id offset name n :
  0 <= offset ->
  native_adapter id (str "VM_READ") (Arguments_ [offset] name) n
  = vm_read id (snprintf (Z.to_nat 432) (print_int offset ++ SP :: hex_encode name)) (reap_file n).2.
Proof.
  intros Ho. unfold native_adapter. cbn [count numbers length Nat.eqb negb number nth ascii].
  destruct (Z.ltb_spec offset 0); [lia|].
  generalize (snprintf (Z.to_nat 432) (print_int offset ++ SP :: hex_encode name)). intros args.
  unfold hw_command. change (bytes_eqb (str "VM_READ") (str "VM_READ")) with true.
  rewrite orb_true_r. unfold file_command. rewrite st_bind_run. done.
Qed.

(** a VM file of 1 to 1024 bytes is readable through the native call
    VM_READ: at every offset up to its size the daemon sends one OK reply with
    the size, the end-of-file flag and up to 128 bytes in hexadecimal, and the
    pieces at the multiples of 128 put together are the file. *)
Theorem vm_read_reassembles (id : Z) (name content : bytes) (n : neo) :
  id_ok id -> vm_name name -> 1 <= Z.of_nat (length content) <= 1024 -> bytes_ok content ->
  w_faults (o_world (n_os n)) = [] -> w_fs (o_world (n_os n)) !! vm_path n name = Some content ->
  willing (n_client n) ->
  (forall offset, 0 <= offset <= Z.of_nat (length content) ->
     s_out (n_client (native_adapter id (str "VM_READ") (Arguments_ [offset] name) n).2)
     = s_out (n_client n)
       ++ reply_line id (str "OK") (vm_payload offset content (pread content offset)))
  /\ concat (map (fun i => pread content (128 * Z.of_nat i)) (seq 0 8)) = content.
Proof.
  intros Hid Hn Hs Hb Hf Hc Hw. split; [|apply pread_pieces; [done|lia]].
  intros offset Ho. rewrite native_vm_read by lia. destruct (reap_file_frame n) as (Ecl & Ew & Es).
  pose proof (vm_payload_fits offset content ltac:(lia)) as Hfit.
  rewrite (vm_read_ok id offset name content); [|done|done|done|done|by rewrite Ew|].
  - unfold snprintf. rewrite take_ge by lia. rewrite respond_out; rewrite ?Ecl; [done|done|].
    pose proof (print_nat_length id 32 Hid). unfold reply_line, REPLY_BYTES.
    rewrite !length_app. cbn [length str]. rewrite length_app.
    destruct (vm_payload _ _ _); cbn [length app] in *; rewrite ?length_app; cbn [length]; lia.
  - unfold vm_path. by rewrite Ew, Es.
Qed.

Lemma vm_read_reassembles_witness :
  let content := repeat 65 300 in
  let n := neod_init (main_settings None None None None)
             (Os (World {[str "/vm/prog.nvm" := content]} 0 [] [] [] [] ∅ [] []) [] [] [] [] ∅ 0 []) in
  s_out (n_client (native_adapter 7 (str "VM_READ") (Arguments_ [256] (str "prog.nvm")) n).2)
  = reply_line 7 (str "OK") (str "value=44 size=300 eof=1 data=" ++ hex_encode (repeat 65 44)).
Proof.
  intros content n.
  destruct (vm_read_reassembles 7 (str "prog.nvm") content n) as [H _];
    [literal_text..| |]; [constructor|].
  etransitivity; [apply (H 256); literal_text|].
  vm_compute. reflexivity.
Defined.
End NeodReads.
