(* ===== verification/WispServer.v ===== *)
(** * wisp/server.c: the web shell

    A small HTTP server around one shell on a pseudo-terminal: password login
    with a session cookie, an editor API for files under the shell's working
    directory, commands and signals for the shell, and its output as
    server-sent events with a bounded history.  Request parsing, the JSON
    reader and writer, the path check, every API handler, the terminal reader
    and [client_thread] are modelled; allocation failure is not. *)
From S2P Require Import Prelude CLib World Network.

Open Scope Z_scope.

Module Wisp.

Definition REQ_MAX : nat := Z.to_nat (2 * 1024 * 1024).
Definition FILE_MAX : Z := 1024 * 1024.
Definition HISTORY_MAX : nat := Z.to_nat (256 * 1024).
Definition SSE_MAX : nat := 16.
Definition PATH_MAX : nat := Z.to_nat 4096.

Definition CRLF : bytes := [CR; NL].
Definition BACKSLASH : byte := 92.
Definition SLASH : byte := 47.

(** The server's static state, the shell it drives and the system. *)
Record wisp := MkWisp {
  ws_world : world;
  pty_out : bytes;                 (** what has been written to the shell *)
  shell_pid : Z;
  session : bytes;
  password : bytes;
  web_dir : bytes;
  ws_cwd : option bytes;           (** [readlink("/proc/<shell>/cwd")] *)
  history : bytes;                 (** [history[0..history_len)] *)
  streams : list (option socket);  (** event streams, [None] for a free slot *)
  ws_pgrp : Z;                     (** [tcgetpgrp(pty_fd)] *)
  kills : list (Z * Z);            (** signals sent: process group, signal *)
  ws_suffixes : list bytes;        (** the names [mkstemp] picks *)
  stack_garbage : Z                (** an uninitialised [size_t] *)
}.

Definition set_world (w : world) (s : wisp) : wisp :=
  MkWisp w (pty_out s) (shell_pid s) (session s) (password s) (web_dir s) (ws_cwd s) (history s)
       (streams s) (ws_pgrp s) (kills s) (ws_suffixes s) (stack_garbage s).
Definition set_pty (o : bytes) (s : wisp) : wisp :=
  MkWisp (ws_world s) o (shell_pid s) (session s) (password s) (web_dir s) (ws_cwd s) (history s)
       (streams s) (ws_pgrp s) (kills s) (ws_suffixes s) (stack_garbage s).
Definition set_history (h : bytes) (s : wisp) : wisp :=
  MkWisp (ws_world s) (pty_out s) (shell_pid s) (session s) (password s) (web_dir s) (ws_cwd s) h
       (streams s) (ws_pgrp s) (kills s) (ws_suffixes s) (stack_garbage s).
Definition set_streams (l : list (option socket)) (s : wisp) : wisp :=
  MkWisp (ws_world s) (pty_out s) (shell_pid s) (session s) (password s) (web_dir s) (ws_cwd s) (history s)
       l (ws_pgrp s) (kills s) (ws_suffixes s) (stack_garbage s).
Definition add_kill (k : Z * Z) (s : wisp) : wisp :=
  MkWisp (ws_world s) (pty_out s) (shell_pid s) (session s) (password s) (web_dir s) (ws_cwd s) (history s)
       (streams s) (ws_pgrp s) (kills s ++ [k]) (ws_suffixes s) (stack_garbage s).
Definition set_suffixes (l : list bytes) (s : wisp) : wisp :=
  MkWisp (ws_world s) (pty_out s) (shell_pid s) (session s) (password s) (web_dir s) (ws_cwd s) (history s)
       (streams s) (ws_pgrp s) (kills s) l (stack_garbage s).

(** A handler works on the server and the client's socket. *)
Abbreviation web := (wisp * socket)%type.

Definition on_world {A} (m : st world A) : st web A := fun '(s, k) =>
  let '(a, w) := m (ws_world s) in (a, (set_world w s, k)).
Definition fails : st web bool := on_world fault.

(** ** Replies *)

(** Interrupted writes are retried; [true] is the return value 0. *)
Definition write_all (d : bytes) : st socket bool := send_loop (length d) d.

Definition reason (code : Z) : bytes :=
  if code =? 200 then str "OK" else if code =? 204 then str "No Content"
  else if code =? 400 then str "Bad Request" else if code =? 401 then str "Unauthorized"
  else if code =? 404 then str "Not Found" else if code =? 409 then str "Conflict"
  else if code =? 413 then str "Payload Too Large" else str "Internal Server Error".

Definition reply_head (code : Z) (type extra : bytes) (len : nat) : bytes :=
  str "HTTP/1.1 " ++ print_int code ++ SP :: reason code ++ CRLF
  ++ str "Content-Type: " ++ type ++ CRLF
  ++ str "Content-Length: " ++ print_nat (Z.of_nat len) ++ CRLF
  ++ str "X-Content-Type-Options: nosniff" ++ CRLF
  ++ str "Cache-Control: no-store" ++ CRLF
  ++ str "Connection: close" ++ CRLF ++ extra ++ CRLF.

Definition reply (code : Z) (type extra body : bytes) : st socket unit :=
  let head := reply_head code type extra (length body) in
  when (length head <? Z.to_nat 1024)%nat
    (write_all head ;; when (0 <? length body)%nat (write_all body ;; mret tt)).

Definition JSON : bytes := str "application/json; charset=utf-8".
Definition quote (s : bytes) : bytes := DQ :: s ++ [DQ].

Definition error_body (message : bytes) : bytes :=
  snprintf 512 (str "{" ++ quote (str "ok") ++ str ":false," ++ quote (str "error") ++ str ":"
                ++ quote message ++ str "}" ++ [NL]).
Definition json_error (code : Z) (message : string) : st socket unit :=
  reply code JSON [] (error_body (str message)).

Definition YES : bytes := str "{" ++ quote (str "ok") ++ str ":true}" ++ [NL].

(** ** Headers and the session cookie *)

Definition strncasecmp_eq (a b : bytes) : bool := bytes_eqb (map tolower a) (map tolower b).

Fixpoint skip_blanks (s : bytes) : bytes :=
  match s with c :: s' => if (c =? SP) || (c =? TAB) then skip_blanks s' else s | [] => [] end.

(** The lines after the request line, up to the empty one; each turn moves past
    a line, so the length of the text is enough fuel. *)
Fixpoint header_lines (fuel : nat) (name p : bytes) : option bytes :=
  match fuel with
  | O => None
  | S f =>
      if (peek p =? NUL) || starts_with CRLF p then None
      else match strstr p CRLF with
           | None => None
           | Some rest =>
               let len := (length p - length rest)%nat in
               if (length name <? len)%nat && strncasecmp_eq (take (length name) p) name
                  && (nth (length name) p 0 =? 58)
               then Some (skip_blanks (drop (S (length name)) p))
               else header_lines f name (drop 2 rest)
           end
  end.

Definition header_value (request name : bytes) : option bytes :=
  match strstr request CRLF with
  | None => None
  | Some r => header_lines (length request) name (drop 2 r)
  end.

Definition NEEDLE : bytes := str "wisp_session=".

(** [p] ranges over the occurrences of the needle before [end], where [rest]
    bytes are left from [end] on. *)
Fixpoint cookie_loop (fuel : nat) (session p : bytes) (rest : nat) : bool :=
  match fuel with
  | O => false
  | S f => match strstr p NEEDLE with
           | None => false
           | Some q =>
               if (length q <=? rest)%nat then false
               else
               let q := drop (length NEEDLE) q in
               if starts_with session q
                  && ((nth (length session) q 0 =? 59) || (nth (length session) q 0 =? CR))
               then true else cookie_loop f session q rest
           end
  end.

Definition authenticated (session req : bytes) : bool :=
  match header_value req (str "Cookie") with
  | None => false
  | Some p => let rest := match strstr p CRLF with Some e => length e | None => O end in
              cookie_loop (S (length p)) session p rest
  end.

(** ** JSON *)

Definition isxdigit (c : byte) : bool :=
  isdigit c || ((65 <=? c) && (c <=? 70)) || ((97 <=? c) && (c <=? 102)).

(** The value of the hexadecimal digits among the next four characters. *)
Fixpoint hex_prefix (k : nat) (v : Z) (p : bytes) : Z :=
  match k, p with
  | S k', c :: p' => if isxdigit c
                     then hex_prefix k' (v * 16 + (if isdigit c then c - 48 else 10 + tolower c - 97)) p'
                     else v
  | _, _ => v
  end.

(** [Overrun]: the reader moves past the end of the text, and what it reads
    there is not determined by the request. *)
Inductive json_result := Found (value : bytes) | Missing | Overrun.

(** The value of an escape other than [u]. *)
Definition unescape (c : byte) : byte :=
  if c =? 110 then NL else if c =? 114 then CR else if c =? 116 then TAB
  else if c =? 98 then 8 else if c =? 102 then 12 else c.

(** A character is consumed in each turn: the length is enough fuel. *)
Fixpoint json_decode (fuel : nat) (p out : bytes) : json_result :=
  match fuel, p with
  | _, [] => Missing
  | O, _ => Missing
  | S f, c :: p =>
      if c =? DQ then Found out
      else if c =? BACKSLASH then
        match p with
        | [] => Overrun
        | e :: p =>
            if e =? 117 then
              let v := hex_prefix 4 0 p in
              if (length p <? 4)%nat then Overrun
              else json_decode f (drop 4 p) (out ++ [if v <? 128 then v else 63])
            else json_decode f p (out ++ [unescape e])
        end
      else json_decode f p (out ++ [c])
  end.

Definition json_string (json key : bytes) : json_result :=
  match strstr json (quote key) with
  | None => Missing
  | Some p =>
      let p := skip_space (drop (length (quote key)) p) in
      if negb (peek p =? 58) then Missing
      else let p := skip_space (drop 1 p) in
           if negb (peek p =? DQ) then Missing
           else json_decode (length p) (drop 1 p) []
  end.

Definition json_escape (c : byte) : bytes :=
  if (c =? DQ) || (c =? BACKSLASH) then [BACKSLASH; c]
  else if c =? NL then str "\n" else if c =? CR then str "\r" else if c =? TAB then str "\t"
  else if c <? 32 then str "\u00" ++ hex_byte c else [c].

Definition json_quote (s : bytes) : bytes := quote (s ≫= json_escape).

(** ** Requests *)

Inductive received := Failed | TooLarge | Request (buf : bytes) (header_len body_len : nat).

(** [cap] doubles up to [REQ_MAX]; [want] is [None] until the end of the headers
    has been seen.  Every read brings at least one byte. *)
Fixpoint read_loop (fuel cap : nat) (buf : bytes) (want : option (nat * nat)) : st socket received :=
  match fuel with
  | O => mret Failed
  | S f =>
      if (length buf =? cap)%nat && (REQ_MAX <=? cap)%nat then mret TooLarge
      else
      let cap := if (length buf =? cap)%nat then Nat.min (cap * 2) REQ_MAX else cap in
      z ← recv (cap - length buf);
      match z with
      | None => mret Failed
      | Some d =>
          let buf := buf ++ d in
          let want' :=
            match want, strstr (cstr buf) (CRLF ++ CRLF) with
            | None, Some marker =>
                let header_len := (length (cstr buf) - length marker + 4)%nat in
                let content := match header_value (cstr buf) (str "Content-Length") with
                               | Some cl => value_or_0 (strtoul cl)
                               | None => 0
                               end in
                Some (header_len, content)
            | Some (h, b), _ => Some (h, Z.of_nat b)
            | None, None => None
            end in
          match want' with
          | None => read_loop f cap buf None
          | Some (header_len, content) =>
              if Z.of_nat REQ_MAX - Z.of_nat header_len <? content then mret TooLarge
              else
              let body_len := Z.to_nat content in
              if (header_len + body_len <=? length buf)%nat
              then mret (Request (take (header_len + body_len) buf) header_len body_len)
              else read_loop f cap buf (Some (header_len, body_len))
          end
      end
  end.

Definition read_request : st socket received := fun k =>
  read_loop (S (length (s_in k))) (Z.to_nat 8192) [] None k.

(** ** Paths *)

(** The components of a relative path: none is [..] and none is empty. *)
Fixpoint components_ok (fuel : nat) (p : bytes) : bool :=
  match fuel, p with
  | _, [] => true
  | O, _ => false
  | S f, _ =>
      let p := (span (fun c => negb (c =? SLASH)) p).2 in
      let '(component, q) := span (Z.eqb SLASH) p in
      if bytes_eqb component (str "..") || (length component =? 0)%nat then false
      else components_ok f q
  end.

Definition safe_path (cwd : option bytes) (name : bytes) : option bytes :=
  if (peek name =? NUL) || (peek name =? SLASH) then None
  else match cwd with
       | None => None
       | Some cwd =>
           if negb (components_ok (S (length name)) name) then None
           else let out := cwd ++ SLASH :: name in
                if (PATH_MAX <=? length out)%nat then None else Some out
       end.

Fixpoint url_decode (src : bytes) : bytes :=
  match src with
  | [] => []
  | c :: rest =>
      match rest with
      | a :: b :: rest' =>
          if (c =? 37) && isxdigit a && isxdigit b
          then (digit_value a * 16 + digit_value b) :: url_decode rest'
          else (if c =? 43 then SP else c) :: url_decode rest
      | _ => (if c =? 43 then SP else c) :: url_decode rest
      end
  end.

(** ** The handlers *)

Definition serve_file (name type : bytes) : st web unit :=
  dir ← gets (fun s => web_dir s.1);
  let path := dir ++ SLASH :: name in
  if (PATH_MAX <=? length path)%nat then on_snd (json_error 500 "web path too long")
  else
  found ← on_world (file_read path);
  match found with
  | None => on_snd (json_error 404 "not found")
  | Some data =>
      bad ← fails;
      if (bad : bool) || (4 * 1024 * 1024 <? Z.of_nat (length data))
      then on_snd (json_error 500 "cannot read asset")
      else on_snd (reply 200 type [] data)
  end.

Definition key (k : string) : bytes := quote (str k) ++ str ":".

Definition missing_body (path : bytes) : bytes :=
  str "{" ++ key "ok" ++ str "true," ++ key "exists" ++ str "false," ++ key "path" ++ quote path
  ++ str "," ++ key "content" ++ quote [] ++ str "}" ++ [NL].

Definition open_body (path data : bytes) : bytes :=
  str "{" ++ key "ok" ++ str "true," ++ key "exists" ++ str "true," ++ key "path" ++ quote path
  ++ str "," ++ key "bytes" ++ print_int (Z.of_nat (length data)) ++ str "," ++ key "content"
  ++ json_quote data ++ str "}" ++ [NL].

Definition api_open (target : bytes) : st web unit :=
  cwd ← gets (fun s => ws_cwd s.1);
  match (match strstr target (str "?path=") with
         | Some q => safe_path cwd (cstr (url_decode (drop 6 q)))
         | None => None
         end) with
  | None => on_snd (json_error 400 "invalid relative path")
  | Some path =>
      bad ← fails;                                   (* open *)
      if bad : bool then on_snd (json_error 400 "cannot open file")
      else
      found ← on_world (file_read path);
      match found with
      | None => on_snd (reply 200 JSON [] (missing_body path))
      | Some data =>
          bad ← fails;                               (* fstat, S_ISREG *)
          if bad : bool then on_snd (json_error 400 "not a regular file")
          else if FILE_MAX <? Z.of_nat (length data) then on_snd (json_error 413 "file exceeds 1 MiB")
          else
          bad ← fails;                               (* read *)
          if bad : bool then on_snd (json_error 500 "read failed")
          else on_snd (reply 200 JSON [] (open_body path data))
      end
  end.

Definition save_body (path : bytes) (len : nat) : bytes :=
  str "{" ++ key "ok" ++ str "true," ++ key "path" ++ quote path ++ str "," ++ key "bytes"
  ++ print_nat (Z.of_nat len) ++ str "}" ++ [NL].

(** [mkstemp]: a new empty file [<path>.wisp-<suffix>]. *)
Definition mkstemp (path : bytes) : st web (option bytes) := fun '(s, k) =>
  match ws_suffixes s with
  | [] => (None, (s, k))
  | x :: xs =>
      let temp := path ++ str ".wisp-" ++ x in
      let s := set_suffixes xs s in
      match w_fs (ws_world s) !! temp with
      | Some _ => (None, (s, k))
      | None => (Some temp, (set_world (store temp [] (ws_world s)) s, k))
      end
  end.

(** Writing the file: a new file beside it, then [rename]. *)
Definition save_file (path content : bytes) : st web unit :=
  if (PATH_MAX <=? length path + 12)%nat then on_snd (json_error 400 "path too long")
  else
  temp ← mkstemp path;
  match temp with
  | None => on_snd (json_error 400 "cannot create file (parent must exist)")
  | Some temp =>
      written ← on_world (file_write temp content);
      unsynced ← fails;
      renamed ← (if negb written || unsynced then mret false else on_world (file_rename temp path));
      if negb renamed then
        on_world (file_remove temp) ;;
        on_snd (json_error 500 "atomic save failed")
      else on_snd (reply 200 JSON [] (save_body path (length content)))
  end.

(** How a handler ends: the socket is closed, it is kept as an event stream, or
    the behaviour is undefined. *)
Inductive outcome := Done | Streaming | Undefined.

Definition api_save (body : bytes) : st web outcome :=
  cwd ← gets (fun s => ws_cwd s.1);
  garbage ← gets (fun s => stack_garbage s.1);
  let bad code := on_snd (json_error code "invalid path or content") ;; mret Done in
  match json_string body (str "path"), json_string body (str "content") with
  | Overrun, _ | _, Overrun => mret Undefined
  | _, Missing => bad (if FILE_MAX <? garbage then 413 else 400)
  | name, Found content =>
      let code := if FILE_MAX <? Z.of_nat (length content) then 413 else 400 in
      match name with
      | Found name =>
          if FILE_MAX <? Z.of_nat (length content) then bad 413
          else match safe_path cwd (cstr name) with
               | None => bad 400
               | Some path => save_file path content ;; mret Done
               end
      | _ => bad code
      end
  end.

(** ** Server-sent events *)

Definition b64tab : bytes := str "ABCDEFGHIJKLMNOPQRSTUVWXYZabcdefghijklmnopqrstuvwxyz0123456789+/".
Definition b64 (v : Z) : byte := nth (Z.to_nat (Z.land v 63)) b64tab 0.

Definition b64_group (a b c : Z) : bytes :=
  let v := Z.lor (Z.lor (Z.shiftl a 16) (Z.shiftl b 8)) c in
  [b64 (Z.shiftr v 18); b64 (Z.shiftr v 12); b64 (Z.shiftr v 6); b64 v].

(** The loop pads a short group with zero bytes. *)
Fixpoint b64_loop (input : bytes) : bytes :=
  match input with
  | a :: b :: c :: rest => b64_group a b c ++ b64_loop rest
  | [a; b] => b64_group a b 0
  | [a] => b64_group a 0 0
  | [] => []
  end.

(** The last characters are then overwritten with the padding. *)
Definition base64 (input : bytes) : bytes :=
  let out := b64_loop input in
  let n := length out in
  if (length input mod 3 =? 0)%nat then out
  else let out := <[(n - 1)%nat := 61]> out in
       if (length input mod 3 =? 1)%nat then <[(n - 2)%nat := 61]> out else out.

(** [true] is the return value 0. *)
Definition sse_send (data : bytes) : st socket bool :=
  ok ← write_all (str "event: output" ++ [NL] ++ str "data: ");
  if negb ok then mret false
  else ok ← write_all (base64 data);
       if negb ok then mret false else write_all [NL; NL].

(** The broadcast: a stream whose write fails is closed. *)
Definition broadcast (data : bytes) (l : list (option socket)) : list (option socket) :=
  map (fun slot => match slot with
                   | None => None
                   | Some k => let '(ok, k') := sse_send data k in if ok : bool then Some k' else None
                   end) l.

(** The history with a new chunk: the oldest bytes make room. *)
Definition push_history (h data : bytes) : bytes :=
  let add := length data in
  let h := if (HISTORY_MAX <? length h + add)%nat then drop (length h + add - HISTORY_MAX) h else h in
  h ++ data.

(** One turn of [pty_reader]: the terminal produced [data]. *)
Definition pty_chunk (data : bytes) (s : wisp) : wisp :=
  set_streams (broadcast data (streams s)) (set_history (push_history (history s) data) s).

Definition CLOSED_TEXT : bytes := CRLF ++ str "[wisp shell closed]" ++ CRLF.

(** The end of the shell: every stream gets a last event and is closed.  The
    result lists the closed streams. *)
Definition pty_closed (s : wisp) : list (option socket) * wisp :=
  (broadcast CLOSED_TEXT (streams s), set_streams (map (fun _ => None) (streams s)) s).

(** [pty_reader] on the chunks the terminal produces until it is closed. *)
Definition pty_reader (chunks : list bytes) (s : wisp) : wisp :=
  (pty_closed (fold_left (fun s d => pty_chunk d s) chunks s)).2.

Definition stream_head : bytes :=
  str "HTTP/1.1 200 OK" ++ CRLF ++ str "Content-Type: text/event-stream" ++ CRLF
  ++ str "Cache-Control: no-store" ++ CRLF ++ str "X-Accel-Buffering: no" ++ CRLF
  ++ str "Connection: keep-alive" ++ CRLF ++ CRLF.

Fixpoint free_slot (l : list (option socket)) : option nat :=
  match l with
  | [] => None
  | None :: _ => Some 0%nat
  | Some _ :: l' => match free_slot l' with Some i => Some (S i) | None => None end
  end.

(** The client's socket moves into the first free slot. *)
Definition start_stream : st web outcome :=
  ok ← on_snd (write_all stream_head);
  if negb ok then mret Streaming                     (* neither kept nor closed *)
  else
  slot ← gets (fun s => free_slot (streams s.1));
  match slot with
  | None => mret Done
  | Some i =>
      h ← gets (fun s => history s.1);
      on_snd (if (0 <? length h)%nat then sse_send h ;; mret tt else mret tt) ;;
      modify (fun '(s, k) => (set_streams (<[i := Some k]> (streams s)) s, k)) ;;
      mret Streaming
  end.

(** ** Requests *)

(** [write_all(pty_fd, d)]. *)
Definition write_pty (d : bytes) : st web bool :=
  bad ← fails;
  if bad : bool then mret false
  else modify (fun '(s, k) => (set_pty (pty_out s ++ d) s, k)) ;; mret true.

Definition SIGINT : Z := 2.
Definition SIGTERM : Z := 15.

Definition yes_reply : st web outcome := on_snd (reply 200 (str "application/json") [] YES) ;; mret Done.
Definition error_reply (code : Z) (message : string) : st web outcome :=
  on_snd (json_error code message) ;; mret Done.

Definition login (body : bytes) : st web outcome :=
  pw ← gets (fun s => password s.1);
  ses ← gets (fun s => session s.1);
  match json_string body (str "password") with
  | Overrun => mret Undefined
  | Found given =>
      if bytes_eqb (cstr given) pw then
        on_snd (reply 200 (str "application/json")
                  (snprintf 256 (str "Set-Cookie: wisp_session=" ++ ses
                                 ++ str "; HttpOnly; SameSite=Strict; Path=/" ++ CRLF)) YES) ;;
        mret Done
      else error_reply 401 "incorrect password"
  | Missing => error_reply 401 "incorrect password"
  end.

Definition api_cwd : st web outcome :=
  cwd ← gets (fun s => ws_cwd s.1);
  match cwd with
  | None => error_reply 500 "shell unavailable"
  | Some cwd => on_snd (reply 200 (str "application/json") []
                          (str "{" ++ key "cwd" ++ quote cwd ++ str "}" ++ [NL])) ;; mret Done
  end.

Definition api_run (body : bytes) : st web outcome :=
  match json_string body (str "cmd") with
  | Overrun => mret Undefined
  | Missing => error_reply 400 "cmd required"
  | Found cmd =>
      ok ← write_pty cmd;
      ok ← (if ok : bool then write_pty [NL] else mret false);
      if negb ok then error_reply 500 "shell write failed" else yes_reply
  end.

Definition signal_number (sig : json_result) : Z :=
  match sig with
  | Found s => if bytes_eqb (cstr s) (str "INT") then SIGINT
               else if bytes_eqb (cstr s) (str "TERM") then SIGTERM else 0
  | _ => 0
  end.

Definition api_signal (body : bytes) : st web outcome :=
  let sig := json_string body (str "signal") in
  match sig with
  | Overrun => mret Undefined
  | _ =>
      let signo := signal_number sig in
      if signo =? 0 then error_reply 400 "signal must be INT or TERM"
      else
      pg ← gets (fun s => if ws_pgrp s.1 <? 0 then shell_pid s.1 else ws_pgrp s.1);
      bad ← fails;
      if bad : bool then error_reply 500 "signal failed"
      else modify (fun '(s, k) => (add_kill (- pg, signo) s, k)) ;; yes_reply
  end.

(** [sscanf(req, "%7s %2047s", method, target) == 2]. *)
Definition scan_request_line (req : bytes) : option (bytes * bytes) :=
  match scan_word 7 req with
  | None => None
  | Some (method, r) => match scan_word (Z.to_nat 2047) r with
                        | None => None
                        | Some (target, _) => Some (method, target)
                        end
  end.

(** The routes behind the session cookie. *)
Definition authenticated_routes (method target body : bytes) : st web outcome :=
  let at_ m t := bytes_eqb method (str m) && bytes_eqb target (str t) in
  if at_ "GET"%string "/events"%string then start_stream
  else if at_ "GET"%string "/api/cwd"%string then api_cwd
  else if bytes_eqb method (str "GET") && starts_with (str "/api/file?path=") target
  then api_open target ;; mret Done
  else if at_ "PUT"%string "/api/file"%string then api_save body
  else if at_ "POST"%string "/api/run"%string then api_run body
  else if at_ "POST"%string "/api/signal"%string then api_signal body
  else error_reply 404 "not found".

(** A request that has been read. *)
Definition answer (req : bytes) (hlen : nat) : st web outcome :=
  match scan_request_line (cstr req) with
  | None => error_reply 400 "malformed request"
  | Some (method, target) =>
      let body := cstr (drop hlen req) in
      if bytes_eqb method (str "GET") && bytes_eqb target (str "/") then
        serve_file (str "index.html") (str "text/html; charset=utf-8") ;; mret Done
      else if bytes_eqb method (str "POST") && bytes_eqb target (str "/api/login") then login body
      else
      ses ← gets (fun s => session s.1);
      if negb (authenticated ses (cstr req)) then error_reply 401 "authentication required"
      else authenticated_routes method target body
  end.

Definition client_thread : st web outcome :=
  r ← on_snd read_request;
  match r with
  | Failed => mret Done
  | TooLarge => error_reply 413 "request too large"
  | Request req hlen _ => answer req hlen
  end.

(** ** [main] *)

Record options := Options { host : bytes; port : Z; dir : bytes }.

(** The argument loop; [None] is the usage error. *)
Fixpoint parse_options (args : list bytes) (o : options) : option options :=
  match args with
  | [] => Some o
  | [_] => None
  | flag :: value :: rest =>
      if bytes_eqb flag (str "--host") then parse_options rest (Options value (port o) (dir o))
      else if bytes_eqb flag (str "--port") then parse_options rest (Options (host o) (atoi value) (dir o))
      else if bytes_eqb flag (str "--web-dir") then parse_options rest (Options (host o) (port o) value)
      else None
  end.

(** [random_hex(session, 32)]. *)
Definition random_hex : st world (option bytes) :=
  raw ← urandom 32;
  mret (match raw with Some b => Some (hex_encode b) | None => None end).

(** The settings up to the session; the exit status on failure. *)
Definition start (args : list bytes) (wisp_password : option bytes)
  : st world (Z + (options * bytes * bytes)) :=
  match parse_options args (Options (str "127.0.0.1") 8080 (str ".")) with
  | None => mret (inl 2)
  | Some o =>
      match wisp_password with
      | None => mret (inl 2)
      | Some pw =>
          if (length pw <? 4)%nat then mret (inl 2)
          else ses ← random_hex;
               mret (match ses with Some ses => inr (o, pw, ses) | None => inl 1 end)
      end
  end.
End Wisp.
