(* ===== verification/WispFacts.v ===== *)
(** * The web shell: confinement, sessions, editing and history *)
From S2P Require Import Prelude CLib World Network WispServer.

Open Scope Z_scope.

Module WispFacts.
Import Wisp.

(** ** Paths stay under the working directory *)

(** The components of a path. *)
Fixpoint split_on (c : byte) (s : bytes) : list bytes :=
  match s with
  | [] => [[]]
  | x :: s' => if x =? c then [] :: split_on c s'
               else match split_on c s' with [] => [[x]] | h :: t => (x :: h) :: t end
  end.

(** A relative path that never goes up. *)
Definition confined (name : bytes) : Prop :=
  name <> [] /\ peek name <> SLASH /\ (str ".." ∉ split_on SLASH name).

#[global] Instance confined_dec name : Decision (confined name).
Proof. unfold confined. apply _. Defined.

Lemma split_on_prefix c a b :
  Forall (fun x => (c =? x) = false) a ->
  split_on c (a ++ c :: b) = a :: split_on c b /\ split_on c a = [a].
Proof.
  induction 1 as [|x a Hx Ha [IH1 IH2]]; cbn.
  - rewrite Z.eqb_refl. done.
  - rewrite Z.eqb_sym, Hx, IH1, IH2. done.
Qed.

(** Leading slashes only add empty components. *)
Lemma split_on_slashes c p :
  str ".." ∈ split_on c p -> str ".." ∈ split_on c (span (fun x => negb (x =? c)) p).2.
Proof.
  induction p as [|x p IH]; [done|]. cbn [split_on span]. destruct (Z.eqb_spec x c) as [->|Hx]; cbn [negb].
  - intros H. apply elem_of_cons in H as [H|H]; [done|].
    specialize (IH H). destruct (span _ p). exact IH.
  - cbn [snd split_on]. destruct (Z.eqb_spec x c); [done|]. done.
Qed.

Lemma components_ok_confined fuel p :
  components_ok fuel p = true -> str ".." ∉ split_on SLASH p.
Proof.
  revert p; induction fuel as [|f IH]; intros p.
  { destruct p; [intros _; apply (bool_decide_unpack _); vm_compute; reflexivity|done]. }
  destruct p as [|x p]; [intros _; apply (bool_decide_unpack _); vm_compute; reflexivity|].
  cbn [components_ok]. intros H Hin. apply split_on_slashes in Hin. revert H Hin.
  generalize ((span (fun c => negb (c =? SLASH)) (x :: p)).2). clear x p. intros p.
  pose proof (span_fst_Forall (Z.eqb SLASH) p) as Hf. pose proof (span_app (Z.eqb SLASH) p) as Hp.
  pose proof (span_snd_head (Z.eqb SLASH) p) as Hs.
  destruct (span (Z.eqb SLASH) p) as [comp q]. cbn [fst snd] in *. subst p.
  destruct (_ || _) eqn:E; [done|]. to_prop. intros Hq Hin.
  destruct q as [|y q].
  - rewrite app_nil_r in Hin. rewrite (proj2 (split_on_prefix SLASH comp [] Hf)) in Hin.
    apply list_elem_of_singleton in Hin. congruence.
  - specialize (Hs y q eq_refl). apply Z.eqb_eq in Hs. subst y.
    rewrite (proj1 (split_on_prefix SLASH comp q Hf)) in Hin. apply elem_of_cons in Hin as [Hin|Hin]; [congruence|].
    apply (IH _ Hq). cbn [split_on]. rewrite Z.eqb_refl. by right.
Qed.

Lemma safe_path_confined cwd name path :
  safe_path cwd name = Some path ->
  exists d, cwd = Some d /\ path = d ++ SLASH :: name /\ confined name /\ (length path < PATH_MAX)%nat.
Proof.
  unfold safe_path. destruct (_ || _) eqn:E; [done|]. to_prop. destruct cwd as [d|]; [|done].
  destruct (components_ok _ _) eqn:Ec; cbn [negb]; [|done]. destruct (Nat.leb_spec PATH_MAX (length (d ++ SLASH :: name))); [done|].
  intros [= <-]. exists d. split_and!; [done|done| |done].
  split_and!; [by intros ->|done|by eapply components_ok_confined].
Qed.

(** ** Saving is atomic *)

Definition fs (s : wisp) : gmap bytes bytes := w_fs (ws_world s).

(** What a request can do to the shell and the files. *)
Definition visible (s : wisp) := (fs s, pty_out s, streams s, kills s).

Lemma on_snd_server {A} (m : st socket A) (x : web) : (on_snd m x).2.1 = x.1.
Proof. by rewrite on_snd_run. Qed.

Lemma json_error_server code msg (x : web) : (on_snd (json_error code msg) x).2.1 = x.1.
Proof. apply on_snd_server. Qed.

Lemma on_world_fst {A} (m : st world A) s k :
  on_world m (s, k) = ((m (ws_world s)).1, (set_world (m (ws_world s)).2 s, k)).
Proof. unfold on_world. by destruct (m (ws_world s)). Qed.

Lemma fails_run s k :
  exists w, fails (s, k) = ((fault (ws_world s)).1, (set_world w s, k)) /\ w_fs w = fs s /\ w_kept w = w_kept (ws_world s).
Proof. eexists. unfold fails. rewrite on_world_fst. split_and!; [done|apply fault_fs|apply fault_kept]. Qed.

(** What is left of the temporary file: nothing, unless it cannot be removed. *)
Lemma save_file_cases (P : gmap bytes bytes -> Prop) path content s k :
  P (fs s) -> P (<[path := content]> (fs s)) ->
  (forall x part, hd false (w_kept (ws_world s)) = true -> fs s !! (path ++ str ".wisp-" ++ x) = None ->
     P (<[path ++ str ".wisp-" ++ x := part]> (fs s))) ->
  P (fs (save_file path content (s, k)).2.1).
Proof.
  intros Hold Hnew Hleft.
  unfold save_file. destruct (PATH_MAX <=? _)%nat; [by rewrite on_snd_server|].
  rewrite st_bind_run. unfold mkstemp at 1 2. destruct (ws_suffixes s) as [|x xs]; cbn [fst snd];
    [by rewrite on_snd_server|].
  set (temp := path ++ str ".wisp-" ++ x). cbn [ws_world set_suffixes].
  destruct (w_fs (ws_world s) !! temp) eqn:Et; cbn [fst snd]; [by rewrite on_snd_server|].
  set (s1 := set_world _ _). rewrite st_bind_run, on_world_fst. cbn [fst snd].
  pose proof (file_write_fs temp content (ws_world s1)) as Hw. pose proof (file_write_kept temp content (ws_world s1)) as Hk.
  destruct (file_write temp content (ws_world s1)) as [written w1]. cbn [fst snd] in Hk |- *.
  assert (Hw1 : w_fs w1 = <[temp := if written then content else []]> (fs s)).
  { rewrite Hw. unfold s1. cbn [ws_world set_world set_suffixes store w_fs].
    destruct written; [|done]. rewrite lookup_insert_eq, insert_insert_eq. done. }
  assert (Hgone : forall w3 part, w_fs w3 = <[temp := part]> (fs s) -> w_kept w3 = w_kept (ws_world s) -> P (w_fs (file_remove temp w3).2)).
  { intros w3 part E3 K3. pose proof (file_remove_fs temp w3) as Hr. destruct (file_remove temp w3) as [b w4]. destruct Hr as (-> & Hr & _). cbn [snd].
    rewrite Hr, E3, K3. destruct (hd false (w_kept (ws_world s))) eqn:Eh; cbn [negb]; [by apply Hleft|by rewrite delete_insert_id]. }
  clear Hw. rewrite st_bind_run. destruct (fails_run (set_world w1 s1) k) as (w2 & -> & Hw2 & Hk2).
  cbn [fst snd]. unfold fs in Hw2. cbn [ws_world set_world] in Hw2, Hk2. rewrite Hk in Hk2. rewrite st_bind_run.
  destruct (negb written || (fault w1).1) eqn:E; cbn [ws_world set_world].
  - rewrite E. cbn [mret st_ret fst snd negb]. rewrite st_bind_run, on_snd_server, on_world_fst. unfold fs.
    cbn [ws_world set_world fst]. eapply Hgone; [by rewrite Hw2, Hw1|done].
  - rewrite E. apply orb_false_iff in E as [E _]. destruct written; [|done].
    rewrite on_world_fst. cbn [fst snd ws_world set_world].
    pose proof (file_rename_fs temp path w2) as Hr. pose proof (file_rename_kept temp path w2) as Hkr.
    destruct (file_rename temp path w2) as [renamed w3]. cbn [fst snd] in Hkr |- *. destruct renamed; cbn [negb].
    + rewrite on_snd_server. unfold fs. cbn [fst ws_world set_world].
      destruct Hr as (c & Hc & ->). rewrite Hw2, Hw1, lookup_insert_eq in Hc. injection Hc as <-.
      rewrite Hw2, Hw1. by rewrite delete_insert_id.
    + rewrite st_bind_run, on_snd_server, on_world_fst. unfold fs.
      cbn [ws_world set_world fst]. eapply Hgone; [by rewrite Hr, Hw2, Hw1|by rewrite Hkr].
Qed.

(** ** Commands that leave the files, or everything visible, alone *)

Section same.
Context {T : Type} (view : wisp -> T).

Definition same {A} (m : st web A) : Prop := forall x, view (m x).2.1 = view x.1.

Lemma same_ret {A} (a : A) : same (mret a).
Proof. by intros x. Qed.
Lemma same_gets {A} (f : web -> A) : same (gets f).
Proof. by intros x. Qed.
Lemma same_on_snd {A} (m : st socket A) : same (on_snd m).
Proof. intros x. by rewrite on_snd_server. Qed.
Lemma same_bind {A B} (m : st web A) (f : A -> st web B) :
  same m -> (forall a, same (f a)) -> same (m ≫= f).
Proof. intros Hm Hf x. rewrite st_bind_run, Hf. apply Hm. Qed.
End same.

Lemma same_fs_fails : same fs fails.
Proof. intros [s k]. by destruct (fails_run s k) as (w & -> & H & _). Qed.
Lemma same_fs_read path : same fs (on_world (file_read path)).
Proof. intros [s k]. by rewrite on_world_fst. Qed.
Lemma same_visible_fails : same visible fails.
Proof.
  intros [s k]. destruct (fails_run s k) as (w & -> & H & _). unfold visible. cbn [fst snd]. unfold fs at 1.
  cbn [ws_world set_world]. by rewrite H.
Qed.
Lemma same_visible_read path : same visible (on_world (file_read path)).
Proof. intros [s k]. by rewrite on_world_fst. Qed.

#[local] Hint Resolve same_ret same_gets same_on_snd same_fs_fails same_fs_read
  same_visible_fails same_visible_read : noobia.

Ltac same_step :=
  match goal with
  | |- same _ (_ ≫= _) => apply same_bind; [|intros ?]
  | |- same _ (if _ then _ else _) => case_match
  | |- same _ (match ?x with _ => _ end) => destruct x
  | |- same _ (modify _) => by intros [? ?]
  | |- same _ _ => solve [auto with noobia]
  end.
Ltac same_auto := repeat same_step.

Lemma error_reply_same {T} (view : wisp -> T) code msg : same view (error_reply code msg).
Proof. unfold error_reply. same_auto. Qed.
Lemma yes_reply_same {T} (view : wisp -> T) : same view yes_reply.
Proof. unfold yes_reply. same_auto. Qed.
#[local] Hint Resolve error_reply_same yes_reply_same : noobia.

Lemma serve_file_same name type : same visible (serve_file name type).
Proof. unfold serve_file. same_auto. Qed.

Lemma login_same body : same visible (login body).
Proof. unfold login. same_auto. Qed.

Lemma start_stream_same : same fs start_stream.
Proof. unfold start_stream. same_auto. Qed.

Lemma api_open_same target : same fs (api_open target).
Proof. unfold api_open. same_auto. Qed.

Lemma api_cwd_same : same fs api_cwd.
Proof. unfold api_cwd. same_auto. Qed.

Lemma api_run_same body : same fs (api_run body).
Proof. unfold api_run, write_pty. same_auto. Qed.

Lemma api_signal_same body : same fs (api_signal body).
Proof. unfold api_signal. same_auto. Qed.
#[local] Hint Resolve serve_file_same login_same start_stream_same api_open_same api_cwd_same
  api_run_same api_signal_same : noobia.

(** The files after a save: one file replaced whole, below the working directory, or a
    new file beside it that could not be removed. *)
Definition edited (s : wisp) (files : gmap bytes bytes) : Prop :=
  files = fs s \/
  exists d name, ws_cwd s = Some d /\ confined name
    /\ let path := d ++ SLASH :: name in
       (exists content, files = <[path := content]> (fs s))
       \/ (hd false (w_kept (ws_world s)) = true
           /\ exists x part, fs s !! (path ++ str ".wisp-" ++ x) = None /\ files = <[path ++ str ".wisp-" ++ x := part]> (fs s)).

(** What else is visible. *)
Definition shell (s : wisp) := (pty_out s, streams s, kills s).

Lemma visible_parts s s' : fs s' = fs s -> shell s' = shell s -> visible s' = visible s.
Proof. unfold shell, visible. intros -> [= -> -> ->]. done. Qed.

Lemma same_shell_world {A} (m : st world A) : same shell (on_world m).
Proof. intros [s k]. by rewrite on_world_fst. Qed.
#[local] Hint Resolve same_shell_world : noobia.

Lemma same_shell_fails : same shell fails.
Proof. apply same_shell_world. Qed.
#[local] Hint Resolve same_shell_fails : noobia.

Lemma mkstemp_shell path : same shell (mkstemp path).
Proof. intros [s k]. unfold mkstemp. destruct (ws_suffixes s) as [|x xs]; [done|]. cbn zeta. by destruct (w_fs _ !! _). Qed.
#[local] Hint Resolve mkstemp_shell : noobia.

Lemma save_file_shell path content : same shell (save_file path content).
Proof. unfold save_file. same_auto. Qed.
#[local] Hint Resolve save_file_shell : noobia.

Lemma api_save_shell body : same shell (api_save body).
Proof. unfold api_save. same_auto. Qed.

(** What a request with the session cookie does: it edits a file, it types into the
    shell, it sends one of two signals to the group in the foreground, or it becomes an
    event stream; each leaves the rest alone. *)
Definition one_effect (s s' : wisp) : Prop :=
  (edited s (fs s') /\ shell s' = shell s)
  \/ (fs s' = fs s /\ exists cmd, pty_out s' ∈ [pty_out s ++ cmd; pty_out s ++ cmd ++ [NL]] /\ streams s' = streams s /\ kills s' = kills s)
  \/ (fs s' = fs s /\ pty_out s' = pty_out s /\ streams s' = streams s
      /\ exists signo, signo ∈ [SIGINT; SIGTERM] /\ kills s' = kills s ++ [(- (if ws_pgrp s <? 0 then shell_pid s else ws_pgrp s), signo)])
  \/ (fs s' = fs s /\ pty_out s' = pty_out s /\ kills s' = kills s
      /\ exists i k, free_slot (streams s) = Some i /\ streams s' = <[i := Some k]> (streams s)).

Lemma api_save_edited body s k : edited s (fs (api_save body (s, k)).2.1).
Proof.
  unfold api_save. rewrite !st_bind_run. cbn [gets fst snd].
  assert (Hbad : forall code, edited s (fs ((on_snd (json_error code "invalid path or content") ;; mret Done) (s, k) : outcome * web).2.1)).
  { intros code. left. rewrite st_bind_run. cbn [mret st_ret snd]. by rewrite on_snd_server. }
  destruct (json_string body (str "path")) as [name| |]; [| |by left];
    destruct (json_string body (str "content")) as [content| |]; try apply Hbad; try (by left).
  destruct (FILE_MAX <? _); [apply Hbad|].
  destruct (safe_path (ws_cwd s) (cstr name)) as [path|] eqn:E; [|apply Hbad].
  apply safe_path_confined in E as (d & Hd & -> & Hc & _). rewrite st_bind_run. cbn [mret st_ret snd].
  apply save_file_cases; [by left|..].
  - right. exists d, (cstr name). split_and!; [done|done|]. left. by exists content.
  - intros x part Hk Hx. right. exists d, (cstr name). split_and!; [done|done|]. right. split; [done|]. by exists x, part.
Qed.

(** Writing to the shell. *)
Lemma write_pty_run d s k :
  exists w, write_pty d (s, k) = (negb (fault (ws_world s)).1, (set_pty (if (fault (ws_world s)).1 then pty_out s else pty_out s ++ d) (set_world w s), k)) /\ w_fs w = fs s.
Proof.
  unfold write_pty. rewrite st_bind_run. destruct (fails_run s k) as (w & -> & H & _). exists w. split; [|done]. cbn [fst snd].
  by destruct (fault (ws_world s)).1, s.
Qed.

Lemma api_run_effect body s k : one_effect s (api_run body (s, k)).2.1.
Proof.
  assert (Hno : forall s', fs s' = fs s -> shell s' = shell s -> one_effect s s') by (intros s' E1 E2; left; split; [by left|done]).
  unfold api_run. destruct (json_string body (str "cmd")) as [cmd| |]; [|by apply Hno; apply (error_reply_same _ 400 "cmd required" (s, k))|by apply Hno].
  rewrite st_bind_run. destruct (write_pty_run cmd s k) as (w1 & -> & H1). cbn [fst snd].
  rewrite st_bind_run. destruct (fault (ws_world s)).1; cbn [negb mret st_ret fst snd].
  - apply Hno; rewrite (error_reply_same _ 500 "shell write failed"); cbn [fst]; [exact H1|done].
  - set (s1 := set_pty _ _). destruct (write_pty_run [NL] s1 k) as (w2 & -> & H2). cbn [fst snd negb].
    assert (V : fs s1 = fs s) by exact H1.
    right. left. destruct (fault (ws_world s1)).1; cbn [negb].
    + rewrite (error_reply_same fs), (error_reply_same pty_out), (error_reply_same streams), (error_reply_same kills). cbn [fst].
      split; [exact (eq_trans H2 V)|]. exists cmd. split_and!; [|done|done]. cbn. rewrite list_elem_of_In. by left.
    + rewrite (yes_reply_same fs), (yes_reply_same pty_out), (yes_reply_same streams), (yes_reply_same kills). cbn [fst].
      split; [exact (eq_trans H2 V)|]. exists cmd. split_and!; [|done|done]. rewrite list_elem_of_In. right. left. cbn. by rewrite <- app_assoc.
Qed.

Lemma signal_number_known sig : signal_number sig <> 0 -> signal_number sig ∈ [SIGINT; SIGTERM].
Proof. unfold signal_number. destruct sig; try done. do 2 (destruct (bytes_eqb _ _); [intros _; rewrite list_elem_of_In; cbn; tauto|]). done. Qed.

Lemma api_signal_effect body s k : one_effect s (api_signal body (s, k)).2.1.
Proof.
  assert (Hno : forall s', fs s' = fs s -> shell s' = shell s -> one_effect s s') by (intros s' E1 E2; left; split; [by left|done]).
  unfold api_signal. destruct (json_string body (str "signal")) eqn:Es; [| |by apply Hno].
  all: destruct (signal_number _ =? 0) eqn:E; [by apply Hno; apply (error_reply_same _ 400 "signal must be INT or TERM" (s, k))|].
  all: apply Z.eqb_neq, signal_number_known in E; rewrite st_bind_run; cbn [gets fst snd]; rewrite st_bind_run.
  all: destruct (fails_run s k) as (w & -> & H & _); cbn [fst snd]; destruct (fault (ws_world s)).1; [apply Hno; rewrite (error_reply_same _ 500 "signal failed"); [exact H|done]|].
  all: rewrite st_bind_run; cbn [modify fst snd]; right; right; left.
  all: rewrite (yes_reply_same fs), (yes_reply_same pty_out), (yes_reply_same streams), (yes_reply_same kills); cbn [fst].
  all: split_and!; [exact H|done|done|]; eexists; split; [exact E|done].
Qed.

Lemma start_stream_effect s k : one_effect s (start_stream (s, k)).2.1.
Proof.
  assert (Hno : forall s', s' = s -> one_effect s s') by (intros s' ->; left; split; [by left|done]).
  unfold start_stream. rewrite st_bind_run, on_snd_run. cbn [fst snd]. destruct (negb _); [by apply Hno|].
  rewrite st_bind_run. cbn [gets fst snd]. destruct (free_slot (streams s)) as [i|] eqn:E; [|by apply Hno].
  rewrite st_bind_run. cbn [gets fst snd]. rewrite st_bind_run, on_snd_run. cbn [fst snd]. rewrite st_bind_run.
  right. right. right. split_and!; [done|done|done|]. eexists i, _. split; [done|]. cbn. reflexivity.
Qed.

Lemma api_cwd_effect : same visible api_cwd.
Proof. unfold api_cwd. same_auto. Qed.
Lemma api_open_effect target : same visible (api_open target).
Proof. unfold api_open. same_auto. Qed.
#[local] Hint Resolve api_cwd_effect api_open_effect : noobia.

Lemma authenticated_routes_effect method target body s k :
  one_effect s (authenticated_routes method target body (s, k)).2.1.
Proof.
  assert (Hsame : forall A (m : st web A), same visible m -> one_effect s (m (s, k)).2.1).
  { intros A m Hm. specialize (Hm (s, k)). cbn [fst] in Hm. injection Hm as H1 H2 H3 H4. left. split; [by left|]. unfold shell. by rewrite H2, H3, H4. }
  unfold authenticated_routes.
  repeat match goal with |- context [if ?b then _ else _] => destruct b end.
  all: first [apply start_stream_effect|apply api_run_effect|apply api_signal_effect
             |left; split; [apply api_save_edited|apply api_save_shell]|apply Hsame; same_auto].
Qed.

(** ** Undefined behaviour *)

Lemma json_decode_overrun fuel p out : json_decode fuel p out = Overrun -> BACKSLASH ∈ p.
Proof.
  revert p out. induction fuel as [|f IH]; intros [|c p] out; cbn [json_decode]; try done.
  destruct (c =? DQ); [done|]. destruct (Z.eqb_spec c BACKSLASH) as [->|]; [intros _; apply elem_of_cons; by left|].
  intros H. apply elem_of_cons. right. by eapply IH.
Qed.

Lemma skip_space_suffix p : exists a, p = a ++ skip_space p.
Proof. eexists. symmetry. apply span_app. Qed.

(** Only a text with a backslash makes the reader leave it. *)
Lemma json_overrun_backslash json key : json_string json key = Overrun -> BACKSLASH ∈ json.
Proof.
  unfold json_string. destruct (strstr json (quote key)) as [p|] eqn:E; [|done]. apply strstr_Some in E as (a & b & -> & ->).
  rewrite drop_app_length. destruct (skip_space_suffix b) as [a1 E1]. set (p1 := skip_space b) in *.
  destruct (negb (peek p1 =? 58)); [done|]. destruct (skip_space_suffix (drop 1 p1)) as [a2 E2]. set (p2 := skip_space (drop 1 p1)) in *.
  destruct (negb (peek p2 =? DQ)); [done|]. intros H. apply json_decode_overrun in H.
  assert (D : forall (q : bytes), BACKSLASH ∈ drop 1 q -> BACKSLASH ∈ q) by (intros q Hq; rewrite <- (take_drop 1 q), elem_of_app; by right).
  rewrite !elem_of_app. right. right. rewrite E1, elem_of_app. right. apply D. rewrite E2, elem_of_app. right. by apply D.
Qed.

(** A handler that ends undefined only for a text with a backslash. *)
Definition defined_unless (body : bytes) (m : st web outcome) : Prop := forall x, (m x).1 = Undefined -> BACKSLASH ∈ body.

Lemma defined_error body code msg : defined_unless body (error_reply code msg).
Proof. intros x. unfold error_reply. by rewrite st_bind_run. Qed.
Lemma defined_done {A} body (m : st web A) : defined_unless body (m ;; mret Done).
Proof. intros x. by rewrite st_bind_run. Qed.
Lemma defined_bind {A} body (m : st web A) (f : A -> st web outcome) : (forall a, defined_unless body (f a)) -> defined_unless body (m ≫= f).
Proof. intros H x. rewrite st_bind_run. apply H. Qed.

Lemma login_defined body : defined_unless body (login body).
Proof.
  unfold login. do 2 (apply defined_bind; intros ?). destruct (json_string body _) eqn:E; [|apply defined_error|intros x _; by eapply json_overrun_backslash].
  destruct (bytes_eqb _ _); [apply defined_done|apply defined_error].
Qed.

Lemma routes_defined method target body : defined_unless body (authenticated_routes method target body).
Proof.
  unfold authenticated_routes. repeat match goal with |- context [if ?b then _ else _] => destruct b end; try apply defined_error; try apply defined_done.
  - unfold start_stream. apply defined_bind. intros []; cbn [negb]; [|by intros x]. apply defined_bind. intros [i|]; [|by intros x]. do 3 (apply defined_bind; intros ?). by intros x.
  - unfold api_cwd. apply defined_bind. intros [c|]; [apply defined_done|apply defined_error].
  - unfold api_save. do 2 (apply defined_bind; intros ?).
    destruct (json_string body (str "path")) eqn:E1; destruct (json_string body (str "content")) eqn:E2.
    all: try (intros x _; by eapply json_overrun_backslash). all: try apply defined_done.
    destruct (FILE_MAX <? _); [apply defined_done|]. destruct (safe_path _ _); apply defined_done.
  - unfold api_run. destruct (json_string body _) eqn:E; [|apply defined_error|intros x _; by eapply json_overrun_backslash].
    do 2 (apply defined_bind; intros ?). case_match; [apply defined_error|apply defined_done].
  - unfold api_signal. destruct (json_string body _) eqn:E; [| |intros x _; by eapply json_overrun_backslash].
    all: destruct (signal_number _ =? 0); [apply defined_error|]; do 2 (apply defined_bind; intros ?); case_match; [apply defined_error|].
    all: apply defined_bind; intros ?; apply defined_done.
Qed.

(** ** The session cookie *)

Lemma strstr_suffix s n r : strstr s n = Some r -> exists a, s = a ++ r.
Proof. intros H. apply strstr_Some in H as (a & b & -> & _). by exists a. Qed.

Lemma cookie_loop_contains fuel ses p rest :
  cookie_loop fuel ses p rest = true -> exists a b, p = a ++ NEEDLE ++ ses ++ b.
Proof.
  revert p; induction fuel as [|f IH]; intros p; [done|]. cbn [cookie_loop].
  destruct (strstr p NEEDLE) as [q|] eqn:E; [|done]. destruct (_ <=? rest)%nat; [done|].
  apply strstr_Some in E as (a & b & -> & ->). rewrite drop_app_length.
  destruct (starts_with ses b) eqn:Es; cbn [andb].
  - apply starts_with_spec in Es as [t ->]. intros _. by exists a, t.
  - intros H. apply IH in H as (a' & b' & ->). exists (a ++ NEEDLE ++ a'), b'. by rewrite <- !app_assoc.
Qed.

Lemma skip_blanks_suffix p : exists a, p = a ++ skip_blanks p.
Proof.
  induction p as [|c p [a IH]]; [by exists []|]. cbn. destruct (_ || _).
  - exists (c :: a). cbn. by rewrite <- IH.
  - by exists [].
Qed.

Lemma header_lines_suffix fuel name p r :
  header_lines fuel name p = Some r -> exists a, p = a ++ r.
Proof.
  revert p; induction fuel as [|f IH]; intros p; [done|]. cbn [header_lines].
  destruct (_ || _); [done|]. destruct (strstr p CRLF) as [rest|] eqn:E; [|done].
  destruct (_ && _).
  - intros [= <-]. destruct (skip_blanks_suffix (drop (S (length name)) p)) as [a Ha].
    exists (take (S (length name)) p ++ a). by rewrite <- app_assoc, <- Ha, take_drop.
  - intros H. apply IH in H as [a Ha]. apply strstr_suffix in E as [b Eb].
    exists (b ++ take 2 rest ++ a). by rewrite <- !app_assoc, <- Ha, take_drop.
Qed.

Lemma header_value_suffix req name r : header_value req name = Some r -> exists a, req = a ++ r.
Proof.
  unfold header_value. destruct (strstr req CRLF) as [q|] eqn:E; [|done].
  apply strstr_suffix in E as [b Eb]. intros H. apply header_lines_suffix in H as [a Ha].
  exists (b ++ take 2 q ++ a). by rewrite <- !app_assoc, <- Ha, take_drop.
Qed.

Lemma authenticated_contains ses req :
  authenticated ses req = true -> contains req (NEEDLE ++ ses) = true.
Proof.
  unfold authenticated. destruct (header_value req (str "Cookie")) as [p|] eqn:E; [|done].
  intros H. apply cookie_loop_contains in H as (a & b & ->). apply header_value_suffix in E as [c ->].
  apply contains_spec. exists (c ++ a), b. by rewrite <- !app_assoc.
Qed.

(** ** Properties *)

(** C8: whatever a client sends and whichever system calls fail, a connection whose
    behaviour is defined leaves the files, the shell's input, the signals and the event
    streams exactly as they were unless the request carried the session's cookie.
    With the cookie it has one effect: it replaces one file whole, whose path is the
    shell's working directory followed by a relative path without [..] (and if that
    fails may leave its temporary file there when this cannot be removed), or it types
    into the shell, or it sends one interrupt or termination signal, or it becomes an
    event stream.  Only a request with a backslash in its body can be undefined. *)
Theorem client_thread_confined (s : wisp) (k : socket) :
  let '(o, (s', _)) := client_thread (s, k) in
  match o with
  | Undefined => exists req hlen blen k1, read_request k = (Request req hlen blen, k1) /\ BACKSLASH ∈ cstr (drop hlen req)
  | _ =>
      visible s' = visible s \/
      exists req hlen blen k1,
        read_request k = (Request req hlen blen, k1)
        /\ contains (cstr req) (str "wisp_session=" ++ session s) = true
        /\ one_effect s s'
  end.
Proof.
  rewrite (surjective_pairing (client_thread (s, k))), (surjective_pairing (client_thread (s, k)).2).
  unfold client_thread. rewrite bind_on_snd.
  destruct (read_request k) as [r k1] eqn:Er. cbn [fst snd]. destruct r as [| |req hlen blen].
  - by left.
  - destruct (error_reply 413 "request too large" (s, k1)).1 eqn:E; [left..|by apply (defined_error [] _ _ _) in E; apply elem_of_nil in E].
    all: apply (error_reply_same visible 413 "request too large" (s, k1)).
  - assert (Hd : defined_unless (cstr (drop hlen req)) (answer req hlen)).
    { unfold answer. destruct (scan_request_line _) as [[method target]|]; [|apply defined_error].
      destruct (_ && _); [apply defined_done|]. destruct (_ && _); [apply login_defined|].
      apply defined_bind. intros ses. destruct (negb _); [apply defined_error|apply routes_defined]. }
    destruct (answer req hlen (s, k1)).1 eqn:Eo; [| |exists req, hlen, blen, k1; split; [done|by apply (Hd _ Eo)]].
    all: clear Hd Eo; unfold answer; destruct (scan_request_line (cstr req)) as [[method target]|];
      [|left; apply (error_reply_same visible 400 "malformed request" (s, k1))].
    all: destruct (_ && _); [left; rewrite st_bind_run; cbn [mret st_ret snd];
      apply (serve_file_same (str "index.html") (str "text/html; charset=utf-8") (s, k1))|].
    all: destruct (_ && _); [left; apply (login_same (cstr (drop hlen req)) (s, k1))|].
    all: rewrite st_bind_run; cbn [gets fst snd].
    all: destruct (authenticated (session s) (cstr req)) eqn:Ea; cbn [negb];
      [|left; apply (error_reply_same visible 401 "authentication required" (s, k1))].
    all: right; exists req, hlen, blen, k1; split_and!; [done|by apply authenticated_contains|apply authenticated_routes_effect].
Qed.

(** ** The history *)

Lemma push_history_lastn h data :
  (length h <= HISTORY_MAX)%nat -> (length data <= HISTORY_MAX)%nat ->
  push_history h data = lastn HISTORY_MAX (h ++ data).
Proof.
  intros Hh Hd. unfold push_history, lastn. rewrite length_app.
  destruct (Nat.ltb_spec HISTORY_MAX (length h + length data)).
  - rewrite drop_app. f_equal. replace (length h + length data - HISTORY_MAX - length h)%nat with 0%nat by lia.
    done.
  - by replace (length h + length data - HISTORY_MAX)%nat with 0%nat by lia.
Qed.

Lemma pty_chunks_history chunks s :
  (length (history s) <= HISTORY_MAX)%nat -> Forall (fun d => (length d <= Z.to_nat 4096)%nat) chunks ->
  history (fold_left (fun s d => pty_chunk d s) chunks s) = lastn HISTORY_MAX (history s ++ concat chunks).
Proof.
  intros Hh Hc. revert s Hh. induction Hc as [|d chunks Hd Hc IH]; intros s Hh; cbn [fold_left concat].
  - rewrite app_nil_r. by rewrite lastn_all.
  - assert (E : history (pty_chunk d s) = lastn HISTORY_MAX (history s ++ d)).
    { apply push_history_lastn; [done|]. unfold HISTORY_MAX. lia. }
    rewrite IH; rewrite E; [|apply length_lastn]. by rewrite lastn_app, <- app_assoc.
Qed.

(** ** JSON *)

Lemma strstr_unquoted t s n : DQ ∉ t -> strstr (t ++ s) (quote n) = strstr s (quote n).
Proof. apply strstr_skip. Qed.

Lemma starts_with_quoted n w rest :
  DQ ∉ n -> DQ ∉ w -> starts_with (n ++ [DQ]) (w ++ DQ :: rest) = true -> n = w.
Proof.
  revert w; induction n as [|a n IH]; intros w Hn Hw.
  - destruct w as [|b w]; [done|]. apply not_elem_of_cons in Hw as [Hb _].
    cbn [app starts_with]. by destruct (Z.eqb_spec DQ b).
  - apply not_elem_of_cons in Hn as [Ha Hn].
    destruct w as [|b w]; cbn [app starts_with]; intros H; to_prop; subst; [done|].
    apply not_elem_of_cons in Hw as [_ Hw]. f_equal. by apply IH.
Qed.

(** A quoted text is skipped by the search for another quoted text. *)
Lemma strstr_other_quoted n w rest :
  DQ ∉ n -> DQ ∉ w -> n <> w -> n <> [] -> peek rest <> peek n ->
  strstr (quote w ++ rest) (quote n) = strstr rest (quote n).
Proof.
  intros Hn Hw Hne Hn0 Hp. unfold quote. cbn [app strstr starts_with]. rewrite Z.eqb_refl. cbn [andb].
  rewrite <- app_assoc. cbn [app].
  destruct (starts_with (n ++ [DQ]) (w ++ DQ :: rest)) eqn:E; [by apply starts_with_quoted in E|].
  rewrite strstr_skip by done. cbn [strstr starts_with]. rewrite Z.eqb_refl. cbn [andb].
  destruct (starts_with (n ++ [DQ]) rest) eqn:E2; [|done].
  apply starts_with_spec in E2 as [t ->]. destruct n; done.
Qed.

Lemma strstr_quote n rest : strstr (quote n ++ rest) (quote n) = Some (quote n ++ rest).
Proof. by apply strstr_here. Qed.

Lemma hex_digit_value v :
  0 <= v < 16 ->
  isxdigit (hex_digit v) = true
  /\ (if isdigit (hex_digit v) then hex_digit v - 48 else 10 + tolower (hex_digit v) - 97) = v.
Proof.
  intros H. unfold hex_digit. destruct (Z.ltb_spec v 10).
  - unfold isxdigit, isdigit. destruct (Z.leb_spec 48 (48 + v)); [|lia]. destruct (Z.leb_spec (48 + v) 57); [|lia].
    split; [done|cbn [andb]; lia].
  - unfold isxdigit, isdigit, tolower, isupper. destruct (Z.leb_spec (87 + v) 57); [lia|]. rewrite andb_false_r.
    destruct (Z.leb_spec (87 + v) 90); [lia|]. rewrite andb_false_r.
    destruct (Z.leb_spec 97 (87 + v)); [|lia]. destruct (Z.leb_spec (87 + v) 102); [|lia].
    split; [by rewrite orb_true_r|lia].
Qed.

Lemma hex_prefix_byte c rest :
  0 <= c < 256 -> hex_prefix 4 0 (48 :: 48 :: hex_byte c ++ rest) = c.
Proof.
  intros Hc. destruct (nibbles c Hc) as (H1 & H2 & H3). unfold hex_byte. cbn [app hex_prefix].
  change (isxdigit 48) with true. change (isdigit 48) with true. cbv iota.
  destruct (hex_digit_value _ H1) as [-> ->]. destruct (hex_digit_value _ H2) as [-> ->]. lia.
Qed.

(** Reading back what [json_quote] wrote. *)
Lemma json_decode_escape c rest out f :
  byte_ok c -> json_decode (S f) (json_escape c ++ rest) out = json_decode f rest (out ++ [c]).
Proof.
  intros Hc. unfold json_escape. unfold byte_ok in Hc.
  destruct (Z.eqb_spec c DQ) as [->|H1]; [done|]. destruct (Z.eqb_spec c BACKSLASH) as [->|H2]; [done|].
  cbn [orb]. destruct (Z.eqb_spec c NL) as [->|H3]; [done|]. destruct (Z.eqb_spec c CR) as [->|H4]; [done|].
  destruct (Z.eqb_spec c TAB) as [->|H5]; [done|]. destruct (Z.ltb_spec c 32) as [H6|H6].
  - change (str "\u00") with [BACKSLASH; 117; 48; 48]. cbn [app json_decode].
    change (BACKSLASH =? DQ) with false. change (BACKSLASH =? BACKSLASH) with true.
    change (117 =? 117) with true. cbv beta iota zeta.
    rewrite hex_prefix_byte by lia. unfold hex_byte. cbn [app length Nat.ltb Nat.leb drop].
    destruct (Z.ltb_spec c 128); [done|lia].
  - cbn [app json_decode]. destruct (Z.eqb_spec c DQ); [done|]. by destruct (Z.eqb_spec c BACKSLASH).
Qed.

Lemma json_decode_quoted s rest out f :
  bytes_ok s -> (length s < f)%nat ->
  json_decode f ((s ≫= json_escape) ++ DQ :: rest) out = Found (out ++ s).
Proof.
  intros Hs. revert out f. induction Hs as [|c s Hc Hs IH]; intros out f Hf.
  - destruct f; [lia|]. cbn. by rewrite app_nil_r.
  - destruct f; [lia|]. change ((c :: s) ≫= json_escape) with (json_escape c ++ (s ≫= json_escape)).
    rewrite <- app_assoc, json_decode_escape by done. cbn [length] in Hf. rewrite IH by lia. by rewrite <- app_assoc.
Qed.

Lemma length_json_escape s : (length s <= length (s ≫= json_escape))%nat.
Proof.
  induction s as [|c s IH]; [done|].
  change ((c :: s) ≫= json_escape) with (json_escape c ++ (s ≫= json_escape)).
  rewrite length_app. cbn [length]. assert (1 <= length (json_escape c))%nat; [|lia].
  unfold json_escape. repeat case_match; cbn; lia.
Qed.

(** A string field, once the search has found its key. *)
Lemma json_string_field json k s rest :
  strstr json (quote k) = Some (quote k ++ str ":" ++ json_quote s ++ rest) -> bytes_ok s ->
  json_string json k = Found s.
Proof.
  intros E Hs. unfold json_string. rewrite E, drop_app_length.
  change (str ":" ++ json_quote s ++ rest) with (58 :: DQ :: ((s ≫= json_escape) ++ [DQ]) ++ rest).
  rewrite skip_space_nonspace by done. cbn zeta.
  change (drop 1 (58 :: DQ :: ((s ≫= json_escape) ++ [DQ]) ++ rest))
    with (DQ :: ((s ≫= json_escape) ++ [DQ]) ++ rest).
  rewrite skip_space_nonspace by done. rewrite <- app_assoc. cbn [app].
  change (drop 1 (DQ :: (s ≫= json_escape) ++ DQ :: rest)) with ((s ≫= json_escape) ++ DQ :: rest).
  change (peek (58 :: DQ :: (s ≫= json_escape) ++ DQ :: rest)) with 58.
  change (peek (DQ :: (s ≫= json_escape) ++ DQ :: rest)) with DQ.
  rewrite !Z.eqb_refl. cbn [negb]. apply (json_decode_quoted s rest []); [done|]. cbn [length]. rewrite length_app.
  pose proof (length_json_escape s). lia.
Qed.
(** ** Editing a file *)

(** A file name the browser sends without escapes. *)
Definition plain (name : bytes) : Prop :=
  Forall (fun c => 33 <= c <= 126 /\ c <> DQ /\ c <> BACKSLASH /\ c <> 37 /\ c <> 43) name.

#[global] Instance plain_dec name : Decision (plain name).
Proof. unfold plain. apply _. Defined.

Definition put_body (name content : bytes) : bytes :=
  str "{" ++ quote (str "path") ++ str ":" ++ quote name ++ str "," ++ quote (str "content") ++ str ":"
  ++ json_quote content ++ str "}".

Definition response (body : bytes) : bytes := reply_head 200 JSON [] (length body) ++ body.

Lemma plain_escape name : plain name -> (name ≫= json_escape) = name.
Proof.
  induction 1 as [|c name (H1 & H2 & H3 & _) Hn IH]; [done|].
  change ((c :: name) ≫= json_escape) with (json_escape c ++ (name ≫= json_escape)). rewrite IH.
  unfold json_escape, NL, CR, TAB. destruct (Z.eqb_spec c DQ); [done|]. destruct (Z.eqb_spec c BACKSLASH); [done|].
  cbn [orb]. destruct (Z.eqb_spec c 10); [lia|]. destruct (Z.eqb_spec c 13); [lia|].
  destruct (Z.eqb_spec c 9); [lia|]. destruct (Z.ltb_spec c 32); [lia|]. done.
Qed.

Lemma plain_bytes name : plain name -> bytes_ok name /\ (DQ ∉ name) /\ Forall (fun c => 0 < c) name.
Proof.
  intros H. split_and!.
  - eapply Forall_impl; [exact H|]. unfold byte_ok. intros c (? & _). lia.
  - intros Hin. eapply Forall_forall in H; [|exact Hin]. naive_solver.
  - eapply Forall_impl; [exact H|]. intros c (? & _). lia.
Qed.

Lemma url_decode_plain_aux k name : (length name <= k)%nat -> plain name -> url_decode name = name.
Proof.
  revert name; induction k as [|k IH]; intros name Hk Hn; [destruct name; [done|cbn in Hk; lia]|].
  destruct name as [|c rest]; [done|]. apply Forall_cons in Hn as [(_ & _ & _ & H37 & H43) Hr].
  pose proof (IH rest ltac:(cbn in Hk; lia) Hr) as E. cbn [url_decode].
  destruct (Z.eqb_spec c 37); [done|]. destruct (Z.eqb_spec c 43); [done|]. cbn [andb].
  destruct rest as [|a [|b rest']]; by rewrite E.
Qed.

Lemma put_body_fields name content :
  plain name -> name <> str "content" -> bytes_ok content ->
  json_string (put_body name content) (str "path") = Found name
  /\ json_string (put_body name content) (str "content") = Found content.
Proof.
  intros Hn Hne Hc. destruct (plain_bytes _ Hn) as (Hb & Hdq & _). unfold put_body. split.
  - eapply (json_string_field _ _ _ _); [|exact Hb].
    rewrite (strstr_unquoted (str "{")) by (apply (bool_decide_unpack _); vm_compute; reflexivity).
    rewrite strstr_quote. unfold json_quote. rewrite (plain_escape name) by done. reflexivity.
  - eapply json_string_field; [|exact Hc].
    rewrite (strstr_unquoted (str "{")) by (apply (bool_decide_unpack _); vm_compute; reflexivity).
    rewrite strstr_other_quoted by (apply (bool_decide_unpack _); vm_compute; reflexivity).
    rewrite (strstr_unquoted (str ":")) by (apply (bool_decide_unpack _); vm_compute; reflexivity).
    rewrite strstr_other_quoted; [|apply (bool_decide_unpack _); vm_compute; reflexivity|done|done|done|done].
    rewrite (strstr_unquoted (str ",")) by (apply (bool_decide_unpack _); vm_compute; reflexivity).
    apply strstr_quote.
Qed.

Lemma digits_unquoted n : DQ ∉ print_int n.
Proof.
  assert (H : forall m, DQ ∉ print_nat m).
  { intros m Hin. pose proof (print_nat_isdigit m) as HF. rewrite Forall_forall in HF. by apply HF in Hin. }
  unfold print_int. destruct (n <? 0); [|done]. apply not_elem_of_cons. split; [done|apply H].
Qed.

(** The editor reads the content back from the reply. *)
Lemma open_body_content path data :
  DQ ∉ path -> path <> str "content" -> bytes_ok data ->
  json_string (open_body path data) (str "content") = Found data.
Proof.
  intros Hp Hne Hd. eapply json_string_field; [|exact Hd]. unfold open_body, key.
  rewrite <- ?app_assoc. pose proof (digits_unquoted (Z.of_nat (length data))).
  repeat first
    [ rewrite strstr_quote
    | rewrite strstr_unquoted by (assumption || (apply (bool_decide_unpack _); vm_compute; reflexivity))
    | rewrite strstr_other_quoted;
      [|apply (bool_decide_unpack _); vm_compute; reflexivity
       |assumption || (apply (bool_decide_unpack _); vm_compute; reflexivity)
       |congruence || (apply (bool_decide_unpack _); vm_compute; reflexivity)|done|done] ].
  reflexivity.
Qed.
Lemma reply_ok body k :
  willing k -> Z.of_nat (length body) < 2 ^ 64 ->
  exists zs, reply 200 JSON [] body k = (tt, Socket (s_in k) (s_out k ++ response body) zs)
             /\ Forall (fun z => 0 < z) zs.
Proof.
  intros Hk Hl. unfold reply.
  assert (Hh : (length (reply_head 200 JSON [] (length body)) < Z.to_nat 1024)%nat).
  { pose proof (print_nat_length (Z.of_nat (length body)) 64 ltac:(lia)). unfold reply_head.
    repeat rewrite ?length_app, ?length_cons. change (length (print_int 200)) with 3%nat.
    change (length (reason 200)) with 2%nat. change (length JSON) with 31%nat.
    cbn [length str CRLF]. lia. }
  apply Nat.ltb_lt in Hh. rewrite Hh. cbn [when]. unfold response. rewrite st_bind_run.
  destruct (send_loop_ok (length (reply_head 200 JSON [] (length body))) (reply_head 200 JSON [] (length body)) k Hk ltac:(lia))
    as (zs & E & Hzs).
  unfold write_all at 1 2. rewrite E. cbn [fst snd]. destruct (Nat.ltb_spec 0 (length body)); cbn [when].
  - rewrite st_bind_run.
    destruct (send_loop_ok (length body) body (Socket (s_in k) (s_out k ++ reply_head 200 JSON [] (length body)) zs) Hzs ltac:(lia))
      as (zs' & E' & Hzs').
    unfold write_all. rewrite E'. cbn [fst snd s_in s_out]. exists zs'. by rewrite <- app_assoc.
  - destruct body; [|cbn in *; lia]. exists zs. by rewrite app_nil_r.
Qed.

Lemma wisp_fails_ok s k : w_faults (ws_world s) = [] -> fails (s, k) = (false, (s, k)).
Proof. intros H. unfold fails. rewrite on_world_fst, fault_none by done. by destruct s. Qed.

(** Saving when nothing fails. *)
Lemma save_file_ok path content x xs s k :
  w_faults (ws_world s) = [] -> ws_suffixes s = x :: xs ->
  fs s !! (path ++ str ".wisp-" ++ x) = None -> (length path + 12 < PATH_MAX)%nat ->
  exists s1, save_file path content (s, k)
             = (on_snd (reply 200 JSON [] (save_body path (length content)))) (s1, k)
             /\ fs s1 = <[path := content]> (fs s) /\ w_faults (ws_world s1) = [] /\ ws_cwd s1 = ws_cwd s.
Proof.
  intros Hf Hx Ht Hl. unfold save_file. destruct (Nat.leb_spec PATH_MAX (length path + 12)); [lia|].
  rewrite st_bind_run. unfold mkstemp at 1 2. rewrite Hx. cbn [ws_world set_suffixes].
  unfold fs in Ht. rewrite Ht. cbn [fst snd]. set (temp := path ++ str ".wisp-" ++ x) in *.
  set (s0 := set_world _ _). rewrite st_bind_run, on_world_fst.
  rewrite file_write_ok by done. cbn [fst snd]. set (w1 := store temp _ _).
  rewrite st_bind_run, wisp_fails_ok by done. cbn [fst snd negb orb]. rewrite st_bind_run, on_world_fst.
  change (ws_world (set_world w1 s0)) with w1.
  assert (Hw1 : w_fs w1 = <[temp := content]> (fs s)).
  { unfold w1, s0. cbn [ws_world set_world set_suffixes store w_fs].
    by rewrite lookup_insert_eq, insert_insert_eq. }
  rewrite (file_rename_ok w1 ltac:(done) temp path content); [|by rewrite Hw1, lookup_insert_eq].
  cbn [fst snd negb]. eexists. split; [reflexivity|]. unfold fs at 1. cbn [ws_world set_world move w_fs w_faults].
  split_and!; [by rewrite Hw1, delete_insert_id|done|done].
Qed.

Lemma length_escape_le s : (length (s ≫= json_escape) <= 6 * length s)%nat.
Proof.
  induction s as [|c s IH]; [done|].
  change ((c :: s) ≫= json_escape) with (json_escape c ++ (s ≫= json_escape)).
  rewrite length_app. cbn [length]. assert (length (json_escape c) <= 6)%nat; [|lia].
  unfold json_escape. repeat case_match; cbn; lia.
Qed.

Lemma open_body_length path data :
  (length path < PATH_MAX)%nat -> Z.of_nat (length data) <= FILE_MAX ->
  Z.of_nat (length (open_body path data)) < 2 ^ 64.
Proof.
  unfold PATH_MAX, FILE_MAX. intros Hp Hd. unfold open_body, json_quote, quote, key.
  pose proof (length_escape_le data). pose proof (print_int_length (Z.of_nat (length data)) 32 ltac:(lia)).
  repeat rewrite ?length_app, ?length_cons. unfold quote. repeat rewrite ?length_app, ?length_cons. cbn [length str]. lia.
Qed.

Lemma save_body_length path n :
  (length path < PATH_MAX)%nat -> Z.of_nat n <= FILE_MAX -> Z.of_nat (length (save_body path n)) < 2 ^ 64.
Proof.
  unfold PATH_MAX, FILE_MAX. intros Hp Hd. unfold save_body, quote, key.
  pose proof (print_nat_length (Z.of_nat n) 32 ltac:(lia)).
  repeat rewrite ?length_app, ?length_cons. unfold quote. repeat rewrite ?length_app, ?length_cons. cbn [length str]. lia.
Qed.

(** ** Where the JSON reader fails *)

(** The search for a key also finds a value: a file called [content] cannot be
    saved. *)
Lemma save_content_refused data :
  json_string (put_body (str "content") data) (str "content") = Missing.
Proof. reflexivity. Qed.

(** A truncated escape moves the reader past the end of the request. *)
Lemma json_string_overrun :
  json_string (str "{" ++ quote (str "cmd") ++ str ":" ++ DQ :: str "\u41") (str "cmd") = Overrun.
Proof. reflexivity. Qed.

(** ** Properties of the editor and the terminal *)

(** what is saved can be edited again: when no system call fails, a PUT of
    any content (all bytes, NUL and control characters included) to a plain
    name stores exactly that content, the following GET answers with a JSON
    object, and reading the content field of that object gives the same bytes
    back. *)
Theorem wisp_edit_roundtrip (s : wisp) (k : socket) (name content path x : bytes) (xs : list bytes) :
  plain name -> name <> str "content" -> bytes_ok content -> Z.of_nat (length content) <= FILE_MAX ->
  safe_path (ws_cwd s) name = Some path -> (length path + 12 < PATH_MAX)%nat -> DQ ∉ path ->
  w_faults (ws_world s) = [] -> ws_suffixes s = x :: xs -> fs s !! (path ++ str ".wisp-" ++ x) = None ->
  willing k ->
  exists s1 k1,
    api_save (put_body name content) (s, k) = (Done, (s1, k1))
    /\ fs s1 = <[path := content]> (fs s)
    /\ s_out k1 = s_out k ++ response (save_body path (length content))
    /\ s_out (api_open (str "/api/file?path=" ++ name) (s1, k1)).2.2
       = s_out k1 ++ response (open_body path content)
    /\ json_string (open_body path content) (str "content") = Found content.
Proof.
  intros Hn Hne Hc Hl Hp Hpl Hdq Hf Hx Ht Hk.
  destruct (put_body_fields name content Hn Hne Hc) as [E1 E2].
  destruct (plain_bytes _ Hn) as (_ & _ & Hpos).
  destruct (save_file_ok path content x xs s k Hf Hx Ht Hpl) as (s1 & Es & Hfs & Hf1 & Hcwd).
  destruct (reply_ok (save_body path (length content)) k Hk) as (zs & Er & Hz);
    [apply save_body_length; [lia|done]|].
  exists s1, (Socket (s_in k) (s_out k ++ response (save_body path (length content))) zs).
  split_and!; [|done|done| |].
  - unfold api_save. rewrite !st_bind_run. cbn [gets fst snd]. rewrite E1, E2.
    destruct (Z.ltb_spec FILE_MAX (Z.of_nat (length content))); [lia|].
    rewrite cstr_id, Hp by done. rewrite st_bind_run, Es, on_snd_run. cbn [fst snd]. by rewrite Er.
  - unfold api_open. rewrite st_bind_run. cbn [gets fst snd]. rewrite Hcwd.
    change (strstr (str "/api/file?path=" ++ name) (str "?path=")) with (Some (str "?path=" ++ name)).
    cbv beta iota.
    change (drop 6 (str "?path=" ++ name)) with name.
    rewrite (url_decode_plain_aux (length name)), cstr_id, Hp by done.
    rewrite st_bind_run, wisp_fails_ok by done. cbn [fst snd]. rewrite st_bind_run, on_world_fst.
    cbn [fst snd file_read gets]. unfold fs in Hfs. rewrite Hfs, lookup_insert_eq.
    replace (set_world (ws_world s1) s1) with s1 by by destruct s1.
    rewrite st_bind_run, wisp_fails_ok by done. cbn [fst snd].
    destruct (Z.ltb_spec FILE_MAX (Z.of_nat (length content))); [lia|].
    rewrite st_bind_run, wisp_fails_ok by done. cbn [fst snd]. rewrite on_snd_run. cbn [snd].
    destruct (reply_ok (open_body path content)
      (Socket (s_in k) (s_out k ++ response (save_body path (length content))) zs) Hz) as (zs' & Er' & _);
      [apply open_body_length; [lia|done]|]. by rewrite Er'.
  - apply open_body_content; [done| |done]. intros ->.
    apply safe_path_confined in Hp as (d & _ & Hp & _). assert (H : SLASH ∈ str "content").
    { rewrite Hp. set_solver. }
    revert H. apply (bool_decide_unpack _). vm_compute. reflexivity.
Qed.

Lemma wisp_edit_roundtrip_witness :
  let s := MkWisp (World ∅ 0 [] [] [] [] ∅ [] []) [] 5 (str "s") (str "pass") (str ".") (Some (str "/home"))
                  [] [] 5 [] [str "abcdef"] 0 in
  exists s1 k1, api_save (put_body (str "notes.txt") [0; 34; 92; 10; 200]) (s, Socket [] [] []) = (Done, (s1, k1))
    /\ fs s1 = <[str "/home/notes.txt" := [0; 34; 92; 10; 200]]> (fs s).
Proof.
  intros s.
  destruct (wisp_edit_roundtrip s (Socket [] [] []) (str "notes.txt") [0; 34; 92; 10; 200]
    (str "/home/notes.txt") (str "abcdef") []) as (s1 & k1 & H1 & H2 & _);
    try (apply (bool_decide_unpack _); vm_compute; reflexivity); try reflexivity.
  exists s1, k1. split; [exact H1|exact H2].
Defined.

(** a new event stream starts with the recent terminal output: after any
    sequence of reads of at most 4096 bytes the history is exactly the last
    256 KiB of everything the terminal produced, and never longer. *)
Theorem pty_history_recent (chunks : list bytes) (s : wisp) :
  (length (history s) <= HISTORY_MAX)%nat ->
  Forall (fun d => (length d <= Z.to_nat 4096)%nat) chunks ->
  let s' := fold_left (fun s d => pty_chunk d s) chunks s in
  history s' = lastn HISTORY_MAX (history s ++ concat chunks)
  /\ (length (history s') <= HISTORY_MAX)%nat.
Proof.
  intros Hh Hc. cbn zeta. rewrite pty_chunks_history by done. split; [done|apply length_lastn].
Qed.

Lemma pty_history_recent_witness :
  let s := MkWisp (World ∅ 0 [] [] [] [] ∅ [] []) [] 5 (str "s") (str "pass") (str ".") None (str "ab") [None] 5 [] [] 0 in
  history (fold_left (fun s d => pty_chunk d s) [str "cd"; str "e"] s) = lastn HISTORY_MAX (str "abcde").
Proof.
  intros s.
  destruct (pty_history_recent [str "cd"; str "e"] s) as [H _].
  - change (length (history s)) with 2%nat. unfold HISTORY_MAX. lia.
  - do 2 (apply Forall_cons; split; [cbn [length str]; lia|]). by apply Forall_nil.
  - exact H.
Defined.
End WispFacts.
