(* ===== verification/EspRecord.v ===== *)
(** * esp/common/src/core/noob_record.h: records and their bounded queue

    A channel result is up to six named 32-bit integers; a queue keeps the
    eight most recent results and counts the ones it dropped.  The ring of the
    C++ class is proved to be a FIFO that forgets its oldest element. *)
From S2P Require Import Prelude CLib.

Open Scope Z_scope.

Module EspRecord.

Definition MAX_FIELDS : nat := 6.
Definition NAME_BYTES : nat := 16.

Record Field := MkField { field_name : bytes; field_value : Z }.

(** The first [count_] fields. *)
Definition NoobRecord : Type := list Field.

Definition empty_record : NoobRecord := [].

(** [false] leaves the record as it was. *)
Definition add (r : NoobRecord) (nm : bytes) (value : Z) : bool * NoobRecord :=
  if (peek nm =? NUL) || (NAME_BYTES <=? length nm)%nat || (MAX_FIELDS <=? length r)%nat
  then (false, r) else (true, r ++ [MkField nm value]).

Definition get_index (r : NoobRecord) (i : nat) : option (bytes * Z) :=
  match r !! i with Some f => Some (field_name f, field_value f) | None => None end.

Fixpoint get_name (r : NoobRecord) (nm : bytes) : option Z :=
  match r with
  | [] => None
  | f :: r' => if bytes_eqb (field_name f) nm then Some (field_value f) else get_name r' nm
  end.

Definition primary (r : NoobRecord) : option Z :=
  match get_name r (str "value") with
  | Some v => Some v
  | None => match r with [] => None | f :: _ => Some (field_value f) end
  end.

Fixpoint serialize_fields (r : NoobRecord) : bytes :=
  match r with
  | [] => []
  | [f] => field_name f ++ str ":" ++ print_int (field_value f)
  | f :: r' => field_name f ++ str ":" ++ print_int (field_value f) ++ str "," ++ serialize_fields r'
  end.
Definition serialize (r : NoobRecord) : bytes := str "{" ++ serialize_fields r ++ str "}".

(** The record [push(int32_t)] queues. *)
Definition value_record (v : Z) : NoobRecord := (add [] (str "value") v).2.

(** ** The queue *)

Definition CAPACITY : nat := 8.

Record NoobRecordQueue := Queue {
  records_ : list NoobRecord; head_ : nat; tail_ : nat; count_ : nat; dropped_ : Z }.

Definition empty_queue : NoobRecordQueue := Queue (repeat [] CAPACITY) 0 0 0 0.

Definition push (r : NoobRecord) (q : NoobRecordQueue) : NoobRecordQueue :=
  let '(head, count, dropped) :=
    if (count_ q =? CAPACITY)%nat
    then (((head_ q + 1) mod CAPACITY)%nat, (count_ q - 1)%nat, (dropped_ q + 1) mod 2 ^ 32)
    else (head_ q, count_ q, dropped_ q) in
  Queue (<[tail_ q := r]> (records_ q)) head ((tail_ q + 1) mod CAPACITY) (count + 1) dropped.

Definition push_value (v : Z) (q : NoobRecordQueue) : NoobRecordQueue := push (value_record v) q.

Definition pop (q : NoobRecordQueue) : option (NoobRecord * NoobRecordQueue) :=
  if (count_ q =? 0)%nat then None
  else Some (nth (head_ q) (records_ q) [],
             Queue (records_ q) ((head_ q + 1) mod CAPACITY) (tail_ q) (count_ q - 1) (dropped_ q)).

Definition clear (q : NoobRecordQueue) : NoobRecordQueue := Queue (records_ q) 0 0 0 0.

Definition size (q : NoobRecordQueue) : nat := count_ q.

(** ** The abstract queue *)

(** The queued records, oldest first. *)
Definition contents (q : NoobRecordQueue) : list NoobRecord :=
  map (fun k => nth ((head_ q + k) mod CAPACITY) (records_ q) []) (seq 0 (count_ q)).

Definition queue_wf (q : NoobRecordQueue) : Prop :=
  length (records_ q) = CAPACITY /\ (head_ q < CAPACITY)%nat /\ (count_ q <= CAPACITY)%nat
  /\ tail_ q = ((head_ q + count_ q) mod CAPACITY)%nat.

#[global] Instance queue_wf_dec q : Decision (queue_wf q).
Proof. unfold queue_wf. apply _. Defined.

Lemma length_contents q : length (contents q) = count_ q.
Proof. unfold contents. by rewrite length_map, length_seq. Qed.

Lemma queue_slots_distinct h i j :
  (i < CAPACITY)%nat -> (j < CAPACITY)%nat ->
  ((h + i) mod CAPACITY = (h + j) mod CAPACITY)%nat -> i = j.
Proof.
  unfold CAPACITY. intros Hi Hj H.
  pose proof (Nat.div_mod_eq (h + i) 8). pose proof (Nat.div_mod_eq (h + j) 8). lia.
Qed.

Lemma contents_snoc rs h c t d r :
  length rs = CAPACITY -> (c < CAPACITY)%nat ->
  contents (Queue (<[((h + c) mod CAPACITY)%nat := r]> rs) h t (c + 1) d)
  = contents (Queue rs h t c d) ++ [r].
Proof.
  intros Hl Hc. unfold contents. cbn [head_ count_ records_]. rewrite seq_app, map_app. f_equal.
  - apply map_ext_in. intros k Hk. apply in_seq in Hk.
    rewrite !nth_lookup, list_lookup_insert_ne; [done|]. intros E. apply queue_slots_distinct in E; lia.
  - cbn [seq map Nat.add]. rewrite nth_lookup, list_lookup_insert_eq; [done|].
    rewrite Hl. by apply Nat.mod_upper_bound.
Qed.

Lemma contents_uncons rs h c t d :
  (h < CAPACITY)%nat ->
  contents (Queue rs h t (S c) d) = nth h rs [] :: contents (Queue rs ((h + 1) mod CAPACITY) t c d).
Proof.
  intros Hh. unfold contents. cbn [head_ count_ records_ seq map]. f_equal.
  - by rewrite Nat.add_0_r, Nat.mod_small.
  - rewrite <- seq_shift, map_map. apply map_ext. intros k. f_equal.
    rewrite Nat.Div0.add_mod_idemp_l. f_equal. lia.
Qed.

Lemma next_slot h c : (((h + c) mod CAPACITY + 1) mod CAPACITY = (h + (c + 1)) mod CAPACITY)%nat.
Proof. rewrite Nat.Div0.add_mod_idemp_l. f_equal. lia. Qed.

(** [push] appends and keeps the last eight; every record it discards is
    counted. *)
Lemma push_contents r q :
  queue_wf q ->
  queue_wf (push r q) /\ contents (push r q) = lastn CAPACITY (contents q ++ [r])
  /\ dropped_ (push r q) = if decide (count_ q = CAPACITY) then (dropped_ q + 1) mod 2 ^ 32 else dropped_ q.
Proof.
  intros (Hl & Hh & Hc & Ht). destruct q as [rs h t c d]. cbn [records_ head_ count_ tail_] in *. subst t.
  unfold push. cbn [records_ head_ count_ tail_ dropped_].
  destruct (Nat.eqb_spec c CAPACITY) as [->|Hne].
  - assert (Hs : ((h + CAPACITY) mod CAPACITY = ((h + 1) mod CAPACITY + (CAPACITY - 1)) mod CAPACITY)%nat).
    { rewrite Nat.Div0.add_mod_idemp_l. f_equal. unfold CAPACITY. lia. }
    rewrite Hs. split_and!.
    + unfold queue_wf. cbn [records_ head_ count_ tail_]. rewrite length_insert, next_slot.
      split_and!; [done|by apply Nat.mod_upper_bound|unfold CAPACITY; lia|done].
    + rewrite contents_snoc by (done || unfold CAPACITY; lia).
      assert (E : contents (Queue rs h ((h + CAPACITY) mod CAPACITY) CAPACITY d)
                  = nth h rs [] :: contents (Queue rs ((h + 1) mod CAPACITY) ((h + CAPACITY) mod CAPACITY) 7 d))
        by by apply contents_uncons.
      rewrite Hs in E. rewrite E. unfold lastn. cbn [app length]. rewrite length_app, length_contents. cbn [count_].
      change (S (7 + length [r]) - CAPACITY)%nat with 1%nat. done.
    + destruct (decide _); done.
  - split_and!.
    + unfold queue_wf. cbn [records_ head_ count_ tail_]. rewrite length_insert, next_slot.
      split_and!; [done|done|lia|done].
    + rewrite contents_snoc by lia. rewrite lastn_all; [done|].
      rewrite length_app, length_contents. cbn. lia.
    + by destruct (decide _).
Qed.

Lemma pop_contents q :
  queue_wf q ->
  match contents q, pop q with
  | [], None => True
  | r :: rs, Some (r', q') => r' = r /\ contents q' = rs /\ queue_wf q' /\ dropped_ q' = dropped_ q
  | _, _ => False
  end.
Proof.
  intros (Hl & Hh & Hc & Ht). destruct q as [rs h t c d]. cbn [records_ head_ count_ tail_] in *.
  destruct c as [|c]; [done|]. rewrite contents_uncons by done. unfold pop. cbn [count_ Nat.eqb records_ head_ tail_ dropped_ Nat.sub].
  rewrite Nat.sub_0_r. split_and!; [done|done| |done]. unfold queue_wf. cbn [records_ head_ count_ tail_].
  split_and!; [done|by apply Nat.mod_upper_bound|lia|].
  subst t. rewrite Nat.Div0.add_mod_idemp_l. f_equal. lia.
Qed.

Lemma clear_contents q :
  queue_wf q -> queue_wf (clear q) /\ contents (clear q) = [] /\ dropped_ (clear q) = 0.
Proof. intros (Hl & _). split_and!; [split_and!; [done|unfold CAPACITY; cbn; lia|cbn; lia|done]|done|done]. Qed.
#[export] Hint Resolve push_contents clear_contents : noobia.

(** Popping until the queue is empty. *)
Fixpoint drain (k : nat) (q : NoobRecordQueue) : list NoobRecord :=
  match k with
  | O => []
  | S k' => match pop q with None => [] | Some (r, q') => r :: drain k' q' end
  end.

Lemma drain_contents k q : queue_wf q -> (count_ q <= k)%nat -> drain k q = contents q.
Proof.
  revert q; induction k as [|k IH]; intros q Hq Hk.
  - unfold contents. by replace (count_ q) with 0%nat by lia.
  - cbn [drain]. pose proof (pop_contents q Hq) as H. pose proof (length_contents q) as Hl.
    destruct (contents q) as [|r rs], (pop q) as [[r' q']|]; try done.
    destruct H as (-> & Hr & Hq' & _). rewrite IH; [by rewrite Hr|done|].
    rewrite <- length_contents, Hr. cbn in Hl. lia.
Qed.

(** the ring of a channel is a queue of the eight newest results: pushing
    any number of records leaves the last eight of what was queued and pushed,
    popping returns them oldest first, and the drop counter (32 bits) has grown
    by exactly the number of records that were lost. *)
Theorem record_queue_fifo (rs : list NoobRecord) (q : NoobRecordQueue) :
  queue_wf q ->
  let q' := fold_left (fun q r => push r q) rs q in
  let kept := lastn CAPACITY (contents q ++ rs) in
  queue_wf q' /\ drain CAPACITY q' = kept
  /\ dropped_ q' mod 2 ^ 32
     = (dropped_ q + Z.of_nat (length (contents q ++ rs) - length kept)) mod 2 ^ 32.
Proof.
  cbn zeta. intros Hq.
  assert (H : queue_wf (fold_left (fun q r => push r q) rs q)
    /\ contents (fold_left (fun q r => push r q) rs q) = lastn CAPACITY (contents q ++ rs)
    /\ dropped_ (fold_left (fun q r => push r q) rs q) mod 2 ^ 32
       = (dropped_ q + Z.of_nat (length (contents q ++ rs) - length (lastn CAPACITY (contents q ++ rs)))) mod 2 ^ 32).
  { revert q Hq. induction rs as [|r rs IH]; intros q Hq; cbn [fold_left].
    - rewrite app_nil_r. pose proof Hq as (_ & _ & Hc & _).
      rewrite lastn_all by (rewrite length_contents; lia). rewrite Nat.sub_diag, Z.add_0_r. done.
    - destruct (push_contents r q Hq) as (H1 & H2 & H3). destruct (IH _ H1) as (H4 & H5 & H6).
      split_and!; [done| |].
      + rewrite H5, H2, lastn_app, <- app_assoc. done.
      + rewrite H6, H3, H2, lastn_app, <- app_assoc. unfold lastn.
        rewrite !length_drop, !length_app, !length_drop, !length_app. cbn [app length].
        rewrite length_contents. pose proof Hq as (_ & _ & Hc & _).
        destruct (decide (count_ q = CAPACITY)) as [E|E]; [rewrite Z.add_mod_idemp_l by lia|]; f_equal; lia. }
  destruct H as (H1 & H2 & H3). split_and!; [done| |done].
  rewrite drain_contents; [done|done|]. by destruct H1 as (_ & _ & Hc & _).
Qed.

Lemma record_queue_fifo_witness :
  drain CAPACITY (fold_left (fun q r => push r q) (map value_record [1; 2; 3; 4; 5; 6; 7; 8; 9]) empty_queue)
  = map value_record [2; 3; 4; 5; 6; 7; 8; 9].
Proof.
  destruct (record_queue_fifo (map value_record [1; 2; 3; 4; 5; 6; 7; 8; 9]) empty_queue) as (_ & H & _);
    [apply (bool_decide_unpack _); vm_compute; reflexivity|].
  etransitivity; [exact H|]. reflexivity.
Defined.
End EspRecord.
