(* ===== verification/EspRegistry.v ===== *)
(** * esp/common/src/syscalls/noob_native_registry.h/.cpp: native functions

    The one call path of the firmware: every native function, from a GPIO
    primitive to a sequence, is a [NoobFunction] acting on the device state
    [S]; the registry finds it by number or by name and checks the arguments. *)
From S2P Require Import Prelude CLib EspRecord.

Open Scope Z_scope.

Module EspRegistry.
Import EspRecord.

(** ** Arduino strings and integers *)

Definition toupper (c : byte) : byte := if islower c then c - 32 else c.
Definition equalsIgnoreCase (a b : bytes) : bool := bytes_eqb (map tolower a) (map tolower b).

Definition u32 (v : Z) : Z := v mod 2 ^ 32.
Definition i32 (v : Z) : Z := to_signed 32 v.
Definition int32 (v : Z) : Prop := INT_MIN <= v <= INT_MAX.

#[global] Instance int32_dec v : Decision (int32 v).
Proof. unfold int32. apply _. Defined.

Lemma i32_int32 v : int32 (i32 v).
Proof.
  unfold int32, i32, to_signed, INT_MIN, INT_MAX. change (2 ^ (32 - 1)) with 2147483648.
  change (2 ^ 32) with 4294967296. pose proof (Z.mod_pos_bound (v + 2147483648) 4294967296). lia.
Qed.

Lemma i32_id v : int32 v -> i32 v = v.
Proof.
  unfold int32, i32, to_signed, INT_MIN, INT_MAX. change (2 ^ (32 - 1)) with 2147483648.
  change (2 ^ 32) with 4294967296. intros H. rewrite Z.mod_small by lia. lia.
Qed.
#[export] Hint Resolve i32_int32 : noobia.

(** The next blank-separated token and the text after it. *)
Definition tokenAt (text : bytes) : bytes * bytes :=
  span (Z.eqb SP) (span (fun c => negb (c =? SP)) text).2.

(** ** Results and functions *)

Record NativeResult := Result { ok : bool; value : Z; detail : bytes; record : NoobRecord }.

(** [{ok, value, detail}], with an empty record. *)
Definition result (b : bool) (v : Z) (d : bytes) : NativeResult := Result b v d [].
Definition failure (d : bytes) : NativeResult := result false 0 d.

(** A native function: [callMixed] is the virtual method every call goes
    through. *)
Record NoobFunction {S : Type} := Function {
  acceptsNumbers : bool;
  acceptsText : bool;
  fn_callMixed : list Z -> bytes -> st S NativeResult }.
Arguments NoobFunction : clear implicits.

Section functions.
Context {S : Type}.

(** A class that overrides [call] and [callText] but not [callMixed]. *)
Definition base_function (numbers text : bool) (call : list Z -> st S NativeResult)
    (callText : bytes -> st S NativeResult) : NoobFunction S :=
  Function S numbers text (fun arguments ascii =>
    if (length ascii =? 0)%nat && numbers then call arguments
    else if (length arguments =? 0)%nat && text then callText ascii
    else mret (failure (str "mixed arguments unsupported"))).

Definition NumericFunctionAdapter (f : list Z -> st S NativeResult) : NoobFunction S :=
  base_function true false f (fun _ => mret (failure (str "text call unsupported"))).

Definition TextFunctionAdapter (f : bytes -> st S NativeResult) : NoobFunction S :=
  base_function false true (fun _ => mret (failure (str "numeric call unsupported"))) f.

Definition MixedFunctionAdapter (f : list Z -> bytes -> st S NativeResult) : NoobFunction S :=
  Function S true true f.

(** ** The registry *)

Record NativeEntry := Entry { id : Z; name : bytes; implementation : NoobFunction S }.
Definition MAX_FUNCTIONS : nat := 128.
Definition MAX_ASCII_BYTES : nat := 255.
Definition NativeRegistry : Type := list NativeEntry.

Fixpoint find_id (r : NativeRegistry) (i : Z) : option NativeEntry :=
  match r with [] => None | e :: r' => if id e =? i then Some e else find_id r' i end.

Fixpoint find_name (r : NativeRegistry) (nm : bytes) : option NativeEntry :=
  match r with [] => None | e :: r' => if equalsIgnoreCase nm (name e) then Some e else find_name r' nm end.

Definition is_none {A} (o : option A) : bool := match o with None => true | Some _ => false end.

(** The four [add]s differ only in the adapter they wrap. *)
Definition add (i : Z) (nm : bytes) (f : NoobFunction S) (r : NativeRegistry) : bool * NativeRegistry :=
  if (MAX_FUNCTIONS <=? length r)%nat || negb (is_none (find_id r i)) || negb (is_none (find_name r nm))
  then (false, r) else (true, r ++ [Entry i nm f]).

Definition printable_ascii (c : byte) : bool := (32 <=? c) && (c <=? 126).

Definition callMixed (e : NativeEntry) (arguments : list Z) (ascii : bytes) : st S NativeResult :=
  if (MAX_ASCII_BYTES <? length ascii)%nat
  then mret (failure (str "ASCII argument exceeds 255 bytes"))
  else if negb (forallb printable_ascii ascii)
  then mret (failure (str "ASCII argument must contain printable ASCII"))
  else fn_callMixed (implementation e) arguments ascii.

Definition call (e : NativeEntry) (arguments : list Z) : st S NativeResult :=
  if negb (acceptsNumbers (implementation e)) then mret (failure (str "numeric call unsupported"))
  else callMixed e arguments [].

Definition callText (e : NativeEntry) (arguments : bytes) : st S NativeResult :=
  if negb (acceptsText (implementation e)) then mret (failure (str "text call unsupported"))
  else fn_callMixed (implementation e) [] arguments.

Fixpoint list_functions (r : NativeRegistry) : bytes :=
  match r with
  | [] => []
  | [e] => print_nat (id e) ++ str ":" ++ name e
  | e :: r' => print_nat (id e) ++ str ":" ++ name e ++ str "," ++ list_functions r'
  end.

(** ** The registry stays a dictionary *)

(** Numbers and names (up to case) are unique, and the table is not full. *)
Definition registry_wf (r : NativeRegistry) : Prop :=
  NoDup (map id r) /\ NoDup (map (fun e => map tolower (name e)) r) /\ (length r <= MAX_FUNCTIONS)%nat.

Lemma find_id_None r i : find_id r i = None <-> i ∉ map id r.
Proof.
  induction r as [|e r IH]; cbn; [split; [intros _ H; by apply elem_of_nil in H|done]|].
  rewrite not_elem_of_cons. destruct (Z.eqb_spec (id e) i) as [->|H]; [naive_solver|].
  rewrite IH. naive_solver.
Qed.

Lemma find_name_None r nm : find_name r nm = None <-> map tolower nm ∉ map (fun e => map tolower (name e)) r.
Proof.
  induction r as [|e r IH]; cbn; [split; [intros _ H; by apply elem_of_nil in H|done]|].
  rewrite not_elem_of_cons. unfold equalsIgnoreCase.
  destruct (bytes_eqb (map tolower nm) (map tolower (name e))) eqn:E; to_prop; [naive_solver|].
  rewrite IH. naive_solver.
Qed.

Lemma is_none_spec {A} (o : option A) : is_none o = true <-> o = None.
Proof. destruct o; naive_solver. Qed.

Lemma find_id_app r1 r2 i :
  find_id (r1 ++ r2) i = match find_id r1 i with Some e => Some e | None => find_id r2 i end.
Proof. induction r1 as [|e r IH]; [done|]. cbn. by destruct (id e =? i). Qed.

Lemma find_name_app r1 r2 nm :
  find_name (r1 ++ r2) nm = match find_name r1 nm with Some e => Some e | None => find_name r2 nm end.
Proof. induction r1 as [|e r IH]; [done|]. cbn. by destruct (equalsIgnoreCase nm (name e)). Qed.

(** registration keeps the native table a dictionary: a successful [add]
    leaves numbers and names (ignoring case) unique, the new function is found
    under its number and under any spelling of its name, every other look-up is
    unchanged; an [add] that fails changes nothing, and fails exactly when the
    table is full or the number or name is taken. *)
Theorem registry_add_correct (i : Z) (nm : bytes) (f : NoobFunction S) (r : NativeRegistry) :
  registry_wf r ->
  let '(added, r') := add i nm f r in
  registry_wf r'
  /\ (added = false <-> length r = MAX_FUNCTIONS \/ is_Some (find_id r i) \/ is_Some (find_name r nm))
  /\ (added = false -> r' = r)
  /\ (added = true ->
        find_id r' i = Some (Entry i nm f)
        /\ (forall nm', map tolower nm' = map tolower nm -> find_name r' nm' = Some (Entry i nm f))
        /\ (forall j, j <> i -> find_id r' j = find_id r j)
        /\ (forall nm', map tolower nm' <> map tolower nm -> find_name r' nm' = find_name r nm')).
Proof.
  intros (Hi & Hn & Hl). unfold add.
  destruct (Nat.leb_spec MAX_FUNCTIONS (length r)) as [Hf|Hf]; cbn [orb].
  { split; [by split_and!|]. split; [|by split]. split; [|done]. intros _. left. lia. }
  destruct (find_id r i) as [e|] eqn:Ei; cbn [is_none negb orb].
  { split; [by split_and!|]. split; [|by split]. split; [|done]. intros _. right; left. eauto. }
  destruct (find_name r nm) as [e|] eqn:En; cbn [is_none negb].
  { split; [by split_and!|]. split; [|by split]. split; [|done]. intros _. right; right. eauto. }
  split; [split_and!|split; [|split; [done|]]].
  - rewrite map_app. apply NoDup_app. split_and!; [done| |by apply NoDup_singleton].
    intros x Hx ->%list_elem_of_singleton. by apply find_id_None in Ei.
  - rewrite map_app. apply NoDup_app. split_and!; [done| |by apply NoDup_singleton].
    intros x Hx ->%list_elem_of_singleton. by apply find_name_None in En.
  - rewrite length_app. cbn. lia.
  - split; [done|]. intros [H|[[e H]|[e H]]]; [lia|done|done].
  - intros _. split_and!.
    + rewrite find_id_app, Ei. cbn. by rewrite Z.eqb_refl.
    + intros nm' E. rewrite find_name_app.
      assert (find_name r nm' = None) as ->; [apply find_name_None; rewrite E; by apply find_name_None|].
      cbn. unfold equalsIgnoreCase. by rewrite E, bytes_eqb_refl.
    + intros j Hj. rewrite find_id_app. destruct (find_id r j); [done|]. cbn.
      destruct (Z.eqb_spec i j); [congruence|done].
    + intros nm' E. rewrite find_name_app. destruct (find_name r nm'); [done|]. cbn.
      unfold equalsIgnoreCase. by apply bytes_eqb_false in E as ->.
Qed.
End functions.

Lemma registry_add_correct_witness :
  find_name (add 7 (str "Led") (NumericFunctionAdapter (S := unit) (fun _ => mret (result true 1 []))) []).2 (str "LED")
  = Some (Entry 7 (str "Led") (NumericFunctionAdapter (fun _ => mret (result true 1 [])))).
Proof.
  pose proof (registry_add_correct 7 (str "Led")
    (NumericFunctionAdapter (S := unit) (fun _ => mret (result true 1 []))) []) as H.
  destruct H as (_ & _ & _ & H); [split_and!; [constructor|constructor|cbn; lia]|].
  destruct (H eq_refl) as (_ & Hn & _). apply Hn. reflexivity.
Defined.
End EspRegistry.
