(* ===== verification/EspVm.v ===== *)
(** * esp/common/src/vm/noob_vm.h/.cpp: the byte-code machine

    Eight 32-bit registers, 256 bytes of memory, programs of at most 1024 bytes
    and a return stack of eight entries.  The machine runs inside a device whose
    state is [S]: [HasVm] says where its own state is, [HasClock] where
    [millis] comes from, and the natives may change anything.  Every array
    access records in [overrun_] whether its index was outside the array. *)
From S2P Require Import Prelude CLib EspRecord EspRegistry.

Open Scope Z_scope.

Module EspVm.
Import EspRegistry.

Inductive VmState := EMPTY | READY | RUNNING | WAITING | HALTED | STOPPED | FAULT.

#[global] Instance VmState_eq_dec : EqDecision VmState.
Proof. solve_decision. Defined.

Definition PROGRAM_BYTES : Z := 1024.
Definition MEMORY_BYTES : Z := 256.
Definition REGISTER_COUNT : Z := 8.
Definition CALL_DEPTH : Z := 8.

Record NoobVm := Vm {
  program_ : bytes; memory_ : bytes; registers_ : list Z; returnStack_ : list Z;
  programLength_ : Z; pc_ : Z; stackDepth_ : Z; wakeAt_ : Z; state_ : VmState;
  faultMessage_ : bytes;
  overrun_ : bool  (** some array was indexed outside its bounds *)
}.

Definition zeros (n : Z) : list Z := repeat 0 (Z.to_nat n).

Definition vm_init : NoobVm :=
  Vm (zeros PROGRAM_BYTES) (zeros MEMORY_BYTES) (zeros REGISTER_COUNT) (zeros CALL_DEPTH)
     0 0 0 0 EMPTY [] false.

Definition is_state (a b : VmState) : bool := bool_decide (a = b).

(** Reading and writing an array; the flag is set outside the bounds. *)
Definition array_get (a : list Z) (i : Z) : Z * bool :=
  (nth (Z.to_nat i) a 0, negb ((0 <=? i) && (i <? Z.of_nat (length a)))).
Definition array_set (a : list Z) (i v : Z) : list Z * bool :=
  (<[Z.to_nat i := v]> a, negb ((0 <=? i) && (i <? Z.of_nat (length a)))).

(** ** Setters *)

Definition set_pc (pc : Z) (v : NoobVm) : NoobVm :=
  Vm (program_ v) (memory_ v) (registers_ v) (returnStack_ v) (programLength_ v) (pc mod 65536)
     (stackDepth_ v) (wakeAt_ v) (state_ v) (faultMessage_ v) (overrun_ v).
Definition set_state (s : VmState) (v : NoobVm) : NoobVm :=
  Vm (program_ v) (memory_ v) (registers_ v) (returnStack_ v) (programLength_ v) (pc_ v)
     (stackDepth_ v) (wakeAt_ v) s (faultMessage_ v) (overrun_ v).
Definition set_wake (t : Z) (v : NoobVm) : NoobVm :=
  Vm (program_ v) (memory_ v) (registers_ v) (returnStack_ v) (programLength_ v) (pc_ v)
     (stackDepth_ v) t (state_ v) (faultMessage_ v) (overrun_ v).
Definition set_fault (m : bytes) (v : NoobVm) : NoobVm :=
  Vm (program_ v) (memory_ v) (registers_ v) (returnStack_ v) (programLength_ v) (pc_ v)
     (stackDepth_ v) (wakeAt_ v) FAULT m (overrun_ v).
Definition set_register (i x : Z) (v : NoobVm) : NoobVm :=
  let '(regs, bad) := array_set (registers_ v) i x in
  Vm (program_ v) (memory_ v) regs (returnStack_ v) (programLength_ v) (pc_ v)
     (stackDepth_ v) (wakeAt_ v) (state_ v) (faultMessage_ v) (overrun_ v || bad).
Definition set_memory (i x : Z) (v : NoobVm) : NoobVm :=
  let '(mem, bad) := array_set (memory_ v) i x in
  Vm (program_ v) mem (registers_ v) (returnStack_ v) (programLength_ v) (pc_ v)
     (stackDepth_ v) (wakeAt_ v) (state_ v) (faultMessage_ v) (overrun_ v || bad).
Definition set_stack (i x depth : Z) (v : NoobVm) : NoobVm :=
  let '(stk, bad) := array_set (returnStack_ v) i x in
  Vm (program_ v) (memory_ v) (registers_ v) stk (programLength_ v) (pc_ v)
     depth (wakeAt_ v) (state_ v) (faultMessage_ v) (overrun_ v || bad).
Definition set_depth (depth : Z) (v : NoobVm) : NoobVm :=
  Vm (program_ v) (memory_ v) (registers_ v) (returnStack_ v) (programLength_ v) (pc_ v)
     depth (wakeAt_ v) (state_ v) (faultMessage_ v) (overrun_ v).
Definition flag (bad : bool) (v : NoobVm) : NoobVm :=
  Vm (program_ v) (memory_ v) (registers_ v) (returnStack_ v) (programLength_ v) (pc_ v)
     (stackDepth_ v) (wakeAt_ v) (state_ v) (faultMessage_ v) (overrun_ v || bad).

(** ** Control *)

Definition busy (v : NoobVm) : bool := is_state (state_ v) RUNNING || is_state (state_ v) WAITING.

(** [inl] is the error text. *)
Definition load (program : bytes) (v : NoobVm) : bytes + NoobVm :=
  let length := Z.of_nat (length program) in
  if (length =? 0) || (PROGRAM_BYTES <? length) then inl (str "program size must be 1..1024 bytes")
  else if busy v then inl (str "stop VM before replacing program")
  else inr (Vm (program ++ drop (Z.to_nat length) (program_ v)) (zeros MEMORY_BYTES) (zeros REGISTER_COUNT)
               (returnStack_ v) length 0 0 (wakeAt_ v) READY [] (overrun_ v)).

Definition run (v : NoobVm) : bytes + NoobVm :=
  if programLength_ v =? 0 then inl (str "no program loaded")
  else if busy v then inl (str "VM already running")
  else inr (set_state RUNNING (set_depth 0 (set_pc 0 v))).

Definition stop (v : NoobVm) : NoobVm := if busy v then set_state STOPPED v else v.

Definition reset (v : NoobVm) : NoobVm :=
  Vm (zeros PROGRAM_BYTES) (zeros MEMORY_BYTES) (zeros REGISTER_COUNT) (returnStack_ v) 0 0 0
     (wakeAt_ v) EMPTY [] (overrun_ v).

Definition stateName (s : VmState) : bytes :=
  match s with
  | EMPTY => str "EMPTY" | READY => str "READY" | RUNNING => str "RUNNING" | WAITING => str "WAITING"
  | HALTED => str "HALTED" | STOPPED => str "STOPPED" | FAULT => str "FAULT"
  end.

Fixpoint print_registers (l : list Z) : bytes :=
  match l with
  | [] => []
  | [x] => print_int x
  | x :: l' => print_int x ++ str "," ++ print_registers l'
  end.

Definition status (v : NoobVm) : bytes :=
  str "state=" ++ stateName (state_ v) ++ str " pc=" ++ print_nat (pc_ v) ++ str " bytes="
  ++ print_nat (programLength_ v) ++ str " regs=" ++ print_registers (registers_ v)
  ++ (match faultMessage_ v with [] => [] | m => str " fault=" ++ m end).

Definition reg (index : Z) (v : NoobVm) : Z :=
  if index <? REGISTER_COUNT then nth (Z.to_nat index) (registers_ v) 0 else 0.

(** ** The interfaces *)

(** A device holds a machine. *)
Class HasVm (S : Type) := {
  vm_of : S -> NoobVm;
  put_vm : NoobVm -> S -> S;
  vm_of_put v s : vm_of (put_vm v s) = v;
  put_put v w s : put_vm v (put_vm w s) = put_vm v s;
  put_vm_of s : put_vm (vm_of s) s = s }.

(** A device has a 32-bit millisecond clock, which is not the machine. *)
Class HasClock (S : Type) `{HasVm S} := {
  millis : st S Z;
  millis_range s : 0 <= (millis s).1 < 2 ^ 32;
  millis_vm s : vm_of (millis s).2 = vm_of s;
  millis_put v s : millis (put_vm v s) = ((millis s).1, put_vm v (millis s).2) }.

Section machine.
Context {S : Type} `{HasClock S} (natives : NativeRegistry (S := S)).

Definition get_vm {A} (f : NoobVm -> A) : st S A := gets (fun s => f (vm_of s)).
Definition upd_vm (f : NoobVm -> NoobVm) : st S unit := modify (fun s => put_vm (f (vm_of s)) s).

Definition fault (message : bytes) : st S unit := upd_vm (set_fault message).

Definition need (n : Z) : st S bool :=
  fits ← get_vm (fun v => pc_ v + n <=? programLength_ v);
  if fits : bool then mret true else fault (str "truncated instruction") ;; mret false.

Definition read8 : st S Z :=
  r ← get_vm (fun v => array_get (program_ v) (pc_ v));
  upd_vm (fun v => flag r.2 (set_pc (pc_ v + 1) v)) ;; mret r.1.

(** The low byte first; both bytes are read before [pc_] moves. *)
Definition read16 : st S Z :=
  lo ← get_vm (fun v => array_get (program_ v) (pc_ v));
  hi ← get_vm (fun v => array_get (program_ v) (pc_ v + 1));
  upd_vm (fun v => flag (lo.2 || hi.2) (set_pc (pc_ v + 2) v)) ;;
  mret (Z.lor lo.1 (Z.shiftl hi.1 8)).

Definition read32 : st S Z :=
  b0 ← read8; b1 ← read8; b2 ← read8; b3 ← read8;
  mret (i32 (Z.lor (Z.lor (Z.lor b0 (Z.shiftl b1 8)) (Z.shiftl b2 16)) (Z.shiftl b3 24))).

Definition validRegister (index : Z) : st S bool :=
  if index <? REGISTER_COUNT then mret true else fault (str "invalid register") ;; mret false.

(** [validRegister(a) && validRegister(b)]. *)
Definition validRegisters (l : list Z) : st S bool := for_all_ok validRegister l.

Definition get_register (i : Z) : st S Z :=
  r ← get_vm (fun v => array_get (registers_ v) i);
  upd_vm (flag r.2) ;; mret r.1.

Definition put_register (i v : Z) : st S unit := upd_vm (set_register i v).

(** Integer division truncates; an overflow wraps around. *)
Definition arith (opcode a b : Z) : Z :=
  i32 (if opcode =? 3 then a + b else if opcode =? 4 then a - b
       else if opcode =? 5 then a * b else Z.quot a b).

Definition jump (target : Z) : st S unit :=
  outside ← get_vm (fun v => programLength_ v <=? target);
  if outside : bool then fault (str "jump outside program") else upd_vm (set_pc target).

(** The registers named by the next [count] bytes; [None] after a fault. *)
Fixpoint read_args (count : nat) : st S (option (list Z)) :=
  match count with
  | O => mret (Some [])
  | Datatypes.S k =>
      r ← read8;
      okr ← validRegister r;
      if negb okr then mret None
      else v ← get_register r;
           rest ← read_args k;
           mret (match rest with Some l => Some (v :: l) | None => None end)
  end.

Fixpoint read_bytes (count : nat) : st S bytes :=
  match count with
  | O => mret []
  | Datatypes.S k => c ← read8; rest ← read_bytes k; mret (c :: rest)
  end.

(** The text of a mixed call; [None] after a fault. *)
Definition read_text (opcode : Z) : st S (option bytes) :=
  if opcode =? 34 then
    okn ← need 1;
    if negb okn then mret None
    else len ← read8;
         okn ← need len;
         if negb okn then mret None else t ← read_bytes (Z.to_nat len); mret (Some t)
  else mret (Some []).

(** The native call itself; the value is an [int32_t]. *)
Definition invoke_native (opcode d i : Z) (args : list Z) (ascii : bytes) : st S unit :=
  let unknown := fault (str "unknown numeric syscall") in
  match find_id natives i with
  | None => unknown
  | Some entry =>
      if (opcode =? 32) && negb (acceptsNumbers (implementation entry)) then unknown
      else r ← callMixed entry args ascii;
           if negb (ok r) then fault (str "syscall " ++ print_nat i ++ str ": " ++ detail r)
           else put_register d (i32 (value r))
  end.

Definition syscall (opcode : Z) : st S unit :=
  okn ← need 4;
  if negb okn then mret tt
  else
  d ← read8; i ← read16; count ← read8;
  okd ← validRegister d;
  if negb okd then mret tt
  else if REGISTER_COUNT <? count then fault (str "too many syscall arguments")
  else
  okn ← need count;
  if negb okn then mret tt
  else
  args ← read_args (Z.to_nat count);
  match args with
  | None => mret tt
  | Some args =>
      text ← read_text opcode;
      match text with
      | None => mret tt
      | Some ascii => invoke_native opcode d i args ascii
      end
  end.

(** The instructions of one kind, after the opcode. *)
Definition op_load_immediate : st S unit :=
  okn ← need 5;
  if negb okn then mret tt
  else d ← read8; v ← read32; okd ← validRegister d; when okd (put_register d v).

Definition op_move : st S unit :=
  okn ← need 2;
  if negb okn then mret tt
  else d ← read8; s ← read8; okr ← validRegisters [d; s];
       if negb okr then mret tt else x ← get_register s; put_register d x.

Definition op_arith (opcode : Z) : st S unit :=
  okn ← need 3;
  if negb okn then mret tt
  else d ← read8; a ← read8; b ← read8; okr ← validRegisters [d; a; b];
       if negb okr then mret tt
       else x ← get_register a; y ← get_register b;
            if (opcode =? 6) && (y =? 0) then fault (str "division by zero")
            else put_register d (arith opcode x y).

Definition op_jump : st S unit :=
  okn ← need 2;
  if negb okn then mret tt else target ← read16; jump target.

Definition op_branch (opcode : Z) : st S unit :=
  okn ← need 3;
  if negb okn then mret tt
  else r ← read8; target ← read16; okr ← validRegister r;
       if negb okr then mret tt
       else x ← get_register r;
            if (if opcode =? 17 then x =? 0 else negb (x =? 0)) then jump target else mret tt.

Definition op_call : st S unit :=
  okn ← need 2;
  if negb okn then mret tt
  else target ← read16;
       bad ← get_vm (fun v => (programLength_ v <=? target) || (CALL_DEPTH <=? stackDepth_ v));
       if bad : bool then fault (str "invalid call")
       else upd_vm (fun v => set_stack (stackDepth_ v) (pc_ v) (stackDepth_ v + 1) v) ;;
            upd_vm (set_pc target).

Definition op_return : st S unit :=
  depth ← get_vm stackDepth_;
  if depth =? 0 then fault (str "return stack empty")
  else upd_vm (set_depth (depth - 1)) ;;
       r ← get_vm (fun v => array_get (returnStack_ v) (stackDepth_ v));
       upd_vm (fun v => flag r.2 (set_pc r.1 v)).

Definition op_wait : st S unit :=
  okn ← need 2;
  if negb okn then mret tt
  else now ← millis; d ← read16;
       upd_vm (fun v => set_state WAITING (set_wake (u32 (now + d)) v)).

Definition op_load : st S unit :=
  okn ← need 2;
  if negb okn then mret tt
  else d ← read8; address ← read8; okd ← validRegister d;
       when okd (r ← get_vm (fun v => array_get (memory_ v) address);
                 upd_vm (flag r.2) ;; put_register d r.1).

Definition op_store : st S unit :=
  okn ← need 2;
  if negb okn then mret tt
  else address ← read8; s ← read8; oks ← validRegister s;
       when oks (x ← get_register s; upd_vm (set_memory address (Z.land x 255))).

Definition executeOne : st S unit :=
  okn ← need 1;
  if negb okn then mret tt
  else
  opcode ← read8;
  if opcode =? 0 then upd_vm (set_state HALTED)
  else if opcode =? 1 then op_load_immediate
  else if opcode =? 2 then op_move
  else if (3 <=? opcode) && (opcode <=? 6) then op_arith opcode
  else if opcode =? 16 then op_jump
  else if (opcode =? 17) || (opcode =? 18) then op_branch opcode
  else if opcode =? 19 then op_call
  else if opcode =? 20 then op_return
  else if (opcode =? 32) || (opcode =? 34) then syscall opcode
  else if opcode =? 33 then op_wait
  else if opcode =? 48 then op_load
  else if opcode =? 49 then op_store
  else fault (str "unknown opcode " ++ print_nat opcode).

(** [while (state_ == RUNNING && instructionBudget--) executeOne();]. *)
Fixpoint execute_loop (budget : nat) : st S unit :=
  match budget with
  | O => mret tt
  | Datatypes.S k => running ← get_vm (fun v => is_state (state_ v) RUNNING);
                     if running : bool then executeOne ;; execute_loop k else mret tt
  end.

Definition tick (budget : nat) : st S unit :=
  waiting ← get_vm (fun v => is_state (state_ v) WAITING);
  if waiting : bool then
    now ← millis;
    wake ← get_vm wakeAt_;
    if i32 (u32 (now - wake)) <? 0 then mret tt
    else upd_vm (set_state RUNNING) ;; execute_loop budget
  else execute_loop budget.
End machine.
End EspVm.
