(* ===== verification/EspVmFacts.v ===== *)
(** * The byte-code machine never leaves its arrays

    A small program logic for the machine's commands ([triple]), the invariant
    [vm_wf] of its state and its preservation by every operation. *)
From S2P Require Import Prelude CLib EspRecord EspRegistry EspVm.

Open Scope Z_scope.

Module EspVmFacts.
Import EspRegistry EspVm.

(** ** The invariant *)

Definition vm_wf (v : NoobVm) : Prop :=
  length (program_ v) = Z.to_nat PROGRAM_BYTES /\ bytes_ok (program_ v)
  /\ length (memory_ v) = Z.to_nat MEMORY_BYTES /\ bytes_ok (memory_ v)
  /\ length (registers_ v) = Z.to_nat REGISTER_COUNT /\ Forall int32 (registers_ v)
  /\ length (returnStack_ v) = Z.to_nat CALL_DEPTH
  /\ 0 <= programLength_ v <= PROGRAM_BYTES /\ 0 <= pc_ v <= programLength_ v
  /\ 0 <= stackDepth_ v <= CALL_DEPTH
  /\ Forall (fun a => 0 <= a <= programLength_ v) (take (Z.to_nat (stackDepth_ v)) (returnStack_ v))
  /\ overrun_ v = false.

#[global] Instance vm_wf_dec v : Decision (vm_wf v).
Proof. unfold vm_wf. apply _. Defined.

(** ... with [k] more bytes of program after [pc_]. *)
Definition room (k : Z) (v : NoobVm) : Prop := vm_wf v /\ pc_ v + k <= programLength_ v.

Lemma array_get_ok a i : 0 <= i < Z.of_nat (length a) -> exists x, array_get a i = (x, false) /\ x ∈ a.
Proof.
  intros Hi. unfold array_get. destruct (Z.leb_spec 0 i); [|lia]. destruct (Z.ltb_spec i (Z.of_nat (length a))); [|lia].
  eexists. split; [reflexivity|]. apply list_elem_of_In, nth_In. lia.
Qed.

Lemma array_set_ok a i x :
  0 <= i < Z.of_nat (length a) -> array_set a i x = (<[Z.to_nat i := x]> a, false).
Proof.
  intros Hi. unfold array_set. destruct (Z.leb_spec 0 i); [|lia].
  by destruct (Z.ltb_spec i (Z.of_nat (length a))); [|lia].
Qed.

Lemma room_le k k' v : room k v -> k' <= k -> room k' v.
Proof. intros [H1 H2] Hk. split; [done|lia]. Qed.

Lemma room_wf k v : room k v -> vm_wf v.
Proof. by intros [H _]. Qed.

Lemma room_0 v : vm_wf v <-> room 0 v.
Proof. split; [|by intros [? _]]. intros H. split; [done|]. destruct H as (_ & _ & _ & _ & _ & _ & _ & _ & Hp & _). lia. Qed.

Ltac wf_split := repeat match goal with |- _ /\ _ => split end; cbn [program_ memory_ registers_ returnStack_
  programLength_ pc_ stackDepth_ wakeAt_ state_ faultMessage_ overrun_]; try assumption; try lia.

Lemma set_state_room k st v : room k v -> room k (set_state st v).
Proof. intros [H Hk]. split; [|exact Hk]. exact H. Qed.

Lemma set_wake_room k t v : room k v -> room k (set_wake t v).
Proof. intros [H Hk]. split; [|exact Hk]. exact H. Qed.

Lemma set_fault_wf m v : vm_wf v -> vm_wf (set_fault m v).
Proof. intros H. exact H. Qed.

Lemma flag_false v : flag false v = v.
Proof. destruct v. unfold flag. cbn. by rewrite orb_false_r. Qed.

Lemma set_pc_wf pc v : vm_wf v -> 0 <= pc <= programLength_ v -> vm_wf (set_pc pc v).
Proof.
  intros (H1 & H2 & H3 & H4 & H5 & H6 & H7 & H8 & H9 & H10 & H11 & H12) Hpc.
  unfold vm_wf, set_pc, PROGRAM_BYTES in *. wf_split. rewrite Z.mod_small; lia.
  rewrite Z.mod_small; lia.
Qed.

Lemma set_pc_advance k n v : 0 <= n -> 0 <= k -> room (n + k) v -> room k (set_pc (pc_ v + n) v).
Proof.
  intros Hn Hk0 [H Hk]. pose proof H as (_ & _ & _ & _ & _ & _ & _ & H8 & H9 & _). unfold PROGRAM_BYTES in H8.
  split; [apply set_pc_wf; [done|lia]|]. cbn [set_pc pc_ programLength_]. rewrite Z.mod_small by lia. lia.
Qed.

Lemma set_register_wf i x v : vm_wf v -> 0 <= i < 8 -> int32 x -> vm_wf (set_register i x v).
Proof.
  intros (H1 & H2 & H3 & H4 & H5 & H6 & H7 & H8 & H9 & H10 & H11 & H12) Hi Hx.
  unfold set_register. rewrite array_set_ok by (rewrite H5; exact Hi). unfold vm_wf. wf_split.
  - by rewrite length_insert.
  - by apply Forall_insert.
  - by rewrite H12.
Qed.

Lemma set_memory_wf i x v : vm_wf v -> 0 <= i < 256 -> byte_ok x -> vm_wf (set_memory i x v).
Proof.
  intros (H1 & H2 & H3 & H4 & H5 & H6 & H7 & H8 & H9 & H10 & H11 & H12) Hi Hx.
  unfold set_memory. rewrite array_set_ok by (rewrite H3; exact Hi). unfold vm_wf. wf_split.
  - by rewrite length_insert.
  - by apply Forall_insert.
  - by rewrite H12.
Qed.

Lemma push_return_wf v :
  vm_wf v -> stackDepth_ v < 8 ->
  vm_wf (set_stack (stackDepth_ v) (pc_ v) (stackDepth_ v + 1) v).
Proof.
  intros (H1 & H2 & H3 & H4 & H5 & H6 & H7 & H8 & H9 & H10 & H11 & H12) Hd.
  unfold set_stack. rewrite array_set_ok by (rewrite H7; unfold CALL_DEPTH in *; lia). unfold vm_wf, CALL_DEPTH in *. wf_split.
  - by rewrite length_insert.
  - replace (Z.to_nat (stackDepth_ v + 1)) with (Datatypes.S (Z.to_nat (stackDepth_ v))) by lia.
    erewrite take_S_r; [|apply list_lookup_insert_eq; rewrite H7; lia].
    rewrite take_insert_ge by lia. apply Forall_app. split; [done|]. by constructor.
  - by rewrite H12.
Qed.

Lemma set_depth_wf d v : vm_wf v -> 0 <= d <= stackDepth_ v -> vm_wf (set_depth d v).
Proof.
  intros (H1 & H2 & H3 & H4 & H5 & H6 & H7 & H8 & H9 & H10 & H11 & H12) Hd.
  unfold vm_wf, set_depth, CALL_DEPTH in *. wf_split.
  replace (take (Z.to_nat d) (returnStack_ v)) with (take (Z.to_nat d) (take (Z.to_nat (stackDepth_ v)) (returnStack_ v)))
    by (rewrite take_take; f_equal; lia). by apply Forall_take.
Qed.

(** ** The program logic *)

Section logic.
Context {S : Type} `{HasClock S}.

(** From a machine state of [P], the command ends with a result and a machine
    state of [Q]. *)
Definition triple {A} (P : NoobVm -> Prop) (m : st S A) (Q : A -> NoobVm -> Prop) : Prop :=
  forall s, P (vm_of s) -> Q (m s).1 (vm_of (m s).2).

Lemma triple_ret {A} (P : NoobVm -> Prop) (a : A) (Q : A -> NoobVm -> Prop) :
  (forall v, P v -> Q a v) -> triple P (mret a) Q.
Proof. intros HQ s. apply HQ. Qed.

Lemma triple_bind {A B} P (m : st S A) (f : A -> st S B) (R : A -> NoobVm -> Prop) Q :
  triple P m R -> (forall a, triple (R a) (f a) Q) -> triple P (m ≫= f) Q.
Proof. intros Hm Hf s Hs. rewrite st_bind_run. apply Hf, Hm, Hs. Qed.

Lemma triple_weaken {A} (P P' : NoobVm -> Prop) (m : st S A) (Q Q' : A -> NoobVm -> Prop) :
  (forall v, P v -> P' v) -> triple P' m Q' -> (forall a v, Q' a v -> Q a v) -> triple P m Q.
Proof. intros HP Hm HQ s Hs. apply HQ, Hm, HP, Hs. Qed.

(** A fact about the results so far moves into the context. *)
Lemma triple_pure {A} (φ : Prop) P (m : st S A) Q :
  (φ -> triple P m Q) -> triple (fun v => φ /\ P v) m Q.
Proof. intros Hm s [Hφ Hs]. by apply Hm. Qed.

Lemma triple_pre {A} (P P' : NoobVm -> Prop) (m : st S A) Q :
  (forall v, P v -> P' v) -> triple P' m Q -> triple P m Q.
Proof. intros HP Hm s Hs. by apply Hm, HP. Qed.

Lemma triple_upd P f (Q : unit -> NoobVm -> Prop) :
  (forall v, P v -> Q tt (f v)) -> triple P (upd_vm f) Q.
Proof. intros HQ s Hs. cbn. rewrite vm_of_put. by apply HQ. Qed.

Lemma triple_get {A} P (f : NoobVm -> A) (Q : A -> NoobVm -> Prop) :
  (forall v, P v -> Q (f v) v) -> triple P (get_vm f) Q.
Proof. intros HQ s Hs. by apply HQ. Qed.

Lemma triple_millis (P : NoobVm -> Prop) : triple P millis (fun t v => 0 <= t < 2 ^ 32 /\ P v).
Proof. intros s Hs. split; [apply millis_range|]. by rewrite millis_vm. Qed.

Lemma triple_if {A} P (b : bool) (m1 m2 : st S A) Q :
  (b = true -> triple P m1 Q) -> (b = false -> triple P m2 Q) -> triple P (if b then m1 else m2) Q.
Proof. destruct b; auto. Qed.

(** Only the invariant matters in the end. *)
Definition safe {A} : A -> NoobVm -> Prop := fun _ v => vm_wf v.

Lemma fault_safe m P : (forall v, P v -> vm_wf v) -> triple P (fault m) safe.
Proof. intros HP. apply triple_upd. intros v Hv. by apply set_fault_wf, HP. Qed.

Lemma need_ok n : triple vm_wf (need n) (fun b v => if b then room n v else vm_wf v).
Proof.
  unfold need. eapply triple_bind; [apply (triple_get _ _ (fun b v => vm_wf v /\ b = (pc_ v + n <=? programLength_ v))); auto|].
  intros b. apply triple_if; intros ->.
  - apply triple_ret. intros v [Hv E]. split; [done|]. by apply Z.leb_le.
  - eapply triple_bind; [apply fault_safe; by intros v [? _]|]. intros []. by apply triple_ret.
Qed.

Lemma program_byte k v :
  0 <= k -> room (k + 1) v -> exists x, array_get (program_ v) (pc_ v + k) = (x, false) /\ byte_ok x.
Proof.
  intros Hk [Hw Hr]. pose proof Hw as (H1 & H2 & _ & _ & _ & _ & _ & H8 & H9 & _).
  destruct (array_get_ok (program_ v) (pc_ v + k)) as (x & E & Hx); [rewrite H1; unfold PROGRAM_BYTES in *; lia|].
  exists x. split; [done|]. by eapply Forall_forall in H2.
Qed.

Lemma read8_ok k : 0 <= k -> triple (room (1 + k)) read8 (fun x v => byte_ok x /\ room k v).
Proof.
  intros Hk s Hs. unfold read8, get_vm, upd_vm. rewrite !st_bind_run. cbn [gets modify fst snd mret st_ret].
  destruct (program_byte 0 (vm_of s)) as (x & E & Hx); [lia|by eapply room_le; [exact Hs|lia]|].
  rewrite Z.add_0_r in E. rewrite E. cbn [fst snd]. rewrite vm_of_put, flag_false.
  split; [done|]. by apply set_pc_advance; [lia|lia|].
Qed.

Lemma read16_ok k : 0 <= k -> triple (room (2 + k)) read16 (fun x v => 0 <= x < 65536 /\ room k v).
Proof.
  intros Hk s Hs. unfold read16, get_vm, upd_vm. rewrite !st_bind_run. cbn [gets modify fst snd mret st_ret].
  destruct (program_byte 0 (vm_of s)) as (x & Ex & Hx); [lia|by eapply room_le; [exact Hs|lia]|].
  destruct (program_byte 1 (vm_of s)) as (y & Ey & Hy); [lia|by eapply room_le; [exact Hs|lia]|].
  rewrite Z.add_0_r in Ex. rewrite Ex, Ey. cbn [fst snd orb]. rewrite vm_of_put, flag_false.
  split; [|by apply set_pc_advance; [lia|lia|]]. unfold byte_ok in *.
  assert (E : Z.lor x (Z.shiftl y 8) = x + y * 256).
  { rewrite Z.lor_comm, lor_shiftl by lia. change (2 ^ 8) with 256. lia. }
  rewrite E. lia.
Qed.

(** The same as rules for sequencing; [j] bytes are left before the read. *)
Lemma bind_read8 {A} j k (f : Z -> st S A) Q :
  0 <= k -> 1 + k <= j -> (forall x, byte_ok x -> triple (room k) (f x) Q) -> triple (room j) (read8 ≫= f) Q.
Proof.
  intros Hk Hj Hf. apply (triple_pre _ (room (1 + k))); [intros v Hv; by eapply room_le|].
  eapply triple_bind; [by apply read8_ok|]. intros x. by apply triple_pure, Hf.
Qed.

Lemma bind_read16 {A} j k (f : Z -> st S A) Q :
  0 <= k -> 2 + k <= j -> (forall x, 0 <= x < 65536 -> triple (room k) (f x) Q) ->
  triple (room j) (read16 ≫= f) Q.
Proof.
  intros Hk Hj Hf. apply (triple_pre _ (room (2 + k))); [intros v Hv; by eapply room_le|].
  eapply triple_bind; [by apply read16_ok|]. intros x. by apply triple_pure, Hf.
Qed.

Lemma bind_read32 {A} j k (f : Z -> st S A) Q :
  0 <= k -> 4 + k <= j -> (forall x, int32 x -> triple (room k) (f x) Q) ->
  triple (room j) (read32 ≫= f) Q.
Proof.
  intros Hk Hj Hf. eapply (triple_bind _ _ _ (fun x v => int32 x /\ room k v)).
  - unfold read32. apply (bind_read8 _ (3 + k)); [lia|lia|]. intros b0 _.
    apply (bind_read8 _ (2 + k)); [lia|lia|]. intros b1 _. apply (bind_read8 _ (1 + k)); [lia|lia|]. intros b2 _.
    apply (bind_read8 _ k); [lia|lia|]. intros b3 _.
    apply triple_ret. intros v Hv. split; [apply i32_int32|done].
  - intros x. by apply triple_pure, Hf.
Qed.

Lemma bind_need {A} n (f : bool -> st S A) Q :
  triple (room n) (f true) Q -> triple vm_wf (f false) Q -> triple vm_wf (need n ≫= f) Q.
Proof. intros H1 H2. eapply triple_bind; [apply need_ok|]. by intros []. Qed.

Lemma validRegister_ok k i :
  triple (room k) (validRegister i) (fun b v => if b then i < 8 /\ room k v else vm_wf v).
Proof.
  unfold validRegister, REGISTER_COUNT. apply triple_if; intros E; to_prop.
  - by apply triple_ret.
  - eapply triple_bind; [apply fault_safe; apply room_wf|]. intros []. by apply triple_ret.
Qed.

Lemma get_register_ok k i : 0 <= i < 8 -> triple (room k) (get_register i) (fun x v => int32 x /\ room k v).
Proof.
  intros Hi s Hs. unfold get_register, get_vm, upd_vm. rewrite !st_bind_run. cbn [gets modify fst snd mret st_ret].
  pose proof Hs as [(_ & _ & _ & _ & H5 & H6 & _) _].
  destruct (array_get_ok (registers_ (vm_of s)) i) as (x & E & Hx); [rewrite H5; exact Hi|].
  rewrite E. cbn [fst snd]. rewrite vm_of_put, flag_false. split; [|done]. by eapply Forall_forall in H6.
Qed.

Lemma bind_valid {A} k i (f : bool -> st S A) Q :
  (i < 8 -> triple (room k) (f true) Q) -> triple vm_wf (f false) Q ->
  triple (room k) (validRegister i ≫= f) Q.
Proof.
  intros H1 H2. eapply triple_bind; [apply validRegister_ok|]. intros []; [|done]. by apply triple_pure.
Qed.

Lemma bind_get_register {A} k i (f : Z -> st S A) Q :
  0 <= i < 8 -> (forall x, int32 x -> triple (room k) (f x) Q) -> triple (room k) (get_register i ≫= f) Q.
Proof.
  intros Hi Hf. eapply triple_bind; [by apply get_register_ok|]. intros x. by apply triple_pure, Hf.
Qed.

Lemma put_register_ok i x : 0 <= i < 8 -> int32 x -> triple vm_wf (put_register i x) safe.
Proof. intros Hi Hx. apply triple_upd. intros v Hv. by apply set_register_wf. Qed.

Lemma jump_ok target : 0 <= target -> triple vm_wf (jump target) safe.
Proof.
  intros Ht. unfold jump. eapply triple_bind;
    [apply (triple_get _ _ (fun b v => vm_wf v /\ b = (programLength_ v <=? target))); auto|].
  intros b. apply triple_if; intros ->; [apply fault_safe; by intros v [? _]|].
  apply triple_upd. intros v [Hv E]. symmetry in E. to_prop. apply set_pc_wf; [done|lia].
Qed.

Lemma for_all_ok_valid k l :
  triple (room k) (validRegisters l) (fun b v => if b then Forall (fun i => i < 8) l /\ room k v else vm_wf v).
Proof.
  unfold validRegisters. induction l as [|i l IH]; cbn [for_all_ok]; [by apply triple_ret|].
  eapply triple_bind; [apply validRegister_ok|]. intros []; cbv iota.
  - apply triple_pure. intros Hi. eapply triple_weaken; [intros v Hv; exact Hv|exact IH|].
    intros [] v Hv; [|done]. destruct Hv. split; [by constructor|done].
  - by apply triple_ret.
Qed.

(** What the natives promise: they keep the machine's invariant (some load or
    stop programs). *)
Definition natives_safe (natives : NativeRegistry (S := S)) : Prop :=
  forall e args ascii, e ∈ natives ->
    triple vm_wf (fn_callMixed (implementation e) args ascii) (fun _ => vm_wf).

Context (natives : NativeRegistry (S := S)) (Hnatives : natives_safe natives).

Lemma find_id_In r i e : find_id (S := S) r i = Some e -> e ∈ r.
Proof.
  induction r as [|x r IH]; [done|]. cbn. destruct (id x =? i); [intros [= ->]; left|]. intros H'. right. by apply IH.
Qed.

Lemma callMixed_ok e args ascii :
  e ∈ natives -> triple vm_wf (callMixed e args ascii) (fun _ => vm_wf).
Proof.
  intros He. unfold callMixed.
  repeat (apply triple_if; intros _; [by apply triple_ret|]).
  by apply Hnatives.
Qed.

Lemma ret_safe {A} (a : A) k : triple (room k) (mret a) safe.
Proof. apply triple_ret. apply room_wf. Qed.

Lemma ret_wf {A} (a : A) : triple vm_wf (mret a) safe.
Proof. by apply triple_ret. Qed.

Lemma room_fault m k : triple (room k) (fault m) safe.
Proof. apply fault_safe, room_wf. Qed.

Lemma wf_fault m : triple vm_wf (fault m) safe.
Proof. by apply fault_safe. Qed.

Lemma room_put i x k : 0 <= i < 8 -> int32 x -> triple (room k) (put_register i x) safe.
Proof. intros. eapply triple_pre; [apply room_wf|]. by apply put_register_ok. Qed.

Lemma room_jump target k : 0 <= target -> triple (room k) (jump target) safe.
Proof. intros. eapply triple_pre; [apply room_wf|]. by apply jump_ok. Qed.
#[local] Hint Resolve ret_safe ret_wf room_fault wf_fault : noobia.

(** ** The instructions *)

Lemma op_load_immediate_safe : triple vm_wf op_load_immediate safe.
Proof.
  unfold op_load_immediate. apply bind_need; cbn [negb]; auto with noobia.
  apply (bind_read8 _ 4); [lia|lia|]. intros d Hd. apply (bind_read32 _ 0); [lia|lia|]. intros x Hx.
  unfold byte_ok in Hd. apply bind_valid; cbn [when]; auto with noobia. intros. by apply room_put; [lia|].
Qed.

Lemma bind_valids {A} k l (f : bool -> st S A) Q :
  (Forall (fun i => i < 8) l -> triple (room k) (f true) Q) -> triple vm_wf (f false) Q ->
  triple (room k) (validRegisters l ≫= f) Q.
Proof.
  intros H1 H2. eapply triple_bind; [apply for_all_ok_valid|]. intros []; [|done]. by apply triple_pure.
Qed.

Lemma op_move_safe : triple vm_wf op_move safe.
Proof.
  unfold op_move. apply bind_need; cbn [negb]; auto with noobia.
  apply (bind_read8 _ 1); [lia|lia|]. intros d Hd. apply (bind_read8 _ 0); [lia|lia|]. intros r Hr.
  unfold byte_ok in *. apply bind_valids; cbn [negb]; auto with noobia.
  rewrite !Forall_cons. intros (H1 & H2 & _). apply bind_get_register; [lia|]. intros x Hx.
  by apply room_put; [lia|].
Qed.

Lemma op_arith_safe opcode : triple vm_wf (op_arith opcode) safe.
Proof.
  unfold op_arith. apply bind_need; cbn [negb]; auto with noobia.
  apply (bind_read8 _ 2); [lia|lia|]. intros d Hd. apply (bind_read8 _ 1); [lia|lia|]. intros a Ha.
  apply (bind_read8 _ 0); [lia|lia|]. intros b Hb. unfold byte_ok in *.
  apply bind_valids; cbn [negb]; auto with noobia. rewrite !Forall_cons. intros (H1 & H2 & H3 & _).
  apply bind_get_register; [lia|]. intros x Hx. apply bind_get_register; [lia|]. intros y Hy.
  apply triple_if; intros _; [apply room_fault|]. apply room_put; [lia|apply i32_int32].
Qed.

Lemma op_jump_safe : triple vm_wf op_jump safe.
Proof.
  unfold op_jump. apply bind_need; cbn [negb]; auto with noobia.
  apply (bind_read16 _ 0); [lia|lia|]. intros t Ht. apply room_jump. lia.
Qed.

Lemma op_branch_safe opcode : triple vm_wf (op_branch opcode) safe.
Proof.
  unfold op_branch. apply bind_need; cbn [negb]; auto with noobia.
  apply (bind_read8 _ 2); [lia|lia|]. intros r Hr. apply (bind_read16 _ 0); [lia|lia|]. intros t Ht.
  unfold byte_ok in *. apply bind_valid; cbn [negb]; auto with noobia. intros Hr8.
  apply bind_get_register; [lia|]. intros x _. apply triple_if; intros _; [apply room_jump; lia|apply ret_safe].
Qed.

Lemma op_call_safe : triple vm_wf op_call safe.
Proof.
  unfold op_call. apply bind_need; cbn [negb]; auto with noobia.
  apply (bind_read16 _ 0); [lia|lia|]. intros t Ht.
  eapply triple_bind; [apply (triple_get _ _ (fun b v => vm_wf v /\ b = (programLength_ v <=? t) || (CALL_DEPTH <=? stackDepth_ v)));
    intros v [Hv _]; auto|].
  intros b. apply triple_if; intros ->; [apply fault_safe; by intros v [? _]|].
  eapply triple_bind; [apply (triple_upd _ _ (fun _ v => vm_wf v /\ t < programLength_ v))|].
  - intros v [Hv E]. symmetry in E. to_prop. unfold CALL_DEPTH in *. split; [apply push_return_wf; [done|lia]|].
    unfold set_stack. destruct (array_set _ _ _). done.
  - intros []. apply triple_upd. intros v [Hv Hlt]. apply set_pc_wf; [done|lia].
Qed.

Lemma return_address v d :
  vm_wf v -> 0 <= d < stackDepth_ v ->
  exists a, array_get (returnStack_ v) d = (a, false) /\ 0 <= a <= programLength_ v.
Proof.
  intros (_ & _ & _ & _ & _ & _ & H7 & _ & _ & H10 & H11 & _) Hd. unfold CALL_DEPTH in *.
  unfold array_get. rewrite H7. destruct (Z.leb_spec 0 d); [|lia]. destruct (Z.ltb_spec d (Z.of_nat (Z.to_nat 8))); [|lia].
  eexists. split; [reflexivity|]. rewrite Forall_lookup in H11. apply (H11 (Z.to_nat d)).
  rewrite lookup_take_lt by lia. destruct (lookup_lt_is_Some_2 (returnStack_ v) (Z.to_nat d)) as [x Hx]; [lia|].
  rewrite Hx. f_equal. symmetry. by apply nth_lookup_Some.
Qed.

Lemma op_return_safe : triple vm_wf op_return safe.
Proof.
  intros s Hs. unfold op_return, get_vm. rewrite st_bind_run. cbn [gets fst snd].
  destruct (Z.eqb_spec (stackDepth_ (vm_of s)) 0) as [E|E]; [by apply wf_fault|].
  unfold upd_vm. rewrite !st_bind_run. cbn [gets modify fst snd]. rewrite !vm_of_put.
  pose proof Hs as (_ & _ & _ & _ & _ & _ & _ & _ & _ & H10 & _).
  cbn [set_depth stackDepth_ returnStack_].
  destruct (return_address (vm_of s) (stackDepth_ (vm_of s) - 1)) as (a & Ea & Ha); [done|lia|].
  rewrite Ea. cbn [fst snd]. rewrite flag_false. apply set_pc_wf; [|exact Ha].
  apply set_depth_wf; [done|lia].
Qed.

Lemma op_wait_safe : triple vm_wf op_wait safe.
Proof.
  unfold op_wait. apply bind_need; cbn [negb]; auto with noobia.
  eapply triple_bind; [apply triple_millis|]. intros t. apply triple_pure. intros _.
  apply (bind_read16 _ 0); [lia|lia|]. intros d _. apply triple_upd. intros v Hv.
  eapply room_wf. by apply set_state_room, set_wake_room.
Qed.

Lemma op_load_safe : triple vm_wf op_load safe.
Proof.
  unfold op_load. apply bind_need; cbn [negb]; auto with noobia.
  apply (bind_read8 _ 1); [lia|lia|]. intros d Hd. apply (bind_read8 _ 0); [lia|lia|]. intros a Ha.
  unfold byte_ok in *. apply bind_valid; cbn [when]; auto with noobia. intros Hd8.
  intros s Hs. unfold get_vm, upd_vm. rewrite !st_bind_run. cbn [gets modify fst snd].
  pose proof Hs as [(_ & _ & H3 & H4 & _) _].
  destruct (array_get_ok (memory_ (vm_of s)) a) as (x & E & Hx); [rewrite H3; exact Ha|].
  rewrite E. cbn [fst snd]. rewrite flag_false. apply (room_put d x 0); [lia| |by rewrite vm_of_put].
  eapply Forall_forall in H4; [|exact Hx]. unfold byte_ok in H4. unfold int32, INT_MIN, INT_MAX. lia.
Qed.

Lemma op_store_safe : triple vm_wf op_store safe.
Proof.
  unfold op_store. apply bind_need; cbn [negb]; auto with noobia.
  apply (bind_read8 _ 1); [lia|lia|]. intros a Ha. apply (bind_read8 _ 0); [lia|lia|]. intros r Hr.
  unfold byte_ok in *. apply bind_valid; cbn [when]; auto with noobia. intros Hr8.
  apply bind_get_register; [lia|]. intros x _. apply triple_upd. intros v Hv.
  apply set_memory_wf; [by eapply room_wf|done|]. unfold byte_ok.
  change 255 with (Z.ones 8). rewrite Z.land_ones by lia. apply Z.mod_pos_bound. lia.
Qed.

Lemma read_args_ok c k :
  0 <= k -> triple (room (Z.of_nat c + k)) (read_args c) (fun l v => match l with Some _ => room k v | None => vm_wf v end).
Proof.
  intros Hk. induction c as [|c IH]; cbn [read_args]; [by apply triple_ret|].
  apply (bind_read8 _ (Z.of_nat c + k)); [lia|lia|]. intros r Hr. unfold byte_ok in Hr.
  apply bind_valid; cbn [negb]; [|by apply triple_ret]. intros Hr8.
  apply bind_get_register; [lia|]. intros x _. eapply triple_bind; [exact IH|].
  intros [l|]; by apply triple_ret.
Qed.

Lemma read_bytes_ok c k : 0 <= k -> triple (room (Z.of_nat c + k)) (read_bytes c) (fun _ v => room k v).
Proof.
  intros Hk. induction c as [|c IH]; cbn [read_bytes]; [by apply triple_ret|].
  apply (bind_read8 _ (Z.of_nat c + k)); [lia|lia|]. intros r _.
  eapply triple_bind; [exact IH|]. intros l. by apply triple_ret.
Qed.

Lemma read_text_ok opcode : triple vm_wf (read_text opcode) (fun _ v => vm_wf v).
Proof.
  unfold read_text. apply triple_if; intros _; [|by apply triple_ret].
  apply bind_need; cbn [negb]; [|by apply triple_ret].
  apply (bind_read8 _ 0); [lia|lia|]. intros len Hlen. unfold byte_ok in Hlen.
  eapply triple_pre; [apply room_wf|]. apply bind_need; cbn [negb]; [|by apply triple_ret].
  eapply triple_bind; [eapply triple_pre; [|apply (read_bytes_ok (Z.to_nat len) 0); lia]|].
  - intros v Hv. eapply room_le; [exact Hv|lia].
  - intros t. apply triple_ret. apply room_wf.
Qed.

Lemma invoke_native_safe opcode d i args ascii :
  0 <= d < 8 -> triple vm_wf (invoke_native natives opcode d i args ascii) safe.
Proof.
  intros Hd. unfold invoke_native. destruct (find_id natives i) as [e|] eqn:E; [|apply wf_fault].
  apply find_id_In in E. apply triple_if; intros _; [apply wf_fault|].
  eapply triple_bind; [by apply callMixed_ok|]. intros r.
  apply triple_if; intros _; [apply wf_fault|]. by apply put_register_ok; [|apply i32_int32].
Qed.

Lemma syscall_safe opcode : triple vm_wf (syscall natives opcode) safe.
Proof.
  unfold syscall. apply bind_need; cbn [negb]; auto with noobia.
  apply (bind_read8 _ 3); [lia|lia|]. intros d Hd. apply (bind_read16 _ 1); [lia|lia|]. intros i _.
  apply (bind_read8 _ 0); [lia|lia|]. intros count Hc. unfold byte_ok in *.
  apply bind_valid; cbn [negb]; auto with noobia. intros Hd8. apply triple_if; intros _; [apply room_fault|].
  eapply triple_pre; [apply room_wf|]. apply bind_need; cbn [negb]; auto with noobia.
  eapply triple_bind; [eapply triple_pre; [|apply (read_args_ok (Z.to_nat count) 0); lia]|].
  - intros v Hv. eapply room_le; [exact Hv|lia].
  - intros [args|]; [|apply ret_wf]. eapply triple_pre; [apply room_wf|].
    eapply triple_bind; [apply read_text_ok|]. intros [t|]; [|apply ret_wf]. by apply invoke_native_safe; lia.
Qed.
#[local] Hint Resolve op_load_immediate_safe op_move_safe op_arith_safe op_jump_safe op_branch_safe
  op_call_safe op_return_safe op_wait_safe op_load_safe op_store_safe syscall_safe : noobia.

Lemma executeOne_safe : triple vm_wf (executeOne natives) safe.
Proof.
  unfold executeOne. apply bind_need; cbn [negb]; auto with noobia.
  apply (bind_read8 _ 0); [lia|lia|]. intros opcode _. eapply triple_pre; [apply room_wf|].
  repeat (apply triple_if; intros _; [solve [auto with noobia]|]) || idtac.
  apply triple_if; intros _; [apply triple_upd; by intros v Hv|].
  repeat (apply triple_if; intros _; [solve [auto with noobia]|]). apply wf_fault.
Qed.

Lemma execute_loop_safe budget : triple vm_wf (execute_loop natives budget) safe.
Proof.
  induction budget as [|k IH]; cbn [execute_loop]; [apply ret_wf|].
  eapply triple_bind; [apply (triple_get _ _ (fun _ => vm_wf)); auto|]. intros b.
  apply triple_if; intros _; [|apply ret_wf]. eapply triple_bind; [apply executeOne_safe|]. by intros [].
Qed.

Lemma tick_safe budget : triple vm_wf (tick natives budget) safe.
Proof.
  unfold tick. eapply triple_bind; [apply (triple_get _ _ (fun _ => vm_wf)); auto|]. intros b.
  apply triple_if; intros _; [|apply execute_loop_safe].
  eapply triple_bind; [apply triple_millis|]. intros t. apply triple_pure. intros _.
  eapply triple_bind; [apply (triple_get _ _ (fun _ => vm_wf)); auto|]. intros wake.
  apply triple_if; intros _; [apply ret_wf|].
  eapply triple_bind; [apply (triple_upd _ _ (fun _ => vm_wf)); by intros v Hv|]. intros []. apply execute_loop_safe.
Qed.
End logic.
End EspVmFacts.
