(* ===== verification/EspVmRun.v ===== *)
(** * The byte-code machine: safety, instruction semantics, waiting

    Three results about esp/common/src/vm/noob_vm.cpp: no sequence of operations
    leaves the machine's arrays, one step of the machine executes the
    instruction encoded at its program counter, and a waiting machine wakes
    exactly when its time has come, across the wrap of the clock. *)
From S2P Require Import Prelude CLib EspRecord EspRegistry EspVm EspVmFacts.

Open Scope Z_scope.

Module EspVmRun.
Import EspRegistry EspVm EspVmFacts.

(** ** Instructions *)

Inductive arith_op := Add | Sub | Mul | Div.

Inductive instr :=
  | Halt
  | LoadImmediate (d v : Z)
  | Move (d s : Z)
  | Arith (o : arith_op) (d a b : Z)
  | Jump (target : Z)
  | JumpZero (r target : Z)
  | JumpNonZero (r target : Z)
  | Call (target : Z)
  | Return
  | Syscall (d i : Z) (args : list Z)
  | Wait (ms : Z)
  | SyscallText (d i : Z) (args : list Z) (text : bytes)
  | Load (d address : Z)
  | Store (address s : Z).

Definition arith_opcode (o : arith_op) : Z := match o with Add => 3 | Sub => 4 | Mul => 5 | Div => 6 end.

Definition le16 (v : Z) : bytes := [v mod 256; v / 256].
Definition le32 (v : Z) : bytes :=
  [u32 v mod 256; u32 v / 256 mod 256; u32 v / 65536 mod 256; u32 v / 16777216].

Definition call_bytes (opcode d i : Z) (args : list Z) : bytes :=
  opcode :: d :: le16 i ++ Z.of_nat (length args) :: args.

Definition encode (i : instr) : bytes :=
  match i with
  | Halt => [0]
  | LoadImmediate d v => 1 :: d :: le32 v
  | Move d s => [2; d; s]
  | Arith o d a b => [arith_opcode o; d; a; b]
  | Jump t => 16 :: le16 t
  | JumpZero r t => 17 :: r :: le16 t
  | JumpNonZero r t => 18 :: r :: le16 t
  | Call t => 19 :: le16 t
  | Return => [20]
  | Syscall d n args => call_bytes 32 d n args
  | Wait ms => 33 :: le16 ms
  | SyscallText d n args text => call_bytes 34 d n args ++ Z.of_nat (length text) :: text
  | Load d a => [48; d; a]
  | Store a s => [49; a; s]
  end.

Definition register_ok (r : Z) : Prop := 0 <= r < 8.
Definition u16_ok (v : Z) : Prop := 0 <= v < 65536.

(** The operands fit their fields and name registers that exist. *)
Definition instr_wf (i : instr) : Prop :=
  match i with
  | Halt | Return => True
  | LoadImmediate d v => register_ok d /\ int32 v
  | Move d s => register_ok d /\ register_ok s
  | Arith _ d a b => register_ok d /\ register_ok a /\ register_ok b
  | Jump t | Call t | Wait t => u16_ok t
  | JumpZero r t | JumpNonZero r t => register_ok r /\ u16_ok t
  | Syscall d n args => register_ok d /\ u16_ok n /\ Forall register_ok args /\ (length args <= 8)%nat
  | SyscallText d n args text =>
      register_ok d /\ u16_ok n /\ Forall register_ok args /\ (length args <= 8)%nat /\ (length text < 256)%nat
  | Load d a => register_ok d /\ byte_ok a
  | Store a s => byte_ok a /\ register_ok s
  end.

#[global] Instance instr_wf_dec i : Decision (instr_wf i).
Proof. destruct i; unfold instr_wf, register_ok, u16_ok, byte_ok; apply _. Defined.

(** What each instruction does once the program counter is past it. *)
Definition goto (t : Z) (v : NoobVm) : NoobVm :=
  if programLength_ v <=? t then set_fault (str "jump outside program") v else set_pc t v.

Definition register (r : Z) (v : NoobVm) : Z := nth (Z.to_nat r) (registers_ v) 0.

Definition arith_value (o : arith_op) (x y : Z) : Z :=
  i32 (match o with Add => x + y | Sub => x - y | Mul => x * y | Div => Z.quot x y end).

Definition is_div (o : arith_op) : bool := match o with Div => true | _ => false end.

(** The instructions that only change the machine. *)
Definition exec_vm (i : instr) (v : NoobVm) : NoobVm :=
  match i with
  | Halt => set_state HALTED v
  | LoadImmediate d x => set_register d x v
  | Move d s => set_register d (register s v) v
  | Arith o d a b =>
      if is_div o && (register b v =? 0) then set_fault (str "division by zero") v
      else set_register d (arith_value o (register a v) (register b v)) v
  | Jump t => goto t v
  | JumpZero r t => if register r v =? 0 then goto t v else v
  | JumpNonZero r t => if register r v =? 0 then v else goto t v
  | Call t =>
      if (programLength_ v <=? t) || (CALL_DEPTH <=? stackDepth_ v) then set_fault (str "invalid call") v
      else set_pc t (set_stack (stackDepth_ v) (pc_ v) (stackDepth_ v + 1) v)
  | Return =>
      if stackDepth_ v =? 0 then set_fault (str "return stack empty") v
      else set_pc (nth (Z.to_nat (stackDepth_ v - 1)) (returnStack_ v) 0) (set_depth (stackDepth_ v - 1) v)
  | Load d a => set_register d (nth (Z.to_nat a) (memory_ v) 0) v
  | Store a s => set_memory a (Z.land (register s v) 255) v
  | Syscall _ _ _ | SyscallText _ _ _ _ | Wait _ => v
  end.

Section instructions.
Context {S : Type} `{HasClock S} (natives : NativeRegistry (S := S)).

Definition exec (i : instr) : st S unit :=
  match i with
  | Syscall d n args =>
      values ← get_vm (fun v => map (fun r => register r v) args); invoke_native natives 32 d n values []
  | SyscallText d n args text =>
      values ← get_vm (fun v => map (fun r => register r v) args); invoke_native natives 34 d n values text
  | Wait ms => now ← millis; upd_vm (fun v => set_state WAITING (set_wake (u32 (now + ms)) v))
  | _ => upd_vm (exec_vm i)
  end.
End instructions.

(** ** Operations from outside *)

Inductive vm_op := OpLoad (program : bytes) | OpRun | OpStop | OpReset | OpTick (budget : nat).

(** A refused [load] or [run] changes nothing. *)
Definition keep_error (f : NoobVm -> bytes + NoobVm) (v : NoobVm) : NoobVm :=
  match f v with inl _ => v | inr v' => v' end.

Section operations.
Context {S : Type} `{HasClock S} (natives : NativeRegistry (S := S)).

Definition vm_do (o : vm_op) : st S unit :=
  match o with
  | OpLoad p => upd_vm (keep_error (load p))
  | OpRun => upd_vm (keep_error run)
  | OpStop => upd_vm stop
  | OpReset => upd_vm reset
  | OpTick budget => tick natives budget
  end.

Fixpoint vm_run (ops : list vm_op) : st S unit :=
  match ops with [] => mret tt | o :: ops' => vm_do o ;; vm_run ops' end.
End operations.

Definition op_ok (o : vm_op) : Prop := match o with OpLoad p => bytes_ok p | _ => True end.

#[global] Instance op_ok_dec o : Decision (op_ok o).
Proof. destruct o; cbn; apply _. Defined.

Lemma zeros_bytes n : bytes_ok (zeros n).
Proof. apply Forall_forall. intros x Hx%list_elem_of_In%repeat_spec. subst. by unfold byte_ok. Qed.

Lemma zeros_ints n : Forall int32 (zeros n).
Proof. apply Forall_forall. intros x Hx%list_elem_of_In%repeat_spec. by subst. Qed.

Lemma vm_init_wf : vm_wf vm_init.
Proof. unfold vm_wf, vm_init. wf_split; try apply zeros_bytes; try apply zeros_ints; try apply repeat_length; try done. Qed.

Lemma load_wf p v : bytes_ok p -> vm_wf v -> vm_wf (keep_error (load p) v).
Proof.
  intros Hp H. unfold keep_error, load. destruct (_ || _) eqn:E; [done|]. destruct (busy v); [done|].
  apply orb_false_iff in E as [E1%Z.eqb_neq E2%Z.ltb_ge]. pose proof H as (H1 & H2 & H3 & H4 & H5 & H6 & H7 & H8 & H9 & H10 & H11 & H12).
  unfold vm_wf, PROGRAM_BYTES in *. wf_split; try apply zeros_bytes; try apply zeros_ints; try apply repeat_length; try done.
  - rewrite length_app, length_drop. lia.
  - apply Forall_app. split; [done|]. by apply Forall_drop.
Qed.

Lemma run_wf v : vm_wf v -> vm_wf (keep_error run v).
Proof.
  intros H. unfold keep_error, run. destruct (_ =? 0) eqn:E; [done|]. destruct (busy v); [done|].
  apply (set_state_room 0), room_0. apply set_depth_wf; [apply set_pc_wf; [done|]|].
  - pose proof H as (_ & _ & _ & _ & _ & _ & _ & _ & H9 & _). lia.
  - pose proof H as (_ & _ & _ & _ & _ & _ & _ & _ & _ & H10 & _). cbn. lia.
Qed.

Lemma stop_wf v : vm_wf v -> vm_wf (stop v).
Proof. intros H. unfold stop. destruct (busy v); [|done]. by apply (set_state_room 0), room_0. Qed.

Lemma reset_wf v : vm_wf v -> vm_wf (reset v).
Proof.
  intros (H1 & H2 & H3 & H4 & H5 & H6 & H7 & H8 & H9 & H10 & H11 & H12).
  unfold vm_wf, reset. wf_split; try apply zeros_bytes; try apply zeros_ints; try apply repeat_length; try done.
Qed.

Section safety.
Context {S : Type} `{HasClock S} (natives : NativeRegistry (S := S)) (Hnatives : natives_safe natives).

Lemma vm_do_wf o s : op_ok o -> vm_wf (vm_of s) -> vm_wf (vm_of (vm_do natives o s).2).
Proof.
  intros Ho Hs. destruct o as [p| | | |budget]; cbn [vm_do]; [| | | |by apply tick_safe];
    unfold upd_vm, modify; cbn [fst snd]; rewrite vm_of_put;
    auto using load_wf, run_wf, stop_wf, reset_wf.
Qed.

Lemma vm_run_wf ops s : Forall op_ok ops -> vm_wf (vm_of s) -> vm_wf (vm_of (vm_run natives ops s).2).
Proof.
  revert s. induction ops as [|o ops IH]; intros s Hops Hs; cbn [vm_run]; [done|].
  inversion Hops; subst. rewrite st_bind_run. apply IH; [done|]. by apply vm_do_wf.
Qed.
End safety.

(** ** Fetching the operands *)

(** The program holds [bs] at the program counter. *)
Definition code_at (v : NoobVm) (bs : bytes) : Prop :=
  pc_ v + Z.of_nat (length bs) <= programLength_ v
  /\ take (length bs) (drop (Z.to_nat (pc_ v)) (program_ v)) = bs.

#[global] Instance code_at_dec v bs : Decision (code_at v bs).
Proof. unfold code_at. apply _. Defined.

Definition past (k : nat) (v : NoobVm) : NoobVm := set_pc (pc_ v + Z.of_nat k) v.

Section fetch.
Context {S : Type} `{HasClock S} (natives : NativeRegistry (S := S)).
Context (v : NoobVm) (bs : bytes) (Hv : vm_wf v) (Hcode : code_at v bs).

Lemma pc_bounds : 0 <= pc_ v /\ pc_ v + Z.of_nat (length bs) <= 1024 /\ length (program_ v) = 1024%nat.
Proof.
  pose proof Hv as (H1 & _ & _ & _ & _ & _ & _ & H8 & H9 & _). destruct Hcode as [Hlen _].
  unfold PROGRAM_BYTES in *. rewrite H1. lia.
Qed.

Lemma pc_past k : (k <= length bs)%nat -> pc_ (past k v) = pc_ v + Z.of_nat k.
Proof. intros Hk. unfold past, set_pc. cbn. pose proof pc_bounds. rewrite Z.mod_small; lia. Qed.

Lemma past_past j k : (j + k <= length bs)%nat -> set_pc (pc_ (past j v) + Z.of_nat k) (past j v) = past (j + k) v.
Proof. intros Hk. rewrite pc_past by lia. unfold past, set_pc. cbn. f_equal. f_equal. lia. Qed.

Lemma code_byte k b : bs !! k = Some b -> array_get (program_ v) (pc_ v + Z.of_nat k) = (b, false).
Proof.
  intros Hb. pose proof pc_bounds. pose proof (lookup_lt_Some _ _ _ Hb). unfold array_get.
  destruct Hcode as [_ E]. rewrite <- E in Hb. rewrite lookup_take_lt, lookup_drop in Hb by lia.
  f_equal.
  - apply nth_lookup_Some. rewrite <- Hb. f_equal. lia.
  - apply negb_false_iff, andb_true_iff. lia.
Qed.

Lemma past_0 : past 0 v = v.
Proof.
  pose proof pc_bounds. unfold past, set_pc. rewrite Z.add_0_r, Z.mod_small by lia. by destruct v.
Qed.

Lemma need_at s j n : (j + n <= length bs)%nat -> need (Z.of_nat n) (put_vm (past j v) s) = (true, put_vm (past j v) s).
Proof.
  intros Hn. unfold need, get_vm. rewrite st_bind_run. cbn [gets fst snd]. rewrite vm_of_put, pc_past by lia.
  destruct Hcode as [Hlen _]. cbn [past set_pc programLength_]. rewrite Zle_imp_le_bool by lia. done.
Qed.

Lemma read8_at s j b : bs !! j = Some b -> read8 (put_vm (past j v) s) = (b, put_vm (past (Datatypes.S j) v) s).
Proof.
  intros Hb. pose proof (lookup_lt_Some _ _ _ Hb). unfold read8, get_vm, upd_vm.
  rewrite !st_bind_run. cbn [gets modify fst snd]. rewrite vm_of_put, pc_past by lia. cbn [past set_pc program_].
  rewrite (code_byte _ _ Hb). cbn [fst snd]. rewrite flag_false, put_put.
  change 1 with (Z.of_nat 1). rewrite <- (pc_past j) by lia. rewrite past_past by lia. by rewrite Nat.add_1_r.
Qed.

Lemma read16_at s j t :
  u16_ok t -> bs !! j = Some (t mod 256) -> bs !! Datatypes.S j = Some (t / 256) ->
  read16 (put_vm (past j v) s) = (t, put_vm (past (2 + j) v) s).
Proof.
  intros Ht Hl Hh. pose proof (lookup_lt_Some _ _ _ Hh). unfold read16, get_vm, upd_vm.
  rewrite !st_bind_run. cbn [gets modify fst snd]. rewrite vm_of_put, pc_past by lia. cbn [past set_pc program_].
  rewrite (code_byte _ _ Hl). replace (pc_ v + Z.of_nat j + 1) with (pc_ v + Z.of_nat (Datatypes.S j)) by lia.
  rewrite (code_byte _ _ Hh). cbn [fst snd orb]. rewrite flag_false, put_put.
  rewrite Z.lor_comm, lor_shiftl by (try apply Z.mod_pos_bound; lia).
  rewrite <- (pc_past j) by lia. change 2 with (Z.of_nat 2) at 2. rewrite past_past by lia.
  f_equal; [|do 2 f_equal; lia]. change (2 ^ 8) with 256. pose proof (Z.div_mod t 256). lia.
Qed.

Lemma le32_value x : int32 x ->
  i32 (Z.lor (Z.lor (Z.lor (u32 x mod 256) (Z.shiftl (u32 x / 256 mod 256) 8)) (Z.shiftl (u32 x / 65536 mod 256) 16))
         (Z.shiftl (u32 x / 16777216) 24)) = x.
Proof.
  intros Hx. assert (Hu : 0 <= u32 x < 4294967296) by apply (Z.mod_pos_bound x (2 ^ 32) ltac:(done)).
  rewrite (Z.lor_comm _ (Z.shiftl (u32 x / 256 mod 256) 8)), lor_shiftl by (try apply Z.mod_pos_bound; lia).
  change (2 ^ 8) with 256.
  rewrite (Z.lor_comm _ (Z.shiftl (u32 x / 65536 mod 256) 16)), lor_shiftl
    by (change (2 ^ 16) with 65536; Z.to_euclidean_division_equations; lia).
  change (2 ^ 16) with 65536.
  rewrite (Z.lor_comm _ (Z.shiftl (u32 x / 16777216) 24)), lor_shiftl
    by (change (2 ^ 24) with 16777216; Z.to_euclidean_division_equations; lia).
  change (2 ^ 24) with 16777216. transitivity (i32 (u32 x)).
  - f_equal. Z.to_euclidean_division_equations; lia.
  - rewrite <- (i32_id x) at 2 by done. unfold i32, to_signed, u32. f_equal. by rewrite Zplus_mod_idemp_l.
Qed.

Lemma read32_at s j x :
  int32 x -> (forall i b, le32 x !! i = Some b -> bs !! (i + j)%nat = Some b) ->
  read32 (put_vm (past j v) s) = (x, put_vm (past (4 + j) v) s).
Proof.
  intros Hx Hb. unfold read32. rewrite !st_bind_run.
  rewrite (read8_at _ j _ (Hb 0%nat _ eq_refl)). cbn [fst snd].
  rewrite (read8_at _ _ _ (Hb 1%nat _ eq_refl)). cbn [fst snd].
  rewrite (read8_at _ _ _ (Hb 2%nat _ eq_refl)). cbn [fst snd].
  rewrite (read8_at _ _ _ (Hb 3%nat _ eq_refl)). cbn [fst snd mret st_ret].
  by rewrite le32_value.
Qed.

Lemma validRegister_at (s : S) r : register_ok r -> validRegister r s = (true, s).
Proof. intros Hr. unfold validRegister, REGISTER_COUNT, register_ok in *. by destruct (Z.ltb_spec r 8); [|lia]. Qed.

Lemma array_get_in a i : 0 <= i < Z.of_nat (length a) -> array_get a i = (nth (Z.to_nat i) a 0, false).
Proof. intros Hi. unfold array_get. f_equal. apply negb_false_iff, andb_true_iff. lia. Qed.

Lemma get_register_at s j r :
  register_ok r -> get_register r (put_vm (past j v) s) = (register r v, put_vm (past j v) s).
Proof.
  intros Hr. unfold get_register, get_vm, upd_vm. rewrite !st_bind_run. cbn [gets modify fst snd].
  rewrite vm_of_put. cbn [past set_pc registers_]. pose proof Hv as (_ & _ & _ & _ & H5 & _).
  rewrite array_get_in by (rewrite H5; exact Hr). cbn [fst snd]. by rewrite flag_false, put_put.
Qed.

Lemma read_args_at args s j :
  Forall register_ok args -> (forall i r, args !! i = Some r -> bs !! (i + j)%nat = Some r) ->
  read_args (length args) (put_vm (past j v) s)
  = (Some (map (fun r => register r v) args), put_vm (past (length args + j) v) s).
Proof.
  revert j. induction args as [|r args IH]; intros j Hr Hb; cbn [length read_args]; [done|].
  inversion Hr; subst. rewrite st_bind_run, (read8_at _ j _ (Hb 0%nat _ eq_refl)). cbn [fst snd].
  rewrite st_bind_run, validRegister_at by done. cbn [fst snd negb].
  rewrite st_bind_run, get_register_at by done. cbn [fst snd].
  rewrite st_bind_run, IH; [|done|].
  - cbn [fst snd map mret st_ret]. do 3 f_equal. lia.
  - intros i x Hx. rewrite <- (Hb (Datatypes.S i) x Hx). f_equal. lia.
Qed.

Lemma read_bytes_at text s j :
  (forall i r, text !! i = Some r -> bs !! (i + j)%nat = Some r) ->
  read_bytes (length text) (put_vm (past j v) s) = (text, put_vm (past (length text + j) v) s).
Proof.
  revert j. induction text as [|c text IH]; intros j Hb; cbn [length read_bytes]; [done|].
  rewrite st_bind_run, (read8_at _ j _ (Hb 0%nat _ eq_refl)). cbn [fst snd].
  rewrite st_bind_run, IH.
  - cbn [fst snd mret st_ret]. do 3 f_equal. lia.
  - intros i x Hx. rewrite <- (Hb (Datatypes.S i) x Hx). f_equal. lia.
Qed.
End fetch.

(** ** One step executes one instruction *)

Section step.
Context {S : Type} `{HasClock S} (natives : NativeRegistry (S := S)).


Lemma validRegisters_at (s : S) l : Forall register_ok l -> validRegisters l s = (true, s).
Proof.
  unfold validRegisters. induction 1 as [|r l Hr _ IH]; cbn [for_all_ok]; [done|].
  rewrite st_bind_run, validRegister_at by done. exact IH.
Qed.

Lemma upd_run f w (s : S) : upd_vm f (put_vm w s) = (tt, put_vm (f w) s).
Proof. unfold upd_vm, modify. by rewrite vm_of_put, put_put. Qed.

Lemma get_run {A} (f : NoobVm -> A) w (s : S) : get_vm f (put_vm w s) = (f w, put_vm w s).
Proof. unfold get_vm, gets. by rewrite vm_of_put. Qed.

Context (v : NoobVm) (Hv : vm_wf v).

Lemma need_is bs s j n :
  code_at v bs -> 0 <= n -> Z.of_nat j + n <= Z.of_nat (length bs) ->
  need n (put_vm (past j v) s) = (true, put_vm (past j v) s).
Proof. intros Hb Hn Hj. rewrite <- (Z2Nat.id n) by done. eapply need_at; [done..|lia]. Qed.

(** Run the operand reads of an instruction one after the other. *)
Ltac fetch1 bs :=
  rewrite st_bind_run;
  first [ rewrite (need_is bs) by (assumption || (cbn; lia))
        | erewrite (read8_at v bs) by (eassumption || reflexivity)
        | erewrite (read16_at v bs) by (eassumption || reflexivity)
        | erewrite (read32_at v bs) by (try eassumption; intros ? ?; rewrite Nat.add_comm; intros Hb; exact Hb)
        | rewrite validRegister_at by assumption
        | rewrite validRegisters_at by (repeat (apply Forall_cons_2; [assumption|]); apply Forall_nil_2)
        | rewrite (get_register_at v) by assumption
        | rewrite get_run ];
  cbn [fst snd negb when].
Ltac fetch := match goal with _ : code_at v ?bs |- _ => repeat fetch1 bs end.

Lemma load_immediate_step d x s :
  instr_wf (LoadImmediate d x) -> code_at v (encode (LoadImmediate d x)) ->
  op_load_immediate (put_vm (past 1 v) s) = exec natives (LoadImmediate d x) (put_vm (past 6 v) s).
Proof. intros [Hd Hx] Hc. unfold op_load_immediate. fetch. reflexivity. Qed.

Lemma move_step d r s :
  instr_wf (Move d r) -> code_at v (encode (Move d r)) ->
  op_move (put_vm (past 1 v) s) = exec natives (Move d r) (put_vm (past 3 v) s).
Proof. intros [Hd Hr] Hc. unfold op_move. fetch. unfold put_register. cbn [exec]. by rewrite !upd_run. Qed.

Lemma arith_opcode_value o x y : arith (arith_opcode o) x y = arith_value o x y.
Proof. by destruct o. Qed.

Lemma arith_step o d a b s :
  instr_wf (Arith o d a b) -> code_at v (encode (Arith o d a b)) ->
  op_arith (arith_opcode o) (put_vm (past 1 v) s) = exec natives (Arith o d a b) (put_vm (past 4 v) s).
Proof.
  intros (Hd & Ha & Hb) Hc. unfold op_arith. fetch. cbn [exec]. rewrite upd_run. cbn [exec_vm].
  rewrite arith_opcode_value. replace (arith_opcode o =? 6) with (is_div o) by (by destruct o).
  change (register b (past 4 v)) with (register b v). change (register a (past 4 v)) with (register a v).
  unfold fault, put_register. destruct (_ && _); by rewrite upd_run.
Qed.

Lemma jump_goto t w (s : S) : jump t (put_vm w s) = (tt, put_vm (goto t w) s).
Proof.
  unfold jump, goto, fault. rewrite st_bind_run, get_run. cbn [fst snd]. destruct (_ <=? t); by rewrite upd_run.
Qed.

Lemma jump_step t s :
  instr_wf (Jump t) -> code_at v (encode (Jump t)) ->
  op_jump (put_vm (past 1 v) s) = exec natives (Jump t) (put_vm (past 3 v) s).
Proof. intros Ht Hc. unfold op_jump. fetch. cbn [exec]. by rewrite upd_run, jump_goto. Qed.

Lemma branch_step (zero : bool) r t s :
  let i := if zero then JumpZero r t else JumpNonZero r t in
  instr_wf i -> code_at v (encode i) ->
  op_branch (if zero then 17 else 18) (put_vm (past 1 v) s) = exec natives i (put_vm (past 4 v) s).
Proof.
  destruct zero; intros i [Hr Ht] Hc; subst i; cbn [encode] in Hc; unfold op_branch; fetch; cbn [exec]; rewrite upd_run;
    cbn [exec_vm Z.eqb Pos.eqb]; change (register r (past 4 v)) with (register r v);
    destruct (register r v =? 0); cbn [negb]; first [apply jump_goto|reflexivity].
Qed.

Lemma call_step t s :
  instr_wf (Call t) -> code_at v (encode (Call t)) ->
  op_call (put_vm (past 1 v) s) = exec natives (Call t) (put_vm (past 3 v) s).
Proof.
  intros Ht Hc. unfold op_call. fetch. cbn [exec]. rewrite upd_run. cbn [exec_vm]. unfold fault.
  destruct (_ || _); [by rewrite upd_run|]. rewrite st_bind_run, !upd_run. cbn [fst snd]. by rewrite upd_run.
Qed.

Lemma return_step s :
  code_at v (encode Return) -> op_return (put_vm (past 1 v) s) = exec natives Return (put_vm (past 1 v) s).
Proof.
  intros Hc. unfold op_return. fetch. cbn [exec]. rewrite upd_run. cbn [exec_vm]. unfold fault.
  destruct (Z.eqb_spec (stackDepth_ (past 1 v)) 0) as [E|E]; [by rewrite upd_run|].
  rewrite st_bind_run, upd_run. cbn [fst snd]. rewrite st_bind_run, get_run. cbn [fst snd]. rewrite upd_run.
  pose proof Hv as (_ & _ & _ & _ & _ & _ & H7 & _ & _ & H10 & _). unfold CALL_DEPTH in *.
  cbn [set_depth returnStack_ stackDepth_ past set_pc] in *.
  rewrite array_get_in by (rewrite H7; lia). cbn [fst snd]. by rewrite flag_false.
Qed.

Lemma load_step d a s :
  instr_wf (EspVmRun.Load d a) -> code_at v (encode (EspVmRun.Load d a)) ->
  op_load (put_vm (past 1 v) s) = exec natives (EspVmRun.Load d a) (put_vm (past 3 v) s).
Proof.
  intros [Hd Ha] Hc. unfold op_load. fetch. cbn [exec]. rewrite upd_run. cbn [past set_pc memory_].
  pose proof Hv as (_ & _ & H3 & _). rewrite array_get_in by (rewrite H3; exact Ha). cbn [fst snd].
  rewrite st_bind_run, upd_run, flag_false. cbn [fst snd]. unfold put_register. by rewrite upd_run.
Qed.

Lemma store_step a r s :
  instr_wf (Store a r) -> code_at v (encode (Store a r)) ->
  op_store (put_vm (past 1 v) s) = exec natives (Store a r) (put_vm (past 3 v) s).
Proof. intros [Ha Hr] Hc. unfold op_store. fetch. cbn [exec]. by rewrite !upd_run. Qed.

Lemma wait_step ms s :
  instr_wf (Wait ms) -> code_at v (encode (Wait ms)) ->
  op_wait (put_vm (past 1 v) s) = exec natives (Wait ms) (put_vm (past 3 v) s).
Proof.
  intros Hms Hc. unfold op_wait. fetch1 (encode (Wait ms)). cbn [exec]. rewrite !st_bind_run, !millis_put. cbn [fst snd].
  rewrite (read16_at v _ Hv Hc _ 1 ms Hms eq_refl eq_refl). reflexivity.
Qed.


(** *** Calls *)

Lemma call_bytes_at opcode d n args rest i r :
  args !! i = Some r -> (call_bytes opcode d n args ++ rest) !! (i + 5)%nat = Some r.
Proof. intros Hi. rewrite Nat.add_comm. cbn. by apply lookup_app_l_Some. Qed.

Lemma call_bytes_text opcode d n args text i r :
  text !! i = Some r ->
  (call_bytes opcode d n args ++ Z.of_nat (length text) :: text) !! (i + (6 + length args))%nat = Some r.
Proof.
  intros Hi. rewrite lookup_app_r by (cbn; lia). replace (i + (6 + length args) - length (call_bytes opcode d n args))%nat
    with (Datatypes.S i) by (cbn; lia). exact Hi.
Qed.

(** The head of both call instructions. *)
Lemma syscall_head opcode d n args rest s :
  register_ok d -> u16_ok n -> Forall register_ok args -> (length args <= 8)%nat ->
  code_at v (call_bytes opcode d n args ++ rest) ->
  syscall natives opcode (put_vm (past 1 v) s)
  = (text ← read_text opcode;
     match text with
     | None => mret tt
     | Some ascii => invoke_native natives opcode d n (map (fun r => register r v) args) ascii
     end) (put_vm (past (5 + length args) v) s).
Proof.
  intros Hd Hn Ha Hlen Hc. unfold syscall. fetch.
  destruct (Z.ltb_spec REGISTER_COUNT (Z.of_nat (length args))) as [E|_]; [unfold REGISTER_COUNT in E; lia|].
  rewrite st_bind_run, (need_is _ _ _ _ Hc) by (cbn; rewrite ?length_app; lia). cbn [fst snd negb].
  rewrite Nat2Z.id, st_bind_run, (read_args_at v _ Hv Hc) by (try done; intros i r; apply call_bytes_at).
  cbn [fst snd]. by rewrite Nat.add_comm.
Qed.

Lemma syscall_step d n args s :
  instr_wf (Syscall d n args) -> code_at v (encode (Syscall d n args)) ->
  syscall natives 32 (put_vm (past 1 v) s)
  = exec natives (Syscall d n args) (put_vm (past (length (encode (Syscall d n args))) v) s).
Proof.
  intros (Hd & Hn & Ha & Hlen) Hc. cbn [encode] in Hc. rewrite <- (app_nil_r (call_bytes 32 d n args)) in Hc.
  erewrite syscall_head by done. unfold read_text. cbn [Z.eqb Pos.eqb exec]. by rewrite !st_bind_run, get_run.
Qed.

Lemma syscall_text_step d n args text s :
  instr_wf (SyscallText d n args text) -> code_at v (encode (SyscallText d n args text)) ->
  syscall natives 34 (put_vm (past 1 v) s)
  = exec natives (SyscallText d n args text) (put_vm (past (length (encode (SyscallText d n args text))) v) s).
Proof.
  intros (Hd & Hn & Ha & Hlen & Htext) Hc.
  assert (Ep : length (encode (SyscallText d n args text)) = (length text + (6 + length args))%nat)
    by (cbn [encode]; rewrite length_app; cbn; lia).
  rewrite Ep. cbn [encode] in Hc.
  erewrite syscall_head by done. unfold read_text. cbn [Z.eqb Pos.eqb exec]. rewrite ?st_bind_run, get_run.
  assert (El : length (call_bytes 34 d n args) = (5 + length args)%nat) by reflexivity.
  rewrite (need_is _ _ _ _ Hc) by (rewrite ?length_app, ?El; cbn; lia). cbn [fst snd negb].
  rewrite ?st_bind_run, (read8_at v _ Hv Hc _ _ (Z.of_nat (length text))) by (by rewrite lookup_app_r, El, Nat.sub_diag by lia).
  cbn [fst snd]. rewrite ?st_bind_run.
  rewrite (need_is _ _ _ _ Hc) by (rewrite ?length_app, ?El; cbn; lia). cbn [fst snd negb].
  rewrite ?st_bind_run, Nat2Z.id, (read_bytes_at v _ Hv Hc) by (intros i r; apply call_bytes_text).
  reflexivity.
Qed.

Lemma step_instr i s :
  instr_wf i -> code_at v (encode i) ->
  executeOne natives (put_vm v s) = exec natives i (put_vm (past (length (encode i)) v) s).
Proof.
  intros Hi Hc. rewrite <- (past_0 v (encode i) Hv Hc) at 1. unfold executeOne.
  assert (Hlen : (0 < length (encode i))%nat) by (by destruct i; cbn; lia).
  rewrite st_bind_run, (need_is _ _ _ _ Hc) by lia. cbn [fst snd negb].
  destruct (encode i) as [|op rest] eqn:E; [cbn in Hlen; lia|].
  rewrite st_bind_run, (read8_at v _ Hv Hc _ 0 op eq_refl). cbn [fst snd]. rewrite <- E in *.
  destruct i as [ | | | [] | | | | | | | | | | ]; cbn [encode call_bytes arith_opcode] in E; injection E as <- _;
    cbn [Z.eqb Pos.eqb Z.leb Z.compare Pos.compare Pos.compare_cont andb orb].
  - cbn [exec]. by rewrite !upd_run.
  - by apply load_immediate_step.
  - by apply move_step.
  - by apply (arith_step Add).
  - by apply (arith_step Sub).
  - by apply (arith_step Mul).
  - by apply (arith_step Div).
  - by apply jump_step.
  - by apply (branch_step true).
  - by apply (branch_step false).
  - by apply call_step.
  - by apply return_step.
  - by apply syscall_step.
  - by apply wait_step.
  - by apply syscall_text_step.
  - by apply load_step.
  - by apply store_step.
Qed.
End step.

(** ** A device for the examples *)

Record bench := Bench { bench_vm : NoobVm; bench_now : Z }.

#[global, refine] Instance bench_HasVm : HasVm bench :=
  {| vm_of := bench_vm; put_vm v s := Bench v (bench_now s) |}.
Proof. all: by intros; try destruct s. Defined.

#[global, refine] Instance bench_HasClock : HasClock bench :=
  {| millis := gets (fun s => u32 (bench_now s)) |}.
Proof.
  - intros s. by apply Z.mod_pos_bound.
  - by intros.
  - by intros.
Defined.

(** One native: the sum of its arguments. *)
Definition bench_natives : NativeRegistry (S := bench) :=
  [Entry 7 (str "SUM") (NumericFunctionAdapter (fun args => mret (result true (i32 (foldr Z.add 0 args)) [])))].

Lemma bench_natives_safe : natives_safe bench_natives.
Proof.
  intros e args ascii He. apply list_elem_of_singleton in He. subst e. intros s Hs. cbn. by repeat case_match.
Qed.

(** ** The theorems *)

(** C10: Starting from a freshly constructed machine, no sequence of [load],
    [run], [stop], [reset] and [tick] calls, with any program bytes and any
    instruction budgets, indexes the program, memory, register or return-stack
    array outside its bounds: the program counter stays inside the program, the
    stack depth inside the stack and every register a 32-bit value, provided the
    native functions keep that invariant too. *)
Theorem vm_operations_safe {S : Type} `{HasClock S} (natives : NativeRegistry (S := S)) ops (s : S) :
  natives_safe natives -> Forall op_ok ops -> vm_of s = vm_init ->
  let v := vm_of (vm_run natives ops s).2 in
  overrun_ v = false /\ 0 <= pc_ v <= programLength_ v /\ programLength_ v <= PROGRAM_BYTES
  /\ 0 <= stackDepth_ v <= CALL_DEPTH /\ Forall int32 (registers_ v) /\ bytes_ok (memory_ v).
Proof.
  intros Hn Hops Hs v. assert (Hv : vm_wf v) by (apply vm_run_wf; [done..|]; rewrite Hs; apply vm_init_wf).
  destruct Hv as (_ & _ & _ & H4 & _ & H6 & _ & H8 & H9 & H10 & _ & H12). split_and!; try done; lia.
Qed.

(** Load, run and time out a program that calls SUM with two registers. *)
Definition sum_program : bytes :=
  encode (LoadImmediate 0 40) ++ encode (LoadImmediate 1 2) ++ encode (Syscall 2 7 [0; 1]) ++ encode (Wait 5)
  ++ encode Halt.

Definition sum_session : list vm_op := [OpLoad sum_program; OpRun; OpTick 20].
Definition sum_device : bench := Bench vm_init 4294967295.

Lemma vm_operations_safe_witness :
  (let v := vm_of (vm_run bench_natives sum_session sum_device).2 in
   overrun_ v = false /\ 0 <= pc_ v <= programLength_ v /\ programLength_ v <= PROGRAM_BYTES
   /\ 0 <= stackDepth_ v <= CALL_DEPTH /\ Forall int32 (registers_ v) /\ bytes_ok (memory_ v))
  /\ registers_ (vm_of (vm_run bench_natives sum_session sum_device).2) = [40; 2; 42; 0; 0; 0; 0; 0].
Proof.
  split; [|vm_compute; reflexivity].
  apply (vm_operations_safe bench_natives sum_session sum_device).
  - exact bench_natives_safe.
  - apply (bool_decide_unpack _). vm_compute. exact I.
  - reflexivity.
Defined.

(** C5: One step of the machine executes the instruction encoded at the program
    counter: for every instruction with valid operands, [executeOne] leaves the
    device as the instruction's meaning says, with the program counter past the
    encoding before the instruction acts. *)
Theorem executeOne_decodes {S : Type} `{HasClock S} (natives : NativeRegistry (S := S)) i (s : S) :
  vm_wf (vm_of s) -> instr_wf i -> code_at (vm_of s) (encode i) ->
  executeOne natives s = exec natives i (put_vm (past (length (encode i)) (vm_of s)) s).
Proof. intros Hv Hi Hc. rewrite <- (put_vm_of s) at 1. by apply step_instr. Qed.

(** The device just before the call of SUM. *)
Definition before_call : bench := (vm_run bench_natives [OpLoad sum_program; OpRun; OpTick 2] sum_device).2.

Lemma executeOne_decodes_witness :
  executeOne bench_natives before_call
  = exec bench_natives (Syscall 2 7 [0; 1]) (put_vm (past 7 (vm_of before_call)) before_call)
  /\ register 2 (vm_of (executeOne bench_natives before_call).2) = 42.
Proof.
  split; [|vm_compute; reflexivity]. apply (executeOne_decodes bench_natives (Syscall 2 7 [0; 1]) before_call).
  - apply vm_run_wf; [exact bench_natives_safe|apply (bool_decide_unpack _); vm_compute; exact I|apply vm_init_wf].
  - apply (bool_decide_unpack _). vm_compute. exact I.
  - apply (bool_decide_unpack _). vm_compute. exact I.
Defined.

(** A machine that executed WAIT [d] at time [t0] resumes at a [tick] made
    [e] milliseconds later exactly when [d <= e], although the clock and the
    wake-up time wrap around at 2^32; a tick that comes too early changes
    nothing. *)
Theorem wait_wakes_on_time {S : Type} `{HasClock S} (natives : NativeRegistry (S := S)) t0 d e budget (s : S) :
  state_ (vm_of s) = WAITING -> wakeAt_ (vm_of s) = u32 (t0 + d) -> (millis s).1 = u32 (t0 + e) ->
  0 <= d < 65536 -> 0 <= e < 2 ^ 31 ->
  tick natives budget s
  = if d <=? e then execute_loop natives budget (upd_vm (set_state RUNNING) (millis s).2).2 else (tt, (millis s).2).
Proof.
  intros Hst Hw Ht Hd He. unfold tick. rewrite st_bind_run. unfold get_vm at 1, gets. cbn [fst snd]. rewrite Hst.
  replace (is_state WAITING WAITING) with true by reflexivity. rewrite !st_bind_run. unfold get_vm, gets. cbn [fst snd]. rewrite millis_vm, Hw, Ht.
  assert (E : i32 (u32 (u32 (t0 + e) - u32 (t0 + d))) = e - d).
  { rewrite <- (i32_id (e - d)) by (unfold int32, INT_MIN, INT_MAX; lia). unfold i32, to_signed, u32. f_equal.
    rewrite Zplus_mod_idemp_l, <- Z.add_sub_swap, Zminus_mod_idemp_r.
    rewrite <- Zminus_mod_idemp_l, Zplus_mod_idemp_l, Zminus_mod_idemp_l. f_equal. lia. }
  rewrite E. destruct (Z.ltb_spec (e - d) 0), (Z.leb_spec d e); try lia; [done|]. by rewrite st_bind_run.
Qed.

(** The wait of the example starts at the last millisecond before the wrap. *)
Definition waiting_device (e : Z) : bench :=
  Bench (vm_of (vm_run bench_natives sum_session sum_device).2) (4294967295 + e).

Lemma wait_wakes_on_time_witness :
  state_ (vm_of (tick bench_natives 9 (waiting_device 4)).2) = WAITING
  /\ state_ (vm_of (tick bench_natives 9 (waiting_device 5)).2) = HALTED.
Proof.
  split.
  - rewrite (wait_wakes_on_time bench_natives 4294967295 5 4 9 (waiting_device 4)); try done; vm_compute; done.
  - rewrite (wait_wakes_on_time bench_natives 4294967295 5 5 9 (waiting_device 5)); try done; vm_compute; done.
Defined.

End EspVmRun.
