(* ===== verification/EspProgram.v ===== *)
(** * esp/common/src/core/noob_program.h: program channels

    A channel names a native function with fixed arguments and text; [invoke]
    calls it and queues its result.  The channel lives inside a larger shared
    state that the called function may itself change, so it is read and written
    through a pair of accessors at the moments the code does. *)
From S2P Require Import Prelude CLib EspRecord EspRegistry EspVm.

Open Scope Z_scope.

Module EspProgram.
Import EspRecord EspRegistry.

Definition MAX_ARGUMENTS : nat := 7.

(** [arguments_] holds the first [argumentCount_] entries of the array. *)
Record NoobProgramChannel := Channel {
  functionId_ : Z; arguments_ : list Z; ascii_ : bytes; lastOk_ : bool; lastDetail_ : bytes;
  busy_ : bool; results_ : NoobRecordQueue }.

Definition new_channel : NoobProgramChannel := Channel 0 [] [] true [] false empty_queue.

(** [None] when the arguments are refused. *)
Definition configure (functionId : Z) (arguments : list Z) (ascii : bytes) (c : NoobProgramChannel)
    : option NoobProgramChannel :=
  if (MAX_ARGUMENTS <? length arguments)%nat || (MAX_ASCII_BYTES <? length ascii)%nat then None
  else if negb (forallb printable_ascii ascii) then None
  else Some (Channel functionId arguments ascii true [] (busy_ c) (clear (results_ c))).

(** A refused configuration leaves the channel as it was. *)
Definition try_configure (functionId : Z) (arguments : list Z) (ascii : bytes) (c : NoobProgramChannel)
    : NoobProgramChannel :=
  default c (configure functionId arguments ascii c).

Definition set_busy (b : bool) (c : NoobProgramChannel) : NoobProgramChannel :=
  Channel (functionId_ c) (arguments_ c) (ascii_ c) (lastOk_ c) (lastDetail_ c) b (results_ c).

Definition set_results (q : NoobRecordQueue) (c : NoobProgramChannel) : NoobProgramChannel :=
  Channel (functionId_ c) (arguments_ c) (ascii_ c) (lastOk_ c) (lastDetail_ c) (busy_ c) q.

Definition missing (c : NoobProgramChannel) : NoobProgramChannel :=
  Channel (functionId_ c) (arguments_ c) (ascii_ c) false (str "function missing") false (results_ c).

(** What [invoke] does with the result of the call. *)
Definition settle (r : NativeResult) (c : NoobProgramChannel) : NoobProgramChannel :=
  Channel (functionId_ c) (arguments_ c) (ascii_ c) (ok r) (detail r) false
    (if ok r then match record r with [] => push_value (value r) (results_ c) | rec => push rec (results_ c) end
     else results_ c).

Definition call_arguments (c : NoobProgramChannel) (input : Z) (appendInput : bool) : list Z :=
  arguments_ c ++ (if appendInput then [input] else []).

Section invoke.
Context {S : Type} (natives : NativeRegistry (S := S)).
Context (channel_of : S -> NoobProgramChannel) (put_channel : NoobProgramChannel -> S -> S).

Definition upd_channel (f : NoobProgramChannel -> NoobProgramChannel) : st S unit :=
  modify (fun s => put_channel (f (channel_of s)) s).

Definition invoke (input : Z) (appendInput : bool) : st S unit :=
  upd_channel (set_busy true) ;;
  c ← gets channel_of;
  match find_id natives (functionId_ c) with
  | None => upd_channel missing
  | Some entry =>
      r ← callMixed entry (call_arguments c input appendInput) (ascii_ c);
      upd_channel (settle r)
  end.
End invoke.

(** ** The channel stays within its bounds *)

Definition channel_wf (c : NoobProgramChannel) : Prop :=
  (length (arguments_ c) <= MAX_ARGUMENTS)%nat /\ (length (ascii_ c) <= MAX_ASCII_BYTES)%nat
  /\ forallb printable_ascii (ascii_ c) = true /\ queue_wf (results_ c).

#[global] Instance channel_wf_dec c : Decision (channel_wf c).
Proof. unfold channel_wf. apply _. Defined.

Lemma new_channel_wf : channel_wf new_channel.
Proof. by apply (bool_decide_unpack _). Qed.

Lemma clear_wf q : queue_wf q -> queue_wf (clear q).
Proof. intros (H1 & H2 & H3 & H4). unfold queue_wf, clear, CAPACITY in *. cbn. split_and!; try done; lia. Qed.

Lemma configure_wf f a t c c' : channel_wf c -> configure f a t c = Some c' -> channel_wf c'.
Proof.
  intros (_ & _ & _ & Hq). unfold configure.
  destruct (_ || _) eqn:E; [done|]. apply orb_false_iff in E as [E1%Nat.ltb_ge E2%Nat.ltb_ge].
  destruct (forallb _ t) eqn:Et; [|done]. intros [= <-]. unfold channel_wf. cbn. eauto using clear_wf.
Qed.

Lemma try_configure_wf f a t c : channel_wf c -> channel_wf (try_configure f a t c).
Proof.
  intros Hc. unfold try_configure. destruct (configure f a t c) eqn:E; [|done]. by eapply configure_wf.
Qed.
End EspProgram.
