(* ===== verification/EspSequence.v ===== *)
(** * esp/common/src/services/SequenceService.cpp: timed bit sequences

    Four tracks call native functions, each with its own interval and bit
    pattern.  The state of the service is one record; a function called by a
    track may use the service, so the tick reads the shared state again after
    every call. *)
From S2P Require Import Prelude CLib EspRecord EspRegistry EspVm EspProgram.

Open Scope Z_scope.

Module EspSequence.
Import EspRecord EspRegistry EspVm EspProgram.

Definition MAX_TRACKS : nat := 4.
Definition MAX_BITS : nat := 64.
Definition MAX_FIXED_ARGUMENTS : nat := 7.
Definition MAX_INTERVAL_MS : Z := 60000.

(** [bits] holds the characters before the array's zero fill. *)
Record Track := MkTrack {
  configured : bool; active : bool; intervalMs : Z; nextAt : Z; bits : bytes; bitCount : Z; position : Z;
  channel : NoobProgramChannel; appendInput : bool }.

Definition empty_track : Track := MkTrack false false 0 0 [] 0 0 new_channel true.

Record sequence := Sequence {
  tracks : list Track; channelBusy : list bool; running : bool; repeating : bool;
  lastPopped : list NoobRecord; haveLastPopped : list bool }.

Definition sequence_init : sequence :=
  Sequence (repeat empty_track MAX_TRACKS) (repeat false MAX_TRACKS) false false
           (repeat empty_record MAX_TRACKS) (repeat false MAX_TRACKS).

Definition track (slot : nat) (q : sequence) : Track := nth slot (tracks q) empty_track.

(** ** Setters *)

Definition set_tracks (l : list Track) (q : sequence) : sequence :=
  Sequence l (channelBusy q) (running q) (repeating q) (lastPopped q) (haveLastPopped q).
Definition set_track (slot : nat) (t : Track) (q : sequence) : sequence :=
  set_tracks (<[slot := t]> (tracks q)) q.
Definition set_channelBusy (l : list bool) (q : sequence) : sequence :=
  Sequence (tracks q) l (running q) (repeating q) (lastPopped q) (haveLastPopped q).
Definition set_running (b : bool) (q : sequence) : sequence :=
  Sequence (tracks q) (channelBusy q) b (repeating q) (lastPopped q) (haveLastPopped q).
Definition set_repeating (b : bool) (q : sequence) : sequence :=
  Sequence (tracks q) (channelBusy q) (running q) b (lastPopped q) (haveLastPopped q).
Definition set_popped (slot : nat) (r : NoobRecord) (q : sequence) : sequence :=
  Sequence (tracks q) (channelBusy q) (running q) (repeating q) (<[slot := r]> (lastPopped q))
           (<[slot := true]> (haveLastPopped q)).
Definition forget_popped (slot : nat) (q : sequence) : sequence :=
  Sequence (tracks q) (channelBusy q) (running q) (repeating q) (lastPopped q)
           (<[slot := false]> (haveLastPopped q)).

Definition set_channel (c : NoobProgramChannel) (t : Track) : Track :=
  MkTrack (configured t) (active t) (intervalMs t) (nextAt t) (bits t) (bitCount t) (position t) c (appendInput t).
Definition set_position (p : Z) (t : Track) : Track :=
  MkTrack (configured t) (active t) (intervalMs t) (nextAt t) (bits t) (bitCount t) p (channel t) (appendInput t).
Definition set_active (b : bool) (t : Track) : Track :=
  MkTrack (configured t) b (intervalMs t) (nextAt t) (bits t) (bitCount t) (position t) (channel t) (appendInput t).
Definition set_nextAt (n : Z) (t : Track) : Track :=
  MkTrack (configured t) (active t) (intervalMs t) n (bits t) (bitCount t) (position t) (channel t) (appendInput t).

(** ** Pure helpers *)

(** 64-bit accumulation that stops as soon as the value leaves 32 bits. *)
Fixpoint parse_digits (negative : bool) (parsed : Z) (s : bytes) : option Z :=
  match s with
  | [] => Some parsed
  | c :: s' =>
      if negb (isdigit c) then None
      else let p := parsed * 10 + (c - 48) in
           if (negb negative && (INT_MAX <? p)) || (negative && (INT_MAX + 1 <? p)) then None
           else parse_digits negative p s'
  end.

Definition parseInteger (token : bytes) : option Z :=
  match token with
  | [] => None
  | c :: rest =>
      let negative := c =? 45 in
      let digits := if negative then rest else token in
      match digits with
      | [] => None
      | _ => match parse_digits negative 0 digits with
             | Some p => Some (if negative then - p else p)
             | None => None
             end
      end
  end.

Definition count_tracks (p : Track -> bool) (q : sequence) : Z := Z.of_nat (length (List.filter p (tracks q))).
Definition configuredCount (q : sequence) : Z := count_tracks configured q.
Definition activeCount (q : sequence) : Z := count_tracks active q.

Fixpoint comma_join (l : list bytes) : bytes :=
  match l with [] => [] | [x] => x | x :: l' => x ++ str "," ++ comma_join l' end.

Definition bool_text (b : bool) : bytes := if b then str "1" else str "0".

Definition position_text (t : Track) : bytes :=
  if configured t then print_nat (position t) ++ str "/" ++ print_nat (bitCount t) else str "-".

Definition stateDetail (q : sequence) : bytes :=
  str "running=" ++ bool_text (running q) ++ str " repeat=" ++ bool_text (repeating q)
  ++ str " configured=" ++ print_nat (configuredCount q) ++ str " active=" ++ print_nat (activeCount q)
  ++ str " channel_busy=" ++ comma_join (map bool_text (channelBusy q))
  ++ str " positions=" ++ comma_join (map position_text (tracks q)).

Definition stopAll (q : sequence) : sequence :=
  set_channelBusy (repeat false MAX_TRACKS) (set_tracks (map (set_active false) (tracks q)) (set_running false q)).

Definition sequence_begin (q : sequence) : sequence :=
  Sequence (repeat empty_track MAX_TRACKS) (repeat false MAX_TRACKS) false (repeating q) (lastPopped q)
           (repeat false MAX_TRACKS).

(** [busyMask]: bit [slot] is set while the track's channel is busy. *)
Fixpoint mask_from (slot : Z) (l : list bool) : Z :=
  match l with
  | [] => 0
  | b :: l' => Z.lor (if b then Z.shiftl 1 slot else 0) (mask_from (slot + 1) l')
  end.
Definition busyMask (q : sequence) : Z := mask_from 0 (channelBusy q).

(** A slot number in range, as an index. *)
Definition slot_ok (slot : Z) : bool := (0 <=? slot) && (slot <? 4).

(** ** Configuring tracks

    Of the registry, only the numbers, names and kinds of its entries matter
    here: it may be a registry for any state. *)

Section configuration.
Context {T : Type} (known : NativeRegistry (S := T)).

(** An outcome: the result and, when the state changes, the new state. *)
Definition outcome : Type := NativeResult * option sequence.
Definition refuse (v : Z) (text : bytes) : outcome := (result false v text, None).

(** The fixed arguments after the bits. *)
Fixpoint fixed_arguments (fuel : nat) (acc : list Z) (rest : bytes) : bytes + list Z :=
  match rest with
  | [] => inr acc
  | _ =>
      match fuel with
      | O => inl []
      | Datatypes.S fuel =>
          if (MAX_FIXED_ARGUMENTS <=? length acc)%nat then inl (str "at most 7 fixed arguments")
          else let '(token, rest') := tokenAt rest in
               match parseInteger token with
               | None => inl (str "arguments must be integers")
               | Some v => fixed_arguments fuel (acc ++ [v]) rest'
               end
      end
  end.

Definition is_bit (c : byte) : bool := (c =? 48) || (c =? 49).

(** A selector is a number or a name. *)
Definition select (selector : bytes) : bytes + option (NativeEntry (S := T)) :=
  match parseInteger selector with
  | Some n => if (n <? 0) || (65535 <? n) then inl (str "function ID must be 0..65535")
              else inr (find_id known n)
  | None => inr (find_name known selector)
  end.

Definition set (arguments : bytes) (q : sequence) : outcome :=
  if running q then refuse 0 (str "stop sequence before editing")
  else
  let '(slotToken, r) := tokenAt arguments in
  let '(intervalToken, r) := tokenAt r in
  let '(selector, r) := tokenAt r in
  let '(pattern, r) := tokenAt r in
  match parseInteger slotToken with
  | None => refuse 0 (str "slot must be 0..3")
  | Some slot =>
  if negb (slot_ok slot) then refuse 0 (str "slot must be 0..3")
  else
  match parseInteger intervalToken with
  | None => refuse 0 (str "interval must be 1..60000 ms")
  | Some interval =>
  if (interval <? 1) || (MAX_INTERVAL_MS <? interval) then refuse 0 (str "interval must be 1..60000 ms")
  else if (length selector =? 0)%nat || (length pattern =? 0)%nat || (MAX_BITS <? length pattern)%nat
  then refuse 0 (str "usage: slot interval_ms function bits [args...]")
  else if negb (forallb is_bit pattern) then refuse 0 (str "bits must contain only 0 or 1")
  else
  match select selector with
  | inl e => refuse 0 e
  | inr None => refuse 0 (str "function must be a numeric native function")
  | inr (Some entry) =>
  if negb (acceptsNumbers (implementation entry)) then refuse 0 (str "function must be a numeric native function")
  else
  match fixed_arguments (length r) [] r with
  | inl e => refuse 0 e
  | inr fixed =>
      let c := try_configure (id entry) fixed [] (try_configure (id entry) [] [] new_channel) in
      (result true slot (str "slot=" ++ print_int slot ++ str " interval_ms=" ++ print_int interval
                         ++ str " function=" ++ print_nat (id entry) ++ str " bits=" ++ pattern),
       Some (set_track (Z.to_nat slot)
               (MkTrack true false interval 0 pattern (Z.of_nat (length pattern)) 0 c true) q))
  end end end end.

(** The [count] low bits of [packed], the highest first. *)
Definition packed_bits (count : nat) (packed : Z) : bytes :=
  map (fun index => if Z.testbit packed (Z.of_nat (count - index - 1)) then 49 else 48) (seq 0 count).

Definition usage_numeric : bytes := str "usage: slot interval_ms function_id bit_count packed_bits [args...]".

Definition setNumeric (arguments : list Z) (ascii : bytes) (append : bool) (q : sequence) : outcome :=
  if running q then refuse 0 (str "stop sequence before editing")
  else
  match arguments with
  | slot :: interval :: functionId :: bit_count :: packed :: fixed =>
      if negb (slot_ok slot) then refuse 0 (str "slot must be 0..3")
      else if (interval <? 1) || (MAX_INTERVAL_MS <? interval) then refuse 0 (str "interval must be 1..60000 ms")
      else if (functionId <? 0) || (65535 <? functionId) then refuse 0 (str "function ID must be 0..65535")
      else if (bit_count <? 1) || (32 <? bit_count) then refuse 0 (str "VM packed pattern must contain 1..32 bits")
      else if (MAX_FIXED_ARGUMENTS <? length fixed)%nat then refuse 0 (str "at most 7 fixed arguments")
      else
      match find_id known functionId with
      | None => refuse 0 (str "function must be registered")
      | Some entry =>
      if negb (acceptsNumbers (implementation entry)) && negb (acceptsText (implementation entry))
      then refuse 0 (str "function must be registered")
      else
      let pattern := packed_bits (Z.to_nat bit_count) (u32 packed) in
      match configure (id entry) fixed ascii new_channel with
      | None => refuse 0 (str "invalid channel arguments")
      | Some c =>
          (result true slot (str "slot=" ++ print_int slot ++ str " interval_ms=" ++ print_int interval
                             ++ str " function=" ++ print_int functionId ++ str " bits=" ++ pattern),
           Some (set_track (Z.to_nat slot) (MkTrack true false interval 0 pattern bit_count 0 c append) q))
      end end
  | _ => refuse 0 usage_numeric
  end.

Definition usage_mixed : bytes :=
  str "usage: slot interval_ms function_id bit_count packed_bits append_bit(0|1) [args...] ASCII".

Definition setMixed (arguments : list Z) (ascii : bytes) (q : sequence) : outcome :=
  let count := length arguments in
  let append_bit := nth 5 arguments 0 in
  if (count <? 6)%nat || (13 <? count)%nat || negb ((append_bit =? 0) || (append_bit =? 1))
  then refuse 0 usage_mixed
  else setNumeric (take 5 arguments ++ drop 6 arguments) ascii (negb (append_bit =? 0)) q.

(** A compiled-in sequence; a pointer may be null. *)
Record ChannelDefinition := Definition_ {
  def_functionId : Z; def_intervalMs : Z; def_bits : option (list Z); def_bitCount : nat;
  def_arguments : option (list Z); def_argumentCount : nat; def_ascii : option bytes; def_appendInput : bool }.

Definition is_null {A} (o : option A) : bool := match o with None => true | Some _ => false end.

Definition bad_definition (d : ChannelDefinition) : bool :=
  is_null (def_bits d) || (def_bitCount d =? 0)%nat || (MAX_BITS <? def_bitCount d)%nat
  || (def_intervalMs d =? 0) || (MAX_INTERVAL_MS <? def_intervalMs d)
  || (MAX_FIXED_ARGUMENTS <? def_argumentCount d)%nat
  || (negb (def_argumentCount d =? 0)%nat && is_null (def_arguments d)).

(** One definition as a track, or why not. *)
Definition load_one (d : ChannelDefinition) : bytes + Track :=
  if bad_definition d then inl (str "invalid channel definition")
  else
  match find_id known (def_functionId d) with
  | None => inl (str "channel function is not registered")
  | Some entry =>
  if negb (acceptsNumbers (implementation entry)) && negb (acceptsText (implementation entry))
  then inl (str "channel function is not registered")
  else
  let source := take (def_bitCount d) (default [] (def_bits d)) in
  if negb (forallb (fun b => b <=? 1) source) then inl (str "channel bits must be 0 or 1")
  else
  match def_ascii d with
  | None => inl (str "invalid channel arguments")
  | Some ascii =>
      match configure (def_functionId d) (take (def_argumentCount d) (default [] (def_arguments d))) ascii new_channel with
      | None => inl (str "invalid channel arguments")
      | Some c =>
          inr (MkTrack true false (def_intervalMs d) 0 (map (fun b => if b =? 0 then 48 else 49) source)
                 (Z.of_nat (def_bitCount d)) 0 c (def_appendInput d))
      end
  end end.

Fixpoint load_all (slot : Z) (l : list ChannelDefinition) : (Z * bytes) + list Track :=
  match l with
  | [] => inr []
  | d :: l' => match load_one d with
               | inl e => inl (slot, e)
               | inr t => match load_all (slot + 1) l' with inl e => inl e | inr ts => inr (t :: ts) end
               end
  end.

Definition sequence_load (channels : list ChannelDefinition) (q : sequence) : outcome :=
  if running q then refuse 0 (str "stop sequence before replacing")
  else if (length channels =? 0)%nat || (MAX_TRACKS <? length channels)%nat
  then refuse 0 (str "sequence must contain 1..4 channels")
  else match load_all 0 channels with
       | inl (slot, e) => refuse slot e
       | inr ts => (result true (Z.of_nat (length channels)) (str "channels=" ++ print_nat (Z.of_nat (length channels))),
                    Some (set_tracks (ts ++ repeat empty_track (MAX_TRACKS - length ts)) q))
       end.
End configuration.

(** ** The interface: a device holds the service's state, and reading its clock
    does not change it. *)

Class HasSequence (S : Type) `{HasClock S} := {
  seq_of : S -> sequence;
  put_seq : sequence -> S -> S;
  seq_of_put q s : seq_of (put_seq q s) = q;
  seq_put_put q q' s : put_seq q (put_seq q' s) = put_seq q s;
  millis_seq s : seq_of (millis s).2 = seq_of s;
  millis_put_seq q s : (millis (put_seq q s)).1 = (millis s).1 }.

Section service.
Context {S : Type} `{HasSequence S}.

Definition get_seq {A} (f : sequence -> A) : st S A := gets (fun s => f (seq_of s)).
Definition upd_seq (f : sequence -> sequence) : st S unit := modify (fun s => put_seq (f (seq_of s)) s).

(** Perform a configuration. *)
Definition perform (f : sequence -> outcome) : st S NativeResult :=
  o ← get_seq f;
  match o.2 with
  | None => mret o.1
  | Some q => upd_seq (fun _ => q) ;; mret o.1
  end.

Definition no_arguments : bytes := str "usage: no arguments".
Definition usage_slot : bytes := str "usage: slot(0..3)".

Definition start_tracks (now : Z) (t : Track) : Track :=
  MkTrack (configured t) (configured t) (intervalMs t) now (bits t) (bitCount t) 0 (channel t) (appendInput t).

Definition start (arguments : list Z) : st S NativeResult :=
  let flag := nth 0 arguments 0 in
  if (1 <? length arguments)%nat || ((length arguments =? 1)%nat && negb ((flag =? 0) || (flag =? 1)))
  then mret (failure (str "usage: [repeat(0|1)]"))
  else
  busy ← get_seq running;
  if busy : bool then mret (failure (str "sequence already running"))
  else
  none ← get_seq (fun q => configuredCount q =? 0);
  if none : bool then mret (failure (str "no sequence tracks configured"))
  else
  upd_seq (set_repeating (negb (flag =? 0))) ;;
  now ← millis;
  upd_seq (fun q => set_tracks (map (start_tracks now) (tracks q)) q) ;;
  upd_seq (fun q => set_channelBusy (map active (tracks q)) q) ;;
  upd_seq (set_running true) ;;
  get_seq (fun q => result true (configuredCount q) (stateDetail q)).

Definition stop (arguments : list Z) : st S NativeResult :=
  match arguments with
  | [] => upd_seq stopAll ;; get_seq (fun q => result true 0 (stateDetail q))
  | _ => mret (failure no_arguments)
  end.

Definition status (arguments : list Z) : st S NativeResult :=
  match arguments with
  | [] => get_seq (fun q => result true (if running q then 1 else 0) (stateDetail q))
  | _ => mret (failure no_arguments)
  end.

Definition clear (arguments : list Z) : st S NativeResult :=
  perform (fun q =>
    if running q then refuse 0 (str "stop sequence before clearing")
    else match arguments with
         | [] => (result true 0 (str "cleared=all"), Some (set_tracks (repeat empty_track MAX_TRACKS) q))
         | [slot] => if negb (slot_ok slot) then refuse 0 (str "slot must be 0..3")
                     else (result true slot (str "cleared=" ++ print_int slot),
                           Some (set_track (Z.to_nat slot) empty_track q))
         | _ => refuse 0 (str "usage: [slot]")
         end).

(** The slot of a one-argument call. *)
Definition with_slot (arguments : list Z) (f : Z -> sequence -> outcome) : st S NativeResult :=
  match arguments with
  | [slot] => if slot_ok slot then perform (f slot) else mret (failure usage_slot)
  | _ => mret (failure usage_slot)
  end.

Definition results (slot : nat) (q : sequence) : NoobRecordQueue := results_ (channel (track slot q)).
Definition put_results (slot : nat) (r : NoobRecordQueue) (q : sequence) : sequence :=
  set_track slot (set_channel (set_results r (channel (track slot q))) (track slot q)) q.

Definition slot_text (slot : Z) : bytes := str "slot=" ++ print_int slot.

Definition pop (arguments : list Z) : st S NativeResult :=
  with_slot arguments (fun slot q =>
    match EspRecord.pop (results (Z.to_nat slot) q) with
    | None => refuse 0 (str "channel queue empty")
    | Some (rec, queue) =>
        (Result true (default 0 (primary rec))
           (slot_text slot ++ str " remaining=" ++ print_nat (Z.of_nat (size queue)) ++ str " dropped="
            ++ print_nat (dropped_ queue)) rec,
         Some (set_popped (Z.to_nat slot) rec (put_results (Z.to_nat slot) queue q)))
    end).

Definition queueSize (arguments : list Z) : st S NativeResult :=
  with_slot arguments (fun slot q =>
    let queue := results (Z.to_nat slot) q in
    (result true (Z.of_nat (size queue)) (slot_text slot ++ str " dropped=" ++ print_nat (dropped_ queue)), None)).

Definition clearQueue (arguments : list Z) : st S NativeResult :=
  with_slot arguments (fun slot q =>
    (result true 0 (slot_text slot ++ str " cleared=1"),
     Some (forget_popped (Z.to_nat slot)
             (put_results (Z.to_nat slot) (EspRecord.clear (results (Z.to_nat slot) q)) q)))).

Definition usage_field : bytes := str "usage: slot(0..3) field_index(0..5)".

Definition field (arguments : list Z) : st S NativeResult :=
  match arguments with
  | [slot; index] =>
      if negb (slot_ok slot) || negb ((0 <=? index) && (index <? Z.of_nat MAX_FIELDS)) then mret (failure usage_field)
      else get_seq (fun q =>
        if negb (nth (Z.to_nat slot) (haveLastPopped q) false) then failure (str "no popped channel record")
        else match get_index (nth (Z.to_nat slot) (lastPopped q) empty_record) (Z.to_nat index) with
             | None => failure (str "record field absent")
             | Some (nm, v) => result true v (slot_text slot ++ str " field=" ++ print_int index ++ str " name=" ++ nm)
             end)
  | _ => mret (failure usage_field)
  end.

Definition busy (arguments : list Z) : st S NativeResult :=
  with_slot arguments (fun slot q =>
    let b := nth (Z.to_nat slot) (channelBusy q) false in
    (result true (if b then 1 else 0) (slot_text slot ++ str " channel_busy=" ++ bool_text b), None)).

(** SEQUENCE_SET: every call reaches its [callMixed]. *)
Definition configurationFunction {T} (known : NativeRegistry (S := T)) : NoobFunction S :=
  Function S true true (fun arguments ascii => perform (setMixed known arguments ascii)).

(** NoobSequenceProgram: stop, load, start. *)
Definition sequence_program_call {T} (known : NativeRegistry (S := T)) (channels : list ChannelDefinition)
    (arguments : list Z) : st S NativeResult :=
  let flag := nth 0 arguments 0 in
  if (1 <? length arguments)%nat || ((length arguments =? 1)%nat && negb ((flag =? 0) || (flag =? 1)))
  then mret (failure (str "usage: [repeat(0|1)]"))
  else stop [] ;;
       r ← perform (sequence_load known channels);
       if negb (ok r) then mret r else start arguments.

Definition sequence_program_stop : st S NativeResult := stop [].

Definition NoobSequenceProgram {T} (known : NativeRegistry (S := T)) (channels : list ChannelDefinition) : NoobFunction S :=
  base_function true false (sequence_program_call known channels)
    (fun _ => mret (failure (str "text call unsupported"))).

(** ** The background tick *)

Context (natives : NativeRegistry (S := S)).

Definition channel_at (slot : nat) (s : S) : NoobProgramChannel := channel (track slot (seq_of s)).
Definition put_channel_at (slot : nat) (c : NoobProgramChannel) (s : S) : S :=
  put_seq (set_track slot (set_channel c (track slot (seq_of s))) (seq_of s)) s.

Definition due (now : Z) (t : Track) : bool := active t && negb (i32 (u32 (now - nextAt t)) <? 0).

(** After a successful call: the next bit, or the end of the pattern. *)
Definition advance (slot : nat) (now : Z) (q : sequence) : sequence :=
  let t := set_position ((position (track slot q) + 1) mod 256) (track slot q) in
  let '(t, busy) :=
    if position t <? bitCount t then (t, channelBusy q)
    else if repeating q then (set_position 0 t, channelBusy q)
    else (set_active false t, <[slot := false]> (channelBusy q)) in
  set_channelBusy busy (set_track slot (set_nextAt (u32 (now + intervalMs t)) t) q).

Definition error_event (slot : nat) (c : NoobProgramChannel) : bytes :=
  str "NRP/1 0 EVENT SEQUENCE_ERROR slot=" ++ print_nat (Z.of_nat slot) ++ str " function="
  ++ print_nat (functionId_ c) ++ str " detail=" ++ lastDetail_ c.

Definition complete_event : bytes := str "NRP/1 0 EVENT SEQUENCE_COMPLETE".

(** The slots from [slot] on; [inl] is the error event. *)
Fixpoint tick_slots (now : Z) (slots : list nat) (invoked : bool) : st S (bytes + bool) :=
  match slots with
  | [] => mret (inr invoked)
  | slot :: rest =>
      t ← get_seq (track slot);
      if negb (due now t) then tick_slots now rest invoked
      else
      invoke natives (channel_at slot) (put_channel_at slot)
        (if nth (Z.to_nat (position t)) (bits t) NUL =? 49 then 1 else 0) (appendInput t) ;;
      c ← gets (channel_at slot);
      if negb (lastOk_ c) then upd_seq stopAll ;; mret (inl (error_event slot c))
      else upd_seq (advance slot now) ;; tick_slots now rest true
  end.

(** The event, if the pass produced one. *)
Definition sequence_tick : st S (option bytes) :=
  on ← get_seq running;
  if negb on then mret None
  else
  now ← millis;
  r ← tick_slots now (seq 0 MAX_TRACKS) false;
  match r with
  | inl event => mret (Some event)
  | inr invoked =>
      idle ← get_seq (fun q => activeCount q =? 0);
      if (invoked && idle)%bool then upd_seq (set_running false) ;; mret (Some complete_event)
      else mret None
  end.
End service.
End EspSequence.
