(* ===== verification/EspSequenceFacts.v ===== *)
(** * The sequence service: its invariant

    Every operation of the service and its background tick keep the tracks
    within their bounds, whatever native functions the tracks call. *)
From S2P Require Import Prelude CLib EspRecord EspRegistry EspVm EspProgram EspSequence.

Open Scope Z_scope.

Module EspSequenceFacts.
Import EspRecord EspRegistry EspVm EspProgram EspSequence.

(** ** The invariant *)

Definition track_wf (t : Track) : Prop :=
  channel_wf (channel t)
  /\ (active t = true -> configured t = true /\ 0 <= position t < bitCount t)
  /\ (configured t = true ->
      1 <= bitCount t <= Z.of_nat MAX_BITS /\ Z.of_nat (length (bits t)) = bitCount t
      /\ forallb is_bit (bits t) = true /\ 1 <= intervalMs t <= MAX_INTERVAL_MS).

Definition seq_wf (q : sequence) : Prop :=
  length (tracks q) = MAX_TRACKS /\ channelBusy q = map active (tracks q) /\ Forall track_wf (tracks q)
  /\ (running q = false -> Forall (fun t => active t = false) (tracks q))
  /\ length (lastPopped q) = MAX_TRACKS /\ length (haveLastPopped q) = MAX_TRACKS.

#[global] Instance track_wf_dec t : Decision (track_wf t).
Proof. unfold track_wf. apply _. Defined.

#[global] Instance seq_wf_dec q : Decision (seq_wf q).
Proof. unfold seq_wf. apply _. Defined.

Lemma empty_track_wf : track_wf empty_track.
Proof. by apply (bool_decide_unpack _). Qed.

Lemma sequence_init_wf : seq_wf sequence_init.
Proof. by apply (bool_decide_unpack _). Qed.

Lemma track_of_wf slot q : seq_wf q -> track_wf (track slot q).
Proof.
  intros (_ & _ & Ht & _). unfold track. destruct (nth_in_or_default slot (tracks q) empty_track) as [Hin| ->].
  - eapply Forall_forall; [exact Ht|]. by apply list_elem_of_In.
  - apply empty_track_wf.
Qed.

Lemma active_insert slot t l : map active (<[slot := t]> l) = <[slot := active t]> (map active l).
Proof. apply (list_fmap_insert active). Qed.

Lemma nth_active slot q : nth slot (map active (tracks q)) false = active (track slot q).
Proof. unfold track. change false with (active empty_track). apply map_nth. Qed.

(** Writing back the value an entry has already changes nothing. *)
Lemma insert_same {A} (l : list A) i d x : nth i l d = x -> <[i := x]> l = l.
Proof.
  intros <-. destruct (decide (i < length l)%nat) as [Hi|Hi].
  - apply list_insert_id. destruct (lookup_lt_is_Some_2 l i Hi) as [y Hy]. rewrite Hy. f_equal.
    symmetry. by apply nth_lookup_Some.
  - apply list_insert_ge. lia.
Qed.

(** A track may be replaced by one that is active when the old one was. *)
Lemma set_track_wf slot t q :
  seq_wf q -> track_wf t -> active t = active (track slot q) -> seq_wf (set_track slot t q).
Proof.
  intros Hq Ht Ea. pose proof Hq as (H1 & H2 & H3 & H4 & H5 & H6). unfold seq_wf, set_track. cbn.
  split_and!; try done.
  - by rewrite length_insert.
  - rewrite active_insert, (insert_same _ _ false), H2; [done|]. by rewrite nth_active.
  - by apply Forall_insert.
  - intros Hr. specialize (H4 Hr). apply Forall_insert; [done|]. rewrite Ea. unfold track.
    destruct (nth_in_or_default slot (tracks q) empty_track) as [Hin| ->]; [|done].
    by eapply Forall_forall in H4; [|apply list_elem_of_In].
Qed.

Lemma inactive_track slot q : seq_wf q -> running q = false -> active (track slot q) = false.
Proof.
  intros (_ & _ & _ & H4 & _) Hr. specialize (H4 Hr). unfold track.
  destruct (nth_in_or_default slot (tracks q) empty_track) as [Hin| ->]; [|done].
  by eapply Forall_forall in H4; [|apply list_elem_of_In].
Qed.

(** ... and, while the service is stopped, by any that is not active. *)
Lemma replace_track_wf slot t q :
  seq_wf q -> running q = false -> track_wf t -> active t = false -> seq_wf (set_track slot t q).
Proof. intros Hq Hr Ht Ha. apply set_track_wf; [done..|]. by rewrite inactive_track. Qed.

Lemma replace_tracks_wf l q :
  seq_wf q -> length l = MAX_TRACKS -> Forall track_wf l -> Forall (fun t => active t = false) l ->
  running q = false -> seq_wf (set_tracks l q).
Proof.
  intros (H1 & H2 & H3 & H4 & H5 & H6) Hl Ht Ha Hr. unfold seq_wf, set_tracks. cbn. split_and!; try done.
  rewrite H2. assert (E : forall l', Forall (fun t => active t = false) l' -> map active l' = repeat false (length l')).
  { induction 1 as [|t l' E _ IH]; [done|]. cbn. by rewrite E, IH. }
  rewrite !E by auto. by rewrite H1, Hl.
Qed.

Lemma set_active_wf t : track_wf t -> track_wf (set_active false t).
Proof. intros (H1 & _ & H3). split_and!; try done. Qed.

Lemma stopAll_wf q : seq_wf q -> seq_wf (stopAll q).
Proof.
  intros (H1 & H2 & H3 & H4 & H5 & H6). unfold seq_wf, stopAll. cbn. split_and!; try done.
  - by rewrite length_map.
  - rewrite map_map. cbn. destruct (tracks q) as [|t1 [|t2 [|t3 [|t4 [|]]]]]; done.
  - apply Forall_map. eapply Forall_impl; [exact H3|]. apply set_active_wf.
  - intros _. apply Forall_map. by apply Forall_true.
Qed.

(** ** Configuration *)

Definition sound (f : sequence -> outcome) : Prop := forall q, seq_wf q -> match (f q).2 with None => True | Some q' => seq_wf q' end.

Section configuration.
Context {T : Type} (known : NativeRegistry (S := T)).

Lemma packed_bits_ok n packed : length (packed_bits n packed) = n /\ forallb is_bit (packed_bits n packed) = true.
Proof.
  unfold packed_bits. split; [by rewrite length_map, length_seq|]. apply forallb_forall.
  intros c (i & <- & _)%in_map_iff. by destruct (Z.testbit _ _).
Qed.

Lemma new_track_wf c interval pattern append :
  channel_wf c -> 1 <= interval <= MAX_INTERVAL_MS -> (1 <= length pattern <= MAX_BITS)%nat ->
  forallb is_bit pattern = true ->
  track_wf (MkTrack true false interval 0 pattern (Z.of_nat (length pattern)) 0 c append).
Proof. intros Hc Hi Hl Hb. unfold track_wf. cbn. split_and!; try done; intros _; split_and!; try done; lia. Qed.

Lemma set_sound arguments : sound (set known arguments).
Proof.
  intros q Hq. unfold set. destruct (running q) eqn:Hr; [done|].
  destruct (tokenAt arguments) as [slotToken r1], (tokenAt r1) as [intervalToken r2], (tokenAt r2) as [selector r3],
    (tokenAt r3) as [pattern r4]. destruct (parseInteger slotToken) as [slot|]; [|done].
  destruct (slot_ok slot); [|done]. cbn [negb]. destruct (parseInteger intervalToken) as [interval|]; [|done].
  destruct (_ || _) eqn:Ei; [done|]. destruct (_ || _) eqn:Ep in |- *; [done|].
  destruct (forallb is_bit pattern) eqn:Eb; [|done]. cbn [negb].
  destruct (select known selector) as [e|[entry|]]; [done| |done].
  destruct (acceptsNumbers _); [|done]. cbn [negb]. destruct (fixed_arguments _ _ _) as [e|fixed]; [done|].
  apply replace_track_wf; try done. apply orb_false_iff in Ei as [Ei1%Z.ltb_ge Ei2%Z.ltb_ge].
  apply orb_false_iff in Ep as [[Ep1 Ep2%Nat.eqb_neq]%orb_false_iff Ep3%Nat.ltb_ge].
  apply new_track_wf; try done; [|lia]. by do 2 apply try_configure_wf; apply new_channel_wf.
Qed.

Lemma setNumeric_sound arguments ascii append : sound (setNumeric known arguments ascii append).
Proof.
  intros q Hq. unfold setNumeric. destruct (running q) eqn:Hr; [done|].
  destruct arguments as [|slot [|interval [|functionId [|bit_count [|packed fixed]]]]]; try done.
  destruct (slot_ok slot); [|done]. cbn [negb]. destruct (_ || _) eqn:Ei; [done|].
  destruct (_ || _) eqn:Ef in |- *; [done|]. destruct (_ || _) eqn:Eb in |- *; [done|].
  destruct (_ <? _)%nat; [done|]. destruct (find_id _ _) as [entry|]; [|done]. destruct (_ && _); [done|].
  destruct (configure _ _ _ _) as [c|] eqn:Ec; [|done]. apply configure_wf in Ec; [|apply new_channel_wf].
  apply replace_track_wf; try done. apply orb_false_iff in Ei as [Ei1%Z.ltb_ge Ei2%Z.ltb_ge].
  apply orb_false_iff in Eb as [Eb1%Z.ltb_ge Eb2%Z.ltb_ge].
  destruct (packed_bits_ok (Z.to_nat bit_count) (u32 packed)) as [Hl Hb].
  pose proof (new_track_wf c interval (packed_bits (Z.to_nat bit_count) (u32 packed)) append) as Hw.
  rewrite Hl, Z2Nat.id in Hw by lia. apply Hw; try done. unfold MAX_BITS. lia.
Qed.

Lemma setMixed_sound arguments ascii : sound (setMixed known arguments ascii).
Proof. intros q Hq. unfold setMixed. destruct (_ || _); [done|]. by apply setNumeric_sound. Qed.

(** What C++ gives of a definition: an unsigned interval, and the bits the count
    announces behind a non-null pointer. *)
Definition definition_ok (d : ChannelDefinition) : Prop :=
  0 <= def_intervalMs d /\ match def_bits d with None => True | Some l => (def_bitCount d <= length l)%nat end.

Lemma load_one_wf d t : definition_ok d -> load_one known d = inr t -> track_wf t /\ active t = false.
Proof.
  intros [Hi Hlen]. unfold load_one. destruct (bad_definition d) eqn:E; [done|].
  destruct (find_id _ _) as [entry|]; [|done]. destruct (_ && _); [done|].
  destruct (forallb _ _); [|done]. cbn [negb]. destruct (def_ascii d) as [ascii|]; [|done].
  destruct (configure _ _ _ _) as [c|] eqn:Ec; [|done]. apply configure_wf in Ec; [|apply new_channel_wf].
  intros [= <-]. split; [|done]. unfold bad_definition in E. rewrite !orb_false_iff in E.
  destruct E as ((((((E1 & E2%Nat.eqb_neq) & E3%Nat.ltb_ge) & E4%Z.eqb_neq) & E5%Z.ltb_ge) & _) & _).
  destruct (def_bits d) as [l|]; [|done]. cbn [default].
  pose proof (new_track_wf c (def_intervalMs d) (map (fun b => if b =? 0 then 48 else 49) (take (def_bitCount d) l))
    (def_appendInput d) Ec) as Hw.
  rewrite length_map, length_take, Nat.min_l in Hw by done. apply Hw; [lia|lia|].
  apply forallb_forall. intros x (y & <- & _)%in_map_iff. by destruct (y =? 0).
Qed.

Lemma load_all_wf l n ts :
  Forall definition_ok l -> load_all known n l = inr ts ->
  Forall track_wf ts /\ Forall (fun t => active t = false) ts /\ length ts = length l.
Proof.
  intros Hl. revert n ts. induction Hl as [|d l Hd _ IH]; intros n ts; cbn; [by intros [= <-]|].
  destruct (load_one known d) as [e|t] eqn:Et; [done|]. destruct (load_all known (n + 1) l) as [e|ts'] eqn:E; [done|].
  intros [= <-]. apply load_one_wf in Et as [H1 H2]; [|done]. destruct (IH _ _ E) as (H3 & H4 & H5).
  split_and!; [by constructor..|]. cbn. lia.
Qed.

Lemma sequence_load_sound channels : Forall definition_ok channels -> sound (sequence_load known channels).
Proof.
  intros Hc q Hq. unfold sequence_load. destruct (running q) eqn:Hr; [done|].
  destruct (_ || _) eqn:E; [done|]. apply orb_false_iff in E as [_ E%Nat.ltb_ge].
  destruct (load_all known 0 channels) as [[slot e]|ts] eqn:El; [done|].
  apply load_all_wf in El as (H1 & H2 & H3); [|done]. cbn [snd].
  assert (He : Forall (fun t => t = empty_track) (repeat empty_track (MAX_TRACKS - length ts)))
    by (apply Forall_forall; intros x Hx%list_elem_of_In%repeat_spec; done).
  apply replace_tracks_wf; try done.
  - rewrite length_app, repeat_length. lia.
  - apply Forall_app. split; [done|]. eapply Forall_impl; [exact He|]. intros t ->. apply empty_track_wf.
  - apply Forall_app. split; [done|]. eapply Forall_impl; [exact He|]. by intros t ->.
Qed.
End configuration.

(** ** The operations *)

Section operations.
Context {S : Type} `{HasSequence S}.

Definition seq_inv (s : S) : Prop := seq_wf (seq_of s).

Lemma keeps_upd f : (forall q, seq_wf q -> seq_wf (f q)) -> keeps seq_inv (upd_seq f).
Proof. intros Hf s Hs. unfold seq_inv, upd_seq, modify. cbn. rewrite seq_of_put. by apply Hf. Qed.

Lemma keeps_get {A} (f : sequence -> A) : keeps seq_inv (get_seq f).
Proof. by intros s. Qed.

Lemma keeps_millis : keeps seq_inv millis.
Proof. intros s Hs. unfold seq_inv. by rewrite millis_seq. Qed.

Lemma keeps_perform f : sound f -> keeps seq_inv (perform f).
Proof.
  intros Hf s Hs. specialize (Hf _ Hs). unfold perform, get_seq. rewrite st_bind_run. cbn [gets fst snd].
  destruct (f (seq_of s)) as [r [q'|]]; [|done]. cbn [snd] in *. rewrite st_bind_run.
  by apply (keeps_upd (fun _ => q')).
Qed.
#[local] Hint Resolve keeps_get keeps_millis keeps_perform : noobia.

Lemma with_slot_keeps arguments f : (forall slot, sound (f slot)) -> keeps seq_inv (with_slot arguments f).
Proof. intros Hf. unfold with_slot. destruct arguments as [|slot [|]]; keeps_auto. Qed.

Lemma set_repeating_wf b q : seq_wf q -> seq_wf (set_repeating b q).
Proof. done. Qed.

Lemma start_tracks_wf now t : track_wf t -> track_wf (start_tracks now t).
Proof.
  intros (W1 & W2 & W3). unfold track_wf. cbn. split_and!; try done. intros Hc. specialize (W3 Hc).
  split_and!; [done|lia|lia].
Qed.

(** [start] touches the tracks, the busy flags and [running] one after the
    other; the invariant holds again at the end. *)
Lemma started_wf now q :
  seq_wf q ->
  let q1 := set_tracks (map (start_tracks now) (tracks q)) q in
  seq_wf (set_running true (set_channelBusy (map active (tracks q1)) q1)).
Proof.
  intros (W1 & W2 & W3 & W4 & W5 & W6). unfold seq_wf. cbn. split_and!; try done.
  - by rewrite length_map.
  - apply Forall_map. eapply Forall_impl; [exact W3|]. apply start_tracks_wf.
Qed.

Lemma start_writes now {A} (g : sequence -> A) :
  keeps seq_inv (upd_seq (fun q => set_tracks (map (start_tracks now) (tracks q)) q) ;;
                 upd_seq (fun q => set_channelBusy (map active (tracks q)) q) ;;
                 upd_seq (set_running true) ;; get_seq g).
Proof.
  intros s Hs. unfold seq_inv, upd_seq, get_seq. run_st. rewrite !seq_of_put. by apply started_wf.
Qed.

Lemma start_keeps arguments : keeps seq_inv (start arguments).
Proof.
  unfold start. apply keeps_if; intros _; [apply keeps_ret|].
  apply keeps_bind; [apply keeps_get|]. intros b. apply keeps_if; intros _; [apply keeps_ret|].
  apply keeps_bind; [apply keeps_get|]. intros b'. apply keeps_if; intros _; [apply keeps_ret|].
  apply keeps_bind; [by apply keeps_upd|]. intros []. apply keeps_bind; [apply keeps_millis|]. intros now.
  apply start_writes.
Qed.

Lemma stop_keeps arguments : keeps seq_inv (stop arguments).
Proof. unfold stop. keeps_auto. apply keeps_upd, stopAll_wf. Qed.

Lemma status_keeps arguments : keeps seq_inv (status arguments).
Proof. unfold status. keeps_auto. Qed.

Lemma clear_keeps arguments : keeps seq_inv (clear arguments).
Proof.
  apply keeps_perform. intros q Hq. destruct (running q) eqn:Hr; [done|].
  destruct arguments as [|slot [|]]; cbn [snd]; [|destruct (slot_ok slot); cbn [negb snd]|done].
  - apply replace_tracks_wf; try done; by apply (bool_decide_unpack _).
  - apply replace_track_wf; try done. apply empty_track_wf.
  - done.
Qed.

Lemma put_results_wf slot r q : seq_wf q -> queue_wf r -> seq_wf (put_results slot r q).
Proof.
  intros Hq Hr. unfold put_results. apply set_track_wf; [done| |done].
  destruct (track_of_wf slot q Hq) as ((W1 & W2 & W3 & _) & W5 & W6). unfold track_wf, channel_wf. cbn. auto.
Qed.

Lemma popped_wf slot r q : seq_wf q -> seq_wf (set_popped slot r q).
Proof.
  intros (W1 & W2 & W3 & W4 & W5 & W6). unfold seq_wf, set_popped. cbn. by rewrite !length_insert.
Qed.

Lemma forget_wf slot q : seq_wf q -> seq_wf (forget_popped slot q).
Proof.
  intros (W1 & W2 & W3 & W4 & W5 & W6). unfold seq_wf, forget_popped. cbn. by rewrite !length_insert.
Qed.

Lemma results_wf slot q : seq_wf q -> queue_wf (results slot q).
Proof. intros Hq. by destruct (track_of_wf slot q Hq) as ((_ & _ & _ & Hr) & _). Qed.

Lemma pop_keeps arguments : keeps seq_inv (pop arguments).
Proof.
  apply with_slot_keeps. intros slot q Hq. pose proof (pop_contents _ (results_wf (Z.to_nat slot) q Hq)) as Hp.
  destruct (EspRecord.pop _) as [[r' q']|]; [|done]. cbn [snd]. destruct (contents _); [done|].
  destruct Hp as (_ & _ & Hq' & _). by apply popped_wf, put_results_wf.
Qed.

Lemma queueSize_keeps arguments : keeps seq_inv (queueSize arguments).
Proof. by apply with_slot_keeps. Qed.

Lemma clearQueue_keeps arguments : keeps seq_inv (clearQueue arguments).
Proof. apply with_slot_keeps. intros slot q Hq. cbn [snd]. by apply forget_wf, put_results_wf, clear_wf, results_wf. Qed.

Lemma field_keeps arguments : keeps seq_inv (field arguments).
Proof. unfold field. keeps_auto. Qed.

Lemma busy_keeps arguments : keeps seq_inv (busy arguments).
Proof. by apply with_slot_keeps. Qed.

Lemma sequence_program_keeps {T} (known : NativeRegistry (S := T)) channels arguments :
  Forall definition_ok channels -> keeps seq_inv (sequence_program_call known channels arguments).
Proof.
  intros Hc. unfold sequence_program_call. apply keeps_if; intros _; [apply keeps_ret|].
  apply keeps_bind; [apply stop_keeps|]. intros _.
  apply keeps_bind; [by apply keeps_perform, sequence_load_sound|]. intros r.
  apply keeps_if; intros _; [apply keeps_ret|apply start_keeps].
Qed.

(** ** The tick *)

Context (natives : NativeRegistry (S := S)).

(** Every native function keeps the invariant; those of the service do, and a
    function that does not use the service does. *)
Definition natives_keep : Prop := forall e args ascii, e ∈ natives -> keeps seq_inv (fn_callMixed (implementation e) args ascii).

Lemma keeps_channel slot f :
  (forall c, channel_wf c -> channel_wf (f c)) -> keeps seq_inv (upd_channel (channel_at slot) (put_channel_at slot) f).
Proof.
  intros Hf s Hs. unfold seq_inv, upd_channel, modify, put_channel_at, channel_at. cbn. rewrite seq_of_put.
  apply set_track_wf; [done| |done]. destruct (track_of_wf slot _ Hs) as (W1 & W2 & W3).
  unfold track_wf. cbn. auto.
Qed.

Lemma settle_wf r c : channel_wf c -> channel_wf (settle r c).
Proof.
  intros (W1 & W2 & W3 & W4). unfold channel_wf, settle. cbn. split_and!; try done.
  destruct (ok r); [|done]. destruct (record r); by apply push_contents.
Qed.

Lemma callMixed_keeps e args ascii : natives_keep -> e ∈ natives -> keeps seq_inv (callMixed e args ascii).
Proof. intros Hn He. unfold callMixed. do 2 (apply keeps_if; intros _; [apply keeps_ret|]). by apply Hn. Qed.

Lemma find_id_elem (r : NativeRegistry (S := S)) i e : find_id r i = Some e -> e ∈ r.
Proof.
  induction r as [|x r IH]; [done|]. cbn. destruct (id x =? i); [intros [= ->]; left|]. intros Hr. right. by apply IH.
Qed.

Lemma invoke_keeps slot input append :
  natives_keep -> keeps seq_inv (invoke natives (channel_at slot) (put_channel_at slot) input append).
Proof.
  intros Hn. unfold invoke. apply keeps_bind; [by apply keeps_channel|]. intros [].
  apply keeps_bind; [apply keeps_gets|]. intros c. destruct (find_id _ _) as [e|] eqn:E; [|by apply keeps_channel].
  apply find_id_elem in E. apply keeps_bind; [by apply callMixed_keeps|]. intros r. apply keeps_channel, settle_wf.
Qed.

Lemma finish_track_wf slot t q :
  seq_wf q -> track_wf t -> active t = false ->
  seq_wf (set_channelBusy (<[slot := false]> (channelBusy q)) (set_track slot t q)).
Proof.
  intros (W1 & W2 & W3 & W4 & W5 & W6) Ht Ha. unfold seq_wf. cbn. split_and!; try done.
  - by rewrite length_insert.
  - by rewrite active_insert, Ha, W2.
  - by apply Forall_insert.
  - intros Hr. apply Forall_insert; auto.
Qed.

Lemma same_busy slot t q : set_channelBusy (channelBusy q) (set_track slot t q) = set_track slot t q.
Proof. done. Qed.

Lemma advance_wf slot now q : seq_wf q -> seq_wf (advance slot now q).
Proof.
  intros Hq. pose proof (track_of_wf slot q Hq) as (W1 & W2 & W3). unfold advance.
  set (t := track slot q) in *. cbn [position set_position bitCount].
  destruct (Z.ltb_spec ((position t + 1) mod 256) (bitCount t)) as [Hlt|_]; [|destruct (repeating q)].
  - rewrite same_busy. apply set_track_wf; [done| |done]. unfold track_wf. cbn. split_and!; try done.
    intros Ha. destruct (W2 Ha) as [Hc Hp]. split; [done|]. pose proof (Z.mod_pos_bound (position t + 1) 256). lia.
  - rewrite same_busy. apply set_track_wf; [done| |done]. unfold track_wf. cbn. split_and!; try done.
    intros Ha. destruct (W2 Ha) as [Hc Hp]. split; [done|]. lia.
  - apply finish_track_wf; [done| |done]. unfold track_wf. cbn. split_and!; done.
Qed.

Lemma tick_slots_keeps now slots invoked : natives_keep -> keeps seq_inv (tick_slots natives now slots invoked).
Proof.
  intros Hn. revert invoked. induction slots as [|slot rest IH]; intros invoked; cbn [tick_slots]; [apply keeps_ret|].
  apply keeps_bind; [apply keeps_get|]. intros t. apply keeps_if; intros _; [apply IH|].
  apply keeps_bind; [by apply invoke_keeps|]. intros []. apply keeps_bind; [apply keeps_gets|]. intros c.
  apply keeps_if; intros _; (apply keeps_bind; [apply keeps_upd; auto using stopAll_wf, advance_wf|intros []]);
    [apply keeps_ret|apply IH].
Qed.

(** Stopping the clock when nothing is active keeps the invariant. *)
Lemma idle_wf q : seq_wf q -> (activeCount q =? 0) = true -> seq_wf (set_running false q).
Proof.
  intros (W1 & W2 & W3 & W4 & W5 & W6) E%Z.eqb_eq. unfold seq_wf. cbn. split_and!; try done. intros _.
  unfold activeCount, count_tracks in E. apply Forall_forall. intros t Ht.
  destruct (active t) eqn:Ea; [|done]. apply list_elem_of_In in Ht.
  assert (Hf : In t (List.filter active (tracks q))) by (by apply filter_In).
  destruct (List.filter active (tracks q)); [done|]. cbn in E. lia.
Qed.

Lemma sequence_tick_keeps : natives_keep -> keeps seq_inv (sequence_tick natives).
Proof.
  intros Hn. unfold sequence_tick. apply keeps_bind; [apply keeps_get|]. intros on.
  apply keeps_if; intros _; [apply keeps_ret|]. apply keeps_bind; [apply keeps_millis|]. intros now.
  apply keeps_bind; [by apply tick_slots_keeps|]. intros [e|invoked]; [apply keeps_ret|].
  intros s Hs. rewrite st_bind_run. cbn [get_seq gets fst snd]. destruct (invoked && _) eqn:E; [|done].
  apply andb_true_iff in E as [_ E]. rewrite st_bind_run. cbn. unfold seq_inv. rewrite seq_of_put. by apply idle_wf.
Qed.
End operations.
End EspSequenceFacts.
