(* ===== verification/EspSequencePlay.v ===== *)
(** * The sequence service plays its score

    A reference scheduler: every track has a plan, the bits still to play and
    the time of the next one.  The ticks of the service make exactly the calls
    of the reference, at the ticks the reference makes them, across the wrap
    of the 32-bit clock. *)
From S2P Require Import Prelude CLib EspRecord EspRegistry EspVm EspProgram EspSequence EspSequenceFacts.

Open Scope Z_scope.

Module EspSequencePlay.
Import EspRecord EspRegistry EspVm EspProgram EspSequence EspSequenceFacts.

(** ** The reference *)

(** A call of a native function: its number, arguments and text. *)
Definition call : Type := Z * list Z * bytes.

Record plan := Plan { next_time : Z; left : bytes }.

Definition call_of (t : Track) (bit : byte) : call :=
  (functionId_ (channel t), call_arguments (channel t) (if bit =? 49 then 1 else 0) (appendInput t), ascii_ (channel t)).

(** One track at time [now]; [score] is the track as it was configured. *)
Definition plan_step (again : bool) (now : Z) (score : Track) (p : plan) : plan * list call :=
  match left p with
  | [] => (p, [])
  | bit :: rest =>
      if now <? next_time p then (p, [])
      else (Plan (now + intervalMs score) (match rest with [] => if again then bits score else [] | _ => rest end),
            [call_of score bit])
  end.

Definition slots : list nat := seq 0 MAX_TRACKS.

Section reference.
Context (again : bool) (score : nat -> Track).

Definition step_plans (now : Z) (ps : nat -> plan) : nat -> plan := fun k => (plan_step again now (score k) (ps k)).1.
Definition step_calls (now : Z) (ps : nat -> plan) (l : list nat) : list call :=
  l ≫= fun k => (plan_step again now (score k) (ps k)).2.

Definition is_nil {A} (l : list A) : bool := match l with [] => true | _ => false end.

(** The event of a tick: the end of the last pattern. *)
Definition step_event (now : Z) (ps : nat -> plan) : option bytes :=
  if negb (is_nil (step_calls now ps slots)) && forallb (fun k => is_nil (left (step_plans now ps k))) slots
  then Some complete_event else None.

(** The calls and events of a run of ticks. *)
Fixpoint play (ps : nat -> plan) (times : list Z) : list call * list (option bytes) :=
  match times with
  | [] => ([], [])
  | now :: times' =>
      let '(calls, events) := play (step_plans now ps) times' in
      (step_calls now ps slots ++ calls, step_event now ps :: events)
  end.
End reference.

(** ** The relation *)

(** The channel still calls the same function with the same arguments. *)
Definition same_call (c0 c : NoobProgramChannel) : Prop :=
  functionId_ c = functionId_ c0 /\ arguments_ c = arguments_ c0 /\ ascii_ c = ascii_ c0.

Definition same_score (t0 t : Track) : Prop :=
  same_call (channel t0) (channel t) /\ bits t = bits t0 /\ bitCount t = bitCount t0
  /\ intervalMs t = intervalMs t0 /\ appendInput t = appendInput t0.

Definition follows (t0 : Track) (p : plan) (t : Track) : Prop :=
  same_score t0 t /\ active t = negb (is_nil (left p))
  /\ (active t = true -> nextAt t = u32 (next_time p) /\ drop (Z.to_nat (position t)) (bits t) = left p).

(** The next time is recent enough for the 32-bit comparison. *)
Definition timely (now : Z) (p : plan) : Prop := left p = [] \/ - 2 ^ 31 <= now - next_time p < 2 ^ 31.

Lemma i32_diff a b : - 2 ^ 31 <= a - b < 2 ^ 31 -> i32 (u32 (u32 a - u32 b)) = a - b.
Proof.
  intros Hab. rewrite <- (i32_id (a - b)) by (unfold int32, INT_MIN, INT_MAX; lia). unfold i32, to_signed, u32. f_equal.
  rewrite Zplus_mod_idemp_l, <- Z.add_sub_swap, Zminus_mod_idemp_r.
  rewrite <- Zminus_mod_idemp_l, Zplus_mod_idemp_l, Zminus_mod_idemp_l. f_equal. lia.
Qed.

Lemma due_plan now t0 p t :
  follows t0 p t -> timely now p ->
  due (u32 now) t = negb (is_nil (left p)) && (next_time p <=? now).
Proof.
  intros (_ & Ea & Hf) Ht. unfold due. rewrite Ea in *. destruct (left p) as [|bit rest] eqn:El; [done|].
  cbn [is_nil negb andb] in *. destruct (Hf eq_refl) as [-> _]. destruct Ht as [Ht|Ht]; [congruence|].
  rewrite i32_diff by done. destruct (Z.ltb_spec (now - next_time p) 0), (Z.leb_spec (next_time p) now); cbn; lia || done.
Qed.

(** The bit the track plays next. *)
Lemma next_bit t0 p t bit rest :
  follows t0 p t -> left p = bit :: rest -> nth (Z.to_nat (position t)) (bits t) NUL = bit.
Proof.
  intros (_ & Ea & Hf) El. rewrite El in *. cbn in Ea. destruct (Hf Ea) as [_ Hd].
  rewrite <- (Nat.add_0_r (Z.to_nat (position t))), <- nth_skipn. change skipn with (@drop byte). by rewrite Hd.
Qed.

(** [advance] follows the plan's step. *)
Lemma advance_follows again now t0 p q slot bit rest :
  seq_wf q -> (slot < MAX_TRACKS)%nat -> repeating q = again -> bits t0 <> [] ->
  follows t0 p (track slot q) -> left p = bit :: rest ->
  follows t0 (Plan (now + intervalMs t0) (match rest with [] => if again then bits t0 else [] | _ => rest end))
    (track slot (advance slot (u32 now) q)).
Proof.
  intros Hq Hs Hrep Hb Hf El. pose proof Hf as ((Hc & E1 & E2 & E3 & E4) & Ea & Hd). rewrite El in Ea. cbn in Ea.
  destruct (Hd Ea) as [_ Hdrop]. pose proof (track_of_wf slot q Hq) as (_ & W2 & W3).
  destruct (W2 Ea) as [Hcf Hp]. destruct (W3 Hcf) as (Hbc & Hlen & _). pose proof Hq as (Hn & _).
  unfold advance. set (t := track slot q) in *. cbn [position set_position bitCount].
  rewrite Z.mod_small by (unfold MAX_BITS in Hbc; lia).
  rewrite El in Hdrop. pose proof (f_equal length Hdrop) as Hl. rewrite length_drop in Hl. cbn [length] in Hl.
  assert (Hrest : drop (Z.to_nat (position t + 1)) (bits t) = rest).
  { replace (Z.to_nat (position t + 1)) with (Z.to_nat (position t) + 1)%nat by lia. by rewrite <- drop_drop, Hdrop. }
  assert (Hget : forall busy t', track slot (set_channelBusy busy (set_track slot t' q)) = t').
  { intros busy t'. unfold track. cbn. apply nth_lookup_Some, list_lookup_insert_eq. by rewrite Hn. }
  destruct (Z.ltb_spec (position t + 1) (bitCount t)) as [Hlt|Hge]; [|destruct (repeating q) eqn:Er].
  - rewrite Hget. destruct rest as [|b' rest']; [cbn in Hl; lia|]. unfold follows, same_score. cbn. rewrite E3, Ea.
    split_and!; try done. unfold u32. by rewrite Zplus_mod_idemp_l.
  - rewrite Hget. subst again. destruct rest as [|b' rest']; [|cbn in Hl; lia]. unfold follows, same_score. cbn.
    rewrite E3, Ea, E1. destruct (bits t0) eqn:Eb; [done|]. split_and!; try done. unfold u32. by rewrite Zplus_mod_idemp_l.
  - rewrite Hget. subst again. destruct rest as [|b' rest']; [|cbn in Hl; lia]. unfold follows, same_score. cbn. done.
Qed.

Lemma track_set_eq slot t q : length (tracks q) = MAX_TRACKS -> (slot < MAX_TRACKS)%nat -> track slot (set_track slot t q) = t.
Proof. intros Hn Hs. unfold track. apply nth_lookup_Some, list_lookup_insert_eq. by rewrite Hn. Qed.

Lemma track_set_ne slot k t q : k <> slot -> track k (set_track slot t q) = track k q.
Proof.
  intros Hk. unfold track, set_track. cbn. rewrite !nth_lookup. by rewrite list_lookup_insert_ne by done.
Qed.

Lemma track_advance_ne slot k now q : k <> slot -> track k (advance slot now q) = track k q.
Proof.
  intros Hk. unfold advance. repeat case_match; simplify_eq; by apply (track_set_ne slot k _ q).
Qed.

Lemma repeating_advance slot now q : repeating (advance slot now q) = repeating q.
Proof. unfold advance. by repeat case_match; simplify_eq. Qed.

Lemma running_advance slot now q : running (advance slot now q) = running q.
Proof. unfold advance. by repeat case_match; simplify_eq. Qed.

(** ** A device whose native functions are observed *)

(** Every call is logged, succeeds and leaves the service alone; the clock can
    be set. *)
Class Observed (S : Type) `{HasSequence S} (natives : NativeRegistry (S := S)) := {
  log : S -> list call;
  at_time : Z -> S -> S;
  log_put q s : log (put_seq q s) = log s;
  log_millis s : log (millis s).2 = log s;
  at_time_millis t s : (millis (at_time t s)).1 = u32 t;
  at_time_seq t s : seq_of (at_time t s) = seq_of s;
  at_time_log t s : log (at_time t s) = log s;
  native_logs e args ascii s :
    e ∈ natives ->
    ok (fn_callMixed (implementation e) args ascii s).1 = true
    /\ seq_of (fn_callMixed (implementation e) args ascii s).2 = seq_of s
    /\ log (fn_callMixed (implementation e) args ascii s).2 = log s ++ [(id e, args, ascii)] }.

Section device.
Context {S : Type} `{HasSequence S} (natives : NativeRegistry (S := S)) `{!Observed S natives}.

Lemma find_id_id (r : NativeRegistry (S := S)) i e : find_id r i = Some e -> id e = i.
Proof.
  induction r as [|x r IH]; [done|]. cbn. destruct (Z.eqb_spec (id x) i); [by intros [= <-]|exact IH].
Qed.

Lemma callMixed_logs e args ascii s :
  e ∈ natives -> (length ascii <= MAX_ASCII_BYTES)%nat -> forallb printable_ascii ascii = true ->
  ok (callMixed e args ascii s).1 = true /\ seq_of (callMixed e args ascii s).2 = seq_of s
  /\ log (callMixed e args ascii s).2 = log s ++ [(id e, args, ascii)].
Proof.
  intros He Hl Hp. unfold callMixed. rewrite (proj2 (Nat.ltb_ge _ _) Hl), Hp. by apply native_logs.
Qed.

(** One call of a track. *)
Lemma invoke_plays slot input append s :
  seq_inv s -> (slot < MAX_TRACKS)%nat -> is_Some (find_id natives (functionId_ (channel_at slot s))) ->
  let c := channel_at slot s in
  let s' := (invoke natives (channel_at slot) (put_channel_at slot) input append s).2 in
  exists c', same_call c c' /\ lastOk_ c' = true
    /\ seq_of s' = set_track slot (set_channel c' (track slot (seq_of s))) (seq_of s)
    /\ log s' = log s ++ [(functionId_ c, call_arguments c input append, ascii_ c)].
Proof.
  intros Hs Hslot [e He] c s'. pose proof Hs as (Hn & _). unfold seq_inv in Hs.
  destruct (track_of_wf slot _ Hs) as ((_ & Hl & Hp & _) & _).
  assert (E1 : channel_at slot (put_channel_at slot (set_busy true c) s) = set_busy true c).
  { unfold channel_at, put_channel_at. by rewrite seq_of_put, track_set_eq. }
  subst s'. unfold invoke, upd_channel. rewrite st_bind_run. cbn [modify fst snd]. rewrite st_bind_run. cbn [gets fst snd].
  fold c. rewrite E1. cbn [functionId_ set_busy]. fold c in He. rewrite He. rewrite st_bind_run.
  pose proof (find_id_id _ _ _ He) as Hid. apply find_id_elem in He.
  set (s1 := put_channel_at slot (set_busy true c) s). cbn [modify fst snd].
  destruct (callMixed_logs e (call_arguments c input append) (ascii_ c) s1 He Hl Hp) as (Hok & Hseq & Hlog).
  change (call_arguments (set_busy true c) input append) with (call_arguments c input append).
  change (ascii_ (set_busy true c)) with (ascii_ c).
  destruct (callMixed e (call_arguments c input append) (ascii_ c) s1) as [r s2]. cbn [fst snd] in *.
  assert (Es1 : seq_of s1 = set_track slot (set_channel (set_busy true c) (track slot (seq_of s))) (seq_of s))
    by (unfold s1, put_channel_at; by rewrite seq_of_put).
  exists (settle r (set_busy true c)). unfold put_channel_at, channel_at. rewrite seq_of_put, log_put, Hseq, Es1.
  rewrite track_set_eq by done. split_and!.
  - done.
  - by cbn.
  - unfold set_track, set_tracks. cbn. by rewrite list_insert_insert_eq.
  - rewrite Hlog. unfold s1, put_channel_at. by rewrite log_put, Hid.
Qed.

Lemma observed_keep : natives_keep natives.
Proof. intros e args ascii He s Hs. unfold seq_inv. by destruct (native_logs e args ascii s He) as (_ & -> & _). Qed.

Context (again : bool) (score : nat -> Track).

(** The service follows the plans; the functions of the plans exist. *)
Definition in_step (ps : nat -> plan) (s : S) : Prop :=
  seq_inv s /\ repeating (seq_of s) = again
  /\ (forall k, (k < MAX_TRACKS)%nat -> follows (score k) (ps k) (track k (seq_of s)))
  /\ (forall k, (k < MAX_TRACKS)%nat -> left (ps k) <> [] -> is_Some (find_id natives (functionId_ (channel (score k))))).

(** The plans once the slots of [l] have been served. *)
Definition served (now : Z) (l : list nat) (ps : nat -> plan) : nat -> plan :=
  fun k => if decide (k ∈ l) then step_plans again score now ps k else ps k.

Definition serve1 (now : Z) (slot : nat) (ps : nat -> plan) : nat -> plan := served now [slot] ps.

Lemma served_cons now slot l ps k : slot ∉ l -> served now (slot :: l) ps k = served now l (serve1 now slot ps) k.
Proof.
  intros Hn. unfold serve1, served, step_plans. destruct (decide (k ∈ slot :: l)) as [Hk|Hk], (decide (k ∈ l)) as [Hk'|Hk'].
  - destruct (decide (k ∈ [slot])) as [Hs%list_elem_of_singleton|]; [by subst|done].
  - apply elem_of_cons in Hk as [->|Hk]; [|done]. by rewrite decide_True by (by left).
  - exfalso. apply Hk. by right.
  - rewrite decide_False; [done|]. intros ->%list_elem_of_singleton. apply Hk. by left.
Qed.

Lemma step_calls_cons now slot l ps :
  step_calls again score now ps (slot :: l) = (plan_step again now (score slot) (ps slot)).2 ++ step_calls again score now ps l.
Proof. done. Qed.

Lemma step_calls_ext now ps ps' l : (forall k, k ∈ l -> ps k = ps' k) -> step_calls again score now ps l = step_calls again score now ps' l.
Proof.
  intros E. induction l as [|k l IH]; [done|]. rewrite !step_calls_cons, E by (by left). f_equal. apply IH.
  intros j Hj. apply E. by right.
Qed.

Lemma left_step now t0 p : left p = [] -> left (plan_step again now t0 p).1 = [].
Proof. intros E. unfold plan_step. by rewrite E. Qed.

(** A track whose time has not come. *)
Lemma idle_step now slot ps s :
  in_step ps s -> (slot < MAX_TRACKS)%nat -> timely now (ps slot) ->
  due (u32 now) (track slot (seq_of s)) = false -> plan_step again now (score slot) (ps slot) = (ps slot, []).
Proof.
  intros (_ & _ & Hf & _) Hs Ht Hd. rewrite (due_plan now _ _ _ (Hf slot Hs) Ht) in Hd. unfold plan_step.
  destruct (left (ps slot)); [done|]. cbn in Hd. apply Z.leb_gt in Hd. by rewrite (proj2 (Z.ltb_lt _ _) Hd).
Qed.

(** A track whose time has come makes its call. *)
Lemma due_step now slot ps s :
  in_step ps s -> (slot < MAX_TRACKS)%nat -> timely now (ps slot) -> due (u32 now) (track slot (seq_of s)) = true ->
  let t := track slot (seq_of s) in
  let s1 := (invoke natives (channel_at slot) (put_channel_at slot)
               (if nth (Z.to_nat (position t)) (bits t) NUL =? 49 then 1 else 0) (appendInput t) s).2 in
  let s2 := (upd_seq (advance slot (u32 now)) s1).2 in
  lastOk_ (channel_at slot s1) = true /\ in_step (serve1 now slot ps) s2
  /\ running (seq_of s2) = running (seq_of s)
  /\ log s2 = log s ++ (plan_step again now (score slot) (ps slot)).2
  /\ (plan_step again now (score slot) (ps slot)).2 <> [].
Proof.
  intros Hin Hs Ht Hd t. pose proof Hin as (Hinv & Hrep & Hf & Hreg). pose proof (Hf slot Hs) as Hft.
  rewrite (due_plan now _ _ _ Hft Ht) in Hd. fold t in Hft. apply andb_true_iff in Hd as [Hd1 Hd2%Z.leb_le].
  destruct (left (ps slot)) as [|bit rest] eqn:El; [done|]. clear Hd1.
  assert (Estep : plan_step again now (score slot) (ps slot)
    = (Plan (now + intervalMs (score slot)) (match rest with [] => if again then bits (score slot) else [] | _ => rest end),
       [call_of (score slot) bit])).
  { unfold plan_step. rewrite El. by rewrite (proj2 (Z.ltb_ge _ _) Hd2). }
  assert (Hbits : bits (score slot) <> []).
  { pose proof Hft as ((_ & Eb & _) & Ea & _). rewrite <- Eb. destruct (track_of_wf slot _ Hinv) as (_ & W2 & W3).
    rewrite El in Ea. destruct (W2 Ea) as [Hc _]. destruct (W3 Hc) as (Hbc & Hl & _). fold t in Hbc, Hl.
    destruct (bits t); [cbn in Hl; lia|done]. }
  rewrite (next_bit _ _ _ _ _ Hft El). intros s1 s2. pose proof Hft as (((Hfid & Harg & Hasc) & _ & _ & _ & Happ) & _ & _).
  destruct (invoke_plays slot (if bit =? 49 then 1 else 0) (appendInput t) s Hinv Hs) as (c' & Hc1 & Hc2 & Hc3 & Hc4).
  { unfold channel_at. fold t. rewrite Hfid. apply Hreg; [done|]. by rewrite El. }
  assert (Hs1 : seq_inv s1) by (apply invoke_keeps; [exact observed_keep|done]).
  change (seq_of s1 = set_track slot (set_channel c' t) (seq_of s)) in Hc3. fold s1 in Hc4. pose proof Hinv as (Hn & _).
  assert (Et1 : track slot (seq_of s1) = set_channel c' t) by (by rewrite Hc3, track_set_eq).
  assert (Hf1 : follows (score slot) (ps slot) (track slot (seq_of s1))).
  { rewrite Et1. destruct Hft as ((_ & Hsame) & Hact). unfold channel_at in Hc1. fold t in Hc1. destruct Hc1 as (K1 & K2 & K3).
    split; [|exact Hact]. split; [|exact Hsame]. unfold same_call. cbn. by rewrite K1, K2, K3. }
  split_and!.
  - unfold channel_at. by rewrite Et1.
  - subst s2. unfold upd_seq, modify. cbn [snd]. split_and!.
    + unfold seq_inv. rewrite seq_of_put. by apply advance_wf.
    + rewrite seq_of_put, repeating_advance. by rewrite Hc3.
    + intros k Hk. rewrite seq_of_put. unfold serve1, served, step_plans.
      destruct (decide (k ∈ [slot])) as [->%list_elem_of_singleton|Hne].
      * rewrite Estep. cbn [fst]. eapply advance_follows; try done. by rewrite Hc3.
      * assert (Hks : k <> slot) by (intros ->; apply Hne; by left).
        rewrite track_advance_ne, Hc3, track_set_ne by done. by apply Hf.
    + intros k Hk Hleft. apply Hreg; [done|]. intros E. apply Hleft. unfold serve1, served, step_plans.
      destruct (decide _); [by apply left_step|done].
  - subst s2. unfold upd_seq, modify. cbn [snd]. rewrite seq_of_put, running_advance. by rewrite Hc3.
  - subst s2. unfold upd_seq, modify. cbn [snd]. rewrite log_put, Hc4, Estep. cbn [snd]. unfold call_of, call_arguments, channel_at.
    fold t. by rewrite Hfid, Harg, Hasc, Happ.
  - by rewrite Estep.
Qed.

(** The pass over the slots. *)
Lemma tick_slots_plays now l inv ps s :
  NoDup l -> Forall (fun k => k < MAX_TRACKS)%nat l -> Forall (fun k => timely now (ps k)) l -> in_step ps s ->
  exists s', tick_slots natives (u32 now) l inv s = (inr (inv || negb (is_nil (step_calls again score now ps l))), s')
    /\ in_step (served now l ps) s' /\ running (seq_of s') = running (seq_of s)
    /\ log s' = log s ++ step_calls again score now ps l.
Proof.
  revert inv ps s. induction l as [|slot l IH]; intros inv ps s Hnd Hl Ht Hin; cbn [tick_slots].
  { exists s. split_and!; try done; [by rewrite orb_false_r|by rewrite app_nil_r]. }
  apply NoDup_cons in Hnd as [Hnotin Hnd]. inversion Hl as [|? ? Hslot Hl']; subst. inversion Ht as [|? ? Hts Ht']; subst.
  rewrite st_bind_run. cbn [get_seq gets fst snd].
  assert (Hcalls : step_calls again score now (serve1 now slot ps) l = step_calls again score now ps l).
  { apply step_calls_ext. intros k Hk. unfold serve1, served. rewrite decide_False; [done|].
    by intros ->%list_elem_of_singleton. }
  assert (Ht1 : Forall (fun k => timely now (serve1 now slot ps k)) l).
  { apply Forall_forall. intros k Hk. unfold serve1, served. rewrite decide_False; [by eapply Forall_forall in Ht'|].
    by intros ->%list_elem_of_singleton. }
  destruct (due (u32 now) (track slot (seq_of s))) eqn:Hd; cbn [negb].
  - destruct (due_step now slot ps s Hin Hslot Hts Hd) as (Hok & Hin1 & Hrun & Hlog & Hcall).
    destruct (IH true (serve1 now slot ps) _ Hnd Hl' Ht1 Hin1) as (s' & E & Hin' & Hrun' & Hlog').
    exists s'. rewrite st_bind_run, st_bind_run. cbn [gets fst snd]. rewrite Hok. cbn [negb]. rewrite st_bind_run, E.
    rewrite step_calls_cons. destruct (plan_step again now (score slot) (ps slot)).2 as [|c cs] eqn:Ec; [done|].
    split_and!.
    + by rewrite orb_true_r.
    + destruct Hin' as (K1 & K2 & K3 & K4). split_and!; try done; intros k Hk; rewrite served_cons by done; auto.
    + by rewrite Hrun', Hrun.
    + by rewrite Hlog', Hlog, Hcalls, <- app_assoc.
  - pose proof (idle_step now slot ps s Hin Hslot Hts Hd) as Estep.
    assert (Eps : forall k, serve1 now slot ps k = ps k).
    { intros k. unfold serve1, served, step_plans. destruct (decide _) as [->%list_elem_of_singleton|]; [|done]. by rewrite Estep. }
    assert (Hin1 : in_step (serve1 now slot ps) s).
    { destruct Hin as (K1 & K2 & K3 & K4). split_and!; try done; intros k Hk; rewrite Eps; auto. }
    destruct (IH inv (serve1 now slot ps) s Hnd Hl' Ht1 Hin1) as (s' & E & Hin' & Hrun' & Hlog').
    exists s'. rewrite E, step_calls_cons, Estep, Hcalls. cbn [snd app]. split_and!; try done.
    + destruct Hin' as (K1 & K2 & K3 & K4). split_and!; try done; intros k Hk; rewrite served_cons by done; auto.
    + by rewrite Hlog', Hcalls.
Qed.

(** ** A tick, and a run of ticks *)

Lemma tracks_slots q : length (tracks q) = MAX_TRACKS -> tracks q = map (fun k => track k q) slots.
Proof. unfold track, slots. by destruct (tracks q) as [|t1 [|t2 [|t3 [|t4 [|]]]]]. Qed.

Lemma activeCount_0 q : length (tracks q) = MAX_TRACKS -> (activeCount q =? 0) = forallb (fun k => negb (active (track k q))) slots.
Proof.
  intros Hn. unfold activeCount, count_tracks. rewrite (tracks_slots q Hn) at 1.
  induction slots as [|k l IH]; [done|]. cbn [map List.filter forallb]. destruct (active (track k q)); [done|]. exact IH.
Qed.

Lemma slots_elem k : k ∈ slots <-> (k < MAX_TRACKS)%nat.
Proof. unfold slots. rewrite list_elem_of_In, in_seq. lia. Qed.

Lemma idle_plans ps s :
  in_step ps s -> (activeCount (seq_of s) =? 0) = forallb (fun k => is_nil (left (ps k))) slots.
Proof.
  intros (Hinv & _ & Hf & _). destruct Hinv as (Hn & _). rewrite activeCount_0 by done.
  assert (Hall : Forall (fun k => k < MAX_TRACKS)%nat slots) by (apply Forall_forall; intros k; apply slots_elem).
  induction Hall as [|k l Hk _ IH]; [done|]. cbn. rewrite IH. f_equal.
  destruct (Hf k Hk) as (_ & -> & _). by rewrite negb_involutive.
Qed.

Lemma in_step_ext ps ps' s : (forall k, (k < MAX_TRACKS)%nat -> ps k = ps' k) -> in_step ps s -> in_step ps' s.
Proof. intros E (K1 & K2 & K3 & K4). split_and!; try done; intros k Hk; rewrite <- E by done; auto. Qed.

(** A stopped service has nothing left to play. *)
Lemma stopped_plans ps s k :
  in_step ps s -> running (seq_of s) = false -> (k < MAX_TRACKS)%nat -> left (ps k) = [].
Proof.
  intros (Hinv & _ & Hf & _) Hr Hk. destruct (Hf k Hk) as (_ & Ea & _).
  rewrite (inactive_track k _ Hinv Hr) in Ea. by destruct (left (ps k)).
Qed.

Lemma step_calls_nil now ps l : Forall (fun k => left (ps k) = []) l -> step_calls again score now ps l = [].
Proof. induction 1 as [|k l E _ IH]; [done|]. rewrite step_calls_cons, IH. unfold plan_step. by rewrite E. Qed.

Lemma in_step_upd ps s f :
  in_step ps s -> seq_wf (f (seq_of s)) -> repeating (f (seq_of s)) = repeating (seq_of s) ->
  tracks (f (seq_of s)) = tracks (seq_of s) -> in_step ps (upd_seq f s).2.
Proof.
  intros (K1 & K2 & K3 & K4) Hw Hr Ht. unfold upd_seq, modify. cbn [snd]. unfold in_step, seq_inv. rewrite seq_of_put.
  split_and!; try done; [by rewrite Hr|]. intros k Hk. unfold track. rewrite Ht. by apply K3.
Qed.

Lemma tick_plays now ps s :
  in_step ps s -> (forall k, (k < MAX_TRACKS)%nat -> timely now (ps k)) -> (millis s).1 = u32 now ->
  (sequence_tick natives s).1 = step_event again score now ps
  /\ in_step (step_plans again score now ps) (sequence_tick natives s).2
  /\ log (sequence_tick natives s).2 = log s ++ step_calls again score now ps slots.
Proof.
  intros Hin Ht Hnow. unfold sequence_tick. rewrite st_bind_run. cbn [get_seq gets fst snd].
  destruct (running (seq_of s)) eqn:Hr; cbn [negb].
  - rewrite st_bind_run, Hnow. assert (Hin0 : in_step ps (millis s).2).
    { destruct Hin as (K1 & K2 & K3 & K4). unfold in_step, seq_inv. by rewrite millis_seq. }
    destruct (tick_slots_plays now slots false ps (millis s).2) as (s' & E & Hin' & Hrun & Hlog); [| | |done|].
    { apply NoDup_seq. }
    { apply Forall_forall. intros k. apply slots_elem. }
    { apply Forall_forall. intros k Hk%slots_elem. by apply Ht. }
    rewrite log_millis in Hlog. cbn [orb] in E.
    assert (Hin1 : in_step (step_plans again score now ps) s').
    { eapply in_step_ext; [|exact Hin']. intros k Hk. unfold served. by rewrite decide_True by by apply slots_elem. }
    change (seq 0 MAX_TRACKS) with slots. rewrite st_bind_run, E. cbn [fst snd]. rewrite st_bind_run.
    cbn [get_seq gets fst snd]. rewrite (idle_plans _ _ Hin1). unfold step_event.
    destruct (_ && _) eqn:Ee; [|done]. rewrite st_bind_run. cbn [fst snd]. split_and!; [done| |].
    + apply andb_true_iff in Ee as [_ Ee]. apply in_step_upd; try done. apply idle_wf; [by destruct Hin1|].
      by rewrite (idle_plans _ _ Hin1).
    + unfold upd_seq, modify. cbn [mret st_ret fst snd]. by rewrite log_put.
  - assert (Hleft : Forall (fun k => left (ps k) = []) slots).
    { apply Forall_forall. intros k Hk%slots_elem. by eapply stopped_plans. }
    unfold step_event. rewrite step_calls_nil by done. split_and!; [done| |by rewrite app_nil_r].
    eapply in_step_ext; [|exact Hin]. intros k Hk%slots_elem. eapply Forall_forall in Hleft; [|exact Hk].
    unfold step_plans, plan_step. by rewrite Hleft.
Qed.

(** Ticks at the given times. *)
Fixpoint run_ticks (times : list Z) (s : S) : list (option bytes) * S :=
  match times with
  | [] => ([], s)
  | now :: times' =>
      let '(event, s1) := sequence_tick natives (at_time now s) in
      let '(events, s2) := run_ticks times' s1 in (event :: events, s2)
  end.

End device.

(** The times do not go back and are less than 2^31 ms apart. *)
Fixpoint paced (from : Z) (times : list Z) : Prop :=
  match times with [] => True | now :: times' => from <= now < from + 2 ^ 31 /\ paced now times' end.

#[global] Instance paced_dec from times : Decision (paced from times).
Proof. revert from. induction times as [|now times IH]; intros from; cbn; apply _. Defined.

(** What the next time of a plan may be, right after a tick at [now]. *)
Definition near (now : Z) (p : plan) : Prop := left p = [] \/ now <= next_time p <= now + MAX_INTERVAL_MS.

Lemma near_timely from now p : near from p -> from <= now < from + 2 ^ 31 -> timely now p.
Proof. intros [E|E] Hn; [by left|right]. unfold MAX_INTERVAL_MS in E. lia. Qed.

Lemma near_step again from now t0 p :
  near from p -> from <= now -> (left p <> [] -> 1 <= intervalMs t0 <= MAX_INTERVAL_MS) ->
  near now (plan_step again now t0 p).1.
Proof.
  intros Hp Hn Hi. unfold plan_step. destruct (left p) as [|bit rest] eqn:El; [by left|].
  destruct (Z.ltb_spec now (next_time p)).
  - right. destruct Hp as [Hp|Hp]; [congruence|]. cbn. lia.
  - right. cbn. specialize (Hi ltac:(done)). lia.
Qed.

Section run.
Context {S : Type} `{HasSequence S} (natives : NativeRegistry (S := S)) `{!Observed S natives}.

Lemma run_plays again score times ps s from :
  in_step natives again score ps s -> (forall k, (k < MAX_TRACKS)%nat -> near from (ps k)) -> paced from times ->
  (run_ticks natives times s).1 = (play again score ps times).2
  /\ log (run_ticks natives times s).2 = log s ++ (play again score ps times).1.
Proof.
  revert ps s from. induction times as [|now times IH]; intros ps s from Hin Hnear Hp.
  { cbn. by rewrite app_nil_r. }
  destruct Hp as [Hnow Hp]. assert (Hin0 : in_step natives again score ps (at_time now s)).
  { destruct Hin as (K1 & K2 & K3 & K4). unfold in_step, seq_inv. by rewrite at_time_seq. }
  assert (Ht : forall k, (k < MAX_TRACKS)%nat -> timely now (ps k)) by (intros k Hk; by eapply near_timely; [apply Hnear|]).
  destruct (tick_plays natives again score now ps _ Hin0 Ht (at_time_millis now s)) as (E1 & Hin1 & E2).
  rewrite at_time_log in E2. cbn [run_ticks play].
  destruct (sequence_tick natives (at_time now s)) as [event s1]. cbn [fst snd] in *.
  destruct (IH (step_plans again score now ps) s1 now Hin1) as [E3 E4]; [|done|].
  - intros k Hk. apply (near_step again from); [by apply Hnear|lia|]. intros Hl.
    destruct Hin as (Hinv & _ & Hf & _). destruct (Hf k Hk) as ((_ & _ & _ & Ei & _) & Ea & _). rewrite <- Ei.
    destruct (track_of_wf k _ Hinv) as (_ & W2 & W3). destruct (left (ps k)); [done|]. by apply W3, W2.
  - destruct (run_ticks natives times s1) as [events s2], (play again score (step_plans again score now ps) times) as [calls events'].
    cbn [fst snd] in *. by rewrite E1, E3, E4, E2, <- app_assoc.
Qed.

(** The plans right after [start]. *)
Definition initial_plan (t0 : Z) (t : Track) : plan := Plan t0 (if configured t then bits t else []).

Lemma track_map f k q : f empty_track = empty_track \/ (k < length (tracks q))%nat -> nth k (map f (tracks q)) empty_track = f (nth k (tracks q) empty_track).
Proof.
  intros [E|Hk].
  - rewrite <- E at 1. apply map_nth.
  - rewrite (nth_indep _ empty_track (f empty_track)) by (by rewrite length_map). apply map_nth.
Qed.

(** The state [start] leaves behind. *)
Definition started (now flag : Z) (q : sequence) : sequence :=
  set_running true (set_channelBusy (map active (map (start_tracks now) (tracks q)))
    (set_tracks (map (start_tracks now) (tracks q)) (set_repeating (negb (flag =? 0)) q))).

Lemma start_run flag (s : S) :
  running (seq_of s) = false -> flag = 0 \/ flag = 1 -> configuredCount (seq_of s) <> 0 ->
  ok (start [flag] s).1 = true /\ seq_of (start [flag] s).2 = started (millis s).1 flag (seq_of s)
  /\ log (start [flag] s).2 = log s.
Proof.
  intros Hr Hflag Hc. unfold start. cbn [length nth Nat.ltb Nat.leb Nat.eqb orb andb].
  replace (negb ((flag =? 0) || (flag =? 1))) with false by (by destruct Hflag as [-> | ->]).
  rewrite st_bind_run. cbn [get_seq gets fst snd]. rewrite Hr. rewrite st_bind_run. cbn [get_seq gets fst snd].
  rewrite (proj2 (Z.eqb_neq _ _) Hc). unfold upd_seq, get_seq. run_st.
  rewrite !seq_of_put, millis_put_seq, millis_seq, seq_of_put, !log_put, log_millis, log_put. done.
Qed.

Lemma started_in_step flag t0 (s : S) :
  seq_inv s ->
  (forall k, (k < MAX_TRACKS)%nat -> configured (track k (seq_of s)) = true ->
     is_Some (find_id natives (functionId_ (channel (track k (seq_of s)))))) ->
  let score := fun k => track k (seq_of s) in
  forall s', seq_of s' = started (u32 t0) flag (seq_of s) ->
  in_step natives (negb (flag =? 0)) score (fun k => initial_plan t0 (score k)) s'.
Proof.
  intros Hs Hreg score s' E. pose proof Hs as (Hn & _). split_and!.
  - unfold seq_inv. rewrite E. apply (started_wf (u32 t0) (set_repeating (negb (flag =? 0)) (seq_of s)) Hs).
  - by rewrite E.
  - intros k Hk. rewrite E. unfold track. cbn. rewrite track_map by (right; by rewrite Hn). fold (track k (seq_of s)). fold (score k).
    unfold follows, same_score, same_call, initial_plan. cbn. split_and!; try done.
    + destruct (configured (score k)) eqn:Ec; [|done].
      destruct (track_of_wf k _ Hs) as (_ & _ & W3). destruct (W3 Ec) as (Hb & Hl & _). fold (score k) in Hb, Hl.
      destruct (bits (score k)); [cbn in Hl; lia|done].
    + intros Ec. by rewrite Ec.
  - intros k Hk Hl. apply Hreg; [done|]. unfold initial_plan in Hl. cbn in Hl. unfold score in Hl. by destruct (configured _).
Qed.

(** C4: After [start] with the repeat flag [flag] at time [t0], ticks at any times
    that do not go back (and are less than 2^31 ms apart) make exactly the calls
    of the reference scheduler, tick by tick and slot by slot: each configured
    track sends its bits in order, one per due tick, with its fixed arguments,
    its text and, if it asks for it, the bit, again from the start when
    repeating; and a tick reports SEQUENCE_COMPLETE exactly when it made the
    last call of the last track.  The 32-bit clock may wrap on the way. *)
Theorem sequence_plays flag t0 times (s : S) :
  seq_inv s -> running (seq_of s) = false -> flag = 0 \/ flag = 1 -> configuredCount (seq_of s) <> 0 ->
  (forall k, (k < MAX_TRACKS)%nat -> configured (track k (seq_of s)) = true ->
     is_Some (find_id natives (functionId_ (channel (track k (seq_of s)))))) ->
  paced t0 times ->
  let score := fun k => track k (seq_of s) in
  let played := play (negb (flag =? 0)) score (fun k => initial_plan t0 (score k)) times in
  let begun := start [flag] (at_time t0 s) in
  ok begun.1 = true /\ (run_ticks natives times begun.2).1 = played.2
  /\ log (run_ticks natives times begun.2).2 = log s ++ played.1.
Proof.
  intros Hs Hr Hflag Hc Hreg Hp score played begun.
  destruct (start_run flag (at_time t0 s)) as (E1 & E2 & E3); rewrite ?at_time_seq; try done.
  rewrite at_time_seq, at_time_millis in E2. rewrite at_time_log in E3. fold begun in E1, E2, E3.
  pose proof (started_in_step flag t0 s Hs Hreg begun.2 E2) as Hin. fold score in Hin.
  split; [done|]. rewrite <- E3. eapply run_plays; [exact Hin| |exact Hp].
  intros k _. right. cbn. unfold MAX_INTERVAL_MS. lia.
Qed.
End run.

(** ** A device for the examples *)

Record stage := Stage { stage_vm : NoobVm; stage_seq : sequence; stage_now : Z; stage_log : list call }.

#[global, refine] Instance stage_HasVm : HasVm stage :=
  {| vm_of := stage_vm; put_vm v s := Stage v (stage_seq s) (stage_now s) (stage_log s) |}.
Proof. all: by intros; try destruct s. Defined.

#[global, refine] Instance stage_HasClock : HasClock stage := {| millis := gets (fun s => u32 (stage_now s)) |}.
Proof.
  - intros s. by apply Z.mod_pos_bound.
  - by intros.
  - by intros.
Defined.

#[global, refine] Instance stage_HasSequence : HasSequence stage :=
  {| seq_of := stage_seq; put_seq q s := Stage (stage_vm s) q (stage_now s) (stage_log s) |}.
Proof. all: by intros. Defined.

Definition logging (i : Z) : NoobFunction stage :=
  MixedFunctionAdapter (fun args ascii s =>
    (result true 0 [], Stage (stage_vm s) (stage_seq s) (stage_now s) (stage_log s ++ [(i, args, ascii)]))).

Definition stage_natives : NativeRegistry (S := stage) :=
  [Entry 30 (str "LAMP") (logging 30); Entry 31 (str "BELL") (logging 31)].

#[global, refine] Instance stage_Observed : Observed stage stage_natives :=
  {| log := stage_log; at_time t s := Stage (stage_vm s) (stage_seq s) t (stage_log s) |}.
Proof.
  1-5: by intros.
  intros e args ascii s He. apply elem_of_cons in He as [->|He%list_elem_of_singleton]; [done|]. by subst.
Defined.

(** Two tracks: LAMP 101 every 10 ms, BELL 11 every 15 ms without its bit. *)
Definition two_tracks : sequence :=
  let configure_track args q := default q (setMixed stage_natives args (str "hi") q).2 in
  configure_track [1; 15; 31; 2; 3; 0; 7] (configure_track [0; 10; 30; 3; 5; 1] sequence_init).

Definition ready_stage : stage := Stage vm_init two_tracks 0 [].

(** The clock wraps between the second and the third tick. *)
Lemma sequence_plays_witness :
  let r := run_ticks stage_natives [4294967285; 4294967295; 4294967300; 4294967305]
             (start [0] (at_time (natives := stage_natives) 4294967285 ready_stage)).2 in
  log (natives := stage_natives) r.2 = [(30, [1], str "hi"); (31, [7], str "hi"); (30, [0], str "hi"); (31, [7], str "hi"); (30, [1], str "hi")]
  /\ r.1 = [None; None; None; Some complete_event].
Proof.
  destruct (sequence_plays stage_natives 0 4294967285 [4294967285; 4294967295; 4294967300; 4294967305] ready_stage)
    as (_ & E1 & E2).
  - apply (bool_decide_unpack _). vm_compute. exact I.
  - reflexivity.
  - by left.
  - vm_compute. done.
  - intros k Hk Hc. unfold MAX_TRACKS in Hk.
    destruct k as [|[|[|[|k]]]]; [eexists; reflexivity|eexists; reflexivity|discriminate Hc|discriminate Hc|lia].
  - apply (bool_decide_unpack _). vm_compute. exact I.
  - cbn zeta. split; [rewrite E2|rewrite E1]; vm_compute; reflexivity.
Defined.
(** ** Every operation keeps the invariant *)

Inductive seq_op :=
  | OpSet (arguments : bytes)
  | OpSetMixed (arguments : list Z) (ascii : bytes)
  | OpProgram (channels : list ChannelDefinition) (arguments : list Z)
  | OpStart (arguments : list Z) | OpStop (arguments : list Z) | OpStatus (arguments : list Z)
  | OpClear (arguments : list Z) | OpPop (arguments : list Z) | OpQueueSize (arguments : list Z)
  | OpClearQueue (arguments : list Z) | OpField (arguments : list Z) | OpBusy (arguments : list Z)
  | OpTick.

Definition seq_op_ok (o : seq_op) : Prop :=
  match o with OpProgram channels _ => Forall definition_ok channels | _ => True end.

#[global] Instance definition_ok_dec d : Decision (definition_ok d).
Proof. unfold definition_ok. destruct (def_bits d); apply _. Defined.

#[global] Instance seq_op_ok_dec o : Decision (seq_op_ok o).
Proof. destruct o; cbn; apply _. Defined.

Section invariant.
Context {S : Type} `{HasSequence S} (natives : NativeRegistry (S := S)).

(** The operation; its result or event does not matter here. *)
Definition seq_do (o : seq_op) : st S unit :=
  let quiet {A} (m : st S A) : st S unit := m ;; mret tt in
  match o with
  | OpSet text => quiet (perform (set natives text))
  | OpSetMixed args ascii => quiet (perform (setMixed natives args ascii))
  | OpProgram channels args => quiet (sequence_program_call natives channels args)
  | OpStart args => quiet (start args) | OpStop args => quiet (stop args) | OpStatus args => quiet (status args)
  | OpClear args => quiet (clear args) | OpPop args => quiet (pop args) | OpQueueSize args => quiet (queueSize args)
  | OpClearQueue args => quiet (clearQueue args) | OpField args => quiet (field args) | OpBusy args => quiet (busy args)
  | OpTick => quiet (sequence_tick natives)
  end.

Definition seq_run (ops : list seq_op) : st S unit := for_each seq_do ops.

Lemma seq_do_keeps o : natives_keep natives -> seq_op_ok o -> keeps seq_inv (seq_do o).
Proof.
  intros Hn Ho. destruct o; cbn [seq_do]; (apply keeps_bind; [|intros; apply keeps_ret]);
    auto using start_keeps, stop_keeps, status_keeps, clear_keeps, pop_keeps, queueSize_keeps, clearQueue_keeps,
      field_keeps, busy_keeps, sequence_tick_keeps, sequence_program_keeps, keeps_perform, set_sound, setMixed_sound.
Qed.

Lemma seq_run_keeps ops : natives_keep natives -> Forall seq_op_ok ops -> keeps seq_inv (seq_run ops).
Proof.
  intros Hn. induction 1 as [|o ops Ho _ IH]; cbn; [apply keeps_ret|]. apply keeps_bind; [by apply seq_do_keeps|]. by intros [].
Qed.

(** C11: From its initial state, no sequence of service calls (with any arguments)
    and ticks, whatever the called functions do as long as they keep it too,
    breaks the service's invariant: four tracks; a channel is reported busy
    exactly while its track is active; an active track is configured and its
    position is one of its 1..64 bits, so the pattern array is never read
    outside; a stopped service has no active track; and every channel holds at
    most seven arguments, so the appended bit fits the eight-entry array. *)
Theorem sequence_invariant ops (s : S) :
  natives_keep natives -> Forall seq_op_ok ops -> seq_of s = sequence_init ->
  let q := seq_of (seq_run ops s).2 in
  length (tracks q) = MAX_TRACKS /\ channelBusy q = map active (tracks q)
  /\ (running q = false -> Forall (fun t => active t = false) (tracks q))
  /\ Forall (fun t => active t = true ->
       configured t = true /\ 0 <= position t < bitCount t /\ Z.of_nat (length (bits t)) = bitCount t
       /\ 1 <= bitCount t <= 64 /\ 1 <= intervalMs t <= 60000
       /\ (length (arguments_ (channel t)) <= 7)%nat) (tracks q).
Proof.
  intros Hn Hops Hs q. assert (Hq : seq_wf q).
  { apply (seq_run_keeps ops Hn Hops). unfold seq_inv. rewrite Hs. apply sequence_init_wf. }
  destruct Hq as (W1 & W2 & W3 & W4 & _). split_and!; try done. eapply Forall_impl; [exact W3|].
  intros t ((Ha & _) & Hact & Hconf) E. destruct (Hact E) as [Hc Hp]. destruct (Hconf Hc) as (Hb & Hl & _ & Hi).
  unfold MAX_BITS, MAX_ARGUMENTS, MAX_INTERVAL_MS in *. split_and!; try done; lia.
Qed.

(** The numeric and text forms of SEQUENCE_SET the documents describe never
    configure anything: every path to the function ends in the mixed form. *)
Lemma sequence_set_legacy_refused {T} (known : NativeRegistry (S := T)) i nm args text (s : S) :
  (length args < 6)%nat ->
  EspRegistry.call (Entry i nm (configurationFunction known)) args s = (failure usage_mixed, s)
  /\ callText (Entry i nm (configurationFunction known)) text s = (failure usage_mixed, s).
Proof.
  intros Hl. split; [|done].
  change (perform (setMixed known args []) s = (failure usage_mixed, s)). unfold perform, get_seq, setMixed. run_st.
  by rewrite (proj2 (Nat.ltb_lt _ _) Hl).
Qed.
End invariant.

Lemma stage_natives_keep : natives_keep stage_natives.
Proof. exact (observed_keep stage_natives). Qed.

Definition demo_ops : list seq_op :=
  [OpSetMixed [0; 10; 30; 3; 5; 1] []; OpStart [1]; OpTick; OpClear []; OpPop [0]; OpField [0; 0]; OpTick].

Lemma sequence_invariant_witness :
  (let q := seq_of (seq_run stage_natives demo_ops (Stage vm_init sequence_init 77 [])).2 in
   length (tracks q) = MAX_TRACKS /\ channelBusy q = map active (tracks q)
   /\ (running q = false -> Forall (fun t => active t = false) (tracks q))
   /\ Forall (fun t => active t = true ->
        configured t = true /\ 0 <= position t < bitCount t /\ Z.of_nat (length (bits t)) = bitCount t
        /\ 1 <= bitCount t <= 64 /\ 1 <= intervalMs t <= 60000
        /\ (length (arguments_ (channel t)) <= 7)%nat) (tracks q))
  /\ channelBusy (seq_of (seq_run stage_natives demo_ops (Stage vm_init sequence_init 77 [])).2) = [true; false; false; false].
Proof.
  split; [|vm_compute; reflexivity]. apply (sequence_invariant stage_natives demo_ops (Stage vm_init sequence_init 77 [])).
  - exact stage_natives_keep.
  - apply (bool_decide_unpack _). vm_compute. exact I.
  - reflexivity.
Defined.
End EspSequencePlay.
