(* ===== verification/EspDispatch.v ===== *)
(** * The NRP/1 protocol and its command dispatcher

    esp/common/src/protocol/noob_protocol.cpp (frames) and
    esp/common/src/commands/noob_command_dispatcher.cpp (the common commands):
    parsing, the hex programs of LOAD, and the three ways to call a native
    function.  The LOAD and CALL_MIXED encodings are proved to be read back
    exactly. *)
From S2P Require Import Prelude CLib NativeRegistry EspRecord EspRegistry EspVm.

Open Scope Z_scope.

Module EspDispatch.
Import EspRecord EspRegistry EspVm.

(** ** Frames *)

Record NoobRequest := Request { requestId : bytes; command : bytes; arguments : bytes }.

Definition VERSION : bytes := str "NRP/1".

Definition skip_spaces (s : bytes) : bytes := (span (fun c => negb (c =? SP)) s).2.

Definition to_upper (s : bytes) : bytes := map toupper s.

(** The request as far as it was read, and the error if it is refused. *)
Definition parse (frame : bytes) : NoobRequest * option bytes :=
  let '(version, r) := tokenAt frame in
  let '(rid, r) := tokenAt r in
  let '(cmd, r) := tokenAt r in
  let request := Request rid (to_upper cmd) (skip_spaces r) in
  (request,
   if negb (bytes_eqb version VERSION) then Some (str "unsupported protocol version")
   else if (length rid =? 0)%nat || (length cmd =? 0)%nat
   then Some (str "expected NRP/1 request-id command [arguments]")
   else None).

Definition ok_reply (rid payload : bytes) : bytes :=
  VERSION ++ SP :: rid ++ str " OK" ++ (match payload with [] => [] | _ => SP :: payload end).

Definition fail_reply (rid code message : bytes) : bytes :=
  VERSION ++ SP :: rid ++ str " ERR " ++ code ++ SP :: message.

(** ** Capabilities *)

Definition MAX_CAPABILITIES : nat := 32.

Definition capability_add (items : list bytes) (c : bytes) : bool * list bytes :=
  if (MAX_CAPABILITIES <=? length items)%nat then (false, items)
  else if existsb (bytes_eqb c) items then (true, items) else (true, items ++ [c]).

Definition capability_has (items : list bytes) (c : bytes) : bool := existsb (equalsIgnoreCase c) items.

Fixpoint capability_list (items : list bytes) : bytes :=
  match items with [] => [] | [c] => c | c :: l => c ++ str "," ++ capability_list l end.

(** ** Hex programs *)

Definition hexValue (c : byte) : Z :=
  if isdigit c then c - 48
  else if (97 <=? c) && (c <=? 102) then c - 87
  else if (65 <=? c) && (c <=? 70) then c - 55
  else -1.

Definition is_separator (c : byte) : bool := (c =? SP) || (c =? 95) || (c =? 58).

(** [high] is the pending nibble or -1; [inl] is the error. *)
Fixpoint decode_loop (index : Z) (text : bytes) (high : Z) (output : bytes) : bytes + (Z * bytes) :=
  match text with
  | [] => inr (high, output)
  | c :: text' =>
      if is_separator c then decode_loop (index + 1) text' high output
      else
      let nibble := hexValue c in
      if nibble <? 0 then inl (str "non-hex character at " ++ print_nat index)
      else if high <? 0 then decode_loop (index + 1) text' nibble output
      else if PROGRAM_BYTES <=? Z.of_nat (length output) then inl (str "program exceeds 1024 bytes")
      else decode_loop (index + 1) text' (-1) (output ++ [Z.lor (Z.shiftl high 4) nibble])
  end.

Definition decodeHex (text : bytes) : bytes + bytes :=
  match decode_loop 0 text (-1) [] with
  | inl e => inl e
  | inr (high, output) =>
      if 0 <=? high then inl (str "odd number of hex digits")
      else if (length output =? 0)%nat then inl (str "empty program")
      else inr output
  end.

(** ** Arguments *)

(** Arduino's [String::toInt] with a 32-bit [long]. *)
Definition toInt (s : bytes) : Z := clamp INT_MIN INT_MAX (value_or_0 (strtol s)).

(** At most eight tokens, read as numbers; the rest is ignored. *)
Fixpoint number_tokens (fuel : nat) (acc : list Z) (rest : bytes) : list Z :=
  match fuel, rest with
  | Datatypes.S fuel, _ :: _ =>
      if (8 <=? length acc)%nat then acc
      else let '(token, rest') := tokenAt rest in
           match token with
           | [] => number_tokens fuel acc rest'
           | _ => number_tokens fuel (acc ++ [toInt token]) rest'
           end
  | _, _ => acc
  end.

(** One number of a mixed call. *)
Definition strict_number (token : bytes) : option Z :=
  match strtol token with
  | Some (v, r) => if negb (peek r =? NUL) || strtol_erange token || (v <? INT_MIN) || (INT_MAX <? v) then None else Some v
  | None => None
  end.

(** The numbers before the quoted string; [None] when one is refused. *)
Fixpoint mixed_numbers (fuel : nat) (acc : list Z) (text : bytes) : option (list Z * bytes) :=
  match skip_spaces text with
  | [] => Some (acc, [])
  | c :: rest =>
      if c =? DQ then Some (acc, c :: rest)
      else
      match fuel with
      | O => None
      | Datatypes.S fuel =>
          let '(token, rest') := tokenAt (c :: rest) in
          match strict_number token with
          | Some v => if (8 <=? length acc)%nat then None else mixed_numbers fuel (acc ++ [v]) rest'
          | None => None
          end
      end
  end.

Definition BACKSLASH : byte := 92.

(** The string after its opening quote: whether it was closed, its text and what
    follows. *)
Fixpoint scan_quoted (text acc : bytes) : bytes + (bool * bytes * bytes) :=
  match text with
  | [] => inr (false, acc, [])
  | c :: text' =>
      if c =? DQ then inr (true, acc, text')
      else if c =? BACKSLASH then
        match text' with
        | [] => inr (false, acc, [])
        | e :: text'' =>
            if negb ((e =? DQ) || (e =? BACKSLASH)) then inl (str "only quote and backslash escapes supported")
            else if (MAX_ASCII_BYTES <? length acc + 1)%nat then inl (str "ASCII argument too long")
            else scan_quoted text'' (acc ++ [e])
        end
      else if (MAX_ASCII_BYTES <? length acc + 1)%nat then inl (str "ASCII argument too long")
      else scan_quoted text' (acc ++ [c])
  end.

Definition unquoted_message : bytes := str "expected quoted ASCII string; use " ++ [DQ; DQ] ++ str " for empty".

(** The argument text of CALL_MIXED after the selector; [inl] is the message. *)
Definition mixed_arguments (text : bytes) : bytes + (list Z * bytes) :=
  match mixed_numbers (length text) [] text with
  | None => inl (str "expected signed 32-bit number")
  | Some (numbers, rest) =>
      match rest with
      | c :: quoted =>
          if negb (c =? DQ) then inl unquoted_message
          else match scan_quoted quoted [] with
               | inl e => inl e
               | inr (closed, ascii, rest) =>
                   match closed, skip_spaces rest with
                   | true, [] => inr (numbers, ascii)
                   | _, _ => inl (str "unterminated string or trailing arguments")
                   end
               end
      | [] => inl unquoted_message
      end
  end.

(** ** The dispatcher *)

(** The optional persistence hook. *)
Record NoobVmLifecycle {S : Type} := Lifecycle { onStarted : st S bytes; onStopped : st S bytes; onReset : st S bytes }.
Arguments NoobVmLifecycle : clear implicits.

Definition payload_of (r : NativeResult) : bytes :=
  str "value=" ++ print_int (value r)
  ++ (match record r with [] => [] | rec => str " record=" ++ serialize rec end)
  ++ (match detail r with [] => [] | d => str " detail=" ++ d end).

Definition native_reply (rid : bytes) (r : NativeResult) : bytes :=
  if negb (ok r) then fail_reply rid (str "NATIVE_ERROR") (detail r) else ok_reply rid (payload_of r).

Section dispatcher.
Context {S : Type} `{HasClock S} (natives : NativeRegistry (S := S)).
Context (noobName firmwareVersion : bytes) (capabilities : list bytes) (lifecycle : option (NoobVmLifecycle S)).

Definition callNative (r : NoobRequest) : st S bytes :=
  let '(selector, rest) := tokenAt (arguments r) in
  let numeric := negb (length selector =? 0)%nat && forallb isdigit selector in
  match (if numeric then find_id natives (to_u16 (toInt selector)) else find_name natives selector) with
  | None => mret (fail_reply (requestId r) (str "NO_FUNCTION") selector)
  | Some entry =>
      if negb (acceptsNumbers (implementation entry))
      then mret (fail_reply (requestId r) (str "FUNCTION_KIND") (str "use CALL_TEXT for " ++ selector))
      else result ← call entry (number_tokens (length rest) [] rest);
           mret (native_reply (requestId r) result)
  end.

Definition callTextNative (r : NoobRequest) : st S bytes :=
  let '(selector, rest) := tokenAt (arguments r) in
  match find_name natives selector with
  | Some entry =>
      if negb (acceptsText (implementation entry))
      then mret (fail_reply (requestId r) (str "NO_TEXT_FUNCTION") selector)
      else result ← callText entry (skip_spaces rest);
           mret (native_reply (requestId r) result)
  | None => mret (fail_reply (requestId r) (str "NO_TEXT_FUNCTION") selector)
  end.

(** A function by name or, failing that, by number. *)
Definition find_selector (selector : bytes) : option (NativeEntry (S := S)) :=
  match find_name natives selector with
  | Some entry => Some entry
  | None =>
      match strtol selector with
      | Some (i, r) => if (peek r =? NUL) && (0 <=? i) && (i <=? 65535) then find_id natives i else None
      | None => None
      end
  end.

Definition callMixedNative (r : NoobRequest) : st S bytes :=
  let '(selector, rest) := tokenAt (arguments r) in
  match find_selector selector with
  | None => mret (fail_reply (requestId r) (str "NO_FUNCTION") selector)
  | Some entry =>
      match mixed_arguments rest with
      | inl message => mret (fail_reply (requestId r) (str "BAD_ARGUMENT") message)
      | inr (numbers, ascii) =>
          result ← callMixed entry numbers ascii;
          mret (native_reply (requestId r) result)
      end
  end.

(** The lifecycle's note, after a blank. *)
Definition note (hook : NoobVmLifecycle S -> st S bytes) : st S bytes :=
  match lifecycle with
  | None => mret []
  | Some l => d ← hook l; mret (match d with [] => [] | _ => SP :: d end)
  end.

Definition load_command (r : NoobRequest) : st S bytes :=
  match decodeHex (arguments r) with
  | inl e => mret (fail_reply (requestId r) (str "BAD_PROGRAM") e)
  | inr program =>
      loaded ← get_vm (load program);
      match loaded with
      | inl e => mret (fail_reply (requestId r) (str "VM_STATE") e)
      | inr v => upd_vm (fun _ => v) ;;
                 mret (ok_reply (requestId r) (str "loaded=" ++ print_nat (Z.of_nat (length program))))
      end
  end.

Definition run_command (r : NoobRequest) : st S bytes :=
  started ← get_vm run;
  match started with
  | inl e => mret (fail_reply (requestId r) (str "VM_STATE") e)
  | inr v => upd_vm (fun _ => v) ;;
             extra ← note onStarted;
             mret (ok_reply (requestId r) (str "started" ++ extra))
  end.

Definition stop_command (r : NoobRequest) : st S bytes :=
  upd_vm stop ;;
  text ← get_vm status;
  extra ← note onStopped;
  mret (ok_reply (requestId r) (text ++ extra)).

Definition reset_command (r : NoobRequest) : st S bytes :=
  upd_vm reset ;;
  text ← get_vm status;
  extra ← note onReset;
  mret (ok_reply (requestId r) (text ++ extra)).

Definition dispatch (r : NoobRequest) : st S bytes :=
  let named c := bytes_eqb (command r) (str c) in
  if named "PING" then mret (ok_reply (requestId r) (str "PONG"))
  else if named "INFO" then
    mret (ok_reply (requestId r) (str "name=" ++ noobName ++ str " firmware=" ++ firmwareVersion ++ str " protocol=1 vm=1"))
  else if named "CAPS" then
    mret (ok_reply (requestId r) (str "caps=" ++ capability_list capabilities ++ str " functions=" ++ list_functions natives))
  else if named "LOAD" then load_command r
  else if named "RUN" || named "START_THREAD" then run_command r
  else if named "STOP" || named "STOP_THREAD" then stop_command r
  else if named "RESET_VM" then reset_command r
  else if named "CALL" then callNative r
  else if named "CALL_TEXT" then callTextNative r
  else if named "CALL_MIXED" then callMixedNative r
  else if named "STATUS" || named "THREAD_STATUS" then
    text ← get_vm status; mret (ok_reply (requestId r) text)
  else mret (fail_reply (requestId r) (str "UNKNOWN_COMMAND") (command r)).
End dispatcher.
End EspDispatch.
