(* ===== verification/EspDispatchFacts.v ===== *)
(** * The dispatcher reads back what a client prints

    The hex program of LOAD and the arguments of CALL_MIXED survive the trip
    through the frame parser and the dispatcher. *)
From S2P Require Import Prelude CLib NativeRegistry EspRecord EspRegistry EspVm EspVmFacts EspVmRun EspDispatch.

Open Scope Z_scope.

Module EspDispatchFacts.
Import EspRecord EspRegistry EspVm EspVmFacts EspDispatch.

(** ** Tokens *)

(** A non-empty word without blanks. *)
Definition word (s : bytes) : Prop := s <> [] /\ SP ∉ s.

#[global] Instance word_dec s : Decision (word s).
Proof. unfold word. apply _. Defined.

Lemma skip_spaces_word c s : c <> SP -> skip_spaces (c :: s) = c :: s.
Proof. intros Hc. unfold skip_spaces. cbn. by rewrite (proj2 (Z.eqb_neq _ _) Hc). Qed.

Lemma skip_spaces_SP s : skip_spaces (SP :: s) = skip_spaces s.
Proof. unfold skip_spaces. cbn. by destruct (span _ s). Qed.

Lemma no_SP s : SP ∉ s -> Forall (fun c => (SP =? c) = false) s.
Proof. intros Hs. apply Forall_forall. intros c Hc. apply Z.eqb_neq. by intros <-. Qed.

Lemma tokenAt_SP s : tokenAt (SP :: s) = tokenAt s.
Proof. unfold tokenAt. fold (skip_spaces (SP :: s)). by rewrite skip_spaces_SP. Qed.

Lemma tokenAt_word w s : word w -> (match s with [] => True | c :: _ => c = SP end) -> tokenAt (w ++ s) = (w, s).
Proof.
  intros [Hne Hsp] Hs. unfold tokenAt. fold (skip_spaces (w ++ s)). destruct w as [|c w]; [done|].
  apply not_elem_of_cons in Hsp as Hsp'. cbn [app]. rewrite skip_spaces_word by (by destruct Hsp').
  change (c :: w ++ s) with ((c :: w) ++ s). rewrite span_prefix; [done|by apply no_SP|].
  destruct s as [|d s]; [done|]. by subst d.
Qed.

(** ** Frames *)

(** The frame of a request whose command is written in any case. *)
Definition frame (rid cmd args : bytes) : bytes := VERSION ++ SP :: rid ++ SP :: cmd ++ SP :: args.

Lemma parse_frame rid cmd args :
  word rid -> word cmd -> parse (frame rid cmd args) = (Request rid (to_upper cmd) (skip_spaces args), None).
Proof.
  intros Hrid Hcmd. unfold parse, frame. rewrite tokenAt_word by (by try apply (bool_decide_unpack _)).
  rewrite tokenAt_SP, tokenAt_word by done. rewrite tokenAt_SP, tokenAt_word by done. rewrite skip_spaces_SP.
  rewrite bytes_eqb_refl. cbn [negb]. destruct rid as [|? ?]; [by destruct Hrid|]. destruct cmd; [by destruct Hcmd|]. done.
Qed.

(** ** Hex *)

Lemma hexValue_digit v : 0 <= v < 16 -> hexValue (hex_digit v) = v /\ is_separator (hex_digit v) = false.
Proof.
  intros Hv. assert (H16 : v ∈ map Z.of_nat (seq 0 16)).
  { apply list_elem_of_In, in_map_iff. exists (Z.to_nat v). split; [lia|]. apply in_seq. lia. }
  assert (Hall : Forall (fun v => hexValue (hex_digit v) = v /\ is_separator (hex_digit v) = false) (map Z.of_nat (seq 0 16)))
    by (apply (bool_decide_unpack _); by vm_compute).
  by eapply Forall_forall in Hall.
Qed.

(** Separators may stand anywhere. *)
Definition strip (text : bytes) : bytes := List.filter (fun c => negb (is_separator c)) text.

Lemma decode_strip text i j high out r :
  decode_loop j (strip text) high out = inr r -> decode_loop i text high out = inr r.
Proof.
  revert i j high out. induction text as [|c text IH]; intros i j high out; [done|]. cbn [strip List.filter decode_loop].
  destruct (is_separator c) eqn:Es; cbn [negb]; [apply IH|]. cbn [decode_loop]. rewrite Es.
  destruct (hexValue c <? 0); [done|]. destruct (high <? 0); [apply IH|]. destruct (_ <=? _); [done|]. apply IH.
Qed.

Lemma decode_hex p i out :
  bytes_ok p -> Z.of_nat (length out + length p) <= PROGRAM_BYTES ->
  decode_loop i (hex_encode p) (-1) out = inr (-1, out ++ p).
Proof.
  intros Hp. revert i out. induction Hp as [|b p Hb Hp IH]; intros i out Hl; cbn [length] in Hl.
  { cbn. by rewrite app_nil_r. }
  change (hex_encode (b :: p)) with (hex_byte b ++ hex_encode p). unfold hex_byte. cbn [app decode_loop].
  unfold byte_ok in Hb. destruct (nibbles b Hb) as (H1 & H2 & Hn).
  destruct (hexValue_digit _ H1) as [E1 S1], (hexValue_digit _ H2) as [E2 S2]. rewrite S1, E1.
  rewrite (proj2 (Z.ltb_ge _ _) (proj1 H1)). cbn [Z.ltb Z.compare]. rewrite S2, E2, !(proj2 (Z.ltb_ge _ _) (proj1 H2)).
  rewrite (proj2 (Z.leb_gt _ _)) by lia.
  rewrite IH by (rewrite length_app; cbn; lia).
  rewrite lor_shiftl by (change (2 ^ 4) with 16; lia). change (2 ^ 4) with 16. rewrite Hn. by rewrite <- app_assoc.
Qed.

Lemma decodeHex_program text p :
  bytes_ok p -> (0 < length p)%nat -> Z.of_nat (length p) <= PROGRAM_BYTES -> strip text = hex_encode p ->
  decodeHex text = inr p.
Proof.
  intros Hp H0 Hl Ht. unfold decodeHex. rewrite (decode_strip text 0 0 (-1) [] (-1, p)).
  - cbn [Z.leb Z.compare]. destruct p; [cbn in H0; lia|done].
  - rewrite Ht. by apply (decode_hex p 0 []).
Qed.

(** ** Mixed arguments *)

Lemma print_int_word n : word (print_int n).
Proof.
  assert (Hd : forall m, SP ∉ print_nat m).
  { intros m Hm. pose proof (print_nat_isdigit m) as Hf. eapply Forall_forall in Hf; [|exact Hm]. done. }
  unfold word, print_int. pose proof (print_nat_nonempty n). destruct (n <? 0); [|done].
  split; [done|]. apply not_elem_of_cons. split; [done|apply Hd].
Qed.

Lemma strict_number_print n : int32 n -> strict_number (print_int n) = Some n.
Proof.
  unfold int32, INT_MIN, INT_MAX. intros Hn. unfold strict_number, strtol, strtol_erange.
  rewrite <- (app_nil_r (print_int n)), Native.scan_number_print_int by done.
  assert (Hv : (if n <? 0 then - Z.abs n else Z.abs n) = n) by (destruct (Z.ltb_spec n 0); lia).
  rewrite Hv. unfold clamp, LONG_MIN, LONG_MAX. rewrite Z.min_r, Z.max_r by lia. unfold INT_MIN, INT_MAX.
  cbn [peek negb orb Z.eqb NUL].
  repeat match goal with |- context [?a <? ?b] => destruct (Z.ltb_spec a b); [lia|] end. done.
Qed.

Lemma mixed_numbers_print ns fuel acc rest :
  Forall int32 ns -> (length acc + length ns <= 8)%nat -> (length ns <= fuel)%nat ->
  mixed_numbers fuel acc (SP :: Native.print_numbers ns ++ DQ :: rest) = Some (acc ++ ns, DQ :: rest).
Proof.
  intros Hns. revert fuel acc. induction Hns as [|n ns Hn Hns IH]; intros fuel acc Hl Hf.
  - destruct fuel; cbn; by rewrite app_nil_r.
  - cbn [Native.print_numbers length] in *. rewrite <- app_assoc. destruct fuel as [|f]; [lia|]. cbn [mixed_numbers].
    rewrite skip_spaces_SP.
    destruct (Native.print_int_head n ((SP :: Native.print_numbers ns) ++ DQ :: rest)) as (c & t & E & H1 & H2 & _).
    rewrite E, skip_spaces_word by done. rewrite (proj2 (Z.eqb_neq _ _) H2), <- E.
    rewrite tokenAt_word by (by try apply print_int_word). rewrite strict_number_print by done.
    rewrite (proj2 (Nat.leb_gt _ _)) by lia. cbn [app]. rewrite IH; [by rewrite <- app_assoc|rewrite length_app; cbn; lia|lia].
Qed.

Lemma scan_quoted_print text acc rest :
  (length acc + length text <= MAX_ASCII_BYTES)%nat ->
  scan_quoted ((text ≫= Native.escape_char) ++ DQ :: rest) acc = inr (true, acc ++ text, rest).
Proof.
  revert acc. induction text as [|c text IH]; intros acc Hl; [cbn; by rewrite app_nil_r|].
  cbn [mbind list_bind length] in *. fold (mbind (M := list) Native.escape_char text). rewrite <- app_assoc.
  assert (Hlt : (MAX_ASCII_BYTES <? length acc + 1)%nat = false) by (apply Nat.ltb_ge; lia).
  specialize (IH (acc ++ [c])). rewrite <- app_assoc in IH. cbn [app] in IH. rewrite length_app in IH. cbn [length] in IH.
  unfold Native.escape_char at 1. unfold Native.BACKSLASH.
  destruct (Z.eqb_spec c DQ) as [->|H1]; [|destruct (Z.eqb_spec c 92) as [->|H2]]; cbn [orb app scan_quoted].
  - unfold BACKSLASH. cbn [DQ Z.eqb Pos.eqb orb negb]. rewrite Hlt. apply IH. lia.
  - unfold BACKSLASH. cbn [DQ Z.eqb Pos.eqb orb negb]. rewrite Hlt. apply IH. lia.
  - rewrite (proj2 (Z.eqb_neq _ _) H1), (proj2 (Z.eqb_neq c BACKSLASH) H2), Hlt. apply IH. lia.
Qed.

Definition mixed_text (ns : list Z) (ascii : bytes) : bytes :=
  Native.print_numbers ns ++ DQ :: (ascii ≫= Native.escape_char) ++ [DQ].

Lemma mixed_arguments_print ns ascii :
  Forall int32 ns -> (length ns <= 8)%nat -> (length ascii <= MAX_ASCII_BYTES)%nat ->
  mixed_arguments (SP :: mixed_text ns ascii) = inr (ns, ascii).
Proof.
  intros Hns Hl Ha. unfold mixed_arguments, mixed_text.
  rewrite mixed_numbers_print; [|done|cbn; lia|].
  - cbn [app]. rewrite Z.eqb_refl. cbn [negb]. by rewrite (scan_quoted_print ascii [] []).
  - cbn [length]. rewrite length_app. pose proof (Native.print_numbers_length ns). lia.
Qed.

(** ** The theorems *)

Section theorems.
Context {S : Type} `{HasClock S} (natives : NativeRegistry (S := S)).
Context (nm version : bytes) (caps : list bytes) (lifecycle : option (NoobVmLifecycle S)).

(** LOAD carries a program exactly: for every program of 1 to 1024 bytes, a
    frame with its hex digits, separated by blanks, underscores or colons in
    any way, is parsed, decoded and loaded into an idle machine, which then
    holds exactly these bytes, cleared registers and memory and is ready to run
    from address 0; the reply has the request's id and the size. *)
Theorem load_roundtrip rid cmd p text (s : S) :
  word rid -> word cmd -> to_upper cmd = str "LOAD" -> bytes_ok p -> (0 < length p)%nat ->
  Z.of_nat (length p) <= PROGRAM_BYTES -> strip text = hex_encode p -> busy (vm_of s) = false ->
  let '(request, error) := parse (frame rid cmd text) in
  let '(reply, s') := dispatch natives nm version caps lifecycle request s in
  error = None /\ reply = ok_reply rid (str "loaded=" ++ print_nat (Z.of_nat (length p)))
  /\ take (length p) (program_ (vm_of s')) = p /\ programLength_ (vm_of s') = Z.of_nat (length p)
  /\ pc_ (vm_of s') = 0 /\ state_ (vm_of s') = READY /\ registers_ (vm_of s') = zeros REGISTER_COUNT.
Proof.
  intros Hrid Hcmd Hup Hp Hpos Hl Ht Hbusy. rewrite parse_frame by done. rewrite Hup.
  change (dispatch natives nm version caps lifecycle (Request rid (str "LOAD") (skip_spaces text)) s)
    with (load_command (Request rid (str "LOAD") (skip_spaces text)) s).
  unfold load_command. cbn [arguments requestId].
  assert (Hs : strip (skip_spaces text) = strip text).
  { clear. induction text as [|c text IH]; [done|]. destruct (decide (c = SP)) as [->|Hc].
    - rewrite skip_spaces_SP, IH. done.
    - by rewrite skip_spaces_word. }
  rewrite (decodeHex_program _ p) by (rewrite ?Hs; done). unfold get_vm. rewrite st_bind_run. cbn [gets fst snd].
  unfold load. rewrite (proj2 (Z.eqb_neq _ 0)) by lia. rewrite (proj2 (Z.ltb_ge _ _) Hl), Hbusy. cbn [orb].
  rewrite st_bind_run. unfold upd_vm. cbn [modify fst snd mret st_ret]. rewrite vm_of_put.
  split_and!; try done. cbn [program_]. by rewrite take_app_length.
Qed.

(** CALL_MIXED carries a call exactly: for every function in the registry,
    at most eight 32-bit numbers and any text of at most 255 bytes, the frame a
    client prints (the numbers in decimal, the text quoted with escaped quotes
    and backslashes) makes one call of that function with exactly these numbers
    and this text, and the reply under the request's id is made from its
    result. *)
Theorem call_mixed_roundtrip rid cmd selector e ns ascii (s : S) :
  word rid -> word cmd -> to_upper cmd = str "CALL_MIXED" -> word selector -> find_name natives selector = Some e ->
  Forall int32 ns -> (length ns <= 8)%nat -> (length ascii <= MAX_ASCII_BYTES)%nat ->
  let '(request, error) := parse (frame rid cmd (selector ++ SP :: mixed_text ns ascii)) in
  error = None /\ dispatch natives nm version caps lifecycle request s
                  = (native_reply rid (callMixed e ns ascii s).1, (callMixed e ns ascii s).2).
Proof.
  intros Hrid Hcmd Hup Hsel He Hns Hl Ha. rewrite parse_frame by done. split; [done|]. rewrite Hup.
  assert (Hskip : skip_spaces (selector ++ SP :: mixed_text ns ascii) = selector ++ SP :: mixed_text ns ascii).
  { destruct selector as [|c sel]; [by destruct Hsel|]. destruct Hsel as [_ Hsp]. apply not_elem_of_cons in Hsp as [Hc _].
    by apply skip_spaces_word. }
  rewrite Hskip.
  change (callMixedNative natives (Request rid (str "CALL_MIXED") (selector ++ SP :: mixed_text ns ascii)) s
    = (native_reply rid (callMixed e ns ascii s).1, (callMixed e ns ascii s).2)).
  unfold callMixedNative. cbn [arguments requestId]. rewrite tokenAt_word by done. unfold find_selector.
  rewrite He, mixed_arguments_print by done. by rewrite st_bind_run.
Qed.
End theorems.

Lemma load_roundtrip_witness :
  let '(request, error) := parse (frame (str "7") (str "load") (str "01:00 2a_00 0000")) in
  let '(reply, s') := dispatch EspVmRun.bench_natives (str "iris") (str "1.0") [] None request EspVmRun.sum_device in
  error = None /\ reply = str "NRP/1 7 OK loaded=6" /\ take 6 (program_ (vm_of s')) = [1; 0; 42; 0; 0; 0]
  /\ programLength_ (vm_of s') = 6 /\ pc_ (vm_of s') = 0 /\ state_ (vm_of s') = READY
  /\ registers_ (vm_of s') = zeros REGISTER_COUNT.
Proof.
  apply (load_roundtrip EspVmRun.bench_natives (str "iris") (str "1.0") [] None (str "7") (str "load") [1; 0; 42; 0; 0; 0]
    (str "01:00 2a_00 0000") EspVmRun.sum_device); try (apply (bool_decide_unpack _); vm_compute; exact I).
  all: try reflexivity; cbn; lia.
Defined.

Lemma call_mixed_roundtrip_witness :
  let '(request, error) := parse (frame (str "8") (str "CALL_MIXED") (str "sum" ++ SP :: mixed_text [40; -2] [])) in
  error = None
  /\ (dispatch EspVmRun.bench_natives (str "iris") (str "1.0") [] None request EspVmRun.sum_device).1
     = str "NRP/1 8 OK value=38".
Proof.
  pose proof (call_mixed_roundtrip EspVmRun.bench_natives (str "iris") (str "1.0") [] None (str "8") (str "CALL_MIXED") (str "sum")
    (nth 0 EspVmRun.bench_natives (Entry 0 [] (NumericFunctionAdapter (fun _ => mret (failure []))))) [40; -2] [] EspVmRun.sum_device) as E.
  destruct (parse _) as [request error]. destruct E as [E1 E2].
  1,2,4: apply (bool_decide_unpack _); vm_compute; exact I.
  1,2: reflexivity.
  1: apply (bool_decide_unpack _); vm_compute; exact I.
  1,2: cbn; unfold MAX_ASCII_BYTES; lia.
  split; [exact E1|]. rewrite E2. vm_compute. reflexivity.
Defined.
End EspDispatchFacts.
