(* ===== verification/EspThreads.v ===== *)
(** * esp/common/src/core: background threads

    noob_thread_program.h/.cpp (the common life cycle of a polled thread),
    noob_change_thread.cpp (an event when a sampled value jumps),
    noob_window_rise_thread.cpp (an event when the newer half of ten averaged
    buckets rises above the older half), noob_sampling_thread.cpp (a timed
    recording) and services/MonotonicTimeService.cpp.  Each thread is a record
    inside the device state, reached through a pair of accessors, because the
    functions it samples may use the thread themselves. *)
From S2P Require Import Prelude CLib EspRecord EspRegistry EspVm EspProgram EspSequence.

Open Scope Z_scope.

Module EspThreads.
Import EspRecord EspRegistry EspVm EspProgram.

(** ** MonotonicTimeService *)

(** A device keeps the epoch of its logical time. *)
Class HasEpoch (S : Type) := { epoch_of : S -> Z; put_epoch : Z -> S -> S }.

Section time.
Context {S : Type} `{HasClock S} `{!HasEpoch S}.

Definition milliseconds : st S Z := now ← millis; epoch ← gets epoch_of; mret (u32 (now - epoch)).

Definition time_now (arguments : list Z) : st S NativeResult :=
  match arguments with
  | [] => v ← milliseconds; mret (result true (i32 v) (str "monotonic_ms=" ++ print_nat v ++ str " wrap_bits=32"))
  | _ => mret (failure (str "usage: no arguments"))
  end.

Definition time_reset (arguments : list Z) : st S NativeResult :=
  match arguments with
  | [] => now ← millis; modify (put_epoch now) ;; mret (result true 0 (str "monotonic_ms=0"))
  | _ => mret (failure (str "usage: no arguments"))
  end.
End time.

(** ** The common part of a thread *)

Record NoobThread := Thread {
  intervalMs_ : Z; nextAt_ : Z; running_ : bool; queue_ : NoobRecordQueue; lastPopped_ : NoobRecord;
  haveLastPopped_ : bool; channelBusy_ : bool }.

Definition new_thread (intervalMs : Z) : NoobThread := Thread intervalMs 0 false empty_queue [] false false.

Definition set_interval (i : Z) (t : NoobThread) : NoobThread :=
  Thread i (nextAt_ t) (running_ t) (queue_ t) (lastPopped_ t) (haveLastPopped_ t) (channelBusy_ t).
Definition set_next (n : Z) (t : NoobThread) : NoobThread :=
  Thread (intervalMs_ t) n (running_ t) (queue_ t) (lastPopped_ t) (haveLastPopped_ t) (channelBusy_ t).
Definition set_run (b : bool) (t : NoobThread) : NoobThread :=
  Thread (intervalMs_ t) (nextAt_ t) b (queue_ t) (lastPopped_ t) (haveLastPopped_ t) b.
Definition set_queue (q : NoobRecordQueue) (t : NoobThread) : NoobThread :=
  Thread (intervalMs_ t) (nextAt_ t) (running_ t) q (lastPopped_ t) (haveLastPopped_ t) (channelBusy_ t).
Definition set_last (r : NoobRecord) (q : NoobRecordQueue) (t : NoobThread) : NoobThread :=
  Thread (intervalMs_ t) (nextAt_ t) (running_ t) q r true (channelBusy_ t).
Definition fresh_queue (t : NoobThread) : NoobThread :=
  Thread (intervalMs_ t) (nextAt_ t) (running_ t) (clear (queue_ t)) (lastPopped_ t) false (channelBusy_ t).

Definition publish (r : NoobRecord) (t : NoobThread) : NoobThread := set_queue (push r (queue_ t)) t.
Definition publish_value (v : Z) (t : NoobThread) : NoobThread := set_queue (push_value v (queue_ t)) t.

Definition usage_none : bytes := str "usage: no arguments".
Definition flag_text (b : bool) : bytes := if b then str "1" else str "0".

Section thread.
Context {S : Type} `{HasClock S}.
Context (thread_of : S -> NoobThread) (put_thread : NoobThread -> S -> S).

Definition upd_thread (f : NoobThread -> NoobThread) : st S unit := modify (fun s => put_thread (f (thread_of s)) s).

(** [onStart] is the derived class's hook. *)
Definition thread_call (onStart : st S unit) (arguments : list Z) : st S NativeResult :=
  if (1 <? length arguments)%nat || (negb (length arguments =? 0)%nat && (nth 0 arguments 0 <? 1))
  then mret (failure (str "usage: [interval_ms]"))
  else
  (match arguments with i :: _ => upd_thread (set_interval i) | [] => mret tt end) ;;
  upd_thread fresh_queue ;;
  onStart ;;
  upd_thread (set_run true) ;;
  now ← millis;
  upd_thread (set_next now) ;;
  i ← gets (fun s => intervalMs_ (thread_of s));
  mret (result true 1 (str "type=thread running=1 interval_ms=" ++ print_nat i)).

(** So is [onStop]. *)
Definition thread_stop (onStop : st S unit) : st S NativeResult :=
  upd_thread (set_run false) ;;
  onStop ;;
  q ← gets (fun s => size (queue_ (thread_of s)));
  mret (result true 0 (str "type=thread running=0 queued=" ++ print_nat (Z.of_nat q))).

Definition thread_status (statusDetail : st S bytes) : st S NativeResult :=
  t ← gets thread_of;
  extra ← statusDetail;
  mret (result true (if running_ t then 1 else 0)
    (str "type=thread running=" ++ flag_text (running_ t) ++ str " interval_ms=" ++ print_nat (intervalMs_ t)
     ++ str " channel_busy=" ++ flag_text (channelBusy_ t) ++ str " queued=" ++ print_nat (Z.of_nat (size (queue_ t)))
     ++ str " dropped=" ++ print_nat (dropped_ (queue_ t)) ++ extra)).

(** [pop] and [poll] differ in what an empty queue means. *)
Definition take_record (empty : NativeResult) (prefix : bytes) : st S NativeResult :=
  t ← gets thread_of;
  match pop (queue_ t) with
  | None => mret empty
  | Some (rec, q) =>
      upd_thread (set_last rec q) ;;
      mret (Result true (default 0 (primary rec))
        (prefix ++ str "remaining=" ++ print_nat (Z.of_nat (size q)) ++ str " dropped=" ++ print_nat (dropped_ q)) rec)
  end.

Definition thread_pop : st S NativeResult := take_record (failure (str "thread queue empty")) [].
Definition thread_poll : st S NativeResult := take_record (result true 0 (str "event=0 queued=0")) (str "event=1 ").

Definition usage_field_index : bytes := str "usage: field_index(0..5)".

Definition thread_field (arguments : list Z) : st S NativeResult :=
  match arguments with
  | [index] =>
      if negb ((0 <=? index) && (index <? Z.of_nat MAX_FIELDS)) then mret (failure usage_field_index)
      else gets (fun s =>
        if negb (haveLastPopped_ (thread_of s)) then failure (str "no popped thread record")
        else match get_index (lastPopped_ (thread_of s)) (Z.to_nat index) with
             | None => failure (str "record field absent")
             | Some (nm, v) => result true v (str "field=" ++ print_int index ++ str " name=" ++ nm)
             end)
  | _ => mret (failure usage_field_index)
  end.

(** The functions registered for a thread. *)
Definition no_argument_function (m : st S NativeResult) : NoobFunction S :=
  base_function true false (fun args => match args with [] => m | _ => mret (failure usage_none) end)
    (fun _ => mret (failure (str "text call unsupported"))).
Definition NoobThreadStopFunction (onStop : st S unit) : NoobFunction S := no_argument_function (thread_stop onStop).
Definition NoobThreadStatusFunction (statusDetail : st S bytes) : NoobFunction S :=
  no_argument_function (thread_status statusDetail).
Definition NoobThreadPopFunction : NoobFunction S := no_argument_function thread_pop.
Definition NoobThreadPollFunction : NoobFunction S := no_argument_function thread_poll.
Definition NoobThreadFieldFunction : NoobFunction S :=
  base_function true false thread_field (fun _ => mret (failure (str "text call unsupported"))).

(** [step] is the derived class's work; the event, if there is one. *)
Definition thread_tick (step : st S (option bytes)) : st S (option bytes) :=
  t ← gets thread_of;
  if negb (running_ t) then mret None
  else now ← millis;
       if i32 (u32 (now - nextAt_ t)) <? 0 then mret None
       else now' ← millis;
            upd_thread (fun t => set_next (u32 (now' + intervalMs_ t)) t) ;;
            step.
End thread.

Definition event_prefix (eventName : bytes) : bytes := str "NRP/1 0 EVENT " ++ eventName.

Definition error_text (eventName : bytes) (c : NoobProgramChannel) : bytes :=
  event_prefix eventName ++ str "_ERROR detail=" ++ lastDetail_ c.

(** ** The change thread *)

Record ChangeThread := Change {
  ch_base : NoobThread; ch_source : NoobProgramChannel; ch_functionId : Z; ch_eventName : bytes;
  ch_threshold : Z; ch_rearmSamples : Z; ch_mask : Z;
  ch_previous : Z; ch_havePrevious : bool; ch_armed : bool; ch_stable : Z }.

Definition new_change (functionId : Z) (eventName : bytes) (interval threshold rearm mask : Z) : ChangeThread :=
  Change (new_thread interval) new_channel functionId eventName threshold rearm mask 0 false true 0.

Definition ch_set_base (b : NoobThread) (t : ChangeThread) : ChangeThread :=
  Change b (ch_source t) (ch_functionId t) (ch_eventName t) (ch_threshold t) (ch_rearmSamples t) (ch_mask t)
    (ch_previous t) (ch_havePrevious t) (ch_armed t) (ch_stable t).
Definition ch_set_source (c : NoobProgramChannel) (t : ChangeThread) : ChangeThread :=
  Change (ch_base t) c (ch_functionId t) (ch_eventName t) (ch_threshold t) (ch_rearmSamples t) (ch_mask t)
    (ch_previous t) (ch_havePrevious t) (ch_armed t) (ch_stable t).
Definition ch_set_threshold (v : Z) (t : ChangeThread) : ChangeThread :=
  Change (ch_base t) (ch_source t) (ch_functionId t) (ch_eventName t) v (ch_rearmSamples t) (ch_mask t)
    (ch_previous t) (ch_havePrevious t) (ch_armed t) (ch_stable t).
Definition ch_set_detector (prev : Z) (have armed : bool) (stable : Z) (t : ChangeThread) : ChangeThread :=
  Change (ch_base t) (ch_source t) (ch_functionId t) (ch_eventName t) (ch_threshold t) (ch_rearmSamples t) (ch_mask t)
    prev have armed stable.

(** [begin] and [onStart]; a thread is modelled once [begin] has given it the
    registry. *)
Definition ch_configure (t : ChangeThread) : ChangeThread :=
  ch_set_source (try_configure (ch_functionId t) [] [] (ch_source t)) t.
Definition ch_start (t : ChangeThread) : ChangeThread :=
  ch_configure (ch_set_detector (ch_previous t) false true 0 t).

(** One sample: the detector's new state and whether it fires. *)
Definition detect (current : Z) (t : ChangeThread) : bool * ChangeThread :=
  if negb (ch_havePrevious t) then (false, ch_set_detector current true (ch_armed t) (ch_stable t) t)
  else
  let delta := i32 (if ch_previous t <? current then current - ch_previous t else ch_previous t - current) in
  if negb (ch_armed t) then
    let quarter := Z.quot (ch_threshold t) 4 in
    let margin := if 5 <? quarter then quarter else 5 in
    let stable := if delta <=? margin then (ch_stable t + 1) mod 256 else 0 in
    (false, if ch_rearmSamples t <=? stable then ch_set_detector current true true 0 t
            else ch_set_detector current true false stable t)
  else if delta <? ch_threshold t then (false, ch_set_detector current true true (ch_stable t) t)
  else (true, ch_set_detector current true false 0 t).

(** The sample a step obtains from its source: an error event, nothing, or a
    value. *)
Section sample.
Context {S : Type} (natives : NativeRegistry (S := S)) (name_of : S -> bytes).
Context (source_of : S -> NoobProgramChannel) (put_source : NoobProgramChannel -> S -> S).

(** The record, before its primary value is looked at. *)
Definition sample_record : st S (bytes + option NoobRecord) :=
  invoke natives source_of put_source 0 false ;;
  c ← gets source_of;
  if negb (lastOk_ c) then nm ← gets name_of; mret (inl (error_text nm c))
  else match pop (results_ c) with
       | None => mret (inr None)
       | Some (rec, q) => upd_channel source_of put_source (set_results q) ;; mret (inr (Some rec))
       end.

Definition sample : st S (bytes + option Z) :=
  r ← sample_record;
  mret (match r with inl e => inl e | inr None => inr None | inr (Some rec) => inr (primary rec) end).
End sample.

Section change.
Context {S : Type} `{EspSequence.HasSequence S} `{!HasEpoch S} (natives : NativeRegistry (S := S)).
Context (change_of : S -> ChangeThread) (put_change : ChangeThread -> S -> S).

Definition upd_change (f : ChangeThread -> ChangeThread) : st S unit := modify (fun s => put_change (f (change_of s)) s).

Definition ch_thread_of (s : S) : NoobThread := ch_base (change_of s).
Definition ch_put_thread (b : NoobThread) (s : S) : S := put_change (ch_set_base b (change_of s)) s.

Definition change_call (arguments : list Z) : st S NativeResult :=
  let count := length arguments in
  if (2 <? count)%nat || (negb (count =? 0)%nat && (nth 0 arguments 0 <? 1))
     || ((1 <? count)%nat && (nth 1 arguments 0 <? 50))
  then mret (failure (str "usage: [change_delta] [interval_ms>=50]"))
  else
  (if (count =? 0)%nat then mret tt else upd_change (ch_set_threshold (nth 0 arguments 0))) ;;
  (if (1 <? count)%nat then upd_thread ch_thread_of ch_put_thread (set_interval (nth 1 arguments 0)) else mret tt) ;;
  r ← thread_call ch_thread_of ch_put_thread (upd_change ch_start) [];
  threshold ← gets (fun s => ch_threshold (change_of s));
  mret (Result (ok r) (value r) (detail r ++ str " change_delta=" ++ print_int threshold) (record r)).

Definition ch_source_of (s : S) : NoobProgramChannel := ch_source (change_of s).
Definition ch_put_source (c : NoobProgramChannel) (s : S) : S := put_change (ch_set_source c (change_of s)) s.

Definition change_step : st S (option bytes) :=
  paused ← gets (fun s => Z.land (EspSequence.busyMask (EspSequence.seq_of s)) (ch_mask (change_of s)));
  if negb (paused =? 0) then
    upd_change (fun t => ch_set_detector (ch_previous t) false (ch_armed t) (ch_stable t) t) ;; mret None
  else
  r ← sample natives (fun s => ch_eventName (change_of s)) ch_source_of ch_put_source;
  match r with
  | inl event => mret (Some event)
  | inr None => mret None
  | inr (Some current) =>
      d ← gets (fun s => detect current (change_of s));
      upd_change (fun _ => d.2) ;;
      if negb d.1 then mret None
      else
      detectedAt ← milliseconds;
      upd_thread ch_thread_of ch_put_thread (publish_value (i32 detectedAt)) ;;
      nm ← gets (fun s => ch_eventName (change_of s));
      mret (Some (event_prefix nm ++ str " time_ms=" ++ print_nat detectedAt))
  end.

Definition change_tick : st S (option bytes) := thread_tick ch_thread_of ch_put_thread change_step.
End change.

(** ** The window-rise thread *)

Definition BUCKET_COUNT : nat := 10.
Definition HALF_BUCKETS : nat := 5.

Record WindowThread := Window {
  w_base : NoobThread; w_source : NoobProgramChannel; w_functionId : Z; w_eventName : bytes;
  w_bucketDuration : Z; w_ratio : Z; w_minimum : Z; w_rearmBuckets : Z;
  w_buckets : list Z; w_writeIndex : nat; w_filled : nat; w_sum : Z; w_samples : Z; w_startedAt : Z;
  w_older : Z; w_newer : Z; w_armed : bool; w_stable : Z }.

Definition new_window (functionId : Z) (eventName : bytes) (interval duration ratio minimum rearm : Z) : WindowThread :=
  Window (new_thread interval) new_channel functionId eventName duration ratio minimum rearm
    (repeat 0 BUCKET_COUNT) 0 0 0 0 0 0 0 true 0.

Definition w_set_base (b : NoobThread) (t : WindowThread) : WindowThread :=
  Window b (w_source t) (w_functionId t) (w_eventName t) (w_bucketDuration t) (w_ratio t) (w_minimum t)
    (w_rearmBuckets t) (w_buckets t) (w_writeIndex t) (w_filled t) (w_sum t) (w_samples t) (w_startedAt t)
    (w_older t) (w_newer t) (w_armed t) (w_stable t).
Definition w_set_source (c : NoobProgramChannel) (t : WindowThread) : WindowThread :=
  Window (w_base t) c (w_functionId t) (w_eventName t) (w_bucketDuration t) (w_ratio t) (w_minimum t)
    (w_rearmBuckets t) (w_buckets t) (w_writeIndex t) (w_filled t) (w_sum t) (w_samples t) (w_startedAt t)
    (w_older t) (w_newer t) (w_armed t) (w_stable t).
Definition w_set_limits (ratio minimum : Z) (t : WindowThread) : WindowThread :=
  Window (w_base t) (w_source t) (w_functionId t) (w_eventName t) (w_bucketDuration t) ratio minimum
    (w_rearmBuckets t) (w_buckets t) (w_writeIndex t) (w_filled t) (w_sum t) (w_samples t) (w_startedAt t)
    (w_older t) (w_newer t) (w_armed t) (w_stable t).
Definition w_set_window (buckets : list Z) (index filled : nat) (older newer : Z) (t : WindowThread) : WindowThread :=
  Window (w_base t) (w_source t) (w_functionId t) (w_eventName t) (w_bucketDuration t) (w_ratio t) (w_minimum t)
    (w_rearmBuckets t) buckets index filled (w_sum t) (w_samples t) (w_startedAt t) older newer (w_armed t) (w_stable t).
Definition w_set_bucket (sum samples startedAt : Z) (t : WindowThread) : WindowThread :=
  Window (w_base t) (w_source t) (w_functionId t) (w_eventName t) (w_bucketDuration t) (w_ratio t) (w_minimum t)
    (w_rearmBuckets t) (w_buckets t) (w_writeIndex t) (w_filled t) sum samples startedAt
    (w_older t) (w_newer t) (w_armed t) (w_stable t).
Definition w_set_alarm (armed : bool) (stable : Z) (t : WindowThread) : WindowThread :=
  Window (w_base t) (w_source t) (w_functionId t) (w_eventName t) (w_bucketDuration t) (w_ratio t) (w_minimum t)
    (w_rearmBuckets t) (w_buckets t) (w_writeIndex t) (w_filled t) (w_sum t) (w_samples t) (w_startedAt t)
    (w_older t) (w_newer t) armed stable.

Definition w_configure (t : WindowThread) : WindowThread :=
  w_set_source (try_configure (w_functionId t) [] [] (w_source t)) t.
Definition w_start (now : Z) (t : WindowThread) : WindowThread :=
  w_configure (w_set_alarm true 0 (w_set_bucket 0 0 now (w_set_window (repeat 0 BUCKET_COUNT) 0 0 0 0 t))).

Definition bucket_at (buckets : list Z) (k : nat) : Z := nth (k mod BUCKET_COUNT) buckets 0.

(** A sum of half the ring, in 32 bits. *)
Definition half_sum (buckets : list Z) (first : nat) : Z :=
  fold_left (fun acc k => i32 (acc + bucket_at buckets (first + k))) (seq 0 HALF_BUCKETS) 0.

Definition rounded_mean (sum : Z) : Z := Z.quot (i32 (sum + 2)) 5.

Definition updateMeans (t : WindowThread) : WindowThread :=
  if (w_filled t <? BUCKET_COUNT)%nat then w_set_window (w_buckets t) (w_writeIndex t) (w_filled t) 0 0 t
  else w_set_window (w_buckets t) (w_writeIndex t) (w_filled t)
         (rounded_mean (half_sum (w_buckets t) (w_writeIndex t)))
         (rounded_mean (half_sum (w_buckets t) (w_writeIndex t + HALF_BUCKETS))) t.

Definition finishBucket (average : Z) (t : WindowThread) : WindowThread :=
  updateMeans (w_set_window (<[w_writeIndex t := average]> (w_buckets t)) ((w_writeIndex t + 1) mod BUCKET_COUNT)
                 (if (w_filled t <? BUCKET_COUNT)%nat then w_filled t + 1 else w_filled t) (w_older t) (w_newer t) t).

Definition rose (t : WindowThread) : bool :=
  (w_minimum t <=? w_newer t) && (w_older t * w_ratio t <=? w_newer t * 100).

(** The alarm after a finished bucket of a full window. *)
Definition window_alarm (t : WindowThread) : bool * WindowThread :=
  if negb (w_armed t) then
    let stable := if rose t then 0 else (w_stable t + 1) mod 256 in
    (false, if w_rearmBuckets t <=? stable then w_set_alarm true 0 t else w_set_alarm false stable t)
  else if negb (rose t) then (false, t)
  else (true, w_set_alarm false 0 t).

(** One level at time [now]. *)
Definition window_level (level now : Z) (t : WindowThread) : bool * WindowThread :=
  let t := w_set_bucket (w_sum t + level) ((w_samples t + 1) mod 65536) (w_startedAt t) t in
  if u32 (now - w_startedAt t) <? w_bucketDuration t then (false, t)
  else
  let average := if w_samples t =? 0 then 0 else i32 (Z.quot (w_sum t + Z.quot (w_samples t) 2) (w_samples t)) in
  let t := finishBucket average (w_set_bucket 0 0 now t) in
  if (w_filled t <? BUCKET_COUNT)%nat then (false, t) else window_alarm t.

Definition window_status (t : WindowThread) : bytes :=
  str " buckets=" ++ print_nat (Z.of_nat (w_filled t)) ++ str "/" ++ print_nat (Z.of_nat BUCKET_COUNT)
  ++ str " older=" ++ print_int (w_older t) ++ str " newer=" ++ print_int (w_newer t)
  ++ str " ratio_percent=" ++ print_nat (w_ratio t) ++ str " minimum_level=" ++ print_int (w_minimum t)
  ++ str " armed=" ++ flag_text (w_armed t).

Section window.
Context {S : Type} `{HasClock S} `{!HasEpoch S} (natives : NativeRegistry (S := S)).
Context (window_of : S -> WindowThread) (put_window : WindowThread -> S -> S).

Definition upd_window (f : WindowThread -> WindowThread) : st S unit := modify (fun s => put_window (f (window_of s)) s).
Definition w_thread_of (s : S) : NoobThread := w_base (window_of s).
Definition w_put_thread (b : NoobThread) (s : S) : S := put_window (w_set_base b (window_of s)) s.
Definition w_source_of (s : S) : NoobProgramChannel := w_source (window_of s).
Definition w_put_source (c : NoobProgramChannel) (s : S) : S := put_window (w_set_source c (window_of s)) s.

Definition window_call (arguments : list Z) : st S NativeResult :=
  let count := length arguments in
  let ratio := nth 0 arguments 0 in
  if (2 <? count)%nat || (negb (count =? 0)%nat && ((ratio <? 101) || (10000 <? ratio)))
     || ((1 <? count)%nat && (nth 1 arguments 0 <? 0))
  then mret (failure (str "usage: [ratio_percent(101..10000)] [minimum_level>=0]"))
  else
  upd_window (fun t => w_set_limits (if (count =? 0)%nat then w_ratio t else ratio)
                         (if (1 <? count)%nat then nth 1 arguments 0 else w_minimum t) t) ;;
  r ← thread_call w_thread_of w_put_thread (now ← millis; upd_window (w_start now)) [];
  t ← gets window_of;
  mret (Result (ok r) (value r)
          (detail r ++ str " ratio_percent=" ++ print_nat (w_ratio t) ++ str " minimum_level=" ++ print_int (w_minimum t))
          (record r)).

Definition window_step : st S (option bytes) :=
  r ← sample natives (fun s => w_eventName (window_of s)) w_source_of w_put_source;
  match r with
  | inl event => mret (Some event)
  | inr None => mret None
  | inr (Some level) =>
      now ← millis;
      d ← gets (fun s => window_level level now (window_of s));
      upd_window (fun _ => d.2) ;;
      if negb d.1 then mret None
      else
      detectedAt ← milliseconds;
      upd_thread w_thread_of w_put_thread (publish_value (i32 detectedAt)) ;;
      t ← gets window_of;
      mret (Some (event_prefix (w_eventName t) ++ str " time_ms=" ++ print_nat detectedAt ++ str " older="
                  ++ print_int (w_older t) ++ str " newer=" ++ print_int (w_newer t)))
  end.

Definition window_tick : st S (option bytes) := thread_tick w_thread_of w_put_thread window_step.
End window.

(** ** The sampling thread *)

Definition MAX_SOURCE_ARGUMENTS : nat := 4.

Record SamplingThread := Sampling {
  sm_base : NoobThread; sm_source : NoobProgramChannel; sm_functionId : Z; sm_eventName : bytes;
  sm_duration : Z; sm_startedAt : Z; sm_arguments : list Z; sm_ascii : bytes }.

Definition new_sampling (functionId : Z) (eventName : bytes) (interval duration : Z) (arguments : list Z)
    (ascii : bytes) : SamplingThread :=
  Sampling (new_thread interval) new_channel functionId eventName duration 0
    (if (MAX_SOURCE_ARGUMENTS <? length arguments)%nat then [] else arguments) ascii.

Definition sm_set_base (b : NoobThread) (t : SamplingThread) : SamplingThread :=
  Sampling b (sm_source t) (sm_functionId t) (sm_eventName t) (sm_duration t) (sm_startedAt t) (sm_arguments t) (sm_ascii t).
Definition sm_set_source (c : NoobProgramChannel) (t : SamplingThread) : SamplingThread :=
  Sampling (sm_base t) c (sm_functionId t) (sm_eventName t) (sm_duration t) (sm_startedAt t) (sm_arguments t) (sm_ascii t).
Definition sm_set_duration (d : Z) (t : SamplingThread) : SamplingThread :=
  Sampling (sm_base t) (sm_source t) (sm_functionId t) (sm_eventName t) d (sm_startedAt t) (sm_arguments t) (sm_ascii t).
Definition sm_set_ascii (a : bytes) (t : SamplingThread) : SamplingThread :=
  Sampling (sm_base t) (sm_source t) (sm_functionId t) (sm_eventName t) (sm_duration t) (sm_startedAt t) (sm_arguments t) a.
Definition sm_configure (t : SamplingThread) : SamplingThread :=
  sm_set_source (try_configure (sm_functionId t) (sm_arguments t) (sm_ascii t) (sm_source t)) t.
Definition sm_start (now : Z) (t : SamplingThread) : SamplingThread :=
  sm_configure (Sampling (sm_base t) (sm_source t) (sm_functionId t) (sm_eventName t) (sm_duration t) now (sm_arguments t) (sm_ascii t)).

(** Both entry points check the same ranges. *)
Definition sampling_refused (arguments : list Z) : bool :=
  let count := length arguments in
  let duration := nth 0 arguments 0 in
  let interval := nth 1 arguments 0 in
  (2 <? count)%nat || (negb (count =? 0)%nat && ((duration <? 0) || (3600000 <? duration)))
  || ((1 <? count)%nat && ((interval <? 50) || (60000 <? interval))).

Section sampling.
Context {S : Type} `{HasClock S} (natives : NativeRegistry (S := S)).
Context (sampling_of : S -> SamplingThread) (put_sampling : SamplingThread -> S -> S).

Definition upd_sampling (f : SamplingThread -> SamplingThread) : st S unit :=
  modify (fun s => put_sampling (f (sampling_of s)) s).
Definition sm_thread_of (s : S) : NoobThread := sm_base (sampling_of s).
Definition sm_put_thread (b : NoobThread) (s : S) : S := put_sampling (sm_set_base b (sampling_of s)) s.
Definition sm_source_of (s : S) : NoobProgramChannel := sm_source (sampling_of s).
Definition sm_put_source (c : NoobProgramChannel) (s : S) : S := put_sampling (sm_set_source c (sampling_of s)) s.

Definition sampling_call (arguments : list Z) : st S NativeResult :=
  if sampling_refused arguments
  then mret (failure (str "usage: [duration_ms(0..3600000)] [interval_ms(50..60000)]"))
  else
  (match arguments with d :: _ => upd_sampling (sm_set_duration d) | [] => mret tt end) ;;
  (match arguments with
   | _ :: i :: _ => upd_thread sm_thread_of sm_put_thread (set_interval i)
   | _ => mret tt
   end) ;;
  r ← thread_call sm_thread_of sm_put_thread (now ← millis; upd_sampling (sm_start now)) [];
  d ← gets (fun s => sm_duration (sampling_of s));
  mret (Result (ok r) (value r) (detail r ++ str " duration_ms=" ++ print_nat d) (record r)).

Definition sampling_callMixed (arguments : list Z) (ascii : bytes) : st S NativeResult :=
  if sampling_refused arguments then mret (failure (str "invalid thread duration/interval"))
  else
  t ← gets sampling_of;
  match configure (sm_functionId t) (sm_arguments t) ascii (sm_source t) with
  | None => mret (failure (str "invalid source ASCII"))
  | Some c => upd_sampling (fun t => sm_set_ascii ascii (sm_set_source c t)) ;; sampling_call arguments
  end.

Definition sampling_step : st S (option bytes) :=
  t ← gets sampling_of;
  over ← (if sm_duration t =? 0 then mret false
          else now ← millis; mret (sm_duration t <=? u32 (now - sm_startedAt t)));
  if over : bool then
    thread_stop sm_thread_of sm_put_thread (mret tt) ;; mret (Some (event_prefix (sm_eventName t) ++ str "_COMPLETE"))
  else
  r ← sample_record natives (fun s => sm_eventName (sampling_of s)) sm_source_of sm_put_source;
  match r with
  | inl event => mret (Some event)
  | inr None => mret None
  | inr (Some rec) => upd_thread sm_thread_of sm_put_thread (publish rec) ;; mret None
  end.

Definition sampling_status : st S bytes :=
  now ← millis;
  t ← gets sampling_of;
  let elapsed := u32 (now - sm_startedAt t) in
  let remaining := if (sm_duration t =? 0) || (sm_duration t <=? elapsed) then 0 else sm_duration t - elapsed in
  mret (str " duration_ms=" ++ print_nat (sm_duration t) ++ str " remaining_ms=" ++ print_nat remaining).

Definition sampling_tick : st S (option bytes) := thread_tick sm_thread_of sm_put_thread sampling_step.
End sampling.
End EspThreads.
