(* ===== verification/EspThreadsFacts.v ===== *)
(** * What the detecting threads detect

    The change thread does not repeat an event before its input has been steady,
    and the ring of the window thread holds the ten newest bucket averages. *)
From S2P Require Import Prelude CLib EspRecord EspRegistry EspVm EspProgram EspSequence EspThreads.

Open Scope Z_scope.

Module EspThreadsFacts.
Import EspRegistry EspThreads.

(** ** The change thread *)

(** The events of a run of samples. *)
Fixpoint detect_run (samples : list Z) (t : ChangeThread) : list bool * ChangeThread :=
  match samples with
  | [] => ([], t)
  | x :: samples' =>
      let '(fired, t) := detect x t in
      let '(events, t) := detect_run samples' t in (fired :: events, t)
  end.

Definition margin (t : ChangeThread) : Z := Z.max 5 (Z.quot (ch_threshold t) 4).

(** How far sample [m] is from the one before it, [p] being before the first. *)
Definition change_at (p : Z) (samples : list Z) (m : nat) : Z := Z.abs (nth m samples 0 - nth m (p :: samples) 0).

(** [n] samples from [k] on stay within [bound] of their predecessors. *)
Definition steady (bound p : Z) (samples : list Z) (k n : nat) : Prop :=
  forall m, (k <= m < k + n)%nat -> change_at p samples m <= bound.

Definition level_ok (x : Z) : Prop := 0 <= x <= INT_MAX.

Lemma delta_abs p x :
  level_ok p -> level_ok x -> i32 (if p <? x then x - p else p - x) = Z.abs (x - p).
Proof.
  unfold level_ok. intros Hp Hx. rewrite i32_id; destruct (Z.ltb_spec p x); unfold int32, INT_MIN, INT_MAX in *; lia.
Qed.

Lemma detect_settings x t :
  let t' := (detect x t).2 in ch_threshold t' = ch_threshold t /\ ch_rearmSamples t' = ch_rearmSamples t.
Proof. unfold detect. by repeat case_match. Qed.

(** One sample of a detector that waits to be rearmed. *)
Lemma detect_waiting x t :
  ch_havePrevious t = true -> ch_armed t = false -> level_ok (ch_previous t) -> level_ok x ->
  0 <= ch_stable t < ch_rearmSamples t -> ch_rearmSamples t <= 255 ->
  let steady_now := Z.abs (x - ch_previous t) <=? margin t in
  let stable := if steady_now then ch_stable t + 1 else 0 in
  detect x t = (false, if ch_rearmSamples t <=? stable then ch_set_detector x true true 0 t
                       else ch_set_detector x true false stable t).
Proof.
  intros Hh Ha Hp Hx Hs Hr. unfold detect. rewrite Hh, Ha, delta_abs by done. cbn [negb].
  replace (if 5 <? Z.quot (ch_threshold t) 4 then Z.quot (ch_threshold t) 4 else 5) with (margin t)
    by (unfold margin; destruct (Z.ltb_spec 5 (Z.quot (ch_threshold t) 4)); lia).
  destruct (_ <=? margin t); [|done]. by rewrite Z.mod_small by lia.
Qed.

Lemma steady_shift bound p x samples k n : steady bound x samples k n -> steady bound p (x :: samples) (S k) n.
Proof. intros Hs m Hm. destruct m as [|m]; [lia|]. apply (Hs m). lia. Qed.

(** A waiting detector fires again only after a steady stretch. *)
Lemma waiting_needs_steady samples t j :
  Forall level_ok samples -> level_ok (ch_previous t) -> ch_havePrevious t = true -> ch_armed t = false ->
  0 <= ch_stable t < ch_rearmSamples t -> ch_rearmSamples t <= 255 ->
  (detect_run samples t).1 !! j = Some true ->
  let n := Z.to_nat (ch_rearmSamples t) in
  let missing := (n - Z.to_nat (ch_stable t))%nat in
  (exists k, (k + n <= j)%nat /\ steady (margin t) (ch_previous t) samples k n)
  \/ ((missing <= j)%nat /\ steady (margin t) (ch_previous t) samples 0 missing).
Proof.
  revert t j. induction samples as [|x samples IH]; intros t j Hl Hp Hh Ha Hs Hr Hj n missing; [done|].
  inversion Hl as [|? ? Hx Hl']; subst. cbn [detect_run] in Hj.
  rewrite detect_waiting in Hj by done.
  assert (H0 : steady (margin t) (ch_previous t) (x :: samples) 0 1 <-> Z.abs (x - ch_previous t) <= margin t).
  { split; [intros H0; by apply (H0 0%nat); lia|]. intros H0 m Hm. by replace m with 0%nat by lia. }
  destruct (Z.leb_spec (Z.abs (x - ch_previous t)) (margin t)) as [Hst|Hst];
    [destruct (Z.leb_spec (ch_rearmSamples t) (ch_stable t + 1)) as [Hre|Hre]
    |rewrite (proj2 (Z.leb_gt _ _)) in Hj by lia].
  - right. assert (missing = 1%nat) as E by (unfold missing, n; lia). rewrite E. split; [|by apply H0].
    destruct j; [|lia]. by destruct (detect_run _ _).
  - destruct (detect_run samples (ch_set_detector x true false (ch_stable t + 1) t)) as [events t'] eqn:Er.
    destruct j as [|j]; [done|]. cbn in Hj.
    destruct (IH (ch_set_detector x true false (ch_stable t + 1) t) j) as [(k & Hk & Hk')|[Hm Hm']]; cbn; try done; try lia.
    { by rewrite Er. }
    + left. exists (S k). split; [cbn in Hk; fold n in Hk; lia|]. by apply steady_shift.
    + right. cbn in Hm, Hm'. fold n in Hm, Hm'. split; [unfold missing; lia|]. intros [|m] Hmm; [by apply H0; [done|lia]|].
      apply (Hm' m). unfold missing in Hmm. lia.
  - destruct (detect_run samples (ch_set_detector x true false 0 t)) as [events t'] eqn:Er.
    destruct j as [|j]; [done|]. cbn in Hj.
    destruct (IH (ch_set_detector x true false 0 t) j) as [(k & Hk & Hk')|[Hm Hm']]; cbn; try done; try lia.
    { by rewrite Er. }
    + left. exists (S k). split; [cbn in Hk; fold n in Hk; lia|]. by apply steady_shift.
    + left. exists 1%nat. cbn in Hm, Hm'. fold n in Hm, Hm'. split; [lia|]. apply steady_shift. by rewrite Nat.sub_0_r in Hm'.
Qed.

Lemma detect_previous x t : ch_previous (detect x t).2 = x.
Proof. unfold detect. by repeat case_match. Qed.

Lemma detect_fired x t :
  (detect x t).1 = true ->
  let t' := (detect x t).2 in ch_havePrevious t' = true /\ ch_armed t' = false /\ ch_stable t' = 0.
Proof. unfold detect. by repeat case_match. Qed.

(** A change thread does not chatter: between two of its events, the sampled
    value has been steady for [rearmSamples] samples in a row (each within a
    quarter of the threshold, at least 5, of the one before), whatever the
    samples are. *)
Theorem change_thread_hysteresis samples t i j :
  Forall level_ok samples -> level_ok (ch_previous t) -> 1 <= ch_rearmSamples t <= 255 -> (i < j)%nat ->
  (detect_run samples t).1 !! i = Some true -> (detect_run samples t).1 !! j = Some true ->
  exists k, (i < k)%nat /\ (k + Z.to_nat (ch_rearmSamples t) <= j)%nat
    /\ steady (margin t) (ch_previous t) samples k (Z.to_nat (ch_rearmSamples t)).
Proof.
  revert t i j. induction samples as [|x samples IH]; intros t i j Hl Hp Hr Hij Hi Hj; [done|].
  inversion Hl as [|? ? Hx Hl']; subst. destruct (detect_settings x t) as [Et Er].
  pose proof (detect_previous x t) as Ep. pose proof (detect_fired x t) as Ef.
  cbn [detect_run] in Hi, Hj. destruct (detect x t) as [fired t']. cbn [fst snd] in *.
  destruct (detect_run samples t') as [events t''] eqn:Ed.
  assert (Em : margin t' = margin t) by (unfold margin; by rewrite Et).
  assert (Ev : events = (detect_run samples t').1) by (by rewrite Ed).
  destruct j as [|j]; [lia|]. destruct i as [|i].
  - cbn in Hi, Hj. injection Hi as ->. destruct (Ef eq_refl) as (Hh & Ha & Hs). rewrite Ev in Hj.
    destruct (waiting_needs_steady samples t' j Hl') as [(k & Hk & Hk')|[Hm Hm']];
      rewrite ?Ep, ?Hs, ?Er in *; try done; try lia.
    + exists (S k). rewrite Em in Hk'. split_and!; [lia|lia|]. by apply steady_shift.
    + exists 1%nat. rewrite Em in Hm'. cbn in Hm, Hm'. rewrite Nat.sub_0_r in *. split_and!; [lia|lia|]. by apply steady_shift.
  - cbn in Hi, Hj. rewrite Ev in Hi, Hj.
    destruct (IH t' i j Hl') as (k & K1 & K2 & K3); rewrite ?Ep, ?Er; try done; [lia|].
    rewrite Ep, Er, Em in *. exists (S k). split_and!; [lia|lia|]. by apply steady_shift.
Qed.

Definition light_samples : list Z := [100; 200; 195; 300; 302; 301; 180].

Lemma change_thread_hysteresis_witness :
  (detect_run light_samples (new_change 7 (str "LIGHT") 50 40 2 0)).1 = [false; true; false; false; false; false; true]
  /\ exists k, (1 < k)%nat /\ (k + 2 <= 6)%nat /\ steady 10 0 light_samples k 2.
Proof.
  split; [reflexivity|].
  apply (change_thread_hysteresis light_samples (new_change 7 (str "LIGHT") 50 40 2 0) 1 6); try done; try lia.
  repeat constructor; unfold INT_MAX; lia.
Defined.

(** ** The window-rise thread *)

(** The ring after the given bucket averages. *)
Definition after_buckets (t : WindowThread) (averages : list Z) : WindowThread :=
  fold_left (fun t a => finishBucket a t) averages t.

(** Every recent average is where the ring expects it. *)
Definition ring_holds (averages : list Z) (t : WindowThread) : Prop :=
  let n := length averages in
  length (w_buckets t) = BUCKET_COUNT /\ w_writeIndex t = (n mod BUCKET_COUNT)%nat /\ w_filled t = Nat.min BUCKET_COUNT n
  /\ (forall m, (n - Nat.min BUCKET_COUNT n <= m < n)%nat -> nth (m mod BUCKET_COUNT) (w_buckets t) 0 = nth m averages 0).

Lemma finish_fields a t :
  let t' := finishBucket a t in
  w_buckets t' = <[w_writeIndex t := a]> (w_buckets t) /\ w_writeIndex t' = ((w_writeIndex t + 1) mod BUCKET_COUNT)%nat
  /\ w_filled t' = (if (w_filled t <? BUCKET_COUNT)%nat then w_filled t + 1 else w_filled t)%nat.
Proof. unfold finishBucket, updateMeans. by destruct (_ <? _)%nat. Qed.

Lemma ring_snoc averages a t : ring_holds averages t -> ring_holds (averages ++ [a]) (finishBucket a t).
Proof.
  intros (H1 & H2 & H3 & H4). destruct (finish_fields a t) as (F1 & F2 & F3). unfold ring_holds.
  rewrite F1, F2, F3, H2, H3, length_app. cbn [length]. set (n := length averages) in *. split_and!.
  - by rewrite length_insert.
  - by rewrite Nat.Div0.add_mod_idemp_l.
  - unfold BUCKET_COUNT. destruct (Nat.ltb_spec (Nat.min 10 n) 10); lia.
  - intros m Hm. unfold BUCKET_COUNT in *. destruct (decide (m = n)) as [->|Hne].
    + rewrite app_nth2, Nat.sub_diag by lia.
      apply nth_lookup_Some, list_lookup_insert_eq. rewrite H1. by apply Nat.mod_upper_bound.
    + rewrite app_nth1 by lia. rewrite <- H4 by lia. rewrite !nth_lookup.
      rewrite list_lookup_insert_ne; [done|]. pose proof (Nat.div_mod_eq m 10). pose proof (Nat.div_mod_eq n 10). lia.
Qed.

Lemma ring_start t : w_buckets t = repeat 0 BUCKET_COUNT -> w_writeIndex t = 0%nat -> w_filled t = 0%nat -> ring_holds [] t.
Proof. intros H1 H2 H3. unfold ring_holds. rewrite H1, H2, H3. cbn. split_and!; try done. lia. Qed.

Lemma ring_after averages t : ring_holds [] t -> ring_holds averages (after_buckets t averages).
Proof.
  intros H0. unfold after_buckets. induction averages as [|a averages IH] using rev_ind; [done|].
  rewrite fold_left_app. cbn. by apply ring_snoc.
Qed.

Definition sum (l : list Z) : Z := foldr Z.add 0 l.

(** The ten newest averages, oldest first. *)
Definition recent (averages : list Z) : list Z := lastn BUCKET_COUNT averages.

Lemma ring_recent averages t k :
  ring_holds averages t -> (BUCKET_COUNT <= length averages)%nat -> (k < BUCKET_COUNT)%nat ->
  bucket_at (w_buckets t) (w_writeIndex t + k) = nth k (recent averages) 0.
Proof.
  intros (H1 & H2 & H3 & H4) Hn Hk. unfold bucket_at, recent, lastn. change (@drop Z) with (@skipn Z). rewrite nth_skipn, H2.
  rewrite <- H4 by (unfold BUCKET_COUNT in *; lia). f_equal. unfold BUCKET_COUNT in *.
  rewrite Nat.Div0.add_mod_idemp_l. replace (length averages + k)%nat with (length averages - 10 + k + 1 * 10)%nat by lia.
  apply Nat.Div0.mod_add.
Qed.

Definition average_ok (a : Z) : Prop := - 2 ^ 28 <= a <= 2 ^ 28.

Lemma half_sum_value buckets first a0 a1 a2 a3 a4 :
  Forall average_ok [a0; a1; a2; a3; a4] ->
  map (fun k => bucket_at buckets (first + k)) (seq 0 HALF_BUCKETS) = [a0; a1; a2; a3; a4] ->
  rounded_mean (half_sum buckets first) = Z.quot (sum [a0; a1; a2; a3; a4] + 2) 5.
Proof.
  rewrite !Forall_cons. intros (B0 & B1 & B2 & B3 & B4 & _) [= <- <- <- <- <-].
  unfold average_ok in *. unfold rounded_mean, half_sum, HALF_BUCKETS. cbn [seq fold_left].
  change (2 ^ 28) with 268435456 in *.
  repeat match goal with |- context [i32 ?x] =>
    lazymatch x with context [i32 _] => fail | _ => rewrite (i32_id x) by (unfold int32, INT_MIN, INT_MAX; lia) end end.
  f_equal. cbn [sum foldr]. lia.
Qed.

(** The means of the window thread are those of the newest buckets: after any
    number of finished buckets, once ten have been seen, the older mean is the
    rounded mean of the first five of the ten newest averages and the newer mean
    of the last five; before that both are zero and no alarm is considered. *)
Theorem window_means_correct averages t :
  w_buckets t = repeat 0 BUCKET_COUNT -> w_writeIndex t = 0%nat -> w_filled t = 0%nat ->
  Forall average_ok averages -> averages <> [] ->
  let t' := after_buckets t averages in
  if (length averages <? BUCKET_COUNT)%nat
  then w_older t' = 0 /\ w_newer t' = 0 /\ w_filled t' = length averages
  else w_older t' = Z.quot (sum (take HALF_BUCKETS (recent averages)) + 2) 5
       /\ w_newer t' = Z.quot (sum (drop HALF_BUCKETS (recent averages)) + 2) 5
       /\ w_filled t' = BUCKET_COUNT.
Proof.
  intros H1 H2 H3 Hok Hne t'. pose proof (ring_after averages t (ring_start t H1 H2 H3)) as Hr. fold t' in Hr.
  pose proof Hr as (_ & _ & Hf & _).
  assert (Hlast : exists u, t' = updateMeans u).
  { subst t'. destruct averages as [|a averages _] using rev_ind; [done|]. unfold after_buckets. rewrite fold_left_app. cbn.
    unfold finishBucket. eauto. }
  destruct Hlast as [u Eu]. assert (Ew : w_buckets t' = w_buckets u /\ w_writeIndex t' = w_writeIndex u /\ w_filled t' = w_filled u)
    by (rewrite Eu; unfold updateMeans; by destruct (_ <? _)%nat). destruct Ew as (Eb & Ei & Efl).
  destruct (Nat.ltb_spec (length averages) BUCKET_COUNT) as [Hlt|Hge].
  - rewrite Nat.min_r in Hf by lia. split_and!; [| |done];
      rewrite Eu; unfold updateMeans; rewrite <- Efl, Hf; by rewrite (proj2 (Nat.ltb_lt _ _) Hlt).
  - rewrite Nat.min_l in Hf by lia.
    assert (Hrec : length (recent averages) = BUCKET_COUNT) by (unfold recent, lastn; rewrite length_drop; lia).
    assert (Hrok : Forall average_ok (recent averages)) by (by apply Forall_drop).
    assert (Hat : forall k, (k < BUCKET_COUNT)%nat -> bucket_at (w_buckets u) (w_writeIndex u + k) = nth k (recent averages) 0)
      by (intros k Hk; rewrite <- Eb, <- Ei; by apply ring_recent).
    destruct (recent averages) as [|a0 [|a1 [|a2 [|a3 [|a4 [|a5 [|a6 [|a7 [|a8 [|a9 [|]]]]]]]]]]]; try done.
    apply (Forall_app _ [a0; a1; a2; a3; a4] [a5; a6; a7; a8; a9]) in Hrok as [Hr1 Hr2].
    rewrite Eu. unfold updateMeans. rewrite <- Efl, Hf. cbn [Nat.ltb Nat.leb BUCKET_COUNT w_set_window w_older w_newer w_filled].
    split_and!; [| |done]; cbn [take drop HALF_BUCKETS]; apply half_sum_value; try done.
    + cbn [seq map HALF_BUCKETS]. by rewrite !Hat by (unfold BUCKET_COUNT; lia).
    + cbn [seq map HALF_BUCKETS]. rewrite <- !Nat.add_assoc. by rewrite !Hat by (unfold BUCKET_COUNT, HALF_BUCKETS; lia).
Qed.

Lemma window_means_correct_witness :
  let t := after_buckets (new_window 9 (str "NOISE") 10 100 150 20 3) [9; 1; 2; 3; 4; 5; 10; 20; 30; 40; 52] in
  w_older t = 3 /\ w_newer t = 30 /\ w_filled t = 10%nat.
Proof.
  apply (window_means_correct [9; 1; 2; 3; 4; 5; 10; 20; 30; 40; 52] (new_window 9 (str "NOISE") 10 100 150 20 3)); try done.
  repeat (apply Forall_cons; split; [split; vm_compute; discriminate|]). by apply Forall_nil.
Defined.
End EspThreadsFacts.
