(* ===== verification/EspRuntime.v ===== *)
(** * The runtime of a noob: esp/common/src/core/noob_runtime_core.cpp

    The native functions every noob has, the boot self test
    (noob_self_test.cpp), the line transport (noob_stream_transport.cpp) and the
    cooperative loop: a bounded slice of the byte-code machine, one tick of
    every background service, one frame of every transport. *)
From S2P Require Import Prelude CLib EspRecord EspRegistry EspVm EspProgram EspSequence EspThreads EspDispatch.

Open Scope Z_scope.

Module EspRuntime.
Import EspRecord EspRegistry EspVm EspProgram EspSequence EspThreads EspDispatch.

(** ** The line transport *)

Record StreamTransport := Port { available : bytes; input_ : bytes; maximumLine_ : nat; written : bytes }.

(** Read what is available up to the next complete line. *)
Fixpoint receive_loop (maximum : nat) (avail input : bytes) : option bytes * bytes * bytes :=
  match avail with
  | [] => (None, [], input)
  | c :: avail' =>
      if (c =? NL) || (c =? CR) then
        match input with
        | [] => receive_loop maximum avail' []
        | _ => (Some input, avail', [])
        end
      else if (length input <? maximum)%nat then receive_loop maximum avail' (input ++ [c])
      else receive_loop maximum avail' []
  end.

Definition receive (p : StreamTransport) : option bytes * StreamTransport :=
  let '(message, rest, input) := receive_loop (maximumLine_ p) (available p) (input_ p) in
  (message, Port rest input (maximumLine_ p) (written p)).

Definition send (message : bytes) (p : StreamTransport) : StreamTransport :=
  Port (available p) (input_ p) (maximumLine_ p) (written p ++ message ++ [CR; NL]).

(** ** The boot self test *)

Inductive check_state := UNTESTED | CHECK_READY | FAILED | PENDING | NOT_AVAILABLE.

Record Check := MkCheck { check_name : bytes; check_result : check_state }.

Record Probe := MkProbe {
  probe_name : bytes; probe_id : Z; probe_arguments : list Z; probe_attempts : Z; probe_tried : Z;
  probe_retryMs : Z; probe_pendingOnFailure : bool; probe_ascii : bytes }.

Record NoobSelfTest := SelfTest {
  checks_ : list Check; finished_ : bool; eventPending_ : bool; probes_ : list Probe; nextProbe_ : nat;
  nextProbeAt_ : Z; planReady_ : bool }.

Definition self_test_init : NoobSelfTest := SelfTest [] false false [] 0 3000 false.

Definition MAX_CHECKS : nat := 64.
Definition MAX_PROBES : nat := 40.
Definition CHECK_NAME : nat := 40.

Fixpoint update_check (nm : bytes) (st : check_state) (l : list Check) : option (list Check) :=
  match l with
  | [] => None
  | c :: l' => if bytes_eqb (check_name c) nm then Some (MkCheck nm st :: l')
               else match update_check nm st l' with Some l'' => Some (c :: l'') | None => None end
  end.

Definition set_checks (l : list Check) (t : NoobSelfTest) : NoobSelfTest :=
  SelfTest l (finished_ t) (eventPending_ t) (probes_ t) (nextProbe_ t) (nextProbeAt_ t) (planReady_ t).

Definition self_record (nm : bytes) (st : check_state) (t : NoobSelfTest) : bool * NoobSelfTest :=
  if (length nm =? 0)%nat || (CHECK_NAME <=? length nm)%nat then (false, t)
  else match update_check nm st (checks_ t) with
       | Some l => (true, set_checks l t)
       | None => if (length (checks_ t) =? MAX_CHECKS)%nat then (false, t)
                 else (true, set_checks (checks_ t ++ [MkCheck nm st]) t)
       end.

Definition addProbe (nm : bytes) (i : Z) (args : list Z) (attempts retryMs : Z) (pendingOnFailure : bool)
    (ascii : bytes) (t : NoobSelfTest) : bool * NoobSelfTest :=
  if (length (probes_ t) =? MAX_PROBES)%nat || (4 <? length args)%nat || (attempts =? 0) || (3 <? attempts)
     || (60000 <? retryMs) || (128 <? length ascii)%nat
  then (false, t)
  else match self_record nm PENDING t with
       | (false, t') => (false, t')
       | (true, t') =>
           (true, SelfTest (checks_ t') (finished_ t') (eventPending_ t')
                    (probes_ t' ++ [MkProbe nm i args attempts 0 retryMs pendingOnFailure ascii])
                    (nextProbe_ t') (nextProbeAt_ t') (planReady_ t'))
       end.

Definition self_finish (t : NoobSelfTest) : NoobSelfTest :=
  SelfTest (checks_ t) (finished_ t) (eventPending_ t) (probes_ t) (nextProbe_ t) (nextProbeAt_ t) true.

Definition state_text (s : check_state) : bytes :=
  match s with
  | UNTESTED => str "untested" | CHECK_READY => str "ready" | FAILED => str "failed" | PENDING => str "pending"
  | NOT_AVAILABLE => str "disabled"
  end.

Definition same_state (a b : check_state) : bool :=
  match a, b with
  | UNTESTED, UNTESTED | CHECK_READY, CHECK_READY | FAILED, FAILED | PENDING, PENDING | NOT_AVAILABLE, NOT_AVAILABLE => true
  | _, _ => false
  end.

Definition total (s : check_state) (t : NoobSelfTest) : Z :=
  Z.of_nat (length (List.filter (fun c => same_state (check_result c) s) (checks_ t))).

(** A device holds the self test. *)
Class HasSelfTest (S : Type) := { self_of : S -> NoobSelfTest; put_self : NoobSelfTest -> S -> S }.

Definition report_fields (t : NoobSelfTest) (boot_ms : Z) : list (bytes * Z) :=
  [(str "value", total FAILED t); (str "ready", total CHECK_READY t); (str "pending", total PENDING t);
   (str "untested", total UNTESTED t); (str "disabled", total NOT_AVAILABLE t); (str "boot_ms", i32 boot_ms)].

Definition report_record (t : NoobSelfTest) (boot_ms : Z) : NoobRecord :=
  fold_left (fun r f => (EspRecord.add r f.1 f.2).2) (report_fields t boot_ms) empty_record.

Definition report_detail (t : NoobSelfTest) : bytes :=
  str "scope=boot_init complete=" ++ bool_text (finished_ t) ++ str " checks="
  ++ comma_join (map (fun c => check_name c ++ str ":" ++ state_text (check_result c)) (checks_ t)).

Section runtime.
Context {S : Type} `{HasSequence S} `{!HasEpoch S} `{!HasSelfTest S}.

Definition upd_self (f : NoobSelfTest -> NoobSelfTest) : st S unit := modify (fun s => put_self (f (self_of s)) s).

Definition self_call (arguments : list Z) : st S NativeResult :=
  match arguments with
  | [] => t ← gets self_of;
          now ← millis;
          mret (Result true (total FAILED t) (report_detail t) (report_record t now))
  | _ => mret (failure (str "usage: no arguments"))
  end.

(** ** The native functions of every noob *)

Definition numeric (f : list Z -> st S NativeResult) : NoobFunction S := NumericFunctionAdapter f.

Definition self_test_function : NoobFunction S :=
  base_function true false self_call (fun _ => mret (failure (str "text call unsupported"))).

(** In the order of registration; [known] is what SEQUENCE_SET sees of the
    registry. *)
Definition common_functions {T} (known : NativeRegistry (S := T)) : list (NativeEntry (S := S)) :=
  [Entry 1 (str "TIME_NOW") (numeric time_now); Entry 2 (str "TIME_RESET") (numeric time_reset);
   Entry 13 (str "SELF_TEST") self_test_function; Entry 3 (str "SEQUENCE_SET") (configurationFunction known);
   Entry 4 (str "SEQUENCE_START") (numeric start); Entry 5 (str "SEQUENCE_STOP") (numeric EspSequence.stop);
   Entry 6 (str "SEQUENCE_STATUS") (numeric EspSequence.status); Entry 7 (str "SEQUENCE_CLEAR") (numeric EspSequence.clear);
   Entry 8 (str "SEQUENCE_POP") (numeric EspSequence.pop); Entry 9 (str "SEQUENCE_QUEUE_SIZE") (numeric queueSize);
   Entry 10 (str "SEQUENCE_QUEUE_CLEAR") (numeric clearQueue); Entry 11 (str "SEQUENCE_BUSY") (numeric EspSequence.busy);
   Entry 12 (str "SEQUENCE_FIELD") (numeric field)].

(** Register functions one after the other. *)
Definition register_all (entries : list (NativeEntry (S := S))) (r : NativeRegistry (S := S)) : NativeRegistry :=
  fold_left (fun r e => (EspRegistry.add (id e) (name e) (implementation e) r).2) entries r.

Definition common_natives {T} (known : NativeRegistry (S := T)) : NativeRegistry := register_all (common_functions known) [].

Definition common_capabilities : list bytes :=
  fold_left (fun l c => (capability_add l c).2)
    [str "BOOT_SELF_TEST"; str "TIME_MONOTONIC"; str "THREAD_VM"; str "SEQUENCES"; str "NATIVE_ASCII"] [].

(** ** The self test's tick *)

Context (natives : NativeRegistry (S := S)).

Definition probe_outcome (r : NativeResult) (found retry : bool) (p : Probe) : check_state :=
  if ok r then CHECK_READY else if negb found then NOT_AVAILABLE
  else if retry || probe_pendingOnFailure p then PENDING else FAILED.

Definition set_tried (n : Z) (p : Probe) : Probe :=
  MkProbe (probe_name p) (probe_id p) (probe_arguments p) (probe_attempts p) n (probe_retryMs p)
    (probe_pendingOnFailure p) (probe_ascii p).

Definition set_probe (k : nat) (p : Probe) (t : NoobSelfTest) : NoobSelfTest :=
  SelfTest (checks_ t) (finished_ t) (eventPending_ t) (<[k := p]> (probes_ t)) (nextProbe_ t) (nextProbeAt_ t) (planReady_ t).
Definition set_schedule (at_ : Z) (next : nat) (t : NoobSelfTest) : NoobSelfTest :=
  SelfTest (checks_ t) (finished_ t) (eventPending_ t) (probes_ t) next at_ (planReady_ t).
Definition set_flags (finished pending : bool) (t : NoobSelfTest) : NoobSelfTest :=
  SelfTest (checks_ t) finished pending (probes_ t) (nextProbe_ t) (nextProbeAt_ t) (planReady_ t).

(** Run the next probe once. *)
Definition run_probe (k : nat) (p : Probe) : st S bytes :=
  r ← (match find_id natives (probe_id p) with
       | Some e => r ← callMixed e (probe_arguments p) (probe_ascii p); mret (r, true)
       | None => mret (failure (str "function disabled"), false)
       end);
  let '(res, found) := r : NativeResult * bool in
  let tried := (probe_tried p + 1) mod 256 in
  let retry := negb (ok res) && found && (tried <? probe_attempts p) in
  upd_self (set_probe k (set_tried tried p)) ;;
  upd_self (fun t => (self_record (probe_name p) (probe_outcome res found retry p) t).2) ;;
  now ← millis;
  upd_self (fun t => set_schedule (u32 (now + (if retry then probe_retryMs p else 0)))
                       (if retry then nextProbe_ t else nextProbe_ t + 1)%nat t) ;;
  mret (str "NRP/1 0 EVENT SELF_TEST_PROBE name=" ++ probe_name p ++ str " ok=" ++ bool_text (ok res)
        ++ str " attempt=" ++ print_nat tried ++ str " retry=" ++ bool_text retry ++ str " detail=" ++ detail res).

(** Send the report that is pending. *)
Definition self_report : st S (option bytes) :=
  pending ← gets (fun s => eventPending_ (self_of s));
  if negb pending then mret None
  else
  upd_self (fun t => set_flags (finished_ t) false t) ;;
  r ← self_call [];
  mret (Some (str "NRP/1 0 EVENT SELF_TEST failures=" ++ print_int (value r) ++ str " " ++ detail r)).

Definition self_tick : st S (option bytes) :=
  t ← gets self_of;
  due ← (if planReady_ t && negb (finished_ t)
         then now ← millis; mret (negb (i32 (u32 (now - nextProbeAt_ t)) <? 0)) else mret false);
  if negb due then self_report
  else match probes_ t !! nextProbe_ t with
       | None => upd_self (set_flags true true) ;; self_report
       | Some p => e ← run_probe (nextProbe_ t) p; mret (Some e)
       end.

(** ** The loop *)

(** A transport of the runtime: any way to receive and send frames. *)
Record NoobTransport := Transport { tr_receive : st S (option bytes); tr_send : bytes -> st S unit }.

Context (noobName firmwareVersion : bytes) (capabilities : list bytes) (lifecycle : option (NoobVmLifecycle S)).

Definition VM_BUDGET : nat := 32.

(** One service: its event goes to every transport. *)
Definition run_service (transports : list NoobTransport) (service : st S (option bytes)) : st S unit :=
  event ← service;
  match event with
  | None | Some [] => mret tt
  | Some e => for_each (fun t => tr_send t e) transports
  end.

(** The reply to a frame. *)
Definition answer_frame (frame : bytes) : st S bytes :=
  match parse frame with
  | (request, Some error) =>
      mret (fail_reply (match requestId request with [] => str "-" | rid => rid end) (str "BAD_FRAME") error)
  | (request, None) => dispatch natives noobName firmwareVersion capabilities lifecycle request
  end.

(** One transport: at most one frame, answered on the same transport. *)
Definition run_transport (t : NoobTransport) : st S unit :=
  frame ← tr_receive t;
  match frame with
  | None => mret tt
  | Some f => reply ← answer_frame f; tr_send t reply
  end.

Definition runtime_loop (services : list (st S (option bytes))) (transports : list NoobTransport) : st S unit :=
  tick natives VM_BUDGET ;;
  for_each (run_service transports) services ;;
  for_each run_transport transports.

(** The services the constructor adds, in order. *)
Definition common_services : list (st S (option bytes)) := [self_tick; sequence_tick natives].
End runtime.
End EspRuntime.
