(* ===== verification/EspRuntimeFacts.v ===== *)
(** * The runtime keeps its components' invariants

    The byte-code machine and the sequence service promise their invariants
    under assumptions on the native functions.  Here the functions every noob
    registers are shown to meet them, and the whole loop keeps both.  The line
    transport is shown to deliver_chunks exactly the frames sent, however they are
    cut. *)
From S2P Require Import Prelude CLib EspRecord EspRegistry EspVm EspVmFacts EspVmRun EspProgram EspSequence EspSequenceFacts EspThreads EspDispatch EspRuntime.

Open Scope Z_scope.

Module EspRuntimeFacts.
Import EspRecord EspRegistry EspVm EspVmFacts EspProgram EspSequence EspSequenceFacts EspThreads EspDispatch EspRuntime.

(** ** The line transport *)

(** Every complete line of a text, and the part of a line at the end. *)
Fixpoint frames_of (maximum : nat) (text input : bytes) : list bytes * bytes :=
  match text with
  | [] => ([], input)
  | c :: text' =>
      if (c =? NL) || (c =? CR) then
        let '(fs, rest) := frames_of maximum text' [] in
        (match input with [] => fs | _ => input :: fs end, rest)
      else if (length input <? maximum)%nat then frames_of maximum text' (input ++ [c])
      else frames_of maximum text' []
  end.

(** Receive until nothing more is complete. *)
Fixpoint poll_all (fuel : nat) (p : StreamTransport) : list bytes * StreamTransport :=
  match fuel with
  | O => ([], p)
  | S fuel => match receive p with
              | (None, p') => ([], p')
              | (Some m, p') => let '(ms, p'') := poll_all fuel p' in (m :: ms, p'')
              end
  end.

Definition feed (chunk : bytes) (p : StreamTransport) : StreamTransport :=
  Port (available p ++ chunk) (input_ p) (maximumLine_ p) (written p).

(** Bytes arrive in chunks; after each, the lines that are complete are taken. *)
Fixpoint deliver_chunks (chunks : list bytes) (p : StreamTransport) : list bytes * StreamTransport :=
  match chunks with
  | [] => ([], p)
  | c :: chunks' =>
      let p1 := feed c p in
      let '(ms, p2) := poll_all (S (length (available p1))) p1 in
      let '(ms', p3) := deliver_chunks chunks' p2 in (ms ++ ms', p3)
  end.

Lemma receive_loop_frames maximum avail input :
  match receive_loop maximum avail input with
  | (None, rest, input') => rest = [] /\ frames_of maximum avail input = ([], input')
  | (Some m, rest, input') =>
      input' = [] /\ (length rest < length avail)%nat
      /\ frames_of maximum avail input = (m :: (frames_of maximum rest []).1, (frames_of maximum rest []).2)
  end.
Proof.
  revert input. induction avail as [|c avail IH]; intros input; [done|]. cbn [receive_loop frames_of].
  destruct ((c =? NL) || (c =? CR)); [|destruct (length input <? maximum)%nat].
  - destruct input as [|i input].
    + specialize (IH []). destruct (receive_loop maximum avail []) as [[[m|] rest] input'].
      * destruct IH as (-> & Hl & E). rewrite E. split_and!; [done|cbn; lia|done].
      * destruct IH as (-> & E). by rewrite E.
    + split_and!; [done|cbn; lia|]. by destruct (frames_of maximum avail []).
  - specialize (IH (input ++ [c])). destruct (receive_loop _ _ _) as [[[m|] rest] input']; [|done].
    destruct IH as (-> & Hl & E). split_and!; [done|cbn; lia|done].
  - specialize (IH []). destruct (receive_loop _ _ _) as [[[m|] rest] input']; [|done].
    destruct IH as (-> & Hl & E). split_and!; [done|cbn; lia|done].
Qed.

Lemma poll_all_frames fuel p :
  (length (available p) < fuel)%nat ->
  poll_all fuel p = ((frames_of (maximumLine_ p) (available p) (input_ p)).1,
                     Port [] (frames_of (maximumLine_ p) (available p) (input_ p)).2 (maximumLine_ p) (written p)).
Proof.
  revert p. induction fuel as [|fuel IH]; intros p Hf; [lia|]. cbn [poll_all]. unfold receive.
  pose proof (receive_loop_frames (maximumLine_ p) (available p) (input_ p)) as Hr.
  destruct (receive_loop _ _ _) as [[[m|] rest] input'].
  - destruct Hr as (-> & Hl & E). rewrite IH by (cbn; lia). cbn [maximumLine_ available input_ written]. by rewrite E.
  - destruct Hr as (-> & E). by rewrite E.
Qed.

Lemma frames_of_app maximum a b input :
  frames_of maximum (a ++ b) input
  = ((frames_of maximum a input).1 ++ (frames_of maximum b (frames_of maximum a input).2).1,
     (frames_of maximum b (frames_of maximum a input).2).2).
Proof.
  revert input. induction a as [|c a IH]; intros input; cbn [app frames_of].
  { cbn [fst snd app]. by destruct (frames_of maximum b input). }
  destruct ((c =? NL) || (c =? CR)); [|destruct (length input <? maximum)%nat; apply IH].
  rewrite IH. destruct (frames_of maximum a []) as [fs rest]. cbn [fst snd]. destruct input; done.
Qed.

Lemma deliver_chunks_frames chunks p :
  available p = [] ->
  deliver_chunks chunks p = ((frames_of (maximumLine_ p) (concat chunks) (input_ p)).1,
                      Port [] (frames_of (maximumLine_ p) (concat chunks) (input_ p)).2 (maximumLine_ p) (written p)).
Proof.
  revert p. induction chunks as [|c chunks IH]; intros p Hp; cbn [deliver_chunks concat].
  { destruct p as [a i m w]. cbn in Hp. by subst a. }
  rewrite poll_all_frames by lia. unfold feed. cbn [maximumLine_ available input_ written]. rewrite Hp. cbn [app].
  rewrite IH by done. cbn [maximumLine_ available input_ written]. by rewrite frames_of_app.
Qed.

(** A frame that can be sent: not empty, no line ends, not too long. *)
Definition frame_ok (maximum : nat) (f : bytes) : Prop :=
  f <> [] /\ (length f <= maximum)%nat /\ (NL ∉ f) /\ (CR ∉ f).

#[global] Instance frame_ok_dec maximum f : Decision (frame_ok maximum f).
Proof. unfold frame_ok. apply _. Defined.

Lemma frames_of_plain maximum f input rest :
  (length input + length f <= maximum)%nat -> NL ∉ f -> CR ∉ f ->
  frames_of maximum (f ++ rest) input = frames_of maximum rest (input ++ f).
Proof.
  revert input. induction f as [|c f IH]; intros input Hl Hn Hc; cbn [app frames_of]; [by rewrite app_nil_r|].
  apply not_elem_of_cons in Hn as [Hn1 Hn2]. apply not_elem_of_cons in Hc as [Hc1 Hc2].
  rewrite (proj2 (Z.eqb_neq c NL)), (proj2 (Z.eqb_neq c CR)) by done. cbn [orb length] in *.
  rewrite (proj2 (Nat.ltb_lt _ _)) by lia. rewrite IH, <- app_assoc by (rewrite ?length_app; cbn; done || lia). done.
Qed.

(** The line transport delivers exactly the frames that were sent: when
    frames without line ends, each at most [maximumLine] bytes, are written with
    CR LF (as [send] writes them) and the bytes arrive cut into any chunks,
    taking the complete lines after each chunk yields the frames in order, each
    once, and leaves nothing behind. *)
Theorem stream_transport_framing frames chunks p :
  Forall (frame_ok (maximumLine_ p)) frames -> available p = [] -> input_ p = [] ->
  concat chunks = concat (map (fun f => f ++ [CR; NL]) frames) ->
  deliver_chunks chunks p = (frames, p).
Proof.
  intros Hf Ha Hi Hc. rewrite deliver_chunks_frames, Hc, Hi by done.
  assert (E : frames_of (maximumLine_ p) (concat (map (fun f => f ++ [CR; NL]) frames)) [] = (frames, [])).
  { clear Hc. induction Hf as [|f frames (Hne & Hl & Hn & Hcr) _ IH]; [done|]. cbn [map concat]. rewrite <- app_assoc.
    rewrite frames_of_plain by (cbn; done || lia). cbn [app frames_of Z.eqb CR NL Pos.eqb orb]. rewrite IH.
    by destruct f. }
  rewrite E. destruct p as [a i m w]. cbn in *. by subst.
Qed.

Lemma stream_transport_framing_witness :
  deliver_chunks [str "NRP/1 1 PI"; str "NG" ++ [CR]; [NL] ++ str "NRP/1 2 CAPS" ++ [CR; NL]] (Port [] [] 2048 [])
  = ([str "NRP/1 1 PING"; str "NRP/1 2 CAPS"], Port [] [] 2048 []).
Proof.
  apply stream_transport_framing; try reflexivity.
  apply Forall_cons. split; [|apply Forall_cons; split; [|by apply Forall_nil]];
    (split; [done|]); (split; [cbn; lia|]); split; by apply (bool_decide_unpack _).
Defined.

(** The tail of a line that is too long is taken for a frame of its own. *)
Lemma overlong_line_tail maximum long tail w :
  (length long = maximum + 1)%nat -> NL ∉ long -> CR ∉ long -> frame_ok maximum tail ->
  (receive (Port (long ++ tail ++ [NL]) [] maximum w)).1 = Some tail.
Proof.
  intros Hl Hn Hc (Hne & Ht & Htn & Htc). unfold receive. cbn [maximumLine_ available input_ written].
  pose proof (receive_loop_frames maximum (long ++ tail ++ [NL]) []) as Hr.
  assert (E : frames_of maximum (long ++ tail ++ [NL]) [] = ([tail], [])).
  { destruct long as [|c a _] using rev_ind; [cbn in Hl; lia|]. rewrite length_app in Hl. cbn in Hl.
    apply not_elem_of_app in Hn as [Hn1 Hn2]. apply not_elem_of_app in Hc as [Hc1 Hc2].
    apply not_elem_of_cons in Hn2 as [Hn2 _]. apply not_elem_of_cons in Hc2 as [Hc2 _].
    rewrite <- app_assoc. rewrite frames_of_plain by (cbn; done || lia). cbn [app frames_of].
    rewrite (proj2 (Z.eqb_neq c NL)), (proj2 (Z.eqb_neq c CR)) by done. cbn [orb].
    rewrite (proj2 (Nat.ltb_ge _ _)) by lia. rewrite frames_of_plain by (cbn; done || lia). cbn. by destruct tail. }
  rewrite E in Hr. destruct (receive_loop _ _ _) as [[[m|] rest] input']; [|by destruct Hr].
  destruct Hr as (_ & _ & Hr). injection Hr as -> _. done.
Qed.

(** ** The machine leaves everything else alone *)

(** What the machine keeps of the device: any property that survives a change of
    the machine's own state, a look at the clock and every native function. *)
Section machine.
Context {S : Type} `{HasClock S} (natives : NativeRegistry (S := S)) (I : S -> Prop).
Context (I_put : forall v s, I s -> I (put_vm v s)) (I_millis : keeps I millis).
Context (I_natives : forall e args ascii, e ∈ natives -> keeps I (fn_callMixed (implementation e) args ascii)).

Lemma keeps_upd_vm f : keeps I (upd_vm f).
Proof. intros s Hs. by apply I_put. Qed.

Lemma keeps_get_vm {A} (f : NoobVm -> A) : keeps I (get_vm f).
Proof. by intros s. Qed.
#[local] Hint Resolve keeps_upd_vm keeps_get_vm I_millis : noobia.

Lemma machine_keeps_fault m : keeps I (fault m).
Proof. apply keeps_upd_vm. Qed.
#[local] Hint Resolve machine_keeps_fault : noobia.

Lemma keeps_need n : keeps I (need n).
Proof. unfold need. keeps_auto. Qed.

Lemma keeps_read8 : keeps I read8.
Proof. unfold read8. keeps_auto. Qed.

Lemma keeps_read16 : keeps I read16.
Proof. unfold read16. keeps_auto. Qed.
#[local] Hint Resolve keeps_need keeps_read8 keeps_read16 : noobia.

Lemma keeps_read32 : keeps I read32.
Proof. unfold read32. keeps_auto. Qed.

Lemma keeps_validRegister r : keeps I (validRegister r).
Proof. unfold validRegister. keeps_auto. Qed.
#[local] Hint Resolve keeps_read32 keeps_validRegister : noobia.

Lemma keeps_validRegisters l : keeps I (validRegisters l).
Proof. unfold validRegisters. induction l as [|r l IH]; cbn; keeps_auto. Qed.

Lemma keeps_get_register r : keeps I (get_register r).
Proof. unfold get_register. keeps_auto. Qed.

Lemma keeps_put_register r v : keeps I (put_register r v).
Proof. apply keeps_upd_vm. Qed.

Lemma keeps_jump t : keeps I (jump t).
Proof. unfold jump. keeps_auto. Qed.
#[local] Hint Resolve keeps_validRegisters keeps_get_register keeps_put_register keeps_jump : noobia.

Lemma keeps_read_args c : keeps I (read_args c).
Proof. induction c as [|c IH]; cbn [read_args]; keeps_auto. Qed.

Lemma keeps_read_bytes c : keeps I (read_bytes c).
Proof. induction c as [|c IH]; cbn [read_bytes]; keeps_auto. Qed.
#[local] Hint Resolve keeps_read_args keeps_read_bytes : noobia.

Lemma keeps_callMixed e args ascii : e ∈ natives -> keeps I (callMixed e args ascii).
Proof. intros He. unfold callMixed. do 2 (apply keeps_if; intros _; [apply keeps_ret|]). by apply I_natives. Qed.

Lemma keeps_invoke_native opcode d i args ascii : keeps I (invoke_native natives opcode d i args ascii).
Proof.
  unfold invoke_native. destruct (find_id natives i) as [e|] eqn:E; [|auto with noobia].
  apply find_id_elem in E. apply keeps_if; intros _; [auto with noobia|].
  apply keeps_bind; [by apply keeps_callMixed|]. intros r. keeps_auto.
Qed.
#[local] Hint Resolve keeps_invoke_native : noobia.

Lemma keeps_syscall opcode : keeps I (syscall natives opcode).
Proof. unfold syscall, read_text. keeps_auto. Qed.

Lemma keeps_executeOne : keeps I (executeOne natives).
Proof.
  unfold executeOne, op_load_immediate, op_move, op_arith, op_jump, op_branch, op_call, op_return, op_wait, op_load, op_store.
  pose proof keeps_syscall. keeps_auto.
Qed.

Lemma keeps_execute_loop budget : keeps I (execute_loop natives budget).
Proof. pose proof keeps_executeOne. induction budget as [|k IH]; cbn [execute_loop]; keeps_auto. Qed.

Lemma keeps_tick budget : keeps I (tick natives budget).
Proof. pose proof (keeps_execute_loop budget). unfold tick. keeps_auto. Qed.

(** The dispatcher, with hooks that keep the property. *)
Context (nm version : bytes) (caps : list bytes) (lifecycle : option (NoobVmLifecycle S)).
Context (I_lifecycle : match lifecycle with
                       | None => True
                       | Some l => keeps I (onStarted l) /\ keeps I (onStopped l) /\ keeps I (onReset l)
                       end).

Lemma find_name_elem (l : NativeRegistry (S := S)) sel e : find_name l sel = Some e -> e ∈ l.
Proof.
  induction l as [|x l IH]; [done|]. cbn. destruct (equalsIgnoreCase _ _); [intros [= ->]; left|]. intros E. right. by apply IH.
Qed.

Lemma find_selector_elem sel e : find_selector natives sel = Some e -> e ∈ natives.
Proof.
  unfold find_selector. destruct (find_name natives sel) as [e'|] eqn:E; [intros [= ->]; by eapply find_name_elem|].
  destruct (strtol sel) as [[i r]|]; [|done]. destruct (_ && _); [|done]. apply find_id_elem.
Qed.

Lemma keeps_call e args : e ∈ natives -> keeps I (call e args).
Proof. intros He. unfold call. apply keeps_if; intros _; [apply keeps_ret|by apply keeps_callMixed]. Qed.

Lemma keeps_callText e text : e ∈ natives -> keeps I (callText e text).
Proof. intros He. unfold callText. apply keeps_if; intros _; [apply keeps_ret|by apply I_natives]. Qed.

Lemma keeps_native_calls r :
  keeps I (callNative natives r) /\ keeps I (callTextNative natives r) /\ keeps I (callMixedNative natives r).
Proof.
  unfold callNative, callTextNative, callMixedNative. destruct (tokenAt (arguments r)) as [selector rest]. split_and!.
  - match goal with |- keeps _ (match ?x with _ => _ end) => destruct x as [e|] eqn:E end; [|apply keeps_ret].
    assert (He : e ∈ natives) by (destruct (_ && _); [by eapply find_id_elem|by eapply find_name_elem]).
    apply keeps_if; intros _; [apply keeps_ret|]. apply keeps_bind; [by apply keeps_call|intros; apply keeps_ret].
  - destruct (find_name natives selector) as [e|] eqn:E; [|apply keeps_ret]. apply find_name_elem in E.
    apply keeps_if; intros _; [apply keeps_ret|]. apply keeps_bind; [by apply keeps_callText|intros; apply keeps_ret].
  - destruct (find_selector natives selector) as [e|] eqn:E; [|apply keeps_ret]. apply find_selector_elem in E.
    destruct (mixed_arguments rest) as [m|[ns a]]; [apply keeps_ret|].
    apply keeps_bind; [by apply keeps_callMixed|intros; apply keeps_ret].
Qed.

Lemma keeps_note hook :
  (forall l, lifecycle = Some l -> keeps I (hook l)) -> keeps I (note lifecycle hook).
Proof. intros Hh. unfold note. destruct lifecycle as [l|]; [|apply keeps_ret]. specialize (Hh l eq_refl). keeps_auto. Qed.

Lemma machine_keeps_dispatch r : keeps I (dispatch natives nm version caps lifecycle r).
Proof.
  destruct (keeps_native_calls r) as (H1 & H2 & H3).
  assert (Hn : keeps I (note lifecycle onStarted) /\ keeps I (note lifecycle onStopped) /\ keeps I (note lifecycle onReset)).
  { split_and!; apply keeps_note; intros l ->; by apply I_lifecycle. }
  destruct Hn as (N1 & N2 & N3).
  unfold dispatch, load_command, run_command, stop_command, reset_command. keeps_auto.
Qed.
End machine.

(** ** The native functions of every noob keep the machine *)

(** A device: its parts do not overlap. *)
Class Device (S : Type) `{HasSequence S} `{!HasEpoch S} `{!HasSelfTest S} := {
  vm_put_seq q s : vm_of (put_seq q s) = vm_of s;
  vm_put_epoch e s : vm_of (put_epoch e s) = vm_of s;
  vm_put_self t s : vm_of (put_self t s) = vm_of s;
  seq_put_vm v s : seq_of (put_vm v s) = seq_of s;
  seq_put_epoch e s : seq_of (put_epoch e s) = seq_of s;
  seq_put_self t s : seq_of (put_self t s) = seq_of s }.

Section device.
Context {S : Type} `{Device S}.

Definition vm_inv (s : S) : Prop := vm_wf (vm_of s).

(** Properties of the machine alone. *)
Section machine_only.
Context (natives : NativeRegistry (S := S)) (Hsafe : natives_safe natives).

Lemma vm_keeps_millis : keeps vm_inv millis.
Proof. intros s Hs. unfold vm_inv. by rewrite millis_vm. Qed.

Lemma vm_keeps_seq f : keeps vm_inv (upd_seq f).
Proof. intros s Hs. unfold vm_inv, upd_seq, modify. cbn. by rewrite vm_put_seq. Qed.

Lemma vm_keeps_get {A} (f : sequence -> A) : keeps vm_inv (get_seq f).
Proof. by intros s. Qed.

Lemma vm_keeps_self f : keeps vm_inv (upd_self f).
Proof. intros s Hs. unfold vm_inv, upd_self, modify. cbn. by rewrite vm_put_self. Qed.
#[local] Hint Resolve vm_keeps_millis vm_keeps_seq vm_keeps_get vm_keeps_self : noobia.

Lemma vm_keeps_perform f : keeps vm_inv (perform f).
Proof. unfold perform. keeps_auto. Qed.
#[local] Hint Resolve vm_keeps_perform : noobia.

Lemma vm_keeps_with_slot arguments f : keeps vm_inv (with_slot arguments f).
Proof. unfold with_slot. keeps_auto. Qed.
#[local] Hint Resolve vm_keeps_with_slot : noobia.

Lemma vm_keeps_start arguments : keeps vm_inv (start arguments).
Proof. unfold start. keeps_auto. Qed.

Lemma vm_keeps_time arguments : keeps vm_inv (time_now arguments) /\ keeps vm_inv (time_reset arguments).
Proof.
  split; [unfold time_now, milliseconds; keeps_auto|]. unfold time_reset. keeps_auto.
  intros s Hs. unfold vm_inv, modify. cbn. by rewrite vm_put_epoch.
Qed.

Lemma vm_keeps_self_call arguments : keeps vm_inv (self_call arguments).
Proof. unfold self_call. keeps_auto. Qed.
#[local] Hint Resolve vm_keeps_start vm_keeps_self_call : noobia.

Lemma vm_natives_keep e args ascii : e ∈ natives -> keeps vm_inv (fn_callMixed (implementation e) args ascii).
Proof. intros He s Hs. by apply (Hsafe e args ascii He s). Qed.

Lemma vm_keeps_callMixed e args ascii : e ∈ natives -> keeps vm_inv (callMixed e args ascii).
Proof. apply keeps_callMixed, vm_natives_keep. Qed.

Lemma vm_keeps_invoke slot input append :
  keeps vm_inv (invoke natives (channel_at slot) (put_channel_at slot) input append).
Proof.
  assert (Hu : forall f, keeps vm_inv (upd_channel (channel_at slot) (put_channel_at slot) f)).
  { intros f s Hs. unfold vm_inv, upd_channel, modify, put_channel_at. cbn. by rewrite vm_put_seq. }
  unfold invoke. apply keeps_bind; [apply Hu|]. intros []. apply keeps_bind; [apply keeps_gets|]. intros c.
  destruct (find_id natives _) as [e|] eqn:E; [|apply Hu]. apply find_id_elem in E.
  apply keeps_bind; [by apply vm_keeps_callMixed|]. intros r. apply Hu.
Qed.
#[local] Hint Resolve vm_keeps_invoke : noobia.

Lemma vm_keeps_tick_slots now l inv : keeps vm_inv (tick_slots natives now l inv).
Proof. revert inv. induction l as [|k l IH]; intros inv; cbn [tick_slots]; keeps_auto. Qed.
#[local] Hint Resolve vm_keeps_tick_slots : noobia.

Lemma vm_keeps_sequence_tick : keeps vm_inv (sequence_tick natives).
Proof. unfold sequence_tick. keeps_auto. Qed.

Lemma vm_keeps_self_tick : keeps vm_inv (self_tick natives).
Proof.
  assert (Hp : forall k p, keeps vm_inv (run_probe natives k p)).
  { intros k p. unfold run_probe. apply keeps_bind; [|intros [res found]; keeps_auto].
    destruct (find_id natives _) as [e|] eqn:E; [|apply keeps_ret]. apply find_id_elem in E.
    apply keeps_bind; [by apply vm_keeps_callMixed|intros; apply keeps_ret]. }
  unfold self_tick, self_report. keeps_auto.
Qed.
End machine_only.

(** ... and the sequence service. *)
Section sequence_only.
Context (natives : NativeRegistry (S := S)) (Hkeep : natives_keep natives).

Lemma seq_keeps_self f : keeps seq_inv (upd_self f).
Proof. intros s Hs. unfold seq_inv, upd_self, modify. cbn. by rewrite seq_put_self. Qed.
#[local] Hint Resolve seq_keeps_self keeps_millis : noobia.

Lemma seq_keeps_time arguments : keeps seq_inv (time_now arguments) /\ keeps seq_inv (time_reset arguments).
Proof.
  split; [unfold time_now, milliseconds; keeps_auto|]. unfold time_reset. keeps_auto.
  intros s Hs. unfold seq_inv, modify. cbn. by rewrite seq_put_epoch.
Qed.

Lemma seq_keeps_self_call arguments : keeps seq_inv (self_call arguments).
Proof. unfold self_call. keeps_auto. Qed.
#[local] Hint Resolve seq_keeps_self_call : noobia.

Lemma seq_keeps_self_tick : keeps seq_inv (self_tick natives).
Proof.
  assert (Hp : forall k p, keeps seq_inv (run_probe natives k p)).
  { intros k p. unfold run_probe. apply keeps_bind; [|intros [res found]; keeps_auto].
    destruct (find_id natives _) as [e|] eqn:E; [|apply keeps_ret]. apply find_id_elem in E.
    apply keeps_bind; [by eapply EspSequenceFacts.callMixed_keeps|intros; apply keeps_ret]. }
  unfold self_tick, self_report. keeps_auto.
Qed.
End sequence_only.

(** ** The registry of a noob *)

Lemma keeps_base (I : S -> Prop) numbers text f g args ascii :
  (forall a, keeps I (f a)) -> (forall t, keeps I (g t)) -> keeps I (fn_callMixed (base_function numbers text f g) args ascii).
Proof.
  intros Hf Hg. cbn. apply keeps_if; intros _; [apply Hf|]. apply keeps_if; intros _; [apply Hg|apply keeps_ret].
Qed.

(** A property every function of [common_functions] keeps. *)
Lemma common_keeps {T} (known : NativeRegistry (S := T)) (I : S -> Prop) e args ascii :
  (forall a, keeps I (time_now a)) -> (forall a, keeps I (time_reset a)) -> (forall a, keeps I (self_call a)) ->
  (forall a t, keeps I (perform (setMixed known a t))) -> (forall a, keeps I (start a)) ->
  (forall a, keeps I (EspSequence.stop a)) -> (forall a, keeps I (EspSequence.status a)) ->
  (forall a, keeps I (EspSequence.clear a)) -> (forall a, keeps I (EspSequence.pop a)) -> (forall a, keeps I (queueSize a)) ->
  (forall a, keeps I (clearQueue a)) -> (forall a, keeps I (EspSequence.busy a)) -> (forall a, keeps I (field a)) ->
  e ∈ common_functions known -> keeps I (fn_callMixed (implementation e) args ascii).
Proof.
  intros F1 F2 F3 F4 F5 F6 F7 F8 F9 F10 F11 F12 F13 He.
  assert (Hall : Forall (fun e => keeps I (fn_callMixed (implementation e) args ascii)) (common_functions known)).
  { unfold common_functions, numeric, NumericFunctionAdapter, self_test_function.
    repeat (apply Forall_cons; split); try apply Forall_nil; cbn [implementation]; try apply keeps_base; auto;
      try (intros; apply keeps_ret). apply F4. }
  by eapply Forall_forall in Hall.
Qed.

Lemma vm_keeps_stop arguments : keeps vm_inv (EspSequence.stop arguments).
Proof. unfold EspSequence.stop. destruct arguments; [|apply keeps_ret]. apply keeps_bind; [apply vm_keeps_seq|intros []; apply vm_keeps_get]. Qed.

Lemma vm_keeps_status arguments : keeps vm_inv (EspSequence.status arguments).
Proof. unfold EspSequence.status. destruct arguments; [apply vm_keeps_get|apply keeps_ret]. Qed.

Lemma vm_keeps_field arguments : keeps vm_inv (field arguments).
Proof.
  unfold field. destruct arguments as [|a [|b [|]]]; try apply keeps_ret. apply keeps_if; intros _; [apply keeps_ret|apply vm_keeps_get].
Qed.

Lemma common_vm {T} (known : NativeRegistry (S := T)) e args ascii :
  e ∈ common_functions known -> keeps vm_inv (fn_callMixed (implementation e) args ascii).
Proof.
  apply common_keeps; intros; try apply vm_keeps_time; try apply vm_keeps_self_call; try apply vm_keeps_with_slot;
    auto using vm_keeps_perform, vm_keeps_start, vm_keeps_stop, vm_keeps_status, vm_keeps_field.
  apply vm_keeps_perform.
Qed.

Lemma common_seq {T} (known : NativeRegistry (S := T)) e args ascii :
  e ∈ common_functions known -> keeps seq_inv (fn_callMixed (implementation e) args ascii).
Proof.
  apply common_keeps; intros; try apply seq_keeps_time;
    auto using seq_keeps_self_call, keeps_perform, setMixed_sound, start_keeps, stop_keeps, status_keeps, clear_keeps,
      pop_keeps, queueSize_keeps, clearQueue_keeps, field_keeps, busy_keeps.
Qed.

(** Registering adds the functions given, or refuses them. *)
Lemma register_all_elem es (r : NativeRegistry (S := S)) e : e ∈ register_all es r -> e ∈ es \/ e ∈ r.
Proof.
  unfold register_all. revert r. induction es as [|x es IH]; intros r He; [by right|]. cbn in He.
  destruct (IH _ He) as [Hin|Hin]; [left; by right|]. unfold EspRegistry.add in Hin. destruct (_ || _ || _); [by right|].
  apply elem_of_app in Hin as [Hin|Hin%list_elem_of_singleton]; [by right|]. left. subst e. destruct x. left.
Qed.

(** The functions of every noob and the noob's own. *)
Definition noob_natives {T} (known : NativeRegistry (S := T)) (own : list (NativeEntry (S := S))) : NativeRegistry :=
  register_all own (common_natives known).

Lemma noob_natives_elem {T} (known : NativeRegistry (S := T)) own e :
  e ∈ noob_natives known own -> e ∈ own \/ e ∈ common_functions known.
Proof.
  intros [He|He]%register_all_elem; [by left|]. apply register_all_elem in He as [He|He]; [by right|].
  by apply elem_of_nil in He.
Qed.

Lemma noob_natives_safe {T} (known : NativeRegistry (S := T)) own : natives_safe own -> natives_safe (noob_natives known own).
Proof.
  intros Ho e args ascii [He|He]%noob_natives_elem; [by apply Ho|]. intros s Hs. by apply (common_vm known e args ascii He).
Qed.

Lemma noob_natives_keep {T} (known : NativeRegistry (S := T)) own : natives_keep own -> natives_keep (noob_natives known own).
Proof. intros Ho e args ascii [He|He]%noob_natives_elem; [by apply Ho|]. by apply (common_seq known). Qed.
End device.

(** ** The dispatcher keeps the machine *)

Lemma hexValue_range c : -1 <= hexValue c < 16.
Proof.
  unfold hexValue, isdigit.
  repeat match goal with |- context [if ?b then _ else _] => destruct b eqn:? end; to_prop; lia.
Qed.

Lemma decode_loop_bytes text i high out h out' :
  -1 <= high < 16 -> bytes_ok out -> decode_loop i text high out = inr (h, out') -> bytes_ok out'.
Proof.
  revert i high out. induction text as [|c text IH]; intros i high out Hh Ho; cbn [decode_loop]; [by intros [= _ <-]|].
  destruct (is_separator c); [by apply IH|]. pose proof (hexValue_range c).
  destruct (Z.ltb_spec (hexValue c) 0); [done|]. destruct (Z.ltb_spec high 0); [by apply IH|]. destruct (_ <=? _); [done|].
  apply IH; [lia|]. apply Forall_app. split; [done|]. constructor; [|done]. unfold byte_ok.
  rewrite lor_shiftl by (change (2 ^ 4) with 16; lia). change (2 ^ 4) with 16. lia.
Qed.

Lemma decodeHex_bytes text p : decodeHex text = inr p -> bytes_ok p.
Proof.
  unfold decodeHex. destruct (decode_loop 0 text (-1) []) as [e|[h out]] eqn:E; [done|].
  apply decode_loop_bytes in E; [|lia|constructor]. destruct (0 <=? h); [done|]. destruct (_ =? 0)%nat; [done|]. by intros [= <-].
Qed.

Section dispatcher.
Context {S : Type} `{HasClock S} (natives : NativeRegistry (S := S)) (Hsafe : natives_safe natives).
Context (nm version : bytes) (caps : list bytes) (lifecycle : option (NoobVmLifecycle S)).
Context (Hlife : match lifecycle with
                 | None => True
                 | Some l => keeps vm_inv (onStarted l) /\ keeps vm_inv (onStopped l) /\ keeps vm_inv (onReset l)
                 end).

Lemma vm_keeps_upd f : (forall v, vm_wf v -> vm_wf (f v)) -> keeps vm_inv (upd_vm f).
Proof. intros Hf s Hs. unfold vm_inv, upd_vm, modify. cbn. rewrite vm_of_put. by apply Hf. Qed.

(** A command that replaces the machine by the result of [f]. *)
Lemma vm_keeps_replace (f : NoobVm -> bytes + NoobVm) (k1 : bytes -> st S bytes) (k2 : st S bytes) :
  (forall v, vm_wf v -> vm_wf (EspVmRun.keep_error f v)) -> (forall e, keeps vm_inv (k1 e)) -> keeps vm_inv k2 ->
  keeps vm_inv (r ← get_vm f; match r with inl e => k1 e | inr v => upd_vm (fun _ => v) ;; k2 end).
Proof.
  intros Hf H1 H2 s Hs. rewrite st_bind_run. cbn [get_vm gets fst snd]. specialize (Hf _ Hs). unfold EspVmRun.keep_error in Hf.
  destruct (f (vm_of s)) as [e|v]; [by apply H1|]. rewrite st_bind_run. apply H2. unfold vm_inv, upd_vm, modify. cbn.
  by rewrite vm_of_put.
Qed.

Lemma vm_keeps_dispatch r : keeps vm_inv (dispatch natives nm version caps lifecycle r).
Proof.
  destruct (keeps_native_calls natives vm_inv (fun e args ascii He s Hs => Hsafe e args ascii He s Hs) r) as (N1 & N2 & N3).
  assert (Hn : keeps vm_inv (note lifecycle onStarted) /\ keeps vm_inv (note lifecycle onStopped) /\ keeps vm_inv (note lifecycle onReset)).
  { unfold note. destruct lifecycle as [l|]; [|by split_and!; apply keeps_ret]. destruct Hlife as (L1 & L2 & L3).
    split_and!; keeps_auto. }
  destruct Hn as (L1 & L2 & L3).
  assert (Hst : forall hook, keeps vm_inv (note lifecycle hook) -> forall g, (forall v, vm_wf v -> vm_wf (g v)) ->
    keeps vm_inv (upd_vm g ;; text ← get_vm EspVm.status; extra ← note lifecycle hook; mret (ok_reply (requestId r) (text ++ extra)))).
  { intros hook Hh g Hg. apply keeps_bind; [by apply vm_keeps_upd|]. intros []. apply keeps_bind; [apply keeps_gets|].
    intros t. apply keeps_bind; [done|]. intros e. apply keeps_ret. }
  unfold dispatch. repeat (apply keeps_if; intros _); try apply keeps_ret; auto.
  - unfold load_command. destruct (decodeHex (arguments r)) as [e|p] eqn:E; [apply keeps_ret|]. apply decodeHex_bytes in E.
    apply vm_keeps_replace; [|intros; apply keeps_ret|apply keeps_ret]. intros v Hv. by apply EspVmRun.load_wf.
  - unfold run_command. apply vm_keeps_replace; [apply EspVmRun.run_wf|intros; apply keeps_ret|].
    apply keeps_bind; [done|]. intros e. apply keeps_ret.
  - apply (Hst onStopped L2 EspVm.stop EspVmRun.stop_wf).
  - apply (Hst onReset L3 EspVm.reset EspVmRun.reset_wf).
  - apply keeps_bind; [apply keeps_gets|]. intros t. apply keeps_ret.
Qed.
End dispatcher.

(** ** The loop *)

Section loop.
Context {S : Type} `{Device S} {T : Type} (known : NativeRegistry (S := T)) (own : list (NativeEntry (S := S))).
Context (nm version : bytes) (caps : list bytes) (lifecycle : option (NoobVmLifecycle S)).
Context (services : list (st S (option bytes))) (transports : list (NoobTransport (S := S))).

Definition natives : NativeRegistry (S := S) := noob_natives known own.

(** What the noob's own parts must keep of a property of the device. *)
Definition parts_keep (I : S -> Prop) : Prop :=
  Forall (fun m => keeps I m) services
  /\ Forall (fun t => keeps I (tr_receive t) /\ forall m, keeps I (tr_send t m)) transports
  /\ match lifecycle with
     | None => True
     | Some l => keeps I (onStarted l) /\ keeps I (onStopped l) /\ keeps I (onReset l)
     end.

Lemma keeps_each {A} (I : S -> Prop) (f : A -> st S unit) l : Forall (fun x => keeps I (f x)) l -> keeps I (for_each f l).
Proof. induction 1 as [|x l Hx _ IH]; cbn; [apply keeps_ret|]. apply keeps_bind; [done|]. by intros []. Qed.

Lemma loop_keeps (I : S -> Prop) :
  parts_keep I -> keeps I (tick natives VM_BUDGET) -> Forall (fun m => keeps I m) (common_services natives) ->
  (forall r, keeps I (dispatch natives nm version caps lifecycle r)) ->
  keeps I (runtime_loop natives nm version caps lifecycle (common_services natives ++ services) transports).
Proof.
  intros (Hs & Ht & _) Htick Hc Hd. unfold runtime_loop. apply keeps_bind; [done|]. intros [].
  apply keeps_bind.
  - apply keeps_each, Forall_app. assert (Hsend : forall e, keeps I (for_each (fun t => tr_send t e) transports)).
    { intros e. apply keeps_each. eapply Forall_impl; [exact Ht|]. intros t [_ Hsend]. apply Hsend. }
    split; (eapply Forall_impl; [eassumption|]); intros m Hm; unfold run_service; (apply keeps_bind; [exact Hm|]);
      intros [[|c e]|]; try apply keeps_ret; apply Hsend.
  - intros []. apply keeps_each. eapply Forall_impl; [exact Ht|]. intros t [Hr Hsend]. unfold run_transport.
    apply keeps_bind; [done|]. intros [f|]; [|apply keeps_ret]. apply keeps_bind; [|apply Hsend].
    unfold answer_frame. destruct (parse f) as [request [error|]]; [apply keeps_ret|apply Hd].
Qed.

Lemma loop_keeps_vm :
  natives_safe own -> parts_keep vm_inv ->
  keeps vm_inv (runtime_loop natives nm version caps lifecycle (common_services natives ++ services) transports).
Proof.
  intros Hown Hp. pose proof (noob_natives_safe known own Hown) as Hsafe. fold natives in Hsafe.
  apply loop_keeps; [done| | |].
  - intros s Hs. by apply tick_safe.
  - unfold common_services. apply Forall_cons. split; [by apply vm_keeps_self_tick|].
    apply Forall_cons. split; [by apply vm_keeps_sequence_tick|by apply Forall_nil].
  - intros r. apply vm_keeps_dispatch; [done|]. apply Hp.
Qed.

Lemma loop_keeps_seq :
  natives_keep own -> parts_keep seq_inv ->
  keeps seq_inv (runtime_loop natives nm version caps lifecycle (common_services natives ++ services) transports).
Proof.
  intros Ho Hp. pose proof (noob_natives_keep known own Ho) as Hkeep. fold natives in Hkeep.
  assert (Hput : forall v (s : S), seq_inv s -> seq_inv (put_vm v s)) by (intros v s; unfold seq_inv; by rewrite seq_put_vm).
  apply loop_keeps; [done| | |].
  - apply keeps_tick; [done|apply keeps_millis|done].
  - unfold common_services. apply Forall_cons. split; [by apply seq_keeps_self_tick|].
    apply Forall_cons. split; [by apply sequence_tick_keeps|by apply Forall_nil].
  - intros r. apply machine_keeps_dispatch; [done|done|]. apply Hp.
Qed.

(** The loop, [n] times. *)
Fixpoint run_loop (n : nat) : st S unit :=
  match n with
  | O => mret tt
  | Datatypes.S n' =>
      runtime_loop natives nm version caps lifecycle (common_services natives ++ services) transports ;; run_loop n'
  end.

Lemma run_loop_keeps (I : S -> Prop) n :
  keeps I (runtime_loop natives nm version caps lifecycle (common_services natives ++ services) transports) ->
  keeps I (run_loop n).
Proof. intros Hl. induction n as [|n IH]; cbn [run_loop]; [apply keeps_ret|]. apply keeps_bind; [done|]. by intros []. Qed.

(** C3: The whole firmware keeps its components' invariants: on any device, with
    any native functions, services, transports and persistence hooks of its own
    that keep them, any number of passes of the main loop (so any frames, byte
    code, sequences and probes) leaves the byte-code machine inside its arrays
    and the sequence service inside its tracks.  The functions and services
    every noob registers are shown to meet the two components' assumptions. *)
Theorem runtime_invariant n (s : S) :
  natives_safe own -> natives_keep own -> parts_keep vm_inv -> parts_keep seq_inv ->
  vm_of s = vm_init -> seq_of s = sequence_init ->
  let s' := (run_loop n s).2 in
  overrun_ (vm_of s') = false /\ vm_wf (vm_of s') /\ seq_wf (seq_of s').
Proof.
  intros Hs Hk Pv Ps Ev Eq s'.
  assert (Hv : vm_inv s').
  { apply (run_loop_keeps vm_inv n (loop_keeps_vm Hs Pv)). unfold vm_inv. rewrite Ev. apply EspVmRun.vm_init_wf. }
  assert (Hq : seq_inv s').
  { apply (run_loop_keeps seq_inv n (loop_keeps_seq Hk Ps)). unfold seq_inv. rewrite Eq. apply sequence_init_wf. }
  split_and!; [|exact Hv|exact Hq]. apply Hv.
Qed.
End loop.

(** ** A device for the example *)

Record noob := Noob {
  noob_vm : NoobVm; noob_seq : sequence; noob_epoch : Z; noob_self : NoobSelfTest; noob_port : StreamTransport }.

#[global, refine] Instance noob_HasVm : HasVm noob :=
  {| vm_of := noob_vm; put_vm v s := Noob v (noob_seq s) (noob_epoch s) (noob_self s) (noob_port s) |}.
Proof. all: by intros; try destruct s. Defined.

(** A clock that stands still. *)
#[global, refine] Instance noob_HasClock : HasClock noob := {| millis := mret 1000 |}.
Proof. all: by intros. Defined.

#[global, refine] Instance noob_HasSequence : HasSequence noob :=
  {| seq_of := noob_seq; put_seq q s := Noob (noob_vm s) q (noob_epoch s) (noob_self s) (noob_port s) |}.
Proof. all: by intros. Defined.

#[global] Instance noob_HasEpoch : HasEpoch noob :=
  {| epoch_of := noob_epoch; put_epoch e s := Noob (noob_vm s) (noob_seq s) e (noob_self s) (noob_port s) |}.

#[global] Instance noob_HasSelfTest : HasSelfTest noob :=
  {| self_of := noob_self; put_self t s := Noob (noob_vm s) (noob_seq s) (noob_epoch s) t (noob_port s) |}.

#[global] Instance noob_Device : Device noob.
Proof. split; by intros. Defined.

Definition set_port (p : StreamTransport) (s : noob) : noob := Noob (noob_vm s) (noob_seq s) (noob_epoch s) (noob_self s) p.

Definition serial : NoobTransport (S := noob) :=
  Transport (fun s => let '(m, p) := receive (noob_port s) in (m, set_port p s))
            (fun m => modify (fun s => set_port (send m (noob_port s)) s)).

(** What SEQUENCE_SET sees of the registry. *)
Definition directory : NativeRegistry (S := unit) :=
  [Entry 1 (str "TIME_NOW") (NumericFunctionAdapter (fun _ => mret (failure [])))].

Definition session : bytes :=
  str "NRP/1 1 LOAD 010029000000 20010100 00 00" ++ [NL] ++ str "NRP/1 2 RUN" ++ [NL]
  ++ str "NRP/1 3 CALL_MIXED SEQUENCE_SET 0 5 1 2 3 0 " ++ [DQ; DQ; NL] ++ str "NRP/1 4 CALL SEQUENCE_START 0" ++ [NL].

Definition booted : noob := Noob vm_init sequence_init 0 self_test_init (Port session [] 2048 []).

Lemma noob_parts (I : noob -> Prop) :
  (forall p s, I s -> I (set_port p s)) -> parts_keep None [] [serial] I.
Proof.
  intros Hi. split_and!; [by apply Forall_nil| |done]. apply Forall_cons. split; [|by apply Forall_nil]. split.
  - intros s Hs. cbn. destruct (receive (noob_port s)). by apply Hi.
  - intros m s Hs. by apply Hi.
Qed.

Lemma no_natives_safe : natives_safe ([] : NativeRegistry (S := noob)).
Proof. intros e args ascii He. by apply elem_of_nil in He. Qed.

Lemma no_natives_keep : natives_keep ([] : NativeRegistry (S := noob)).
Proof. intros e args ascii He. by apply elem_of_nil in He. Qed.

(** Six passes: the program runs and halts, the sequence plays its first bit. *)
Lemma runtime_invariant_witness :
  let s' := (run_loop directory [] (str "demo") (str "1") [] None [] [serial] 6 booted).2 in
  (overrun_ (vm_of s') = false /\ vm_wf (vm_of s') /\ seq_wf (seq_of s'))
  /\ state_ (vm_of s') = HALTED /\ map position (tracks (seq_of s')) = [1; 0; 0; 0].
Proof.
  split.
  - apply (runtime_invariant directory [] (str "demo") (str "1") [] None [] [serial] 6 booted).
    + exact no_natives_safe.
    + exact no_natives_keep.
    + apply noob_parts. by intros.
    + apply noob_parts. by intros.
    + reflexivity.
    + reflexivity.
  - vm_compute. split; reflexivity.
Defined.
End EspRuntimeFacts.
