(* ===== verification/EspCard.v ===== *)
(** * The memory card behind the firmware's services

    The Arduino file system ([fs::FS]) is library code of the board, so it is an
    interface: [SdCard] lists the calls the services make and the documented
    behaviour they rely on.  Every call may fail, and a failing call may stand
    for a power cut: a card on which all later calls fail without effect obeys
    the laws, and a write that is cut leaves anything in the one file it writes.
    [ReliableCard] adds that calls succeed when they should.  Two instances: a
    plain map of paths, and a map with a list of faults to come. *)
From S2P Require Import Prelude CLib.

Open Scope Z_scope.

Module EspCard.

Inductive node := FileNode (data : bytes) | DirNode.

#[global] Instance node_eq_dec : EqDecision node.
Proof. solve_decision. Defined.

(** An entry of a directory listing. *)
Record dirent := Dirent { e_name : bytes; e_directory : bool; e_size : Z }.

Class CardOps (C : Type) := {
  content : C -> bytes -> option node;  (** what is stored under a path *)
  fs_mount : bool -> st C bool;         (** [SD.begin] or, over SDMMC, [SD_MMC.begin] *)
  fs_pins : st C bool;                  (** [SD_MMC.setPins] *)
  fs_card : st C bool;                  (** [cardType() != CARD_NONE] *)
  fs_exists : bytes -> st C bool;
  fs_remove : bytes -> st C bool;
  fs_rename : bytes -> bytes -> st C bool;
  fs_mkdir : bytes -> st C bool;
  fs_rmdir : bytes -> st C bool;
  fs_open : bytes -> st C (option bool);      (** [None] or [isDirectory()] *)
  fs_create : bytes -> st C bool;             (** [open(path, FILE_WRITE)] *)
  fs_write : bytes -> bytes -> st C Z;        (** into the file just created *)
  fs_extend : bytes -> st C bool;             (** [open(path, FILE_APPEND)] *)
  fs_append : bytes -> bytes -> st C Z;       (** behind what has been written *)
  fs_size : bytes -> st C Z;
  fs_seek : bytes -> Z -> st C bool;
  fs_read : bytes -> Z -> Z -> st C bytes;    (** at an offset, at most so many *)
  fs_entries : bytes -> st C (list dirent);   (** [openNextFile] until it fails *)
  fs_megabytes : st C (Z * Z)                 (** size and used space *)
}.

Section laws.
Context {C : Type} `{CardOps C}.

(** Two cards hold the same. *)
Definition same_card (c c' : C) : Prop := forall p, content c' p = content c p.
(** Two cards hold the same but at one path. *)
Definition same_but (p : bytes) (c c' : C) : Prop := forall q, q <> p -> content c' q = content c q.

#[global] Instance same_card_equiv : Equivalence same_card.
Proof. split; unfold same_card; [done|by intros ???|intros x y z H1 H2 p; by rewrite H2, H1]. Qed.
End laws.

Class SdCard (C : Type) `{CardOps C} := {
  mount_same b c : same_card c (fs_mount b c).2;
  pins_same c : same_card c (fs_pins c).2;
  card_same c : same_card c (fs_card c).2;
  exists_same p c : same_card c (fs_exists p c).2;
  exists_spec p c : (fs_exists p c).1 = bool_decide (content c p <> None);
  open_same p c : same_card c (fs_open p c).2;
  open_spec p c d : (fs_open p c).1 = Some d ->
    exists n, content c p = Some n /\ (d = bool_decide (n = DirNode));
  size_same p c : same_card c (fs_size p c).2;
  size_spec p c d : content c p = Some (FileNode d) -> (fs_size p c).1 = Z.of_nat (length d);
  seek_same p o c : same_card c (fs_seek p o c).2;
  read_same p o n c : same_card c (fs_read p o n c).2;
  read_spec p o n c d : content c p = Some (FileNode d) ->
    exists k, (k <= Z.to_nat n)%nat /\ (fs_read p o n c).1 = take k (drop (Z.to_nat o) d);
  read_dir p o n c : content c p = Some DirNode -> (fs_read p o n c).1 = [];
  entries_same p c : same_card c (fs_entries p c).2;
  megabytes_same c : same_card c (fs_megabytes c).2;
  remove_but p c : same_but p c (fs_remove p c).2;
  remove_spec p c : content (fs_remove p c).2 p = if (fs_remove p c).1 then None else content c p;
  rmdir_but p c : same_but p c (fs_rmdir p c).2;
  mkdir_but p c : same_but p c (fs_mkdir p c).2;
  mkdir_spec p c : content (fs_mkdir p c).2 p = if (fs_mkdir p c).1 then Some DirNode else content c p;
  rename_but p q c r : r <> p -> r <> q -> content (fs_rename p q c).2 r = content c r;
  rename_done p q c : p <> q -> (fs_rename p q c).1 = true ->
    content c p <> None /\ content (fs_rename p q c).2 q = content c p /\ content (fs_rename p q c).2 p = None;
  rename_failed p q c : (fs_rename p q c).1 = false -> same_card c (fs_rename p q c).2;
  create_but p c : same_but p c (fs_create p c).2;
  create_spec p c : content (fs_create p c).2 p = if (fs_create p c).1 then Some (FileNode []) else content c p;
  write_but p d c : same_but p c (fs_write p d c).2;
  write_done p d c : content c p = Some (FileNode []) -> (fs_write p d c).1 = Z.of_nat (length d) ->
    content (fs_write p d c).2 p = Some (FileNode d);
  extend_but p c : same_but p c (fs_extend p c).2;
  extend_spec p c : content (fs_extend p c).2 p =
    if (fs_extend p c).1 then (match content c p with None => Some (FileNode []) | n => n end) else content c p;
  append_but p d c : same_but p c (fs_append p d c).2;
  append_done p d c x : content c p = Some (FileNode x) -> (fs_append p d c).1 = Z.of_nat (length d) ->
    content (fs_append p d c).2 p = Some (FileNode (x ++ d))
}.

Definition SLASH : byte := 47.

(** A card without faults. *)
Class ReliableCard (C : Type) `{SdCard C} := {
  card_ok c : (fs_card c).1 = true;
  remove_ok p c d : content c p = Some (FileNode d) -> (fs_remove p c).1 = true;
  rename_ok p q c d : p <> q -> content c p = Some (FileNode d) -> content c q = None -> (fs_rename p q c).1 = true;
  create_ok dir nm c : (SLASH ∉ nm) -> content c dir = Some DirNode ->
    content c (dir ++ SLASH :: nm) <> Some DirNode -> (fs_create (dir ++ SLASH :: nm) c).1 = true;
  write_ok p d c : content c p = Some (FileNode []) -> (fs_write p d c).1 = Z.of_nat (length d);
  extend_ok dir nm c : (SLASH ∉ nm) -> content c dir = Some DirNode ->
    content c (dir ++ SLASH :: nm) <> Some DirNode -> (fs_extend (dir ++ SLASH :: nm) c).1 = true;
  append_ok p d c x : content c p = Some (FileNode x) -> (fs_append p d c).1 = Z.of_nat (length d);
  open_ok p c d : content c p = Some (FileNode d) -> (fs_open p c).1 = Some false;
  seek_ok p o c d : content c p = Some (FileNode d) -> 0 <= o <= Z.of_nat (length d) -> (fs_seek p o c).1 = true;
  read_ok p o n c d : content c p = Some (FileNode d) -> 0 <= n ->
    (fs_read p o n c).1 = take (Z.to_nat n) (drop (Z.to_nat o) d)
}.

(** ** Two cards *)

(** A map of paths, with a list of faults to come: 0 (or the end of the list) is
    success, and [k + 1] fails, in a write after [k] bytes. *)
Record card := Card { nodes : gmap bytes node; faults : list nat; present : bool }.

Definition fails (c : card) : option nat :=
  match faults c with Datatypes.S k :: _ => Some k | _ => None end.
Definition store_nodes (m : gmap bytes node) (c : card) : card := Card m (drop 1 (faults c)) (present c).
(** A changing call: done, or refused. *)
Definition attempt (able : bool) (m : gmap bytes node) : st card bool := fun c =>
  match fails c with
  | Some _ => (false, store_nodes (nodes c) c)
  | None => if able then (true, store_nodes m c) else (false, store_nodes (nodes c) c)
  end.

Definition node_at (c : card) (p : bytes) : option node := nodes c !! p.
Definition data_at (p : bytes) (c : card) : bytes := match node_at c p with Some (FileNode d) => d | _ => [] end.
Definition is_file (c : card) (p : bytes) : bool := match node_at c p with Some (FileNode _) => true | _ => false end.

(** The directory part of a path, up to its last slash. *)
Fixpoint parent (p : bytes) : bytes :=
  match p with
  | [] => []
  | c :: p' => if existsb (Z.eqb SLASH) p' then c :: parent p' else []
  end.

Definition card_rename (p q : bytes) : st card bool := fun c =>
  match node_at c p with
  | Some n => attempt (bool_decide (node_at c q = None)) (<[q := n]> (delete p (nodes c))) c
  | None => attempt false (nodes c) c
  end.

Definition card_write (p d : bytes) : st card Z := fun c =>
  let k := match fails c with Some k => Nat.min k (length d - 1) | None => length d end in
  (Z.of_nat k, store_nodes (<[p := FileNode (take k d)]> (nodes c)) c).

Definition card_append (p d : bytes) : st card Z := fun c =>
  let k := match fails c with Some k => Nat.min k (length d - 1) | None => length d end in
  (Z.of_nat k, store_nodes (<[p := FileNode (data_at p c ++ take k d)]> (nodes c)) c).

Definition card_extend (p : bytes) : st card bool := fun c =>
  attempt (bool_decide (node_at c p <> Some DirNode) && bool_decide (node_at c (parent p) = Some DirNode))
          (match node_at c p with None => <[p := FileNode []]> (nodes c) | Some _ => nodes c end) c.

Definition card_entries (dir : bytes) : st card (list dirent) := gets (fun c =>
  map (fun x : bytes * node =>
         Dirent x.1 (match x.2 with DirNode => true | _ => false end)
                (match x.2 with FileNode d => Z.of_nat (length d) | _ => 0 end))
      (filter (fun x => parent x.1 = dir) (map_to_list (nodes c)))).

#[global] Instance card_ops : CardOps card := {|
  content := node_at;
  fs_mount _ := gets present;
  fs_pins := mret true;
  fs_card := gets present;
  fs_exists p := gets (fun c => bool_decide (node_at c p <> None));
  fs_remove p := fun c => attempt (is_file c p) (delete p (nodes c)) c;
  fs_rename := card_rename;
  fs_mkdir p := fun c => attempt (bool_decide (node_at c p = None)) (<[p := DirNode]> (nodes c)) c;
  fs_rmdir p := fun c => attempt (bool_decide (node_at c p = Some DirNode)) (delete p (nodes c)) c;
  fs_open p := gets (fun c => match node_at c p with Some n => Some (bool_decide (n = DirNode)) | None => None end);
  fs_create p := fun c =>
    attempt (bool_decide (node_at c p <> Some DirNode) && bool_decide (node_at c (parent p) = Some DirNode))
            (<[p := FileNode []]> (nodes c)) c;
  fs_write := card_write;
  fs_extend := card_extend;
  fs_append := card_append;
  fs_size p := gets (fun c => Z.of_nat (length (data_at p c)));
  fs_seek p o := gets (fun c => o <=? Z.of_nat (length (data_at p c)));
  fs_read p o n := gets (fun c => take (Z.to_nat n) (drop (Z.to_nat o) (data_at p c)));
  fs_entries := card_entries;
  fs_megabytes := mret (1024, 1)
|}.

Lemma content_attempt able m c p :
  node_at (attempt able m c).2 p = if (attempt able m c).1 then m !! p else node_at c p.
Proof. unfold attempt. destruct (fails c), able; done. Qed.

Ltac card_law :=
  intros; unfold same_card, same_but in *; cbn in *; intros;
  rewrite ?content_attempt; unfold node_at in *;
  repeat case_match; simplify_map_eq; auto.

#[global] Instance card_SdCard : SdCard card.
Proof.
  split; try solve [card_law].
  - intros p c d. cbn. destruct (node_at c p) as [n|]; [|done]. intros [= <-]. eauto.
  - intros p c d E. cbn in *. unfold data_at. by rewrite E.
  - intros p o n c d E. cbn in *. unfold data_at. rewrite E. exists (Z.to_nat n). done.
  - intros p o n c E. cbn in *. unfold data_at. rewrite E. by rewrite drop_nil, take_nil.
  - intros p q c r Hp Hq. cbn. unfold card_rename. destruct (node_at c p) as [n|]; rewrite content_attempt; unfold node_at; case_match; by simplify_map_eq.
  - intros p q c Hpq. cbn. unfold card_rename. destruct (node_at c p) as [n|] eqn:E.
    + intros Hr. split; [done|]. rewrite !content_attempt, Hr. by simplify_map_eq.
    + intros Hr. exfalso. revert Hr. unfold attempt. by destruct (fails c).
  - intros p q c Hr r. cbn in *. unfold card_rename in *. destruct (node_at c p) as [n|]; rewrite content_attempt, Hr; done.
  - intros p d c _. cbn. unfold card_write, node_at. cbn. intros Hk.
    rewrite lookup_insert_eq, take_ge; [done|lia].
  - intros p c q Hq. cbn. unfold card_extend. rewrite content_attempt. unfold node_at. repeat case_match; by simplify_map_eq.
  - intros p c. cbn. unfold card_extend. rewrite content_attempt. unfold node_at.
    destruct (nodes c !! p) eqn:E; case_match; by simplify_map_eq.
  - intros p d c x E. cbn in *. unfold card_append, data_at. rewrite E. cbn. intros Hk.
    unfold node_at. cbn. rewrite lookup_insert_eq, take_ge; [done|lia].
Qed.

(** The same card without faults. *)
Record good_card := Good { good_nodes : gmap bytes node }.

Definition whole (g : good_card) : card := Card (good_nodes g) [] true.
Definition flawless {A} (m : st card A) : st good_card A := fun g => ((m (whole g)).1, Good (nodes (m (whole g)).2)).

#[global] Instance good_ops : CardOps good_card := {|
  content g := node_at (whole g);
  fs_mount b := flawless (fs_mount b);
  fs_pins := flawless fs_pins;
  fs_card := flawless fs_card;
  fs_exists p := flawless (fs_exists p);
  fs_remove p := flawless (fs_remove p);
  fs_rename p q := flawless (fs_rename p q);
  fs_mkdir p := flawless (fs_mkdir p);
  fs_rmdir p := flawless (fs_rmdir p);
  fs_open p := flawless (fs_open p);
  fs_create p := flawless (fs_create p);
  fs_write p d := flawless (fs_write p d);
  fs_extend p := flawless (fs_extend p);
  fs_append p d := flawless (fs_append p d);
  fs_size p := flawless (fs_size p);
  fs_seek p o := flawless (fs_seek p o);
  fs_read p o n := flawless (fs_read p o n);
  fs_entries p := flawless (fs_entries p);
  fs_megabytes := flawless fs_megabytes
|}.

#[global] Instance good_SdCard : SdCard good_card.
Proof.
  split.
  - exact (fun b c => mount_same b (whole c)).
  - exact (fun c => pins_same (whole c)).
  - exact (fun c => card_same (whole c)).
  - exact (fun p c => exists_same p (whole c)).
  - exact (fun p c => exists_spec p (whole c)).
  - exact (fun p c => open_same p (whole c)).
  - exact (fun p c => open_spec p (whole c)).
  - exact (fun p c => size_same p (whole c)).
  - exact (fun p c => size_spec p (whole c)).
  - exact (fun p o c => seek_same p o (whole c)).
  - exact (fun p o n c => read_same p o n (whole c)).
  - exact (fun p o n c => read_spec p o n (whole c)).
  - exact (fun p o n c => read_dir p o n (whole c)).
  - exact (fun p c => entries_same p (whole c)).
  - exact (fun c => megabytes_same (whole c)).
  - exact (fun p c => remove_but p (whole c)).
  - exact (fun p c => remove_spec p (whole c)).
  - exact (fun p c => rmdir_but p (whole c)).
  - exact (fun p c => mkdir_but p (whole c)).
  - exact (fun p c => mkdir_spec p (whole c)).
  - exact (fun p q c => rename_but p q (whole c)).
  - exact (fun p q c => rename_done p q (whole c)).
  - exact (fun p q c => rename_failed p q (whole c)).
  - exact (fun p c => create_but p (whole c)).
  - exact (fun p c => create_spec p (whole c)).
  - exact (fun p d c => write_but p d (whole c)).
  - exact (fun p d c => write_done p d (whole c)).
  - exact (fun p c => extend_but p (whole c)).
  - exact (fun p c => extend_spec p (whole c)).
  - exact (fun p d c => append_but p d (whole c)).
  - exact (fun p d c => append_done p d (whole c)).
Qed.

Lemma parent_in_dir dir nm : (SLASH ∉ nm) -> parent (dir ++ SLASH :: nm) = dir.
Proof.
  intros Hn. assert (E : existsb (Z.eqb SLASH) nm = false).
  { apply not_true_iff_false. intros (x & Hx & E)%existsb_exists. apply Z.eqb_eq in E as <-.
    by apply list_elem_of_In in Hx. }
  induction dir as [|c dir IH]; cbn; [by rewrite E|].
  replace (existsb (Z.eqb SLASH) (dir ++ SLASH :: nm)) with true; [by rewrite IH|].
  rewrite existsb_app. cbn. by rewrite orb_true_r.
Qed.

#[global] Instance good_ReliableCard : ReliableCard good_card.
Proof.
  split.
  - done.
  - intros p c d E. cbn in *. unfold is_file. by rewrite E.
  - intros p q c d Hpq Ep Eq. cbn in *. unfold card_rename. rewrite Ep, Eq. done.
  - intros dir nm c Hn Ed En. cbn in *. rewrite parent_in_dir, Ed by done. rewrite bool_decide_eq_true_2 by done. done.
  - done.
  - intros dir nm c Hn Ed En. cbn in *. unfold card_extend. rewrite parent_in_dir, Ed by done. rewrite bool_decide_eq_true_2 by done. done.
  - done.
  - intros p c d E. cbn in *. by rewrite E.
  - intros p o c d E Ho. cbn in *. unfold data_at. rewrite E. lia.
  - intros p o n c d E Hn. cbn in *. unfold data_at. by rewrite E.
Qed.
End EspCard.
