(* ===== verification/EspSd.v ===== *)
(** * esp/common/src/services/Esp32SdMmcService.cpp: the card service

    Mounting, path checks and the native functions that list, read and delete
    files on the card.  The card itself is the interface of EspCard.v. *)
From S2P Require Import Prelude CLib EspRecord EspRegistry EspVm EspDispatch EspCard.

Open Scope Z_scope.

Module EspSd.
Import EspRegistry EspDispatch EspCard.

(** The part of [Config] the service reads again, and its static variables. *)
Record sd {C : Type} := Sd {
  storageReady : bool; spiMode : bool;
  captureDirectory : option bytes; capturePrefix : option bytes;
  storage : C }.
Arguments sd : clear implicits.

Definition set_storage {C} (c : C) (s : sd C) : sd C :=
  Sd C (storageReady s) (spiMode s) (captureDirectory s) (capturePrefix s) c.

Definition hex_digits : bytes := str "0123456789ABCDEF".
Definition hexBytes (data : bytes) : bytes :=
  data ≫= fun b => [nth (Z.to_nat (Z.shiftr b 4)) hex_digits 0; nth (Z.to_nat (Z.land b 15)) hex_digits 0].

Definition READ_PATH_MAX_BYTES : Z := 512.

Definition contains (needle s : bytes) : bool := match strstr s needle with Some _ => true | None => false end.

Definition validPath (path : bytes) : bool :=
  (1 <? length path)%nat && (length path <? 192)%nat && (nth 0 path 0 =? SLASH)
  && negb (contains (str "..") path) && negb (existsb (Z.eqb 92) path).

(** [%08ld] of a number that is not negative. *)
Definition pad8 (n : Z) : bytes := let t := print_nat n in repeat 48 (8 - length t) ++ t.

Definition mega_text (spi : bool) (size used : Z) : bytes :=
  str "size_mb=" ++ print_nat size ++ str " used_mb=" ++ print_nat used ++ str " bus="
  ++ (if spi then str "spi" else str "sdmmc").

(** The entry of [list] at [cursor]; directories are not counted. *)
Fixpoint entry_at (position cursor : Z) (l : list dirent) : option dirent :=
  match l with
  | [] => None
  | e :: l' =>
      if e_directory e then entry_at position cursor l'
      else if position =? cursor then Some e else entry_at (i32 (position + 1)) cursor l'
  end.

(** The names of [listPath]: at most twenty entries, directories with a slash. *)
Fixpoint join_entries (names : bytes) (count : Z) (l : list dirent) : bytes * Z :=
  match l with
  | [] => (names, count)
  | e :: l' =>
      if 20 <=? count then (names, count)
      else join_entries ((match names with [] => [] | _ => names ++ str "," end)
                         ++ e_name e ++ (if e_directory e then str "/" else [])) (count + 1) l'
  end.

Definition eof_text (offset got total : Z) : bytes :=
  str " eof=" ++ print_nat (if total <=? u32 (offset + got) then 1 else 0).

Section service.
Context {C : Type} `{CardOps C}.

(** A call of the file system. *)
Definition on_card {A} (m : st C A) : st (sd C) A := fun s =>
  let '(a, c) := m (storage s) in (a, set_storage c s).

Definition begin (directory prefix : option bytes) (spi : bool) : st (sd C) bool :=
  modify (fun s => Sd C (storageReady s) spi directory prefix (storage s)) ;;
  pins ← (if spi then mret true else on_card fs_pins);
  if negb pins then mret false
  else
  mounted ← on_card (fs_mount spi);
  modify (fun s => Sd C mounted (spiMode s) (captureDirectory s) (capturePrefix s) (storage s)) ;;
  when mounted (match directory with Some d => on_card (fs_mkdir d) ;; mret tt | None => mret tt end) ;;
  mret mounted.

Definition ready : st (sd C) bool :=
  mounted ← gets storageReady;
  if mounted : bool then on_card fs_card else mret false.

Definition unavailable : NativeResult := failure (str "SD unavailable").

(** Run [m] when the card is ready. *)
Definition with_card (m : st (sd C) NativeResult) : st (sd C) NativeResult :=
  ready_ ← ready; if ready_ : bool then m else mret unavailable.

(** The empty string when there is no such capture; [snprintf] into 96 bytes. *)
Definition capturePath (sequence : Z) (s : sd C) : bytes :=
  match captureDirectory s, capturePrefix s with
  | Some directory, Some prefix =>
      if sequence <? 0 then []
      else snprintf 96 (directory ++ str "/" ++ prefix ++ pad8 sequence ++ str ".jpg")
  | _, _ => []
  end.

Definition status : st (sd C) NativeResult :=
  with_card (
    mb ← on_card fs_megabytes;
    spi ← gets spiMode;
    mret (result true (i32 mb.1) (mega_text spi mb.1 mb.2))).

Definition list_captures (arguments : list Z) : st (sd C) NativeResult :=
  with_card (
    let cursor := nth 0 arguments 0 in
    if cursor <? 0 then mret (failure (str "cursor must be nonnegative"))
    else
    directory ← gets (fun s => default [] (captureDirectory s));
    opened ← on_card (fs_open directory);
    match opened with
    | Some true =>
        entries ← on_card (fs_entries directory);
        mret (match entry_at 0 cursor entries with
              | Some e => result true (i32 (cursor + 1))
                            (str "cursor=" ++ print_int cursor ++ str " name=" ++ e_name e
                             ++ str " size=" ++ print_nat (e_size e) ++ str " eof=0")
              | None => result true cursor (str "cursor=" ++ print_int cursor ++ str " eof=1")
              end)
    | _ => mret (failure (str "capture directory unavailable"))
    end).

(** Read a piece of an opened file; [answer] prints it. *)
Definition read_piece (path : bytes) (offset wanted : Z) (answer : Z -> bytes -> bytes) : st (sd C) NativeResult :=
  total ← on_card (fs_size path);
  beyond ← (if total <? u32 offset then mret true else r ← on_card (fs_seek path offset); mret (negb r));
  if beyond : bool then mret (failure (str "offset beyond file"))
  else
  got ← on_card (fs_read path offset wanted);
  mret (result true (i32 (offset + Z.of_nat (length got))) (answer total got)).

Definition readChunk (arguments : list Z) : st (sd C) NativeResult :=
  with_card (
    if (length arguments <? 2)%nat then mret (failure (str "usage: sequence offset [length]"))
    else
    path ← gets (capturePath (nth 0 arguments 0));
    let offset := nth 1 arguments 0 in
    let wanted := nth 2 arguments 16 in
    if (length path =? 0)%nat || (offset <? 0) || (wanted <? 1) || (32 <? wanted)
    then mret (failure (str "invalid sequence, offset, or length (1..32)"))
    else
    opened ← on_card (fs_open path);
    match opened with
    | None => mret (failure (str "capture not found"))
    | Some _ =>
        read_piece path offset wanted (fun total got =>
          str "offset=" ++ print_int offset ++ str " size=" ++ print_nat total ++ str " data=" ++ hexBytes got
          ++ eof_text offset (Z.of_nat (length got)) total)
    end).

(** [readPathMixed] with one or two numbers. *)
Definition read_path (arguments : list Z) (path : bytes) : st (sd C) NativeResult :=
  with_card (
    if (2 <? length arguments)%nat then mret (failure (str "usage: offset [length], ASCII path"))
    else if negb (validPath path) then mret (failure (str "invalid absolute SD path"))
    else
    let offset := nth 0 arguments 0 in
    let wanted := nth 1 arguments 32 in
    if (offset <? 0) || (wanted <? 1) || (READ_PATH_MAX_BYTES <? wanted)
    then mret (failure (str "offset must be nonnegative; length 1..512"))
    else
    opened ← on_card (fs_open path);
    match opened with
    | Some false =>
        read_piece path offset wanted (fun total got =>
          str "path=" ++ path ++ str " offset=" ++ print_int offset ++ str " size=" ++ print_nat total
          ++ str " data=" ++ hexBytes got ++ eof_text offset (Z.of_nat (length got)) total)
    | _ => mret (failure (str "file not found"))
    end).

(** The old encoding: path, offset and length in one text. *)
Definition readPathChunk (arguments : bytes) : st (sd C) NativeResult :=
  with_card (
    let '(path, rest) := span (fun c => negb (c =? SP)) (trim arguments) in
    match path, rest with
    | _ :: _, _ :: rest =>
        let '(offsetText, more) := span (fun c => negb (c =? SP)) rest in
        let lengthText := match more with [] => str "32" | _ :: t => t end in
        read_path [toInt offsetText; toInt lengthText] path
    | _, _ => mret (failure (str "usage: path offset [length]"))
    end).

Definition readPathMixed (arguments : list Z) (path : bytes) : st (sd C) NativeResult :=
  match arguments with [] => readPathChunk path | _ => read_path arguments path end.

Definition remove (arguments : list Z) : st (sd C) NativeResult :=
  with_card (
    match arguments with
    | [] => mret (failure (str "usage: sequence"))
    | sequence :: _ =>
        path ← gets (capturePath sequence);
        found ← (if (length path =? 0)%nat then mret false else on_card (fs_exists path));
        if negb found then mret (failure (str "capture not found"))
        else
        removed ← on_card (fs_remove path);
        if negb removed then mret (failure (str "delete failed"))
        else mret (result true sequence (str "deleted=" ++ path))
    end).

Definition removePath (arguments : bytes) : st (sd C) NativeResult :=
  let path := trim arguments in
  with_card (
    if negb (validPath path) then mret (failure (str "invalid absolute SD path"))
    else
    target ← on_card (fs_open path);
    match target with
    | None => mret (failure (str "path not found"))
    | Some directory =>
        removed ← on_card (if directory : bool then fs_rmdir path else fs_remove path);
        if negb removed then mret (failure (str "delete failed or directory not empty"))
        else mret (result true 1 (str "deleted=" ++ path))
    end).

Definition listPath (arguments : bytes) : st (sd C) NativeResult :=
  let path := match trim arguments with [] => str "/" | t => t end in
  with_card (
    if negb (nth 0 path 0 =? SLASH) || contains (str "..") path then mret (failure (str "invalid absolute SD path"))
    else
    opened ← on_card (fs_open path);
    match opened with
    | Some true =>
        entries ← on_card (fs_entries path);
        let '(names, count) := join_entries [] 0 entries in
        mret (result true count (str "path=" ++ path ++ str " entries=" ++ names))
    | _ => mret (failure (str "directory unavailable"))
    end).
End service.
End EspSd.
