(* ===== verification/EspStore.v ===== *)
(** * esp/common/src/services/Esp32VmProgramStore.cpp: stored programs

    Named programs on the card, and the snapshot of the running one: the
    lifecycle hooks write the program and a run flag, each by writing a
    temporary file and renaming it over the old one, and [restoreLast] starts
    the machine again after a power cut. *)
From S2P Require Import Prelude CLib EspRecord EspRegistry EspVm EspDispatch EspCard EspSd.

Open Scope Z_scope.

Module EspStore.
Import EspRegistry EspVm EspDispatch EspCard EspSd.

(** ** Files *)

Definition tmp (path : bytes) : bytes := path ++ str ".tmp".
Definition bak (path : bytes) : bytes := path ++ str ".bak".

Section files.
Context {C : Type} `{CardOps C}.

(** The second half of [atomicWrite]: the temporary file is complete, and takes
    the place of the old one.  [None] is success, [Some] the error text. *)
Definition install (path : bytes) : st C (option bytes) :=
  fs_remove (bak path) ;;
  hadPrevious ← fs_exists path;
  preserved ← (if hadPrevious : bool then fs_rename path (bak path) else mret true);
  if negb preserved then
    fs_remove (tmp path) ;; mret (Some (str "cannot preserve previous " ++ path))
  else
  installed ← fs_rename (tmp path) path;
  if negb installed then
    (if hadPrevious : bool then fs_rename (bak path) path else mret true) ;;
    mret (Some (str "cannot install " ++ path))
  else
  fs_remove (bak path) ;;
  mret None.

Definition atomicWrite (path data : bytes) : st C (option bytes) :=
  fs_remove (tmp path) ;;
  opened ← fs_create (tmp path);
  if negb opened then mret (Some (str "cannot create " ++ tmp path))
  else
  written ← fs_write (tmp path) data;
  if negb (written =? Z.of_nat (length data)) then
    fs_remove (tmp path) ;;
    mret (Some (str "short write " ++ print_nat written ++ str "/" ++ print_nat (Z.of_nat (length data))))
  else install path.

Definition recoverFile (path : bytes) : st C unit :=
  fs_remove (tmp path) ;;
  there ← fs_exists path;
  kept ← (if there : bool then mret false else fs_exists (bak path));
  (if kept : bool then fs_rename (bak path) path else fs_remove (bak path)) ;;
  mret tt.

(** The program of the machine. *)
Definition programData (v : NoobVm) : bytes := take (Z.to_nat (programLength_ v)) (program_ v).

Definition writeRunFlag (path : bytes) (enabled : bool) : st C (option bytes) :=
  atomicWrite path [if enabled then 49 else 48].

Definition readRunFlag (path : bytes) : st C bool :=
  opened ← fs_open path;
  match opened with
  | None => mret false
  | Some _ => got ← fs_read path 0 1; mret (match got with [v] => v =? 49 | _ => false end)
  end.

Definition writeCurrentProgram (path : bytes) (v : NoobVm) : st C (option bytes) :=
  if programLength_ v =? 0 then mret (Some (str "VM has no program"))
  else atomicWrite path (programData v).

(** The three writes of [onStarted], stopping at the first error: the previous
    snapshot is disabled before it is replaced. *)
Definition write_snapshot (programPath runPath : bytes) (v : NoobVm) : st C (option bytes) :=
  e ← writeRunFlag runPath false;
  match e with
  | Some e => mret (Some e)
  | None =>
      e ← writeCurrentProgram programPath v;
      match e with
      | Some e => mret (Some e)
      | None => writeRunFlag runPath true
      end
  end.

Definition removeRuntimeFiles (programPath runPath : bytes) : st C unit :=
  for_each (fun p => fs_remove p ;; mret tt)
    [programPath; tmp programPath; bak programPath; runPath; tmp runPath; bak runPath].
End files.

(** ** Names *)

Definition validName (name : bytes) : bool :=
  negb (length name =? 0)%nat && (length name <=? 32)%nat
  && forallb (fun c => isalnum c || (c =? 45) || (c =? 95)) name.

(** ** The service's variables *)

Record store := Store {
  attached : bool;  (** [programVm] is set *)
  programDirectory : bytes; lastProgramPath : bytes; lastRunPath : bytes; persistenceStatus : bytes }.

Definition program_path (directory : bytes) : bytes := directory ++ str "/runtime_last.nvm".
Definition run_path (directory : bytes) : bytes := directory ++ str "/runtime_last.run".

Definition store_init : store := Store false [] [] [] (str "unavailable").

Definition pathFor (name : bytes) (s : store) : bytes :=
  let name := trim name in
  if negb (validName name) then []
  else programDirectory s ++ str "/" ++ (if starts_with (str "prog_") name then name else str "prog_" ++ name) ++ str ".nvm".

Definition legacyPathFor (name : bytes) (s : store) : bytes :=
  let name := trim name in
  if validName name then programDirectory s ++ str "/" ++ name ++ str ".nvm" else [].

(** The names of [list]: at most 32, directories left out. *)
Fixpoint program_names (names : bytes) (count : Z) (l : list dirent) : bytes * Z :=
  match l with
  | [] => (names, count)
  | e :: l' =>
      if 32 <=? count then (names, count)
      else if e_directory e then program_names names count l'
      else program_names ((match names with [] => [] | _ => names ++ str "," end) ++ e_name e) (count + 1) l'
  end.

(** A device with a card and a program store beside its machine. *)
Class HasStore (S C : Type) `{HasVm S} := {
  sd_of : S -> sd C;
  put_sd : sd C -> S -> S;
  store_of : S -> store;
  put_store : store -> S -> S;
  sd_of_put d s : sd_of (put_sd d s) = d;
  store_of_put q s : store_of (put_store q s) = q;
  sd_put_store q s : sd_of (put_store q s) = sd_of s;
  store_put_sd d s : store_of (put_sd d s) = store_of s;
  vm_put_sd d s : vm_of (put_sd d s) = vm_of s;
  vm_put_store q s : vm_of (put_store q s) = vm_of s;
  sd_put_vm v s : sd_of (put_vm v s) = sd_of s;
  store_put_vm v s : store_of (put_vm v s) = store_of s }.

Section store.
Context {S C : Type} `{HasClock S} `{!HasStore S C} `{CardOps C}.

Definition on_sd {A} (m : st (sd C) A) : st S A := fun s =>
  let '(a, d) := m (sd_of s) in (a, put_sd d s).
Definition on_fs {A} (m : st C A) : st S A := on_sd (on_card m).
Definition get_store {A} (f : store -> A) : st S A := gets (fun s => f (store_of s)).
Definition upd_store (f : store -> store) : st S unit := modify (fun s => put_store (f (store_of s)) s).

Definition set_status (text : bytes) : st S unit :=
  upd_store (fun q => Store (attached q) (programDirectory q) (lastProgramPath q) (lastRunPath q) text).

Definition disable_run : st S unit :=
  q ← get_store (fun q => q);
  on_fs (writeRunFlag (lastRunPath q) false) ;; mret tt.

(** [if (!programVm) return ...]. *)
Definition when_attached {A} (otherwise : A) (m : st S A) : st S A :=
  b ← get_store attached; if b : bool then m else mret otherwise.

Definition no_persistence : bytes := str "persistence=unavailable".

Definition store_onStarted : st S bytes :=
  when_attached no_persistence (
    q ← get_store (fun q => q);
    v ← get_vm (fun v => v);
    e ← on_fs (write_snapshot (lastProgramPath q) (lastRunPath q) v);
    match e with
    | Some e => disable_run ;; set_status (str "error:" ++ e) ;; mret (str "persistence=failed")
    | None => set_status (str "stored:autorun") ;; mret (str "persistence=stored autorun=1")
    end).

Definition store_onStopped : st S bytes :=
  when_attached no_persistence (
    q ← get_store (fun q => q);
    e ← on_fs (writeRunFlag (lastRunPath q) false);
    match e with
    | Some e => set_status (str "error:" ++ e) ;; mret (str "persistence=failed")
    | None => set_status (str "stored:stopped") ;; mret (str "persistence=stored autorun=0")
    end).

Definition clear_files : st S unit :=
  q ← get_store (fun q => q);
  on_fs (removeRuntimeFiles (lastProgramPath q) (lastRunPath q)) ;;
  set_status (str "cleared").

Definition store_onReset : st S bytes :=
  when_attached no_persistence (clear_files ;; mret (str "persistence=cleared")).

Definition storeLifecycle : NoobVmLifecycle S := Lifecycle S store_onStarted store_onStopped store_onReset.

Definition begin (directory : option bytes) : st S bool :=
  present ← on_sd ready;
  match present, directory with
  | true, Some directory =>
      upd_store (fun q => Store true directory (lastProgramPath q) (lastRunPath q) (persistenceStatus q)) ;;
      there ← on_fs (fs_exists directory);
      usable ← (if there : bool then mret true else on_fs (fs_mkdir directory));
      if negb usable then mret false
      else
      upd_store (fun q => Store (attached q) directory (program_path directory) (run_path directory) (persistenceStatus q)) ;;
      q ← get_store (fun q => q);
      on_fs (recoverFile (lastProgramPath q)) ;;
      on_fs (recoverFile (lastRunPath q)) ;;
      set_status (str "ready") ;;
      mret true
  | _, _ => mret false
  end.

Definition store_unavailable : NativeResult := failure (str "program store unavailable").

(** Give up a restore: no automatic start next time. *)
Definition refuse_restore (text : bytes) (r : NativeResult) : st S NativeResult :=
  disable_run ;; set_status (str "error:" ++ text) ;; mret r.

(** The program is in memory: load it and start it when the flag says so. *)
Definition start_restored (program : bytes) : st S NativeResult :=
  let length := Z.of_nat (length program) in
  q ← get_store (fun q => q);
  loaded ← get_vm (load program);
  match loaded with
  | inl e => refuse_restore e (failure e)
  | inr v =>
      upd_vm (fun _ => v) ;;
      autorun ← on_fs (readRunFlag (lastRunPath q));
      started ← get_vm run;
      match autorun, started with
      | true, inl e => refuse_restore e (result false length e)
      | _, _ =>
          (match autorun, started with true, inr v => upd_vm (fun _ => v) | _, _ => mret tt end) ;;
          set_status (if autorun : bool then str "restored:autorun" else str "restored:ready") ;;
          mret (result true length (str "restored=" ++ lastProgramPath q ++ str " autorun=" ++
                                    print_nat (if autorun : bool then 1 else 0)))
      end
  end.

Definition restoreLast : st S NativeResult :=
  when_attached store_unavailable (
    q ← get_store (fun q => q);
    opened ← on_fs (fs_open (lastProgramPath q));
    match opened with
    | None => set_status (str "ready:none") ;; mret (result true 0 (str "restored=none autorun=0"))
    | Some _ =>
        length ← on_fs (fs_size (lastProgramPath q));
        if (length =? 0) || (PROGRAM_BYTES <? length)
        then refuse_restore (str "invalid runtime program") (result false (i32 length) (str "invalid runtime program size"))
        else
        program ← on_fs (fs_read (lastProgramPath q) 0 length);
        let got := Z.of_nat (Datatypes.length program) in
        if negb (got =? length)
        then refuse_restore (str "short runtime read") (result false (i32 got) (str "runtime program read failed"))
        else start_restored program
    end).

Definition lastStatus (arguments : list Z) : st S NativeResult :=
  match arguments with
  | _ :: _ => mret (failure (str "usage: no arguments"))
  | [] =>
      when_attached store_unavailable (
        q ← get_store (fun q => q);
        opened ← on_fs (fs_open (lastProgramPath q));
        length ← (match opened with Some _ => l ← on_fs (fs_size (lastProgramPath q)); mret (i32 l) | None => mret 0 end);
        autorun ← (if length =? 0 then mret false else on_fs (readRunFlag (lastRunPath q)));
        mret (result true (if autorun : bool then 1 else 0)
                (str "stored=" ++ print_nat (if length =? 0 then 0 else 1) ++ str " bytes=" ++ print_int length
                 ++ str " autorun=" ++ print_nat (if autorun : bool then 1 else 0) ++ str " state=" ++ persistenceStatus q)))
  end.

Definition clearLast (arguments : list Z) : st S NativeResult :=
  match arguments with
  | _ :: _ => mret (failure (str "usage: no arguments"))
  | [] => when_attached store_unavailable (clear_files ;; mret (result true 1 (str "runtime snapshot cleared")))
  end.

Definition save (arguments : bytes) : st S NativeResult :=
  when_attached store_unavailable (
    path ← get_store (pathFor arguments);
    if (length path =? 0)%nat then mret (failure (str "invalid program name"))
    else
    v ← get_vm (fun v => v);
    let length := programLength_ v in
    if length =? 0 then mret (failure (str "VM has no program"))
    else
    there ← on_fs (fs_exists path);
    (if there : bool then on_fs (fs_remove path) else mret true) ;;
    opened ← on_fs (fs_create path);
    if negb opened then mret (failure (str "cannot create program"))
    else
    on_fs (fs_seek path 0) ;;
    written ← on_fs (fs_write path (programData v));
    if negb (written =? length) then mret (result false (i32 written) (str "program write failed"))
    else mret (result true (i32 length) (str "saved=" ++ path))).

Definition storeBytes (name data : bytes) (replace : bool) : st S NativeResult :=
  when_attached store_unavailable (
    let length := Z.of_nat (length data) in
    if (length =? 0) || (PROGRAM_BYTES <? length) then mret (failure (str "invalid VM size"))
    else
    path ← get_store (pathFor name);
    if (Datatypes.length path =? 0)%nat then mret (failure (str "invalid program name"))
    else
    taken ← (if replace then mret false else on_fs (fs_exists path));
    if taken : bool then mret (failure (str "saved program already exists"))
    else
    e ← on_fs (atomicWrite path data);
    match e with
    | Some e => mret (failure e)
    | None => mret (result true length (str "saved=" ++ path ++ str " active_vm_unchanged=1"))
    end).

(** The saved program's file, under its name or its legacy name. *)
Definition open_saved (arguments : bytes) : st S (option bytes) :=
  path ← get_store (pathFor arguments);
  opened ← on_fs (fs_open path);
  match opened with
  | Some _ => mret (Some path)
  | None =>
      path ← get_store (legacyPathFor arguments);
      opened ← on_fs (fs_open path);
      mret (match opened with Some _ => Some path | None => None end)
  end.

Definition load_saved (arguments : bytes) : st S NativeResult :=
  when_attached store_unavailable (
    path ← get_store (pathFor arguments);
    if (length path =? 0)%nat then mret (failure (str "invalid program name"))
    else
    opened ← open_saved arguments;
    match opened with
    | None => mret (failure (str "saved program not found"))
    | Some path =>
        length ← on_fs (fs_size path);
        if (length =? 0) || (PROGRAM_BYTES <? length)
        then mret (result false (i32 length) (str "invalid saved program size"))
        else
        program ← on_fs (fs_read path 0 length);
        let got := Z.of_nat (Datatypes.length program) in
        if negb (got =? length) then mret (result false (i32 got) (str "program read failed"))
        else
        loaded ← get_vm (load program);
        match loaded with
        | inl e => mret (failure e)
        | inr v => upd_vm (fun _ => v) ;; mret (result true length (str "loaded=" ++ path))
        end
    end).

Definition list_saved (_ : bytes) : st S NativeResult :=
  when_attached store_unavailable (
    directory ← get_store programDirectory;
    opened ← on_fs (fs_open directory);
    match opened with
    | Some true =>
        entries ← on_fs (fs_entries directory);
        let '(names, count) := program_names [] 0 entries in
        mret (result true count (str "programs=" ++ names))
    | _ => mret (failure (str "program directory unavailable"))
    end).

Definition remove_saved (arguments : bytes) : st S NativeResult :=
  path ← get_store (pathFor arguments);
  if (length path =? 0)%nat then mret (failure (str "invalid program name"))
  else
  removed ← on_fs (fs_remove path);
  if removed : bool then mret (result true 1 (str "deleted=" ++ path))
  else
  path ← get_store (legacyPathFor arguments);
  removed ← on_fs (fs_remove path);
  if negb removed then mret (failure (str "saved program not found"))
  else mret (result true 1 (str "deleted=" ++ path)).
End store.
End EspStore.
