(* ===== verification/EspStoreFacts.v ===== *)
(** * Stored programs survive a power cut

    Whatever calls of the card fail, and wherever power is lost, a file written
    by [atomicWrite] has its old or its new content after recovery, and the
    snapshot of the running program never starts a program it should not. *)
From S2P Require Import Prelude CLib EspRecord EspRegistry EspVm EspVmFacts EspDispatch EspCard EspSd EspStore.

Open Scope Z_scope.

Module EspStoreFacts.
Import EspRegistry EspVm EspVmFacts EspDispatch EspCard EspSd EspStore.

Lemma neq_tmp p : p <> tmp p.
Proof. intros E%(f_equal length). unfold tmp in E. rewrite length_app in E. cbn in E. lia. Qed.
Lemma neq_bak p : p <> bak p.
Proof. intros E%(f_equal length). unfold bak in E. rewrite length_app in E. cbn in E. lia. Qed.
Lemma tmp_bak p : tmp p <> bak p.
Proof. unfold tmp, bak. intros E. apply app_inv_head in E. done. Qed.
#[export] Hint Resolve neq_tmp neq_bak tmp_bak not_eq_sym : noobia.

Section files.
Context {C : Type} `{SdCard C}.
Implicit Types (c : C) (p q : bytes).

(** What a file means: its content or, between two renames, its backup. *)
Definition settled c p : option node :=
  match content c p with Some n => Some n | None => content c (bak p) end.

(** No backup is left over from a failed recovery. *)
Definition clean c p : Prop := content c p = None -> content c (bak p) = None.

(** Paths [atomicWrite p] does not touch. *)
Definition apart p q : Prop := q <> p /\ q <> tmp p /\ q <> bak p.

Lemma remove_cases p c : content (fs_remove p c).2 p = None \/ content (fs_remove p c).2 p = content c p.
Proof. rewrite remove_spec. destruct (fs_remove p c).1; auto. Qed.

Lemma remove_keeps p q c : q <> p -> content (fs_remove p c).2 q = content c q.
Proof. apply remove_but. Qed.

(** Every call, seen from a path it may change. *)
Ltac see_card :=
  repeat first
    [ rewrite remove_keeps by auto with noobia
    | rewrite (create_but _ _ _) by auto with noobia
    | rewrite (write_but _ _ _ _) by auto with noobia
    | rewrite exists_same | rewrite open_same | rewrite size_same | rewrite read_same | rewrite seek_same ].

Lemma install_apart p c q : apart p q -> content (install p c).2 q = content c q.
Proof.
  intros (Hp & Ht & Hb). unfold install. run_st.
  repeat first [progress run_st | split_if]; see_card; rewrite ?rename_but by auto with noobia; see_card;
    rewrite ?rename_but by auto with noobia; see_card; done.
Qed.

Lemma atomicWrite_apart p d c q : apart p q -> content (atomicWrite p d c).2 q = content c q.
Proof.
  intros Hq. pose proof Hq as (Hp & Ht & Hb). unfold atomicWrite. run_st.
  repeat first [progress run_st | split_if]; rewrite ?install_apart by done; see_card; done.
Qed.

(** Putting the temporary file in place: the new content, or the old one as far
    as it was not already only a backup. *)
Lemma install_spec p c d :
  content c (tmp p) = Some (FileNode d) ->
  let r := install p c in
  (r.1 = None -> content r.2 p = Some (FileNode d))
  /\ (r.1 <> None -> settled r.2 p = settled c p \/ (settled r.2 p = None /\ ~ clean c p)).
Proof.
  intros Ht. unfold install. run_st. rewrite exists_spec, remove_keeps by auto with noobia.
  set (c1 := (fs_exists p (fs_remove (bak p) c).2).2).
  assert (E1 : content c1 p = content c p) by (unfold c1; see_card; done).
  assert (T1 : content c1 (tmp p) = Some (FileNode d)) by (unfold c1; see_card; done).
  assert (B1 : content c1 (bak p) = None \/ content c1 (bak p) = content c (bak p))
    by (unfold c1; rewrite exists_same; apply remove_cases).
  clearbody c1. unfold settled, clean. destruct (content c p) as [old|] eqn:Ep.
  - rewrite bool_decide_eq_true_2 by done. destruct (fs_rename p (bak p) c1).1 eqn:R; cbn [negb].
    + apply rename_done in R as (_ & R2 & R3); [|apply neq_bak].
      set (c2 := (fs_rename p (bak p) c1).2) in *.
      assert (T2 : content c2 (tmp p) = Some (FileNode d)) by (unfold c2; rewrite rename_but; auto with noobia).
      clearbody c2. destruct (fs_rename (tmp p) p c2).1 eqn:R'; run_st; rewrite R'; cbn [negb]; run_st.
      * split; [intros _; see_card|done]. apply rename_done in R' as (_ & R4 & _); [|auto with noobia]. congruence.
      * split; [done|]. intros _. left. pose proof (rename_failed _ _ _ R') as S3. unfold same_card in S3.
        set (c3 := (fs_rename (tmp p) p c2).2) in *. clearbody c3.
        destruct (fs_rename (bak p) p c3).1 eqn:R4.
        -- apply rename_done in R4 as (_ & R5 & _); [|auto with noobia]. by rewrite R5, S3, R2, E1.
        -- rewrite !(rename_failed _ _ _ R4), !S3, R3. congruence.
    + run_st. split; [done|]. intros _. left. see_card. by rewrite (rename_failed _ _ _ R), E1.
  - rewrite bool_decide_eq_false_2 by (intros X; by apply X). cbn.
    destruct (fs_rename (tmp p) p c1).1 eqn:R'; run_st; rewrite R'; cbn [negb]; run_st.
    + split; [intros _; see_card|done]. apply rename_done in R' as (_ & R4 & _); [|auto with noobia]. congruence.
    + split; [done|]. intros _. rewrite !(rename_failed _ _ _ R'), E1.
      destruct B1 as [B1|B1]; [|left; done]. rewrite B1. destruct (content c (bak p)); [right|left; done].
      split; [done|]. intros X. by specialize (X eq_refl).
Qed.

Lemma atomicWrite_spec p d c :
  let r := atomicWrite p d c in
  (r.1 = None -> content r.2 p = Some (FileNode d))
  /\ (r.1 <> None -> settled r.2 p = settled c p \/ (settled r.2 p = None /\ ~ clean c p)).
Proof.
  unfold atomicWrite. run_st. destruct (fs_create (tmp p) _).1 eqn:Ec; cbn [negb].
  2:{ run_st. split; [done|]. left. unfold settled. by see_card. }
  run_st. set (c1 := (fs_create (tmp p) (fs_remove (tmp p) c).2).2) in *.
  assert (T1 : content c1 (tmp p) = Some (FileNode [])) by (unfold c1; by rewrite create_spec, Ec).
  assert (P1 : content c1 p = content c p) by (unfold c1; by see_card).
  assert (B1 : content c1 (bak p) = content c (bak p)) by (unfold c1; by see_card).
  clearbody c1. clear Ec. destruct (Z.eqb_spec (fs_write (tmp p) d c1).1 (Z.of_nat (length d))) as [Ew|Ew]; cbn [negb].
  - pose proof (install_spec p (fs_write (tmp p) d c1).2 d (write_done _ _ _ T1 Ew)) as HI. cbn in HI.
    unfold settled, clean in *. rewrite !(write_but (tmp p) d c1 _) in HI by auto with noobia. by rewrite P1, B1 in HI.
  - run_st. split; [done|]. left. unfold settled. see_card. by rewrite P1, B1.
Qed.

(** ** Recovery *)

Lemma recoverFile_apart p q c : apart p q -> content (recoverFile p c).2 q = content c q.
Proof.
  intros (Hp & Ht & Hb). unfold recoverFile. run_st.
  repeat first [progress run_st | split_if]; see_card; rewrite ?rename_but by auto with noobia; see_card; done.
Qed.

Lemma recoverFile_settled p c : settled (recoverFile p c).2 p = settled c p.
Proof.
  unfold recoverFile. run_st. rewrite exists_spec, remove_keeps by auto with noobia. unfold settled.
  destruct (content c p) as [n|] eqn:Ep.
  - rewrite bool_decide_eq_true_2 by done. run_st. see_card. by rewrite Ep.
  - rewrite bool_decide_eq_false_2 by (intros X; by apply X). rewrite exists_spec. see_card.
    destruct (content c (bak p)) as [o|] eqn:Eb.
    + rewrite bool_decide_eq_true_2 by done. run_st. set (c1 := (fs_exists _ _).2).
      assert (Ep1 : content c1 p = None) by (unfold c1; by see_card).
      assert (Eb1 : content c1 (bak p) = Some o) by (unfold c1; by see_card).
      clearbody c1. destruct (fs_rename (bak p) p c1).1 eqn:R.
      * apply rename_done in R as (_ & R & _); [|auto with noobia]. by rewrite R, Eb1.
      * by rewrite !(rename_failed _ _ _ R), Ep1, Eb1.
    + rewrite bool_decide_eq_false_2 by (intros X; by apply X). run_st. set (c1 := (fs_exists _ _).2).
      assert (Ep1 : content c1 p = None) by (unfold c1; by see_card).
      assert (Eb1 : content c1 (bak p) = None) by (unfold c1; by see_card).
      clearbody c1. see_card. rewrite Ep1. destruct (remove_cases (bak p) c1) as [->| ->]; done.
Qed.

(** ** The snapshot *)

(** The run flag says that the program is to be started. *)
Definition autoruns c p : Prop := exists t, settled c p = Some (FileNode (49 :: t)).

Definition disjoint_files p q : Prop := (forall x, x ∈ [p; bak p] -> apart q x) /\ (forall x, x ∈ [q; bak q] -> apart p x).

Lemma atomicWrite_other p d c q : disjoint_files p q ->
  settled (atomicWrite p d c).2 q = settled c q /\ (clean c q -> clean (atomicWrite p d c).2 q).
Proof.
  intros [_ Hq]. unfold settled, clean. rewrite !atomicWrite_apart; [done|apply Hq; set_solver..].
Qed.

Lemma disjoint_sym p q : disjoint_files p q -> disjoint_files q p.
Proof. by intros [? ?]. Qed.

(** Disabling the flag once more never enables it. *)
Lemma disable_autoruns run c : autoruns (atomicWrite run [48] c).2 run -> autoruns c run.
Proof.
  unfold autoruns. intros [t Ht]. pose proof (atomicWrite_spec run [48] c) as [H1 H2]. cbn in H1, H2.
  destruct (atomicWrite run [48] c) as [[e|] c']; cbn in *.
  - destruct (H2 ltac:(done)) as [E|[E _]]; rewrite E in Ht; [eauto|done].
  - unfold settled in Ht. by rewrite H1 in Ht.
Qed.

(** A write from a clean state, seen through [settled]. *)
Lemma atomicWrite_settled p d c :
  clean c p -> settled (atomicWrite p d c).2 p = (match (atomicWrite p d c).1 with None => Some (FileNode d) | Some _ => settled c p end).
Proof.
  intros Hc. pose proof (atomicWrite_spec p d c) as [H1 H2]. cbn in H1, H2.
  destruct (atomicWrite p d c).1; [by destruct (H2 ltac:(done)) as [E|[_ E]]|]. unfold settled. by rewrite H1.
Qed.

Lemma atomicWrite_done p d c : (atomicWrite p d c).1 = None -> content (atomicWrite p d c).2 p = Some (FileNode d).
Proof. apply atomicWrite_spec. Qed.

Lemma not_autoruns c p t : settled c p = Some (FileNode (48 :: t)) -> ~ autoruns c p.
Proof. intros E [u Hu]. congruence. Qed.

Lemma clean_done c p n : content c p = Some n -> clean c p.
Proof. intros E. unfold clean. by rewrite E. Qed.

Lemma settled_done c p n : content c p = Some n -> settled c p = Some n.
Proof. intros E. unfold settled. by rewrite E. Qed.

(** The program write leaves the flag alone. *)
Lemma writeCurrentProgram_spec prog run v c :
  disjoint_files prog run -> clean c prog ->
  let r := writeCurrentProgram prog v c in
  settled r.2 prog = (match r.1 with None => Some (FileNode (programData v)) | Some _ => settled c prog end)
  /\ (r.1 = None -> content r.2 prog = Some (FileNode (programData v)))
  /\ settled r.2 run = settled c run /\ (clean c run -> clean r.2 run).
Proof.
  intros D Hc. unfold writeCurrentProgram. destruct (programLength_ v =? 0); [done|]. cbn.
  split; [by apply atomicWrite_settled|]. split; [apply atomicWrite_done|]. by apply atomicWrite_other.
Qed.

(** What a start leaves on the card, wherever it is cut. *)
Lemma snapshot_safe prog run v c :
  disjoint_files prog run -> clean c prog -> clean c run ->
  let r := write_snapshot prog run v c in
  let c' := match r.1 with Some _ => (writeRunFlag run false r.2).2 | None => r.2 end in
  (r.1 = None -> content c' prog = Some (FileNode (programData v)) /\ content c' run = Some (FileNode [49]))
  /\ (autoruns c' run -> settled c' prog = Some (FileNode (programData v))
                         \/ (settled c' prog = settled c prog /\ autoruns c run)).
Proof.
  intros D Cp Cr. unfold write_snapshot.
  change (writeRunFlag run false) with (atomicWrite (C := C) run [48]). change (writeRunFlag run true) with (atomicWrite (C := C) run [49]). run_st.
  pose proof (atomicWrite_settled run [48] c Cr) as S1. pose proof (atomicWrite_done run [48] c) as W1.
  destruct (atomicWrite_other run [48] c prog (disjoint_sym _ _ D)) as [P1 C1]. specialize (C1 Cp).
  destruct (atomicWrite run [48] c) as [[e|] c1]; cbn in *.
  { split; [done|]. intros A. right. destruct (atomicWrite_other run [48] c1 prog (disjoint_sym _ _ D)) as [-> _].
    split; [done|]. apply disable_autoruns in A as [t A]. exists t. by rewrite <- S1. }
  specialize (W1 eq_refl). run_st.
  destruct (writeCurrentProgram_spec prog run v c1 D C1) as (S2 & W2 & R2 & _). cbn in S2, W2, R2.
  destruct (writeCurrentProgram prog v c1) as [[e|] c2]; cbn in *.
  { split; [done|]. intros A%disable_autoruns. exfalso. revert A. eapply not_autoruns. by rewrite R2, S1. }
  specialize (W2 eq_refl).
  pose proof (atomicWrite_settled run [49] c2) as S3. pose proof (atomicWrite_done run [49] c2) as W3.
  pose proof (atomicWrite_apart run [49] c2 prog) as P3.
  assert (apart run prog) as A1 by (apply D; set_solver). specialize (P3 A1).
  destruct (atomicWrite run [49] c2) as [[e|] c3]; cbn in *.
  - split; [done|]. intros _. left. apply settled_done. rewrite atomicWrite_apart by done. by rewrite P3, W2.
  - split; [intros _; split; [by rewrite P3|by apply W3]|]. intros _. left. apply settled_done. by rewrite P3.
Qed.
End files.

(** ** The device *)

Lemma snapshot_disjoint dir : disjoint_files (program_path dir) (run_path dir).
Proof.
  unfold disjoint_files, apart, program_path, run_path, tmp, bak.
  split; intros x Hx; repeat (apply elem_of_cons in Hx as [->|Hx]); try (by apply elem_of_nil in Hx);
    split_and!; intros E; rewrite <- ?app_assoc in E; by apply app_inv_head in E.
Qed.

Lemma dir_outside (dir x : bytes) : x <> [] -> dir ++ x <> dir.
Proof. intros Hx E%(f_equal length). rewrite length_app in E. destruct x; [done|cbn in E; lia]. Qed.

Create Rewrite HintDb device.
#[local] Arguments str : simpl never.

Section device.
Context {S C : Type} `{HasClock S} `{!HasStore S C} `{HC : SdCard C}.
Implicit Types s : S.

Definition card_of s : C := storage (sd_of s).

Lemma on_sd_run {A} (m : st (sd C) A) s : on_sd m s = ((m (sd_of s)).1, put_sd (m (sd_of s)).2 s).
Proof. unfold on_sd. by destruct (m (sd_of s)). Qed.

Lemma on_fs_run {A} (m : st C A) s :
  on_fs m s = ((m (card_of s)).1, put_sd (set_storage (m (card_of s)).2 (sd_of s)) s).
Proof. unfold on_fs. rewrite on_sd_run. unfold on_card, card_of. by destruct (m (storage (sd_of s))). Qed.

Lemma on_fs_result {A} (m : st C A) s : (on_fs m s).1 = (m (card_of s)).1.
Proof. by rewrite on_fs_run. Qed.
Lemma card_on_fs {A} (m : st C A) s : card_of (on_fs m s).2 = (m (card_of s)).2.
Proof. rewrite on_fs_run. unfold card_of. cbn. by rewrite sd_of_put. Qed.
Lemma store_on_fs {A} (m : st C A) s : store_of (on_fs m s).2 = store_of s.
Proof. rewrite on_fs_run. cbn. by rewrite store_put_sd. Qed.
Lemma vm_on_fs {A} (m : st C A) s : vm_of (on_fs m s).2 = vm_of s.
Proof. rewrite on_fs_run. cbn. by rewrite vm_put_sd. Qed.
Lemma card_put_store q s : card_of (put_store q s) = card_of s.
Proof. unfold card_of. by rewrite sd_put_store. Qed.
Lemma card_put_vm v s : card_of (put_vm v s) = card_of s.
Proof. unfold card_of. by rewrite sd_put_vm. Qed.
#[local] Hint Rewrite @on_fs_result @card_on_fs @store_on_fs @vm_on_fs @card_put_store @card_put_vm
  @store_of_put @vm_of_put @vm_put_store @store_put_vm : device.

Lemma ready_same s : same_card (card_of s) (card_of (on_sd ready s).2).
Proof.
  rewrite on_sd_run. unfold card_of. cbn. rewrite sd_of_put. unfold ready. run_st.
  destruct (storageReady (sd_of s)); [|done]. unfold on_card. destruct (fs_card (storage (sd_of s))) eqn:E. cbn.
  replace c with (fs_card (storage (sd_of s))).2 by (by rewrite E). apply card_same.
Qed.
Lemma vm_ready s : vm_of (on_sd ready s).2 = vm_of s.
Proof. rewrite on_sd_run. cbn. by rewrite vm_put_sd. Qed.
Lemma store_ready s : store_of (on_sd ready s).2 = store_of s.
Proof. rewrite on_sd_run. cbn. by rewrite store_put_sd. Qed.

(** The store works in a directory. *)
Definition begun dir (q : store) : Prop :=
  attached q = true /\ lastProgramPath q = program_path dir /\ lastRunPath q = run_path dir.

(** Both files recovered. *)
Lemma recover_both dir (c : C) :
  let c' := (recoverFile (run_path dir) (recoverFile (program_path dir) c).2).2 in
  settled c' (program_path dir) = settled c (program_path dir) /\ settled c' (run_path dir) = settled c (run_path dir).
Proof.
  destruct (snapshot_disjoint dir) as [D1 D2]. cbn. split.
  - rewrite <- (recoverFile_settled (program_path dir) c). unfold settled.
    rewrite !(recoverFile_apart (run_path dir)); [done|apply D1; set_solver..].
  - rewrite recoverFile_settled. unfold settled.
    rewrite !(recoverFile_apart (program_path dir)); [done|apply D2; set_solver..].
Qed.

Lemma mkdir_settled dir x (c : C) : x <> [] -> settled (fs_mkdir dir c).2 (dir ++ x) = settled c (dir ++ x).
Proof.
  intros Hx. unfold settled. rewrite !mkdir_but; [done| |by apply dir_outside].
  unfold bak. rewrite <- app_assoc. apply dir_outside. by destruct x.
Qed.

Lemma settled_same (c c' : C) p : same_card c c' -> settled c' p = settled c p.
Proof. intros E. unfold settled. by rewrite !E. Qed.

Lemma begin_recovers dir s :
  let r := begin (Some dir) s in
  r.1 = true ->
  begun dir (store_of r.2) /\ vm_of r.2 = vm_of s
  /\ settled (card_of r.2) (program_path dir) = settled (card_of s) (program_path dir)
  /\ settled (card_of r.2) (run_path dir) = settled (card_of s) (run_path dir).
Proof.
  cbn zeta. unfold begin, set_status, upd_store, get_store. run_st. destruct (on_sd ready s).1; [|done].
  pose proof (ready_same s) as R. pose proof (vm_ready s) as V. set (s0 := (on_sd ready s).2) in *. clearbody s0.
  run_st. set (s1 := put_store _ s0).
  assert (E1 : card_of s1 = card_of s0 /\ vm_of s1 = vm_of s0 /\ attached (store_of s1) = true)
    by (unfold s1; by autorewrite with device).
  clearbody s1. destruct E1 as (E1 & V1 & A1).
  set (r := (if (on_fs (fs_exists dir) s1).1 then mret true else on_fs (fs_mkdir dir)) (on_fs (fs_exists dir) s1).2).
  assert (Hr : vm_of r.2 = vm_of s0 /\ attached (store_of r.2) = true
               /\ forall x, x <> [] -> settled (card_of r.2) (dir ++ x) = settled (card_of s) (dir ++ x)).
  { unfold r. destruct (on_fs (fs_exists dir) s1).1; cbn; autorewrite with device; rewrite E1; split_and!; try congruence;
      intros x Hx; rewrite ?mkdir_settled by done; rewrite (settled_same _ _ _ (exists_same _ _)); by apply settled_same. }
  clearbody r. destruct Hr as (V2 & A2 & S2). destruct r as [u s2]. cbn in *. destruct u; [|done]. intros _. cbn [negb]. run_st.
  autorewrite with device. cbn. autorewrite with device.
  destruct (recover_both dir (card_of s2)) as [-> ->]. split_and!; try done; [by rewrite V2, V|by apply S2..].
Qed.

Lemma vm_set_status t s : vm_of (set_status t s).2 = vm_of s.
Proof. unfold set_status, upd_store. cbn. by rewrite vm_put_store. Qed.
Lemma card_set_status t s : card_of (set_status t s).2 = card_of s.
Proof. unfold set_status, upd_store. cbn. by rewrite card_put_store. Qed.
#[local] Hint Rewrite @vm_set_status @card_set_status : device.

Lemma vm_refuse t r s : vm_of (refuse_restore t r s).2 = vm_of s.
Proof. unfold refuse_restore, disable_run, get_store. run_st. by autorewrite with device. Qed.
#[local] Hint Rewrite @vm_refuse : device.

Lemma load_program d v v' : load d v = inr v' -> programData v' = d /\ state_ v' = READY.
Proof.
  unfold load. repeat case_match; [done..|]. intros [= <-]. split; [|done].
  unfold programData. cbn. by rewrite Nat2Z.id, take_app_length.
Qed.

Lemma run_program v v' : run v = inr v' -> programData v' = programData v /\ state_ v' = RUNNING.
Proof. unfold run. repeat case_match; [done..|]. by intros [= <-]. Qed.

Lemma readRunFlag_true p (c : C) : (readRunFlag p c).1 = true -> exists t, content c p = Some (FileNode (49 :: t)).
Proof.
  unfold readRunFlag. run_st. destruct (fs_open p c).1 as [b|] eqn:O; [|done]. run_st.
  apply open_spec in O as (n & En & _). set (c1 := (fs_open p c).2).
  assert (E1 : content c1 p = Some n) by (unfold c1; by rewrite open_same). clearbody c1.
  destruct n as [d|]; [|by rewrite read_dir].
  destruct (read_spec p 0 1 c1 d E1) as (k & Hk & ->). cbn in *. destruct k as [|[|]]; [done| |lia].
  destruct d as [|x d]; [done|]. cbn. intros ->%Z.eqb_eq. eauto.
Qed.

Lemma start_restored_running d s :
  vm_of s = vm_init -> state_ (vm_of (start_restored d s).2) = RUNNING ->
  programData (vm_of (start_restored d s).2) = d
  /\ exists t, content (card_of s) (lastRunPath (store_of s)) = Some (FileNode (49 :: t)).
Proof.
  intros V0. unfold start_restored, get_store, get_vm, upd_vm. run_st.
  destruct (load d (vm_of s)) as [e|v] eqn:L; run_st; autorewrite with device; [by rewrite V0|].
  apply load_program in L as [P L].
  pose proof (readRunFlag_true (lastRunPath (store_of s)) (card_of s)) as F.
  destruct (readRunFlag (lastRunPath (store_of s)) (card_of s)).1; run_st; autorewrite with device; [|by rewrite L].
  destruct (run v) as [e|v'] eqn:R; run_st; autorewrite with device; [by rewrite L|].
  apply run_program in R as [R _]. intros _. split; [congruence|auto].
Qed.

(** A read of as many bytes as the file has, if it was not cut short, is the file. *)
Lemma read_whole p (c : C) n :
  content c p <> None -> n <> 0 -> Z.of_nat (length (fs_read p 0 n c).1) = n ->
  (forall d, content c p = Some (FileNode d) -> n = Z.of_nat (length d)) ->
  content c p = Some (FileNode (fs_read p 0 n c).1).
Proof.
  intros Hp Hn Hl Hd. destruct (content c p) as [[d|]|] eqn:E; [|by rewrite read_dir in Hl|done].
  destruct (read_spec p 0 n c d E) as (k & Hk & R). rewrite R in *. cbn in *. rewrite drop_0 in *.
  specialize (Hd d eq_refl). rewrite length_take in Hl. by rewrite take_ge by lia.
Qed.

(** A restore that ends with a running machine read its program and its flag. *)
Lemma restore_running dir s :
  begun dir (store_of s) -> vm_of s = vm_init -> state_ (vm_of (restoreLast s).2) = RUNNING ->
  content (card_of s) (program_path dir) = Some (FileNode (programData (vm_of (restoreLast s).2)))
  /\ exists t, content (card_of s) (run_path dir) = Some (FileNode (49 :: t)).
Proof.
  intros (B1 & B2 & B3) V0. unfold restoreLast, when_attached, get_store. run_st. rewrite B1. run_st.
  rewrite on_fs_result, B2. destruct (fs_open _ _).1 as [b|] eqn:O; run_st; autorewrite with device; [|by rewrite V0].
  apply open_spec in O as (n & En & _). split_if; [autorewrite with device; by rewrite V0|].
  run_st. split_if; [autorewrite with device; by rewrite V0|]. autorewrite with device in *.
  set (c0 := (fs_open _ _).2) in *. assert (E0 : same_card (card_of s) c0) by apply open_same.
  set (c1 := (fs_size _ _).2) in *. assert (E1 : same_card (card_of s) c1) by (intros q; unfold c1; by rewrite size_same).
  set (s1 := (on_fs (fs_read _ _ _) _).2).
  assert (K : vm_of s1 = vm_init /\ store_of s1 = store_of s /\ same_card (card_of s) (card_of s1)).
  { unfold s1. autorewrite with device. rewrite V0. split_and!; try done. intros q. rewrite read_same. fold c0. apply E1. }
  clearbody s1. destruct K as (V1 & Q1 & K1). to_prop. intros R.
  destruct (start_restored_running _ _ V1 R) as (P & t & T). rewrite P. rewrite Q1, B3, K1 in T. split; [|by exists t].
  rewrite <- E1. apply read_whole; [by rewrite E1, En|done|done|].
  intros d. rewrite E1. intros Hd. apply size_spec. by rewrite E0.
Qed.

(** The card after a start, as the writes of [snapshot_safe]. *)
Lemma card_onStarted dir s :
  begun dir (store_of s) ->
  let r := write_snapshot (program_path dir) (run_path dir) (vm_of s) (card_of s) in
  card_of (store_onStarted s).2 = match r.1 with Some _ => (writeRunFlag (run_path dir) false r.2).2 | None => r.2 end
  /\ (store_onStarted s).1 = match r.1 with Some _ => str "persistence=failed" | None => str "persistence=stored autorun=1" end.
Proof.
  intros (B1 & B2 & B3). unfold store_onStarted, when_attached, disable_run, get_store, get_vm. run_st.
  rewrite B1. run_st. rewrite on_fs_result, B2, B3. destruct (write_snapshot _ _ _ _) as [[e|] c1] eqn:W; cbn [fst snd]; run_st;
    autorewrite with device; rewrite ?B3, ?W; done.
Qed.

(** C12: a power cut while a program is being started (the calls of the card may
    fail from any point on, or at any other points, and the file being written
    may hold anything) never makes the device run a wrong program at the next
    boot: when [begin] and [restoreLast] end with a running machine, its program
    is the one that was being started, complete, or the one that was stored
    before and was to be started then. *)
Theorem snapshot_power_cut dir s s2 :
  begun dir (store_of s) ->
  clean (card_of s) (program_path dir) -> clean (card_of s) (run_path dir) ->
  same_card (card_of (store_onStarted s).2) (card_of s2) -> vm_of s2 = vm_init ->
  let '(started, s3) := begin (Some dir) s2 in
  let v := vm_of (restoreLast s3).2 in
  started = true -> state_ v = RUNNING ->
  programData v = programData (vm_of s)
  \/ (settled (card_of s) (program_path dir) = Some (FileNode (programData v)) /\ autoruns (card_of s) (run_path dir)).
Proof.
  intros B Cp Cr Hs2 V2. pose proof (begin_recovers dir s2) as HB.
  destruct (begin (Some dir) s2) as [started s3]. cbn zeta in HB. cbn [fst snd] in HB. cbn zeta. intros -> Run.
  destruct (HB eq_refl) as (G & V3 & P3 & R3). rewrite V2 in V3.
  destruct (restore_running dir s3 G V3 Run) as (P & t & T).
  apply settled_done in P, T. rewrite P3, (settled_same _ _ _ Hs2) in P. rewrite R3, (settled_same _ _ _ Hs2) in T.
  destruct (card_onStarted dir s B) as [E _]. rewrite E in P, T.
  destruct (snapshot_safe (program_path dir) (run_path dir) (vm_of s) (card_of s) (snapshot_disjoint dir) Cp Cr) as [_ Safe].
  destruct (Safe (ex_intro _ t T)) as [Q|[Q A]]; rewrite P in Q; [left; congruence|right; auto].
Qed.
End device.

#[export] Hint Rewrite @on_fs_result @card_on_fs @store_on_fs @vm_on_fs @card_put_store @card_put_vm
  @store_of_put @vm_of_put @vm_put_store @store_put_vm @vm_set_status @card_set_status @vm_refuse : device.
End EspStoreFacts.
