(* ===== verification/EspStoreRestart.v ===== *)
(** * A started program is running again after the next boot

    On a card without faults: RUN stores the program, and the next boot loads
    and starts the same bytes; a program saved under a name is loaded back; the
    store never harms the byte-code machine.  Two devices, one with a faulty
    card, on which the theorems are evaluated. *)
From S2P Require Import Prelude CLib EspRecord EspRegistry EspVm EspVmFacts EspDispatch EspCard EspSd EspStore EspStoreFacts.

Open Scope Z_scope.

Module EspStoreRestart.
Import EspRegistry EspVm EspVmFacts EspDispatch EspCard EspSd EspStore EspStoreFacts.

#[local] Arguments str : simpl never.

Section files.
Context {C : Type} `{ReliableCard C}.
Implicit Types (c : C) (p : bytes).

(** No directory is in the way of a file and its two companions. *)
Definition no_dirs c p : Prop :=
  content c p <> Some DirNode /\ content c (tmp p) <> Some DirNode /\ content c (bak p) <> Some DirNode.

Lemma remove_gone p c : content c p <> Some DirNode -> content (fs_remove p c).2 p = None.
Proof.
  intros Hp. rewrite remove_spec. destruct (content c p) as [[d|]|] eqn:E; [|done|by destruct (fs_remove p c).1].
  by rewrite (remove_ok p c d E).
Qed.

Lemma not_dir c p : content c p <> Some DirNode -> content c p <> None -> exists d, content c p = Some (FileNode d).
Proof. destruct (content c p) as [[d|]|]; naive_solver. Qed.

Lemma install_ok p c d :
  content c (tmp p) = Some (FileNode d) -> no_dirs c p -> (install p c).1 = None /\ no_dirs (install p c).2 p.
Proof.
  intros Ht (Hp & _ & Hb). unfold install. run_st. rewrite exists_spec, remove_keeps by auto with noobia.
  set (c1 := (fs_exists p (fs_remove (bak p) c).2).2).
  assert (E1 : content c1 p = content c p) by (unfold c1; by rewrite exists_same, remove_keeps by auto with noobia).
  assert (T1 : content c1 (tmp p) = Some (FileNode d)) by (unfold c1; by rewrite exists_same, remove_keeps by auto with noobia).
  assert (B1 : content c1 (bak p) = None) by (unfold c1; rewrite exists_same; by apply remove_gone).
  clearbody c1. set (moved := (if bool_decide (content c p <> None) then fs_rename p (bak p) else mret true) c1).
  assert (M : moved.1 = true /\ content moved.2 p = None /\ content moved.2 (tmp p) = Some (FileNode d)
              /\ content moved.2 (bak p) <> Some DirNode).
  { unfold moved. destruct (decide (content c p = None)) as [E|E].
    - rewrite bool_decide_eq_false_2 by (intros X; by apply X). cbn. rewrite B1. split_and!; congruence.
    - rewrite bool_decide_eq_true_2 by done. destruct (not_dir c p Hp E) as [o Ho]. rewrite Ho in E1.
      pose proof (rename_ok p (bak p) c1 o (neq_bak p) E1 B1) as R.
      destruct (rename_done _ _ _ (neq_bak p) R) as (_ & R2 & R3).
      split_and!; [done|done|by rewrite rename_but by auto with noobia|by rewrite R2, E1]. }
  clearbody moved. destruct M as (-> & M1 & M2 & M3). cbn [negb]. run_st. set (c2 := moved.2) in *. clearbody c2.
  assert (R : (fs_rename (tmp p) p c2).1 = true) by (apply (rename_ok (tmp p) p c2 d); auto with noobia).
  rewrite R. cbn [negb]. run_st. split; [done|].
  destruct (rename_done _ _ _ (not_eq_sym (neq_tmp p)) R) as (_ & R2 & R3). unfold no_dirs.
  rewrite !remove_keeps by auto with noobia. rewrite R2, R3, M2. split_and!; [done..|].
  rewrite remove_gone; [done|]. rewrite rename_but by auto with noobia. done.
Qed.

Lemma atomicWrite_ok dir nm d c :
  (SLASH ∉ nm) -> content c dir = Some DirNode -> no_dirs c (dir ++ SLASH :: nm) ->
  (atomicWrite (dir ++ SLASH :: nm) d c).1 = None /\ no_dirs (atomicWrite (dir ++ SLASH :: nm) d c).2 (dir ++ SLASH :: nm).
Proof.
  intros Hn Hd (Hp & Ht & Hb). set (p := dir ++ SLASH :: nm) in *. unfold atomicWrite. run_st.
  assert (Hdir : forall x, dir <> dir ++ SLASH :: nm ++ x) by (intros x E%(f_equal length); rewrite length_app in E; cbn in E; lia).
  assert (T : tmp p = dir ++ SLASH :: (nm ++ str ".tmp")) by (unfold tmp, p; by rewrite <- app_assoc).
  assert (Ec : (fs_create (tmp p) (fs_remove (tmp p) c).2).1 = true).
  { rewrite T. apply create_ok.
    - rewrite elem_of_app. intros [X|X]; [by apply Hn|]. revert X. apply (bool_decide_unpack _). vm_compute. exact I.
    - rewrite remove_keeps; [done|]. apply Hdir.
    - rewrite <- T, remove_gone; done. }
  rewrite Ec. cbn [negb]. run_st. set (c1 := (fs_create _ _).2) in *.
  assert (T1 : content c1 (tmp p) = Some (FileNode [])) by (unfold c1; by rewrite create_spec, Ec).
  assert (P1 : content c1 p = content c p) by (unfold c1; rewrite create_but, remove_keeps by auto with noobia; done).
  assert (B1 : content c1 (bak p) = content c (bak p)) by (unfold c1; rewrite create_but, remove_keeps by auto with noobia; done).
  clearbody c1. pose proof (write_ok (tmp p) d c1 T1) as W. rewrite W, Z.eqb_refl. cbn [negb].
  pose proof (write_done _ _ _ T1 W) as W2. apply (install_ok p _ d W2). unfold no_dirs.
  rewrite (write_but (tmp p) d c1 p), (write_but (tmp p) d c1 (bak p)) by auto with noobia. by rewrite P1, B1, W2.
Qed.
End files.

Section device.
Context {S C : Type} `{HasClock S} `{!HasStore S C} `{HR : ReliableCard C}.
Implicit Types s : S.

(** The store is set up in a directory of the card. *)
Definition settled_store dir (q : store) (c : C) : Prop :=
  begun dir q /\ content c dir = Some DirNode /\ no_dirs c (program_path dir) /\ no_dirs c (run_path dir).

Lemma program_path_eq dir : program_path dir = dir ++ SLASH :: str "runtime_last.nvm".
Proof. done. Qed.
Lemma run_path_eq dir : run_path dir = dir ++ SLASH :: str "runtime_last.run".
Proof. done. Qed.
Lemma slash_free (nm : bytes) : forallb (fun c => negb (c =? SLASH)) nm = true -> SLASH ∉ nm.
Proof. rewrite forallb_forall. intros Hf Hin. apply list_elem_of_In in Hin. by specialize (Hf _ Hin). Qed.

Lemma dir_apart dir x : x <> [] -> apart (dir ++ x) dir.
Proof.
  intros Hx. unfold apart, tmp, bak. rewrite <- !app_assoc.
  split_and!; apply not_eq_sym, dir_outside; by destruct x.
Qed.

Lemma no_dirs_apart (c : C) p q d : disjoint_files p q -> apart p (tmp q) -> no_dirs c q -> no_dirs (atomicWrite p d c).2 q.
Proof.
  intros [_ D] Ht. unfold no_dirs. rewrite !atomicWrite_apart; [done|..]; try done; apply D; set_solver.
Qed.

Lemma paths_tmp_apart dir : apart (program_path dir) (tmp (run_path dir)) /\ apart (run_path dir) (tmp (program_path dir)).
Proof.
  unfold apart, program_path, run_path, tmp, bak.
  split; split_and!; intros E; rewrite <- ?app_assoc in E; by apply app_inv_head in E.
Qed.

Lemma write_flag_ok dir b (c : C) :
  content c dir = Some DirNode -> no_dirs c (run_path dir) -> no_dirs c (program_path dir) ->
  let r := writeRunFlag (run_path dir) b c in
  r.1 = None /\ content r.2 dir = Some DirNode /\ no_dirs r.2 (run_path dir) /\ no_dirs r.2 (program_path dir).
Proof.
  intros Hd Hr Hp. unfold writeRunFlag. cbn zeta.
  destruct (atomicWrite_ok dir (str "runtime_last.run") [if b then 49 else 48] c) as [W1 W2]; [by apply slash_free|done|done|].
  rewrite <- run_path_eq in *. split_and!; [done| |done|].
  - rewrite atomicWrite_apart; [done|]. by apply dir_apart.
  - apply no_dirs_apart; [apply disjoint_sym, snapshot_disjoint|apply paths_tmp_apart|done].
Qed.

Lemma write_program_ok dir d (c : C) :
  content c dir = Some DirNode -> no_dirs c (run_path dir) -> no_dirs c (program_path dir) ->
  let r := atomicWrite (program_path dir) d c in
  r.1 = None /\ content r.2 dir = Some DirNode /\ no_dirs r.2 (run_path dir) /\ no_dirs r.2 (program_path dir).
Proof.
  intros Hd Hr Hp. cbn zeta.
  destruct (atomicWrite_ok dir (str "runtime_last.nvm") d c) as [W1 W2]; [by apply slash_free|done|done|].
  rewrite <- program_path_eq in *. split_and!; [done| | |done].
  - rewrite atomicWrite_apart; [done|]. by apply dir_apart.
  - apply no_dirs_apart; [apply snapshot_disjoint|apply paths_tmp_apart|done].
Qed.

(** The three writes of a start succeed. *)
Lemma write_snapshot_ok dir v (c : C) :
  content c dir = Some DirNode -> no_dirs c (run_path dir) -> no_dirs c (program_path dir) -> programLength_ v <> 0 ->
  let r := write_snapshot (program_path dir) (run_path dir) v c in
  r.1 = None /\ content r.2 dir = Some DirNode
  /\ content r.2 (program_path dir) = Some (FileNode (programData v)) /\ content r.2 (run_path dir) = Some (FileNode [49]).
Proof.
  intros Hd Hr Hp Hv. unfold write_snapshot. cbn zeta.
  destruct (write_flag_ok dir false c Hd Hr Hp) as (W1 & D1 & R1 & P1). run_st. rewrite W1. run_st.
  set (c1 := (writeRunFlag _ false c).2) in *. clearbody c1. clear W1.
  unfold writeCurrentProgram. rewrite (proj2 (Z.eqb_neq _ _) Hv).
  destruct (write_program_ok dir (programData v) c1 D1 R1 P1) as (W2 & D2 & R2 & P2). rewrite W2.
  apply atomicWrite_done in W2. set (c2 := (atomicWrite _ _ c1).2) in *. clearbody c2.
  destruct (write_flag_ok dir true c2 D2 R2 P2) as (W3 & D3 & _). split_and!; [done|done| |by apply atomicWrite_done].
  rewrite <- W2. apply atomicWrite_apart. apply (snapshot_disjoint dir). set_solver.
Qed.

(** Recovery leaves a complete file alone. *)
Lemma recoverFile_keeps p n (c : C) : content c p = Some n -> content (recoverFile p c).2 p = Some n.
Proof.
  intros E. unfold recoverFile. run_st. rewrite exists_spec, remove_keeps, E by auto with noobia.
  rewrite bool_decide_eq_true_2 by done. run_st. rewrite remove_keeps, exists_same, remove_keeps by auto with noobia. done.
Qed.

(** The boot of a device whose card holds a snapshot. *)
Lemma begin_ok dir s d f :
  storageReady (sd_of s) = true -> content (card_of s) dir = Some DirNode ->
  content (card_of s) (program_path dir) = Some (FileNode d) -> content (card_of s) (run_path dir) = Some (FileNode f) ->
  let r := begin (Some dir) s in
  r.1 = true /\ content (card_of r.2) (program_path dir) = Some (FileNode d)
  /\ content (card_of r.2) (run_path dir) = Some (FileNode f).
Proof.
  intros Hs Hd Hp Hf. cbn zeta. unfold begin, set_status, upd_store, get_store. run_st.
  assert (R1 : (on_sd ready s).1 = true).
  { rewrite on_sd_run. unfold ready. run_st. rewrite Hs. unfold on_card. pose proof (card_ok (storage (sd_of s))) as K.
    by destruct (fs_card (storage (sd_of s))). }
  rewrite R1. pose proof (ready_same s) as R. set (s0 := (on_sd ready s).2) in *. clearbody s0. run_st.
  rewrite on_fs_result, exists_spec. autorewrite with device. rewrite (R dir), Hd.
  rewrite bool_decide_eq_true_2 by done. run_st. cbn [negb]. run_st. split; [done|]. autorewrite with device.
  cbn. destruct (snapshot_disjoint dir) as [D1 D2]. set (c1 := (fs_exists dir (card_of s0)).2).
  assert (E1 : same_card (card_of s) c1) by (intros q; unfold c1; rewrite exists_same; apply R). split.
  - rewrite recoverFile_apart by (apply D1; set_solver). apply recoverFile_keeps. by rewrite (E1 _).
  - apply recoverFile_keeps. rewrite recoverFile_apart by (apply D2; set_solver). by rewrite (E1 _).
Qed.

Lemma readRunFlag_ok p t (c : C) : content c p = Some (FileNode (49 :: t)) -> (readRunFlag p c).1 = true.
Proof.
  intros E. unfold readRunFlag. run_st. rewrite (open_ok p c _ E). run_st.
  rewrite (read_ok p 0 1 _ (49 :: t)); [done| |lia]. by rewrite open_same.
Qed.

Lemma load_ready d v : 1 <= Z.of_nat (length d) <= PROGRAM_BYTES -> busy v = false ->
  exists v', load d v = inr v' /\ state_ v' = READY /\ programLength_ v' = Z.of_nat (length d).
Proof.
  intros Hd Hb. unfold load. rewrite Hb. destruct (_ || _) eqn:E; [|eauto].
  apply orb_true_iff in E as [E|E]; to_prop; lia.
Qed.

Lemma start_restored_ok d s t :
  vm_of s = vm_init -> 1 <= Z.of_nat (length d) <= PROGRAM_BYTES ->
  content (card_of s) (lastRunPath (store_of s)) = Some (FileNode (49 :: t)) ->
  let r := start_restored d s in
  ok r.1 = true /\ state_ (vm_of r.2) = RUNNING /\ pc_ (vm_of r.2) = 0 /\ programData (vm_of r.2) = d.
Proof.
  intros V0 Hd Hf. cbn zeta. unfold start_restored, get_store, get_vm, upd_vm. run_st. rewrite V0.
  destruct (load_ready d vm_init Hd eq_refl) as (v & L & Sv & Lv). rewrite L. run_st. autorewrite with device.
  rewrite (readRunFlag_ok _ t _ Hf). destruct (run v) as [e|v'] eqn:R.
  - unfold run in R. rewrite Lv, (proj2 (Z.eqb_neq _ _)) in R by lia. unfold busy in R. by rewrite Sv in R.
  - run_st. autorewrite with device. apply load_program in L as [P _]. pose proof R as R'.
    apply run_program in R as [R1 R2]. split_and!; [done|done| |congruence].
    unfold run in R'. repeat case_match; [done..|]. by injection R' as <-.
Qed.

Lemma restore_ok dir s d t :
  begun dir (store_of s) -> vm_of s = vm_init -> 1 <= Z.of_nat (length d) <= PROGRAM_BYTES ->
  content (card_of s) (program_path dir) = Some (FileNode d) ->
  content (card_of s) (run_path dir) = Some (FileNode (49 :: t)) ->
  let r := restoreLast s in
  ok r.1 = true /\ state_ (vm_of r.2) = RUNNING /\ pc_ (vm_of r.2) = 0 /\ programData (vm_of r.2) = d.
Proof.
  intros (B1 & B2 & B3) V0 Hd Hp Hf. cbn zeta. unfold restoreLast, when_attached, get_store. run_st. rewrite B1. run_st.
  rewrite on_fs_result, B2, (open_ok _ _ _ Hp). run_st. autorewrite with device.
  set (c1 := (fs_open _ _).2). assert (E1 : content c1 (program_path dir) = Some (FileNode d)) by (unfold c1; by rewrite open_same).
  rewrite (size_spec _ _ _ E1). replace (_ || _) with false by (symmetry; apply orb_false_iff; lia). run_st.
  autorewrite with device. fold c1.
  rewrite (read_ok _ 0 _ _ d); [|by rewrite size_same|lia]. rewrite drop_0, Nat2Z.id, take_ge, Z.eqb_refl by lia. cbn [negb].
  apply (start_restored_ok d _ t); autorewrite with device; [done|done|].
  rewrite B3, read_same, size_same, open_same. done.
Qed.

Lemma programData_length v : vm_wf v -> Z.of_nat (length (programData v)) = programLength_ v.
Proof.
  intros (L & _ & _ & _ & _ & _ & _ & P & _). unfold programData, PROGRAM_BYTES in *. rewrite length_take. lia.
Qed.

(** The program of a machine that has just been started. *)
Lemma run_starts v : programLength_ v <> 0 -> busy v = false ->
  exists v', run v = inr v' /\ programData v' = programData v /\ programLength_ v' = programLength_ v.
Proof. intros Hl Hb. unfold run. rewrite (proj2 (Z.eqb_neq _ _) Hl), Hb. eauto. Qed.

(** C13: on a card without faults, RUN answers that the program is stored, and the
    next boot ([begin], then [restoreLast], on a device with a new machine and
    the same card) starts the same program from its first byte. *)
Theorem snapshot_restart dir request s :
  settled_store dir (store_of s) (card_of s) ->
  vm_wf (vm_of s) -> programLength_ (vm_of s) <> 0 -> busy (vm_of s) = false ->
  let '(reply, s1) := run_command (Some storeLifecycle) request s in
  reply = ok_reply (requestId request) (str "started persistence=stored autorun=1")
  /\ forall s2, same_card (card_of s1) (card_of s2) -> vm_of s2 = vm_init -> storageReady (sd_of s2) = true ->
     let '(begun_, s3) := begin (Some dir) s2 in
     let '(r, s4) := restoreLast s3 in
     begun_ = true /\ ok r = true /\ state_ (vm_of s4) = RUNNING /\ pc_ (vm_of s4) = 0
     /\ programData (vm_of s4) = programData (vm_of s).
Proof.
  intros (B & Hd & Np & Nr) Wf Hl Hb. destruct (run_starts _ Hl Hb) as (v & R & Pv & Lv).
  destruct (run_command (Some storeLifecycle) request s) as [reply s1] eqn:E. revert E.
  unfold run_command, note, get_vm, upd_vm. run_st. rewrite R. run_st.
  set (s0 := put_vm v s). assert (B0 : begun dir (store_of s0)) by (unfold s0; by rewrite store_put_vm).
  destruct (card_onStarted dir s0 B0) as [Ec Er].
  assert (K : vm_of s0 = v /\ card_of s0 = card_of s) by (unfold s0; by autorewrite with device). destruct K as [V0 K0].
  rewrite V0, K0 in Ec, Er.
  destruct (write_snapshot_ok dir v (card_of s) Hd Nr Np) as (W & D & P & F); [by rewrite Lv|]. rewrite W in Ec, Er.
  change (onStarted storeLifecycle) with (store_onStarted (S := S)). rewrite Er. intros [= <- <-]. split; [done|].
  intros s2 Hs2 V2 Hs. rewrite Ec in Hs2. rewrite <- (Hs2 _) in D. rewrite <- (Hs2 _) in P. rewrite <- (Hs2 _) in F.
  destruct (begin_ok dir s2 _ _ Hs D P F) as (G1 & G2 & G3). destruct (begin_recovers dir s2 G1) as (G4 & G5 & _).
  destruct (begin (Some dir) s2) as [b s3]. cbn in *. rewrite Pv in G2.
  assert (V3 : vm_of s3 = vm_init) by congruence.
  assert (L3 : 1 <= Z.of_nat (length (programData (vm_of s))) <= PROGRAM_BYTES).
  { rewrite programData_length by done. destruct Wf as (_ & _ & _ & _ & _ & _ & _ & X & _). lia. }
  destruct (restore_ok dir s3 _ [] G4 V3 L3 G2 G3) as (O1 & O2 & O3 & O4).
  by destruct (restoreLast s3).
Qed.

(** ** Named programs *)

Lemma isalnum_slash c : isalnum c || (c =? 45) || (c =? 95) = true -> c <> SLASH.
Proof. intros Hc ->. done. Qed.

Lemma validName_slash nm : validName nm = true -> SLASH ∉ nm.
Proof.
  unfold validName. intros Hv. to_prop. match goal with F : forallb _ nm = true |- _ => rename F into Hf end.
  rewrite forallb_forall in Hf. intros Hin%list_elem_of_In%Hf. by apply isalnum_slash in Hin.
Qed.

(** The file of a valid name is directly in the program directory. *)
Lemma pathFor_in_dir name q : validName (trim name) = true ->
  exists nm, pathFor name q = programDirectory q ++ SLASH :: nm /\ (SLASH ∉ nm).
Proof.
  intros Hv. unfold pathFor. rewrite Hv. cbn [negb]. pose proof (validName_slash _ Hv) as Hs.
  eexists. split; [done|]. rewrite elem_of_app.
  intros [X|X]; [|revert X; apply (bool_decide_unpack _); vm_compute; exact I].
  destruct (starts_with (str "prog_") (trim name)); [done|]. apply elem_of_app in X as [X|X]; [|done].
  revert X. apply (bool_decide_unpack _). vm_compute. exact I.
Qed.

Lemma save_ok name s :
  attached (store_of s) = true -> validName (trim name) = true ->
  content (card_of s) (programDirectory (store_of s)) = Some DirNode ->
  content (card_of s) (pathFor name (store_of s)) <> Some DirNode ->
  programLength_ (vm_of s) <> 0 -> vm_wf (vm_of s) ->
  ok (save name s).1 = true
  /\ content (card_of (save name s).2) (pathFor name (store_of s)) = Some (FileNode (programData (vm_of s))).
Proof.
  intros A Hv Hd Hp Hl Wf. destruct (pathFor_in_dir name (store_of s) Hv) as (nm & E & Hn).
  unfold save, when_attached, get_store, get_vm. run_st. rewrite A. run_st. rewrite E in *.
  set (dir := programDirectory (store_of s)) in *. set (path := dir ++ SLASH :: nm) in *.
  replace (length path =? 0)%nat with false by (symmetry; apply Nat.eqb_neq; unfold path; rewrite length_app; cbn; lia).
  run_st. rewrite (proj2 (Z.eqb_neq _ _) Hl). run_st.
  match goal with |- context [(?m (on_fs (fs_exists path) s).2).2] => set (s1 := (m (on_fs (fs_exists path) s).2).2) end.
  assert (K : content (card_of s1) dir = Some DirNode /\ content (card_of s1) path <> Some DirNode).
  { unfold s1. destruct (on_fs (fs_exists path) s).1; cbn; autorewrite with device; [|by rewrite !exists_same].
    split; [|rewrite remove_gone; [done|by rewrite exists_same]].
    rewrite remove_keeps, exists_same; [done|]. apply not_eq_sym, dir_outside. done. }
  clearbody s1. destruct K as [K1 K2]. autorewrite with device.
  pose proof (create_ok dir nm (card_of s1) Hn K1 K2) as Ec. fold path in Ec. rewrite Ec. cbn [negb]. run_st.
  rewrite on_fs_result. autorewrite with device. set (c2 := (fs_seek _ _ _).2).
  assert (E2 : content c2 path = Some (FileNode [])) by (unfold c2; by rewrite seek_same, create_spec, Ec).
  pose proof (write_ok path (programData (vm_of s)) c2 E2) as W. rewrite W, programData_length, Z.eqb_refl by done.
  cbn. split; [done|]. autorewrite with device. by apply write_done.
Qed.

Lemma load_saved_ok name s d :
  attached (store_of s) = true -> validName (trim name) = true ->
  content (card_of s) (pathFor name (store_of s)) = Some (FileNode d) ->
  1 <= Z.of_nat (length d) <= PROGRAM_BYTES -> busy (vm_of s) = false ->
  ok (load_saved name s).1 = true /\ programData (vm_of (load_saved name s).2) = d.
Proof.
  intros A Hv Hp Hd Hb. destruct (pathFor_in_dir name (store_of s) Hv) as (nm & E & Hn).
  unfold load_saved, open_saved, when_attached, get_store, get_vm, upd_vm. run_st. rewrite A. run_st. rewrite E in *.
  set (path := programDirectory (store_of s) ++ SLASH :: nm) in *.
  replace (length path =? 0)%nat with false by (symmetry; apply Nat.eqb_neq; unfold path; rewrite length_app; cbn; lia).
  run_st. rewrite E. fold path. rewrite on_fs_result, (open_ok path _ d Hp). run_st.
  run_st. autorewrite with device. rewrite (size_spec path _ d) by (by rewrite open_same).
  replace (_ || _) with false by (symmetry; apply orb_false_iff; lia). run_st. autorewrite with device.
  rewrite (read_ok path 0 _ _ d); [|by rewrite size_same, open_same|lia].
  rewrite drop_0, Nat2Z.id, take_ge, Z.eqb_refl by lia. cbn [negb]. run_st. autorewrite with device.
  destruct (load_ready d (vm_of s) Hd Hb) as (v & L & _). rewrite L. run_st. autorewrite with device.
  by apply load_program in L as [-> _].
Qed.

(** VM_SAVE under a valid name on a card without faults succeeds, and
    VM_LOAD_SAVED of that name, whatever the machine held meanwhile, puts the
    saved program back, byte for byte. *)
Theorem saved_program_roundtrip name s :
  attached (store_of s) = true -> validName (trim name) = true ->
  content (card_of s) (programDirectory (store_of s)) = Some DirNode ->
  content (card_of s) (pathFor name (store_of s)) <> Some DirNode ->
  programLength_ (vm_of s) <> 0 -> vm_wf (vm_of s) ->
  ok (save name s).1 = true
  /\ forall s2, same_card (card_of (save name s).2) (card_of s2) -> store_of s2 = store_of s -> busy (vm_of s2) = false ->
     ok (load_saved name s2).1 = true /\ programData (vm_of (load_saved name s2).2) = programData (vm_of s).
Proof.
  intros A Hv Hd Hp Hl Wf. destruct (save_ok name s A Hv Hd Hp Hl Wf) as [O1 O2]. split; [done|].
  intros s2 E Q Hb. apply load_saved_ok; rewrite ?Q; try done.
  - by rewrite (E _).
  - rewrite programData_length by done. destruct Wf as (_ & _ & _ & _ & _ & _ & _ & X & _). lia.
Qed.
End device.

(** ** Devices for the examples *)

Record kit {C : Type} := Kit { kit_vm : NoobVm; kit_sd : sd C; kit_store : store }.
Arguments kit : clear implicits.

#[global, refine] Instance kit_HasVm {C} : HasVm (kit C) :=
  {| vm_of := kit_vm; put_vm v s := Kit C v (kit_sd s) (kit_store s) |}.
Proof. all: by intros; try destruct s. Defined.

#[global, refine] Instance kit_HasClock {C} : HasClock (kit C) := {| millis := mret 0 |}.
Proof. all: by intros. Defined.

#[global, refine] Instance kit_HasStore {C} : HasStore (kit C) C :=
  {| sd_of := kit_sd; put_sd d s := Kit C (kit_vm s) d (kit_store s);
     store_of := kit_store; put_store q s := Kit C (kit_vm s) (kit_sd s) q |}.
Proof. all: by intros. Defined.

Definition folder : bytes := str "/programs".
Definition folder_store : store := Store true folder (program_path folder) (run_path folder) (str "ready").
Definition machine_with (program : bytes) : NoobVm := match load program vm_init with inr v => v | inl _ => vm_init end.
Definition device {C} (v : NoobVm) (q : store) (c : C) : kit C := Kit C v (Sd C true false None None c) q.

Lemma device_card {C} `{CardOps C} v q (c : C) : same_card c (card_of (device v q c)).
Proof. done. Qed.

(** A card with an older program that is to be started; every call fails. *)
Definition old_nodes : gmap bytes node :=
  <[folder := DirNode]> (<[program_path folder := FileNode [16; 0; 0]]> (<[run_path folder := FileNode [49]]> ∅)).
Definition dying : kit card := device (machine_with [0]) folder_store (Card old_nodes (repeat 1%nat 64) true).
(** The same card after the reboot. *)
Definition revived : kit card :=
  device vm_init store_init (Card (nodes (card_of (store_onStarted dying).2)) [] true).

Lemma snapshot_power_cut_witness :
  state_ (vm_of (restoreLast (begin (Some folder) revived).2).2) = RUNNING
  /\ (programData (vm_of (restoreLast (begin (Some folder) revived).2).2) = programData (vm_of dying)
      \/ (settled (card_of dying) (program_path folder)
             = Some (FileNode (programData (vm_of (restoreLast (begin (Some folder) revived).2).2)))
          /\ autoruns (card_of dying) (run_path folder))).
Proof.
  split; [vm_compute; reflexivity|].
  pose proof (snapshot_power_cut folder dying revived) as K.
  rewrite (surjective_pairing (begin (Some folder) revived)) in K.
  apply K.
  - split_and!; reflexivity.
  - intros E. vm_compute in E. discriminate E.
  - intros E. vm_compute in E. discriminate E.
  - intros q. reflexivity.
  - reflexivity.
  - vm_compute. reflexivity.
  - vm_compute. reflexivity.
Defined.

(** A reliable card with the folder only. *)
Definition fresh_kit : kit good_card := device (machine_with [1; 0; 7; 0; 0; 0; 0]) folder_store (Good (<[folder := DirNode]> ∅)).
Definition run_request : NoobRequest := Request (str "1") (str "RUN") [].
Definition rebooted : kit good_card :=
  device vm_init store_init (card_of (run_command (Some storeLifecycle) run_request fresh_kit).2).

Lemma snapshot_restart_witness :
  (run_command (Some storeLifecycle) run_request fresh_kit).1
    = ok_reply (str "1") (str "started persistence=stored autorun=1")
  /\ state_ (vm_of (restoreLast (begin (Some folder) rebooted).2).2) = RUNNING
  /\ programData (vm_of (restoreLast (begin (Some folder) rebooted).2).2) = [1; 0; 7; 0; 0; 0; 0].
Proof.
  pose proof (snapshot_restart folder run_request fresh_kit) as K.
  rewrite (surjective_pairing (run_command (Some storeLifecycle) run_request fresh_kit)) in K.
  destruct K as [K1 K2].
  - unfold settled_store, begun, no_dirs.
    split_and!; first [vm_compute; reflexivity|intros E; vm_compute in E; discriminate E].
  - apply (bool_decide_unpack _). vm_compute. exact I.
  - intros E. vm_compute in E. discriminate E.
  - reflexivity.
  - split; [exact K1|]. specialize (K2 rebooted).
    rewrite (surjective_pairing (begin (Some folder) rebooted)) in K2.
    rewrite (surjective_pairing (restoreLast (begin (Some folder) rebooted).2)) in K2.
    destruct K2 as (_ & _ & K3 & _ & K4); [apply device_card|unfold rebooted, device; reflexivity|unfold rebooted, device; reflexivity|].
    split; [exact K3|]. transitivity (programData (vm_of fresh_kit)); [exact K4|vm_compute; reflexivity].
Defined.

Lemma saved_program_roundtrip_witness :
  let s2 := device (machine_with [0]) folder_store (card_of (save (str "blink") fresh_kit).2) in
  ok (save (str "blink") fresh_kit).1 = true
  /\ ok (load_saved (str "blink") s2).1 = true
  /\ programData (vm_of (load_saved (str "blink") s2).2) = programData (vm_of fresh_kit).
Proof.
  destruct (saved_program_roundtrip (str "blink") fresh_kit) as [K1 K2].
  - reflexivity.
  - reflexivity.
  - reflexivity.
  - intros E. vm_compute in E. discriminate E.
  - intros E. vm_compute in E. discriminate E.
  - apply (bool_decide_unpack _). vm_compute. exact I.
  - intros s2. split; [exact K1|]. apply K2; [apply device_card|reflexivity|reflexivity].
Defined.
End EspStoreRestart.
