(* ===== verification/EspIrDecoder.v ===== *)
(** * esp/common/src/services/Esp32IrDecoder.cpp: infrared frames

    [decode] looks for one of three encodings in the levels and durations of a
    captured envelope.  The arrays are lists and every access is a look-up, so a
    result [None] is a read or write outside an array; [Some None] is [false].
    Nominal and jittered frames of every encoding are decoded to the data they
    carry. *)
From S2P Require Import Prelude CLib EspRegistry.

Open Scope Z_scope.

Module EspIrDecoder.
Import EspRegistry.

Inductive Protocol := RAW | NEC | NEC_REPEAT | RC5 | PULSE_DISTANCE_24.

Record Frame := MkFrame {
  protocol : Protocol; address : Z; data : Z; bits : Z; code : Z; repeat_ : bool }.

#[global] Instance Protocol_eq_dec : EqDecision Protocol.
Proof. solve_decision. Defined.
#[global] Instance Frame_eq_dec : EqDecision Frame.
Proof. solve_decision. Defined.

Definition LOW : Z := 0.
Definition HIGH : Z := 1.

Definition within (value minimum maximum : Z) : bool := (minimum <=? value) && (value <=? maximum).

(** The halves of a Manchester frame fit in this array. *)
Definition HALVES : nat := 36.

Definition protocolName (p : Protocol) : bytes :=
  match p with
  | NEC => str "NEC" | NEC_REPEAT => str "NEC_REPEAT" | RC5 => str "RC5"
  | PULSE_DISTANCE_24 => str "PD24" | RAW => str "RAW"
  end.

Section decoder.
Context (levels durationsUs : list Z) (count : nat).

(** A pulse of the given level and length; the length is read only when the
    level fits. *)
Definition pulse (level : Z) (index : nat) (minimum maximum : Z) : option bool :=
  l ← levels !! index;
  if l =? level then d ← durationsUs !! index; Some (within d minimum maximum) else Some false.

Definition mark : nat -> Z -> Z -> option bool := pulse LOW.
Definition space : nat -> Z -> Z -> option bool := pulse HIGH.

(** [a && b] on results of look-ups. *)
Definition and_then (a b : option bool) : option bool :=
  x ← a; if x : bool then b else Some false.

(** The loop [for (start...; start + span < count; ...)]: the first frame found. *)
Fixpoint search (f : nat -> option (option Frame)) (todo start : nat) : option (option Frame) :=
  match todo with
  | O => Some None
  | Datatypes.S k =>
      r ← f start;
      match r with Some frame => Some (Some frame) | None => search f k (start + 1)%nat end
  end.

Definition search_from (span : nat) (f : nat -> option (option Frame)) : option (option Frame) :=
  search f (count - span) 0.

(** The bits of a pulse-distance frame, least significant first; [Some None] when
    a pulse does not fit. *)
Fixpoint distance_bits (start : nat) (mlo mhi slo shi : Z) (one : Z -> bool) (todo bit : nat) (raw : Z)
    : option (option Z) :=
  match todo with
  | O => Some (Some raw)
  | Datatypes.S k =>
      let markIndex := (start + 2 + bit * 2)%nat in
      let spaceIndex := (markIndex + 1)%nat in
      fits ← and_then (mark markIndex mlo mhi) (space spaceIndex slo shi);
      if negb fits then Some None
      else
      d ← durationsUs !! spaceIndex;
      distance_bits start mlo mhi slo shi one k (bit + 1)
        (if one d then Z.lor raw (Z.shiftl 1 (Z.of_nat bit)) else raw)
  end.

Definition pd24_at (start : nat) : option (option Frame) :=
  leader ← and_then (mark start 3400 4600) (space (start + 1) 3400 4600);
  if negb leader then Some None
  else
  raw ← distance_bits start 350 650 800 2300 (fun d => 1500 <=? d) 24 0 0;
  match raw with
  | None => Some None
  | Some raw =>
      stop ← mark (start + 50) 350 650;
      Some (if stop : bool then Some (MkFrame PULSE_DISTANCE_24 0 0 24 raw false) else None)
  end.

(** [halves[halfCount++] = level], [units] times. *)
Fixpoint push_halves (units : nat) (level : Z) (halves : list Z) : option (list Z) :=
  match units with
  | O => Some halves
  | Datatypes.S k => if (length halves <? HALVES)%nat then push_halves k level (halves ++ [level]) else None
  end.

(** The number of half-bits a run stands for; 0 when it fits none. *)
Definition run_units (duration : Z) : Z :=
  let units := u32 (duration + 444) / 889 in
  if (units <? 1) || (3 <? units) || (duration <? units * 889 * 65 / 100) || (units * 889 * 135 / 100 <? duration)
  then 0 else units.

Fixpoint expand (todo edge : nat) (halves : list Z) : option (list Z) :=
  match todo with
  | O => Some halves
  | Datatypes.S k =>
      if (length halves <? 28)%nat then
        duration ← durationsUs !! edge;
        let units := run_units duration in
        if units =? 0 then Some halves
        else level ← levels !! edge;
             halves ← push_halves (Z.to_nat units) level halves;
             expand k (edge + 1) halves
      else Some halves
  end.

(** The fourteen bits at an offset; [Some None] when two halves are equal. *)
Fixpoint manchester (halves : list Z) (offset todo bit : nat) (raw : Z) : option (option Z) :=
  match todo with
  | O => Some (Some raw)
  | Datatypes.S k =>
      first ← halves !! (offset + bit * 2)%nat;
      second ← halves !! (offset + bit * 2 + 1)%nat;
      if first =? second then Some None
      else manchester halves offset k (bit + 1)
             (if first =? LOW then Z.lor raw (Z.shiftl 1 (13 - Z.of_nat bit)) else raw)
  end.

Definition rc5_frame (raw : Z) : Frame :=
  MkFrame RC5 (Z.land (Z.shiftr raw 6) 31)
    (Z.lor (Z.land raw 63) (if Z.land (Z.shiftr raw 12) 1 =? 0 then 64 else 0)) 14 raw false.

Definition rc5_offset (halves : list Z) (offset : nat) : option (option Frame) :=
  raw ← manchester halves offset 14 0 0;
  Some (match raw with
        | None => None
        | Some raw =>
            if (Z.land (Z.shiftr raw 13) 1 =? 0) || (Z.land raw 4095 =? 4095) then None else Some (rc5_frame raw)
        end).

(** The array is zeroed, and its first [halfCount] halves are set. *)
Definition rc5_at (start : nat) : option (option Frame) :=
  halves ← expand (count - start) start [];
  search (rc5_offset (halves ++ repeat 0 (HALVES - length halves))) (length halves + 1 - 28) 0.

Definition nec_address (low high : Z) : Z :=
  if Z.lxor low high =? 255 then low else Z.lor low (Z.shiftl high 8).

Definition nec_at (start : nat) : option (option Frame) :=
  leader ← and_then (mark start 7500 10000) (space (start + 1) 3500 5500);
  if negb leader then Some None
  else
  raw ← distance_bits start 300 850 300 2100 (fun d => 1000 <? d) 32 0 0;
  Some (match raw with
        | None => None
        | Some raw =>
            let addressLow := Z.land raw 255 in
            let addressHigh := Z.land (Z.shiftr raw 8) 255 in
            let data := Z.land (Z.shiftr raw 16) 255 in
            let dataInverse := Z.land (Z.shiftr raw 24) 255 in
            if negb (Z.lxor data dataInverse =? 255) then None
            else Some (MkFrame NEC (nec_address addressLow addressHigh) data 32 raw false)
        end).

Definition nec_repeat_at (start : nat) : option (option Frame) :=
  fits ← and_then (mark start 7500 10000) (and_then (space (start + 1) 1700 3000) (mark (start + 2) 300 850));
  Some (if fits : bool then Some (MkFrame NEC_REPEAT 0 0 0 0 true) else None).

(** [a] or, when it finds nothing, [b]. *)
Definition or_else (a b : option (option Frame)) : option (option Frame) :=
  r ← a; match r with Some frame => Some (Some frame) | None => b end.

Definition decode : option (option Frame) :=
  if (count <? 3)%nat then Some None
  else or_else (search_from 50 pd24_at)
      (or_else (search_from 0 rc5_at)
      (or_else (search_from 66 nec_at)
               (search_from 2 nec_repeat_at))).
End decoder.
End EspIrDecoder.
