(* ===== verification/EspIrDecoderFacts.v ===== *)
(** * What the infrared decoder decodes

    No array is left, and frames of the three encodings, with every pulse
    anywhere in its tolerance, are decoded to the word they carry. *)
From S2P Require Import Prelude CLib EspRegistry EspIrDecoder.

Open Scope Z_scope.

Module EspIrDecoderFacts.
Import EspRegistry EspIrDecoder.

(** ** Bounds *)

Lemma and_then_some a b : is_Some a -> is_Some b -> is_Some (and_then a b).
Proof. intros [x ->] [y ->]. cbn. destruct x; eauto. Qed.

Lemma search_some f todo start :
  (forall i, (start <= i < start + todo)%nat -> is_Some (f i)) -> is_Some (search f todo start).
Proof.
  revert start. induction todo as [|k IH]; intros start Hf; cbn; [eauto|].
  destruct (Hf start ltac:(lia)) as [r ->]. cbn. destruct r; [eauto|]. apply IH. intros i Hi. apply Hf. lia.
Qed.

Lemma run_units_range d : 0 <= run_units d <= 3.
Proof. unfold run_units. destruct (_ || _) eqn:E; [lia|]. to_prop. lia. Qed.

Lemma push_halves_some units level h :
  (length h + units <= HALVES)%nat -> push_halves units level h = Some (h ++ repeat level units).
Proof.
  revert h. induction units as [|k IH]; intros h Hh; cbn [push_halves repeat]; [by rewrite app_nil_r|].
  rewrite (proj2 (Nat.ltb_lt _ _)) by lia. rewrite IH by (rewrite length_app; cbn; lia).
  by rewrite <- app_assoc.
Qed.

Lemma manchester_some h offset todo bit raw :
  (offset + (bit + todo) * 2 <= length h)%nat -> is_Some (manchester h offset todo bit raw).
Proof.
  revert bit raw. induction todo as [|k IH]; intros bit raw Hn; cbn; [eauto|].
  destruct (lookup_lt_is_Some_2 h (offset + bit * 2)) as [a ->]; [lia|].
  destruct (lookup_lt_is_Some_2 h (offset + bit * 2 + 1)) as [b ->]; [lia|]. cbn.
  destruct (a =? b); [eauto|]. apply IH. lia.
Qed.

Section bounds.
Context (levels durations : list Z) (n : nat) (Hl : length levels = n) (Hd : length durations = n).

Lemma level_some i : (i < n)%nat -> is_Some (levels !! i).
Proof. intros Hi. apply lookup_lt_is_Some. lia. Qed.
Lemma duration_some i : (i < n)%nat -> is_Some (durations !! i).
Proof. intros Hi. apply lookup_lt_is_Some. lia. Qed.

Lemma pulse_some level i lo hi : (i < n)%nat -> is_Some (pulse levels durations level i lo hi).
Proof.
  intros Hi. unfold pulse. destruct (level_some i Hi) as [l ->]. destruct (duration_some i Hi) as [d ->]. cbn.
  destruct (l =? level); eauto.
Qed.

Lemma distance_bits_some start mlo mhi slo shi one todo bit raw :
  (start + 2 + (bit + todo) * 2 <= n)%nat -> is_Some (distance_bits levels durations start mlo mhi slo shi one todo bit raw).
Proof.
  revert bit raw. induction todo as [|k IH]; intros bit raw Hn; cbn; [eauto|].
  destruct (and_then_some (mark levels durations (start + 2 + bit * 2) mlo mhi)
              (space levels durations (start + 2 + bit * 2 + 1) slo shi)) as [x ->]; [apply pulse_some; lia..|].
  cbn. destruct x; [|eauto]. destruct (duration_some (start + 2 + bit * 2 + 1)) as [d ->]; [lia|]. apply IH. lia.
Qed.

Lemma expand_some todo edge h :
  (edge + todo <= n)%nat -> (length h <= 30)%nat ->
  exists h', expand levels durations todo edge h = Some h' /\ (length h' <= 30)%nat.
Proof.
  revert edge h. induction todo as [|k IH]; intros edge h Hn Hh; cbn [expand]; [eauto|].
  destruct (Nat.ltb_spec (length h) 28); [|eauto]. destruct (duration_some edge) as [d ->]; [lia|]. cbn.
  pose proof (run_units_range d). destruct (run_units d =? 0); [eauto|].
  destruct (level_some edge) as [l ->]; [lia|]. cbn. rewrite push_halves_some by (unfold HALVES; lia). cbn.
  apply IH; [lia|]. rewrite length_app, repeat_length. lia.
Qed.

Lemma rc5_at_some start : (start < n)%nat -> is_Some (rc5_at levels durations n start).
Proof.
  intros Hs. unfold rc5_at. destruct (expand_some (n - start) start []) as (h & -> & Hh); [lia|cbn; lia|]. cbn [mbind option_bind].
  apply search_some. intros i Hi. unfold rc5_offset.
  destruct (manchester_some (h ++ repeat 0 (HALVES - length h)) i 14 0 0) as [r ->]; [|cbn; eauto].
  rewrite length_app, repeat_length. unfold HALVES. lia.
Qed.

(** the decoder reads and writes only inside its arrays (the two captured
    arrays and the 36 half-bits), whatever was captured. *)
Theorem decode_in_bounds : is_Some (decode levels durations n).
Proof.
  unfold decode. destruct (Nat.ltb_spec n 3); [eauto|].
  assert (Hor : forall a b, is_Some a -> is_Some b -> is_Some (or_else a b))
    by (intros a b [x ->] Hb; cbn; destruct x; eauto).
  unfold search_from. repeat apply Hor; apply search_some; intros i Hi.
  - unfold pd24_at. destruct (and_then_some (mark levels durations i 3400 4600) (space levels durations (i + 1) 3400 4600)) as [x ->];
      [apply pulse_some; lia..|]. cbn [mbind option_bind negb]. destruct x; [|eauto].
    destruct (distance_bits_some i 350 650 800 2300 (fun d => 1500 <=? d) 24 0 0) as [r ->]; [lia|]. cbn [mbind option_bind negb].
    destruct r; [|eauto]. destruct (pulse_some LOW (i + 50) 350 650) as [y E]; [lia|]. unfold mark. rewrite E. cbn [mbind option_bind negb]. eauto.
  - apply rc5_at_some. lia.
  - unfold nec_at. destruct (and_then_some (mark levels durations i 7500 10000) (space levels durations (i + 1) 3500 5500)) as [x ->];
      [apply pulse_some; lia..|]. cbn [mbind option_bind negb]. destruct x; [|eauto].
    destruct (distance_bits_some i 300 850 300 2100 (fun d => 1000 <? d) 32 0 0) as [r ->]; [lia|]. cbn [mbind option_bind negb]. eauto.
  - unfold nec_repeat_at. destruct (and_then_some (mark levels durations i 7500 10000)
      (and_then (space levels durations (i + 1) 1700 3000) (mark levels durations (i + 2) 300 850))) as [x ->];
      [apply pulse_some; lia|apply and_then_some; apply pulse_some; lia|]. cbn [mbind option_bind negb]. eauto.
Qed.
End bounds.

(** ** Pulse-distance frames *)

(** An envelope that begins with a mark. *)
Definition alternating (k : nat) : list Z := map (fun i => if Nat.even i then LOW else HIGH) (seq 0 k).

(** A leader, [n] bits as marks and spaces, and a stop mark. *)
Definition distance_frame (lead gap : Z) (m s : nat -> Z) (n : nat) (stop : Z) : list Z :=
  lead :: gap :: flat_map (fun i => [m i; s i]) (seq 0 n) ++ [stop].

Lemma alternating_at k i : (i < k)%nat -> alternating k !! i = Some (if Nat.even i then LOW else HIGH).
Proof. intros Hi. unfold alternating. rewrite list_lookup_fmap, lookup_seq_lt by done. done. Qed.

Lemma even_double i : Nat.even (i * 2) = true.
Proof. rewrite Nat.even_mul. apply orb_true_r. Qed.

Lemma length_pairs (m s : nat -> Z) n a : length (flat_map (fun i => [m i; s i]) (seq a n)) = (n * 2)%nat.
Proof. revert a. induction n as [|n IH]; intros a; [done|]. cbn. by rewrite IH. Qed.

Lemma pairs_at (m s : nat -> Z) n a i : (i < n)%nat ->
  flat_map (fun i => [m i; s i]) (seq a n) !! (i * 2)%nat = Some (m (a + i)%nat)
  /\ flat_map (fun i => [m i; s i]) (seq a n) !! (i * 2 + 1)%nat = Some (s (a + i)%nat).
Proof.
  revert a i. induction n as [|n IH]; intros a i Hi; [lia|]. destruct i as [|i]; [by rewrite Nat.add_0_r|].
  rewrite Nat.add_succ_r. exact (IH (Datatypes.S a) i ltac:(lia)).
Qed.

Section frame.
Context (lead gap : Z) (m s : nat -> Z) (n : nat) (stop : Z).
Abbreviation pulses := (distance_frame lead gap m s n stop).
Abbreviation total := (n * 2 + 3)%nat.

Lemma length_frame : length pulses = total.
Proof. unfold distance_frame. cbn. rewrite length_app, length_pairs. cbn. lia. Qed.

Lemma body_at i : pulses !! (2 + i)%nat = (flat_map (fun i => [m i; s i]) (seq 0 n) ++ [stop]) !! i.
Proof. done. Qed.
Lemma mark_at i : (i < n)%nat -> pulses !! (2 + i * 2)%nat = Some (m i).
Proof. intros Hi. rewrite body_at, lookup_app_l by (rewrite length_pairs; lia). by apply (pairs_at m s n 0). Qed.
Lemma space_at i : (i < n)%nat -> pulses !! (2 + i * 2 + 1)%nat = Some (s i).
Proof.
  intros Hi. rewrite <- Nat.add_assoc, body_at, lookup_app_l by (rewrite length_pairs; lia). by apply (pairs_at m s n 0).
Qed.
Lemma stop_at : pulses !! (2 + n * 2)%nat = Some stop.
Proof. rewrite body_at, lookup_app_r by (rewrite length_pairs; lia). by rewrite length_pairs, Nat.sub_diag. Qed.

(** Every mark of the frame. *)
Lemma marks_cases i : (i < total)%nat -> Nat.even i = true ->
  exists d, pulses !! i = Some d /\ (d = lead \/ d = stop \/ exists k, (k < n)%nat /\ d = m k).
Proof.
  intros Hi [k ->]%Nat.even_spec. destruct k as [|k]; [exists lead; auto|].
  replace (2 * Datatypes.S k)%nat with (2 + k * 2)%nat by lia. destruct (decide (k = n)) as [->|Hk].
  - exists stop. split; [apply stop_at|auto].
  - exists (m k). split; [apply mark_at; lia|]. right. right. exists k. split; [lia|done].
Qed.

Lemma pulse_fits level i d lo hi :
  (i < total)%nat -> (if Nat.even i then LOW else HIGH) = level -> pulses !! i = Some d ->
  pulse (alternating total) pulses level i lo hi = Some (within d lo hi).
Proof.
  intros Hi He Hd. unfold pulse. rewrite alternating_at, Hd, He by done. cbn [mbind option_bind]. by rewrite Z.eqb_refl.
Qed.

(** A bit more of a word. *)
Lemma word_step w b : 0 <= w ->
  (if Z.testbit w (Z.of_nat b) then Z.lor (w mod 2 ^ Z.of_nat b) (Z.shiftl 1 (Z.of_nat b)) else w mod 2 ^ Z.of_nat b)
  = w mod 2 ^ Z.of_nat (b + 1).
Proof.
  intros Hw. apply Z.bits_inj'. intros k Hk. rewrite Z.testbit_mod_pow2 by lia.
  destruct (Z.testbit w (Z.of_nat b)) eqn:E; [rewrite Z.lor_spec, Z.shiftl_spec by done|]; rewrite Z.testbit_mod_pow2 by lia;
    destruct (Z.ltb_spec k (Z.of_nat b)), (Z.ltb_spec k (Z.of_nat (b + 1))); try lia; cbn [andb orb].
  - rewrite (Z.testbit_neg_r 1) by lia. apply orb_false_r.
  - replace k with (Z.of_nat b) by lia. by rewrite Z.sub_diag, E.
  - apply (Z.bits_above_log2 1); cbn; lia.
  - done.
  - by replace k with (Z.of_nat b) by lia.
Qed.

(** Reading the bits of a frame whose pulses fit reads its word. *)
Lemma distance_bits_frame w mlo mhi slo shi one :
  0 <= w ->
  (forall i, (i < n)%nat -> within (m i) mlo mhi = true /\ within (s i) slo shi = true /\ one (s i) = Z.testbit w (Z.of_nat i)) ->
  forall todo bit, (bit + todo = n)%nat ->
  distance_bits (alternating total) pulses 0 mlo mhi slo shi one todo bit (w mod 2 ^ Z.of_nat bit)
  = Some (Some (w mod 2 ^ Z.of_nat n)).
Proof.
  intros Hw Hf. induction todo as [|k IH]; intros bit Hb; cbn [distance_bits]; [by replace bit with n by lia|].
  destruct (Hf bit ltac:(lia)) as (Hm & Hs & Ho). rewrite Nat.add_0_l.
  unfold mark, space. rewrite (pulse_fits LOW _ (m bit)), (pulse_fits HIGH _ (s bit)); try lia.
  - unfold and_then. cbn [mbind option_bind]. rewrite Hm, Hs. cbn [negb]. rewrite space_at by lia. cbn [mbind option_bind].
    rewrite Ho, word_step by done. apply IH. lia.
  - replace (2 + bit * 2 + 1)%nat with (Datatypes.S (Datatypes.S (Datatypes.S (bit * 2)))) by lia.
    by rewrite Nat.even_succ, Nat.odd_succ, Nat.even_succ, <- Nat.negb_even, even_double.
  - apply space_at. lia.
  - replace (2 + bit * 2)%nat with (Datatypes.S (Datatypes.S (bit * 2))) by lia. by rewrite Nat.even_succ, Nat.odd_succ, even_double.
  - apply mark_at. lia.
Qed.

Lemma distance_bits_word w mlo mhi slo shi one :
  0 <= w < 2 ^ Z.of_nat n ->
  (forall i, (i < n)%nat -> within (m i) mlo mhi = true /\ within (s i) slo shi = true /\ one (s i) = Z.testbit w (Z.of_nat i)) ->
  distance_bits (alternating total) pulses 0 mlo mhi slo shi one n 0 0 = Some (Some w).
Proof.
  intros Hw Hf. pose proof (distance_bits_frame w mlo mhi slo shi one ltac:(lia) Hf n 0 eq_refl) as D.
  change (2 ^ Z.of_nat 0) with 1 in D. rewrite Z.mod_1_r in D. by rewrite D, Z.mod_small.
Qed.

(** A mark outside the leader's range at the head of a frame. *)
Lemma mark_misses i lo hi b :
  (i < total)%nat -> (Nat.even i = true -> forall d, pulses !! i = Some d -> within d lo hi = false) ->
  and_then (mark (alternating total) pulses i lo hi) b = Some false.
Proof.
  intros Hi Hm. unfold mark, pulse. rewrite alternating_at by done. cbn [mbind option_bind].
  destruct (Nat.even i) eqn:E; [|done]. destruct (lookup_lt_is_Some_2 pulses i) as [d Hd]; [by rewrite length_frame|].
  rewrite Hd. cbn. by rewrite (Hm eq_refl d Hd).
Qed.

(** Marks that are no half-bit: the Manchester reader stops at each of them. *)
Lemma rc5_misses i :
  (i < total)%nat ->
  (forall j d, (j < total)%nat -> Nat.even j = true -> pulses !! j = Some d -> run_units d = 0) ->
  rc5_at (alternating total) pulses total i = Some None.
Proof.
  intros Hi Hm.
  assert (Hstop : forall k j h, (j + k <= total)%nat -> Nat.even j = true ->
            expand (alternating total) pulses k j h = Some h).
  { intros k j h Hj He. destruct k as [|k]; [done|]. cbn [expand]. destruct (length h <? 28)%nat; [|done].
    destruct (lookup_lt_is_Some_2 pulses j) as [d Hd]; [rewrite length_frame; lia|]. rewrite Hd. cbn [mbind option_bind].
    by rewrite (Hm j d ltac:(lia) He Hd). }
  assert (Hshort : exists h, expand (alternating total) pulses (total - i) i [] = Some h /\ (length h <= 3)%nat).
  { destruct (Nat.even i) eqn:E; [exists []; split; [apply Hstop; [lia|done]|cbn; lia]|].
    destruct (total - i)%nat as [|k] eqn:Ek; [lia|]. cbn [expand length Nat.ltb Nat.leb].
    destruct (lookup_lt_is_Some_2 pulses i) as [d Hd]; [rewrite length_frame; lia|]. rewrite Hd. cbn [mbind option_bind].
    pose proof (run_units_range d). destruct (run_units d =? 0); [exists []; cbn; split; [done|lia]|].
    rewrite alternating_at by done. cbn [mbind option_bind]. rewrite push_halves_some by (unfold HALVES; cbn; lia).
    cbn [mbind option_bind]. rewrite Hstop; [|lia|by rewrite Nat.add_1_r, Nat.even_succ, <- Nat.negb_even, E].
    eexists. split; [done|]. rewrite length_app, repeat_length. cbn. lia. }
  destruct Hshort as (h & Eh & Lh). unfold rc5_at. rewrite Eh. cbn [mbind option_bind].
  by replace (length h + 1 - 28)%nat with 0%nat by lia.
Qed.
End frame.

Lemma search_none f todo start :
  (forall i, (start <= i < start + todo)%nat -> f i = Some None) -> search f todo start = Some None.
Proof.
  revert start. induction todo as [|k IH]; intros start Hf; [done|]. cbn. rewrite Hf by lia. cbn.
  apply IH. intros i Hi. apply Hf. lia.
Qed.

Lemma search_first f k start frame :
  f start = Some (Some frame) -> search f (Datatypes.S k) start = Some (Some frame).
Proof. intros E. cbn [search]. by rewrite E. Qed.

Lemma within_true d lo hi : within d lo hi = true <-> lo <= d <= hi.
Proof. unfold within. rewrite andb_true_iff, !Z.leb_le. done. Qed.
Lemma within_false d lo hi : within d lo hi = false <-> d < lo \/ hi < d.
Proof. unfold within. rewrite andb_false_iff, !Z.leb_gt. done. Qed.

(** ** PD24 *)

(** a 24-bit pulse-distance frame whose pulses are anywhere in their
    tolerances is decoded to its word. *)
Theorem pd24_frame_decodes word lead gap m s stop :
  0 <= word < 2 ^ 24 ->
  3400 <= lead <= 4600 -> 3400 <= gap <= 4600 -> 350 <= stop <= 650 ->
  (forall i, (i < 24)%nat -> 350 <= m i <= 650
     /\ if Z.testbit word (Z.of_nat i) then 1500 <= s i <= 2300 else 800 <= s i < 1500) ->
  decode (alternating 51) (distance_frame lead gap m s 24 stop) 51
  = Some (Some (MkFrame PULSE_DISTANCE_24 0 0 24 word false)).
Proof.
  intros Hw Hl Hg Hs Hb. unfold decode. cbn [Nat.ltb Nat.leb]. unfold or_else, search_from.
  set (durations := distance_frame lead gap m s 24 stop).
  assert (E : pd24_at (alternating 51) durations 0 = Some (Some (MkFrame PULSE_DISTANCE_24 0 0 24 word false))).
  { unfold pd24_at, mark, space, durations.
    rewrite (pulse_fits lead gap m s 24 stop LOW 0 lead), (pulse_fits lead gap m s 24 stop HIGH (0 + 1) gap) by (done || lia).
    unfold and_then. cbn [mbind option_bind]. rewrite (proj2 (within_true lead _ _)), (proj2 (within_true gap _ _)) by lia.
    cbn [negb]. rewrite (distance_bits_word lead gap m s 24 stop word); [|done|].
    - cbn [mbind option_bind]. rewrite (pulse_fits lead gap m s 24 stop LOW (0 + 50) stop); [|lia|done|apply (stop_at lead gap m s 24)].
      cbn [mbind option_bind]. by rewrite (proj2 (within_true stop _ _)) by lia.
    - intros i Hi. destruct (Hb i Hi) as [H1 H2]. rewrite !within_true.
      destruct (Z.testbit word (Z.of_nat i)); split_and!; lia. }
  change (51 - 50)%nat with 1%nat. rewrite (search_first _ 0 0 _ E). cbn [mbind option_bind]. reflexivity.
Qed.

(** ** NEC *)

#[local] Ltac Zify.zify_post_hook ::= Z.to_euclidean_division_equations.

(** The word of a data byte and an address: an address of one byte is sent with
    its complement, an extended one as it is. *)
Definition nec_word (address data : Z) : Z :=
  let high := if address <? 256 then 255 - address else address / 256 in
  address mod 256 + 256 * high + 65536 * data + 16777216 * (255 - data).

Lemma complement d : 0 <= d < 256 -> Z.lxor d (255 - d) = 255.
Proof.
  intros Hd. assert (A : Forall (fun d => Z.lxor d (255 - d) = 255) (seqZ 0 256))
    by (apply (bool_decide_unpack _); vm_compute; exact I).
  rewrite Forall_forall in A. apply A, elem_of_seqZ. lia.
Qed.

Lemma byte_of w k : 0 <= w -> 0 <= k -> Z.land (Z.shiftr w k) 255 = (w / 2 ^ k) mod 256.
Proof. intros Hw Hk. rewrite Z.shiftr_div_pow2 by lia. apply (Z.land_ones _ 8). lia. Qed.

(** The four bytes of the word. *)
Lemma nec_word_bytes address data :
  0 <= address < 65536 -> 0 <= data < 256 ->
  let w := nec_word address data in
  let high := if address <? 256 then 255 - address else address / 256 in
  0 <= w < 2 ^ 32 /\ Z.land w 255 = address mod 256 /\ Z.land (Z.shiftr w 8) 255 = high
  /\ Z.land (Z.shiftr w 16) 255 = data /\ Z.land (Z.shiftr w 24) 255 = 255 - data.
Proof.
  intros Ha Hd. cbn zeta. unfold nec_word. set (high := if address <? 256 then 255 - address else address / 256).
  assert (Hh : 0 <= high < 256) by (unfold high; destruct (Z.ltb_spec address 256); lia).
  clearbody high. set (low := address mod 256). assert (Hl : 0 <= low < 256) by (unfold low; lia). clearbody low.
  split; [lia|]. rewrite (Z.land_ones _ 8) by lia. rewrite !byte_of by lia.
  change (2 ^ 8) with 256. change (2 ^ 16) with 65536. change (2 ^ 24) with 16777216. split_and!; lia.
Qed.

(** a NEC frame whose pulses are anywhere in their tolerances, as far as no
    mark can be taken for a half-bit of RC5, is decoded to its address and data:
    one-byte addresses, and extended ones that do not look like such. *)
Theorem nec_frame_decodes address data lead gap m s stop :
  0 <= address < 65536 -> 0 <= data < 256 ->
  address < 256 \/ Z.lxor (address mod 256) (address / 256) <> 255 ->
  7500 <= lead <= 10000 -> 3500 <= gap <= 5500 -> 300 <= stop <= 576 ->
  (forall i, (i < 32)%nat -> 300 <= m i <= 576
     /\ if Z.testbit (nec_word address data) (Z.of_nat i) then 1000 < s i <= 2100 else 300 <= s i <= 1000) ->
  decode (alternating 67) (distance_frame lead gap m s 32 stop) 67
  = Some (Some (MkFrame NEC address data 32 (nec_word address data) false)).
Proof.
  intros Ha Hd Hx Hl Hg Hs Hb. destruct (nec_word_bytes address data Ha Hd) as (Hw & B0 & B1 & B2 & B3).
  set (durations := distance_frame lead gap m s 32 stop).
  assert (Hm : forall j d, (j < 67)%nat -> Nat.even j = true -> durations !! j = Some d -> 7500 <= d <= 10000 \/ 300 <= d <= 576).
  { intros j d Hj He Hj'. destruct (marks_cases lead gap m s 32 stop j Hj He) as (d' & E' & C). unfold durations in Hj'.
    rewrite E' in Hj'. injection Hj' as <-. destruct C as [->|[->|(k & Hk & ->)]]; [lia|lia|]. destruct (Hb k Hk). lia. }
  unfold decode. cbn [Nat.ltb Nat.leb]. unfold search_from, or_else.
  rewrite (search_none (pd24_at (alternating 67) durations) (67 - 50) 0).
  2:{ intros i Hi. unfold pd24_at. rewrite (mark_misses lead gap m s 32 stop); [done|lia|].
      intros He d Hd'. apply within_false. destruct (Hm i d ltac:(lia) He Hd'); lia. }
  cbn [mbind option_bind]. rewrite (search_none (rc5_at (alternating 67) durations 67) (67 - 0) 0).
  2:{ intros i Hi. apply (rc5_misses lead gap m s 32 stop i); [lia|]. intros j d Hj He Hj'.
      destruct (Hm j d Hj He Hj') as [R|R]; unfold run_units, u32; rewrite Z.mod_small by lia;
        destruct (_ || _) eqn:E; [done| |done|]; to_prop; lia. }
  cbn [mbind option_bind].
  assert (E : nec_at (alternating 67) durations 0 = Some (Some (MkFrame NEC address data 32 (nec_word address data) false))).
  { unfold nec_at, mark, space, durations.
    rewrite (pulse_fits lead gap m s 32 stop LOW 0 lead), (pulse_fits lead gap m s 32 stop HIGH (0 + 1) gap) by (done || lia).
    unfold and_then. cbn [mbind option_bind]. rewrite (proj2 (within_true lead _ _)), (proj2 (within_true gap _ _)) by lia.
    cbn [negb]. rewrite (distance_bits_word lead gap m s 32 stop (nec_word address data)); [|done|].
    - cbn [mbind option_bind]. cbv zeta. rewrite B0, B1, B2, B3, complement by done. cbn [negb Z.eqb Pos.eqb].
      do 3 f_equal. unfold nec_address. destruct (Z.ltb_spec address 256) as [L|L].
      + rewrite Z.mod_small, complement by lia. done.
      + destruct Hx as [Hx|Hx]; [lia|]. rewrite (proj2 (Z.eqb_neq _ _) Hx).
        rewrite Z.lor_comm, lor_shiftl by lia. change (2 ^ 8) with 256. lia.
    - intros i Hi. destruct (Hb i Hi) as [H1 H2]. rewrite !within_true.
      destruct (Z.testbit (nec_word address data) (Z.of_nat i)); split_and!; lia. }
  change (67 - 66)%nat with 1%nat. rewrite (search_first _ 0 0 _ E). cbn [mbind option_bind]. reflexivity.
Qed.

(** ** RC5 *)

(** The half-bits of a word of fourteen bits, most significant first, and their
    runs as a receiver reports them. *)
Definition rc5_halves (word : Z) : list Z :=
  flat_map (fun k => if Z.testbit word (13 - Z.of_nat k) then [LOW; HIGH] else [HIGH; LOW]) (seq 0 14).

Fixpoint runs (halves : list Z) : list (Z * Z) :=
  match halves with
  | [] => []
  | x :: t =>
      match runs t with
      | (y, d) :: r => if x =? y then (y, d + 889) :: r else (x, 889) :: (y, d) :: r
      | [] => [(x, 889)]
      end
  end.

Definition decode_runs (l : list (Z * Z)) : option (option Frame) := decode (map fst l) (map snd l) (length l).

(** A run of one or two half-bits. *)
Definition short_run (r : Z * Z) : Prop := r.2 = 889 \/ r.2 = 1778.
#[global] Instance short_run_dec r : Decision (short_run r).
Proof. unfold short_run. apply _. Defined.

Definition halves_of (l : list (Z * Z)) : list Z := flat_map (fun r => repeat r.1 (Z.to_nat (r.2 / 889))) l.

Lemma short_units r : short_run r -> run_units r.2 = r.2 / 889 /\ 1 <= r.2 / 889 <= 2.
Proof. intros [E|E]; rewrite E; vm_compute; by split. Qed.

Lemma run_at {A B} (f : A -> B) pre x l : map f (pre ++ x :: l) !! length pre = Some (f x).
Proof. rewrite map_app. apply list_lookup_middle. by rewrite length_map. Qed.

(** The runs of a frame of at most 28 half-bits are expanded to them. *)
Lemma expand_runs l : forall pre acc, Forall short_run l -> (length acc + length (halves_of l) <= 28)%nat ->
  expand (map fst (pre ++ l)) (map snd (pre ++ l)) (length l) (length pre) acc = Some (acc ++ halves_of l).
Proof.
  induction l as [|x l IH]; intros pre acc Hs Hn; [cbn; by rewrite (app_nil_r acc)|]. apply Forall_cons in Hs as [Hx Hs].
  destruct (short_units x Hx) as [U1 U2]. cbn [expand length]. unfold halves_of in Hn. cbn in Hn. fold (halves_of l) in Hn.
  rewrite length_app, repeat_length in Hn. rewrite (proj2 (Nat.ltb_lt _ _)) by lia.
  rewrite !run_at. cbn [mbind option_bind]. rewrite U1, (proj2 (Z.eqb_neq _ _)) by lia. cbn [mbind option_bind].
  rewrite push_halves_some by (unfold HALVES; lia). cbn [mbind option_bind].
  replace (pre ++ x :: l) with ((pre ++ [x]) ++ l) by (by rewrite <- app_assoc).
  replace (length pre + 1)%nat with (length (pre ++ [x])) by (rewrite length_app; cbn; lia).
  rewrite IH; [|done|rewrite length_app, repeat_length; lia]. unfold halves_of. cbn. by rewrite app_assoc.
Qed.

(** No expansion of runs has more half-bits than they have. *)
Lemma expand_length l : forall pre acc h, Forall short_run l -> (length acc <= 27)%nat ->
  expand (map fst (pre ++ l)) (map snd (pre ++ l)) (length l) (length pre) acc = Some h ->
  (length h <= length acc + length (halves_of l))%nat.
Proof.
  induction l as [|x l IH]; intros pre acc h Hs Ha; [intros [= <-]; lia|]. apply Forall_cons in Hs as [Hx Hs].
  destruct (short_units x Hx) as [U1 U2]. change (halves_of (x :: l)) with (repeat x.1 (Z.to_nat (x.2 / 889)) ++ halves_of l). cbn [expand length].
  rewrite (proj2 (Nat.ltb_lt _ _)) by lia. rewrite !run_at. cbn [mbind option_bind].
  rewrite U1, (proj2 (Z.eqb_neq _ _)) by lia. cbn [mbind option_bind].
  rewrite push_halves_some by (unfold HALVES; lia). cbn [mbind option_bind].
  replace (pre ++ x :: l) with ((pre ++ [x]) ++ l) by (by rewrite <- app_assoc).
  replace (length pre + 1)%nat with (length (pre ++ [x])) by (rewrite length_app; cbn; lia).
  rewrite (length_app (repeat x.1 (Z.to_nat (x.2 / 889)))), repeat_length. destruct (decide (length (acc ++ repeat x.1 (Z.to_nat (x.2 / 889))) <= 27)%nat) as [L|L].
  - intros E%IH; [|done|done]. rewrite length_app, repeat_length in E. lia.
  - rewrite length_app, repeat_length in L. destruct l as [|y l]; cbn [expand length].
    + intros [= <-]. rewrite length_app, repeat_length. lia.
    + rewrite (proj2 (Nat.ltb_ge _ _)) by (rewrite length_app, repeat_length; lia).
      intros [= <-]. rewrite length_app, repeat_length. lia.
Qed.

Lemma length_rc5_halves word : length (rc5_halves word) = 28%nat.
Proof.
  unfold rc5_halves. assert (G : forall l, length (flat_map (fun k => if Z.testbit word (13 - Z.of_nat k) then [LOW; HIGH] else [HIGH; LOW]) l)
    = (length l * 2)%nat); [|by rewrite G, length_seq].
  induction l as [|k l IH]; [done|]. cbn. rewrite length_app, IH. by destruct (Z.testbit _ _).
Qed.

(** The facts about single words, by evaluation. *)
Definition rc5_word_ok (word : Z) : bool :=
  let r := runs (rc5_halves word) in
  bool_decide (Forall short_run r) && bool_decide (halves_of r = rc5_halves word)
  && (length r <=? 28)%nat && (3 <=? length r)%nat
  && (if Z.odd word then (length (halves_of (removelast r)) =? 27)%nat else true)
  && ((Z.land word 4095 =? 4095)
      || bool_decide (rc5_offset (rc5_halves word ++ repeat 0 8) 0 = Some (Some (rc5_frame word)))).

Lemma rc5_words : forallb rc5_word_ok (seqZ 8192 8192) = true.
Proof. vm_compute. reflexivity. Qed.

Lemma rc5_word word : 8192 <= word < 16384 -> rc5_word_ok word = true.
Proof.
  intros Hw. pose proof rc5_words as A. rewrite forallb_forall in A. apply A, list_elem_of_In, elem_of_seqZ. lia.
Qed.

(** every RC5 word with its start bit set and not all ones below is decoded
    from its nominal envelope of 889 us half-bits. *)
Theorem rc5_frame_decodes word :
  8192 <= word < 16384 -> Z.land word 4095 <> 4095 -> decode_runs (runs (rc5_halves word)) = Some (Some (rc5_frame word)).
Proof.
  intros Hw Ho. pose proof (rc5_word word Hw) as K. unfold rc5_word_ok in K. cbn zeta in K.
  set (r := runs (rc5_halves word)) in *. clearbody r. rewrite (proj2 (Z.eqb_neq _ _) Ho) in K. to_prop.
  match goal with E : false || _ = true |- _ => cbn [orb] in E; apply bool_decide_eq_true in E; rename E into Hf end.
  match goal with E : halves_of r = _ |- _ => rename E into Hh end.
  pose proof (length_rc5_halves word) as Lh.
  unfold decode_runs, decode. rewrite (proj2 (Nat.ltb_ge (length r) 3)) by lia. unfold or_else, search_from.
  replace (length r - 50)%nat with 0%nat by lia. cbn [search mbind option_bind].
  assert (E : rc5_at (map fst r) (map snd r) (length r) 0 = Some (Some (rc5_frame word))).
  { unfold rc5_at. rewrite Nat.sub_0_r.
    pose proof (expand_runs r [] []) as X. cbn [app length] in X. rewrite X; [|done|rewrite Hh, Lh; lia].
    cbn [mbind option_bind app].
    rewrite Hh, Lh. change (28 + 1 - 28)%nat with 1%nat. change (HALVES - 28)%nat with 8%nat.
    by apply search_first. }
  destruct (length r - 0)%nat as [|k] eqn:Ek; [lia|]. rewrite (search_first _ k 0 _ E). cbn [mbind option_bind]. reflexivity.
Qed.

Lemma search_Some f todo start frame :
  search f todo start = Some (Some frame) -> exists i, f i = Some (Some frame).
Proof.
  revert start. induction todo as [|k IH]; intros start; [done|]. cbn [search].
  destruct (f start) as [[g|]|] eqn:E; cbn [mbind option_bind]; [intros [= ->]; eauto|apply IH|done].
Qed.

Lemma Forall_removelast {A} (P : A -> Prop) l : Forall P l -> Forall P (removelast l).
Proof.
  induction l as [|x l IH]; [done|]. intros [Hx Hl]%Forall_cons. destruct l as [|y l]; [constructor|].
  constructor; [done|]. by apply IH.
Qed.

Lemma halves_drop l i : (length (halves_of (drop i l)) <= length (halves_of l))%nat.
Proof.
  rewrite <- (take_drop i l) at 2. unfold halves_of. rewrite flat_map_app, length_app. lia.
Qed.

(** The capture of a frame ends when the receiver falls silent, and the last
    half-bit of a word that ends in a set bit is silence: without it the frame is
    not found. *)
Lemma rc5_last_half_lost word frame :
  8192 <= word < 16384 -> Z.odd word = true ->
  decode_runs (removelast (runs (rc5_halves word))) = Some (Some frame) -> protocol frame <> RC5.
Proof.
  intros Hw Ho. pose proof (rc5_word word Hw) as K. unfold rc5_word_ok in K. cbn zeta in K. rewrite Ho in K. to_prop.
  set (r := runs (rc5_halves word)) in *. clearbody r.
  match goal with F : Forall short_run r |- _ => rename F into Hs end. apply Forall_removelast in Hs.
  match goal with F : length (halves_of (removelast r)) = _ |- _ => rename F into Lh end.
  assert (Ll : (length (removelast r) <= 28)%nat).
  { destruct r as [|x r']; [cbn; lia|]. rewrite removelast_firstn_len, length_firstn. lia. }
  set (l := removelast r) in *. clearbody l. unfold decode_runs, decode. destruct (length l <? 3)%nat; [done|].
  unfold or_else, search_from. replace (length l - 50)%nat with 0%nat by lia. cbn [search mbind option_bind].
  rewrite (search_none (rc5_at (map fst l) (map snd l) (length l)) (length l - 0) 0).
  - replace (length l - 66)%nat with 0%nat by lia. cbn [search mbind option_bind].
    intros [i Hi]%search_Some. unfold nec_repeat_at in Hi. destruct (and_then _ _) as [b|]; [|done].
    cbn [mbind option_bind] in Hi. destruct b; [|done]. by injection Hi as <-.
  - intros i Hi. unfold rc5_at. pose proof (take_drop i l) as T.
    destruct (expand_some (map fst l) (map snd l) (length l) ltac:(by rewrite length_map) ltac:(by rewrite length_map)
                (length l - i) i []) as (h & E & _); [lia|cbn; lia|]. rewrite E. cbn [mbind option_bind].
    rewrite <- T in E at 1 2. rewrite <- (length_drop l i) in E.
    pose proof (expand_length (drop i l) (take i l) [] h) as X. rewrite (length_take_le l i) in X by lia.
    specialize (X ltac:(by apply Forall_drop) ltac:(cbn; lia) E). pose proof (halves_drop l i). cbn in X.
    by replace (length h + 1 - 28)%nat with 0%nat by lia.
Qed.

(** ** Examples *)

(** Address 4 and data 8, with nominal pulses. *)
Definition nec_space (i : nat) : Z := if Z.testbit (nec_word 4 8) (Z.of_nat i) then 1690 else 560.

Lemma nec_frame_decodes_witness :
  decode (alternating 67) (distance_frame 9000 4500 (fun _ => 560) nec_space 32 560) 67
  = Some (Some (MkFrame NEC 4 8 32 (nec_word 4 8) false)).
Proof.
  apply (nec_frame_decodes 4 8 9000 4500 (fun _ => 560) nec_space 560); try lia.
  intros i _. split; [lia|]. unfold nec_space. destruct (Z.testbit (nec_word 4 8) (Z.of_nat i)); lia.
Defined.

Lemma decode_in_bounds_witness : is_Some (decode [0; 1; 0] [9000; 2250; 560] 3).
Proof. apply (decode_in_bounds [0; 1; 0] [9000; 2250; 560] 3); reflexivity. Defined.
End EspIrDecoderFacts.
