(* ===== verification/EspIrCapture.v ===== *)
(** * Infrared capture and comparison

    [Capture]: the edge interrupt and the capture functions of
    esp/common/src/services/Esp32IrService.cpp, with the packing of an envelope
    into transmitter symbols.  The interrupt runs between the calls of the main
    loop, so the theorems quantify over sequences of both.  [Align]: the
    comparison of a replayed envelope with its source in
    iris/firmware/iris_noob/src/noobs/iris/thread_ir_capture.cpp. *)
From S2P Require Import Prelude CLib EspRegistry.

Open Scope Z_scope.

Module Capture.
Import EspRegistry.

Definition CAPTURE_PULSE_CAPACITY : nat := Z.to_nat 8192.

(** The settings the capture reads. *)
Record config := Config { rx_configured : bool; captureIdleUs : Z; captureMinPulseUs : Z }.

Record capture := MkCapture {
  captureLevels : list Z; captureDurationsUs : list Z; capturedPulses : nat;
  captureLastEdgeUs : Z; captureLastLevel : Z; captureOverflow : bool;
  captureActive : bool; captureFrameReady : bool; lastCaptureError : bytes;
  interrupt : bool  (** [captureEdge] is attached to the receiver's pin *)
}.

Definition capture_init : capture :=
  MkCapture (repeat 0 CAPTURE_PULSE_CAPACITY) (repeat 0 CAPTURE_PULSE_CAPACITY) 0 0 1 false false false [] false.

Section service.
Context (settings : config).

Definition set_edge (now level : Z) (c : capture) : capture :=
  MkCapture (captureLevels c) (captureDurationsUs c) (capturedPulses c) now level (captureOverflow c)
    (captureActive c) (captureFrameReady c) (lastCaptureError c) (interrupt c).
Definition set_ready (c : capture) : capture :=
  MkCapture (captureLevels c) (captureDurationsUs c) (capturedPulses c) (captureLastEdgeUs c) (captureLastLevel c)
    (captureOverflow c) (captureActive c) true (lastCaptureError c) (interrupt c).
Definition detach (c : capture) : capture :=
  MkCapture (captureLevels c) (captureDurationsUs c) (capturedPulses c) (captureLastEdgeUs c) (captureLastLevel c)
    (captureOverflow c) (captureActive c) (captureFrameReady c) (lastCaptureError c) false.
(** One more pulse, or the overflow flag. *)
Definition add_pulse (level duration : Z) (c : capture) : capture :=
  let index := capturedPulses c in
  if (index <? CAPTURE_PULSE_CAPACITY)%nat then
    MkCapture (<[index := level]> (captureLevels c)) (<[index := duration]> (captureDurationsUs c)) (index + 1)
      (captureLastEdgeUs c) (captureLastLevel c) (captureOverflow c)
      (captureActive c) (captureFrameReady c) (lastCaptureError c) (interrupt c)
  else
    MkCapture (captureLevels c) (captureDurationsUs c) index (captureLastEdgeUs c) (captureLastLevel c) true
      (captureActive c) (captureFrameReady c) (lastCaptureError c) (interrupt c).

(** The interrupt, at time [now] with the receiver at [level]. *)
Definition captureEdge (now level : Z) (c : capture) : capture :=
  if negb (captureActive c) || captureFrameReady c then c
  else
  let duration := u32 (now - captureLastEdgeUs c) in
  if captureIdleUs settings <=? duration then
    set_edge now level (if (capturedPulses c =? 0)%nat then c else set_ready c)
  else
    set_edge now level
      (if (captureMinPulseUs settings <=? duration) && negb (captureFrameReady c)
       then add_pulse (captureLastLevel c) duration c else c).

(** The hardware calls it only while it is attached. *)
Definition edge (now level : Z) (c : capture) : capture := if interrupt c then captureEdge now level c else c.

(** An empty frame that begins now; the interrupt is attached. *)
Definition fresh_frame (now level : Z) (error : bytes) (c : capture) : capture :=
  MkCapture (captureLevels c) (captureDurationsUs c) 0 now level false true false error true.

Definition captureStart (now level : Z) (c : capture) : bool * capture :=
  if negb (rx_configured settings) || captureActive c then
    (false, MkCapture (captureLevels c) (captureDurationsUs c) (capturedPulses c) (captureLastEdgeUs c)
              (captureLastLevel c) (captureOverflow c) (captureActive c) (captureFrameReady c)
              (if captureActive c then str "IR capture already active" else str "IR unconfigured") (interrupt c))
  else (true, fresh_frame now level [] c).

Definition captureReady (now : Z) (c : capture) : bool * capture :=
  if negb (captureActive c) then (false, c)
  else
  let c := if negb (captureFrameReady c) && negb (capturedPulses c =? 0)%nat
              && (captureIdleUs settings <=? u32 (now - captureLastEdgeUs c))
           then set_ready (detach c) else c in
  (captureFrameReady c, c).

Definition captureRearm (now level : Z) (c : capture) : bool * capture :=
  if negb (captureActive c) then
    (false, MkCapture (captureLevels c) (captureDurationsUs c) (capturedPulses c) (captureLastEdgeUs c)
              (captureLastLevel c) (captureOverflow c) (captureActive c) (captureFrameReady c)
              (str "IR capture inactive") (interrupt c))
  else (true, fresh_frame now level (lastCaptureError c) c).

Definition captureStop (c : capture) : capture :=
  let c := if captureActive c then detach c else c in
  MkCapture (captureLevels c) (captureDurationsUs c) (capturedPulses c) (captureLastEdgeUs c) (captureLastLevel c)
    (captureOverflow c) false false (lastCaptureError c) (interrupt c).

Definition capturePulseCount (now : Z) (c : capture) : nat * capture :=
  let '(ready, c) := captureReady now c in (if ready then capturedPulses c else 0%nat, c).

(** The pulse at an index; [None] is [false]. *)
Definition capturePulse (now : Z) (index : nat) (c : capture) : option (Z * Z) * capture :=
  let '(ready, c) := captureReady now c in
  if negb ready || (capturedPulses c <=? index)%nat then (None, c)
  else (Some (nth index (captureLevels c) 0, nth index (captureDurationsUs c) 0), c).

Definition captureSymbolCount (c : capture) : nat := ((capturedPulses c + 1) / 2)%nat.
Definition captureSymbolCapacity : nat := ((CAPTURE_PULSE_CAPACITY + 1) / 2)%nat.

(** ** Steps of the main loop and of the interrupt *)

Inductive event :=
  | Edge (now level : Z)
  | Start (now level : Z) | Rearm (now level : Z) | Stop
  | Ready (now : Z) | Count (now : Z) | Pulse (now : Z) (index : nat).

Definition step (e : event) (c : capture) : capture :=
  match e with
  | Edge now level => edge now level c
  | Start now level => (captureStart now level c).2
  | Rearm now level => (captureRearm now level c).2
  | Stop => captureStop c
  | Ready now => (captureReady now c).2
  | Count now => (capturePulseCount now c).2
  | Pulse now index => (capturePulse now index c).2
  end.

Definition steps (l : list event) (c : capture) : capture := fold_left (fun c e => step e c) l c.

(** The pulses of the frame so far. *)
Definition pulses (c : capture) : list (Z * Z) :=
  combine (take (capturedPulses c) (captureLevels c)) (take (capturedPulses c) (captureDurationsUs c)).

(** ** Transmitter symbols *)

Record rmt_data := Symbol { level0 : Z; duration0 : Z; level1 : Z; duration1 : Z }.

(** The loop of [replayEnvelopeImpl] over the pulses, two per symbol; an odd last
    pulse leaves the second half of its zeroed symbol; [None] when a duration is
    refused.  The receiver is active low. *)
Fixpoint envelope_symbols (l : list (Z * Z)) : option (list rmt_data) :=
  let carrier level := if level =? 0 then 1 else 0 in
  let fits d := negb (d =? 0) && (d <=? 32767) in
  match l with
  | [] => Some []
  | [(a, d)] => if fits d then Some [Symbol (carrier a) d 0 0] else None
  | (a, d) :: (b, e) :: l' =>
      if fits d && fits e then rest ← envelope_symbols l'; Some (Symbol (carrier a) d (carrier b) e :: rest) else None
  end.
End service.
End Capture.

Module Align.
Import EspRegistry.

(** Two pulses agree: the same level and nearly the same duration. *)
Definition agree (tolerance : Z) (a b : Z * Z) : bool :=
  (a.1 =? b.1) && ((if b.2 <? a.2 then a.2 - b.2 else b.2 - a.2) <=? tolerance).

Section align.
Context (same : Z * Z -> Z * Z -> bool).

(** [current[1..]] from [previous] and [current[0..]]; every entry of the row is
    written, so nothing of its older contents remains. *)
Fixpoint row_from (source : Z * Z) (received : list (Z * Z)) (previous : list Z) (left : Z) : list Z :=
  match received, previous with
  | target :: received', diagonal :: ((above :: _) as previous') =>
      let value := if same source target then to_u16 (diagonal + 1) else if left <? above then above else left in
      value :: row_from source received' previous' value
  | _, _ => []
  end.

Definition next_row (received : list (Z * Z)) (previous : list Z) (source : Z * Z) : list Z :=
  0 :: row_from source received previous 0.

Definition alignedPulses (sources received : list (Z * Z)) : Z :=
  nth (length received) (fold_left (next_row received) sources (repeat 0 (length received + 1))) 0.
End align.

Definition total_us (l : list (Z * Z)) : Z := fold_left (fun n p => (n + p.2) mod 2 ^ 64) l 0.

(** The judgement of [verifyLast] on a replayed frame. *)
Definition durationDeltaPct (sources received : list (Z * Z)) : Z :=
  let s := total_us sources in
  let r := total_us received in
  if s =? 0 then 0 else u32 (((if r <? s then s - r else r - s) * 100) mod 2 ^ 64 / s).

Definition matched (sources received : list (Z * Z)) : bool :=
  let aligned := alignedPulses (agree 250) sources received in
  (Z.of_nat (length sources) * 9 <=? aligned * 10) && (Z.of_nat (length received) * 9 <=? aligned * 10)
  && (durationDeltaPct sources received <=? 10).

Definition compare (sources received : list (Z * Z)) : NativeResult :=
  if (1024 <? length sources)%nat || (1024 <? length received)%nat
  then failure (str "IR comparison exceeds 1024 pulses")
  else result true (if matched sources received then 1 else 0)
    (str "source_pulses=" ++ print_nat (Z.of_nat (length sources))
     ++ str " received_pulses=" ++ print_nat (Z.of_nat (length received))
     ++ str " aligned_250us=" ++ print_nat (alignedPulses (agree 250) sources received)
     ++ str " aligned_500us=" ++ print_nat (alignedPulses (agree 500) sources received)
     ++ str " source_us=" ++ print_nat (u32 (total_us sources))
     ++ str " received_us=" ++ print_nat (u32 (total_us received))
     ++ str " duration_delta_pct=" ++ print_nat (durationDeltaPct sources received)).
End Align.
