(* ===== verification/EspIrCaptureFacts.v ===== *)
(** * What the infrared capture records and how well a replay matches it

    The comparison's two-row table computes the longest alignment of two
    envelopes; the interrupt records the waveform between two silences, whatever
    else the main loop does. *)
From S2P Require Import Prelude CLib EspRegistry EspIrCapture.

Open Scope Z_scope.

Module AlignFacts.
Import EspRegistry Align.

Section align.
Context (same : Z * Z -> Z * Z -> bool).

(** [k] pulses of one envelope correspond, in order, to [k] pulses of the other. *)
Definition alignment (xs ys : list (Z * Z)) (k : nat) : Prop :=
  exists us vs, us `sublist_of` xs /\ vs `sublist_of` ys /\ Forall2 (fun u v => same u v = true) us vs /\ length us = k.

(** The reference: the length of a longest one, by recursion. *)
Fixpoint longest (xs : list (Z * Z)) : list (Z * Z) -> nat :=
  match xs with
  | [] => fun _ => 0%nat
  | x :: xs' =>
      fix go ys :=
        match ys with
        | [] => 0%nat
        | y :: ys' => if same x y then Datatypes.S (longest xs' ys') else Nat.max (longest xs' (y :: ys')) (go ys')
        end
  end.

Lemma longest_cons x xs y ys :
  longest (x :: xs) (y :: ys)
  = if same x y then Datatypes.S (longest xs ys) else Nat.max (longest xs (y :: ys)) (longest (x :: xs) ys).
Proof. done. Qed.

Lemma longest_nil xs : longest xs [] = 0%nat.
Proof. by destruct xs. Qed.

Lemma alignment_nil xs ys : alignment xs ys 0.
Proof. exists [], []. split_and!; [apply sublist_nil_l..|constructor|done]. Qed.

Lemma longest_sound xs ys : alignment xs ys (longest xs ys).
Proof.
  revert ys. induction xs as [|x xs IHx]; intros ys; [apply alignment_nil|].
  induction ys as [|y ys IHy]; [apply alignment_nil|]. rewrite longest_cons. destruct (same x y) eqn:E.
  - destruct (IHx ys) as (us & vs & Hu & Hv & F & <-). exists (x :: us), (y :: vs).
    split_and!; [by constructor..|by constructor|done].
  - apply Nat.max_case.
    + destruct (IHx (y :: ys)) as (us & vs & Hu & Hv & F & L). exists us, vs. split_and!; [by constructor|done..].
    + destruct IHy as (us & vs & Hu & Hv & F & L). exists us, vs. split_and!; [done|by constructor|done..].
Qed.

Lemma longest_max xs ys k : alignment xs ys k -> (k <= longest xs ys)%nat.
Proof.
  revert ys k. induction xs as [|x xs IHx]; intros ys k; [|revert k; induction ys as [|y ys IHy]; intros k];
    intros (us & vs & Hu & Hv & F & <-).
  - apply sublist_nil_r in Hu as ->. cbn. lia.
  - apply sublist_nil_r in Hv as ->. apply Forall2_nil_inv_r in F as ->. cbn. lia.
  - rewrite longest_cons. apply sublist_cons_r in Hu, Hv. destruct (same x y) eqn:E.
    + destruct F as [|u v us vs _ F]; [cbn; lia|]. cbn. apply le_n_S, IHx. exists us, vs. split_and!; try done.
      * destruct Hu as [Hu|(? & [= -> ->] & Hu)]; [|done]. etrans; [|exact Hu]. by constructor.
      * destruct Hv as [Hv|(? & [= -> ->] & Hv)]; [|done]. etrans; [|exact Hv]. by constructor.
    + destruct Hu as [Hu|(us' & -> & Hu)].
      { etrans; [|apply Nat.le_max_l]. apply IHx. exists us, vs. split_and!; try done. apply sublist_cons_r. tauto. }
      destruct Hv as [Hv|(vs' & -> & Hv)].
      { etrans; [|apply Nat.le_max_r]. apply IHy. exists (x :: us'), vs. split_and!; try done. by constructor. }
      apply Forall2_cons in F as [F _]. congruence.
Qed.

Lemma longest_bound xs ys : (longest xs ys <= length xs)%nat.
Proof.
  destruct (longest_sound xs ys) as (us & vs & Hu & _ & _ & <-). by apply sublist_length in Hu.
Qed.

(** ** The table *)

(** The row of the table for the sources [xs] (the last one first), from the
    column after [done]. *)
Fixpoint row_spec (xs dn todo : list (Z * Z)) : list Z :=
  Z.of_nat (longest xs (rev dn)) :: match todo with [] => [] | t :: todo' => row_spec xs (dn ++ [t]) todo' end.

Lemma row_spec_head xs dn todo : exists l, row_spec xs dn todo = Z.of_nat (longest xs (rev dn)) :: l.
Proof. destruct todo; eauto. Qed.

Lemma row_from_spec x xs dn todo :
  Z.of_nat (length xs) < 65535 ->
  Z.of_nat (longest (x :: xs) (rev dn)) :: row_from same x todo (row_spec xs dn todo) (Z.of_nat (longest (x :: xs) (rev dn)))
  = row_spec (x :: xs) dn todo.
Proof.
  intros Hx. revert dn. induction todo as [|t todo IH]; intros dn; [done|]. cbn [row_spec].
  f_equal. rewrite <- IH. destruct (row_spec_head xs (dn ++ [t]) todo) as [l El]. rewrite El. cbn [row_from].
  assert (V : (if same x t then to_u16 (Z.of_nat (longest xs (rev dn)) + 1)
     else if Z.of_nat (longest (x :: xs) (rev dn)) <? Z.of_nat (longest xs (rev (dn ++ [t])))
     then Z.of_nat (longest xs (rev (dn ++ [t]))) else Z.of_nat (longest (x :: xs) (rev dn)))
    = Z.of_nat (longest (x :: xs) (rev (dn ++ [t])))).
  { rewrite rev_app_distr. cbn [rev app]. rewrite longest_cons. destruct (same x t).
    - unfold to_u16. pose proof (longest_bound xs (rev dn)). rewrite Z.mod_small by lia. lia.
    - destruct (Z.ltb_spec (Z.of_nat (longest (x :: xs) (rev dn))) (Z.of_nat (longest xs (t :: rev dn)))); lia. }
  by rewrite V.
Qed.

Lemma fold_rows sources received xs :
  Z.of_nat (length xs + length sources) < 65535 ->
  fold_left (next_row same received) sources (row_spec xs [] received) = row_spec (rev sources ++ xs) [] received.
Proof.
  revert xs. induction sources as [|x sources IH]; intros xs Hl; [done|]. cbn [fold_left rev].
  replace (next_row same received (row_spec xs [] received) x) with (row_spec (x :: xs) [] received).
  - rewrite IH by (cbn in *; lia). by rewrite <- app_assoc.
  - rewrite <- row_from_spec by (cbn in *; lia). done.
Qed.

Lemma first_row dn todo : row_spec [] dn todo = repeat 0 (length todo + 1).
Proof. revert dn. induction todo as [|t todo IH]; intros dn; [done|]. cbn [row_spec length Nat.add repeat]. by rewrite IH. Qed.

Lemma last_of_row xs dn todo : nth (length todo) (row_spec xs dn todo) 0 = Z.of_nat (longest xs (rev (dn ++ todo))).
Proof.
  revert dn. induction todo as [|t todo IH]; intros dn; [by rewrite app_nil_r|]. cbn. rewrite IH. by rewrite <- app_assoc.
Qed.

Lemma aligned_longest sources received :
  Z.of_nat (length sources) < 65535 -> alignedPulses same sources received = Z.of_nat (longest (rev sources) (rev received)).
Proof.
  intros Hl. unfold alignedPulses. rewrite <- (first_row [] received), fold_rows, last_of_row by (cbn; lia).
  by rewrite app_nil_r.
Qed.

Lemma sublist_rev (l k : list (Z * Z)) : l `sublist_of` k -> rev l `sublist_of` rev k.
Proof.
  induction 1 as [|x l k _ IH|x l k _ IH]; [constructor| |]; cbn.
  - by apply sublist_app.
  - by apply sublist_inserts_r.
Qed.

Lemma alignment_rev xs ys k : alignment xs ys k -> alignment (rev xs) (rev ys) k.
Proof.
  intros (us & vs & Hu & Hv & F & L). exists (rev us), (rev vs). split_and!; [by apply sublist_rev..| |by rewrite length_rev].
  clear -F. induction F as [|u v us vs Huv F IH]; [constructor|]. cbn. apply Forall2_app; [done|]. by constructor.
Qed.

(** C34: the number [verifyLast] computes with its two rows is the length of a
    longest order-preserving alignment of the two envelopes, for any relation
    between pulses. *)
Theorem alignedPulses_maximal sources received :
  (length sources <= 1024)%nat ->
  exists k, alignedPulses same sources received = Z.of_nat k
    /\ alignment sources received k /\ forall k', alignment sources received k' -> (k' <= k)%nat.
Proof.
  intros Hl. exists (longest (rev sources) (rev received)). split; [apply aligned_longest; lia|]. split.
  - rewrite <- (rev_involutive sources), <- (rev_involutive received) at 1. apply alignment_rev, longest_sound.
  - intros k' Hk. by apply longest_max, alignment_rev.
Qed.
End align.

Lemma alignedPulses_maximal_witness :
  exists k, alignedPulses (agree 250) [(0, 560); (1, 1690); (0, 560)] [(0, 600); (0, 2000); (1, 1500)] = Z.of_nat k
    /\ alignment (agree 250) [(0, 560); (1, 1690); (0, 560)] [(0, 600); (0, 2000); (1, 1500)] k
    /\ forall k', alignment (agree 250) [(0, 560); (1, 1690); (0, 560)] [(0, 600); (0, 2000); (1, 1500)] k' -> (k' <= k)%nat.
Proof. apply (alignedPulses_maximal (agree 250)). apply Nat.leb_le. vm_compute. reflexivity. Defined.

(** An envelope that is received as it was sent is judged to match. *)
Lemma perfect_replay l : (length l <= 1024)%nat -> value (compare l l) = 1 /\ ok (compare l l) = true.
Proof.
  intros Hl. unfold compare. rewrite (proj2 (Nat.ltb_ge _ _) Hl). cbn [orb]. split; [|done]. cbn.
  assert (K : (length (rev l) <= longest (agree 250) (rev l) (rev l))%nat).
  { apply longest_max. rewrite length_rev. apply alignment_rev. exists l, l. split_and!; [done..| |done]. clear. induction l as [|[a d] l IH]; [constructor|].
    constructor; [|done]. unfold agree. cbn. rewrite Z.eqb_refl, Z.ltb_irrefl, Z.sub_diag. done. }
  rewrite length_rev in K. unfold matched. rewrite aligned_longest by lia. replace (durationDeltaPct l l) with 0.
  - rewrite (proj2 (Z.leb_le _ _)) by lia. done.
  - unfold durationDeltaPct. destruct (total_us l =? 0); [done|]. by rewrite Z.ltb_irrefl, Z.sub_diag.
Qed.
End AlignFacts.

Module CaptureFacts.
Import EspRegistry Capture.

Section capture.
Context (settings : config).

(** The arrays keep their size, the interrupt is attached only to an active
    capture, and a frame that is ready has pulses. *)
Definition capture_wf (c : capture) : Prop :=
  length (captureLevels c) = CAPTURE_PULSE_CAPACITY /\ length (captureDurationsUs c) = CAPTURE_PULSE_CAPACITY
  /\ (capturedPulses c <= CAPTURE_PULSE_CAPACITY)%nat
  /\ (interrupt c = true -> captureActive c = true)
  /\ (captureFrameReady c = true -> captureActive c = true /\ capturedPulses c <> 0%nat).

Lemma add_pulse_wf level d c : capture_wf c -> capture_wf (add_pulse level d c).
Proof.
  intros (L & D & N & I & R). unfold add_pulse, capture_wf. destruct (Nat.ltb_spec (capturedPulses c) CAPTURE_PULSE_CAPACITY); cbn.
  - rewrite !length_insert. split_and!; try done; [lia|]. intros E. destruct (R E). split; [done|lia].
  - done.
Qed.

Lemma set_edge_wf now level c : capture_wf c -> capture_wf (set_edge now level c).
Proof. by destruct c. Qed.

Lemma captureEdge_wf now level c : capture_wf c -> capture_wf (captureEdge settings now level c).
Proof.
  intros W. unfold captureEdge. destruct (negb (captureActive c) || captureFrameReady c) eqn:E; [done|]. to_prop.
  destruct (captureIdleUs settings <=? _); apply set_edge_wf.
  - destruct (capturedPulses c =? 0)%nat eqn:Z; [done|]. to_prop. destruct W as (L & D & N & I & R). unfold capture_wf. cbn.
    split_and!; auto.
  - destruct (_ && _); [|done]. by apply add_pulse_wf.
Qed.

Lemma fresh_frame_wf now level e c : capture_wf c -> capture_wf (fresh_frame now level e c).
Proof. intros (L & D & N & I & R). unfold capture_wf. cbn. split_and!; [done|done|lia|done|done]. Qed.

Lemma captureReady_wf now c : capture_wf c -> capture_wf (captureReady settings now c).2.
Proof.
  intros W. pose proof W as (L & D & N & I & R). unfold captureReady. destruct (captureActive c) eqn:A; [|exact W]. cbn.
  destruct (_ && _) eqn:E; [|exact W]. to_prop. unfold capture_wf. cbn. split_and!; auto.
Qed.

Lemma step_wf e c : capture_wf c -> capture_wf (step settings e c).
Proof.
  intros W. pose proof W as (L & D & N & I & R). destruct e; cbn.
  - unfold edge. destruct (interrupt c); [by apply captureEdge_wf|done].
  - unfold captureStart. destruct (_ || _); [done|by apply fresh_frame_wf].
  - unfold captureRearm. destruct (negb _); [done|by apply fresh_frame_wf].
  - unfold captureStop, capture_wf. destruct (captureActive c) eqn:A; cbn; by split_and!.
  - by apply captureReady_wf.
  - unfold capturePulseCount. pose proof (captureReady_wf now c W). by destruct (captureReady settings now c).
  - unfold capturePulse. pose proof (captureReady_wf now c W). destruct (captureReady settings now c). by destruct (_ || _).
Qed.

Lemma steps_wf l c : capture_wf c -> capture_wf (steps settings l c).
Proof. revert c. induction l as [|e l IH]; intros c W; [done|]. apply IH, step_wf, W. Qed.

(** ** The waveform *)

(** The pulses between the edges of a signal that is at [level] since [last]. *)
Fixpoint waveform (last level : Z) (edges : list (Z * Z)) : list (Z * Z) :=
  match edges with
  | [] => []
  | (now, next) :: edges' => (level, u32 (now - last)) :: waveform now next edges'
  end.

Lemma length_waveform last level edges : length (waveform last level edges) = length edges.
Proof. revert last level. induction edges as [|[t l] edges IH]; intros; cbn; [done|by rewrite IH]. Qed.

Lemma take_insert_snoc (l : list Z) n x : (n < length l)%nat -> take (n + 1) (<[n := x]> l) = take n l ++ [x].
Proof.
  intros Hn. rewrite Nat.add_1_r, (take_S_r _ _ x) by (by rewrite list_lookup_insert_eq). by rewrite take_insert_ge by lia.
Qed.

Lemma combine_snoc (a b : list Z) x y : length a = length b -> combine (a ++ [x]) (b ++ [y]) = combine a b ++ [(x, y)].
Proof. revert b. induction a as [|z a IH]; intros [|w b]; try done. cbn. intros [= E]. by rewrite IH. Qed.

Lemma length_pulses c : capture_wf c -> length (pulses c) = capturedPulses c.
Proof. intros (L & D & N & _). unfold pulses. rewrite length_combine, !length_take. lia. Qed.

Lemma add_pulse_pulses level d c : capture_wf c ->
  pulses (add_pulse level d c) = take CAPTURE_PULSE_CAPACITY (pulses c ++ [(level, d)])
  /\ captureOverflow (add_pulse level d c) = captureOverflow c || (CAPTURE_PULSE_CAPACITY <? capturedPulses c + 1)%nat.
Proof.
  intros W. pose proof (length_pulses c W) as Lp. destruct W as (L & D & N & _). unfold add_pulse.
  destruct (Nat.ltb_spec (capturedPulses c) CAPTURE_PULSE_CAPACITY) as [H|H].
  - split; [|cbn [captureOverflow]; rewrite (proj2 (Nat.ltb_ge _ _)) by lia; by rewrite orb_false_r].
    rewrite (take_ge (pulses c ++ _)) by (rewrite length_app, Lp; cbn; lia). unfold pulses. cbn [captureLevels captureDurationsUs capturedPulses].
    rewrite !take_insert_snoc by lia. apply combine_snoc. rewrite !length_take. lia.
  - split; [|cbn [captureOverflow]; rewrite (proj2 (Nat.ltb_lt _ _)) by lia; by rewrite orb_true_r].
    rewrite take_app_le, take_ge by lia. done.
Qed.

(** ** A frame from silence to silence *)

Definition armed (c : capture) : Prop := captureActive c = true /\ captureFrameReady c = false /\ interrupt c = true.

(** The edges of a signal, as interrupts. *)
Definition interrupts (edges : list (Z * Z)) : list event := map (fun e => Edge e.1 e.2) edges.

Definition in_range (p : Z * Z) : Prop := captureMinPulseUs settings <= p.2 < captureIdleUs settings.
#[global] Instance in_range_dec p : Decision (in_range p).
Proof. unfold in_range. apply _. Defined.

Lemma add_pulse_fields level d c :
  armed c -> armed (add_pulse level d c).
Proof. unfold armed, add_pulse. destruct (_ <? _)%nat; done. Qed.

Lemma edge_pulse now level c :
  armed c -> in_range (captureLastLevel c, u32 (now - captureLastEdgeUs c)) ->
  step settings (Edge now level) c = set_edge now level (add_pulse (captureLastLevel c) (u32 (now - captureLastEdgeUs c)) c).
Proof.
  intros (A & R & I) [H1 H2]. cbn in H1, H2. cbn [step]. unfold edge, captureEdge. rewrite A, R, I. cbn [negb orb].
  rewrite (proj2 (Z.leb_gt _ _) H2), (proj2 (Z.leb_le _ _) H1). done.
Qed.

Lemma take_take_app {A} n (a b : list A) : take n (take n a ++ b) = take n (a ++ b).
Proof. rewrite !take_app, take_take, length_take. f_equal; f_equal; lia. Qed.

Lemma edges_record edges : forall c,
  capture_wf c -> armed c -> Forall in_range (waveform (captureLastEdgeUs c) (captureLastLevel c) edges) ->
  let c' := steps settings (interrupts edges) c in
  armed c' /\ pulses c' = take CAPTURE_PULSE_CAPACITY (pulses c ++ waveform (captureLastEdgeUs c) (captureLastLevel c) edges)
  /\ captureOverflow c' = captureOverflow c || (CAPTURE_PULSE_CAPACITY <? capturedPulses c + length edges)%nat
  /\ captureLastEdgeUs c' = default (captureLastEdgeUs c) (fst <$> last edges).
Proof.
  induction edges as [|[now level] edges IH]; intros c W A F; cbn zeta.
  - change (steps settings (interrupts []) c) with c. cbn [waveform length].
    pose proof W as (_ & _ & N & _). pose proof (length_pulses c W). rewrite app_nil_r, take_ge by lia.
    rewrite Nat.add_0_r, (proj2 (Nat.ltb_ge _ _)) by done. by rewrite orb_false_r.
  - apply Forall_cons in F as [F1 F2]. set (d := u32 (now - captureLastEdgeUs c)) in *.
    change (steps settings (interrupts ((now, level) :: edges)) c)
      with (steps settings (interrupts edges) (step settings (Edge now level) c)).
    pose proof (edge_pulse now level c A F1) as E. fold d in E. rewrite E.
    destruct (add_pulse_pulses (captureLastLevel c) d c W) as [P O].
    pose proof (add_pulse_wf (captureLastLevel c) d c W) as W1. pose proof (length_pulses _ W1) as L1.
    set (c1 := add_pulse (captureLastLevel c) d c) in *.
    destruct (IH (set_edge now level c1)) as (A' & P' & O' & T'); [by apply set_edge_wf|by apply add_pulse_fields|exact F2|].
    split; [exact A'|]. cbn [waveform] in *. fold d. split; [|split].
    + rewrite P'. change (pulses (set_edge now level c1)) with (pulses c1). cbn [captureLastEdgeUs captureLastLevel set_edge].
      rewrite P, take_take_app, <- app_assoc. done.
    + rewrite O'. cbn [captureOverflow capturedPulses set_edge]. rewrite O, <- orb_assoc. f_equal.
      rewrite P, length_take, length_app, (length_pulses c W) in L1. cbn [length] in *.
      destruct W as (_ & _ & N & _). apply eq_true_iff_eq. rewrite orb_true_iff, !Nat.ltb_lt. lia.
    + rewrite T'. destruct edges as [|y edges]; [done|]. rewrite last_cons_cons.
      destruct (last (y :: edges)) eqn:El; [done|]. by apply last_None in El.
Qed.

(** ** Between the edges the main loop looks at the capture *)

(** The main loop looks at the capture but neither starts nor stops it. *)
Definition watches (e : event) : bool :=
  match e with Edge _ _ | Ready _ | Count _ | Pulse _ _ => true | _ => false end.

(** The edges among the events. *)
Definition edges_of (l : list event) : list (Z * Z) :=
  omap (fun e => match e with Edge now level => Some (now, level) | _ => None end) l.

(** Whenever the main loop looks, the last edge is less than the idle gap ago. *)
Fixpoint timely (since : Z) (l : list event) : bool :=
  match l with
  | [] => true
  | Edge now _ :: l' => timely now l'
  | Ready t :: l' | Count t :: l' | Pulse t _ :: l' => (u32 (t - since) <? captureIdleUs settings) && timely since l'
  | _ => false
  end.

(** The time of a look at the capture. *)
Definition looks_at (e : event) : option Z :=
  match e with Ready t | Count t | Pulse t _ => Some t | _ => None end.

Lemma look_ready e t c : looks_at e = Some t -> step settings e c = (captureReady settings t c).2.
Proof.
  destruct e; intros [= <-]; cbn; unfold capturePulseCount, capturePulse; [done|..];
    destruct (captureReady settings _ c) as [r c']; [done|by destruct (_ || _)].
Qed.

(** A look at an unfinished frame changes nothing. *)
Lemma look_nothing e t c :
  looks_at e = Some t -> armed c -> capturedPulses c = 0%nat \/ u32 (t - captureLastEdgeUs c) < captureIdleUs settings ->
  step settings e c = c.
Proof.
  intros E (A & R & I) H. rewrite (look_ready e t c E). unfold captureReady. rewrite A, R. cbn [negb andb].
  destruct H as [H|H]; [by rewrite H|]. by rewrite (proj2 (Z.leb_gt _ _) H), andb_false_r.
Qed.

(** Looks in time can be left out. *)
Lemma drop_looks l : forall c,
  capture_wf c -> armed c -> timely (captureLastEdgeUs c) l = true ->
  Forall in_range (waveform (captureLastEdgeUs c) (captureLastLevel c) (edges_of l)) ->
  steps settings l c = steps settings (interrupts (edges_of l)) c.
Proof.
  assert (Look : forall e t l c, looks_at e = Some t -> armed c -> u32 (t - captureLastEdgeUs c) < captureIdleUs settings ->
            steps settings (e :: l) c = steps settings l c).
  { intros e t l' c E A H. change (steps settings (e :: l') c) with (steps settings l' (step settings e c)).
    rewrite (look_nothing e t c) by auto. done. }
  induction l as [|e l IH]; intros c W A T F; [done|].
  destruct e as [now level| | | |t|t|t i]; try done; cbn [timely] in T;
    try (to_prop; rewrite (Look _ t) by done; by apply IH).
  change (edges_of (Edge now level :: l)) with ((now, level) :: edges_of l) in *.
  apply Forall_cons in F as [F1 F2]. pose proof (edge_pulse now level c A F1) as E.
  change (steps settings (Edge now level :: l) c) with (steps settings l (step settings (Edge now level) c)).
  change (steps settings (interrupts ((now, level) :: edges_of l)) c)
    with (steps settings (interrupts (edges_of l)) (step settings (Edge now level) c)).
  apply IH; [by apply step_wf|rewrite E; by apply add_pulse_fields|by rewrite E|by rewrite E].
Qed.

Definition idle_gap (p : Z * Z) : Prop := captureIdleUs settings <= p.2.
#[global] Instance idle_gap_dec p : Decision (idle_gap p).
Proof. unfold idle_gap. apply _. Defined.

(** Edges after a silence, as long as nothing has been recorded, only move the
    beginning of the frame. *)
Lemma quiet_moves l : forall now level e c t0 l0,
  Forall (fun e => watches e = true) l -> Forall idle_gap (waveform now level (edges_of l)) ->
  default (now, level) (last (edges_of l)) = (t0, l0) ->
  steps settings l (fresh_frame now level e c) = fresh_frame t0 l0 e c.
Proof.
  induction l as [|ev l IH]; intros now level e c t0 l0 Hw F E; [by injection E as <- <-|].
  apply Forall_cons in Hw as [Hev Hw].
  change (steps settings (ev :: l) (fresh_frame now level e c))
    with (steps settings l (step settings ev (fresh_frame now level e c))).
  assert (Look : forall t, looks_at ev = Some t -> step settings ev (fresh_frame now level e c) = fresh_frame now level e c).
  { intros t Et. eapply look_nothing; [exact Et|done|by left]. }
  destruct ev as [t lv| | | |t|t|t i]; try done; try (rewrite (Look t) by done; by apply IH).
  change (edges_of (Edge t lv :: l)) with ((t, lv) :: edges_of l) in *. apply Forall_cons in F as [F1 F2].
  assert (Es : step settings (Edge t lv) (fresh_frame now level e c) = fresh_frame t lv e c).
  { cbn. unfold edge, captureEdge. cbn [fresh_frame interrupt captureActive captureFrameReady negb orb].
    cbn [captureLastEdgeUs]. by rewrite (proj2 (Z.leb_le _ _) (F1 : captureIdleUs settings <= u32 (t - now))). }
  rewrite Es. apply IH; [done|done|]. destruct (edges_of l) as [|x q] eqn:Eq; [exact E|].
  rewrite last_cons_cons in E. destruct (last (x :: q)) eqn:El; [done|]. by apply last_None in El.
Qed.

(** A frame that is ready is not touched by further edges or looks. *)
Lemma ready_stays l : forall c,
  captureActive c = true -> captureFrameReady c = true -> Forall (fun e => watches e = true) l -> steps settings l c = c.
Proof.
  induction l as [|e l IH]; intros c A R Hw; [done|]. apply Forall_cons in Hw as [He Hw].
  change (steps settings (e :: l) c) with (steps settings l (step settings e c)).
  replace (step settings e c) with c; [by apply IH|].
  assert (Look : forall t, looks_at e = Some t -> c = step settings e c).
  { intros t Et. rewrite (look_ready e t c Et). unfold captureReady. by rewrite A, R. }
  destruct e as [now level| | | |t|t|t i]; try done; try (by apply (Look t)).
  cbn. unfold edge, captureEdge. rewrite R, orb_true_r. by destruct (interrupt c).
Qed.

(** C14: a capture that has been started or rearmed records the next frame of
    the receiver exactly.  The frame may begin at once or after a silence (edges
    at least the idle gap apart, the last of which begins the frame); its pulses
    are between the shortest pulse and the idle gap; a silence ends it.  However
    often the main loop looks at the capture meanwhile, the frame that becomes
    ready (seen by the main loop, or closed by the first edge of the next frame)
    holds the levels and durations between the edges, in order, up to the
    capacity, with the overflow flag telling whether some were lost; later edges
    and looks do not change it. *)
Theorem capture_records c c0 now level quiet t0 l0 frame later c2 more :
  capture_wf c ->
  captureStart settings now level c = (true, c0) \/ captureRearm now level c = (true, c0) ->
  Forall (fun e => watches e = true) quiet -> Forall idle_gap (waveform now level (edges_of quiet)) ->
  default (now, level) (last (edges_of quiet)) = (t0, l0) ->
  edges_of frame <> [] -> timely t0 frame = true -> Forall in_range (waveform t0 l0 (edges_of frame)) ->
  captureIdleUs settings <= u32 (later - default t0 (fst <$> last (edges_of frame))) ->
  let c1 := steps settings (quiet ++ frame) c0 in
  c2 = (captureReady settings later c1).2 \/ (exists l, c2 = step settings (Edge later l) c1) ->
  Forall (fun e => watches e = true) more ->
  let c3 := steps settings more c2 in
  captureFrameReady c3 = true
  /\ pulses c3 = take CAPTURE_PULSE_CAPACITY (waveform t0 l0 (edges_of frame))
  /\ captureOverflow c3 = (CAPTURE_PULSE_CAPACITY <? length (edges_of frame))%nat.
Proof.
  intros W Hs Hq Fq Eq He Ht F Idle c1 Hc2 Hm c3.
  assert (E0 : exists e, c0 = fresh_frame now level e c).
  { destruct Hs as [Hs|Hs]; revert Hs; [unfold captureStart; destruct (_ || _)|unfold captureRearm; destruct (negb _)];
      intros [= <-]; eauto. }
  destruct E0 as [e ->]. pose proof (fresh_frame_wf t0 l0 e c W) as W0.
  assert (E1 : c1 = steps settings (interrupts (edges_of frame)) (fresh_frame t0 l0 e c)).
  { unfold c1, steps. rewrite fold_left_app. fold (steps settings quiet (fresh_frame now level e c)).
    rewrite (quiet_moves quiet now level e c t0 l0) by done. by apply drop_looks. }
  clearbody c1. subst c1. set (edges := edges_of frame) in *.
  destruct (edges_record edges (fresh_frame t0 l0 e c) W0) as ((A & R & I) & P & O & T); [done|exact F|].
  set (c1 := steps settings (interrupts edges) (fresh_frame t0 l0 e c)) in *.
  cbn [captureLastEdgeUs captureLastLevel captureOverflow capturedPulses fresh_frame orb Nat.add] in P, O, T.
  change (pulses (fresh_frame t0 l0 e c)) with (@nil (Z * Z)) in P. cbn [app] in P.
  assert (W1 : capture_wf c1) by (by apply steps_wf). pose proof (length_pulses c1 W1) as L1.
  assert (N1 : (capturedPulses c1 =? 0)%nat = false).
  { apply Nat.eqb_neq. rewrite <- L1, P, length_take, length_waveform. destruct edges; [done|].
    unfold CAPTURE_PULSE_CAPACITY. cbn [length]. lia. }
  clearbody c1.
  assert (C2 : captureActive c2 = true /\ captureFrameReady c2 = true /\ pulses c2 = pulses c1 /\ captureOverflow c2 = captureOverflow c1).
  { destruct Hc2 as [->|[l ->]].
    - unfold captureReady. rewrite A, R, N1, T, (proj2 (Z.leb_le _ _) Idle). done.
    - cbn. unfold edge, captureEdge. rewrite I, A, R, N1, T, (proj2 (Z.leb_le _ _) Idle). done. }
  destruct C2 as (A2 & R2 & P2 & O2). unfold c3. rewrite ready_stays by done. by rewrite R2, P2, O2, P, O.
Qed.
End capture.

(** The receiver is idle when the capture is armed; half a second later a remote
    control sends a mark, a space and a mark across the wrap of the microsecond
    clock, watched by the main loop; then silence, and the first edge of another
    frame. *)
Definition remote : config := Config true 20000 50.

Definition remote_quiet : list event := [Ready 4294400000; Count 4294800000; Edge 4294967000 0].
Definition remote_frame : list event := [Ready 4294967100; Edge 200 1; Pulse 300 0; Edge 1890 0; Edge 2450 1; Count 9000].

Lemma capture_records_witness :
  let c0 := fresh_frame 4294300000 1 [] capture_init in
  let c1 := steps remote (remote_quiet ++ remote_frame) c0 in
  pulses (steps remote [Edge 40000 0; Ready 50000] (captureReady remote 30000 c1).2) = [(0, 496); (1, 1690); (0, 560)].
Proof.
  intros c0 c1.
  destruct (capture_records remote capture_init c0 4294300000 1 remote_quiet 4294967000 0 remote_frame 30000
              (captureReady remote 30000 c1).2 [Edge 40000 0; Ready 50000]) as (_ & P & _).
  - unfold capture_wf, capture_init. cbn [captureLevels captureDurationsUs capturedPulses interrupt captureFrameReady].
    rewrite repeat_length. split_and!; [reflexivity|reflexivity|lia|discriminate|discriminate].
  - left. reflexivity.
  - apply (bool_decide_unpack _). vm_compute. exact I.
  - apply (bool_decide_unpack _). vm_compute. exact I.
  - reflexivity.
  - discriminate.
  - vm_compute. reflexivity.
  - apply (bool_decide_unpack _). vm_compute. exact I.
  - vm_compute. discriminate.
  - left. reflexivity.
  - apply (bool_decide_unpack _). vm_compute. exact I.
  - etransitivity; [exact P|]. vm_compute. reflexivity.
Defined.
End CaptureFacts.
