(* ===== verification/EspIrReplay.v ===== *)
(** * esp/common/src/services/Esp32IrService.cpp: the device's capture and replay

    The capture functions of EspIrCapture.v run on a device (the interrupt may
    change the capture whenever the device reads its clock or waits), and the
    replay of an envelope through the transmitter, alone or while the receiver
    records it.  The transmitter's driver, the pins and the memory allocator are
    an interface. *)
From S2P Require Import Prelude CLib EspRegistry EspIrCapture.

Open Scope Z_scope.

Module IrReplay.
Import EspRegistry Capture.

(** The settings of the service. *)
Record ir_config := IrConfig {
  tx_configured : bool; capture_config : config; captureResolutionHz : Z; defaultFrequencyHz : Z }.

Class HasIr (S : Type) := {
  ir_of : S -> capture;
  put_ir : capture -> S -> S;
  micros : st S Z;                        (** edges may arrive meanwhile *)
  receiver : st S Z;                      (** [digitalRead(rxPin)] *)
  delay : Z -> st S unit;
  allocate : st S bool;                   (** [new (std::nothrow)] *)
  rmtInit : st S bool;
  rmtSetCarrier : st S bool;
  rmtWrite : list rmt_data -> st S bool;
  rmtDeinit : st S unit }.

Section service.
Context {S : Type} `{HasIr S} (settings : ir_config).

Definition get_ir {A} (f : capture -> A) : st S A := gets (fun s => f (ir_of s)).
Definition upd_ir (f : capture -> capture) : st S unit := modify (fun s => put_ir (f (ir_of s)) s).
(** A capture function on the device. *)
Definition on_ir {A} (f : capture -> A * capture) : st S A := fun s =>
  let '(a, c) := f (ir_of s) in (a, put_ir c s).

Definition ir_captureStart : st S bool :=
  refused ← get_ir (fun c => negb (rx_configured (capture_config settings)) || captureActive c);
  if refused : bool then on_ir (captureStart (capture_config settings) 0 0)
  else level ← receiver; now ← micros; on_ir (captureStart (capture_config settings) now level).

Definition ir_captureReady : st S bool :=
  asks ← get_ir (fun c => captureActive c && negb (captureFrameReady c) && negb (capturedPulses c =? 0)%nat);
  now ← (if asks : bool then micros else mret 0);
  on_ir (captureReady (capture_config settings) now).

Definition ir_captureRearm : st S bool :=
  active ← get_ir captureActive;
  if negb active then on_ir (captureRearm 0 0)
  else level ← receiver; now ← micros; on_ir (captureRearm now level).

Definition ir_captureStop : st S unit := upd_ir captureStop.

Definition ir_capturePulseCount : st S nat :=
  ready ← ir_captureReady; if ready : bool then get_ir capturedPulses else mret 0%nat.

Definition ir_capturePulse (index : nat) : st S (option (Z * Z)) :=
  ready ← ir_captureReady;
  n ← get_ir capturedPulses;
  if negb ready || (n <=? index)%nat then mret None
  else get_ir (fun c => Some (nth index (captureLevels c) 0, nth index (captureDurationsUs c) 0)).

(** ** Replay *)

Definition frame_us (l : list (Z * Z)) : Z := fold_left (fun n p => (n + p.2) mod 2 ^ 64) l 0.

(** [for (repeat...; repeat < repeats && sent; ...) sent = rmtWrite(...)]. *)
Fixpoint write_repeats (repeats : nat) (symbols : list rmt_data) : st S bool :=
  match repeats with
  | O => mret true
  | Datatypes.S k => sent ← rmtWrite symbols; if sent : bool then write_repeats k symbols else mret false
  end.

Definition replayEnvelopeImpl (pulses : list (Z * Z)) (repeats : Z) (allowCapture : bool) : st S NativeResult :=
  if negb (tx_configured settings) || negb (rx_configured (capture_config settings))
  then mret (failure (str "IR unconfigured"))
  else
  active ← get_ir captureActive;
  if active && negb allowCapture then mret (failure (str "IR capture active"))
  else if (length pulses =? 0)%nat || (CAPTURE_PULSE_CAPACITY <? length pulses)%nat || (repeats =? 0) || (20 <? repeats)
  then mret (failure (str "invalid IR envelope"))
  else
  memory ← allocate;
  if negb memory then mret (failure (str "insufficient IR transmit memory"))
  else
  match envelope_symbols pulses with
  | None => mret (failure (str "IR pulse duration outside 1..32767 us"))
  | Some symbols =>
      ready ← rmtInit;
      if negb ready then mret (failure (str "RMT transmit init failed"))
      else
      carrier ← rmtSetCarrier;
      if negb carrier then rmtDeinit ;; mret (failure (str "RMT carrier setup failed"))
      else
      sent ← write_repeats (Z.to_nat repeats) symbols;
      rmtDeinit ;;
      if negb sent then mret (failure (str "RMT transmit failed"))
      else
      let n := Z.of_nat (length pulses) in
      mret (result true (i32 n)
              (str "pulses=" ++ print_nat n ++ str " repeats=" ++ print_nat repeats ++ str " carrier_hz="
               ++ print_nat (defaultFrequencyHz settings) ++ str " frame_us=" ++ print_nat (u32 (frame_us pulses))))
  end.

Definition replayEnvelope (pulses : list (Z * Z)) (repeats : Z) : st S NativeResult :=
  replayEnvelopeImpl pulses repeats false.

(** The pulses at the indices from [index] on; [None] when one is missing. *)
Fixpoint copy_pulses (count index : nat) : st S (option (list (Z * Z))) :=
  match count with
  | O => mret (Some [])
  | Datatypes.S k =>
      p ← ir_capturePulse index;
      match p with
      | None => mret None
      | Some p => rest ← copy_pulses k (Datatypes.S index);
                  mret (match rest with Some l => Some (p :: l) | None => None end)
      end
  end.

(** The time the receiver needs to be quiet, in milliseconds. *)
Definition settle_ms : Z := (captureIdleUs (capture_config settings) + 999) / 1000 + 2.

(** The answer and the captured pulses. *)
Definition replayAndCapture (pulses : list (Z * Z)) (capturedCapacity : nat) : st S (NativeResult * list (Z * Z)) :=
  let refuse text := mret (failure text, []) in
  active ← get_ir captureActive;
  if active : bool then refuse (str "IR capture active")
  else if (capturedCapacity =? 0)%nat then refuse (str "invalid IR comparison buffer")
  else
  started ← ir_captureStart;
  if negb started then e ← get_ir lastCaptureError; refuse e
  else
  delay settle_ms ;;
  sent ← replayEnvelopeImpl pulses 1 true;
  if negb (ok sent) then ir_captureStop ;; mret (sent, [])
  else
  delay settle_ms ;;
  observed ← ir_capturePulseCount;
  overflow ← get_ir captureOverflow;
  if overflow || (capturedCapacity <? observed)%nat
  then ir_captureStop ;; refuse (str "IR comparison capture overflow")
  else
  copied ← copy_pulses observed 0;
  match copied with
  | None => ir_captureStop ;; refuse (str "IR comparison pulse copy failed")
  | Some l =>
      ir_captureStop ;;
      mret (result true (i32 (Z.of_nat observed))
              (str "sent_pulses=" ++ print_nat (Z.of_nat (length pulses)) ++ str " observed_pulses="
               ++ print_nat (Z.of_nat observed) ++ str " carrier_hz=" ++ print_nat (defaultFrequencyHz settings)), l)
  end.
End service.
End IrReplay.
