(* ===== verification/EspSensors.v ===== *)
(** * esp/common/src/services: sensors and outputs

    Esp32AdcService, Esp32Dht11Service, Esp32DigitalOutputService,
    Esp32RgbLedService, Esp32SignalLedService, Esp32UltrasonicService and the
    carrier functions of Esp32IrService.  The pins, the converter and the pulse
    timer are an interface; the static variables of the services are a record.  A
    loop that waits for the clock has a bound of turns and no result beyond it. *)
From S2P Require Import Prelude CLib EspRegistry EspVm EspIrCapture EspIrReplay.

Open Scope Z_scope.

Module EspSensors.
Import EspRegistry EspVm Capture IrReplay.

(** ** Pins and state *)

Inductive pin_mode := INPUT | OUTPUT | INPUT_PULLUP | OUTPUT_OPEN_DRAIN.
Inductive adc_unit := ADC_UNIT_1 | ADC_UNIT_2 | ADC_UNIT_OTHER.

Definition LOW : Z := 0.
Definition HIGH : Z := 1.

Class HasPins (S : Type) := {
  pinMode : Z -> pin_mode -> st S unit;
  digitalWrite : Z -> Z -> st S unit;
  digitalRead : Z -> st S Z;
  delayMicroseconds : Z -> st S unit;
  pulseIn : Z -> Z -> Z -> st S Z;
  rgbLedWrite : Z -> Z -> Z -> Z -> st S unit;
  ledcAttach : Z -> Z -> Z -> st S bool;
  ledcWrite : Z -> Z -> st S unit;
  ledcDetach : Z -> st S unit;
  valid_output : Z -> bool;                          (** [GPIO_IS_VALID_OUTPUT_GPIO] *)
  valid_gpio : Z -> bool;                            (** [GPIO_IS_VALID_GPIO] *)
  adc_oneshot_io_to_channel : Z -> Z + adc_unit * Z; (** an error code, or the unit and channel *)
  adc_oneshot_new_unit : adc_unit -> st S (Z + Z);   (** an error code, or a handle *)
  adc_oneshot_config_channel : Z -> Z -> st S Z;
  gpio_set_floating : Z -> st S Z;
  adc_oneshot_read : Z -> Z -> st S (Z + Z);
  esp_err_to_name : Z -> bytes }.

Record ultrasonic_config := Ultrasonic {
  triggerPin : Z; echoPin : Z; triggerSettleUs : Z; triggerPulseUs : Z; interSampleMs : Z;
  soundSpeedMmPerSecond : Z; defaultSamples : Z; defaultTimeoutUs : Z }.

Record sensors := Sensors {
  adc_pins : list Z; channelConfigured : list bool; adc_handles : list (option Z);
  dht_pin : Z; lastAttempt : Z; attempted : bool;
  statusLedPin : Z; signalLedPin : Z; ultrasonic_settings : ultrasonic_config }.

Definition sensors_init : sensors :=
  Sensors (repeat (-1) 8) (repeat false 8) [None; None] (-1) 0 false (-1) (-1) (Ultrasonic (-1) (-1) 0 0 0 0 0 0).

Definition set_adc (p : list Z) (c : list bool) (h : list (option Z)) (q : sensors) : sensors :=
  Sensors p c h (dht_pin q) (lastAttempt q) (attempted q) (statusLedPin q) (signalLedPin q) (ultrasonic_settings q).
Definition set_dht (p at_ : Z) (b : bool) (q : sensors) : sensors :=
  Sensors (adc_pins q) (channelConfigured q) (adc_handles q) p at_ b (statusLedPin q) (signalLedPin q) (ultrasonic_settings q).
Definition set_leds (status signal : Z) (q : sensors) : sensors :=
  Sensors (adc_pins q) (channelConfigured q) (adc_handles q) (dht_pin q) (lastAttempt q) (attempted q) status signal (ultrasonic_settings q).
Definition set_ultrasonic (c : ultrasonic_config) (q : sensors) : sensors :=
  Sensors (adc_pins q) (channelConfigured q) (adc_handles q) (dht_pin q) (lastAttempt q) (attempted q) (statusLedPin q) (signalLedPin q) c.

Class HasSensors (S : Type) := { sensors_of : S -> sensors; put_sensors : sensors -> S -> S }.

(** ** The frame of a DHT11 *)

(** The bit of a low and a high phase of the signal, and the bytes of a frame. *)
Definition dht_bit (low high : Z) : Z := if low <? high then 1 else 0.

Fixpoint dht_bits (widths : list Z) : list Z :=
  match widths with
  | low :: high :: rest => dht_bit low high :: dht_bits rest
  | _ => []
  end.

(** [bytes[i/8] = (bytes[i/8] << 1) | bit] for the forty bits. *)
Definition dht_byte (bits : list Z) : Z := fold_left (fun b bit => Z.lor (Z.shiftl b 1 mod 256) bit) bits 0.
Definition dht_bytes (bits : list Z) : list Z := map (fun k => dht_byte (take 8 (drop (8 * k) bits))) (seq 0 5).

Definition dht_raw (l : list Z) : bytes := l ≫= hex_byte.

(** [%.1f] of a tenth. *)
Definition tenths (v : Z) : bytes :=
  (if v <? 0 then [45] else []) ++ print_nat (Z.abs v / 10) ++ str "." ++ print_nat (Z.abs v mod 10).

(** The error, or the temperature and humidity in tenths. *)
Definition dht_decode (widths : list Z) : bytes + Z * Z :=
  let l := dht_bytes (dht_bits widths) in
  let b k := nth k l 0 in
  if negb ((b 0%nat + b 1%nat + b 2%nat + b 3%nat) mod 256 =? b 4%nat) then inl (str "DHT11 checksum raw=" ++ dht_raw l)
  else
  let humidity := b 0%nat * 10 + b 1%nat in
  let temperature := (if negb (Z.land (b 3%nat) 128 =? 0) then -1 - b 2%nat else b 2%nat) * 10 + Z.land (b 3%nat) 15 in
  if (1000 <? humidity) || (temperature <? -200) || (800 <? temperature) then inl (str "DHT11 range raw=" ++ dht_raw l)
  else inr (temperature, humidity).

Section services.
Context {S : Type} `{HasClock S} `{!HasPins S} `{!HasIr S} `{!HasSensors S}.

Definition get_sensors {A} (f : sensors -> A) : st S A := gets (fun s => f (sensors_of s)).
Definition upd_sensors (f : sensors -> sensors) : st S unit := modify (fun s => put_sensors (f (sensors_of s)) s).

(** ** Esp32AdcService *)

Definition adc_error (stage : bytes) (code : Z) : NativeResult :=
  failure (str "ADC " ++ stage ++ str " error=" ++ esp_err_to_name code).

Definition unitIndex (unit : adc_unit) : Z := match unit with ADC_UNIT_1 => 0 | ADC_UNIT_2 => 1 | ADC_UNIT_OTHER => -1 end.

Definition adc_configure (channel pin : Z) : st S bool :=
  if 8 <=? channel then mret false
  else match adc_oneshot_io_to_channel pin with
       | inl _ => mret false
       | inr _ => upd_sensors (fun q => set_adc (<[Z.to_nat channel := pin]> (adc_pins q)) (channelConfigured q) (adc_handles q) q) ;; mret true
       end.

(** The handle of a unit, opened when it is needed first. *)
Definition adc_open (unit : adc_unit) (index : nat) : st S (Z + Z) :=
  q ← get_sensors (fun q => q);
  match nth index (adc_handles q) None with
  | Some h => mret (inr h)
  | None =>
      r ← adc_oneshot_new_unit unit;
      match r with
      | inl e => mret (inl e)
      | inr h => upd_sensors (fun q => set_adc (adc_pins q) (channelConfigured q) (<[index := Some h]> (adc_handles q)) q) ;; mret (inr h)
      end
  end.

(** The error of the set-up of a channel, 0 when there is none. *)
Definition adc_setup (slot : nat) (pin handle channel : Z) : st S Z :=
  q ← get_sensors (fun q => q);
  if nth slot (channelConfigured q) false then mret 0
  else
  e ← adc_oneshot_config_channel handle channel;
  e ← (if e =? 0 then gpio_set_floating pin else mret e);
  (if e =? 0 then upd_sensors (fun q => set_adc (adc_pins q) (<[slot := true]> (channelConfigured q)) (adc_handles q) q) else mret tt) ;;
  mret e.

(** The samples: an error code, or total, minimum and maximum. *)
Fixpoint adc_samples (todo : nat) (handle channel : Z) (acc : Z * Z * Z) : st S (Z + Z * Z * Z) :=
  match todo with
  | O => mret (inr acc)
  | Datatypes.S k =>
      r ← adc_oneshot_read handle channel;
      match r with
      | inl e => mret (inl e)
      | inr v =>
          let '(total, minimum, maximum) := acc in
          (match k with O => mret tt | _ => delay 1 end) ;;
          adc_samples k handle channel
            (total + v, if v <? minimum then v else minimum, if maximum <? v then v else maximum)
      end
  end.

Definition adc_mean (total samples : Z) : Z := Z.quot (total + Z.quot samples 2) samples.

Definition adc_read (args : list Z) : st S NativeResult :=
  let count := length args in
  let slot := nth 0 args 0 in
  if (count <? 1)%nat || (2 <? count)%nat || (slot <? 0) || (8 <=? slot)
     || ((count =? 2)%nat && ((nth 1 args 0 <? 1) || (64 <? nth 1 args 0)))
  then mret (failure (str "usage: channel(0..7) [samples(1..64)]"))
  else
  pin ← get_sensors (fun q => nth (Z.to_nat slot) (adc_pins q) (-1));
  let samples := if (count =? 2)%nat then nth 1 args 0 else 16 in
  if pin <? 0 then mret (failure (str "ADC channel not registered"))
  else
  match adc_oneshot_io_to_channel pin with
  | inl e => mret (adc_error (str "mapping") e)
  | inr (unit, channel) =>
      if unitIndex unit <? 0 then mret (failure (str "ADC unit unsupported"))
      else
      opened ← adc_open unit (Z.to_nat (unitIndex unit));
      match opened with
      | inl e => mret (adc_error (str "open") e)
      | inr handle =>
          e ← adc_setup (Z.to_nat slot) pin handle channel;
          if negb (e =? 0) then mret (adc_error (str "sample") e)
          else
          r ← adc_samples (Z.to_nat samples) handle channel (0, 4095, 0);
          match r with
          | inl e => mret (adc_error (str "sample") e)
          | inr (total, minimum, maximum) =>
              let mean := adc_mean total samples in
              mret (result true mean
                      (str "pin=" ++ print_nat pin ++ str " raw=" ++ print_int mean ++ str " min=" ++ print_int minimum
                       ++ str " max=" ++ print_int maximum ++ str " samples=" ++ print_nat samples ++ str " bits=12"))
          end
      end
  end.

(** ** Esp32DigitalOutputService *)

Definition output_set (pin : Z) (high : bool) : st S NativeResult :=
  let wanted := if high then HIGH else LOW in
  pinMode pin OUTPUT ;;
  digitalWrite pin wanted ;;
  actual ← digitalRead pin;
  let text := str "pin=" ++ print_int pin ++ str " requested=" ++ print_nat wanted ++ str " actual=" ++ print_int actual in
  mret (if actual =? wanted then result true actual text else result false actual (text ++ str " output_mismatch=1")).

Definition output_call (pin : Z) (args : list Z) : st S NativeResult :=
  match args with
  | [v] => if (v <? 0) || (1 <? v) then mret (failure (str "usage: state(0|1)")) else output_set pin (negb (v =? 0))
  | _ => mret (failure (str "usage: state(0|1)"))
  end.

(** ** Esp32RgbLedService and Esp32SignalLedService *)

Definition rgb_begin (pin : Z) : st S bool :=
  upd_sensors (fun q => set_leds pin (signalLedPin q) q) ;; rgbLedWrite pin 0 0 0 ;; mret true.

Definition rgb_set (args : list Z) : st S NativeResult :=
  pin ← get_sensors statusLedPin;
  if pin <? 0 then mret (failure (str "RGB LED unavailable"))
  else match args with
       | [r; g; b] =>
           if existsb (fun v => (v <? 0) || (255 <? v)) args then mret (failure (str "RGB values must be 0..255"))
           else rgbLedWrite pin r g b ;;
                mret (result true 0 (str "rgb=" ++ print_int r ++ str "," ++ print_int g ++ str "," ++ print_int b))
       | _ => mret (failure (str "LED_RGB expects red green blue"))
       end.

Definition signal_begin (pin : Z) : st S bool :=
  upd_sensors (fun q => set_leds (statusLedPin q) pin q) ;; pinMode pin OUTPUT ;; digitalWrite pin LOW ;; mret true.

Definition signal_set (args : list Z) : st S NativeResult :=
  pin ← get_sensors signalLedPin;
  if pin <? 0 then mret (failure (str "signal LED unavailable"))
  else match args with
       | [v] => if negb (v =? 0) && negb (v =? 1) then mret (failure (str "LED_SIGNAL expects 0 or 1"))
                else digitalWrite pin (if v =? 0 then LOW else HIGH) ;; mret (result true v (str "state=" ++ print_int v))
       | _ => mret (failure (str "LED_SIGNAL expects 0 or 1"))
       end.

(** ** Esp32UltrasonicService *)

Definition ultrasonic_begin (c : ultrasonic_config) : st S bool :=
  if negb (valid_output (triggerPin c)) || negb (valid_gpio (echoPin c)) || (triggerPin c =? echoPin c)
     || (triggerPulseUs c =? 0) || (soundSpeedMmPerSecond c =? 0) || (defaultSamples c =? 0) || (defaultTimeoutUs c =? 0)
  then mret false
  else
  upd_sensors (set_ultrasonic c) ;;
  pinMode (triggerPin c) OUTPUT ;; digitalWrite (triggerPin c) LOW ;; pinMode (echoPin c) INPUT ;; mret true.

(** Total, minimum, maximum and number of the echoes. *)
Fixpoint echoes (todo : nat) (c : ultrasonic_config) (timeout : Z) (acc : Z * Z * Z * Z) : st S (Z * Z * Z * Z) :=
  match todo with
  | O => mret acc
  | Datatypes.S k =>
      digitalWrite (triggerPin c) LOW ;; delayMicroseconds (triggerSettleUs c) ;;
      digitalWrite (triggerPin c) HIGH ;; delayMicroseconds (triggerPulseUs c) ;;
      digitalWrite (triggerPin c) LOW ;;
      d ← pulseIn (echoPin c) HIGH timeout;
      let '(total, lo, hi, n) := acc in
      delay (interSampleMs c) ;;
      echoes k c timeout (if d =? 0 then acc else (u32 (total + d), Z.min lo d, Z.max hi d, n + 1))
  end.

Definition distance_mm (average speed : Z) : Z := i32 ((average * speed / 2 + 500000) / 1000000).

Definition ultrasonic_measure (args : list Z) : st S NativeResult :=
  c ← get_sensors ultrasonic_settings;
  if (triggerPin c <? 0) || (echoPin c <? 0) then mret (failure (str "ultrasonic unconfigured"))
  else if (2 <? length args)%nat then mret (failure (str "usage: [samples(1..10)] [timeout_us]"))
  else
  let wanted := match args with w :: _ => w | [] => defaultSamples c end in
  let timeout := match args with _ :: t :: _ => t | _ => i32 (defaultTimeoutUs c) end in
  if (wanted <? 1) || (10 <? wanted) || (timeout <? 1000) || (60000 <? timeout)
  then mret (failure (str "samples 1..10; timeout 1000..60000 us"))
  else
  r ← echoes (Z.to_nat wanted) c timeout (0, 2 ^ 32 - 1, 0, 0);
  let '(total, lo, hi, received) := r : Z * Z * Z * Z in
  let pins := str "trig=" ++ print_int (triggerPin c) ++ str " echo=" ++ print_int (echoPin c) in
  if received =? 0 then mret (failure (str "no echo " ++ pins ++ str " samples=" ++ print_int wanted))
  else
  let average := total / received in
  let mm := distance_mm average (soundSpeedMmPerSecond c) in
  mret (result true mm
          (str "distance_mm=" ++ print_int mm ++ str " echo_us=" ++ print_nat average ++ str " min_us=" ++ print_nat lo
           ++ str " max_us=" ++ print_nat hi ++ str " received=" ++ print_int received ++ str "/" ++ print_int wanted
           ++ str " " ++ pins)).

(** ** Esp32Dht11Service *)

Definition DHT_TIMEOUT_US : Z := 150.

(** The wait while the line is at [level]: its width, -1 after the time-out. *)
Fixpoint dht_wait (turns : nat) (pin level start : Z) : st S (option Z) :=
  match turns with
  | O => mret None
  | Datatypes.S k =>
      l ← digitalRead pin;
      now ← micros;
      if l =? level then
        if DHT_TIMEOUT_US <=? u32 (now - start) then mret (Some (-1)) else dht_wait k pin level start
      else mret (Some (i32 (u32 (now - start))))
  end.

Definition dht_pulse (turns : nat) (pin level : Z) : st S (option Z) :=
  start ← micros; dht_wait turns pin level start.

(** The widths of the phases with these levels, or the phase that failed. *)
Fixpoint dht_widths (turns : nat) (pin : Z) (levels : list Z) (phase : Z) : st S (option (Z + list Z)) :=
  match levels with
  | [] => mret (Some (inr []))
  | level :: levels =>
      w ← dht_pulse turns pin level;
      match w with
      | None => mret None
      | Some w =>
          if w <? 0 then mret (Some (inl phase))
          else r ← dht_widths turns pin levels (phase + 1);
               mret (match r with Some (inr l) => Some (inr (w :: l)) | r => r end)
      end
  end.

(** The answer of the sensor and the forty bits. *)
Definition dht_levels : list Z := [HIGH; LOW; HIGH] ++ concat (repeat [LOW; HIGH] 40).

Definition dht_begin (p : Z) : st S bool :=
  if negb (valid_output p) then mret false
  else upd_sensors (fun q => set_dht p (lastAttempt q) false q) ;; mret true.

(** The result, with temperature and humidity when it is [ok]. *)
Definition dht_sample (turns : nat) : st S (option (NativeResult * (Z * Z))) :=
  let refuse text := mret (Some (failure text, (0, 0))) in
  q ← get_sensors (fun q => q);
  if dht_pin q <? 0 then refuse (str "DHT11 unconfigured")
  else
  up ← millis;
  hot ← (if up <? 2000 then mret true
         else if attempted q then now ← millis; mret (u32 (now - lastAttempt q) <? 2000) else mret false);
  if hot : bool then refuse (str "DHT11 cooldown_ms=2000")
  else
  now ← millis;
  upd_sensors (set_dht (dht_pin q) now true) ;;
  pinMode (dht_pin q) INPUT_PULLUP ;;
  delay 1 ;;
  idle ← digitalRead (dht_pin q);
  if idle =? 0 then refuse (str "DHT11 idle_low")
  else
  pinMode (dht_pin q) OUTPUT_OPEN_DRAIN ;; digitalWrite (dht_pin q) LOW ;; delay 20 ;;
  pinMode (dht_pin q) INPUT_PULLUP ;;
  r ← dht_widths turns (dht_pin q) dht_levels 0;
  match r with
  | None => mret None
  | Some (inl phase) => refuse (str "DHT11 timeout phase=" ++ print_nat phase)
  | Some (inr widths) =>
      match dht_decode (drop 3 widths) with
      | inl e => refuse e
      | inr (temperature, humidity) =>
          mret (Some (result true temperature
                        (str "temperature_c=" ++ tenths temperature ++ str " humidity_pct=" ++ tenths humidity ++ str " raw="
                         ++ dht_raw (dht_bytes (dht_bits (drop 3 widths)))), (temperature, humidity)))
      end
  end.

Definition dht_read (turns : nat) (args : list Z) : st S (option NativeResult) :=
  if (1 <? length args)%nat || (negb (length args =? 0)%nat && ((nth 0 args 0 <? 0) || (1 <? nth 0 args 0)))
  then mret (Some (failure (str "usage: [0=temperature|1=humidity]")))
  else
  r ← dht_sample turns;
  mret (match r with
        | None => None
        | Some (r, (temperature, humidity)) =>
            Some (if ok r then Result true (if nth 0 args 0 =? 0 then temperature else humidity) (detail r) (record r) else r)
        end).

(** ** The carrier functions of Esp32IrService *)

Record ir_service_config := IrService {
  txPin : Z; rxPin : Z; defaultFrequency : Z; sampleIntervalUs : Z; loopbackBurstUs : Z; loopbackPauseMs : Z;
  pwmResolutionBits : Z; pwmDuty : Z; resolutionHz : Z; idleUs : Z; minPulseUs : Z }.

(** What the capture and the replay see of it. *)
Definition replay_config (c : ir_service_config) : ir_config :=
  IrConfig (0 <=? txPin c) (Config (0 <=? rxPin c) (idleUs c) (minPulseUs c)) (resolutionHz c) (defaultFrequency c).

Definition preparePins (c : ir_service_config) : st S unit :=
  pinMode (txPin c) OUTPUT ;; digitalWrite (txPin c) LOW ;; pinMode (rxPin c) INPUT_PULLUP.

Definition ir_begin (c : ir_service_config) : st S bool :=
  if negb (valid_output (txPin c)) || negb (valid_gpio (rxPin c)) || (txPin c =? rxPin c) || (defaultFrequency c =? 0)
     || (sampleIntervalUs c =? 0) || (loopbackBurstUs c =? 0) || (pwmResolutionBits c =? 0)
     || (resolutionHz c <? 100000) || (80000000 <? resolutionHz c) || (idleUs c =? 0) || (idleUs c <? minPulseUs c)
  then mret false
  else preparePins c ;; mret true.

(** The sampling of the receiver until [deadline]: how often it was low. *)
Fixpoint carrier_loop (turns : nat) (c : ir_service_config) (deadline duration low samples : Z) : st S (option Z) :=
  match turns with
  | O => mret None
  | Datatypes.S k =>
      now ← micros;
      if negb (i32 (u32 (now - deadline)) <? 0) then mret (Some low)
      else
      level ← digitalRead (rxPin c);
      delayMicroseconds (sampleIntervalUs c) ;;
      (if (100000 <=? duration) && (u32 (samples + 1) mod 32 =? 0) then delay 1 else mret tt) ;;
      carrier_loop k c deadline duration (if level =? LOW then u32 (low + 1) else low)
        (if 100000 <=? duration then u32 (samples + 1) else samples)
  end.

(** [Some None] when the generator cannot be attached. *)
Definition sendCarrier (turns : nat) (c : ir_service_config) (frequency duration : Z) : st S (option (option Z)) :=
  attached ← ledcAttach (txPin c) frequency (pwmResolutionBits c);
  if negb attached then mret (Some None)
  else
  ledcWrite (txPin c) (pwmDuty c) ;;
  now ← micros;
  r ← carrier_loop turns c (u32 (now + duration)) duration 0 0;
  match r with
  | None => mret None
  | Some low =>
      ledcWrite (txPin c) 0 ;; ledcDetach (txPin c) ;; pinMode (txPin c) OUTPUT ;; digitalWrite (txPin c) LOW ;;
      mret (Some (Some low))
  end.

Definition ir_refused (c : ir_service_config) : st S (option bytes) :=
  active ← get_ir captureActive;
  mret (if (txPin c <? 0) || (rxPin c <? 0) then Some (str "IR unconfigured")
        else if active : bool then Some (str "IR capture active") else None).

Definition pwm_failed : NativeResult := failure (str "IR PWM attach failed").
Definition pins_text (c : ir_service_config) : bytes := str "tx=" ++ print_int (txPin c) ++ str " rx=" ++ print_int (rxPin c).

Definition ir_send (turns : nat) (c : ir_service_config) (args : list Z) : st S (option NativeResult) :=
  refused ← ir_refused c;
  match refused with
  | Some e => mret (Some (failure e))
  | None =>
      if (3 <? length args)%nat then mret (Some (failure (str "usage: [duration_ms] [frequency_hz] [enabled]")))
      else
      let duration := nth 0 args 10 in
      let frequency := nth 1 args (i32 (defaultFrequency c)) in
      let enabled := nth 2 args 1 in
      if (enabled <? 0) || (1 <? enabled) then mret (Some (failure (str "enabled must be 0 or 1")))
      else if (duration <? 1) || (10000 <? duration) || (frequency <? 30000) || (60000 <? frequency)
      then mret (Some (failure (str "duration 1..10000 ms; frequency 30000..60000 Hz")))
      else if enabled =? 0 then mret (Some (result true 0 (str "skipped=1")))
      else
      preparePins c ;;
      r ← sendCarrier turns c frequency (duration * 1000);
      mret (match r with
            | None => None
            | Some None => Some pwm_failed
            | Some (Some low) =>
                if low =? 2 ^ 32 - 1 then Some pwm_failed
                else Some (result true (i32 low)
                             (pins_text c ++ str " frequency=" ++ print_int frequency ++ str " duration_ms=" ++ print_int duration
                              ++ str " rx_low_samples=" ++ print_nat low))
            end)
  end.

(** Samples, low samples, edges and the last level until [deadline]. *)
Fixpoint read_loop (turns : nat) (c : ir_service_config) (deadline : Z) (acc : Z * Z * Z * Z) : st S (option (Z * Z * Z * Z)) :=
  match turns with
  | O => mret None
  | Datatypes.S k =>
      now ← millis;
      if negb (i32 (u32 (now - deadline)) <? 0) then mret (Some acc)
      else
      level ← digitalRead (rxPin c);
      let '(samples, low, edges, previous) := acc in
      delayMicroseconds (sampleIntervalUs c) ;;
      read_loop k c deadline (u32 (samples + 1), if level =? LOW then u32 (low + 1) else low,
                              if level =? previous then edges else u32 (edges + 1), level)
  end.

Definition ir_read (turns : nat) (c : ir_service_config) (args : list Z) : st S (option NativeResult) :=
  refused ← ir_refused c;
  match refused with
  | Some e => mret (Some (failure e))
  | None =>
      if (1 <? length args)%nat then mret (Some (failure (str "usage: [window_ms]")))
      else
      let window := nth 0 args 100 in
      if (window <? 1) || (2000 <? window) then mret (Some (failure (str "window must be 1..2000 ms")))
      else
      preparePins c ;;
      now ← millis;
      first ← digitalRead (rxPin c);
      r ← read_loop turns c (u32 (now + window)) (0, 0, 0, first);
      mret (match r with
            | None => None
            | Some (samples, low, edges, previous) =>
                Some (result true (i32 edges)
                        (str "pin=" ++ print_int (rxPin c) ++ str " window_ms=" ++ print_int window ++ str " samples="
                         ++ print_nat samples ++ str " low=" ++ print_nat low ++ str " edges=" ++ print_nat edges
                         ++ str " level=" ++ print_int previous))
            end)
  end.

(** Low samples while sending and while idle; [Some None] as in [sendCarrier]. *)
Fixpoint bursts_loop (turns todo : nat) (c : ir_service_config) (low idleLow : Z) : st S (option (option (Z * Z))) :=
  match todo with
  | O => mret (Some (Some (low, idleLow)))
  | Datatypes.S k =>
      level ← digitalRead (rxPin c);
      r ← sendCarrier turns c (defaultFrequency c) (loopbackBurstUs c);
      match r with
      | None => mret None
      | Some None => mret (Some None)
      | Some (Some burst) =>
          if burst =? 2 ^ 32 - 1 then mret (Some None)
          else delay (loopbackPauseMs c) ;;
               bursts_loop turns k c (u32 (low + burst)) (if level =? LOW then u32 (idleLow + 1) else idleLow)
      end
  end.

Definition ir_loopback (turns : nat) (c : ir_service_config) (args : list Z) : st S (option NativeResult) :=
  refused ← ir_refused c;
  match refused with
  | Some e => mret (Some (failure e))
  | None =>
      if (1 <? length args)%nat then mret (Some (failure (str "usage: [bursts]")))
      else
      let bursts := nth 0 args 20 in
      if (bursts <? 1) || (100 <? bursts) then mret (Some (failure (str "bursts must be 1..100")))
      else
      preparePins c ;;
      r ← bursts_loop turns (Z.to_nat bursts) c 0 0;
      mret (match r with
            | None => None
            | Some None => Some pwm_failed
            | Some (Some (low, idleLow)) =>
                let stuck := idleLow =? bursts in
                let detected := (0 <? low) && negb stuck in
                let flag (b : bool) := if b then str "1" else str "0" in
                Some (result true (if detected then 1 else 0)
                        (pins_text c ++ str " bursts=" ++ print_int bursts ++ str " carrier_low=" ++ print_nat low
                         ++ str " idle_low=" ++ print_nat idleLow ++ str " stuck_low=" ++ flag stuck
                         ++ str " detected=" ++ flag detected))
            end)
  end.
End services.
End EspSensors.
