(* ===== verification/EspSensorsFacts.v ===== *)
(** * Sensors: damaged frames, means and waits

    A DHT11 frame damaged within one byte is refused, the mean of the converter's
    samples lies between the smallest and the largest one, and the calls that wait
    for the clock return when the clock advances. *)
From S2P Require Import Prelude CLib EspRegistry EspVm EspIrCapture EspIrReplay EspSensors.

Open Scope Z_scope.

Module EspSensorsFacts.
Import EspRegistry EspVm Capture IrReplay EspSensors.

(** ** The checksum of a DHT11 frame *)

Definition bits_ok (l : list Z) : Prop := Forall (fun b => b = 0 \/ b = 1) l.

Lemma dht_bits_ok widths : bits_ok (dht_bits widths).
Proof.
  enough (forall n w, (length w <= n)%nat -> bits_ok (dht_bits w)) by eauto.
  induction n as [|n IH]; intros [|a [|b w]] Hw; cbn [dht_bits length] in *; try (by constructor); [lia|].
  constructor; [|apply IH; lia]. unfold dht_bit. destruct (a <? b); auto.
Qed.

(** Eight bits, most significant first. *)
Definition bit_value (l : list Z) : Z := fold_left (fun b bit => 2 * b + bit) l 0.

Definition all_bytes : list (list Z) :=
  let next l := flat_map (fun x => [0 :: x; 1 :: x]) l in next (next (next (next (next (next (next (next [[]]))))))).

Lemma all_bytes_spec l : bits_ok l -> length l = 8%nat -> l ∈ all_bytes.
Proof.
  intros B L. do 8 (destruct l as [|? l]; [discriminate L|]). destruct l; [|discriminate L].
  unfold bits_ok in B. rewrite !Forall_cons in B. destruct B as (B1 & B2 & B3 & B4 & B5 & B6 & B7 & B8 & _).
  destruct B1 as [->| ->], B2 as [->| ->], B3 as [->| ->], B4 as [->| ->], B5 as [->| ->], B6 as [->| ->], B7 as [->| ->], B8 as [->| ->];
    apply (bool_decide_unpack _); vm_compute; exact I.
Qed.

(** Different bits are different bytes. *)
Lemma dht_byte_range l : bits_ok l -> length l = 8%nat -> 0 <= dht_byte l < 256.
Proof.
  intros B L. assert (H : Forall (fun x => 0 <= dht_byte x < 256) all_bytes) by (apply (bool_decide_unpack _); vm_compute; exact I).
  rewrite Forall_forall in H. by apply H, all_bytes_spec.
Qed.

Lemma dht_byte_inj l l' : bits_ok l -> bits_ok l' -> length l = 8%nat -> length l' = 8%nat -> dht_byte l = dht_byte l' -> l = l'.
Proof.
  intros B B' L L' E.
  assert (H : Forall (fun x => Forall (fun y => dht_byte x = dht_byte y -> x = y) all_bytes) all_bytes)
    by (apply (bool_decide_unpack _); vm_compute; exact I).
  rewrite Forall_forall in H. specialize (H l (all_bytes_spec l B L)). rewrite Forall_forall in H. by apply (H l'); [apply all_bytes_spec|].
Qed.

(** The [k]-th byte of a frame. *)
Definition byte_bits (k : nat) (bits : list Z) : list Z := take 8 (drop (8 * k) bits).

Lemma byte_bits_ok k bits : bits_ok bits -> length bits = 40%nat -> (k < 5)%nat -> bits_ok (byte_bits k bits) /\ length (byte_bits k bits) = 8%nat.
Proof. intros B L Hk. split; [by apply Forall_take, Forall_drop|]. unfold byte_bits. rewrite length_take, length_drop. lia. Qed.

Definition checksum_ok (bits : list Z) : Prop :=
  let b k := dht_byte (byte_bits k bits) in (b 0%nat + b 1%nat + b 2%nat + b 3%nat) mod 256 = b 4%nat.

Lemma checksum_detects bits bits' k :
  bits_ok bits -> bits_ok bits' -> length bits = 40%nat -> length bits' = 40%nat -> (k < 5)%nat ->
  byte_bits k bits <> byte_bits k bits' ->
  (forall j, (j < 5)%nat -> j <> k -> byte_bits j bits = byte_bits j bits') ->
  checksum_ok bits -> ~ checksum_ok bits'.
Proof.
  intros B B' L L' Hk Hd Hs C C'. apply Hd. destruct (byte_bits_ok k bits) as [K1 K2]; [done..|]. destruct (byte_bits_ok k bits') as [K3 K4]; [done..|].
  apply dht_byte_inj; [done..|]. unfold checksum_ok in *. pose proof (dht_byte_range _ K1 K2) as R1. pose proof (dht_byte_range _ K3 K4) as R2.
  pose proof (Hs 0%nat) as E0. pose proof (Hs 1%nat) as E1. pose proof (Hs 2%nat) as E2. pose proof (Hs 3%nat) as E3.
  pose proof (Hs 4%nat) as E4. clear Hs Hd K1 K2 K3 K4.
  do 5 (destruct k as [|k]; [
    repeat match goal with E : (?j < 5)%nat -> ?j <> ?i -> _ |- _ => first [specialize (E ltac:(lia) ltac:(lia)); rewrite <- E in C'; clear E | clear E] end;
    revert R1 R2 C C'; repeat match goal with |- context [dht_byte ?x] => generalize (dht_byte x); intros ? end;
    intros; Z.to_euclidean_division_equations; lia|]). lia.
Qed.

Lemma decode_checksum widths :
  length (dht_bits widths) = 40%nat ->
  match dht_decode widths with
  | inr _ => checksum_ok (dht_bits widths)
  | inl _ => True
  end.
Proof.
  intros _. unfold dht_decode, dht_bytes. cbv zeta. cbn [map seq nth].
  match goal with |- context [negb (?a =? ?b)] => destruct (Z.eqb_spec a b) as [E|E] end; cbn [negb]; [|done].
  destruct (_ || _); done.
Qed.

(** a frame of the DHT11 that has been damaged within one byte, in any number of
    its bits, is refused: if the reception [w] is accepted and [w'] has other bits
    in byte [k] and the same ones elsewhere, [w'] is a checksum error. *)
Theorem dht_damage_detected (w w' : list Z) (k : nat) (r : Z * Z) :
  length (dht_bits w) = 40%nat -> length (dht_bits w') = 40%nat -> (k < 5)%nat ->
  byte_bits k (dht_bits w) <> byte_bits k (dht_bits w') ->
  (forall j, (j < 5)%nat -> j <> k -> byte_bits j (dht_bits w) = byte_bits j (dht_bits w')) ->
  dht_decode w = inr r ->
  dht_decode w' = inl (str "DHT11 checksum raw=" ++ dht_raw (dht_bytes (dht_bits w'))).
Proof.
  intros L L' Hk Hd Hs E. pose proof (decode_checksum w L) as C. rewrite E in C.
  pose proof (checksum_detects _ _ k (dht_bits_ok w) (dht_bits_ok w') L L' Hk Hd Hs C) as N.
  unfold dht_decode, dht_bytes. unfold checksum_ok in N. cbv zeta in *. cbn [map seq nth].
  match goal with |- context [negb (?a =? ?b)] => destruct (Z.eqb_spec a b) as [X|X] end; [|done]. by destruct N.
Qed.

(** A short low and a long high phase is a one. *)
Definition phases (bits : list Z) : list Z := bits ≫= fun b => [54; if b =? 1 then 70 else 24].
Definition good_frame : list Z :=
  [0;0;1;0;1;1;0;1; 0;0;0;0;0;0;0;0; 0;0;0;1;0;1;1;0; 0;0;0;0;0;1;0;1; 0;1;0;0;1;0;0;0].
Definition damaged_frame : list Z :=
  [0;0;1;0;1;1;0;1; 0;0;0;0;0;0;0;0; 1;0;0;1;0;0;1;0; 0;0;0;0;0;1;0;1; 0;1;0;0;1;0;0;0].

Lemma dht_damage_detected_witness :
  dht_decode (phases good_frame) = inr (225, 450) /\ exists e, dht_decode (phases damaged_frame) = inl e.
Proof.
  split; [vm_compute; reflexivity|]. eexists.
  apply (dht_damage_detected (phases good_frame) (phases damaged_frame) 2 (225, 450)); try (vm_compute; reflexivity).
  - apply Nat.ltb_lt. reflexivity.
  - intros X. vm_compute in X. discriminate X.
  - intros j Hj Hn. do 5 (destruct j as [|j]; [try (vm_compute; reflexivity); by destruct Hn|]). lia.
Defined.

(** ** The mean of the converter's samples *)

Lemma adc_mean_between total n lo hi : 0 < n -> 0 <= lo -> n * lo <= total <= n * hi -> lo <= adc_mean total n <= hi.
Proof.
  intros Hn Hlo [H1 H2]. assert (0 <= total) by nia. assert (0 <= hi) by nia. unfold adc_mean.
  rewrite !Z.quot_div_nonneg; [|lia|lia|Z.to_euclidean_division_equations; lia|lia].
  assert (0 <= n / 2 < n) by (Z.to_euclidean_division_equations; lia). split; [apply Z.div_le_lower_bound|apply Z.lt_succ_r, Z.div_lt_upper_bound]; nia.
Qed.

Section adc.
Context {S : Type} `{HasPins S} `{!HasIr S}.

(** The converter has twelve bits. *)
Definition twelve_bits : Prop := forall h c (s : S) v, (adc_oneshot_read h c s).1 = inr v -> 0 <= v <= 4095.

Lemma adc_samples_between k : forall h c n total lo hi (s : S) total' lo' hi',
  twelve_bits -> 0 <= n -> (0 < n -> 0 <= lo /\ n * lo <= total <= n * hi) -> (n = 0 -> total = 0 /\ lo = 4095 /\ hi = 0) ->
  0 < n + Z.of_nat k -> (adc_samples k h c (total, lo, hi) s).1 = inr (total', lo', hi') ->
  0 <= lo' /\ (n + Z.of_nat k) * lo' <= total' <= (n + Z.of_nat k) * hi'.
Proof.
  induction k as [|k IH]; intros h c n total lo hi s total' lo' hi' B Hn Hpos Hz Hk; cbn [adc_samples].
  { cbn. intros [= <- <- <-]. rewrite Z.add_0_r in *. apply Hpos. lia. }
  rewrite st_bind_run. destruct (adc_oneshot_read h c s) as [[e|v] s1] eqn:E; cbn [fst snd]; [done|].
  pose proof (B h c s v ltac:(by rewrite E)) as Bv. rewrite st_bind_run.
  set (s2 := (_ s1).2). clearbody s2. intros R. apply (IH h c (n + 1)) in R; [|done|lia| |lia|lia].
  - replace (n + Z.of_nat (Datatypes.S k)) with (n + 1 + Z.of_nat k) by lia. exact R.
  - intros _. destruct (decide (n = 0)) as [->|Hn0].
    + destruct (Hz eq_refl) as (-> & -> & ->). destruct (Z.ltb_spec v 4095), (Z.ltb_spec 0 v); lia.
    + destruct (Hpos ltac:(lia)) as [P1 P2]. destruct (Z.ltb_spec v lo), (Z.ltb_spec hi v); split; nia.
Qed.
End adc.

(** ** Waits end *)

(** No call takes a second longer than it was asked to. *)
Definition LAG : Z := 1000000.

(** A clock in microseconds that [micros] shows modulo 2^32 and advances. *)
Class Ticking (S : Type) `{HasPins S} `{!HasIr S} := {
  clock : S -> Z;
  micros_reads (s : S) : (micros s).1 = u32 (clock (micros s).2);
  micros_ticks (s : S) : clock s < clock (micros s).2 <= clock s + LAG;
  read_ticks p (s : S) : clock s <= clock (digitalRead p s).2 <= clock s + LAG;
  pause_ticks n (s : S) : clock s <= clock (delayMicroseconds n s).2 <= clock s + Z.max 0 n + LAG;
  delay_ticks n (s : S) : clock s <= clock (delay n s).2 <= clock s + 1000 * Z.max 0 n + LAG }.

Section waits.
Context {S : Type} `{HasClock S} `{!HasPins S} `{!HasIr S} `{!HasSensors S} `{!Ticking S}.
Implicit Types s : S.

Lemma u32_sub a b : u32 (u32 a - u32 b) = u32 (a - b).
Proof. unfold u32. by rewrite Zminus_mod_idemp_l, Zminus_mod_idemp_r. Qed.

Lemma i32_u32 v : i32 (u32 v) = i32 v.
Proof. unfold i32, u32, to_signed. by rewrite Zplus_mod_idemp_l. Qed.

Lemma dht_wait_ends pin level start turns : forall s,
  start <= clock s < start + DHT_TIMEOUT_US -> start + DHT_TIMEOUT_US - clock s < Z.of_nat turns ->
  (dht_wait turns pin level (u32 start) s).1 <> None.
Proof.
  induction turns as [|k IH]; intros s Hs Ht; [unfold DHT_TIMEOUT_US in *; lia|]. cbn [dht_wait]. run_st.
  pose proof (read_ticks pin s) as R. destruct (digitalRead pin s) as [l s1]. cbn [fst snd] in *.
  pose proof (micros_reads s1) as Mr. pose proof (micros_ticks s1) as Mt. destruct (micros s1) as [now s2]. cbn [fst snd] in *. subst now.
  rewrite u32_sub. destruct (l =? level); [|done].
  assert (E : u32 (clock s2 - start) = clock s2 - start) by (unfold u32, DHT_TIMEOUT_US, LAG in *; rewrite Z.mod_small; lia).
  rewrite E. destruct (Z.leb_spec DHT_TIMEOUT_US (clock s2 - start)); [done|]. apply IH; lia.
Qed.

(** Every run of [m] has a result. *)
Definition ends {A} (m : st S (option A)) : Prop := forall s, (m s).1 <> None.

Lemma ends_bind {A B} (m : st S A) (f : A -> st S (option B)) : (forall a, ends (f a)) -> ends (m ≫= f).
Proof. intros Hf s. rewrite st_bind_run. apply Hf. Qed.
Lemma ends_bind_some {A B} (m : st S (option A)) (f : option A -> st S (option B)) :
  ends m -> (forall a, ends (f (Some a))) -> ends (m ≫= f).
Proof. intros Hm Hf s. rewrite st_bind_run. specialize (Hm s). destruct (m s) as [[a|] s']; [apply Hf|done]. Qed.
Lemma ends_ret {A} (a : A) : ends (mret (Some a)).
Proof. by intros s. Qed.

Ltac ends_auto := repeat first [ apply ends_ret | solve [auto] | apply ends_bind_some; [solve [auto]|intros ?] | apply ends_bind; intros ?
  | match goal with |- ends (match ?x with _ => _ end) => destruct x end ].

Lemma dht_pulse_ends pin level turns : DHT_TIMEOUT_US < Z.of_nat turns -> ends (dht_pulse turns pin level).
Proof.
  intros Ht s. unfold dht_pulse. run_st. rewrite micros_reads. apply dht_wait_ends; unfold DHT_TIMEOUT_US in *; lia.
Qed.

Lemma dht_widths_ends pin turns levels : DHT_TIMEOUT_US < Z.of_nat turns -> forall phase, ends (dht_widths turns pin levels phase).
Proof.
  intros Ht. pose proof (fun l => dht_pulse_ends pin l turns Ht) as P.
  induction levels as [|level levels IH]; intros phase; cbn [dht_widths]; [apply ends_ret|]. apply ends_bind_some; [done|]. intros w.
  destruct (w <? 0); [apply ends_ret|]. apply ends_bind_some; [done|]. intros [e|l]; apply ends_ret.
Qed.

Lemma dht_sample_ends turns : DHT_TIMEOUT_US < Z.of_nat turns -> ends (dht_sample turns).
Proof.
  intros Ht. pose proof (fun p l => dht_widths_ends p turns l Ht) as P. unfold dht_sample. ends_auto.
Qed.

Lemma carrier_ends c deadline dur turns : forall low n s,
  0 <= sampleIntervalUs c <= LAG -> 0 <= dur < 2 ^ 30 -> - (10 * LAG) <= deadline - clock s <= dur -> deadline - clock s < Z.of_nat turns -> 0 < Z.of_nat turns ->
  (carrier_loop turns c (u32 deadline) dur low n s).1 <> None.
Proof.
  induction turns as [|k IH]; intros low n s Hc Hd Hr Ht Hk; [lia|]. cbn [carrier_loop]. rewrite st_bind_run.
  pose proof (micros_reads s) as Mr. pose proof (micros_ticks s) as Mt. destruct (micros s) as [now s1]. cbn [fst snd] in *. subst now.
  rewrite u32_sub. assert (E : i32 (u32 (clock s1 - deadline)) = clock s1 - deadline).
  { rewrite i32_u32. apply i32_id. unfold int32, INT_MIN, INT_MAX, LAG in *. lia. }
  rewrite E. destruct (Z.ltb_spec (clock s1 - deadline) 0); cbn [negb]; [|done]. rewrite !st_bind_run.
  pose proof (read_ticks (rxPin c) s1) as R. destruct (digitalRead (rxPin c) s1) as [l s2]. cbn [fst snd] in *.
  pose proof (pause_ticks (sampleIntervalUs c) s2) as P. destruct (delayMicroseconds _ s2) as [[] s3]. cbn [fst snd] in *.
  assert (X : clock s3 <= clock (((if (100000 <=? dur) && (u32 (n + 1) mod 32 =? 0) then delay 1 else mret tt) : st S unit) s3).2 <= clock s3 + 1000 + LAG).
  { destruct (_ && _); [pose proof (delay_ticks 1 s3); lia|cbn; unfold LAG; lia]. }
  destruct (_ s3) as [[] s4]. cbn [fst snd] in *. apply IH; unfold LAG in *; lia.
Qed.

Lemma sendCarrier_ends c frequency dur turns :
  0 <= sampleIntervalUs c <= LAG -> 0 <= dur < 2 ^ 30 -> dur < Z.of_nat turns -> ends (sendCarrier turns c frequency dur).
Proof.
  intros Hc Hd Ht. unfold sendCarrier. apply ends_bind. intros []; cbn [negb]; [|apply ends_ret]. apply ends_bind. intros _.
  intros s. rewrite st_bind_run. pose proof (micros_reads s) as Mr. destruct (micros s) as [now s1]. cbn [fst snd] in *. subst now.
  rewrite st_bind_run. replace (u32 (u32 (clock s1) + dur)) with (u32 (clock s1 + dur)) by (unfold u32; by rewrite Zplus_mod_idemp_l).
  assert (K : (carrier_loop turns c (u32 (clock s1 + dur)) dur 0 0 s1).1 <> None) by (apply carrier_ends; unfold LAG in *; lia).
  destruct (carrier_loop _ _ _ _ _ _ s1) as [[low|] s2]; cbn [fst snd] in *; [|done]. by run_st.
Qed.

Lemma bursts_end c turns k : 0 <= sampleIntervalUs c <= LAG -> 0 <= loopbackBurstUs c < 2 ^ 30 -> loopbackBurstUs c < Z.of_nat turns ->
  forall low idle, ends (bursts_loop turns k c low idle).
Proof.
  intros Hc Hd Ht. pose proof (sendCarrier_ends c (defaultFrequency c) (loopbackBurstUs c) turns Hc Hd Ht) as P.
  induction k as [|k IH]; intros low idle; cbn [bursts_loop]; [apply ends_ret|]. ends_auto.
Qed.

(** the sensor calls that busy-wait for the clock return: when the clock
    advances with every reading, a DHT11 reading ends within its 150 microsecond
    time-outs and a carrier burst within its duration, whatever the pins do. *)
Theorem sensor_waits_end (turns : nat) (c : ir_service_config) (args : list Z) s :
  10000000 < Z.of_nat turns -> 0 <= sampleIntervalUs c <= LAG -> 0 <= loopbackBurstUs c <= 10000000 ->
  (dht_read turns args s).1 <> None /\ (ir_send turns c args s).1 <> None /\ (ir_loopback turns c args s).1 <> None.
Proof.
  intros Ht Hc Hb. pose proof (dht_sample_ends turns ltac:(unfold DHT_TIMEOUT_US; lia)) as D.
  pose proof (fun k => bursts_end c turns k Hc ltac:(lia) ltac:(lia)) as B. split_and!; revert s.
  - unfold dht_read. change (ends (dht_read turns args)). unfold dht_read. destruct (_ || _); [apply ends_ret|].
    apply ends_bind_some; [done|]. intros [r [t h]]. apply ends_ret.
  - change (ends (ir_send turns c args)). unfold ir_send. apply ends_bind. intros [e|]; [apply ends_ret|].
    destruct (3 <? _)%nat; [apply ends_ret|]. destruct ((nth 2 args 1 <? 0) || _); [apply ends_ret|].
    destruct (_ || _ || _ || _) eqn:R; [apply ends_ret|]. rewrite !orb_false_iff in R. destruct R as (((R1 & R2) & _) & _).
    apply Z.ltb_ge in R1, R2. destruct (_ =? 0); [apply ends_ret|]. apply ends_bind. intros _.
    apply ends_bind_some; [apply sendCarrier_ends; [done|lia|lia]|]. intros [low|]; [|apply ends_ret]. destruct (_ =? _); apply ends_ret.
  - change (ends (ir_loopback turns c args)). unfold ir_loopback. apply ends_bind. intros [e|]; [apply ends_ret|].
    destruct (1 <? _)%nat; [apply ends_ret|]. destruct (_ || _); [apply ends_ret|]. apply ends_bind. intros _.
    apply ends_bind_some; [done|]. intros [[low idle]|]; apply ends_ret.
Qed.
End waits.

(** ** A device for the example *)

(** Every reading of a clock takes a microsecond; the line stays high. *)
Record ticker := Ticker { tick_vm : NoobVm; tick_clock : Z; tick_ir : capture; tick_sensors : sensors }.

#[global, refine] Instance ticker_HasVm : HasVm ticker :=
  {| vm_of := tick_vm; put_vm v s := Ticker v (tick_clock s) (tick_ir s) (tick_sensors s) |}.
Proof. all: intros; try destruct s; done. Defined.

Definition wait_for (n : Z) (s : ticker) : ticker := Ticker (tick_vm s) (tick_clock s + n) (tick_ir s) (tick_sensors s).

#[global, refine] Instance ticker_HasClock : HasClock ticker :=
  {| millis := fun s => (u32 (tick_clock s / 1000), s) |}.
Proof. all: intros; cbn; try done. apply Z.mod_pos_bound. lia. Defined.

#[global] Instance ticker_HasIr : HasIr ticker :=
  {| ir_of := tick_ir; put_ir c s := Ticker (tick_vm s) (tick_clock s) c (tick_sensors s);
     micros := fun s => (u32 (tick_clock s + 1), wait_for 1 s); receiver := mret 1; delay n := fun s => (tt, wait_for (1000 * Z.max 0 n) s);
     allocate := mret true; rmtInit := mret true; rmtSetCarrier := mret true; rmtWrite _ := mret true; rmtDeinit := mret tt |}.

#[global] Instance ticker_HasPins : HasPins ticker :=
  {| pinMode _ _ := mret tt; digitalWrite _ _ := mret tt; digitalRead _ := mret 1; delayMicroseconds n := fun s => (tt, wait_for (Z.max 0 n) s);
     pulseIn _ _ _ := mret 0; rgbLedWrite _ _ _ _ := mret tt; ledcAttach _ _ _ := mret true; ledcWrite _ _ := mret tt; ledcDetach _ := mret tt;
     valid_output _ := true; valid_gpio _ := true; adc_oneshot_io_to_channel _ := inl 1; adc_oneshot_new_unit _ := mret (inl 1);
     adc_oneshot_config_channel _ _ := mret 0; gpio_set_floating _ := mret 0; adc_oneshot_read _ _ := mret (inl 1); esp_err_to_name _ := [] |}.

#[global] Instance ticker_HasSensors : HasSensors ticker :=
  {| sensors_of := tick_sensors; put_sensors q s := Ticker (tick_vm s) (tick_clock s) (tick_ir s) q |}.

#[global, refine] Instance ticker_Ticking : Ticking ticker := {| clock := tick_clock |}.
Proof. all: intros; cbn; unfold LAG; try done; lia. Defined.

Definition board_ir : ir_service_config := IrService 40 18 38000 25 1000 2 8 128 1000000 15000 2.

Lemma sensor_waits_end_witness :
  (dht_read (Z.to_nat 10000001) [] (Ticker vm_init 3000000 capture_init (set_dht 15 0 false sensors_init))).1 <> None.
Proof.
  apply (sensor_waits_end (Z.to_nat 10000001) board_ir [] (Ticker vm_init 3000000 capture_init (set_dht 15 0 false sensors_init))).
  - rewrite Z2Nat.id; [reflexivity|]. intros X. discriminate X.
  - split; intros X; vm_compute in X; discriminate X.
  - split; intros X; vm_compute in X; discriminate X.
Defined.
End EspSensorsFacts.
