(* ===== verification/IrisNeoBridge.v ===== *)
(** * iris_noob/src/noobs/iris/hw_neo_bridge.cpp: Neo's functions on Iris

    Iris calls the Neo daemon over the private USB link, one connection per
    request.  The socket calls are an interface ([NeoLink]): the kernel decides
    which of them fail and how many bytes each transfer moves.  The request and
    reply texts, the display service that retries until Neo answers, and the
    download of a VM file into the program store are modelled whole. *)
From S2P Require Import Prelude CLib EspRecord EspRegistry EspVm EspDispatch EspCard EspSd EspStore.

Open Scope Z_scope.

Module IrisNeoBridge.
Import EspRegistry EspVm EspDispatch EspCard EspSd EspStore.

(** ** The link *)

(** The fallible calls of [neoRequest] but [connect], [send] and [recv]. *)
Inductive link_step := CreateSocket | GetFlags | SetNonblocking | WaitWritable | SocketError | RestoreFlags.

Inductive connect_result := Connected | InProgress | Refused.

Class NeoLink (L : Type) := {
  link_call : link_step -> st L bool;          (** [true]: the call succeeded *)
  link_connect : st L connect_result;
  link_send : bytes -> st L (option nat);      (** [None]: the result is not positive *)
  link_recv : nat -> st L (option bytes);
  link_close : st L unit }.

Definition REQUEST_ID : Z := 1.
Definition REPLY_CAPACITY : nat := Z.to_nat 512.

(** ** Replies *)

(** The answer in a complete reply. *)
Definition parse_reply (reply : bytes) : NativeResult :=
  let malformed := failure (str "Neo bridge: malformed reply") in
  let reply := cstr reply in
  if negb (starts_with (str "NRP/1 1 ") reply)
  then failure (str "Neo bridge: unexpected reply ID or version")
  else
  match strchr reply SP with
  | None => malformed
  | Some r =>
      match strchr (drop 1 r) SP with
      | None => malformed
      | Some r =>
          let payload := cut_at is_crlf (drop 1 r) in
          let third := peek (drop 2 payload) in
          if starts_with (str "OK") payload && ((third =? NUL) || (third =? SP)) then
            let detail := if third =? SP then drop 3 payload else [] in
            let value := match strstr payload (str "value=") with
                         | None => 0
                         | Some field => to_signed 32 (value_or_0 (strtol (drop 6 field)))
                         end in
            result true value detail
          else if starts_with (str "ERR ") payload then failure (str "Neo: " ++ drop 4 payload)
          else failure (str "Neo bridge: malformed reply status")
      end
  end.

Section request.
Context {L : Type} `{NeoLink L}.

(** [None] when the connection is open; otherwise the error. *)
Definition neo_connect : st L (option bytes) :=
  made ← link_call CreateSocket;
  if negb made then mret (Some (str "Neo bridge: socket failed"))
  else
  flags ← link_call GetFlags;
  nonblocking ← (if flags : bool then link_call SetNonblocking else mret false);
  if negb nonblocking then link_close ;; mret (Some (str "Neo bridge: nonblocking socket failed"))
  else
  c ← link_connect;
  connected ← (match c with
               | Connected => mret true
               | Refused => mret false
               | InProgress => writable ← link_call WaitWritable;
                               if writable : bool then link_call SocketError else mret false
               end);
  restored ← (if connected : bool then link_call RestoreFlags else mret false);
  if negb restored then link_close ;; mret (Some (str "Neo bridge: Neo command service unavailable"))
  else mret None.

(** Every [send] moves at least one byte: the length is enough fuel. *)
Fixpoint send_request (fuel : nat) (d : bytes) : st L bool :=
  match d, fuel with
  | [], _ => mret true
  | _, O => mret false
  | _, Datatypes.S f => z ← link_send d;
                        match z with
                        | None => mret false
                        | Some k => send_request f (drop k d)
                        end
  end.

(** Every [recv] gets at least one byte: the capacity is enough fuel. *)
Fixpoint receive_reply (fuel : nat) (used : bytes) : st L bytes :=
  match fuel with
  | O => mret used
  | Datatypes.S f =>
      if (length used + 1 <? REPLY_CAPACITY)%nat then
        r ← link_recv (REPLY_CAPACITY - length used - 1);
        match r with
        | None => mret used
        | Some b => if existsb (Z.eqb NL) (used ++ b) then mret (used ++ b) else receive_reply f (used ++ b)
        end
      else mret used
  end.

Definition request_line (command : bytes) : bytes :=
  str "NRP/1 " ++ print_nat REQUEST_ID ++ SP :: cstr command ++ [NL].

Definition neoRequest (command : bytes) : st L NativeResult :=
  error ← neo_connect;
  match error with
  | Some e => mret (failure e)
  | None =>
      let line := request_line command in
      sentAll ← (if (length line <? Z.to_nat 512)%nat then send_request (length line) line else mret false);
      if negb sentAll then link_close ;; mret (failure (str "Neo bridge: request send failed"))
      else
      reply ← receive_reply REPLY_CAPACITY [];
      link_close ;;
      if negb (existsb (Z.eqb NL) reply) then mret (failure (str "Neo bridge: missing complete reply"))
      else mret (parse_reply reply)
  end.
End request.

(** ** Texts *)

Definition noArguments (count : nat) : option NativeResult :=
  if (count =? 0)%nat then None else Some (failure (str "usage: no arguments")).

Definition hexText (text : bytes) : bytes := text ≫= hex_byte.

(** [String::replace]; the occurrences the callers look for do not overlap. *)
Fixpoint replace_all (fuel : nat) (find repl s : bytes) : bytes :=
  match fuel, s with
  | Datatypes.S f, c :: s' =>
      if starts_with find s then repl ++ replace_all f find repl (drop (length find) s)
      else c :: replace_all f find repl s'
  | _, _ => s
  end.
Definition replace (find repl s : bytes) : bytes := replace_all (length s) find repl s.

Definition BACKSLASH : byte := 92.

Definition nativeTextCall (name text : bytes) : bytes :=
  let escaped := replace [BACKSLASH] [BACKSLASH; BACKSLASH] text in
  let escaped := replace [DQ] [BACKSLASH; DQ] escaped in
  str "CALL_MIXED " ++ name ++ SP :: DQ :: escaped ++ [DQ].

(** A call without arguments. *)
Definition plainCall (name : bytes) : bytes := str "CALL_MIXED " ++ name ++ SP :: DQ :: [DQ].

(** The value after a key, up to a blank. *)
Definition field (detail key : bytes) : bytes :=
  match strstr detail key with
  | None => []
  | Some r => (span (Z.eqb SP) (drop (length key) r)).1
  end.

Definition nibble (c : byte) : Z :=
  if isdigit c then c - 48
  else if (97 <=? c) && (c <=? 102) then c - 97 + 10
  else if (65 <=? c) && (c <=? 70) then c - 65 + 10
  else -1.

(** ** VM files *)

(** Writing decoded bytes behind the [bytes] already there; [Overflow] is a write
    past the end of the buffer. *)
Inductive stored := Overflow | BadHex | Stored (b : bytes).

Fixpoint store_pairs (data b : bytes) : stored :=
  match data with
  | [] => Stored b
  | h :: data' =>
      match data' with
      | [] => BadHex
      | l :: data' =>
          if (nibble h <? 0) || (nibble l <? 0) then BadHex
          else if PROGRAM_BYTES <=? Z.of_nat (length b) then Overflow
          else store_pairs data' (b ++ [(nibble h * 16 + nibble l) mod 256])
      end
  end.

(** The checks on a chunk at [offset]; the result is the file's size. *)
Definition chunk_size (detail : bytes) (offset expected : Z) : option Z :=
  let size := toInt (field detail (str "size=")) in
  let digits := Z.of_nat (length (field detail (str "data="))) in
  if (size <=? 0) || (PROGRAM_BYTES <? size) || (negb (expected =? 0) && negb (expected =? size))
     || negb (digits mod 2 =? 0) || (256 <? digits) || (size <? offset + digits / 2)
  then None else Some size.

Definition ends_with (p s : bytes) : bool :=
  (length p <=? length s)%nat && bytes_eqb (drop (length s - length p) s) p.

(** ** The display service *)

Definition IRIS_NEO_DISPLAY_RETRY_MS : Z := 10000.

Record neo_display := NeoDisplay {
  displayAttached : bool;      (** [displayVm] is set *)
  displayWanted : bool; displayVmOwned : bool; displayStopPending : bool;
  displayImage : bytes; displayInterval : Z; displayNextAttempt : Z }.

Definition display_init : neo_display := NeoDisplay false false false false [] 5000 0.

Definition set_attempt (t : Z) (d : neo_display) : neo_display :=
  NeoDisplay (displayAttached d) (displayWanted d) (displayVmOwned d) (displayStopPending d)
             (displayImage d) (displayInterval d) t.
(** A stop: nothing is wanted, and Neo is to be told at once. *)
Definition set_stop (d : neo_display) : neo_display :=
  NeoDisplay (displayAttached d) false false true (displayImage d) (displayInterval d) 0.
Definition set_start (name : bytes) (interval : Z) (owned : bool) (d : neo_display) : neo_display :=
  NeoDisplay (displayAttached d) true owned false name interval 0.
Definition set_stopped (d : neo_display) : neo_display :=
  NeoDisplay (displayAttached d) (displayWanted d) (displayVmOwned d) false
             (displayImage d) (displayInterval d) (displayNextAttempt d).
Definition attach (d : neo_display) : neo_display :=
  NeoDisplay true (displayWanted d) (displayVmOwned d) (displayStopPending d)
             (displayImage d) (displayInterval d) (displayNextAttempt d).

(** What the service sends. *)
Definition display_command (d : neo_display) : bytes :=
  if displayWanted d
  then replace (str "DISPLAY_START ") (str "DISPLAY_START " ++ print_nat (displayInterval d) ++ str " ")
         (nativeTextCall (str "DISPLAY_START") (displayImage d))
  else plainCall (str "DISPLAY_STOP").

(** A device with a link to Neo. *)
Class HasNeo (S L : Type) `{HasVm S} := {
  link_of : S -> L;
  put_link : L -> S -> S;
  display_of : S -> neo_display;
  put_display : neo_display -> S -> S;
  link_of_put l s : link_of (put_link l s) = l;
  display_of_put d s : display_of (put_display d s) = d;
  link_put_display d s : link_of (put_display d s) = link_of s;
  display_put_link l s : display_of (put_link l s) = display_of s;
  vm_put_link l s : vm_of (put_link l s) = vm_of s;
  vm_put_display d s : vm_of (put_display d s) = vm_of s }.

Section device.
Context {S L : Type} `{HasClock S} `{!HasNeo S L} `{NeoLink L}.

Definition on_link {A} (m : st L A) : st S A := fun s =>
  let '(a, l) := m (link_of s) in (a, put_link l s).
Definition call_neo (command : bytes) : st S NativeResult := on_link (neoRequest command).
Definition upd_display (f : neo_display -> neo_display) : st S unit :=
  modify (fun s => put_display (f (display_of s)) s).

(** The machine that asked for the display has stopped. *)
Definition owner_gone (d : neo_display) (v : NoobVm) : bool :=
  displayVmOwned d && displayAttached d && negb (EspVm.busy v).

Definition display_tick : st S (option bytes) :=
  v ← get_vm (fun v => v);
  d ← gets display_of;
  (if owner_gone d v then upd_display set_stop else mret tt) ;;
  d ← gets display_of;
  due ← (if negb (displayWanted d) && negb (displayStopPending d) then mret false
         else now ← millis; mret (negb (i32 (u32 (now - displayNextAttempt d)) <? 0)));
  if negb due then mret None
  else
  now ← millis;
  upd_display (set_attempt (u32 (now + IRIS_NEO_DISPLAY_RETRY_MS))) ;;
  r ← call_neo (display_command d);
  (if ok r && displayStopPending d then upd_display set_stopped else mret tt) ;;
  mret (if ok r then None else Some (str "NRP/1 0 EVENT NEO_DISPLAY_PENDING detail=" ++ detail r)).

(** [displayService(vm)]. *)
Definition displayService : st S unit := upd_display attach.

(** ** The native functions *)

Definition usage (text : bytes) : st S NativeResult := mret (failure (str "usage: " ++ text)).

Definition ledSet (args : list Z) : st S NativeResult :=
  match args with
  | [pin; v] => if (v =? 0) || (v =? 1)
                then call_neo (str "CALL LED_SET " ++ print_int pin ++ str " " ++ print_int v)
                else usage (str "physical_pin 0|1")
  | _ => usage (str "physical_pin 0|1")
  end.

Definition ledStatus (args : list Z) : st S NativeResult :=
  match args with
  | [pin] => call_neo (str "CALL LED_STATUS " ++ print_int pin)
  | _ => usage (str "physical_pin")
  end.

(** A native of one text. *)
Definition text_native (limit : option nat) (usage_text name : bytes) (args : list Z) (text : bytes) : st S NativeResult :=
  if negb (length args =? 0)%nat || (length text =? 0)%nat
     || (match limit with Some n => (n <=? length text)%nat | None => false end)
  then usage usage_text else call_neo (nativeTextCall name text).

Definition imageFormat := text_native None (str "image basename") (str "IMAGE_FORMAT").
Definition oledDraw := text_native None (str "GIF basename") (str "OLED_DRAW").
Definition oledText := text_native None (str "text") (str "OLED_TEXT").
Definition fileDownload :=
  text_native (Some 192%nat) (str "NEO_FILE_DOWNLOAD 0 numeric args, SD path") (str "FILE_DOWNLOAD").
Definition audioPlay :=
  text_native (Some 192%nat) (str "AUDIO_PLAY 0 numeric args, audio basename") (str "AUDIO_PLAY").

Definition basename_char (c : byte) : bool := isalnum c || (c =? 95) || (c =? 45) || (c =? 46).

Definition displayStart (args : list Z) (name : bytes) : st S NativeResult :=
  let bad := usage (str "interval_ms(1000..60000), GIF basename") in
  match args with
  | [interval] =>
      if (interval <? 1000) || (60000 <? interval) || (length name =? 0)%nat || (100 <? length name)%nat then bad
      else if negb (forallb basename_char name) then mret (failure (str "invalid image basename"))
      else if contains (str "..") name then mret (failure (str "invalid image basename"))
      else
      v ← get_vm (fun v => v);
      upd_display (fun d => set_start name interval (displayAttached d && EspVm.busy v) d) ;;
      mret (result true 1 (str "display requested; retry while Neo boots"))
  | _ => bad
  end.

Definition displayStop (args : list Z) : st S NativeResult :=
  match args with
  | [] => upd_display set_stop ;; mret (result true 0 (str "display stop requested"))
  | _ => usage (str "no arguments")
  end.

(** A native without arguments. *)
Definition plain_native (command : bytes) (args : list Z) : st S NativeResult :=
  match noArguments (length args) with Some error => mret error | None => call_neo command end.

Definition displayStatus := plain_native (plainCall (str "DISPLAY_STATUS")).
Definition caps := plain_native (str "CAPS").
Definition irStatus := plain_native (plainCall (str "IR_STATUS")).
Definition irScanStart := plain_native (plainCall (str "IR_SCAN_START")).
Definition irScanStop := plain_native (plainCall (str "IR_SCAN_STOP")).
Definition irScanRead := plain_native (plainCall (str "IR_SCAN_READ")).
Definition fileStatus := plain_native (plainCall (str "FILE_STATUS")).

(** ** VM_DOWNLOAD *)

Definition vm_read_command (offset : Z) (encoded : bytes) : bytes :=
  str "VM_READ " ++ print_nat offset ++ str " " ++ encoded.

Context {C : Type} `{!HasStore S C} `{CardOps C}.

Definition incomplete : NativeResult := failure (str "incomplete VM download").

(** The loop with the bytes received so far; [None] is a write past the buffer,
    or a loop that did not end: a turn that continues has received a byte, so
    one turn more than the buffer has bytes is enough fuel. *)
Fixpoint download_loop (fuel : nat) (filename : bytes) (replace : bool) (b : bytes) (expected : Z)
  : st S (option NativeResult) :=
  match fuel with
  | O => mret None
  | Datatypes.S f =>
      let offset := Z.of_nat (length b) in
      if PROGRAM_BYTES <=? offset then mret (Some incomplete)
      else
      r ← call_neo (vm_read_command offset (hexText filename));
      if negb (ok r) then mret (Some r)
      else
      let data := field (detail r) (str "data=") in
      let eof := field (detail r) (str "eof=") in
      match chunk_size (detail r) offset expected with
      | None => mret (Some (failure (str "Neo bridge: invalid VM chunk")))
      | Some size =>
          match store_pairs data b with
          | Overflow => mret None
          | BadHex => mret (Some (failure (str "invalid VM hex")))
          | Stored b' =>
              if bytes_eqb eof (str "1") then
                if negb (Z.of_nat (length b') =? size) then mret (Some incomplete)
                else r ← storeBytes (take (length filename - 4) filename) b' replace; mret (Some r)
              else if (length data =? 0)%nat || negb (bytes_eqb eof (str "0"))
              then mret (Some (failure (str "invalid VM EOF")))
              else download_loop f filename replace b' size
          end
      end
  end.

Definition DOWNLOAD_TURNS : nat := Z.to_nat 1025.

Definition vmDownload (args : list Z) (filename : bytes) : st S (option NativeResult) :=
  let flag := nth 0 args 0 in
  if (1 <? length args)%nat || (negb (length args =? 0)%nat && negb (flag =? 0) && negb (flag =? 1))
     || (length filename <? 5)%nat || (80 <? length filename)%nat || negb (ends_with (str ".nvm") filename)
  then mret (Some (failure (str "usage: VM_DOWNLOAD [replace=0|1] ASCII basename.nvm")))
  else download_loop DOWNLOAD_TURNS filename (negb (length args =? 0)%nat && (flag =? 1)) [] 0.
End device.
End IrisNeoBridge.
