(* ===== verification/IrisNeoLink.v ===== *)
(** * The link between Iris and Neo

    An instance of the bridge's link interface in which the bytes Iris sends are
    served by the modelled Neo daemon, and the lemmas that an exchange over a
    link without faults is one request and one reply and that the daemon's
    dispatcher gets the request as it was sent. *)
From S2P Require Import Prelude CLib World Network Process NativeRegistry NeoState NeoDaemon NeoReplies NeoReads EspRegistry IrisNeoBridge.

Open Scope Z_scope.

Module IrisNeoLink.
Import EspRegistry IrisNeoBridge.

#[local] Arguments str : simpl never.

(** ** The wire *)

(** The other end: it reads its socket and leaves its answer there. *)
Class Server (P : Type) := { serve : socket -> st P socket }.

(** The kernel's decisions to come (an exhausted list stands for success), what
    has been sent on the open connection, and the answer once it is asked for. *)
Record wire {P : Type} := Wire {
  k_peer : P; k_steps : list bool; k_connects : list connect_result; k_cuts : list Z;
  k_sent : bytes; k_reply : option bytes }.
Arguments wire : clear implicits.

Section wire.
Context {P : Type} `{Server P}.

Definition wire_call (_ : link_step) : st (wire P) bool := fun w =>
  match k_steps w with
  | [] => (true, w)
  | b :: bs => (b, Wire P (k_peer w) bs (k_connects w) (k_cuts w) (k_sent w) (k_reply w))
  end.

Definition wire_connect : st (wire P) connect_result := fun w =>
  match k_connects w with
  | [] => (Connected, w)
  | b :: bs => (b, Wire P (k_peer w) (k_steps w) bs (k_cuts w) (k_sent w) (k_reply w))
  end.

Definition wire_send (d : bytes) : st (wire P) (option nat) := fun w =>
  let '(z, c) := World.send d (Socket [] (k_sent w) (k_cuts w)) in
  (z, Wire P (k_peer w) (k_steps w) (k_connects w) (s_chunks c) (s_out c) (k_reply w)).

(** The peer answers when Iris first waits for it. *)
Definition answered (w : wire P) : wire P :=
  match k_reply w with
  | Some _ => w
  | None => let '(c, p) := serve (Socket (k_sent w) [] (k_cuts w)) (k_peer w) in
            Wire P p (k_steps w) (k_connects w) (s_chunks c) (k_sent w) (Some (s_out c))
  end.

Definition wire_recv (n : nat) : st (wire P) (option bytes) := fun w =>
  let w := answered w in
  let '(r, c) := World.recv n (Socket (default [] (k_reply w)) [] (k_cuts w)) in
  (r, Wire P (k_peer w) (k_steps w) (k_connects w) (s_chunks c) (k_sent w) (Some (s_in c))).

Definition wire_close : st (wire P) unit := modify (fun w =>
  Wire P (k_peer w) (k_steps w) (k_connects w) (k_cuts w) [] None).

#[global] Instance wire_NeoLink : NeoLink (wire P) := {|
  link_call := wire_call; link_connect := wire_connect; link_send := wire_send;
  link_recv := wire_recv; link_close := wire_close |}.

(** ** One exchange *)

(** Between two requests, on a link whose calls all succeed. *)
Definition calm (w : wire P) : Prop :=
  k_steps w = [] /\ k_connects w = [] /\ Forall (fun z => 0 < z) (k_cuts w) /\ k_sent w = [] /\ k_reply w = None.

(** However the transfers are cut up, the peer answers a line with a reply. *)
Definition answers (p : P) (line reply : bytes) (Q : P -> Prop) : Prop :=
  forall zs, Forall (fun z => 0 < z) zs ->
  let '(c, p') := serve (Socket line [] zs) p in
  s_out c = reply /\ Forall (fun z => 0 < z) (s_chunks c) /\ Q p'.

Lemma neo_connect_calm w : calm w -> neo_connect w = (None, w).
Proof.
  intros (H1 & H2 & _). unfold neo_connect. cbn [link_call link_connect wire_NeoLink].
  assert (E : forall s, wire_call s w = (true, w)) by (intros s; unfold wire_call; by rewrite H1).
  assert (E2 : wire_connect w = (Connected, w)) by (unfold wire_connect; by rewrite H2).
  repeat (rewrite st_bind_run; rewrite ?E, ?E2; cbn [fst snd negb mret st_ret]). done.
Qed.

Lemma send_request_calm fuel d p zs sent :
  Forall (fun z => 0 < z) zs -> (length d <= fuel)%nat ->
  exists zs', send_request fuel d (Wire P p [] [] zs sent None) = (true, Wire P p [] [] zs' (sent ++ d) None)
              /\ Forall (fun z => 0 < z) zs'.
Proof.
  revert d zs sent; induction fuel as [|f IH]; intros d zs sent Hz Hf.
  - destruct d; [|cbn in Hf; lia]. exists zs. cbn. by rewrite app_nil_r.
  - destruct d as [|x d]; [exists zs; cbn; by rewrite app_nil_r|].
    cbn [send_request]. rewrite st_bind_run. cbn [link_send wire_NeoLink]. unfold wire_send, World.send. cbn [k_sent k_cuts].
    destruct (next_chunk_willing (length (x :: d)) (Socket [] sent zs) Hz ltac:(cbn; lia)) as (k & zs1 & -> & Hk & Hz1).
    cbn [fst snd s_chunks s_out k_peer k_steps k_connects k_reply].
    destruct (IH (drop k (x :: d)) zs1 (sent ++ take k (x :: d)) Hz1) as (zs2 & -> & Hz2).
    { rewrite length_drop. cbn [length] in *. lia. }
    exists zs2. by rewrite <- app_assoc, take_drop.
Qed.

Lemma wire_recv_calm n text p zs sent :
  Forall (fun z => 0 < z) zs -> (0 < n)%nat -> text <> [] ->
  exists k zs', wire_recv n (Wire P p [] [] zs sent (Some text))
                = (Some (take k text), Wire P p [] [] zs' sent (Some (drop k text)))
                /\ (0 < k <= n)%nat /\ Forall (fun z => 0 < z) zs'.
Proof.
  intros Hz Hn Ht. destruct (next_chunk_willing n (Socket text [] zs) Hz Hn) as (k & zs1 & E & Hk & Hz1).
  exists k, zs1. split; [|done]. unfold wire_recv, World.recv. cbn. rewrite E. by destruct text.
Qed.

(** The peer answers once. *)
Lemma receive_reply_answered f w : receive_reply (Datatypes.S f) [] w = receive_reply (Datatypes.S f) [] (answered w).
Proof.
  assert (E : forall n, wire_recv n (answered w) = wire_recv n w).
  { intros n. unfold wire_recv. replace (answered (answered w)) with (answered w); [done|].
    destruct w as [p ss cs zs sent [r|]]; [done|]. unfold answered at 2 3. cbn.
    by destruct (serve (Socket sent [] zs) p). }
  cbn [receive_reply]. change (length (A := byte) [] + 1 <? REPLY_CAPACITY)%nat with true. cbn iota.
  rewrite !st_bind_run. cbn [link_recv wire_NeoLink]. by rewrite E.
Qed.

(** A reply of one line is received whole, however it is cut up. *)
Lemma receive_reply_calm fuel used rest p zs sent :
  Forall (fun z => 0 < z) zs -> (NL ∉ used) -> (length used + length rest <= 510)%nat -> (length rest < fuel)%nat ->
  NL ∉ rest ->
  exists zs', receive_reply fuel used (Wire P p [] [] zs sent (Some (rest ++ [NL])))
              = (used ++ rest ++ [NL], Wire P p [] [] zs' sent (Some [])) /\ Forall (fun z => 0 < z) zs'.
Proof.
  revert used rest zs; induction fuel as [|f IH]; intros used rest zs Hz Hu Hl Hf Hr; [lia|].
  cbn [receive_reply]. unfold REPLY_CAPACITY. destruct (Nat.ltb_spec (length used + 1) (Z.to_nat 512)); [|lia].
  rewrite st_bind_run. cbn [link_recv wire_NeoLink].
  destruct (wire_recv_calm (Z.to_nat 512 - length used - 1) (rest ++ [NL]) p zs sent Hz) as (k & zs1 & -> & Hk & Hz1);
    [lia|by destruct rest|]. cbn [fst snd].
  assert (Hex : forall l, existsb (Z.eqb NL) l = bool_decide (NL ∈ l)).
  { intros l. apply eq_iff_eq_true. rewrite existsb_exists, bool_decide_eq_true. split.
    - intros (x & Hx & ->%Z.eqb_eq). by apply list_elem_of_In.
    - intros Hin. exists NL. split; [by apply list_elem_of_In|done]. }
  rewrite Hex. destruct (Nat.le_gt_cases k (length rest)) as [Hkr|Hkr].
  - rewrite take_app_le, drop_app_le by done. rewrite bool_decide_eq_false_2.
    + destruct (IH (used ++ take k rest) (drop k rest) zs1 Hz1) as (zs2 & -> & Hz2).
      * rewrite not_elem_of_app. split; [done|]. intros X. apply Hr. rewrite <- (take_drop k rest). apply elem_of_app. by left.
      * rewrite length_app, length_take, length_drop. lia.
      * rewrite length_drop. lia.
      * intros X. apply Hr. rewrite <- (take_drop k rest). apply elem_of_app. by right.
      * exists zs2. rewrite <- app_assoc, (app_assoc (take k rest)), take_drop. done.
    + rewrite not_elem_of_app. split; [done|]. intros X. apply Hr. rewrite <- (take_drop k rest). apply elem_of_app. by left.
  - rewrite take_ge, drop_ge by (rewrite length_app; cbn; lia). rewrite bool_decide_eq_true_2; [|set_solver].
    exists zs1. done.
Qed.

(** One request on a calm link: the answer is the peer's reply, and the link is
    calm again. *)
Lemma neoRequest_calm command body w Q :
  calm w -> (length (request_line command) < Z.to_nat 512)%nat ->
  answers (k_peer w) (request_line command) (body ++ [NL]) Q -> (NL ∉ body) -> (length body <= 510)%nat ->
  exists w', neoRequest command w = (parse_reply (body ++ [NL]), w') /\ calm w' /\ Q (k_peer w').
Proof.
  intros Hc Hl Ha Hb Hn. unfold neoRequest. rewrite st_bind_run, (neo_connect_calm w Hc). cbn [fst snd].
  apply Nat.ltb_lt in Hl. rewrite Hl. destruct w as [p ss cs zs sent reply]. destruct Hc as (H1 & H2 & Hz & H4 & H5).
  cbn in H1, H2, Hz, H4, H5, Ha |- *. subst.
  destruct (send_request_calm (length (request_line command)) (request_line command) p zs [] Hz) as (zs1 & E1 & Hz1); [done|].
  rewrite st_bind_run, E1. cbn [fst snd negb app]. rewrite st_bind_run.
  specialize (Ha zs1 Hz1).
  assert (E2 : exists zs2 p', receive_reply REPLY_CAPACITY [] (Wire P p [] [] zs1 (request_line command) None)
                = (body ++ [NL], Wire P p' [] [] zs2 (request_line command) (Some [])) /\ Forall (fun z => 0 < z) zs2 /\ Q p').
  { destruct (serve (Socket (request_line command) [] zs1) p) as [c p'] eqn:Es. destruct Ha as (Ho & Hz2 & HQ).
    destruct (receive_reply_calm REPLY_CAPACITY [] body p' (s_chunks c) (request_line command) Hz2) as (zs3 & E3 & Hz3);
      [set_solver|cbn; lia|unfold REPLY_CAPACITY; lia|done|].
    exists zs3, p'. split; [|done]. cbn [app] in E3. rewrite <- E3. unfold REPLY_CAPACITY.
    change (Z.to_nat 512) with (Datatypes.S 511). rewrite receive_reply_answered. unfold answered. cbn [k_reply k_sent k_cuts k_peer].
    by rewrite Es, Ho. }
  destruct E2 as (zs2 & p' & -> & Hz2 & HQ). cbn [fst snd]. rewrite st_bind_run. cbn [link_close wire_NeoLink wire_close modify fst snd].
  replace (existsb (Z.eqb NL) (body ++ [NL])) with true by (rewrite existsb_app; cbn; by rewrite orb_true_r). cbn [negb].
  eexists. split; [reflexivity|]. done.
Qed.
End wire.

(** ** The daemon as the other end *)

Import Native Neod NeodReplies NeodReads.

Record daemon := Daemon { d_neo : neo; d_strerror : Z -> bytes }.

#[global] Instance daemon_Server : Server daemon := {|
  serve c := fun d => let n := (serve_turn (d_strerror d) (Some c) (d_neo d)).2 in
                      (n_client n, Daemon n (d_strerror d)) |}.

(** The files, the calls that fail and the settings do not change. *)
Definition steady (w : world) (cfg : settings) (n : neo) : Prop := o_world (n_os n) = w /\ n_settings n = cfg.

Section steady.
Context (w : world) (cfg : settings).

Lemma steady_set_scan f : keeps (steady w cfg) (set_scan f).
Proof. by intros n. Qed.
Lemma steady_set_job f : keeps (steady w cfg) (set_job f).
Proof. by intros n. Qed.
Lemma steady_on_os {A} (m : st os A) : (forall o, o_world (m o).2 = o_world o) -> keeps (steady w cfg) (on_os m).
Proof. intros H n [H1 H2]. unfold on_os. specialize (H (n_os n)). destruct (m (n_os n)). cbn in *. split; cbn; congruence. Qed.
Lemma steady_log e : keeps (steady w cfg) (on_os (log_event e)).
Proof. by apply steady_on_os. Qed.
Lemma steady_wait : keeps (steady w cfg) (on_os waitpid_nohang).
Proof. apply steady_on_os. intros o. unfold waitpid_nohang. by destruct (o_waits o). Qed.
Lemma steady_read n : keeps (steady w cfg) (on_os (read_pipe n)).
Proof. apply steady_on_os. intros o. unfold read_pipe. destruct (o_reads o) as [|[] ?]; done. Qed.
#[local] Hint Resolve steady_set_scan steady_set_job steady_log steady_wait steady_read : noobia.

Lemma steady_drain_reads k : keeps (steady w cfg) (drain_reads k).
Proof. induction k as [|k IH]; [apply keeps_ret|]. cbn [drain_reads]. keeps_auto. Qed.
#[local] Hint Resolve steady_drain_reads : noobia.

Lemma steady_drain_scan : keeps (steady w cfg) drain_scan.
Proof. unfold drain_scan, get_scan_output, get_scan_pid. keeps_auto. Qed.
Lemma steady_reap_file : keeps (steady w cfg) reap_file.
Proof. unfold reap_file. keeps_auto. Qed.
End steady.

(** What [respond] leaves on a socket the kernel does not fail. *)
Lemma respond_willing id status payload n :
  willing (n_client n) -> (length (reply_line id status payload) < REPLY_BYTES)%nat ->
  exists c, (respond id status payload n).2 = Neo (n_scan n) (n_job n) (n_display n) (n_handles n) (n_settings n) (n_os n) c
            /\ s_out c = s_out (n_client n) ++ reply_line id status payload /\ willing c.
Proof.
  intros Hw Hl. unfold respond. apply Nat.ltb_lt in Hl. rewrite Hl. cbn [when]. rewrite st_bind_run. unfold on_client.
  destruct (network_send_bytes_ok (reply_line id status payload) (n_client n) Hw) as (zs & -> & Hz). by eexists.
Qed.

(** ** Requests arrive *)

Definition request_body (command : bytes) : bytes := str "NRP/1 " ++ print_nat REQUEST_ID ++ SP :: command.

Lemma request_line_body command : cstr command = command -> request_line command = request_body command ++ [NL].
Proof. intros E. unfold request_line, request_body. rewrite E, <- !app_assoc. done. Qed.

Lemma skip_space_cons c r : isspace c = true -> skip_space (c :: r) = skip_space r.
Proof. intros H. unfold skip_space. cbn. rewrite H. cbn. by destruct (span _ r). Qed.

Lemma scan_word_prefix w r :
  w <> [] -> Forall (fun c => isspace c = false) w -> (length w <= 47)%nat ->
  (match r with [] => True | c :: _ => isspace c = true end) -> scan_word 47 (w ++ r) = Some (w, r).
Proof.
  intros Hw Hs Hl Hr. unfold scan_word. destruct w as [|c w]; [done|].
  assert (E : skip_space ((c :: w) ++ r) = (c :: w) ++ r) by (apply skip_space_nonspace; by apply Forall_cons in Hs as [? _]).
  rewrite E. clear E. assert (T : forall k, (length (c :: w) <= k)%nat -> take_word k ((c :: w) ++ r) = (c :: w, r)).
  { clear Hw Hl. generalize dependent (c :: w). clear c w. intros w Hs. induction Hs as [|c w Hc Hs IH]; intros k Hk.
    - destruct r as [|c r]; [by destruct k|]. destruct k; [done|]. cbn. by rewrite Hr.
    - destruct k as [|k]; [cbn in Hk; lia|]. cbn. rewrite Hc, IH; [done|cbn in Hk; lia]. }
  by rewrite T.
Qed.

(** The daemon reads the command and the arguments the bridge sent. *)
Lemma scan_request_body cmd args :
  cmd <> [] -> Forall (fun c => isspace c = false) cmd -> (length cmd <= 47)%nat ->
  args <> [] -> isspace (peek args) = false ->
  scan_request (request_body (cmd ++ SP :: args)) = (REQUEST_ID, Some (cmd, args)).
Proof.
  intros Hc Hs Hl Ha Hp. unfold scan_request, request_body.
  change (str "NRP/1 ") with (str "NRP/1" ++ [SP]). rewrite <- app_assoc, scan_lit_app.
  replace (scan_ws ([SP] ++ print_nat REQUEST_ID ++ SP :: cmd ++ SP :: args)) with (print_nat REQUEST_ID ++ SP :: cmd ++ SP :: args) by done.
  unfold scan_u32, strtoul. rewrite scan_number_print by (done || unfold REQUEST_ID; lia).
  change (unsigned_value false REQUEST_ID mod 2 ^ 32) with REQUEST_ID. f_equal.
  assert (E : scan_word 47 (SP :: cmd ++ SP :: args) = scan_word 47 (cmd ++ SP :: args)).
  { unfold scan_word. by rewrite skip_space_cons. }
  rewrite E, scan_word_prefix by done. do 2 f_equal. unfold scan_ws. destruct args as [|a args]; [done|].
  cbn [peek] in Hp. rewrite skip_space_cons by done. by apply skip_space_nonspace.
Qed.

(** A name of the table is found. *)
Lemma native_named se nm : nm ∈ map name (natives se) -> exists e, noob_native_find (natives se) nm = Some e.
Proof.
  induction (natives se) as [|e es IH]; cbn; [by intros ?%elem_of_nil|]. intros [->|Hin]%elem_of_cons.
  - exists e. by rewrite bytes_eqb_refl.
  - destruct (bytes_eqb (name e) nm); [by exists e|]. by apply IH.
Qed.

(** A turn of the daemon's loop with a request of the bridge: the dispatcher runs
    on it, in a state with the same files, before anything is sent. *)
Lemma serve_request d command zs :
  cstr command = command -> Forall (fun c => c <> NL /\ c <> NUL) (request_body command) ->
  (length (request_body command) < Z.to_nat 511)%nat -> Forall (fun z => 0 < z) zs ->
  exists n, steady (o_world (n_os (d_neo d))) (n_settings (d_neo d)) n
            /\ s_out (n_client n) = [] /\ willing (n_client n)
            /\ serve (Socket (request_line command) [] zs) d
               = (n_client (dispatch (d_strerror d) (request_body command) n).2,
                  Daemon (dispatch (d_strerror d) (request_body command) n).2 (d_strerror d)).
Proof.
  intros Hc Hn Hl Hz. destruct d as [n0 se]. cbn [d_neo d_strerror serve daemon_Server].
  set (w := o_world (n_os n0)). set (cfg := n_settings n0). rewrite request_line_body by done.
  unfold serve_turn. rewrite !st_bind_run. cbn [modify fst snd].
  assert (S0 : steady w cfg n0) by done.
  apply (steady_drain_scan w cfg) in S0. set (n1 := (drain_scan n0).2) in *. clearbody n1.
  apply (steady_reap_file w cfg) in S0. set (n2 := (reap_file n1).2) in *. clearbody n2 w cfg.
  unfold handle. rewrite st_bind_run. unfold on_client. cbn [n_scan n_job n_display n_handles n_settings n_os n_client].
  destruct (read_request_line (Z.to_nat 511) [] (request_body command) [] [] zs Hz Hn Hl) as (zs' & E & Hz').
  rewrite E. cbn [fst snd app]. rewrite !st_bind_run. set (n3 := Neo _ _ _ _ _ _ _).
  assert (S3 : steady w cfg n3) by (destruct S0; done).
  assert (C3 : n_client (drain_scan n3).2 = Socket [] [] zs') by (by rewrite quiet_drain_scan).
  exists (drain_scan n3).2. split_and!; [by apply steady_drain_scan|by rewrite C3|by rewrite C3|]. done.
Qed.

End IrisNeoLink.
