(* ===== verification/IrisNeoCalls.v ===== *)
(** * The bridge's calls arrive at Neo's handlers as they were made

    Every command the bridge sends is a CALL or CALL_MIXED of a native function
    of Neo.  Escaping on Iris and parsing on Neo are inverse: the daemon's
    dispatcher calls the handler with the numbers and the text the Iris program
    gave. *)
From S2P Require Import Prelude CLib World Process NativeRegistry NeoState HwDisplay NeoDaemon NeoReplies NeoReads EspRegistry EspSd EspDispatch IrisNeoBridge IrisNeoLink.

Open Scope Z_scope.

Module IrisNeoCalls.
Import EspRegistry IrisNeoBridge IrisNeoLink.
Import Native Neod NeodReplies NeodReads.

#[local] Arguments str : simpl never.

(** ** Escaping *)

Lemma replace_char c r s : replace [c] r s = s ≫= (fun x => if x =? c then r else [x]).
Proof.
  unfold replace. induction s as [|x s IH]; [done|]. cbn [length replace_all mbind list_bind starts_with].
  rewrite andb_true_r, (Z.eqb_sym c x). destruct (x =? c).
  - change (drop 1 (x :: s)) with (drop 0 s). by rewrite drop_0, IH.
  - cbn [app]. by rewrite IH.
Qed.

(** The two replacements escape each character once. *)
Lemma escaped_text s :
  replace [DQ] [BACKSLASH; DQ] (replace [BACKSLASH] [BACKSLASH; BACKSLASH] s) = s ≫= escape_char.
Proof.
  rewrite !replace_char. induction s as [|x s IH]; [done|]. cbn [mbind list_bind]. rewrite bind_app, IH. f_equal.
  unfold escape_char. destruct (Z.eqb_spec x BACKSLASH) as [->|H1]; [done|]. cbn [mbind list_bind].
  destruct (Z.eqb_spec x DQ) as [->|H2]; [done|]. destruct (Z.eqb_spec x Native.BACKSLASH); done.
Qed.

(** A pattern with a character the text lacks does not occur. *)
Lemma replace_absent fuel c find r s : c ∈ find -> c ∉ s -> replace_all fuel find r s = s.
Proof.
  intros Hc. revert fuel; induction s as [|x s IH]; intros fuel Hs; [by destruct fuel|]. destruct fuel as [|f]; [done|].
  cbn [replace_all]. destruct (starts_with find (x :: s)) eqn:E.
  - apply starts_with_spec in E as [t E]. exfalso. apply Hs. rewrite E. apply elem_of_app. by left.
  - rewrite IH; [done|]. intros Hin. apply Hs. by right.
Qed.

(** ** The commands *)

Inductive bridge_call :=
  | Plain (nm : bytes)
  | Text (nm text : bytes)
  | SetLed (pin v : Z)
  | ReadLed (pin : Z)
  | StartDisplay (interval : Z) (image : bytes).

(** What the bridge sends. *)
Definition command_of (c : bridge_call) : bytes :=
  match c with
  | Plain nm => plainCall nm
  | Text nm text => nativeTextCall nm text
  | SetLed pin v => str "CALL LED_SET " ++ print_int pin ++ str " " ++ print_int v
  | ReadLed pin => str "CALL LED_STATUS " ++ print_int pin
  | StartDisplay interval image => display_command (NeoDisplay true true false false image interval 0)
  end.

(** What the Iris program called. *)
Definition name_of (c : bridge_call) : bytes :=
  match c with
  | Plain nm | Text nm _ => nm
  | SetLed _ _ => str "LED_SET" | ReadLed _ => str "LED_STATUS" | StartDisplay _ _ => str "DISPLAY_START"
  end.
Definition arguments_of (c : bridge_call) : NoobNativeArguments :=
  match c with
  | Plain _ => Arguments_ [] []
  | Text _ text => Arguments_ [] text
  | SetLed pin v => Arguments_ [pin; v] []
  | ReadLed pin => Arguments_ [pin] []
  | StartDisplay interval image => Arguments_ [interval] image
  end.

(** The texts and numbers the natives of the bridge let through. *)
Definition call_ok (c : bridge_call) : Prop :=
  word_ok (name_of c) /\ Forall (fun x => isspace x = false) (name_of c) /\ name_of c <> []
  /\ arguments_wf (arguments_of c)
  /\ match c with
     | StartDisplay interval image => 0 <= interval /\ (SP ∉ image)
     | _ => True
     end.

#[global] Instance call_ok_dec c : Decision (call_ok c).
Proof. unfold call_ok. destruct c; apply _. Defined.

(** The argument text of each command, and whether it is a CALL_MIXED. *)
Definition mixed (c : bridge_call) : bool := match c with SetLed _ _ | ReadLed _ => false | _ => true end.
Definition sent_arguments (c : bridge_call) : bytes :=
  match c with
  | SetLed pin v => print_int pin ++ SP :: print_int v
  | ReadLed pin => print_int pin
  | _ => print_arguments true (arguments_of c)
  end.

Lemma escape_no_SP s : SP ∉ s -> SP ∉ s ≫= escape_char.
Proof.
  intros Hs Hin. apply list_elem_of_bind in Hin as (x & Hx & Hin). unfold escape_char in Hx.
  destruct (_ || _); set_unfold; destruct_or?; subst; try done.
Qed.

Lemma command_of_form c : call_ok c ->
  command_of c = str (if mixed c then "CALL_MIXED" else "CALL")%string ++ SP :: name_of c ++ SP :: sent_arguments c.
Proof.
  intros (_ & _ & _ & _ & Hc). destruct c as [nm|nm text|pin v|pin|interval image]; cbn [mixed command_of name_of sent_arguments].
  - done.
  - unfold nativeTextCall. rewrite escaped_text. done.
  - done.
  - done.
  - destruct Hc as [Hi Hs]. unfold display_command, nativeTextCall. cbn [displayWanted displayInterval displayImage].
    rewrite escaped_text. pose proof (escape_no_SP image Hs) as He.
    remember (DQ :: (image ≫= escape_char) ++ [DQ]) as text eqn:Et.
    change (str "CALL_MIXED " ++ str "DISPLAY_START" ++ SP :: text) with (str "CALL_MIXED " ++ str "DISPLAY_START " ++ text).
    assert (Ht : SP ∉ text) by (rewrite Et, not_elem_of_cons, not_elem_of_app, list_elem_of_singleton; done).
    unfold replace. rewrite !length_app. change (length (str "CALL_MIXED ")) with 11%nat. change (length (str "DISPLAY_START ")) with 14%nat.
    unfold print_arguments. cbn [print_numbers numbers ascii arguments_of].
    replace (print_int interval) with (print_nat interval) by (unfold print_int; destruct (Z.ltb_spec interval 0); [lia|done]).
    transitivity (str "CALL_MIXED " ++ (str "DISPLAY_START " ++ print_nat interval ++ str " ")
                    ++ replace_all (13 + length text) (str "DISPLAY_START ") (str "DISPLAY_START " ++ print_nat interval ++ str " ") text).
    + generalize (str "DISPLAY_START " ++ print_nat interval ++ str " "). intros r. done.
    + rewrite (replace_absent _ SP); [|apply (bool_decide_unpack _); vm_compute; exact I|done].
      rewrite Et. change (str "CALL_MIXED ") with (str "CALL_MIXED" ++ [SP]). change (str "DISPLAY_START ") with (str "DISPLAY_START" ++ [SP]).
      change (str " ") with [SP]. cbn [app]. rewrite <- !app_assoc. cbn [app]. done.
Qed.

(** ** Parsing *)

Lemma parse_number_end n : INT32_MIN <= n <= INT32_MAX -> parse_number (print_int n) = Some (n, []).
Proof.
  unfold INT32_MIN, INT32_MAX. intros Hn. unfold parse_number, strtol, strtol_erange.
  rewrite <- (app_nil_r (print_int n)), scan_number_print_int by done.
  assert (Hv : (if n <? 0 then - Z.abs n else Z.abs n) = n) by (destruct (Z.ltb_spec n 0); lia).
  rewrite Hv. unfold clamp, LONG_MIN, LONG_MAX. rewrite Z.min_r, Z.max_r by lia. unfold INT32_MIN, INT32_MAX.
  repeat match goal with |- context [?a <? ?b] => destruct (Z.ltb_spec a b); [lia|] end. done.
Qed.

(** Numbers with a blank between two of them, none after the last. *)
Lemma parse_numbers_joined ns n fuel acc :
  Forall (fun n => INT32_MIN <= n <= INT32_MAX) (ns ++ [n]) -> (length acc + length ns < 8)%nat -> (length ns < fuel)%nat ->
  parse_numbers fuel (skip_blanks (print_numbers ns ++ print_int n)) acc = Some (acc ++ ns ++ [n], []).
Proof.
  revert fuel acc; induction ns as [|m ns IH]; intros fuel acc Hns Hl Hf; (destruct fuel as [|f]; [lia|]).
  - apply Forall_cons in Hns as [Hn _]. cbn [print_numbers app].
    destruct (print_int_head n []) as (c & t & E & H1 & H2 & _). rewrite app_nil_r in E.
    pose proof (parse_number_end n Hn) as Hp. rewrite E in *. rewrite skip_blanks_nonblank by done. cbn [parse_numbers].
    destruct (Z.eqb_spec c DQ); [done|]. destruct (Nat.eqb_spec (length acc) 8); [cbn in Hl; lia|]. rewrite Hp. by destruct f.
  - apply Forall_cons in Hns as [Hm Hns]. cbn [print_numbers]. rewrite <- app_assoc. cbn [app].
    destruct (print_int_head m (SP :: print_numbers ns ++ print_int n)) as (c & t & E & H1 & H2 & _).
    pose proof (parse_number_print m (print_numbers ns ++ print_int n) Hm) as Hp. rewrite E in *.
    rewrite skip_blanks_nonblank by done. cbn [parse_numbers].
    destruct (Z.eqb_spec c DQ); [done|]. destruct (Nat.eqb_spec (length acc) 8); [cbn in Hl; lia|]. rewrite Hp. cbn [skip_blanks].
    rewrite Z.eqb_refl, IH; [by rewrite <- app_assoc|done| |]; rewrite ?length_app; cbn in *; lia.
Qed.

Lemma parse_joined ns n :
  Forall (fun n => INT32_MIN <= n <= INT32_MAX) (ns ++ [n]) -> (length ns < 8)%nat ->
  noob_native_parse (print_numbers ns ++ print_int n) false = Some (Arguments_ (ns ++ [n]) []).
Proof.
  intros Hns Hl. unfold noob_native_parse. rewrite parse_numbers_joined; [done|done|cbn; lia|].
  destruct ns as [|m ns].
  - cbn [print_numbers app]. destruct (print_int_head n []) as (c & t & E & H1 & _). rewrite app_nil_r in E.
    rewrite E, skip_blanks_nonblank by done. cbn; lia.
  - cbn [print_numbers]. rewrite <- app_assoc. cbn [app].
    destruct (print_int_head m (SP :: print_numbers ns ++ print_int n)) as (c & t & E & H1 & _).
    rewrite E, skip_blanks_nonblank, <- E by done. rewrite length_app. cbn [length]. rewrite length_app.
    destruct (print_int_head n []) as (c' & t' & E' & _). rewrite app_nil_r in E'. rewrite E'.
    pose proof (print_numbers_length ns). cbn [length]. lia.
Qed.

Lemma parse_sent c : call_ok c -> noob_native_parse (sent_arguments c) (mixed c) = Some (arguments_of c).
Proof.
  intros (_ & _ & _ & Hw & _). destruct c as [nm|nm text|pin v|pin|interval image]; cbn [mixed sent_arguments];
    try (apply noob_native_parse_roundtrip; done).
  - destruct Hw as (_ & Hn & _). cbn in Hn. pose proof (parse_joined [pin] v) as P. cbn [print_numbers] in P. rewrite <- app_assoc in P.
    apply P; [done|cbn; lia].
  - destruct Hw as (_ & Hn & _). apply (parse_joined [] pin); [done|cbn; lia].
Qed.

Lemma sent_facts c : call_ok c -> sent_arguments c <> [] /\ isspace (peek (sent_arguments c)) = false.
Proof.
  intros _. assert (P : forall n r, print_int n ++ r <> [] /\ isspace (peek (print_int n ++ r)) = false).
  { intros n r. destruct (print_int_head n r) as (x & t & -> & _ & _ & Hx). done. }
  destruct c as [nm|nm text|pin v|pin|interval image]; cbn [sent_arguments]; [done|done|apply P| |].
  - rewrite <- (app_nil_r (print_int pin)). apply P.
  - unfold print_arguments. cbn [arguments_of numbers print_numbers]. rewrite <- app_assoc. apply P.
Qed.

(** ** Property *)

(** a call the bridge makes for an Iris program arrives as it was made:
    whatever printable text of up to 191 characters (quotes and backslashes
    escaped on one side and unescaped on the other) and whatever 32-bit numbers
    it carries, Neo's dispatcher runs the native of that name with exactly those
    arguments and the bridge's request id. *)
Theorem bridge_calls_received (strerror : Z -> bytes) (c : bridge_call) (e : NoobNativeEntry native_call) (n : neo) :
  call_ok c -> noob_native_find (natives strerror) (name_of c) = Some e ->
  want_numbers e = count (arguments_of c) -> text e = negb (bool_decide (ascii (arguments_of c) = [])) ->
  dispatch strerror (request_body (command_of c)) n = Native.call e REQUEST_ID (name_of c) (arguments_of c) n.
Proof.
  intros Hc He Hw Ht. pose proof Hc as ([_ Hl] & Hs & Hne & Wf & _). destruct (sent_facts c Hc) as [F1 F2].
  assert (D : dispatch strerror (request_body (command_of c)) n
              = call_native strerror REQUEST_ID (mixed c) (name_of c ++ SP :: sent_arguments c) n).
  { rewrite (command_of_form c Hc). unfold dispatch.
    rewrite scan_request_body; [|by destruct (mixed c)|destruct (mixed c); apply (bool_decide_unpack _); vm_compute; exact I
      |destruct (mixed c); vm_compute; lia|by destruct (name_of c)|].
    - by destruct (mixed c).
    - destruct (name_of c) as [|x t]; [done|]. by apply Forall_cons in Hs as [? _]. }
  rewrite D. unfold call_native. rewrite scan_word_prefix, He by done.
  unfold scan_ws. rewrite skip_space_cons by done.
  destruct (sent_arguments c) as [|x t] eqn:E; [done|]. cbn [peek] in F2. rewrite skip_space_nonspace, <- E, parse_sent by done.
  rewrite Hw, Nat.eqb_refl. cbn [negb orb]. destruct (find_name _ _ _ He) as [_ Hnm].
  replace (Bool.eqb (negb (peek (ascii (arguments_of c)) =? NUL)) (text e)) with true; [by rewrite Hnm|].
  rewrite Ht. destruct Wf as (_ & _ & _ & Wp). destruct (ascii (arguments_of c)) as [|y ys]; [done|].
  apply Forall_cons in Wp as [Wy _]. unfold printable in Wy. cbn [peek]. rewrite bool_decide_eq_false_2 by done.
  destruct (Z.eqb_spec y NUL); [unfold NUL in *; lia|done].
Qed.

Lemma bridge_calls_received_witness :
  let n := neod_init (main_settings None None None None)
             (Os (World ∅ 0 [] [] [] [] ∅ [] []) [] [] [] [] ∅ 0 []) in
  let image := str "cat.gif" in
  dispatch (fun _ => []) (request_body (command_of (StartDisplay 5000 image))) n
  = HwDisplay.hw_display_call REQUEST_ID (str "DISPLAY_START") (Arguments_ [5000] image) n.
Proof.
  intros n image.
  apply (bridge_calls_received (fun _ => []) (StartDisplay 5000 image)
           (Entry _ (str "DISPLAY_START") 1 true HwDisplay.hw_display_call) n); [literal_text|reflexivity..].
Defined.
End IrisNeoCalls.
