(* ===== verification/IrisNeo.v ===== *)
(** * Iris and Neo together: VM_DOWNLOAD stores the file Neo has

    What the daemon replies to a VM_READ of the bridge, what the bridge makes of
    the reply, and the end-to-end theorem over a link without faults. *)
From S2P Require Import Prelude CLib World Network Process NativeRegistry NeoState NeoDaemon NeoReplies NeoReads EspRecord EspRegistry EspVm EspDispatch EspCard EspSd EspStore EspStoreFacts EspStoreRestart IrisNeoBridge IrisNeoBridgeFacts IrisNeoLink.

Open Scope Z_scope.

Module IrisNeo.
Import EspRegistry IrisNeoBridge IrisNeoBridgeFacts IrisNeoLink.
Import Native Neod NeodReplies NeodReads.

#[local] Arguments str : simpl never.

(** ** Reading a piece of a VM file *)

(** Neo has the file, and its calls succeed. *)
Definition has_vm (name content : bytes) (d : daemon) : Prop :=
  w_faults (o_world (n_os (d_neo d))) = []
  /\ w_fs (o_world (n_os (d_neo d))) !! vm_path (d_neo d) name = Some content.

Definition vm_args (offset : Z) (name : bytes) : bytes := print_nat offset ++ SP :: hex_encode name.

Lemma vm_args_facts offset name :
  0 <= offset <= 1024 -> vm_name name ->
  (length (vm_args offset name) <= 397)%nat /\ Forall (fun c => 0 < c /\ c <> NL) (vm_args offset name)
  /\ vm_args offset name <> [] /\ isspace (peek (vm_args offset name)) = false.
Proof.
  intros Ho (Hb & Hl & _). unfold vm_args, NAME_BYTES in *. pose proof (print_small offset Ho).
  pose proof (print_nat_isdigit offset) as Hd. pose proof (print_nat_nonempty offset) as Hn.
  pose proof (hex_encode_nonspace name (printable_bytes _ (basename_printable _ Hb))) as Hx.
  assert (Hp : Forall (fun c => 48 <= c) (hex_encode name)).
  { pose proof (printable_bytes _ (basename_printable _ Hb)) as B. unfold hex_encode. apply Forall_bind.
    eapply Forall_impl; [exact B|]. intros c Hc. cbn beta in Hc. destruct (nibbles c Hc) as (H1 & H2 & _).
    unfold hex_byte, hex_digit. repeat constructor; split_if; to_prop; lia. }
  split_and!.
  - rewrite length_app. cbn [length]. rewrite length_hex_encode. lia.
  - apply Forall_app. split; [|constructor; [done|]].
    + eapply Forall_impl; [exact Hd|]. intros c Hc. cbn beta in Hc. apply isdigit_facts in Hc. unfold NL. lia.
    + eapply Forall_impl; [exact Hp|]. intros c Hc. cbn beta in Hc. unfold NL. lia.
  - by destruct (print_nat offset).
  - destruct (print_nat offset) as [|c r]; [done|]. cbn. apply Forall_cons in Hd as [Hd _]. by apply isdigit_facts in Hd as (_ & Hd & _).
Qed.

Lemma dispatch_vm_read se offset name n :
  0 <= offset <= 1024 -> vm_name name ->
  (dispatch se (request_body (vm_read_command offset (hexText name))) n).2
  = (vm_read REQUEST_ID (vm_args offset name) (reap_file n).2).2.
Proof.
  intros Ho Hn. destruct (vm_args_facts offset name Ho Hn) as (_ & _ & H1 & H2).
  unfold dispatch. change (vm_read_command offset (hexText name)) with (str "VM_READ" ++ SP :: vm_args offset name).
  rewrite scan_request_body; [|done|apply (bool_decide_unpack _); vm_compute; exact I|vm_compute; lia|done|done].
  generalize dependent (vm_args offset name). intros args _ _.
  change (bytes_eqb (str "VM_READ") (str "PING")) with false. change (bytes_eqb (str "VM_READ") (str "CAPS")) with false.
  change (bytes_eqb (str "VM_READ") (str "CALL")) with false. change (bytes_eqb (str "VM_READ") (str "CALL_MIXED")) with false.
  cbn [andb orb]. destruct (native_named se (str "VM_READ")) as [e ->]; [apply (bool_decide_unpack _); vm_compute; exact I|].
  unfold hw_command. change (bytes_eqb (str "VM_READ") (str "VM_READ")) with true. rewrite !orb_true_r.
  unfold file_command. rewrite st_bind_run. done.
Qed.

Lemma vm_args_printed offset name :
  0 <= offset <= 1024 -> vm_name name ->
  vm_args offset name = snprintf (Z.to_nat 432) (print_int offset ++ SP :: hex_encode name).
Proof.
  intros Ho Hn. pose proof (vm_args_facts offset name Ho Hn) as [Hl _]. unfold vm_args in *.
  unfold snprintf, print_int. destruct (Z.ltb_spec offset 0); [lia|]. by rewrite take_ge by lia.
Qed.

(** The piece of the file at an offset, as the daemon replies it. *)
Definition piece (content : bytes) (offset : Z) : bytes := vm_payload offset content (pread content offset).

Lemma piece_fits content offset :
  Z.of_nat (length content) <= 1024 -> (length (reply_line REQUEST_ID (str "OK") (piece content offset)) < 500)%nat.
Proof.
  intros Hs. pose proof (vm_payload_fits offset content Hs) as Hf. fold (piece content offset) in Hf.
  unfold reply_line. change (print_nat REQUEST_ID) with [49]. rewrite !length_app. cbn [length]. rewrite length_app.
  destruct (piece content offset); cbn [length app] in *; rewrite ?length_app; cbn [length]; unfold str; cbn [length map]; cbn; lia.
Qed.

Lemma vm_answers d offset name content :
  has_vm name content d -> vm_name name ->
  0 <= offset <= Z.of_nat (length content) -> 1 <= Z.of_nat (length content) <= 1024 ->
  answers d (request_line (vm_read_command offset (hexText name)))
    (reply_line REQUEST_ID (str "OK") (piece content offset)) (has_vm name content).
Proof.
  intros [Hf Hc] Hn Ho Hs zs Hz. pose proof (vm_args_facts offset name ltac:(lia) Hn) as (A1 & A2 & _).
  assert (B : Forall (fun c => 0 < c /\ c <> NL) (vm_read_command offset (hexText name))).
  { change (vm_read_command offset (hexText name)) with (str "VM_READ " ++ vm_args offset name).
    apply Forall_app. split; [apply (bool_decide_unpack _); vm_compute; exact I|done]. }
  destruct (serve_request d (vm_read_command offset (hexText name)) zs) as (n & [S1 S2] & C1 & C2 & ->).
  - apply cstr_id. eapply Forall_impl; [exact B|]. by intros c [? _].
  - apply Forall_app. split; [apply (bool_decide_unpack _); vm_compute; exact I|].
    apply Forall_app. split; [apply (bool_decide_unpack _); vm_compute; exact I|]. constructor; [done|].
    eapply Forall_impl; [exact B|]. intros c [? ?]. unfold NUL. lia.
  - unfold request_body. change (vm_read_command offset (hexText name)) with (str "VM_READ " ++ vm_args offset name).
    rewrite !length_app. cbn [length]. rewrite length_app. change (length (str "VM_READ ")) with 8%nat.
    change (length (str "NRP/1 ")) with 6%nat. change (length (print_nat REQUEST_ID)) with 1%nat. lia.
  - done.
  - rewrite dispatch_vm_read by (done || lia). destruct (reap_file_frame n) as (Ecl & Ew & Es).
    rewrite vm_args_printed by (done || lia). set (n2 := (reap_file n).2) in *. clearbody n2.
    rewrite (vm_read_ok REQUEST_ID offset name content); [|done|done|done|done|by rewrite Ew, S1|].
    + unfold snprintf. rewrite take_ge by (pose proof (vm_payload_fits offset content ltac:(lia)); lia).
      fold (piece content offset). pose proof (piece_fits content offset ltac:(lia)).
      destruct (respond_willing REQUEST_ID (str "OK") (piece content offset) n2) as (c & -> & Eo & Hw);
        [by rewrite Ecl|unfold REPLY_BYTES; lia|]. cbn [n_client d_neo]. rewrite Eo, Ecl, C1. split_and!; [done|done|].
      unfold has_vm, vm_path in *. cbn [d_neo n_os n_settings]. by rewrite Ew, Es, S1, S2.
    + unfold vm_path in *. by rewrite Ew, Es, S1, S2.
Qed.

(** ** The bridge reads the piece *)

(** A byte of a reply's text. *)
Definition text_byte (c : byte) : Prop := 0 < c /\ is_crlf c = false.

Lemma parse_reply_ok p :
  p <> [] -> Forall text_byte p ->
  let r := parse_reply (reply_line REQUEST_ID (str "OK") p) in ok r = true /\ detail r = p.
Proof.
  intros Hp Ht. cbn zeta.
  assert (E : reply_line REQUEST_ID (str "OK") p = str "NRP/1 1 " ++ (str "OK " ++ p) ++ [NL]) by (by destruct p).
  rewrite E. unfold parse_reply. rewrite cstr_id.
  2: { apply Forall_app. split; [apply (bool_decide_unpack _); vm_compute; exact I|]. apply Forall_app. split; [|by constructor].
       apply Forall_app. split; [apply (bool_decide_unpack _); vm_compute; exact I|]. eapply Forall_impl; [exact Ht|]. by intros c [? _]. }
  rewrite starts_with_app. cbn [negb].
  assert (S1 : strchr (str "NRP/1 1 " ++ (str "OK " ++ p) ++ [NL]) SP = Some (str " 1 " ++ (str "OK " ++ p) ++ [NL])) by done.
  assert (S2 : strchr (drop 1 (str " 1 " ++ (str "OK " ++ p) ++ [NL])) SP = Some (str " " ++ (str "OK " ++ p) ++ [NL])) by done.
  rewrite S1, S2.
  assert (S3 : cut_at is_crlf (drop 1 (str " " ++ (str "OK " ++ p) ++ [NL])) = str "OK " ++ p).
  { change (drop 1 (str " " ++ (str "OK " ++ p) ++ [NL])) with ((str "OK " ++ p) ++ [NL]). apply cut_at_stop; [|done].
    apply Forall_app. split; [apply (bool_decide_unpack _); vm_compute; exact I|]. eapply Forall_impl; [exact Ht|]. by intros c [_ ?]. }
  rewrite S3. done.
Qed.

Lemma strstr_cons c s n : starts_with n (c :: s) = false -> strstr (c :: s) n = strstr s n.
Proof. intros E. cbn [strstr]. by rewrite E. Qed.

Lemma digits_not_SP n : Forall (fun c => (SP =? c) = false) (print_nat n).
Proof. eapply Forall_impl; [apply print_nat_isdigit|]. intros c Hc%isdigit_facts. unfold SP. lia. Qed.

Lemma digits_no_letter c n : 57 < c -> c ∉ print_nat n.
Proof. intros Hc Hin. pose proof (print_nat_isdigit n) as H. rewrite Forall_forall in H. apply H, isdigit_facts in Hin. lia. Qed.

Section fields.
Context (v size : Z) (eof data : bytes).
Context (Heof : eof = [48] \/ eof = [49]) (Hdata : Forall (fun c => (SP =? c) = false) data).

(** The text of [vm_payload]. *)
Definition payload_text : bytes :=
  str "value=" ++ print_nat v ++ str " size=" ++ print_nat size ++ str " eof=" ++ eof ++ str " data=" ++ data.

(** Search past the literals and the numbers in front. *)
Ltac literal t := let x := eval vm_compute in t in change t with x.
Ltac search :=
  unfold field, payload_text; literal (str "value="); literal (str " size="); literal (str " eof="); literal (str " data=");
  match goal with |- context [str ?k] => literal (str k) end;
  cbn [app];
  repeat first [rewrite strstr_cons by reflexivity | rewrite strstr_skip by (by apply digits_no_letter)];
  match goal with |- context [strstr ?s ?n] =>
    change (strstr s n) with (strstr (n ++ drop (length n) s) n); rewrite (strstr_here n) by done; cbn [app skipn length]; rewrite ?drop_0
  end.

Lemma field_size : field payload_text (str "size=") = print_nat size.
Proof. search. rewrite span_prefix; [done|apply digits_not_SP|done]. Qed.

Lemma field_eof : field payload_text (str "eof=") = eof.
Proof. unfold payload_text. destruct Heof as [-> | ->]; search; done. Qed.

Lemma field_data : field payload_text (str "data=") = data.
Proof. unfold payload_text. destruct Heof as [-> | ->]; search; rewrite <- (app_nil_r data) at 1; by rewrite span_prefix. Qed.
End fields.

Lemma nibble_hex_digit v : 0 <= v < 16 -> nibble (hex_digit v) = v.
Proof. exact (hex_value_digit v). Qed.

Lemma store_pairs_hex got : forall b, bytes_ok got -> Z.of_nat (length b) + Z.of_nat (length got) <= EspVm.PROGRAM_BYTES ->
  store_pairs (hex_encode got) b = Stored (b ++ got).
Proof.
  induction got as [|c got IH]; intros b Hb Hl; [cbn; by rewrite app_nil_r|].
  apply Forall_cons in Hb as [Hc Hb]. destruct (nibbles c Hc) as (H1 & H2 & H3). cbn [length] in Hl.
  rewrite hex_encode_cons. unfold hex_byte. cbn [app store_pairs]. rewrite !nibble_hex_digit by done.
  destruct (Z.ltb_spec (Z.shiftr c 4) 0); [lia|]. destruct (Z.ltb_spec (Z.land c 15) 0); [lia|]. cbn [orb].
  destruct (Z.leb_spec EspVm.PROGRAM_BYTES (Z.of_nat (length b))); [lia|].
  rewrite H3, Z.mod_small by (unfold byte_ok in Hc; lia). rewrite IH; [by rewrite <- app_assoc|done|rewrite length_app; cbn; lia].
Qed.

Lemma toInt_print n : 0 <= n <= INT_MAX -> EspDispatch.toInt (print_nat n) = n.
Proof.
  unfold INT_MAX. intros Hn. unfold EspDispatch.toInt, strtol. rewrite <- (app_nil_r (print_nat n)), scan_number_print by (done || lia).
  cbn [value_or_0]. unfold clamp, LONG_MIN, LONG_MAX, INT_MIN, INT_MAX. lia.
Qed.

Section piece.
Context (content : bytes) (Hb : bytes_ok content) (Hs : 1 <= Z.of_nat (length content) <= 1024).
Context (offset : Z) (Ho : 0 <= offset < Z.of_nat (length content)).

Definition last_piece : bool := offset + Z.of_nat (length (pread content offset)) =? Z.of_nat (length content).

Lemma pread_take : pread content offset = take 128 (drop (Z.to_nat offset) content).
Proof.
  unfold pread. rewrite <- (map_id (take 128 _)) at 2. apply map_ext_in. intros c Hc. apply list_elem_of_In in Hc.
  assert (H : byte_ok c) by (eapply Forall_forall; [apply Forall_take, Forall_drop, Hb|exact Hc]).
  unfold byte_ok in H. by rewrite Z.mod_small.
Qed.

Lemma pread_length : 1 <= Z.of_nat (length (pread content offset)) <= Z.of_nat (length content) - offset.
Proof. rewrite pread_take, length_take, length_drop. lia. Qed.

Lemma pread_bytes : bytes_ok (pread content offset).
Proof. rewrite pread_take. by apply Forall_take, Forall_drop. Qed.

Lemma piece_text :
  piece content offset = payload_text (Z.of_nat (length (pread content offset))) (Z.of_nat (length content))
    (if last_piece then [49] else [48]) (hex_encode (pread content offset)).
Proof.
  unfold piece, vm_payload, payload_text, last_piece. pose proof pread_length.
  rewrite (Z.mod_small (_ + _)) by lia. by destruct (_ =? _).
Qed.

Lemma hex_not_SP (d : bytes) : bytes_ok d -> Forall (fun c => (SP =? c) = false) (hex_encode d).
Proof.
  intros Hd. eapply Forall_impl; [apply hex_encode_nonspace, Hd|]. intros c Hc. cbn beta in Hc.
  destruct (Z.eqb_spec SP c) as [<-|]; [by vm_compute in Hc|done].
Qed.

Lemma eof_cases : (if last_piece then [49] else [48]) = [48] \/ (if last_piece then [49] else [48]) = [49].
Proof. destruct last_piece; auto. Qed.

Lemma piece_eof : field (piece content offset) (str "eof=") = if last_piece then str "1" else str "0".
Proof. rewrite piece_text, field_eof; [by destruct last_piece|apply eof_cases]. Qed.

Lemma piece_data : field (piece content offset) (str "data=") = hex_encode (pread content offset).
Proof. rewrite piece_text, field_data; [done|apply eof_cases|apply hex_not_SP, pread_bytes]. Qed.

Lemma piece_size expected :
  expected = 0 \/ expected = Z.of_nat (length content) ->
  chunk_size (piece content offset) offset expected = Some (Z.of_nat (length content)).
Proof.
  intros He. unfold chunk_size. rewrite piece_data, piece_text, field_size, toInt_print, length_hex_encode by (unfold INT_MAX; lia).
  pose proof pread_length as Hl. pose proof (length_pread content offset) as H128. unfold EspVm.PROGRAM_BYTES in *.
  rewrite Nat2Z.inj_mul. change (Z.of_nat 2) with 2.
  rewrite (Z.mul_comm 2), Z.mod_mul, Z.div_mul by lia. destruct (_ || _) eqn:E; [|done].
  rewrite !orb_true_iff, !andb_true_iff, !negb_true_iff, !Z.leb_le, !Z.ltb_lt, !Z.eqb_neq in E. lia.
Qed.

Lemma piece_bytes : piece content offset <> [] /\ Forall text_byte (piece content offset).
Proof.
  rewrite piece_text. unfold payload_text. split; [done|].
  assert (Hd : forall n, Forall text_byte (print_nat n)).
  { intros n. eapply Forall_impl; [apply print_nat_isdigit|]. intros c Hc%isdigit_facts. unfold text_byte, is_crlf, CR, NL.
    split; [lia|]. apply orb_false_iff. rewrite !Z.eqb_neq. lia. }
  assert (Hx : Forall text_byte (hex_encode (pread content offset))).
  { unfold hex_encode. apply Forall_bind. eapply Forall_impl; [apply pread_bytes|]. intros c Hc. cbn beta in Hc.
    destruct (nibbles c Hc) as (H1 & H2 & _). unfold hex_byte, hex_digit, text_byte, is_crlf, CR, NL.
    repeat constructor; try (apply orb_false_iff; rewrite !Z.eqb_neq); split_if; to_prop; lia. }
  repeat (apply Forall_app; split); try done; try (apply (bool_decide_unpack _); vm_compute; exact I).
  destruct last_piece; apply (bool_decide_unpack _); vm_compute; exact I.
Qed.
End piece.

(** ** The download *)

Import EspVm EspDispatch EspCard EspSd EspStore EspStoreFacts EspStoreRestart.

(** The link is not part of the card or the store. *)
Class Bridged (S L C : Type) `{HasVm S} `{!HasStore S C} `{!HasNeo S L} := {
  sd_put_link l s : sd_of (put_link l s) = sd_of s;
  store_put_link l s : store_of (put_link l s) = store_of s }.

Section download.
Context {S C : Type} `{HasClock S} `{!HasStore S C} `{!HasNeo S (wire daemon)} `{!Bridged S (wire daemon) C} `{HR : ReliableCard C}.
Implicit Types s : S.

(** Neo has the file and the link to it works. *)
Definition linked (name content : bytes) s : Prop :=
  calm (link_of s) /\ has_vm name content (k_peer (link_of s)).

(** Nothing but the link has changed. *)
Definition same_device s s' : Prop :=
  sd_of s' = sd_of s /\ store_of s' = store_of s /\ vm_of s' = vm_of s /\ display_of s' = display_of s.

#[local] Instance same_device_preorder : PreOrder same_device.
Proof. split; [done|]. intros x y z (A1 & A2 & A3 & A4) (B1 & B2 & B3 & B4). unfold same_device. split_and!; congruence. Qed.

Lemma reply_line_text p : p <> [] -> reply_line REQUEST_ID (str "OK") p = (str "NRP/1 1 OK " ++ p) ++ [NL].
Proof. by destruct p. Qed.

Lemma call_neo_piece name content offset s :
  linked name content s -> vm_name name -> (length name <= 80)%nat -> bytes_ok content ->
  1 <= Z.of_nat (length content) <= 1024 -> 0 <= offset < Z.of_nat (length content) ->
  exists r s', call_neo (vm_read_command offset (hexText name)) s = (r, s') /\ ok r = true /\ detail r = piece content offset
               /\ linked name content s' /\ same_device s s'.
Proof.
  intros [Hc Hv] Hn Hl Hb Hs Ho. destruct (piece_bytes content Hb Hs offset Ho) as [Hne Ht].
  pose proof (piece_fits content offset ltac:(lia)) as Hf. rewrite reply_line_text, length_app in Hf by done. cbn [length] in Hf.
  destruct (neoRequest_calm (vm_read_command offset (hexText name)) (str "NRP/1 1 OK " ++ piece content offset) (link_of s) (has_vm name content))
    as (w' & E & Hc' & Hv').
  - done.
  - destruct (vm_args_facts offset name ltac:(lia) Hn) as (A1 & A2 & _).
    change (vm_read_command offset (hexText name)) with (str "VM_READ " ++ vm_args offset name). unfold request_line. rewrite cstr_id.
    + rewrite !length_app. cbn [length]. rewrite !length_app. change (length (str "VM_READ ")) with 8%nat.
      change (length (str "NRP/1 ")) with 6%nat. change (length (print_nat REQUEST_ID)) with 1%nat. cbn [length]. lia.
    + apply Forall_app. split; [apply (bool_decide_unpack _); vm_compute; exact I|]. eapply Forall_impl; [exact A2|]. by intros c [? _].
  - rewrite <- reply_line_text by done. apply vm_answers; done || lia.
  - apply not_elem_of_app. split; [apply (bool_decide_unpack _); vm_compute; exact I|]. intros Hin.
    rewrite Forall_forall in Ht. apply Ht in Hin as [_ Hin]. by vm_compute in Hin.
  - lia.
  - unfold call_neo, on_link. rewrite E. destruct (parse_reply_ok (piece content offset) Hne Ht) as [P1 P2].
    rewrite reply_line_text in P1, P2 by done. eexists _, _. split; [reflexivity|]. split; [done|]. split; [done|].
    unfold linked, same_device. rewrite link_of_put, sd_put_link, store_put_link, vm_put_link, display_put_link. done.
Qed.

Lemma take_prefix (x : bytes) n l : x = take n l -> x = take (length x) l.
Proof. intros ->. rewrite length_take. destruct (Nat.le_gt_cases n (length l)); [by rewrite Nat.min_l|]. by rewrite Nat.min_r, !take_ge by lia. Qed.

(** From any prefix of the file, the loop gets the rest and stores all of it. *)
Lemma download_loop_ok fuel : forall name content replace b expected s,
  linked name content s -> vm_name name -> (length name <= 80)%nat -> bytes_ok content ->
  1 <= Z.of_nat (length content) <= 1024 ->
  b = take (length b) content -> (length b < length content)%nat -> (length content - length b < fuel)%nat ->
  expected = 0 \/ expected = Z.of_nat (length content) ->
  exists s', linked name content s' /\ same_device s s'
    /\ download_loop fuel name replace b expected s
       = (r ← storeBytes (take (length name - 4) name) content replace; mret (Some r)) s'.
Proof.
  induction fuel as [|f IH]; intros name content replace b expected s Hk Hn Hl Hb Hs Hp Hlt Hf He; [lia|].
  cbn [download_loop]. destruct (Z.leb_spec PROGRAM_BYTES (Z.of_nat (length b))); [unfold PROGRAM_BYTES in *; lia|].
  set (offset := Z.of_nat (length b)). assert (Ho : 0 <= offset < Z.of_nat (length content)) by lia.
  destruct (call_neo_piece name content offset s) as (r & s1 & E & Hok & Hd & Hk1 & Hs1); [done..|].
  rewrite st_bind_run, E. cbn [fst snd]. rewrite Hok, Hd. cbn [negb].
  rewrite piece_size, piece_data, piece_eof by done.
  pose proof (pread_length content Hb Hs offset Ho) as Hg.
  rewrite store_pairs_hex by first [by apply pread_bytes|unfold PROGRAM_BYTES, offset in *; lia].
  assert (Hb' : b ++ pread content offset = take (length (b ++ pread content offset)) content).
  { apply (take_prefix _ (length b + 128)). rewrite pread_take by done. unfold offset.
    rewrite Nat2Z.id, <- take_take_drop. by rewrite Hp at 1. }
  unfold last_piece. destruct (Z.eqb_spec (offset + Z.of_nat (length (pread content offset))) (Z.of_nat (length content))) as [El|El].
  - assert (Hall : b ++ pread content offset = content) by (rewrite Hb', length_app; apply take_ge; unfold offset in *; lia).
    rewrite Hall, Z.eqb_refl. cbn [negb]. exists s1. split_and!; done.
  - change (bytes_eqb (str "0") (str "1")) with false. cbn iota.
    change (bytes_eqb (str "0") (str "0")) with true. rewrite length_hex_encode.
    destruct (Nat.eqb_spec (2 * length (pread content offset)) 0); [lia|]. cbn [orb negb].
    destruct (IH name content replace (b ++ pread content offset) (Z.of_nat (length content)) s1) as (s2 & K1 & K2 & K3);
      try done; try (rewrite length_app; unfold offset in *; lia); [by right|].
    exists s2. split; [done|]. split; [by etrans|done].
Qed.

Lemma storeBytes_ok name d replace s :
  attached (store_of s) = true -> validName (trim name) = true ->
  content (card_of s) (programDirectory (store_of s)) = Some DirNode ->
  no_dirs (card_of s) (pathFor name (store_of s)) ->
  (replace = true \/ content (card_of s) (pathFor name (store_of s)) = None) ->
  1 <= Z.of_nat (length d) <= PROGRAM_BYTES ->
  let r := storeBytes name d replace s in
  ok r.1 = true /\ value r.1 = Z.of_nat (length d)
  /\ content (card_of r.2) (pathFor name (store_of s)) = Some (FileNode d)
  /\ store_of r.2 = store_of s /\ vm_of r.2 = vm_of s.
Proof.
  intros A Hv Hd Hp Hr Hl. destruct (pathFor_in_dir name (store_of s) Hv) as (nm & E & Hn). cbn zeta.
  unfold storeBytes, when_attached, get_store. run_st. rewrite A. replace (_ || _) with false by (symmetry; apply orb_false_iff; lia).
  run_st. rewrite E in *. set (path := programDirectory (store_of s) ++ SLASH :: nm) in *.
  replace (length path =? 0)%nat with false by (symmetry; apply Nat.eqb_neq; unfold path; rewrite length_app; cbn; lia).
  run_st. set (t := (if replace then mret false else on_fs (fs_exists path)) s).
  assert (T : t.1 = false /\ same_card (card_of s) (card_of t.2) /\ store_of t.2 = store_of s /\ vm_of t.2 = vm_of s).
  { unfold t. destruct replace; [done|]. destruct Hr as [Hr|Hr]; [done|]. autorewrite with device. rewrite exists_spec, Hr.
    split_and!; try done. apply exists_same. }
  clearbody t. destruct t as [b s1]. cbn [fst snd] in *. destruct T as (-> & T1 & T2 & T3). cbn iota. run_st.
  destruct (atomicWrite_ok (programDirectory (store_of s)) nm d (card_of s1)) as [W1 _]; [done|by rewrite (T1 _)| |].
  { unfold no_dirs in *. by rewrite !(T1 _). }
  fold path in W1. rewrite on_fs_result, W1. run_st. cbn. autorewrite with device. rewrite T2, T3.
  split_and!; try done. by apply atomicWrite_done.
Qed.

Lemma rtrim_id (x : bytes) : Forall (fun c => isspace c = false) x -> rtrim x = x.
Proof. induction 1 as [|c x Hc Hx IH]; [done|]. cbn. rewrite IH. destruct x; [by rewrite Hc|done]. Qed.

Lemma validName_chars stem : validName stem = true ->
  stem <> [] /\ (length stem <= 32)%nat /\ Forall (fun c => isalnum c || (c =? 45) || (c =? 95) = true) stem.
Proof.
  unfold validName. intros Hv. to_prop. match goal with F : forallb _ stem = true |- _ => rewrite forallb_forall in F; rename F into Hf end.
  split_and!; [by intros ->|done|]. apply Forall_forall. intros c Hc%list_elem_of_In. by apply Hf.
Qed.

(** A letter, a digit, a dash or an underscore. *)
Lemma name_char c : isalnum c || (c =? 45) || (c =? 95) = true ->
  isspace c = false /\ c <> 46 /\ c <> NUL /\ Neod.basename_char c = true.
Proof.
  intros Hc. assert (R : 45 <= c <= 122 /\ c <> 46).
  { unfold isalnum, isalpha, isupper, islower, isdigit in Hc. repeat (apply orb_prop in Hc as [Hc|Hc]); to_prop; lia. }
  split_and!; [unfold isspace; apply orb_false_iff; rewrite Z.eqb_neq, andb_false_iff, !Z.leb_gt; lia|lia|unfold NUL; lia|].
  unfold Neod.basename_char. apply orb_prop in Hc as [Hc|Hc]; [apply orb_prop in Hc as [Hc|Hc]|]; rewrite Hc, ?orb_true_r; done.
Qed.

Lemma trim_valid stem : validName stem = true -> trim stem = stem.
Proof.
  intros (Hn & _ & Hc)%validName_chars. assert (Hs : Forall (fun c => isspace c = false) stem).
  { eapply Forall_impl; [exact Hc|]. intros c Hx. by apply name_char. }
  unfold trim. rewrite rtrim_id; destruct stem as [|c r]; try done; apply Forall_cons in Hs as [Hx Hy].
  - by apply skip_space_nonspace.
  - rewrite skip_space_nonspace by done. by constructor.
Qed.

(** The file name of a program is one Neo accepts. *)
Lemma vm_name_valid stem : validName stem = true -> vm_name (stem ++ str ".nvm").
Proof.
  intros (Hn & Hl & Hc)%validName_chars. unfold vm_name. rewrite length_app. change (length (str ".nvm")) with 4%nat.
  assert (Hd : Forall (fun c => c <> 46) stem) by (eapply Forall_impl; [exact Hc|]; intros c Hx; by apply name_char).
  split_and!.
  - unfold basename_ok. apply andb_true_iff. split.
    + destruct stem as [|c r]; [done|]. apply Forall_cons in Hc as [Hx _]. apply name_char in Hx as (_ & X1 & X2 & _).
      cbn [app peek]. rewrite (proj2 (Z.eqb_neq _ _) X1), (proj2 (Z.eqb_neq _ _) X2). cbn [orb].
      apply negb_true_iff, not_true_iff_false. intros (a & b & E)%CLib.contains_spec.
      apply (f_equal (fun l => length (filter (fun c => c = 46) l))) in E. change (c :: r ++ str ".nvm") with ((c :: r) ++ str ".nvm") in E.
      rewrite !filter_app, !length_app in E. change (length (filter (fun c => c = 46) (str ".nvm"))) with 1%nat in E.
      change (length (filter (fun c => c = 46) (str ".."))) with 2%nat in E.
      assert (F : filter (fun c => c = 46) (c :: r) = []).
      { clear -Hd. induction Hd as [|x l Hx Hl IH]; [done|]. by rewrite filter_cons_False. }
      rewrite F in E. cbn in E. lia.
    + apply forallb_forall. intros c [Hin|Hin]%in_app_or.
      * apply list_elem_of_In in Hin. rewrite Forall_forall in Hc. by apply Hc, name_char in Hin as (_ & _ & _ & Hin).
      * revert c Hin. apply forallb_forall. done.
  - destruct stem; [done|cbn; lia].
  - unfold NAME_BYTES. lia.
  - replace (length stem + 4 - 4)%nat with (length stem) by lia. apply drop_app_length.
Qed.

Definition program_file (stem : bytes) : bytes := stem ++ str ".nvm".

(** C15: over a link without faults, VM_DOWNLOAD of a VM file of 1 to 1024 bytes
    that Neo has stores exactly that file's bytes on Iris's card under the
    program's name, however the transfers are cut up, leaves the running machine
    alone, and VM_LOAD_SAVED of the name then loads those bytes. *)
Theorem vm_download_exact (stem file : bytes) (flag : list Z) s :
  linked (program_file stem) file s -> validName stem = true -> bytes_ok file -> 1 <= Z.of_nat (length file) <= 1024 ->
  flag = [] \/ flag = [0] \/ flag = [1] ->
  attached (store_of s) = true -> content (card_of s) (programDirectory (store_of s)) = Some DirNode ->
  no_dirs (card_of s) (pathFor stem (store_of s)) ->
  (flag = [1] \/ content (card_of s) (pathFor stem (store_of s)) = None) ->
  exists r s', vmDownload flag (program_file stem) s = (Some r, s')
    /\ ok r = true /\ value r = Z.of_nat (length file) /\ vm_of s' = vm_of s
    /\ content (card_of s') (pathFor stem (store_of s)) = Some (FileNode file)
    /\ (busy (vm_of s) = false ->
        ok (load_saved stem s').1 = true /\ programData (vm_of (load_saved stem s').2) = file).
Proof.
  intros Hk Hv Hb Hs Hfl A Hd Hp Hr. pose proof (vm_name_valid stem Hv) as Hn. fold (program_file stem) in Hn.
  destruct (validName_chars stem Hv) as (Hne & H32 & _). pose proof (trim_valid stem Hv) as Ht.
  assert (Hlen : length (program_file stem) = (length stem + 4)%nat) by (unfold program_file; by rewrite length_app).
  set (replace := negb (length flag =? 0)%nat && (nth 0 flag 0 =? 1)).
  destruct (download_loop_ok DOWNLOAD_TURNS (program_file stem) file replace [] 0 s) as (s1 & _ & (D1 & D2 & D3 & _) & E);
    try done; [lia|cbn; lia|unfold DOWNLOAD_TURNS; cbn [length]; lia|by left|].
  assert (Hcard : card_of s1 = card_of s) by (unfold card_of; by rewrite D1).
  destruct (storeBytes_ok stem file replace s1) as (B1 & B2 & B3 & B4 & B5); rewrite ?D2, ?Hcard, ?Ht; try done.
  { destruct Hr as [->|Hr]; [by left|by right]. }
  exists (storeBytes stem file replace s1).1, (storeBytes stem file replace s1).2. rewrite D2 in B3.
  split; [|split_and!; try done; [congruence|]].
  - unfold vmDownload. replace (_ || _) with false; [|symmetry; rewrite !orb_false_iff; split_and!].
    + fold replace. rewrite E, st_bind_run, Hlen. replace (length stem + 4 - 4)%nat with (length stem) by lia.
      unfold program_file at 1 2. rewrite take_app_length. done.
    + destruct Hfl as [->|[->| ->]]; done.
    + destruct Hfl as [->|[->| ->]]; done.
    + apply Nat.ltb_ge. rewrite Hlen. destruct stem; [done|]. cbn [length]. lia.
    + apply Nat.ltb_ge. lia.
    + apply negb_false_iff. unfold ends_with. rewrite Hlen. change (length (str ".nvm")) with 4%nat.
      replace (length stem + 4 - 4)%nat with (length stem) by lia. unfold program_file. rewrite drop_app_length, bytes_eqb_refl.
      apply andb_true_iff. split; [apply Nat.leb_le; lia|done].
  - intros Hbusy. apply load_saved_ok; rewrite ?B4, ?D2, ?Ht, ?B5, ?D3; done.
Qed.
End download.

(** ** A device for the examples *)

Record rig := Rig { rig_kit : kit good_card; rig_link : wire daemon; rig_display : neo_display }.

#[global, refine] Instance rig_HasVm : HasVm rig :=
  {| vm_of s := vm_of (rig_kit s); put_vm v s := Rig (put_vm v (rig_kit s)) (rig_link s) (rig_display s) |}.
Proof. all: intros; try destruct s; try done. by destruct rig_kit0. Defined.

#[global, refine] Instance rig_HasClock : HasClock rig := {| millis := mret 0 |}.
Proof. all: by intros. Defined.

#[global, refine] Instance rig_HasStore : HasStore rig good_card :=
  {| sd_of s := sd_of (rig_kit s); put_sd d s := Rig (put_sd d (rig_kit s)) (rig_link s) (rig_display s);
     store_of s := store_of (rig_kit s); put_store q s := Rig (put_store q (rig_kit s)) (rig_link s) (rig_display s) |}.
Proof. all: by intros. Defined.

#[global, refine] Instance rig_HasNeo : HasNeo rig (wire daemon) :=
  {| link_of := rig_link; put_link l s := Rig (rig_kit s) l (rig_display s);
     display_of := rig_display; put_display d s := Rig (rig_kit s) (rig_link s) d |}.
Proof. all: by intros. Defined.

#[global] Instance rig_Bridged : Bridged rig (wire daemon) good_card.
Proof. by split. Qed.

(** Neo with a program of 300 bytes, and a link that moves a few bytes at a time. *)
Definition some_program : bytes := repeat 0 299 ++ [1].
Definition some_neo : daemon :=
  Daemon (neod_init (main_settings None None None None)
    (Os (World {[str "/vm/blink.nvm" := some_program]} 0 [] [] [] [] ∅ [] []) [] [] [] [] ∅ 0 [])) (fun _ => str "error").
Definition some_rig : rig :=
  Rig fresh_kit (Wire daemon some_neo [] [] [5; 1; 100; 3] [] None) display_init.

Lemma vm_download_exact_witness :
  exists r s', vmDownload [0] (str "blink.nvm") some_rig = (Some r, s')
    /\ ok r = true /\ content (card_of s') (str "/programs/prog_blink.nvm") = Some (FileNode some_program).
Proof.
  destruct (vm_download_exact (str "blink") some_program [0] some_rig) as (r & s' & E & H1 & _ & _ & H2 & _).
  - split; [|split; vm_compute; reflexivity]. split_and!; try reflexivity. apply (bool_decide_unpack _). vm_compute. exact I.
  - reflexivity.
  - apply (bool_decide_unpack _). vm_compute. exact I.
  - vm_compute. split; intros X; discriminate X.
  - auto.
  - reflexivity.
  - vm_compute. reflexivity.
  - unfold no_dirs. split_and!; intros X; vm_compute in X; discriminate X.
  - right. vm_compute. reflexivity.
  - exists r, s'. split; [exact E|]. split; [exact H1|exact H2].
Defined.
End IrisNeo.
