(* ===== verification/IrisArtifacts.v ===== *)
(** * iris_noob/src/noobs/iris/hw_artifacts.cpp: files of measurements

    Snapshots and raw infrared captures as files on the card: choosing an unused
    name, the buffered and verified writing of a capture, and reading a capture
    back for a replay.  The sensors' drivers (camera, radio, thermometer, carrier
    transmitter) are arguments. *)
From S2P Require Import Prelude CLib EspRecord EspRegistry EspVm EspDispatch EspCard EspSd EspStore EspThreads EspIrCapture EspIrReplay.

Open Scope Z_scope.

Module IrisArtifacts.
Import EspRegistry EspVm EspDispatch EspCard EspSd EspStore EspThreads Capture IrReplay.

Definition CRLF : bytes := [CR; NL].
Definition COMMA : byte := 44.

(** ** Checksums *)

Definition FNV_BASIS : Z := 2166136261.
Definition FNV_PRIME : Z := 16777619.

Definition hashBytes (hash : Z) (data : bytes) : Z :=
  fold_left (fun h b => u32 (Z.lxor h (b mod 256) * FNV_PRIME)) data hash.

(** ** Reading a file *)

Section files.
Context {C : Type} `{CardOps C}.

(** [available() > 0] at a position. *)
Definition fs_available (path : bytes) (pos : Z) : st C bool := n ← fs_size path; mret (pos <? n).

(** [readStringUntil('\n')]: up to a newline, which is dropped, or as far as a
    byte can be read; each turn reads one byte. *)
Fixpoint read_until (fuel : nat) (path : bytes) (pos : Z) (acc : bytes) : st C (bytes * Z) :=
  match fuel with
  | O => mret (acc, pos)
  | Datatypes.S f =>
      got ← fs_read path pos 1;
      match got with
      | [c] => if c =? NL then mret (acc, pos + 1) else read_until f path (pos + 1) (acc ++ [c])
      | _ => mret (acc, pos)
      end
  end.

(** The file has no more bytes than its size. *)
Definition read_line (path : bytes) (pos : Z) : st C (bytes * Z) :=
  n ← fs_size path; read_until (Datatypes.S (Z.to_nat (n - pos))) path pos [].

(** ** The buffered writer of a capture *)

Definition BLOCK : nat := Z.to_nat 512.

Record writer := Writer { buffered : bytes; expected : Z; written : Z; expectedHash : Z }.
Definition new_writer : writer := Writer [] 0 0 FNV_BASIS.

(** The loop of [append]: every turn takes a byte of the data at least. *)
Fixpoint append_loop (fuel : nat) (path data : bytes) (w : writer) : st C (bool * writer) :=
  match data, fuel with
  | [], _ => mret (true, w)
  | _, O => mret (false, w)
  | _, Datatypes.S f =>
      let chunk := Nat.min (length data) (BLOCK - length (buffered w)) in
      let block := buffered w ++ take chunk data in
      if (length block =? BLOCK)%nat then
        count ← fs_append path block;
        let w := Writer [] (expected w) (written w + count) (expectedHash w) in
        if negb (count =? Z.of_nat BLOCK) then mret (false, w)
        else append_loop f path (drop chunk data) w
      else append_loop f path (drop chunk data) (Writer block (expected w) (written w) (expectedHash w))
  end.

Definition append (path data : bytes) (w : writer) : st C (bool * writer) :=
  append_loop (length data) path data
    (Writer (buffered w) (expected w + Z.of_nat (length data)) (written w) (hashBytes (expectedHash w) data)).

(** Two appends, the second only when the first succeeds. *)
Definition append_line (path line : bytes) (w : writer) : st C (bool * writer) :=
  r ← append path line w;
  if negb r.1 then mret r else append path CRLF r.2.

Definition capture_header : bytes := str "time_ms,index,level,duration_us".

Definition capture_row (timestamp index : Z) (p : Z * Z) : bytes :=
  print_nat timestamp ++ COMMA :: print_nat index ++ COMMA :: print_nat p.1 ++ COMMA :: print_nat p.2.

(** The rows from [index] on; the error, if there is one. *)
Fixpoint append_rows (path : bytes) (timestamp index : Z) (pulses : list (Z * Z)) (w : writer)
  : st C (option bytes * writer) :=
  match pulses with
  | [] => mret (None, w)
  | p :: pulses =>
      let row := capture_row timestamp index p in
      if (48 <=? length row)%nat then mret (Some (str "IR capture row formatting failed"), w)
      else
      r ← append_line path row w;
      if negb r.1 then mret (Some (str "IR capture row write failed"), r.2)
      else append_rows path timestamp (index + 1) pulses r.2
  end.

(** The checksum of what can be read back, [chunk] bytes at a time. *)
Fixpoint read_back (chunk : Z) (fuel : nat) (path : bytes) (actual checked hash : Z) : st C (Z * Z) :=
  match fuel with
  | O => mret (checked, hash)
  | Datatypes.S f =>
      if checked <? actual then
        got ← fs_read path checked chunk;
        match got with
        | [] => mret (checked, hash)
        | _ => read_back chunk f path actual (checked + Z.of_nat (length got)) (hashBytes hash got)
        end
      else mret (checked, hash)
  end.

(** The checks after the file has been closed. *)
Definition verify_capture (path : bytes) (timestamp : Z) (pulses symbols : nat) (full : bool) (w : writer)
  : st C NativeResult :=
  opened ← fs_open path;
  actual ← (match opened with Some _ => fs_size path | None => mret 0 end);
  r ← (match opened with
       | Some _ => read_back 64 (Datatypes.S (Z.to_nat actual)) path actual 0 FNV_BASIS
       | None => mret (0, FNV_BASIS)
       end);
  let '(checked, actualHash) := r : Z * Z in
  if negb (written w =? expected w) || negb (actual =? expected w) || negb (checked =? actual)
     || negb (actualHash =? expectedHash w)
  then mret (failure (str "IR capture verification failed expected=" ++ print_nat (expected w) ++ str " wrote="
              ++ print_nat (written w) ++ str " size=" ++ print_nat actual ++ str " checked=" ++ print_nat checked
              ++ str " checksum=" ++ print_nat actualHash ++ str "/" ++ print_nat (expectedHash w)))
  else mret (result true (i32 timestamp)
               (str "path=" ++ path ++ str " pulses=" ++ print_nat (Z.of_nat pulses) ++ str " symbols="
                ++ print_nat (Z.of_nat symbols) ++ str " full=" ++ print_nat (if full then 1 else 0))).

(** The capture in a file that has been created. *)
Definition write_capture (path : bytes) (timestamp : Z) (pulses : list (Z * Z)) (symbols : nat) (full : bool)
  : st C NativeResult :=
  h ← append_line path capture_header new_writer;
  if negb h.1 then mret (failure (str "IR capture header write failed"))
  else
  r ← append_rows path timestamp 0 pulses h.2;
  match r.1 with
  | Some e => mret (failure e)
  | None =>
      let w := r.2 in
      count ← (if (length (buffered w) =? 0)%nat then mret 0 else fs_append path (buffered w));
      verify_capture path timestamp (length pulses) symbols full
        (Writer (buffered w) (expected w) (written w + count) (expectedHash w))
  end.

(** [println], whose result nobody looks at. *)
Definition println (path text : bytes) : st C unit := fs_append path text ;; fs_append path CRLF ;; mret tt.

Definition writeRecord (path header record : bytes) (timestamp : Z) : st C NativeResult :=
  opened ← fs_create path;
  if negb opened then mret (failure (str "cannot create artifact"))
  else println path header ;; println path record ;;
       mret (result true (i32 timestamp) (str "path=" ++ path)).

(** ** Reading a capture *)

(** The four fields of a row; [None] when there are fewer than three commas. *)
Definition split_row (line : bytes) : option (bytes * bytes * bytes * bytes) :=
  match span (Z.eqb COMMA) line with
  | (_, []) => None
  | (a, _ :: r) =>
      match span (Z.eqb COMMA) r with
      | (_, []) => None
      | (b, _ :: r) =>
          match span (Z.eqb COMMA) r with
          | (_, []) => None
          | (c, _ :: d) => Some (a, b, c, d)
          end
      end
  end.

(** A pulse of the capture [timestamp] at [index], or the error. *)
Definition parse_row (timestamp index : Z) (line : bytes) : bytes + (Z * Z) :=
  match split_row line with
  | None => inl (str "invalid IR capture row")
  | Some (a, b, c, d) =>
      if negb (toInt a =? timestamp) || negb (toInt b =? index) then inl (str "invalid IR capture order")
      else
      let level := toInt c in
      let duration := toInt d in
      if (negb (level =? 0) && negb (level =? 1)) || (duration <? 1) || (32767 <? duration)
      then inl (str "invalid IR pulse")
      else inr (level, duration)
  end.

(** The loop over the rows: an error, or the pulses and where reading stopped;
    [None] when it has not ended.  A line takes a byte of the file at least. *)
Fixpoint replay_rows (fuel : nat) (path : bytes) (timestamp pos : Z) (pulses : list (Z * Z))
  : st C (option (bytes + list (Z * Z) * Z)) :=
  match fuel with
  | O => mret None
  | Datatypes.S f =>
      more ← fs_available path pos;
      if negb more || (CAPTURE_PULSE_CAPACITY <=? length pulses)%nat then mret (Some (inr (pulses, pos)))
      else
      r ← read_line path pos;
      let '(line, pos) := r : bytes * Z in
      let line := trim line in
      if (length line =? 0)%nat then replay_rows f path timestamp pos pulses
      else
      match parse_row timestamp (Z.of_nat (length pulses)) line with
      | inl e => mret (Some (inl e))
      | inr p => replay_rows f path timestamp pos (pulses ++ [p])
      end
  end.

Definition capture_path (timestamp : Z) : bytes := str "/samples/ir_raw_" ++ print_nat timestamp ++ str ".csv".

(** The rows [inspect] shows, at most sixteen from [start] on. *)
Fixpoint inspect_rows (fuel : nat) (path : bytes) (start pos row : Z) (emitted : nat) (values : bytes)
  : st C (option (bytes + nat * bytes)) :=
  match fuel with
  | O => mret None
  | Datatypes.S f =>
      more ← fs_available path pos;
      if negb more || (16 <=? emitted)%nat then mret (Some (inr (emitted, values)))
      else
      r ← read_line path pos;
      let '(line, pos) := r : bytes * Z in
      let line := trim line in
      if (length line =? 0)%nat then inspect_rows f path start pos row emitted values
      else if row <? start then inspect_rows f path start pos (u32 (row + 1)) emitted values
      else
      match split_row line with
      | None => mret (Some (inl (str "invalid IR capture row")))
      | Some (_, b, c, d) =>
          inspect_rows f path start pos (u32 (row + 1)) (emitted + 1)
            (values ++ (if (emitted =? 0)%nat then [] else str ";") ++ b ++ str ":" ++ c ++ str "/" ++ d)
      end
  end.

(** Enough turns for every line of the file. *)
Definition turns (path : bytes) : st C nat := n ← fs_size path; mret (Datatypes.S (Datatypes.S (Z.to_nat n))).
End files.

(** ** The artifacts of a device *)

(** The last environment sample. *)
Record environment := Environment { latestTemperature : Z; latestHumidity : Z; haveEnvironment : bool }.
Definition environment_init : environment := Environment 0 0 false.

Class HasEnvironment (S : Type) := { env_of : S -> environment; put_env : environment -> S -> S }.

Section device.
Context {S C : Type} `{HasClock S} `{!HasStore S C} `{!HasEpoch S} `{CardOps C}.

(** The first unused name from the present time on. *)
Fixpoint free_path (attempts : nat) (directory prefix suffix : bytes) (timestamp : Z) : st S (option (Z * bytes)) :=
  match attempts with
  | O => mret None
  | Datatypes.S k =>
      let path := directory ++ str "/" ++ prefix ++ print_nat timestamp ++ suffix in
      there ← on_fs (fs_exists path);
      if negb there then mret (Some (timestamp, path))
      else free_path k directory prefix suffix (u32 (timestamp + 1))
  end.

Definition artifactPath (directory prefix suffix : bytes) : st S (option (Z * bytes)) :=
  usable ← on_sd ready;
  if negb usable then mret None
  else
  there ← on_fs (fs_exists directory);
  made ← (if there : bool then mret true else on_fs (fs_mkdir directory));
  if negb made then mret None
  else
  now ← milliseconds;
  free_path (Z.to_nat 1000) directory prefix suffix (if now =? 0 then 1 else now).

Definition irisArtifactsBegin : st S bool :=
  usable ← on_sd ready;
  if negb usable then mret false
  else
  a ← on_fs (fs_exists (str "/samples"));
  samples ← (if a : bool then mret true else on_fs (fs_mkdir (str "/samples")));
  b ← on_fs (fs_exists (str "/noob"));
  metadata ← (if b : bool then mret true else on_fs (fs_mkdir (str "/noob")));
  if negb samples || negb metadata then mret false
  else
  let path := str "/noob/runtime_iris.txt" in
  opened ← on_fs (fs_create path);
  if negb opened then mret false
  else on_fs (println path (str "name=Iris")) ;; on_fs (println path (str "artifact_schema=1")) ;; mret true.

Definition irisStoreIrCapture (pulses : list (Z * Z)) (symbols : nat) (full : bool) : st S NativeResult :=
  if (length pulses =? 0)%nat then mret (failure (str "empty IR frame"))
  else
  found ← artifactPath (str "/samples") (str "ir_raw_") (str ".csv");
  match found with
  | None => mret (failure (str "cannot allocate IR capture artifact"))
  | Some (timestamp, path) =>
      opened ← on_fs (fs_create path);
      if negb opened then mret (failure (str "cannot create IR capture artifact"))
      else on_fs (write_capture path timestamp pulses symbols full)
  end.

Context `{HasIr S} (settings : ir_config).

(** The file is named in front of the details. *)
Definition with_path (path : bytes) (r : NativeResult) : NativeResult :=
  if ok r then Result (ok r) (value r) (str "path=" ++ path ++ str " " ++ detail r) (record r) else r.

(** Reading the rows of a capture whose file is open. *)
Definition replay_file (path : bytes) (timestamp repeats : Z) : st S (option NativeResult) :=
  h ← on_fs (read_line path 0);
  let '(header, pos) := h : bytes * Z in
  if negb (bytes_eqb (trim header) capture_header) then mret (Some (failure (str "invalid IR capture header")))
  else
  memory ← allocate;
  if negb memory then mret (Some (failure (str "insufficient IR replay memory")))
  else
  fuel ← on_fs (turns path);
  rows ← on_fs (replay_rows fuel path timestamp pos []);
  match rows with
  | None => mret None
  | Some (inl e) => mret (Some (failure e))
  | Some (inr (pulses, pos)) =>
      overflow ← on_fs (fs_available path pos);
      if overflow : bool then mret (Some (failure (str "IR capture exceeds replay buffer")))
      else
      r ← replayEnvelope settings pulses repeats;
      mret (Some (with_path path r))
  end.

(** [None] when the loop over the file does not end. *)
Definition irisIrReplay (arguments : list Z) : st S (option NativeResult) :=
  let usage := mret (Some (failure (str "usage: timestamp [repeats(1..20)]"))) in
  let replay timestamp repeats :=
    if (timestamp <=? 0) || (repeats <? 1) || (20 <? repeats) then usage
    else
    let path := capture_path timestamp in
    opened ← on_fs (fs_open path);
    match opened with
    | None => mret (Some (failure (str "IR capture not found")))
    | Some _ => replay_file path timestamp repeats
    end in
  match arguments with
  | [timestamp] => replay timestamp 1
  | [timestamp; repeats] => replay timestamp repeats
  | _ => usage
  end.

Definition irisIrCaptureInspect (arguments : list Z) : st S (option NativeResult) :=
  let usage := mret (Some (failure (str "usage: timestamp [start_index]"))) in
  let inspect timestamp start :=
    if (timestamp <=? 0) || (start <? 0) then usage
    else
    let path := capture_path timestamp in
    opened ← on_fs (fs_open path);
    match opened with
    | None => mret (Some (failure (str "IR capture not found")))
    | Some _ =>
        h ← on_fs (read_line path 0);
        fuel ← on_fs (turns path);
        rows ← on_fs (inspect_rows fuel path start (snd h) 0 0 []);
        mret (match rows with
              | None => None
              | Some (inl e) => Some (failure e)
              | Some (inr (emitted, values)) =>
                  Some (result true (Z.of_nat emitted)
                          (str "path=" ++ path ++ str " start=" ++ print_nat start ++ str " edges=" ++ values))
              end)
    end in
  match arguments with
  | [timestamp] => inspect timestamp 0
  | [timestamp; start] => inspect timestamp start
  | _ => usage
  end.

(** ** Snapshots *)

Context (captureNamed : bytes -> Z -> st S NativeResult) (scanToCsv : bytes -> st S NativeResult)
  (ir_send ir_read : list Z -> st S NativeResult) (dht_sample : st S (NativeResult * (Z * Z))).
Context `{!HasEnvironment S}.

Definition IR_THREAD_WINDOW_MS : Z := 100.

Definition irisCameraSequenceStep (arguments : list Z) : st S NativeResult :=
  match arguments with
  | [enabled] =>
      if (enabled <? 0) || (1 <? enabled) then mret (failure (str "usage: enabled(0|1)"))
      else if enabled =? 0 then mret (result true 0 (str "skipped=1"))
      else
      found ← artifactPath (str "/captured") (str "cam_seq_") (str ".jpg");
      match found with
      | None => mret (failure (str "cannot allocate camera artifact"))
      | Some (timestamp, _) => captureNamed (str "cam_seq_") timestamp
      end
  | _ => mret (failure (str "usage: enabled(0|1)"))
  end.

(** [timestamp,value,detail] of a result. *)
Definition result_row (timestamp : Z) (r : NativeResult) : bytes :=
  print_nat timestamp ++ str "," ++ print_int (value r) ++ str "," ++ detail r.

Definition irisIrSequenceStep (arguments : list Z) : st S NativeResult :=
  match arguments with
  | [_; _; enabled] =>
      if (enabled <? 0) || (1 <? enabled) then mret (failure (str "usage: duration_ms frequency_hz enabled(0|1)"))
      else
      sent ← ir_send arguments;
      if negb (ok sent) || (enabled =? 0) then mret sent
      else
      found ← artifactPath (str "/samples") (str "ir_tx_") (str ".csv");
      match found with
      | None => mret (failure (str "cannot allocate IR transmit artifact"))
      | Some (timestamp, path) =>
          on_fs (writeRecord path (str "time_ms,rx_low_samples,detail") (result_row timestamp sent) timestamp)
      end
  | _ => mret (failure (str "usage: duration_ms frequency_hz enabled(0|1)"))
  end.

Definition record_of (l : list (bytes * Z)) : EspRecord.NoobRecord :=
  fold_left (fun r f => (EspRecord.add r f.1 f.2).2) l EspRecord.empty_record.

Definition irisRssiSnapshot (arguments : list Z) : st S NativeResult :=
  match arguments with
  | _ :: _ => mret (failure (str "usage: no arguments"))
  | [] =>
      found ← artifactPath (str "/samples") (str "rssi_") (str ".csv");
      match found with
      | None => mret (failure (str "cannot allocate RSSI artifact"))
      | Some (timestamp, path) =>
          scan ← scanToCsv path;
          mret (if negb (ok scan) then scan
                else Result true (i32 timestamp) (str "path=" ++ path ++ str " " ++ detail scan)
                       (record_of [(str "time_ms", i32 timestamp); (str "networks", value scan)]))
      end
  end.

Definition irisIrSnapshot (arguments : list Z) : st S NativeResult :=
  match arguments with
  | _ :: _ => mret (failure (str "usage: no arguments"))
  | [] =>
      scan ← ir_read [IR_THREAD_WINDOW_MS];
      if negb (ok scan) then mret scan
      else
      found ← artifactPath (str "/samples") (str "ir_rx_") (str ".csv");
      match found with
      | None => mret (failure (str "cannot allocate IR receive artifact"))
      | Some (timestamp, path) =>
          on_fs (writeRecord path (str "time_ms,edges,detail") (result_row timestamp scan) timestamp)
      end
  end.

Definition irisEnvSnapshot (arguments : list Z) : st S NativeResult :=
  match arguments with
  | _ :: _ => mret (failure (str "usage: no arguments"))
  | [] =>
      sample ← dht_sample;
      let '(r, (temperature, humidity)) := sample : NativeResult * (Z * Z) in
      if negb (ok r) then mret r
      else
      found ← artifactPath (str "/samples") (str "env_") (str ".csv");
      match found with
      | None => mret (failure (str "cannot allocate environment artifact"))
      | Some (timestamp, path) =>
          stored ← on_fs (writeRecord path (str "time_ms,temperature_tenths_c,humidity_tenths_pct")
                     (print_nat timestamp ++ str "," ++ print_int temperature ++ str "," ++ print_int humidity) timestamp);
          if negb (ok stored) then mret stored
          else
          modify (put_env (Environment temperature humidity true)) ;;
          mret (Result true (value stored) (detail stored)
                  (record_of [(str "time_ms", i32 timestamp); (str "temperature", temperature); (str "humidity", humidity)]))
      end
  end.

(** The last sample, for ENV_TEMPERATURE and ENV_HUMIDITY. *)
Definition env_value (f : environment -> Z) (unit_text : bytes) (arguments : list Z) : st S NativeResult :=
  match arguments with
  | _ :: _ => mret (failure (str "usage: no arguments"))
  | [] => e ← gets env_of;
          mret (if negb (haveEnvironment e) then failure (str "no environment sample")
                else result true (f e) unit_text)
  end.
Definition irisEnvTemperature := env_value latestTemperature (str "unit=tenths_c").
Definition irisEnvHumidity := env_value latestHumidity (str "unit=tenths_pct").
End device.
End IrisArtifacts.
