(* ===== verification/EspWifi.v ===== *)
(** * The Wi-Fi service

    Esp32WifiService.cpp: scans, the credentials kept in flash, the connection and
    the background service that reports one network per turn of the main loop.
    The radio and the flash store are library code and an interface.  Credentials
    that have been set are used after the next start, and every network of a scan
    is reported exactly once. *)
From S2P Require Import Prelude CLib EspRecord EspRegistry EspVm EspThreads EspCard EspSd EspStore EspDispatch EspIrCapture EspIrReplay IrisArtifacts.

Open Scope Z_scope.

Module EspWifi.
Import EspRecord EspRegistry EspVm EspThreads EspCard EspSd EspStore EspDispatch Capture IrReplay.

Record wifi := Wifi {
  scanCount : Z; scanTimeMs : Z; gathering : bool; scanRunning : bool; nextScanAt : Z; scanSequence : Z; emitIndex : Z;
  savedSsid : bytes; savedPassword : bytes }.
Definition wifi_init : wifi := Wifi (-1) 0 false false 0 0 0 [] [].

Definition set_scan (count time : Z) (w : wifi) : wifi :=
  Wifi count time (gathering w) (scanRunning w) (nextScanAt w) (scanSequence w) (emitIndex w) (savedSsid w) (savedPassword w).
Definition set_saved (ssid password : bytes) (w : wifi) : wifi :=
  Wifi (scanCount w) (scanTimeMs w) (gathering w) (scanRunning w) (nextScanAt w) (scanSequence w) (emitIndex w) ssid password.
Definition set_gathering (on scanning : bool) (w : wifi) : wifi :=
  Wifi (scanCount w) (scanTimeMs w) on scanning (nextScanAt w) (scanSequence w) (emitIndex w) (savedSsid w) (savedPassword w).
Definition set_next_scan (at_ : Z) (w : wifi) : wifi :=
  Wifi (scanCount w) (scanTimeMs w) (gathering w) (scanRunning w) at_ (scanSequence w) (emitIndex w) (savedSsid w) (savedPassword w).
(** A scan has ended with [count] networks. *)
Definition set_scanned (count : Z) (w : wifi) : wifi :=
  Wifi count (scanTimeMs w) (gathering w) false (nextScanAt w) (u32 (scanSequence w + 1)) 0 (savedSsid w) (savedPassword w).
Definition set_emit (k : Z) (w : wifi) : wifi :=
  Wifi (scanCount w) (scanTimeMs w) (gathering w) (scanRunning w) (nextScanAt w) (scanSequence w) k (savedSsid w) (savedPassword w).

(** [WL_CONNECTED] and [WIFI_SCAN_RUNNING] of the library. *)
Definition WL_CONNECTED : Z := 3.
Definition WIFI_SCAN_RUNNING : Z := -1.

(** The radio, and the flash store ([Preferences]) behind the credentials. *)
Class HasWifi (S : Type) := {
  wifi_of : S -> wifi;
  put_wifi : wifi -> S -> S;
  radio_station : st S unit;                    (** [mode(WIFI_STA)] *)
  radio_disconnect : st S unit;
  radio_begin : bytes -> bytes -> st S unit;
  radio_status : st S Z;
  radio_rssi : st S Z;
  radio_address : st S bytes;
  scanDelete : st S unit;
  scanNetworks : bool -> st S Z;                (** asynchronous or not *)
  scanComplete : st S Z;
  net_rssi : Z -> st S Z;
  net_ssid : Z -> st S bytes;
  net_channel : Z -> st S Z;
  net_encryption : Z -> st S Z;
  net_bssid : Z -> st S bytes;
  prefs_begin : st S unit;
  getString : bytes -> st S (option bytes);     (** [None]: the key is absent *)
  putString : bytes -> bytes -> st S unit }.

(** ** Text *)

Definition hexNibble (value : byte) : Z :=
  if (48 <=? value) && (value <=? 57) then value - 48
  else if (65 <=? value) && (value <=? 70) then value - 55
  else if (97 <=? value) && (value <=? 102) then value - 87
  else -1.

(** The pairs of a text of even length. *)
Fixpoint decode_pairs (hex : bytes) : option bytes :=
  match hex with
  | h :: l :: rest =>
      if (hexNibble h <? 0) || (hexNibble l <? 0) then None
      else out ← decode_pairs rest; Some (Z.lor (Z.shiftl (hexNibble h) 4) (hexNibble l) :: out)
  | _ => Some []
  end.

Definition decodeHexText (hex : bytes) : option bytes :=
  if (length hex =? 0)%nat || Nat.odd (length hex) then None else decode_pairs hex.

Definition hexText (text : bytes) : bytes := hexBytes text.

(** ** The functions *)

Section wifi.
Context {S : Type} `{HasClock S} `{!HasEpoch S} `{!HasIr S} `{!HasWifi S}.

Definition get_wifi {A} (f : wifi -> A) : st S A := gets (fun s => f (wifi_of s)).
Definition upd_wifi (f : wifi -> wifi) : st S unit := modify (fun s => put_wifi (f (wifi_of s)) s).

Definition key_ssid : bytes := str "ssid".
Definition key_password : bytes := str "password".

Definition store_credentials (ssid password : bytes) : st S unit :=
  upd_wifi (set_saved ssid password) ;; putString key_ssid ssid ;; putString key_password password.

(** The defaults are pointers that may be null. *)
Definition wifi_begin (defaultSsid defaultPassword : option bytes) : st S bool :=
  radio_station ;;
  radio_disconnect ;;
  prefs_begin ;;
  ssid ← getString key_ssid;
  password ← getString key_password;
  upd_wifi (set_saved (default [] ssid) (default [] password)) ;;
  (match default [] ssid, defaultSsid with
   | [], Some (c :: rest) => store_credentials (c :: rest) (default [] defaultPassword)
   | _, _ => mret tt
   end) ;;
  mret true.

Definition startAutoConnect : st S bool :=
  w ← get_wifi (fun w => w);
  if (length (savedSsid w) =? 0)%nat then mret false
  else radio_begin (savedSsid w) (savedPassword w) ;; mret true.

(** [while (status != WL_CONNECTED && millis() - started < timeout) delay(50)]. *)
Fixpoint wait_connected (turns : nat) (started timeout : Z) : st S (option unit) :=
  match turns with
  | O => mret None
  | Datatypes.S k =>
      linked ← radio_status;
      if linked =? WL_CONNECTED then mret (Some tt)
      else now ← millis;
           if timeout <=? u32 (now - started) then mret (Some tt)
           else delay 50 ;; wait_connected k started timeout
  end.

Definition constrain (v low high : Z) : Z := if v <? low then low else if high <? v then high else v.

Definition wifi_connect (turns : nat) (arguments : list Z) : st S (option NativeResult) :=
  w ← get_wifi (fun w => w);
  if (length (savedSsid w) =? 0)%nat then mret (Some (failure (str "Wi-Fi credentials not set")))
  else
  let timeout := match arguments with a :: _ => constrain a 1000 30000 | [] => 15000 end in
  upd_wifi (set_gathering false (scanRunning w)) ;;
  (if scanRunning w then scanDelete else mret tt) ;;
  upd_wifi (set_gathering false false) ;;
  radio_begin (savedSsid w) (savedPassword w) ;;
  started ← millis;
  waited ← wait_connected turns started timeout;
  match waited with
  | None => mret None
  | Some _ =>
      linked ← radio_status;
      if negb (linked =? WL_CONNECTED) then
        code ← radio_status; mret (Some (result false code (str "connect timeout ssid_hex=" ++ hexText (savedSsid w))))
      else
      level ← radio_rssi;
      address ← radio_address;
      mret (Some (result true level (str "ssid_hex=" ++ hexText (savedSsid w) ++ str " ip=" ++ address)))
  end.

Definition wifi_disconnect (_ : list Z) : st S NativeResult :=
  radio_disconnect ;; mret (result true 0 (str "disconnected credentials_preserved=1")).

Definition wifi_status (_ : list Z) : st S NativeResult :=
  status ← radio_status;
  let linked := status =? WL_CONNECTED in
  level ← (if linked then radio_rssi else mret 0);
  configured ← get_wifi (fun w => negb (length (savedSsid w) =? 0)%nat);
  address ← (if linked then a ← radio_address; mret (str " ip=" ++ a) else mret []);
  mret (result true level (str "connected=" ++ flag_text linked ++ str " configured=" ++ flag_text configured ++ address)).

Definition wifi_setCredentials (arguments : bytes) : st S NativeResult :=
  let '(first, rest) := span (Z.eqb SP) arguments in
  match first, rest with
  | _ :: _, _ :: second =>
      match decodeHexText first, decodeHexText second with
      | Some ssid, Some password =>
          if (32 <? length ssid)%nat || (63 <? length password)%nat then mret (failure (str "invalid hex or credential length"))
          else store_credentials ssid password ;;
               mret (result true 1 (str "updated ssid_hex=" ++ hexText ssid))
      | _, _ => mret (failure (str "invalid hex or credential length"))
      end
  | _, _ => mret (failure (str "usage: SSID_HEX PASSWORD_HEX"))
  end.

Definition gathering_active : NativeResult := failure (str "RSSI gathering is active").

(** A scan that the call waits for; [inl] is the error. *)
Definition scan_now : st S (NativeResult + Z) :=
  busy ← get_wifi gathering;
  if busy : bool then mret (inl gathering_active)
  else
  scanDelete ;;
  count ← scanNetworks false;
  upd_wifi (fun w => set_scan count (scanTimeMs w) w) ;;
  if count <? 0 then mret (inl (result false count (str "scan failed")))
  else now ← milliseconds; upd_wifi (set_scan count now) ;; mret (inr count).

Definition wifi_scan (_ : list Z) : st S NativeResult :=
  r ← scan_now;
  match r with inl e => mret e | inr count => mret (result true count (str "networks=" ++ print_int count)) end.

Definition wifi_rssi (arguments : list Z) : st S NativeResult :=
  if (1 <? length arguments)%nat then mret (failure (str "usage: [network_index]"))
  else
  w ← get_wifi (fun w => w);
  if scanCount w <? 0 then mret (failure (str "run WIFI_SCAN first"))
  else
  let index := nth 0 arguments 0 in
  if (index <? 0) || (scanCount w <=? index) then mret (failure (str "network index out of range"))
  else
  v ← net_rssi index;
  c ← net_channel index;
  let rec := IrisArtifacts.record_of
               [(str "value", v); (str "time_ms", i32 (scanTimeMs w)); (str "index", index); (str "channel", c)] in
  level ← net_rssi index;
  ssid ← net_ssid index;
  channel ← net_channel index;
  encryption ← net_encryption index;
  mret (Result true level (str "index=" ++ print_int index ++ str " ssid_hex=" ++ hexText ssid ++ str " channel=" ++ print_int channel
                           ++ str " encryption=" ++ print_int encryption) rec).

Definition rssiOn (_ : list Z) : st S NativeResult :=
  w ← get_wifi (fun w => w);
  if gathering w then mret (result true 1 (str "already_on interval_ms=1000"))
  else
  scanDelete ;;
  now ← millis;
  upd_wifi (fun w => set_gathering true false (set_next_scan now (set_emit 0 (set_scan (-1) (scanTimeMs w) w)))) ;;
  mret (result true 1 (str "on interval_ms=1000")).

Definition rssiOff (_ : list Z) : st S NativeResult :=
  w ← get_wifi (fun w => w);
  upd_wifi (set_gathering false (scanRunning w)) ;;
  (if scanRunning w then scanDelete else mret tt) ;;
  upd_wifi (fun w => set_gathering false false (set_emit 0 (set_scan (-1) (scanTimeMs w) w))) ;;
  mret (result true 0 (str "off")).

(** A scan into a file of the card; a row per network. *)
Fixpoint scan_rows {C} `{!HasStore S C} `{CardOps C} (path : bytes) (todo : nat) (index : Z) : st S unit :=
  match todo with
  | O => mret tt
  | Datatypes.S k =>
      level ← net_rssi index;
      channel ← net_channel index;
      encryption ← net_encryption index;
      ssid ← net_ssid index;
      bssid ← net_bssid index;
      on_fs (fs_append path (print_int index ++ str "," ++ print_int level ++ str "," ++ print_int channel ++ str "," ++ print_int encryption
                             ++ str "," ++ hexText ssid ++ str "," ++ bssid ++ [NL])) ;;
      scan_rows path k (index + 1)
  end.

Definition scanToCsv {C} `{!HasStore S C} `{CardOps C} (path : bytes) : st S NativeResult :=
  r ← scan_now;
  match r with
  | inl e => mret e
  | inr count =>
      opened ← on_fs (fs_create path);
      if negb opened then mret (failure (str "cannot create RSSI sample"))
      else
      on_fs (IrisArtifacts.println path (str "index,rssi,channel,encryption,ssid_hex,bssid")) ;;
      scan_rows path (Z.to_nat count) 0 ;;
      mret (result true count (str "networks=" ++ print_int count ++ str " path=" ++ path))
  end.

(** ** The background service *)

Definition rssi_event (sequence index rssi : Z) (ssid : bytes) (channel : Z) : bytes :=
  str "NRP/1 0 EVENT RSSI scan=" ++ print_nat sequence ++ str " index=" ++ print_int index ++ str " rssi=" ++ print_int rssi
  ++ str " ssid_hex=" ++ hexText ssid ++ str " channel=" ++ print_int channel.

(** One network of the last scan, or the next scan when its time has come. *)
Definition rssi_emit : st S (option bytes) :=
  w ← get_wifi (fun w => w);
  if emitIndex w <? scanCount w then
    let index := emitIndex w in
    upd_wifi (set_emit (index + 1)) ;;
    rssi ← net_rssi index;
    ssid ← net_ssid index;
    channel ← net_channel index;
    (if index + 1 =? scanCount w then now ← millis; upd_wifi (set_next_scan (u32 (now + 1000))) else mret tt) ;;
    mret (Some (rssi_event (scanSequence w) index rssi ssid channel))
  else
  now ← millis;
  if 0 <=? i32 (u32 (now - nextScanAt w)) then
    scanDelete ;; scanNetworks true ;; upd_wifi (set_gathering (gathering w) true) ;; mret None
  else mret None.

Definition rssi_tick : st S (option bytes) :=
  w ← get_wifi (fun w => w);
  if negb (gathering w) then mret None
  else if scanRunning w then
    found ← scanComplete;
    if found =? WIFI_SCAN_RUNNING then mret None
    else
    upd_wifi (set_scanned (if found <? 0 then 0 else found)) ;;
    w ← get_wifi (fun w => w);
    if scanCount w =? 0 then
      now ← millis;
      upd_wifi (set_next_scan (u32 (now + 1000))) ;;
      mret (Some (str "NRP/1 0 EVENT RSSI scan=" ++ print_nat (scanSequence w) ++ str " networks=0"))
    else rssi_emit
  else rssi_emit.
End wifi.
End EspWifi.
