(* ===== verification/EspWifiFacts.v ===== *)
(** * Credentials survive, and scans are reported once

    What is set through WIFI_CREDENTIALS_SET is what the service uses after the
    next start, and the background service reports every network of a scan exactly
    once and in order. *)
From S2P Require Import Prelude CLib EspRecord EspRegistry EspVm EspThreads EspSd EspDispatch EspIrCapture EspIrReplay EspWifi.

Open Scope Z_scope.

Module EspWifiFacts.
Import EspRecord EspRegistry EspVm EspThreads EspSd EspDispatch Capture IrReplay EspWifi.

#[local] Arguments str : simpl never.

(** ** Hexadecimal text *)

Lemma nibble_digit v : 0 <= v < 16 -> hexNibble (nth (Z.to_nat v) hex_digits 0) = v.
Proof.
  intros Hv. assert (C : v ∈ seqZ 0 16) by (apply elem_of_seqZ; lia). clear Hv. revert v C.
  apply Forall_forall, (bool_decide_unpack _). vm_compute. exact I.
Qed.

Lemma digit_not_space v : nth (Z.to_nat v) hex_digits 0 <> SP.
Proof.
  destruct (Nat.lt_ge_cases (Z.to_nat v) 16) as [Hv|Hv]; [|rewrite nth_overflow; [done|exact Hv]].
  assert (C : Z.to_nat v ∈ seq 0 16) by (apply elem_of_seq; lia). revert C. generalize (Z.to_nat v).
  apply Forall_forall, (bool_decide_unpack _). vm_compute. exact I.
Qed.

Lemma hexText_cons c text : hexText (c :: text)
  = nth (Z.to_nat (Z.shiftr c 4)) hex_digits 0 :: nth (Z.to_nat (Z.land c 15)) hex_digits 0 :: hexText text.
Proof. done. Qed.

Lemma hexText_length text : length (hexText text) = (2 * length text)%nat.
Proof. induction text as [|c text IH]; [done|]. rewrite hexText_cons. cbn [length]. lia. Qed.

Lemma decode_pairs_hex text : bytes_ok text -> decode_pairs (hexText text) = Some text.
Proof.
  induction 1 as [|c text Hc _ IH]; [done|]. rewrite hexText_cons. cbn [decode_pairs].
  destruct (nibbles c Hc) as (N1 & N2 & N3). rewrite !nibble_digit by done.
  rewrite !(proj2 (Z.ltb_ge _ _)) by lia. cbn [orb]. rewrite IH. cbn [mbind option_bind].
  rewrite lor_shiftl by (change (2 ^ 4) with 16; lia). change (2 ^ 4) with 16. by rewrite N3.
Qed.

Lemma decodeHexText_hex text : bytes_ok text -> text <> [] -> decodeHexText (hexText text) = Some text.
Proof.
  intros Hb Hn. unfold decodeHexText. rewrite hexText_length, Nat.odd_mul. cbn [Nat.odd negb Nat.even andb orb].
  destruct text as [|c text]; [done|]. cbn [length Nat.mul Nat.add Nat.eqb orb]. by apply decode_pairs_hex.
Qed.

Lemma hexText_plain text : Forall (fun c => (SP =? c) = false) (hexText text).
Proof.
  induction text as [|c text IH]; [by apply Forall_nil|]. rewrite hexText_cons.
  repeat (apply Forall_cons; split; [apply Z.eqb_neq; symmetry; apply digit_not_space|]). done.
Qed.

(** ** The device *)

(** Commands of the radio leave the service's variables and the flash alone. *)
Class WifiDevice (S : Type) `{HasClock S} `{!HasIr S} `{!HasWifi S} := {
  stored : S -> bytes -> option bytes;
  wifi_of_put w s : wifi_of (put_wifi w s) = w;
  stored_put w s : stored (put_wifi w s) = stored s;
  wifi_view (s : S) := (wifi_of s, stored s);
  millis_wifi s : wifi_view (millis s).2 = wifi_view s;
  station_wifi s : wifi_view (radio_station s).2 = wifi_view s;
  disconnect_wifi s : wifi_view (radio_disconnect s).2 = wifi_view s;
  prefs_wifi s : wifi_view (prefs_begin s).2 = wifi_view s;
  delete_wifi s : wifi_view (scanDelete s).2 = wifi_view s;
  scan_wifi b s : wifi_view (scanNetworks b s).2 = wifi_view s;
  complete_wifi s : wifi_view (scanComplete s).2 = wifi_view s;
  rssi_wifi i s : wifi_view (net_rssi i s).2 = wifi_view s;
  ssid_wifi i s : wifi_view (net_ssid i s).2 = wifi_view s;
  channel_wifi i s : wifi_view (net_channel i s).2 = wifi_view s;
  get_wifi_view k s : wifi_view (getString k s).2 = wifi_view s;
  get_stored k s : (getString k s).1 = stored s k;
  put_wifi_of k v s : wifi_of (putString k v s).2 = wifi_of s;
  put_stored k v s k' : stored (putString k v s).2 k' = if decide (k' = k) then Some v else stored s k' }.

Section facts.
Context {S : Type} `{WifiDevice S} `{!HasEpoch S}.

(** Run a command that leaves the view alone. *)
Lemma view_step {A} (m : st S A) s w f : (forall s, wifi_view (m s).2 = wifi_view s) -> wifi_of s = w -> stored s = f ->
  exists a s', m s = (a, s') /\ wifi_of s' = w /\ stored s' = f.
Proof. intros Hm Hw Hf. specialize (Hm s). destruct (m s) as [a s']. unfold wifi_view in Hm. cbn in Hm. injection Hm as E1 E2. exists a, s'. by rewrite E1, E2. Qed.

Lemma store_credentials_run ssid password s :
  let s' := (store_credentials ssid password s).2 in
  wifi_of s' = set_saved ssid password (wifi_of s) /\ stored s' key_ssid = Some ssid /\ stored s' key_password = Some password.
Proof.
  cbv zeta. unfold store_credentials. rewrite st_bind_run. cbn [upd_wifi modify snd]. rewrite st_bind_run.
  rewrite !put_wifi_of, wifi_of_put, !put_stored. rewrite decide_False by (vm_compute; discriminate). by rewrite !decide_True by done.
Qed.

(** credentials that are accepted survive a restart: whatever SSID of 1 to 32
    bytes and password of 1 to 63 bytes are set in hexadecimal, the call reports
    success, and when the service starts again with the same flash it uses exactly
    them, whatever defaults the firmware was built with. *)
Theorem wifi_credentials_survive (ssid password : bytes) (s : S) :
  bytes_ok ssid -> bytes_ok password -> (0 < length ssid <= 32)%nat -> (0 < length password <= 63)%nat ->
  let '(r, s1) := wifi_setCredentials (hexText ssid ++ SP :: hexText password) s in
  ok r = true /\ savedSsid (wifi_of s1) = ssid /\ savedPassword (wifi_of s1) = password
  /\ forall s2 defaultSsid defaultPassword, stored s2 = stored s1 ->
     let w := wifi_of (wifi_begin defaultSsid defaultPassword s2).2 in savedSsid w = ssid /\ savedPassword w = password.
Proof.
  intros B1 B2 L1 L2. unfold wifi_setCredentials.
  rewrite (span_prefix (Z.eqb SP)) by (apply hexText_plain || done).
  assert (N1 : ssid <> []) by (by destruct ssid; cbn in L1; [lia|]). assert (N2 : password <> []) by (by destruct password; cbn in L2; [lia|]).
  rewrite !decodeHexText_hex by done.
  destruct (hexText ssid) as [|x y] eqn:Ex; [by destruct ssid|]. rewrite <- Ex. clear Ex x y.
  rewrite !(proj2 (Nat.ltb_ge _ _)) by lia. cbn [orb]. rewrite st_bind_run.
  destruct (store_credentials_run ssid password s) as (E1 & E2 & E3). destruct (store_credentials ssid password s) as [u s1].
  cbn [fst snd mret st_ret] in *. rewrite E1. split_and!; try done. intros s2 dS dP Hf. cbv zeta.
  unfold wifi_begin. do 3 rewrite st_bind_run.
  destruct (view_step radio_station s2 _ _ station_wifi eq_refl eq_refl) as (? & a1 & -> & _ & F1). cbn [snd].
  destruct (view_step radio_disconnect a1 _ _ disconnect_wifi eq_refl F1) as (? & a2 & -> & _ & F2). cbn [snd].
  destruct (view_step prefs_begin a2 _ _ prefs_wifi eq_refl F2) as (? & a3 & -> & _ & F3). cbn [snd].
  rewrite st_bind_run. pose proof (get_stored key_ssid a3) as G1. destruct (view_step (getString key_ssid) a3 _ _ (get_wifi_view _) eq_refl F3) as (g1 & a4 & Eg & _ & F4).
  rewrite Eg in *. cbn [fst snd] in *. subst g1. rewrite st_bind_run. pose proof (get_stored key_password a4) as G2.
  destruct (view_step (getString key_password) a4 _ _ (get_wifi_view _) eq_refl F4) as (g2 & a5 & Eg2 & _ & F5).
  rewrite Eg2 in *. cbn [fst snd] in *. subst g2. rewrite F3, F4, Hf, E2, E3. cbn [default]. rewrite st_bind_run. cbn [upd_wifi modify snd].
  destruct ssid as [|c0 rest]; [done|]. rewrite st_bind_run. cbn [Datatypes.id mret st_ret fst snd]. rewrite wifi_of_put. done.
Qed.

(** ** The background service *)

(** Results of [n] turns. *)
Fixpoint rssi_turns (n : nat) : st S (list (option bytes)) :=
  match n with
  | O => mret []
  | Datatypes.S k => e ← rssi_tick; l ← rssi_turns k; mret (e :: l)
  end.

(** Network [i] of [n] of scan [k] is next. *)
Definition reporting (n k i : Z) (w : wifi) : Prop :=
  gathering w = true /\ scanRunning w = false /\ scanCount w = n /\ scanSequence w = k /\ emitIndex w = i.

Definition reports (k i : Z) (e : option bytes) : Prop := exists rssi ssid channel, e = Some (rssi_event k i rssi ssid channel).

Lemma rssi_emit_next n k i s : reporting n k i (wifi_of s) -> i < n ->
  reports k i (rssi_emit s).1 /\ reporting n k (i + 1) (wifi_of (rssi_emit s).2).
Proof.
  intros (W1 & W2 & W3 & W4 & W5) Hi. unfold rssi_emit. rewrite st_bind_run. cbn [get_wifi gets fst snd]. rewrite W3, W5.
  rewrite (proj2 (Z.ltb_lt i n) Hi). rewrite st_bind_run. cbn [upd_wifi modify snd]. set (s1 := put_wifi _ s).
  assert (E1 : wifi_of s1 = set_emit (i + 1) (wifi_of s)) by apply wifi_of_put. clearbody s1.
  rewrite st_bind_run. destruct (view_step (net_rssi i) s1 _ _ (rssi_wifi i) E1 eq_refl) as (r & s2 & -> & E2 & _). cbn [fst snd].
  rewrite st_bind_run. destruct (view_step (net_ssid i) s2 _ _ (ssid_wifi i) E2 eq_refl) as (ssid & s3 & -> & E3 & _). cbn [fst snd].
  rewrite st_bind_run. destruct (view_step (net_channel i) s3 _ _ (channel_wifi i) E3 eq_refl) as (ch & s4 & -> & E4 & _). cbn [fst snd].
  rewrite st_bind_run. cbn [mret st_ret fst snd]. split; [by exists r, ssid, ch; rewrite W4|]. destruct (_ =? _).
  - rewrite st_bind_run. destruct (view_step millis s4 _ _ millis_wifi E4 eq_refl) as (now & s5 & -> & E5 & _). cbn [fst snd upd_wifi modify].
    rewrite wifi_of_put, E5. done.
  - cbn [mret st_ret snd]. by rewrite E4.
Qed.

Lemma rssi_tick_next n k i s : reporting n k i (wifi_of s) -> i < n ->
  reports k i (rssi_tick s).1 /\ reporting n k (i + 1) (wifi_of (rssi_tick s).2).
Proof.
  intros W Hi. pose proof W as (W1 & W2 & _). unfold rssi_tick. rewrite st_bind_run. cbn [get_wifi gets fst snd]. rewrite W1, W2. cbn [negb].
  by apply rssi_emit_next.
Qed.

Lemma rssi_tick_idle n k s : reporting n k n (wifi_of s) -> (rssi_tick s).1 = None.
Proof.
  intros (W1 & W2 & W3 & W4 & W5). unfold rssi_tick, rssi_emit. rewrite st_bind_run. cbn [get_wifi gets fst snd]. rewrite W1, W2. cbn [negb].
  rewrite st_bind_run. cbn [get_wifi gets fst snd]. rewrite W3, W5, Z.ltb_irrefl, st_bind_run. destruct (0 <=? _); [|done]. by run_st.
Qed.

Lemma rssi_turns_report n k m : forall i s, reporting n k i (wifi_of s) -> 0 <= i -> i + Z.of_nat m <= n ->
  let '(l, s') := rssi_turns m s in
  length l = m /\ (forall j, (j < m)%nat -> exists e, l !! j = Some e /\ reports k (i + Z.of_nat j) e) /\ reporting n k (i + Z.of_nat m) (wifi_of s').
Proof.
  induction m as [|m IH]; intros i s W Hi Hn; cbn [rssi_turns].
  { split_and!; [done|intros j Hj; lia|]. by rewrite Z.add_0_r. }
  destruct (rssi_tick_next n k i s W ltac:(lia)) as [R W']. rewrite st_bind_run. destruct (rssi_tick s) as [e s1]. cbn [fst snd] in *.
  rewrite st_bind_run. specialize (IH (i + 1) s1 W' ltac:(lia) ltac:(lia)). destruct (rssi_turns m s1) as [l s2]. cbn [fst snd mret st_ret].
  destruct IH as (L & R' & W''). split_and!; [cbn; lia| |].
  - intros [|j] Hj; [exists e; split; [done|]; by rewrite Z.add_0_r|]. destruct (R' j ltac:(lia)) as (e' & E & R2). exists e'. split; [done|].
    by replace (i + Z.of_nat (Datatypes.S j)) with (i + 1 + Z.of_nat j) by lia.
  - by replace (i + Z.of_nat (Datatypes.S m)) with (i + 1 + Z.of_nat m) by lia.
Qed.

(** when a background scan has found [n] networks, the next [n] turns report
    them, each exactly once, in order and under the number of the scan, and the
    turn after that reports nothing. *)
Theorem rssi_scan_reported (n : Z) (s : S) :
  gathering (wifi_of s) = true -> scanRunning (wifi_of s) = true -> (scanComplete s).1 = n -> 0 < n ->
  let '(l, s') := rssi_turns (Z.to_nat n) s in
  length l = Z.to_nat n
  /\ (forall j, (j < Z.to_nat n)%nat -> exists e, l !! j = Some e /\ reports (u32 (scanSequence (wifi_of s) + 1)) (Z.of_nat j) e)
  /\ (rssi_tick s').1 = None.
Proof.
  intros G R Hc Hn. set (k := u32 (scanSequence (wifi_of s) + 1)).
  assert (First : reports k 0 (rssi_tick s).1 /\ reporting n k 1 (wifi_of (rssi_tick s).2)).
  { unfold rssi_tick. rewrite st_bind_run. cbn [get_wifi gets fst snd]. rewrite G, R. cbn [negb]. rewrite st_bind_run.
    destruct (view_step scanComplete s _ _ complete_wifi eq_refl eq_refl) as (found & s1 & E & W & _). rewrite E in *. cbn [fst snd] in *. subst found.
    rewrite (proj2 (Z.eqb_neq _ _)) by (unfold WIFI_SCAN_RUNNING; lia). rewrite st_bind_run. cbn [upd_wifi modify snd].
    rewrite (proj2 (Z.ltb_ge n 0)) by lia. set (s2 := put_wifi _ s1).
    assert (W2 : wifi_of s2 = set_scanned n (wifi_of s)) by (rewrite <- W; apply wifi_of_put). clearbody s2.
    rewrite st_bind_run. cbn [get_wifi gets fst snd]. rewrite W2. cbn [scanCount set_scanned]. rewrite (proj2 (Z.eqb_neq n 0)) by lia.
    apply (rssi_emit_next n k 0); [|lia]. rewrite W2. done. }
  destruct First as [F1 F2]. destruct (Z.to_nat n) as [|m] eqn:Em; [lia|]. cbn [rssi_turns]. rewrite st_bind_run.
  destruct (rssi_tick s) as [e s1]. cbn [fst snd] in *. rewrite st_bind_run.
  pose proof (rssi_turns_report n k m 1 s1 F2 ltac:(lia) ltac:(lia)) as T. destruct (rssi_turns m s1) as [l s2]. cbn [fst snd mret st_ret].
  destruct T as (L & T & W). split_and!; [cbn; lia| |].
  - intros [|j] Hj; [by exists e|]. destruct (T j ltac:(lia)) as (e' & E & R'). exists e'. split; [done|].
    by replace (Z.of_nat (Datatypes.S j)) with (1 + Z.of_nat j) by lia.
  - apply (rssi_tick_idle n k). by replace (1 + Z.of_nat m) with n in W by lia.
Qed.
End facts.

(** ** A device for the examples *)

Record radio := Radio { radio_vm : NoobVm; radio_wifi : wifi; radio_flash : gmap bytes bytes; radio_found : Z }.

#[global, refine] Instance radio_HasVm : HasVm radio :=
  {| vm_of := radio_vm; put_vm v s := Radio v (radio_wifi s) (radio_flash s) (radio_found s) |}.
Proof. all: by intros; try destruct s. Defined.

#[global, refine] Instance radio_HasClock : HasClock radio := {| millis := mret 5000 |}.
Proof. all: by intros. Defined.

#[global] Instance radio_HasIr : HasIr radio :=
  {| ir_of _ := capture_init; put_ir _ s := s; micros := mret 0; receiver := mret 1; delay _ := mret tt; allocate := mret true;
     rmtInit := mret true; rmtSetCarrier := mret true; rmtWrite _ := mret true; rmtDeinit := mret tt |}.

(** A radio that is never connected and has found so many networks. *)
#[global] Instance radio_HasWifi : HasWifi radio :=
  {| wifi_of := radio_wifi; put_wifi w s := Radio (radio_vm s) w (radio_flash s) (radio_found s);
     radio_station := mret tt; radio_disconnect := mret tt; radio_begin _ _ := mret tt; radio_status := mret 6; radio_rssi := mret (-50);
     radio_address := mret []; scanDelete := mret tt; scanNetworks _ := mret 0; scanComplete := gets radio_found;
     net_rssi i := mret (-40 - i); net_ssid i := mret [65 + i]; net_channel _ := mret 6; net_encryption _ := mret 3; net_bssid _ := mret [];
     prefs_begin := mret tt; getString k := gets (fun s => radio_flash s !! k);
     putString k v := modify (fun s => Radio (radio_vm s) (radio_wifi s) (<[k := v]> (radio_flash s)) (radio_found s)) |}.

#[global, refine] Instance radio_WifiDevice : WifiDevice radio := {| stored s k := radio_flash s !! k |}.
Proof.
  all: try done. intros k v s k'. cbn. destruct (decide (k' = k)) as [->|Hk]; [by rewrite lookup_insert_eq|by rewrite lookup_insert_ne].
Defined.

Definition new_radio : radio := Radio vm_init wifi_init ∅ 0.

Lemma wifi_credentials_survive_witness :
  let s1 := (wifi_setCredentials (str "486F6D65 7365637265742131") new_radio).2 in
  let w := wifi_of (wifi_begin (Some (str "factory")) None (Radio vm_init wifi_init (radio_flash s1) 0)).2 in
  savedSsid w = str "Home" /\ savedPassword w = str "secret!1".
Proof.
  pose proof (wifi_credentials_survive (str "Home") (str "secret!1") new_radio) as K.
  change (hexText (str "Home") ++ SP :: hexText (str "secret!1")) with (str "486F6D65 7365637265742131") in K.
  destruct (wifi_setCredentials _ new_radio) as [r s1]. destruct K as (_ & _ & _ & K).
  - apply (bool_decide_unpack _). vm_compute. exact I.
  - apply (bool_decide_unpack _). vm_compute. exact I.
  - vm_compute. lia.
  - vm_compute. lia.
  - cbv zeta. apply K. reflexivity.
Defined.

(** Three networks. *)
Lemma rssi_scan_reported_witness :
  let s := Radio vm_init (Wifi (-1) 0 true true 0 7 0 [] []) ∅ 3 in
  exists e, (rssi_turns 3 s).1 !! 2%nat = Some e /\ reports 8 2 e.
Proof.
  cbv zeta. pose proof (rssi_scan_reported 3 (Radio vm_init (Wifi (-1) 0 true true 0 7 0 [] []) ∅ 3)) as K.
  change (Z.to_nat 3) with 3%nat in K. destruct (rssi_turns 3 _) as [l s'].
  destruct K as (_ & K & _); [reflexivity|reflexivity|reflexivity|lia|]. apply (K 2%nat). lia.
Defined.
End EspWifiFacts.
