(* ===== verification/IrisIrThread.v ===== *)
(** * iris_noob/src/noobs/iris/thread_ir_capture.cpp: the infrared capture thread

    A thread that copies every frame the receiver has recorded into its buffers,
    stores it on the card and publishes a record that names the file; replaying
    and verifying the last frame; and the dictionary that gives captures names. *)
From S2P Require Import Prelude CLib EspRecord EspRegistry EspVm EspDispatch EspCard EspSd EspStore EspThreads EspIrCapture EspIrReplay IrisArtifacts.

Open Scope Z_scope.

Module IrisIrThread.
Import EspRecord EspRegistry EspVm EspDispatch EspCard EspSd EspStore EspThreads Capture IrReplay IrisArtifacts.

(** ** State *)

Definition MAX_PULSES : nat := CAPTURE_PULSE_CAPACITY.
Definition IR_THREAD_DURATION_MS : Z := 10000.
Definition UINT32_MAX : Z := 2 ^ 32 - 1.

(** [it_pulses] is [levels_] and [durationsUs_] side by side. *)
Record ir_thread := IrThread {
  it_base : NoobThread; it_pulses : list (Z * Z); durationMs_ : Z; startedAt_ : Z; frames_ : Z; pulses_ : Z;
  lastPulses_ : nat; lastMinimumUs_ : Z; lastMaximumUs_ : Z; lastCarrierHz_ : Z; captureStarted_ : bool;
  lastStorageError_ : bytes }.

Definition ir_thread_init : ir_thread :=
  IrThread (new_thread 1) (repeat (0, 0) MAX_PULSES) IR_THREAD_DURATION_MS 0 0 0 0 0 0 0 false [].

Definition set_base (b : NoobThread) (t : ir_thread) : ir_thread :=
  IrThread b (it_pulses t) (durationMs_ t) (startedAt_ t) (frames_ t) (pulses_ t) (lastPulses_ t) (lastMinimumUs_ t)
    (lastMaximumUs_ t) (lastCarrierHz_ t) (captureStarted_ t) (lastStorageError_ t).
Definition set_duration (d : Z) (t : ir_thread) : ir_thread :=
  IrThread (it_base t) (it_pulses t) d (startedAt_ t) (frames_ t) (pulses_ t) (lastPulses_ t) (lastMinimumUs_ t)
    (lastMaximumUs_ t) (lastCarrierHz_ t) (captureStarted_ t) (lastStorageError_ t).
(** What [onStart] resets. *)
Definition fresh_run (now : Z) (t : ir_thread) : ir_thread :=
  IrThread (it_base t) (it_pulses t) (durationMs_ t) now 0 0 0 0 0 0 (captureStarted_ t) [].
Definition set_started (b : bool) (t : ir_thread) : ir_thread :=
  IrThread (it_base t) (it_pulses t) (durationMs_ t) (startedAt_ t) (frames_ t) (pulses_ t) (lastPulses_ t) (lastMinimumUs_ t)
    (lastMaximumUs_ t) (lastCarrierHz_ t) b (lastStorageError_ t).
Definition set_range (lo hi : Z) (t : ir_thread) : ir_thread :=
  IrThread (it_base t) (it_pulses t) (durationMs_ t) (startedAt_ t) (frames_ t) (pulses_ t) (lastPulses_ t) lo
    hi (lastCarrierHz_ t) (captureStarted_ t) (lastStorageError_ t).
Definition set_pulse (index : nat) (p : Z * Z) (t : ir_thread) : ir_thread :=
  IrThread (it_base t) (<[index := p]> (it_pulses t)) (durationMs_ t) (startedAt_ t) (frames_ t) (pulses_ t) (lastPulses_ t)
    (lastMinimumUs_ t) (lastMaximumUs_ t) (lastCarrierHz_ t) (captureStarted_ t) (lastStorageError_ t).
Definition set_frame (count : nat) (carrier : Z) (t : ir_thread) : ir_thread :=
  IrThread (it_base t) (it_pulses t) (durationMs_ t) (startedAt_ t) (frames_ t) (pulses_ t) count
    (lastMinimumUs_ t) (lastMaximumUs_ t) carrier (captureStarted_ t) (lastStorageError_ t).
Definition set_storage_error (e : bytes) (t : ir_thread) : ir_thread :=
  IrThread (it_base t) (it_pulses t) (durationMs_ t) (startedAt_ t) (frames_ t) (pulses_ t) (lastPulses_ t)
    (lastMinimumUs_ t) (lastMaximumUs_ t) (lastCarrierHz_ t) (captureStarted_ t) e.
Definition count_frame (count : nat) (t : ir_thread) : ir_thread :=
  IrThread (it_base t) (it_pulses t) (durationMs_ t) (startedAt_ t) (u32 (frames_ t + 1)) (u32 (pulses_ t + Z.of_nat count))
    (lastPulses_ t) (lastMinimumUs_ t) (lastMaximumUs_ t) (lastCarrierHz_ t) (captureStarted_ t) (lastStorageError_ t).

(** The pulses of the last frame. *)
Definition last_frame (t : ir_thread) : list (Z * Z) := take (lastPulses_ t) (it_pulses t).

(** One pulse in the summary of a frame: the shortest and longest one, and the
    sum and number of those a carrier may have made. *)
Definition note_pulse (p : Z * Z) (t : ir_thread) : ir_thread :=
  set_range (if p.2 <? lastMinimumUs_ t then p.2 else lastMinimumUs_ t)
    (if lastMaximumUs_ t <? p.2 then p.2 else lastMaximumUs_ t) t.
Definition note_short (p : Z * Z) (short : Z * Z) : Z * Z :=
  if p.2 <=? 100 then ((short.1 + p.2) mod 2 ^ 64, u32 (short.2 + 1)) else short.

Definition carrier_estimate (short : Z * Z) : Z :=
  if (20 <=? short.2) && negb (short.1 =? 0) then u32 (500000 * short.2 / short.1) else 0.

Class HasIrThread (S : Type) := { irt_of : S -> ir_thread; put_irt : ir_thread -> S -> S }.

Section thread.
Context {S C : Type} `{HasClock S} `{!HasStore S C} `{!HasEpoch S} `{CardOps C} `{!HasIr S} `{!HasIrThread S}.
Context (settings : ir_config).

Definition get_irt {A} (f : ir_thread -> A) : st S A := gets (fun s => f (irt_of s)).
Definition upd_irt (f : ir_thread -> ir_thread) : st S unit := modify (fun s => put_irt (f (irt_of s)) s).

Definition it_thread_of (s : S) : NoobThread := it_base (irt_of s).
Definition it_put_thread (b : NoobThread) (s : S) : S := put_irt (set_base b (irt_of s)) s.

(** ** Starting and stopping *)

Definition it_onStart : st S unit :=
  ir_captureStop ;;
  now ← millis;
  upd_irt (fresh_run now) ;;
  started ← ir_captureStart settings;
  upd_irt (set_started started).

Definition it_onStop : st S unit := ir_captureStop ;; upd_irt (set_started false).

Definition it_stop : st S NativeResult := thread_stop it_thread_of it_put_thread it_onStop.

Definition it_call (arguments : list Z) : st S NativeResult :=
  let count := length arguments in
  if (1 <? count)%nat || (negb (count =? 0)%nat && ((nth 0 arguments 0 <? 1) || (3600000 <? nth 0 arguments 0)))
  then mret (failure (str "usage: [duration_ms(1..3600000)]"))
  else
  let duration := match arguments with d :: _ => d | [] => IR_THREAD_DURATION_MS end in
  upd_irt (set_duration duration) ;;
  r ← thread_call it_thread_of it_put_thread it_onStart [];
  mret (Result (ok r) (value r)
          (detail r ++ str " duration_ms=" ++ print_nat duration ++ str " resolution_hz=" ++ print_nat (captureResolutionHz settings))
          (record r)).

(** ** The last frame *)

Definition no_capture : NativeResult := failure (str "no raw IR capture in memory").

Definition replayLast (arguments : list Z) : st S NativeResult :=
  let count := length arguments in
  if (1 <? count)%nat || (negb (count =? 0)%nat && ((nth 0 arguments 0 <? 1) || (20 <? nth 0 arguments 0)))
  then mret (failure (str "usage: [repeats(1..20)]"))
  else
  last ← get_irt lastPulses_;
  if (last =? 0)%nat then mret no_capture
  else
  it_stop ;;
  frame ← get_irt last_frame;
  r ← replayEnvelope settings frame (match arguments with n :: _ => n | [] => 1 end);
  mret (if ok r then Result (ok r) (value r) (str "source=last_capture " ++ detail r) (record r) else r).

Definition verifyLast (arguments : list Z) : st S NativeResult :=
  match arguments with
  | _ :: _ => mret (failure usage_none)
  | [] =>
      last ← get_irt lastPulses_;
      if (last =? 0)%nat then mret no_capture
      else
      it_stop ;;
      let capacity := if (last + 64 <? MAX_PULSES)%nat then (last + 64)%nat else MAX_PULSES in
      a ← allocate;
      b ← allocate;
      if negb a || negb b then mret (failure (str "insufficient IR comparison memory"))
      else
      frame ← get_irt last_frame;
      r ← replayAndCapture settings frame capacity;
      let '(captured, received) := r : NativeResult * list (Z * Z) in
      if negb (ok captured) then mret captured
      else if (1024 <? last)%nat || (1024 <? length received)%nat
      then mret (failure (str "IR comparison exceeds 1024 pulses"))
      else
      a ← allocate;
      b ← allocate;
      if negb a || negb b then mret (failure (str "insufficient IR alignment memory"))
      else mret (Align.compare frame received)
  end.

(** ** A step *)

Definition ir_event (name : bytes) : bytes := str "NRP/1 0 EVENT " ++ name.

(** The thread ends with an error. *)
Definition fail_with (text : bytes) : st S (option bytes) :=
  it_stop ;; mret (Some (ir_event (str "IR_CAPTURE_ERROR detail=" ++ text))).

(** The loop over the pulses: [None] when one cannot be read. *)
Fixpoint copy_frame (todo index : nat) (short : Z * Z) : st S (option (Z * Z)) :=
  match todo with
  | O => mret (Some short)
  | Datatypes.S k =>
      p ← ir_capturePulse settings index;
      match p with
      | None => mret None
      | Some p =>
          upd_irt (set_pulse index p) ;;
          upd_irt (note_pulse p) ;;
          copy_frame k (Datatypes.S index) (note_short p short)
      end
  end.

Definition frame_record (time count carrier : Z) : NoobRecord :=
  record_of [(str "time_ms", time); (str "pulses", i32 count); (str "carrier_est_hz", i32 carrier)].

(** A frame that has been copied is stored and announced. *)
Definition store_frame (count : nat) : st S (option bytes) :=
  symbols ← get_ir captureSymbolCount;
  let full := (symbols =? captureSymbolCapacity)%nat in
  frame ← get_irt last_frame;
  stored ← irisStoreIrCapture frame symbols full;
  rearmed ← ir_captureRearm;
  if negb rearmed then e ← get_ir lastCaptureError; fail_with e
  else if negb (ok stored) then
    upd_irt (set_storage_error (detail stored)) ;;
    mret (Some (ir_event (str "IR_CAPTURE_ERROR detail=" ++ detail stored)))
  else
  upd_irt (count_frame count) ;;
  t ← get_irt (fun t => t);
  upd_thread it_thread_of it_put_thread (publish (frame_record (value stored) (Z.of_nat count) (lastCarrierHz_ t))) ;;
  mret (Some (ir_event (str "IR_FRAME time_ms=" ++ print_int (value stored) ++ str " " ++ detail stored
                        ++ str " min_us=" ++ print_nat (lastMinimumUs_ t) ++ str " max_us=" ++ print_nat (lastMaximumUs_ t)
                        ++ str " carrier_est_hz=" ++ print_nat (lastCarrierHz_ t)))).

(** A frame is ready. *)
Definition take_frame : st S (option bytes) :=
  count ← ir_capturePulseCount settings;
  if (count =? 0)%nat || (MAX_PULSES <? count)%nat then fail_with (str "invalid pulse count")
  else
  upd_irt (set_range UINT32_MAX 0) ;;
  copied ← copy_frame count 0 (0, 0);
  match copied with
  | None => fail_with (str "pulse copy failed")
  | Some short => upd_irt (set_frame count (carrier_estimate short)) ;; store_frame count
  end.

Definition it_step : st S (option bytes) :=
  started ← get_irt captureStarted_;
  if negb started then e ← get_ir lastCaptureError; fail_with e
  else
  now ← millis;
  t ← get_irt (fun t => t);
  if durationMs_ t <=? u32 (now - startedAt_ t) then
    it_stop ;;
    mret (Some (ir_event (str "IR_CAPTURE_COMPLETE frames=" ++ print_nat (frames_ t) ++ str " pulses=" ++ print_nat (pulses_ t))))
  else
  ready ← ir_captureReady settings;
  if negb ready then mret None else take_frame.

Definition it_tick : st S (option bytes) := thread_tick it_thread_of it_put_thread it_step.

Definition it_statusDetail : st S bytes :=
  now ← millis;
  t ← get_irt (fun t => t);
  let elapsed := u32 (now - startedAt_ t) in
  mret (str " duration_ms=" ++ print_nat (durationMs_ t)
        ++ str " remaining_ms=" ++ print_nat (if durationMs_ t <=? elapsed then 0 else durationMs_ t - elapsed)
        ++ str " resolution_hz=" ++ print_nat (captureResolutionHz settings)
        ++ str " frames=" ++ print_nat (frames_ t) ++ str " pulses=" ++ print_nat (pulses_ t)
        ++ str " last_pulses=" ++ print_nat (Z.of_nat (lastPulses_ t))
        ++ str " last_min_us=" ++ print_nat (lastMinimumUs_ t) ++ str " last_max_us=" ++ print_nat (lastMaximumUs_ t)
        ++ str " carrier_est_hz=" ++ print_nat (lastCarrierHz_ t)
        ++ str " storage_error=" ++ (match lastStorageError_ t with [] => str "none" | e => e end)).

(** ** The dictionary *)

(** The size and checksum of a stored capture. *)
Definition captureFingerprint (timestamp : Z) : st C (option (Z * Z)) :=
  let path := capture_path timestamp in
  opened ← fs_open path;
  match opened with
  | None => mret None
  | Some _ =>
      h ← read_line path 0;
      if negb (bytes_eqb (trim h.1) capture_header) then mret None
      else
      rewound ← fs_seek path 0;
      if negb rewound then mret None
      else
      size ← fs_size path;
      r ← read_back 128 (Datatypes.S (Z.to_nat size)) path size 0 FNV_BASIS;
      mret (if r.1 =? size then Some (size, r.2) else None)
  end.

Definition validLabel (label : bytes) : bool :=
  negb (length label =? 0)%nat && (length label <=? 31)%nat
  && forallb (fun c => isalnum c || existsb (Z.eqb c) (str "_-.")) label.

Definition dictionary : bytes := str "/noob/ir_dictionary.csv".
Definition dictionary_header : bytes := str "device,button,capture_time_ms" ++ CRLF.

(** What is appended to a dictionary of [size] bytes. *)
Definition dictionary_entry (size : Z) (device button : bytes) (timestamp : Z) : bytes :=
  (if size =? 0 then dictionary_header else [])
  ++ device ++ COMMA :: button ++ COMMA :: print_int timestamp ++ CRLF.

(** The entry is appended and read back; the error, if there is one. *)
Definition append_entry (device button : bytes) (timestamp : Z) : st C (option bytes) :=
  there ← fs_exists (str "/noob");
  made ← (if there : bool then mret true else fs_mkdir (str "/noob"));
  if negb made then mret (Some (str "cannot create /noob"))
  else
  opened ← fs_extend dictionary;
  if negb opened then mret (Some (str "cannot open IR dictionary"))
  else
  previousSize ← fs_size dictionary;
  let entry := dictionary_entry previousSize device button timestamp in
  let entry_length := Z.of_nat (length entry) in
  written ← fs_append dictionary entry;
  if negb (written =? entry_length) then mret (Some (str "IR dictionary write incomplete"))
  else
  opened ← fs_open dictionary;
  size ← (match opened with Some _ => fs_size dictionary | None => mret 0 end);
  found ← (match opened with
           | Some _ => if size =? previousSize + entry_length then fs_seek dictionary previousSize else mret false
           | None => mret false
           end);
  if negb found then mret (Some (str "IR dictionary verification failed"))
  else if 128 <=? entry_length then mret (Some (str "IR dictionary entry too long"))
  else
  tail ← fs_read dictionary previousSize entry_length;
  mret (if bytes_eqb tail entry then None else Some (str "IR dictionary verification failed")).

(** Both labels of the argument, or the error. *)
Definition labels (arguments : bytes) : bytes + bytes * bytes :=
  match span (Z.eqb SP) arguments with
  | ([], _) | (_, []) | (_, [_]) => inl (str "usage: device button")
  | (device, _ :: button) =>
      let device := trim device in
      let button := trim button in
      if negb (validLabel device) || negb (validLabel button)
      then inl (str "labels use letters digits _ - .; maximum 31 chars")
      else inr (device, button)
  end.

Definition popped_time (t : NoobThread) : option (NoobRecord * Z) :=
  if haveLastPopped_ t
  then match get_name (lastPopped_ t) (str "time_ms") with Some time => Some (lastPopped_ t, time) | None => None end
  else None.

Definition irisIrDictionaryRemember (arguments : bytes) : st S NativeResult :=
  match labels arguments with
  | inl e => mret (failure e)
  | inr (device, button) =>
      popped ← gets (fun s => popped_time (it_thread_of s));
      match popped with
      | None => mret (failure (str "pop a raw IR capture first"))
      | Some (rec, timestamp) =>
          usable ← on_sd ready;
          if negb usable then mret unavailable
          else
          before ← on_fs (captureFingerprint (u32 timestamp));
          match before with
          | None => mret (failure (str "raw IR capture already damaged; dictionary unchanged"))
          | Some before =>
              e ← on_fs (append_entry device button timestamp);
              match e with
              | Some e => mret (failure e)
              | None =>
                  after ← on_fs (captureFingerprint (u32 timestamp));
                  mret (if bool_decide (after = Some before)
                        then Result true timestamp
                               (str "path=" ++ dictionary ++ str " device=" ++ device ++ str " button=" ++ button) rec
                        else failure (str "raw IR capture changed during dictionary write"))
              end
          end
      end
  end.

(** Newlines from a position to the end; each turn reads a byte.  [None] when a
    byte that should be there cannot be read and the loop does not end. *)
Fixpoint count_lines (fuel : nat) (path : bytes) (pos lines : Z) : st C (option Z) :=
  match fuel with
  | O => mret None
  | Datatypes.S f =>
      more ← fs_available path pos;
      if negb more then mret (Some lines)
      else
      got ← fs_read path pos 1;
      match got with
      | [c] => count_lines f path (pos + 1) (if c =? NL then u32 (lines + 1) else lines)
      | _ => count_lines f path pos lines
      end
  end.

Definition irisIrDictionaryStatus (arguments : list Z) : st S (option NativeResult) :=
  match arguments with
  | _ :: _ => mret (Some (failure usage_none))
  | [] =>
      usable ← on_sd ready;
      if negb usable then mret (Some unavailable)
      else
      opened ← on_fs (fs_open dictionary);
      match opened with
      | None => mret (Some (result true 0 (str "path=/noob/ir_dictionary.csv entries=0")))
      | Some _ =>
          fuel ← on_fs (turns dictionary);
          r ← on_fs (count_lines fuel dictionary 0 0);
          mret (match r with
                | None => None
                | Some lines =>
                    let entries := if lines =? 0 then 0 else lines - 1 in
                    Some (result true (i32 entries) (str "path=/noob/ir_dictionary.csv entries=" ++ print_nat entries))
                end)
      end
  end.
End thread.
End IrisIrThread.
