(* ===== verification/IrisArtifactsFacts.v ===== *)
(** * A stored infrared capture is what was captured

    Whatever calls of the card fail: a capture that is reported as stored is on
    the card complete, under a name that was free, and no file that was there
    before is touched.  On a card without faults the stored capture is read back
    pulse by pulse, so a replay sends what was captured. *)
From S2P Require Import Prelude CLib EspRecord EspRegistry EspVm EspDispatch EspCard EspSd EspStore EspStoreFacts EspStoreRestart EspThreads EspIrCapture EspIrReplay IrisArtifacts IrisIrThread.

Open Scope Z_scope.

Module IrisArtifactsFacts.
Import EspRegistry EspVm EspDispatch EspCard EspSd EspStore EspStoreFacts EspStoreRestart EspThreads Capture IrReplay IrisArtifacts IrisIrThread.

#[local] Arguments str : simpl never.

(** ** The text of a capture *)

Fixpoint rows_text (timestamp index : Z) (pulses : list (Z * Z)) : bytes :=
  match pulses with
  | [] => []
  | p :: pulses => capture_row timestamp index p ++ CRLF ++ rows_text timestamp (index + 1) pulses
  end.

Definition capture_text (timestamp : Z) (pulses : list (Z * Z)) : bytes :=
  capture_header ++ CRLF ++ rows_text timestamp 0 pulses.

Lemma hashBytes_app h a b : hashBytes h (a ++ b) = hashBytes (hashBytes h a) b.
Proof. unfold hashBytes. by rewrite fold_left_app. Qed.

Section writing.
Context {C : Type} `{HC : SdCard C}.
Implicit Types (c : C) (w : writer).

(** What has been given to the writer is in the file or in its buffer. *)
Definition accounted (path text : bytes) w c : Prop :=
  exists flushed, content c path = Some (FileNode flushed) /\ text = flushed ++ buffered w
    /\ expected w = Z.of_nat (length text) /\ written w = Z.of_nat (length flushed)
    /\ (length (buffered w) < BLOCK)%nat.

Lemma same_but_trans p c1 c2 c3 : same_but p c1 c2 -> same_but p c2 c3 -> same_but p c1 c3.
Proof. intros A B q Hq. by rewrite (B q Hq), (A q Hq). Qed.

Lemma same_but_refl p c : same_but p c c.
Proof. by intros q _. Qed.

Lemma same_card_but p c c' : same_card c c' -> same_but p c c'.
Proof. intros A q _. apply A. Qed.
#[local] Hint Resolve same_but_refl : noobia.

(** Only the file itself changes, in every case. *)
Lemma append_loop_but fuel : forall path data w c, same_but path c (append_loop fuel path data w c).2.
Proof.
  induction fuel as [|f IH]; intros path data w c; destruct data as [|x data]; cbn [append_loop]; try apply same_but_refl.
  destruct (_ =? BLOCK)%nat; [|apply IH]. run_st. destruct (negb _); [apply append_but|].
  eapply same_but_trans; [apply append_but|apply IH].
Qed.

Lemma append_loop_ok fuel : forall path data w c flushed,
  (length data <= fuel)%nat -> content c path = Some (FileNode flushed) -> (length (buffered w) < BLOCK)%nat ->
  let '((b, w'), c') := append_loop fuel path data w c in
  b = true -> exists flushed', content c' path = Some (FileNode flushed')
    /\ flushed' ++ buffered w' = flushed ++ buffered w ++ data /\ (length (buffered w') < BLOCK)%nat
    /\ written w' + Z.of_nat (length flushed) = written w + Z.of_nat (length flushed')
    /\ expected w' = expected w /\ expectedHash w' = expectedHash w.
Proof.
  induction fuel as [|f IH]; intros path data w c flushed Hf Hc Hw.
  { destruct data; [|cbn in Hf; lia]. cbn. intros _. exists flushed. rewrite !app_nil_r. split_and!; done || lia. }
  destruct data as [|x data].
  { cbn. intros _. exists flushed. rewrite !app_nil_r. split_and!; done || lia. }
  cbn [append_loop]. set (d := x :: data) in *. set (chunk := Nat.min (length d) (BLOCK - length (buffered w))).
  assert (Hchunk : (1 <= chunk <= length d)%nat) by (unfold chunk, d in *; cbn [length] in *; lia).
  assert (Hd : (length (drop chunk d) <= f)%nat) by (rewrite length_drop; lia).
  destruct (Nat.eqb_spec (length (buffered w ++ take chunk d)) BLOCK) as [E|E].
  - run_st. set (block := buffered w ++ take chunk d) in *. destruct (Z.eqb_spec (fs_append path block c).1 (Z.of_nat BLOCK)) as [Ec|Ec].
    + cbn [negb]. rewrite <- E in Ec. pose proof (append_done path block c flushed Hc Ec) as A.
      specialize (IH path (drop chunk d) (Writer [] (expected w) (written w + (fs_append path block c).1) (expectedHash w))
                     (fs_append path block c).2 (flushed ++ block) Hd A). cbn [buffered] in IH.
      specialize (IH ltac:(cbn; unfold BLOCK; lia)). destruct (append_loop f path (drop chunk d) _ _) as [[b w'] c'].
      intros Hb. destruct (IH Hb) as (fl & I1 & I2 & I3 & I4 & I5 & I6). exists fl. split_and!; try done.
      * rewrite I2. unfold block. cbn [app]. rewrite <- !app_assoc. by rewrite take_drop.
      * cbn [written] in I4. rewrite length_app in I4. lia.
    + cbn. done.
  - assert (Hl : (length (buffered w ++ take chunk d) < BLOCK)%nat).
    { rewrite length_app, length_take in *. unfold chunk in *. lia. }
    specialize (IH path (drop chunk d) (Writer (buffered w ++ take chunk d) (expected w) (written w) (expectedHash w)) c flushed Hd Hc Hl).
    destruct (append_loop f path (drop chunk d) _ _) as [[b w'] c']. intros Hb. destruct (IH Hb) as (fl & I1 & I2 & I3 & I4 & I5 & I6).
    exists fl. split_and!; try done. rewrite I2. cbn [buffered]. rewrite <- app_assoc. by rewrite take_drop.
Qed.

(** An append that succeeds has accounted for its data. *)
Lemma append_ok_text path data w c text :
  accounted path text w c ->
  let '((b, w'), c') := append path data w c in
  b = true -> accounted path (text ++ data) w' c' /\ expectedHash w' = hashBytes (expectedHash w) data.
Proof.
  intros (fl & H1 & H2 & H3 & H4 & H5). unfold append.
  pose proof (append_loop_ok (length data) path data
    (Writer (buffered w) (expected w + Z.of_nat (length data)) (written w) (hashBytes (expectedHash w) data)) c fl (le_n _) H1 H5) as L.
  destruct (append_loop _ _ _ _ _) as [[b w'] c']. intros Hb. destruct (L Hb) as (fl' & I1 & I2 & I3 & I4 & I5 & I6).
  cbn [written expected expectedHash buffered] in *. split; [|done]. exists fl'. split_and!; try done.
  - by rewrite H2, I2, app_assoc.
  - rewrite I5, H3, length_app. lia.
  - lia.
Qed.

Lemma append_line_ok path line w c text :
  accounted path text w c ->
  let '((b, w'), c') := append_line path line w c in
  b = true -> accounted path (text ++ line ++ CRLF) w' c' /\ expectedHash w' = hashBytes (expectedHash w) (line ++ CRLF).
Proof.
  intros A. unfold append_line. run_st. pose proof (append_ok_text path line w c text A) as L.
  destruct (append path line w c) as [[b w1] c1]. cbn [fst snd]. destruct b; cbn [negb]; [|done].
  destruct (L eq_refl) as [A1 E1]. pose proof (append_ok_text path CRLF w1 c1 _ A1) as L2.
  destruct (append path CRLF w1 c1) as [[b w2] c2]. intros Hb. destruct (L2 Hb) as [A2 E2].
  rewrite E2, E1, hashBytes_app, app_assoc. done.
Qed.

Lemma append_line_but path line w c : same_but path c (append_line path line w c).2.
Proof.
  unfold append_line. run_st. destruct (negb _); [apply append_loop_but|].
  eapply same_but_trans; apply append_loop_but.
Qed.

Lemma append_rows_but path ts pulses : forall index w c, same_but path c (append_rows path ts index pulses w c).2.
Proof.
  induction pulses as [|p pulses IH]; intros index w c; cbn [append_rows]; [apply same_but_refl|].
  destruct (48 <=? _)%nat; [apply same_but_refl|]. run_st. destruct (negb _); [apply append_line_but|].
  eapply same_but_trans; [apply append_line_but|apply IH].
Qed.

Lemma append_rows_ok path ts pulses : forall index w c text,
  accounted path text w c ->
  let '((e, w'), c') := append_rows path ts index pulses w c in
  e = None -> accounted path (text ++ rows_text ts index pulses) w' c'
              /\ expectedHash w' = hashBytes (expectedHash w) (rows_text ts index pulses).
Proof.
  induction pulses as [|p pulses IH]; intros index w c text A; cbn [append_rows].
  { cbn. intros _. by rewrite app_nil_r. }
  destruct (48 <=? _)%nat; [done|]. run_st. pose proof (append_line_ok path (capture_row ts index p) w c text A) as L.
  destruct (append_line _ _ _ _) as [[b w1] c1]. cbn [fst snd]. destruct b; cbn [negb]; [|done].
  destruct (L eq_refl) as [A1 E1]. specialize (IH (index + 1) w1 c1 _ A1).
  destruct (append_rows _ _ _ _ _ _) as [[e w2] c2]. intros He. destruct (IH He) as [A2 E2]. cbn [rows_text].
  rewrite E2, E1, (app_assoc (capture_row _ _ _)), (hashBytes_app _ (_ ++ CRLF)), (app_assoc text). done.
Qed.

Lemma read_back_same chunk path actual : forall fuel checked hash c,
  same_card c (read_back chunk fuel path actual checked hash c).2.
Proof.
  induction fuel as [|f IH]; intros checked hash c; cbn [read_back]; [done|].
  destruct (checked <? actual); [|done]. run_st. pose proof (read_same path checked chunk c) as R.
  destruct (fs_read path checked chunk c).1; [done|]. etrans; [exact R|]. apply IH.
Qed.

Lemma verify_same path ts n k full w c : same_card c (verify_capture path ts n k full w c).2.
Proof.
  unfold verify_capture. run_st.
  set (c1 := (fs_open path c).2). assert (E1 : same_card c c1) by apply open_same.
  set (c2 := (match (fs_open path c).1 with Some _ => fs_size path | None => mret 0 end c1)).
  assert (E2 : same_card c c2.2) by (unfold c2; destruct (fs_open path c).1; [by etrans; [exact E1|apply size_same]|done]).
  clearbody c2. destruct c2 as [actual c2]. cbn [fst snd] in *.
  set (m := match (fs_open path c).1 with Some _ => _ | None => _ end).
  assert (E3 : same_card c (m c2).2).
  { unfold m. destruct (fs_open path c).1; [|done]. etrans; [exact E2|apply read_back_same]. }
  destruct (m c2) as [[checked hash] c3]. cbn [fst snd] in *. by destruct (_ || _).
Qed.

Lemma verify_written path ts n k full w c : ok (verify_capture path ts n k full w c).1 = true ->
  written w = expected w /\ value (verify_capture path ts n k full w c).1 = i32 ts.
Proof.
  unfold verify_capture. run_st.
  match goal with |- context [let '(_, _) := ?x in _] => destruct x as [checked hash] end.
  destruct (negb (written w =? expected w)) eqn:E; [done|]. cbn [orb].
  destruct (_ || _); [done|]. cbn. to_prop. done.
Qed.

Lemma write_capture_but path ts pulses k full c : same_but path c (write_capture path ts pulses k full c).2.
Proof.
  unfold write_capture. run_st. destruct (negb _); [apply append_line_but|]. run_st.
  destruct (append_rows _ _ _ _ _ _).1.1 eqn:Er; [eapply same_but_trans; [apply append_line_but|apply append_rows_but]|]. run_st.
  eapply same_but_trans; [eapply same_but_trans; [apply append_line_but|apply append_rows_but]|].
  eapply same_but_trans; [|apply same_card_but, verify_same].
  destruct (_ =? 0)%nat; [apply same_but_refl|apply append_but].
Qed.

(** A capture reported as written is in the file. *)
Lemma write_capture_ok path ts pulses k full c :
  content c path = Some (FileNode []) ->
  let '(r, c') := write_capture path ts pulses k full c in
  ok r = true -> value r = i32 ts /\ content c' path = Some (FileNode (capture_text ts pulses)).
Proof.
  intros Hc. unfold write_capture. run_st.
  assert (A0 : accounted path [] new_writer c) by (exists []; cbn; unfold BLOCK; split_and!; done || lia).
  pose proof (append_line_ok path capture_header new_writer c [] A0) as L1.
  destruct (append_line _ _ _ _) as [[b w1] c1]. cbn [fst snd]. destruct b; cbn [negb]; [|done].
  destruct (L1 eq_refl) as [A1 _]. run_st. pose proof (append_rows_ok path ts pulses 0 w1 c1 _ A1) as L2.
  destruct (append_rows _ _ _ _ _ _) as [[e w2] c2]. cbn [fst snd]. destruct e; [done|]. destruct (L2 eq_refl) as [A2 _].
  run_st. cbn [app] in A2. rewrite <- app_assoc in A2. fold (capture_text ts pulses) in A2.
  destruct A2 as (fl & F1 & F2 & F3 & F4 & F5).
  set (m := (if (length (buffered w2) =? 0)%nat then mret 0 else fs_append path (buffered w2)) c2).
  set (w3 := Writer _ _ _ _). pose proof (verify_written path ts (length pulses) k full w3 m.2) as V.
  pose proof (verify_same path ts (length pulses) k full w3 m.2) as Sm.
  destruct (verify_capture _ _ _ _ _ _ _) as [r c']. cbn [fst snd] in *. intros Hr. destruct (V Hr) as [W Hv]. split; [done|].
  rewrite (Sm path). unfold w3 in W. cbn [written expected] in W. rewrite F3, F4, F2, length_app in W.
  unfold m in W |- *. destruct (Nat.eqb_spec (length (buffered w2)) 0) as [E|E]; cbn [fst snd mret st_ret] in *.
  - destruct (buffered w2); [|done]. rewrite F2, app_nil_r. done.
  - rewrite F2. apply append_done; [done|lia].
Qed.
End writing.

(** ** Storing on a device *)

(** Reading the clock does not touch the card. *)
Class StillClock (S C : Type) `{HasClock S} `{!HasStore S C} := {
  millis_sd s : sd_of (millis s).2 = sd_of s }.

Section storing.
Context {S C : Type} `{HasClock S} `{!HasStore S C} `{!HasEpoch S} `{!StillClock S C} `{HC : SdCard C}.
Implicit Types s : S.

(** Nothing that is on the card changes. *)
Definition preserves_files (c c' : C) : Prop := forall q, content c q <> None -> content c' q = content c q.

#[local] Instance preserves_files_preorder : PreOrder preserves_files.
Proof. split; [done|]. intros x y z A B q Hq. rewrite (B q), (A q); [done|done|]. by rewrite (A q). Qed.

Lemma same_preserves c c' : same_card c c' -> preserves_files c c'.
Proof. intros A q _. apply A. Qed.

Lemma but_preserves p c c' : content c p = None -> same_but p c c' -> preserves_files c c'.
Proof. intros Hp A q Hq. apply A. by intros ->. Qed.

Lemma free_path_ok k : forall dir prefix suffix ts s,
  let '(r, s') := free_path k dir prefix suffix ts s in
  same_card (card_of s) (card_of s')
  /\ match r with
     | None => True
     | Some (t, path) => path = dir ++ str "/" ++ prefix ++ print_nat t ++ suffix /\ content (card_of s') path = None
     end.
Proof.
  induction k as [|k IH]; intros dir prefix suffix ts s; cbn [free_path]; [done|]. run_st.
  set (path := dir ++ str "/" ++ prefix ++ print_nat ts ++ suffix). rewrite on_fs_result, exists_spec.
  assert (E : same_card (card_of s) (card_of (on_fs (fs_exists path) s).2)) by (rewrite card_on_fs; apply exists_same).
  destruct (decide (content (card_of s) path = None)) as [Hp|Hp].
  - rewrite bool_decide_eq_false_2 by (intros X; by apply X). cbn. split; [done|]. split; [done|]. by rewrite (E path).
  - rewrite bool_decide_eq_true_2 by done. cbn [negb]. specialize (IH dir prefix suffix (u32 (ts + 1)) (on_fs (fs_exists path) s).2).
    destruct (free_path k _ _ _ _ _) as [r s']. destruct IH as [I1 I2]. split; [by etrans|done].
Qed.

Lemma milliseconds_card s : card_of (milliseconds s).2 = card_of s.
Proof. unfold milliseconds. run_st. unfold card_of. by rewrite millis_sd. Qed.

Lemma artifactPath_ok dir prefix suffix s :
  let '(r, s') := artifactPath dir prefix suffix s in
  preserves_files (card_of s) (card_of s')
  /\ match r with
     | None => True
     | Some (t, path) => path = dir ++ str "/" ++ prefix ++ print_nat t ++ suffix /\ content (card_of s') path = None
     end.
Proof.
  unfold artifactPath. run_st. pose proof (ready_same s) as R. destruct (on_sd ready s) as [b s1]. cbn [fst snd] in *.
  apply same_preserves in R. destruct b; cbn [negb]; [|done]. run_st.
  set (m := (if (on_fs (fs_exists dir) s1).1 then mret true else on_fs (fs_mkdir dir)) (on_fs (fs_exists dir) s1).2).
  assert (M : preserves_files (card_of s1) (card_of m.2)).
  { unfold m. rewrite on_fs_result, exists_spec. destruct (decide (content (card_of s1) dir = None)) as [Hd|Hd].
    - rewrite bool_decide_eq_false_2 by (intros X; by apply X). rewrite !card_on_fs.
      etrans; [apply same_preserves, exists_same|]. apply (but_preserves dir); [by rewrite exists_same|apply mkdir_but].
    - rewrite bool_decide_eq_true_2 by done. cbn. rewrite card_on_fs. apply same_preserves, exists_same. }
  clearbody m. destruct m as [made s2]. cbn [fst snd] in *. destruct made; cbn [negb]; [|split; [by etrans|done]]. run_st.
  pose proof (milliseconds_card s2) as K. destruct (milliseconds s2) as [now s3]. cbn [fst snd] in *.
  pose proof (free_path_ok (Z.to_nat 1000) dir prefix suffix (if now =? 0 then 1 else now) s3) as F.
  destruct (free_path _ _ _ _ _ _) as [r s4]. destruct F as [F1 F2]. split; [|done].
  etrans; [exact R|]. etrans; [exact M|]. rewrite <- K. by apply same_preserves.
Qed.

(** Storing a captured frame, whatever calls of the card fail: no file that
    was on the card is changed, and when the call reports success the capture is
    on the card, complete and in order, under a name that was free before. *)
Lemma stored_capture_safe (pulses : list (Z * Z)) (symbols : nat) (full : bool) s :
  let '(r, s') := irisStoreIrCapture pulses symbols full s in
  preserves_files (card_of s) (card_of s')
  /\ (ok r = true -> exists timestamp, value r = i32 timestamp /\ content (card_of s) (capture_path timestamp) = None
        /\ content (card_of s') (capture_path timestamp) = Some (FileNode (capture_text timestamp pulses))).
Proof.
  unfold irisStoreIrCapture. destruct (length pulses =? 0)%nat; [done|]. run_st.
  pose proof (artifactPath_ok (str "/samples") (str "ir_raw_") (str ".csv") s) as A.
  destruct (artifactPath _ _ _ s) as [[[t path]|] s1]; cbn [fst snd] in *; [|by destruct A].
  destruct A as (P & -> & Hn). change (str "/samples" ++ str "/" ++ str "ir_raw_" ++ print_nat t ++ str ".csv") with (capture_path t) in *.
  run_st. rewrite on_fs_result.
  pose proof (create_but (capture_path t) (card_of s1)) as B. pose proof (create_spec (capture_path t) (card_of s1)) as Cs.
  assert (Hs : content (card_of s) (capture_path t) = None).
  { destruct (content (card_of s) (capture_path t)) eqn:E; [|done]. pose proof (P (capture_path t) ltac:(congruence)). congruence. }
  destruct (fs_create (capture_path t) (card_of s1)).1 eqn:Ec; cbn [negb].
  - rewrite on_fs_run. cbn [fst snd]. rewrite card_on_fs.
    pose proof (write_capture_but (capture_path t) t pulses symbols full (fs_create (capture_path t) (card_of s1)).2) as W1.
    pose proof (write_capture_ok (capture_path t) t pulses symbols full (fs_create (capture_path t) (card_of s1)).2 Cs) as W2.
    assert (K : card_of (put_sd (set_storage (write_capture (capture_path t) t pulses symbols full (fs_create (capture_path t) (card_of s1)).2).2
                 (sd_of (on_fs (fs_create (capture_path t)) s1).2)) (on_fs (fs_create (capture_path t)) s1).2)
                = (write_capture (capture_path t) t pulses symbols full (fs_create (capture_path t) (card_of s1)).2).2).
    { unfold card_of. by rewrite sd_of_put. }
    rewrite K. destruct (write_capture _ _ _ _ _ _) as [r c']. cbn [fst snd] in *. split.
    + etrans; [exact P|]. apply (but_preserves (capture_path t)); [done|]. by eapply same_but_trans.
    + intros Hr. destruct (W2 Hr) as [V1 V2]. by exists t.
  - cbn. split; [|done]. rewrite card_on_fs. etrans; [exact P|]. by apply (but_preserves (capture_path t)).
Qed.
End storing.

(** ** Reading a capture *)

Lemma rtrim_nonspace (x : bytes) : Forall (fun c => isspace c = false) x -> rtrim x = x.
Proof. induction 1 as [|c x Hc Hx IH]; [done|]. cbn. rewrite IH. destruct x; [by rewrite Hc|done]. Qed.

Lemma rtrim_snoc_space (x : bytes) c : isspace c = true -> rtrim (x ++ [c]) = rtrim x.
Proof. intros Hc. induction x as [|y x IH]; cbn; [by rewrite Hc|]. by rewrite IH. Qed.

(** A line of a DOS text file, without blanks. *)
Lemma trim_line (x : bytes) : x <> [] -> Forall (fun c => isspace c = false) x -> trim (x ++ [CR]) = x.
Proof.
  intros Hx Hs. unfold trim. destruct x as [|c x]; [done|]. cbn [app]. apply Forall_cons in Hs as [H1 H2].
  rewrite skip_space_nonspace by done. change (c :: x ++ [CR]) with ((c :: x) ++ [CR]).
  rewrite rtrim_snoc_space by done. apply rtrim_nonspace. by constructor.
Qed.

Lemma digits_plain n : Forall (fun c => isspace c = false) (print_nat n) /\ Forall (fun c => (COMMA =? c) = false) (print_nat n)
  /\ Forall (fun c => c <> NL) (print_nat n).
Proof.
  pose proof (print_nat_isdigit n) as Hd. split_and!; (eapply Forall_impl; [exact Hd|]); intros c Hc%isdigit_facts;
    unfold COMMA, NL in *; [tauto|apply Z.eqb_neq; lia|lia].
Qed.

Lemma row_plain ts i p : Forall (fun c => isspace c = false) (capture_row ts i p) /\ capture_row ts i p <> []
  /\ Forall (fun c => c <> NL) (capture_row ts i p).
Proof.
  unfold capture_row. pose proof digits_plain as D. split_and!.
  - repeat (apply Forall_app; split; [apply D|]; constructor; [done|]). apply D.
  - pose proof (print_nat_nonempty ts). by destruct (print_nat ts).
  - repeat (apply Forall_app; split; [apply D|]; constructor; [done|]). apply D.
Qed.

Lemma split_capture_row ts i p :
  split_row (capture_row ts i p) = Some (print_nat ts, print_nat i, print_nat p.1, print_nat p.2).
Proof.
  unfold split_row, capture_row. pose proof digits_plain as D.
  rewrite span_prefix; [|apply D|done]. rewrite span_prefix; [|apply D|done]. rewrite span_prefix; [done|apply D|done].
Qed.

Lemma toInt_print_nat n : 0 <= n <= INT_MAX -> toInt (print_nat n) = n.
Proof.
  unfold INT_MAX. intros Hn. unfold toInt, strtol. rewrite <- (app_nil_r (print_nat n)), scan_number_print by (done || lia).
  cbn [value_or_0]. unfold clamp, LONG_MIN, LONG_MAX, INT_MIN, INT_MAX. lia.
Qed.

(** A pulse the replay accepts. *)
Definition pulse_ok (p : Z * Z) : Prop := (p.1 = 0 \/ p.1 = 1) /\ 1 <= p.2 <= 32767.

#[global] Instance pulse_ok_dec p : Decision (pulse_ok p).
Proof. unfold pulse_ok. apply _. Defined.

Lemma parse_capture_row ts i p :
  0 <= ts <= INT_MAX -> 0 <= i <= INT_MAX -> pulse_ok p -> parse_row ts i (capture_row ts i p) = inr p.
Proof.
  intros Ht Hi [H1 H2]. unfold parse_row. rewrite split_capture_row, !toInt_print_nat by (unfold INT_MAX in *; destruct p; cbn in *; lia).
  rewrite !Z.eqb_refl. cbn [negb orb]. destruct p as [l d]. cbn [fst snd] in *.
  destruct (Z.ltb_spec d 1); [lia|]. destruct (Z.ltb_spec 32767 d); [lia|].
  destruct H1 as [-> | ->]; done.
Qed.

Section reading.
Context {C : Type} `{HR : ReliableCard C}.
Implicit Types c : C.

(** Reading from the middle of a file. *)
Lemma read_one path pre x post c :
  content c path = Some (FileNode (pre ++ x :: post)) ->
  (fs_read path (Z.of_nat (length pre)) 1 c).1 = [x].
Proof.
  intros Hc. rewrite (read_ok path _ 1 c _ Hc) by lia. rewrite Nat2Z.id, drop_app_length. done.
Qed.

Lemma read_until_line path line post : forall fuel pre acc c,
  content c path = Some (FileNode (pre ++ line ++ NL :: post)) -> Forall (fun x => x <> NL) line -> (length line < fuel)%nat ->
  let '((got, pos), c') := read_until fuel path (Z.of_nat (length pre)) acc c in
  got = acc ++ line /\ pos = Z.of_nat (length (pre ++ line ++ [NL])) /\ same_card c c'.
Proof.
  induction line as [|x line IH]; intros fuel pre acc c Hc Hl Hf; (destruct fuel as [|f]; [cbn in Hf; lia|]); cbn [read_until app] in *; run_st.
  - rewrite (read_one path pre NL post c Hc), Z.eqb_refl. cbn. rewrite app_nil_r, length_app. cbn.
    split_and!; [done|lia|apply read_same].
  - apply Forall_cons in Hl as [Hx Hl]. rewrite (read_one path pre x (line ++ NL :: post) c Hc). destruct (Z.eqb_spec x NL); [done|].
    specialize (IH f (pre ++ [x]) (acc ++ [x]) (fs_read path (Z.of_nat (length pre)) 1 c).2).
    rewrite read_same, <- app_assoc in IH. cbn [app] in IH. specialize (IH Hc Hl ltac:(cbn in Hf; lia)).
    replace (Z.of_nat (length pre) + 1) with (Z.of_nat (length (pre ++ [x]))) by (rewrite length_app; cbn; lia).
    destruct (read_until f path _ _ _) as [[got pos] c']. destruct IH as (-> & -> & S1).
    rewrite <- !app_assoc. split_and!; [done|done|]. etrans; [apply read_same|done].
Qed.

Lemma read_line_ok path pre line post c :
  content c path = Some (FileNode (pre ++ line ++ NL :: post)) -> Forall (fun x => x <> NL) line ->
  let '((got, pos), c') := read_line path (Z.of_nat (length pre)) c in
  got = line /\ pos = Z.of_nat (length (pre ++ line ++ [NL])) /\ same_card c c'.
Proof.
  intros Hc Hl. unfold read_line. run_st. rewrite (size_spec path c _ Hc).
  pose proof (read_until_line path line post (Datatypes.S (Z.to_nat (Z.of_nat (length (pre ++ line ++ NL :: post)) - Z.of_nat (length pre))))
                pre [] (fs_size path c).2) as L.
  rewrite size_same in L. specialize (L Hc Hl). rewrite !length_app in *. cbn [length] in *. specialize (L ltac:(lia)).
  destruct (read_until _ _ _ _ _) as [[got pos] c']. destruct L as (-> & -> & S1). split_and!; [done|done|].
  etrans; [apply size_same|done].
Qed.

Lemma available_ok path pre post c :
  content c path = Some (FileNode (pre ++ post)) ->
  (fs_available path (Z.of_nat (length pre)) c).1 = negb (bool_decide (post = [])) /\ same_card c (fs_available path (Z.of_nat (length pre)) c).2.
Proof.
  intros Hc. unfold fs_available. run_st. rewrite (size_spec path c _ Hc), length_app. split; [|apply size_same].
  destruct post; cbn [length]; [rewrite bool_decide_eq_true_2 by done; cbn; apply Z.ltb_ge; lia|].
  rewrite bool_decide_eq_false_2 by done. cbn. apply Z.ltb_lt. lia.
Qed.

(** The rows of a capture, read from any of them on. *)
Lemma replay_rows_ok path ts pulses : forall fuel pre done_ c,
  content c path = Some (FileNode (pre ++ rows_text ts (Z.of_nat (length done_)) pulses)) ->
  0 <= ts <= INT_MAX -> Forall pulse_ok pulses -> (length done_ + length pulses <= CAPTURE_PULSE_CAPACITY)%nat ->
  (length pulses < fuel)%nat ->
  let '(r, c') := replay_rows fuel path ts (Z.of_nat (length pre)) done_ c in
  r = Some (inr (done_ ++ pulses, Z.of_nat (length (pre ++ rows_text ts (Z.of_nat (length done_)) pulses)))) /\ same_card c c'.
Proof.
  induction pulses as [|p pulses IH]; intros fuel pre dn c Hc Ht Hp Hl Hf; (destruct fuel as [|f]; [lia|]); cbn [replay_rows]; run_st.
  - cbn [rows_text] in *. destruct (available_ok path pre [] c Hc) as [-> S1]. rewrite bool_decide_eq_true_2 by done. cbn.
    rewrite !app_nil_r. done.
  - cbn [rows_text] in Hc |- *. set (row := capture_row ts (Z.of_nat (length dn)) p) in *. destruct (row_plain ts (Z.of_nat (length dn)) p) as (R1 & R2 & R3).
    fold row in R1, R2, R3. apply Forall_cons in Hp as [Hp Hps]. cbn [length] in Hl, Hf.
    set (rest := rows_text ts (Z.of_nat (length dn) + 1) pulses) in *.
    destruct (available_ok path pre (row ++ CRLF ++ rest) c Hc) as [E1 S1]. rewrite E1.
    rewrite bool_decide_eq_false_2 by (by destruct row). cbn [negb orb].
    destruct (Nat.leb_spec CAPTURE_PULSE_CAPACITY (length dn)); [lia|]. run_st.
    set (c1 := (fs_available path (Z.of_nat (length pre)) c).2) in *.
    assert (Hc1 : content c1 path = Some (FileNode (pre ++ (row ++ [CR]) ++ NL :: rest))).
    { rewrite (S1 path), Hc. do 2 f_equal. unfold CRLF. by rewrite <- app_assoc. }
    pose proof (read_line_ok path pre (row ++ [CR]) rest c1 Hc1) as L.
    destruct (read_line path (Z.of_nat (length pre)) c1) as [[line pos] c2]. cbn [fst snd].
    destruct L as (-> & -> & S2). { apply Forall_app. split; [done|by repeat constructor]. }
    rewrite trim_line by done. replace (length row =? 0)%nat with false by (symmetry; apply Nat.eqb_neq; by destruct row).
    unfold row at 1. rewrite parse_capture_row by (try done; unfold INT_MAX, CAPTURE_PULSE_CAPACITY in *; lia).
    specialize (IH f (pre ++ (row ++ [CR]) ++ [NL]) (dn ++ [p]) c2). rewrite !length_app in IH. cbn [length] in IH.
    rewrite Nat2Z.inj_add in IH. change (Z.of_nat 1) with 1 in IH. fold rest in IH.
    assert (Hc2 : content c2 path = Some (FileNode ((pre ++ (row ++ [CR]) ++ [NL]) ++ rest))).
    { rewrite (S2 path), Hc1. do 2 f_equal. by rewrite <- !app_assoc. }
    specialize (IH Hc2 Ht Hps ltac:(lia) ltac:(lia)). rewrite !length_app. cbn [length].
    destruct (replay_rows f path ts _ _ c2) as [r c3]. destruct IH as (-> & S3). split.
    + rewrite <- app_assoc. cbn [app]. do 4 f_equal. unfold CRLF. rewrite ?length_app. cbn [length app]. lia.
    + etrans; [exact S1|]. etrans; [exact S2|exact S3].
Qed.
End reading.

(** ** A card without faults stores the capture *)

Lemma row_short ts i p : 0 <= ts <= INT_MAX -> 0 <= i < 10000 -> pulse_ok p -> (length (capture_row ts i p) < 48)%nat.
Proof.
  unfold INT_MAX. destruct p as [l d]. intros Ht Hi [H1 H2]. unfold capture_row. cbn [fst snd] in *. rewrite !length_app. cbn [length]. rewrite !length_app. cbn [length].
  rewrite length_app. cbn [length].
  pose proof (print_nat_length10 9 ts ltac:(cbn; lia)). pose proof (print_nat_length10 3 i ltac:(cbn; lia)).
  pose proof (print_nat_length10 0 l ltac:(cbn; lia)). pose proof (print_nat_length10 4 d ltac:(cbn; lia)). lia.
Qed.

Section reliable.
Context {C : Type} `{HR : ReliableCard C}.
Implicit Types (c : C) (w : writer).

Lemma append_loop_true fuel : forall path data w c flushed,
  (length data <= fuel)%nat -> content c path = Some (FileNode flushed) -> (length (buffered w) < BLOCK)%nat ->
  (append_loop fuel path data w c).1.1 = true.
Proof.
  induction fuel as [|f IH]; intros path data w c flushed Hf Hc Hw.
  { destruct data; [done|cbn in Hf; lia]. }
  destruct data as [|x data]; [done|]. cbn [append_loop]. set (d := x :: data) in *.
  set (chunk := Nat.min (length d) (BLOCK - length (buffered w))).
  assert (Hchunk : (1 <= chunk <= length d)%nat) by (unfold chunk, d in *; cbn [length] in *; lia).
  assert (Hd : (length (drop chunk d) <= f)%nat) by (rewrite length_drop; lia).
  destruct (Nat.eqb_spec (length (buffered w ++ take chunk d)) BLOCK) as [E|E].
  - run_st. pose proof (append_ok path (buffered w ++ take chunk d) c flushed Hc) as Ec. rewrite Ec, E, Z.eqb_refl. cbn [negb].
    eapply IH; [done| |cbn; unfold BLOCK; lia]. by apply append_done.
  - eapply IH; [done|done|]. cbn [buffered]. rewrite length_app, length_take in *. unfold chunk in *. lia.
Qed.

Lemma append_line_true path line w c text : accounted path text w c -> (append_line path line w c).1.1 = true.
Proof.
  intros A. unfold append_line. run_st. pose proof (append_ok_text path line w c text A) as L.
  destruct A as (fl & A1 & _ & _ & _ & A5).
  assert (T : (append path line w c).1.1 = true) by (unfold append; by eapply append_loop_true).
  destruct (append path line w c) as [[b w1] c1]. cbn [fst snd] in *. rewrite T. cbn [negb].
  destruct (L T) as [(fl1 & B1 & _ & _ & _ & B5) _]. unfold append. by eapply append_loop_true.
Qed.

Lemma append_rows_true path ts pulses : forall index w c text,
  accounted path text w c -> 0 <= ts <= INT_MAX -> 0 <= index -> index + Z.of_nat (length pulses) <= 8192 -> Forall pulse_ok pulses ->
  (append_rows path ts index pulses w c).1.1 = None.
Proof.
  induction pulses as [|p pulses IH]; intros index w c text A Ht Hi Hl Hp; cbn [append_rows]; [done|].
  apply Forall_cons in Hp as [Hp Hps]. cbn [length] in Hl.
  pose proof (row_short ts index p Ht ltac:(lia) Hp). destruct (Nat.leb_spec 48 (length (capture_row ts index p))); [lia|]. run_st.
  pose proof (append_line_true path (capture_row ts index p) w c text A) as T.
  pose proof (append_line_ok path (capture_row ts index p) w c text A) as L.
  destruct (append_line _ _ _ _) as [[b w1] c1]. cbn [fst snd] in *. rewrite T. cbn [negb]. destruct (L T) as [A1 _].
  eapply IH; [exact A1|done|lia|lia|done].
Qed.

Lemma read_back_ok chunk path text : 0 < chunk -> forall fuel checked hash c,
  content c path = Some (FileNode text) -> (checked <= length text)%nat -> (length text - checked < fuel)%nat ->
  (read_back chunk fuel path (Z.of_nat (length text)) (Z.of_nat checked) hash c).1 = (Z.of_nat (length text), hashBytes hash (drop checked text)).
Proof.
  intros Hk. induction fuel as [|f IH]; intros checked hash c Hc Hl Hf; [lia|]. cbn [read_back].
  destruct (Z.ltb_spec (Z.of_nat checked) (Z.of_nat (length text))) as [Hlt|Hge].
  - run_st. rewrite (read_ok path _ chunk c text Hc), Nat2Z.id by lia. set (k := Z.to_nat chunk). assert (1 <= k)%nat by (unfold k; lia).
    destruct (take k (drop checked text)) as [|y ys] eqn:E.
    { apply (f_equal length) in E. rewrite length_take, length_drop in E. cbn [length] in E. lia. }
    rewrite <- E, <- Nat2Z.inj_add, IH.
    + f_equal. rewrite <- hashBytes_app, <- drop_drop. f_equal. rewrite length_take, length_drop.
      rewrite <- (take_drop k (drop checked text)) at 3. f_equal.
      destruct (Nat.le_gt_cases k (length text - checked)); [by rewrite Nat.min_l|]. rewrite Nat.min_r, !drop_ge; try done; rewrite ?length_drop; lia.
    + by rewrite read_same.
    + rewrite length_take, length_drop. lia.
    + rewrite length_take, length_drop. lia.
  - rewrite drop_ge by lia. cbn. f_equal. lia.
Qed.

Lemma write_capture_true path ts pulses k full c :
  content c path = Some (FileNode []) -> 0 <= ts <= INT_MAX -> Z.of_nat (length pulses) <= 8192 -> Forall pulse_ok pulses ->
  ok (write_capture path ts pulses k full c).1 = true.
Proof.
  intros Hc Ht Hl Hp. unfold write_capture. run_st.
  assert (A0 : accounted path [] new_writer c) by (exists []; cbn; unfold BLOCK; split_and!; done || lia).
  pose proof (append_line_true path capture_header new_writer c [] A0) as T1.
  pose proof (append_line_ok path capture_header new_writer c [] A0) as L1.
  destruct (append_line _ _ _ _) as [[b w1] c1]. cbn [fst snd] in *. rewrite T1. cbn [negb]. destruct (L1 T1) as [A1 E1]. run_st.
  pose proof (append_rows_true path ts pulses 0 w1 c1 _ A1 Ht ltac:(lia) ltac:(lia) Hp) as T2.
  pose proof (append_rows_ok path ts pulses 0 w1 c1 _ A1) as L2.
  destruct (append_rows _ _ _ _ _ _) as [[e w2] c2]. cbn [fst snd] in *. rewrite T2. destruct (L2 T2) as [A2 E2]. run_st.
  cbn [app] in A2. rewrite <- app_assoc in A2. fold (capture_text ts pulses) in A2.
  assert (Eh : expectedHash w2 = hashBytes FNV_BASIS (capture_text ts pulses)).
  { rewrite E2, E1. cbn [expectedHash new_writer]. unfold capture_text. by rewrite <- hashBytes_app, <- app_assoc. }
  destruct A2 as (fl & F1 & F2 & F3 & F4 & F5). set (text := capture_text ts pulses) in *.
  set (m := (if (length (buffered w2) =? 0)%nat then mret 0 else fs_append path (buffered w2)) c2).
  assert (M : m.1 = Z.of_nat (length (buffered w2)) /\ content m.2 path = Some (FileNode text)).
  { unfold m. destruct (Nat.eqb_spec (length (buffered w2)) 0) as [E|E].
    - destruct (buffered w2); [|done]. cbn. rewrite F2, app_nil_r. done.
    - pose proof (append_ok path (buffered w2) c2 fl F1) as X. split; [done|]. rewrite F2. by apply append_done. }
  clearbody m. destruct m as [n c3]. cbn [fst snd] in *. destruct M as [-> M]. unfold verify_capture. run_st.
  rewrite (open_ok path c3 _ M). run_st. set (c4 := (fs_open path c3).2).
  assert (M4 : content c4 path = Some (FileNode text)) by (unfold c4; by rewrite open_same).
  rewrite (size_spec path c4 _ M4). set (c5 := (fs_size path c4).2).
  assert (M5 : content c5 path = Some (FileNode text)) by (unfold c5; by rewrite size_same).
  pose proof (read_back_ok 64 path text ltac:(lia) (Datatypes.S (Z.to_nat (Z.of_nat (length text)))) 0 FNV_BASIS c5 M5 ltac:(lia) ltac:(lia)) as R.
  change (Z.of_nat 0) with 0 in R. destruct (read_back _ _ _ _ _ _ _) as [[checked hash] c6]. cbn [fst snd] in *. injection R as -> ->.
  cbn [written expected expectedHash]. rewrite F3, F4, Eh, ?drop_0, !Z.eqb_refl. cbn [negb orb].
  replace (Z.of_nat (length fl) + Z.of_nat (length (buffered w2))) with (Z.of_nat (length text)) by (rewrite F2, length_app; lia).
  rewrite Z.eqb_refl. done.
Qed.
End reliable.

(** ** Round trip *)

(** There is memory, and taking it does not touch the card. *)
Class SteadyMemory (S C : Type) `{HasVm S} `{!HasStore S C} `{!HasIr S} := {
  allocate_ok s : (allocate s).1 = true;
  allocate_sd s : sd_of (allocate s).2 = sd_of s }.

Section roundtrip.
Context {S C : Type} `{HasClock S} `{!HasStore S C} `{!HasEpoch S} `{!StillClock S C} `{HR : ReliableCard C}.
Context `{!HasIr S} `{!SteadyMemory S C} (settings : ir_config).
Implicit Types s : S.

Lemma replay_file_ok ts pulses repeats s :
  content (card_of s) (capture_path ts) = Some (FileNode (capture_text ts pulses)) -> 0 <= ts <= INT_MAX ->
  Forall pulse_ok pulses -> (length pulses <= CAPTURE_PULSE_CAPACITY)%nat ->
  exists s', same_card (card_of s) (card_of s')
    /\ replay_file settings (capture_path ts) ts repeats s
       = (r ← replayEnvelope settings pulses repeats; mret (Some (with_path (capture_path ts) r))) s'.
Proof.
  intros Hc Ht Hp Hl. set (path := capture_path ts) in *. unfold replay_file. rewrite st_bind_run, on_fs_run. cbn [fst snd].
  set (rest := rows_text ts 0 pulses).
  assert (Hc0 : content (card_of s) path = Some (FileNode ([] ++ (capture_header ++ [CR]) ++ NL :: rest))) by (rewrite Hc; unfold capture_text, CRLF; by rewrite <- app_assoc).
  pose proof (read_line_ok path [] (capture_header ++ [CR]) rest (card_of s) Hc0) as L. change (Z.of_nat (length [])) with 0 in L.
  destruct (read_line path 0 (card_of s)) as [[header pos] c1]. cbn [fst snd].
  destruct L as (-> & -> & S1). { apply (bool_decide_unpack _). vm_compute. exact I. }
  rewrite trim_line; [|done|apply (bool_decide_unpack _); vm_compute; exact I]. rewrite bytes_eqb_refl. cbn [negb app].
  set (s1 := put_sd (set_storage c1 (sd_of s)) s). assert (K1 : card_of s1 = c1) by (unfold s1, card_of; by rewrite sd_of_put).
  clearbody s1. rewrite st_bind_run. rewrite allocate_ok. cbn [negb].
  assert (K2 : card_of (allocate s1).2 = c1) by (unfold card_of in *; by rewrite allocate_sd). set (s2 := (allocate s1).2) in *. clearbody s2.
  rewrite st_bind_run, on_fs_run. cbn [fst snd]. rewrite K2. set (s3 := put_sd _ s2).
  assert (K3 : card_of s3 = (turns path c1).2) by (unfold s3, card_of; by rewrite sd_of_put). clearbody s3.
  assert (S3 : same_card (card_of s) (card_of s3)).
  { rewrite K3. etrans; [exact S1|]. unfold turns. run_st. apply size_same. }
  assert (Hc1 : content c1 path = Some (FileNode (((capture_header ++ [CR]) ++ [NL]) ++ rest))) by (rewrite (S1 path), Hc0; by rewrite <- !app_assoc).
  assert (Hf : (turns path c1).1 = Datatypes.S (Datatypes.S (length (((capture_header ++ [CR]) ++ [NL]) ++ rest)))).
  { unfold turns. run_st. rewrite (size_spec path c1 _ Hc1). by rewrite Nat2Z.id. }
  rewrite Hf, st_bind_run, on_fs_run. cbn [fst snd].
  assert (Hrows : forall i l, (length l <= length (rows_text ts i l))%nat).
  { intros i l. revert i. induction l as [|p l IH]; intros i; [done|]. cbn [rows_text]. rewrite !length_app. specialize (IH (i + 1)). cbn [CRLF length]. lia. }
  pose proof (replay_rows_ok path ts pulses (Datatypes.S (Datatypes.S (length (((capture_header ++ [CR]) ++ [NL]) ++ rest))))
               ((capture_header ++ [CR]) ++ [NL]) [] (card_of s3)) as R.
  change (Z.of_nat (length [])) with 0 in R. fold rest in R. rewrite (S3 path), Hc0 in R.
  specialize (R ltac:(by rewrite <- !app_assoc) Ht Hp Hl ltac:(rewrite (length_app _ rest); unfold rest; specialize (Hrows 0 pulses); lia)).
  cbn [app] in R |- *. destruct (replay_rows _ _ _ _ _ (card_of s3)) as [rows c4]. cbn [fst snd]. destruct R as (-> & S4).
  set (s4 := put_sd _ s3). assert (K4 : card_of s4 = c4) by (unfold s4, card_of; by rewrite sd_of_put). clearbody s4.
  rewrite st_bind_run, on_fs_run. cbn [fst snd]. rewrite K4.
  assert (Hc4 : content c4 path = Some (FileNode ((((capture_header ++ [CR]) ++ [NL]) ++ rest) ++ []))).
  { rewrite (S4 path), (S3 path), Hc0. rewrite app_nil_r. by rewrite <- !app_assoc. }
  destruct (available_ok path (((capture_header ++ [CR]) ++ [NL]) ++ rest) [] c4 Hc4) as [-> S5]. rewrite bool_decide_eq_true_2 by done. cbn [negb].
  eexists. split; [|reflexivity]. unfold card_of at 2. rewrite sd_of_put. cbn [storage set_storage].
  etrans; [exact S3|]. etrans; [exact S4|exact S5].
Qed.

(** C16: on a card without faults a captured frame of up to 8192 pulses (levels 0
    and 1, 1 to 32767 microseconds) is stored, and IR_REPLAY of the time it was
    stored under hands exactly those pulses, in order, to the transmitter. *)
Theorem capture_replay_roundtrip (pulses : list (Z * Z)) (symbols : nat) (full : bool) (timestamp repeats : Z) s :
  content (card_of s) (str "/samples") = Some DirNode ->
  (artifactPath (str "/samples") (str "ir_raw_") (str ".csv") s).1 = Some (timestamp, capture_path timestamp) ->
  0 < timestamp <= INT_MAX -> (0 < length pulses <= CAPTURE_PULSE_CAPACITY)%nat -> Forall pulse_ok pulses -> 1 <= repeats <= 20 ->
  let '(stored, s1) := irisStoreIrCapture pulses symbols full s in
  ok stored = true /\ value stored = timestamp
  /\ forall s2, same_card (card_of s1) (card_of s2) ->
     exists s3, same_card (card_of s2) (card_of s3)
       /\ irisIrReplay settings [timestamp; repeats] s2
          = (r ← replayEnvelope settings pulses repeats; mret (Some (with_path (capture_path timestamp) r))) s3.
Proof.
  intros Hd Ha Ht Hl Hp Hr. unfold irisStoreIrCapture. destruct (Nat.eqb_spec (length pulses) 0); [lia|].
  pose proof (artifactPath_ok (str "/samples") (str "ir_raw_") (str ".csv") s) as A. rewrite st_bind_run.
  destruct (artifactPath _ _ _ s) as [r0 s0]. cbn [fst snd] in *. rewrite Ha in *. destruct A as (P & _ & Hn).
  set (path := capture_path timestamp) in *. rewrite st_bind_run, on_fs_run. cbn [fst snd].
  assert (Ec : (fs_create path (card_of s0)).1 = true).
  { change path with (str "/samples" ++ SLASH :: (str "ir_raw_" ++ print_nat timestamp ++ str ".csv")). apply create_ok.
    - rewrite !not_elem_of_app. split_and!; [apply (bool_decide_unpack _); vm_compute; exact I| |apply (bool_decide_unpack _); vm_compute; exact I].
      intros Hin. pose proof (print_nat_isdigit timestamp) as Hg. rewrite Forall_forall in Hg. apply Hg in Hin. by vm_compute in Hin.
    - rewrite (P (str "/samples")); rewrite Hd; done.
    - change (str "/samples" ++ SLASH :: str "ir_raw_" ++ print_nat timestamp ++ str ".csv") with path. by rewrite Hn. }
  pose proof (create_spec path (card_of s0)) as Cs. rewrite Ec in *. cbn [negb]. rewrite on_fs_run. cbn [fst snd].
  set (s1 := put_sd _ s0). assert (K1 : card_of s1 = (fs_create path (card_of s0)).2) by (unfold s1, card_of; by rewrite sd_of_put). clearbody s1.
  rewrite <- K1 in Cs.
  pose proof (write_capture_true path timestamp pulses symbols full (card_of s1) Cs ltac:(lia)
               ltac:(unfold CAPTURE_PULSE_CAPACITY in *; lia) Hp) as T.
  pose proof (write_capture_ok path timestamp pulses symbols full (card_of s1) Cs) as W.
  destruct (write_capture path timestamp pulses symbols full (card_of s1)) as [r c2]. cbn [fst snd] in *. destruct (W T) as [W1 W2].
  split; [done|]. split; [rewrite W1; apply i32_id; unfold int32, INT_MIN; lia|]. intros s2 E2.
  assert (Hc2 : content (card_of s2) path = Some (FileNode (capture_text timestamp pulses))).
  { rewrite (E2 path). unfold card_of. rewrite sd_of_put. done. }
  unfold irisIrReplay. replace (_ || _) with false by (symmetry; rewrite !orb_false_iff; lia). fold path.
  rewrite st_bind_run, on_fs_run. cbn [fst snd]. rewrite (open_ok path _ _ Hc2).
  set (s3 := put_sd _ s2). assert (K3 : card_of s3 = (fs_open path (card_of s2)).2) by (unfold s3, card_of; by rewrite sd_of_put). clearbody s3.
  assert (S3 : same_card (card_of s2) (card_of s3)) by (rewrite K3; apply open_same).
  destruct (replay_file_ok timestamp pulses repeats s3) as (s4 & S4 & E4); [|lia|done|lia|].
  { rewrite (S3 _). exact Hc2. }
  exists s4. split; [by etrans|exact E4].
Qed.
End roundtrip.

(** ** Devices for the examples *)

(** A device of EspStoreRestart.v with a transmitter that keeps what it sends. *)
Record bench {C : Type} := Bench { bench_kit : kit C; bench_epoch : Z; bench_ir : capture; bench_sent : list (list rmt_data); bench_thread : ir_thread }.
Arguments bench : clear implicits.

#[global, refine] Instance bench_HasVm {C} : HasVm (bench C) :=
  {| vm_of s := vm_of (bench_kit s); put_vm v s := Bench C (put_vm v (bench_kit s)) (bench_epoch s) (bench_ir s) (bench_sent s) (bench_thread s) |}.
Proof. all: intros; try destruct s; try done. by destruct bench_kit0. Defined.

#[global, refine] Instance bench_HasClock {C} : HasClock (bench C) := {| millis := mret 0 |}.
Proof. all: by intros. Defined.

#[global, refine] Instance bench_HasStore {C} : HasStore (bench C) C :=
  {| sd_of s := sd_of (bench_kit s); put_sd d s := Bench C (put_sd d (bench_kit s)) (bench_epoch s) (bench_ir s) (bench_sent s) (bench_thread s);
     store_of s := store_of (bench_kit s); put_store q s := Bench C (put_store q (bench_kit s)) (bench_epoch s) (bench_ir s) (bench_sent s) (bench_thread s) |}.
Proof. all: by intros. Defined.

#[global] Instance bench_HasEpoch {C} : HasEpoch (bench C) :=
  {| epoch_of := bench_epoch; put_epoch e s := Bench C (bench_kit s) e (bench_ir s) (bench_sent s) (bench_thread s) |}.

#[global] Instance bench_HasIr {C} : HasIr (bench C) :=
  {| ir_of := bench_ir; put_ir c s := Bench C (bench_kit s) (bench_epoch s) c (bench_sent s) (bench_thread s);
     micros := mret 0; receiver := mret 1; delay _ := mret tt; allocate := mret true;
     rmtInit := mret true; rmtSetCarrier := mret true;
     rmtWrite l := fun s => (true, Bench C (bench_kit s) (bench_epoch s) (bench_ir s) (bench_sent s ++ [l]) (bench_thread s)); rmtDeinit := mret tt |}.

#[global] Instance bench_HasIrThread {C} : HasIrThread (bench C) :=
  {| irt_of := bench_thread; put_irt t s := Bench C (bench_kit s) (bench_epoch s) (bench_ir s) (bench_sent s) t |}.

#[global] Instance bench_StillClock {C} : StillClock (bench C) C.
Proof. by split. Qed.

#[global] Instance bench_SteadyMemory {C} : SteadyMemory (bench C) C.
Proof. by split. Qed.

Definition samples : gmap bytes node :=
  <[str "/samples" := DirNode]> (<[str "/samples/ir_raw_1.csv" := FileNode (str "older")]> ∅).
Definition on_bench {C} (c : C) : bench C := Bench C (device vm_init store_init c) 0 capture_init [] ir_thread_init.
Definition three_pulses : list (Z * Z) := [(0, 9000); (1, 4500); (0, 560)].

Definition some_ir : ir_config := IrConfig true (Config true 120000 2) 1000000 38000.

Lemma capture_replay_roundtrip_witness :
  let '(stored, s1) := irisStoreIrCapture three_pulses 2 false (on_bench (Good samples)) in
  exists s3, irisIrReplay some_ir [2; 3] s1
    = (r ← replayEnvelope some_ir three_pulses 3; mret (Some (with_path (capture_path 2) r))) s3.
Proof.
  pose proof (capture_replay_roundtrip some_ir three_pulses 2 false 2 3 (on_bench (Good samples))) as K.
  destruct (irisStoreIrCapture _ _ _ _) as [stored s1].
  destruct K as (_ & _ & K).
  - vm_compute. reflexivity.
  - vm_compute. reflexivity.
  - vm_compute. split; [reflexivity|intros X; discriminate X].
  - apply (bool_decide_unpack _). vm_compute. exact I.
  - apply (bool_decide_unpack _). vm_compute. exact I.
  - vm_compute. split; intros X; discriminate X.
  - destruct (K s1) as (s3 & _ & E); [by intros q|]. exists s3. exact E.
Defined.
End IrisArtifactsFacts.
