(* ===== verification/IrisIrThreadFacts.v ===== *)
(** * The capture thread: its receiver, its frames and its dictionary

    The receiver records only while the thread runs; every frame the thread
    announces is on the card, complete, under the time it announces; and the
    dictionary grows by exactly one verified line. *)
From S2P Require Import Prelude CLib EspRecord EspRegistry EspVm EspDispatch EspCard EspSd EspStore EspStoreFacts EspStoreRestart EspThreads EspIrCapture EspIrCaptureFacts EspIrReplay IrisArtifacts IrisIrThread IrisArtifactsFacts.

Open Scope Z_scope.

Module IrisIrThreadFacts.
Import EspRecord EspRegistry EspVm EspDispatch EspCard EspSd EspStore EspStoreFacts EspStoreRestart EspThreads Capture CaptureFacts IrReplay IrisArtifacts IrisIrThread IrisArtifactsFacts.

#[local] Arguments str : simpl never.

(** ** The receiver between two calls *)

Section receiver.
Context (cfg : config).

(** What the interrupt can do to a capture. *)
Definition ticks (c c' : capture) : Prop := exists edges, c' = steps cfg (interrupts edges) c.

#[export] Instance ticks_preorder : PreOrder ticks.
Proof.
  split; [by exists []|]. intros x y z [e1 ->] [e2 ->]. exists (e1 ++ e2).
  unfold steps, interrupts. by rewrite map_app, fold_left_app.
Qed.

Lemma edge_active now level c : captureActive (edge cfg now level c) = captureActive c.
Proof. unfold edge, captureEdge, set_edge, set_ready, add_pulse. by repeat case_match. Qed.

Lemma ticks_active c c' : ticks c c' -> captureActive c' = captureActive c.
Proof.
  intros [edges ->]. revert c. induction edges as [|e edges IH]; intros c; [done|]. cbn [interrupts map steps fold_left].
  unfold steps, interrupts in IH. rewrite IH. apply edge_active.
Qed.

Lemma ticks_wf c c' : ticks c c' -> capture_wf c -> capture_wf c'.
Proof. intros [edges ->]. apply steps_wf. Qed.

(** A frame that is complete stays as it is. *)
Lemma ticks_ready c c' : ticks c c' -> captureFrameReady c = true -> c' = c.
Proof.
  intros [edges ->] R. induction edges as [|e edges IH]; [done|]. cbn [interrupts map steps fold_left step].
  replace (edge cfg e.1 e.2 c) with c; [exact IH|]. unfold edge, captureEdge. rewrite R, orb_true_r. by destruct (interrupt c).
Qed.
End receiver.

(** ** Devices *)

(** What the device may do during a call of a driver: the interrupt may record,
    nothing else of what the thread looks at changes. *)
Class IrDevice (S C : Type) `{HasClock S} `{!HasStore S C} `{!HasIr S} `{!HasIrThread S} (settings : ir_config) := {
  quiet (s s' : S) : Prop := irt_of s' = irt_of s /\ sd_of s' = sd_of s /\ ticks (capture_config settings) (ir_of s) (ir_of s');
  ir_of_put c s : ir_of (put_ir c s) = c;
  irt_of_put t s : irt_of (put_irt t s) = t;
  ir_put_irt t s : ir_of (put_irt t s) = ir_of s;
  irt_put_ir c s : irt_of (put_ir c s) = irt_of s;
  sd_put_ir c s : sd_of (put_ir c s) = sd_of s;
  sd_put_irt t s : sd_of (put_irt t s) = sd_of s;
  ir_put_sd d s : ir_of (put_sd d s) = ir_of s;
  irt_put_sd d s : irt_of (put_sd d s) = irt_of s;
  millis_quiet s : quiet s (millis s).2;
  micros_quiet s : quiet s (micros s).2;
  receiver_quiet s : quiet s (receiver s).2;
  delay_quiet n s : quiet s (delay n s).2;
  allocate_quiet s : quiet s (allocate s).2;
  rmtInit_quiet s : quiet s (rmtInit s).2;
  rmtSetCarrier_quiet s : quiet s (rmtSetCarrier s).2;
  rmtWrite_quiet l s : quiet s (rmtWrite l s).2;
  rmtDeinit_quiet s : quiet s (rmtDeinit s).2 }.

(** Every run of [m] ends in a state with [P]. *)
Definition leaves {S A} (P : S -> Prop) (m : st S A) : Prop := forall s, P (m s).2.

Lemma leaves_bind {S A B} (P : S -> Prop) (m : st S A) (f : A -> st S B) :
  (forall a, leaves P (f a)) -> leaves P (m ≫= f).
Proof. intros Hf s. rewrite st_bind_run. apply Hf. Qed.

Lemma leaves_then {S A B} (P : S -> Prop) (m : st S A) (f : A -> st S B) :
  leaves P m -> (forall a, keeps P (f a)) -> leaves P (m ≫= f).
Proof. intros Hm Hf s. rewrite st_bind_run. apply Hf, Hm. Qed.

Section device.
Context {S C : Type} `{HasClock S} `{!HasStore S C} `{!HasEpoch S} `{HC : SdCard C} `{!HasIr S} `{!HasIrThread S}.
Context (settings : ir_config) `{!IrDevice S C settings}.
Implicit Types s : S.

#[export] Instance ir_StillClock : StillClock S C.
Proof. split. intros s. apply (millis_quiet s). Qed.

(** *** What the service does not touch *)

(** The thread's own state is [t], the receiver is consistent and on or off. *)
Definition steady (t : ir_thread) (s : S) : Prop := irt_of s = t /\ capture_wf (ir_of s).
Definition receiving (b : bool) (s : S) : Prop := captureActive (ir_of s) = b.

(** [m] leaves the thread and whether the receiver is on alone. *)
Definition calm {A} (m : st S A) : Prop := (forall t, keeps (steady t) m) /\ forall b, keeps (receiving b) m.

Lemma calm_ret {A} (a : A) : calm (mret a).
Proof. split; intros x; apply keeps_ret. Qed.
Lemma calm_bind {A B} (m : st S A) (f : A -> st S B) : calm m -> (forall a, calm (f a)) -> calm (m ≫= f).
Proof. intros [M1 M2] F. split; intros x; apply keeps_bind; auto; intros a; apply (F a). Qed.
Lemma calm_gets {A} (f : S -> A) : calm (gets f).
Proof. split; intros x; apply keeps_gets. Qed.

Lemma calm_quiet {A} (m : st S A) : (forall s, quiet s (m s).2) -> calm m.
Proof.
  intros Hm. split.
  - intros t s [E W]. destruct (Hm s) as (Q1 & _ & Q2). split; [congruence|by eapply ticks_wf].
  - intros b s E. destruct (Hm s) as (_ & _ & Q). unfold receiving in *. by rewrite (ticks_active _ _ _ Q).
Qed.

Lemma calm_on_ir {A} (f : capture -> A * capture) :
  (forall c, capture_wf c -> capture_wf (f c).2) -> (forall c, captureActive (f c).2 = captureActive c) -> calm (on_ir f).
Proof.
  intros Hf Ha. split; intros x s.
  - intros [E W]. unfold on_ir, steady. specialize (Hf _ W). destruct (f (ir_of s)) as [a c]. cbn [snd] in *.
    by rewrite irt_put_ir, ir_of_put.
  - unfold on_ir, receiving. specialize (Ha (ir_of s)). destruct (f (ir_of s)) as [a c]. cbn [snd] in *.
    by rewrite ir_of_put, Ha.
Qed.

Lemma calm_on_sd {A} (m : st (sd C) A) : calm (on_sd m).
Proof.
  split; intros x s; unfold on_sd, steady, receiving; destruct (m (sd_of s)); cbn [snd]; by rewrite ?irt_put_sd, ir_put_sd.
Qed.
Lemma calm_on_fs {A} (m : st C A) : calm (on_fs m).
Proof. apply calm_on_sd. Qed.
#[local] Hint Resolve calm_ret calm_gets calm_on_sd calm_on_fs : noobia.

Lemma calm_millis : calm millis.
Proof. apply calm_quiet, millis_quiet. Qed.
Lemma calm_micros : calm micros.
Proof. apply calm_quiet, micros_quiet. Qed.
Lemma calm_receiver : calm receiver.
Proof. apply calm_quiet, receiver_quiet. Qed.
Lemma calm_delay n : calm (delay n).
Proof. apply calm_quiet, delay_quiet. Qed.
Lemma calm_allocate : calm allocate.
Proof. apply calm_quiet, allocate_quiet. Qed.
Lemma calm_rmtInit : calm rmtInit.
Proof. apply calm_quiet, rmtInit_quiet. Qed.
Lemma calm_rmtSetCarrier : calm rmtSetCarrier.
Proof. apply calm_quiet, rmtSetCarrier_quiet. Qed.
Lemma calm_rmtWrite l : calm (rmtWrite l).
Proof. apply calm_quiet, rmtWrite_quiet. Qed.
Lemma calm_rmtDeinit : calm rmtDeinit.
Proof. apply calm_quiet, rmtDeinit_quiet. Qed.
#[local] Hint Resolve calm_millis calm_micros calm_receiver calm_delay calm_allocate calm_rmtInit calm_rmtSetCarrier
  calm_rmtWrite calm_rmtDeinit : noobia.

Ltac calm_auto := repeat match goal with
  | |- calm (_ ≫= _) => apply calm_bind; [|intros ?]
  | |- calm (match ?x with _ => _ end) => destruct x
  | |- calm (get_ir _) => apply calm_gets
  | |- calm _ => solve [auto with noobia]
  end.

Lemma captureReady_active cfg now c : captureActive (captureReady cfg now c).2 = captureActive c.
Proof. unfold captureReady. destruct (captureActive c) eqn:E; cbn [negb]; [|done]. by destruct (_ && _). Qed.

Lemma calm_captureReady : calm (ir_captureReady settings).
Proof.
  unfold ir_captureReady. calm_auto; (apply calm_on_ir; [intros c W; exact (step_wf _ (Ready _) c W)|apply captureReady_active]).
Qed.
Lemma calm_captureRearm : calm ir_captureRearm.
Proof.
  unfold ir_captureRearm.
  calm_auto; (apply calm_on_ir; [intros c W; exact (step_wf (capture_config settings) (Rearm _ _) c W)|]);
    intros c; unfold captureRearm; by destruct (captureActive c) eqn:E.
Qed.
#[local] Hint Resolve calm_captureReady calm_captureRearm : noobia.

Lemma calm_pulseCount : calm (ir_capturePulseCount settings).
Proof. unfold ir_capturePulseCount. calm_auto. Qed.
Lemma calm_pulse i : calm (ir_capturePulse settings i).
Proof. unfold ir_capturePulse. calm_auto. Qed.
#[local] Hint Resolve calm_pulseCount calm_pulse : noobia.

Lemma calm_copy k : forall i, calm (copy_pulses settings k i).
Proof. induction k as [|k IH]; intros i; cbn [copy_pulses]; calm_auto. Qed.
Lemma calm_repeats k l : calm (write_repeats k l).
Proof. induction k as [|k IH]; cbn [write_repeats]; calm_auto. Qed.
#[local] Hint Resolve calm_copy calm_repeats : noobia.

Lemma calm_replay l n b : calm (replayEnvelopeImpl settings l n b).
Proof. unfold replayEnvelopeImpl. calm_auto. Qed.

Lemma calm_free_path k : forall d p x n, calm (free_path k d p x n).
Proof. induction k as [|k IH]; intros; cbn [free_path]; calm_auto. Qed.
#[local] Hint Resolve calm_replay calm_free_path : noobia.

Lemma calm_store l n b : calm (irisStoreIrCapture l n b).
Proof. unfold irisStoreIrCapture, artifactPath, milliseconds. calm_auto. Qed.
#[local] Hint Resolve calm_store : noobia.

(** *** Starting and stopping the receiver *)

Lemma steady_start t : keeps (steady t) (ir_captureStart settings).
Proof.
  unfold ir_captureStart. apply keeps_bind; [apply keeps_gets|intros []].
  - intros s [E W]. unfold on_ir, steady. destruct (captureStart _ _ _ _) as [a c] eqn:X. cbn [snd]. rewrite irt_put_ir, ir_of_put.
    split; [done|]. pose proof (step_wf (capture_config settings) (Start 0 0) _ W) as Y. cbn in Y. by rewrite X in Y.
  - apply keeps_bind; [apply calm_receiver|intros level]. apply keeps_bind; [apply calm_micros|intros now].
    intros s [E W]. unfold on_ir, steady. destruct (captureStart _ _ _ _) as [a c] eqn:X. cbn [snd]. rewrite irt_put_ir, ir_of_put.
    split; [done|]. pose proof (step_wf (capture_config settings) (Start now level) _ W) as Y. cbn in Y. by rewrite X in Y.
Qed.

(** The receiver is on exactly when it could be started. *)
Lemma start_result s : receiving false s ->
  let '(b, s') := ir_captureStart settings s in receiving b s'.
Proof.
  unfold receiving. intros E. unfold ir_captureStart. rewrite st_bind_run. cbn [get_ir gets fst snd]. rewrite E, orb_false_r.
  destruct (rx_configured (capture_config settings)) eqn:X; cbn [negb].
  - run_st. set (s2 := (micros (receiver s).2).2).
    assert (E2 : captureActive (ir_of s2) = false).
    { unfold s2. destruct (micros_quiet (receiver s).2) as (_ & _ & Q). rewrite (ticks_active _ _ _ Q).
      destruct (receiver_quiet s) as (_ & _ & Q'). by rewrite (ticks_active _ _ _ Q'). }
    clearbody s2. unfold on_ir, captureStart. rewrite X, E2. cbn. by rewrite ir_of_put.
  - unfold on_ir, captureStart. rewrite X, E. cbn. by rewrite ir_of_put.
Qed.

Lemma steady_stop t : keeps (steady t) ir_captureStop.
Proof.
  intros s [E W]. unfold ir_captureStop, upd_ir, modify, steady. cbn [snd]. rewrite irt_put_ir, ir_of_put.
  split; [done|]. exact (step_wf (capture_config settings) Stop _ W).
Qed.

Lemma stop_leaves : leaves (receiving false) ir_captureStop.
Proof. intros s. unfold ir_captureStop, upd_ir, modify, receiving. cbn [snd]. by rewrite ir_of_put. Qed.

(** A verification releases the receiver on every path. *)
Lemma replayAndCapture_leaves l n : keeps (receiving false) (replayAndCapture settings l n).
Proof.
  intros s E. unfold replayAndCapture. rewrite st_bind_run. cbn [get_ir gets fst snd]. rewrite E.
  destruct (n =? 0)%nat; [done|]. rewrite st_bind_run. pose proof (start_result s E) as R.
  destruct (ir_captureStart settings s) as [[] s1]; cbn [fst snd negb]; [|exact R]. generalize s1.
  assert (Hstop : forall (B : Type) (x : B), leaves (receiving false) (ir_captureStop ;; mret x)).
  { intros B x. apply leaves_then; [apply stop_leaves|]. intros ?. apply keeps_ret. }
  apply leaves_bind; intros _. apply leaves_bind; intros sent. destruct (negb (ok sent)); [apply Hstop|].
  apply leaves_bind; intros _. apply leaves_bind; intros k. apply leaves_bind; intros o.
  destruct (_ || _); [apply Hstop|]. apply leaves_bind; intros [l'|]; apply Hstop.
Qed.

Lemma steady_replayAndCapture t l n : keeps (steady t) (replayAndCapture settings l n).
Proof.
  pose proof calm_pulseCount as K1. pose proof calm_copy as K2. pose proof calm_replay as K3. pose proof calm_delay as K4.
  unfold replayAndCapture, get_ir.
  repeat first [ progress cbn [negb] | apply keeps_ret | apply keeps_gets | apply steady_start | apply steady_stop | apply K1 | apply K2 | apply K3 | apply K4
    | apply keeps_bind; [|intros ?] | match goal with |- keeps _ (match ?x with _ => _ end) => destruct x end ].
Qed.

(** ** The thread's invariant *)

Definition thread_ok (t : ir_thread) : Prop :=
  length (it_pulses t) = MAX_PULSES /\ (lastPulses_ t <= MAX_PULSES)%nat
  /\ queue_wf (queue_ (it_base t)) /\ channelBusy_ (it_base t) = running_ (it_base t).

Definition sound (s : S) : Prop := thread_ok (irt_of s) /\ capture_wf (ir_of s).
Definition in_use (t : ir_thread) : Prop := running_ (it_base t) = true /\ captureStarted_ t = true.
Definition ir_inv (s : S) : Prop := sound s /\ (captureActive (ir_of s) = true -> in_use (irt_of s)).

Lemma sound_steady {A} (m : st S A) : (forall t, keeps (steady t) m) -> keeps sound m.
Proof. intros Hm s [T W]. destruct (Hm (irt_of s) s) as [E W']; [done|]. split; [by rewrite E|done]. Qed.

Lemma sound_upd f : (forall t, thread_ok t -> thread_ok (f t)) -> keeps sound (upd_irt f).
Proof. intros Hf s [T W]. unfold upd_irt, modify, sound. cbn [snd]. rewrite irt_of_put, ir_put_irt. auto. Qed.

Lemma inv_calm {A} (m : st S A) : calm m -> keeps ir_inv m.
Proof.
  intros [M1 M2] s [[T W] I]. destruct (M1 (irt_of s) s) as [E W']; [done|]. split; [by split; rewrite ?E|].
  rewrite E, (M2 _ s eq_refl). exact I.
Qed.

Lemma inv_upd f : (forall t, thread_ok t -> thread_ok (f t)) -> (forall t, in_use t -> in_use (f t)) -> keeps ir_inv (upd_irt f).
Proof.
  intros Hf Hu s [T I]. split; [by apply sound_upd|]. unfold upd_irt, modify. cbn [snd]. rewrite irt_of_put, ir_put_irt. auto.
Qed.

Lemma inv_off s : sound s -> receiving false s -> ir_inv s.
Proof. intros T R. split; [done|]. unfold receiving in R. by rewrite R. Qed.

Lemma receiving_upd b f : keeps (receiving b) (upd_irt f).
Proof. intros s R. unfold upd_irt, modify, receiving. cbn [snd]. by rewrite ir_put_irt. Qed.

(** A change of the common part of the thread. *)
Lemma upd_base f : upd_thread it_thread_of it_put_thread f = upd_irt (fun t => set_base (f (it_base t)) t).
Proof. done. Qed.

Lemma thread_ok_base f t :
  (queue_wf (queue_ (it_base t)) -> queue_wf (queue_ (f (it_base t)))) ->
  (channelBusy_ (it_base t) = running_ (it_base t) -> channelBusy_ (f (it_base t)) = running_ (f (it_base t))) ->
  thread_ok t -> thread_ok (set_base (f (it_base t)) t).
Proof. intros Hq Hb (T1 & T2 & T3 & T4). split_and!; cbn; auto. Qed.

Lemma sound_onStop : keeps sound it_onStop.
Proof. apply keeps_bind; [apply sound_steady, steady_stop|]. intros _. by apply sound_upd. Qed.

Lemma sound_it_stop : keeps sound it_stop.
Proof.
  unfold it_stop, thread_stop. rewrite upd_base. apply keeps_bind; [|intros _].
  - apply sound_upd. intros t. by apply thread_ok_base.
  - apply keeps_bind; [apply sound_onStop|]. intros _. apply keeps_bind; [apply keeps_gets|]. intros ?. apply keeps_ret.
Qed.

Lemma it_stop_leaves : leaves (receiving false) it_stop.
Proof.
  unfold it_stop, thread_stop, it_onStop. apply leaves_bind. intros _. apply leaves_then.
  - apply leaves_then; [apply stop_leaves|]. intros _. apply receiving_upd.
  - intros _. apply keeps_bind; [apply keeps_gets|]. intros ?. apply keeps_ret.
Qed.

Lemma inv_it_stop : keeps ir_inv it_stop.
Proof. intros s [T _]. apply inv_off; [by apply sound_it_stop|apply it_stop_leaves]. Qed.

Lemma inv_fail_with e : keeps ir_inv (fail_with e).
Proof. apply keeps_bind; [apply inv_it_stop|]. intros ?. apply keeps_ret. Qed.
#[local] Hint Resolve inv_it_stop inv_fail_with : noobia.

Ltac inv_auto := repeat match goal with
  | |- keeps ir_inv (_ ≫= _) => apply keeps_bind; [|intros ?]
  | |- keeps ir_inv (match ?x with _ => _ end) => destruct x
  | |- keeps ir_inv (get_ir _) => apply keeps_gets
  | |- keeps ir_inv (get_irt _) => apply keeps_gets
  | |- keeps ir_inv (upd_irt _) => solve [apply inv_upd; [intros ? (T1 & T2 & T3 & T4); split_and!; cbn; rewrite ?length_insert; auto|by intros ? [? ?]]]
  | |- keeps ir_inv _ => solve [auto with noobia | apply inv_calm; auto with noobia]
  end.

Lemma inv_copy_frame k : forall i short, keeps ir_inv (copy_frame settings k i short).
Proof. induction k as [|k IH]; intros i short; cbn [copy_frame]; inv_auto. Qed.
#[local] Hint Resolve inv_copy_frame : noobia.

Lemma push_wf r q : queue_wf q -> queue_wf (push r q).
Proof. intros Q. by apply push_contents. Qed.

Lemma inv_store_frame n : keeps ir_inv (store_frame n).
Proof.
  unfold store_frame. inv_auto. rewrite upd_base. apply inv_upd.
  - intros t. apply thread_ok_base; [apply push_wf|done].
  - by intros t [? ?].
Qed.
#[local] Hint Resolve inv_store_frame : noobia.

Lemma inv_take_frame : keeps ir_inv (take_frame settings).
Proof.
  unfold take_frame. apply keeps_bind; [apply inv_calm, calm_pulseCount|intros n].
  destruct (_ || _) eqn:E; [auto with noobia|]. to_prop. inv_auto.
Qed.
#[local] Hint Resolve inv_take_frame : noobia.

Lemma inv_step : keeps ir_inv (it_step settings).
Proof. unfold it_step. inv_auto. Qed.
#[local] Hint Resolve inv_step : noobia.

Lemma inv_tick : keeps ir_inv (it_tick settings).
Proof.
  unfold it_tick, thread_tick. inv_auto. rewrite upd_base. apply inv_upd.
  - intros t. by apply thread_ok_base.
  - by intros t [? ?].
Qed.
#[local] Hint Resolve inv_tick : noobia.

(** From a receiver that is off, starting marks the thread as capturing. *)
Lemma onStart_marks s : sound s ->
  sound (it_onStart settings s).2
  /\ (captureActive (ir_of (it_onStart settings s).2) = true -> captureStarted_ (irt_of (it_onStart settings s).2) = true).
Proof.
  intros T. unfold it_onStart, upd_irt. run_st. set (s1 := (ir_captureStop s).2). assert (R1 : receiving false s1) by apply stop_leaves.
  assert (T1 : sound s1) by (by apply (sound_steady ir_captureStop steady_stop)). clearbody s1.
  set (s2 := (millis s1).2). assert (R2 : receiving false s2) by (by apply calm_millis).
  assert (T2 : sound s2) by (by apply (sound_steady millis), T1; apply calm_millis). clearbody s2.
  set (s3 := put_irt _ s2). assert (R3 : receiving false s3) by (by unfold s3, receiving; rewrite ir_put_irt).
  assert (T3 : sound s3).
  { apply (sound_upd (fresh_run (millis s1).1)); [|done]. intros t (A & B & D & E). split_and!; cbn; auto. lia. }
  clearbody s3. pose proof (start_result s3 R3) as R4.
  assert (T4 : sound (ir_captureStart settings s3).2) by (by apply (sound_steady _ steady_start)).
  destruct (ir_captureStart settings s3) as [b s4]. cbn [fst snd] in *. rewrite irt_of_put, ir_put_irt. split.
  - by apply (sound_upd (set_started b)).
  - cbn. unfold receiving in R4. by rewrite R4.
Qed.

Lemma fresh_ok t : thread_ok t -> thread_ok (set_base (fresh_queue (it_base t)) t).
Proof. intros (T1 & T2 & T3 & T4). split_and!; cbn; auto. by apply clear_contents. Qed.

Lemma inv_it_call args : keeps ir_inv (it_call settings args).
Proof.
  intros s I. unfold it_call, upd_irt. destruct (_ || _); [exact I|]. cbn zeta. unfold thread_call. rewrite !upd_base. unfold upd_irt. run_st. cbn [length Nat.ltb Nat.leb Nat.eqb orb andb negb].
  set (s1 := put_irt _ s). assert (T1 : sound s1) by (by apply (sound_upd (set_duration _)); [|apply I]). clearbody s1. run_st.
  set (s2 := put_irt _ s1).
  assert (T2 : sound s2) by (apply (sound_upd (fun t => set_base (fresh_queue (it_base t)) t)); [apply fresh_ok|done]). clearbody s2.
  destruct (onStart_marks s2 T2) as [T3 M]. set (s3 := (it_onStart settings s2).2) in *. clearbody s3.
  set (s4 := put_irt _ s3).
  assert (I4 : ir_inv s4).
  { split; [apply (sound_upd (fun t => set_base (set_run true (it_base t)) t)); [|done]; intros t; by apply thread_ok_base|].
    unfold s4. rewrite ir_put_irt, irt_of_put. intros A. split; [done|]. by apply M. }
  clearbody s4. set (s5 := (millis s4).2). assert (I5 : ir_inv s5) by (by apply (inv_calm _ calm_millis)). clearbody s5.
  apply (inv_upd (fun t => set_base (set_next (millis s4).1 (it_base t)) t)); [|by intros t [? ?]|done].
  intros t. by apply thread_ok_base.
Qed.

Lemma inv_replayLast args : keeps ir_inv (replayLast settings args).
Proof. unfold replayLast, replayEnvelope. inv_auto. Qed.

Lemma inv_verifyLast args : keeps ir_inv (verifyLast settings args).
Proof.
  intros s I. unfold verifyLast. destruct args; [|exact I]. rewrite st_bind_run. cbn [get_irt gets fst snd].
  destruct (_ =? 0)%nat; [exact I|]. rewrite st_bind_run.
  set (P := fun s => sound s /\ receiving false s). assert (Hend : forall s, P s -> ir_inv s) by (intros x [? ?]; by apply inv_off).
  apply Hend. assert (P0 : P (it_stop s).2) by (split; [apply sound_it_stop, I|apply it_stop_leaves]). revert P0. generalize (it_stop s).2.
  assert (Hc : forall A (m : st S A), calm m -> keeps P m).
  { intros A m [M1 M2] x [X1 X2]. split; [by apply (sound_steady m)|by apply M2]. }
  assert (Hr : forall l n, keeps P (replayAndCapture settings l n)).
  { intros l n x [X1 X2]. split; [by apply (sound_steady _ (fun t => steady_replayAndCapture t l n))|by apply replayAndCapture_leaves]. }
  match goal with |- forall x, P x -> P (?m x).2 => change (keeps P m) end.
  pose proof (Hc _ _ calm_allocate) as Ha.
  repeat first [ apply keeps_ret | apply keeps_gets | exact Ha | apply Hr | apply keeps_bind; [|intros ?]
    | match goal with |- keeps _ (match ?x with _ => _ end) => destruct x end ].
Qed.

Lemma inv_take_record e p : keeps ir_inv (take_record it_thread_of it_put_thread e p).
Proof.
  unfold take_record. intros s I. run_st. destruct (pop (queue_ (it_thread_of s))) as [[r q]|] eqn:E; [|exact I]. run_st. rewrite upd_base.
  unfold upd_irt, modify. cbn [snd].
  assert (Q : queue_wf q).
  { destruct I as [[(_ & _ & Q & _) _] _]. pose proof (pop_contents _ Q) as K. unfold it_thread_of in E. rewrite E in K.
    destruct (contents _); [done|]. apply K. }
  destruct I as [[(T1 & T2 & T3 & T4) W] U]. split; [split|]; rewrite ?irt_of_put, ?ir_put_irt; [|done|done].
  split_and!; cbn; auto.
Qed.
#[local] Hint Resolve inv_it_call inv_replayLast inv_verifyLast inv_take_record : noobia.

(** What can happen to the thread: the native functions and the main loop. *)
Inductive ir_op :=
  | IR_THREAD_START (arguments : list Z) | IR_THREAD_STOP | IR_THREAD_STATUS | IR_THREAD_POP | IR_THREAD_POLL
  | IR_REPLAY_LAST (arguments : list Z) | IR_VERIFY_LAST (arguments : list Z)
  | IR_DICT_REMEMBER (text : bytes) | IR_DICT_STATUS (arguments : list Z) | Loop.

Definition ir_do (op : ir_op) : st S unit :=
  match op with
  | IR_THREAD_START args => it_call settings args ;; mret tt
  | IR_THREAD_STOP => it_stop ;; mret tt
  | IR_THREAD_STATUS => thread_status it_thread_of (it_statusDetail settings) ;; mret tt
  | IR_THREAD_POP => thread_pop it_thread_of it_put_thread ;; mret tt
  | IR_THREAD_POLL => thread_poll it_thread_of it_put_thread ;; mret tt
  | IR_REPLAY_LAST args => replayLast settings args ;; mret tt
  | IR_VERIFY_LAST args => verifyLast settings args ;; mret tt
  | IR_DICT_REMEMBER text => irisIrDictionaryRemember text ;; mret tt
  | IR_DICT_STATUS args => irisIrDictionaryStatus args ;; mret tt
  | Loop => it_tick settings ;; mret tt
  end.

Lemma calm_thread_status : calm (thread_status it_thread_of (it_statusDetail settings)).
Proof. unfold thread_status, it_statusDetail, get_irt. calm_auto. Qed.
Lemma calm_remember text : calm (irisIrDictionaryRemember text).
Proof. unfold irisIrDictionaryRemember. calm_auto. Qed.
Lemma calm_dictionary_status args : calm (irisIrDictionaryStatus args).
Proof. unfold irisIrDictionaryStatus. calm_auto. Qed.
#[local] Hint Resolve calm_thread_status calm_remember calm_dictionary_status : noobia.

Lemma inv_do op : keeps ir_inv (ir_do op).
Proof. destruct op; unfold ir_do, thread_pop, thread_poll; inv_auto. Qed.

(** C18: whatever sequence of thread calls, replays, verifications and turns of the
    main loop runs, with interrupts at any time, the receiver is on only while the
    capture thread runs; in a stopped thread the interrupt is detached. *)
Theorem ir_receiver_released (ops : list ir_op) s :
  ir_inv s ->
  let s' := (for_each ir_do ops s).2 in
  ir_inv s' /\ (running_ (it_base (irt_of s')) = false -> captureActive (ir_of s') = false /\ interrupt (ir_of s') = false).
Proof.
  intros I. cbn zeta. assert (I' : ir_inv (for_each ir_do ops s).2) by (apply keeps_for_each; [apply inv_do|exact I]).
  split; [done|]. destruct I' as [[_ (_ & _ & _ & Hi & _)] U]. intros R. unfold in_use in U.
  destruct (captureActive _); [destruct (U eq_refl); congruence|]. split; [done|]. destruct (interrupt _); [by rewrite Hi|done].
Qed.

(** ** A frame on its way to the card *)

Definition same_view (s s' : S) : Prop := irt_of s' = irt_of s /\ sd_of s' = sd_of s /\ ir_of s' = ir_of s.

#[local] Instance same_view_preorder : PreOrder same_view.
Proof. split; [done|]. intros x y z (A1 & A2 & A3) (B1 & B2 & B3). split_and!; congruence. Qed.

Lemma combine_lookup k : forall (a b : list Z) i, (i < k)%nat -> (i < length a)%nat -> (i < length b)%nat ->
  combine (take k a) (take k b) !! i = Some (nth i a 0, nth i b 0).
Proof.
  induction k as [|k IH]; intros [|x a] [|y b] [|i]; cbn [length]; intros; try lia; [done|]. cbn. apply IH; lia.
Qed.

(** The receiver holds a complete frame. *)
Definition holding (s : S) : Prop := captureActive (ir_of s) = true /\ captureFrameReady (ir_of s) = true.

Lemma ready_again s : holding s -> (ir_captureReady settings s).1 = true /\ same_view s (ir_captureReady settings s).2.
Proof.
  intros [A R]. unfold ir_captureReady. rewrite st_bind_run. cbn [get_ir gets fst snd]. rewrite A, R. cbn [negb andb].
  rewrite st_bind_run. cbn [mret st_ret fst snd]. unfold on_ir, captureReady. rewrite A, R. cbn [negb andb fst snd].
  rewrite R. cbn [fst snd]. unfold same_view. by rewrite irt_put_ir, sd_put_ir, ir_of_put.
Qed.

Lemma count_again s : holding s ->
  (ir_capturePulseCount settings s).1 = capturedPulses (ir_of s) /\ same_view s (ir_capturePulseCount settings s).2.
Proof.
  intros Hs. unfold ir_capturePulseCount. rewrite st_bind_run. destruct (ready_again s Hs) as [-> V]. cbn [get_ir gets fst snd].
  destruct V as (V1 & V2 & V3). by rewrite V3.
Qed.

Lemma pulse_again s i : holding s -> capture_wf (ir_of s) -> (i < capturedPulses (ir_of s))%nat ->
  (ir_capturePulse settings i s).1 = pulses (ir_of s) !! i /\ same_view s (ir_capturePulse settings i s).2.
Proof.
  intros Hs (L & D & N & _) Hi. unfold ir_capturePulse. rewrite st_bind_run. destruct (ready_again s Hs) as [-> V].
  destruct (ir_captureReady settings s) as [b s1]. cbn [fst snd] in *. rewrite st_bind_run. cbn [get_ir gets fst snd].
  destruct V as (V1 & V2 & V3). rewrite V3. cbn [negb orb]. rewrite (proj2 (Nat.leb_gt _ _) Hi). cbn [get_ir gets fst snd]. rewrite V3.
  split; [|done]. unfold pulses. symmetry. destruct (ir_of s) as [ls ds k]. cbn [captureLevels captureDurationsUs capturedPulses] in *.
  apply combine_lookup; lia.
Qed.

(** A frame that becomes complete is one the interrupt has recorded. *)
Lemma ready_first s : capture_wf (ir_of s) ->
  let '(b, s') := ir_captureReady settings s in
  irt_of s' = irt_of s /\ sd_of s' = sd_of s
  /\ (b = true -> holding s' /\ exists c, ticks (capture_config settings) (ir_of s) c /\ pulses (ir_of s') = pulses c).
Proof.
  intros W. unfold ir_captureReady. rewrite st_bind_run. cbn [get_ir gets fst snd]. rewrite st_bind_run.
  set (m := (if _ : bool then micros else mret 0)).
  assert (Q : quiet s (m s).2) by (unfold m; destruct (_ && _); [apply micros_quiet|split_and!; done]).
  destruct (m s) as [now s1]. cbn [fst snd] in *. destruct Q as (Q1 & Q2 & Q3). unfold on_ir, captureReady.
  destruct (captureActive (ir_of s1)) eqn:A; cbn [negb].
  - rewrite irt_put_ir, sd_put_ir. split_and!; [done|done|]. intros R. unfold holding. rewrite ir_of_put. split; [split; [by case_match|exact R]|].
    exists (ir_of s1). split; [done|]. by case_match.
  - rewrite irt_put_ir, sd_put_ir. split_and!; [done|done|]. done.
Qed.

Lemma copied_take (P buf : list (Z * Z)) i p :
  take i buf = take i P -> P !! i = Some p -> (i < length buf)%nat -> take (Datatypes.S i) (<[i := p]> buf) = take (Datatypes.S i) P.
Proof.
  intros E Hp Hi. rewrite (take_S_r P i p Hp). rewrite (take_S_r _ i p) by (by rewrite list_lookup_insert_eq).
  by rewrite take_insert_ge, E by lia.
Qed.

(** The loop copies the frame, pulse by pulse, and changes nothing else. *)
Lemma copy_frame_ok k : forall i short s,
  holding s -> sound s -> (i + k <= capturedPulses (ir_of s))%nat ->
  take i (it_pulses (irt_of s)) = take i (pulses (ir_of s)) ->
  let '(r, s') := copy_frame settings k i short s in
  r <> None /\ sd_of s' = sd_of s /\ ir_of s' = ir_of s /\ it_base (irt_of s') = it_base (irt_of s)
  /\ take (i + k) (it_pulses (irt_of s')) = take (i + k) (pulses (ir_of s)).
Proof.
  induction k as [|k IH]; intros i short s Hs T Hn Hp; cbn [copy_frame].
  { cbn. rewrite Nat.add_0_r. done. }
  destruct T as [(T1 & T2 & T3 & T4) W]. rewrite st_bind_run.
  destruct (pulse_again s i Hs W ltac:(lia)) as [E V]. destruct (ir_capturePulse settings i s) as [r s1]. cbn [fst snd] in *.
  destruct V as (V1 & V2 & V3). rewrite E.
  destruct (pulses (ir_of s) !! i) as [p|] eqn:X; [|apply lookup_ge_None in X; rewrite length_pulses in X by done; lia].
  unfold upd_irt. run_st. rewrite !irt_of_put. set (s2 := put_irt _ _).
  assert (A1 : ir_of s2 = ir_of s) by (unfold s2; rewrite !ir_put_irt; done).
  assert (A2 : sd_of s2 = sd_of s) by (unfold s2; rewrite !sd_put_irt; done).
  assert (A3 : irt_of s2 = note_pulse p (set_pulse i p (irt_of s))) by (unfold s2; rewrite irt_of_put, V1; done).
  clearbody s2. specialize (IH (Datatypes.S i) (note_short p short) s2). unfold holding in IH. rewrite A1, A3 in IH.
  destruct (copy_frame settings k (Datatypes.S i) (note_short p short) s2) as [r' s'].
  destruct IH as (I1 & I2 & I3 & I4 & I5); [done| |lia| |].
  - split; [|by rewrite A1]. rewrite A3. split_and!; cbn; rewrite ?length_insert; auto.
  - cbn. apply copied_take; [done|done|]. rewrite T1. destruct W as (_ & _ & N & _). unfold MAX_PULSES. lia.
  - split_and!; [done|congruence|congruence| |].
    + by rewrite I4.
    + rewrite <- Nat.add_succ_comm. exact I5.
Qed.

(** Stopping leaves the card and the queue alone. *)
Lemma it_stop_view s :
  sd_of (it_stop s).2 = sd_of s /\ queue_ (it_thread_of (it_stop s).2) = queue_ (it_thread_of s).
Proof.
  unfold it_stop, thread_stop, it_onStop, upd_irt, ir_captureStop, upd_ir. rewrite upd_base. unfold upd_irt. run_st. unfold it_thread_of.
  rewrite !irt_of_put, !sd_put_irt, !sd_put_ir, !sd_put_irt, irt_put_ir, irt_of_put. done.
Qed.

Lemma fail_with_view e s :
  sd_of (fail_with e s).2 = sd_of s /\ queue_ (it_thread_of (fail_with e s).2) = queue_ (it_thread_of s).
Proof. unfold fail_with. run_st. apply it_stop_view. Qed.

Lemma rearm_sd s : sd_of (ir_captureRearm s).2 = sd_of s.
Proof.
  unfold ir_captureRearm. rewrite st_bind_run. cbn [get_ir gets fst snd]. unfold on_ir. destruct (negb _).
  - destruct (captureRearm _ _ _). apply sd_put_ir.
  - run_st. destruct (captureRearm _ _ _). cbn [snd]. rewrite sd_put_ir.
    destruct (micros_quiet (receiver s).2) as (_ & -> & _). by destruct (receiver_quiet s) as (_ & -> & _).
Qed.

(** What a step does to the card and the queue when it has announced the frame
    [P] as stored at [t]. *)
Definition announced (s s' : S) (P : list (Z * Z)) : Prop :=
  exists t carrier,
    queue_ (it_thread_of s') = push (frame_record (i32 t) (Z.of_nat (length P)) carrier) (queue_ (it_thread_of s))
    /\ last_frame (irt_of s') = P /\ content (card_of s) (capture_path t) = None
    /\ content (card_of s') (capture_path t) = Some (FileNode (capture_text t P)).

Lemma store_frame_ok s P :
  capture_wf (ir_of s) -> last_frame (irt_of s) = P ->
  let '(e, s') := store_frame (length P) s in
  preserves_files (card_of s) (card_of s')
  /\ (queue_ (it_thread_of s') = queue_ (it_thread_of s) \/ announced s s' P).
Proof.
  intros T HP. unfold store_frame. rewrite st_bind_run. cbn [get_ir gets fst snd]. rewrite st_bind_run. cbn [get_irt gets fst snd]. rewrite HP.
  set (full := (_ =? _)%nat). set (k := captureSymbolCount _). rewrite st_bind_run.
  pose proof (stored_capture_safe P k full s) as F. destruct (calm_store P k full) as [Hc _].
  destruct (Hc (irt_of s) s (conj eq_refl T)) as [E1 W1].
  destruct (irisStoreIrCapture P k full s) as [r s1]. cbn [fst snd] in *. destruct F as [F1 F2]. rewrite st_bind_run.
  destruct (proj1 calm_captureRearm (irt_of s) s1 (conj E1 W1)) as [E2 W2]. pose proof (rearm_sd s1) as D2.
  destruct (ir_captureRearm s1) as [rearmed s2]. cbn [fst snd] in *.
  assert (C2 : card_of s2 = card_of s1) by (unfold card_of; by rewrite D2).
  destruct rearmed; cbn [negb].
  - destruct (ok r) eqn:Hok; cbn [negb].
    + destruct (F2 eq_refl) as (t & V & N & Y). unfold upd_irt, get_irt, upd_thread, it_put_thread, it_thread_of. run_st.
      unfold card_of in *. rewrite !sd_put_irt. rewrite D2 in *. split; [done|]. right. exists t. eexists.
      unfold it_thread_of, card_of. rewrite !irt_of_put, !sd_put_irt, D2, E2. cbn. split_and!; [by rewrite V|exact HP|done|done].
    + unfold upd_irt. run_st. unfold card_of, it_thread_of in *. rewrite sd_put_irt, irt_of_put, D2, E2. auto.
  - rewrite st_bind_run. cbn [get_ir gets fst snd]. match goal with |- context [fail_with ?e s2] => pose proof (fail_with_view e s2) as [X1 X2]; destruct (fail_with e s2) as [? s3] end.
    cbn [fst snd] in *. unfold card_of, it_thread_of in *. rewrite X1, X2, D2, E2. auto.
Qed.

(** What a step may do, from a state that looks like [s]. *)
Definition outcome (s : S) (P : list (Z * Z)) (s' : S) : Prop :=
  preserves_files (card_of s) (card_of s') /\ (queue_ (it_thread_of s') = queue_ (it_thread_of s) \/ announced s s' P).

Lemma outcome_from s s0 P s' :
  sd_of s0 = sd_of s -> it_base (irt_of s0) = it_base (irt_of s) -> outcome s0 P s' -> outcome s P s'.
Proof. unfold outcome, announced, card_of, it_thread_of. by intros -> ->. Qed.

Lemma outcome_nothing s P s' : sd_of s' = sd_of s -> queue_ (it_thread_of s') = queue_ (it_thread_of s) -> outcome s P s'.
Proof. unfold outcome, card_of. intros -> ->. split; [by intros q _|by left]. Qed.

Lemma take_frame_ok s : holding s -> sound s -> outcome s (pulses (ir_of s)) (take_frame settings s).2.
Proof.
  intros Hh [T W]. unfold take_frame. rewrite st_bind_run. destruct (count_again s Hh) as [En (V1 & V2 & V3)].
  destruct (ir_capturePulseCount settings s) as [n s3]. cbn [fst snd] in *. subst n.
  assert (Hp := length_pulses _ W). assert (Hnz : capturedPulses (ir_of s) <> 0%nat) by (by apply W, Hh).
  rewrite (proj2 (Nat.eqb_neq _ _) Hnz), (proj2 (Nat.ltb_ge _ _)) by apply W. cbn [orb]. rewrite st_bind_run.
  assert (T4 : thread_ok (set_range UINT32_MAX 0 (irt_of s))) by (destruct T as (? & ? & ? & ?); by split_and!).
  cbn [upd_irt modify fst snd]. set (s4 := put_irt _ s3). assert (A1 : ir_of s4 = ir_of s) by (unfold s4; by rewrite ir_put_irt).
  assert (A2 : sd_of s4 = sd_of s) by (unfold s4; rewrite sd_put_irt; congruence).
  assert (A3 : irt_of s4 = set_range UINT32_MAX 0 (irt_of s)) by (unfold s4; rewrite irt_of_put; congruence).
  clearbody s4. pose proof (copy_frame_ok (capturedPulses (ir_of s)) 0 (0, 0) s4) as K. unfold holding, sound in K. rewrite A1, A3 in K.
  specialize (K Hh (conj T4 W) (le_n _) eq_refl). cbn [Nat.add] in K. rewrite st_bind_run.
  destruct (copy_frame settings (capturedPulses (ir_of s)) 0 (0, 0) s4) as [short s5]. cbn [fst snd] in *.
  destruct K as (K1 & K2 & K3 & K4 & K5). destruct short as [short|]; [|done]. rewrite st_bind_run.
  cbn [upd_irt modify fst snd]. set (s6 := put_irt _ s5). rewrite (take_ge (pulses _)) in K5 by lia.
  assert (B : last_frame (irt_of s6) = pulses (ir_of s)) by (unfold s6; rewrite irt_of_put; exact K5).
  apply (outcome_from s s6).
  - unfold s6. rewrite sd_put_irt. congruence.
  - unfold s6. rewrite irt_of_put. cbn. rewrite K4. done.
  - pose proof (store_frame_ok s6 (pulses (ir_of s))) as F. rewrite Hp in F. destruct (store_frame (capturedPulses (ir_of s)) s6) as [e s7].
    apply F; [|done]. unfold s6. rewrite ir_put_irt, K3. exact W.
Qed.

(** C17: a step of the capture thread, whatever calls of the card fail and whenever
    interrupts arrive: no file that was on the card is changed, and when the step
    publishes a record, the frame the interrupts had recorded, all of its pulses
    in order, is on the card under the time of the record, in a file that is new,
    and is the frame a replay of the last capture will send. *)
Theorem ir_frame_published s :
  ir_inv s ->
  let s' := (it_step settings s).2 in
  preserves_files (card_of s) (card_of s')
  /\ (queue_ (it_thread_of s') = queue_ (it_thread_of s)
      \/ exists c, ticks (capture_config settings) (ir_of s) c /\ pulses c <> [] /\ announced s s' (pulses c)).
Proof.
  intros [[T W] U]. cbn zeta.
  enough (exists c, ticks (capture_config settings) (ir_of s) c /\ (pulses c = [] -> queue_ (it_thread_of (it_step settings s).2) = queue_ (it_thread_of s))
            /\ outcome s (pulses c) (it_step settings s).2) as (c & Hc & Hn & [O1 [O2|O2]]).
  { split; [done|]. by left. }
  { split; [done|]. destruct (decide (pulses c = [])) as [E|E]; [left; auto|right; by exists c]. }
  unfold it_step. rewrite st_bind_run. cbn [get_irt gets fst snd]. destruct (captureStarted_ (irt_of s)); cbn [negb].
  2: { exists (ir_of s). rewrite st_bind_run. cbn [get_ir gets fst snd]. destruct (fail_with_view (lastCaptureError (ir_of s)) s) as [E1 E2].
       split_and!; [done|done|by apply outcome_nothing]. }
  rewrite st_bind_run. destruct (millis_quiet s) as (M1 & M2 & M3). assert (W1 := ticks_wf _ _ _ M3 W).
  destruct (millis s) as [now s1]. cbn [fst snd] in *. rewrite st_bind_run. cbn [get_irt gets fst snd].
  assert (Q1 : it_thread_of s1 = it_thread_of s) by (unfold it_thread_of; by rewrite M1).
  destruct (durationMs_ (irt_of s1) <=? _).
  { exists (ir_of s). rewrite st_bind_run. cbn [mret st_ret snd]. destruct (it_stop_view s1) as [E1 E2].
    split_and!; [done|congruence|apply outcome_nothing; congruence]. }
  rewrite st_bind_run. pose proof (ready_first s1 W1) as R. destruct (proj1 calm_captureReady (irt_of s1) s1 (conj eq_refl W1)) as [_ W2].
  destruct (ir_captureReady settings s1) as [b s2]. cbn [fst snd] in *. destruct R as (R1 & R2 & R3).
  assert (Q2 : it_thread_of s2 = it_thread_of s) by (unfold it_thread_of in *; by rewrite R1).
  destruct b; cbn [negb].
  2: { exists (ir_of s). split_and!; [done|cbn; congruence|apply outcome_nothing; cbn; congruence]. }
  destruct (R3 eq_refl) as [Hh (c & Hc & Ep)]. exists c. split; [by etrans|]. rewrite <- Ep. split.
  - intros E. apply (f_equal length) in E. rewrite length_pulses in E by done. exfalso. by apply W2 in E; [|apply Hh].
  - apply (outcome_from s s2); [congruence|congruence|]. apply take_frame_ok; [done|]. split; [|done]. by rewrite R1, M1.
Qed.
End device.

(** ** The dictionary *)

Section dictionary.
Context {C : Type} `{HC : SdCard C}.
Implicit Types c : C.

Definition reads {A} (m : st C A) : Prop := forall c, same_card c (m c).2.

Lemma reads_bind {A B} (m : st C A) (f : A -> st C B) : reads m -> (forall a, reads (f a)) -> reads (m ≫= f).
Proof. intros Hm Hf c. rewrite st_bind_run. etrans; [apply Hm|apply Hf]. Qed.
Lemma reads_ret {A} (a : A) : reads (mret a).
Proof. by intros c. Qed.

Ltac reads_auto := repeat first [ apply reads_ret | solve [auto]
  | solve [intros ?; first [apply exists_same | apply open_same | apply size_same | apply seek_same | apply read_same | apply read_back_same]]
  | apply reads_bind; [|intros ?] | match goal with |- reads (match ?x with _ => _ end) => destruct x end ].

Lemma reads_read_until fuel : forall path pos acc, reads (read_until fuel path pos acc).
Proof. induction fuel as [|f IH]; intros path pos acc; cbn [read_until]; reads_auto. Qed.

Lemma reads_read_line path pos : reads (read_line path pos).
Proof. unfold read_line. apply reads_bind; [intros c; apply size_same|]. intros n. apply reads_read_until. Qed.

Lemma reads_fingerprint t : reads (captureFingerprint t).
Proof. pose proof (reads_read_line (capture_path t) 0). unfold captureFingerprint. reads_auto. Qed.

(** Everything but the dictionary and its directory is as it was. *)
Definition same_elsewhere c c' : Prop := forall q, q <> dictionary -> q <> str "/noob" -> content c' q = content c q.

#[export] Instance same_elsewhere_preorder : PreOrder same_elsewhere.
Proof. split; [done|]. intros x y z A B q H1 H2. by rewrite (B q), (A q). Qed.

Lemma elsewhere_same c c' : same_card c c' -> same_elsewhere c c'.
Proof. intros A q _ _. apply A. Qed.
Lemma elsewhere_but p c c' : p = dictionary \/ p = str "/noob" -> same_but p c c' -> same_elsewhere c c'.
Proof. intros [->| ->] A q H1 H2; by apply A. Qed.

(** The text of the dictionary; no file is an empty one. *)
Definition dictionary_text c : bytes := match content c dictionary with Some (FileNode x) => x | _ => [] end.

Lemma dictionary_append_ok device button time c :
  content c dictionary <> Some DirNode ->
  let '(e, c') := append_entry device button time c in
  same_elsewhere c c'
  /\ (e = None -> content c' dictionary = Some (FileNode (dictionary_text c ++
        dictionary_entry (Z.of_nat (length (dictionary_text c))) device button time))).
Proof.
  intros Hd. unfold append_entry. rewrite st_bind_run, st_bind_run.
  set (m := (if (fs_exists (str "/noob") c).1 : bool then mret true else fs_mkdir (str "/noob")) (fs_exists (str "/noob") c).2).
  assert (M : same_but (str "/noob") c m.2).
  { unfold m. destruct (fs_exists _ c).1; [apply same_card_but, exists_same|].
    eapply same_but_trans; [apply same_card_but, exists_same|apply mkdir_but]. }
  clearbody m. destruct m as [made c1]. cbn [fst snd] in *. assert (E1 : same_elsewhere c c1) by (eapply elsewhere_but; [by right|done]).
  assert (D1 : content c1 dictionary = content c dictionary) by (by apply M).
  destruct made; cbn [negb]; [|done]. rewrite st_bind_run.
  pose proof (extend_but dictionary c1) as B2. pose proof (extend_spec dictionary c1) as X2.
  destruct (fs_extend dictionary c1) as [opened c2]. cbn [fst snd] in *. rewrite D1 in X2.
  assert (E2 : same_elsewhere c c2) by (etrans; [exact E1|]; eapply elsewhere_but; [by left|done]).
  destruct opened; cbn [negb]; [|done].
  assert (D2 : content c2 dictionary = Some (FileNode (dictionary_text c))).
  { rewrite X2. unfold dictionary_text. destruct (content c dictionary) as [[]|]; done. }
  rewrite st_bind_run, (size_spec _ _ _ D2), st_bind_run. set (old := dictionary_text c) in *.
  set (entry := dictionary_entry (Z.of_nat (length old)) device button time). set (c3 := (fs_size dictionary c2).2).
  assert (E3 : same_elsewhere c c3) by (etrans; [exact E2|apply elsewhere_same, size_same]).
  assert (D3 : content c3 dictionary = Some (FileNode old)) by (unfold c3; by rewrite size_same). clearbody c3.
  pose proof (append_but dictionary entry c3) as B4. pose proof (append_done dictionary entry c3 old D3) as X4.
  destruct (fs_append dictionary entry c3) as [written c4]. cbn [fst snd] in *.
  assert (E4 : same_elsewhere c c4) by (etrans; [exact E3|]; eapply elsewhere_but; [by left|done]).
  destruct (Z.eqb_spec written (Z.of_nat (length entry))) as [Ew|Ew]; cbn [negb]; [|done].
  match goal with |- let '(e, c') := ?rest c4 in _ => assert (R : reads rest) by reads_auto; specialize (R c4); destruct (rest c4) as [e c5] end.
  cbn [snd] in R. split; [etrans; [exact E4|by apply elsewhere_same]|]. intros _. rewrite (R dictionary). by apply X4.
Qed.
End dictionary.

Section remember.
Context {S C : Type} `{HasClock S} `{!HasStore S C} `{HC : SdCard C} `{!HasIrThread S}.
Implicit Types s : S.

(** naming a capture in the dictionary, whatever calls of the card fail: no
    file but the dictionary is changed, and when the call reports success the
    dictionary is what it was with one line for the capture that was popped last,
    behind a heading when it was empty. *)
Theorem dictionary_remembers (text : bytes) s :
  content (card_of s) dictionary <> Some DirNode ->
  let '(r, s') := irisIrDictionaryRemember text s in
  same_elsewhere (card_of s) (card_of s')
  /\ (ok r = true -> exists device button rec, labels text = inr (device, button)
        /\ popped_time (it_thread_of s) = Some (rec, value r)
        /\ content (card_of s') dictionary = Some (FileNode (dictionary_text (card_of s)
              ++ dictionary_entry (Z.of_nat (length (dictionary_text (card_of s)))) device button (value r)))).
Proof.
  intros Hd. unfold irisIrDictionaryRemember. destruct (labels text) as [e|[device button]]; [done|].
  rewrite st_bind_run. cbn [gets fst snd]. destruct (popped_time (it_thread_of s)) as [[rec time]|]; [|done].
  rewrite st_bind_run. pose proof (ready_same s) as R. destruct (on_sd ready s) as [usable s1]. cbn [fst snd] in *.
  destruct usable; cbn [negb]; [|split; [by apply elsewhere_same|done]].
  rewrite st_bind_run, on_fs_run. cbn [fst snd]. set (s2 := put_sd _ s1).
  assert (E2 : same_card (card_of s) (card_of s2)).
  { etrans; [exact R|]. unfold s2, card_of. rewrite sd_of_put. apply reads_fingerprint. }
  clearbody s2. destruct (captureFingerprint _ _).1 as [before|]; [|split; [by apply elsewhere_same|done]].
  rewrite st_bind_run, on_fs_run. cbn [fst snd]. pose proof (dictionary_append_ok device button time (card_of s2)) as A.
  rewrite (E2 dictionary) in A. specialize (A Hd). unfold dictionary_text in A. rewrite (E2 dictionary) in A.
  fold (dictionary_text (card_of s)) in A. destruct (append_entry device button time (card_of s2)) as [e c3]. cbn [fst snd].
  destruct A as [A1 A2]. set (s3 := put_sd _ s2). assert (K3 : card_of s3 = c3) by (unfold s3, card_of; by rewrite sd_of_put).
  assert (E3 : same_elsewhere (card_of s) (card_of s3)) by (rewrite K3; etrans; [by apply elsewhere_same|exact A1]). clearbody s3.
  destruct e as [e|]; [done|]. rewrite st_bind_run, on_fs_run. cbn [fst snd mret st_ret]. set (s4 := put_sd _ s3).
  assert (E4 : same_card (card_of s3) (card_of s4)) by (unfold s4, card_of at 2; rewrite sd_of_put; apply reads_fingerprint).
  split; [etrans; [exact E3|by apply elsewhere_same]|]. case_bool_decide; [|done]. intros _. exists device, button, rec.
  split_and!; [done|done|]. rewrite (E4 dictionary), K3. by apply A2.
Qed.
End remember.

(** ** Devices for the examples *)

#[global, refine] Instance bench_IrDevice {C} `{CardOps C} : IrDevice (bench C) C some_ir := {}.
Proof. all: intros; try done; split_and!; done. Defined.

Definition bench_with {C} (c : C) (ir : capture) (t : ir_thread) : bench C := Bench C (device vm_init store_init c) 0 ir [] t.

Lemma capture_init_wf : capture_wf capture_init.
Proof.
  unfold capture_wf, capture_init. cbn [captureLevels captureDurationsUs capturedPulses interrupt captureActive captureFrameReady].
  split_and!; try apply repeat_length; try (intros X; discriminate X). apply Nat.le_0_l.
Qed.

Lemma empty_queue_wf : queue_wf empty_queue.
Proof. apply (bool_decide_unpack _). vm_compute. exact I. Qed.

Lemma ir_receiver_released_witness :
  let ops := [IR_THREAD_START [500]; Loop; IR_VERIFY_LAST []; IR_DICT_STATUS []; IR_THREAD_STOP] in
  let s' := (for_each (ir_do some_ir) ops (on_bench (Card samples [] true))).2 in
  captureActive (ir_of s') = false /\ interrupt (ir_of s') = false.
Proof.
  pose proof (ir_receiver_released some_ir [IR_THREAD_START [500]; Loop; IR_VERIFY_LAST []; IR_DICT_STATUS []; IR_THREAD_STOP]
    (on_bench (Card samples [] true))) as K. cbn zeta in *. apply K.
  - split; [|intros X; discriminate X]. split; [|apply capture_init_wf]. unfold thread_ok. cbn [on_bench irt_of bench_HasIrThread bench_thread ir_thread_init it_pulses lastPulses_ it_base].
    split_and!; [apply repeat_length|apply Nat.le_0_l|apply empty_queue_wf|reflexivity].
  - vm_compute. reflexivity.
Defined.

(** Two pulses and silence. *)
Definition recorded : capture :=
  steps (capture_config some_ir) [Start 0 1; Edge 9000 0; Edge 13500 1; Ready 200000] capture_init.
Definition running_thread : ir_thread :=
  IrThread (set_run true (new_thread 1)) (repeat (0, 0) MAX_PULSES) IR_THREAD_DURATION_MS 0 0 0 0 0 0 0 true [].

Lemma ir_frame_published_witness :
  exists t, content (card_of (it_step some_ir (bench_with (Card samples [] true) recorded running_thread)).2) (capture_path t)
    = Some (FileNode (capture_text t [(1, 9000); (0, 4500)])).
Proof.
  destruct (ir_frame_published some_ir (bench_with (Card samples [] true) recorded running_thread)) as [_ [K|(c & _ & _ & t & carrier & _ & K1 & _ & K2)]].
  - split; [split|intros _; split; reflexivity].
    + unfold thread_ok. cbn [bench_with irt_of bench_HasIrThread bench_thread running_thread it_pulses lastPulses_ it_base].
      split_and!; [apply repeat_length|apply Nat.le_0_l|apply empty_queue_wf|reflexivity].
    + apply steps_wf, capture_init_wf.
  - exfalso. apply (f_equal count_) in K. vm_compute in K. discriminate K.
  - exists t. assert (E : pulses c = [(1, 9000); (0, 4500)]) by (rewrite <- K1; vm_compute; reflexivity). rewrite K2, E. reflexivity.
Defined.

Definition named : gmap bytes node := <[capture_path 1 := FileNode (capture_text 1 three_pulses)]> ∅.
Definition popped_thread : ir_thread :=
  set_base (set_last (frame_record 1 3 0) empty_queue (new_thread 1)) ir_thread_init.

Lemma dictionary_remembers_witness :
  let s' := (irisIrDictionaryRemember (str "tv power") (bench_with (Card named [] true) capture_init popped_thread)).2 in
  content (card_of s') dictionary = Some (FileNode (dictionary_header ++ str "tv,power,1" ++ CRLF)).
Proof.
  cbn zeta. pose proof (dictionary_remembers (str "tv power") (bench_with (Card named [] true) capture_init popped_thread)) as K.
  assert (Hok : ok (irisIrDictionaryRemember (str "tv power") (bench_with (Card named [] true) capture_init popped_thread)).1 = true
           /\ value (irisIrDictionaryRemember (str "tv power") (bench_with (Card named [] true) capture_init popped_thread)).1 = 1)
    by (vm_compute; split; reflexivity).
  destruct (irisIrDictionaryRemember _ _) as [r s']. cbn [fst snd] in *.
  destruct K as [_ K]; [intros X; vm_compute in X; discriminate X|].
  destruct (K (proj1 Hok)) as (device & button & rec & L & _ & E). rewrite E, (proj2 Hok).
  assert (X : Some (device, button) = Some (str "tv", str "power")).
  { assert (Y : labels (str "tv power") = inr (str "tv", str "power")) by (vm_compute; reflexivity). rewrite Y in L. by injection L as <- <-. }
  injection X as -> ->. vm_compute. reflexivity.
Defined.
End IrisIrThreadFacts.
