(* ===== verification/EspTcp.v ===== *)
(** * The TCP transport

    noob_tcp_server_transport.cpp: one command connection at a time, read line by
    line.  A new connection takes over at once; a line that is too long is thrown
    away as a whole.  Each connection's frames are exactly its lines of a fitting
    length, whatever an earlier connection left behind. *)
From S2P Require Import Prelude CLib.

Open Scope Z_scope.

Module EspTcp.

(** ** The state *)

(** A connection of the network stack: what has arrived and what has been sent.
    [operator bool] and [connected] are the stack's. *)
Record client := Client { k_available : bytes; k_open : bool; k_written : bytes }.

Record TcpServerTransport := Tcp {
  waiting : list client;          (** connections the server has not handed out *)
  client_ : option client; input_ : bytes; maximumLine_ : nat; discarding_ : bool }.

Section transport.
Context (valid connected : client -> bool).

(** [!client_] of a client that may be empty. *)
Definition present (k : option client) : bool := match k with Some k => valid k | None => false end.
Definition alive (k : option client) : bool := match k with Some k => valid k && connected k | None => false end.

Definition hasClient (p : TcpServerTransport) : bool := match waiting p with [] => false | _ => true end.

(** The first lines of [receive]: which connection is read. *)
Definition take_over (p : TcpServerTransport) : TcpServerTransport :=
  match waiting p with
  | k :: rest => Tcp rest (Some k) [] (maximumLine_ p) false
  | [] => if alive (client_ p) then p else Tcp [] None [] (maximumLine_ p) false
  end.

(** The loop: a message or nothing, the bytes left, the line so far and whether it
    is being thrown away. *)
Fixpoint receive_loop (budget maximum : nat) (avail input : bytes) (discarding : bool) : option bytes * bytes * bytes * bool :=
  match budget, avail with
  | O, _ | _, [] => (None, avail, input, discarding)
  | S budget, value :: avail =>
      if (value =? NL) || (value =? CR) then
        if discarding then receive_loop budget maximum avail input false
        else match input with
             | [] => receive_loop budget maximum avail [] false
             | _ => (Some input, avail, [], false)
             end
      else if discarding then receive_loop budget maximum avail input true
      else if (length input <? maximum)%nat then receive_loop budget maximum avail (input ++ [value]) false
      else receive_loop budget maximum avail [] true
  end.

Definition READ_BUDGET : nat := 128.

Definition receive (p : TcpServerTransport) : option bytes * TcpServerTransport :=
  let p := take_over p in
  match client_ p with
  | Some k =>
      if negb (valid k) then (None, p)
      else
      let '(m, avail, input, discarding) := receive_loop READ_BUDGET (maximumLine_ p) (k_available k) (input_ p) (discarding_ p) in
      (m, Tcp (waiting p) (Some (Client avail (k_open k) (k_written k))) input (maximumLine_ p) discarding)
  | None => (None, p)
  end.

Definition send (message : bytes) (p : TcpServerTransport) : TcpServerTransport :=
  match client_ p with
  | Some k =>
      if valid k && connected k
      then Tcp (waiting p) (Some (Client (k_available k) (k_open k) (k_written k ++ message ++ [CR; NL]))) (input_ p) (maximumLine_ p) (discarding_ p)
      else p
  | None => p
  end.

(** ** Lines *)

(** The complete lines of a text, and the line at its end. *)
Fixpoint lines_of (text line : bytes) : list bytes * bytes :=
  match text with
  | [] => ([], line)
  | c :: text' =>
      if (c =? NL) || (c =? CR) then let '(ls, rest) := lines_of text' [] in (line :: ls, rest)
      else lines_of text' (line ++ [c])
  end.

(** The frames among them. *)
Definition fits (maximum : nat) (line : bytes) : bool := (0 <? length line)%nat && (length line <=? maximum)%nat.
Definition frames (maximum : nat) (text : bytes) : list bytes := List.filter (fits maximum) (lines_of text []).1.

(** How a line is held while it arrives. *)
Definition held (maximum : nat) (line : bytes) : bytes * bool :=
  if (length line <=? maximum)%nat then (line, false) else ([], true).

Lemma lines_of_app a b line :
  lines_of (a ++ b) line = ((lines_of a line).1 ++ (lines_of b (lines_of a line).2).1, (lines_of b (lines_of a line).2).2).
Proof.
  revert line. induction a as [|c a IH]; intros line; cbn [app lines_of].
  { cbn [fst snd app]. by destruct (lines_of b line). }
  destruct ((c =? NL) || (c =? CR)); [|apply IH]. rewrite IH. by destruct (lines_of a []) as [ls rest].
Qed.

Lemma held_cases maximum line :
  ((length line <= maximum)%nat /\ held maximum line = (line, false)) \/ ((maximum < length line)%nat /\ held maximum line = ([], true)).
Proof. unfold held. destruct (Nat.leb_spec (length line) maximum); auto. Qed.

(** One run of the loop reads a part of what is there. *)
Lemma receive_loop_lines maximum budget : forall avail line,
  match receive_loop budget maximum avail (held maximum line).1 (held maximum line).2 with
  | (m, rest, input, discarding) =>
      exists taken, avail = taken ++ rest /\ (avail <> [] -> budget <> O -> taken <> [])
        /\ (input, discarding) = held maximum (lines_of taken line).2
        /\ List.filter (fits maximum) (lines_of taken line).1 = match m with Some f => [f] | None => [] end
        /\ (m = None -> (budget <= length taken)%nat \/ rest = [])
  end.
Proof.
  induction budget as [|budget IH]; intros avail line.
  { exists []. split_and!; try done; [by unfold held; destruct (_ <=? _)%nat|]. intros _. left. cbn. lia. }
  destruct avail as [|c avail]; cbn [receive_loop].
  { exists []. split_and!; try done; [by unfold held; destruct (_ <=? _)%nat|]. auto. }
  assert (Next : forall line' m rest input discarding (pre : list bytes),
    lines_of [c] line = (pre, line') -> List.filter (fits maximum) pre = [] ->
    (exists taken, avail = taken ++ rest /\ (avail <> [] -> budget <> O -> taken <> [])
        /\ (input, discarding) = held maximum (lines_of taken line').2
        /\ List.filter (fits maximum) (lines_of taken line').1 = match m with Some f => [f] | None => [] end
        /\ (m = None -> (budget <= length taken)%nat \/ rest = [])) ->
    exists taken, c :: avail = taken ++ rest /\ (c :: avail <> [] -> Datatypes.S budget <> O -> taken <> [])
        /\ (input, discarding) = held maximum (lines_of taken line).2
        /\ List.filter (fits maximum) (lines_of taken line).1 = match m with Some f => [f] | None => [] end
        /\ (m = None -> (Datatypes.S budget <= length taken)%nat \/ rest = [])).
  { intros line' m rest input discarding pre E F (taken & T1 & _ & T3 & T4 & T5). exists ([c] ++ taken).
    rewrite lines_of_app, E. cbn [fst snd]. rewrite List.filter_app, F, T4. split_and!; [by rewrite T1|done|done|done|].
    intros Hm. destruct (T5 Hm) as [?|?]; [left; cbn; lia|by right]. }
  cbn [lines_of] in Next. destruct ((c =? NL) || (c =? CR)) eqn:Ec.
  - specialize (IH avail []). change (held maximum []) with (@nil Z, false) in IH. cbn [fst snd] in IH.
    destruct (held_cases maximum line) as [[Hl ->]|[Hl ->]]; cbn [fst snd].
    + destruct line as [|x line].
      * destruct (receive_loop budget maximum avail [] false) as [[[m rest] input] discarding]. by apply (Next [] m rest input discarding [[]]).
      * exists [c]. cbn [lines_of]. rewrite Ec. cbn [fst snd]. split_and!; try done. cbn [List.filter]. unfold fits.
        rewrite (proj2 (Nat.leb_le _ _) Hl). done.
    + destruct (receive_loop budget maximum avail [] false) as [[[m rest] input] discarding]. apply (Next [] m rest input discarding [line]); try done.
      cbn [List.filter]. unfold fits. rewrite (proj2 (Nat.leb_gt _ _) Hl). by rewrite andb_false_r.
  - specialize (IH avail (line ++ [c])). destruct (held_cases maximum (line ++ [c])) as [[Hm E]|[Hm E]]; rewrite E in IH; rewrite length_app in Hm;
      cbn [length fst snd] in Hm, IH; destruct (held_cases maximum line) as [[Hl ->]|[Hl ->]]; cbn [fst snd]; try lia.
    + rewrite (proj2 (Nat.ltb_lt _ _)) by lia. destruct (receive_loop budget maximum avail (line ++ [c]) false) as [[[m rest] input] discarding].
      by apply (Next (line ++ [c]) m rest input discarding []).
    + rewrite (proj2 (Nat.ltb_ge _ _)) by lia. destruct (receive_loop budget maximum avail [] true) as [[[m rest] input] discarding].
      by apply (Next (line ++ [c]) m rest input discarding []).
    + destruct (receive_loop budget maximum avail [] true) as [[[m rest] input] discarding].
      by apply (Next (line ++ [c]) m rest input discarding []).
Qed.
(** ** A connection *)

(** What happens while a connection is up. *)
Inductive net_event := Arrives (data : bytes) | Reply (message : bytes) | Poll.

Definition feed (data : bytes) (p : TcpServerTransport) : TcpServerTransport :=
  match client_ p with
  | Some k => Tcp (waiting p) (Some (Client (k_available k ++ data) (k_open k) (k_written k))) (input_ p) (maximumLine_ p) (discarding_ p)
  | None => p
  end.

Fixpoint run_events (l : list net_event) (p : TcpServerTransport) : list bytes * TcpServerTransport :=
  match l with
  | [] => ([], p)
  | Arrives data :: l => run_events l (feed data p)
  | Reply m :: l => run_events l (send m p)
  | Poll :: l =>
      let '(m, p) := receive p in
      let '(ms, p) := run_events l p in (match m with Some f => f :: ms | None => ms end, p)
  end.

Definition arrived (l : list net_event) : bytes := l ≫= fun e => match e with Arrives d => d | _ => [] end.

(** The stack's view of a connection that is open. *)
Context (open_ok : forall k, k_open k = true -> valid k = true /\ connected k = true).

(** The connection has read [taken] and has [rest] left. *)
Definition serving (maximum : nat) (taken rest : bytes) (p : TcpServerTransport) : Prop :=
  exists w, waiting p = [] /\ client_ p = Some (Client rest true w) /\ maximumLine_ p = maximum
    /\ (input_ p, discarding_ p) = held maximum (lines_of taken []).2.

Lemma receive_serving maximum taken rest p :
  serving maximum taken rest p ->
  exists more rest', rest = more ++ rest' /\ (rest <> [] -> more <> []) /\ serving maximum (taken ++ more) rest' (receive p).2
    /\ frames maximum (taken ++ more) = frames maximum taken ++ match (receive p).1 with Some f => [f] | None => [] end.
Proof.
  intros (w & W & K & M & I). destruct (open_ok (Client rest true w) eq_refl) as [V Co].
  unfold receive, take_over. rewrite W, K. cbn [alive]. rewrite V, Co. cbn [andb]. rewrite K, V. cbn [negb k_available k_open k_written].
  pose proof (receive_loop_lines maximum READ_BUDGET rest (lines_of taken []).2) as R.
  rewrite <- I, M in *. cbn [fst snd] in R. destruct (receive_loop _ _ _ _ _) as [[[m rest'] input] discarding].
  destruct R as (more & R1 & R2 & R3 & R4 & _). exists more, rest'. split; [done|]. split; [intros Hr; by apply R2|]. split.
  - exists w. cbn. rewrite lines_of_app, W. cbn [fst snd]. done.
  - unfold frames. rewrite lines_of_app. cbn [fst snd]. by rewrite List.filter_app, R4.
Qed.

Lemma run_serving maximum l : forall taken rest p,
  serving maximum taken rest p ->
  exists more rest', rest ++ arrived l = more ++ rest' /\ serving maximum (taken ++ more) rest' (run_events l p).2
    /\ frames maximum (taken ++ more) = frames maximum taken ++ (run_events l p).1.
Proof.
  induction l as [|e l IH]; intros taken rest p Hs; cbn [run_events].
  { exists [], rest. rewrite !app_nil_r. done. }
  destruct e as [data|m|]; cbn [arrived mbind list_bind] in *.
  - destruct (IH taken (rest ++ data) (feed data p)) as (more & rest' & E & S1 & F).
    { destruct Hs as (w & W & K & M & I). exists w. unfold feed. rewrite K. done. }
    exists more, rest'. rewrite app_assoc. done.
  - destruct (IH taken rest (send m p)) as (more & rest' & E & S1 & F); [|by exists more, rest'].
    destruct Hs as (w & W & K & M & I). exists (w ++ m ++ [CR; NL]). unfold send. rewrite K.
    destruct (open_ok (Client rest true w) eq_refl) as [-> ->]. done.
  - destruct (receive_serving maximum taken rest p Hs) as (more & rest' & -> & _ & S1 & F1).
    destruct (receive p) as [m p1]. cbn [fst snd] in *. destruct (IH _ _ _ S1) as (more2 & rest2 & E2 & S2 & F2).
    destruct (run_events l p1) as [ms p2]. cbn [fst snd] in *. exists (more ++ more2), rest2. rewrite <- app_assoc. cbn [app].
    change (l ≫= _) with (arrived l). rewrite E2, !app_assoc in *. split_and!; [done|done|]. rewrite F2, F1. destruct m; cbn; by rewrite ?app_nil_r, <- ?app_assoc.
Qed.

(** Enough polls read everything. *)
Lemma polls_finish maximum n : forall taken rest p,
  serving maximum taken rest p -> (length rest <= n)%nat -> serving maximum (taken ++ rest) [] (run_events (repeat Poll n) p).2.
Proof.
  induction n as [|n IH]; intros taken rest p Hs Hn; cbn [repeat run_events].
  { destruct rest; [by rewrite app_nil_r|cbn in Hn; lia]. }
  destruct (receive_serving maximum taken rest p Hs) as (more & rest' & -> & Hm & S1 & _). destruct (receive p) as [m p1]. cbn [fst snd] in *.
  destruct (run_events (repeat Poll n) p1) as [ms p2] eqn:E. cbn [snd]. specialize (IH _ _ _ S1). rewrite E in IH. rewrite app_assoc. apply IH.
  rewrite length_app in Hn. destruct more; [|cbn in Hn; lia]. destruct rest'; [cbn; lia|]. by destruct Hm.
Qed.

(** A connection that waits is taken over, whatever the last one left behind. *)
Lemma take_over_serving p k :
  waiting p = [k] -> k_open k = true ->
  receive p = receive (Tcp [] (Some k) [] (maximumLine_ p) false)
  /\ serving (maximumLine_ p) [] (k_available k) (Tcp [] (Some k) [] (maximumLine_ p) false).
Proof.
  intros W O. destruct (open_ok k O) as [V Co]. split.
  - unfold receive. assert (E : take_over p = take_over (Tcp [] (Some k) [] (maximumLine_ p) false)); [|by rewrite E].
    unfold take_over. rewrite W. cbn [waiting client_ maximumLine_ alive]. by rewrite V, Co.
  - exists (k_written k). destruct k as [a o w]. cbn in O. by subst o.
Qed.

(** C21: over TCP the noob gets exactly a connection's lines: from the poll on that
    takes the connection over, whatever state the one before left behind and
    however arriving bytes, replies and polls interleave, the messages delivered
    are the lines of 1 to [maximumLine] bytes among the bytes read so far, in
    order and each once, a line that is too long is dropped as a whole, and once
    the polls have caught up all bytes of the connection have been read. *)
Theorem tcp_connection_frames (p : TcpServerTransport) (k : client) (l : list net_event) :
  waiting p = [k] -> k_open k = true ->
  let text := k_available k ++ arrived l in
  (exists taken rest, text = taken ++ rest /\ (run_events (Poll :: l) p).1 = frames (maximumLine_ p) taken)
  /\ (run_events ((Poll :: l) ++ repeat Poll (length text)) p).1 = frames (maximumLine_ p) text.
Proof.
  intros W O text. destruct (take_over_serving p k W O) as [E S0]. set (p0 := Tcp [] (Some k) [] (maximumLine_ p) false) in *.
  assert (Same : forall l', run_events (Poll :: l') p = run_events (Poll :: l') p0) by (intros l'; cbn [run_events]; by rewrite E).
  cbn [app]. rewrite !Same. split.
  - destruct (run_serving _ (Poll :: l) _ _ _ S0) as (taken & rest & Et & _ & F). by exists taken, rest.
  - assert (App : forall a b q, run_events (a ++ b) q
        = ((run_events a q).1 ++ (run_events b (run_events a q).2).1, (run_events b (run_events a q).2).2)).
    { induction a as [|e a IH]; intros b q; cbn [app run_events fst snd]; [by destruct (run_events b q)|]. destruct e; [apply IH|apply IH|].
      destruct (receive q) as [m q1]. rewrite IH. destruct (run_events a q1) as [ms q2]. cbn [fst snd]. by destruct m. }
    destruct (run_serving _ (Poll :: l ++ repeat Poll (length text)) _ _ _ S0) as (taken & rest & Et & S1 & F).
    destruct (run_serving _ (Poll :: l) _ _ _ S0) as (taken' & rest' & Et' & S1' & _).
    assert (Hr : (length rest' <= length text)%nat).
    { change (k_available k ++ arrived (Poll :: l)) with text in Et'. rewrite Et', length_app. lia. }
    pose proof (polls_finish _ _ _ _ _ S1' Hr) as Fin. change (Poll :: l ++ repeat Poll (length text)) with ((Poll :: l) ++ repeat Poll (length text)) in S1.
    rewrite App in S1. cbn [snd] in S1. destruct S1 as (w & _ & K & _). destruct Fin as (w' & _ & K' & _). rewrite K in K'. injection K' as -> _.
    assert (Ht : arrived (Poll :: l ++ repeat Poll (length text)) = arrived l).
    { change (arrived (Poll :: l ++ repeat Poll (length text))) with (arrived (l ++ repeat Poll (length text))).
      unfold arrived. rewrite bind_app. fold (arrived (repeat Poll (length text))).
      assert (Z0 : forall n, arrived (repeat Poll n) = []) by (induction n; done). by rewrite Z0, app_nil_r. }
    rewrite Ht, app_nil_r in Et. fold text in Et. etransitivity; [symmetry; exact F|]. by rewrite Et.
Qed.
End transport.

(** A connection takes over from one that was in the middle of a line; its second
    line is too long. *)
Lemma tcp_connection_frames_witness :
  (run_events k_open k_open
     ([Poll; Arrives (str "ING" ++ [CR; NL] ++ str "much too long"); Poll; Arrives ([NL] ++ str "CAPS" ++ [NL])] ++ repeat Poll 25)
     (Tcp [Client (str "P") true []] (Some (Client [] true [])) (str "junk") 8 false)).1 = [str "PING"; str "CAPS"].
Proof.
  destruct (tcp_connection_frames k_open k_open (fun k O => conj O O)
    (Tcp [Client (str "P") true []] (Some (Client [] true [])) (str "junk") 8 false) (Client (str "P") true [])
    [Arrives (str "ING" ++ [CR; NL] ++ str "much too long"); Poll; Arrives ([NL] ++ str "CAPS" ++ [NL])]) as [_ K].
  - reflexivity.
  - reflexivity.
  - etransitivity; [exact K|]. vm_compute. reflexivity.
Defined.
End EspTcp.
