(* ===== verification/Iris.v ===== *)
(** * iris_noob/src/noobs/iris: the composition of the Iris firmware

    iris.cpp, iris_caps.cpp, iris_config.h, iris_self_test_plan.h, hw_functions.cpp,
    hw_storage.cpp, seq_leds.cpp, seq_media.cpp, thread_detectors.cpp and
    thread_sampling.cpp: which native functions, services, capabilities and probes
    a board registers, in the order of the code and under its switches.  What is
    registered are the functions modelled in the other files; camera, microphone,
    radio and pin inspector are a record of drivers. *)
From S2P Require Import Prelude CLib EspRecord EspRegistry EspVm EspProgram EspSequence EspThreads EspDispatch EspRuntime EspCard EspSd EspStore EspIrCapture EspIrReplay EspSensors IrisNeoBridge IrisArtifacts EspWifi IrisIrThread.

Open Scope Z_scope.

Module Iris.
Import EspRecord EspRegistry EspVm EspProgram EspSequence EspThreads EspDispatch EspRuntime EspCard EspSd EspStore Capture IrReplay EspSensors IrisArtifacts EspWifi IrisIrThread.

(** ** The configuration of the board *)

Record switches := Switches {
  ENABLE_CAMERA : bool; ENABLE_SD : bool; ENABLE_MIC : bool; ENABLE_WIFI : bool; ENABLE_BLE : bool;
  ENABLE_GPIO_DIAGNOSTICS : bool; ENABLE_IR : bool }.

Definition default_switches : switches := Switches true true true true true false true.

Definition IR_TX : Z := 40.
Definition IR_RX : Z := 18.
Definition DHT11_DATA : Z := 15.
Definition PHOTORESISTOR : Z := 1.
Definition EXTERNAL_LED_0 : Z := 47.
Definition EXTERNAL_LED_2 : Z := 17.
Definition RGB_LED : Z := 33.
Definition SIGNAL_LED : Z := 34.

(** Trigger and echo at 16 and 48. *)
Definition board_ultrasonic : ultrasonic_config := Ultrasonic 16 48 2 10 60 343000 3 30000.
Definition board_ir : ir_service_config := IrService IR_TX IR_RX 38000 25 1000 2 8 128 1000000 15000 2.
Definition iris_ir : ir_config := replay_config board_ir.

(** ** Sequences that are compiled in *)

(** The text is empty and the bit is appended, as by default. *)
Definition channel_definition (function interval : Z) (bits : list Z) (arguments : option (list Z)) : ChannelDefinition :=
  Definition_ function interval (Some bits) (length bits) arguments (length (default [] arguments)) (Some []) true.

Definition BLINK_BITS : list Z := [1; 0; 1; 0; 1; 0; 1; 0].
Definition BLUE_POLICE_BITS : list Z := [1; 0; 1; 0; 1; 0; 1; 0; 1; 0; 0].
Definition RED_POLICE_BITS : list Z := [0; 1; 0; 1; 0; 1; 0; 1; 0; 1; 0].
Definition CAMERA_BITS : list Z := [1; 1; 1; 1; 1].
Definition IR_BITS : list Z := [1; 0; 1; 0; 1; 0; 1; 0; 1; 0].

Definition BLUE_BLINK_CHANNELS : list ChannelDefinition := [channel_definition 197 250 BLINK_BITS None].
Definition POLICE_CHANNELS : list ChannelDefinition :=
  [channel_definition 197 200 BLUE_POLICE_BITS None; channel_definition 198 200 RED_POLICE_BITS None].
Definition CAMERA_CHANNELS : list ChannelDefinition := [channel_definition 217 1000 CAMERA_BITS None].
Definition IR_CHANNELS : list ChannelDefinition := [channel_definition 219 100 IR_BITS (Some [10; 38000])].

(** ** Threads *)

Record iris_threads := IrisThreads {
  ultrasonicChange : ChangeThread; lightChange : ChangeThread; micRise : WindowThread;
  rssiThread : SamplingThread; envThread : SamplingThread }.

Definition iris_threads_init : iris_threads :=
  IrisThreads (new_change 199 (str "ULTRASONIC_CHANGE") 250 100 4 0) (new_change 192 (str "LIGHT_CHANGE") 250 200 4 3)
    (new_window 120 (str "MIC_LOUDNESS_RISE") 100 1000 200 20 3)
    (new_sampling 221 (str "RSSI_THREAD") 1000 10000 [] []) (new_sampling 223 (str "ENV_THREAD") 2500 0 [] []).

Class HasIrisThreads (S : Type) := { threads_of : S -> iris_threads; put_threads : iris_threads -> S -> S }.

(** ** Hardware that is only called *)

(** The services of camera, microphone, Bluetooth and pin audit are called by
    name; the default network comes from a header that is not kept with the
    sources. *)
Record drivers {S : Type} := Drivers {
  serial : bytes -> st S unit; heap_free : st S Z;
  camera_begin : st S bool; camera_capture : list Z -> st S NativeResult; camera_captureNamed : bytes -> Z -> st S NativeResult;
  mic_begin : st S bool; mic_level : list Z -> st S NativeResult; mic_above : list Z -> st S NativeResult;
  mic_recordWav : list Z -> st S NativeResult;
  WIFI_SSID : bytes; WIFI_PASSWORD : bytes;
  ble_scan : list Z -> st S NativeResult; ble_setPeer : bytes -> st S NativeResult; ble_status : list Z -> st S NativeResult;
  gpio_begin : Z -> st S bool; gpio_reserve : Z -> bytes -> st S bool; gpio_allowPullTest : Z -> st S bool;
  gpio_audit : list Z -> st S NativeResult; gpio_inspect : list Z -> st S NativeResult; gpio_pullTest : list Z -> st S NativeResult }.
Arguments drivers : clear implicits.

(** ** The runtime that is filled *)

Record runtime {S : Type} := Runtime {
  rt_natives : NativeRegistry (S := S); rt_capabilities : list bytes;
  rt_services : list (st S (option bytes)); rt_lifecycle : option (NoobVmLifecycle S) }.
Arguments runtime : clear implicits.

Definition MAX_SERVICES : nat := 12.

Section runtime.
Context {S : Type}.

Definition addService (service : st S (option bytes)) (r : runtime S) : bool * runtime S :=
  if (MAX_SERVICES <=? length (rt_services r))%nat then (false, r)
  else (true, Runtime S (rt_natives r) (rt_capabilities r) (rt_services r ++ [service]) (rt_lifecycle r)).

Definition add_native (e : NativeEntry (S := S)) (r : runtime S) : bool * runtime S :=
  let '(b, l) := EspRegistry.add (id e) (name e) (implementation e) (rt_natives r) in
  (b, Runtime S l (rt_capabilities r) (rt_services r) (rt_lifecycle r)).

Definition add_capability (c : bytes) (r : runtime S) : runtime S :=
  Runtime S (rt_natives r) (capability_add (rt_capabilities r) c).2 (rt_services r) (rt_lifecycle r).

Definition setVmLifecycle (l : NoobVmLifecycle S) (r : runtime S) : runtime S :=
  Runtime S (rt_natives r) (rt_capabilities r) (rt_services r) (Some l).
End runtime.

(** What a switch selects. *)
Definition only {A} (b : bool) (l : list A) : list A := if b then l else [].

(** [ok &= ...], one after the other. *)
Fixpoint all_of {B} (l : list (st B bool)) : st B bool :=
  match l with
  | [] => mret true
  | m :: l => a ← m; b ← all_of l; mret (a && b)
  end.

(** A statement without a result of its own. *)
Definition does {B A} (m : st B A) : st B bool := m ;; mret true.

Definition iris_capabilities (sw : switches) : list bytes :=
  only (ENABLE_GPIO_DIAGNOSTICS sw) [str "GPIO_DIAGNOSTICS"]
  ++ [str "EXTERNAL_LEDS"; str "DHT11"; str "ENVIRONMENT_THREAD"; str "ADC"; str "LIGHT_SENSOR"; str "ULTRASONIC"; str "LED_SEQUENCES"; str "ULTRASONIC_CHANGE_THREAD"; str "LIGHT_CHANGE_THREAD"]
  ++ only (ENABLE_IR sw) [str "IR_TX"; str "IR_RX"; str "IR_SEQUENCE"; str "IR_SCAN_THREAD"; str "IR_RAW_LEARN_REPLAY"]
  ++ [str "UART"; str "VM"; str "NEO_COMMAND_BRIDGE"]
  ++ only (ENABLE_WIFI sw) [str "WIFI"; str "RSSI_SCAN_THREAD"]
  ++ only (ENABLE_BLE sw) [str "BLE"]
  ++ only (ENABLE_CAMERA sw) [str "CAMERA"; str "CAMERA_SEQUENCE"]
  ++ only (ENABLE_SD sw) [str "SD"; str "VM_STORE"; str "VM_AUTORESTORE"]
  ++ only (ENABLE_MIC sw) [str "MIC"; str "MIC_LOUDNESS_RISE_THREAD"]
  ++ [str "RGB_LED"; str "SIGNAL_LED"].

Definition irisRegisterCapabilities {S} (sw : switches) (r : runtime S) : runtime S :=
  fold_left (fun r c => add_capability c r) (iris_capabilities sw) r.

(** The generated plan of the boot test. *)
Definition self_test_plan : list Probe :=
  [MkProbe (str "TIME_NOW") 1 [] 1 0 0 false [];
   MkProbe (str "SEQUENCE_STATUS") 6 [] 1 0 0 false [];
   MkProbe (str "SEQUENCE_QUEUE_SIZE") 9 [0] 1 0 0 false [];
   MkProbe (str "SEQUENCE_BUSY") 11 [0] 1 0 0 false [];
   MkProbe (str "STORAGE_STATUS") 101 [] 2 0 250 false [];
   MkProbe (str "WIFI_STATUS") 116 [] 1 0 0 false [];
   MkProbe (str "MIC_LEVEL") 120 [] 2 0 250 false [];
   MkProbe (str "MIC_ABOVE") 121 [0] 1 0 0 false [];
   MkProbe (str "VM_LAST_STATUS") 144 [] 1 0 0 false [];
   MkProbe (str "BLE_STATUS") 162 [] 1 0 0 false [];
   MkProbe (str "TEMP_HUMIDITY_READ") 190 [0] 2 0 2500 false [];
   MkProbe (str "ADC_READ") 191 [0; 16] 2 0 250 false [];
   MkProbe (str "LIGHT_READ") 192 [16] 1 0 0 false [];
   MkProbe (str "ULTRASONIC_READ") 196 [1; 30000] 2 0 250 false [];
   MkProbe (str "DISTANCE_MM") 199 [] 2 0 250 false [];
   MkProbe (str "ULTRASONIC_CHANGE_STATUS") 204 [] 1 0 0 false [];
   MkProbe (str "LIGHT_CHANGE_STATUS") 209 [] 1 0 0 false [];
   MkProbe (str "MIC_RISE_STATUS") 214 [] 1 0 0 false [];
   MkProbe (str "RSSI_THREAD_STATUS") 232 [] 1 0 0 false [];
   MkProbe (str "IR_THREAD_STATUS") 237 [] 1 0 0 false [];
   MkProbe (str "ENV_THREAD_STATUS") 242 [] 1 0 0 false [];
   MkProbe (str "SD_READ") 251 [0; 32] 2 0 250 false (str "/noob/runtime_iris.txt");
   MkProbe (str "NEO_CAPS") 260 [] 3 0 10000 true [];
   MkProbe (str "NEO_IR_STATUS") 261 [] 1 0 0 true [];
   MkProbe (str "NEO_FILE_STATUS") 266 [] 1 0 0 true [];
   MkProbe (str "NEO_DISPLAY_STATUS") 271 [] 1 0 0 true []].

Definition add_planned (p : Probe) (t : NoobSelfTest) : bool * NoobSelfTest :=
  addProbe (probe_name p) (probe_id p) (probe_arguments p) (probe_attempts p) (probe_retryMs p) (probe_pendingOnFailure p) (probe_ascii p) t.

Section iris.
Context {S C L T : Type} `{HasSequence S} `{!HasEpoch S} `{!HasSelfTest S} `{!HasStore S C} `{CardOps C} `{!HasIr S}
  `{!HasIrThread S} `{!IrisNeoBridge.HasNeo S L} `{IrisNeoBridge.NeoLink L} `{!HasEnvironment S} `{!HasPins S} `{!HasSensors S} `{!HasIrisThreads S} `{!HasWifi S}.
(** [known] is what the sequences see of the registry, [natives] the registry the
    threads call; a call that does not return within [turns] has the result
    [stuck]. *)
Context (sw : switches) (drv : drivers S) (known : NativeRegistry (S := T)) (natives : NativeRegistry (S := S)).
Context (turns : nat) (stuck : NativeResult).

Definition returned {A} (f : A -> st S (option NativeResult)) (a : A) : st S NativeResult :=
  r ← f a; mret (default stuck r).

(** ** Small functions *)

Definition irisLightRead (arguments : list Z) : st S NativeResult :=
  if (1 <? length arguments)%nat then mret (failure (str "usage: [samples(1..64)]"))
  else adc_read [0; nth 0 arguments 16].

Definition irisExternalLed (arguments : list Z) : st S NativeResult :=
  let usage := mret (failure (str "usage: led(0=GPIO47|2=GPIO17) state(0|1)")) in
  match arguments with
  | [led; state] =>
      if (negb (led =? 0) && negb (led =? 2)) || (state <? 0) || (1 <? state) then usage
      else output_set (if led =? 0 then EXTERNAL_LED_0 else EXTERNAL_LED_2) (negb (state =? 0))
  | _ => usage
  end.

(** DISTANCE_MM. *)
Definition irisDistance (arguments : list Z) : st S NativeResult :=
  if (1 <? length arguments)%nat then mret (failure (str "usage: no arguments")) else ultrasonic_measure [].
Definition irisDistanceFunction : NoobFunction S := numeric irisDistance.

Definition environment_sample : st S (NativeResult * (Z * Z)) :=
  r ← dht_sample turns; mret (default (stuck, (0, 0)) r).

Definition irisStorageBegin : st S bool :=
  mounted ← on_sd (EspSd.begin (Some (str "/captured")) (Some (str "cam_")) true);
  if mounted : bool then irisArtifactsBegin else mret false.

(** ** The functions of the threads *)

Definition ultra_of (s : S) : ChangeThread := ultrasonicChange (threads_of s).
Definition put_ultra (t : ChangeThread) (s : S) : S :=
  let q := threads_of s in put_threads (IrisThreads t (lightChange q) (micRise q) (rssiThread q) (envThread q)) s.
Definition light_of (s : S) : ChangeThread := lightChange (threads_of s).
Definition put_light (t : ChangeThread) (s : S) : S :=
  let q := threads_of s in put_threads (IrisThreads (ultrasonicChange q) t (micRise q) (rssiThread q) (envThread q)) s.
Definition rise_of (s : S) : WindowThread := micRise (threads_of s).
Definition put_rise (t : WindowThread) (s : S) : S :=
  let q := threads_of s in put_threads (IrisThreads (ultrasonicChange q) (lightChange q) t (rssiThread q) (envThread q)) s.
Definition rssi_of (s : S) : SamplingThread := rssiThread (threads_of s).
Definition put_rssi (t : SamplingThread) (s : S) : S :=
  let q := threads_of s in put_threads (IrisThreads (ultrasonicChange q) (lightChange q) (micRise q) t (envThread q)) s.
Definition env_thread_of (s : S) : SamplingThread := envThread (threads_of s).
Definition put_env_thread (t : SamplingThread) (s : S) : S :=
  let q := threads_of s in put_threads (IrisThreads (ultrasonicChange q) (lightChange q) (micRise q) (rssiThread q) t) s.

Definition sampling_program (of_ : S -> SamplingThread) (put_ : SamplingThread -> S -> S) : NoobFunction S :=
  MixedFunctionAdapter (sampling_callMixed of_ put_).

Definition ultra_start := numeric (change_call ultra_of put_ultra).
Definition ultra_stop := NoobThreadStopFunction (ch_thread_of ultra_of) (ch_put_thread ultra_of put_ultra) (mret tt).
Definition ultra_status := NoobThreadStatusFunction (ch_thread_of ultra_of) (mret []).
Definition ultra_pop := NoobThreadPopFunction (ch_thread_of ultra_of) (ch_put_thread ultra_of put_ultra).
Definition ultra_poll := NoobThreadPollFunction (ch_thread_of ultra_of) (ch_put_thread ultra_of put_ultra).

Definition light_start := numeric (change_call light_of put_light).
Definition light_stop := NoobThreadStopFunction (ch_thread_of light_of) (ch_put_thread light_of put_light) (mret tt).
Definition light_status := NoobThreadStatusFunction (ch_thread_of light_of) (mret []).
Definition light_pop := NoobThreadPopFunction (ch_thread_of light_of) (ch_put_thread light_of put_light).
Definition light_poll := NoobThreadPollFunction (ch_thread_of light_of) (ch_put_thread light_of put_light).

Definition rise_start := numeric (window_call rise_of put_rise).
Definition rise_stop := NoobThreadStopFunction (w_thread_of rise_of) (w_put_thread rise_of put_rise) (mret tt).
Definition rise_status := NoobThreadStatusFunction (w_thread_of rise_of) (gets (fun s => window_status (rise_of s))).
Definition rise_pop := NoobThreadPopFunction (w_thread_of rise_of) (w_put_thread rise_of put_rise).
Definition rise_poll := NoobThreadPollFunction (w_thread_of rise_of) (w_put_thread rise_of put_rise).

Definition rssi_start := sampling_program rssi_of put_rssi.
Definition rssi_stop := NoobThreadStopFunction (sm_thread_of rssi_of) (sm_put_thread rssi_of put_rssi) (mret tt).
Definition rssi_status := NoobThreadStatusFunction (sm_thread_of rssi_of) (sampling_status rssi_of).
Definition rssi_pop := NoobThreadPopFunction (sm_thread_of rssi_of) (sm_put_thread rssi_of put_rssi).
Definition rssi_poll := NoobThreadPollFunction (sm_thread_of rssi_of) (sm_put_thread rssi_of put_rssi).
Definition rssi_field := NoobThreadFieldFunction (sm_thread_of rssi_of).

Definition env_start := sampling_program env_thread_of put_env_thread.
Definition env_stop := NoobThreadStopFunction (sm_thread_of env_thread_of) (sm_put_thread env_thread_of put_env_thread) (mret tt).
Definition env_status := NoobThreadStatusFunction (sm_thread_of env_thread_of) (sampling_status env_thread_of).
Definition env_pop := NoobThreadPopFunction (sm_thread_of env_thread_of) (sm_put_thread env_thread_of put_env_thread).
Definition env_poll := NoobThreadPollFunction (sm_thread_of env_thread_of) (sm_put_thread env_thread_of put_env_thread).
Definition env_field := NoobThreadFieldFunction (sm_thread_of env_thread_of).

Definition ir_start := numeric (it_call iris_ir).
Definition ir_stop := NoobThreadStopFunction it_thread_of it_put_thread it_onStop.
Definition ir_status := NoobThreadStatusFunction it_thread_of (it_statusDetail iris_ir).
Definition ir_pop := NoobThreadPopFunction it_thread_of it_put_thread.
Definition ir_poll := NoobThreadPollFunction it_thread_of it_put_thread.
Definition ir_field := NoobThreadFieldFunction it_thread_of.

(** [begin] of the threads. *)
Definition irisThreadsBegin : st S unit :=
  upd_change ultra_of put_ultra ch_configure ;; upd_change light_of put_light ch_configure ;; upd_window rise_of put_rise w_configure.
Definition irisSamplingThreadsBegin : st S unit :=
  upd_sampling rssi_of put_rssi sm_configure ;; upd_sampling env_thread_of put_env_thread sm_configure.

(** ** The native functions, in the order of registration *)

(** Lines 146 to 175: camera, card, radio, microphone and lamps. *)
Definition sensor_functions : list (NativeEntry (S := S)) :=
only (ENABLE_CAMERA sw) [Entry 100 (str "CAMERA_CAPTURE") (numeric (camera_capture drv))]
  ++ only (ENABLE_SD sw) [Entry 101 (str "STORAGE_STATUS") (numeric (fun _ => on_sd EspSd.status));
     Entry 105 (str "SD_DELETE") (TextFunctionAdapter (fun a => on_sd (removePath a)));
     Entry 106 (str "SD_LIST") (TextFunctionAdapter (fun a => on_sd (listPath a)));
     Entry 251 (str "SD_READ") (MixedFunctionAdapter (fun n a => on_sd (readPathMixed n a)))]
  ++ only (ENABLE_WIFI sw) [Entry 110 (str "WIFI_SCAN") (numeric wifi_scan);
     Entry 111 (str "WIFI_RSSI") (numeric wifi_rssi);
     Entry 114 (str "WIFI_CONNECT") (numeric (returned (wifi_connect turns)));
     Entry 115 (str "WIFI_DISCONNECT") (numeric wifi_disconnect);
     Entry 116 (str "WIFI_STATUS") (numeric wifi_status);
     Entry 117 (str "WIFI_CREDENTIALS_SET") (TextFunctionAdapter wifi_setCredentials)]
  ++ only (ENABLE_MIC sw) [Entry 120 (str "MIC_LEVEL") (numeric (mic_level drv));
     Entry 121 (str "MIC_ABOVE") (numeric (mic_above drv));
     Entry 122 (str "AUDIO_RECORD") (numeric (mic_recordWav drv))]
  ++ [Entry 130 (str "LED_RGB") (numeric rgb_set);
     Entry 131 (str "LED_SIGNAL") (numeric signal_set);
     Entry 132 (str "LED_EXTERNAL") (numeric irisExternalLed);
     Entry 197 (str "LED_BLUE") (numeric (output_call EXTERNAL_LED_2));
     Entry 198 (str "LED_RED") (numeric (output_call EXTERNAL_LED_0))].

(** Lines 178 to 214: the bridge to Neo. *)
Definition neo_functions : list (NativeEntry (S := S)) :=
[Entry 260 (str "NEO_CAPS") (numeric IrisNeoBridge.caps);
     Entry 261 (str "NEO_IR_STATUS") (numeric IrisNeoBridge.irStatus);
     Entry 262 (str "NEO_IR_SCAN_START") (numeric IrisNeoBridge.irScanStart);
     Entry 263 (str "NEO_IR_SCAN_STOP") (numeric IrisNeoBridge.irScanStop);
     Entry 264 (str "NEO_IR_SCAN_READ") (numeric IrisNeoBridge.irScanRead);
     Entry 265 (str "NEO_FILE_DOWNLOAD") (MixedFunctionAdapter IrisNeoBridge.fileDownload);
     Entry 266 (str "NEO_FILE_STATUS") (numeric IrisNeoBridge.fileStatus);
     Entry 267 (str "VM_DOWNLOAD") (MixedFunctionAdapter (fun n => returned (IrisNeoBridge.vmDownload n)));
     Entry 268 (str "AUDIO_PLAY") (MixedFunctionAdapter IrisNeoBridge.audioPlay);
     Entry 272 (str "NEO_IMAGE_FORMAT") (MixedFunctionAdapter IrisNeoBridge.imageFormat);
     Entry 273 (str "NEO_OLED_DRAW") (MixedFunctionAdapter IrisNeoBridge.oledDraw);
     Entry 274 (str "NEO_OLED_TEXT") (MixedFunctionAdapter IrisNeoBridge.oledText);
     Entry 269 (str "NEO_DISPLAY_START") (MixedFunctionAdapter IrisNeoBridge.displayStart);
     Entry 270 (str "NEO_DISPLAY_STOP") (numeric IrisNeoBridge.displayStop);
     Entry 271 (str "NEO_DISPLAY_STATUS") (numeric IrisNeoBridge.displayStatus);
     Entry 275 (str "NEO_LED_SET") (numeric IrisNeoBridge.ledSet);
     Entry 276 (str "NEO_LED_STATUS") (numeric IrisNeoBridge.ledStatus)].

(** Lines 216 to 249: compiled-in sequences and snapshots. *)
Definition sequence_functions : list (NativeEntry (S := S)) :=
[Entry 200 (str "BLUE_BLINK_SEQUENCE") (NoobSequenceProgram known BLUE_BLINK_CHANNELS);
     Entry 201 (str "POLICE_SEQUENCE") (NoobSequenceProgram known POLICE_CHANNELS)]
  ++ only (ENABLE_CAMERA sw && ENABLE_SD sw) [Entry 217 (str "CAMERA_SEQUENCE_STEP") (numeric (irisCameraSequenceStep (camera_captureNamed drv)));
     Entry 218 (str "CAMERA_SEQUENCE") (NoobSequenceProgram known CAMERA_CHANNELS)]
  ++ only (ENABLE_IR sw && ENABLE_SD sw) [Entry 219 (str "IR_SEQUENCE_STEP") (numeric (irisIrSequenceStep (returned (ir_send turns board_ir))));
     Entry 220 (str "IR_SEQUENCE") (NoobSequenceProgram known IR_CHANNELS)]
  ++ only (ENABLE_WIFI sw && ENABLE_SD sw) [Entry 221 (str "RSSI_SNAPSHOT") (numeric (irisRssiSnapshot scanToCsv))]
  ++ only (ENABLE_IR sw && ENABLE_SD sw) [Entry 222 (str "IR_SNAPSHOT") (numeric (irisIrSnapshot (returned (ir_read turns board_ir))))]
  ++ only (ENABLE_SD sw) [Entry 223 (str "ENV_SNAPSHOT") (numeric (irisEnvSnapshot environment_sample));
     Entry 224 (str "ENV_TEMPERATURE") (numeric irisEnvTemperature);
     Entry 225 (str "ENV_HUMIDITY") (numeric irisEnvHumidity)].

(** Lines 252 to 336: the threads. *)
Definition thread_functions : list (NativeEntry (S := S)) :=
[Entry 202 (str "ULTRASONIC_CHANGE_START") ultra_start;
     Entry 203 (str "ULTRASONIC_CHANGE_STOP") ultra_stop;
     Entry 204 (str "ULTRASONIC_CHANGE_STATUS") ultra_status;
     Entry 205 (str "ULTRASONIC_CHANGE_POP") ultra_pop;
     Entry 206 (str "ULTRASONIC_CHANGE_POLL") ultra_poll;
     Entry 207 (str "LIGHT_CHANGE_START") light_start;
     Entry 208 (str "LIGHT_CHANGE_STOP") light_stop;
     Entry 209 (str "LIGHT_CHANGE_STATUS") light_status;
     Entry 210 (str "LIGHT_CHANGE_POP") light_pop;
     Entry 211 (str "LIGHT_CHANGE_POLL") light_poll]
  ++ only (ENABLE_MIC sw) [Entry 212 (str "MIC_RISE_START") rise_start;
     Entry 213 (str "MIC_RISE_STOP") rise_stop;
     Entry 214 (str "MIC_RISE_STATUS") rise_status;
     Entry 215 (str "MIC_RISE_POP") rise_pop;
     Entry 216 (str "MIC_RISE_POLL") rise_poll]
  ++ only (ENABLE_WIFI sw && ENABLE_SD sw) [Entry 230 (str "RSSI_THREAD_START") rssi_start;
     Entry 231 (str "RSSI_THREAD_STOP") rssi_stop;
     Entry 232 (str "RSSI_THREAD_STATUS") rssi_status;
     Entry 233 (str "RSSI_THREAD_POP") rssi_pop;
     Entry 234 (str "RSSI_THREAD_POLL") rssi_poll;
     Entry 245 (str "RSSI_THREAD_FIELD") rssi_field]
  ++ only (ENABLE_IR sw && ENABLE_SD sw) [Entry 235 (str "IR_THREAD_START") ir_start;
     Entry 236 (str "IR_THREAD_STOP") ir_stop;
     Entry 237 (str "IR_THREAD_STATUS") ir_status;
     Entry 238 (str "IR_THREAD_POP") ir_pop;
     Entry 239 (str "IR_THREAD_POLL") ir_poll;
     Entry 246 (str "IR_THREAD_FIELD") ir_field;
     Entry 248 (str "IR_DICT_REMEMBER") (TextFunctionAdapter irisIrDictionaryRemember);
     Entry 249 (str "IR_DICT_STATUS") (numeric (returned irisIrDictionaryStatus))]
  ++ only (ENABLE_SD sw) [Entry 240 (str "ENV_THREAD_START") env_start;
     Entry 241 (str "ENV_THREAD_STOP") env_stop;
     Entry 242 (str "ENV_THREAD_STATUS") env_status;
     Entry 243 (str "ENV_THREAD_POP") env_pop;
     Entry 244 (str "ENV_THREAD_POLL") env_poll;
     Entry 247 (str "ENV_THREAD_FIELD") env_field].

(** Lines 337 to 371: infrared, stored programs, radio and pin diagnostics. *)
Definition service_functions : list (NativeEntry (S := S)) :=
only (ENABLE_IR sw) [Entry 193 (str "IR_SEND") (numeric (returned (ir_send turns board_ir)));
     Entry 194 (str "IR_READ") (numeric (returned (ir_read turns board_ir)));
     Entry 195 (str "IR_LOOPBACK") (numeric (returned (ir_loopback turns board_ir)));
     Entry 226 (str "IR_REPLAY") (numeric (returned (irisIrReplay iris_ir)));
     Entry 252 (str "IR_REPLAY_LAST") (numeric (replayLast iris_ir));
     Entry 253 (str "IR_VERIFY_LAST") (numeric (verifyLast iris_ir));
     Entry 250 (str "IR_CAPTURE_INSPECT") (numeric (returned irisIrCaptureInspect))]
  ++ only (ENABLE_SD sw) [Entry 140 (str "VM_SAVE") (TextFunctionAdapter save);
     Entry 141 (str "VM_LOAD_SAVED") (TextFunctionAdapter load_saved);
     Entry 142 (str "VM_LIST_SAVED") (TextFunctionAdapter list_saved);
     Entry 143 (str "VM_DELETE_SAVED") (TextFunctionAdapter remove_saved);
     Entry 144 (str "VM_LAST_STATUS") (numeric lastStatus);
     Entry 145 (str "VM_LAST_CLEAR") (numeric clearLast)]
  ++ only (ENABLE_BLE sw) [Entry 160 (str "BLE_SCAN") (numeric (ble_scan drv));
     Entry 161 (str "BLE_PEER_SET") (TextFunctionAdapter (ble_setPeer drv));
     Entry 162 (str "BLE_STATUS") (numeric (ble_status drv))]
  ++ only (ENABLE_GPIO_DIAGNOSTICS sw) [Entry 170 (str "GPIO_AUDIT") (numeric (gpio_audit drv));
     Entry 171 (str "GPIO_INSPECT") (numeric (gpio_inspect drv));
     Entry 172 (str "GPIO_PULL_TEST") (numeric (gpio_pullTest drv))].

(** ** Registration *)

(** A statement works on the device or on the runtime's tables. *)
Inductive statement :=
  | OnDevice (m : st S bool)
  | OnRuntime (m : st (runtime S) bool).

Definition run_statement (x : statement) : st (S * runtime S) bool :=
  match x with OnDevice m => on_fst m | OnRuntime m => on_snd m end.

Definition register (l : list (NativeEntry (S := S))) : list statement := map (fun e => OnRuntime (add_native e)) l.
Definition service (tick : st S (option bytes)) : statement := OnRuntime (addService tick).

Definition record_check (nm : bytes) (state : check_state) : st S unit := upd_self (fun t => (self_record nm state t).2).

Definition checkedInit (nm : bytes) (ready : st S bool) : st S bool :=
  b ← ready; record_check nm (if b : bool then CHECK_READY else FAILED) ;; mret b.

Definition report_heap (stage : bytes) : st S unit :=
  n ← heap_free drv; serial drv (str "NRP/1 0 EVENT HEAP stage=" ++ stage ++ str " internal=" ++ print_nat n ++ [NL]).

Definition initService (nm : bytes) (begin : st S bool) : st S bool :=
  serial drv (str "NRP/1 0 EVENT INIT service=" ++ nm ++ [NL]) ;;
  ready ← checkedInit nm begin;
  serial drv (str "NRP/1 0 EVENT INIT_DONE service=" ++ nm ++ str " ok=" ++ print_nat (if ready : bool then 1 else 0) ++ [NL]) ;;
  report_heap nm ;;
  mret ready.

(** Lines 71 to 96. *)
Definition begin_sensors : list statement :=
  [OnDevice (checkedInit (str "ADC_CONFIG") (adc_configure 0 PHOTORESISTOR))]
  ++ register [Entry 191 (str "ADC_READ") (numeric adc_read); Entry 192 (str "LIGHT_READ") (numeric irisLightRead)]
  ++ [OnDevice (ultrasonic_begin board_ultrasonic)]
  ++ register [Entry 196 (str "ULTRASONIC_READ") (numeric ultrasonic_measure); Entry 199 (str "DISTANCE_MM") irisDistanceFunction]
  ++ [OnDevice (checkedInit (str "DHT_CONFIG") (dht_begin DHT11_DATA))]
  ++ register [Entry 190 (str "TEMP_HUMIDITY_READ") (numeric (returned (dht_read turns)))]
  ++ only (ENABLE_IR sw) [OnDevice (ir_begin board_ir)].

(** Lines 97 to 121; only the line of the radio has no [INIT_DONE]. *)
Definition begin_services : list statement :=
  only (ENABLE_CAMERA sw) [OnDevice (initService (str "CAMERA") (camera_begin drv))]
  ++ only (ENABLE_SD sw) [OnDevice (initService (str "SD") irisStorageBegin)]
  ++ only (ENABLE_MIC sw) [OnDevice (initService (str "MIC") (mic_begin drv))]
  ++ [OnDevice (checkedInit (str "RGB_DRIVER") (rgb_begin RGB_LED));
      OnDevice (checkedInit (str "SIGNAL_DRIVER") (signal_begin SIGNAL_LED))]
  ++ map (fun nm => OnDevice (does (record_check nm UNTESTED)))
       [str "LED_VISIBLE_OUTPUT"; str "IR_REPLAY_TARGET"; str "OLED_VISIBLE_OUTPUT"; str "AUDIO_AUDIBLE_OUTPUT"]
  ++ only (ENABLE_WIFI sw)
       [OnDevice (does (serial drv (str "NRP/1 0 EVENT INIT service=WIFI" ++ CRLF)));
        OnDevice (checkedInit (str "WIFI_INIT") (wifi_begin (Some (WIFI_SSID drv)) (Some (WIFI_PASSWORD drv))));
        OnDevice (does (report_heap (str "WIFI")))]
  ++ only (ENABLE_SD sw)
       [OnDevice (EspStore.begin (Some (str "/programs"))); OnRuntime (does (modify (setVmLifecycle storeLifecycle)))].

(** Lines 122 to 142. *)
Definition begin_diagnostics : list statement :=
  let reserve label pins := map (fun pin => OnDevice (gpio_reserve drv pin label)) pins in
  only (ENABLE_GPIO_DIAGNOSTICS sw)
    ([OnDevice (gpio_begin drv 48)]
     ++ reserve (str "camera") [2; 3; 4; 5; 6; 7; 8; 9; 10; 11; 12; 13; 14; 21]
     ++ reserve (str "flash-psram") [26; 27; 28; 29; 30; 31; 32]
     ++ reserve (str "sd") [38; 39; 41; 42] ++ reserve (str "mic") [35; 36; 37]
     ++ reserve (str "usb-dminus") [19] ++ reserve (str "usb-dplus") [20] ++ reserve (str "rgb-led") [33]
     ++ reserve (str "signal-led") [34] ++ reserve (str "uart0-tx") [43] ++ reserve (str "uart0-rx") [44]
     ++ reserve (str "boot-strap") [0] ++ reserve (str "strap") [45] ++ reserve (str "strap-input-only") [46]
     ++ map (fun pin => OnDevice (gpio_allowPullTest drv pin)) [47; 48]).

(** Lines 372 to 389. *)
Definition report_restore : st S unit :=
  r ← restoreLast;
  serial drv (str "NRP/1 0 EVENT VM_RESTORE ok=" ++ print_nat (if ok r then 1 else 0) ++ str " value=" ++ print_int (value r)
              ++ str " detail=" ++ detail r ++ [NL]).

Definition add_services : list statement :=
  [service (change_tick natives ultra_of put_ultra); service (change_tick natives light_of put_light)]
  ++ only (ENABLE_MIC sw) [service (window_tick natives rise_of put_rise)]
  ++ only (ENABLE_WIFI sw && ENABLE_SD sw) [service (sampling_tick natives rssi_of put_rssi)]
  ++ only (ENABLE_IR sw && ENABLE_SD sw) [service (it_tick iris_ir)]
  ++ only (ENABLE_SD sw) [service (sampling_tick natives env_thread_of put_env_thread); OnDevice (does report_restore)].

Definition irisAddSelfTestPlan : st S bool :=
  all_of (map (fun p s => let '(b, t) := add_planned p (self_of s) in (b, put_self t s)) self_test_plan).

(** Everything from line 71 to line 390. *)
Definition iris_statements : list statement :=
  begin_sensors ++ begin_services ++ begin_diagnostics ++ register sensor_functions ++ register neo_functions
  ++ [OnDevice (does IrisNeoBridge.displayService); service IrisNeoBridge.display_tick]
  ++ register sequence_functions ++ [OnDevice (does irisThreadsBegin); OnDevice (does irisSamplingThreadsBegin)]
  ++ register thread_functions ++ register service_functions ++ add_services ++ [OnDevice irisAddSelfTestPlan].

Definition irisRegister : st (S * runtime S) bool :=
  on_snd (modify (irisRegisterCapabilities sw)) ;;
  good ← all_of (map run_statement iris_statements);
  on_fst (checkedInit (str "IRIS_REGISTRATION") (mret good)).
End iris.
End Iris.
