(* ===== verification/IrisFacts.v ===== *)
(** * What the Iris firmware registers

    Under every setting of the switches every registration succeeds, so the table
    of native functions is the common one followed by the firmware's, without a
    repeated number or name; what the sequences, threads and boot probes refer to
    is registered.  The table of capabilities is too small for what the firmware
    announces. *)
From S2P Require Import Prelude CLib EspRecord EspRegistry EspVm EspProgram EspSequence EspThreads EspDispatch EspRuntime EspCard EspSd EspStore EspIrCapture EspIrReplay EspStoreFacts EspStoreRestart EspSensors IrisNeoBridge IrisNeoLink IrisNeo IrisArtifacts EspWifi IrisIrThread Iris.

Open Scope Z_scope.

Module IrisFacts.
Import EspRecord EspRegistry EspVm EspProgram EspSequence EspThreads EspDispatch EspRuntime EspCard EspSd EspStore Capture IrReplay EspSensors IrisArtifacts EspWifi IrisIrThread Iris.

#[local] Arguments str : simpl never.

Section registration.
Context {S C L T : Type} `{HasSequence S} `{!HasEpoch S} `{!HasSelfTest S} `{!HasStore S C} `{CardOps C} `{!HasIr S}
  `{!HasIrThread S} `{!IrisNeoBridge.HasNeo S L} `{IrisNeoBridge.NeoLink L} `{!HasEnvironment S} `{!HasPins S} `{!HasSensors S} `{!HasIrisThreads S} `{!HasWifi S}.
Context (sw : switches) (drv : drivers S) (known : NativeRegistry (S := T)) (natives : NativeRegistry (S := S)).
Context (turns : nat) (stuck : NativeResult).

(** ** Statements on the device and on the tables are independent *)

Definition device_part (l : list (statement (S := S))) : list (st S bool) :=
  omap (fun x => match x with OnDevice m => Some m | OnRuntime _ => None end) l.
Definition runtime_part (l : list (statement (S := S))) : list (st (runtime S) bool) :=
  omap (fun x => match x with OnDevice _ => None | OnRuntime m => Some m end) l.

Lemma statements_split l : forall s (r : runtime S),
  all_of (map run_statement l) (s, r)
  = ((all_of (device_part l) s).1 && (all_of (runtime_part l) r).1, ((all_of (device_part l) s).2, (all_of (runtime_part l) r).2)).
Proof.
  induction l as [|[m|m] l IH]; intros s r; [done| |]; cbn [map run_statement all_of device_part runtime_part omap list_omap];
    fold (device_part l); fold (runtime_part l); rewrite st_bind_run.
  - rewrite on_fst_run. cbn [fst snd]. rewrite st_bind_run, IH. cbn [fst snd mret st_ret]. rewrite st_bind_run.
    destruct (m s) as [b s1]. cbn [fst snd]. rewrite st_bind_run. cbn [fst snd mret st_ret]. by rewrite andb_assoc.
  - rewrite on_snd_run. cbn [fst snd]. rewrite st_bind_run, IH. cbn [fst snd mret st_ret]. rewrite st_bind_run.
    destruct (m r) as [b r1]. cbn [fst snd]. rewrite st_bind_run. cbn [fst snd mret st_ret].
    f_equal. destruct b, (all_of (device_part l) s).1; done.
Qed.

(** ** What a list of statements adds to the tables *)

Definition fills (l : list (statement (S := S))) (entries : list (NativeEntry (S := S))) (services : list (st S (option bytes))) : Prop :=
  forall r, registry_wf (rt_natives r ++ entries) -> (length (rt_services r) + length services <= MAX_SERVICES)%nat ->
  let '(b, r') := all_of (runtime_part l) r in
  b = true /\ rt_natives r' = rt_natives r ++ entries /\ rt_services r' = rt_services r ++ services /\ rt_capabilities r' = rt_capabilities r
  /\ (rt_lifecycle r' = rt_lifecycle r \/ rt_lifecycle r' = Some storeLifecycle).

Lemma registry_wf_prefix (r l : NativeRegistry (S := S)) : registry_wf (r ++ l) -> registry_wf r.
Proof.
  unfold registry_wf. rewrite !map_app, !length_app. intros (A & B & D). apply NoDup_app in A as (A & _). apply NoDup_app in B as (B & _).
  split_and!; [done|done|lia].
Qed.

Lemma add_fresh (e : NativeEntry (S := S)) r :
  registry_wf (r ++ [e]) -> EspRegistry.add (id e) (name e) (implementation e) r = (true, r ++ [e]).
Proof.
  unfold registry_wf. rewrite !map_app, length_app. intros (A & B & D). cbn [map length] in *. unfold EspRegistry.add.
  apply NoDup_app in A as (_ & A & _). apply NoDup_app in B as (_ & B & _).
  rewrite (proj2 (find_id_None r (id e))), (proj2 (find_name_None r (name e))).
  - rewrite (proj2 (Nat.leb_gt _ _)) by lia. by destruct e.
  - intros X. apply (B _ X). apply list_elem_of_here.
  - intros X. apply (A _ X). apply list_elem_of_here.
Qed.

Lemma runtime_part_app l l' : runtime_part (l ++ l') = runtime_part l ++ runtime_part l'.
Proof. apply omap_app. Qed.

Lemma all_of_app {B} (l l' : list (st B bool)) s :
  all_of (l ++ l') s = ((all_of l s).1 && (all_of l' (all_of l s).2).1, (all_of l' (all_of l s).2).2).
Proof.
  revert s. induction l as [|m l IH]; intros s; cbn [app all_of].
  - cbn. by destruct (all_of l' s).
  - rewrite st_bind_run, st_bind_run, IH. cbn [fst snd mret st_ret]. rewrite st_bind_run. cbn [fst snd]. rewrite st_bind_run.
    cbn [fst snd mret st_ret]. by rewrite andb_assoc.
Qed.

Lemma fills_app l1 l2 e1 e2 v1 v2 : fills l1 e1 v1 -> fills l2 e2 v2 -> fills (l1 ++ l2) (e1 ++ e2) (v1 ++ v2).
Proof.
  intros F1 F2 r W K. rewrite length_app in K. rewrite app_assoc in W. rewrite runtime_part_app, all_of_app.
  specialize (F1 r (registry_wf_prefix _ _ W) ltac:(lia)). destruct (all_of (runtime_part l1) r) as [b1 r1]. destruct F1 as (-> & A1 & A2 & A3 & A4).
  specialize (F2 r1). rewrite A1, A2, length_app in F2. specialize (F2 W ltac:(lia)). cbn [fst snd].
  destruct (all_of (runtime_part l2) r1) as [b2 r2]. destruct F2 as (-> & B1 & B2 & B3 & B4). cbn [fst snd].
  rewrite B1, B2, B3, A3, !app_assoc. split_and!; try done. destruct B4 as [->| ->]; auto.
Qed.

Lemma fills_device l : Forall (fun x => match x with OnDevice _ => True | _ => False end) l -> fills l [] [].
Proof.
  intros F r _ _. replace (runtime_part l) with (@nil (st (runtime S) bool)); [rewrite !app_nil_r; cbn; auto 10|].
  induction F as [|[m|m] l Hx F IH]; done.
Qed.

Lemma fills_register l : fills (register l) l [].
Proof.
  induction l as [|e l IH]; [by apply fills_device|]. change (register (e :: l)) with ([OnRuntime (add_native e)] ++ register l).
  change (fills ([OnRuntime (add_native e)] ++ register l) ([e] ++ l) ([] ++ [])). apply fills_app; [|exact IH].
  intros r W _. cbn [runtime_part omap list_omap all_of]. run_st. unfold add_native. rewrite (add_fresh e _ W). cbn. rewrite app_nil_r. auto 10.
Qed.

Lemma fills_service tick : fills [service tick] [] [tick].
Proof.
  intros r _ K. cbn [runtime_part omap list_omap all_of service]. run_st. unfold addService. cbn [length] in K.
  rewrite (proj2 (Nat.leb_gt _ _)) by lia. cbn. rewrite app_nil_r. auto 10.
Qed.

Lemma fills_lifecycle : fills [OnRuntime (does (modify (setVmLifecycle storeLifecycle)))] [] [].
Proof. intros r _ _. cbn. rewrite !app_nil_r. split_and!; try done. by right. Qed.

Lemma fills_only b l e v : fills l e v -> fills (only b l) (only b e) (only b v).
Proof. destruct b; [done|]. intros _. by apply fills_device. Qed.

(** ** The tables of the firmware *)


(** The first six functions. *)
Definition first_functions : list (NativeEntry (S := S)) :=
  [Entry 191 (str "ADC_READ") (numeric adc_read); Entry 192 (str "LIGHT_READ") (numeric irisLightRead);
   Entry 196 (str "ULTRASONIC_READ") (numeric ultrasonic_measure); Entry 199 (str "DISTANCE_MM") irisDistanceFunction;
   Entry 190 (str "TEMP_HUMIDITY_READ") (numeric (returned stuck (dht_read turns)))].

Definition iris_functions : list (NativeEntry (S := S)) :=
  first_functions ++ sensor_functions sw drv turns stuck ++ neo_functions stuck ++ sequence_functions sw drv known turns stuck
  ++ thread_functions sw stuck ++ service_functions sw drv turns stuck.

Definition iris_services : list (st S (option bytes)) :=
  IrisNeoBridge.display_tick :: [change_tick natives ultra_of put_ultra; change_tick natives light_of put_light]
  ++ only (ENABLE_MIC sw) [window_tick natives rise_of put_rise]
  ++ only (ENABLE_WIFI sw && ENABLE_SD sw) [sampling_tick natives rssi_of put_rssi]
  ++ only (ENABLE_IR sw && ENABLE_SD sw) [it_tick iris_ir]
  ++ only (ENABLE_SD sw) [sampling_tick natives env_thread_of put_env_thread].

Lemma fills_sensors : fills (begin_sensors sw turns stuck) first_functions [].
Proof.
  unfold begin_sensors, first_functions.
  match goal with |- fills (?a ++ ?b ++ ?c ++ ?d ++ ?e ++ ?f ++ ?g) _ _ =>
    change (fills (a ++ b ++ c ++ d ++ e ++ f ++ g)
      ([] ++ take 2 first_functions ++ [] ++ take 2 (drop 2 first_functions) ++ [] ++ drop 4 first_functions ++ []) ([] ++ [] ++ [] ++ [] ++ [] ++ [] ++ [])) end.
  repeat apply fills_app; try apply fills_register; apply fills_device; try (by repeat constructor). by destruct (ENABLE_IR sw); repeat constructor.
Qed.

Lemma fills_services : fills (begin_services sw drv) [] [].
Proof.
  intros r _ _. unfold begin_services, only.
  destruct (ENABLE_CAMERA sw), (ENABLE_SD sw), (ENABLE_MIC sw), (ENABLE_WIFI sw); cbn; rewrite !app_nil_r; split_and!; try done; first [by left | by right].
Qed.

Lemma fills_diagnostics : fills (begin_diagnostics sw drv) [] [].
Proof. intros r _ _. unfold begin_diagnostics, only. destruct (ENABLE_GPIO_DIAGNOSTICS sw); cbn; rewrite !app_nil_r; auto 10. Qed.

Lemma fills_add_services : fills (add_services sw drv natives) [] (tail iris_services).
Proof.
  unfold add_services, iris_services. cbn [tail].
  change (@nil (NativeEntry (S := S))) with ((([] ++ []) : list (NativeEntry (S := S))) ++ ([] ++ [] ++ [] ++ [])).
  apply fills_app.
  - change (fills ([service (change_tick natives ultra_of put_ultra)] ++ [service (change_tick natives light_of put_light)]) ([] ++ [])
      ([change_tick natives ultra_of put_ultra] ++ [change_tick natives light_of put_light])).
    apply fills_app; apply fills_service.
  - repeat apply fills_app; try (destruct (only _ [_]) eqn:?; fail).
    + destruct (ENABLE_MIC sw); [apply fills_service|by apply fills_device].
    + destruct (ENABLE_WIFI sw && ENABLE_SD sw); [apply fills_service|by apply fills_device].
    + destruct (ENABLE_IR sw && ENABLE_SD sw); [apply fills_service|by apply fills_device].
    + destruct (ENABLE_SD sw); [|by apply fills_device].
      apply (fills_app [service _] [OnDevice _] [] [] [_] []); [apply fills_service|by apply fills_device; repeat constructor].
Qed.

Lemma fills_eq l e v e' v' : fills l e v -> e = e' -> v = v' -> fills l e' v'.
Proof. by intros F -> ->. Qed.

Lemma fills_iris : fills (iris_statements sw drv known natives turns stuck) iris_functions iris_services.
Proof.
  unfold iris_statements, iris_functions. eapply fills_eq.
  - repeat (apply fills_app; [first [apply fills_sensors | apply fills_services | apply fills_diagnostics | apply fills_register
      | apply fills_add_services | apply (fills_app [_] [_]); [apply fills_device; repeat constructor|apply fills_service]
      | apply fills_device; by repeat constructor]|]).
    apply fills_device. by repeat constructor.
  - cbn [app]. rewrite ?app_nil_r. done.
  - cbn [app]. rewrite ?app_nil_r. done.
Qed.
End registration.

(** ** No number and no name is used twice *)

Section table.
Context {S C L T : Type} `{HasSequence S} `{!HasEpoch S} `{!HasSelfTest S} `{!HasStore S C} `{CardOps C} `{!HasIr S}
  `{!HasIrThread S} `{!IrisNeoBridge.HasNeo S L} `{IrisNeoBridge.NeoLink L} `{!HasEnvironment S} `{!HasPins S} `{!HasSensors S} `{!HasIrisThreads S} `{!HasWifi S}.
Context (drv : drivers S) (known : NativeRegistry (S := T)) (natives : NativeRegistry (S := S)).
Context (turns : nat) (stuck : NativeResult).

Definition all_on : switches := Switches true true true true true true true.

Lemma only_sublist {A} b (l : list A) : only b l `sublist_of` l.
Proof. destruct b; [done|apply sublist_nil_l]. Qed.

Lemma iris_sublist sw : iris_functions sw drv known turns stuck `sublist_of` iris_functions all_on drv known turns stuck.
Proof.
  unfold iris_functions, sensor_functions, neo_functions, sequence_functions, thread_functions, service_functions.
  repeat first [apply sublist_app | done | apply only_sublist].
Qed.

Lemma sublist_map {A B} (f : A -> B) l l' : l `sublist_of` l' -> map f l `sublist_of` map f l'.
Proof. induction 1; cbn; by constructor. Qed.

Lemma registry_sublist (l l' : NativeRegistry (S := S)) : l `sublist_of` l' -> registry_wf l' -> registry_wf l.
Proof.
  intros X (A & B & D). split_and!.
  - eapply sublist_NoDup; [exact A|by apply sublist_map].
  - eapply sublist_NoDup; [exact B|by apply sublist_map].
  - apply sublist_length in X. lia.
Qed.

Lemma iris_table_wf sw : registry_wf (common_functions known ++ iris_functions sw drv known turns stuck).
Proof.
  apply (registry_sublist _ (common_functions known ++ iris_functions all_on drv known turns stuck)).
  - apply sublist_app; [done|apply iris_sublist].
  - split_and!; apply (bool_decide_unpack _); vm_compute; exact I.
Qed.

(** The runtime as its constructor leaves it. *)
Definition common_runtime : runtime S := Runtime S (common_natives known) common_capabilities (common_services natives) None.

Lemma register_all_fresh (l : list (NativeEntry (S := S))) : forall r, registry_wf (r ++ l) -> register_all l r = r ++ l.
Proof.
  induction l as [|e l IH]; intros r W; [by rewrite app_nil_r|]. unfold register_all in *. cbn [fold_left].
  rewrite (cons_middle e r l), app_assoc in W. rewrite (add_fresh e r (registry_wf_prefix _ _ W)). cbn [snd].
  rewrite (IH _ W). by rewrite <- app_assoc.
Qed.

Lemma common_natives_eq : common_natives known = common_functions known.
Proof. unfold common_natives. apply (register_all_fresh _ []), (registry_wf_prefix _ (iris_functions default_switches drv known turns stuck)), iris_table_wf. Qed.

(** A run of the registration: the tables it leaves, and the device after all the
    statements on it and the last entry of the self test. *)
Lemma irisRegister_run (sw : switches) (s : S) :
  let '(good, s1) := all_of (device_part (iris_statements sw drv known natives turns stuck)) s in
  exists r, irisRegister sw drv known natives turns stuck (s, common_runtime)
            = (good, ((checkedInit (str "IRIS_REGISTRATION") (mret good) s1).2, r))
    /\ rt_natives r = common_functions known ++ iris_functions sw drv known turns stuck
    /\ rt_services r = common_services natives ++ iris_services sw natives
    /\ (rt_lifecycle r = None \/ rt_lifecycle r = Some storeLifecycle).
Proof.
  unfold irisRegister. rewrite st_bind_run, on_snd_run. cbn [fst snd]. rewrite st_bind_run.
  set (r0 := (modify (irisRegisterCapabilities sw) common_runtime).2).
  assert (N : forall l (r : runtime S), rt_natives (fold_left (fun r c => add_capability c r) l r) = rt_natives r
              /\ rt_services (fold_left (fun r c => add_capability c r) l r) = rt_services r
              /\ rt_lifecycle (fold_left (fun r c => add_capability c r) l r) = rt_lifecycle r).
  { induction l as [|c l IH]; intros r; [done|]. cbn [fold_left]. destruct (IH (add_capability c r)) as (-> & -> & ->). done. }
  destruct (N (iris_capabilities sw) common_runtime) as (N1 & N2 & N3).
  change (fold_left _ _ common_runtime) with r0 in N1, N2, N3. clearbody r0.
  cbn [rt_natives rt_services rt_lifecycle common_runtime] in N1, N2, N3. rewrite common_natives_eq in N1.
  pose proof (fills_iris sw drv known natives turns stuck r0) as F. rewrite N1, N2, N3 in F. specialize (F (iris_table_wf sw)).
  rewrite statements_split. destruct (all_of (runtime_part _) r0) as [b r1]. destruct F as (-> & F1 & F2 & _ & F4).
  { cbn [length common_services iris_services]. rewrite !length_app. unfold only, MAX_SERVICES. repeat case_match; cbn [length]; lia. }
  rewrite andb_true_r. destruct (all_of (device_part _) s) as [good s1]. cbn [fst snd]. rewrite on_fst_run. cbn [fst snd].
  exists r1. split_and!; done.
Qed.

(** ** The plan of the boot test *)

Definition probe_ok (p : Probe) : Prop :=
  (length (probe_arguments p) <= 4)%nat /\ 1 <= probe_attempts p <= 3 /\ 0 <= probe_retryMs p <= 60000
  /\ (length (probe_ascii p) <= 128)%nat /\ (0 < length (probe_name p) < CHECK_NAME)%nat /\ probe_tried p = 0.

#[local] Instance probe_ok_dec p : Decision (probe_ok p).
Proof. unfold probe_ok. apply _. Defined.

Lemma update_check_length nm st l l' : update_check nm st l = Some l' -> length l' = length l.
Proof.
  revert l'. induction l as [|c l IH]; intros l'; cbn; [done|]. destruct (bytes_eqb _ _); [by intros [= <-]|].
  destruct (update_check nm st l) as [l2|]; [|done]. intros [= <-]. cbn. by rewrite (IH l2).
Qed.

Lemma self_record_room nm st t :
  (0 < length nm < CHECK_NAME)%nat -> (length (checks_ t) < MAX_CHECKS)%nat ->
  let '(b, t') := self_record nm st t in
  b = true /\ (length (checks_ t') <= length (checks_ t) + 1)%nat /\ probes_ t' = probes_ t.
Proof.
  intros Hn Hl. unfold self_record. destruct (Nat.eqb_spec (length nm) 0); [lia|]. rewrite (proj2 (Nat.leb_gt _ _)) by lia. cbn [orb].
  destruct (update_check nm st (checks_ t)) as [l|] eqn:E.
  - apply update_check_length in E. cbn. split_and!; [done|lia|done].
  - destruct (Nat.eqb_spec (length (checks_ t)) MAX_CHECKS); [lia|]. cbn. rewrite length_app. cbn. split_and!; [done|lia|done].
Qed.

Lemma plan_accepted l : forall t, Forall probe_ok l ->
  (length (checks_ t) + length l <= MAX_CHECKS)%nat -> (length (probes_ t) + length l <= MAX_PROBES)%nat ->
  let '(b, t') := all_of (map add_planned l) t in b = true /\ probes_ t' = probes_ t ++ l.
Proof.
  induction l as [|p l IH]; intros t F Hc Hp; [cbn; by rewrite app_nil_r|]. inversion F as [|? ? (P1 & P2 & P3 & P4 & P5 & P6) F']; subst.
  cbn [map all_of length] in *. rewrite st_bind_run. unfold add_planned at 1 3, addProbe.
  destruct (Nat.eqb_spec (length (probes_ t)) MAX_PROBES); [lia|]. rewrite (proj2 (Nat.ltb_ge _ _)) by lia.
  rewrite (proj2 (Z.eqb_neq _ _)), !(proj2 (Z.ltb_ge _ _)), (proj2 (Nat.ltb_ge _ _)) by lia. cbn [orb].
  pose proof (self_record_room (probe_name p) PENDING t P5 ltac:(lia)) as R.
  destruct (self_record (probe_name p) PENDING t) as [b t1]. destruct R as (-> & R1 & R2). cbn [fst snd]. rewrite R2, st_bind_run.
  match goal with |- context [all_of (map add_planned l) ?x] => specialize (IH x F'); cbn [checks_ probes_] in IH; rewrite length_app in IH;
    specialize (IH ltac:(lia) ltac:(cbn [length]; lia)); destruct (all_of (map add_planned l) x) as [b t2] end.
  destruct IH as [-> IH]. cbn. split; [done|]. rewrite IH, <- app_assoc. cbn. f_equal. destruct p. cbn in P6. by subst.
Qed.

(** The statements on the device before the plan of the boot test is added. *)
Definition device_starts (sw : switches) : list (st S bool) :=
  device_part (begin_sensors sw turns stuck ++ begin_services sw drv ++ begin_diagnostics sw drv
    ++ register (sensor_functions sw drv turns stuck) ++ register (neo_functions stuck)
    ++ [OnDevice (does IrisNeoBridge.displayService); service IrisNeoBridge.display_tick]
    ++ register (sequence_functions sw drv known turns stuck)
    ++ [OnDevice (does irisThreadsBegin); OnDevice (does irisSamplingThreadsBegin)]
    ++ register (thread_functions sw stuck) ++ register (service_functions sw drv turns stuck)
    ++ add_services sw drv natives).

Lemma device_part_plan sw :
  device_part (iris_statements sw drv known natives turns stuck) = device_starts sw ++ [irisAddSelfTestPlan].
Proof. unfold iris_statements, device_starts. rewrite !app_assoc. unfold device_part at 1. by rewrite omap_app. Qed.

(** On the device the plan is what it is on the self test. *)
Lemma plan_on_device (Hput : forall t (s : S), self_of (put_self t s) = t) l : forall s,
  (all_of (map (fun p s => let '(b, t) := add_planned p (self_of s) in (b, put_self t s)) l) s).1
  = (all_of (map add_planned l) (self_of s)).1.
Proof.
  induction l as [|p l IH]; intros s; [done|]. cbn [map all_of]. unfold mbind, st_bind.
  destruct (add_planned p (self_of s)) as [b t]. specialize (IH (put_self t s)). rewrite Hput in IH.
  destruct (all_of _ (put_self t s)), (all_of _ t). cbn in *. by rewrite IH.
Qed.

(** With room for its probes and their checks the plan is accepted. *)
Lemma plan_fits (Hput : forall t (s : S), self_of (put_self t s) = t) (s : S) :
  probes_ (self_of s) = [] -> (length (checks_ (self_of s)) + length self_test_plan <= MAX_CHECKS)%nat ->
  (irisAddSelfTestPlan s).1 = true.
Proof.
  intros Hp Hc. unfold irisAddSelfTestPlan. rewrite (plan_on_device Hput).
  pose proof (plan_accepted self_test_plan (self_of s) ltac:(apply (bool_decide_unpack _); vm_compute; exact I) Hc) as A.
  rewrite Hp in A. specialize (A ltac:(apply Nat.leb_le; vm_compute; reflexivity)).
  destruct (all_of (map add_planned self_test_plan) (self_of s)) as [b t]. apply A.
Qed.

(** C19: whatever services are switched on, Iris's registration fills the runtime's
    tables completely: all of the firmware's functions stand behind the common
    ones, no number or name is used twice, the table of 128 is large enough, and so
    is the table of services.  What it reports is what the statements on the
    device report; and when, at its end, the self test has no probes yet and room
    for the 26 checks of the plan, the plan is accepted, so that the registration
    reports failure exactly when a statement that starts a device fails. *)
Theorem iris_registration (sw : switches) (s : S) :
  let l := iris_statements sw drv known natives turns stuck in
  let '(started, s1) := all_of (device_starts sw) s in
  let '(good, (s', r)) := irisRegister sw drv known natives turns stuck (s, common_runtime) in
  rt_natives r = common_functions known ++ iris_functions sw drv known turns stuck
  /\ registry_wf (rt_natives r)
  /\ rt_services r = common_services natives ++ iris_services sw natives
  /\ good = (all_of (device_part l) s).1
  /\ ((forall t (s : S), self_of (put_self t s) = t) -> probes_ (self_of s1) = [] ->
      (length (checks_ (self_of s1)) + length self_test_plan <= MAX_CHECKS)%nat -> good = started).
Proof.
  cbv zeta. pose proof (irisRegister_run sw s) as R. rewrite device_part_plan in *. rewrite all_of_app in R.
  rewrite all_of_app. destruct (all_of (device_starts sw) s) as [started s1]. cbn [fst snd] in R.
  destruct R as (r & E & R1 & R2 & _).
  rewrite E, R1. split_and!; [done|apply iris_table_wf|done|done|].
  intros Hput Hp Hc. cbn [all_of]. rewrite !st_bind_run, (plan_fits Hput s1 Hp Hc). cbn [fst snd mret st_ret andb].
  by rewrite andb_true_r.
Qed.

(** ** What the firmware refers to *)

(** The number of a function that can be called with numbers. *)
Definition callable (r : NativeRegistry (S := S)) (i : Z) : bool :=
  match find_id r i with Some e => acceptsNumbers (implementation e) | None => false end.

(** The function a probe calls has the probe's number and its name. *)
Definition probe_known (r : NativeRegistry (S := S)) (p : Probe) : bool :=
  match find_id r (probe_id p) with
  | Some e => bytes_eqb (name e) (probe_name p) && acceptsNumbers (implementation e)
  | None => false
  end.

(** what Iris's firmware refers to by number exists: the compiled-in sequences
    load, the threads' sources are registered whenever the threads are, and with
    the default switches each of the 26 boot probes is accepted and calls the
    function of its own name. *)
Theorem iris_references (sw : switches) (t : NoobSelfTest) (q : sequence) :
  running q = false -> (length (checks_ t) <= 38)%nat -> probes_ t = [] ->
  let r sw := common_functions known ++ iris_functions sw drv known turns stuck in
  (forall channels, channels ∈ [BLUE_BLINK_CHANNELS; POLICE_CHANNELS] ++ only (ENABLE_CAMERA sw && ENABLE_SD sw) [CAMERA_CHANNELS]
                               ++ only (ENABLE_IR sw && ENABLE_SD sw) [IR_CHANNELS] ->
     ok (sequence_load (r sw) channels q).1 = true)
  /\ (forall i, i ∈ [199; 192] ++ only (ENABLE_MIC sw) [120] ++ only (ENABLE_WIFI sw && ENABLE_SD sw) [221] ++ only (ENABLE_SD sw) [223] ->
       callable (r sw) i = true)
  /\ (let '(b, t') := all_of (map add_planned self_test_plan) t in
       b = true /\ probes_ t' = self_test_plan /\ forallb (probe_known (r default_switches)) self_test_plan = true).
Proof.
  intros Hq Hc Hp. cbv zeta. split_and!.
  - intros channels Hin. unfold sequence_load. rewrite Hq.
    assert (X : Forall (fun c => match load_all (common_functions known ++ iris_functions sw drv known turns stuck) 0 c with
                  | inl _ => false | inr _ => negb (length c =? 0)%nat && (length c <=? MAX_TRACKS)%nat end = true)
                ([BLUE_BLINK_CHANNELS; POLICE_CHANNELS] ++ only (ENABLE_CAMERA sw && ENABLE_SD sw) [CAMERA_CHANNELS]
                 ++ only (ENABLE_IR sw && ENABLE_SD sw) [IR_CHANNELS])).
    { destruct sw as [[] [] [] [] [] [] []]; apply (bool_decide_unpack _); vm_compute; exact I. }
    rewrite Forall_forall in X. specialize (X _ Hin).
    destruct (load_all _ 0 channels) as [e|ts]; [done|]. apply andb_true_iff in X as [X1 X2]. apply Nat.leb_le in X2.
    destruct (length channels =? 0)%nat; [done|]. by rewrite (proj2 (Nat.ltb_ge _ _)).
  - intros i Hin. assert (X : Forall (fun i => callable (common_functions known ++ iris_functions sw drv known turns stuck) i = true)
      ([199; 192] ++ only (ENABLE_MIC sw) [120] ++ only (ENABLE_WIFI sw && ENABLE_SD sw) [221] ++ only (ENABLE_SD sw) [223])).
    { destruct sw as [[] [] [] [] [] [] []]; apply (bool_decide_unpack _); vm_compute; exact I. }
    rewrite Forall_forall in X. by apply X.
  - pose proof (plan_accepted self_test_plan t) as P. rewrite Hp in P. specialize (P ltac:(apply (bool_decide_unpack _); vm_compute; exact I)).
    change (length self_test_plan) with 26%nat in P. unfold MAX_CHECKS, MAX_PROBES in P. specialize (P ltac:(lia) ltac:(cbn; lia)).
    destruct (all_of _ t) as [b t']. destruct P as [-> P]. split_and!; [done|exact P|vm_compute; reflexivity].
Qed.
End table.

(** ** Capabilities *)

Definition announced_capabilities (sw : switches) : list bytes :=
  rt_capabilities (irisRegisterCapabilities sw (Runtime unit [] common_capabilities [] None)).

(** the table of capabilities has 32 places, five of them used by the common
    runtime; with the default switches Iris adds 29 more, so the last two, RGB_LED
    and SIGNAL_LED, are not announced although their functions are registered. *)
Theorem iris_capabilities_dropped :
  announced_capabilities default_switches = common_capabilities ++ take 27 (iris_capabilities default_switches)
  /\ drop 27 (iris_capabilities default_switches) = [str "RGB_LED"; str "SIGNAL_LED"]
  /\ capability_has (announced_capabilities default_switches) (str "RGB_LED") = false
  /\ capability_has (announced_capabilities default_switches) (str "SIGNAL_LED") = false.
Proof. split_and!; vm_compute; reflexivity. Qed.

(** ** A board for the example *)

Section board.
Context {C : Type}.

(** Everything the firmware keeps, with a card of any kind and a link that works. *)
Record board := Board {
  board_kit : EspStoreRestart.kit C; board_epoch : Z; board_seq : sequence; board_self : NoobSelfTest; board_capture : capture;
  board_irt : ir_thread; board_link : IrisNeoLink.wire IrisNeoLink.daemon; board_display : IrisNeoBridge.neo_display;
  board_env : environment; board_sensors : sensors; board_threads : iris_threads; board_wifi : wifi }.

Definition with_kit (k : EspStoreRestart.kit C) (b : board) : board :=
  Board k (board_epoch b) (board_seq b) (board_self b) (board_capture b) (board_irt b) (board_link b) (board_display b) (board_env b) (board_sensors b) (board_threads b) (board_wifi b).

#[global, refine] Instance board_HasVm : HasVm board :=
  {| vm_of b := vm_of (board_kit b); put_vm v b := with_kit (put_vm v (board_kit b)) b |}.
Proof. all: intros; try destruct s as [[]]; done. Defined.

#[global, refine] Instance board_HasClock : HasClock board := {| millis := mret 0 |}.
Proof. all: by intros. Defined.

#[global, refine] Instance board_HasSequence : HasSequence board :=
  {| seq_of := board_seq; put_seq q b := Board (board_kit b) (board_epoch b) q (board_self b) (board_capture b) (board_irt b) (board_link b) (board_display b) (board_env b) (board_sensors b) (board_threads b) (board_wifi b) |}.
Proof. all: by intros. Defined.

#[global] Instance board_HasEpoch : HasEpoch board :=
  {| epoch_of := board_epoch; put_epoch e b := Board (board_kit b) e (board_seq b) (board_self b) (board_capture b) (board_irt b) (board_link b) (board_display b) (board_env b) (board_sensors b) (board_threads b) (board_wifi b) |}.

#[global] Instance board_HasSelfTest : HasSelfTest board :=
  {| self_of := board_self; put_self t b := Board (board_kit b) (board_epoch b) (board_seq b) t (board_capture b) (board_irt b) (board_link b) (board_display b) (board_env b) (board_sensors b) (board_threads b) (board_wifi b) |}.

#[global, refine] Instance board_HasStore : HasStore board C :=
  {| sd_of b := sd_of (board_kit b); put_sd d b := with_kit (put_sd d (board_kit b)) b;
     store_of b := store_of (board_kit b); put_store q b := with_kit (put_store q (board_kit b)) b |}.
Proof. all: by intros. Defined.

#[global] Instance board_HasIr : HasIr board :=
  {| ir_of := board_capture; put_ir c b := Board (board_kit b) (board_epoch b) (board_seq b) (board_self b) c (board_irt b) (board_link b) (board_display b) (board_env b) (board_sensors b) (board_threads b) (board_wifi b);
     micros := mret 0; receiver := mret 1; delay _ := mret tt; allocate := mret true; rmtInit := mret true; rmtSetCarrier := mret true;
     rmtWrite _ := mret true; rmtDeinit := mret tt |}.

#[global] Instance board_HasIrThread : HasIrThread board :=
  {| irt_of := board_irt; put_irt t b := Board (board_kit b) (board_epoch b) (board_seq b) (board_self b) (board_capture b) t (board_link b) (board_display b) (board_env b) (board_sensors b) (board_threads b) (board_wifi b) |}.

#[global, refine] Instance board_HasNeo : IrisNeoBridge.HasNeo board (IrisNeoLink.wire IrisNeoLink.daemon) :=
  {| IrisNeoBridge.link_of := board_link;
     IrisNeoBridge.put_link l b := Board (board_kit b) (board_epoch b) (board_seq b) (board_self b) (board_capture b) (board_irt b) l (board_display b) (board_env b) (board_sensors b) (board_threads b) (board_wifi b);
     IrisNeoBridge.display_of := board_display;
     IrisNeoBridge.put_display d b := Board (board_kit b) (board_epoch b) (board_seq b) (board_self b) (board_capture b) (board_irt b) (board_link b) d (board_env b) (board_sensors b) (board_threads b) (board_wifi b) |}.
Proof. all: by intros. Defined.

#[global] Instance board_HasEnvironment : HasEnvironment board :=
  {| env_of := board_env; put_env e b := Board (board_kit b) (board_epoch b) (board_seq b) (board_self b) (board_capture b) (board_irt b) (board_link b) (board_display b) e (board_sensors b) (board_threads b) (board_wifi b) |}.

#[global] Instance board_HasPins : HasPins board :=
  {| pinMode _ _ := mret tt; digitalWrite _ _ := mret tt; digitalRead _ := mret 1; delayMicroseconds _ := mret tt;
     pulseIn _ _ _ := mret 0; rgbLedWrite _ _ _ _ := mret tt; ledcAttach _ _ _ := mret true; ledcWrite _ _ := mret tt; ledcDetach _ := mret tt;
     valid_output _ := true; valid_gpio _ := true; adc_oneshot_io_to_channel _ := inr (ADC_UNIT_1, 0); adc_oneshot_new_unit _ := mret (inr 1);
     adc_oneshot_config_channel _ _ := mret 0; gpio_set_floating _ := mret 0; adc_oneshot_read _ _ := mret (inr 100); esp_err_to_name _ := [] |}.

#[global] Instance board_HasSensors : HasSensors board :=
  {| sensors_of := board_sensors; put_sensors q b := Board (board_kit b) (board_epoch b) (board_seq b) (board_self b) (board_capture b) (board_irt b) (board_link b) (board_display b) (board_env b) q (board_threads b) (board_wifi b) |}.

#[global] Instance board_HasIrisThreads : HasIrisThreads board :=
  {| threads_of := board_threads; put_threads q b := Board (board_kit b) (board_epoch b) (board_seq b) (board_self b) (board_capture b) (board_irt b) (board_link b) (board_display b) (board_env b) (board_sensors b) q (board_wifi b) |}.

(** A radio that finds no network, and an empty flash. *)
#[global] Instance board_HasWifi : HasWifi board :=
  {| wifi_of := board_wifi; put_wifi w b := Board (board_kit b) (board_epoch b) (board_seq b) (board_self b) (board_capture b) (board_irt b) (board_link b) (board_display b) (board_env b) (board_sensors b) (board_threads b) w;
     radio_station := mret tt; radio_disconnect := mret tt; radio_begin _ _ := mret tt; radio_status := mret 6; radio_rssi := mret 0;
     radio_address := mret []; scanDelete := mret tt; scanNetworks _ := mret 0; scanComplete := mret 0; net_rssi _ := mret 0;
     net_ssid _ := mret []; net_channel _ := mret 0; net_encryption _ := mret 0; net_bssid _ := mret []; prefs_begin := mret tt;
     getString _ := mret None; putString _ _ := mret tt |}.

Definition no_driver : list Z -> st board NativeResult := fun _ => mret (failure []).
Definition no_text_driver : bytes -> st board NativeResult := fun _ => mret (failure []).
Definition no_drivers : drivers board :=
  Drivers board (fun _ => mret tt) (mret 0) (mret true) no_driver (fun _ _ => mret (failure [])) (mret true) no_driver no_driver no_driver
    [] [] no_driver no_text_driver no_driver
    (fun _ => mret true) (fun _ _ => mret true) (fun _ => mret true) no_driver no_driver no_driver.
End board.
Arguments board : clear implicits.

Lemma iris_references_witness :
  let r := common_functions (S := board good_card) (T := unit) [] ++ iris_functions default_switches no_drivers (T := unit) [] 0 (failure []) in
  ok (sequence_load r POLICE_CHANNELS sequence_init).1 = true /\ callable r 223 = true.
Proof.
  destruct (iris_references no_drivers (T := unit) [] 0 (failure []) default_switches self_test_init sequence_init) as (K1 & K2 & _).
  - reflexivity.
  - cbn. apply Nat.le_0_l.
  - reflexivity.
  - split; [apply K1; apply list_elem_of_further, list_elem_of_here|apply K2; apply (bool_decide_unpack _); vm_compute; exact I].
Defined.

(** A board with an empty card, on which every device starts. *)
Definition bare_board : board good_card :=
  Board (EspStoreRestart.Kit good_card vm_init (Sd good_card false false None None (Good ∅)) store_init) 0 sequence_init self_test_init
    capture_init ir_thread_init (IrisNeoLink.Wire _ IrisNeo.some_neo [] [] [] [] None) IrisNeoBridge.display_init environment_init sensors_init
    iris_threads_init wifi_init.

Lemma iris_registration_witness :
  let r := irisRegister default_switches no_drivers (T := unit) [] [] 0 (failure []) (bare_board, common_runtime (T := unit) [] []) in
  r.1 = true /\ registry_wf (rt_natives r.2.2).
Proof.
  cbv zeta.
  pose proof (iris_registration no_drivers (T := unit) [] [] 0 (failure []) default_switches bare_board) as K. cbv zeta in K.
  assert (P : probes_ (self_of (all_of (device_starts no_drivers (T := unit) [] [] 0 (failure []) default_switches) bare_board).2) = [])
    by (vm_compute; reflexivity).
  assert (C : (length (checks_ (self_of (all_of (device_starts no_drivers (T := unit) [] [] 0 (failure []) default_switches) bare_board).2))
               + length self_test_plan <= MAX_CHECKS)%nat) by (apply Nat.leb_le; vm_compute; reflexivity).
  assert (G : (all_of (device_starts no_drivers (T := unit) [] [] 0 (failure []) default_switches) bare_board).1 = true)
    by (vm_compute; reflexivity).
  destruct (all_of (device_starts _ _ _ _ _ _) bare_board) as [started s1]. cbn [fst snd] in *.
  destruct (irisRegister _ _ _ _ _ _ _) as [good [s' r]]. destruct K as (_ & W & _ & _ & K).
  split; [|exact W]. etransitivity; [|exact G]. apply K; [reflexivity|exact P|exact C].
Defined.
End IrisFacts.
