(* ===== verification/IrisLoop.v ===== *)
(** * The Iris firmware keeps the runtime's invariants

    The loop of the runtime keeps the byte-code machine inside its arrays and the
    sequence service inside its tracks if the functions, services and hooks of
    the noob do their part.  Here Iris's are shown to: most of them leave the
    machine and the sequence service alone, the rest changes them only through
    their own operations.  So from the registration on, with any frames, files,
    answers of Neo and readings of the pins, both invariants hold. *)
From S2P Require Import Prelude CLib EspRecord EspRegistry EspVm EspVmFacts EspVmRun EspProgram EspSequence EspSequenceFacts EspDispatch EspThreads EspRuntime EspRuntimeFacts EspCard EspSd EspStore EspStoreRestart EspIrCapture EspIrReplay EspSensors IrisNeoBridge IrisNeoLink IrisNeo IrisArtifacts EspWifi IrisIrThread Iris IrisFacts.

Open Scope Z_scope.

Module IrisLoop.
Import EspRecord EspRegistry EspVm EspVmFacts EspProgram EspSequence EspSequenceFacts EspDispatch EspThreads EspRuntime EspRuntimeFacts EspCard EspSd EspStore Capture IrReplay EspSensors IrisArtifacts EspWifi IrisIrThread Iris IrisFacts.

(** ** A device whose parts do not overlap *)

(** What the runtime's invariants speak about. *)
Definition core {S : Type} `{HasSequence S} (s : S) : NoobVm * sequence := (vm_of s, seq_of s).

(** A command that leaves it alone. *)
Definition apart {S A : Type} `{HasSequence S} (m : st S A) : Prop := forall s, core (m s).2 = core s.

Class IrisDevice (S C L : Type) `{HasSequence S} `{!HasEpoch S} `{!HasSelfTest S} `{!HasStore S C} `{CardOps C} `{!HasIr S}
  `{!HasIrThread S} `{!IrisNeoBridge.HasNeo S L} `{!HasEnvironment S} `{!HasPins S} `{!HasSensors S} `{!HasIrisThreads S} `{!HasWifi S} := {
  #[global] iris_Device :: Device S;
  seq_put_sd d s : seq_of (put_sd d s) = seq_of s;
  seq_put_store q s : seq_of (put_store q s) = seq_of s;
  seq_put_link l s : seq_of (IrisNeoBridge.put_link l s) = seq_of s;
  seq_put_display d s : seq_of (IrisNeoBridge.put_display d s) = seq_of s;
  core_put_ir v s : core (put_ir v s) = core s;
  core_put_irt v s : core (put_irt v s) = core s;
  core_put_env v s : core (put_env v s) = core s;
  core_put_sensors v s : core (put_sensors v s) = core s;
  core_put_threads v s : core (put_threads v s) = core s;
  core_put_wifi v s : core (put_wifi v s) = core s;
  core_station : apart radio_station;
  core_radio_disconnect : apart radio_disconnect;
  core_radio_begin n p : apart (radio_begin n p);
  core_radio_status : apart radio_status;
  core_radio_rssi : apart radio_rssi;
  core_address : apart radio_address;
  core_scanDelete : apart scanDelete;
  core_scanNetworks b : apart (scanNetworks b);
  core_net_rssi i : apart (net_rssi i);
  core_net_ssid i : apart (net_ssid i);
  core_net_channel i : apart (net_channel i);
  core_net_encryption i : apart (net_encryption i);
  core_net_bssid i : apart (net_bssid i);
  core_prefs : apart prefs_begin;
  core_getString k : apart (getString k);
  core_putString k v : apart (putString k v);
  core_micros : apart micros;
  core_receiver : apart receiver;
  core_delay n : apart (delay n);
  core_allocate : apart allocate;
  core_rmtInit : apart rmtInit;
  core_rmtSetCarrier : apart rmtSetCarrier;
  core_rmtWrite l : apart (rmtWrite l);
  core_rmtDeinit : apart rmtDeinit;
  core_pinMode p m : apart (pinMode p m);
  core_digitalWrite p v : apart (digitalWrite p v);
  core_digitalRead p : apart (digitalRead p);
  core_delayMicroseconds n : apart (delayMicroseconds n);
  core_pulseIn p l n : apart (pulseIn p l n);
  core_rgbLedWrite p r g b : apart (rgbLedWrite p r g b);
  core_ledcAttach p f b : apart (ledcAttach p f b);
  core_ledcWrite p v : apart (ledcWrite p v);
  core_ledcDetach p : apart (ledcDetach p);
  core_new_unit u : apart (adc_oneshot_new_unit u);
  core_config_channel h c : apart (adc_oneshot_config_channel h c);
  core_floating p : apart (gpio_set_floating p);
  core_adc_read h c : apart (adc_oneshot_read h c);
  read_is_bytes path pos n (c : C) : bytes_ok (fs_read path pos n c).1 }.

(** The drivers that are only called are other hardware. *)
Record drivers_apart {S : Type} `{HasSequence S} (drv : drivers S) : Prop := {
  apart_serial t : apart (serial drv t); apart_heap : apart (heap_free drv);
  apart_camera_begin : apart (camera_begin drv); apart_camera a : apart (camera_capture drv a);
  apart_named p t : apart (camera_captureNamed drv p t);
  apart_mic_begin : apart (mic_begin drv); apart_level a : apart (mic_level drv a); apart_above a : apart (mic_above drv a);
  apart_record a : apart (mic_recordWav drv a);
  apart_ble_scan a : apart (ble_scan drv a); apart_peer t : apart (ble_setPeer drv t); apart_ble_status a : apart (ble_status drv a);
  apart_gpio_begin n : apart (gpio_begin drv n); apart_reserve p t : apart (gpio_reserve drv p t);
  apart_pull n : apart (gpio_allowPullTest drv n);
  apart_audit a : apart (gpio_audit drv a); apart_inspect a : apart (gpio_inspect drv a); apart_pull_test a : apart (gpio_pullTest drv a) }.

Section iris.
Context {S C L T : Type} `{IrisDevice S C L} `{!IrisNeoBridge.NeoLink L}.

(** ** Commands that leave machine and sequence service alone *)

Section at_core.
Context (c : NoobVm * sequence).

Definition at_core (s : S) : Prop := core s = c.

Lemma at_apart {A} (m : st S A) : apart m -> keeps at_core m.
Proof. intros Hm s Hs. unfold at_core. by rewrite Hm. Qed.

Lemma at_modify f : (forall s, core (f s) = core s) -> keeps at_core (modify f).
Proof. intros Hf s Hs. unfold at_core, modify. cbn. by rewrite Hf. Qed.

Lemma at_millis : keeps at_core millis.
Proof. intros s Hs. unfold at_core, core. by rewrite millis_vm, millis_seq. Qed.
Lemma at_put_sd d s : core (put_sd d s) = core s.
Proof. unfold core. by rewrite vm_put_sd, seq_put_sd. Qed.

Lemma at_put_store q s : core (put_store q s) = core s.
Proof. unfold core. by rewrite vm_put_store, seq_put_store. Qed.

Lemma at_put_link l s : core (IrisNeoBridge.put_link l s) = core s.
Proof. unfold core. by rewrite IrisNeoBridge.vm_put_link, seq_put_link. Qed.

Lemma at_put_display d s : core (IrisNeoBridge.put_display d s) = core s.
Proof. unfold core. by rewrite IrisNeoBridge.vm_put_display, seq_put_display. Qed.

Lemma at_put_self t s : core (put_self t s) = core s.
Proof. unfold core. by rewrite vm_put_self, seq_put_self. Qed.

Lemma at_on_sd {A} (m : st (sd C) A) : keeps at_core (on_sd m).
Proof. intros s Hs. unfold at_core, on_sd. destruct (m (sd_of s)) as [a d]. cbn. by rewrite at_put_sd. Qed.

Lemma at_on_fs {A} (m : st C A) : keeps at_core (on_fs m).
Proof. apply at_on_sd. Qed.

Lemma at_call_neo command : keeps at_core (IrisNeoBridge.call_neo command).
Proof.
  intros s Hs. unfold at_core, IrisNeoBridge.call_neo, IrisNeoBridge.on_link.
  destruct (IrisNeoBridge.neoRequest _ _) as [a l]. cbn. by rewrite at_put_link.
Qed.

Lemma at_on_ir {A} (f : capture -> A * capture) : keeps at_core (on_ir f).
Proof. intros s Hs. unfold at_core, on_ir. destruct (f (ir_of s)) as [a d]. cbn. by rewrite core_put_ir. Qed.

Lemma at_upd_ir f : keeps at_core (upd_ir f).
Proof. apply at_modify. intros s. apply core_put_ir. Qed.

Lemma at_upd_irt f : keeps at_core (upd_irt f).
Proof. apply at_modify. intros s. apply core_put_irt. Qed.

Lemma at_upd_store f : keeps at_core (upd_store f).
Proof. apply at_modify. intros s. apply at_put_store. Qed.

Lemma at_upd_display f : keeps at_core (IrisNeoBridge.upd_display f).
Proof. apply at_modify. intros s. apply at_put_display. Qed.

Lemma at_upd_sensors f : keeps at_core (upd_sensors f).
Proof. apply at_modify. intros s. apply core_put_sensors. Qed.

Lemma at_upd_self f : keeps at_core (upd_self f).
Proof. apply at_modify. intros s. apply at_put_self. Qed.

Lemma at_milliseconds : keeps at_core milliseconds.
Proof. unfold milliseconds. apply keeps_bind; [apply at_millis|]. intros now. apply keeps_bind; [apply keeps_gets|]. intros e. apply keeps_ret. Qed.
#[local] Hint Resolve at_millis at_on_sd at_on_fs at_call_neo at_on_ir at_upd_ir at_upd_irt at_upd_store at_upd_display at_upd_sensors
  at_upd_self at_milliseconds : noobia.
#[local] Hint Extern 2 (keeps at_core (get_ir _)) => apply keeps_gets : noobia.
#[local] Hint Extern 2 (keeps at_core (get_irt _)) => apply keeps_gets : noobia.
#[local] Hint Extern 2 (keeps at_core (get_store _)) => apply keeps_gets : noobia.
#[local] Hint Extern 2 (keeps at_core (get_sensors _)) => apply keeps_gets : noobia.
#[local] Hint Extern 2 (keeps at_core (get_vm _)) => apply keeps_gets : noobia.
#[local] Hint Extern 3 (keeps at_core _) => apply at_apart; first [apply core_micros | apply core_receiver | apply core_delay
  | apply core_allocate | apply core_rmtInit | apply core_rmtSetCarrier | apply core_rmtWrite | apply core_rmtDeinit | apply core_pinMode
  | apply core_digitalWrite | apply core_digitalRead | apply core_delayMicroseconds | apply core_pulseIn | apply core_rgbLedWrite
  | apply core_ledcAttach | apply core_ledcWrite | apply core_ledcDetach | apply core_new_unit | apply core_config_channel
  | apply core_floating | apply core_adc_read | apply core_station | apply core_radio_disconnect | apply core_radio_begin
  | apply core_radio_status | apply core_radio_rssi | apply core_address | apply core_scanDelete | apply core_scanNetworks
  | apply core_net_rssi | apply core_net_ssid | apply core_net_channel | apply core_net_encryption | apply core_net_bssid | apply core_prefs
  | apply core_getString | apply core_putString] : noobia.

(** The sensors and outputs. *)
Lemma at_adc_samples todo handle channel acc : keeps at_core (adc_samples todo handle channel acc).
Proof. revert acc. induction todo as [|k IH]; intros [[t lo] hi]; cbn [adc_samples]; keeps_auto. Qed.

Lemma at_adc_read args : keeps at_core (adc_read args).
Proof. pose proof at_adc_samples. unfold adc_read, adc_open, adc_setup. keeps_auto. Qed.

Lemma at_adc_configure channel pin : keeps at_core (adc_configure channel pin).
Proof. unfold adc_configure. keeps_auto. Qed.

Lemma at_output_set pin high : keeps at_core (output_set pin high).
Proof. unfold output_set. keeps_auto. Qed.
#[local] Hint Resolve at_adc_read at_output_set : noobia.

Lemma at_output_call pin args : keeps at_core (output_call pin args).
Proof. unfold output_call. keeps_auto. Qed.

Lemma at_leds pin args : keeps at_core (rgb_begin pin) /\ keeps at_core (rgb_set args) /\ keeps at_core (signal_begin pin) /\ keeps at_core (signal_set args).
Proof. unfold rgb_begin, rgb_set, signal_begin, signal_set. split_and!; keeps_auto. Qed.

Lemma at_echoes todo cf timeout acc : keeps at_core (echoes todo cf timeout acc).
Proof. revert acc. induction todo as [|k IH]; intros [[[t lo] hi] n]; cbn [echoes]; keeps_auto. Qed.
#[local] Hint Resolve at_echoes : noobia.

Lemma at_ultrasonic cf args : keeps at_core (ultrasonic_begin cf) /\ keeps at_core (ultrasonic_measure args).
Proof. unfold ultrasonic_begin, ultrasonic_measure. split; keeps_auto. Qed.

Lemma at_dht_wait turns pin level start : keeps at_core (dht_wait turns pin level start).
Proof. induction turns as [|k IH]; cbn [dht_wait]; keeps_auto. Qed.
#[local] Hint Resolve at_dht_wait : noobia.

Lemma at_dht_pulse turns pin level : keeps at_core (dht_pulse turns pin level).
Proof. unfold dht_pulse. keeps_auto. Qed.
#[local] Hint Resolve at_dht_pulse : noobia.

Lemma at_dht_widths turns pin levels phase : keeps at_core (dht_widths turns pin levels phase).
Proof. revert phase. induction levels as [|l levels IH]; intros phase; cbn [dht_widths]; keeps_auto. Qed.
#[local] Hint Resolve at_dht_widths : noobia.

Lemma at_dht_sample turns : keeps at_core (dht_sample turns).
Proof. unfold dht_sample. keeps_auto. Qed.
#[local] Hint Resolve at_dht_sample : noobia.

Lemma at_dht turns pin args : keeps at_core (dht_begin pin) /\ keeps at_core (dht_read turns args).
Proof. unfold dht_begin, dht_read. split; keeps_auto. Qed.

(** Infrared. *)
Lemma at_preparePins cf : keeps at_core (preparePins cf).
Proof. unfold preparePins. keeps_auto. Qed.
#[local] Hint Resolve at_preparePins : noobia.

Lemma at_carrier_loop turns cf deadline duration low samples : keeps at_core (carrier_loop turns cf deadline duration low samples).
Proof. revert low samples. induction turns as [|k IH]; intros low samples; cbn [carrier_loop]; keeps_auto. Qed.
#[local] Hint Resolve at_carrier_loop : noobia.

Lemma at_sendCarrier turns cf frequency duration : keeps at_core (sendCarrier turns cf frequency duration).
Proof. unfold sendCarrier. keeps_auto. Qed.

Lemma at_ir_refused cf : keeps at_core (ir_refused cf).
Proof. unfold ir_refused. keeps_auto. Qed.
#[local] Hint Resolve at_sendCarrier at_ir_refused : noobia.

Lemma at_read_loop turns cf deadline acc : keeps at_core (read_loop turns cf deadline acc).
Proof. revert acc. induction turns as [|k IH]; intros [[[a b] d] e]; cbn [read_loop]; keeps_auto. Qed.

Lemma at_bursts_loop turns todo cf low idle : keeps at_core (bursts_loop turns todo cf low idle).
Proof. revert low idle. induction todo as [|k IH]; intros low idle; cbn [bursts_loop]; keeps_auto. Qed.
#[local] Hint Resolve at_read_loop at_bursts_loop : noobia.

Lemma at_ir_begin cf : keeps at_core (ir_begin cf).
Proof. unfold ir_begin. keeps_auto. Qed.

Lemma at_ir_functions turns cf args :
  keeps at_core (ir_send turns cf args) /\ keeps at_core (ir_read turns cf args) /\ keeps at_core (ir_loopback turns cf args).
Proof. unfold ir_send, ir_read, ir_loopback. split_and!; keeps_auto. Qed.

Lemma at_captures cf : keeps at_core (ir_captureStart cf) /\ keeps at_core (ir_captureReady cf) /\ keeps at_core ir_captureRearm
  /\ keeps at_core ir_captureStop /\ keeps at_core (ir_capturePulseCount cf).
Proof.
  assert (keeps at_core (ir_captureReady cf)) by (unfold ir_captureReady; keeps_auto).
  unfold ir_captureStart, ir_captureRearm, ir_captureStop, ir_capturePulseCount. split_and!; keeps_auto.
Qed.

Lemma at_capturePulse cf k : keeps at_core (ir_capturePulse cf k).
Proof. destruct (at_captures cf) as (_ & ? & _). unfold ir_capturePulse. keeps_auto. Qed.
#[local] Hint Resolve at_capturePulse : noobia.
#[local] Hint Extern 2 (keeps at_core _) => apply at_captures : noobia.

Lemma at_repeats repeats symbols : keeps at_core (write_repeats repeats symbols).
Proof. induction repeats as [|k IH]; cbn [write_repeats]; keeps_auto. Qed.
#[local] Hint Resolve at_repeats : noobia.

Lemma at_replay cf pulses repeats allow : keeps at_core (replayEnvelopeImpl cf pulses repeats allow).
Proof. unfold replayEnvelopeImpl. keeps_auto. Qed.
#[local] Hint Resolve at_replay : noobia.

Lemma at_copy_pulses cf todo index : keeps at_core (copy_pulses cf todo index).
Proof. revert index. induction todo as [|k IH]; intros index; cbn [copy_pulses]; keeps_auto. Qed.
#[local] Hint Resolve at_copy_pulses : noobia.

Lemma at_replayAndCapture cf pulses capacity : keeps at_core (replayAndCapture cf pulses capacity).
Proof. unfold replayAndCapture. keeps_auto. Qed.
#[local] Hint Resolve at_replayAndCapture : noobia.

(** Artifacts. *)
Lemma at_free_path attempts directory prefix suffix timestamp : keeps at_core (free_path attempts directory prefix suffix timestamp).
Proof. revert timestamp. induction attempts as [|k IH]; intros t; cbn [free_path]; keeps_auto. Qed.
#[local] Hint Resolve at_free_path : noobia.

Lemma at_artifactPath directory prefix suffix : keeps at_core (artifactPath directory prefix suffix).
Proof. unfold artifactPath. keeps_auto. Qed.
#[local] Hint Resolve at_artifactPath : noobia.

Lemma at_storage : keeps at_core irisArtifactsBegin /\ keeps at_core irisStorageBegin.
Proof.
  assert (keeps at_core irisArtifactsBegin) by (unfold irisArtifactsBegin; keeps_auto).
  split; [done|]. unfold irisStorageBegin. keeps_auto.
Qed.

Lemma at_store_capture pulses symbols full : keeps at_core (irisStoreIrCapture pulses symbols full).
Proof. unfold irisStoreIrCapture. keeps_auto. Qed.
#[local] Hint Resolve at_store_capture : noobia.

Lemma at_irisIrReplay cf args : keeps at_core (irisIrReplay cf args).
Proof. unfold irisIrReplay, replay_file, replayEnvelope. keeps_auto. Qed.

Lemma at_inspect args : keeps at_core (irisIrCaptureInspect args).
Proof. unfold irisIrCaptureInspect. keeps_auto. Qed.

Lemma at_camera_step capture args : (forall p t, keeps at_core (capture p t)) -> keeps at_core (irisCameraSequenceStep capture args).
Proof. intros Hc. unfold irisCameraSequenceStep. keeps_auto. Qed.

Lemma at_ir_step send args : (forall a, keeps at_core (send a)) -> keeps at_core (irisIrSequenceStep send args).
Proof. intros Hc. unfold irisIrSequenceStep. keeps_auto. Qed.

Lemma at_rssi_snapshot scan args : (forall p, keeps at_core (scan p)) -> keeps at_core (irisRssiSnapshot scan args).
Proof. intros Hc. unfold irisRssiSnapshot. keeps_auto. Qed.

Lemma at_ir_snapshot read args : (forall p, keeps at_core (read p)) -> keeps at_core (irisIrSnapshot read args).
Proof. intros Hc. unfold irisIrSnapshot. keeps_auto. Qed.

Lemma at_env_snapshot sample args : keeps at_core sample -> keeps at_core (irisEnvSnapshot sample args).
Proof. intros Hc. unfold irisEnvSnapshot. keeps_auto. apply at_modify. intros s. apply core_put_env. Qed.

Lemma at_env_values args : keeps at_core (irisEnvTemperature args) /\ keeps at_core (irisEnvHumidity args).
Proof. unfold irisEnvTemperature, irisEnvHumidity, env_value. split; keeps_auto. Qed.

(** The radio. *)
Lemma at_upd_wifi f : keeps at_core (upd_wifi f).
Proof. apply at_modify. intros s. apply core_put_wifi. Qed.
#[local] Hint Resolve at_upd_wifi : noobia.
#[local] Hint Extern 2 (keeps at_core (get_wifi _)) => apply keeps_gets : noobia.

Lemma at_credentials ssid password : keeps at_core (store_credentials ssid password).
Proof. unfold store_credentials. keeps_auto. Qed.
#[local] Hint Resolve at_credentials : noobia.

Lemma at_wifi_begin ssid password : keeps at_core (wifi_begin ssid password).
Proof. unfold wifi_begin. keeps_auto. Qed.

Lemma at_wait_connected turns started timeout : keeps at_core (wait_connected turns started timeout).
Proof. induction turns as [|k IH]; cbn [wait_connected]; keeps_auto. Qed.
#[local] Hint Resolve at_wait_connected : noobia.

Lemma at_wifi_connect turns args : keeps at_core (wifi_connect turns args).
Proof. unfold wifi_connect. keeps_auto. Qed.

Lemma at_setCredentials text : keeps at_core (wifi_setCredentials text).
Proof. unfold wifi_setCredentials. destruct (span _ text) as [first rest]. keeps_auto. Qed.

Lemma at_scan_now : keeps at_core scan_now.
Proof. unfold scan_now. keeps_auto. Qed.
#[local] Hint Resolve at_scan_now : noobia.

Lemma at_wifi_functions args : keeps at_core (wifi_scan args) /\ keeps at_core (wifi_rssi args) /\ keeps at_core (wifi_disconnect args)
  /\ keeps at_core (wifi_status args).
Proof. unfold wifi_scan, wifi_rssi, wifi_disconnect, wifi_status. cbv zeta. split_and!; keeps_auto. Qed.

Lemma at_scan_rows path todo index : keeps at_core (scan_rows path todo index).
Proof. revert index. induction todo as [|k IH]; intros index; cbn [scan_rows]; keeps_auto. Qed.
#[local] Hint Resolve at_scan_rows : noobia.

Lemma at_scanToCsv path : keeps at_core (scanToCsv path).
Proof. unfold scanToCsv. keeps_auto. Qed.

(** A thread kept beside the machine. *)
Section thread.
Context (thread_of : S -> NoobThread) (put_thread : NoobThread -> S -> S) (put_core : forall t s, core (put_thread t s) = core s).

Lemma at_upd_thread f : keeps at_core (upd_thread thread_of put_thread f).
Proof. apply at_modify. intros s. apply put_core. Qed.
#[local] Hint Resolve at_upd_thread : noobia.

Lemma at_thread_call onStart args : keeps at_core onStart -> keeps at_core (thread_call thread_of put_thread onStart args).
Proof. intros Hs. unfold thread_call. keeps_auto. Qed.

Lemma at_thread_stop onStop : keeps at_core onStop -> keeps at_core (thread_stop thread_of put_thread onStop).
Proof. intros Hs. unfold thread_stop. keeps_auto. Qed.

Lemma at_take_record empty prefix : keeps at_core (take_record thread_of put_thread empty prefix).
Proof. unfold take_record. keeps_auto. Qed.

Lemma at_no_argument m args ascii : keeps at_core m -> keeps at_core (fn_callMixed (no_argument_function m) args ascii).
Proof. intros Hm. apply keeps_base; intros a; [destruct a; [done|]|]; apply keeps_ret. Qed.

Lemma at_thread_functions onStop detail args ascii : keeps at_core onStop -> keeps at_core detail ->
  keeps at_core (fn_callMixed (NoobThreadStopFunction thread_of put_thread onStop) args ascii)
  /\ keeps at_core (fn_callMixed (NoobThreadStatusFunction thread_of detail) args ascii)
  /\ keeps at_core (fn_callMixed (NoobThreadPopFunction thread_of put_thread) args ascii)
  /\ keeps at_core (fn_callMixed (NoobThreadPollFunction thread_of put_thread) args ascii)
  /\ keeps at_core (fn_callMixed (NoobThreadFieldFunction thread_of) args ascii).
Proof.
  intros Hs Hd. split_and!; try apply at_no_argument.
  - by apply at_thread_stop.
  - unfold thread_status. keeps_auto.
  - apply at_take_record.
  - apply at_take_record.
  - apply keeps_base; intros a; [unfold thread_field; keeps_auto|apply keeps_ret].
Qed.

(** Its turn, when its step keeps a property that does not see the thread. *)
Lemma keeps_thread_tick (P : S -> Prop) step :
  (forall t s, P s -> P (put_thread t s)) -> keeps P millis -> keeps P step -> keeps P (thread_tick thread_of put_thread step).
Proof.
  intros Hp Hm Hs. unfold thread_tick. keeps_auto. intros s Hs'. by apply Hp.
Qed.
End thread.

(** The threads of Iris. *)
Lemma at_ultra t s : core (ch_put_thread ultra_of put_ultra t s) = core s.
Proof. apply core_put_threads. Qed.
Lemma at_light t s : core (ch_put_thread light_of put_light t s) = core s.
Proof. apply core_put_threads. Qed.
Lemma at_rise t s : core (w_put_thread rise_of put_rise t s) = core s.
Proof. apply core_put_threads. Qed.
Lemma at_rssi t s : core (sm_put_thread rssi_of put_rssi t s) = core s.
Proof. apply core_put_threads. Qed.
Lemma at_env t s : core (sm_put_thread env_thread_of put_env_thread t s) = core s.
Proof. apply core_put_threads. Qed.
Lemma at_irt t s : core (it_put_thread t s) = core s.
Proof. apply core_put_irt. Qed.

Lemma at_change_call of' put' args : (forall (t : ChangeThread) s, core (put' t s) = core s) -> keeps at_core (change_call of' put' args).
Proof.
  intros Hp. assert (U : forall f, keeps at_core (upd_change of' put' f)) by (intros f; apply at_modify; intros s; apply Hp).
  assert (V : forall f, keeps at_core (upd_thread (ch_thread_of of') (ch_put_thread of' put') f)) by (apply at_upd_thread; intros; apply Hp).
  unfold change_call. keeps_auto. apply at_thread_call; [intros; apply Hp|auto].
Qed.

Lemma at_window_call of' put' args : (forall (t : WindowThread) s, core (put' t s) = core s) -> keeps at_core (window_call of' put' args).
Proof.
  intros Hp. assert (U : forall f, keeps at_core (upd_window of' put' f)) by (intros f; apply at_modify; intros s; apply Hp).
  unfold window_call. keeps_auto. apply at_thread_call; [intros; apply Hp|keeps_auto].
Qed.

Lemma at_sampling_call of' put' args ascii :
  (forall (t : SamplingThread) s, core (put' t s) = core s) -> keeps at_core (sampling_callMixed of' put' args ascii).
Proof.
  intros Hp. assert (U : forall f, keeps at_core (upd_sampling of' put' f)) by (intros f; apply at_modify; intros s; apply Hp).
  assert (V : forall f, keeps at_core (upd_thread (sm_thread_of of') (sm_put_thread of' put') f)) by (apply at_upd_thread; intros; apply Hp).
  unfold sampling_callMixed, sampling_call. keeps_auto. apply at_thread_call; [intros; apply Hp|keeps_auto].
Qed.
Lemma at_sampling_status of' : keeps at_core (sampling_status of').
Proof. unfold sampling_status. keeps_auto. Qed.

Lemma at_threadsBegin : keeps at_core irisThreadsBegin /\ keeps at_core irisSamplingThreadsBegin.
Proof.
  split; repeat (apply keeps_bind; [|intros _]); apply at_modify; intros s; apply core_put_threads.
Qed.

(** The capture thread. *)
Lemma at_it_hooks cf : keeps at_core (it_onStart cf) /\ keeps at_core it_onStop /\ keeps at_core it_stop.
Proof.
  assert (keeps at_core it_onStop) by (unfold it_onStop; keeps_auto).
  split_and!; [unfold it_onStart; keeps_auto|done|]. by apply (at_thread_stop _ _ at_irt).
Qed.
#[local] Hint Extern 2 (keeps at_core it_stop) => apply (at_it_hooks iris_ir) : noobia.
#[local] Hint Resolve at_upd_thread at_irt : noobia.

Lemma at_it_call cf args : keeps at_core (it_call cf args).
Proof. unfold it_call. keeps_auto. apply (at_thread_call _ _ at_irt). apply at_it_hooks. Qed.

Lemma at_it_last cf args : keeps at_core (replayLast cf args) /\ keeps at_core (verifyLast cf args).
Proof. unfold replayLast, verifyLast, replayEnvelope. split; keeps_auto. Qed.

Lemma at_it_fail text : keeps at_core (fail_with text).
Proof. unfold fail_with. keeps_auto. Qed.
#[local] Hint Resolve at_it_fail : noobia.

Lemma at_copy_frame cf todo index short : keeps at_core (copy_frame cf todo index short).
Proof. revert index short. induction todo as [|k IH]; intros index short; cbn [copy_frame]; keeps_auto. Qed.
#[local] Hint Resolve at_copy_frame : noobia.

Lemma at_it_step cf : keeps at_core (it_step cf).
Proof. unfold it_step, take_frame, store_frame. keeps_auto. Qed.

Lemma at_it_status cf : keeps at_core (it_statusDetail cf).
Proof. unfold it_statusDetail. keeps_auto. Qed.

Lemma at_dictionary text args : keeps at_core (irisIrDictionaryRemember text) /\ keeps at_core (irisIrDictionaryStatus args).
Proof. unfold irisIrDictionaryRemember, irisIrDictionaryStatus. split; keeps_auto. Qed.

(** The program store, but for the calls that load. *)
Lemma at_when {A} (otherwise : A) (m : st S A) : keeps at_core m -> keeps at_core (when_attached otherwise m).
Proof. intros Hm. unfold when_attached. keeps_auto. Qed.

Lemma at_store_small text : keeps at_core (set_status text) /\ keeps at_core disable_run /\ keeps at_core clear_files.
Proof. unfold set_status, disable_run, clear_files, set_status. split_and!; keeps_auto. Qed.
#[local] Hint Extern 2 (keeps at_core _) => apply (at_store_small []) : noobia.
#[local] Hint Extern 2 (keeps at_core (set_status _)) => apply at_store_small : noobia.

Lemma at_store_hooks : keeps at_core store_onStarted /\ keeps at_core store_onStopped /\ keeps at_core store_onReset.
Proof. unfold store_onStarted, store_onStopped, store_onReset. split_and!; apply at_when; keeps_auto. Qed.

Lemma at_store_begin directory : keeps at_core (EspStore.begin directory).
Proof. unfold EspStore.begin. keeps_auto. Qed.

Lemma at_refuse text r : keeps at_core (refuse_restore text r).
Proof. unfold refuse_restore. keeps_auto. Qed.

Lemma at_open_saved name : keeps at_core (open_saved name).
Proof. unfold open_saved. keeps_auto. Qed.

Lemma at_store_numeric args : keeps at_core (lastStatus args) /\ keeps at_core (clearLast args).
Proof. split; (destruct args; [|apply keeps_ret]); apply at_when; keeps_auto. Qed.

Lemma at_storeBytes name data replace : keeps at_core (storeBytes name data replace).
Proof. apply at_when. cbv zeta. keeps_auto. Qed.
#[local] Hint Resolve at_storeBytes : noobia.

Lemma at_store_text name : keeps at_core (save name) /\ keeps at_core (list_saved name) /\ keeps at_core (remove_saved name).
Proof. split_and!; [apply at_when; cbv zeta; keeps_auto..|unfold remove_saved; keeps_auto]. Qed.

(** The bridge to Neo. *)
Lemma at_download fuel filename replace b expected :
  keeps at_core (IrisNeoBridge.download_loop fuel filename replace b expected).
Proof. revert b expected. induction fuel as [|k IH]; intros b expected; cbn [IrisNeoBridge.download_loop]; keeps_auto. Qed.
#[local] Hint Resolve at_download : noobia.

Lemma at_vmDownload args filename : keeps at_core (IrisNeoBridge.vmDownload args filename).
Proof. unfold IrisNeoBridge.vmDownload. keeps_auto. Qed.

Lemma at_text_native limit usage name args text : keeps at_core (IrisNeoBridge.text_native limit usage name args text).
Proof. unfold IrisNeoBridge.text_native, IrisNeoBridge.usage. keeps_auto. Qed.

Lemma at_plain_native command args : keeps at_core (IrisNeoBridge.plain_native command args).
Proof. unfold IrisNeoBridge.plain_native, IrisNeoBridge.usage. keeps_auto. Qed.

Lemma at_neo_led args : keeps at_core (IrisNeoBridge.ledSet args) /\ keeps at_core (IrisNeoBridge.ledStatus args).
Proof. unfold IrisNeoBridge.ledSet, IrisNeoBridge.ledStatus, IrisNeoBridge.usage. split; keeps_auto. Qed.

Lemma at_neo_display args name : keeps at_core (IrisNeoBridge.displayStart args name) /\ keeps at_core (IrisNeoBridge.displayStop args)
  /\ keeps at_core IrisNeoBridge.displayService /\ keeps at_core IrisNeoBridge.display_tick.
Proof.
  unfold IrisNeoBridge.displayStart, IrisNeoBridge.displayStop, IrisNeoBridge.displayService, IrisNeoBridge.display_tick, IrisNeoBridge.usage.
  split_and!; keeps_auto.
Qed.

End at_core.

(** ** Both invariants *)

Definition guarded {A} (m : st S A) : Prop := keeps vm_inv m /\ keeps seq_inv m.

Lemma guarded_apart {A} (m : st S A) : (forall c, keeps (at_core c) m) -> guarded m.
Proof.
  intros Hm. split; intros s Hs; specialize (Hm (core s) s eq_refl); unfold at_core, core in Hm; injection Hm as E1 E2;
    unfold vm_inv, seq_inv in *; congruence.
Qed.

Lemma guarded_bind {A B} (m : st S A) (k : A -> st S B) : guarded m -> (forall a, guarded (k a)) -> guarded (m ≫= k).
Proof. intros [V Q] K. split; (apply keeps_bind; [done|]); intros a; apply K. Qed.

Lemma guarded_ret {A} (a : A) : guarded (mret a).
Proof. split; apply keeps_ret. Qed.

Lemma guarded_put_vm v : vm_wf v -> guarded (upd_vm (fun _ => v)).
Proof.
  intros Hv. split; intros s Hs; unfold vm_inv, seq_inv, upd_vm, modify in *; cbn; [by rewrite vm_of_put|by rewrite seq_put_vm].
Qed.

(** A read of the machine, followed by what is made of it. *)
Lemma guarded_get_vm {A B} (f : NoobVm -> A) (k : A -> st S B) :
  (forall v, vm_wf v -> keeps vm_inv (k (f v))) -> (forall v, keeps seq_inv (k (f v))) -> guarded (get_vm f ≫= k).
Proof. intros V Q. split; intros s Hs; rewrite st_bind_run; cbn [get_vm gets fst snd]; [by apply V|by apply Q]. Qed.

Lemma loaded_bytes path pos n {B} (k : bytes -> st S B) :
  (forall p, bytes_ok p -> guarded (k p)) -> guarded (on_fs (fs_read path pos n) ≫= k).
Proof.
  intros K. split; intros s Hs; rewrite st_bind_run; (apply K; [|apply (guarded_apart _ (fun c => at_on_fs c _)); done]);
    unfold on_fs, on_sd, on_card; pose proof (read_is_bytes path pos n) as R; specialize (R (storage (sd_of s)));
    destruct (fs_read path pos n _) as [p c']; exact R.
Qed.

Lemma guarded_when {A} (otherwise : A) (m : st S A) : guarded m -> guarded (when_attached otherwise m).
Proof.
  intros Hm. unfold when_attached. apply guarded_bind; [apply guarded_apart; intros c; apply keeps_gets|].
  intros []; [done|apply guarded_ret].
Qed.

Ltac apart_step lem := apply guarded_bind; [apply guarded_apart; intros c; lem c|intros ?].

Lemma guarded_load_saved name : guarded (load_saved name).
Proof.
  apply guarded_when. apart_step ltac:(fun c => apply keeps_gets). destruct (_ =? _)%nat; [apply guarded_ret|].
  apart_step ltac:(fun c => apply at_open_saved). destruct a0 as [path|]; [|apply guarded_ret].
  apart_step ltac:(fun c => apply at_on_fs). destruct (_ || _); [apply guarded_ret|].
  apply loaded_bytes. intros p Hp. cbv zeta. destruct (negb _); [apply guarded_ret|].
  apply guarded_get_vm; intros v.
  - intros Hv. pose proof (EspVmRun.load_wf p v Hp Hv) as W. unfold EspVmRun.keep_error in W. destruct (load p v) as [e|v']; [apply keeps_ret|].
    apply keeps_bind; [by apply guarded_put_vm|]. intros _. apply keeps_ret.
  - destruct (load p v) as [e|v']; [apply keeps_ret|]. apply keeps_bind; [|intros _; apply keeps_ret].
    intros s Hs. unfold seq_inv, upd_vm, modify in *. cbn. by rewrite seq_put_vm.
Qed.

(** After a program has been loaded, its start. *)
Lemma guarded_restored (autorun : bool) q length :
  guarded (started ← get_vm run;
    match autorun, started with
    | true, inl e => refuse_restore e (result false length e)
    | _, _ =>
        (match autorun, started with true, inr v => upd_vm (fun _ => v) | _, _ => mret tt end) ;;
        set_status (if autorun : bool then str "restored:autorun" else str "restored:ready") ;;
        mret (result true length (str "restored=" ++ lastProgramPath q ++ str " autorun=" ++
                                  print_nat (if autorun : bool then 1 else 0)))
    end).
Proof.
  assert (R : forall e r, guarded (refuse_restore e r)) by (intros; apply guarded_apart; intros; apply at_refuse).
  assert (T' : forall t r, guarded (set_status t ;; mret r : st S NativeResult)).
  { intros t r. apply guarded_bind; [apply guarded_apart; intros; apply at_store_small|intros; apply guarded_ret]. }
  apply guarded_get_vm; intros v.
  - intros Hv. pose proof (EspVmRun.run_wf v Hv) as W. unfold EspVmRun.keep_error in W.
    destruct autorun, (run v) as [e|v']; try apply R; (apply keeps_bind; [|intros _; apply T']); try apply keeps_ret. by apply guarded_put_vm.
  - destruct autorun, (run v) as [e|v']; try apply R; (apply keeps_bind; [|intros _; apply T']); try apply keeps_ret.
    intros s Hs. unfold seq_inv, upd_vm, modify in *. cbn. by rewrite seq_put_vm.
Qed.

Lemma guarded_start_restored p : bytes_ok p -> guarded (start_restored p).
Proof.
  intros Hp. unfold start_restored. cbv zeta. apart_step ltac:(fun c => apply keeps_gets).
  assert (R : forall e r, guarded (refuse_restore e r)) by (intros; apply guarded_apart; intros; apply at_refuse).
  apply guarded_get_vm; intros v.
  - intros Hv. pose proof (EspVmRun.load_wf p v Hp Hv) as W. unfold EspVmRun.keep_error in W. destruct (load p v) as [e|v']; [apply R|].
    apply keeps_bind; [by apply guarded_put_vm|]. intros _. apply keeps_bind; [apply guarded_apart; intros; apply at_on_fs|]. intros ?. apply guarded_restored.
  - destruct (load p v) as [e|v']; [apply R|]. apply keeps_bind; [intros s Hs; unfold seq_inv, upd_vm, modify in *; cbn; by rewrite seq_put_vm|].
    intros _. apply keeps_bind; [apply guarded_apart; intros; apply at_on_fs|]. intros ?. apply guarded_restored.
Qed.

Lemma guarded_restoreLast : guarded restoreLast.
Proof.
  assert (R : forall e r, guarded (refuse_restore e r)) by (intros; apply guarded_apart; intros; apply at_refuse).
  apply guarded_when. apart_step ltac:(fun c => apply keeps_gets). apart_step ltac:(fun c => apply at_on_fs). destruct a0 as [b|].
  2: { apart_step ltac:(fun c => apply at_store_small). apply guarded_ret. }
  apart_step ltac:(fun c => apply at_on_fs). destruct (_ || _); [apply R|]. apply loaded_bytes. intros p Hp. cbv zeta.
  destruct (negb _); [apply R|by apply guarded_start_restored].
Qed.

(** ** The functions *)

Definition guarded_function (f : NoobFunction S) : Prop := forall args ascii, guarded (fn_callMixed f args ascii).

Lemma guarded_numeric f : (forall a, guarded (f a)) -> guarded_function (numeric f).
Proof. intros Hf args ascii. split; apply keeps_base; intros a; try apply Hf; apply keeps_ret. Qed.

Lemma guarded_text f : (forall t, guarded (f t)) -> guarded_function (TextFunctionAdapter f).
Proof. intros Hf args ascii. split; apply keeps_base; intros a; try apply Hf; apply keeps_ret. Qed.

Lemma guarded_mixed f : (forall a t, guarded (f a t)) -> guarded_function (MixedFunctionAdapter f).
Proof. intros Hf args ascii. apply Hf. Qed.

Lemma guarded_program {U} (known : NativeRegistry (S := U)) channels :
  Forall definition_ok channels -> guarded_function (NoobSequenceProgram known channels).
Proof.
  intros Hc args ascii. split; apply keeps_base; intros a; try apply keeps_ret.
  - unfold sequence_program_call. apply keeps_if; intros _; [apply keeps_ret|]. apply keeps_bind; [apply vm_keeps_stop|]. intros _.
    apply keeps_bind; [apply vm_keeps_perform|]. intros r. apply keeps_if; intros _; [apply keeps_ret|apply vm_keeps_start].
  - by apply sequence_program_keeps.
Qed.

Section table.
Context (sw : switches) (drv : drivers S) (calm : drivers_apart drv) (known : NativeRegistry (S := T)) (turns : nat) (stuck : NativeResult).

Lemma guarded_of_apart {A} (m : st S A) : apart m -> guarded m.
Proof. intros Hm. apply guarded_apart. intros c. by apply at_apart. Qed.

Lemma at_returned c {A} (f : A -> st S (option NativeResult)) : (forall a, keeps (at_core c) (f a)) -> forall a, keeps (at_core c) (returned stuck f a).
Proof. intros Hf a. apply keeps_bind; [done|]. intros r. apply keeps_ret. Qed.

Lemma first_guarded : Forall (fun e => guarded_function (implementation e)) (first_functions turns stuck).
Proof.
  repeat (apply Forall_cons; split); try (by apply Forall_nil); cbn [implementation]; apply guarded_numeric; intros a; apply guarded_apart; intros c.
  - apply at_adc_read.
  - unfold irisLightRead. apply keeps_if; intros _; [apply keeps_ret|apply at_adc_read].
  - apply (at_ultrasonic _ board_ultrasonic).
  - unfold irisDistance. apply keeps_if; intros _; [apply keeps_ret|apply (at_ultrasonic _ board_ultrasonic)].
  - apply at_returned. intros b. apply (at_dht _ _ 0).
Qed.

Lemma Forall_only {A} (P : A -> Prop) b l : Forall P l -> Forall P (only b l).
Proof. intros Hl. destruct b; [done|by apply Forall_nil]. Qed.

Lemma sensors_guarded : Forall (fun e => guarded_function (implementation e)) (sensor_functions sw drv turns stuck).
Proof.
  unfold sensor_functions. repeat (apply Forall_app; split); try apply Forall_only;
    repeat (apply Forall_cons; split); try (by apply Forall_nil); cbn [implementation];
    first [apply guarded_numeric; intros a | apply guarded_text; intros a | apply guarded_mixed; intros a t];
    first [apply guarded_of_apart; by apply calm | apply guarded_apart; intros c].
  all: first [apply at_on_sd | apply at_wifi_functions | apply at_returned; intros b; apply at_wifi_connect | apply at_setCredentials
    | apply (at_leds _ 0) | apply at_output_call | idtac].
  unfold irisExternalLed. destruct a as [|led [|state [|]]]; try apply keeps_ret. apply keeps_if; intros _; [apply keeps_ret|apply at_output_set].
Qed.

Lemma neo_guarded : Forall (fun e => guarded_function (implementation e)) (neo_functions stuck).
Proof.
  unfold neo_functions. repeat (apply Forall_cons; split); try (by apply Forall_nil); cbn [implementation];
    first [apply guarded_numeric; intros a | apply guarded_mixed; intros a t]; apply guarded_apart; intros c;
    first [apply at_plain_native | apply at_text_native | apply at_returned; intros b; apply at_vmDownload
          | apply (at_neo_display _ _ []) | apply at_neo_display | apply at_neo_led].
Qed.

Lemma iris_channels_ok channels :
  channels ∈ [BLUE_BLINK_CHANNELS; POLICE_CHANNELS; CAMERA_CHANNELS; IR_CHANNELS] -> Forall definition_ok channels.
Proof.
  rewrite !elem_of_cons, elem_of_nil.
  intros [->|[->|[->|[->|[]]]]]; repeat (apply Forall_cons; split; [split; cbn; lia|]); by apply Forall_nil.
Qed.

Lemma sequences_guarded : Forall (fun e => guarded_function (implementation e)) (sequence_functions sw drv known turns stuck).
Proof.
  unfold sequence_functions. repeat (apply Forall_app; split); try apply Forall_only;
    repeat (apply Forall_cons; split); try (by apply Forall_nil); cbn [implementation];
    try (apply guarded_program, iris_channels_ok; set_solver);
    apply guarded_numeric; intros a; apply guarded_apart; intros c.
  - apply at_camera_step. intros p t. apply at_apart, calm.
  - apply at_ir_step, at_returned. intros b. apply at_ir_functions.
  - apply at_rssi_snapshot. intros p. apply at_scanToCsv.
  - apply at_ir_snapshot, at_returned. intros b. apply at_ir_functions.
  - apply at_env_snapshot. apply keeps_bind; [apply at_dht_sample|intros r; apply keeps_ret].
  - apply at_env_values.
  - apply at_env_values.
Qed.
(** The five functions of a thread. *)
Lemma guarded_thread thread_of put_thread onStop detail :
  (forall t s, core (put_thread t s) = core s) -> (forall c, keeps (at_core c) onStop) -> (forall c, keeps (at_core c) detail) ->
  guarded_function (NoobThreadStopFunction thread_of put_thread onStop)
  /\ guarded_function (NoobThreadStatusFunction thread_of detail)
  /\ guarded_function (NoobThreadPopFunction thread_of put_thread)
  /\ guarded_function (NoobThreadPollFunction thread_of put_thread)
  /\ guarded_function (NoobThreadFieldFunction thread_of).
Proof.
  intros Hp Hs Hd. split_and!; intros args ascii; apply guarded_apart; intros c;
    by apply (at_thread_functions c thread_of put_thread Hp onStop detail).
Qed.

Lemma guarded_ultra : guarded_function ultra_stop /\ guarded_function ultra_status /\ guarded_function ultra_pop
  /\ guarded_function ultra_poll /\ guarded_function (NoobThreadFieldFunction (ch_thread_of ultra_of)).
Proof. apply guarded_thread; [apply at_ultra|intros c; apply keeps_ret..]. Qed.

Lemma guarded_light : guarded_function light_stop /\ guarded_function light_status /\ guarded_function light_pop
  /\ guarded_function light_poll /\ guarded_function (NoobThreadFieldFunction (ch_thread_of light_of)).
Proof. apply guarded_thread; [apply at_light|intros c; apply keeps_ret..]. Qed.

Lemma guarded_rise : guarded_function rise_stop /\ guarded_function rise_status /\ guarded_function rise_pop
  /\ guarded_function rise_poll /\ guarded_function (NoobThreadFieldFunction (w_thread_of rise_of)).
Proof. apply guarded_thread; [apply at_rise|intros c; apply keeps_ret|intros c; apply keeps_gets]. Qed.

Lemma guarded_rssi : guarded_function rssi_stop /\ guarded_function rssi_status /\ guarded_function rssi_pop
  /\ guarded_function rssi_poll /\ guarded_function rssi_field.
Proof. apply guarded_thread; [apply at_rssi|intros c; apply keeps_ret|intros c; apply at_sampling_status]. Qed.

Lemma guarded_env : guarded_function env_stop /\ guarded_function env_status /\ guarded_function env_pop
  /\ guarded_function env_poll /\ guarded_function env_field.
Proof. apply guarded_thread; [apply at_env|intros c; apply keeps_ret|intros c; apply at_sampling_status]. Qed.

Lemma guarded_ir : guarded_function ir_stop /\ guarded_function ir_status /\ guarded_function ir_pop
  /\ guarded_function ir_poll /\ guarded_function ir_field.
Proof. apply guarded_thread; [apply at_irt|intros c; apply (at_it_hooks c iris_ir)|intros c; apply at_it_status]. Qed.

Lemma threads_guarded : Forall (fun e => guarded_function (implementation e)) (thread_functions sw stuck).
Proof.
  unfold thread_functions. repeat (apply Forall_app; split); try apply Forall_only;
    repeat (apply Forall_cons; split); try (by apply Forall_nil); cbn [implementation];
    try first [apply guarded_ultra | apply guarded_light | apply guarded_rise | apply guarded_rssi | apply guarded_env | apply guarded_ir].
  all: try (apply guarded_mixed; intros a t; apply guarded_apart; intros c; apply at_sampling_call; intros; apply core_put_threads).
  all: try (apply guarded_text; intros a; apply guarded_apart; intros c; apply (at_dictionary _ _ [])).
  all: apply guarded_numeric; intros a; apply guarded_apart; intros c.
  - apply at_change_call. intros; apply core_put_threads.
  - apply at_change_call. intros; apply core_put_threads.
  - apply at_window_call. intros; apply core_put_threads.
  - apply at_it_call.
  - apply at_returned. intros b. apply (at_dictionary _ []).
Qed.

Lemma services_guarded : Forall (fun e => guarded_function (implementation e)) (service_functions sw drv turns stuck).
Proof.
  unfold service_functions. repeat (apply Forall_app; split); try apply Forall_only;
    repeat (apply Forall_cons; split); try (by apply Forall_nil); cbn [implementation];
    first [apply guarded_numeric; intros a | apply guarded_text; intros a];
    first [apply guarded_of_apart; by apply calm | apply guarded_load_saved | apply guarded_apart; intros c].
  all: first [apply at_store_text | apply at_store_numeric | apply at_it_last | apply at_returned; intros b].
  all: first [apply at_ir_functions | apply at_irisIrReplay | apply at_inspect].
Qed.

Lemma iris_guarded : Forall (fun e => guarded_function (implementation e)) (iris_functions sw drv known turns stuck).
Proof.
  unfold iris_functions. rewrite !Forall_app. split_and!;
    [apply first_guarded|apply sensors_guarded|apply neo_guarded|apply sequences_guarded|apply threads_guarded|apply services_guarded].
Qed.

Lemma iris_safe : natives_safe (iris_functions sw drv known turns stuck).
Proof. intros e args ascii He s Hs. pose proof iris_guarded as G. rewrite Forall_forall in G. by apply (G e He). Qed.

Lemma iris_keep : natives_keep (iris_functions sw drv known turns stuck).
Proof. intros e args ascii He. pose proof iris_guarded as G. rewrite Forall_forall in G. by apply (G e He). Qed.
(** ** The services *)

Section turns.
Context (P : S -> Prop) (P_core : forall s s', core s' = core s -> P s -> P s').
Context (natives : NativeRegistry (S := S)).
Context (P_natives : forall e args ascii, e ∈ natives -> keeps P (fn_callMixed (implementation e) args ascii)).

Lemma of_core {A} (m : st S A) : (forall c, keeps (at_core c) m) -> keeps P m.
Proof. intros Hm s Hs. apply (P_core s); [|done]. by apply (Hm (core s)). Qed.

Lemma of_modify f : (forall s, core (f s) = core s) -> keeps P (modify f).
Proof. intros Hf. apply of_core. intros c. by apply at_modify. Qed.

Lemma turn_millis : keeps P millis.
Proof. apply of_core. intros c. apply at_millis. Qed.

Lemma turn_milliseconds : keeps P milliseconds.
Proof. apply of_core. intros c. apply at_milliseconds. Qed.
#[local] Hint Resolve turn_millis turn_milliseconds : noobia.

Section source.
Context (name_of : S -> bytes) (source_of : S -> NoobProgramChannel) (put_source : NoobProgramChannel -> S -> S).
Context (put_core : forall q s, core (put_source q s) = core s).

Lemma turn_sample_record : keeps P (sample_record natives name_of source_of put_source).
Proof.
  assert (U : forall f, keeps P (upd_channel source_of put_source f)) by (intros f; apply of_modify; intros s; apply put_core).
  assert (V : keeps P (invoke natives source_of put_source 0 false)).
  { unfold invoke. apply keeps_bind; [apply U|]. intros _. apply keeps_bind; [apply keeps_gets|]. intros ch.
    destruct (find_id natives _) as [e|] eqn:E; [|apply U]. apply find_id_elem in E.
    apply keeps_bind; [by apply (keeps_callMixed natives P P_natives)|]. intros r. apply U. }
  unfold sample_record. keeps_auto.
Qed.

Lemma turn_sample : keeps P (sample natives name_of source_of put_source).
Proof. unfold sample. apply keeps_bind; [apply turn_sample_record|]. intros r. apply keeps_ret. Qed.
End source.

Lemma turn_thread thread_of put_thread step :
  (forall t s, core (put_thread t s) = core s) -> keeps P step -> keeps P (thread_tick thread_of put_thread step).
Proof. intros Hp Hs. apply keeps_thread_tick; [|apply turn_millis|done]. intros t s. by apply P_core. Qed.

Lemma turn_change of_ put_ : (forall (t : ChangeThread) s, core (put_ t s) = core s) -> keeps P (change_tick natives of_ put_).
Proof.
  intros Hp. assert (U : forall f, keeps P (upd_change of_ put_ f)) by (intros f; apply of_modify; intros s; apply Hp).
  assert (V : forall f, keeps P (upd_thread (ch_thread_of of_) (ch_put_thread of_ put_) f)) by (intros f; apply of_modify; intros s; apply Hp).
  assert (W : keeps P (sample natives (fun s => ch_eventName (of_ s)) (ch_source_of of_) (ch_put_source of_ put_))) by (apply turn_sample; intros; apply Hp).
  apply turn_thread; [intros; apply Hp|]. unfold change_step. keeps_auto.
Qed.

Lemma turn_window of_ put_ : (forall (t : WindowThread) s, core (put_ t s) = core s) -> keeps P (window_tick natives of_ put_).
Proof.
  intros Hp. assert (U : forall f, keeps P (upd_window of_ put_ f)) by (intros f; apply of_modify; intros s; apply Hp).
  assert (V : forall f, keeps P (upd_thread (w_thread_of of_) (w_put_thread of_ put_) f)) by (intros f; apply of_modify; intros s; apply Hp).
  assert (W : keeps P (sample natives (fun s => w_eventName (of_ s)) (w_source_of of_) (w_put_source of_ put_))) by (apply turn_sample; intros; apply Hp).
  apply turn_thread; [intros; apply Hp|]. unfold window_step. keeps_auto.
Qed.

Lemma turn_sampling of_ put_ : (forall (t : SamplingThread) s, core (put_ t s) = core s) -> keeps P (sampling_tick natives of_ put_).
Proof.
  intros Hp. assert (V : forall f, keeps P (upd_thread (sm_thread_of of_) (sm_put_thread of_ put_) f)) by (intros f; apply of_modify; intros s; apply Hp).
  assert (W : keeps P (sample_record natives (fun s => sm_eventName (of_ s)) (sm_source_of of_) (sm_put_source of_ put_))).
  { apply turn_sample_record. intros; apply Hp. }
  apply turn_thread; [intros; apply Hp|]. unfold sampling_step, thread_stop. keeps_auto.
Qed.

Lemma turns_keep : Forall (fun m => keeps P m) (iris_services sw natives).
Proof.
  unfold iris_services. apply Forall_cons. split; [apply of_core; intros c; apply (at_neo_display _ [] [])|].
  repeat (apply Forall_app; split); try apply Forall_only; repeat (apply Forall_cons; split); try (by apply Forall_nil).
  - apply turn_change. intros; apply core_put_threads.
  - apply turn_change. intros; apply core_put_threads.
  - apply turn_window. intros; apply core_put_threads.
  - apply turn_sampling. intros; apply core_put_threads.
  - apply turn_thread; [apply at_irt|]. apply of_core. intros c. apply at_it_step.
  - apply turn_sampling. intros; apply core_put_threads.
Qed.
End turns.
(** ** The registration *)

Lemma guarded_all_of (l : list (st S bool)) : Forall (fun m => guarded m) l -> guarded (all_of l).
Proof.
  induction 1 as [|m l Hm _ IH]; cbn [all_of]; [apply guarded_ret|]. apply guarded_bind; [done|]. intros a.
  apply guarded_bind; [done|]. intros b. apply guarded_ret.
Qed.

Lemma at_checkedInit c nm ready : keeps (at_core c) ready -> keeps (at_core c) (checkedInit nm ready).
Proof.
  intros Hr. apply keeps_bind; [done|]. intros b. apply keeps_bind; [apply at_upd_self|]. intros _. apply keeps_ret.
Qed.

Lemma at_serial c text : keeps (at_core c) (serial drv text).
Proof. apply at_apart, calm. Qed.

Lemma at_report_heap c stage : keeps (at_core c) (report_heap drv stage).
Proof. apply keeps_bind; [apply at_apart, calm|]. intros n. apply at_serial. Qed.

Lemma at_initService c nm begin : keeps (at_core c) begin -> keeps (at_core c) (initService drv nm begin).
Proof.
  intros Hb. unfold initService. apply keeps_bind; [apply at_serial|]. intros _. apply keeps_bind; [by apply at_checkedInit|]. intros b.
  apply keeps_bind; [apply at_serial|]. intros _. apply keeps_bind; [apply at_report_heap|]. intros _. apply keeps_ret.
Qed.

Lemma at_does c {A} (m : st S A) : keeps (at_core c) m -> keeps (at_core c) (does m).
Proof. intros Hm. apply keeps_bind; [done|]. intros _. apply keeps_ret. Qed.

Definition guarded_statement (x : statement (S := S)) : Prop :=
  match x with OnDevice m => guarded m | OnRuntime _ => True end.

Lemma guarded_device_part l : Forall guarded_statement l -> Forall (fun m => guarded m) (device_part l).
Proof. induction 1 as [|[m|m] l Hm _ IH]; cbn; [by apply Forall_nil|by apply Forall_cons|done]. Qed.

Lemma guarded_register l : Forall guarded_statement (register l).
Proof. unfold register. apply Forall_map, Forall_true. done. Qed.

Lemma begin_guarded : Forall guarded_statement (begin_sensors sw turns stuck).
Proof.
  unfold begin_sensors. rewrite !Forall_app. split_and!; try apply guarded_register; try apply Forall_only;
    (apply Forall_cons; split; [|by apply Forall_nil]); apply guarded_apart; intros c.
  - apply at_checkedInit, at_adc_configure.
  - apply (at_ultrasonic _ _ []).
  - apply at_checkedInit. apply (at_dht _ 0%nat _ []).
  - apply at_ir_begin.
Qed.

Lemma devices_guarded : Forall guarded_statement (begin_services sw drv).
Proof.
  unfold begin_services. rewrite !Forall_app. split_and!; try apply Forall_only.
  - apply Forall_cons. split; [|by apply Forall_nil]. apply guarded_apart; intros c. apply at_initService, at_apart, calm.
  - apply Forall_cons. split; [|by apply Forall_nil]. apply guarded_apart; intros c. apply at_initService, at_storage.
  - apply Forall_cons. split; [|by apply Forall_nil]. apply guarded_apart; intros c. apply at_initService, at_apart, calm.
  - repeat (apply Forall_cons; split); try (by apply Forall_nil); apply guarded_apart; intros c; apply at_checkedInit, (at_leds _ _ []).
  - apply Forall_map, Forall_true. intros nm. apply guarded_apart; intros c. apply at_does, at_upd_self.
  - repeat (apply Forall_cons; split); try (by apply Forall_nil); apply guarded_apart; intros c.
    + apply at_does, at_serial.
    + apply at_checkedInit, at_wifi_begin.
    + apply at_does, at_report_heap.
  - repeat (apply Forall_cons; split); try (by apply Forall_nil); [|done]. apply guarded_apart; intros c. apply at_store_begin.
Qed.

Lemma diagnostics_guarded : Forall guarded_statement (begin_diagnostics sw drv).
Proof.
  assert (R : forall label pins, Forall guarded_statement (map (fun pin => OnDevice (gpio_reserve drv pin label)) pins)).
  { intros label pins. apply Forall_map, Forall_true. intros pin. apply guarded_of_apart, calm. }
  unfold begin_diagnostics. apply Forall_only. cbv zeta. rewrite !Forall_app. split_and!; try apply R.
  - apply Forall_cons. split; [apply guarded_of_apart, calm|by apply Forall_nil].
  - apply Forall_map, Forall_true. intros pin. apply guarded_of_apart, calm.
Qed.

Lemma added_guarded natives : Forall guarded_statement (add_services sw drv natives).
Proof.
  unfold add_services. rewrite !Forall_app. split_and!; try apply Forall_only; repeat (apply Forall_cons; split); try (by apply Forall_nil); try done.
  apply guarded_bind; [|intros _; apply guarded_ret]. apply guarded_bind; [apply guarded_restoreLast|]. intros r. apply guarded_of_apart, calm.
Qed.

Lemma plan_guarded : guarded irisAddSelfTestPlan.
Proof.
  apply guarded_all_of, Forall_map, Forall_true. intros p. apply guarded_apart. intros c s Hs. unfold at_core.
  destruct (add_planned p (self_of s)) as [b t]. cbn. by rewrite at_put_self.
Qed.

Lemma statements_guarded natives : Forall guarded_statement (iris_statements sw drv known natives turns stuck).
Proof.
  unfold iris_statements. rewrite !Forall_app.
  split_and!; try apply guarded_register; auto using begin_guarded, devices_guarded, diagnostics_guarded, added_guarded.
  - repeat (apply Forall_cons; split); try (by apply Forall_nil); [|done]. apply guarded_apart. intros c. apply at_does, (at_neo_display _ [] []).
  - repeat (apply Forall_cons; split); try (by apply Forall_nil); apply guarded_apart; intros c; apply at_does, at_threadsBegin.
  - apply Forall_cons. split; [apply plan_guarded|by apply Forall_nil].
Qed.
(** ** The loop of the registered firmware *)

(** The main loop's body, [n] times, over the tables of a runtime. *)
Fixpoint passes (nm version : bytes) (transports : list (NoobTransport (S := S))) (r : runtime S) (n : nat) : st S unit :=
  match n with
  | O => mret tt
  | Datatypes.S n' =>
      runtime_loop (rt_natives r) nm version (rt_capabilities r) (rt_lifecycle r) (rt_services r) transports ;;
      passes nm version transports r n'
  end.

Definition all_natives : NativeRegistry (S := S) := common_functions known ++ iris_functions sw drv known turns stuck.

Lemma all_natives_noob : all_natives = noob_natives known (iris_functions sw drv known turns stuck).
Proof.
  unfold noob_natives, all_natives. symmetry. pose proof (common_natives_eq drv known turns stuck) as E.
  transitivity (register_all (iris_functions sw drv known turns stuck) (common_functions known)); [by f_equal|].
  apply register_all_fresh, iris_table_wf.
Qed.

(** A transport is other hardware, too. *)
Definition transport_apart (t : NoobTransport (S := S)) : Prop := apart (tr_receive t) /\ forall m, apart (tr_send t m).

Section loop.
Context (nm version : bytes) (transports : list (NoobTransport (S := S))) (r : runtime S).
Context (Hn : rt_natives r = all_natives) (Hs : rt_services r = common_services all_natives ++ iris_services sw all_natives).
Context (Hl : rt_lifecycle r = None \/ rt_lifecycle r = Some storeLifecycle) (Ht : Forall transport_apart transports).

Lemma iris_parts (P : S -> Prop) :
  (forall s s', core s' = core s -> P s -> P s') ->
  (forall e args ascii, e ∈ all_natives -> keeps P (fn_callMixed (implementation e) args ascii)) ->
  parts_keep (rt_lifecycle r) (iris_services sw all_natives) transports P.
Proof.
  intros Pc Pn. split_and!.
  - by apply turns_keep.
  - eapply Forall_impl; [exact Ht|]. intros t [R W]. split; [|intros m]; apply (of_core P Pc); intros c; by apply at_apart.
  - destruct Hl as [-> | ->]; [done|]. split_and!; apply (of_core P Pc); intros c; apply at_store_hooks.
Qed.

Lemma pass_guarded :
  guarded (runtime_loop (rt_natives r) nm version (rt_capabilities r) (rt_lifecycle r) (rt_services r) transports).
Proof.
  pose proof (noob_natives_safe known _ iris_safe) as Sf. pose proof (noob_natives_keep known _ iris_keep) as Kp.
  rewrite <- all_natives_noob in Sf, Kp. rewrite Hn, Hs. split.
  - assert (Pv : parts_keep (rt_lifecycle r) (iris_services sw all_natives) transports vm_inv).
    { apply iris_parts; [|exact Sf]. intros s s' [= E _]. unfold vm_inv. by rewrite E. }
    pose proof (loop_keeps_vm known _ nm version (rt_capabilities r) _ _ _ iris_safe Pv) as K.
    unfold EspRuntimeFacts.natives in K. by rewrite <- all_natives_noob in K.
  - assert (Pq : parts_keep (rt_lifecycle r) (iris_services sw all_natives) transports seq_inv).
    { apply iris_parts; [|exact Kp]. intros s s' [= _ E]. unfold seq_inv. by rewrite E. }
    pose proof (loop_keeps_seq known _ nm version (rt_capabilities r) _ _ _ iris_keep Pq) as K.
    unfold EspRuntimeFacts.natives in K. by rewrite <- all_natives_noob in K.
Qed.

Lemma passes_guarded n : guarded (passes nm version transports r n).
Proof. induction n as [|n IH]; cbn [passes]; [apply guarded_ret|]. apply guarded_bind; [apply pass_guarded|]. by intros []. Qed.
End loop.

(** C20: the Iris firmware as a whole, whatever services are switched on: after the
    registration, with its restored program, and any number of passes of the main
    loop (any frames on any transports, byte code, sequences, threads and probes,
    any files on the card, any answers of Neo, any readings of pins and sensors)
    the byte-code machine is inside its arrays and the sequence service inside its
    tracks.  All of Iris's functions and services meet what the runtime relies on. *)
Theorem iris_invariant (nm version : bytes) (transports : list (NoobTransport (S := S))) (n : nat) (s : S) :
  Forall transport_apart transports -> vm_of s = vm_init -> seq_of s = sequence_init ->
  let '(_, (s1, r)) := irisRegister sw drv known all_natives turns stuck (s, common_runtime known all_natives) in
  let s' := (passes nm version transports r n s1).2 in
  overrun_ (vm_of s') = false /\ vm_wf (vm_of s') /\ seq_wf (seq_of s').
Proof.
  intros Ht Ev Eq. pose proof (irisRegister_run drv known all_natives turns stuck sw s) as R.
  pose proof (guarded_all_of _ (guarded_device_part _ (statements_guarded all_natives))) as G.
  assert (I0 : vm_inv s /\ seq_inv s).
  { unfold vm_inv, seq_inv. rewrite Ev, Eq. split; [apply EspVmRun.vm_init_wf|apply sequence_init_wf]. }
  destruct G as [G1 G2]. specialize (G1 s (proj1 I0)). specialize (G2 s (proj2 I0)).
  destruct (all_of _ s) as [good s1]. destruct R as (r & E & R1 & R2 & R3). rewrite E. cbn [snd] in G1, G2.
  assert (K : guarded (checkedInit (str "IRIS_REGISTRATION") (mret good))).
  { apply guarded_apart. intros c. apply at_checkedInit, keeps_ret. }
  destruct (passes_guarded nm version transports r R1 R2 R3 Ht n) as [P1 P2].
  specialize (P1 _ (proj1 K _ G1)). specialize (P2 _ (proj2 K _ G2)). split_and!; [apply P1|exact P1|exact P2].
Qed.
End table.
End iris.

(** ** The board of the example *)

(** A card without faults on which every byte is one. *)
Record byte_card := Octets { octets_on : good_card }.

Definition over {A} (m : st good_card A) : st byte_card A := fun c => ((m (octets_on c)).1, Octets (m (octets_on c)).2).

#[global] Instance byte_ops : CardOps byte_card := {|
  content c := content (octets_on c);
  fs_mount b := over (fs_mount b); fs_pins := over fs_pins; fs_card := over fs_card;
  fs_exists p := over (fs_exists p); fs_remove p := over (fs_remove p); fs_rename p q := over (fs_rename p q);
  fs_mkdir p := over (fs_mkdir p); fs_rmdir p := over (fs_rmdir p); fs_open p := over (fs_open p);
  fs_create p := over (fs_create p); fs_write p d := over (fs_write p d); fs_extend p := over (fs_extend p);
  fs_append p d := over (fs_append p d); fs_size p := over (fs_size p); fs_seek p o := over (fs_seek p o);
  fs_read p o n := (l ← over (fs_read p o n); mret (map (fun c => c mod 256) l));
  fs_entries p := over (fs_entries p); fs_megabytes := over fs_megabytes |}.

#[global] Instance board_Device : Device (board byte_card).
Proof. by split. Defined.

#[global] Instance board_IrisDevice :
  IrisDevice (board byte_card) byte_card (IrisNeoLink.IrisNeoLink.wire IrisNeoLink.IrisNeoLink.daemon).
Proof.
  split; try apply _; try done. intros path pos n c. cbn. apply Forall_map, Forall_true. intros z. unfold byte_ok. cbn.
  apply Z.mod_pos_bound. lia.
Defined.

(** A transport on which the same frame arrives again and again. *)
Definition insistent : NoobTransport (S := board byte_card) :=
  Transport (mret (Some (str "NRP/1 4 CALL POLICE_SEQUENCE 0"))) (fun _ => mret tt).

(** A stored program that is to be started again: it loads a number and halts. *)
Definition shipped_card : byte_card :=
  Octets (Good (<[str "/programs" := DirNode]> (<[program_path (str "/programs") := FileNode [1; 0; 7; 0; 0; 0; 0]]>
    (<[run_path (str "/programs") := FileNode [49]]> ∅)))).

Definition shipped : board byte_card :=
  Board (EspStoreRestart.Kit byte_card vm_init (Sd byte_card false false None None shipped_card) store_init) 0 sequence_init self_test_init
    capture_init ir_thread_init (IrisNeoLink.Wire _ IrisNeo.some_neo [] [] [] [] None) IrisNeoBridge.display_init environment_init sensors_init
    iris_threads_init wifi_init.

(** What the sequences look functions up in. *)
Definition own_numbers : NativeRegistry (S := unit) :=
  map (fun i => Entry i [] (NumericFunctionAdapter (fun _ => mret (failure [])))) [197; 198].

Definition own_natives : NativeRegistry (S := board byte_card) := all_natives default_switches no_drivers own_numbers 100 (failure []).

(** The device after the registration and three passes. *)
Definition after_three : board byte_card :=
  let '(_, (s1, r)) := irisRegister default_switches no_drivers own_numbers own_natives 100 (failure []) (shipped, common_runtime own_numbers own_natives) in
  (passes (str "Iris") (str "1") [insistent] r 3 s1).2.

Lemma iris_invariant_witness :
  (overrun_ (vm_of after_three) = false /\ vm_wf (vm_of after_three) /\ seq_wf (seq_of after_three))
  /\ programData (vm_of after_three) = [1; 0; 7; 0; 0; 0; 0] /\ state_ (vm_of after_three) = HALTED /\ running (seq_of after_three) = true.
Proof.
  split; [|vm_compute; split_and!; reflexivity].
  assert (calm : drivers_apart (no_drivers (C := byte_card))) by by split.
  pose proof (iris_invariant default_switches no_drivers calm own_numbers 100 (failure []) (str "Iris") (str "1") [insistent] 3 shipped) as K.
  unfold after_three, own_natives. destruct (irisRegister _ _ _ _ _ _ _) as [good [s1 r]].
  apply K; [|reflexivity|reflexivity]. apply Forall_cons. split; [|by apply Forall_nil]. by split.
Defined.
End IrisLoop.
