(* ===== verification/CDouble.v ===== *)
(** * Double precision as C programs use it

    Arithmetic is the specification of IEEE 754 that comes with the Standard
    Library.  Comparison and truncation are stated on the exact value, so that what
    follows from them needs no fact about rounding.  Reading ([strtod]) and printing
    ([%.kf]) are correctly rounded. *)
From Stdlib Require Import SpecFloat.
From S2P Require Import Prelude CLib.

Open Scope Z_scope.

Module Dbl.

Definition double : Type := spec_float.

Definition prec : Z := 53.
Definition emax : Z := 1024.

Definition add (x y : double) : double := SFadd prec emax x y.
Definition sub (x y : double) : double := SFsub prec emax x y.
Definition mul (x y : double) : double := SFmul prec emax x y.
Definition div (x y : double) : double := SFdiv prec emax x y.
Definition sqrt (x : double) : double := SFsqrt prec emax x.

(** Conversion of an integer. *)
Definition of_Z (n : Z) : double := binary_normalize prec emax n 0 false.

(** The double nearest to [n / d]; decimal constants are written this way. *)
Definition of_ratio (n : Z) (d : positive) : double :=
  match n with
  | Z0 => S754_zero false
  | Zpos p => div (S754_finite false p 0) (S754_finite false d 0)
  | Zneg p => div (S754_finite true p 0) (S754_finite false d 0)
  end.

Definition is_nan (x : double) : bool := match x with S754_nan => true | _ => false end.
Definition isfinite (x : double) : bool := match x with S754_zero _ | S754_finite _ _ _ => true | _ => false end.

(** The exact value [m * 2 ^ e] of a finite number. *)
Definition exact (x : double) : option (Z * Z) :=
  match x with
  | S754_zero _ => Some (0, 0)
  | S754_finite s m e => Some (if s then Zneg m else Zpos m, e)
  | _ => None
  end.

(** [m1 * 2 ^ e1 < m2 * 2 ^ e2], brought to the smaller exponent. *)
Definition exact_ltb (a b : Z * Z) : bool :=
  let e := Z.min a.2 b.2 in Z.shiftl a.1 (a.2 - e) <? Z.shiftl b.1 (b.2 - e).

(** [x < y]; false when one is not a number. *)
Definition ltb (x y : double) : bool :=
  match x, y with
  | S754_nan, _ | _, S754_nan => false
  | S754_infinity s, S754_infinity t => s && negb t
  | S754_infinity s, _ => s
  | _, S754_infinity t => negb t
  | _, _ => match exact x, exact y with Some a, Some b => exact_ltb a b | _, _ => false end
  end.

(** [x <= y], that is [y >= x]. *)
Definition leb (x y : double) : bool := negb (is_nan x) && negb (is_nan y) && negb (ltb y x).

(** The integer part, towards zero; nothing for numbers that have none. *)
Definition trunc (x : double) : option Z :=
  match exact x with
  | Some (m, e) => Some (if 0 <=? e then m * 2 ^ e else Z.quot m (2 ^ (- e)))
  | None => None
  end.

(** ** Printing *)

(** [n / d] to the nearest integer, ties to the even one. *)
Definition round_ratio (n d : Z) : Z :=
  let q := n / d in
  let r := n mod d in
  if 2 * r <? d then q else if d <? 2 * r then q + 1 else if Z.even q then q else q + 1.

Definition pad (k : nat) (digits : bytes) : bytes := replicate (k - length digits) 48 ++ digits.

(** [%.kf]. *)
Definition print_fixed (k : nat) (x : double) : bytes :=
  match x with
  | S754_nan => str "nan"
  | S754_infinity s => if s then str "-inf" else str "inf"
  | _ =>
      let '(s, m, e) := match x with S754_finite s m e => (s, Zpos m, e) | S754_zero s => (s, 0, 0) | _ => (false, 0, 0) end in
      let scale := 10 ^ Z.of_nat k in
      let v := if 0 <=? e then m * 2 ^ e * scale else round_ratio (m * scale) (2 ^ (- e)) in
      (if s : bool then [45] else []) ++ print_nat (v / scale)
      ++ match k with O => [] | _ => 46 :: pad k (print_nat (v mod scale)) end
  end.

(** ** Reading *)

(** Digits with at most one point: their value, how many stand behind the point,
    how many there are, and the rest. *)
Fixpoint scan_mantissa (base : Z) (point : bool) (s : bytes) (value behind count : Z) : Z * Z * Z * bytes :=
  match s with
  | c :: rest =>
      if (digit_value c <? base) && (0 <=? digit_value c)
      then scan_mantissa base point rest (value * base + digit_value c) (if point then behind + 1 else behind) (count + 1)
      else if (c =? 46) && negb point then
        match rest with
        | n :: _ => scan_mantissa base true rest value behind count
        | [] => if 0 <? count then (value, behind, count, rest) else (value, behind, count, s)
        end
      else (value, behind, count, s)
  | [] => (value, behind, count, s)
  end.

(** An exponent is read only when digits follow. *)
Definition scan_exponent (marks : byte -> bool) (s : bytes) : Z * bytes :=
  match s with
  | c :: rest =>
      if marks c then
        let '(neg, digits) := match rest with 45 :: r => (true, r) | 43 :: r => (false, r) | _ => (false, rest) end in
        match digits with
        | d :: _ => if isdigit d then let '(v, rest) := scan_digits 10 0 digits in (if neg : bool then - v else v, rest) else (0, s)
        | [] => (0, s)
        end
      else (0, s)
  | [] => (0, s)
  end.

(** [m * base ^ e] with a decimal or binary exponent; exponents beyond any double
    are cut off. *)
Definition scaled (negative : bool) (m base e : Z) : double :=
  let value :=
    if m =? 0 then S754_zero false
    else if 5000 <? e then S754_infinity false
    else if Z.log2 m + e <? -5000 then S754_zero false
    else if 0 <=? e then of_ratio (m * base ^ e) 1
    else of_ratio m (Z.to_pos (base ^ (- e))) in
  if negative then SFopp value else value.

(** The result is out of range: infinite, or so small that precision is lost. *)
Definition out_of_range (m : Z) (x : double) : bool :=
  negb (m =? 0) && match x with S754_finite _ p e => (Z.log2 (Zpos p) + e <? -1022) && (e =? -1074) | _ => true end.

Definition lower_is (word s : bytes) : option bytes :=
  if bytes_eqb (map tolower (take (length word) s)) word then Some (drop (length word) s) else None.

(** [strtod]: the value, the rest and whether [errno] is set; [None] when nothing
    could be read.  A number whose precision suffers only because it is below the
    normal range counts as out of range here also when it is exact. *)
Definition strtod (s : bytes) : option (double * bytes * bool) :=
  let s1 := skip_space s in
  let '(neg, s2) := match s1 with 45 :: r => (true, r) | 43 :: r => (false, r) | _ => (false, s1) end in
  let signed := fun x : double => if neg : bool then SFopp x else x in
  match lower_is (str "infinity") s2, lower_is (str "inf") s2, lower_is (str "nan") s2 with
  | Some r, _, _ | None, Some r, _ => Some (signed (S754_infinity false), r, false)
  | _, _, Some r => Some (S754_nan, r, false)
  | None, None, None =>
      let hexadecimal := match s2 with
                         | 48 :: x :: r => if tolower x =? 120 then
                             let '(m, behind, count, rest) := scan_mantissa 16 false r 0 0 0 in
                             if 0 <? count then
                               let '(e, rest) := scan_exponent (fun c => tolower c =? 112) rest in
                               Some (m, e - 4 * behind, rest)
                             else None
                           else None
                         | _ => None
                         end in
      match hexadecimal with
      | Some (m, e, rest) => let x := scaled neg m 2 e in Some (x, rest, out_of_range m x)
      | None =>
          let '(m, behind, count, rest) := scan_mantissa 10 false s2 0 0 0 in
          if 0 <? count then
            let '(e, rest) := scan_exponent (fun c => tolower c =? 101) rest in
            let x := scaled neg m 10 (e - behind) in Some (x, rest, out_of_range m x)
          else None
      end
  end.

(** ** Facts *)

(** A comparison with an integer bounds the integer part. *)
Lemma exact_ltb_int m e k : exact_ltb (k, 0) (m, e) = false ->
  (if 0 <=? e then m * 2 ^ e else m) <= (if 0 <=? e then k else k * 2 ^ (- e)).
Proof.
  unfold exact_ltb. cbn [fst snd]. destruct (Z.leb_spec 0 e) as [He|He].
  - rewrite Z.min_l by lia. rewrite ?Z.sub_0_r, Z.shiftl_0_r, Z.shiftl_mul_pow2 by lia. intros H%Z.ltb_ge. lia.
  - rewrite Z.min_r by lia. rewrite ?Z.sub_diag, Z.shiftl_0_r, Z.sub_0_l, Z.shiftl_mul_pow2 by lia. intros H%Z.ltb_ge. lia.
Qed.

Lemma exact_ltb_int_r m e k : exact_ltb (m, e) (k, 0) = false ->
  (if 0 <=? e then k else k * 2 ^ (- e)) <= (if 0 <=? e then m * 2 ^ e else m).
Proof.
  unfold exact_ltb. cbn [fst snd]. destruct (Z.leb_spec 0 e) as [He|He].
  - rewrite Z.min_r by lia. rewrite ?Z.sub_0_r, Z.shiftl_0_r, Z.shiftl_mul_pow2 by lia. intros H%Z.ltb_ge. lia.
  - rewrite Z.min_l by lia. rewrite ?Z.sub_diag, Z.shiftl_0_r, Z.sub_0_l, Z.shiftl_mul_pow2 by lia. intros H%Z.ltb_ge. lia.
Qed.

(** Only the value counts. *)
Lemma exact_ltb_scale_l a e j b : 0 <= j -> exact_ltb (a * 2 ^ j, e - j) b = exact_ltb (a, e) b.
Proof.
  intros Hj. destruct b as [b f]. unfold exact_ltb. cbn [fst snd]. set (e1 := Z.min (e - j) f). set (e2 := Z.min e f).
  rewrite !Z.shiftl_mul_pow2 by lia. rewrite <- Z.mul_assoc, <- Z.pow_add_r by lia.
  replace (j + (e - j - e1)) with ((e - e2) + (e2 - e1)) by lia. replace (f - e1) with ((f - e2) + (e2 - e1)) by lia.
  rewrite !Z.pow_add_r, !Z.mul_assoc by lia. pose proof (Z.pow_pos_nonneg 2 (e2 - e1) ltac:(lia) ltac:(lia)).
  destruct (Z.ltb_spec (a * 2 ^ (e - e2)) (b * 2 ^ (f - e2))); [apply Z.ltb_lt|apply Z.ltb_ge]; nia.
Qed.

Lemma exact_ltb_scale_r a e j b : 0 <= j -> exact_ltb b (a * 2 ^ j, e - j) = exact_ltb b (a, e).
Proof.
  intros Hj. destruct b as [b f]. unfold exact_ltb. cbn [fst snd]. set (e1 := Z.min f (e - j)). set (e2 := Z.min f e).
  rewrite !Z.shiftl_mul_pow2 by lia. rewrite <- Z.mul_assoc, <- Z.pow_add_r by lia.
  replace (j + (e - j - e1)) with ((e - e2) + (e2 - e1)) by lia. replace (f - e1) with ((f - e2) + (e2 - e1)) by lia.
  rewrite !Z.pow_add_r, !Z.mul_assoc by lia. pose proof (Z.pow_pos_nonneg 2 (e2 - e1) ltac:(lia) ltac:(lia)).
  destruct (Z.ltb_spec (b * 2 ^ (f - e2)) (a * 2 ^ (e - e2))); [apply Z.ltb_lt|apply Z.ltb_ge]; nia.
Qed.

(** Neither below [lo] nor above [hi]: the integer part lies between them. *)
Lemma trunc_between x lo hi a b i j : exact lo = Some (a * 2 ^ i, - i) -> exact hi = Some (b * 2 ^ j, - j) -> 0 <= i -> 0 <= j ->
  isfinite x = true -> ltb hi x = false -> ltb x lo = false -> a <= 0 <= b -> exists v, trunc x = Some v /\ a <= v <= b.
Proof.
  intros Ha Hb Hi Hj Hx H1 H2 Hab. unfold trunc.
  assert (E : exists m e, exact x = Some (m, e)) by (destruct x; try done; eauto). destruct E as (m & e & E). rewrite E.
  assert (L : forall y z c d, exact y = Some c -> exact z = Some d -> ltb y z = exact_ltb c d).
  { intros y z c d Hy Hz. unfold ltb. rewrite Hy, Hz. by destruct y, z. }
  rewrite (L _ _ _ _ Hb E) in H1. rewrite (L _ _ _ _ E Ha) in H2.
  assert (K1 : exact_ltb (b, 0) (m, e) = false) by (by rewrite <- (exact_ltb_scale_l b 0 j)).
  assert (K2 : exact_ltb (m, e) (a, 0) = false) by (by rewrite <- (exact_ltb_scale_r a 0 i)).
  apply exact_ltb_int in K1. apply exact_ltb_int_r in K2. eexists. split; [done|].
  destruct (Z.leb_spec 0 e); [lia|]. pose proof (Z.pow_pos_nonneg 2 (- e) ltac:(lia) ltac:(lia)) as P. split.
  - rewrite <- (Z.quot_mul a (2 ^ (- e))) by lia. apply Z.quot_le_mono; lia.
  - rewrite <- (Z.quot_mul b (2 ^ (- e))) by lia. apply Z.quot_le_mono; lia.
Qed.

(** Rounding a positive number gives a number. *)
Lemma shr_nonneg mrs e n : 0 <= shr_m mrs -> 0 <= shr_m (shr mrs e n).1.
Proof.
  intros H. unfold shr. destruct n as [|p|p]; cbn [fst]; try done. revert mrs H.
  assert (One : forall mrs, 0 <= shr_m mrs -> 0 <= shr_m (shr_1 mrs)) by (intros [[|[]|] r q]; cbn; lia).
  induction p as [p IH|p IH|]; intros mrs H; cbn [iter_pos]; [apply IH, IH, One, H|apply IH, IH, H|apply One, H].
Qed.

Lemma round_not_nan sx mx ex lx : 0 <= mx -> is_nan (binary_round_aux prec emax sx mx ex lx) = false.
Proof.
  intros H. unfold binary_round_aux, shr_fexp.
  assert (L : forall m l, shr_m (shr_record_of_loc m l) = m) by (intros m [|[]]; done).
  pose proof (shr_nonneg (shr_record_of_loc mx lx) ex (fexp prec emax (Zdigits2 mx + ex) - ex) ltac:(by rewrite L)) as A.
  destruct (shr (shr_record_of_loc mx lx) ex _) as [m1 e1]. cbn [fst] in A.
  set (v := round_nearest_even _ _). assert (V : 0 <= v) by (subst v; unfold round_nearest_even; repeat case_match; lia).
  pose proof (shr_nonneg (shr_record_of_loc v loc_Exact) e1 (fexp prec emax (Zdigits2 v + e1) - e1) ltac:(by rewrite L)) as B.
  destruct (shr (shr_record_of_loc v loc_Exact) e1 _) as [m2 e2]. cbn [fst] in B.
  destruct (shr_m m2); [done| |lia]. by destruct (_ <=? _).
Qed.

Lemma mul_not_nan x y : isfinite x = true -> isfinite y = true -> is_nan (mul x y) = false.
Proof. destruct x, y; try done; intros _ _; by apply round_not_nan. Qed.
End Dbl.
