(* ===== verification/NeoWavGain.v ===== *)
(** * The WAV gain tool of Neo

    noob-wav-gain.c multiplies the samples of a canonical 16-bit WAV file.  Either
    the new file is complete or there is none, every sample stays within 16 bits,
    and a gain of one reproduces the file. *)
From Stdlib Require Import SpecFloat.
From S2P Require Import Prelude CLib World CDouble.

Open Scope Z_scope.

Module WavGain.

Definition u16 (p : bytes) : Z := Z.lor (nth 0 p 0) (Z.shiftl (nth 1 p 0) 8).
Definition u32 (p : bytes) : Z := Z.lor (u16 p) (Z.shiftl (u16 (drop 2 p)) 16).

Definition i16 (v : Z) : Z := to_signed 16 v.

(** The 44 bytes in front of the samples. *)
Definition canonical (header : bytes) : bool :=
  (length header =? 44)%nat && bytes_eqb (take 4 header) (str "RIFF") && bytes_eqb (take 8 (drop 8 header)) (str "WAVEfmt ")
  && (u32 (drop 16 header) =? 16) && (u16 (drop 20 header) =? 1) && (u16 (drop 34 header) =? 16)
  && bytes_eqb (take 4 (drop 36 header)) (str "data") && (u32 (drop 40 header) mod 2 =? 0).

(** A sample and whether it was cut off. *)
Definition amplify (gain : Dbl.double) (sample : Z) : Z * bool :=
  let amplified := Dbl.mul (Dbl.of_Z sample) gain in
  if Dbl.ltb (Dbl.of_Z 32767) amplified then (32767, true)
  else if Dbl.ltb amplified (Dbl.of_Z (-32768)) then (-32768, true)
  else (default 0 (Dbl.trunc amplified), false).

(** Its two bytes, [(uint16_t)(int16_t)amplified]. *)
Definition sample_bytes (v : Z) : bytes := let r := v mod 2 ^ 16 in [Z.land r 255; Z.shiftr r 8].

(** The loop over the samples: how many were cut off, [None] when a read or a write
    failed. *)
Fixpoint gain_loop (n : nat) (input output : bytes) (gain : Dbl.double) (clipped : Z) : st world (option Z) :=
  match n with
  | O => mret (Some clipped)
  | S n =>
      match input with
      | a :: b :: rest =>
          let '(v, cut) := amplify gain (i16 (u16 [a; b])) in
          written ← file_write output (sample_bytes v);
          if written : bool then gain_loop n rest output gain (if cut : bool then clipped + 1 else clipped) else mret None
      | _ => mret None
      end
  end.

(** Header and samples. *)
Definition write_output (output header input : bytes) (gain : Dbl.double) : st world (option Z) :=
  started ← file_write output header;
  if started : bool then gain_loop (Z.to_nat (u32 (drop 40 header)) / 2) input output gain 0 else mret None.

(** [fopen(path, wbx)] fails when the file exists. *)
Definition create_new (path : bytes) : st world bool :=
  found ← file_read path;
  match found with Some _ => mret false | None => file_create path end.

Definition valid_gain (text : bytes) : option Dbl.double :=
  match Dbl.strtod text with
  | Some (gain, [], false) =>
      if Dbl.isfinite gain && negb (Dbl.leb gain (Dbl.of_Z 0)) && negb (Dbl.ltb (Dbl.of_Z 100) gain) then Some gain else None
  | _ => None
  end.

(** The exit code and what is printed. *)
Definition wav_gain (arguments : list bytes) : st world (Z * bytes) :=
  match arguments with
  | [input; output; multiplier] =>
      match valid_gain multiplier with
      | None => mret (2, [])
      | Some gain =>
          file ← file_read input;
          match file with
          | None => mret (1, [])
          | Some content =>
              let header := take 44 content in
              if negb (canonical header) then mret (1, [])
              else
              opened ← create_new output;
              if negb opened then mret (1, [])
              else
              clipped ← write_output output header (drop 44 content) gain;
              read_error ← fault;
              close_error ← fault;
              match clipped, read_error, close_error with
              | Some n, false, false =>
                  mret (0, str "gain=" ++ Dbl.print_fixed 2 gain ++ str " clipped_samples=" ++ print_nat n ++ [NL])
              | _, _, _ => file_remove output ;; mret (1, [])
              end
          end
      end
  | _ => mret (2, [])
  end.

(** ** The samples *)

Fixpoint amplified (n : nat) (input : bytes) (gain : Dbl.double) : bytes :=
  match n, input with
  | S n, a :: b :: rest => sample_bytes (amplify gain (i16 (u16 [a; b]))).1 ++ amplified n rest gain
  | _, _ => []
  end.

(** What holds for all 65536 samples is decided by trying them. *)
Fixpoint for_samples (p : Z -> bool) (n : nat) (from : Z) : bool :=
  match n with O => true | S n => p from && for_samples p n (from + 1) end.

Lemma for_samples_all p n from : for_samples p n from = true -> forall v, from <= v < from + Z.of_nat n -> p v = true.
Proof.
  revert from. induction n as [|n IH]; intros from H v Hv; [lia|]. cbn [for_samples] in H. apply andb_true_iff in H as [H1 H2].
  destruct (decide (v = from)) as [->|N]; [done|]. apply (IH (from + 1) H2). lia.
Qed.

Lemma sample_finite v : -32768 <= v <= 32767 -> Dbl.isfinite (Dbl.of_Z v) = true.
Proof.
  intros Hv. apply (for_samples_all (fun v => Dbl.isfinite (Dbl.of_Z v)) (Z.to_nat 65536) (-32768)); [vm_compute; reflexivity|lia].
Qed.

Lemma i16_range v : -32768 <= i16 v <= 32767.
Proof. unfold i16, to_signed. pose proof (Z.mod_pos_bound (v + 2 ^ (16 - 1)) (2 ^ 16) ltac:(lia)). lia. Qed.

(** Every sample that is written is one, whatever the gain. *)
Lemma amplify_range gain v : Dbl.isfinite gain = true -> -32768 <= v <= 32767 -> -32768 <= (amplify gain v).1 <= 32767.
Proof.
  intros Hg Hv. unfold amplify. set (x := Dbl.mul _ _).
  assert (Hn : Dbl.is_nan x = false) by (apply Dbl.mul_not_nan; [by apply sample_finite|done]).
  destruct (Dbl.ltb (Dbl.of_Z 32767) x) eqn:E1; [cbn; lia|]. destruct (Dbl.ltb x (Dbl.of_Z (-32768))) eqn:E2; [cbn; lia|].
  assert (F : Dbl.isfinite x = true).
  { clearbody x. by destruct x as [| [] | |]. }
  assert (T : exists u, Dbl.trunc x = Some u /\ -32768 <= u <= 32767).
  { apply (Dbl.trunc_between x (Dbl.of_Z (-32768)) (Dbl.of_Z 32767) _ _ 37 38); try done; lia. }
  destruct T as (u & -> & Hu). done.
Qed.

Lemma sample_bytes_range v : bytes_ok (sample_bytes v).
Proof.
  unfold sample_bytes. pose proof (Z.mod_pos_bound v (2 ^ 16) ltac:(lia)) as H. set (r := v mod 2 ^ 16) in *.
  repeat constructor; unfold byte_ok; change 255 with (Z.ones 8); rewrite ?Z.land_ones, ?Z.shiftr_div_pow2 by lia.
  - apply Z.mod_pos_bound. lia.
  - apply Z.mod_pos_bound. lia.
  - apply Z.div_pos; lia.
  - apply Z.div_lt_upper_bound; lia.
Qed.

(** A gain of one changes no sample. *)
Lemma amplify_one v : -32768 <= v <= 32767 -> amplify (Dbl.of_Z 1) v = (v, false).
Proof.
  intros Hv. pose (p v := let '(x, cut) := amplify (Dbl.of_Z 1) v in (x =? v) && negb cut).
  assert (H : p v = true) by (apply (for_samples_all p (Z.to_nat 65536) (-32768)); [vm_compute; reflexivity|lia]).
  unfold p in H. destruct (amplify _ v) as [x cut]. apply andb_true_iff in H as [->%Z.eqb_eq ->%negb_true_iff]. done.
Qed.

Lemma sample_bytes_i16 a b : byte_ok a -> byte_ok b -> sample_bytes (i16 (u16 [a; b])) = [a; b].
Proof.
  intros Ha Hb. unfold byte_ok in *. unfold sample_bytes, i16, to_signed, u16. cbn [nth].
  rewrite Z.lor_comm, lor_shiftl by lia. set (v := b * 2 ^ 8 + a).
  assert (E : ((v + 2 ^ (16 - 1)) mod 2 ^ 16 - 2 ^ (16 - 1)) mod 2 ^ 16 = v).
  { rewrite Zminus_mod_idemp_l. replace (v + 2 ^ (16 - 1) - 2 ^ (16 - 1)) with v by lia. apply Z.mod_small. subst v. lia. }
  rewrite E. change 255 with (Z.ones 8). rewrite Z.land_ones, Z.shiftr_div_pow2 by lia. subst v.
  rewrite Z.add_comm, Z.mod_add, Z.mod_small, Z.div_add, Z.div_small by lia. done.
Qed.

Lemma amplified_one n input : bytes_ok input -> (2 * n <= length input)%nat -> amplified n input (Dbl.of_Z 1) = take (2 * n) input.
Proof.
  revert input. induction n as [|n IH]; intros input Hb Hl; [done|]. destruct input as [|a [|b rest]]; cbn in Hl; try lia.
  apply Forall_cons in Hb as [Ha Hb]. apply Forall_cons in Hb as [Hb Hr]. cbn [amplified].
  rewrite amplify_one by apply i16_range. cbn [fst]. rewrite sample_bytes_i16 by done.
  replace (2 * S n)%nat with (S (S (2 * n)))%nat by lia. cbn [take app]. by rewrite IH by (try done; lia).
Qed.

(** ** The output is complete, or there is none *)

Lemma gain_loop_fs n : forall input output gain clipped w c0, w_fs w !! output = Some c0 ->
  let '(r, w') := gain_loop n input output gain clipped w in
  exists c, w_fs w' = <[output := c]> (w_fs w) /\ (r <> None -> c = c0 ++ amplified n input gain /\ (2 * n <= length input)%nat).
Proof.
  induction n as [|n IH]; intros input output gain clipped w c0 H0; cbn [gain_loop amplified].
  { exists c0. rewrite insert_id by done. split; [done|]. intros _. rewrite app_nil_r. split; [done|lia]. }
  destruct input as [|a [|b rest]]; [exists c0; by rewrite insert_id..|].
  destruct (amplify gain _) as [v cut]. cbn [fst]. rewrite st_bind_run.
  pose proof (file_write_fs output (sample_bytes v) w) as F. destruct (file_write _ _ w) as [[] w1]; cbn [fst snd].
  - rewrite H0 in F. cbn [default] in F. specialize (IH rest output gain (if cut then clipped + 1 else clipped) w1 (c0 ++ sample_bytes v)).
    rewrite F in IH. specialize (IH ltac:(by rewrite lookup_insert_eq)). destruct (gain_loop n rest _ _ _ w1) as [r w'].
    destruct IH as (c & E & Hc). exists c. rewrite E, insert_insert_eq. split; [done|]. intros Hr. destruct (Hc Hr) as [-> Hl].
    rewrite app_assoc. split; [done|]. cbn [length]. lia.
  - exists c0. rewrite insert_id by (by rewrite ?F). split; [done|]. done.
Qed.

Lemma canonical_facts header : canonical header = true -> length header = 44%nat /\ u32 (drop 40 header) mod 2 = 0.
Proof. unfold canonical. rewrite !andb_true_iff. intros [H E]. split; [by apply Nat.eqb_eq, H|by apply Z.eqb_eq]. Qed.

(** What the tool writes for the content of its input. *)
Definition gained (gain : Dbl.double) (content : bytes) : bytes :=
  take 44 content ++ amplified (Z.to_nat (u32 (drop 40 (take 44 content))) / 2) (drop 44 content) gain.

Lemma write_output_fs output content gain w w1 : w_fs w1 = <[output := []]> (w_fs w) ->
  let '(r, w2) := write_output output (take 44 content) (drop 44 content) gain w1 in
  exists c, w_fs w2 = <[output := c]> (w_fs w)
    /\ (r <> None -> c = gained gain content /\ (2 * (Z.to_nat (u32 (drop 40 (take 44 content))) / 2) <= length (drop 44 content))%nat).
Proof.
  intros F1. unfold write_output. rewrite st_bind_run. pose proof (file_write_fs output (take 44 content) w1) as F2.
  rewrite F1, lookup_insert_eq in F2. cbn [default app] in F2. rewrite insert_insert_eq in F2.
  destruct (file_write _ _ w1) as [[] w2]; cbn [fst snd]; [|exists []; by rewrite F2].
  pose proof (gain_loop_fs (Z.to_nat (u32 (drop 40 (take 44 content))) / 2) (drop 44 content) output gain 0 w2 (take 44 content)) as G.
  rewrite F2, lookup_insert_eq in G. specialize (G eq_refl). destruct (gain_loop _ _ _ _ _ w2) as [r w3]. destruct G as (c & E & G).
  exists c. by rewrite E, insert_insert_eq.
Qed.

Lemma gain_loop_kept n input output gain clipped w : w_kept (gain_loop n input output gain clipped w).2 = w_kept w.
Proof.
  revert input clipped w. induction n as [|n IH]; intros input clipped w; cbn [gain_loop]; [done|].
  destruct input as [|a [|b rest]]; [done|done|]. destruct (amplify gain _) as [v cut]. rewrite st_bind_run.
  rewrite <- (file_write_kept output (sample_bytes v) w). destruct (file_write _ _ w) as [[] w1]; cbn [fst snd]; [apply IH|done].
Qed.

Lemma write_output_kept output header input gain w : w_kept (write_output output header input gain w).2 = w_kept w.
Proof.
  unfold write_output. rewrite st_bind_run, <- (file_write_kept output header w).
  destruct (file_write _ _ w) as [[] w1]; cbn [fst snd]; [apply gain_loop_kept|done].
Qed.

(** All files are as before, or only the new output is left because it cannot be
    removed. *)
Definition withdrawn (output : bytes) (w w' : world) : Prop :=
  w_fs w' = w_fs w \/ hd false (w_kept w) = true /\ w_fs w !! output = None /\ exists part, w_fs w' = <[output := part]> (w_fs w).

(** C33: the gain tool leaves a complete new file or removes it, whatever calls fail: on
    exit 0 the output, which did not exist before, is the header of the input and each
    of its announced samples multiplied and cut off at the limits of 16 bits, all of
    them present in the input; on any other exit all files are as before, unless the
    system refuses to remove the unfinished output, which then is the only new file.
    No file that existed is changed. *)
Theorem wav_gain_atomic (input output multiplier : bytes) (w : world) :
  let '((code, _), w') := wav_gain [input; output; multiplier] w in
  (code <> 0 -> withdrawn output w w')
  /\ (code = 0 -> exists content gain,
        w_fs w !! input = Some content /\ w_fs w !! output = None /\ valid_gain multiplier = Some gain
        /\ canonical (take 44 content) = true /\ 44 + u32 (drop 40 (take 44 content)) <= Z.of_nat (length content)
        /\ w_fs w' = <[output := gained gain content]> (w_fs w)).
Proof.
  unfold wav_gain. destruct (valid_gain multiplier) as [gain|]; [|by split; [left|]]. rewrite st_bind_run. cbn [file_read gets fst snd].
  destruct (w_fs w !! input) as [content|] eqn:Ei; [|by split; [left|]]. cbv zeta. destruct (canonical (take 44 content)) eqn:Ec; cbn [negb]; [|by split; [left|]].
  rewrite st_bind_run. unfold create_new. rewrite st_bind_run. cbn [file_read gets fst snd].
  destruct (w_fs w !! output) as [old|] eqn:Eo; [by split; [left|]|].
  pose proof (file_create_fs output w) as F1. pose proof (file_create_kept output w) as K1.
  destruct (file_create output w) as [[] w1]; cbn [fst snd negb] in K1 |- *; [|by split; [left|]].
  rewrite st_bind_run. pose proof (write_output_fs output content gain w w1 F1) as G.
  pose proof (write_output_kept output (take 44 content) (drop 44 content) gain w1) as K2.
  destruct (write_output _ _ _ _ w1) as [r w2]. cbn [fst snd] in K2 |- *. destruct G as (c & E & G).
  rewrite st_bind_run. pose proof (fault_fs w2) as X2. pose proof (fault_kept w2) as K3. destruct (fault w2) as [e2 w3]. cbn [fst snd] in *.
  rewrite st_bind_run. pose proof (fault_fs w3) as X3. pose proof (fault_kept w3) as K4. destruct (fault w3) as [e3 w4]. cbn [fst snd] in *.
  assert (D : withdrawn output w (file_remove output w4).2).
  { unfold withdrawn. pose proof (file_remove_fs output w4) as R. destruct (file_remove output w4) as [b w5]. destruct R as (-> & R & _). cbn [snd].
    rewrite K4, K3, K2, K1, X3, X2, E in R. destruct (hd false (w_kept w)); cbn [negb] in R; [right|left].
    - split_and!; [done|done|]. by exists c.
    - rewrite R. by rewrite delete_insert_id. }
  destruct r as [k|], e2, e3; try (rewrite st_bind_run; cbn [fst snd mret st_ret]; by split).
  split; [done|]. intros _. destruct (G ltac:(done)) as [-> Hl]. exists content, gain. split_and!; try done; [|by rewrite X3, X2].
  destruct (canonical_facts _ Ec) as [L44 Even]. set (u := u32 (drop 40 (take 44 content))) in *.
  rewrite length_take in L44. rewrite length_drop in Hl. destruct (Z.le_gt_cases u 0); [lia|].
  assert (Z.to_nat u = (2 * (Z.to_nat u / 2))%nat); [|lia].
  apply Nat.Div0.div_exact. apply Nat2Z.inj. rewrite Nat2Z.inj_mod, Z2Nat.id by lia. exact Even.
Qed.

(** The samples of the output are samples, and a gain of one gives back the input. *)
Lemma gained_ok gain content : bytes_ok content -> bytes_ok (gained gain content).
Proof.
  intros Hc. unfold gained. apply Forall_app. split; [by apply Forall_take|]. generalize (Z.to_nat (u32 (drop 40 (take 44 content))) / 2)%nat as n.
  intros n. generalize (drop 44 content). induction n as [|n IH]; intros [|a [|b rest]]; try (by apply Forall_nil). cbn [amplified].
  apply Forall_app. split; [apply sample_bytes_range|apply IH].
Qed.

Lemma gained_one content n : bytes_ok content -> canonical (take 44 content) = true -> u32 (drop 40 (take 44 content)) = 2 * Z.of_nat n ->
  (44 + 2 * n <= length content)%nat -> gained (Dbl.of_Z 1) content = take (44 + 2 * n) content.
Proof.
  intros Hc _ Hu Hl. unfold gained. rewrite Hu. replace (Z.to_nat (2 * Z.of_nat n) / 2)%nat with n.
  - rewrite amplified_one; [|by apply Forall_drop|rewrite length_drop; lia]. by rewrite take_take_drop.
  - rewrite Z2Nat.inj_mul, Nat2Z.id by lia. change (Z.to_nat 2) with 2%nat. by rewrite Nat.mul_comm, Nat.div_mul.
Qed.

(** ** An example *)

Definition le_bytes (n : nat) (v : Z) : bytes := map (fun k => Z.land (Z.shiftr v (8 * Z.of_nat k)) 255) (seq 0 n).
Definition example_wav : bytes :=
  str "RIFF" ++ le_bytes 4 42 ++ str "WAVEfmt " ++ le_bytes 4 16 ++ le_bytes 2 1 ++ le_bytes 2 1 ++ le_bytes 4 16000 ++ le_bytes 4 32000
  ++ le_bytes 2 2 ++ le_bytes 2 16 ++ str "data" ++ le_bytes 4 6 ++ le_bytes 2 1000 ++ le_bytes 2 (-20000) ++ le_bytes 2 30000.
Definition example_world : world := World {[str "in.wav" := example_wav]} 0 [] [] [] [] ∅ [] [].

Example gain_example :
  let '((code, text), w') := wav_gain [str "in.wav"; str "out.wav"; str "1.5"] example_world in
  code = 0 /\ text = str "gain=1.50 clipped_samples=1" ++ [NL]
  /\ drop 44 <$> (w_fs w' !! str "out.wav") = Some (le_bytes 2 1500 ++ le_bytes 2 (-30000) ++ le_bytes 2 32767).
Proof. vm_compute. split_and!; reflexivity. Qed.
End WavGain.
