(* ===== verification/RosePipeline.v ===== *)
(** * The speech pipeline of Rose

    rose_voice.c speaks sentence by sentence: three threads synthesise, colour and
    analyse each sentence while the main thread plays the finished ones.  They
    share the flags of the sentences and a failure flag under one mutex with one
    condition variable.  Threads are modelled step by step, with the set of
    sleeping threads, so that a lost wake-up would be a deadlock of the model.
    Whatever the schedule, speech ends, sentences are played in order and only
    when all their stages are done, and the shared memory is given back only when
    no thread uses it any more.  Module [RoseVoice] is the text that is spoken: how it
    is put together from the arguments and split into sentences. *)
From S2P Require Import Prelude CLib.

Open Scope nat_scope.

Module RosePipeline.

(** ** The shared state *)

Inductive stage := PIPER | SOX | ENVELOPE.

#[global] Instance stage_eq_dec : EqDecision stage.
Proof. solve_decision. Defined.

(** The flags of [struct audio_item]. *)
Record audio_item := Item { dry_ready : bool; wet_ready : bool; envelope_ready : bool }.

Definition item_ready (t : stage) (it : audio_item) : bool :=
  match t with PIPER => dry_ready it | SOX => wet_ready it | ENVELOPE => envelope_ready it end.

Definition set_item_ready (t : stage) (it : audio_item) : audio_item :=
  match t with
  | PIPER => Item true (wet_ready it) (envelope_ready it)
  | SOX => Item (dry_ready it) true (envelope_ready it)
  | ENVELOPE => Item (dry_ready it) (wet_ready it) true
  end.

(** Where a worker is: before the test of its loop, before the lock, holding the
    mutex, asleep or awake again in [pthread_cond_wait], running its stage, before
    and in the two critical sections that follow. *)
Inductive worker_pc :=
| WNone | WTop (i : nat) | WLock (i : nat) | WCheck (i : nat) | WSleep (i : nat) | WWake (i : nat)
| WRun (i : nat) | WPublish (i : nat) | WPublishing (i : nat) | WFail | WFailing | WDone.

#[global] Instance worker_pc_eq_dec : EqDecision worker_pc.
Proof. solve_decision. Defined.

(** The main thread: creating the workers, playing, [pipeline_fail] (once more
    afterwards or not), joining, and its exit. *)
Inductive main_pc :=
| MCreate (t : stage) | MTop (i : nat) | MLock (i : nat) | MCheck (i : nat) | MSleep (i : nat) | MWake (i : nat)
| MPlay (i : nat) | MFail (again : bool) | MFailing (again : bool) | MJoin (t : stage) (result : bool) | MExit (result : bool).

Inductive thread := Worker (t : stage) | Main.

#[global] Instance thread_eq_dec : EqDecision thread.
Proof. solve_decision. Defined.

(** What happened, in order: a stage run on another machine or on this one, a
    sentence played, a thread created. *)
Inductive executor := Remote | Local.
Inductive event :=
| Staged (t : stage) (i : nat) (executed_by : executor) (good : bool)
| Played (i : nat) (good : bool)
| Created (t : stage) (good : bool).

Record pipeline := Pipeline {
  items : list audio_item; failed : bool; mutex : option thread;
  workers : stage -> worker_pc; main : main_pc; log : list event }.

Definition ready (t : stage) (i : nat) (s : pipeline) : bool :=
  match items s !! i with Some it => item_ready t it | None => false end.

Definition set_worker (t : stage) (pc : worker_pc) (s : pipeline) : pipeline :=
  Pipeline (items s) (failed s) (mutex s) (fun u => if decide (u = t) then pc else workers s u) (main s) (log s).
Definition set_main (pc : main_pc) (s : pipeline) : pipeline :=
  Pipeline (items s) (failed s) (mutex s) (workers s) pc (log s).
Definition set_mutex (m : option thread) (s : pipeline) : pipeline :=
  Pipeline (items s) (failed s) m (workers s) (main s) (log s).
Definition set_failed (s : pipeline) : pipeline :=
  Pipeline (items s) true (mutex s) (workers s) (main s) (log s).
Definition set_items (l : list audio_item) (s : pipeline) : pipeline :=
  Pipeline l (failed s) (mutex s) (workers s) (main s) (log s).
Definition add_log (e : event) (s : pipeline) : pipeline :=
  Pipeline (items s) (failed s) (mutex s) (workers s) (main s) (log s ++ [e]).

(** [pthread_mutex_lock]: possible only when nobody holds the mutex. *)
Definition acquire (th : thread) (s : pipeline) : option pipeline :=
  match mutex s with None => Some (set_mutex (Some th) s) | Some _ => None end.

(** [pthread_cond_broadcast]. *)
Definition wake (pc : worker_pc) : worker_pc := match pc with WSleep i => WWake i | _ => pc end.
Definition wake_main (pc : main_pc) : main_pc := match pc with MSleep i => MWake i | _ => pc end.
Definition broadcast (s : pipeline) : pipeline :=
  Pipeline (items s) (failed s) (mutex s) (fun u => wake (workers s u)) (wake_main (main s)) (log s).

(** ** The threads *)

Section threads.
Context (remote : stage -> bool).   (** whether a stage has a worker elsewhere *)

(** The stage on the other machine if there is one, here if that fails. *)
Definition stage_outcome (t : stage) (remote_ok local_ok : bool) : executor * bool :=
  if remote t && remote_ok then (Remote, true) else (Local, local_ok).

(** The loop conditions around [pthread_cond_wait]. *)
Definition must_wait (t : stage) (i : nat) (s : pipeline) : bool :=
  match t with PIPER => false | _ => negb (ready PIPER i s) && negb (failed s) end.
Definition must_wait_main (i : nat) (s : pipeline) : bool :=
  (negb (ready SOX i s) || negb (ready ENVELOPE i s)) && negb (failed s).

(** The critical section of [pipeline_fail], with the unlock. *)
Definition do_fail (s : pipeline) : pipeline := set_mutex None (broadcast (set_failed s)).

(** The critical section that publishes a stage, with the unlock. *)
Definition publish (t : stage) (i : nat) (s : pipeline) : pipeline :=
  set_mutex None (broadcast (set_items (alter (set_item_ready t) i (items s)) s)).

Definition worker_step (t : stage) (remote_ok local_ok : bool) (s : pipeline) : option pipeline :=
  match workers s t with
  | WNone | WSleep _ | WDone => None
  | WTop i => Some (set_worker t (if i <? length (items s) then WLock i else WDone) s)
  | WLock i | WWake i => set_worker t (WCheck i) <$> acquire (Worker t) s
  | WCheck i =>
      let s1 := set_mutex None s in
      Some (set_worker t (if must_wait t i s then WSleep i else if failed s then WDone else WRun i) s1)
  | WRun i =>
      let '(by_, good) := stage_outcome t remote_ok local_ok in
      Some (set_worker t (if good : bool then WPublish i else WFail) (add_log (Staged t i by_ good) s))
  | WPublish i => set_worker t (WPublishing i) <$> acquire (Worker t) s
  | WPublishing i => Some (set_worker t (WTop (S i)) (publish t i s))
  | WFail => set_worker t WFailing <$> acquire (Worker t) s
  | WFailing => Some (set_worker t WDone (do_fail s))
  end.

(** The worker created after [t], then the loop. *)
Definition after_create (t : stage) : main_pc :=
  match t with PIPER => MCreate SOX | SOX => MCreate ENVELOPE | ENVELOPE => MTop 0 end.
Definition after_join (t : stage) (result : bool) : main_pc :=
  match t with PIPER => MJoin SOX result | SOX => MJoin ENVELOPE result | ENVELOPE => MExit result end.

(** The first failed creation goes straight to the cleanup, which fails the
    pipeline; the others, and a failed playback, fail it before that as well. *)
Definition main_step (good : bool) (s : pipeline) : option pipeline :=
  match main s with
  | MSleep _ | MExit _ => None
  | MCreate t =>
      let s1 := add_log (Created t good) s in
      Some (if good then set_main (after_create t) (set_worker t (WTop 0) s1)
            else set_main (match t with PIPER => MFail false | _ => MFail true end) s1)
  | MTop i => Some (set_main (if i <? length (items s) then MLock i else MJoin PIPER true) s)
  | MLock i | MWake i => set_main (MCheck i) <$> acquire Main s
  | MCheck i =>
      let s1 := set_mutex None s in
      Some (set_main (if must_wait_main i s then MSleep i else if failed s then MFail false else MPlay i) s1)
  | MPlay i => Some (set_main (if good then MTop (S i) else MFail true) (add_log (Played i good) s))
  | MFail again => set_main (MFailing again) <$> acquire Main s
  | MFailing again => Some (set_main (if again : bool then MFail false else MJoin PIPER false) (do_fail s))
  | MJoin t result =>
      match workers s t with WNone | WDone => Some (set_main (after_join t result) s) | _ => None end
  end.

(** The scheduler lets a thread take its next step, with the outcome of what the
    thread runs, or wakes a sleeping thread for no reason. *)
Inductive action := Turn (th : thread) (remote_ok good : bool) | Spurious (th : thread).

Definition step (a : action) (s : pipeline) : option pipeline :=
  match a with
  | Turn (Worker t) remote_ok good => worker_step t remote_ok good s
  | Turn Main _ good => main_step good s
  | Spurious (Worker t) => match workers s t with WSleep i => Some (set_worker t (WWake i) s) | _ => None end
  | Spurious Main => match main s with MSleep i => Some (set_main (MWake i) s) | _ => None end
  end.

Fixpoint run_actions (l : list action) (s : pipeline) : option pipeline :=
  match l with [] => Some s | a :: l => step a s ≫= run_actions l end.

(** [count] sentences, before the first thread is created. *)
Definition start (count : nat) : pipeline :=
  Pipeline (replicate count (Item false false false)) false None (fun _ => WNone) (MCreate PIPER) [].
End threads.

(** ** What the log must look like *)

Definition done (t : stage) (i : nat) (l : list event) : Prop := exists by_, Staged t i by_ true ∈ l.

(** The sentences played to their end, in order. *)
Definition played (l : list event) : list nat :=
  omap (fun e => match e with Played i true => Some i | _ => None end) l.

Definition failure (e : event) : bool :=
  match e with Staged _ _ _ good | Played _ good | Created _ good => negb good end.

Definition fault_free (l : list event) : bool := forallb (fun e => negb (failure e)) l.

(** When something may happen: effects and analysis after the synthesis of the same
    sentence, playback after both and after all earlier sentences. *)
Definition justified (l : list event) (e : event) : Prop :=
  match e with
  | Staged PIPER _ _ _ | Created _ _ => True
  | Staged _ i _ _ => done PIPER i l
  | Played i _ => done SOX i l /\ done ENVELOPE i l /\ played l = seq 0 i
  end.

Inductive log_ok : list event -> Prop :=
| log_nil : log_ok []
| log_snoc l e : log_ok l -> justified l e -> log_ok (l ++ [e]).

(** ** The invariant *)

Definition published (t : stage) (p : nat) (s : pipeline) : Prop :=
  p <= length (items s) /\ forall j, ready t j s = (j <? p).

(** What a worker has published, and what it may rely on. *)
Definition at_index (t : stage) (i : nat) (s : pipeline) : Prop := published t i s /\ i < length (items s).
Definition stage_input (t : stage) (i : nat) (s : pipeline) : Prop := t = PIPER \/ ready PIPER i s = true.

Definition worker_ok (t : stage) (s : pipeline) : Prop :=
  match workers s t with
  | WNone => published t 0 s
  | WTop i => published t i s
  | WLock i | WWake i | WCheck i => at_index t i s
  | WSleep i => at_index t i s /\ must_wait t i s = true
  | WRun i => at_index t i s /\ stage_input t i s
  | WPublish i | WPublishing i => at_index t i s /\ done t i (log s)
  | WFail | WFailing => (exists p, published t p s) /\ fault_free (log s) = false
  | WDone => exists p, published t p s /\ (p = length (items s) \/ failed s = true)
  end.

Definition created (s : pipeline) : Prop := forall t, workers s t <> WNone.
Definition finished (t : stage) (s : pipeline) : Prop := workers s t = WNone \/ workers s t = WDone.

(** The workers that exist, or are joined, before [t]. *)
Definition before (t : stage) : list stage := match t with PIPER => [] | SOX => [PIPER] | ENVELOPE => [PIPER; SOX] end.

Definition playing (i : nat) (s : pipeline) : Prop := created s /\ played (log s) = seq 0 i /\ i <= length (items s).
Definition ended (result : bool) (s : pipeline) : Prop :=
  if result then created s /\ played (log s) = seq 0 (length (items s)) else failed s = true.

Definition main_ok (s : pipeline) : Prop :=
  match main s with
  | MCreate t => (forall u, u ∈ before t <-> workers s u <> WNone) /\ played (log s) = []
  | MTop i => playing i s
  | MLock i | MWake i | MCheck i => playing i s /\ i < length (items s)
  | MSleep i => (playing i s /\ i < length (items s)) /\ must_wait_main i s = true
  | MPlay i => (playing i s /\ i < length (items s)) /\ ready SOX i s = true /\ ready ENVELOPE i s = true
  | MFail _ | MFailing _ => fault_free (log s) = false
  | MJoin t result => ended result s /\ forall u, u ∈ before t -> finished u s
  | MExit result => ended result s /\ forall u, finished u s
  end.

Definition holds (th : thread) (s : pipeline) : bool :=
  match th with
  | Worker t => match workers s t with WCheck _ | WPublishing _ | WFailing => true | _ => false end
  | Main => match main s with MCheck _ | MFailing _ => true | _ => false end
  end.

(** The mutex is held by the thread that is in a critical section. *)
Definition mutex_ok (s : pipeline) : Prop := forall th, mutex s = Some th <-> holds th s = true.

Record inv (s : pipeline) : Prop := {
  inv_mutex : mutex_ok s;
  inv_worker t : worker_ok t s;
  inv_main : main_ok s;
  inv_done t i : ready t i s = true -> done t i (log s);
  inv_failed : failed s = true -> fault_free (log s) = false;
  inv_log : log_ok (log s) }.

Lemma done_app t i l l' : done t i l -> done t i (l ++ l').
Proof. intros [b Hb]. exists b. apply elem_of_app. by left. Qed.

Lemma fault_free_app l l' : fault_free (l ++ l') = fault_free l && fault_free l'.
Proof. apply forallb_app. Qed.

Lemma played_app l l' : played (l ++ l') = played l ++ played l'.
Proof. apply omap_app. Qed.

(** *** Threads that do not move *)

Section still.
Context (s s' : pipeline) (l : list event).
Context (same_length : length (items s') = length (items s)) (same_log : log s' = log s ++ l).

(** A step that leaves flags and failure alone. *)
Section quiet.
Context (same_ready : forall t i, ready t i s' = ready t i s) (same_failed : failed s' = failed s).

Lemma worker_quiet t : workers s' t = workers s t -> worker_ok t s -> worker_ok t s'.
Proof.
  intros Hw. unfold worker_ok. rewrite Hw.
  assert (P : forall p, published t p s -> published t p s').
  { intros p [A B]. split; [by rewrite same_length|]. intros j. by rewrite same_ready. }
  assert (Q : forall i, at_index t i s -> at_index t i s') by (intros i [A B]; split; [auto|by rewrite same_length]).
  unfold must_wait, stage_input. rewrite same_log, ?same_ready, same_failed, ?fault_free_app, same_length.
  destruct (workers s t); rewrite ?same_ready; try naive_solver auto using done_app.
  all: intros [[p A] B]; rewrite B; naive_solver.
Qed.

Lemma main_quiet :
  (forall t, workers s' t = WNone <-> workers s t = WNone) -> (forall t, finished t s -> finished t s') ->
  main s' = main s -> played l = [] -> main_ok s -> main_ok s'.
Proof.
  intros Hn Hf Hm Hl. assert (C : created s -> created s') by (intros C t; rewrite Hn; apply C).
  assert (E : played (log s') = played (log s)) by by rewrite same_log, played_app, Hl, app_nil_r.
  assert (P : forall i, playing i s -> playing i s') by (intros i (A & B & D); split_and!; [auto|by rewrite E|by rewrite same_length]).
  assert (D : forall r, ended r s -> ended r s').
  { unfold ended. intros [] H; [|by rewrite same_failed]. rewrite E, same_length. naive_solver. }
  unfold main_ok, must_wait_main. rewrite Hm, same_length, E, same_log, fault_free_app, same_failed.
  destruct (main s); rewrite ?same_ready; try solve [intuition auto].
  - intros [A B]. split; [|done]. intros u. by rewrite A, Hn.
  - by intros ->.
  - by intros ->.
Qed.
End quiet.

(** A step that sets a flag or the failure and wakes everybody. *)
Section loud.
Context (more_ready : forall t i, ready t i s = true -> ready t i s' = true) (more_failed : failed s = true -> failed s' = true).

Lemma worker_loud t : (forall i, ready t i s' = ready t i s) -> workers s' t = wake (workers s t) -> worker_ok t s -> worker_ok t s'.
Proof.
  intros Hr Hw. unfold worker_ok. rewrite Hw.
  assert (P : forall p, published t p s -> published t p s').
  { intros p [A B]. split; [by rewrite same_length|]. intros j. by rewrite Hr. }
  assert (Q : forall i, at_index t i s -> at_index t i s') by (intros i [A B]; split; [auto|by rewrite same_length]).
  unfold stage_input. rewrite same_log, ?fault_free_app, same_length.
  destruct (workers s t); cbn [wake]; try solve [intuition eauto using done_app].
  all: try (intros [[p A] B]; rewrite B; by eauto). intros (p & A & B). exists p. intuition auto.
Qed.

Lemma main_loud :
  l = [] -> (forall t, workers s' t = WNone <-> workers s t = WNone) -> (forall t, finished t s -> finished t s') ->
  main s' = wake_main (main s) -> main_ok s -> main_ok s'.
Proof.
  intros -> Hn Hf Hm. rewrite app_nil_r in same_log. assert (C : created s -> created s') by (intros C t; rewrite Hn; apply C).
  assert (P : forall i, playing i s -> playing i s') by (intros i (A & B & D); split_and!; [auto|by rewrite same_log|by rewrite same_length]).
  assert (D : forall r, ended r s -> ended r s').
  { unfold ended. intros [] H; [|auto]. rewrite same_log, same_length. naive_solver. }
  unfold main_ok. rewrite Hm, same_length, same_log. destruct (main s); cbn [wake_main]; try solve [intuition auto].
  intros [A B]. split; [|done]. intros u. by rewrite A, Hn.
Qed.
End loud.
End still.

(** *** The mutex *)

Lemma mutex_keep s s' : mutex_ok s -> mutex s' = mutex s -> (forall u, holds u s' = holds u s) -> mutex_ok s'.
Proof. intros H Hm Hh th. rewrite Hm, Hh. apply H. Qed.

Lemma mutex_take th s s' : mutex_ok s -> mutex s = None -> mutex s' = Some th -> holds th s' = true ->
  (forall u, u <> th -> holds u s' = holds u s) -> mutex_ok s'.
Proof.
  intros H Hn Hs Hh Ho u. rewrite Hs. destruct (decide (u = th)) as [->|N]; [done|]. rewrite (Ho u N), <- (H u), Hn. naive_solver.
Qed.

Lemma mutex_drop th s s' : mutex_ok s -> holds th s = true -> mutex s' = None -> holds th s' = false ->
  (forall u, u <> th -> holds u s' = holds u s) -> mutex_ok s'.
Proof.
  intros H Ht Hs Hh Ho u. rewrite Hs. destruct (decide (u = th)) as [->|N]; [by rewrite Hh|].
  rewrite (Ho u N). split; [done|]. intros Hu. apply H in Hu, Ht. congruence.
Qed.

Lemma holds_wake u s : holds u (broadcast s) = holds u s.
Proof. destruct u as [t|]; cbn; [by destruct (workers s t)|by destruct (main s)]. Qed.

(** *** Steps of one thread *)

(** A worker that moves without changing flags or failure. *)
Lemma worker_moves t s s' l :
  inv s -> items s' = items s -> failed s' = failed s -> main s' = main s -> log s' = log s ++ l -> played l = [] ->
  (forall u, u <> t -> workers s' u = workers s u) -> ~ finished t s -> workers s' t <> WNone ->
  mutex_ok s' -> worker_ok t s' -> log_ok (log s') -> inv s'.
Proof.
  intros [I1 I2 I3 I4 I5 I6] Hi Hf Hm Hl Hp Hw Ht Hn M W L.
  assert (R : forall u i, ready u i s' = ready u i s) by (intros; unfold ready; by rewrite Hi).
  assert (E : length (items s') = length (items s)) by by rewrite Hi.
  split; try done.
  - intros u. destruct (decide (u = t)) as [->|N]; [done|]. apply (worker_quiet s s' l E Hl R Hf); auto.
  - apply (main_quiet s s' l E Hl R Hf); try done.
    + intros u. destruct (decide (u = t)) as [->|N]; [|by rewrite Hw]. split; [done|]. intros X. destruct Ht. by left.
    + intros u Hu. destruct (decide (u = t)) as [->|N]; [done|]. unfold finished in *. by rewrite Hw.
  - intros u i Hr. rewrite Hl. apply done_app, I4. by rewrite <- R.
  - rewrite Hf, Hl, fault_free_app. intros X. by rewrite (I5 X).
Qed.

(** The main thread moving without changing flags or failure. *)
Lemma main_moves s s' l :
  inv s -> items s' = items s -> failed s' = failed s -> log s' = log s ++ l ->
  (forall u, workers s' u = workers s u) -> mutex_ok s' -> main_ok s' -> log_ok (log s') -> inv s'.
Proof.
  intros [I1 I2 I3 I4 I5 I6] Hi Hf Hl Hw M W L.
  assert (R : forall u i, ready u i s' = ready u i s) by (intros; unfold ready; by rewrite Hi).
  assert (E : length (items s') = length (items s)) by by rewrite Hi.
  split; try done.
  - intros u. apply (worker_quiet s s' l E Hl R Hf); auto.
  - intros u i Hr. rewrite Hl. apply done_app, I4. by rewrite <- R.
  - rewrite Hf, Hl, fault_free_app. intros X. by rewrite (I5 X).
Qed.

(** A thread that publishes or fails, and wakes the others. *)
Lemma thread_wakes th s s' :
  inv s -> length (items s') = length (items s) -> log s' = log s ->
  (forall u i, ready u i s = true -> ready u i s' = true) -> (failed s = true -> failed s' = true) ->
  (forall u, Worker u <> th -> workers s' u = wake (workers s u) /\ forall i, ready u i s' = ready u i s) ->
  (th <> Main -> main s' = wake_main (main s)) ->
  match th with Worker t => ~ finished t s /\ workers s' t <> WNone /\ worker_ok t s' | Main => main_ok s' end ->
  (forall u i, ready u i s' = true -> done u i (log s)) -> (failed s' = true -> fault_free (log s) = false) ->
  mutex_ok s' -> inv s'.
Proof.
  intros [I1 I2 I3 I4 I5 I6] E Hl R F Hw Hm Ht D Hf M. assert (L : log s' = log s ++ []) by by rewrite app_nil_r.
  assert (N : forall u, Worker u <> th -> (workers s' u = WNone <-> workers s u = WNone) /\ (finished u s -> finished u s')).
  { intros u Hu. unfold finished. destruct (Hw u Hu) as [-> _]. destruct (workers s u); naive_solver. }
  split; rewrite ?Hl; try done.
  - intros u. destruct (decide (Worker u = th)) as [<-|X]; [apply Ht|].
    destruct (Hw u X) as [W1 W2]. by apply (worker_loud s s' [] E L R F).
  - destruct th as [t|]; [|done]. destruct Ht as (T1 & T2 & T3).
    apply (main_loud s s' [] E L R F); try done; [| |by apply Hm].
    + intros u. destruct (decide (u = t)) as [->|X]; [|apply N; congruence]. split; [done|]. intros Y. destruct T1. by left.
    + intros u Hu. destruct (decide (u = t)) as [->|X]; [done|]. apply N; [congruence|done].
Qed.

(** *** Every step keeps the invariant *)

Lemma workers_set t pc s u : workers (set_worker t pc s) u = if decide (u = t) then pc else workers s u.
Proof. done. Qed.

Lemma ready_publish t i s u j : i < length (items s) ->
  ready u j (publish t i s) = (bool_decide (u = t) && (j =? i)) || ready u j s.
Proof.
  intros Hi. unfold ready, publish. cbn [items set_mutex broadcast set_items]. destruct (Nat.eqb_spec j i) as [->|N].
  - rewrite list_lookup_alter. rewrite decide_True by done. destruct (lookup_lt_is_Some_2 _ _ Hi) as [it ->]. by destruct u, t, it.
  - rewrite list_lookup_alter_ne by done. by rewrite andb_false_r.
Qed.

Lemma published_next t i s : at_index t i s -> published t (S i) (publish t i s).
Proof.
  intros [[A B] C]. split; [cbn; rewrite length_alter; lia|]. intros j. rewrite ready_publish, B by done.
  rewrite bool_decide_eq_true_2 by done. cbn [andb]. destruct (Nat.eqb_spec j i), (Nat.ltb_spec j i), (Nat.ltb_spec j (S i)); cbn; lia.
Qed.

Definition holding (pc : worker_pc) : bool := match pc with WCheck _ | WPublishing _ | WFailing => true | _ => false end.
Definition holding_main (pc : main_pc) : bool := match pc with MCheck _ | MFailing _ => true | _ => false end.

(** How the mutex may change when a thread goes from holding it or not to holding
    it or not. *)
Definition mutex_change (th : thread) (m m' : option thread) (h h' : bool) : Prop :=
  (m' = m /\ h' = h) \/ (m = None /\ m' = Some th /\ h' = true) \/ (h = true /\ m' = None /\ h' = false).

Lemma mutex_changed th s s' :
  mutex_ok s -> mutex_change th (mutex s) (mutex s') (holds th s) (holds th s') -> (forall u, u <> th -> holds u s' = holds u s) -> mutex_ok s'.
Proof.
  intros M [[A B]|[(A & B & C)|(A & B & C)]] O.
  - apply (mutex_keep s); try done. intros u. destruct (decide (u = th)) as [->|N]; auto.
  - by apply (mutex_take th s).
  - by apply (mutex_drop th s).
Qed.

Lemma worker_moved t pc m lg l s :
  inv s -> ~ finished t s -> pc <> WNone -> lg = log s ++ l -> played l = [] ->
  let s' := Pipeline (items s) (failed s) m (fun u => if decide (u = t) then pc else workers s u) (main s) lg in
  mutex_change (Worker t) (mutex s) m (holding (workers s t)) (holding pc) -> worker_ok t s' -> log_ok lg -> inv s'.
Proof.
  intros I F N E P s' M W L. apply (worker_moves t s s' l); try done.
  - intros u Hu. cbn. by rewrite decide_False.
  - cbn. by rewrite decide_True.
  - apply (mutex_changed (Worker t) s); [apply I| |].
    + cbn. by rewrite decide_True.
    + intros [u|] Hu; [|done]. cbn. by rewrite decide_False by congruence.
Qed.

Lemma main_moved pc m lg l s :
  inv s -> lg = log s ++ l ->
  let s' := Pipeline (items s) (failed s) m (workers s) pc lg in
  mutex_change Main (mutex s) m (holding_main (main s)) (holding_main pc) -> main_ok s' -> log_ok lg -> inv s'.
Proof.
  intros I E s' M W L. apply (main_moves s s' l); try done. apply (mutex_changed Main s); [apply I|done|]. by intros [u|] Hu.
Qed.

Lemma acquire_Some th s s' : acquire th s = Some s' -> mutex s = None /\ s' = set_mutex (Some th) s.
Proof. unfold acquire. destruct (mutex s); [done|]. by intros [= <-]. Qed.

(** A worker that takes the mutex. *)
Lemma worker_locks t pc s s' :
  inv s -> ~ finished t s -> holding (workers s t) = false -> holding pc = true ->
  set_worker t pc <$> acquire (Worker t) s = Some s' ->
  (forall s1, items s1 = items s -> failed s1 = failed s -> log s1 = log s -> workers s1 t = pc -> worker_ok t s1) -> inv s'.
Proof.
  intros I F H0 H1 Hs K. apply fmap_Some in Hs as (s1 & A & ->). apply acquire_Some in A as [M ->].
  apply (worker_moved t pc (Some (Worker t)) (log s) [] s); try done; [by intros ->|by rewrite app_nil_r|by right; left| |apply I].
  apply K; try done. cbn. by rewrite decide_True.
Qed.

Lemma main_locks pc s s' :
  inv s -> holding_main (main s) = false -> holding_main pc = true -> set_main pc <$> acquire Main s = Some s' ->
  (forall s1, items s1 = items s -> failed s1 = failed s -> log s1 = log s -> workers s1 = workers s -> main s1 = pc -> main_ok s1) -> inv s'.
Proof.
  intros I H0 H1 Hs K. apply fmap_Some in Hs as (s1 & A & ->). apply acquire_Some in A as [M ->].
  apply (main_moved pc (Some Main) (log s) [] s); try done; [by rewrite app_nil_r|by right; left|by apply K|apply I].
Qed.

(** The log of a stage. *)
Lemma log_stage t i by_ good s : inv s -> stage_input t i s -> log_ok (log s ++ [Staged t i by_ good]).
Proof.
  intros I [->|H]; apply log_snoc; try apply I; [done|]. destruct t; [done|..]; by apply (inv_done s I).
Qed.

Lemma same_view t s1 s p : items s1 = items s -> published t p s -> published t p s1.
Proof. intros E [A B]. split; [by rewrite E|]. intros j. unfold ready. rewrite E. apply B. Qed.

Lemma worker_fails_keeps t s : inv s -> workers s t = WFailing -> inv (set_worker t WDone (do_fail s)).
Proof.
  intros I Hpc. pose proof (inv_worker s I t) as W. unfold worker_ok in W. rewrite Hpc in W. destruct W as [[p W] E].
  apply (thread_wakes (Worker t) s); try done.
  - intros u N. cbn. by rewrite decide_False by congruence.
  - split_and!.
    + unfold finished. rewrite Hpc. naive_solver.
    + cbn. by rewrite decide_True.
    + unfold worker_ok. cbn. rewrite decide_True by done. exists p. auto.
  - apply I.
  - apply (mutex_changed (Worker t) s); [apply I| |].
    + right. right. cbn. by rewrite Hpc, decide_True.
    + intros [u|] N; cbn; [|by destruct (main s)]. rewrite decide_False by congruence. by destruct (workers s u).
Qed.

Lemma worker_publishes_keeps t i s : inv s -> workers s t = WPublishing i -> inv (set_worker t (WTop (S i)) (publish t i s)).
Proof.
  intros I Hpc. pose proof (inv_worker s I t) as W. unfold worker_ok in W. rewrite Hpc in W. destruct W as [W E].
  assert (Hi : i < length (items s)) by apply W.
  assert (R : forall u j, ready u j (set_worker t (WTop (S i)) (publish t i s)) = (bool_decide (u = t) && (j =? i)) || ready u j s).
  { intros u j. by apply ready_publish. }
  apply (thread_wakes (Worker t) s); try done.
  - cbn. by rewrite length_alter.
  - intros u j. rewrite R. intros ->. apply orb_true_r.
  - intros u N. split; [cbn; by rewrite decide_False by congruence|]. intros j. rewrite R, bool_decide_eq_false_2 by congruence. done.
  - split_and!.
    + unfold finished. rewrite Hpc. naive_solver.
    + cbn. by rewrite decide_True.
    + unfold worker_ok. cbn. rewrite decide_True by done. by apply published_next.
  - intros u j. rewrite R. intros [[->%bool_decide_eq_true ->%Nat.eqb_eq]%andb_true_iff|X]%orb_true_iff; [done|by apply I].
  - apply I.
  - apply (mutex_changed (Worker t) s); [apply I| |].
    + right. right. cbn. by rewrite Hpc, decide_True.
    + intros [u|] N; cbn; [|by destruct (main s)]. rewrite decide_False by congruence. by destruct (workers s u).
Qed.

Lemma worker_step_keeps remote t r g s s' : inv s -> worker_step remote t r g s = Some s' -> inv s'.
Proof.
  intros I Hs. pose proof (inv_worker s I t) as W. unfold worker_step in Hs. unfold worker_ok in W.
  assert (F : workers s t <> WNone -> workers s t <> WDone -> ~ finished t s) by (unfold finished; naive_solver).
  assert (L : log s = log s ++ []) by by rewrite app_nil_r.
  destruct (workers s t) as [|i|i|i|i|i|i|i|i| | |] eqn:Hpc; try discriminate; specialize (F ltac:(done) ltac:(done)).
  - injection Hs as <-. apply (worker_moved t _ (mutex s) (log s) [] s); try done; [by case_match| | |apply I].
    + left. rewrite Hpc. by destruct (_ <? _).
    + unfold worker_ok. cbn [workers items failed log]. rewrite decide_True by done. destruct (Nat.ltb_spec i (length (items s))); [by split|].
      exists i. split; [done|]. left. cbn. destruct W. lia.
  - eapply worker_locks; try done; rewrite ?Hpc; try done. intros s1 E1 E2 E3 E4. unfold worker_ok. rewrite E4.
    destruct W. split; [by eapply same_view|by rewrite E1].
  - injection Hs as <-. apply (worker_moved t _ None (log s) [] s); try done; [by repeat case_match| | |apply I].
    + right. right. rewrite Hpc. split_and!; [done..|]. by repeat case_match.
    + unfold worker_ok. cbn [workers items failed log]. rewrite decide_True by done. destruct (must_wait t i s) eqn:E; [by split|]. destruct (failed s) eqn:E'.
      * exists i. split; [apply W|]. by right.
      * split; [done|]. unfold must_wait in E. rewrite E' in E. destruct t; [by left|..]; right; change (ready PIPER i s = true); by destruct (ready PIPER i s).
  - eapply worker_locks; try done; rewrite ?Hpc; try done. intros s1 E1 E2 E3 E4. unfold worker_ok. rewrite E4.
    destruct W. split; [by eapply same_view|by rewrite E1].
  - destruct W as [W In]. destruct (stage_outcome remote t r g) as [b good]. injection Hs as <-.
    apply (worker_moved t _ (mutex s) (log s ++ [Staged t i b good]) [Staged t i b good] s); try done; [by destruct good| | |by apply log_stage].
    + left. rewrite Hpc. by destruct good.
    + unfold worker_ok. cbn [workers items failed log]. rewrite decide_True by done. destruct good.
      * split; [done|]. exists b. apply elem_of_app. right. by left.
      * split; [exists i; apply W|]. rewrite fault_free_app. apply andb_false_r.
  - eapply worker_locks; try done; rewrite ?Hpc; try done. intros s1 E1 E2 E3 E4. unfold worker_ok. rewrite E4, E3.
    destruct W as [[W1 W2] W3]. split; [|done]. split; [by eapply same_view|by rewrite E1].
  - injection Hs as <-. by apply worker_publishes_keeps.
  - eapply worker_locks; try done; rewrite ?Hpc; try done. intros s1 E1 E2 E3 E4. unfold worker_ok. rewrite E4, E3.
    destruct W as [[p W1] W2]. split; [|done]. exists p. by eapply same_view.
  - injection Hs as <-. by apply worker_fails_keeps.
Qed.

Lemma log_create t good s : inv s -> log_ok (log s ++ [Created t good]).
Proof. intros I. apply log_snoc; [apply I|done]. Qed.

(** Creating a worker. *)
Lemma create_keeps t s : inv s -> main s = MCreate t ->
  inv (set_main (after_create t) (set_worker t (WTop 0) (add_log (Created t true) s))).
Proof.
  intros I Hpc. pose proof (inv_main s I) as Mn. unfold main_ok in Mn. rewrite Hpc in Mn. destruct Mn as [M1 M2].
  assert (Ht : workers s t = WNone).
  { destruct (decide (workers s t = WNone)) as [|N]; [done|]. apply M1 in N. destruct t; set_solver. }
  destruct I as [I1 I2 I3 I4 I5 I6]. split.
  - apply (mutex_keep s); [done..|]. intros [u|]; cbn; [|rewrite Hpc; by destruct t].
    destruct (decide (u = t)) as [->|]; [by rewrite Ht|done].
  - intros u. destruct (decide (u = t)) as [->|N].
    + specialize (I2 t). unfold worker_ok in *. rewrite Ht in I2. cbn [workers set_main set_worker]. by rewrite decide_True.
    + apply (worker_quiet s _ [Created t true]); try done. cbn. by rewrite decide_False.
  - unfold main_ok. cbn [main set_main]. assert (P : played (log s ++ [Created t true]) = []) by by rewrite played_app, M2.
    assert (C : forall u, u ∈ before t \/ u = t <-> (if decide (u = t) then WTop 0 else workers s u) <> WNone).
    { intros u. destruct (decide (u = t)) as [->|]; [naive_solver|]. rewrite <- M1. naive_solver. }
    destruct t; cbn [after_create]; cbn [workers set_main set_worker add_log log]; (split; [|first [done | (split; [done|cbn; lia])]]); intros u; specialize (C u); cbn [workers set_main set_worker add_log]; rewrite <- C; destruct u; set_solver.
  - intros u i Hr. by apply done_app, I4.
  - cbn. intros X. by rewrite fault_free_app, (I5 X).
  - by apply log_snoc.
Qed.

Lemma main_fails_keeps again s : inv s -> main s = MFailing again ->
  inv (set_main (if again then MFail false else MJoin PIPER false) (do_fail s)).
Proof.
  intros I Hpc. pose proof (inv_main s I) as Mn. unfold main_ok in Mn. rewrite Hpc in Mn.
  apply (thread_wakes Main s); try done.
  - unfold main_ok. destruct again; cbn [main set_main]; [done|]. split; [done|]. set_solver.
  - apply I.
  - apply (mutex_changed Main s); [apply I| |].
    + right. right. cbn. rewrite Hpc. by destruct again.
    + intros [u|] N; cbn; [by destruct (workers s u)|done].
Qed.

Lemma main_step_keeps g s s' : inv s -> main_step g s = Some s' -> inv s'.
Proof.
  intros I Hs. pose proof (inv_main s I) as W. unfold main_step in Hs. unfold main_ok in W.
  assert (L : log s = log s ++ []) by by rewrite app_nil_r.
  destruct (main s) as [t|i|i|i|i|i|i|a|a|t r|r] eqn:Hpc; try discriminate.
  - injection Hs as <-. destruct g; [by apply create_keeps|].
    apply (main_moved _ (mutex s) (log s ++ [Created t false]) [Created t false] s); try done; [|..].
    + left. rewrite Hpc. by destruct t.
    + unfold main_ok. cbn [main log]. destruct t; rewrite fault_free_app; apply andb_false_r.
    + by apply log_create.
  - injection Hs as <-. apply (main_moved _ (mutex s) (log s) [] s); try done; [| |apply I].
    + left. rewrite Hpc. by case_match.
    + unfold main_ok. cbn [main items]. destruct (Nat.ltb_spec i (length (items s))); [by split|]. destruct W as (W1 & W2 & W3).
      split; [|set_solver]. split; [done|]. cbn [log items]. rewrite W2. f_equal. lia.
  - eapply main_locks; try done; rewrite ?Hpc; try done. intros s1 E1 E2 E3 E4 E5. unfold main_ok, playing, created. by rewrite E5, E1, E3, E4.
  - injection Hs as <-. apply (main_moved _ None (log s) [] s); try done; [| |apply I].
    + right. right. rewrite Hpc. split_and!; [done..|]. by repeat case_match.
    + unfold main_ok. cbn [main log]. destruct (must_wait_main i s) eqn:E; [by split|]. destruct (failed s) eqn:E'; [by apply I|].
      split; [done|]. unfold must_wait_main in E. rewrite E' in E.
      change (ready SOX i s = true /\ ready ENVELOPE i s = true). by destruct (ready SOX i s), (ready ENVELOPE i s).
  - eapply main_locks; try done; rewrite ?Hpc; try done. intros s1 E1 E2 E3 E4 E5. unfold main_ok, playing, created. by rewrite E5, E1, E3, E4.
  - injection Hs as <-. destruct W as [[(W1 & W2 & W3) W4] [W5 W6]].
    apply (main_moved _ (mutex s) (log s ++ [Played i g]) [Played i g] s); try done.
    + left. rewrite Hpc. by destruct g.
    + unfold main_ok. cbn [main log]. destruct g; [|rewrite fault_free_app; apply andb_false_r].
      split; [done|]. cbn [log items]. split; [|lia]. rewrite played_app, W2, seq_S. done.
    + apply log_snoc; [apply I|]. split_and!; [by apply I..|done].
  - eapply main_locks; try done; rewrite ?Hpc; try done. intros s1 E1 E2 E3 E4 E5. unfold main_ok. by rewrite E5, E3.
  - injection Hs as <-. by apply main_fails_keeps.
  - destruct W as [W1 W2]. assert (Ht : finished t s /\ s' = set_main (after_join t r) s).
    { unfold finished. destruct (workers s t); naive_solver. }
    destruct Ht as [Ht ->]. apply (main_moved _ (mutex s) (log s) [] s); try done; [| |apply I].
    + left. rewrite Hpc. by destruct t.
    + assert (F : forall u, u ∈ before t \/ u = t -> finished u s) by (intros u [Hu| ->]; auto).
      unfold main_ok. destruct t; cbn [after_join main]; (split; [done|]); intros u; [intros Hu..|]; apply F; destruct u; set_solver.
Qed.

Lemma step_keeps remote a s s' : inv s -> step remote a s = Some s' -> inv s'.
Proof.
  intros I. assert (L : log s = log s ++ []) by by rewrite app_nil_r.
  destruct a as [[t|] r g|[t|]]; cbn [step]; [apply worker_step_keeps, I|apply main_step_keeps, I|..].
  - destruct (workers s t) as [| | | |i| | | | | | |] eqn:Hpc; try discriminate. intros [= <-].
    pose proof (inv_worker s I t) as W. unfold worker_ok in W. rewrite Hpc in W.
    apply (worker_moved t (WWake i) (mutex s) (log s) [] s); try done; [| | |apply I].
    + unfold finished. rewrite Hpc. naive_solver.
    + left. by rewrite Hpc.
    + unfold worker_ok. cbn [workers]. rewrite decide_True by done. apply W.
  - destruct (main s) as [| | | |i| | | | | |] eqn:Hpc; try discriminate. intros [= <-].
    pose proof (inv_main s I) as W. unfold main_ok in W. rewrite Hpc in W.
    apply (main_moved (MWake i) (mutex s) (log s) [] s); try done; [|apply W|apply I]. left. by rewrite Hpc.
Qed.

Lemma start_inv count : inv (start count).
Proof.
  assert (R : forall t i, ready t i (start count) = false).
  { intros t i. unfold ready. cbn [items start]. destruct (replicate count _ !! i) as [it|] eqn:E; [|done].
    apply lookup_replicate in E as [-> _]. by destruct t. }
  split.
  - by intros [u|].
  - intros t. split; [lia|]. intros j. by rewrite R.
  - split; [|done]. intros u. split; [set_solver|done].
  - intros t i. by rewrite R.
  - done.
  - constructor.
Qed.

Lemma run_keeps remote l : forall s s', inv s -> run_actions remote l s = Some s' -> inv s'.
Proof.
  induction l as [|a l IH]; intros s s' I; cbn [run_actions]; [by intros [= <-]|].
  intros (s1 & E & R)%bind_Some. apply (IH s1); [|done]. by apply (step_keeps remote a s).
Qed.

(** ** Some thread can always move *)

Lemma worker_can_move remote t s : mutex s = None -> (forall r g, is_Some (worker_step remote t r g s))
  \/ workers s t = WNone \/ workers s t = WDone \/ exists i, workers s t = WSleep i.
Proof.
  intros M. unfold worker_step, acquire. rewrite M. destruct (workers s t); eauto; left; intros r g; try done.
  by destruct (stage_outcome remote t r g).
Qed.

Lemma main_can_move s : mutex s = None -> (forall g, is_Some (main_step g s))
  \/ (exists i, main s = MSleep i) \/ (exists t r, main s = MJoin t r /\ ~ finished t s) \/ exists r, main s = MExit r.
Proof.
  intros M. unfold main_step, acquire. rewrite M. destruct (main s) as [t|i|i|i|i|i|i|a|a|t r|r]; eauto; try by left.
  unfold finished. destruct (workers s t) eqn:E; eauto; right; right; left; exists t, r; rewrite E; naive_solver.
Qed.

(** When nothing has failed and no worker can move, all of them are done. *)
Lemma workers_complete remote s : inv s -> mutex s = None -> created s -> failed s = false ->
  (exists th, forall r g, is_Some (step remote (Turn th r g) s)) \/ forall t i, i < length (items s) -> ready t i s = true.
Proof.
  intros I M C F.
  assert (D : forall t, workers s t = WDone -> forall i, i < length (items s) -> ready t i s = true).
  { intros t Ht i Hi. pose proof (inv_worker s I t) as W. unfold worker_ok in W. rewrite Ht in W.
    destruct W as (p & [_ W] & [-> |X]); [|congruence]. rewrite W. by apply Nat.ltb_lt. }
  assert (Z : forall t i, workers s t = WSleep i -> i < length (items s) /\ ready PIPER i s = false /\ t <> PIPER).
  { intros t i Ht. pose proof (inv_worker s I t) as W. unfold worker_ok in W. rewrite Ht in W. destruct W as [[_ W1] W2].
    unfold must_wait in W2. rewrite F in W2. destruct t; [done|..]; by destruct (ready PIPER i s). }
  destruct (worker_can_move remote PIPER s M) as [X|[X|[X|[i X]]]]; [left; by exists (Worker PIPER)|by apply C in X| |by apply Z in X as (_ & _ & ?)].
  assert (A : forall t, (forall r g, is_Some (worker_step remote t r g s)) \/ workers s t = WDone).
  { intros t. destruct (worker_can_move remote t s M) as [Y|[Y|[Y|[i Y]]]]; [by left|by apply C in Y|by right|].
    apply Z in Y as (Y1 & Y2 & _). rewrite (D PIPER X i Y1) in Y2. done. }
  destruct (A SOX) as [Y|Y]; [left; by exists (Worker SOX)|]. destruct (A ENVELOPE) as [Y'|Y']; [left; by exists (Worker ENVELOPE)|].
  right. intros []; by apply D.
Qed.

Lemma progress remote s : inv s -> (exists r, main s = MExit r) \/ exists th, forall r g, is_Some (step remote (Turn th r g) s).
Proof.
  intros I. destruct (mutex s) as [th|] eqn:M.
  { apply (inv_mutex s I) in M. right. exists th. intros r g. destruct th as [t|]; cbn [holds step] in *.
    - unfold worker_step. by destruct (workers s t).
    - unfold main_step. by destruct (main s). }
  pose proof (inv_main s I) as W. unfold main_ok in W.
  destruct (main_can_move s M) as [X|[[i X]|[(t & r & X & N)|X]]]; [right; by exists Main| | |by left]; right; rewrite X in W.
  - destruct W as [[(C & _ & _) Hi] W]. unfold must_wait_main in W. apply andb_true_iff in W as [W F]. apply negb_true_iff in F.
    destruct (workers_complete remote s I M C F) as [Y|Y]; [done|]. by rewrite !Y in W.
  - destruct W as [E _]. destruct r; [|].
    + destruct (failed s) eqn:F; [|destruct (workers_complete remote s I M (proj1 E) F) as [Y|Y]; [done|]].
      all: destruct (worker_can_move remote t s M) as [Z|[Z|[Z|[i Z]]]]; [by exists (Worker t)|destruct N; by left|destruct N; by right|].
      all: pose proof (inv_worker s I t) as V; unfold worker_ok in V; rewrite Z in V; destruct V as [[_ V1] V2]; unfold must_wait in V2.
      * destruct t; [done|..]; by rewrite F, andb_false_r in V2.
      * destruct t; [done|..]; by rewrite Y in V2.
    + destruct (worker_can_move remote t s M) as [Z|[Z|[Z|[i Z]]]]; [by exists (Worker t)|destruct N; by left|destruct N; by right|].
      pose proof (inv_worker s I t) as V. unfold worker_ok in V. rewrite Z in V. destruct V as [_ V]. unfold must_wait in V.
      cbn [ended] in E. destruct t; [done|..]; by rewrite E, andb_false_r in V.
Qed.

(** ** Every schedule ends *)

(** The wake-ups still to come, and the steps left until the next one. *)
Definition worker_broadcasts (n : nat) (pc : worker_pc) : nat :=
  match pc with
  | WNone => n + 1
  | WTop i | WLock i | WCheck i | WSleep i | WWake i | WRun i | WPublish i | WPublishing i => n - i + 1
  | WFail | WFailing => 1
  | WDone => 0
  end.
Definition worker_local (n : nat) (pc : worker_pc) : nat :=
  match pc with
  | WNone => 10 * n + 10 | WTop i => 10 * (n - i) + 9 | WLock i | WWake i => 10 * (n - i) + 8 | WCheck i => 10 * (n - i) + 7
  | WSleep i => 10 * (n - i) + 6 | WRun i => 10 * (n - i) + 5 | WPublish i => 10 * (n - i) + 4 | WPublishing i => 10 * (n - i) + 3
  | WFail => 2 | WFailing => 1 | WDone => 0
  end.
Definition main_broadcasts (pc : main_pc) : nat :=
  match pc with MFail false | MFailing false => 1 | MJoin _ _ | MExit _ => 0 | _ => 2 end.
Definition main_local (n : nat) (pc : main_pc) : nat :=
  match pc with
  | MCreate PIPER => 10 * n + 21 | MCreate SOX => 10 * n + 20 | MCreate ENVELOPE => 10 * n + 19
  | MTop i => 10 * (n - i) + 18 | MLock i | MWake i => 10 * (n - i) + 17 | MCheck i => 10 * (n - i) + 16
  | MSleep i => 10 * (n - i) + 15 | MPlay i => 10 * (n - i) + 14
  | MFail true => 8 | MFailing true => 7 | MFail false => 6 | MFailing false => 5
  | MJoin PIPER _ => 3 | MJoin SOX _ => 2 | MJoin ENVELOPE _ => 1 | MExit _ => 0
  end.

Definition worker_weight (n : nat) (pc : worker_pc) : nat := 9 * worker_broadcasts n pc + worker_local n pc.
Definition main_weight (n : nat) (pc : main_pc) : nat := 9 * main_broadcasts pc + main_local n pc.
Definition weight (s : pipeline) : nat :=
  let n := length (items s) in
  worker_weight n (workers s PIPER) + worker_weight n (workers s SOX) + worker_weight n (workers s ENVELOPE) + main_weight n (main s).

Ltac weigh := cbn [worker_broadcasts worker_local main_broadcasts main_local after_create after_join wake wake_main]; lia.

Lemma wake_weight n pc : worker_weight n (wake pc) <= worker_weight n pc + 2.
Proof. destruct pc; unfold worker_weight; weigh. Qed.

Lemma wake_main_weight n pc : main_weight n (wake_main pc) <= main_weight n pc + 2.
Proof. destruct pc; unfold main_weight; weigh. Qed.

Section weights.
Context (s s' : pipeline) (same_length : length (items s') = length (items s)).

Lemma weight_worker t : (forall u, u <> t -> workers s' u = workers s u) -> main s' = main s ->
  weight s' + worker_weight (length (items s)) (workers s t) = weight s + worker_weight (length (items s)) (workers s' t).
Proof. intros H M. unfold weight. rewrite same_length, M. destruct t; rewrite ?(H PIPER), ?(H SOX), ?(H ENVELOPE) by done; lia. Qed.

Lemma weight_main : (forall u, workers s' u = workers s u) ->
  weight s' + main_weight (length (items s)) (main s) = weight s + main_weight (length (items s)) (main s').
Proof. intros H. unfold weight. rewrite same_length, !H. lia. Qed.

Lemma weight_worker_wakes t : (forall u, u <> t -> workers s' u = wake (workers s u)) -> main s' = wake_main (main s) ->
  weight s' + worker_weight (length (items s)) (workers s t) <= weight s + worker_weight (length (items s)) (workers s' t) + 6.
Proof.
  intros H M. pose proof (fun u => wake_weight (length (items s)) (workers s u)) as K. pose proof (wake_main_weight (length (items s)) (main s)).
  unfold weight. rewrite same_length, M. pose proof (K PIPER). pose proof (K SOX). pose proof (K ENVELOPE). destruct t; rewrite ?(H PIPER), ?(H SOX), ?(H ENVELOPE) by done; lia.
Qed.

Lemma weight_main_wakes : (forall u, workers s' u = wake (workers s u)) ->
  weight s' + main_weight (length (items s)) (main s) <= weight s + main_weight (length (items s)) (main s') + 6.
Proof.
  intros H. pose proof (fun u => wake_weight (length (items s)) (workers s u)) as K.
  unfold weight. rewrite same_length, !H. pose proof (K PIPER). pose proof (K SOX). pose proof (K ENVELOPE). lia.
Qed.
End weights.

Definition index_of (pc : worker_pc) : option nat :=
  match pc with
  | WLock i | WCheck i | WSleep i | WWake i | WRun i | WPublish i | WPublishing i => Some i
  | _ => None
  end.

Lemma worker_index t i s : inv s -> index_of (workers s t) = Some i -> i < length (items s).
Proof.
  intros I Hi. pose proof (inv_worker s I t) as W. unfold worker_ok, at_index in W.
  destruct (workers s t); try discriminate; injection Hi as ->; tauto.
Qed.

Lemma worker_step_weight remote t r g s s' : inv s -> worker_step remote t r g s = Some s' -> weight s' < weight s.
Proof.
  intros I Hs. pose proof (fun i => worker_index t i s I) as Hi. unfold worker_step in Hs.
  assert (Q : forall pc m f l, s' = Pipeline (items s) f m (fun u => if decide (u = t) then pc else workers s u) (main s) l ->
    worker_weight (length (items s)) pc < worker_weight (length (items s)) (workers s t) -> weight s' < weight s).
  { intros pc m f l -> H. pose proof (weight_worker s (Pipeline (items s) f m (fun u => if decide (u = t) then pc else workers s u) (main s) l) eq_refl t) as K.
    cbn [workers items main] in K. rewrite decide_True in K by done. specialize (K ltac:(intros u N; by rewrite decide_False) eq_refl). lia. }
  assert (B : forall pc q, s' = set_worker t pc q -> length (items q) = length (items s) -> (forall u, workers q u = wake (workers s u)) ->
    main q = wake_main (main s) -> worker_weight (length (items s)) pc + 6 < worker_weight (length (items s)) (workers s t) -> weight s' < weight s).
  { intros pc q -> E W M H. pose proof (weight_worker_wakes s (set_worker t pc q) E t) as K. cbn [workers set_worker main] in K.
    rewrite decide_True in K by done. specialize (K ltac:(intros u N; by rewrite decide_False) M). lia. }
  destruct (workers s t) as [|i|i|i|i|i|i|i|i| | |] eqn:Hpc; try discriminate;
    try (specialize (Hi i eq_refl)).
  - injection Hs as E. eapply Q; [by symmetry|]. destruct (Nat.ltb_spec i (length (items s))); unfold worker_weight; weigh.
  - apply fmap_Some in Hs as (s1 & A & ->). apply acquire_Some in A as [_ ->]. eapply Q; [done|]. unfold worker_weight; weigh.
  - injection Hs as E. eapply Q; [by symmetry|]. repeat case_match; unfold worker_weight; weigh.
  - apply fmap_Some in Hs as (s1 & A & ->). apply acquire_Some in A as [_ ->]. eapply Q; [done|]. unfold worker_weight; weigh.
  - destruct (stage_outcome remote t r g) as [b []]; injection Hs as E; (eapply Q; [by symmetry|]); unfold worker_weight; weigh.
  - apply fmap_Some in Hs as (s1 & A & ->). apply acquire_Some in A as [_ ->]. eapply Q; [done|]. unfold worker_weight; weigh.
  - injection Hs as E. eapply B; [by symmetry|cbn; by rewrite length_alter|done|done|]. unfold worker_weight; weigh.
  - apply fmap_Some in Hs as (s1 & A & ->). apply acquire_Some in A as [_ ->]. eapply Q; [done|]. unfold worker_weight; weigh.
  - injection Hs as E. eapply B; [by symmetry|done|done|done|]. unfold worker_weight; weigh.
Qed.

Lemma main_step_weight g s s' : inv s -> main_step g s = Some s' -> weight s' < weight s.
Proof.
  intros I Hs. pose proof (inv_main s I) as W. unfold main_step in Hs. unfold main_ok in W.
  assert (Q : forall pc m l, s' = Pipeline (items s) (failed s) m (workers s) pc l ->
    main_weight (length (items s)) pc < main_weight (length (items s)) (main s) -> weight s' < weight s).
  { intros pc m l -> H. pose proof (weight_main s (Pipeline (items s) (failed s) m (workers s) pc l) eq_refl ltac:(done)) as K. cbn [main] in K. lia. }
  destruct (main s) as [t|i|i|i|i|i|i|a|a|t r|r] eqn:Hpc; try discriminate.
  - injection Hs as <-. destruct g; [|eapply Q; [done|]; unfold main_weight; destruct t; weigh].
    destruct W as [W _]. assert (Ht : workers s t = WNone).
    { destruct (decide (workers s t = WNone)) as [|N]; [done|]. apply W in N. destruct t; set_solver. }
    unfold weight. rewrite Hpc. cbn [set_main set_worker add_log workers main items].
    destruct t; repeat (case_decide; try done); rewrite Ht; unfold main_weight, worker_weight; weigh.
  - injection Hs as E. eapply Q; [by symmetry|]. destruct (Nat.ltb_spec i (length (items s))); unfold main_weight; weigh.
  - apply fmap_Some in Hs as (s1 & A & ->). apply acquire_Some in A as [_ ->]. eapply Q; [done|]. unfold main_weight; weigh.
  - injection Hs as E. eapply Q; [by symmetry|]. repeat case_match; unfold main_weight; weigh.
  - apply fmap_Some in Hs as (s1 & A & ->). apply acquire_Some in A as [_ ->]. eapply Q; [done|]. unfold main_weight; weigh.
  - injection Hs as E. eapply Q; [by symmetry|]. destruct g; unfold main_weight; weigh.
  - apply fmap_Some in Hs as (s1 & A & ->). apply acquire_Some in A as [_ ->]. eapply Q; [done|]. destruct a; unfold main_weight; weigh.
  - injection Hs as <-. pose proof (weight_main_wakes s (set_main (if a then MFail false else MJoin PIPER false) (do_fail s)) eq_refl ltac:(done)) as K.
    rewrite Hpc in K. cbn [main set_main] in K. revert K. destruct a; unfold main_weight; weigh.
  - destruct (workers s t); try discriminate; injection Hs as E; (eapply Q; [by symmetry|]); destruct t; unfold main_weight; weigh.
Qed.

Definition turn (a : action) : bool := match a with Turn _ _ _ => true | Spurious _ => false end.
Definition turns (l : list action) : nat := length (List.filter turn l).
Definition wakeups (l : list action) : nat := length (List.filter (fun a => negb (turn a)) l).

Lemma spurious_weight remote th s s' : inv s -> step remote (Spurious th) s = Some s' -> weight s' <= weight s + 2.
Proof.
  intros I. destruct th as [t|]; cbn [step].
  - destruct (workers s t) as [| | | |i| | | | | | |] eqn:Hpc; try discriminate. intros [= <-].
    pose proof (weight_worker s (set_worker t (WWake i) s) eq_refl t ltac:(intros u N; cbn; by rewrite decide_False) eq_refl) as K.
    cbn [workers set_worker] in K. rewrite decide_True, Hpc in K by done. revert K. unfold worker_weight. weigh.
  - destruct (main s) as [| | | |i| | | | | |] eqn:Hpc; try discriminate. intros [= <-].
    pose proof (weight_main s (set_main (MWake i) s) eq_refl ltac:(done)) as K. cbn [main set_main] in K. rewrite Hpc in K.
    revert K. unfold main_weight. weigh.
Qed.

Lemma run_weight remote l : forall s s', inv s -> run_actions remote l s = Some s' -> turns l + weight s' <= weight s + 2 * wakeups l.
Proof.
  induction l as [|a l IH]; intros s s' I; cbn [run_actions]; [intros [= <-]; cbn; lia|].
  intros (s1 & E & R)%bind_Some. specialize (IH s1 s' (step_keeps remote a s s1 I E) R). unfold turns, wakeups in *. cbn [List.filter].
  destruct a as [th r g|th]; cbn [turn negb length].
  - assert (weight s1 < weight s); [|lia]. destruct th; [by eapply worker_step_weight|by eapply main_step_weight].
  - pose proof (spurious_weight remote th s s1 I E). lia.
Qed.

Lemma step_length remote a s s' : step remote a s = Some s' -> length (items s') = length (items s).
Proof.
  assert (A : forall th q, acquire th s = Some q -> length (items q) = length (items s)) by (intros th q H; by apply acquire_Some in H as [_ ->]).
  destruct a as [[t|] r g|[t|]]; cbn [step]; [unfold worker_step|unfold main_step|..].
  - destruct (workers s t); try discriminate; try (by intros [= <-]);
      try (intros (q & H & ->)%fmap_Some; by apply (A _ _ H)).
    + destruct (stage_outcome remote t r g). by intros [= <-].
    + intros [= <-]. cbn. by rewrite length_alter.
  - destruct (main s); try discriminate; try (by intros [= <-]); try (intros (q & H & ->)%fmap_Some; by apply (A _ _ H)).
    + destruct g; by intros [= <-].
    + destruct (workers s _); try discriminate; by intros [= <-].
  - destruct (workers s t); try discriminate. by intros [= <-].
  - destruct (main s); try discriminate. by intros [= <-].
Qed.

Lemma run_length remote l : forall s s', run_actions remote l s = Some s' -> length (items s') = length (items s).
Proof.
  induction l as [|a l IH]; intros s s'; cbn [run_actions]; [by intros [= <-]|].
  intros (s1 & E & R)%bind_Some. rewrite (IH s1 s' R). by eapply step_length.
Qed.

(** ** What the pipeline promises *)

(** C22: speech ends under every schedule: with [count] sentences the threads take at
    most 67 steps per sentence and 96 more, and two for each wake-up without a
    reason, whatever stages, playback and thread creation return; and until the main
    thread exits, some thread can take its next step, so no wake-up is lost and no
    two threads wait for each other. *)
Theorem speech_ends (remote : stage -> bool) (count : nat) (l : list action) (s : pipeline) :
  run_actions remote l (start count) = Some s ->
  turns l <= 67 * count + 96 + 2 * wakeups l
  /\ ((exists result, main s = MExit result) \/ exists th, forall remote_ok good, is_Some (step remote (Turn th remote_ok good) s)).
Proof.
  intros R. pose proof (start_inv count) as I. split; [|apply progress; by eapply run_keeps].
  apply run_weight in R; [|done]. unfold weight in R. cbn [start items workers main] in R. rewrite length_replicate in R.
  revert R. unfold worker_weight, main_weight. weigh.
Qed.

(** C23: whatever the schedule, effects and analysis of a sentence run after its
    synthesis, a sentence is played after both and after every earlier sentence,
    exit with success means that all sentences were played in order, exit with
    failure that a stage, a playback or a thread creation failed; and at the exit,
    when the shared memory is freed, no worker is left that could use it. *)
Theorem speech_in_order (remote : stage -> bool) (count : nat) (l : list action) (s : pipeline) :
  run_actions remote l (start count) = Some s ->
  log_ok (log s)
  /\ (main s = MExit true -> played (log s) = seq 0 count)
  /\ (main s = MExit false -> fault_free (log s) = false)
  /\ (forall result t, main s = MExit result -> finished t s).
Proof.
  intros R. pose proof (run_keeps remote l _ _ (start_inv count) R) as I.
  assert (N : length (items s) = count) by (rewrite (run_length remote l _ _ R); apply length_replicate).
  pose proof (inv_main s I) as W. unfold main_ok in W. split_and!; [apply I| | |].
  - intros E. rewrite E in W. destruct W as [[_ W] _]. by rewrite N in W.
  - intros E. rewrite E in W. apply I, W.
  - intros r t E. rewrite E in W. apply W.
Qed.

(** ** An example *)

(** A schedule that always lets the first thread that can move take its step. *)
Definition movable (remote : stage -> bool) (s : pipeline) : option thread :=
  List.find (fun th => match step remote (Turn th true true) s with Some _ => true | None => false end)
    [Main; Worker ENVELOPE; Worker SOX; Worker PIPER].

Fixpoint schedule_turns (remote : stage -> bool) (fuel : nat) (s : pipeline) : list action :=
  match fuel, movable remote s with
  | S fuel, Some th =>
      match step remote (Turn th true true) s with
      | Some s1 => Turn th true true :: schedule_turns remote fuel s1
      | None => []
      end
  | _, _ => []
  end.

(** Two sentences, the synthesis on another machine; the others go to sleep first
    and one of them is woken without a reason. *)
Definition remote_piper (t : stage) : bool := bool_decide (t = PIPER).
Definition example_actions : list action := Eval vm_compute in
  let first := schedule_turns remote_piper 15 (start 2) ++ [Spurious Main] in
  first ++ match run_actions remote_piper first (start 2) with Some s => schedule_turns remote_piper 100 s | None => [] end.

Lemma example_exits : main <$> run_actions remote_piper example_actions (start 2) = Some (MExit true).
Proof. vm_compute. reflexivity. Qed.

Lemma speech_ends_witness :
  turns example_actions <= 67 * 2 + 96 + 2 * wakeups example_actions /\ turns example_actions = 78.
Proof.
  destruct (proj1 (fmap_Some _ _ _) example_exits) as (s & R & _). split; [exact (proj1 (speech_ends remote_piper 2 example_actions s R))|vm_compute; reflexivity].
Defined.

Lemma speech_in_order_witness :
  exists s, run_actions remote_piper example_actions (start 2) = Some s /\ main s = MExit true /\ played (log s) = [0; 1] /\ log_ok (log s).
Proof.
  destruct (proj1 (fmap_Some _ _ _) example_exits) as (s & R & E). symmetry in E. destruct (speech_in_order remote_piper 2 example_actions s R) as (A & B & _).
  exists s. split_and!; [exact R|exact E|exact (B E)|exact A].
Defined.
End RosePipeline.

(** * Speech: the text and its sentences

    The part of rose_voice.c that turns the arguments into sentences.  The
    sentences are the text cut behind full stops, question and exclamation marks,
    with the blanks between them left out and nothing else lost; together with the
    pipeline, what is played at the end is the whole text, in order. *)

Open Scope Z_scope.

Module RoseVoice.
Import RosePipeline.

(** [getenv]: the value of a variable, if it is set. *)
Definition env_or_default (value : option bytes) (fallback : bytes) : bytes :=
  match value with Some (c :: v) => c :: v | _ => fallback end.

(** [argv] from its second element on. *)
Fixpoint join_arguments (arguments : list bytes) : bytes :=
  match arguments with
  | [] => []
  | [part] => part
  | part :: rest => part ++ [SP] ++ join_arguments rest
  end.

(** Blanks as the splitter knows them. *)
Definition blank (c : byte) : bool := (c =? SP) || (c =? TAB) || (c =? CR) || (c =? NL).
Definition closes (c : byte) : bool := (c =? 46) || (c =? 63) || (c =? 33).

(** The inner loop: the sentence that starts here, up to a mark that is followed by
    a blank or the end, and what stands behind it. *)
Fixpoint take_sentence (text : bytes) : bytes * bytes :=
  match text with
  | [] => ([], [])
  | c :: rest =>
      if closes c && match rest with [] => true | n :: _ => blank n end then ([c], rest)
      else let '(sentence, behind) := take_sentence rest in (c :: sentence, behind)
  end.

Definition skip_blanks (text : bytes) : bytes := (span (fun c => negb (blank c)) text).2.

(** The outer loop; a turn takes at least one byte. *)
Fixpoint split_loop (fuel : nat) (text : bytes) : list bytes :=
  match fuel, skip_blanks text with
  | S fuel, c :: rest => let '(sentence, behind) := take_sentence (c :: rest) in sentence :: split_loop fuel behind
  | _, _ => []
  end.

Definition split_sentences (text : bytes) : list bytes := split_loop (length text) text.

(** [sscanf(value, "%u,%u,%u", ...) == 3] with all three at most 255; [%u] stores the
    value reduced to 32 bits. *)
Definition scan_u32 (text : bytes) : option (Z * bytes) :=
  '(v, rest) ← strtoul text; Some (v mod 2 ^ 32, rest).

Definition parse_hue_color (value : option bytes) : Z * Z * Z :=
  let text := env_or_default value (str "40,255,100") in
  let parsed :=
    '(r, rest) ← scan_u32 text;
    rest ← scan_lit (str ",") rest;
    '(g, rest) ← scan_u32 rest;
    rest ← scan_lit (str ",") rest;
    '(b, _) ← scan_u32 rest;
    Some (r, g, b) in
  match parsed with
  | Some (r, g, b) => if (r <=? 255) && (g <=? 255) && (b <=? 255) then (r, g, b) else (40, 255, 100)
  | None => (40, 255, 100)
  end.

(** What [main] makes of its arguments before any thread exists; [None] is the exit
    with failure. *)
Definition prepare (arguments : list bytes) : option (list bytes) :=
  match arguments with
  | [] => None
  | _ =>
      match join_arguments arguments with
      | [] => None
      | text => match split_sentences text with [] => None | sentences => Some sentences end
      end
  end.

(** ** What a split is *)

(** Sentences with the blanks before each and after the last. *)
Fixpoint spaced (gaps sentences : list bytes) : bytes :=
  match gaps, sentences with
  | g :: gaps, s :: sentences => g ++ s ++ spaced gaps sentences
  | g :: _, [] => g
  | [], _ => []
  end.

Definition blanks (gap : bytes) : Prop := Forall (fun c => blank c = true) gap.

(** A mark followed by a blank ends a sentence, so there is none inside one. *)
Fixpoint open_text (text : bytes) : Prop :=
  match text with
  | c :: ((n :: _) as rest) => (closes c = true -> blank n = false) /\ open_text rest
  | _ => True
  end.

Definition ends_closed (s : bytes) : Prop := exists s' c, s = s' ++ [c] /\ closes c = true.

Record sentence (s : bytes) : Prop := {
  sentence_first : match s with c :: _ => blank c = false | [] => False end;
  sentence_inside : open_text s }.

Lemma take_sentence_app text : let '(s, behind) := take_sentence text in text = s ++ behind.
Proof.
  induction text as [|c rest IH]; [done|]. cbn [take_sentence]. destruct (closes c && _); [done|].
  destruct (take_sentence rest) as [s b]. cbn. by rewrite IH.
Qed.

Lemma take_sentence_first c rest : exists s, (take_sentence (c :: rest)).1 = c :: s.
Proof. cbn [take_sentence]. destruct (closes c && _); [by eexists|]. destruct (take_sentence rest). by eexists. Qed.

(** The cut is behind a mark and before a blank, or at the end. *)
Lemma take_sentence_cut text : let '(s, behind) := take_sentence text in
  open_text s /\ (behind = [] \/ (ends_closed s /\ match behind with n :: _ => blank n = true | [] => True end)).
Proof.
  induction text as [|c rest IH]; [by split; [|left]|]. cbn [take_sentence]. destruct (closes c) eqn:Ec; cbn [andb].
  - destruct rest as [|n rest']; [by split; [|left]|]. destruct (blank n) eqn:En.
    + split; [done|]. right. split; [by exists [], c|done].
    + pose proof (take_sentence_first n rest') as [s' E']. destruct (take_sentence (n :: rest')) as [s b]. cbn [fst] in E'. subst s.
      destruct IH as [A B]. split; [split; [by rewrite En|done]|]. destruct B as [->|[(q & m & -> & Hm) B]]; [by left|].
      right. split; [|done]. by exists (c :: q), m.
  - destruct (take_sentence rest) as [s b]. destruct IH as [A B]. split.
    + destruct s as [|n s]; [done|]. split; [congruence|done].
    + destruct B as [->|[(q & m & -> & Hm) B]]; [by left|]. right. split; [|done]. by exists (c :: q), m.
Qed.

Lemma skip_blanks_spec text : exists gap, text = gap ++ skip_blanks text /\ blanks gap
  /\ match skip_blanks text with c :: _ => blank c = false | [] => True end.
Proof.
  unfold skip_blanks, blanks. induction text as [|c rest IH]; [exists []; by split_and!|]. cbn [span].
  destruct (blank c) eqn:E; cbn [negb].
  - destruct IH as (gap & A & B & C). destruct (span _ rest) as [p q]. cbn [snd] in *. exists (c :: gap). subst rest.
    split_and!; [done|by constructor|done].
  - exists []. split_and!; [done|done|]. cbn. done.
Qed.

(** The sentences of a text with what lies between them: a sentence is followed by
    blanks unless it is the last, and only one that ends with a mark is. *)
Definition split_of (text : bytes) (gaps sentences : list bytes) : Prop :=
  text = spaced gaps sentences /\ length gaps = S (length sentences) /\ Forall blanks gaps /\ Forall sentence sentences
  /\ forall i s g, sentences !! i = Some s -> gaps !! S i = Some g ->
       (g <> [] -> ends_closed s) /\ ((S i < length sentences)%nat -> g <> []).

Lemma spaced_nil g gaps l : [] = spaced (g :: gaps) l -> g = [].
Proof. destruct l; cbn; [done|]. intros E. symmetry in E. by apply app_nil in E as [-> _]. Qed.

Lemma split_loop_spec fuel text : (length text <= fuel)%nat -> exists gaps, split_of text gaps (split_loop fuel text).
Proof.
  revert text. induction fuel as [|fuel IH]; intros text Hf.
  { destruct text; [|cbn in Hf; lia]. exists [[]]. by split_and!; repeat constructor. }
  destruct (skip_blanks_spec text) as (gap & E & G & F). cbn [split_loop]. destruct (skip_blanks text) as [|c rest] eqn:Es.
  { exists [gap]. rewrite app_nil_r in E. split_and!; [by rewrite E|done|by repeat constructor|done|done]. }
  pose proof (take_sentence_app (c :: rest)) as A. pose proof (take_sentence_cut (c :: rest)) as Cut.
  destruct (take_sentence_first c rest) as [s' Es']. destruct (take_sentence (c :: rest)) as [s behind]. cbn [fst] in Es'. subst s.
  destruct Cut as [Op Cut]. destruct (IH behind) as (gaps & S1 & S2 & S3 & S4 & S5).
  { rewrite E, A, !length_app in Hf. cbn [length] in Hf. lia. }
  exists (gap :: gaps). split_and!.
  - rewrite E, A, S1 at 1. done.
  - cbn. by rewrite S2.
  - by constructor.
  - constructor; [by split|done].
  - intros [|i] s g Hs Hg; [|cbn [length]; destruct (S5 i s g Hs Hg) as [B1 B2]; split; [done|intros; apply B2; lia]].
    injection Hs as <-. cbn in Hg. destruct gaps as [|g' gaps]; [done|]. injection Hg as ->. cbn [length]. split.
    + intros Hg. destruct Cut as [->|[Cl _]]; [|done]. by apply spaced_nil in S1.
    + intros Hi ->. destruct (split_loop fuel behind) as [|[|n s2] more]; [cbn in Hi; lia|by apply Forall_cons in S4 as [[] _]|].
      cbn in S1. apply Forall_cons in S4 as [[S4 _] _]. destruct Cut as [->|[_ B]]; [done|]. rewrite S1 in B. congruence.
Qed.

(** *** The split is the only one *)

Lemma skip_blanks_gap gap text : blanks gap -> match text with c :: _ => blank c = false | [] => True end -> skip_blanks (gap ++ text) = text.
Proof.
  unfold skip_blanks. induction 1 as [|c gap Hc _ IH]; intros Ht; cbn [app].
  - destruct text as [|c text]; [done|]. cbn [span]. by rewrite Ht.
  - cbn [span]. rewrite Hc. cbn [negb]. specialize (IH Ht). by destruct (span _ (gap ++ text)).
Qed.

Lemma take_sentence_open s behind : open_text s -> s <> [] ->
  (behind = [] \/ (ends_closed s /\ match behind with n :: _ => blank n = true | [] => True end)) -> take_sentence (s ++ behind) = (s, behind).
Proof.
  induction s as [|c s IH]; intros Ho Hn Hb; [done|]. destruct s as [|n s].
  - destruct Hb as [->|[([|x q] & m & Es & Hm) Hb]]; cbn.
    + by destruct (closes c).
    + injection Es as ->. rewrite Hm. destruct behind as [|b behind]; [done|]. by rewrite Hb.
    + injection Es as _ Es. by destruct q.
  - destruct Ho as [Ho1 Ho2]. change ((c :: n :: s) ++ behind) with (c :: (n :: s) ++ behind). cbn [take_sentence]. cbn [app].
    replace (closes c && blank n) with false by (destruct (closes c); [by rewrite Ho1|done]).
    change (n :: s ++ behind) with ((n :: s) ++ behind). rewrite (IH Ho2 ltac:(done)); [done|]. destruct Hb as [->|[(q & m & Es & Hm) Hb]]; [by left|]. right. split; [|done].
    destruct q as [|x q]; [done|]. injection Es as _ Es. by exists q, m.
Qed.

Lemma split_loop_unique fuel sentences : forall text gaps, (length text <= fuel)%nat -> split_of text gaps sentences -> split_loop fuel text = sentences.
Proof.
  revert fuel. induction sentences as [|s sentences IH]; intros fuel text gaps Hf (S1 & S2 & S3 & S4 & S5).
  - destruct gaps as [|g [|]]; try done. cbn in S1. subst g. apply Forall_cons in S3 as [S3 _].
    pose proof (skip_blanks_gap text [] S3 I) as E. rewrite app_nil_r in E. destruct fuel; cbn [split_loop]; [done|]. by rewrite E.
  - destruct gaps as [|g [|g' gaps]]; try done. apply Forall_cons in S3 as [Hg S3]. apply Forall_cons in S4 as [[Hs1 Hs2] S4].
    destruct s as [|c s]; [done|]. set (behind := spaced (g' :: gaps) sentences). change (text = g ++ (c :: s) ++ behind) in S1.
    destruct fuel as [|fuel]; [rewrite S1, length_app in Hf; cbn in Hf; lia|].
    cbn [split_loop]. rewrite S1, skip_blanks_gap by done. cbn [app]. change (c :: s ++ behind) with ((c :: s) ++ behind).
    rewrite (take_sentence_open (c :: s) behind Hs2 ltac:(done)).
    + f_equal. apply (IH fuel behind (g' :: gaps)).
      * rewrite S1, !length_app in Hf. cbn [length] in Hf. lia.
      * split_and!; try done; [cbn in *; lia|]. intros i q b Hq Hb. specialize (S5 (S i) q b Hq Hb). cbn [length] in S5.
        destruct S5 as [A B]. split; [done|]. intros Hi. apply B. lia.
    + destruct (S5 0%nat (c :: s) g' eq_refl eq_refl) as [A B]. cbn [length] in B. destruct g' as [|n g'].
      * left. destruct sentences; [done|]. destruct B; [cbn; lia|done].
      * right. split; [by apply A|]. apply Forall_cons in S3 as [S3 _]. apply Forall_cons in S3 as [S3 _]. subst behind. by destruct sentences.
Qed.

(** C32: split_sentences cuts a text exactly where it should: its result is the only
    list of sentences, each starting with a visible character and without a mark
    before a blank inside, that gives back the text with blanks before, between and
    after them, where every sentence but the last is followed by blanks and only
    sentences that end with a mark are. *)
Theorem split_sentences_exact (text : bytes) (sentences : list bytes) :
  (exists gaps, split_of text gaps sentences) <-> sentences = split_sentences text.
Proof.
  split.
  - intros [gaps G]. symmetry. by apply (split_loop_unique _ _ _ gaps).
  - intros ->. by apply split_loop_spec.
Qed.

Example split_example : split_sentences (str "  Hello there.  It is 3.5 degrees!Is it? Yes ") = [str "Hello there."; str "It is 3.5 degrees!Is it?"; str "Yes "].
Proof. reflexivity. Qed.

(** ** The whole text is spoken *)

Lemma exit_played remote count l s : run_actions remote l (start count) = Some s -> main s = MExit true -> played (log s) = seq 0 count.
Proof.
  intros R E. pose proof (run_keeps remote l _ _ (start_inv count) R) as Iv. pose proof (inv_main s Iv) as W. unfold main_ok in W. rewrite E in W.
  destruct W as [[_ W] _]. rewrite W, (run_length remote l _ _ R). f_equal. apply length_replicate.
Qed.

(** when rose-voice ends with success, whatever the schedule and wherever the
    stages ran, the sentences it has played are all the sentences of the text of its
    arguments, once each and in order. *)
Theorem text_spoken (arguments sentences : list bytes) (remote : stage -> bool) (l : list action) (s : pipeline) :
  prepare arguments = Some sentences -> run_actions remote l (start (length sentences)) = Some s -> main s = MExit true ->
  (fun i => nth i sentences []) <$> played (log s) = split_sentences (join_arguments arguments).
Proof.
  intros P R E. rewrite (exit_played remote _ l s R E).
  assert (sentences = split_sentences (join_arguments arguments)) as <-.
  { unfold prepare in P. destruct arguments; [done|]. destruct (join_arguments _); [done|]. destruct (split_sentences _); [done|]. congruence. }
  apply list_eq. intros i. rewrite list_lookup_fmap. destruct (decide (i < length sentences)%nat) as [Hi|Hi].
  - rewrite lookup_seq_lt by done. cbn. rewrite nth_lookup. by destruct (lookup_lt_is_Some_2 sentences i Hi) as [x ->].
  - rewrite lookup_seq_ge, (lookup_ge_None_2 sentences) by lia. done.
Qed.

Definition two_arguments : list bytes := [str "Good"; str "morning. Rose is"; str "awake."].

Lemma text_spoken_witness :
  exists s, run_actions remote_piper example_actions (start 2) = Some s
    /\ (fun i => nth i [str "Good morning."; str "Rose is awake."] []) <$> played (log s) = split_sentences (join_arguments two_arguments).
Proof.
  destruct (proj1 (fmap_Some _ _ _) example_exits) as (s & R & E). exists s. split; [exact R|].
  apply (text_spoken two_arguments _ remote_piper example_actions s); [reflexivity|exact R|by symmetry].
Defined.
End RoseVoice.
