(* ===== verification/RoseStage.v ===== *)
(** * The stages of Rose's voice

    voice_stage.c: synthesis and effects are external programs that are started
    with a time limit; the envelope that drives the lamps is computed from the
    synthesised WAV file, stored and read back by the player. *)
From Stdlib Require Import SpecFloat.
From S2P Require Import Prelude CLib World CDouble.

Open Scope Z_scope.

Module RoseStage.

Definition setting (value : option bytes) (fallback : bytes) : bytes :=
  match value with Some (c :: v) => c :: v | _ => fallback end.

(** ** External programs *)

Definition stage_timeout_seconds (value : option bytes) : Z :=
  match strtoul (setting value (str "120")) with
  | Some (v, []) => if (1 <=? v) && (v <=? 3600) then v else 120
  | _ => 120
  end.

(** What [waitpid] with [WNOHANG] finds: the child has ended (with an exit code or
    by a signal), it is still running, the call was interrupted or failed. *)
Inductive wait_status := ExitCode (code : Z) | BySignal.
Inductive wait_seen := ChildEnded (s : wait_status) | StillRunning | WaitInterrupted | WaitFailed.

(** Seconds and nanoseconds. *)
Definition elapsed_ms (start now : Z * Z) : Z := (now.1 - start.1) * 1000 + Z.quot (now.2 - start.2) 1000000.

Inductive wait_end := Succeeded | ChildFailed | LostChild | Killed.

(** The polling loop: each turn finds something and reads the clock. *)
Fixpoint wait_child (timeout : Z) (start : Z * Z) (turns : list (wait_seen * (Z * Z))) : option wait_end :=
  match turns with
  | [] => None
  | (seen, now) :: turns =>
      match seen with
      | ChildEnded (ExitCode code) => Some (if code =? 0 then Succeeded else ChildFailed)
      | ChildEnded BySignal => Some ChildFailed
      | WaitFailed => Some LostChild
      | StillRunning | WaitInterrupted =>
          if timeout * 1000 <=? elapsed_ms start now then Some Killed else wait_child timeout start turns
      end
  end.

Definition DEFAULT_PIPER : bytes := str "/home/rose/piper/bin/piper-tts/piper".
Definition DEFAULT_VOICE : bytes := str "/home/rose/piper/voices/en_GB/cori/high/en_GB-cori-high.onnx".

(** The command lines. *)
Definition piper_argv (piper voice : option bytes) (output_path : bytes) : list bytes :=
  [setting piper DEFAULT_PIPER; str "--model"; setting voice DEFAULT_VOICE; str "--output_file"; output_path].

(** [random] is the result of [rand()], which is not negative. *)
Definition sox_pitch (random : Z) : Z := - (10 + Z.rem random 151).

Definition sox_argv (sox : option bytes) (random : Z) (input_path output_path : bytes) : list bytes :=
  [setting sox (str "sox"); input_path; output_path; str "gain"; str "-3"; str "pitch"; print_int (sox_pitch random)]
  ++ map str ["chorus"; "0.5"; "0.9"; "50"; "0.4"; "0.25"; "2"; "-t"; "60"; "0.32"; "0.4"; "2.3"; "-t"; "40"; "0.3"; "0.3"; "1.3"; "-s";
              "reverse"; "reverb"; "80"; "50"; "100"; "100"; "25"; "-1"; "reverse"]%string.

(** ** Reading a WAV file *)

Definition le16 (p : bytes) : Z := Z.lor (nth 0 p 0) (Z.shiftl (nth 1 p 0) 8).
Definition le32 (p : bytes) : Z :=
  Z.lor (Z.lor (Z.lor (nth 0 p 0) (Z.shiftl (nth 1 p 0) 8)) (Z.shiftl (nth 2 p 0) 16)) (Z.shiftl (nth 3 p 0) 24).

(** [fread] of [n] bytes at a position, which may lie behind the end. *)
Definition read_at (content : bytes) (pos : Z) (n : nat) : bytes :=
  if Z.of_nat (length content) <=? pos then [] else take n (drop (Z.to_nat pos) content).

Definition u32 (v : Z) : Z := v mod 2 ^ 32.

(** Channels, rate and bits as read so far, and the data chunk: where it starts and
    its size. *)
Record wav := Wav { channels : Z; rate : Z; bits : Z; offset : Z; data_size : Z }.

(** The loop over the chunks; [None] is a jump to [fail], and the position grows by
    at least eight bytes a turn. *)
Fixpoint wav_chunks (fuel : nat) (content : bytes) (pos : Z) (f : wav) : option wav :=
  match fuel with
  | O => Some f
  | S fuel =>
      let chunk := read_at content pos 8 in
      if negb (length chunk =? 8)%nat then Some f
      else
      let size := le32 (drop 4 chunk) in
      if bytes_eqb (take 4 chunk) (str "fmt ") then
        let format := read_at content (pos + 8) 16 in
        if (size <? 16) || negb (length format =? 16)%nat || negb (le16 format =? 1) then None
        else wav_chunks fuel content (pos + 24 + u32 (size - 16 + Z.land size 1))
               (Wav (le16 (drop 2 format)) (le32 (drop 4 format)) (le16 (drop 14 format)) (offset f) (data_size f))
      else if bytes_eqb (take 4 chunk) (str "data") then Some (Wav (channels f) (rate f) (bits f) (pos + 8) size)
      else wav_chunks fuel content (pos + 8 + u32 (size + Z.land size 1)) f
  end.

(** The format and the bytes of the data chunk. *)
Definition wav_data (content : bytes) : option (wav * bytes) :=
  let header := read_at content 0 12 in
  if negb (length header =? 12)%nat || negb (bytes_eqb (take 4 header) (str "RIFF")) || negb (bytes_eqb (drop 8 header) (str "WAVE"))
  then None
  else
  f ← wav_chunks (S (length content)) content 12 (Wav 0 0 0 0 0);
  if (channels f =? 0) || (rate f =? 0) || negb (bits f =? 16) || (data_size f =? 0) || (offset f <=? 0) then None
  else
  let data := read_at content (offset f) (Z.to_nat (data_size f)) in
  if negb (Z.of_nat (length data) =? data_size f) then None else Some (f, data).

(** ** The envelope *)

(** [(size_t)(rate * ENVELOPE_HOP)]; the product with an eighth is exact. *)
Definition frames_per_block (rate : Z) : Z := let per := rate / 8 in if per =? 0 then 1 else per.

Definition frame_bytes (f : wav) : Z := channels f * 2.
Definition frames (f : wav) : Z := data_size f / frame_bytes f.
Definition block_count (f : wav) : Z := let per := frames_per_block (rate f) in (frames f + per - 1) / per.

(** [(short)le16(...)] of the sample at a byte position. *)
Definition sample_at (data : bytes) (position : Z) : Z := to_signed 16 (le16 (drop (Z.to_nat position) data)).

(** The samples of a block, frame by frame. *)
Definition block_positions (f : wav) (block : Z) : list Z :=
  let per := frames_per_block (rate f) in
  let first := block * per in
  let last := Z.min (first + per) (frames f) in
  frame ← seqZ first (last - first); channel ← seqZ 0 (channels f); [frame * frame_bytes f + channel * 2].

Definition sum_squares (data : bytes) (positions : list Z) : Dbl.double :=
  fold_left (fun sum p => let s := Dbl.of_Z (sample_at data p) in Dbl.add sum (Dbl.mul s s)) positions (Dbl.of_Z 0).

Definition block_rms (f : wav) (data : bytes) (block : Z) : Dbl.double :=
  let positions := block_positions f block in
  match positions with
  | [] => Dbl.of_Z 0
  | _ => Dbl.sqrt (Dbl.div (sum_squares data positions) (Dbl.of_Z (Z.of_nat (length positions))))
  end.

(** The first pass finds the loudest block, the second scales all blocks by it. *)
Definition loudest (levels : list Dbl.double) : Dbl.double :=
  fold_left (fun maximum rms => if Dbl.ltb maximum rms then rms else maximum) levels (Dbl.of_Z 1).

(** [(unsigned char)]; a value outside the type, which C leaves undefined, is
    reduced to eight bits. *)
Definition level_of (maximum rms : Dbl.double) : byte :=
  default 0 (Dbl.trunc (Dbl.add (Dbl.of_Z 20) (Dbl.mul (Dbl.div rms maximum) (Dbl.of_Z 235)))) mod 256.

Definition wav_levels (content : bytes) : option bytes :=
  '(f, data) ← wav_data content;
  let rms := map (block_rms f data) (seqZ 0 (block_count f)) in
  Some (map (level_of (loudest rms)) rms).

(** ** The envelope file *)

Definition le32_bytes (v : Z) : bytes :=
  [Z.land v 255; Z.land (Z.shiftr v 8) 255; Z.land (Z.shiftr v 16) 255; Z.land (Z.shiftr v 24) 255].

Definition voice_stage_envelope (input_path output_path : bytes) : st world bool :=
  file ← file_read input_path;
  match file ≫= wav_levels with
  | None => mret false
  | Some levels =>
      if 2 ^ 32 <=? Z.of_nat (length levels) then mret false
      else
      opened ← file_create output_path;
      if negb opened then mret false
      else
      magic ← file_write output_path (str "RVL1");
      if negb magic then mret false
      else
      counted ← file_write output_path (le32_bytes (Z.of_nat (length levels)));
      if negb counted then mret false
      else
      written ← file_write output_path levels;
      if negb written then mret false
      else
      bad ← fault;
      mret (negb bad)
  end.

(** The levels the player uses. *)
Definition voice_envelope_load (path : bytes) : st world (option bytes) :=
  file ← file_read path;
  mret (content ← file;
        if negb (bytes_eqb (read_at content 0 4) (str "RVL1")) then None
        else
        let encoded := read_at content 4 4 in
        if negb (length encoded =? 4)%nat then None
        else
        let value := le32 encoded in
        if 1000000 <? value then None
        else
        let data := read_at content 8 (Z.to_nat value) in
        if negb (Z.of_nat (length data) =? value) then None else Some data).

(** ** Facts *)

Lemma stage_timeout_range value : 1 <= stage_timeout_seconds value <= 3600.
Proof.
  unfold stage_timeout_seconds. destruct (strtoul _) as [[v [|]]|]; try lia.
  destruct (Z.leb_spec 1 v), (Z.leb_spec v 3600); cbn [andb]; lia.
Qed.

Lemma sox_pitch_range random : 0 <= random -> -160 <= sox_pitch random <= -10.
Proof. intros H. unfold sox_pitch. pose proof (Z.rem_bound_pos random 151 H ltac:(lia)). lia. Qed.

(** A child is killed only after its time, and at the first look after it. *)
Lemma wait_child_killed timeout start turns : wait_child timeout start turns = Some Killed ->
  exists before now after, turns = before ++ now :: after /\ timeout * 1000 <= elapsed_ms start now.2
    /\ Forall (fun t => elapsed_ms start t.2 < timeout * 1000) before.
Proof.
  induction turns as [|[seen now] turns IH]; cbn [wait_child]; [done|]. intros H.
  assert (K : (if timeout * 1000 <=? elapsed_ms start now then Some Killed else wait_child timeout start turns) = Some Killed).
  { destruct seen as [[c|]| | |]; try done. by destruct (c =? 0). }
  destruct (Z.leb_spec (timeout * 1000) (elapsed_ms start now)) as [L|L].
  - exists [], (seen, now), turns. split_and!; [done|done|by apply Forall_nil].
  - destruct (IH K) as (before & t & after & -> & A & B). exists ((seen, now) :: before), t, after. split_and!; [done|done|by constructor].
Qed.

(** *** Little-endian numbers *)

Lemma le16_sum a b rest : byte_ok a -> byte_ok b -> le16 (a :: b :: rest) = a + 256 * b.
Proof. unfold byte_ok, le16. cbn [nth]. intros Ha Hb. rewrite Z.lor_comm, lor_shiftl by lia. lia. Qed.

Lemma le32_sum a b c d rest : byte_ok a -> byte_ok b -> byte_ok c -> byte_ok d ->
  le32 (a :: b :: c :: d :: rest) = a + 256 * b + 65536 * c + 16777216 * d.
Proof.
  unfold byte_ok, le32. cbn [nth]. intros Ha Hb Hc Hd. rewrite (Z.lor_comm a), (lor_shiftl b a 8) by lia.
  rewrite (Z.lor_comm (b * 2 ^ 8 + a)), (lor_shiftl c _ 16) by lia. rewrite Z.lor_comm, (lor_shiftl d _ 24) by lia. lia.
Qed.

Lemma le32_bytes_ok v : bytes_ok (le32_bytes v).
Proof.
  unfold le32_bytes. change 255 with (Z.ones 8). rewrite !Z.land_ones by lia.
  repeat (apply Forall_cons; split; [apply Z.mod_pos_bound; lia|]). by apply Forall_nil.
Qed.

Lemma le32_roundtrip v rest : 0 <= v < 2 ^ 32 -> le32 (le32_bytes v ++ rest) = v.
Proof.
  intros Hv. pose proof (le32_bytes_ok v) as B. unfold le32_bytes in *. cbn [app].
  apply Forall_cons in B as [B0 B]. apply Forall_cons in B as [B1 B]. apply Forall_cons in B as [B2 B]. apply Forall_cons in B as [B3 _].
  rewrite le32_sum by done. change 255 with (Z.ones 8). rewrite !Z.land_ones, !Z.shiftr_div_pow2 by lia.
  change (2 ^ 8) with 256. change (2 ^ 16) with (256 * 256). change (2 ^ 24) with (256 * 256 * 256). rewrite <- !Z.div_div by lia.
  pose proof (Z.div_mod v 256). pose proof (Z.div_mod (v / 256) 256). pose proof (Z.div_mod (v / 256 / 256) 256).
  pose proof (Z.mod_small (v / 256 / 256 / 256) 256) as M. rewrite M; [lia|].
  split; [repeat apply Z.div_pos; lia|]. rewrite !Z.div_div by lia. apply Z.div_lt_upper_bound; lia.
Qed.

Lemma nth_byte p k : bytes_ok p -> byte_ok (nth k p 0).
Proof.
  intros Hp. destruct (nth_in_or_default k p 0) as [H| ->]; [|done]. rewrite Forall_forall in Hp.
  apply Hp. by apply list_elem_of_In.
Qed.

Lemma le16_nonneg p : bytes_ok p -> 0 <= le16 p.
Proof.
  intros Hp. pose proof (nth_byte p 0 Hp). pose proof (nth_byte p 1 Hp). unfold byte_ok in *.
  apply Z.lor_nonneg. split; [lia|]. apply Z.shiftl_nonneg. lia.
Qed.

Lemma le32_range p : bytes_ok p -> 0 <= le32 p < 2 ^ 32.
Proof.
  intros Hp. pose proof (fun k => nth_byte p k Hp) as N. pose proof (N 0%nat) as A. pose proof (N 1%nat) as B. pose proof (N 2%nat) as C. pose proof (N 3%nat) as D.
  change (le32 p) with (le32 [nth 0 p 0; nth 1 p 0; nth 2 p 0; nth 3 p 0]). rewrite le32_sum by done. unfold byte_ok in *. lia.
Qed.

Lemma read_at_ok content pos n : bytes_ok content -> bytes_ok (read_at content pos n).
Proof. intros H. unfold read_at. destruct (_ <=? _); [by apply Forall_nil|]. by apply Forall_take, Forall_drop. Qed.

Lemma read_at_app a b n pos : pos = Z.of_nat (length a) -> read_at (a ++ b) pos n = take n b.
Proof.
  intros ->. unfold read_at. rewrite length_app, Nat2Z.id, drop_app_length. destruct (Z.leb_spec (Z.of_nat (length a + length b)) (Z.of_nat (length a))); [|done].
  destruct b; [by destruct n|cbn in *; lia].
Qed.

Lemma read_at_start content n : read_at content 0 n = take n content.
Proof. exact (read_at_app [] content n 0 eq_refl). Qed.

(** *** Every sample counts once *)

Definition frame_positions (f : wav) (frame : Z) : list Z := channel ← seqZ 0 (channels f); [frame * frame_bytes f + channel * 2].

(** All samples of all whole frames, in the order of the file. *)
Definition all_positions (f : wav) : list Z := frame ← seqZ 0 (frames f); frame_positions f frame.

Lemma bind_assoc {A B C} (l : list A) (g : A -> list B) (h : B -> list C) : (l ≫= g) ≫= h = l ≫= (fun a => g a ≫= h).
Proof. induction l as [|a l IH]; [done|]. cbn [mbind list_bind] in *. by rewrite bind_app, IH. Qed.

Lemma blocks_upto per n k : 0 < per -> 0 <= n -> Z.of_nat k <= (n + per - 1) / per ->
  (block ← seqZ 0 (Z.of_nat k); seqZ (block * per) (Z.min (block * per + per) n - block * per)) = seqZ 0 (Z.min (Z.of_nat k * per) n).
Proof.
  intros Hp Hn. induction k as [|k IH]; intros Hk; [cbn; by rewrite Z.min_l by lia|].
  assert (Z.of_nat k * per <= n).
  { pose proof (Z.mul_div_le (n + per - 1) per Hp). nia. }
  rewrite seqZ_S, bind_app, IH by lia. rewrite Nat2Z.inj_succ. cbn [mbind list_bind]. rewrite app_nil_r, Z.add_0_l, Z.min_l by lia.
  replace (Z.succ (Z.of_nat k) * per) with (Z.of_nat k * per + per) by lia.
  rewrite <- (Z.add_0_l (Z.of_nat k * per)) at 2. rewrite <- seqZ_app by lia. f_equal. lia.
Qed.

Record wav_sound (f : wav) (data : bytes) : Prop := {
  sound_channels : 0 < channels f; sound_rate : 0 < rate f; sound_size : data_size f = Z.of_nat (length data) }.

Lemma wav_chunks_sound fuel content : bytes_ok content -> forall pos f g, wav_chunks fuel content pos f = Some g ->
  0 <= channels f -> 0 <= rate f -> 0 <= channels g /\ 0 <= rate g.
Proof.
  intros Hc. induction fuel as [|fuel IH]; intros pos f g; cbn [wav_chunks]; [by intros [= <-]|].
  destruct (negb _); [by intros [= <-]|]. destruct (bytes_eqb _ _).
  - destruct (_ || _); [done|]. intros H _ _. apply (IH _ _ _ H); cbn [channels rate].
    + by apply le16_nonneg, Forall_drop, read_at_ok.
    + apply le32_range. by apply Forall_drop, read_at_ok.
  - destruct (bytes_eqb _ _); [by intros [= <-]|]. apply IH.
Qed.

Lemma wav_data_sound content f data : bytes_ok content -> wav_data content = Some (f, data) -> wav_sound f data.
Proof.
  intros Hc. unfold wav_data. cbv zeta. destruct (_ || _); [done|]. destruct (wav_chunks _ _ _ _) as [g|] eqn:E; [|done].
  cbn [mbind option_bind]. apply wav_chunks_sound in E as [E1 E2]; [|done..]. 
  destruct (Z.eqb_spec (channels g) 0); [done|]. destruct (Z.eqb_spec (rate g) 0); [done|]. destruct (_ || _); [done|].
  destruct (Z.eqb_spec (Z.of_nat (length (read_at content (offset g) (Z.to_nat (data_size g))))) (data_size g)) as [L|]; [|done].
  intros [= <- <-]. split; [lia|lia|done].
Qed.

(** C31: the envelope of a WAV file is computed from every sample of every whole frame
    exactly once: the blocks, put together, are all samples in the order of the
    file, and no sample is read outside the data that was loaded, whatever the
    file's header says. *)
Theorem envelope_covers (content : bytes) (f : wav) (data : bytes) : bytes_ok content -> wav_data content = Some (f, data) ->
  (block ← seqZ 0 (block_count f); block_positions f block) = all_positions f
  /\ Forall (fun p => 0 <= p /\ p + 1 < Z.of_nat (length data)) (all_positions f).
Proof.
  intros Hc H. destruct (wav_data_sound content f data Hc H) as [S1 S2 S3].
  assert (Hp : 0 < frames_per_block (rate f)).
  { unfold frames_per_block. pose proof (Z.div_pos (rate f) 8). destruct (Z.eqb_spec (rate f / 8) 0); lia. }
  assert (Hn : 0 <= frames f) by (apply Z.div_pos; unfold frame_bytes; lia). split.
  - unfold all_positions. pose proof (Z.div_pos (frames f + frames_per_block (rate f) - 1) (frames_per_block (rate f)) ltac:(lia) Hp) as Hb.
    pose proof (blocks_upto (frames_per_block (rate f)) (frames f) (Z.to_nat (block_count f)) Hp Hn) as B. unfold block_count in *.
    rewrite Z2Nat.id in B by done. rewrite Z.min_r in B.
    + rewrite <- B by lia. symmetry. apply bind_assoc.
    + pose proof (Z.mod_pos_bound (frames f + frames_per_block (rate f) - 1) (frames_per_block (rate f)) Hp) as M. rewrite Z.mod_eq in M by lia. lia.
  - apply Forall_forall. intros p (frame & Hf & Hp')%list_elem_of_bind. apply elem_of_seqZ in Hp'.
    apply list_elem_of_bind in Hf as (c & Hpos & Hch). apply elem_of_seqZ in Hch. apply list_elem_of_singleton in Hpos. subst p.
    pose proof (Z.mul_div_le (data_size f) (frame_bytes f)) as D. fold (frames f) in D. unfold frame_bytes in *. nia.
Qed.

(** *** The envelope file *)

(** the player reads back exactly the envelope that was computed: when
    voice_stage_envelope succeeds, the file it has written, and no other file has
    changed, gives voice_envelope_load the levels of the WAV file it read, as long as
    they are at most 1000000, that is 34 hours. *)
Theorem envelope_roundtrip (input_path output_path : bytes) (w w' : world) :
  voice_stage_envelope input_path output_path w = (true, w') ->
  exists content levels, w_fs w !! input_path = Some content /\ wav_levels content = Some levels
    /\ w_fs w' = <[output_path := str "RVL1" ++ le32_bytes (Z.of_nat (length levels)) ++ levels]> (w_fs w)
    /\ (Z.of_nat (length levels) <= 1000000 -> voice_envelope_load output_path w' = (Some levels, w')).
Proof.
  unfold voice_stage_envelope. rewrite st_bind_run. cbn [file_read gets fst snd].
  destruct (w_fs w !! input_path) as [content|]; [|done]. cbn [mbind option_bind]. destruct (wav_levels content) as [levels|] eqn:El; [|done].
  destruct (Z.leb_spec (2 ^ 32) (Z.of_nat (length levels))); [done|].
  rewrite st_bind_run. pose proof (file_create_fs output_path w) as F1. destruct (file_create output_path w) as [[] w1]; cbn [fst snd negb]; [|done].
  rewrite st_bind_run. pose proof (file_write_fs output_path (str "RVL1") w1) as F2. rewrite F1, lookup_insert_eq, insert_insert_eq in F2.
  destruct (file_write _ _ w1) as [[] w2]; cbn [fst snd negb]; [|done].
  rewrite st_bind_run. pose proof (file_write_fs output_path (le32_bytes (Z.of_nat (length levels))) w2) as F3.
  rewrite F2, lookup_insert_eq, insert_insert_eq in F3. destruct (file_write _ _ w2) as [[] w3]; cbn [fst snd negb]; [|done].
  rewrite st_bind_run. pose proof (file_write_fs output_path levels w3) as F4.
  rewrite F3, lookup_insert_eq, insert_insert_eq in F4. destruct (file_write _ _ w3) as [[] w4]; cbn [fst snd negb]; [|done].
  rewrite st_bind_run. pose proof (fault_fs w4) as F5. destruct (fault w4) as [[] w5]; cbn [fst snd negb mret st_ret]; [done|].
  intros [= <-]. exists content, levels. cbn [default from_option snd] in F4, F5. rewrite F4 in F5.
  assert (E : w_fs w5 = <[output_path := str "RVL1" ++ le32_bytes (Z.of_nat (length levels)) ++ levels]> (w_fs w)).
  { rewrite F5. unfold id. by rewrite <- !app_assoc. }
  split_and!; [done|done|done|]. intros Hl. unfold voice_envelope_load. rewrite st_bind_run. cbn [file_read gets fst snd]. rewrite E, lookup_insert_eq.
  unfold mret at 1, st_ret. f_equal. cbn [mbind option_bind].
  rewrite read_at_start. rewrite take_app_length' by done. rewrite bytes_eqb_refl. cbn [negb].
  rewrite (read_at_app (str "RVL1") _ 4 4) by done. rewrite take_app_length' by done. change (length (le32_bytes _) =? 4)%nat with true. cbn [negb].
  pose proof (le32_roundtrip (Z.of_nat (length levels)) [] ltac:(lia)) as R. rewrite app_nil_r in R. rewrite R.
  destruct (Z.ltb_spec 1000000 (Z.of_nat (length levels))); [lia|]. rewrite app_assoc, read_at_app by done. rewrite Nat2Z.id, firstn_all.
  by rewrite Z.eqb_refl.
Qed.

(** *** The data is found behind any other chunks *)

Definition chunk (c : bytes * bytes) : bytes :=
  c.1 ++ le32_bytes (Z.of_nat (length c.2)) ++ c.2 ++ (if Nat.odd (length c.2) then [0] else []).

Definition other_chunk (c : bytes * bytes) : Prop :=
  length c.1 = 4%nat /\ c.1 <> str "fmt " /\ c.1 <> str "data" /\ Z.of_nat (length c.2) + 1 < 2 ^ 32.

#[global] Instance other_chunk_dec c : Decision (other_chunk c).
Proof. unfold other_chunk. apply _. Defined.

Definition format_chunk (channels rate : Z) (byte_rate : bytes) : bytes :=
  str "fmt " ++ le32_bytes 16 ++ [1; 0] ++ take 2 (le32_bytes channels) ++ le32_bytes rate ++ byte_rate ++ [16; 0].

Lemma odd_of_nat n : Z.odd (Z.of_nat n) = Nat.odd n.
Proof. induction n as [|n IH]; [done|]. rewrite Nat2Z.inj_succ, Z.odd_succ, Nat.odd_succ, <- Z.negb_odd, <- Nat.negb_odd. by rewrite IH. Qed.

Lemma padded_length c : other_chunk c ->
  8 + u32 (Z.of_nat (length c.2) + Z.land (Z.of_nat (length c.2)) 1) = Z.of_nat (length (chunk c)).
Proof.
  intros (L & _ & _ & B). unfold chunk, u32. rewrite !length_app, L. change (length (le32_bytes _)) with 4%nat.
  change 1 with (Z.ones 1). rewrite Z.land_ones by lia. change (2 ^ 1) with 2. rewrite Zmod_odd.
  assert (O : Z.odd (Z.of_nat (length c.2)) = Nat.odd (length c.2)) by apply odd_of_nat.
  rewrite O. destruct (Nat.odd _); cbn [length]; rewrite Z.mod_small; lia.
Qed.

Lemma read_header a id size rest pos : length id = 4%nat -> pos = Z.of_nat (length a) ->
  read_at (a ++ id ++ le32_bytes size ++ rest) pos 8 = id ++ le32_bytes size.
Proof.
  intros L ->. rewrite read_at_app by done. rewrite app_assoc. apply take_app_length'. rewrite length_app, L. done.
Qed.

Lemma wav_chunks_others others : forall fuel a rest f size pos, Forall other_chunk others -> (length others < fuel)%nat ->
  pos = Z.of_nat (length a) -> 0 <= size < 2 ^ 32 ->
  wav_chunks fuel (a ++ concat (map chunk others) ++ str "data" ++ le32_bytes size ++ rest) pos f
  = Some (Wav (channels f) (rate f) (bits f) (pos + Z.of_nat (length (concat (map chunk others))) + 8) size).
Proof.
  induction others as [|c others IH]; intros fuel a rest f size pos F Hf Hp Hs; (destruct fuel as [|fuel]; [cbn in Hf; lia|]); cbn [wav_chunks].
  - cbn [map concat app length]. rewrite read_header by done. rewrite drop_app_length', take_app_length' by done.
    pose proof (le32_roundtrip size [] Hs) as R. rewrite app_nil_r in R. rewrite R. cbn [length app]. f_equal. f_equal. lia.
  - apply Forall_cons in F as [Hc F]. pose proof (padded_length c Hc) as P. destruct Hc as (L & N1 & N2 & B).
    cbn [map concat]. set (tail := concat (map chunk others) ++ str "data" ++ le32_bytes size ++ rest).
    assert (E : a ++ (chunk c ++ concat (map chunk others)) ++ str "data" ++ le32_bytes size ++ rest
                = a ++ c.1 ++ le32_bytes (Z.of_nat (length c.2)) ++ (c.2 ++ (if Nat.odd (length c.2) then [0] else [])) ++ tail).
    { unfold chunk, tail. by rewrite <- !app_assoc. }
    rewrite E. rewrite read_header by done. rewrite drop_app_length', take_app_length' by done.
    pose proof (le32_roundtrip (Z.of_nat (length c.2)) [] ltac:(lia)) as R. rewrite app_nil_r in R. rewrite R.
    replace (length (c.1 ++ le32_bytes (Z.of_nat (length c.2))) =? 8)%nat with true by (rewrite length_app, L; done). cbn [negb].
    rewrite !(proj2 (bytes_eqb_false _ _)) by done. rewrite <- E, <- Z.add_assoc, P, <- app_assoc, app_assoc.
    rewrite IH; [|done|cbn in Hf; lia|rewrite length_app; lia|done]. f_equal. f_equal. rewrite !length_app. lia.
Qed.

Lemma chunks_length others : Forall other_chunk others -> (length others <= length (concat (map chunk others)))%nat.
Proof.
  induction 1 as [|c others Hc _ IH]; [done|]. cbn [map concat length]. rewrite length_app. unfold chunk at 1. rewrite !length_app.
  destruct Hc as [-> _]. lia.
Qed.

(** The chunk with the format. *)
Lemma wav_chunks_format fuel a tail ch r byte_rate f pos : pos = Z.of_nat (length a) -> length byte_rate = 6%nat ->
  0 < ch < 65536 -> 0 < r < 2 ^ 32 ->
  wav_chunks (S fuel) (a ++ format_chunk ch r byte_rate ++ tail) pos f
  = wav_chunks fuel (a ++ format_chunk ch r byte_rate ++ tail) (pos + 24) (Wav ch r 16 (offset f) (data_size f)).
Proof.
  intros Hp Lb Hc Hr. cbn [wav_chunks]. set (content := a ++ _).
  set (body := [1; 0] ++ take 2 (le32_bytes ch) ++ le32_bytes r ++ byte_rate ++ [16; 0]).
  assert (E1 : content = a ++ str "fmt " ++ le32_bytes 16 ++ body ++ tail) by (unfold content, format_chunk, body; by rewrite <- !app_assoc).
  assert (E2 : read_at content (pos + 8) 16 = body).
  { rewrite E1, (app_assoc a), (app_assoc _ (le32_bytes 16)), read_at_app by (rewrite !length_app; cbn [length str le32_bytes]; lia).
    apply take_app_length'. unfold body. rewrite !length_app, Lb. done. }
  cbv zeta. replace (read_at content pos 8) with (str "fmt " ++ le32_bytes 16) by (rewrite E1; symmetry; by apply read_header).
  change (take 4 (str "fmt " ++ le32_bytes 16)) with (str "fmt ").
  change (drop 4 (str "fmt " ++ le32_bytes 16)) with (le32_bytes 16). rewrite E2. change (le32 (le32_bytes 16)) with 16.
  change (negb (length (str "fmt " ++ le32_bytes 16) =? 8)%nat) with false. rewrite bytes_eqb_refl.
  replace (length body) with 16%nat by (unfold body; rewrite !length_app, Lb; done).
  change (le16 body) with 1. cbn [Z.ltb Z.compare orb negb Nat.eqb Z.eqb Pos.eqb].
  change (u32 (16 - 16 + Z.land 16 1)) with 0. rewrite Z.add_0_r. f_equal. f_equal.
  - change (le16 (drop 2 body)) with (le16 (take 2 (le32_bytes ch))). change (le16 (take 2 (le32_bytes ch))) with (le16 (le32_bytes ch)).
    pose proof (le32_bytes_ok ch) as B. unfold le32_bytes in *. apply Forall_cons in B as [B0 B]. apply Forall_cons in B as [B1 _].
    rewrite le16_sum by done. change 255 with (Z.ones 8). rewrite !Z.land_ones, !Z.shiftr_div_pow2 by lia. change (2 ^ 8) with 256.
    rewrite (Z.mod_small (ch / 256)) by (split; [apply Z.div_pos; lia|apply Z.div_lt_upper_bound; lia]). pose proof (Z.div_mod ch 256). lia.
  - change (drop 4 body) with (le32_bytes r ++ byte_rate ++ [16; 0]). apply le32_roundtrip. lia.
  - change (drop 14 body) with (drop 10 (le32_bytes r ++ byte_rate ++ [16; 0])).
    rewrite app_assoc, drop_app_length' by (by rewrite length_app, Lb). done.
Qed.

(** the samples of a WAV file are found behind any chunks the reader does not
    know, of odd and even length: channels, rate and all bytes of the data chunk are
    those that were written. *)
Theorem wav_data_found (x byte_rate data rest : bytes) (ch r : Z) (others : list (bytes * bytes)) :
  length x = 4%nat -> length byte_rate = 6%nat -> 0 < ch < 65536 -> 0 < r < 2 ^ 32 -> Forall other_chunk others ->
  data <> [] -> Z.of_nat (length data) < 2 ^ 32 ->
  exists off, wav_data (str "RIFF" ++ x ++ str "WAVE" ++ format_chunk ch r byte_rate ++ concat (map chunk others)
                        ++ str "data" ++ le32_bytes (Z.of_nat (length data)) ++ data ++ rest)
              = Some (Wav ch r 16 off (Z.of_nat (length data)), data).
Proof.
  intros Lx Lb Hc Hr F Hd Hl. set (content := _ ++ _).
  set (a := str "RIFF" ++ x ++ str "WAVE").
  set (tail := concat (map chunk others) ++ str "data" ++ le32_bytes (Z.of_nat (length data)) ++ data ++ rest).
  assert (Ec : content = a ++ format_chunk ch r byte_rate ++ tail) by (unfold content, a, tail; by rewrite <- !app_assoc).
  assert (La : length a = 12%nat) by (unfold a; rewrite !length_app, Lx; done).
  assert (Lf : length (format_chunk ch r byte_rate) = 24%nat) by (unfold format_chunk; rewrite !length_app, Lb; done).
  exists (36 + Z.of_nat (length (concat (map chunk others))) + 8). unfold wav_data. rewrite read_at_start, Ec.
  rewrite take_app_length' by done. rewrite La. cbn [Nat.eqb negb orb].
  replace (take 4 a) with (str "RIFF") by (unfold a; by rewrite take_app_length'). rewrite bytes_eqb_refl. cbn [negb orb].
  replace (drop 8 a) with (str "WAVE") by (unfold a; rewrite app_assoc, drop_app_length'; [done|by rewrite length_app, Lx]).
  rewrite bytes_eqb_refl. cbn [negb orb].
  rewrite (wav_chunks_format (length (a ++ format_chunk ch r byte_rate ++ tail))); try done; [|by rewrite La].
  unfold tail. rewrite (app_assoc a), wav_chunks_others; [|done| |by rewrite length_app, La, Lf|lia].
  2: { rewrite !length_app. pose proof (chunks_length others F). lia. }
  cbn [mbind option_bind channels rate bits offset data_size].
  rewrite (proj2 (Z.eqb_neq ch 0)), (proj2 (Z.eqb_neq r 0)), (proj2 (Z.eqb_neq (Z.of_nat (length data)) 0)) by (destruct data; cbn [length]; [done|lia] || lia).
  cbn [orb negb].
  rewrite (proj2 (Z.leb_gt _ _)) by lia. cbn [orb].
  assert (D : read_at ((a ++ format_chunk ch r byte_rate) ++ concat (map chunk others) ++ str "data" ++ le32_bytes (Z.of_nat (length data)) ++ data ++ rest)
                (36 + Z.of_nat (length (concat (map chunk others))) + 8) (Z.to_nat (Z.of_nat (length data))) = data).
  { rewrite !app_assoc, <- (app_assoc _ data rest), read_at_app by (rewrite !length_app, La, Lf; cbn [length str le32_bytes]; lia).
    rewrite Nat2Z.id. by apply take_app_length'. }
  change (12 + 24) with 36. rewrite D, !Z.eqb_refl. done.
Qed.

(** ** Examples *)

Definition example_others : list (bytes * bytes) := [(str "LIST", str "odd"); (str "fact", str "four")].
Definition example_wav : bytes :=
  str "RIFF" ++ le32_bytes 99 ++ str "WAVE" ++ format_chunk 1 16 [0; 0; 0; 0; 2; 0] ++ concat (map chunk example_others)
  ++ str "data" ++ le32_bytes 10 ++ [100; 0; 156; 255; 232; 3; 0; 0; 10; 0] ++ [].

Lemma wav_data_found_witness : exists off, wav_data example_wav = Some (Wav 1 16 16 off 10, [100; 0; 156; 255; 232; 3; 0; 0; 10; 0]).
Proof.
  apply (wav_data_found (le32_bytes 99) [0; 0; 0; 0; 2; 0] [100; 0; 156; 255; 232; 3; 0; 0; 10; 0] [] 1 16 example_others);
    first [reflexivity | lia | discriminate | apply (bool_decide_unpack _); vm_compute; exact I].
Defined.

Lemma envelope_covers_witness :
  exists f data, wav_data example_wav = Some (f, data)
    /\ (block ← seqZ 0 (block_count f); block_positions f block) = [0; 2; 4; 6; 8].
Proof.
  assert (W : exists f data, wav_data example_wav = Some (f, data)) by (eexists; eexists; vm_compute; reflexivity).
  assert (P : forall f data, wav_data example_wav = Some (f, data) -> all_positions f = [0; 2; 4; 6; 8]).
  { intros f data E. vm_compute in E. injection E as <- _. vm_compute. reflexivity. }
  destruct W as (f & data & E). exists f, data. split; [exact E|]. rewrite <- (P f data E).
  apply (envelope_covers example_wav f data); [apply (bool_decide_unpack _); vm_compute; exact I|exact E].
Defined.

Definition example_world : world := World {[str "dry.wav" := example_wav]} 0 [] [] [] [] ∅ [] [].
Definition after_envelope : world := (voice_stage_envelope (str "dry.wav") (str "light.env") example_world).2.

Lemma envelope_roundtrip_witness :
  wav_levels example_wav = Some [53; 255; 23] /\ voice_envelope_load (str "light.env") after_envelope = (Some [53; 255; 23], after_envelope).
Proof.
  assert (L : wav_levels example_wav = Some [53; 255; 23]) by (vm_compute; reflexivity). split; [exact L|].
  destruct (envelope_roundtrip (str "dry.wav") (str "light.env") example_world after_envelope) as (content & levels & A & B & _ & D).
  - vm_compute. reflexivity.
  - assert (A' : w_fs example_world !! str "dry.wav" = Some example_wav) by (vm_compute; reflexivity).
    rewrite A' in A. injection A as <-. rewrite L in B. injection B as <-. apply D. cbn. lia.
Defined.
End RoseStage.
