(* ===== verification/RoseRemote.v ===== *)
(** * Voice stages on other machines

    voice_remote.c asks the worker of another machine to run a stage; voice_worker.c
    is that worker.  The dialogue is the council's: the same handshake, the same file
    transfer.  The file that comes back is what the stage makes of the file that was
    sent, and nothing stays behind on the worker.  Module [RoseWorker] is the process
    that accepts the connections: its children, its signals and its end. *)
From S2P Require Import Prelude CLib World Network Sha256 Authentication ContactBook ServiceConfig Transcript Conversation Protocol FileTransfer RoseStage.

Open Scope Z_scope.

Module RoseRemote.

Inductive voice_task := VOICE_TASK_PIPER | VOICE_TASK_SOX | VOICE_TASK_ENVELOPE.

Definition task_name (t : voice_task) : bytes :=
  match t with VOICE_TASK_PIPER => str "PIPER" | VOICE_TASK_SOX => str "SOX" | VOICE_TASK_ENVELOPE => str "ENVELOPE" end.

Definition MAX_SIZE : Z := 67108864.

(** ** The asking side *)

Definition destination_for_worker (worker sender : contact) : option contact :=
  if 64535 <? port worker then None
  else Some (Contact (name worker) (role worker) (host worker) (to_u16 (port worker + 1000)) (shared_key sender)
               (arbiter_priority worker) (ram_gb worker)).

Definition voice_remote_available (worker sender : contact) : st world bool :=
  match destination_for_worker worker sender with
  | None => mret false
  | Some destination =>
      reply ← Proto.protocol_send_command_timeout destination (name sender) (str "PING") 64 3000;
      mret (bool_decide (reply = Some (str "PONG")))
  end.

(** [sscanf(line, "RESULT %llu %64s", ...) == 2]. *)
Definition scan_result (line : bytes) : option (Z * bytes) :=
  r ← scan_lit (str "RESULT") line;
  '(size, r) ← scan_u64 (scan_ws r);
  '(digest, _) ← scan_word 64 (scan_ws r);
  Some (size, digest).

Definition task_line (task : bytes) (size : Z) (digest : bytes) : bytes :=
  snprintf 512 (str "VOICE " ++ task ++ [SP] ++ print_nat size ++ [SP] ++ digest ++ [NL]).

(** The dialogue up to the second READY: the size and digest of the result. *)
Definition request_stage (line input_path : bytes) : st io (option (Z * bytes)) :=
  sent ← on_snd (network_send line);
  if negb sent then mret None
  else
  ready ← on_snd (network_read_line 512);
  if negb (bool_decide (ready = Some (str "READY"))) then mret None
  else
  streamed ← Files.file_transfer_send_stream input_path;
  if negb streamed then mret None
  else
  reply ← on_snd (network_read_line 512);
  match reply ≫= scan_result with
  | None => mret None
  | Some (size, digest) =>
      if MAX_SIZE <? size then mret None
      else
      asked ← on_snd (network_send (str "READY" ++ [NL]));
      mret (if asked : bool then Some (size, digest) else None)
  end.

(** The whole conversation on an open connection; the result is still under the name
    it was received with. *)
Definition stage_dialogue (line input_path : bytes) : st io (option bytes) :=
  announced ← request_stage line input_path;
  match announced with
  | None => mret None
  | Some (size, digest) =>
      received ← Files.file_transfer_receive_stream (str "/tmp") (str "rose-voice-result") size digest (Z.to_nat 1024);
      mret (match received with Files.Received stored => Some stored | _ => None end)
  end.

Definition voice_remote_run (worker sender : contact) (task : voice_task) (input_path output_path : bytes) : st world bool :=
  match destination_for_worker worker sender with
  | None => mret false
  | Some destination =>
      described ← Files.file_transfer_describe input_path;
      match described with
      | None => mret false
      | Some (_, size, digest) =>
          c ← Proto.protocol_connect_identity_timeout destination (name sender) 5000;
          match c with
          | None => mret false
          | Some s =>
              unset ← fault;
              if unset : bool then close_peer (host destination) (port destination) s ;; mret false
              else
              '(stored, s) ← Files.with_socket s (stage_dialogue (task_line (task_name task) size digest) input_path);
              close_peer (host destination) (port destination) s ;;
              match stored with
              | None => mret false
              | Some stored =>
                  renamed ← file_rename stored output_path;
                  if renamed : bool then mret true else file_remove stored ;; mret false
              end
          end
      end
  end.

(** ** The worker *)

(** [sscanf(line, "VOICE %31s %llu %64s", ...) == 3]. *)
Definition scan_task (line : bytes) : option (bytes * Z * bytes) :=
  r ← scan_lit (str "VOICE") line;
  '(task, r) ← scan_word 31 (scan_ws r);
  '(size, r) ← scan_u64 (scan_ws r);
  '(digest, _) ← scan_word 64 (scan_ws r);
  Some (task, size, digest).

Section worker.
(** The stages that start other programs, and [mkstemps], which gives whether it has
    created the file and what it leaves in the array of the template. *)
Context (voice_stage_piper voice_stage_sox : bytes -> bytes -> st world bool).
Context (mkstemps : bytes -> nat -> st world (bool * bytes)).

Definition output_suffix (task : bytes) : bytes := if bytes_eqb task (str "ENVELOPE") then str ".env" else str ".wav".

Definition make_output (task : bytes) : st world (bool * bytes) :=
  mkstemps (snprintf (Z.to_nat 1024) (str "/tmp/rose-worker-output-XXXXXX" ++ output_suffix task)) (length (output_suffix task)).

Definition execute_task (task input output : bytes) : st world bool :=
  if bytes_eqb task (str "PIPER") then voice_stage_piper input output
  else if bytes_eqb task (str "SOX") then voice_stage_sox input output
  else if bytes_eqb task (str "ENVELOPE") then RoseStage.voice_stage_envelope input output
  else mret false.

Definition known_task (task : bytes) : bool :=
  bytes_eqb task (str "PIPER") || bytes_eqb task (str "SOX") || bytes_eqb task (str "ENVELOPE").

Definition input_name (task : bytes) : bytes :=
  if bytes_eqb task (str "PIPER") then str "rose-worker-input.txt" else str "rose-worker-input.wav".

(** Up to the description of the output: the input and output files as far as they
    exist, and what was described. *)
Definition work (task : bytes) (size : Z) (digest : bytes) : st io (option bytes * option bytes * option (Z * bytes)) :=
  sent ← on_snd (network_send (str "READY" ++ [NL]));
  if negb sent then mret (None, None, None)
  else
  received ← Files.file_transfer_receive_stream (str "/tmp") (input_name task) size digest (Z.to_nat 1024);
  match received with
  | Files.Received input =>
      '(made, output) ← on_fst (make_output task);
      if negb made then mret (Some input, Some output, None)
      else
      good ← on_fst (execute_task task input output);
      if negb good then mret (Some input, Some output, None)
      else
      described ← on_fst (Files.file_transfer_describe output);
      mret (Some input, Some output, '(_, size, digest) ← described; Some (size, digest))
  | _ => mret (None, None, None)
  end.

(** Remove the file of an array that is not the empty string. *)
Definition remove_if (path : option bytes) : st io unit :=
  match path with Some p => if bytes_eqb p [] then mret tt else on_fst (file_remove p) ;; mret tt | None => mret tt end.

(** The answer and the result. *)
Definition deliver_result (output : bytes) (size : Z) (digest : bytes) : st io unit :=
  sent ← on_snd (network_send (snprintf 512 (str "RESULT " ++ print_nat size ++ [SP] ++ digest ++ [NL])));
  if negb sent then mret tt
  else
  line ← on_snd (network_read_line 512);
  if bool_decide (line = Some (str "READY")) then Files.file_transfer_send_stream output ;; mret tt else mret tt.

Definition run_task (task : bytes) (size : Z) (digest : bytes) : st io unit :=
  '(input, output, described) ← work task size digest;
  match described, output with
  | Some (n, d), Some path => deliver_result path n d
  | _, _ => on_snd (network_send (str "ERROR EXECUTION" ++ [NL])) ;; mret tt
  end ;;
  remove_if output ;;
  remove_if input.

Definition handle (uninit : bytes) (contacts : contact_book) : st io unit :=
  sender ← Proto.protocol_accept_identity uninit contacts CONTACT_AI;
  match sender with
  | None => mret tt
  | Some _ =>
      line ← on_snd (network_read_line 512);
      match line with
      | None => mret tt
      | Some line =>
          if bytes_eqb line (str "PING") then on_snd (network_send (str "PONG" ++ [NL])) ;; mret tt
          else
          match scan_task line with
          | Some (task, size, digest) =>
              if (MAX_SIZE <? size) || negb (known_task task) then on_snd (network_send (str "ERROR TASK" ++ [NL])) ;; mret tt
              else run_task task size digest
          | None => on_snd (network_send (str "ERROR TASK" ++ [NL])) ;; mret tt
          end
      end
  end.

End worker.

(** ** The lines of the dialogue *)

Lemma skip_SP_digits n r : skip_space (SP :: print_nat n ++ r) = print_nat n ++ r.
Proof.
  rewrite Proto.skip_space_SP. pose proof (print_nat_isdigit n) as H. pose proof (print_nat_nonempty n) as Hne.
  destruct (print_nat n) as [|c l]; [done|]. apply Forall_cons in H as [Hd _]. apply isdigit_facts in Hd as (_ & Hsp & _).
  by apply skip_space_nonspace.
Qed.

Lemma scan_size_digest n d : 0 <= n <= ULONG_MAX -> Proto.wire_token d -> (length d <= 64)%nat ->
  scan_u64 (skip_space (SP :: print_nat n ++ SP :: d)) = Some (n, SP :: d) /\ scan_word 64 (skip_space (SP :: d)) = Some (d, []).
Proof.
  intros Hn Hd Hl. split.
  - rewrite skip_SP_digits. by apply Book.strtoul_print.
  - rewrite Proto.skip_space_SP, <- (app_nil_r d) at 1. rewrite Proto.skip_space_token by done. by apply Proto.scan_word_token.
Qed.

Definition task_text (task : bytes) (n : Z) (d : bytes) : bytes := str "VOICE " ++ task ++ [SP] ++ print_nat n ++ [SP] ++ d.
Definition result_text (n : Z) (d : bytes) : bytes := str "RESULT " ++ print_nat n ++ [SP] ++ d.

Lemma scan_task_text task n d : 0 <= n <= ULONG_MAX -> Proto.wire_token task -> (length task <= 31)%nat -> Proto.wire_token d -> (length d <= 64)%nat ->
  scan_task (task_text task n d) = Some (task, n, d).
Proof.
  intros Hn Ht Hlt Hd Hld. unfold scan_task, task_text.
  change (str "VOICE " ++ task ++ [SP] ++ print_nat n ++ [SP] ++ d) with (str "VOICE" ++ SP :: (task ++ SP :: (print_nat n ++ SP :: d))).
  rewrite scan_lit_app. cbn [mbind option_bind]. unfold scan_ws. rewrite Proto.skip_space_SP, Proto.skip_space_token by done.
  rewrite Proto.scan_word_token by done. cbn [mbind option_bind].
  destruct (scan_size_digest n d Hn Hd Hld) as [-> E]. cbn [mbind option_bind]. by rewrite E.
Qed.

Lemma scan_result_text n d : 0 <= n <= ULONG_MAX -> Proto.wire_token d -> (length d <= 64)%nat -> scan_result (result_text n d) = Some (n, d).
Proof.
  intros Hn Hd Hld. unfold scan_result, result_text. change (str "RESULT " ++ print_nat n ++ [SP] ++ d) with (str "RESULT" ++ SP :: (print_nat n ++ SP :: d)).
  rewrite scan_lit_app. cbn [mbind option_bind]. unfold scan_ws.
  destruct (scan_size_digest n d Hn Hd Hld) as [-> E]. cbn [mbind option_bind]. by rewrite E.
Qed.

Lemma digits_line n : Forall line_byte (print_nat n).
Proof.
  eapply Forall_impl; [apply print_nat_isdigit|]. intros c H. unfold isdigit in H. to_prop. unfold line_byte, NL, CR. lia.
Qed.

Lemma task_text_line task n d : Proto.wire_token task -> Proto.wire_token d -> Forall line_byte (task_text task n d).
Proof.
  intros Ht%Proto.wire_token_line Hd%Proto.wire_token_line. unfold task_text. rewrite !Forall_app.
  split_and!; try done; [by apply (bool_decide_unpack _); vm_compute|by repeat constructor|apply digits_line|by repeat constructor].
Qed.

Lemma result_text_line n d : Proto.wire_token d -> Forall line_byte (result_text n d).
Proof.
  intros Hd%Proto.wire_token_line. unfold result_text. rewrite !Forall_app.
  split_and!; try done; [by apply (bool_decide_unpack _); vm_compute|apply digits_line|by repeat constructor].
Qed.

Lemma size_length n : 0 <= n <= MAX_SIZE -> (length (print_nat n) <= 8)%nat.
Proof. intros H. apply print_nat_length10. unfold MAX_SIZE in H. lia. Qed.

Lemma task_line_eq task n d : 0 <= n <= MAX_SIZE -> (length task <= 31)%nat -> (length d <= 64)%nat -> task_line task n d = task_text task n d ++ [NL].
Proof.
  intros Hn Ht Hd. apply size_length in Hn. unfold task_line, snprintf, task_text. rewrite <- !app_assoc. apply take_ge.
  rewrite !length_app. cbn [length str String.length]. cbn. lia.
Qed.

Definition content_digest (content : bytes) : bytes := Auth.hex (Sha.sha256_spec content).
Definition size_of (content : bytes) : Z := Z.of_nat (length content).

Lemma content_digest_token (c : bytes) : Proto.wire_token (content_digest c) /\ length (content_digest c) = 64%nat.
Proof.
  unfold content_digest. rewrite Auth.hex_length, Sha.sha256_spec_length. split; [|done].
  apply Proto.hex_token; [apply Sha.sha256_spec_bytes|rewrite Sha.sha256_spec_length; lia].
Qed.

Lemma result_line_eq n d : 0 <= n <= MAX_SIZE -> (length d <= 64)%nat ->
  snprintf 512 (str "RESULT " ++ print_nat n ++ [SP] ++ d ++ [NL]) = result_text n d ++ [NL].
Proof.
  intros Hn Hd. apply size_length in Hn. unfold snprintf, result_text. rewrite <- !app_assoc. apply take_ge.
  rewrite !length_app. cbn [length str String.length]. cbn. lia.
Qed.

(** ** One step of a dialogue on a willing socket *)

Notation positive := (Forall (fun z => 0 < z)).

Section steps.
Context {B : Type} (w : world) (i o : bytes) (zs : list Z) (Hz : positive zs).

Lemma step_send d (k : bool -> st io B) : Forall (fun c => 0 < c) d ->
  exists zs', (on_snd (network_send d) ≫= k) (w, Socket i o zs) = k true (w, Socket i (o ++ d) zs') /\ positive zs'.
Proof.
  intros Hd. destruct (Proto.network_send_ok d (Socket i o zs) Hz Hd) as (zs' & E & Hz'). exists zs'. split; [|done].
  rewrite bind_on_snd, E. done.
Qed.

Lemma step_line n line rest (k : option bytes -> st io B) : i = line ++ NL :: rest -> Forall line_byte line -> (length line + 1 < n)%nat ->
  exists zs', (on_snd (network_read_line n) ≫= k) (w, Socket i o zs) = k (Some line) (w, Socket rest o zs') /\ positive zs'.
Proof.
  intros -> Hl Hn. destruct (network_read_line_ok n line rest o zs Hz Hl Hn) as (zs' & E & Hz'). exists zs'. split; [|done].
  rewrite bind_on_snd, E. done.
Qed.

Lemma step_stream path content (k : bool -> st io B) : w_fs w !! path = Some content -> w_faults w = [] ->
  exists zs', (Files.file_transfer_send_stream path ≫= k) (w, Socket i o zs) = k true (w, Socket i (o ++ content) zs') /\ positive zs'.
Proof.
  intros Hf Hw. destruct (Files.send_stream_run path content w (Socket i o zs) Hf Hw Hz) as (zs' & E & Hz'). exists zs'. split; [|done].
  rewrite st_bind_run, E. done.
Qed.

Lemma step_receive directory name content rest r rs (k : Files.receive_result -> st io B) : i = content ++ rest ->
  w_faults w = [] -> w_random w = Some r :: rs -> length r = 16%nat -> Files.file_transfer_name_is_safe name = true -> (length directory <= 800)%nat ->
  exists w' zs', (Files.file_transfer_receive_stream directory name (size_of content) (content_digest content) (Z.to_nat 1024) ≫= k) (w, Socket i o zs)
      = k (Files.Received (Files.final_name directory (Auth.hex r) name)) (w', Socket rest o zs')
    /\ w_fs w' = <[Files.final_name directory (Auth.hex r) name := content]> (delete (Files.final_name directory (Auth.hex r) name ++ str ".part") (w_fs w))
    /\ w_faults w' = [] /\ w_kept w' = w_kept w /\ w_random w' = rs /\ positive zs'.
Proof.
  intros -> Hf Hr Hl Hn Hd.
  destruct (Files.receive_run name content directory r rs rest w (Socket (content ++ rest) o zs)) as (stored & w1 & z & E & Hfs & -> & H); try done.
  exists w1, z. rewrite st_bind_run. unfold size_of, content_digest. rewrite E. cbn [fst snd s_out]. split; [reflexivity|]. split; [exact Hfs|]. tauto.
Qed.
End steps.

(** Take the step that is next in the goal. *)
Ltac take_step :=
  match goal with
  | Hz : positive ?zs |- context [(on_snd (network_send ?d) ≫= ?k) (?w, Socket ?i ?o ?zs)] =>
      let z := fresh "z" in let E := fresh "E" in let H := fresh "Hz" in destruct (step_send w i o zs Hz d k) as (z & E & H); [|rewrite E; clear E Hz]
  | Hz : positive ?zs |- context [(on_snd (network_read_line ?n) ≫= ?k) (?w, Socket ((?line ++ [NL]) ++ ?rest) ?o ?zs)] =>
      let z := fresh "z" in let E := fresh "E" in let H := fresh "Hz" in
      destruct (step_line w ((line ++ [NL]) ++ rest) o zs Hz n line rest k) as (z & E & H); [by rewrite <- app_assoc| | |rewrite E; clear E Hz]
  | Hz : positive ?zs, Hc : w_fs ?w !! ?p = Some ?c |- context [(Files.file_transfer_send_stream ?p ≫= ?k) (?w, Socket ?i ?o ?zs)] =>
      let z := fresh "z" in let E := fresh "E" in let H := fresh "Hz" in destruct (step_stream w i o zs Hz p c k Hc) as (z & E & H); [|rewrite E; clear E Hz]
  end.

Ltac take_receive w' Hfs Hf :=
  lazymatch goal with
  | Hz : positive ?zs, Hr : w_random ?w = Some ?r :: ?rs |- context [(Files.file_transfer_receive_stream ?d ?n (size_of ?c) (content_digest ?c) _ ≫= ?k) (?w, Socket (?c ++ ?rest) ?o ?zs)] =>
      let z := fresh "z" in let E := fresh "E" in let H := fresh "Hz" in let Hr' := fresh "Hr" in let Hkept := fresh "Hk" in
      destruct (step_receive w (c ++ rest) o zs Hz d n c rest r rs k eq_refl) as (w' & z & E & Hfs & Hf & Hkept & Hr' & H); [|exact Hr| | | |rewrite E; clear E Hz]
  end.

(** ** The worker answers with what the stage makes of the input *)

(** The name [mkstemps] makes of a template and six characters of its choice. *)
Definition fill (template : bytes) (n : nat) (x : bytes) : bytes :=
  take (length template - n - 6) template ++ x ++ drop (length template - n) template.

(** What mkstemps(3) promises: a call that picks [x] creates that file, empty, if there
    is none of this name yet. *)
Definition creates (mkstemps : bytes -> nat -> st world (bool * bytes)) (x : bytes) : Prop :=
  forall template n w, w_faults w = [] -> w_fs w !! fill template n x = None ->
  exists w', mkstemps template n w = ((true, fill template n x), w') /\ w_fs w' = <[fill template n x := []]> (w_fs w)
    /\ w_faults w' = [] /\ w_kept w' = w_kept w /\ w_random w' = w_random w.

(** A stage that makes [result] of [content] when no call fails. *)
Definition computes (stage : bytes -> bytes -> st world bool) (content result : bytes) : Prop :=
  forall input output w, w_faults w = [] -> input <> output -> w_fs w !! input = Some content ->
  exists w', stage input output w = (true, w') /\ w_fs w' = <[output := result]> (w_fs w) /\ w_faults w' = [] /\ w_kept w' = w_kept w /\ w_random w' = w_random w.

Lemma after_last_absent c s : c ∉ s -> after_last c s = None.
Proof.
  induction s as [|x s IH]; [done|]. intros H. apply not_elem_of_cons in H as [Hx Hs]. cbn [after_last]. rewrite IH by done.
  destruct (Z.eqb_spec x c); [by subst|done].
Qed.

Lemma after_last_app c a s : c ∉ s -> after_last c (a ++ c :: s) = Some s.
Proof.
  intros Hs. induction a as [|x a IH]; cbn [app after_last]; [|by rewrite IH].
  rewrite after_last_absent by done. by rewrite Z.eqb_refl.
Qed.

Lemma base_name_tmp name : Files.file_transfer_name_is_safe name = true -> Files.base_name (str "/tmp/" ++ name) = name.
Proof.
  intros H. apply Files.safe_name_no_slash in H as [H1 H2]. unfold Files.base_name.
  change (str "/tmp/" ++ name) with (str "/tmp" ++ 47 :: name). rewrite after_last_app by done.
  rewrite after_last_absent; [done|]. rewrite not_elem_of_app. split; [by apply (bool_decide_unpack _); vm_compute|].
  apply not_elem_of_cons. by split.
Qed.

(** The characters mkstemps chooses from. *)
Definition picked (x : bytes) : Prop := length x = 6%nat /\ Forall (fun c => isalnum c = true) x.

Definition output_name (task x : bytes) : bytes := str "/tmp/" ++ (str "rose-worker-output-" ++ x ++ output_suffix task).

Lemma output_template task x :
  fill (snprintf (Z.to_nat 1024) (str "/tmp/rose-worker-output-XXXXXX" ++ output_suffix task)) (length (output_suffix task)) x = output_name task x.
Proof. unfold output_name, output_suffix. by destruct (bytes_eqb task (str "ENVELOPE")). Qed.

Lemma output_name_safe task x : picked x ->
  Files.file_transfer_name_is_safe (str "rose-worker-output-" ++ x ++ output_suffix task) = true.
Proof.
  intros [Hl Hx]. apply Files.name_is_safe_spec.
  assert (Hs : (length (output_suffix task) = 4)%nat /\ Forall (fun c => Files.name_char c = true) (output_suffix task)).
  { unfold output_suffix. destruct (bytes_eqb task _); split; [done| |done|]; by apply (bool_decide_unpack _); vm_compute. }
  destruct Hs as [Hsl Hs]. split_and!.
  - rewrite !length_app, Hl, Hsl. cbn. lia.
  - rewrite !length_app, Hl, Hsl. cbn. unfold Files.COUNCIL_FILE_NAME. lia.
  - done.
  - done.
  - rewrite !Forall_app. split_and!; [by apply (bool_decide_unpack _); vm_compute| |done].
    eapply Forall_impl; [exact Hx|]. intros c Hc. unfold Files.name_char. by rewrite Hc.
Qed.

(** The name under which the worker keeps its input. *)
Definition input_path_of (r task : bytes) : bytes := Files.final_name (str "/tmp") (Auth.hex r) (input_name task).

Section working.
Context (voice_stage_piper voice_stage_sox : bytes -> bytes -> st world bool) (mkstemps : bytes -> nat -> st world (bool * bytes)).
Context (task content result x : bytes).
Hypothesis (Hmake : creates mkstemps x) (Hx : picked x).
Hypothesis (Hstage : computes (execute_task voice_stage_piper voice_stage_sox task) content result).
Hypothesis (Hresult : size_of result < 2 ^ 64).

Lemma input_name_safe : Files.file_transfer_name_is_safe (input_name task) = true.
Proof. unfold input_name. destruct (bytes_eqb task _); vm_compute; reflexivity. Qed.

(** Input and output have different names, the input's being longer. *)
Lemma input_not_output r : length r = 16%nat -> input_path_of r task <> output_name task x.
Proof.
  intros Hr H. apply (f_equal length) in H. destruct Hx as [Hl _]. revert H. unfold input_path_of, Files.final_name, output_name.
  rewrite !length_app, Auth.hex_length, Hr, Hl. unfold input_name, output_suffix.
  destruct (bytes_eqb task (str "PIPER")), (bytes_eqb task (str "ENVELOPE")); cbn; lia.
Qed.

Lemma work_run r rs rest w o zs : w_faults w = [] -> w_random w = Some r :: rs -> length r = 16%nat -> positive zs ->
  w_fs w !! output_name task x = None ->
  exists w' zs', work voice_stage_piper voice_stage_sox mkstemps task (size_of content) (content_digest content) (w, Socket (content ++ rest) o zs)
    = ((Some (input_path_of r task), Some (output_name task x), Some (size_of result, content_digest result)), (w', Socket rest (o ++ str "READY" ++ [NL]) zs'))
    /\ w_fs w' = <[output_name task x := result]> (<[input_path_of r task := content]> (delete (input_path_of r task ++ str ".part") (w_fs w)))
    /\ w_faults w' = [] /\ w_kept w' = w_kept w /\ positive zs'.
Proof.
  intros Hf Hr Hl Hz Hfresh. unfold work.
  take_step; [by apply (bool_decide_unpack _); vm_compute|]. cbn [negb].
  take_receive w1 Hfs Hf1; [exact Hf|exact Hl|apply input_name_safe|cbn; lia|].
  change (Files.final_name _ _ _) with (input_path_of r task) in *.
  rewrite bind_on_fst. unfold make_output. pose proof (input_not_output r Hl) as Hne.
  destruct (Hmake (snprintf (Z.to_nat 1024) (str "/tmp/rose-worker-output-XXXXXX" ++ output_suffix task)) (length (output_suffix task)) w1 Hf1)
    as (w2 & E2 & Hfs2 & Hf2 & Hk2 & _); rewrite output_template in *.
  { rewrite Hfs, lookup_insert_ne by done. destruct (decide (input_path_of r task ++ str ".part" = output_name task x)) as [->|]; [by rewrite lookup_delete_eq|by rewrite lookup_delete_ne]. }
  rewrite E2. cbn [fst snd negb]. rewrite bind_on_fst.
  destruct (Hstage (input_path_of r task) (output_name task x) w2 Hf2 Hne) as (w3 & E3 & Hfs3 & Hf3 & Hk3 & _).
  { rewrite Hfs2, lookup_insert_ne by done. by rewrite Hfs, lookup_insert_eq. }
  rewrite E3. cbn [fst snd negb]. rewrite bind_on_fst.
  rewrite (Files.describe_run (output_name task x) result w3);
    [|by rewrite Hfs3, lookup_insert_eq|done|unfold output_name; rewrite base_name_tmp by (by apply output_name_safe); by apply output_name_safe|done].
  cbn [fst snd mbind option_bind]. eexists w3, _. split_and!; try done; [by rewrite Hfs3, Hfs2, insert_insert_eq, Hfs|by rewrite Hk3, Hk2].
Qed.

Lemma deliver_run output rest w o zs : w_fs w !! output = Some result -> w_faults w = [] -> size_of result <= MAX_SIZE -> positive zs ->
  exists zs', deliver_result output (size_of result) (content_digest result) (w, Socket ((str "READY" ++ [NL]) ++ rest) o zs)
    = (tt, (w, Socket rest (o ++ (result_text (size_of result) (content_digest result) ++ [NL]) ++ result) zs')) /\ positive zs'.
Proof.
  intros Hfile Hf Hsize Hz. destruct (content_digest_token result) as [Hd Hdl]. unfold deliver_result.
  rewrite result_line_eq by (unfold size_of in *; lia).
  take_step; [by apply Proto.positive_line, result_text_line|]. cbn [negb].
  take_step; [by apply (bool_decide_unpack _); vm_compute|cbn; lia|]. rewrite bool_decide_true by done.
  take_step; [done|]. rewrite <- app_assoc. eauto.
Qed.

(** The files of the worker while it answers: its input and its output. *)
Lemma run_task_run r rs rest w o zs : w_faults w = [] -> w_kept w = [] -> w_random w = Some r :: rs -> length r = 16%nat -> positive zs ->
  size_of result <= MAX_SIZE -> w_fs w !! output_name task x = None -> w_fs w !! input_path_of r task = None -> w_fs w !! (input_path_of r task ++ str ".part") = None ->
  exists w' zs', run_task voice_stage_piper voice_stage_sox mkstemps task (size_of content) (content_digest content) (w, Socket (content ++ (str "READY" ++ [NL]) ++ rest) o zs)
    = (tt, (w', Socket rest (o ++ (str "READY" ++ [NL]) ++ (result_text (size_of result) (content_digest result) ++ [NL]) ++ result) zs'))
    /\ w_fs w' = w_fs w /\ positive zs'.
Proof.
  intros Hf Hk Hr Hl Hz Hsize Ho Hi Hp. unfold run_task. rewrite st_bind_run.
  destruct (work_run r rs ((str "READY" ++ [NL]) ++ rest) w o zs Hf Hr Hl Hz Ho) as (w1 & z1 & -> & Hfs & Hf1 & Hk1 & Hz1). cbn [fst snd].
  rewrite Hk in Hk1. rewrite st_bind_run.
  destruct (deliver_run (output_name task x) rest w1 (o ++ str "READY" ++ [NL]) z1) as (z2 & -> & Hz2); [by rewrite Hfs, lookup_insert_eq|done..|].
  cbn [fst snd]. eexists _, z2. split_and!; [|cbn [w_fs]|done].
  - rewrite st_bind_run. cbn [remove_if]. change (bytes_eqb (output_name task x) []) with false. change (bytes_eqb (input_path_of r task) []) with false.
    cbn iota. rewrite !st_bind_run, !on_fst_run. cbn [fst snd]. rewrite (file_remove_ok _ w1) by done. cbn [fst snd mret st_ret].
    rewrite file_remove_ok by done. cbn [fst snd]. rewrite <- !app_assoc. reflexivity.
  - cbn [unlink w_fs]. rewrite Hfs, delete_insert_eq, delete_delete, (delete_id (w_fs w)), delete_insert_id, delete_id; done.
Qed.

(** What the two ends say after the handshake. *)
Definition client_part : bytes := (task_text task (size_of content) (content_digest content) ++ [NL]) ++ content ++ (str "READY" ++ [NL]).
Definition worker_part : bytes := (str "READY" ++ [NL]) ++ (result_text (size_of result) (content_digest result) ++ [NL]) ++ result.

Lemma handle_run uninit book i c r0 r rs rest w ss :
  Proto.wire_token task -> (length task <= 31)%nat -> known_task task = true -> size_of content <= MAX_SIZE -> size_of result <= MAX_SIZE ->
  Book.contact_book_find book (name c) = Some i -> book !! i = Some c -> role c = CONTACT_AI -> Proto.wire_token (name c) -> (length (name c) <= 63)%nat ->
  w_faults w = [] -> w_kept w = [] -> w_random w = Some r0 :: Some r :: rs -> length r0 = 16%nat -> bytes_ok r0 -> length r = 16%nat -> willing ss ->
  w_fs w !! output_name task x = None -> w_fs w !! input_path_of r task = None -> w_fs w !! (input_path_of r task ++ str ".part") = None ->
  s_in ss = (Proto.auth_text (name c) (Auth.authentication_digest (shared_key c) (name c) (Auth.hex r0)) ++ [NL]) ++ client_part ++ rest ->
  exists w' zs', handle voice_stage_piper voice_stage_sox mkstemps uninit book (w, ss)
    = (tt, (w', Socket rest (s_out ss ++ ((str "NONCE " ++ Auth.hex r0 ++ [NL]) ++ str "OK" ++ [NL]) ++ worker_part) zs')) /\ w_fs w' = w_fs w.
Proof.
  intros Ht Htl Hk Hc Hrs Hfind Hbook Hrole Hn Hnl Hf Hkept Hr Hl0 Hb0 Hl Hss Ho Hi Hp Hin. destruct (content_digest_token content) as [Hd Hdl].
  unfold handle. rewrite <- Hrole, st_bind_run.
  destruct (Proto.accept_known uninit book i c r0 (Some r :: rs) (client_part ++ rest) w ss) as (w1 & z1 & -> & Hz1 & Hfs1 & Hf1 & Hr1 & Hk1); try done.
  cbn [fst snd]. unfold client_part. rewrite <- (app_assoc (_ ++ [NL]) (content ++ _) rest).
  take_step; [by apply task_text_line| |].
  { pose proof (size_length (size_of content) ltac:(unfold size_of in *; lia)). unfold task_text. rewrite !length_app, Hdl. cbn. lia. }
  change (bytes_eqb (task_text task _ _) (str "PING")) with false. cbn iota.
  rewrite scan_task_text; [|unfold size_of, MAX_SIZE, ULONG_MAX in *; lia|done|done|done|lia].
  destruct (Z.ltb_spec MAX_SIZE (size_of content)); [lia|]. rewrite Hk. cbn [negb orb].
  rewrite <- app_assoc. edestruct (run_task_run r rs rest w1) as (w2 & z2 & -> & Hfs2 & _); try done; [by rewrite Hf1|by rewrite Hk1|by rewrite Hfs1..|].
  exists w2, z2. split; [|by rewrite Hfs2, Hfs1]. unfold worker_part. by rewrite <- !app_assoc.
Qed.

(** ** The asking side gets it *)

Lemma request_run input_path rest w o zs :
  Proto.wire_token task -> (length task <= 31)%nat -> size_of content <= MAX_SIZE -> size_of result <= MAX_SIZE ->
  w_fs w !! input_path = Some content -> w_faults w = [] -> positive zs ->
  exists zs', request_stage (task_line task (size_of content) (content_digest content)) input_path
      (w, Socket ((str "READY" ++ [NL]) ++ (result_text (size_of result) (content_digest result) ++ [NL]) ++ rest) o zs)
    = (Some (size_of result, content_digest result), (w, Socket rest (o ++ client_part) zs')) /\ positive zs'.
Proof.
  clear Hmake Hx Hstage Hresult.
  intros Ht Htl Hc Hr Hfile Hf Hz. destruct (content_digest_token content) as [Hd Hdl]. destruct (content_digest_token result) as [Hd' Hdl'].
  pose proof (size_length (size_of result) ltac:(unfold size_of in *; lia)) as Hsl.
  unfold request_stage. rewrite task_line_eq by (unfold size_of in *; lia).
  take_step; [by apply Proto.positive_line, task_text_line|]. cbn [negb].
  take_step; [by apply (bool_decide_unpack _); vm_compute|cbn; lia|]. rewrite bool_decide_true by done. cbn [negb].
  take_step; [done|]. cbn [negb].
  take_step; [by apply result_text_line|unfold result_text; rewrite !length_app, Hdl'; cbn; lia|].
  cbn [mbind option_bind]. rewrite scan_result_text by (done || unfold size_of, MAX_SIZE, ULONG_MAX in *; lia).
  destruct (Z.ltb_spec MAX_SIZE (size_of result)); [lia|].
  take_step; [by apply (bool_decide_unpack _); vm_compute|]. cbn iota. eexists. split; [|eassumption]. unfold client_part.
  by rewrite <- !app_assoc.
Qed.

Lemma dialogue_run input_path r rs rest w o zs :
  Proto.wire_token task -> (length task <= 31)%nat -> size_of content <= MAX_SIZE -> size_of result <= MAX_SIZE ->
  w_fs w !! input_path = Some content -> w_faults w = [] -> w_random w = Some r :: rs -> length r = 16%nat -> positive zs ->
  let stored := Files.final_name (str "/tmp") (Auth.hex r) (str "rose-voice-result") in
  exists w' zs', stage_dialogue (task_line task (size_of content) (content_digest content)) input_path (w, Socket (worker_part ++ rest) o zs)
    = (Some stored, (w', Socket rest (o ++ client_part) zs'))
    /\ w_fs w' = <[stored := result]> (delete (stored ++ str ".part") (w_fs w)) /\ w_faults w' = [].
Proof.
  clear Hmake Hx Hstage Hresult.
  intros Ht Htl Hc Hr Hfile Hf Hrand Hrl Hz stored. unfold stage_dialogue, worker_part. rewrite <- !app_assoc, st_bind_run.
  rewrite !(app_assoc _ [NL]).
  destruct (request_run input_path (result ++ rest) w o zs Ht Htl Hc Hr Hfile Hf Hz) as (z1 & -> & Hz1). cbn [fst snd].
  take_receive w1 Hfs Hf1; [done|done|vm_compute; reflexivity|cbn; lia|]. eauto.
Qed.
End working.

(** ** Outgoing connections of a reception *)

Section closed.
Context (l : list (bytes * Z * socket)).

Lemma keeps_file_op {A} (m : st world A) : (forall w, w_closed (m w).2 = w_closed w) -> keeps (fun s : io => w_closed s.1 = l) (on_fst m).
Proof. intros Hm [w s] H. rewrite on_fst_run. cbn [fst snd] in *. by rewrite Hm. Qed.

Lemma keeps_socket_op {A} (m : st socket A) : keeps (fun s : io => w_closed s.1 = l) (on_snd m).
Proof. intros [w s] H. by rewrite on_snd_run. Qed.

Lemma fault_keeps_closed w : w_closed (fault w).2 = w_closed w.
Proof. unfold fault. by destruct (w_faults w). Qed.

Lemma file_create_closed p w : w_closed (file_create p w).2 = w_closed w.
Proof. unfold file_create. rewrite st_bind_run. rewrite <- (fault_keeps_closed w). by destruct (fault w) as [[] w1]. Qed.

Lemma file_write_closed p d w : w_closed (file_write p d w).2 = w_closed w.
Proof. unfold file_write. rewrite st_bind_run. rewrite <- (fault_keeps_closed w). by destruct (fault w) as [[] w1]. Qed.

Lemma file_rename_closed p q w : w_closed (file_rename p q w).2 = w_closed w.
Proof.
  unfold file_rename. rewrite st_bind_run. rewrite <- (fault_keeps_closed w). destruct (fault w) as [b w1]. cbn [fst snd].
  rewrite st_bind_run. cbn [file_read gets fst snd]. by destruct b, (w_fs w1 !! p).
Qed.

Lemma nonce_closed w : w_closed (Auth.authentication_nonce w).2 = w_closed w.
Proof. unfold Auth.authentication_nonce. rewrite st_bind_run. unfold urandom. by destruct (w_random w). Qed.

#[local] Hint Resolve fault_keeps_closed keeps_socket_op keeps_file_op file_create_closed file_write_closed file_rename_closed nonce_closed : noobia.

Lemma keeps_receive_loop fuel tmp n parts : keeps (fun s : io => w_closed s.1 = l) (Files.receive_loop fuel tmp n parts).
Proof.
  revert n parts. induction fuel as [|f IH]; intros n parts; destruct n as [|n]; cbn [Files.receive_loop]; keeps_auto; auto.
Qed.

#[local] Hint Resolve keeps_receive_loop : noobia.

Lemma file_remove_closed p w : w_closed (file_remove p w).2 = w_closed w.
Proof. unfold file_remove, removal_fails. rewrite st_bind_run. by destruct w as [? ? ? ? ? ? ? ? [|[] ?]]. Qed.

#[local] Hint Resolve file_remove_closed : noobia.

Lemma keeps_discard p a : keeps (fun s : io => w_closed s.1 = l) (Files.discard p a).
Proof. unfold Files.discard. keeps_auto. Qed.

#[local] Hint Resolve keeps_discard : noobia.

Lemma keeps_receive d n size digest z : keeps (fun s : io => w_closed s.1 = l) (Files.file_transfer_receive_stream d n size digest z).
Proof. unfold Files.file_transfer_receive_stream. keeps_auto. Qed.
End closed.

Lemma dialogue_closed line path w s : w_closed (stage_dialogue line path (w, s)).2.1 = w_closed w.
Proof.
  assert (K : keeps (fun s : io => w_closed s.1 = w_closed w) (stage_dialogue line path)).
  { pose proof (@keeps_socket_op (w_closed w)) as K1. pose proof (keeps_receive (w_closed w)) as K2.
    pose proof (@keeps_file_op (w_closed w)) as K3. pose proof fault_keeps_closed as K4.
    unfold stage_dialogue, request_stage, Files.file_transfer_send_stream. keeps_auto; auto; apply K3; done. }
  by apply (K (w, s)).
Qed.

(** The file the asking side receives into. *)
Definition result_path (r : bytes) : bytes := Files.final_name (str "/tmp") (Auth.hex r) (str "rose-voice-result").

Lemma task_name_facts t : Proto.wire_token (task_name t) /\ (length (task_name t) <= 31)%nat /\ known_task (task_name t) = true.
Proof. destruct t; split_and!; try (by apply (bool_decide_unpack _); vm_compute); cbn; lia. Qed.

(** What the two ends say to each other. *)
Definition client_says (sender : contact) (r0 task content : bytes) : bytes :=
  (Proto.auth_text (name sender) (Auth.authentication_digest (shared_key sender) (name sender) (Auth.hex r0)) ++ [NL]) ++ client_part task content.
Definition worker_says (r0 result : bytes) : bytes :=
  ((str "NONCE " ++ Auth.hex r0 ++ [NL]) ++ str "OK" ++ [NL]) ++ worker_part result.

Lemma remote_run worker sender t input_path output_path content result r0 r rs cs ps w :
  Proto.wire_token (name sender) -> (length (name sender) <= 63)%nat -> port worker <= 64535 -> length r0 = 16%nat -> bytes_ok r0 ->
  size_of content <= MAX_SIZE -> size_of result <= MAX_SIZE -> Files.file_transfer_name_is_safe (Files.base_name input_path) = true ->
  w_fs w !! input_path = Some content -> w_faults w = [] -> w_random w = Some r :: rs -> length r = 16%nat ->
  w_fs w !! result_path r = None -> w_fs w !! (result_path r ++ str ".part") = None ->
  w_peers w = Some cs :: ps -> willing cs -> s_in cs = worker_says r0 result ->
  exists w' zs, voice_remote_run worker sender t input_path output_path w = (true, w') /\ w_fs w' = <[output_path := result]> (w_fs w)
    /\ w_closed w' = w_closed w ++ [(host worker, to_u16 (port worker + 1000), Socket [] (s_out cs ++ client_says sender r0 (task_name t) content) zs)].
Proof.
  intros Hn Hnl Hport Hl0 Hb0 Hc Hrs Hsafe Hfile Hf Hr Hl Hres Hpart Hp Hcs Hin. destruct (task_name_facts t) as (Ht & Htl & _).
  unfold voice_remote_run, destination_for_worker. destruct (Z.ltb_spec 64535 (port worker)); [lia|].
  rewrite st_bind_run, (Files.describe_run input_path content) by (done || unfold size_of, MAX_SIZE in *; lia). cbn [fst snd].
  fold (size_of content) (content_digest content).
  rewrite st_bind_run. unfold Proto.protocol_connect_identity_timeout. rewrite st_bind_run. unfold connect_peer. rewrite Hp. cbn [fst snd].
  set (w1 := World _ _ _ _ _ _ _ _ _). cbn [shared_key host port].
  destruct (Proto.client_handshake_run (shared_key sender) (name sender) (Auth.hex r0) (worker_part result ++ []) cs) as (z1 & -> & Hz1); try done.
  { rewrite Hin, app_nil_r. unfold worker_says. by rewrite <- !app_assoc. }
  { apply Proto.hex_token; [done|lia]. }
  { rewrite Auth.hex_length. lia. }
  cbn [fst snd mret st_ret]. rewrite st_bind_run, fault_none by done. cbn [fst snd]. rewrite st_bind_run. unfold Files.with_socket.
  destruct (dialogue_run (task_name t) content result input_path r rs [] w1
    (s_out cs ++ Proto.auth_text (name sender) (Auth.authentication_digest (shared_key sender) (name sender) (Auth.hex r0)) ++ [NL]) z1)
    as (w2 & z2 & E & Hfs & Hf2); try done.
  pose proof (dialogue_closed (task_line (task_name t) (size_of content) (content_digest content)) input_path w1
    (Socket (worker_part result ++ []) (s_out cs ++ Proto.auth_text (name sender) (Auth.authentication_digest (shared_key sender) (name sender) (Auth.hex r0)) ++ [NL]) z1)) as Hcl.
  rewrite E in Hcl |- *. cbn [fst snd] in Hcl |- *. rewrite st_bind_run. cbn [close_peer modify fst snd]. fold (result_path r).
  rewrite st_bind_run. set (w3 := World _ _ _ _ _ _ _ _ _).
  assert (Hf3 : w_fs w3 = <[result_path r := result]> (w_fs w)).
  { subst w3. cbn [w_fs]. rewrite Hfs. subst w1. cbn [w_fs]. fold (result_path r). by rewrite (delete_id (w_fs w)). }
  rewrite (file_rename_ok w3 Hf2 (result_path r) output_path result) by (by rewrite Hf3, lookup_insert_eq). cbn [fst snd].
  eexists _, z2. split; [reflexivity|]. cbn [move w_fs w_closed]. split.
  - by rewrite Hf3, delete_insert_id.
  - subst w3. cbn [w_closed]. rewrite Hcl. unfold client_says. by rewrite <- !app_assoc.
Qed.

(** C24: a stage on another machine is the stage: when no call fails, the asking side
    holds the key the worker has for it, and the stage makes [result] of [content], then
    what each end sends is exactly what the other end reads, voice_remote_run succeeds
    and leaves the result, and nothing else, at the output path, and the worker ends
    with the files it had before. *)
Theorem remote_stage voice_stage_piper voice_stage_sox mkstemps uninit book i worker sender t content result x
    input_path output_path r0 r1 r2 rs1 rs2 ps w1 w2 cs ss :
  creates mkstemps x -> picked x -> computes (execute_task voice_stage_piper voice_stage_sox (task_name t)) content result ->
  size_of content <= MAX_SIZE -> size_of result <= MAX_SIZE ->
  Book.contact_book_find book (name sender) = Some i -> book !! i = Some sender -> role sender = CONTACT_AI ->
  Proto.wire_token (name sender) -> (length (name sender) <= 63)%nat -> port worker <= 64535 ->
  w_faults w1 = [] -> w_random w1 = Some r1 :: rs1 -> length r1 = 16%nat -> w_fs w1 !! input_path = Some content ->
  Files.file_transfer_name_is_safe (Files.base_name input_path) = true ->
  w_fs w1 !! result_path r1 = None -> w_fs w1 !! (result_path r1 ++ str ".part") = None -> w_peers w1 = Some cs :: ps ->
  w_faults w2 = [] -> w_kept w2 = [] -> w_random w2 = Some r0 :: Some r2 :: rs2 -> length r0 = 16%nat -> bytes_ok r0 -> length r2 = 16%nat ->
  w_fs w2 !! output_name (task_name t) x = None -> w_fs w2 !! input_path_of r2 (task_name t) = None ->
  w_fs w2 !! (input_path_of r2 (task_name t) ++ str ".part") = None ->
  willing cs -> willing ss -> s_in cs = worker_says r0 result -> s_in ss = client_says sender r0 (task_name t) content ->
  (exists w1' zs, voice_remote_run worker sender t input_path output_path w1 = (true, w1') /\ w_fs w1' = <[output_path := result]> (w_fs w1)
    /\ w_closed w1' = w_closed w1 ++ [(host worker, to_u16 (port worker + 1000), Socket [] (s_out cs ++ client_says sender r0 (task_name t) content) zs)])
  /\ (exists w2' zs, handle voice_stage_piper voice_stage_sox mkstemps uninit book (w2, ss)
         = (tt, (w2', Socket [] (s_out ss ++ worker_says r0 result) zs)) /\ w_fs w2' = w_fs w2).
Proof.
  intros. destruct (task_name_facts t) as (Ht & Htl & Hk). split; [by eapply remote_run|].
  edestruct (handle_run voice_stage_piper voice_stage_sox mkstemps (task_name t) content result x) as (w2' & zs & E & Hfs); cycle -1;
    [exists w2', zs; split; [exact E|exact Hfs]|..]; try eassumption; [unfold size_of, MAX_SIZE in *; lia|].
  rewrite app_nil_r. eassumption.
Qed.

(** ** An example: the envelope of a recording *)

Lemma envelope_computes content levels : RoseStage.wav_levels content = Some levels -> Z.of_nat (length levels) < 2 ^ 32 ->
  computes RoseStage.voice_stage_envelope content (str "RVL1" ++ RoseStage.le32_bytes (Z.of_nat (length levels)) ++ levels).
Proof.
  intros Hlev Hl input output w Hf _ Hin. unfold RoseStage.voice_stage_envelope. rewrite st_bind_run. cbn [file_read gets fst snd].
  rewrite Hin. cbn [mbind option_bind]. rewrite Hlev. destruct (Z.leb_spec (2 ^ 32) (Z.of_nat (length levels))); [lia|].
  rewrite st_bind_run, file_create_ok by done. cbn [fst snd negb].
  do 3 (rewrite st_bind_run, file_write_ok by done; cbn [fst snd negb]). rewrite st_bind_run, fault_none by done. cbn [fst snd].
  eexists. split; [reflexivity|]. split_and!; try done. cbn [store w_fs]. rewrite !lookup_insert_eq, !insert_insert_eq. cbn [default from_option id app]. by rewrite <- app_assoc.
Qed.

Definition no_stage (input output : bytes) : st world bool := mret false.

(** A [mkstemps] that always picks the same name. *)
Definition pick (template : bytes) (n : nat) : st world (bool * bytes) := fun w =>
  let p := fill template n (str "abcdef") in
  if decide (w_fs w !! p = None) then ((true, p), store p [] w) else ((false, p), w).

Lemma pick_creates : creates pick (str "abcdef").
Proof. intros template n w Hf Hp. unfold pick. rewrite decide_True by done. eexists. split; [reflexivity|]. done. Qed.

Definition example_sender : contact := Proto.sample_person.
Definition example_worker : contact := Contact (str "Trinity") CONTACT_AI (str "10.0.0.2") 7002 (str "other") 0 0.
Definition example_result : bytes := str "RVL1" ++ RoseStage.le32_bytes 3 ++ [53; 255; 23].
Definition example_cs : socket := Socket (worker_says Proto.sample_random example_result) [] [3; 1].
Definition example_ss : socket := Socket (client_says example_sender Proto.sample_random (task_name VOICE_TASK_ENVELOPE) RoseStage.example_wav) [] [2].
Definition example_w1 : world := World {[str "/tmp/dry.wav" := RoseStage.example_wav]} 0 [] [] [Some (replicate 16 1)] [Some example_cs] ∅ [] [].
Definition example_w2 : world := World ∅ 0 [] [] [Some Proto.sample_random; Some (replicate 16 2)] [] ∅ [] [].

Lemma remote_stage_witness :
  (exists w1' zs, voice_remote_run example_worker example_sender VOICE_TASK_ENVELOPE (str "/tmp/dry.wav") (str "/tmp/light.env") example_w1 = (true, w1')
    /\ w_fs w1' = <[str "/tmp/light.env" := example_result]> (w_fs example_w1)
    /\ w_closed w1' = w_closed example_w1 ++ [(host example_worker, to_u16 (port example_worker + 1000),
         Socket [] (s_out example_cs ++ client_says example_sender Proto.sample_random (task_name VOICE_TASK_ENVELOPE) RoseStage.example_wav) zs)])
  /\ (exists w2' zs, handle no_stage no_stage pick [] [example_sender] (example_w2, example_ss)
         = (tt, (w2', Socket [] (s_out example_ss ++ worker_says Proto.sample_random example_result) zs)) /\ w_fs w2' = w_fs example_w2).
Proof.
  apply (remote_stage no_stage no_stage pick [] [example_sender] 0 example_worker example_sender VOICE_TASK_ENVELOPE RoseStage.example_wav example_result
    (str "abcdef") (str "/tmp/dry.wav") (str "/tmp/light.env") Proto.sample_random (replicate 16 1) (replicate 16 2) [] [] [] example_w1 example_w2 example_cs example_ss).
  - exact pick_creates.
  - by apply (bool_decide_unpack _); vm_compute.
  - apply (envelope_computes RoseStage.example_wav [53; 255; 23]); vm_compute; reflexivity.
  - by apply (bool_decide_unpack _); vm_compute.
  - by apply (bool_decide_unpack _); vm_compute.
  - vm_compute. reflexivity.
  - reflexivity.
  - reflexivity.
  - by apply (bool_decide_unpack _); vm_compute.
  - cbn. lia.
  - cbn. lia.
  - reflexivity.
  - reflexivity.
  - reflexivity.
  - vm_compute. reflexivity.
  - vm_compute. reflexivity.
  - vm_compute. reflexivity.
  - vm_compute. reflexivity.
  - reflexivity.
  - reflexivity.
  - reflexivity.
  - reflexivity.
  - reflexivity.
  - by apply (bool_decide_unpack _); vm_compute.
  - reflexivity.
  - vm_compute. reflexivity.
  - vm_compute. reflexivity.
  - vm_compute. reflexivity.
  - by apply (bool_decide_unpack _); vm_compute.
  - by apply (bool_decide_unpack _); vm_compute.
  - reflexivity.
  - reflexivity.
Defined.

End RoseRemote.

(** * The process of the voice worker

    [main] of voice_worker.c: the configuration, and the loop that gives each
    connection to a child process, four at most, while signal handlers count the
    children that have ended and stop the loop.  The handlers run between any two
    steps of the loop, also between the load and the store of [active_children++],
    unless the signal is blocked. *)

Open Scope Z_scope.

Module RoseWorker.

(** ** Configuration *)

Record options := Options { opt_name : option bytes; opt_contacts : bytes }.

(** The loop over [argv + 1]; [None] is the usage error. *)
Fixpoint worker_args (argv : list bytes) (o : options) : option options :=
  match argv with
  | [] => Some o
  | a :: rest =>
      match rest with
      | v :: rest' =>
          if bytes_eqb a (str "--name") then worker_args rest' (Options (Some v) (opt_contacts o))
          else if bytes_eqb a (str "--contacts") then worker_args rest' (Options (opt_name o) v)
          else None
      | [] => None
      end
  end.

(** Who the worker is: its name, its entry and the book; [None] is the exit with 2. *)
Definition worker_configure (argv : list bytes) : st world (option (bytes * contact * contact_book)) :=
  match worker_args argv (Options None (str "/etc/noobia-council/contacts.json")) with
  | None => mret None
  | Some (Options None _) => mret None
  | Some (Options (Some n) path) =>
      loaded ← Book.contact_book_load path;
      mret (match loaded with
            | inl _ => None
            | inr contacts =>
                i ← Book.contact_book_find contacts n;
                self ← contacts !! i;
                if negb (bool_decide (role self = CONTACT_AI)) || (64535 <? port self) then None else Some (n, self, contacts)
            end)
  end.

(** [network_listen("0.0.0.0", (uint16_t)(self->port + 1000))]. *)
Definition worker_port (self : contact) : Z := to_u16 (port self + 1000).

(** ** Notifications *)

(** The bytes of the address [notify_systemd] sends to, [None] when it does not. *)
Definition sun_path_size : nat := 108.
Definition notify_address (path : option bytes) : option bytes :=
  match path with
  | None => None
  | Some p =>
      if bytes_eqb p [] || (sun_path_size <=? length p)%nat then None
      else Some (match p with c :: r => (if c =? 64 then 0 else c) :: r | [] => [] end ++ [0])
  end.

(** unix(7): an address that starts with NUL is an abstract name of all its bytes, any
    other one is the path up to the first NUL. *)
Inductive unix_name := Abstract (n : bytes) | Pathname (p : bytes).
Definition unix_address (a : bytes) : unix_name := match a with 0 :: r => Abstract r | _ => Pathname (cstr a) end.

(** ** The loop *)

(** Where [main] is: the head of the loop, before [poll], [accept], the test of the
    number of children, the time-out, [sigprocmask], [fork], the load and the store of
    [active_children++], [sigprocmask] again, behind the loop, at its end. *)
Inductive pc := Head | Poll | Accept | Cap | SetTimeout | Block | Fork | Load | Store (register : Z) | Unblock | Leave | Done.

(** What the kernel answers. *)
Inductive kernel_answer :=
| NoAnswer | PollTimeout | PollReady | PollInterrupted | PollFailed | Accepted | AcceptInterrupted | AcceptFailed
| TimeoutSet | TimeoutRefused | Forked | ForkFailed.

(** [children] are the child processes that have not been waited for; [true] has ended. *)
Record process := Process {
  running : bool; active_children : Z; listener_open : bool;
  children : list bool; chld_pending : bool; chld_blocked : bool;
  here : pc; notified : list bytes
}.

Definition go (p : pc) (s : process) : process :=
  Process (running s) (active_children s) (listener_open s) (children s) (chld_pending s) (chld_blocked s) p (notified s).
Definition notify_systemd (m : bytes) (s : process) : process :=
  Process (running s) (active_children s) (listener_open s) (children s) (chld_pending s) (chld_blocked s) (here s) (notified s ++ [m]).
Definition set_blocked (b : bool) (s : process) : process :=
  Process (running s) (active_children s) (listener_open s) (children s) (chld_pending s) b (here s) (notified s).
Definition set_active (n : Z) (s : process) : process :=
  Process (running s) n (listener_open s) (children s) (chld_pending s) (chld_blocked s) (here s) (notified s).
Definition set_children (l : list bool) (s : process) : process :=
  Process (running s) (active_children s) (listener_open s) l (chld_pending s) (chld_blocked s) (here s) (notified s).
Definition set_pending (b : bool) (s : process) : process :=
  Process (running s) (active_children s) (listener_open s) (children s) b (chld_blocked s) (here s) (notified s).

(** [stop_worker]. *)
Definition stop_worker (s : process) : process :=
  Process false (active_children s) false (children s) (chld_pending s) (chld_blocked s) (here s) (notified s).

(** [reap_workers]: one round of [waitpid] per child that has ended. *)
Definition ended (l : list bool) : nat := length (filter (fun b : bool => b = true) l).
Definition reap_workers (s : process) : process :=
  set_active (Nat.iter (ended (children s)) (fun n => if 0 <? n then n - 1 else n) (active_children s))
    (set_children (filter (fun b : bool => b = false) (children s)) s).

(** One step of [main] with the answer of the kernel; [None] when it is not an answer to its call. *)
Definition main_step (a : kernel_answer) (s : process) : option process :=
  match here s, a with
  | Head, NoAnswer => Some (go (if running s then Poll else Leave) s)
  | Poll, PollTimeout => Some (go Head (notify_systemd (str "WATCHDOG=1") s))
  | Poll, PollReady => Some (go Accept s)
  | Poll, PollInterrupted => Some (go Head s)
  | Poll, PollFailed => Some (go Leave s)
  | Accept, Accepted => Some (go Cap s)
  | Accept, AcceptInterrupted => Some (go Head s)
  | Accept, AcceptFailed => Some (go Leave s)
  | Cap, NoAnswer => Some (go (if 4 <=? active_children s then Head else SetTimeout) s)
  | SetTimeout, TimeoutSet => Some (go Block s)
  | SetTimeout, TimeoutRefused => Some (go Head s)
  | Block, NoAnswer => Some (go Fork (set_blocked true s))
  | Fork, Forked => Some (go Load (set_children (children s ++ [false]) s))
  | Fork, ForkFailed => Some (go Head (set_blocked false s))
  | Load, NoAnswer => Some (go (Store (active_children s)) s)
  | Store r, NoAnswer => Some (go Unblock (set_active (r + 1) s))
  | Unblock, NoAnswer => Some (go Head (set_blocked false s))
  | Leave, NoAnswer => Some (go Done (stop_worker (notify_systemd (str "STOPPING=1") s)))
  | _, _ => None
  end.

(** Nothing is accepted, and no time-out waited for, on a closed listener. *)
Definition possible (a : kernel_answer) (s : process) : Prop :=
  match a with PollTimeout | Accepted => listener_open s = true | _ => True end.

(** The process, its children and its signals in any order. *)
Inductive step : process -> process -> Prop :=
| step_main a s s' : possible a s -> main_step a s = Some s' -> step s s'
| step_child_ends i s : children s !! i = Some false -> step s (set_pending true (set_children (<[i := true]> (children s)) s))
| step_sigchld s : chld_pending s = true -> chld_blocked s = false -> step s (reap_workers (set_pending false s))
| step_stop s : step s (stop_worker s).

Definition start : process := Process true 0 true [] false false Head [str "READY=1" ++ [NL] ++ str "STATUS=Listening for authenticated voice tasks"].

(** ** Children are counted exactly *)

Definition counting (s : process) : Prop :=
  match here s with
  | Load => active_children s + 1 = Z.of_nat (length (children s))
  | Store r => r = active_children s /\ active_children s + 1 = Z.of_nat (length (children s))
  | SetTimeout | Block | Fork => active_children s = Z.of_nat (length (children s)) /\ active_children s < 4
  | _ => active_children s = Z.of_nat (length (children s))
  end.

Definition blocking (s : process) : Prop :=
  chld_blocked s = match here s with Fork | Load | Store _ | Unblock => true | _ => false end.

Record worker_inv (s : process) : Prop := {
  inv_counting : counting s;
  inv_blocking : blocking s;
  inv_cap : (length (children s) <= 4)%nat;
  inv_pending : true ∈ children s -> chld_pending s = true
}.

Lemma ended_split l : (ended l + length (filter (fun b : bool => b = false) l) = length l)%nat.
Proof. unfold ended. induction l as [|b l IH]; [done|]. rewrite !filter_cons. destruct b; repeat case_decide; try congruence; cbn [length]; lia. Qed.

Lemma reap_count n a : Z.of_nat n <= a -> Nat.iter n (fun n => if 0 <? n then n - 1 else n) a = a - Z.of_nat n.
Proof.
  revert a. induction n as [|n IH]; intros a H; [cbn; lia|]. cbn [Nat.iter nat_rect]. change (nat_rect _ a _ n) with (Nat.iter n (fun n => if 0 <? n then n - 1 else n) a).
  rewrite IH by lia. destruct (Z.ltb_spec 0 (a - Z.of_nat n)); lia.
Qed.

Lemma reap_inv s : chld_blocked s = false -> worker_inv s -> worker_inv (reap_workers (set_pending false s)).
Proof.
  intros Hb [Hc Hbl Hcap Hp]. pose proof (ended_split (children s)) as Hs.
  assert (Ha : active_children s = Z.of_nat (length (children s))).
  { unfold blocking in Hbl. unfold counting in Hc. rewrite Hb in Hbl. by destruct (here s); (lia || done). }
  pose proof (reap_count (ended (children s)) (active_children s) ltac:(lia)) as Hr.
  unfold reap_workers. change (children (set_pending false s)) with (children s). change (active_children (set_pending false s)) with (active_children s). rewrite Hr.
  constructor; cbn [set_active set_children set_pending here children active_children chld_blocked chld_pending].
  - unfold counting, blocking in *. cbn [set_active set_children set_pending here active_children children]. rewrite Hb in Hbl. destruct (here s); (lia || done).
  - exact Hbl.
  - lia.
  - intros H. apply list_elem_of_filter in H as [H _]. done.
Qed.

Lemma main_inv a s s' : main_step a s = Some s' -> worker_inv s -> worker_inv s'.
Proof.
  intros E [Hc Hbl Hcap Hp]. unfold counting, blocking in *. unfold main_step in E.
  destruct (here s) eqn:Eh, a; try discriminate E; injection E as <-;
    constructor; unfold counting, blocking;
    cbn [go notify_systemd set_blocked set_active set_children stop_worker here children active_children chld_blocked chld_pending];
    rewrite ?length_app; cbn [length]; try done; try lia;
    try (destruct (running s); done); try (destruct (Z.leb_spec 4 (active_children s)); (done || lia)).
  intros H. apply elem_of_app in H as [H|H]; [by apply Hp|]. apply list_elem_of_singleton in H. done.
Qed.

Lemma step_inv s s' : step s s' -> worker_inv s -> worker_inv s'.
Proof.
  intros Hstep Hinv. destruct Hstep as [a s s' _ E|i s Hi|s _ Hb|s].
  - by eapply main_inv.
  - destruct Hinv as [Hc Hbl Hcap Hp]. constructor; unfold counting, blocking in *;
      cbn [set_pending set_children here children active_children chld_blocked chld_pending]; rewrite ?length_insert; done.
  - by apply reap_inv.
  - by destruct Hinv.
Qed.

Lemma worker_start_inv : worker_inv start.
Proof. constructor; cbn; (done || lia || intros H; by apply elem_of_nil in H). Qed.

Lemma reachable_inv s : rtc step start s -> worker_inv s.
Proof.
  intros H. pose proof worker_start_inv as Hi. revert Hi. induction H as [s|s1 s2 s3 H12 _ IH]; [done|]. intros Hi. apply IH. by eapply step_inv.
Qed.

(** C26: however children end and signals arrive, the worker never has more than four
    child processes, [active_children] is their exact number whenever the signal is not
    blocked, and a child that has ended is waited for: the signal is pending until then. *)
Theorem workers_counted s : rtc step start s ->
  (length (children s) <= 4)%nat /\ (chld_blocked s = false -> active_children s = Z.of_nat (length (children s)))
  /\ (true ∈ children s -> chld_pending s = true).
Proof.
  intros [Hc Hbl Hcap Hp]%reachable_inv. split_and!; [done| |done].
  intros Hb. unfold blocking in Hbl. unfold counting in Hc. rewrite Hb in Hbl. destruct (here s); (done || lia).
Qed.

(** ** A stopped worker ends *)

(** Steps left once [running] is 0. *)
Definition steps_left (p : pc) : nat :=
  match p with
  | Poll => 11 | Accept => 10 | Cap => 9 | SetTimeout => 8 | Block => 7 | Fork => 6 | Load => 5 | Store _ => 4 | Unblock => 3
  | Head => 2 | Leave => 1 | Done => 0
  end.

(** C27: once a signal has stopped the worker, [main] is never stuck before its end and
    every step it takes, whatever the kernel answers, leaves fewer steps to take, eleven
    at most in all; signals and children do not set it back. *)
Theorem worker_stops s : running s = false -> listener_open s = false -> here s <> Done ->
  (exists a s', possible a s /\ main_step a s = Some s')
  /\ (forall a s', possible a s -> main_step a s = Some s' -> running s' = false /\ listener_open s' = false /\ (steps_left (here s') < steps_left (here s) <= 11)%nat)
  /\ (forall s', step s s' -> running s' = false /\ listener_open s' = false /\ (steps_left (here s') <= steps_left (here s))%nat).
Proof.
  intros Hr Hl Hd.
  assert (M : forall a s', possible a s -> main_step a s = Some s' -> running s' = false /\ listener_open s' = false /\ (steps_left (here s') < steps_left (here s) <= 11)%nat).
  { intros a s' Hp E. unfold main_step in E. destruct (here s) eqn:Eh, a; try discriminate E; injection E as <-; cbn in Hp; try congruence;
      cbn [go notify_systemd set_blocked set_active set_children stop_worker running listener_open here]; rewrite ?Hr;
      try destruct (4 <=? active_children s); cbn [steps_left]; (split_and!; [done|done|lia..]). }
  split_and!; [|exact M|].
  - unfold main_step. destruct (here s) eqn:Eh;
      [exists NoAnswer|exists PollFailed|exists AcceptFailed|exists NoAnswer|exists TimeoutRefused|exists NoAnswer|exists ForkFailed|exists NoAnswer..|done];
      eexists; (split; [exact I|reflexivity]).
  - intros s' Hstep. destruct Hstep as [a s s' Hp E| | |]; [|done..]. destruct (M a s' Hp E) as (? & ? & ?). split_and!; (done || lia).
Qed.

(** A connection is accepted and its child process ends while it is being counted. *)
Definition example_process : process := Process true 1 true [true] true false Head (notified start).

Ltac next_main a := eapply rtc_l; [apply (step_main a); [first [exact I|reflexivity]|reflexivity]|].

Lemma workers_counted_witness :
  (length (children example_process) <= 4)%nat
  /\ (chld_blocked example_process = false -> active_children example_process = Z.of_nat (length (children example_process)))
  /\ (true ∈ children example_process -> chld_pending example_process = true).
Proof.
  apply workers_counted. 
  next_main NoAnswer. next_main PollReady. next_main Accepted. next_main NoAnswer. next_main TimeoutSet. next_main NoAnswer. next_main Forked.
  next_main NoAnswer. eapply rtc_l; [apply (step_child_ends 0); reflexivity|]. next_main NoAnswer. next_main NoAnswer. apply rtc_refl.
Defined.

Lemma worker_stops_witness :
  (exists a s', possible a (stop_worker example_process) /\ main_step a (stop_worker example_process) = Some s')
  /\ (forall a s', possible a (stop_worker example_process) -> main_step a (stop_worker example_process) = Some s' ->
        running s' = false /\ listener_open s' = false /\ (steps_left (here s') < 2 <= 11)%nat)
  /\ (forall s', step (stop_worker example_process) s' -> running s' = false /\ listener_open s' = false /\ (steps_left (here s') <= 2)%nat).
Proof. apply (worker_stops (stop_worker example_process)); done. Defined.

(** ** Notifications to an abstract address *)

(** The address of an abstract socket has one byte too many, so it is not the one
    [NOTIFY_SOCKET] names; a path is reached. *)
Lemma notify_abstract_missed (n : bytes) : (length n < 107)%nat ->
  unix_address <$> notify_address (Some (64 :: n)) = Some (Abstract (n ++ [0])) /\ n ++ [0] <> n.
Proof.
  intros Hn. split.
  - unfold notify_address, sun_path_size. cbn [bytes_eqb length]. destruct (Nat.leb_spec 108 (S (length n))); [lia|]. reflexivity.
  - intros H. apply (f_equal length) in H. rewrite length_app in H. cbn in H. lia.
Qed.

Lemma notify_path_reached (p : bytes) : p <> [] -> (length p < 108)%nat -> Forall (fun c => 0 < c /\ c <> 64) p ->
  unix_address <$> notify_address (Some p) = Some (Pathname p).
Proof.
  intros Hne Hl Hp. unfold notify_address, sun_path_size. destruct p as [|c p]; [done|]. cbn [bytes_eqb].
  destruct (Nat.leb_spec 108 (length (c :: p))); [lia|]. cbn [orb]. assert (Hp' := Hp). apply Forall_cons in Hp' as [[Hc H64] _].
  destruct (Z.eqb_spec c 64); [done|]. change (bytes_eqb (c :: p) []) with false. cbn [orb]. cbn [fmap option_fmap option_map app].
  assert (E : cstr (c :: p ++ [0]) = c :: p).
  { change (c :: p ++ [0]) with ((c :: p) ++ [0]). unfold cstr. rewrite (span_prefix (Z.eqb 0) (c :: p) [0]); [done| |done].
    eapply Forall_impl; [exact Hp|]. intros d [Hd _]. apply Z.eqb_neq. lia. }
  unfold unix_address. rewrite E. destruct c; (done || lia).
Qed.

(** The worker serves only as an AI of its own contact book, on the port a thousand
    above that entry's, which does not wrap around: voice_remote.c asks the same port. *)
Lemma configure_sound argv w n self contacts w' : worker_configure argv w = (Some (n, self, contacts), w') ->
  w' = w /\ name self = n /\ self ∈ contacts /\ role self = CONTACT_AI /\ port self <= 64535.
Proof.
  unfold worker_configure. destruct (worker_args argv _) as [[[m|] path]|]; [|done|done]. rewrite st_bind_run.
  destruct (Book.contact_book_load path w) as [[e|book] w1] eqn:El; cbn [fst snd]; [done|].
  assert (w1 = w) as ->.
  { unfold Book.contact_book_load in El. rewrite st_bind_run in El. cbn [file_read gets fst snd] in El. by injection El. }
  pose proof (Book.contact_book_find_spec book m) as Hs. destruct (Book.contact_book_find book m) as [i|]; [|done]. cbn [mbind option_bind].
  destruct Hs as (c & Hc & Hn & _). rewrite Hc. cbn [mbind option_bind].
  destruct (bool_decide (role c = CONTACT_AI)) eqn:Er; cbn [negb orb]; [|done]. destruct (Z.ltb_spec 64535 (port c)); [done|].
  intros [= <- <- <- <-]. to_prop. split_and!; try done. by eapply list_elem_of_lookup_2.
Qed.

End RoseWorker.
