(* ===== verification/RoseSpeech.v ===== *)
(** * Before and after the pipeline of rose_voice.c

    [main] looks for machines to share the work with, gives every sentence four
    temporary files and removes them when the sentence was played or at the end. *)
From S2P Require Import Prelude CLib World ContactBook RoseRemote.

Open Scope Z_scope.

Module RoseSpeech.

(** ** The machines *)

Definition preferred_worker (contacts : contact_book) (n : bytes) (sender : contact) : st world (option contact) :=
  match Book.contact_book_find contacts n ≫= (fun i => contacts !! i) with
  | None => mret None
  | Some worker =>
      if negb (bool_decide (role worker = CONTACT_AI)) || bytes_eqb (name worker) (name sender) then mret None
      else
      available ← RoseRemote.voice_remote_available worker sender;
      mret (if available : bool then Some worker else None)
  end.

(** The workers of the three stages and the local identity, [None] for local work. *)
Record workers := Workers { w_sender : option contact; piper_worker : option contact; sox_worker : option contact; envelope_worker : option contact }.

Definition find_workers (contacts_path local_name : bytes) : st world workers :=
  loaded ← Book.contact_book_load contacts_path;
  match loaded with
  | inl _ => mret (Workers None None None None)
  | inr contacts =>
      match Book.contact_book_find contacts local_name ≫= (fun i => contacts !! i) with
      | None => mret (Workers None None None None)
      | Some sender =>
          if negb (bool_decide (role sender = CONTACT_AI)) then mret (Workers (Some sender) None None None)
          else
          piper ← preferred_worker contacts (str "Aria") sender;
          sox ← preferred_worker contacts (str "Rose") sender;
          envelope ← preferred_worker contacts (str "Argus") sender;
          mret (Workers (Some sender) piper sox envelope)
      end
  end.

(** ** The files of a sentence *)

(** The arrays of an item; the empty string is no file. *)
Record paths := Paths { text_path : bytes; dry_path : bytes; wet_path : bytes; envelope_path : bytes }.
Definition no_paths : paths := Paths [] [] [] [].
Definition all_paths (p : paths) : list bytes := [text_path p; dry_path p; wet_path p; envelope_path p].

(** ** Files created and removed *)

(** No removal fails. *)
Definition works (w : world) : Prop := Forall (fun b => b = false) (w_kept w).

#[global] Instance works_dec w : Decision (works w).
Proof. unfold works. apply _. Defined.

Lemma works_kept w w' : w_kept w' = w_kept w -> works w -> works w'.
Proof. unfold works. by intros ->. Qed.

(** Only files with the names [l] have changed, and none of them existed. *)
Record only_new (l : list bytes) (w w' : world) : Prop := OnlyNew {
  new_frame : forall q, q ∉ l -> w_fs w' !! q = w_fs w !! q;
  new_fresh : forall q, q ∈ l -> w_fs w !! q = None;
  new_named : [] ∉ l;
  new_works : works w -> works w' }.

(** The files with the names [l] have been removed, as far as that works.  The empty
    name is no file. *)
Record cleaned (l : list bytes) (w w' : world) : Prop := Cleaned {
  cleaned_frame : forall q, q <> [] -> q ∉ l -> w_fs w' !! q = w_fs w !! q;
  cleaned_gone : works w -> forall q, q <> [] -> q ∈ l -> w_fs w' !! q = None;
  cleaned_works : works w -> works w' }.

(** Apart from the names [stray], no file that existed was touched; and if removals work,
    none is left. *)
Record tidied (stray : list bytes) (w w' : world) : Prop := Tidied {
  tidied_old : forall q, q <> [] -> q ∉ stray -> w_fs w !! q <> None -> w_fs w' !! q = w_fs w !! q;
  tidied_all : works w -> forall q, q <> [] -> q ∉ stray -> w_fs w' !! q = w_fs w !! q;
  tidied_works : works w -> works w' }.

Lemma only_new_nil w w' : w_fs w' = w_fs w -> w_kept w' = w_kept w -> only_new [] w w'.
Proof. intros Hf Hk. split; [by intros; rewrite Hf| |apply not_elem_of_nil|by apply works_kept]. intros q H. by apply elem_of_nil in H. Qed.

Lemma only_new_app l1 l2 w w1 w2 : only_new l1 w w1 -> only_new l2 w1 w2 -> only_new (l1 ++ l2) w w2.
Proof.
  intros [A1 B1 N1 C1] [A2 B2 N2 C2]. split; [intros q..|by rewrite not_elem_of_app|auto].
  - rewrite not_elem_of_app. intros [H1 H2]. by rewrite A2, A1.
  - rewrite elem_of_app. intros [H|H]; [by apply B1|]. destruct (decide (q ∈ l1)); [by apply B1|]. rewrite <- A1 by done. by apply B2.
Qed.

Lemma only_new_equiv l l' w w' : (forall q, q ∈ l <-> q ∈ l') -> only_new l w w' -> only_new l' w w'.
Proof. intros E [A B N C]. split; [intros q H; apply A; by rewrite E|intros q H; apply B; by rewrite E|by rewrite <- E|done]. Qed.

(** The new files are written. *)
Lemma only_new_within l w w1 w2 : only_new l w w1 -> (forall q, q ∉ l -> w_fs w2 !! q = w_fs w1 !! q) -> (works w1 -> works w2) -> only_new l w w2.
Proof. intros [A B N C] H K. split; [|done|done|auto]. intros q Hq. rewrite H by done. by apply A. Qed.

Lemma cleaned_nil w w' : w_fs w' = w_fs w -> w_kept w' = w_kept w -> cleaned [] w w'.
Proof. intros Hf Hk. split; [by intros; rewrite Hf| |by apply works_kept]. intros _ q _ H. by apply elem_of_nil in H. Qed.

Lemma cleaned_remove p w : cleaned [p] w (file_remove p w).2.
Proof.
  pose proof (file_remove_fs p w) as H. destruct (file_remove p w) as [b w']. destruct H as (Hb & Hf & Hk). cbn [snd].
  assert (Hd : forall q, q <> p -> w_fs w' !! q = w_fs w !! q) by (intros q Hq; rewrite Hf; destruct b; [by rewrite lookup_delete_ne|done]).
  split.
  - intros q _ Hq. apply Hd. by rewrite list_elem_of_singleton in Hq.
  - intros Hw q _ Hq. rewrite list_elem_of_singleton in Hq. subst q. unfold works in Hw. rewrite Hf, Hb.
    destruct (w_kept w) as [|x xs]; [cbn [hd negb]; by rewrite lookup_delete_eq|]. apply Forall_cons in Hw as [-> _]. cbn [hd negb]. by rewrite lookup_delete_eq.
  - unfold works. rewrite Hk. destruct (w_kept w); [done|]. rewrite Forall_cons. by intros [_ H].
Qed.

Lemma cleaned_app l1 l2 w w1 w2 : cleaned l1 w w1 -> cleaned l2 w1 w2 -> cleaned (l1 ++ l2) w w2.
Proof.
  intros [A1 B1 C1] [A2 B2 C2]. split; [| |auto].
  - intros q Hq. rewrite not_elem_of_app. intros [H1 H2]. by rewrite A2, A1.
  - intros Hw q Hq. rewrite elem_of_app. intros H. destruct (decide (q ∈ l2)); [by apply B2; auto|]. rewrite A2 by done. apply B1; tauto.
Qed.

Lemma cleaned_equiv l l' w w' : (forall q, q <> [] -> q ∈ l <-> q ∈ l') -> cleaned l w w' -> cleaned l' w w'.
Proof. intros E [A B C]. split; [intros q Hq H; apply A|intros Hw q Hq H; apply B|]; try done; by rewrite E. Qed.

(** New files and the removal of all of them: only names that were not made are stray. *)
Lemma tidy l L stray w w1 w2 : only_new l w w1 -> cleaned L w1 w2 ->
  (forall q, q <> [] -> q ∈ L -> q ∈ l \/ q ∈ stray) -> (forall q, q <> [] -> q ∈ l -> q ∈ L) -> tidied stray w w2.
Proof.
  intros [A B _ C] [D E F] H1 H2. split; [| |auto].
  - intros q Hq Hs Hold. assert (Hl : q ∉ l) by (intros Hl; by rewrite (B q Hl) in Hold).
    rewrite D; [by apply A|done|]. intros HL. by destruct (H1 q Hq HL).
  - intros Hw q Hq Hs. destruct (decide (q ∈ l)) as [Hl|Hl].
    + rewrite (B q Hl). apply E; auto.
    + rewrite D; [by apply A|done|]. intros HL. by destruct (H1 q Hq HL).
Qed.

(** Removing the file of an array that is not the empty string. *)
Definition unlink_path (p : bytes) : st world unit := if bytes_eqb p [] then mret tt else file_remove p ;; mret tt.

Lemma unlink_path_cleaned p w : cleaned [p] w (unlink_path p w).2.
Proof.
  unfold unlink_path. destruct (bytes_eqb p []) eqn:E.
  - apply bytes_eqb_true in E as ->. eapply cleaned_equiv; [|by apply cleaned_nil]. intros q Hq. rewrite list_elem_of_singleton, elem_of_nil. tauto.
  - rewrite st_bind_run. apply cleaned_remove.
Qed.

Section speech.
(** [mkstemps]: whether it has created the file, and what it leaves in the array. *)
Context (mkstemps : bytes -> nat -> st world (bool * bytes)).

Definition temporary_path (kind suffix : bytes) : st world (bool * bytes) :=
  mkstemps (str "/tmp/rose-voice-" ++ kind ++ str "-XXXXXX" ++ suffix) (length suffix).

(** [fopen], [fwrite] and [fclose] of the sentence. *)
Definition write_text (text sentence : bytes) : st world bool :=
  opened ← file_create text;
  if negb opened then mret false
  else
  written ← file_write text sentence;
  if negb written then mret false
  else
  close_failed ← fault;
  mret (negb close_failed).

(** The body of the loop over the sentences: the four names, then the text. *)
Definition prepare_item (sentence : bytes) : st world (bool * paths) :=
  '(ok, text) ← temporary_path (str "text") (str ".txt");
  if negb ok then mret (false, Paths text [] [] [])
  else
  '(ok, dry) ← temporary_path (str "dry") (str ".wav");
  if negb ok then mret (false, Paths text dry [] [])
  else
  '(ok, wet) ← temporary_path (str "fx") (str ".wav");
  if negb ok then mret (false, Paths text dry wet [])
  else
  '(ok, light) ← temporary_path (str "light") (str ".env");
  if negb ok then mret (false, Paths text dry wet light)
  else
  ok ← write_text text sentence;
  mret (ok, Paths text dry wet light).

(** The array of items, zero-filled by [calloc] behind the one that failed. *)
Fixpoint prepare_items (sentences : list bytes) : st world (bool * list paths) :=
  match sentences with
  | [] => mret (true, [])
  | s :: rest =>
      '(ok, p) ← prepare_item s;
      if negb ok then mret (false, p :: map (fun _ => no_paths) rest)
      else
      '(ok, ps) ← prepare_items rest;
      mret (ok, p :: ps)
  end.

(** After a sentence was played: its files go, its arrays become empty. *)
Definition forget_item (p : paths) : st world paths :=
  file_remove (wet_path p) ;; file_remove (dry_path p) ;; file_remove (text_path p) ;; file_remove (envelope_path p) ;;
  mret no_paths.

Definition cleanup_item (p : paths) : st world unit :=
  unlink_path (wet_path p) ;; unlink_path (dry_path p) ;; unlink_path (text_path p) ;; unlink_path (envelope_path p).

(** [played] sentences were played before the end. *)
Fixpoint after_speech (played : nat) (items : list paths) : st world unit :=
  match items, played with
  | [], _ => mret tt
  | p :: rest, O => cleanup_item p ;; after_speech 0 rest
  | p :: rest, S k => (q ← forget_item p; cleanup_item q) ;; after_speech k rest
  end.

Lemma cleanup_item_cleaned p w : cleaned (all_paths p) w (cleanup_item p w).2.
Proof.
  unfold cleanup_item. rewrite !st_bind_run.
  eapply cleaned_equiv; [|eapply cleaned_app; [apply unlink_path_cleaned|eapply cleaned_app; [apply unlink_path_cleaned|eapply cleaned_app; apply unlink_path_cleaned]]].
  intros q _. unfold all_paths. cbn [app]. rewrite !elem_of_cons, elem_of_nil. tauto.
Qed.

Lemma forget_item_cleaned p w : cleaned (all_paths p) w (forget_item p w).2 /\ (forget_item p w).1 = no_paths.
Proof.
  unfold forget_item. rewrite !st_bind_run. split; [|done]. cbn [snd mret st_ret].
  eapply cleaned_equiv; [|eapply cleaned_app; [apply cleaned_remove|eapply cleaned_app; [apply cleaned_remove|eapply cleaned_app; apply cleaned_remove]]].
  intros q _. unfold all_paths. cbn [app]. rewrite !elem_of_cons, elem_of_nil. tauto.
Qed.

Lemma after_speech_cleaned played items w : cleaned (concat (map all_paths items)) w (after_speech played items w).2.
Proof.
  revert played w. induction items as [|p rest IH]; intros played w; [by destruct played; apply cleaned_nil|]. cbn [map concat].
  destruct played as [|k]; cbn [after_speech]; rewrite st_bind_run.
  - eapply cleaned_app; [apply cleanup_item_cleaned|apply IH].
  - rewrite st_bind_run. destruct (forget_item_cleaned p w) as [Hf ->]. eapply cleaned_app; [|apply IH].
    eapply cleaned_equiv; [|eapply cleaned_app; [exact Hf|apply cleanup_item_cleaned]].
    intros q Hq. rewrite elem_of_app. unfold all_paths at 2. cbn [no_paths text_path dry_path wet_path envelope_path]. rewrite !elem_of_cons, elem_of_nil. tauto.
Qed.

(** ** What is created *)

(** What mkstemps(3) promises: a name that is made is new; on failure no file was created
    and nothing is known about the name in the array. *)
Definition makes_files : Prop := forall template n w,
  let '((made, p), w') := mkstemps template n w in
  w_kept w' = w_kept w /\ if made : bool then p <> [] /\ w_fs w !! p = None /\ w_fs w' = <[p := []]> (w_fs w) else w_fs w' = w_fs w.

Hypothesis (Hmake : makes_files).

(** A call of [mkstemps]: the new files and the name that may be left without one. *)
Lemma mkstemps_new template n w :
  let '((made, p), w') := mkstemps template n w in
  (made = true -> p <> []) /\ only_new (if made : bool then [p] else []) w w'.
Proof.
  pose proof (Hmake template n w) as H. destruct (mkstemps template n w) as [[[] p] w']; destruct H as [Hk H]; (split; [naive_solver|]).
  - destruct H as (Hne & Hnone & Hfs). split; [| | |by apply works_kept].
    + intros q Hq. rewrite list_elem_of_singleton in Hq. by rewrite Hfs, lookup_insert_ne.
    + intros q Hq. rewrite list_elem_of_singleton in Hq. by subst.
    + rewrite list_elem_of_singleton. congruence.
  - by apply only_new_nil.
Qed.

Lemma temporary_new kind suffix w :
  let '((made, p), w') := temporary_path kind suffix w in
  (made = true -> p <> []) /\ only_new (if made : bool then [p] else []) w w'.
Proof. apply mkstemps_new. Qed.

(** The text is in its file, and nothing else happens. *)
Lemma write_text_fs text sentence w :
  let '(b, w') := write_text text sentence w in
  (forall q, q <> text -> w_fs w' !! q = w_fs w !! q) /\ (b = true -> w_fs w' !! text = Some sentence) /\ w_kept w' = w_kept w.
Proof.
  unfold write_text. rewrite st_bind_run. pose proof (file_create_fs text w) as F1. pose proof (file_create_kept text w) as K1.
  destruct (file_create text w) as [o w1]. cbn [fst snd] in K1 |- *. destruct o; cbn [negb mret st_ret]; [|by rewrite F1].
  rewrite st_bind_run. pose proof (file_write_fs text sentence w1) as F2. pose proof (file_write_kept text sentence w1) as K2.
  destruct (file_write text sentence w1) as [o w2]. cbn [fst snd] in K2 |- *.
  rewrite F1, lookup_insert_eq in F2. destruct o; cbn [negb mret st_ret].
  - rewrite st_bind_run. pose proof (fault_fs w2) as F3. pose proof (fault_kept w2) as K3. destruct (fault w2) as [c w3]. cbn [fst snd mret st_ret] in F3, K3 |- *.
    rewrite F3, F2. cbn [default from_option app]. split_and!; [|by rewrite lookup_insert_eq|by rewrite K3, K2]. intros q Hq. by rewrite !lookup_insert_ne.
  - rewrite F2. split_and!; [|done|by rewrite K2]. intros q Hq. by rewrite lookup_insert_ne.
Qed.

(** The names [names] are those of the new files [l] and, at most, one that a failed call
    has left. *)
Definition accounts (ok : bool) (names l stray : list bytes) : Prop :=
  (forall q, q <> [] -> q ∈ names <-> q ∈ l \/ q ∈ stray) /\ (length stray <= 1)%nat /\ (ok = true -> stray = []).

(** Take the next temporary file, or stop here. *)
Ltac take_temporary :=
  match goal with |- context [(temporary_path ?k ?s ≫= _) ?w] =>
    rewrite st_bind_run; let H := fresh "T" in pose proof (temporary_new k s w) as H;
    destruct (temporary_path k s w) as [[[] ?] ?]; destruct H as [_ H]; cbn [fst snd negb mret st_ret]
  end.

Ltac count_names :=
  split_and!; [intros ? ?; unfold all_paths; cbn [app text_path dry_path wet_path envelope_path]; cbn [map concat]; rewrite ?elem_of_app, ?elem_of_cons, ?elem_of_nil; tauto|cbn; lia|done].

Ltac stopped_at p := split; [|done]; eexists _, [p]; (split; [repeat (first [eassumption|eapply only_new_app; [eassumption|]])|count_names]).

Lemma prepare_item_new sentence w :
  let '((ok, p), w') := prepare_item sentence w in
  (exists l stray, only_new l w w' /\ accounts ok (all_paths p) l stray) /\ (ok = true -> w_fs w' !! text_path p = Some sentence).
Proof.
  unfold prepare_item.
  take_temporary; [|match goal with |- context [Paths ?p _ _ _] => stopped_at p end].
  take_temporary; [|match goal with |- context [Paths _ ?p _ _] => stopped_at p end].
  take_temporary; [|match goal with |- context [Paths _ _ ?p _] => stopped_at p end].
  take_temporary; [|match goal with |- context [Paths _ _ _ ?p] => stopped_at p end].
  rewrite st_bind_run. match goal with |- context [write_text ?t ?s ?v] => pose proof (write_text_fs t s v) as W; destruct (write_text t s v) as [ok v'] end.
  destruct W as (W1 & W2 & W3). cbn [fst snd mret st_ret text_path]. split; [|exact W2].
  pose proof (only_new_app _ _ _ _ _ T (only_new_app _ _ _ _ _ T0 (only_new_app _ _ _ _ _ T1 T2))) as A. cbn [app] in A.
  eexists _, []. split; [eapply only_new_within; [exact A| |by apply works_kept]|count_names].
  intros q. rewrite !not_elem_of_cons. intros [H _]. by apply W1.
Qed.

Lemma no_paths_names {A} (rest : list A) q : q <> [] -> q ∉ concat (map all_paths (map (fun _ => no_paths) rest)).
Proof.
  intros Hq. induction rest as [|x rest IH]; cbn [map concat]; [apply not_elem_of_nil|]. rewrite not_elem_of_app. split; [|done].
  unfold all_paths. cbn. rewrite !not_elem_of_cons. split_and!; try done. apply not_elem_of_nil.
Qed.

Lemma prepare_items_new sentences w :
  let '((ok, ps), w') := prepare_items sentences w in
  (exists l stray, only_new l w w' /\ accounts ok (concat (map all_paths ps)) l stray)
  /\ (ok = true -> Forall2 (fun s p => w_fs w' !! text_path p = Some s) sentences ps).
Proof.
  revert w. induction sentences as [|s rest IH]; intros w; cbn [prepare_items].
  { split; [|constructor]. exists [], []. split; [by apply only_new_nil|]. count_names. }
  rewrite st_bind_run. pose proof (prepare_item_new s w) as P. destruct (prepare_item s w) as [[ok p] w1]. destruct P as [(l & stray & P1 & P3) P2]. cbn [fst snd].
  destruct ok; cbn [negb mret st_ret].
  - destruct P3 as (P3 & _ & P4). rewrite (P4 eq_refl) in P3. clear P4 stray.
    rewrite st_bind_run. specialize (IH w1). destruct (prepare_items rest w1) as [[ok ps] w2]. destruct IH as [(l2 & stray & Q1 & Q2 & Q3 & Q4) Q5]. cbn [fst snd mret st_ret].
    split.
    + exists (l ++ l2), stray. split; [by eapply only_new_app|]. split_and!; [|done|done].
      intros q Hq. cbn [map concat]. rewrite !elem_of_app, P3, Q2, elem_of_nil by done. tauto.
    + intros Hok. constructor; [|by apply Q5]. destruct Q1 as [Qa Qb _ _]. rewrite Qa; [by apply P2|]. intros Hin. apply Qb in Hin. by rewrite P2 in Hin.
  - destruct P3 as (P3 & P5 & _). split; [|done]. exists l, stray. split; [done|]. split_and!; [|done|done].
    intros q Hq. cbn [map concat]. rewrite elem_of_app, P3 by done. pose proof (no_paths_names rest q Hq). tauto.
Qed.

End speech.

(** A [mkstemps] that always finds a new name. *)
Definition new_file (template : bytes) (n : nat) : st world (bool * bytes) := fun w =>
  let p := fresh ({[ [] ]} ∪ dom (w_fs w) : gset (list Z)) in ((true, p), store p [] w).

Lemma new_file_makes : makes_files new_file.
Proof.
  intros template n w. unfold new_file. split; [done|]. pose proof (is_fresh ({[ [] ]} ∪ dom (w_fs w) : gset (list Z))) as F.
  apply not_elem_of_union in F as [F1 F2]. apply not_elem_of_singleton in F1. apply not_elem_of_dom in F2. split_and!; done.
Qed.

Definition example_world : world := World {[str "/tmp/other" := str "kept"]} 0 [] [false; true] [] [] ∅ [] [].
Definition example_prepared := Eval vm_compute in prepare_items new_file [str "Hello."; str "Bye."] example_world.


(** Work is only shared with another AI of the book, on its machine. *)
Lemma preferred_worker_sound contacts n sender w c : (preferred_worker contacts n sender w).1 = Some c ->
  c ∈ contacts /\ name c = n /\ role c = CONTACT_AI /\ name c <> name sender.
Proof.
  unfold preferred_worker. pose proof (Book.contact_book_find_spec contacts n) as Hs.
  destruct (Book.contact_book_find contacts n) as [i|]; [|done]. destruct Hs as (d & Hd & Hn & _). cbn [mbind option_bind]. rewrite Hd.
  destruct (bool_decide (role d = CONTACT_AI)) eqn:Er; cbn [negb orb]; [|done].
  destruct (bytes_eqb (name d) (name sender)) eqn:Eb; [done|]. rewrite st_bind_run. cbn [fst mret st_ret].
  destruct (RoseRemote.voice_remote_available d sender w).1; [|done]. intros [= <-]. to_prop. split_and!; try done. by eapply list_elem_of_lookup_2.
Qed.

End RoseSpeech.
