(* ===== verification/RoseHue.v ===== *)
(** * The Hue lights: configuration, updates and patterns

    The rest of hue_client.c, rose_hue.c, which plays a pattern of colours from a
    table, and rose_hue_off.c.  Module [HueLock] is the lock file that keeps the
    processes that drive the lights apart, call by call. *)
From Stdlib Require Import SpecFloat.
From S2P Require Import Prelude CLib World Network CDouble ContactBook.

Open Scope Z_scope.

(** * The lock of the Hue lights

    The tools that drive the lights take turns with a lock file (hue_client.c).
    Every system call is a step here, and the processes take steps in any order.
    The file keeps the lights to one process as long as no process ends and nobody
    clears the lock by force, as rose_hue_off.c does; that a process which has given
    the lock back may end while another one looks at the file is enough to let two
    processes in. *)

Module HueLock.

(** Where a process is.  [tries] counts the attempts the loop still has, this one
    included; [owner] is what [stale_lock] has read; a file that was created is known by
    its inode. *)
Inductive pc :=
| Idle | Opening (tries : nat) | Writing (inode : nat) | Undoing
| Reading (tries : nat) | Killing (tries : nat) (owner : Z) | Unlinking (tries : nat) | Pausing (tries : nat)
| Owner | TimedOut | Refused | Ended.

(** The lock file, if there is one, the next inode, the processes, and the process
    numbers nobody has any more. *)
Record system := System { lock : option (nat * bytes); next_inode : nat; procs : list pc; gone : list Z }.

Definition set_pc (i : nat) (p : pc) (s : system) : system := System (lock s) (next_inode s) (<[i := p]> (procs s)) (gone s).
Definition set_lock (l : option (nat * bytes)) (s : system) : system := System l (next_inode s) (procs s) (gone s).

(** [timeout_seconds * 10U + 1U]. *)
Definition attempts (timeout_seconds : Z) : nat := Z.to_nat ((timeout_seconds * 10 + 1) mod 2 ^ 32).

(** The file's text: the process number and a newline. *)
Definition owner_text (pid : Z) : bytes := print_nat pid ++ [NL].

(** [fscanf(file, "%ld", &owner)], 0 when there is no number. *)
Definition read_owner (content : bytes) : Z := match strtol content with Some (v, _) => v | None => 0 end.

(** What a process does next: begin to acquire, take a step, give the lock back, clear it by
    force, end; [works] is whether the call works that can fail. *)
Inductive act := Begin (timeout_seconds : Z) | Step (works : bool) | Release (works : bool) | Force_clear (works : bool) | End_process.

Section lock.
Context (pid : nat -> Z).

(** [open] with [O_CREAT | O_EXCL]. *)
Definition try_open (i tries : nat) (works : bool) (s : system) : system :=
  match tries with
  | O => set_pc i TimedOut s
  | S _ =>
      match lock s with
      | Some _ => set_pc i (Reading tries) s
      | None =>
          if works then System (Some (next_inode s, [])) (S (next_inode s)) (<[i := Writing (next_inode s)]> (procs s)) (gone s)
          else set_pc i Refused s
      end
  end.

(** [write] goes to the inode, whatever the name has become. *)
Definition write_owner (i inode : nat) (works : bool) (s : system) : system :=
  if works then
    set_pc i Owner (match lock s with
                    | Some (k, c) => if (k =? inode)%nat then set_lock (Some (k, owner_text (pid i))) s else s
                    | None => s
                    end)
  else set_pc i Undoing s.

(** [unlink], if it works. *)
Definition unlink_lock (works : bool) (s : system) : system := if works then set_lock None s else s.

Definition lock_step (i : nat) (a : act) (s : system) : option system :=
  match procs s !! i, a with
  | Some Idle, Begin timeout => Some (set_pc i (Opening (attempts timeout)) s)
  | Some (Opening tries), Step works => Some (try_open i tries works s)
  | Some (Writing inode), Step works => Some (write_owner i inode works s)
  | Some Undoing, Step works => Some (set_pc i Refused (unlink_lock works s))
  | Some (Reading tries), Step _ =>
      Some (set_pc i (match lock s with
                      | Some (_, c) => if 1 <? read_owner c then Killing tries (read_owner c) else Pausing tries
                      | None => Pausing tries
                      end) s)
  | Some (Killing tries owner), Step _ => Some (set_pc i (if bool_decide (owner ∈ gone s) then Unlinking tries else Pausing tries) s)
  | Some (Unlinking tries), Step works => Some (set_pc i (Opening (tries - 1)) (unlink_lock works s))
  | Some (Pausing tries), Step _ => Some (set_pc i (Opening (tries - 1)) s)
  | Some Owner, Release works => Some (set_pc i Idle (unlink_lock works s))
  | Some Idle, Force_clear works => Some (unlink_lock works s)
  | Some Ended, _ => None
  | Some _, End_process => Some (System (lock s) (next_inode s) (<[i := Ended]> (procs s)) (pid i :: gone s))
  | _, _ => None
  end.

Fixpoint run_turns (l : list (nat * act)) (s : system) : option system :=
  match l with [] => Some s | (i, a) :: rest => s' ← lock_step i a s; run_turns rest s' end.

(** [n] processes, no lock. *)
Definition fresh_system (n : nat) : system := System None 0 (replicate n Idle) [].

(** ** One process at a time *)

(** Between the creation of the file and its removal. *)
Definition inside (p : pc) : bool := match p with Writing _ | Undoing | Owner => true | _ => false end.

Definition quiet (p : pc) : bool := match p with Unlinking _ => false | _ => true end.

Definition alone (s : system) : Prop :=
  match lock s with
  | None => forall i p, procs s !! i = Some p -> inside p = false
  | Some (ino, c) => forall i p, procs s !! i = Some p -> inside p = true ->
      (forall k, p = Writing k -> k = ino) /\ (p = Owner -> c = owner_text (pid i))
      /\ (forall j q, procs s !! j = Some q -> inside q = true -> j = i)
  end.

Record lock_inv (s : system) : Prop := {
  inv_alone : alone s;
  inv_quiet : Forall (fun p => quiet p = true) (procs s);
  inv_gone : gone s = []
}.

(** A process that is outside afterwards has moved, and nothing else. *)
Lemma alone_outside i q s : (i < length (procs s))%nat -> inside q = false -> alone s -> alone (set_pc i q s).
Proof.
  intros Hlen Hq H. unfold alone in *. cbn [set_pc lock procs].
  assert (K : forall k p, <[i := q]> (procs s) !! k = Some p -> inside p = true -> procs s !! k = Some p).
  { intros k p Hk Hp. destruct (decide (i = k)) as [->|]; [|by rewrite list_lookup_insert_ne in Hk].
    rewrite list_lookup_insert_eq in Hk by done. congruence. }
  destruct (lock s) as [[ino c]|].
  - intros k p Hk Hp. destruct (H k p (K _ _ Hk Hp) Hp) as (H1 & H2 & H3). split_and!; [done|done|]. intros j r Hj Hr. apply (H3 j r); auto.
  - intros k p Hk. destruct (inside p) eqn:Hp; [|done]. rewrite <- Hp. apply (H k p). auto.
Qed.

(** The process inside takes the file away. *)
Lemma alone_leave i p q s : procs s !! i = Some p -> inside p = true -> inside q = false -> alone s -> alone (set_pc i q (set_lock None s)).
Proof.
  intros Hi Hp Hq H. unfold alone in *. cbn [set_pc set_lock lock procs].
  assert (Hlen : (i < length (procs s))%nat) by (apply lookup_lt_is_Some; eauto).
  intros k q' Hk. destruct (decide (i = k)) as [->|Hne]; [rewrite list_lookup_insert_eq in Hk by done; by injection Hk as <-|].
  rewrite list_lookup_insert_ne in Hk by done. destruct (inside q') eqn:E; [|done]. exfalso.
  destruct (lock s) as [[ino c]|].
  - destruct (H k q' Hk E) as (_ & _ & Hu). apply Hne. by eapply Hu.
  - specialize (H i p Hi). congruence.
Qed.

Lemma alone_unlink i p q works s : procs s !! i = Some p -> inside p = true -> inside q = false -> alone s -> alone (set_pc i q (unlink_lock works s)).
Proof.
  intros Hi Hp Hq H. destruct works; cbn [unlink_lock]; [by eapply alone_leave|]. apply alone_outside; [|done|done]. apply lookup_lt_is_Some. eauto.
Qed.

Lemma open_inv i tries works s : procs s !! i = Some (Opening tries) -> lock_inv s -> lock_inv (try_open i tries works s).
Proof.
  intros Hi [Ha Hq Hg]. assert (Hlen : (i < length (procs s))%nat) by (apply lookup_lt_is_Some; eauto).
  assert (K : forall q, inside q = false -> quiet q = true -> lock_inv (set_pc i q s)).
  { intros q H1 H2. constructor; [by apply alone_outside|by apply Forall_insert|done]. }
  unfold try_open. destruct tries as [|tries]; [by apply K|]. destruct (lock s) as [l|] eqn:El; [by apply K|].
  destruct works; [|by apply K]. constructor; [|by apply Forall_insert|done].
  unfold alone in *. rewrite El in Ha. cbn [lock procs].
  assert (Only : forall j q, <[i := Writing (next_inode s)]> (procs s) !! j = Some q -> inside q = true -> j = i).
  { intros j q Hj Hin. destruct (decide (i = j)); [done|]. rewrite list_lookup_insert_ne in Hj by done. specialize (Ha j q Hj). congruence. }
  intros k p Hk Hp. assert (k = i) as -> by (by eapply Only). rewrite list_lookup_insert_eq in Hk by done. injection Hk as <-.
  split_and!; [by intros k [= <-]|done|exact Only].
Qed.

Lemma write_inv i ino works s : procs s !! i = Some (Writing ino) -> lock_inv s -> lock_inv (write_owner i ino works s).
Proof.
  intros Hi [Ha Hq Hg]. assert (Hlen : (i < length (procs s))%nat) by (apply lookup_lt_is_Some; eauto). unfold alone in Ha.
  destruct (lock s) as [[k c]|] eqn:El; [|by specialize (Ha i _ Hi)]. destruct (Ha i _ Hi eq_refl) as (Hw & _ & Hu). specialize (Hw ino eq_refl). subst k.
  assert (Only : forall p m q, <[i := p]> (procs s) !! m = Some q -> inside q = true -> m = i).
  { intros p m q Hm Hin. destruct (decide (i = m)); [done|]. rewrite list_lookup_insert_ne in Hm by done. by eapply Hu. }
  unfold write_owner. rewrite El, Nat.eqb_refl.
  destruct works; (constructor; [|by apply Forall_insert|done]); unfold alone; cbn [set_pc set_lock lock procs]; rewrite ?El; intros m q Hm Hin;
    (assert (m = i) as -> by (by eapply Only)); rewrite list_lookup_insert_eq in Hm by done; injection Hm as <-; (split_and!; [done|done|apply Only]).
Qed.

(** What the processes of the theorem do. *)
Definition orderly (a : act) : bool := match a with End_process | Force_clear _ => false | _ => true end.

Lemma lock_step_inv i a s s' : orderly a = true -> lock_step i a s = Some s' -> lock_inv s -> lock_inv s'.
Proof.
  intros Hne E Hinv. unfold lock_step in E. destruct (procs s !! i) as [p|] eqn:Hi; [|done].
  assert (Hlen : (i < length (procs s))%nat) by (apply lookup_lt_is_Some; eauto).
  assert (O : forall q, inside q = false -> quiet q = true -> lock_inv (set_pc i q s)).
  { intros q H1 H2. destruct Hinv as [Ha Hq Hg]. constructor; [by apply alone_outside|by apply Forall_insert|done]. }
  assert (L : inside p = true -> forall q works, inside q = false -> quiet q = true -> lock_inv (set_pc i q (unlink_lock works s))).
  { intros Hp q works H1 H2. destruct Hinv as [Ha Hq Hg]. constructor; [by eapply alone_unlink|destruct works; by apply Forall_insert|by destruct works]. }
  assert (Q : quiet p = true) by (destruct Hinv as [_ Hq _]; rewrite Forall_lookup in Hq; by eapply Hq).
  assert (G : gone s = []) by apply Hinv.
  destruct p; destruct a; try done; injection E as <-;
    try (by apply O); try (by apply L); try (by apply open_inv); try (by apply write_inv).
  - destruct (lock s) as [[? c]|]; [destruct (1 <? read_owner c)|]; by apply O.
  - rewrite G, bool_decide_false by (apply not_elem_of_nil). by apply O.
Qed.

Lemma run_inv l s s' : Forall (fun x => orderly x.2 = true) l -> run_turns l s = Some s' -> lock_inv s -> lock_inv s'.
Proof.
  revert s. induction l as [|[i a] l IH]; intros s Hl; cbn [run_turns]; [by intros [= <-]|]. apply Forall_cons in Hl as [Ha Hl].
  destruct (lock_step i a s) as [s1|] eqn:E; [|done]. cbn [mbind option_bind]. intros H Hinv. eapply IH; [done|done|]. by eapply lock_step_inv.
Qed.

Lemma fresh_inv n : lock_inv (fresh_system n).
Proof.
  constructor; [|by apply Forall_replicate|done]. intros i p Hi. cbn [fresh_system procs] in Hi. by apply lookup_replicate in Hi as [-> _].
Qed.

(** A process that is alone takes over a lock whose owner has ended. *)
Definition take_over_turns (i : nat) : list (nat * act) :=
  (i, Begin 30) :: replicate 6 (i, Step true).

Lemma attempts_30 : attempts 30 = 301%nat.
Proof. vm_compute. reflexivity. Qed.

Lemma turn_step i a rest s s1 r : lock_step i a s = Some s1 -> run_turns rest s1 = r -> run_turns ((i, a) :: rest) s = r.
Proof. intros E. cbn [run_turns]. by rewrite E. Qed.

(** Evaluate the step of a process whose place was set last. *)
Ltac at_pc :=
  unfold lock_step; cbn [set_pc set_lock unlink_lock procs lock gone next_inode]; rewrite list_lookup_insert_eq by (by rewrite ?length_insert);
  cbn [set_pc set_lock unlink_lock procs lock gone next_inode].

Lemma stale_taken_over i ino c s : procs s !! i = Some Idle -> lock s = Some (ino, c) -> 1 < read_owner c -> read_owner c ∈ gone s ->
  exists s', run_turns (take_over_turns i) s = Some s' /\ procs s' !! i = Some Owner /\ lock s' = Some (next_inode s, owner_text (pid i)).
Proof.
  intros Hi Hlock Hown Hgone. assert (Hlen : (i < length (procs s))%nat) by (apply lookup_lt_is_Some; eauto).
  eexists. split.
  - unfold take_over_turns. cbn [replicate]. eapply turn_step; [unfold lock_step; rewrite Hi, attempts_30; reflexivity|].
    eapply turn_step; [at_pc; cbn [try_open set_pc lock]; rewrite Hlock; reflexivity|].
    eapply turn_step; [at_pc; rewrite Hlock, (proj2 (Z.ltb_lt _ _) Hown); reflexivity|].
    eapply turn_step; [at_pc; rewrite bool_decide_true by done; reflexivity|].
    eapply turn_step; [at_pc; cbn [unlink_lock]; reflexivity|].
    eapply turn_step; [at_pc; cbn [try_open Nat.sub lock set_pc set_lock]; reflexivity|].
    eapply turn_step; [at_pc; cbn [write_owner lock]; rewrite Nat.eqb_refl; reflexivity|]. reflexivity.
  - cbn [set_pc set_lock procs lock next_inode]. rewrite list_lookup_insert_eq; [done|]. by rewrite !length_insert.
Qed.

(** C28: as long as no process ends and nobody clears the lock by force, the lock file lets
    one process in at a time, whatever the order of the system calls of all of them and
    whichever of the calls fail, removals included; and the file names the process that
    holds the lock.  A lock whose owner has ended is taken over by a process that is
    alone. *)
Theorem hue_lock_exclusive n l s :
  run_turns l (fresh_system n) = Some s ->
  (Forall (fun x => orderly x.2 = true) l -> forall i j, procs s !! i = Some Owner -> procs s !! j = Some Owner ->
     i = j /\ exists inode, lock s = Some (inode, owner_text (pid i)))
  /\ (forall i inode c, procs s !! i = Some Idle -> lock s = Some (inode, c) -> 1 < read_owner c -> read_owner c ∈ gone s ->
       exists s', run_turns (take_over_turns i) s = Some s' /\ procs s' !! i = Some Owner /\ lock s' = Some (next_inode s, owner_text (pid i))).
Proof.
  intros Hrun. split.
  - intros Hl i j Hi Hj. pose proof (run_inv l _ s Hl Hrun (fresh_inv n)) as [Ha _ _]. unfold alone in Ha.
    destruct (lock s) as [[ino c]|]; [|by specialize (Ha i _ Hi)]. destruct (Ha i _ Hi eq_refl) as (_ & Ho & Hu).
    split; [by symmetry; eapply Hu|]. exists ino. by rewrite Ho.
  - intros i inode c. apply stale_taken_over.
Qed.
End lock.

Definition example_pid (i : nat) : Z := 1000 + Z.of_nat i.

(** Two processes want the lock; the second one waits and gets it later. *)
Definition example_turns : list (nat * act) :=
  [(0%nat, Begin 30); (1%nat, Begin 30); (0%nat, Step true); (1%nat, Step true); (0%nat, Step true); (1%nat, Step true); (1%nat, Step true);
   (1%nat, Step true); (0%nat, Release true); (1%nat, Step true); (1%nat, Step true)].
Definition example_end : system := System (Some (1%nat, owner_text 1001)) 2 [Idle; Owner] [].

(** A process ends with the lock; the next one takes it over. *)
Definition crash_turns : list (nat * act) := [(0%nat, Begin 30); (0%nat, Step true); (0%nat, Step true); (0%nat, End_process)].
Definition crash_end : system := System (Some (0%nat, owner_text 1000)) 1 [Ended; Idle] [1000].

Lemma hue_lock_exclusive_witness :
  (exists inode, lock example_end = Some (inode, owner_text (example_pid 1)))
  /\ exists s', run_turns example_pid (take_over_turns 1) crash_end = Some s' /\ procs s' !! 1%nat = Some Owner.
Proof.
  split.
  - destruct (hue_lock_exclusive example_pid 2 example_turns example_end) as [H _]; [vm_compute; reflexivity|].
    apply (H ltac:(unfold example_turns; repeat (apply Forall_cons; split; [reflexivity|]); by apply Forall_nil) 1%nat 1%nat); reflexivity.
  - destruct (hue_lock_exclusive example_pid 2 crash_turns crash_end) as [_ H]; [vm_compute; reflexivity|].
    destruct (H 1%nat 0%nat (owner_text 1000)) as (s' & H1 & H2 & _); [reflexivity|reflexivity|vm_compute; reflexivity|by apply (bool_decide_unpack _); vm_compute|].
    by exists s'.
Defined.

(** ** Two processes inside *)

(** Process 0 holds the lock and 2 has read its number; 0 gives the lock back and ends as
    it should, 1 takes the lock; 2 finds that 0 is gone and removes the file of 1. *)
Definition race : list (nat * act) :=
  [(0%nat, Begin 30); (0%nat, Step true); (0%nat, Step true); (2%nat, Begin 30); (2%nat, Step true); (2%nat, Step true);
   (0%nat, Release true); (0%nat, End_process); (1%nat, Begin 30); (1%nat, Step true); (1%nat, Step true);
   (2%nat, Step true); (2%nat, Step true); (2%nat, Step true); (2%nat, Step true)].

(** Processes that only ever end without the lock are not kept apart. *)
Lemma hue_lock_race : exists s, run_turns example_pid race (fresh_system 3) = Some s /\ procs s !! 1%nat = Some Owner /\ procs s !! 2%nat = Some Owner.
Proof. eexists. split; [vm_compute; reflexivity|]. split; reflexivity. Qed.

(** After a clearing by force a second process takes the lock while the first one holds it. *)
Lemma force_clear_admits : exists s, run_turns example_pid
    [(0%nat, Begin 30); (0%nat, Step true); (0%nat, Step true); (2%nat, Force_clear true); (1%nat, Begin 30); (1%nat, Step true); (1%nat, Step true)] (fresh_system 3) = Some s
  /\ procs s !! 0%nat = Some Owner /\ procs s !! 1%nat = Some Owner.
Proof. eexists. split; [vm_compute; reflexivity|]. split; reflexivity. Qed.

End HueLock.

Module RoseHue.

(** ** Configuration *)

Record hue_config := HueConfig { bridge : bytes; username : bytes; target : bytes }.

Definition set_bridge (v : bytes) (c : hue_config) := HueConfig v (username c) (target c).
Definition set_username (v : bytes) (c : hue_config) := HueConfig (bridge c) v (target c).
Definition set_target (v : bytes) (c : hue_config) := HueConfig (bridge c) (username c) v.

(** The environment variables. *)
Record hue_env := HueEnv { ROSE_HUE_CONFIG : option bytes; HOME : option bytes; HUE_BRIDGE_IP : option bytes; HUE_USERNAME : option bytes; HUE_TARGET : option bytes }.

(** A variable that is set and not empty. *)
Definition given (v : option bytes) : option bytes := match v with Some (c :: r) => Some (c :: r) | _ => None end.

Definition copy_value (size : nat) (value : bytes) : bytes := if (size =? 0)%nat then [] else snprintf size value.

(** A line of the file: its key and value; nothing for a comment or a line without [=]. *)
Definition config_entry (line : bytes) : option (bytes * bytes) :=
  let key := trim (cstr line) in
  if (peek key =? 0) || (peek key =? 35) then None
  else match span (Z.eqb 61) key with
       | (k, _ :: v) => Some (trim k, trim v)
       | (_, []) => None
       end.

Definition config_line (c : hue_config) (line : bytes) : hue_config :=
  match config_entry line with
  | Some (key, value) =>
      if bytes_eqb key (str "HUE_BRIDGE_IP") then set_bridge (copy_value 256 value) c
      else if bytes_eqb key (str "HUE_USERNAME") then set_username (copy_value 256 value) c
      else if bytes_eqb key (str "HUE_TARGET") then set_target (copy_value 64 value) c
      else c
  | None => c
  end.

Definition config_path (e : hue_env) : option bytes :=
  match given (ROSE_HUE_CONFIG e), given (HOME e) with
  | Some p, _ => Some (copy_value 512 p)
  | None, Some home => Some (snprintf 512 (home ++ str "/.config/rose-tools/hue.conf"))
  | None, None => None
  end.

Definition config_lines (e : hue_env) (w : world) : list bytes :=
  match config_path e ≫= (fun p => w_fs w !! p) with Some content => fgets_all (Z.to_nat 1024) content | None => [] end.

Definition load_file (e : hue_env) (w : world) (c : hue_config) : hue_config := foldl config_line c (config_lines e w).

Definition override (v : option bytes) (set : bytes -> hue_config -> hue_config) (size : nat) (c : hue_config) : hue_config :=
  match given v with Some v => set (copy_value size v) c | None => c end.

Definition hue_config_load (e : hue_env) : st world (option hue_config) := fun w =>
  let c := load_file e w (HueConfig [] [] (copy_value 64 (str "lights/1/state"))) in
  let c := override (HUE_BRIDGE_IP e) set_bridge 256 c in
  let c := override (HUE_USERNAME e) set_username 256 c in
  let c := override (HUE_TARGET e) set_target 64 c in
  (if bytes_eqb (bridge c) [] || bytes_eqb (username c) [] then None else Some c, w).

(** ** An update *)

Section update.
(** [pow] of the mathematical library. *)
Context (pow : Dbl.double -> Dbl.double -> Dbl.double).

Definition dec (n : Z) (d : positive) : Dbl.double := Dbl.of_ratio n d.

Definition gamma_expand (component : Dbl.double) : Dbl.double :=
  let component := Dbl.div component (dec 255 1) in
  if Dbl.ltb (dec 4045 100000) component then pow (Dbl.div (Dbl.add component (dec 55 1000)) (dec 1055 1000)) (dec 24 10)
  else Dbl.div component (dec 1292 100).

Definition weighted (r g b : Dbl.double) (kr kg kb : Z) : Dbl.double :=
  Dbl.add (Dbl.add (Dbl.mul r (dec kr 1000000)) (Dbl.mul g (dec kg 1000000))) (Dbl.mul b (dec kb 1000000)).

Definition rgb_to_xy (red green blue : Z) : Dbl.double * Dbl.double :=
  let r := gamma_expand (Dbl.of_Z red) in
  let g := gamma_expand (Dbl.of_Z green) in
  let b := gamma_expand (Dbl.of_Z blue) in
  let X := weighted r g b 664511 154324 162028 in
  let Y := weighted r g b 283881 668433 47685 in
  let Z := weighted r g b 88 72310 986039 in
  let sum := Dbl.add (Dbl.add X Y) Z in
  if Dbl.leb sum (Dbl.of_Z 0) then (dec 3127 10000, dec 3290 10000) else (Dbl.div X sum, Dbl.div Y sum).

Definition hue_brightness (brightness : Z) : Z :=
  if brightness =? 0 then 1 else ((brightness * 253) mod 2 ^ 32 / 255 + 1) mod 2 ^ 32.

(** [(unsigned int)(transition_seconds * 10.0 + 0.5)], at most 65535; nothing when the
    conversion is undefined. *)
Definition transition_of (seconds : Dbl.double) : option Z :=
  v ← Dbl.trunc (Dbl.add (Dbl.mul seconds (Dbl.of_Z 10)) (dec 1 2));
  if (0 <=? v) && (v <? 2 ^ 32) then Some (Z.min v 65535) else None.

Definition quoted (t : bytes) : bytes := DQ :: t ++ [DQ].

Definition body_text (red green blue brightness transition : Z) : bytes :=
  if brightness =? 0 then
    str "{" ++ quoted (str "on") ++ str ":false," ++ quoted (str "transitiontime") ++ str ":" ++ print_nat transition ++ str "}"
  else
    let '(x, y) := rgb_to_xy red green blue in
    str "{" ++ quoted (str "on") ++ str ":true," ++ quoted (str "xy") ++ str ":[" ++ Dbl.print_fixed 6 x ++ str "," ++ Dbl.print_fixed 6 y
    ++ str "]," ++ quoted (str "bri") ++ str ":" ++ print_nat (hue_brightness brightness) ++ str ","
    ++ quoted (str "transitiontime") ++ str ":" ++ print_nat transition ++ str "}".

Definition CRLF : bytes := [CR; NL].

(** The request, [None] when it does not fit its array.  [Content-Length] is the length
    [snprintf] reports for the body. *)
Definition request_text (c : hue_config) (body : bytes) : option bytes :=
  let path := snprintf 768 (str "/api/" ++ username c ++ str "/" ++ target c) in
  let text := str "PUT " ++ path ++ str " HTTP/1.1" ++ CRLF ++ str "Host: " ++ bridge c ++ CRLF
    ++ str "Content-Type: application/json" ++ CRLF ++ str "Content-Length: " ++ print_nat (Z.of_nat (length body)) ++ CRLF
    ++ str "Connection: close" ++ CRLF ++ CRLF ++ snprintf 256 body in
  if (Z.to_nat 1536 <=? length text)%nat then None else Some text.

(** Up to 4095 bytes of the answer. *)
Fixpoint read_answer (fuel : nat) (used : bytes) : st socket bytes :=
  match fuel with
  | O => mret used
  | S f =>
      if (length used + 1 <? Z.to_nat 4096)%nat then
        r ← recv (Z.to_nat 4096 - length used - 1);
        match r with Some d => read_answer f (used ++ d) | None => mret used end
      else mret used
  end.

Definition accepted (response : bytes) : bool :=
  contains (cstr response) (str " 200 ") && contains (cstr response) (quoted (str "success")).

(** [None] is success, otherwise the message. *)
Definition hue_set_rgb (c : hue_config) (red green blue brightness : Z) (seconds : Dbl.double) : st world (option bytes) :=
  match transition_of seconds with
  | None => mret (Some (str "undefined"))
  | Some transition =>
      match request_text c (body_text red green blue brightness transition) with
      | None => mret (Some (str "request is too large"))
      | Some request =>
          unresolved ← fault;
          if unresolved : bool then mret (Some (str "cannot resolve Hue bridge"))
          else
          p ← connect_peer;
          match p with
          | None => mret (Some (str "cannot contact Hue bridge"))
          | Some s =>
              let '(sent, s) := network_send_bytes request s in
              if negb sent then close_peer (bridge c) 80 s ;; mret (Some (str "cannot contact Hue bridge"))
              else
              let '(response, s) := read_answer (Z.to_nat 4096) [] s in
              close_peer (bridge c) 80 s ;;
              mret (if accepted response then None else Some (str "Hue bridge rejected the update"))
          end
      end
  end.

Definition hue_dark (c : hue_config) : st world (option bytes) := hue_set_rgb c 0 0 0 0 (dec 2 10).

(** ** Patterns *)

Record row := Row { row_values : list Z; row_duration : Dbl.double }.

(** One number and what follows it, blanks removed. *)
Definition parse_number (text : bytes) : option (Dbl.double * bytes) :=
  match Dbl.strtod (trim text) with
  | Some (number, rest, false) => if Dbl.isfinite number then Some (number, trim rest) else None
  | _ => None
  end.

(** [number != (unsigned int)number] is false, and the number fits a byte. *)
Definition byte_value (number : Dbl.double) : option Z :=
  if Dbl.ltb number (Dbl.of_Z 0) || Dbl.ltb (Dbl.of_Z 255) number then None
  else
  v ← Dbl.trunc number;
  if Dbl.ltb number (Dbl.of_Z v) || Dbl.ltb (Dbl.of_Z v) number then None else Some v.

(** The fields before the last one. *)
Fixpoint parse_values (n : nat) (text : bytes) : option (list Z * bytes) :=
  match n with
  | O => Some ([], text)
  | S n' =>
      '(number, rest) ← parse_number text;
      v ← byte_value number;
      match rest with
      | 44 :: rest => '(vs, rest) ← parse_values n' rest; Some (v :: vs, rest)
      | _ => None
      end
  end.

Definition parse_row (text : bytes) : option row :=
  '(values, rest) ← parse_values 4 text;
  '(number, rest) ← parse_number rest;
  if Dbl.ltb number (Dbl.of_Z 0) || Dbl.ltb (Dbl.of_Z 3600) number then None
  else match rest with [] => Some (Row values number) | 35 :: _ => Some (Row values number) | _ => None end.

Inductive loop_end := Finished (applied : nat) (interrupted : bool) | Broken.

Definition value (r : row) (k : nat) : Z := nth k (row_values r) 0.

(** [hue_set_rgb] and [sleep_seconds] unless it is a dry run: [None] when the update fails,
    otherwise whether to go on and whether a signal has come. *)
Definition show (c : hue_config) (dry_run : bool) (r : row) : st world (option (bool * bool)) :=
  error ← if dry_run then mret None else hue_set_rgb c (value r 0) (value r 1) (value r 2) (value r 3) (row_duration r);
  match error with
  | Some _ => mret None
  | None =>
      interrupted ← fault;
      sleep_failed ← if dry_run then mret false else fault;
      mret (Some (negb interrupted && negb sleep_failed, interrupted))
  end.

(** [while (fgets(line, sizeof(line), csv))]. *)
Fixpoint pattern_loop (c : hue_config) (dry_run : bool) (lines : list bytes) (applied : nat) (header_seen : bool) : st world loop_end :=
  match lines with
  | [] => mret (Finished applied false)
  | line :: rest =>
      let content := trim (cstr line) in
      if (peek content =? 0) || (peek content =? 35) then pattern_loop c dry_run rest applied header_seen
      else
      match parse_row content with
      | None =>
          if (applied =? 0)%nat && negb header_seen && isalpha (peek content) then pattern_loop c dry_run rest applied true
          else mret Broken
      | Some r =>
          shown ← show c dry_run r;
          match shown with
          | None => mret Broken
          | Some (go_on, interrupted) =>
              if go_on : bool then pattern_loop c dry_run rest (S applied) header_seen
              else mret (Finished (S applied) interrupted)
          end
      end
  end.

Record pattern_options := PatternOptions { dry_run : bool; csv_path : option bytes; config : hue_config }.

(** The loop over the arguments; [None] is the usage error. *)
Fixpoint pattern_args (fuel : nat) (argv : list bytes) (o : pattern_options) : option pattern_options :=
  match fuel, argv with
  | _, [] => Some o
  | O, _ => None
  | S f, a :: rest =>
      if bytes_eqb a (str "--dry-run") then pattern_args f rest (PatternOptions true (csv_path o) (config o))
      else
      match bytes_eqb a (str "--light"), bytes_eqb a (str "--group"), rest with
      | true, _, id :: rest => pattern_args f rest (PatternOptions (dry_run o) (csv_path o) (set_target (snprintf 64 (str "lights/" ++ id ++ str "/state")) (config o)))
      | _, true, id :: rest => pattern_args f rest (PatternOptions (dry_run o) (csv_path o) (set_target (snprintf 64 (str "groups/" ++ id ++ str "/action")) (config o)))
      | _, _, _ =>
          match csv_path o with
          | None => pattern_args f rest (PatternOptions (dry_run o) (Some a) (config o))
          | Some _ => None
          end
      end
  end.

(** ** The lock, as one process sees it *)

(** The lock file, the own process number, what other processes do to the files before the
    [k]-th system call from the end of the loop, and which processes have ended then. *)
Context (lock_path : bytes) (own_pid : Z).
Context (others : nat -> gmap (list Z) (list Z) -> gmap (list Z) (list Z)) (ended : nat -> Z -> bool).

Definition elsewhere (k : nat) : st world unit := modify (fun w =>
  World (others k (w_fs w)) (w_now w) (w_ticks w) (w_faults w) (w_random w) (w_peers w) (w_mtimes w) (w_closed w) (w_kept w)).

Definition stale_lock (k : nat) : st world bool :=
  elsewhere k ;;
  file ← file_read lock_path;
  mret (match file with
        | Some c => (1 <? HueLock.read_owner c) && ended k (HueLock.read_owner c)
        | None => false
        end).

Fixpoint acquire_loop (left_ : nat) : st world bool :=
  match left_ with
  | O => mret false
  | S n =>
      elsewhere (2 * n + 1) ;;
      file ← file_read lock_path;
      match file with
      | None =>
          opened ← file_create lock_path;
          if negb opened then mret false
          else
          written ← file_write lock_path (HueLock.owner_text own_pid);
          if negb written then file_remove lock_path ;; mret false else mret true
      | Some _ =>
          stale ← stale_lock (2 * n);
          if stale : bool then file_remove lock_path ;; acquire_loop n else acquire_loop n
      end
  end.

Definition hue_lock_acquire (timeout_seconds : Z) : st world bool := acquire_loop (HueLock.attempts timeout_seconds).

Definition hue_lock_release (lock_owned : bool) : st world unit := if lock_owned then file_remove lock_path ;; mret tt else mret tt.

Definition hue_lock_force_clear : st world unit := file_remove lock_path ;; mret tt.

(** ** The programs *)

(** The end of [main]: darkness and the lock, if it was taken. *)
Definition finish (c : hue_config) (locked : bool) (result : bool) : st world bool :=
  if locked then hue_dark c ;; hue_lock_release locked ;; mret result
  else mret result.

(** What [main] of rose_hue.c is asked to do; [None] when it stops at once. *)
Definition pattern_settings (e : hue_env) (argv : list bytes) : st world (option (bool * bytes * hue_config)) :=
  loaded ← hue_config_load e;
  mret (match loaded ≫= (fun c => pattern_args (length argv) argv (PatternOptions false None c)) with
        | Some (PatternOptions dry_run (Some path) c) => Some (dry_run, path, c)
        | _ => None
        end).

(** The table and the end of [main], with or without the lock. *)
Definition play_pattern (stdin path : bytes) (c : hue_config) (dry_run : bool) : st world bool :=
  csv ← if bytes_eqb path (str "-") then mret (Some stdin) else file_read path;
  match csv with
  | None => finish c (negb dry_run) false
  | Some content =>
      ended ← pattern_loop c dry_run (fgets_all (Z.to_nat 2048) content) 0 false;
      match ended with
      | Broken => finish c (negb dry_run) false
      | Finished applied interrupted => finish c (negb dry_run) (negb (applied =? 0)%nat && negb interrupted)
      end
  end.

(** [main] of rose_hue.c: whether it exits with success. *)
Definition rose_hue (e : hue_env) (stdin : bytes) (argv : list bytes) : st world bool :=
  settings ← pattern_settings e argv;
  match settings with
  | None => mret false
  | Some (dry_run, path, c) =>
      locked ← if dry_run : bool then mret true else hue_lock_acquire 30;
      if negb locked then mret false else play_pattern stdin path c dry_run
  end.

(** [main] of rose_hue_off.c: the lock is cleared before and after. *)
Definition rose_hue_off (e : hue_env) : st world bool :=
  hue_lock_force_clear ;;
  loaded ← hue_config_load e;
  match loaded with
  | None => mret false
  | Some c =>
      error ← hue_dark c;
      match error with
      | Some _ => mret false
      | None => hue_lock_force_clear ;; mret true
      end
  end.

(** ** Rows are in range *)

Definition row_ok (r : row) : Prop :=
  length (row_values r) = 4%nat /\ Forall (fun v => 0 <= v <= 255) (row_values r)
  /\ Dbl.isfinite (row_duration r) = true /\ Dbl.ltb (row_duration r) (Dbl.of_Z 0) = false /\ Dbl.ltb (Dbl.of_Z 3600) (row_duration r) = false.

Lemma parse_number_finite text number rest : parse_number text = Some (number, rest) -> Dbl.isfinite number = true.
Proof.
  unfold parse_number. destruct (Dbl.strtod (trim text)) as [[[x r] []]|]; [done| |done]. destruct (Dbl.isfinite x) eqn:E; [|done]. by intros [= <- <-].
Qed.

Lemma byte_value_range number v : Dbl.isfinite number = true -> byte_value number = Some v -> 0 <= v <= 255.
Proof.
  intros Hf. unfold byte_value. destruct (Dbl.ltb number (Dbl.of_Z 0)) eqn:E1; [done|]. destruct (Dbl.ltb (Dbl.of_Z 255) number) eqn:E2; [done|]. cbn [orb].
  destruct (Dbl.trunc_between number (Dbl.of_Z 0) (Dbl.of_Z 255) 0 255 0 45) as (u & -> & Hu); try done; try lia.
  cbn [mbind option_bind]. destruct (_ || _); [done|]. by intros [= <-].
Qed.

Lemma parse_values_range n text vs rest : parse_values n text = Some (vs, rest) -> length vs = n /\ Forall (fun v => 0 <= v <= 255) vs.
Proof.
  revert text vs. induction n as [|n IH]; intros text vs; cbn [parse_values]; [by intros [= <- <-]|].
  destruct (parse_number text) as [[number r]|] eqn:E; [|done]. cbn [mbind option_bind]. destruct (byte_value number) as [v|] eqn:Ev; [|done].
  cbn [mbind option_bind]. destruct r as [|x r]; [done|]. destruct (decide (x = 44)) as [->|Hx].
  - destruct (parse_values n r) as [[vs' r']|] eqn:Er; [|done]. cbn. intros [= <- <-]. destruct (IH _ _ Er) as [<- Hf].
    split; [done|]. constructor; [|done]. eapply byte_value_range; [|done]. by eapply parse_number_finite.
  - intros H. exfalso. destruct x as [|p|p]; try done. do 6 (destruct p as [p|p|]; try done).
Qed.

Lemma parse_row_ok text r : parse_row text = Some r -> row_ok r.
Proof.
  unfold parse_row. destruct (parse_values 4 text) as [[vs rest]|] eqn:E; [|done]. cbn [mbind option_bind].
  destruct (parse_number rest) as [[number rest']|] eqn:En; [|done]. cbn [mbind option_bind].
  destruct (Dbl.ltb number (Dbl.of_Z 0)) eqn:E1; [done|]. destruct (Dbl.ltb (Dbl.of_Z 3600) number) eqn:E2; [done|]. cbn [orb].
  apply parse_values_range in E as [Hl Hv]. apply parse_number_finite in En.
  intros H. assert (r = Row vs number) as ->; [|by repeat split].
  destruct rest' as [|c rest']; [by injection H|]. destruct c as [|p|p]; try done. do 6 (destruct p as [p|p|]; try done; try by injection H).
Qed.

(** ** A pattern is shown in order and the lights go out *)

(** The rows of a table, in order. *)
Definition pattern_row (line : bytes) : option row :=
  let content := trim (cstr line) in if (peek content =? 0) || (peek content =? 35) then None else parse_row content.
Definition pattern_rows (lines : list bytes) : list row := omap pattern_row lines.

(** ** What reaches the bridge *)

(** The bytes of an update. *)
Definition update_request (c : hue_config) (red green blue brightness : Z) (seconds : Dbl.double) : option bytes :=
  transition ← transition_of seconds; request_text c (body_text red green blue brightness transition).
Definition row_request (c : hue_config) (r : row) : option bytes := update_request c (value r 0) (value r 1) (value r 2) (value r 3) (row_duration r).
Definition dark_request (c : hue_config) : option bytes := update_request c 0 0 0 0 (dec 2 10).

(** [conns] is the connection over which a request was made: none if the bridge was not
    reached, otherwise one to its port 80 to which the request, or a first part of it,
    was sent and nothing else. *)
Definition asked (c : hue_config) (request : option bytes) (complete : bool) (w : world) (conns : list (bytes * Z * socket)) : Prop :=
  (complete = false /\ conns = [])
  \/ exists text s0 s sent, request = Some text /\ conns = [(bridge c, 80, s)] /\ Some s0 ∈ w_peers w
      /\ s_out s = s_out s0 ++ sent /\ sent `prefix_of` text /\ (complete = true -> sent = text).

(** The connections a world can still open. *)
Definition fewer_peers (w w' : world) : Prop := forall p, p ∈ w_peers w' -> p ∈ w_peers w.

Lemma asked_peers c request complete w w' conns : fewer_peers w w' -> asked c request complete w' conns -> asked c request complete w conns.
Proof. intros H [A|(text & s0 & s & sent & H1 & H2 & H3 & H4)]; [by left|right]. exists text, s0, s, sent. split_and!; try done. by apply H. apply H4. apply H4. apply H4. Qed.

Lemma read_answer_out fuel used s : s_out (read_answer fuel used s).2 = s_out s.
Proof.
  revert used s. induction fuel as [|f IH]; intros used s; cbn [read_answer]; [done|]. destruct (_ <? _)%nat; [|done].
  rewrite st_bind_run. assert (H : forall n, s_out (recv n s).2 = s_out s) by (intros n; unfold recv, next_chunk; by repeat case_match).
  destruct (recv _ s) as [[d|] s1] eqn:E; cbn [fst snd].
  - rewrite IH. specialize (H (Z.to_nat 4096 - length used - 1)%nat). by rewrite E in H.
  - specialize (H (Z.to_nat 4096 - length used - 1)%nat). by rewrite E in H.
Qed.

(** The files and what decides about removals stay. *)
Definition same_files (w w' : world) : Prop := w_fs w' = w_fs w /\ w_kept w' = w_kept w.

Lemma set_rgb_asked c red green blue brightness seconds w :
  let '(error, w') := hue_set_rgb c red green blue brightness seconds w in
  same_files w w' /\ fewer_peers w w' /\ exists conns, w_closed w' = w_closed w ++ conns
    /\ asked c (update_request c red green blue brightness seconds) (match error with None => true | Some _ => false end) w conns.
Proof.
  assert (No : same_files w w /\ fewer_peers w w /\ exists conns, w_closed w = w_closed w ++ conns
    /\ asked c (update_request c red green blue brightness seconds) false w conns).
  { split_and!; [done|by intros p|]. exists []. rewrite app_nil_r. split; [done|by left]. }
  unfold hue_set_rgb, update_request in *. destruct (transition_of seconds) as [t|]; [|done]. cbn [mbind option_bind] in *.
  destruct (request_text c _) as [text|]; [|done]. rewrite st_bind_run.
  pose proof (fault_fs w) as F1. pose proof (fault_kept w) as F2. assert (F3 : w_closed (fault w).2 = w_closed w /\ w_peers (fault w).2 = w_peers w) by (unfold fault; by destruct (w_faults w)).
  destruct (fault w) as [[] w1]; cbn [fst snd mret st_ret] in *; destruct F3 as [F3 F4].
  { unfold same_files, fewer_peers. rewrite F1, F2, F3, F4. exact No. }
  rewrite st_bind_run. unfold connect_peer. destruct (w_peers w1) as [|[s0|] ps] eqn:Ep; cbn [fst snd mret st_ret].
  1: { unfold same_files, fewer_peers. rewrite F1, F2, F3, Ep, F4. exact No. }
  2: { unfold same_files, fewer_peers. cbn [w_fs w_kept w_peers w_closed]. rewrite F1, F2, F3. split_and!; [done..| |apply No]. intros p Hp. rewrite <- F4. by apply elem_of_cons; right. }
  destruct (network_send_bytes text s0) as [sent s] eqn:Es. apply send_loop_prefix in Es as (_ & p & q & -> & Hout & Hq).
  assert (Hs0 : Some s0 ∈ w_peers w) by (rewrite <- F4; by apply elem_of_cons; left).
  assert (Hless : forall x, x ∈ ps -> x ∈ w_peers w) by (intros x Hx; rewrite <- F4; by apply elem_of_cons; right).
  destruct sent; cbn [negb].
  - rewrite (Hq eq_refl), app_nil_r in *. pose proof (read_answer_out (Z.to_nat 4096) [] s) as R. destruct (read_answer _ [] s) as [response s'].
    rewrite st_bind_run. cbn [close_peer modify fst snd mret st_ret same_files]. unfold same_files, fewer_peers. cbn [w_fs w_kept w_peers w_closed].
    rewrite F1, F2, F3. split_and!; [done|done|done|]. eexists. split; [reflexivity|]. right. exists p, s0, s', p. cbn [snd] in R. rewrite R. by destruct (accepted response).
  - rewrite st_bind_run. cbn [close_peer modify fst snd mret st_ret]. unfold same_files, fewer_peers. cbn [w_fs w_kept w_peers w_closed].
    rewrite F1, F2, F3. split_and!; [done|done|done|]. eexists. split; [reflexivity|]. right. exists (p ++ q), s0, s, p. split_and!; try done. by exists q.
Qed.

(** A row: shown, with its complete request sent, or not. *)
Lemma show_asked c dry r w :
  let '(shown, w') := show c dry r w in
  same_files w w' /\ fewer_peers w w' /\ exists conns, w_closed w' = w_closed w ++ conns
    /\ (if dry : bool then conns = [] else asked c (row_request c r) (match shown with Some _ => true | None => false end) w conns).
Proof.
  assert (F : forall v, same_files v (fault v).2 /\ w_peers (fault v).2 = w_peers v /\ w_closed (fault v).2 = w_closed v).
  { intros v. unfold fault, same_files. by destruct (w_faults v). }
  unfold show. rewrite st_bind_run. destruct dry.
  - cbn [mret st_ret fst snd]. rewrite st_bind_run. destruct (F w) as ([F1 F2] & F3 & F4). destruct (fault w) as [i w1]. cbn [mret st_ret fst snd] in *. rewrite st_bind_run. cbn [mret st_ret fst snd].
    split_and!; [done|by unfold fewer_peers; rewrite F3|]. exists []. by rewrite app_nil_r.
  - pose proof (set_rgb_asked c (value r 0) (value r 1) (value r 2) (value r 3) (row_duration r) w) as H.
    destruct (hue_set_rgb c _ _ _ _ _ w) as [[e|] w1]; destruct H as ([A1 A2] & A3 & conns & A4 & A5); cbn [fst snd mret st_ret]; [by split_and!; [done|done|exists conns]|].
    rewrite st_bind_run. destruct (F w1) as ([F1 F2] & F3 & F4). destruct (fault w1) as [i w2]. cbn [fst snd] in *.
    rewrite st_bind_run. destruct (F w2) as ([G1 G2] & G3 & G4). destruct (fault w2) as [j w3]. cbn [fst snd mret st_ret] in *.
    split_and!; [unfold same_files; by rewrite G1, G2, F1, F2|unfold fewer_peers in *; by rewrite G3, F3|]. exists conns. by rewrite G4, F4.
Qed.

(** The rows of a table that were shown, with their connections, and an attempt at the next
    row that failed. *)
Definition played (c : hue_config) (all : list row) (w : world) (rows : list row) (conns : list (bytes * Z * socket)) : Prop :=
  exists done_ tried, conns = concat done_ ++ tried /\ rows `prefix_of` all /\ Forall2 (fun r k => asked c (row_request c r) true w k) rows done_
    /\ (tried = [] \/ exists r, rows ++ [r] `prefix_of` all /\ asked c (row_request c r) false w tried).

Lemma pattern_rows_cons line rest : pattern_rows (line :: rest)
  = if (peek (trim (cstr line)) =? 0) || (peek (trim (cstr line)) =? 35) then pattern_rows rest
    else match parse_row (trim (cstr line)) with Some r => r :: pattern_rows rest | None => pattern_rows rest end.
Proof. unfold pattern_rows at 1. cbn [omap list_omap]. unfold pattern_row at 1. destruct (_ || _); [done|]. by destruct (parse_row _). Qed.

Lemma pattern_loop_played c dry lines applied header w :
  let '(ended, w') := pattern_loop c dry lines applied header w in
  same_files w w' /\ fewer_peers w w' /\ exists rows conns, w_closed w' = w_closed w ++ conns
    /\ (if dry : bool then conns = [] /\ rows `prefix_of` pattern_rows lines else played c (pattern_rows lines) w rows conns)
    /\ (forall n i, ended = Finished n i -> n = (applied + length rows)%nat).
Proof.
  revert applied header w. induction lines as [|line rest IH]; intros applied header w.
  { cbn. split_and!; [done|by intros p|]. exists [], []. rewrite app_nil_r. split_and!; [done| |by intros n i [= <- _]; cbn; lia].
    destruct dry; [by split|]. exists [], []. split_and!; [done|apply prefix_nil|constructor|by left]. }
  assert (Stop : forall w', same_files w w' -> fewer_peers w w' -> w_closed w' = w_closed w -> same_files w w' /\ fewer_peers w w' /\ exists rows conns, w_closed w' = w_closed w ++ conns
    /\ (if dry : bool then conns = [] /\ rows `prefix_of` pattern_rows (line :: rest) else played c (pattern_rows (line :: rest)) w rows conns)
    /\ (forall n i, Broken = Finished n i -> n = (applied + length rows)%nat)).
  { intros w' H1 H2 H3. split_and!; [done|done|]. exists [], []. rewrite app_nil_r. split_and!; [done| |done].
    destruct dry; [split; [done|apply prefix_nil]|]. exists [], []. split_and!; [done|apply prefix_nil|constructor|by left]. }
  rewrite pattern_rows_cons in Stop |- *. cbn [pattern_loop].
  destruct ((peek (trim (cstr line)) =? 0) || _); [apply IH|].
  destruct (parse_row (trim (cstr line))) as [r|]; [|destruct (_ && _ && _); [apply IH|apply Stop; [done|by intros p|done]]].
  rewrite st_bind_run. pose proof (show_asked c dry r w) as Hs. destruct (show c dry r w) as [shown w1]. cbn [fst snd]. destruct Hs as (S1 & S2 & ks & S3 & S4).
  destruct shown as [[[] interrupted]|]; cbn [mret st_ret].
  - specialize (IH (S applied) header w1). destruct (pattern_loop c dry rest (S applied) header w1) as [ended_ w']. destruct IH as ([I1 I1'] & I2 & rows & conns & I3 & I4 & I5).
    destruct S1 as [S1 S1']. split_and!; [unfold same_files; by rewrite I1, I1'|unfold fewer_peers in *; auto|]. exists (r :: rows), (ks ++ conns). rewrite I3, S3, app_assoc.
    split_and!; [done| |intros n i E; rewrite (I5 n i E); cbn; lia]. destruct dry.
    + subst ks. destruct I4 as [-> I4]. split; [done|by apply prefix_cons].
    + destruct I4 as (done_ & tried & -> & J1 & J2 & J3). exists (ks :: done_), tried. split_and!; [cbn; by rewrite app_assoc|by apply prefix_cons| |].
      * constructor; [done|]. eapply Forall2_impl; [exact J2|]. intros x k. by apply asked_peers.
      * destruct J3 as [->|(x & J3 & J4)]; [by left|right]. exists x. split; [by apply prefix_cons|by eapply asked_peers].
  - split_and!; [done|done|]. exists [r], ks. split_and!; [done| |intros n i [= <- _]; cbn; lia]. destruct dry.
    + subst ks. split; [done|apply prefix_cons, prefix_nil].
    + exists [ks], []. split_and!; [cbn; by rewrite !app_nil_r|apply prefix_cons, prefix_nil|by constructor|by left].
  - split_and!; [done|done|]. exists [], ks. split_and!; [done| |done]. destruct dry.
    + subst ks. split; [done|apply prefix_nil].
    + exists [], ks. split_and!; [done|apply prefix_nil|constructor|]. right. exists r. split; [apply prefix_cons, prefix_nil|done].
Qed.

Lemma pattern_rows_ok lines : Forall row_ok (pattern_rows lines).
Proof.
  unfold pattern_rows. apply Forall_forall. intros r H. apply list_elem_of_omap in H as (line & _ & H). unfold pattern_row in H.
  destruct (_ || _); [done|]. by eapply parse_row_ok.
Qed.

(** ** The lock and the end *)

(** Before it has the lock a process sends nothing; with it, the file holds its number. *)
Lemma acquire_spec n w :
  let '(locked, w') := acquire_loop n w in
  w_closed w' = w_closed w /\ (locked = true -> w_fs w' !! lock_path = Some (HueLock.owner_text own_pid)).
Proof.
  assert (Fc : forall v, w_closed (fault v).2 = w_closed v) by (intros v; unfold fault; by destruct (w_faults v)).
  assert (Rc : forall v, w_closed (file_remove lock_path v).2 = w_closed v).
  { intros v. unfold file_remove, removal_fails. rewrite st_bind_run. by destruct v as [? ? ? ? ? ? ? ? [|[] ?]]. }
  revert w. induction n as [|n IH]; intros w; cbn [acquire_loop]; [done|]. rewrite st_bind_run. cbn [elsewhere modify fst snd].
  rewrite st_bind_run. cbn [file_read gets fst snd w_fs]. set (w0 := World _ _ _ _ _ _ _ _ _). assert (C0 : w_closed w0 = w_closed w) by done.
  destruct (w_fs w0 !! lock_path) as [c|] eqn:E.
  - rewrite (eq_refl : others (2 * n + 1) (w_fs w) = w_fs w0), E. rewrite st_bind_run. unfold stale_lock. rewrite st_bind_run. cbn [elsewhere modify fst snd]. rewrite st_bind_run. cbn [file_read gets fst snd mret st_ret w_fs].
    set (w1 := World _ _ _ _ _ _ _ _ _). assert (C1 : w_closed w1 = w_closed w) by done.
    destruct (match others (2 * n) (w_fs w0) !! lock_path with Some c => _ | None => false end).
    + rewrite st_bind_run. specialize (IH (file_remove lock_path w1).2). destruct (acquire_loop n (file_remove lock_path w1).2) as [l w']. by rewrite Rc, C1 in IH.
    + specialize (IH w1). destruct (acquire_loop n w1) as [l w']. by rewrite C1 in IH.
  - rewrite (eq_refl : others (2 * n + 1) (w_fs w) = w_fs w0), E. rewrite st_bind_run. pose proof (file_create_fs lock_path w0) as F1.
    assert (K1 : w_closed (file_create lock_path w0).2 = w_closed w0) by (unfold file_create; rewrite st_bind_run, <- (Fc w0); by destruct (fault w0) as [[] ?]).
    destruct (file_create lock_path w0) as [[] w1]; cbn [fst snd negb mret st_ret] in K1 |- *; [|by rewrite K1].
    rewrite st_bind_run. pose proof (file_write_fs lock_path (HueLock.owner_text own_pid) w1) as F2.
    assert (K2 : w_closed (file_write lock_path (HueLock.owner_text own_pid) w1).2 = w_closed w1) by (unfold file_write; rewrite st_bind_run, <- (Fc w1); by destruct (fault w1) as [[] ?]).
    destruct (file_write lock_path _ w1) as [[] w2]; cbn [fst snd negb mret st_ret] in K2 |- *.
    + split; [by rewrite K2, K1|]. intros _. rewrite F2, F1, !lookup_insert_eq. done.
    + rewrite st_bind_run. cbn [fst snd mret st_ret]. by rewrite Rc, K2, K1.
Qed.

(** The end with the lock: the last request is the one for darkness, and the lock file goes. *)
Definition ends_dark (c : hue_config) (w1 w' : world) (conns : list (bytes * Z * socket)) : Prop :=
  (exists dark complete, w_closed w' = w_closed w1 ++ conns ++ dark /\ asked c (dark_request c) complete w1 dark)
  /\ w_fs w' = if hd false (w_kept w1) then w_fs w1 else delete lock_path (w_fs w1).

Lemma finish_dark c result w1 w2 conns : same_files w1 w2 -> fewer_peers w1 w2 -> w_closed w2 = w_closed w1 ++ conns ->
  let '(ok, w') := finish c true result w2 in ok = result /\ ends_dark c w1 w' conns.
Proof.
  intros [F K] P C. unfold finish. rewrite st_bind_run. unfold hue_dark. pose proof (set_rgb_asked c 0 0 0 0 (dec 2 10) w2) as H.
  destruct (hue_set_rgb c 0 0 0 0 _ w2) as [error w3]. cbn [fst snd]. destruct H as ([F3 K3] & _ & dark & C3 & A).
  rewrite st_bind_run. unfold hue_lock_release. rewrite st_bind_run. cbn [fst snd mret st_ret].
  pose proof (file_remove_fs lock_path w3) as R. assert (Rc : w_closed (file_remove lock_path w3).2 = w_closed w3).
  { unfold file_remove, removal_fails. rewrite st_bind_run. by destruct w3 as [? ? ? ? ? ? ? ? [|[] ?]]. }
  destruct (file_remove lock_path w3) as [b w4]. cbn [fst snd] in *. destruct R as (-> & R & _). split; [done|]. split.
  - exists dark, (match error with None => true | Some _ => false end). rewrite Rc, C3, C, app_assoc. split; [done|]. by eapply asked_peers.
  - rewrite R, K3, K, F3, F. by destruct (hd false (w_kept w1)).
Qed.

(** The table a process plays: standard input or the file. *)
Definition pattern_table (stdin path : bytes) (w : world) : list row :=
  match (if bytes_eqb path (str "-") then Some stdin else w_fs w !! path) with Some content => pattern_rows (fgets_all (Z.to_nat 2048) content) | None => [] end.

End update.

(** ** Where a setting comes from *)

(** The last value the file gives a key. *)
Definition assigned (key : bytes) (lines : list bytes) : option bytes :=
  last (omap (fun line => '(k, v) ← config_entry line; if bytes_eqb k key then Some v else None) lines).

Lemma assigned_snoc key lines line : assigned key (lines ++ [line]) =
  match config_entry line with Some (k, v) => if bytes_eqb k key then Some v else assigned key lines | None => assigned key lines end.
Proof.
  unfold assigned. rewrite omap_app. cbn [omap list_omap]. destruct (config_entry line) as [[k v]|]; cbn [mbind option_bind]; [|by rewrite app_nil_r].
  destruct (bytes_eqb k key); [by rewrite last_snoc|by rewrite app_nil_r].
Qed.

Definition filed (key : bytes) (size : nat) (lines : list bytes) (otherwise : bytes) : bytes :=
  match assigned key lines with Some v => copy_value size v | None => otherwise end.

Lemma load_file_fields c lines :
  foldl config_line c lines
  = HueConfig (filed (str "HUE_BRIDGE_IP") 256 lines (bridge c)) (filed (str "HUE_USERNAME") 256 lines (username c)) (filed (str "HUE_TARGET") 64 lines (target c)).
Proof.
  induction lines as [|line lines IH] using rev_ind; [by destruct c|]. rewrite foldl_app, IH. cbn [foldl]. unfold filed. rewrite !assigned_snoc.
  unfold config_line. destruct (config_entry line) as [[k v]|]; [|done].
  destruct (bytes_eqb k (str "HUE_BRIDGE_IP")) eqn:E1; to_prop; [by subst|].
  destruct (bytes_eqb k (str "HUE_USERNAME")) eqn:E2; to_prop; [by subst|].
  destruct (bytes_eqb k (str "HUE_TARGET")) eqn:E3; to_prop; by subst.
Qed.

(** The environment, else the last line of the file, else the default. *)
Definition layered (v : option bytes) (key : bytes) (size : nat) (lines : list bytes) (otherwise : bytes) : bytes :=
  match given v, assigned key lines with Some v, _ => copy_value size v | None, Some v => copy_value size v | None, None => otherwise end.

(** Every setting has the value of the environment, else of the last line of the file
    that gives it, else its default, cut to its array; without bridge or user there is
    no configuration. *)
Lemma config_layers e w :
  let lines := config_lines e w in
  let b := layered (HUE_BRIDGE_IP e) (str "HUE_BRIDGE_IP") 256 lines [] in
  let u := layered (HUE_USERNAME e) (str "HUE_USERNAME") 256 lines [] in
  let t := layered (HUE_TARGET e) (str "HUE_TARGET") 64 lines (str "lights/1/state") in
  hue_config_load e w = (if bytes_eqb b [] || bytes_eqb u [] then None else Some (HueConfig b u t), w).
Proof.
  cbv zeta. unfold hue_config_load, load_file. rewrite load_file_fields. unfold override, layered, filed.
  destruct (given (HUE_BRIDGE_IP e)), (given (HUE_USERNAME e)), (given (HUE_TARGET e)); reflexivity.
Qed.

Lemma hue_brightness_range b : 0 <= b <= 255 -> 1 <= hue_brightness b <= 254.
Proof.
  intros H. unfold hue_brightness. destruct (Z.eqb_spec b 0); [lia|]. rewrite (Z.mod_small (b * 253)) by lia.
  assert (0 <= b * 253 / 255 <= 253) by (split; [apply Z.div_pos; lia|apply Z.div_le_upper_bound; lia]). rewrite Z.mod_small by lia. lia.
Qed.

(** A pattern_table with a header and a comment, in a dry run. *)
Example pattern_example :
  let w := World {[str "p.csv" := str "red,green,blue,brightness,time" ++ [NL] ++ str "255, 0,0,128,0.5 # warm" ++ [NL] ++ str "# end" ++ [NL]]} 0 [] [] [] [] ∅ [] [] in
  (rose_hue (fun x _ => x) (str "/tmp/rose-hue.lock") 77 (fun _ fs => fs) (fun _ _ => false)
     (HueEnv None None (Some (str "10.0.0.9")) (Some (str "rose")) None) [] [str "--dry-run"; str "p.csv"] w).1 = true
  /\ pattern_table [] (str "p.csv") w = [Row [255; 0; 0; 128] (Dbl.of_ratio 1 2)].
Proof. split; vm_compute; reflexivity. Qed.

(** The same pattern_table with a bridge that answers: two connections, the last one for darkness,
    and no lock file at the end. *)
Definition example_answer : socket := Socket (str "HTTP/1.1 200 OK" ++ CRLF ++ CRLF ++ str "[{" ++ quoted (str "success") ++ str ":{}}]") [] [].
Definition example_peers : list (option socket) := [Some example_answer; Some example_answer].
Example pattern_played :
  let w := World {[str "p.csv" := str "255,0,0,0,0.5" ++ [NL]]} 0 [] [] [] example_peers ∅ [] [] in
  let '(ok, w') := rose_hue (fun x _ => x) (str "/tmp/rose-hue.lock") 77 (fun _ fs => fs) (fun _ _ => false)
     (HueEnv None None (Some (str "10.0.0.9")) (Some (str "rose")) None) [] [str "p.csv"] w in
  ok = true /\ map (fun k => Some (s_out k.2)) (w_closed w') = [row_request (fun x _ => x) (HueConfig (str "10.0.0.9") (str "rose") (str "lights/1/state")) (Row [255; 0; 0; 0] (Dbl.of_ratio 1 2));
     dark_request (fun x _ => x) (HueConfig (str "10.0.0.9") (str "rose") (str "lights/1/state"))]
  /\ w_fs w' !! str "/tmp/rose-hue.lock" = None.
Proof. vm_compute. split_and!; reflexivity. Qed.

End RoseHue.

