(* ===== verification/Health.v ===== *)
(** * The health service

    council/services/health/health.c logs the state of the machine, and whether the AI
    contacts with a local numeric address can be reached.  It reads the council's
    contact file with a scanner of its own. *)
From Stdlib Require Import SpecFloat.
From S2P Require Import Prelude CLib World ContactBook ServiceConfig CDouble.

Open Scope Z_scope.

Module Health.

Definition LOG_ERR : Z := 3.
Definition LOG_WARNING : Z := 4.
Definition LOG_INFO : Z := 6.

(** A priority and a text (without what [strerror] says). *)
Definition message : Type := Z * bytes.

(** ** Configuration *)

(** A number from 0 to 100. *)
Definition parse_double_env (text : option bytes) (fallback : Dbl.double) : option Dbl.double :=
  match text with
  | None | Some [] => Some fallback
  | Some t =>
      match Dbl.strtod t with
      | Some (parsed, [], false) => if Dbl.ltb parsed (Dbl.of_Z 0) || Dbl.ltb (Dbl.of_Z 100) parsed then None else Some parsed
      | _ => None
      end
  end.

Definition UINT_MAX : Z := 4294967295.

Definition parse_interval (text : option bytes) : option Z :=
  match text with
  | None | Some [] => Some 60
  | Some t =>
      match strtoul t with
      | Some (parsed, []) => if strtoul_erange t || (parsed =? 0) || (UINT_MAX <? parsed) then None else Some parsed
      | _ => None
      end
  end.

(** ** The machine *)

Definition percent_text (what : bytes) (used warning : Dbl.double) : bytes :=
  what ++ str " used=" ++ Dbl.print_fixed 1 used ++ str "% threshold=" ++ Dbl.print_fixed 1 warning ++ str "%".

(** [100.0 * (1.0 - part / whole)]. *)
Definition used_percent (part whole : Z) : Dbl.double :=
  Dbl.mul (Dbl.of_Z 100) (Dbl.sub (Dbl.of_Z 1) (Dbl.div (Dbl.of_Z part) (Dbl.of_Z whole))).

Definition priority_of (warn : bool) : Z := if warn then LOG_WARNING else LOG_INFO.

(** [statvfs] gives the blocks and the available ones, or the error. *)
Definition check_disk (information : bytes + Z * Z) (warning : Dbl.double) : message :=
  match information with
  | inl error => (LOG_ERR, str "disk check failed: " ++ error)
  | inr (blocks, available) =>
      if blocks =? 0 then (LOG_WARNING, str "disk check returned zero filesystem blocks")
      else let used := used_percent available blocks in (priority_of (Dbl.leb warning used), percent_text (str "disk root") used warning)
  end.

(** [sscanf(line, "<label> %llu kB", &value)]. *)
Definition scan_field (label line : bytes) (value : Z) : Z :=
  match scan_lit label (cstr line) ≫= (fun r => scan_u64 (scan_ws r)) with Some (v, _) => v | None => value end.

Definition memory_line (s : Z * Z) (line : bytes) : Z * Z :=
  (scan_field (str "MemTotal:") line s.1, scan_field (str "MemAvailable:") line s.2).

Definition check_memory (warning : Dbl.double) : st world message :=
  file ← file_read (str "/proc/meminfo");
  mret (match file with
        | None => (LOG_ERR, str "memory check failed")
        | Some content =>
            let '(total, available) := foldl memory_line (0, 0) (fgets_all 256 content) in
            if total =? 0 then (LOG_ERR, str "memory check could not read MemTotal")
            else let used := used_percent available total in (priority_of (Dbl.leb warning used), percent_text (str "memory") used warning)
        end).

Definition check_load (load : option (Dbl.double * Dbl.double * Dbl.double)) (processors : Z) : message :=
  match load with
  | None => (LOG_ERR, str "load check failed")
  | Some (a, b, c) =>
      (priority_of ((0 <? processors) && Dbl.ltb (Dbl.of_Z processors) a),
       str "load averages=" ++ Dbl.print_fixed 2 a ++ str "," ++ Dbl.print_fixed 2 b ++ str "," ++ Dbl.print_fixed 2 c
       ++ str " online_cpus=" ++ print_int processors)
  end.

Definition PATH_MAX : nat := Z.to_nat 4096.
Definition thermal_path (entry leaf : bytes) : option bytes :=
  let p := str "/sys/class/thermal/" ++ entry ++ leaf in if (PATH_MAX <=? length p)%nat then None else Some p.

Definition sensor_name (entry : bytes) (w : world) : bytes :=
  match (thermal_path entry (str "/type") ≫= (fun p => w_fs w !! p)) ≫= fgets 128 with
  | Some (line, _) => cut_at (fun c => (c =? CR) || (c =? NL)) (cstr line)
  | None => str "unknown"
  end.

(** One directory entry: nothing, or the message of a sensor. *)
Definition check_sensor (warning : Dbl.double) (w : world) (entry : bytes) : option message :=
  if negb (starts_with (str "thermal_zone") entry) then None
  else
  path ← thermal_path entry (str "/temp");
  content ← w_fs w !! path;
  '(millidegrees, _) ← strtol content;
  let celsius := Dbl.div (Dbl.of_Z millidegrees) (Dbl.of_Z 1000) in
  Some (priority_of (Dbl.leb warning celsius),
        str "temperature sensor=" ++ sensor_name entry w ++ str " value=" ++ Dbl.print_fixed 1 celsius
        ++ str "C threshold=" ++ Dbl.print_fixed 1 warning ++ str "C").

Definition check_temperatures (directory : bytes + list bytes) (warning : Dbl.double) : st world (list message) := fun w =>
  (match directory with
   | inl error => [(LOG_INFO, str "temperature sensors unavailable: " ++ error)]
   | inr entries =>
       let found := omap (check_sensor warning w) entries in
       found ++ match found with [] => [(LOG_INFO, str "temperature sensors unavailable: none detected")] | _ => [] end
   end, w).

(** ** The contacts *)

(** The characters of a string up to the quote, a backslash taking the next one as it is. *)
Fixpoint json_copy (cursor : bytes) (used size : nat) (value : bytes) : option bytes :=
  match cursor with
  | [] => None
  | c :: r =>
      if c =? DQ then Some value
      else
      match c =? Book.BACKSLASH, r with
      | true, d :: r' => if (size <=? used + 1)%nat then None else json_copy r' (S used) size (value ++ [d])
      | _, _ => if (size <=? used + 1)%nat then None else json_copy r (S used) size (value ++ [c])
      end
  end.

Definition json_blank (c : byte) : bool := (c =? SP) || (c =? TAB) || (c =? CR) || (c =? NL).

Definition quoted_key (key : bytes) : bytes := DQ :: key ++ [DQ].

(** Behind the colon of a key. *)
Definition json_value (object key : bytes) : option bytes :=
  cursor ← strstr object (quoted_key key);
  colon ← strchr (drop (length (quoted_key key)) cursor) 58;
  Some (drop 1 colon).

Definition json_string (object key : bytes) (size : nat) : option bytes :=
  cursor ← json_value object key;
  match (span (fun c => negb (json_blank c)) cursor).2 with
  | c :: r => if c =? DQ then json_copy r 0 size [] else None
  | [] => None
  end.

Definition json_port (object : bytes) : option Z :=
  cursor ← json_value object (str "port");
  '(parsed, _) ← strtoul cursor;
  if strtoul_erange cursor || (parsed =? 0) || (65535 <? parsed) then None else Some parsed.

(** [inet_pton(AF_INET, ...)]: four decimal numbers up to 255 without leading zeros. *)
Fixpoint ipv4_octets (n : nat) (s : bytes) : option (list Z) :=
  let '(digits, rest) := span (fun c => negb (isdigit c)) s in
  let v := foldl (fun a c => a * 10 + (c - 48)) 0 digits in
  if bytes_eqb digits [] || ((1 <? length digits)%nat && (peek digits =? 48)) || (255 <? v) then None
  else match n, rest with
       | O, [] => Some [v]
       | S n', 46 :: rest' => (fun l => v :: l) <$> ipv4_octets n' rest'
       | _, _ => None
       end.

Definition inet_pton4 (s : bytes) : option Z := foldl (fun a v => a * 256 + v) 0 <$> ipv4_octets 3 s.

Section contacts.
(** [inet_pton(AF_INET6, ...)]: the sixteen bytes of an address. *)
Context (inet_pton6 : bytes -> option (list Z)).

Definition local_ipv4 (address : Z) : bool :=
  (Z.shiftr address 24 =? 10) || (Z.shiftr address 20 =? 2753) || (Z.shiftr address 16 =? 49320)
  || (Z.shiftr address 24 =? 127) || (Z.shiftr address 16 =? 43518).

Definition local_ipv6 (a : list Z) : bool :=
  bytes_eqb a (replicate 15 0 ++ [1]) || ((nth 0 a 0 =? 254) && (Z.land (nth 1 a 0) 192 =? 128)) || (Z.land (nth 0 a 0) 254 =? 252).

Definition local_numeric_ip (host : bytes) : bool :=
  match inet_pton4 host, inet_pton6 host with
  | Some address, _ => local_ipv4 address
  | None, Some a => local_ipv6 a
  | None, None => false
  end.

Record endpoint := Endpoint { ep_name : bytes; ep_host : bytes; ep_port : Z }.

Definition INET6_ADDRSTRLEN : nat := 46.

(** What is checked of an object. *)
Definition object_endpoint (object : bytes) : option endpoint :=
  n ← json_string object (str "name") 128;
  r ← json_string object (str "role") 32;
  if negb (bytes_eqb r (str "ai")) then None
  else
  h ← json_string object (str "host") INET6_ADDRSTRLEN;
  if negb (local_numeric_ip h) then None
  else
  p ← json_port object;
  Some (Endpoint n h p).

Definition contact_text (e : endpoint) (online : bool) : bytes :=
  str "contact name=" ++ ep_name e ++ str " host=" ++ ep_host e ++ str " port=" ++ print_nat (ep_port e)
  ++ str " status=" ++ if online then str "online" else str "offline".

(** [endpoint_online] tries to connect: [fault] is the refusal. *)
Definition endpoint_online (e : endpoint) : st world bool := refused ← fault; mret (negb refused).

(** The loop over the objects, with the endpoints tried. *)
Fixpoint contact_loop (fuel : nat) (document : bytes) (tried : list endpoint) (said : list message) : st world (list endpoint * list message) :=
  match fuel, strchr document 123 with
  | S f, Some start =>
      match span (Z.eqb 125) start with
      | (_, []) => mret (tried, said)
      | (object, close :: rest) =>
          match object_endpoint (object ++ [close]) with
          | Some e =>
              online ← endpoint_online e;
              contact_loop f rest (tried ++ [e]) (said ++ [(if online : bool then LOG_INFO else LOG_WARNING, contact_text e online)])
          | None => contact_loop f rest tried said
          end
      end
  | _, _ => mret (tried, said)
  end.

Definition DEFAULT_CONTACTS_FILE : bytes := str "/etc/noobia-council/contacts.json".

Definition check_contacts (variable : option bytes) : st world (list endpoint * list message) :=
  let path := match variable with Some (c :: r) => c :: r | _ => DEFAULT_CONTACTS_FILE end in
  file ← file_read path;
  match file with
  | None => mret ([], [(LOG_WARNING, str "contact check unavailable file=" ++ path)])
  | Some content =>
      if 1048576 <? Z.of_nat (length content) then mret ([], [(LOG_ERR, str "contact file invalid file=" ++ path)])
      else
      '(tried, said) ← contact_loop (length content) (cstr content) [] [];
      mret (tried, match tried with [] => [(LOG_INFO, str "contact check found no local AI endpoints file=" ++ path)] | _ => said end)
  end.

(** ** The service *)

(** What the system answers in one round: [statvfs], [getloadavg] and [sysconf], [opendir]. *)
Record round := Round { vfs : bytes + Z * Z; load : option (Dbl.double * Dbl.double * Dbl.double); processors : Z; thermal : bytes + list bytes }.

Definition run_checks (contacts : option bytes) (disk memory temperature : Dbl.double) (r : round) : st world (list endpoint * list message) :=
  m ← check_memory memory;
  ts ← check_temperatures (thermal r) temperature;
  '(tried, cs) ← check_contacts contacts;
  mret (tried, [check_disk (vfs r) disk; m; check_load (load r) (processors r)] ++ ts ++ cs).

(** The loop ends with the rounds, that is when a signal has cleared [running]. *)
Fixpoint serve_rounds (contacts : option bytes) (disk memory temperature : Dbl.double) (rounds : list round) : st world (list endpoint * list message) :=
  match rounds with
  | [] => mret ([], [])
  | r :: rest =>
      '(tried, said) ← run_checks contacts disk memory temperature r;
      '(tried', said') ← serve_rounds contacts disk memory temperature rest;
      mret (tried ++ tried', said ++ said')
  end.

Record health_env := HealthEnv { HEALTH_INTERVAL_SECONDS : option bytes; HEALTH_DISK_WARN_PERCENT : option bytes;
  HEALTH_MEMORY_WARN_PERCENT : option bytes; HEALTH_TEMP_WARN_C : option bytes; HEALTH_CONTACTS_FILE : option bytes }.

(** [--once] or nothing; [None] is the usage error. *)
Definition run_once (argv : list bytes) : option bool :=
  match argv with [] => Some false | [a] => if bytes_eqb a (str "--once") then Some true else None | _ => None end.

(** [main]: whether it exits with success, the endpoints tried and the messages. *)
Definition health (argv : list bytes) (e : health_env) (rounds : list round) : st world (bool * list endpoint * list message) :=
  match run_once argv, parse_interval (HEALTH_INTERVAL_SECONDS e), parse_double_env (HEALTH_DISK_WARN_PERCENT e) (Dbl.of_Z 90),
        parse_double_env (HEALTH_MEMORY_WARN_PERCENT e) (Dbl.of_Z 90), parse_double_env (HEALTH_TEMP_WARN_C e) (Dbl.of_Z 80) with
  | Some once, Some interval, Some disk, Some memory, Some temperature =>
      '(tried, said) ← serve_rounds (HEALTH_CONTACTS_FILE e) disk memory temperature (if once : bool then take 1 rounds else rounds);
      mret (true, tried, if once : bool then said
                         else (LOG_INFO, str "health service started interval=" ++ print_nat interval ++ str "s") :: said ++ [(LOG_INFO, str "health service stopped")])
  | _, _, _, _, _ => mret (false, [], [])
  end.

(** ** The scanner agrees with the council's parser *)

(** The endpoints of a contact book that are to be watched. *)
Definition watched (b : contact_book) : list endpoint :=
  omap (fun c => if bool_decide (role c = CONTACT_AI) && local_numeric_ip (host c) then Some (Endpoint (name c) (host c) (port c)) else None) b.

(** The messages and the world for some endpoints tried in order. *)
Fixpoint try_all (l : list endpoint) : st world (list message) :=
  match l with
  | [] => mret []
  | e :: rest =>
      online ← endpoint_online e;
      said ← try_all rest;
      mret ((if online : bool then LOG_INFO else LOG_WARNING, contact_text e online) :: said)
  end.

(** *** Finding a quoted key *)

Lemma strstr_skip_char c s p : c <> DQ -> strstr (c :: s) (DQ :: p) = strstr s (DQ :: p).
Proof. intros Hc. cbn [strstr starts_with]. destruct (Z.eqb_spec DQ c); [congruence|]. by destruct (Z.eqb_spec c DQ). Qed.

Lemma strstr_skip_all t s p : DQ ∉ t -> strstr (t ++ s) (DQ :: p) = strstr s (DQ :: p).
Proof.
  induction t as [|c t IH]; [done|]. intros H. apply not_elem_of_cons in H as [Hc Ht]. cbn [app]. rewrite strstr_skip_char by congruence. by apply IH.
Qed.

(** Texts are cut at their quotes in one way only. *)
Lemma quote_unique (t k s r : bytes) : DQ ∉ t -> DQ ∉ k -> t ++ DQ :: s = k ++ DQ :: r -> t = k.
Proof.
  revert k. induction t as [|c t IH]; intros k Ht Hk H; destruct k as [|d k]; cbn [app] in H; [done| | |].
  - exfalso. injection H as <- _. apply Hk, elem_of_cons. by left.
  - exfalso. injection H as -> _. apply Ht, elem_of_cons. by left.
  - injection H as <- H. apply not_elem_of_cons in Ht as [_ Ht]. apply not_elem_of_cons in Hk as [_ Hk]. f_equal. by eapply IH.
Qed.

Lemma strstr_other (t s key : bytes) : DQ ∉ t -> DQ ∉ key -> t <> key ->
  strstr (DQ :: t ++ DQ :: s) (quoted_key key) = strstr (DQ :: s) (quoted_key key).
Proof.
  intros Ht Hk Hne. unfold quoted_key. rewrite <- (strstr_skip_all t (DQ :: s)) by done. cbn [strstr starts_with]. change (DQ =? DQ) with true. cbn [andb].
  destruct (starts_with (key ++ [DQ]) (t ++ DQ :: s)) eqn:E; [|done]. exfalso. apply starts_with_spec in E as [r E].
  rewrite <- app_assoc in E. apply Hne. by eapply quote_unique.
Qed.

(** Texts that are each preceded by a quote. *)
Definition tokens (ts : list bytes) : bytes := concat (map (cons DQ) ts).

Lemma find_key t0 ts key rest : DQ ∉ t0 -> DQ ∉ key -> Forall (fun t => DQ ∉ t /\ t <> key) ts ->
  strstr (t0 ++ tokens ts ++ quoted_key key ++ rest) (quoted_key key) = Some (quoted_key key ++ rest).
Proof.
  intros H0 Hk Hts.
  assert (E0 : strstr (t0 ++ tokens ts ++ quoted_key key ++ rest) (quoted_key key) = strstr (tokens ts ++ quoted_key key ++ rest) (quoted_key key)) by (by apply strstr_skip_all).
  rewrite E0. clear E0.
  induction Hts as [|t ts [Ht Hne] Hts IH]; [change (tokens [] ++ quoted_key key ++ rest) with (quoted_key key ++ rest); by apply strstr_here|].
  assert (E : exists s, tokens ts ++ quoted_key key ++ rest = DQ :: s) by (destruct ts; cbn; eauto). destruct E as [s E].
  unfold tokens in *. cbn [map concat]. rewrite E in IH. rewrite <- app_assoc, E. cbn [app]. by rewrite strstr_other.
Qed.

Lemma json_value_found t0 ts key v : DQ ∉ t0 -> DQ ∉ key -> Forall (fun t => DQ ∉ t /\ t <> key) ts ->
  json_value (t0 ++ tokens ts ++ quoted_key key ++ 58 :: v) key = Some v.
Proof.
  intros H0 Hk Hts. unfold json_value. rewrite find_key by done. cbn [mbind option_bind]. by rewrite drop_app_length.
Qed.

(** Text without quotes, backslashes and braces. *)
Definition plain (s : bytes) : Prop := Forall (fun c => 32 <= c /\ c <> DQ /\ c <> Book.BACKSLASH /\ c <> 123 /\ c <> 125) s.

#[global] Instance plain_dec s : Decision (plain s).
Proof. unfold plain. apply _. Defined.

Lemma plain_no_quote s : plain s -> DQ ∉ s.
Proof. intros H Hin. unfold plain in H. rewrite Forall_forall in H. by apply H in Hin as (_ & ? & _). Qed.

Lemma escape_plain_text s : plain s -> Book.escape s = s.
Proof.
  unfold Book.escape. induction 1 as [|c s (_ & H1 & H2 & _) _ IH]; [done|]. cbn [mbind list_bind]. rewrite IH.
  destruct (Z.eqb_spec c DQ); [done|]. by destruct (Z.eqb_spec c Book.BACKSLASH).
Qed.

Lemma json_copy_plain v more used size out : plain v -> (used + length v < size)%nat ->
  json_copy (v ++ DQ :: more) used size out = Some (out ++ v).
Proof.
  intros Hv. revert used out. induction Hv as [|c v (_ & H1 & H2 & _) _ IH]; intros used out Hl; cbn [app json_copy].
  - change (DQ =? DQ) with true. by rewrite app_nil_r.
  - cbn [length] in Hl. destruct (Z.eqb_spec c DQ); [done|]. destruct (Z.eqb_spec c Book.BACKSLASH); [done|].
    destruct (Nat.leb_spec size (used + 1)); [lia|]. rewrite IH by lia. by rewrite <- app_assoc.
Qed.

Lemma json_string_found t0 ts key v more size : DQ ∉ t0 -> DQ ∉ key -> Forall (fun t => DQ ∉ t /\ t <> key) ts -> plain v -> (length v < size)%nat ->
  json_string (t0 ++ tokens ts ++ quoted_key key ++ 58 :: DQ :: v ++ DQ :: more) key size = Some v.
Proof. intros H0 Hk Hts Hv Hl. unfold json_string. rewrite json_value_found by done. by apply (json_copy_plain v more 0 size []). Qed.

(** A member among tokens. *)
Lemma json_string_token t0 pre key v post rest size : DQ ∉ t0 -> DQ ∉ key -> Forall (fun t => DQ ∉ t /\ t <> key) pre -> plain v -> (length v < size)%nat ->
  json_string (t0 ++ tokens (pre ++ key :: [58] :: v :: [44] :: post) ++ rest) key size = Some v.
Proof.
  intros H0 Hk Hpre Hv Hl. rewrite <- (json_string_found t0 pre key v (44 :: tokens post ++ rest) size) by done. f_equal. f_equal.
  unfold tokens, quoted_key. rewrite map_app, concat_app. cbn [map concat]. repeat first [rewrite <- app_assoc|progress cbn [app]]. reflexivity.
Qed.

(** *** A contact as the scanner sees it *)

Record plain_contact (c : contact) : Prop := {
  plain_name : plain (name c) /\ name c ∉ [str "role"; str "host"; str "port"];
  plain_host : plain (host c) /\ host c <> str "port" /\ (length (host c) < INET6_ADDRSTRLEN)%nat;
  plain_key : plain (shared_key c)
}.

(** What stands behind the port. *)
Definition contact_tail (c : contact) : bytes :=
  44 :: Book.member (str "shared_key") (Book.quote (shared_key c)) ++ 44 :: Book.member (str "arbiter_priority") (print_nat (arbiter_priority c)) ++
  44 :: Book.member (str "RAM") (print_nat (ram_gb c)) ++ [125].

Definition role_text (c : contact) : bytes := Book.print_role (role c).

Lemma quote_plain s : plain s -> Book.quote s = quoted_key s.
Proof. intros H. unfold Book.quote. by rewrite escape_plain_text. Qed.

Lemma contact_tokens c : plain_contact c ->
  Book.print_contact c = [123] ++ tokens [str "name"; [58]; name c; [44]; str "role"; [58]; role_text c; [44]; str "host"; [58]; host c; [44]]
    ++ quoted_key (str "port") ++ 58 :: print_nat (port c) ++ contact_tail c.
Proof.
  intros [[Hn _] (Hh & _) _].
  change (Book.print_contact c) with (123 :: Book.member (str "name") (Book.quote (name c)) ++ 44 :: Book.member (str "role") (Book.quote (role_text c))
    ++ 44 :: Book.member (str "host") (Book.quote (host c)) ++ 44 :: Book.member (str "port") (print_nat (port c)) ++ contact_tail c).
  unfold Book.member. rewrite !quote_plain by (done || (unfold role_text; destruct (role c)); by apply (bool_decide_unpack _); vm_compute).
  generalize (contact_tail c), (str "name"), (str "role"), (str "host"), (str "port"), (role_text c), (print_nat (port c)). intros tail k1 k2 k3 k4 r p.
  unfold tokens, quoted_key. cbn [map concat app]. repeat first [rewrite <- app_assoc|progress cbn [app]]. reflexivity.
Qed.

Lemma text_no_quote (s : String.string) : forallb (fun c => negb (c =? DQ)) (str s) = true -> DQ ∉ str s.
Proof. intros H Hin. rewrite forallb_forall in H. apply list_elem_of_In in Hin. apply H in Hin. by rewrite Z.eqb_refl in Hin. Qed.

(** A decidable fact about constants. *)
Ltac constant := apply (bool_decide_unpack _); vm_compute; exact I.

Lemma contact_endpoint c : plain_contact c -> role c <> CONTACT_UNSET -> (length (name c) < 128)%nat -> 1 <= port c <= 65535 ->
  object_endpoint (Book.print_contact c)
  = if bool_decide (role c = CONTACT_AI) && local_numeric_ip (host c) then Some (Endpoint (name c) (host c) (port c)) else None.
Proof.
  intros Hc Hset Hl Hp. pose proof Hc as [[Hn Hnk] (Hh & Hhp & Hhl) _]. unfold object_endpoint. rewrite contact_tokens by done.
  pose proof (plain_no_quote _ Hn) as Dn. pose proof (plain_no_quote _ Hh) as Dh. rewrite !not_elem_of_cons in Hnk. destruct Hnk as (N1 & N2 & N3 & _).
  set (tail := contact_tail c). set (P := print_nat (port c)).
  assert (Dr : plain (role_text c)) by (unfold role_text; destruct (role c); by apply (bool_decide_unpack _); vm_compute).
  pose proof (plain_no_quote _ Dr) as Drq.
  assert (Nr : role_text c <> str "host" /\ role_text c <> str "port") by (unfold role_text; by destruct (role c)).
  set (ts := [str "name"; _; _; _; _; _; _; _; _; _; _; _]).
  set (obj := [123] ++ tokens ts ++ _).
  assert (S1 : json_string obj (str "name") 128 = Some (name c)).
  { apply (json_string_token [123] [] (str "name") (name c)); first [assumption|by apply Forall_nil|constant]. }
  assert (S2 : json_string obj (str "role") 32 = Some (role_text c)).
  { apply (json_string_token [123] [str "name"; [58]; name c; [44]] (str "role") (role_text c)); try done; [constant|constant| |].
    - repeat (apply Forall_cons; split; [split; [first [assumption|constant]|first [assumption|constant]]|]). by apply Forall_nil.
    - unfold role_text. destruct (role c); cbn; lia. }
  assert (S3 : json_string obj (str "host") INET6_ADDRSTRLEN = Some (host c)).
  { apply (json_string_token [123] [str "name"; [58]; name c; [44]; str "role"; [58]; role_text c; [44]] (str "host") (host c)); try done; [constant|constant|].
    repeat (apply Forall_cons; split; [split; [first [assumption|constant]|first [assumption|apply Nr|constant]]|]). by apply Forall_nil. }
  assert (S4 : json_port obj = Some (port c)).
  { unfold json_port, obj. rewrite json_value_found; [|constant|constant|].
    - cbn [mbind option_bind]. subst P tail. rewrite Book.strtoul_print by (unfold ULONG_MAX; done || lia). cbn [mbind option_bind].
      unfold strtoul_erange. rewrite scan_number_print by (done || lia).
      destruct (Z.ltb_spec ULONG_MAX (port c)); [unfold ULONG_MAX in *; lia|]. destruct (Z.eqb_spec (port c) 0); [lia|]. by destruct (Z.ltb_spec 65535 (port c)); [lia|].
    - repeat (apply Forall_cons; split; [split; [first [assumption|constant]|first [assumption|apply Nr|constant]]|]). by apply Forall_nil. }
  rewrite S1. cbn [mbind option_bind]. rewrite S2. cbn [mbind option_bind].
  assert (Er : bytes_eqb (role_text c) (str "ai") = bool_decide (role c = CONTACT_AI)) by (unfold role_text; by destruct (role c)).
  rewrite Er. destruct (bool_decide (role c = CONTACT_AI)); cbn [negb andb]; [|done]. rewrite S3. cbn [mbind option_bind].
  destruct (local_numeric_ip (host c)); cbn [negb]; [|done]. rewrite S4. done.
Qed.

(** *** The whole file *)

Definition no_brace (s : bytes) : Prop := Forall (fun c => 0 < c /\ c <> 123 /\ c <> 125) s.

Lemma no_brace_app a b : no_brace a -> no_brace b -> no_brace (a ++ b).
Proof. intros Ha Hb. by apply Forall_app. Qed.

Lemma no_brace_cons c s : 0 < c /\ c <> 123 /\ c <> 125 -> no_brace s -> no_brace (c :: s).
Proof. intros H1 H. by apply Forall_cons. Qed.

Lemma no_brace_quote s : plain s -> no_brace (Book.quote s).
Proof.
  intros H. rewrite quote_plain by done. apply no_brace_cons; [done|]. apply no_brace_app; [|by repeat constructor].
  eapply Forall_impl; [exact H|]. intros c (? & _ & _ & ? & ?). split_and!; [lia|done|done].
Qed.

Lemma no_brace_digits n : no_brace (print_nat n).
Proof. eapply Forall_impl; [apply print_nat_isdigit|]. intros c H. unfold isdigit in H. to_prop. lia. Qed.

Lemma no_brace_member k v : plain k -> no_brace v -> no_brace (Book.member k v).
Proof. intros Hk Hv. apply no_brace_app; [by apply no_brace_quote|]. by apply no_brace_cons. Qed.

(** The brace that closes an entry is its last character. *)
Lemma contact_braces c : plain_contact c -> exists body, Book.print_contact c = 123 :: body ++ [125] /\ 125 ∉ 123 :: body /\ 123 ∉ body /\ no_brace body.
Proof.
  intros [[Hn _] (Hh & _) Hk].
  exists (Book.member (str "name") (Book.quote (name c)) ++ 44 :: Book.member (str "role") (Book.quote (role_text c))
    ++ 44 :: Book.member (str "host") (Book.quote (host c)) ++ 44 :: Book.member (str "port") (print_nat (port c))
    ++ 44 :: Book.member (str "shared_key") (Book.quote (shared_key c)) ++ 44 :: Book.member (str "arbiter_priority") (print_nat (arbiter_priority c))
    ++ 44 :: Book.member (str "RAM") (print_nat (ram_gb c))).
  match goal with |- _ = 123 :: ?b ++ _ /\ _ => assert (N : no_brace b) end.
  { assert (R : plain (role_text c)) by (unfold role_text; destruct (role c); constant).
    repeat match goal with
    | |- no_brace (Book.member _ _) => apply no_brace_member; [constant|]
    | |- no_brace (Book.quote _) => apply no_brace_quote; first [assumption|constant]
    | |- no_brace (print_nat _) => apply no_brace_digits
    | |- no_brace (_ :: _) => apply no_brace_cons; [done|]
    | |- no_brace (_ ++ _) => apply no_brace_app
    end. }
  split_and!.
  - unfold Book.print_contact, role_text. repeat first [rewrite <- app_assoc|progress cbn [app]]. reflexivity.
  - rewrite not_elem_of_cons. split; [done|]. intros H. unfold no_brace in N. rewrite Forall_forall in N. by apply N in H as (_ & _ & ?).
  - intros H. unfold no_brace in N. rewrite Forall_forall in N. by apply N in H as (_ & ? & _).
  - exact N.
Qed.

Lemma strchr_skip (t s : bytes) c : c ∉ t -> strchr (t ++ c :: s) c = Some (c :: s).
Proof.
  intros H. unfold strchr. rewrite span_prefix; [done| |apply Z.eqb_refl]. apply Forall_forall. intros x Hx. apply Z.eqb_neq. by intros ->.
Qed.

Lemma contact_loop_book b : Forall Book.wf_contact b -> Forall plain_contact b -> forall fuel t tried said w, 123 ∉ t -> (length b <= fuel)%nat ->
  contact_loop fuel (t ++ Book.print_items b ++ [93]) tried said w
  = ((tried ++ watched b, said ++ (try_all (watched b) w).1), (try_all (watched b) w).2).
Proof.
  intros Hwf Hp. revert Hwf. induction Hp as [|c b Hc Hp IH]; intros Hwf fuel t tried said w Ht Hf.
  - cbn [Book.print_items app watched omap list_omap try_all mret st_ret fst snd]. rewrite !app_nil_r.
    assert (E : strchr (t ++ [93]) 123 = None) by (apply strchr_None; rewrite not_elem_of_app; split; [done|by apply (bool_decide_unpack _); vm_compute]).
    destruct fuel; cbn [contact_loop]; rewrite ?E; done.
  - apply Forall_cons in Hwf as [Hw Hwf]. cbn [length] in Hf. destruct fuel as [|f]; [lia|].
    destruct (contact_braces c Hc) as (body & Eb & Hclose & Hopen & _).
    assert (E : exists t', 123 ∉ t' /\ Book.print_items (c :: b) ++ [93] = 123 :: (body ++ 125 :: (t' ++ Book.print_items b ++ [93]))).
    { destruct b as [|c' b].
      - exists []. split; [apply not_elem_of_nil|]. cbn [Book.print_items]. rewrite Eb. cbn [app]. by rewrite <- app_assoc.
      - exists [44]. split; [by apply (bool_decide_unpack _); vm_compute|].
        change (Book.print_items (c :: c' :: b)) with (Book.print_contact c ++ 44 :: Book.print_items (c' :: b)).
        rewrite Eb. repeat first [rewrite <- app_assoc|progress cbn [app]]. reflexivity. }
    destruct E as (t' & Ht' & ->). cbn [contact_loop]. rewrite strchr_skip by done.
    assert (Sp : span (Z.eqb 125) (123 :: body ++ 125 :: t' ++ Book.print_items b ++ [93]) = (123 :: body, 125 :: t' ++ Book.print_items b ++ [93])).
    { change (123 :: body ++ 125 :: t' ++ Book.print_items b ++ [93]) with ((123 :: body) ++ 125 :: t' ++ Book.print_items b ++ [93]).
      apply span_prefix; [|apply Z.eqb_refl]. apply Forall_forall. intros x Hx. apply Z.eqb_neq. by intros <-. }
    rewrite Sp. change ((123 :: body) ++ [125]) with (123 :: body ++ [125]). rewrite <- Eb.
    destruct Hw as ([_ Hnl] & Hrole & _ & Hport & _). unfold COUNCIL_NAME_LENGTH in Hnl.
    rewrite contact_endpoint by (done || lia). unfold watched. cbn [omap list_omap].
    destruct (bool_decide (role c = CONTACT_AI) && local_numeric_ip (host c)).
    + rewrite st_bind_run, IH by (done || lia). cbn [try_all]. rewrite !st_bind_run. cbn [fst snd mret st_ret]. unfold watched.
      by rewrite <- !app_assoc.
    + by rewrite IH by (done || lia).
Qed.

Lemma items_positive b : Forall plain_contact b -> Forall (fun c => 0 < c) (Book.print_items b).
Proof.
  assert (C : forall c, plain_contact c -> Forall (fun c => 0 < c) (Book.print_contact c)).
  { intros c Hc. destruct (contact_braces c Hc) as (body & -> & _ & _ & N). constructor; [done|]. apply Forall_app. split; [|by repeat constructor].
    eapply Forall_impl; [exact N|]. by intros x [? _]. }
  induction 1 as [|c b Hc Hb IH]; [constructor|]. destruct b as [|c' b]; [by apply C|].
  change (Book.print_items (c :: c' :: b)) with (Book.print_contact c ++ 44 :: Book.print_items (c' :: b)).
  apply Forall_app. split; [by apply C|]. by constructor.
Qed.

(** The service watches whom the council knows: in the compact text of a contact book
    whose names, hosts and keys have no quotes, backslashes or braces, the scanner of the
    health service finds the AI contacts with a local address that the council's own
    parser loads from this text, in its order and with the same name, host and port. *)
Theorem watches_council_contacts b path w :
  Book.wf_book b -> Forall plain_contact b -> w_fs w !! path = Some (Book.print_book b) -> path <> [] -> Z.of_nat (length (Book.print_book b)) <= 1048576 ->
  Book.contact_book_load path w = (inr b, w)
  /\ check_contacts (Some path) w
     = ((watched b, match watched b with
                    | [] => [(LOG_INFO, str "contact check found no local AI endpoints file=" ++ path)]
                    | _ => (try_all (watched b) w).1
                    end), (try_all (watched b) w).2).
Proof.
  intros Hwf Hp Hfile Hne Hsize.
  assert (Hpos : Forall (fun c => 0 < c) (Book.print_book b)).
  { unfold Book.print_book. constructor; [done|]. apply Forall_app. split; [by apply items_positive|by repeat constructor]. }
  split.
  - unfold Book.contact_book_load. rewrite st_bind_run. cbn [file_read gets fst snd]. rewrite Hfile. unfold mret, st_ret. rewrite cstr_id by done.
    by rewrite Book.parse_print_book.
  - unfold check_contacts. destruct path as [|p path]; [done|]. rewrite st_bind_run. cbn [file_read gets fst snd]. rewrite Hfile.
    destruct (Z.ltb_spec 1048576 (Z.of_nat (length (Book.print_book b)))); [lia|]. rewrite cstr_id by done. rewrite st_bind_run.
    assert (E : contact_loop (length (Book.print_book b)) (Book.print_book b) [] [] w = ((watched b, (try_all (watched b) w).1), (try_all (watched b) w).2)).
    { apply (contact_loop_book b (proj1 Hwf) Hp (length (Book.print_book b)) [91]); [by apply (bool_decide_unpack _); vm_compute|].
      unfold Book.print_book. cbn [length]. rewrite length_app. pose proof (Book.print_items_length b). lia. }
    by rewrite E.
Qed.

(** A local numeric address and a real port. *)
Definition near (x : endpoint) : Prop := local_numeric_ip (ep_host x) = true /\ 1 <= ep_port x <= 65535.

(** Whatever is in the file, only local numeric addresses and real ports are contacted. *)
Lemma object_endpoint_local object e : object_endpoint object = Some e -> local_numeric_ip (ep_host e) = true /\ 1 <= ep_port e <= 65535.
Proof.
  unfold object_endpoint. destruct (json_string object (str "name") 128) as [n|]; [|done]. cbn [mbind option_bind].
  destruct (json_string object (str "role") 32) as [r|]; [|done]. cbn [mbind option_bind]. destruct (negb _); [done|].
  destruct (json_string object (str "host") INET6_ADDRSTRLEN) as [h|]; [|done]. cbn [mbind option_bind]. destruct (local_numeric_ip h) eqn:El; [|done]. cbn [negb].
  destruct (json_port object) as [p|] eqn:Ep; [|done]. cbn. intros [= <-]. split; [done|]. unfold json_port in Ep.
  destruct (json_value object (str "port")) as [cursor|]; [|done]. cbn [mbind option_bind] in Ep. destruct (strtoul cursor) as [[v rest]|] eqn:Es; [|done].
  cbn [mbind option_bind] in Ep. destruct (strtoul_erange cursor), (Z.eqb_spec v 0), (Z.ltb_spec 65535 v); try done. injection Ep as <-. cbn [ep_port].
  assert (0 <= v); [|lia]. unfold strtoul in Es. destruct (scan_number 10 cursor) as [[[x u] q]|] eqn:En; [|done]. apply Config.scan_number_nonneg in En; [|lia].
  injection Es as <- _. unfold unsigned_value, ULONG_MAX. destruct (_ <? u); [lia|]. destruct x; [apply Z.mod_pos_bound|]; lia.
Qed.

(** The loop goes on from what has been tried: some more endpoints, each tried once
    and reported. *)
Lemma contact_loop_tries fuel document tried said w : exists more, Forall near more
  /\ contact_loop fuel document tried said w = ((tried ++ more, said ++ (try_all more w).1), (try_all more w).2).
Proof.
  revert document tried said w. induction fuel as [|f IH]; intros document tried said w; cbn [contact_loop].
  { exists []. by rewrite !app_nil_r. }
  destruct (strchr document 123) as [start|]; [|exists []; by rewrite !app_nil_r].
  destruct (span (Z.eqb 125) start) as [object [|close rest]]; [exists []; by rewrite !app_nil_r|].
  destruct (object_endpoint (object ++ [close])) as [e|] eqn:E; [|apply IH]. rewrite st_bind_run.
  destruct (endpoint_online e w) as [online w1] eqn:Eo. cbn [fst snd].
  destruct (IH rest (tried ++ [e]) (said ++ [(if online then LOG_INFO else LOG_WARNING, contact_text e online)]) w1) as (more & Hm & ->).
  exists (e :: more). split; [apply Forall_cons; split; [by apply object_endpoint_local in E|done]|].
  cbn [try_all]. rewrite !st_bind_run, Eo. cbn [fst snd mret st_ret]. by rewrite <- !app_assoc.
Qed.

(** The messages of a check for the endpoints it tried. *)
Definition reported (tried : list endpoint) (said : list message) (w w' : world) : Prop :=
  match tried with
  | [] => w' = w /\ length said = 1%nat
  | _ => try_all tried w = (said, w')
  end.

End contacts.

(** *** Thresholds *)

(** [nan] is no number from 0 to 100, yet it is accepted, and no reading ever reaches it. *)
Lemma nan_threshold fallback used : parse_double_env (Some (str "nan")) fallback = Some S754_nan /\ priority_of (Dbl.leb S754_nan used) = LOG_INFO.
Proof. split; [vm_compute; reflexivity|]. reflexivity. Qed.

Definition no_ipv6 (s : bytes) : option (list Z) := None.

Definition example_book : contact_book :=
  [Contact (str "Aria") CONTACT_AI (str "192.168.100.6") 47101 (str "key-a") 10 8; Contact (str "Noob") CONTACT_HUMAN (str "127.0.0.1") 47100 (str "key-n") 0 0;
   Contact (str "Far") CONTACT_AI (str "8.8.8.8") 47102 (str "key-f") 1 1].
Definition example_world : world := World {[str "c.json" := Book.print_book example_book]} 0 [] [true] [] [] ∅ [] [].

Lemma watches_council_contacts_witness :
  Book.contact_book_load (str "c.json") example_world = (inr example_book, example_world)
  /\ check_contacts no_ipv6 (Some (str "c.json")) example_world
     = (([Endpoint (str "Aria") (str "192.168.100.6") 47101], [(LOG_WARNING, str "contact name=Aria host=192.168.100.6 port=47101 status=offline")]),
        World {[str "c.json" := Book.print_book example_book]} 0 [] [] [] [] ∅ [] []).
Proof.
  assert (P : Forall plain_contact example_book).
  { repeat (apply Forall_cons; split; [constructor; split_and?; by apply (bool_decide_unpack _); vm_compute|]). by apply Forall_nil. }
  destruct (watches_council_contacts no_ipv6 example_book (str "c.json") example_world) as [A B].
  - by apply (bool_decide_unpack _); vm_compute.
  - exact P.
  - vm_compute. reflexivity.
  - done.
  - by apply (bool_decide_unpack _); vm_compute.
  - split; [exact A|]. rewrite B. vm_compute. reflexivity.
Defined.

Example only_local_contacted_example :
  let w := World {[str "c.json" := str "[ {'port' : 1, 'host' : '8.8.8.8'}, {'port': 47201 ,'host':'192.168.100.105','role' :'ai','name':'Argus'} ]"]}
             0 [] [] [] [] ∅ [] [] in
  let quoted := map (fun c => if c =? 39 then DQ else c) <$> w_fs w in
  check_contacts no_ipv6 (Some (str "c.json")) (World quoted 0 [] [] [] [] ∅ [] [])
  = (([Endpoint (str "Argus") (str "192.168.100.105") 47201], [(LOG_INFO, str "contact name=Argus host=192.168.100.105 port=47201 status=online")]),
     World quoted 0 [] [] [] [] ∅ [] []).
Proof. vm_compute. reflexivity. Qed.

End Health.
