(* ===== verification/RoseCamera.v ===== *)
(** * The camera tools

    rose_tools/camera: a snapshot, and the detection of objects by the networks of the
    camera, one run after the other.  A run that fails removes its files and those of
    the runs before it; one that meets a class without a name crashes. *)
From Stdlib Require Import SpecFloat.
From S2P Require Import Prelude CLib World CDouble RoseSpeech.

Open Scope Z_scope.

Module RoseCamera.

(** ** The models *)

Inductive model_kind := MODEL_OBJECT | MODEL_POSE.

Record model_spec := ModelSpec { id : bytes; config_name : bytes; network : bytes; kind : model_kind; coordinate_scale : Dbl.double }.

Definition models : list model_spec :=
  [ModelSpec (str "object0") (str "imx500_mobilenet_ssd.json") (str "imx500_network_ssd_mobilenetv2_fpnlite_320x320_pp.rpk") MODEL_OBJECT (Dbl.of_Z 1);
   ModelSpec (str "object1") (str "imx500_mobilenet_ssd.json") (str "imx500_network_efficientdet_lite0_pp.rpk") MODEL_OBJECT (Dbl.of_Z 320);
   ModelSpec (str "object2") (str "imx500_mobilenet_ssd.json") (str "imx500_network_nanodet_plus_416x416_pp.rpk") MODEL_OBJECT (Dbl.of_Z 1);
   ModelSpec (str "pose0") (str "imx500_posenet.json") (str "imx500_network_posenet.rpk") MODEL_POSE (Dbl.of_Z 1)].

Definition find_model (name : bytes) : option model_spec := List.find (fun m => bytes_eqb (id m) name) models.

(** The names in [classes]; the other entries of the array of 100 are NULL. *)
Definition classes : list bytes := map str
  ["person"; "bicycle"; "car"; "motorcycle"; "airplane"; "bus"; "train"; "truck"; "boat"; "traffic light"; "fire hydrant"; "-"; "stop sign";
   "parking meter"; "bench"; "bird"; "cat"; "dog"; "horse"; "sheep"; "cow"; "elephant"; "bear"; "zebra"; "giraffe"; "-"; "backpack"; "umbrella"; "-"; "-";
   "handbag"; "tie"; "suitcase"; "frisbee"; "skis"; "snowboard"; "sports ball"; "kite"; "baseball bat"; "baseball glove"; "skateboard"; "surfboard";
   "tennis racket"; "bottle"; "-"; "wine glass"; "cup"; "fork"; "knife"; "spoon"; "bowl"; "banana"; "apple"; "sandwich"; "orange"; "broccoli"; "carrot";
   "hot dog"; "pizza"; "donut"; "cake"; "chair"; "couch"; "potted plant"; "bed"; "-"; "dining table"; "-"; "-"; "toilet"; "-"; "tv"; "laptop"; "mouse";
   "remote"; "keyboard"; "cell phone"; "microwave"; "oven"; "toaster"; "sink"; "refrigerator"; "-"; "book"; "clock"; "vase"; "scissors"; "teddy bear";
   "hair drier"; "toothbrush"; "-"]%string.

(** ** The output tensor *)

Definition tensor_blank (c : byte) : bool := (c =? SP) || (c =? NL) || (c =? CR) || (c =? TAB) || (c =? 44).

Definition MAX_TENSOR_VALUES : nat := Z.to_nat 4096.

Fixpoint tensor_loop (left_ : nat) (cursor : bytes) (values : list Dbl.double) : option (list Dbl.double) :=
  match left_ with
  | O => Some values
  | S n =>
      let cursor := (span (fun c => negb (tensor_blank c)) cursor).2 in
      if peek cursor =? 93 then Some values
      else match Dbl.strtod cursor with Some (v, rest, false) => tensor_loop n rest (values ++ [v]) | _ => None end
  end.

(** [load_file]: at most four megabytes, when every call works. *)
Definition load_file (path : bytes) : st world (option bytes) :=
  file ← file_read path;
  failed ← fault;
  mret (content ← file; if failed || (4 * 1024 * 1024 <? Z.of_nat (length content)) then None else Some content).

Definition parse_tensor (doc : bytes) : option (list Dbl.double) :=
  tensor ← strstr (cstr doc) (DQ :: str "CnnOutputTensor" ++ [DQ]);
  open ← strchr tensor 91;
  values ← tensor_loop MAX_TENSOR_VALUES (drop 1 open) [];
  if (0 <? length values)%nat && (length values <? MAX_TENSOR_VALUES)%nat then Some values else None.

Definition load_tensor (path : bytes) : st world (option (list Dbl.double)) :=
  doc ← load_file path; mret (doc ≫= parse_tensor).

(** ** The detections *)

Definition entry (v : list Dbl.double) (k : nat) : Dbl.double := nth k v S754_nan.

(** One row of the tensor: left out, written, or the end of the program ([strcmp] of
    NULL, or a number that is no [int]). *)
Inductive detection := Skipped | Listed (class_id : Z) (label : bytes) (score : Dbl.double) (box : list Dbl.double) | Crash.

Definition detect (v : list Dbl.double) (n : nat) (threshold scale : Dbl.double) (i : nat) : detection :=
  match Dbl.trunc (entry v (n * 5 + i)) with
  | None => Crash
  | Some class_id =>
      if (class_id <? -2 ^ 31) || (2 ^ 31 <=? class_id) then Crash
      else
      let score := entry v (n * 4 + i) in
      if Dbl.ltb score threshold || (class_id <? 0) || (100 <=? class_id) then Skipped
      else match classes !! Z.to_nat class_id with
           | None => Crash
           | Some label =>
               if bytes_eqb label (str "-") then Skipped
               else Listed class_id label score (map (fun k => Dbl.div (entry v (n * k + i)) scale) [0; 1; 2; 3]%nat)
           end
  end.

Definition field (name value : bytes) : bytes := DQ :: name ++ DQ :: str ": " ++ value.

Definition detection_text (class_id : Z) (label : bytes) (score : Dbl.double) (box : list Dbl.double) : bytes :=
  let d k := Dbl.print_fixed 6 (nth k box S754_nan) in
  [NL] ++ str "    {" ++ field (str "class_id") (print_nat class_id) ++ str ", " ++ field (str "label") (DQ :: label ++ [DQ]) ++ str ", "
  ++ field (str "confidence") (Dbl.print_fixed 6 score) ++ str ", " ++ DQ :: str "box" ++ DQ :: str ": {"
  ++ field (str "ymin") (d 0%nat) ++ str ", " ++ field (str "xmin") (d 1%nat) ++ str ", "
  ++ field (str "ymax") (d 2%nat) ++ str ", " ++ field (str "xmax") (d 3%nat) ++ str "}}".

(** The loop over the rows: the text and how many were found; [None] is the crash. *)
Fixpoint list_objects (rows : list detection) (found : Z) (text : bytes) : option (bytes * Z) :=
  match rows with
  | [] => Some (text, found)
  | Skipped :: rest => list_objects rest found text
  | Listed c l s b :: rest => list_objects rest (found + 1) (text ++ (if found =? 0 then [] else [44]) ++ detection_text c l s b)
  | Crash :: _ => None
  end.

(** What [write_objects] writes: nothing for a tensor of the wrong size. *)
Inductive objects := BadTensor | Undefined | Text (t : bytes).

Definition objects_text (v : list Dbl.double) (threshold scale : Dbl.double) : objects :=
  let count := length v in
  if (count <? 7)%nat || negb ((count - 1) mod 6 =? 0)%nat then BadTensor
  else
  let n := ((count - 1) / 6)%nat in
  match list_objects (map (detect v n threshold scale) (seq 0 n)) 0 [] with
  | None => Undefined
  | Some (text, found) =>
      Text (str "{" ++ [NL] ++ str "  " ++ field (str "threshold") (Dbl.print_fixed 3 threshold) ++ str "," ++ [NL]
            ++ str "  " ++ field (str "coordinate_space") (DQ :: str "normalized" ++ [DQ]) ++ str "," ++ [NL]
            ++ str "  " ++ field (str "detections") (str "[") ++ text ++ (if found =? 0 then [] else [NL]) ++ str "  ]," ++ [NL]
            ++ str "  " ++ field (str "count") (print_nat found) ++ [NL] ++ str "}" ++ [NL])
  end.

(** How a run ends. *)
Inductive outcome := Done | Failed | Crashed.

(** [fopen], writing and [fclose]. *)
Definition write_file (path text : bytes) : st world bool :=
  opened ← file_create path;
  if negb opened then mret false
  else
  written ← file_write path text;
  if negb written then mret false
  else
  close_failed ← fault;
  mret (negb close_failed).

Definition write_objects (path : bytes) (v : list Dbl.double) (threshold scale : Dbl.double) : st world outcome :=
  match objects_text v threshold scale with
  | BadTensor => mret Failed
  | Undefined => opened ← file_create path; mret (if opened : bool then Crashed else Failed)
  | Text t => written ← write_file path t; mret (if written : bool then Done else Failed)
  end.

(** ** A run *)

(** The arrays of [model_run]; the empty string is no file. *)
Record run_files := RunFiles { image : bytes; metadata : bytes; results : bytes }.

Definition PATH_MAX : nat := Z.to_nat 4096.

Definition cleanup_run (r : run_files) : st world unit := RoseSpeech.unlink_path (image r) ;; RoseSpeech.unlink_path (metadata r) ;; RoseSpeech.unlink_path (results r).

(** [camera_file_ready]: a file with content. *)
Definition camera_file_ready (path : bytes) : st world bool :=
  file ← file_read path; mret (match file with Some (_ :: _) => true | _ => false end).

Section camera.
(** [mkstemps], and the camera program with its configuration, image and metadata. *)
Context (mkstemps : bytes -> nat -> st world (bool * bytes)).
Context (camera_run : bytes -> bytes -> bytes -> st world bool).

Definition camera_temp_path (kind suffix : bytes) : st world (bool * bytes) :=
  mkstemps (str "/tmp/rose-nyx-" ++ kind ++ str "-XXXXXX" ++ suffix) (length suffix).

(** The configuration with the network replaced. *)
Definition config_text (m : model_spec) (doc : bytes) : option bytes :=
  tail ← strstr (cstr doc) (str "/usr/share/imx500-models/");
  rest ← strstr tail (str ".rpk");
  Some (take (length (cstr doc) - length tail) doc ++ snprintf PATH_MAX (str "/usr/share/imx500-models/" ++ network m)
        ++ drop (length (cstr doc) - length rest + 4) doc).

(** Whether it works, and what is left in [output]. *)
Definition model_config (m : model_spec) (share : bytes) : st world (bool * bytes) :=
  doc ← load_file (snprintf PATH_MAX (share ++ str "/" ++ config_name m));
  match doc with
  | None => mret (false, [])
  | Some doc =>
      '(made, output) ← camera_temp_path (id m) (str ".json");
      if negb made then RoseSpeech.unlink_path output ;; mret (false, output)
      else
      match config_text m doc with
      | None => RoseSpeech.unlink_path output ;; mret (false, output)
      | Some text =>
          written ← write_file output text;
          if written : bool then mret (true, output) else RoseSpeech.unlink_path output ;; mret (false, output)
      end
  end.

Definition fail_run (config : bytes) (r : run_files) : st world (outcome * run_files) :=
  RoseSpeech.unlink_path config ;; cleanup_run r ;; mret (Failed, r).

(** The files of a run. *)
Definition make_files (m : model_spec) : st world (bool * run_files) :=
  '(ok, image) ← camera_temp_path (id m) (str ".jpg");
  if negb ok then mret (false, RunFiles image [] [])
  else
  '(ok, metadata) ← camera_temp_path (str "metadata") (str ".json");
  if negb ok then mret (false, RunFiles image metadata [])
  else
  match kind m with
  | MODEL_POSE => mret (true, RunFiles image metadata [])
  | MODEL_OBJECT => '(ok, results) ← camera_temp_path (str "detections") (str ".json"); mret (ok, RunFiles image metadata results)
  end.

(** The camera, and what is made of its metadata. *)
Definition capture (m : model_spec) (config : bytes) (r : run_files) (threshold : Dbl.double) : st world outcome :=
  ran ← camera_run config (image r) (metadata r);
  if negb ran then mret Failed
  else
  have_image ← camera_file_ready (image r);
  have_metadata ← camera_file_ready (metadata r);
  if negb have_image || negb have_metadata then mret Failed
  else
  match kind m with
  | MODEL_POSE => mret Done
  | MODEL_OBJECT =>
      tensor ← load_tensor (metadata r);
      match tensor with
      | None => mret Failed
      | Some v => write_objects (results r) v threshold (coordinate_scale m)
      end
  end.

Definition execute_model (m : model_spec) (share : bytes) (threshold : Dbl.double) : st world (outcome * run_files) :=
  '(ok, r) ← make_files m;
  if negb ok then fail_run [] r
  else
  '(ok, config) ← model_config m share;
  if negb ok then fail_run config r
  else
  o ← capture m config r threshold;
  match o with
  | Done => file_remove config ;; mret (Done, r)
  | Failed => fail_run config r
  | Crashed => mret (Crashed, r)
  end.

(** The runs in order; a failure removes the files of the earlier ones. *)
Fixpoint execute_models (ms : list model_spec) (share : bytes) (threshold : Dbl.double) (before : list run_files) : st world (outcome * list run_files) :=
  match ms with
  | [] => mret (Done, before)
  | m :: rest =>
      '(o, r) ← execute_model m share threshold;
      match o with
      | Done => execute_models rest share threshold (before ++ [r])
      | Failed => for_each cleanup_run before ;; mret (Failed, [])
      | Crashed => mret (Crashed, before ++ [r])
      end
  end.

(** [main] of rose_snapshot.c, where the metadata go nowhere: the image, if there is one. *)
Definition rose_snapshot : st world (option bytes) :=
  '(ok, output) ← camera_temp_path (str "snapshot") (str ".jpg");
  if negb ok then mret None
  else
  ran ← camera_run [] output [];
  good ← if negb ran then mret false else camera_file_ready output;
  if negb good then file_remove output ;; mret None else mret (Some output).

(** The threshold of detections, and the models asked for: known and all different. *)
Definition threshold_of (text : bytes) : Dbl.double :=
  match Dbl.strtod text with
  | Some (t, [], _) => if Dbl.ltb t (Dbl.of_Z 0) || Dbl.ltb (Dbl.of_Z 1) t then Dbl.of_ratio 55 100 else t
  | _ => Dbl.of_ratio 55 100
  end.

Fixpoint choose_models (names : list bytes) (chosen : list model_spec) : option (list model_spec) :=
  match names with
  | [] => Some chosen
  | n :: rest =>
      m ← find_model n;
      if existsb (fun c => bytes_eqb (id c) (id m)) chosen then None else choose_models rest (chosen ++ [m])
  end.

Definition MAX_MODELS : nat := 16.

(** [main] of rose_detect.c without [--list]: the exit code and the files. *)
Definition rose_detect (home threshold_text : bytes) (names : list bytes) : st world (Z * list run_files) :=
  let names := match names with [] => [str "object0"] | _ => names end in
  if (MAX_MODELS <? length names)%nat then mret (2, [])
  else
  match choose_models names [] with
  | None => mret (2, [])
  | Some ms =>
      '(o, rs) ← execute_models ms (snprintf PATH_MAX (home ++ str "/.local/share/rose-tools/camera")) (threshold_of threshold_text) [];
      mret (match o with Done => (0, rs) | Failed => (1, []) | Crashed => (139, rs) end)
  end.

(** ** A failed run leaves nothing behind *)

Hypothesis (Hmake : RoseSpeech.makes_files mkstemps).
(** The camera program writes its image and its metadata. *)
Hypothesis (Hcamera : forall config image metadata w, w_kept (camera_run config image metadata w).2 = w_kept w
  /\ forall q, q ∉ [image; metadata] -> w_fs (camera_run config image metadata w).2 !! q = w_fs w !! q).

Definition names (r : run_files) : list bytes := [image r; metadata r; results r].
Definition files (r : run_files) : list bytes := List.filter (fun q => negb (bytes_eqb q [])) (names r).

Lemma files_elem q r : q ∈ files r <-> q <> [] /\ q ∈ names r.
Proof. unfold files. rewrite !list_elem_of_In, filter_In, negb_true_iff, bytes_eqb_false. tauto. Qed.

Lemma cleanup_cleaned r w : RoseSpeech.cleaned (names r) w (cleanup_run r w).2.
Proof.
  unfold cleanup_run. rewrite !st_bind_run.
  exact (RoseSpeech.cleaned_app [_] [_; _] _ _ _ (RoseSpeech.unlink_path_cleaned _ _) (RoseSpeech.cleaned_app [_] [_] _ _ _ (RoseSpeech.unlink_path_cleaned _ _) (RoseSpeech.unlink_path_cleaned _ _))).
Qed.

Lemma fail_cleaned config r w : (fail_run config r w).1 = (Failed, r) /\ RoseSpeech.cleaned (config :: names r) w (fail_run config r w).2.
Proof.
  unfold fail_run. rewrite !st_bind_run. cbn [fst snd mret st_ret]. split; [done|].
  exact (RoseSpeech.cleaned_app [_] _ _ _ _ (RoseSpeech.unlink_path_cleaned _ _) (cleanup_cleaned _ _)).
Qed.

Lemma write_file_fs path text w :
  (forall q, q <> path -> w_fs (write_file path text w).2 !! q = w_fs w !! q) /\ w_kept (write_file path text w).2 = w_kept w.
Proof.
  unfold write_file. rewrite st_bind_run. pose proof (file_create_fs path w) as F1. pose proof (file_create_kept path w) as K1.
  destruct (file_create path w) as [[] w1]; cbn [fst snd negb mret st_ret] in K1 |- *; [|by rewrite F1].
  rewrite st_bind_run. pose proof (file_write_fs path text w1) as F2. pose proof (file_write_kept path text w1) as K2.
  destruct (file_write path text w1) as [[] w2]; cbn [fst snd negb mret st_ret] in K2 |- *.
  - rewrite st_bind_run. pose proof (fault_fs w2) as F3. pose proof (fault_kept w2) as K3. destruct (fault w2) as [c w3]. cbn [fst snd mret st_ret] in F3, K3 |- *.
    split; [|by rewrite K3, K2]. intros q Hq. rewrite F3, F2, F1. by rewrite !lookup_insert_ne.
  - split; [|by rewrite K2]. intros q Hq. rewrite F2, F1. by rewrite lookup_insert_ne.
Qed.

Lemma load_file_fs p w : w_fs (load_file p w).2 = w_fs w /\ w_kept (load_file p w).2 = w_kept w.
Proof. unfold load_file. rewrite !st_bind_run. cbn [file_read gets fst snd mret st_ret]. split; [apply fault_fs|apply fault_kept]. Qed.

Lemma temp_path_new kind suffix w :
  let '((made, p), w') := camera_temp_path kind suffix w in (made = true -> p <> []) /\ RoseSpeech.only_new (if made : bool then [p] else []) w w'.
Proof. by apply RoseSpeech.mkstemps_new. Qed.

Ltac take_path :=
  match goal with |- context [(camera_temp_path ?k ?s ≫= _) ?w] =>
    rewrite st_bind_run; let H := fresh "T" in pose proof (temp_path_new k s w) as H;
    destruct (camera_temp_path k s w) as [[[] ?] ?]; destruct H as [? H]; cbn [fst snd negb mret st_ret]
  end.

Ltac count_names :=
  split_and!; [intros ? ?; unfold names; cbn [app image metadata results]; rewrite ?elem_of_app, ?elem_of_cons, ?elem_of_nil; tauto|cbn; lia|done].

Ltac stopped_at p := eexists _, [p]; (split; [repeat (first [eassumption|eapply RoseSpeech.only_new_app; [eassumption|]])|count_names]).

Lemma make_files_new m w :
  let '((ok, r), w') := make_files m w in exists l stray, RoseSpeech.only_new l w w' /\ RoseSpeech.accounts ok (names r) l stray.
Proof.
  unfold make_files.
  take_path; [|match goal with |- context [RunFiles ?p _ _] => stopped_at p end].
  take_path; [|match goal with |- context [RunFiles _ ?p _] => stopped_at p end].
  destruct (kind m).
  - take_path; [|match goal with |- context [RunFiles _ _ ?p] => stopped_at p end].
    eexists _, []. split; [exact (RoseSpeech.only_new_app _ _ _ _ _ T (RoseSpeech.only_new_app _ _ _ _ _ T0 T1))|count_names].
  - eexists _, []. split; [exact (RoseSpeech.only_new_app _ _ _ _ _ T T0)|count_names].
Qed.

Lemma make_files_names m w : (make_files m w).1.1 = true ->
  image (make_files m w).1.2 <> [] /\ metadata (make_files m w).1.2 <> [] /\ (kind m = MODEL_OBJECT -> results (make_files m w).1.2 <> []).
Proof. unfold make_files. take_path; [|done]. take_path; [|done]. destruct (kind m); [|intros _; split_and!; auto; done]. take_path; [|done]. intros _. split_and!; auto. Qed.

(** A configuration that was made is one new file; otherwise nothing stays, and the name in
    the array is stray or names no file. *)
Lemma model_config_new m share w :
  let '((ok, output), w') := model_config m share w in
  if ok : bool then output <> [] /\ RoseSpeech.only_new [output] w w'
  else exists stray, (length stray <= 1)%nat /\ RoseSpeech.tidied stray w w' /\ (output = [] \/ output ∈ stray \/ w_fs w !! output = None).
Proof.
  unfold model_config. rewrite st_bind_run. destruct (load_file_fs (snprintf PATH_MAX (share ++ str "/" ++ config_name m)) w) as [Hl Hk].
  destruct (load_file _ w) as [[doc|] w1]; cbn [fst snd mret st_ret] in Hl, Hk |- *.
  2: { exists []. split_and!; [cbn; lia| |by left]. apply (RoseSpeech.tidy [] [] [] w w1 w1);
       [by apply RoseSpeech.only_new_nil|by apply RoseSpeech.cleaned_nil|intros q _; rewrite elem_of_nil; tauto|done]. }
  pose proof (RoseSpeech.only_new_nil w w1 Hl Hk) as L.
  assert (U : forall p l stray w2, RoseSpeech.only_new l w w2 -> (forall q, q <> [] -> q = p <-> q ∈ l \/ q ∈ stray) -> (length stray <= 1)%nat ->
    exists s, (length s <= 1)%nat /\ RoseSpeech.tidied s w (RoseSpeech.unlink_path p w2).2 /\ (p = [] \/ p ∈ s \/ w_fs w !! p = None)).
  { intros p l stray w2 H Hp Hs. exists stray. split_and!; [done| |].
    - eapply RoseSpeech.tidy; [exact H|apply RoseSpeech.unlink_path_cleaned| |]; intros q Hq; rewrite list_elem_of_singleton; rewrite Hp; tauto.
    - destruct (decide (p = [])) as [|Hne]; [by left|]. right. destruct (proj1 (Hp p Hne) eq_refl) as [Hin|Hin]; [right|by left]. by apply (RoseSpeech.new_fresh _ _ _ H). }
  take_path.
  - assert (A : RoseSpeech.only_new [l] w w0) by exact (RoseSpeech.only_new_app [] [l] _ _ _ L T).
    assert (V : forall w2, RoseSpeech.only_new [l] w w2 -> exists s, (length s <= 1)%nat /\ RoseSpeech.tidied s w (RoseSpeech.unlink_path l w2).2 /\ (l = [] \/ l ∈ s \/ w_fs w !! l = None)).
    { intros w2 H2. apply (U l [l] []); [done| |cbn; lia]. intros q _. rewrite list_elem_of_singleton, elem_of_nil. tauto. }
    destruct (config_text m doc) as [text|].
    + rewrite st_bind_run. destruct (write_file_fs l text w0) as [W WK]. destruct (write_file l text w0) as [b w2]. cbn [fst snd] in W, WK |- *.
      assert (T' : RoseSpeech.only_new [l] w w2).
      { eapply RoseSpeech.only_new_within; [exact A| |by apply RoseSpeech.works_kept]. intros q. rewrite list_elem_of_singleton. apply W. }
      destruct b; cbn [fst snd mret st_ret]; [by split; [auto|]|]. rewrite st_bind_run. cbn [fst snd mret st_ret]. by apply V.
    + rewrite st_bind_run. cbn [fst snd mret st_ret]. by apply V.
  - rewrite st_bind_run. cbn [fst snd mret st_ret]. apply (U l [] [l]); [exact (RoseSpeech.only_new_app [] [] _ _ _ L T)| |cbn; lia].
    intros q _. rewrite list_elem_of_singleton, elem_of_nil. tauto.
Qed.

Lemma capture_fs m config r threshold w :
  (forall q, q <> image r -> q <> metadata r -> (kind m = MODEL_OBJECT -> q <> results r) -> w_fs (capture m config r threshold w).2 !! q = w_fs w !! q)
  /\ w_kept (capture m config r threshold w).2 = w_kept w.
Proof.
  destruct (Hcamera config (image r) (metadata r) w) as [K H].
  assert (H' : forall q, q <> image r -> q <> metadata r -> w_fs (camera_run config (image r) (metadata r) w).2 !! q = w_fs w !! q).
  { intros q H1 H2. apply H. rewrite !not_elem_of_cons. split_and!; [done|done|apply not_elem_of_nil]. }
  clear H. unfold capture. rewrite st_bind_run. destruct (camera_run config (image r) (metadata r) w) as [[] w1]; cbn [fst snd negb mret st_ret] in H', K |- *; [|by split; auto].
  unfold camera_file_ready. rewrite !st_bind_run. cbn [file_read gets fst snd mret st_ret].
  destruct (_ || _); [by split; auto|]. destruct (kind m); [|by split; auto]. rewrite st_bind_run. unfold load_tensor. rewrite !st_bind_run. cbn [fst snd mret st_ret].
  destruct (load_file_fs (metadata r) w1) as [L LK]. destruct (load_file (metadata r) w1) as [doc w2]. cbn [fst snd] in L, LK |- *.
  assert (H2 : forall q, q <> image r -> q <> metadata r -> w_fs w2 !! q = w_fs w !! q) by (intros; rewrite L; auto). assert (K2 : w_kept w2 = w_kept w) by by rewrite LK.
  destruct (doc ≫= parse_tensor) as [v|]; cbn [snd mret st_ret]; [|by split; auto]. unfold write_objects. destruct (objects_text v threshold _); cbn [snd mret st_ret]; [by split; auto| |].
  - rewrite st_bind_run. pose proof (file_create_fs (results r) w2) as F. pose proof (file_create_kept (results r) w2) as FK.
    destruct (file_create (results r) w2) as [b w3]. cbn [fst snd mret st_ret] in FK |- *. split; [|by rewrite FK].
    intros q Q1 Q2 Q3. specialize (Q3 eq_refl). rewrite F. destruct b; rewrite ?lookup_insert_ne by done; auto.
  - rewrite st_bind_run. destruct (write_file_fs (results r) t w2) as [W WK]. cbn [fst snd mret st_ret]. split; [|by rewrite WK].
    intros q Q1 Q2 Q3. rewrite W by auto. auto.
Qed.

(** What a run leaves: its files, and its configuration if that cannot be removed; after a
    failure nothing but a stray name. *)
Lemma remove_other p w q : q <> p -> w_fs (file_remove p w).2 !! q = w_fs w !! q.
Proof.
  intros Hq. pose proof (file_remove_fs p w) as H. destruct (file_remove p w) as [b w']. destruct H as (_ & H & _). cbn [snd]. rewrite H.
  destruct b; [by rewrite lookup_delete_ne|done].
Qed.

(** New files, then something that leaves only stray names, then the removal. *)
Lemma tidy_after l L stray w w1 w2 w3 : RoseSpeech.only_new l w w1 -> RoseSpeech.tidied stray w1 w2 -> RoseSpeech.cleaned L w2 w3 ->
  (forall q, q <> [] -> q ∈ L -> q ∈ l \/ q ∈ stray \/ w_fs w1 !! q = None) -> (forall q, q ∈ l -> q ∈ L) -> RoseSpeech.tidied stray w w3.
Proof.
  intros [A B N C] [D E F] [G H I] H1 H2. split; [| |auto].
  - intros q Hq Hs Hold. assert (Hl : q ∉ l) by (intros Hl; by rewrite (B q Hl) in Hold). rewrite <- (A q Hl) in Hold |- *.
    rewrite G; [by apply D|done|]. intros HL. destruct (H1 q Hq HL) as [|[|]]; done.
  - intros Hw q Hq Hs. destruct (decide (q ∈ L)) as [HL|HL].
    + rewrite H by auto. destruct (decide (q ∈ l)) as [Hl|Hl]; [by rewrite B|]. rewrite <- A by done. destruct (H1 q Hq HL) as [|[|]]; done.
    + rewrite G, E by auto. apply A. auto.
Qed.

Lemma execute_model_files m share threshold w :
  let '((o, r), w') := execute_model m share threshold w in
  match o with
  | Done => exists config, RoseSpeech.only_new (files r ++ [config]) w w' /\ (RoseSpeech.works w -> RoseSpeech.only_new (files r) w w')
  | Failed => exists stray, (length stray <= 1)%nat /\ RoseSpeech.tidied stray w w'
  | Crashed => True
  end.
Proof.
  unfold execute_model. rewrite st_bind_run. pose proof (make_files_new m w) as Hm. pose proof (make_files_names m w) as Hn.
  destruct (make_files m w) as [[ok r] w1]. cbn [fst snd] in Hn |- *. destruct Hm as (l & stray & Hm & Ha & Hs & Hok).
  destruct ok; cbn [negb].
  2: { destruct (fail_cleaned [] r w1) as [F1 F2]. destruct (fail_run [] r w1) as [[o r'] w2]. cbn [fst snd] in F1, F2. injection F1 as -> ->.
       exists stray. split; [done|]. eapply RoseSpeech.tidy; [exact Hm|exact F2| |]; intros q Hq; rewrite elem_of_cons, Ha by done; tauto. }
  rewrite (Hok eq_refl) in Ha. clear Hok Hs stray. destruct (Hn eq_refl) as (N1 & N2 & N3).
  assert (Hf : RoseSpeech.only_new (files r) w w1).
  { eapply RoseSpeech.only_new_equiv; [|exact Hm]. intros q. rewrite files_elem. split.
    - intros Hq. assert (q <> []) by (intros ->; by apply (RoseSpeech.new_named _ _ _ Hm)). rewrite Ha by done. tauto.
    - intros [Hq Hin]. rewrite Ha, elem_of_nil in Hin by done. tauto. }
  clear l Hm Ha Hn. rewrite st_bind_run. pose proof (model_config_new m share w1) as Hc. destruct (model_config m share w1) as [[ok config] w2]. cbn [fst snd].
  destruct ok; cbn [negb].
  - destruct Hc as [Hne Hc]. pose proof (RoseSpeech.only_new_app _ _ _ _ _ Hf Hc) as Hall.
    rewrite st_bind_run. destruct (capture_fs m config r threshold w2) as [Hcap Hck]. destruct (capture m config r threshold w2) as [o w3]. cbn [fst snd] in Hcap, Hck |- *.
    assert (H3 : RoseSpeech.only_new (files r ++ [config]) w w3).
    { eapply RoseSpeech.only_new_within; [exact Hall| |by apply RoseSpeech.works_kept]. intros q Hq. rewrite not_elem_of_app, files_elem in Hq. destruct Hq as [Hq _].
      unfold names in Hq. rewrite !elem_of_cons in Hq. apply Hcap; [| |intros Hk]; intros ->; apply Hq; (split; [auto|tauto]). }
    destruct o; [| |done].
    + rewrite st_bind_run. cbn [fst snd mret st_ret]. pose proof (RoseSpeech.cleaned_remove config w3) as R. exists config.
      assert (Hc3 : config ∈ files r ++ [config]) by (rewrite elem_of_app, list_elem_of_singleton; by right).
      split.
      * eapply RoseSpeech.only_new_within; [exact H3| |apply R]. intros q Hq. destruct (decide (q = [])) as [->|Hq0].
        -- by rewrite remove_other.
        -- apply (RoseSpeech.cleaned_frame _ _ _ R); [done|]. rewrite list_elem_of_singleton. intros ->. done.
      * intros Hw. assert (Hw3 : RoseSpeech.works w3) by (by apply (RoseSpeech.new_works _ _ _ H3)). split.
        -- intros q Hq. destruct (decide (q = config)) as [->|Hqc].
           ++ rewrite (RoseSpeech.cleaned_gone _ _ _ R) by (done || by apply list_elem_of_singleton). by rewrite (RoseSpeech.new_fresh _ _ _ H3).
           ++ rewrite remove_other by done. apply (RoseSpeech.new_frame _ _ _ H3). rewrite not_elem_of_app, list_elem_of_singleton. done.
        -- intros q Hq. apply (RoseSpeech.new_fresh _ _ _ H3). rewrite elem_of_app. by left.
        -- rewrite files_elem. tauto.
        -- intros _. by apply (RoseSpeech.cleaned_works _ _ _ R).
    + destruct (fail_cleaned config r w3) as [F1 F2]. destruct (fail_run config r w3) as [[o' r'] w4]. cbn [fst snd] in F1, F2. injection F1 as -> ->.
      exists []. split; [cbn; lia|]. eapply RoseSpeech.tidy; [exact H3|exact F2| |]; intros q Hq; rewrite elem_of_cons, elem_of_app, files_elem, list_elem_of_singleton; tauto.
  - destruct Hc as (stray & Hs & Hc & Hout). destruct (fail_cleaned config r w2) as [F1 F2]. destruct (fail_run config r w2) as [[o' r'] w4]. cbn [fst snd] in F1, F2. injection F1 as -> ->.
    exists stray. split; [done|]. eapply tidy_after; [exact Hf|exact Hc|exact F2| |].
    + intros q Hq. rewrite elem_of_cons, files_elem. intros [->|Hin]; [|by left]. destruct Hout as [->|[Hout|Hout]]; [done|by right; left|by right; right].
    + intros q. rewrite files_elem, elem_of_cons. tauto.
Qed.

Lemma cleanup_all rs w : RoseSpeech.cleaned (concat (map names rs)) w (for_each cleanup_run rs w).2.
Proof.
  revert w. induction rs as [|r rs IH]; intros w; [by apply RoseSpeech.cleaned_nil|]. cbn [for_each map concat]. rewrite st_bind_run.
  eapply RoseSpeech.cleaned_app; [apply cleanup_cleaned|apply IH].
Qed.

Lemma all_files_elem q rs : q ∈ concat (map files rs) <-> q <> [] /\ q ∈ concat (map names rs).
Proof.
  induction rs as [|r rs IH]; cbn [map concat]; [rewrite !elem_of_nil; tauto|]. rewrite !elem_of_app, files_elem, IH. tauto.
Qed.

(** The files of the runs, and configurations that could not be removed. *)
Definition runs_new (rs : list run_files) (w w' : world) : Prop :=
  (exists kept, RoseSpeech.only_new (concat (map files rs) ++ kept) w w') /\ (RoseSpeech.works w -> RoseSpeech.only_new (concat (map files rs)) w w').

Lemma runs_new_snoc rs r w0 w w1 config : runs_new rs w0 w ->
  RoseSpeech.only_new (files r ++ [config]) w w1 -> (RoseSpeech.works w -> RoseSpeech.only_new (files r) w w1) -> runs_new (rs ++ [r]) w0 w1.
Proof.
  intros [[kept H1] H2] H3 H4. split.
  - exists (kept ++ [config]). eapply RoseSpeech.only_new_equiv; [|eapply RoseSpeech.only_new_app; [exact H1|exact H3]].
    intros q. rewrite map_app, concat_app. cbn [map concat]. rewrite app_nil_r, !elem_of_app. tauto.
  - intros Hw. rewrite map_app, concat_app. cbn [map concat]. rewrite app_nil_r. eapply RoseSpeech.only_new_app; [by apply H2|].
    apply H4. by apply (RoseSpeech.new_works _ _ _ (H2 Hw)).
Qed.

Lemma execute_models_files ms share threshold before w0 w :
  runs_new before w0 w ->
  let '((o, rs), w') := execute_models ms share threshold before w in
  match o with
  | Done => runs_new rs w0 w'
  | Failed => exists stray, (length stray <= 1)%nat /\ RoseSpeech.tidied stray w0 w'
  | Crashed => True
  end.
Proof.
  revert before w. induction ms as [|m ms IH]; intros before w Hb; cbn [execute_models]; [done|].
  rewrite st_bind_run. pose proof (execute_model_files m share threshold w) as H. destruct (execute_model m share threshold w) as [[o r] w1]. cbn [fst snd].
  destruct o; [| |done].
  - destruct H as (config & H3 & H4). apply IH. by eapply runs_new_snoc.
  - destruct H as (stray & Hs & H). rewrite st_bind_run. cbn [fst snd mret st_ret]. exists stray. split; [done|].
    destruct Hb as [[kept H1] H2]. pose proof (cleanup_all before w1) as C. split.
    + intros q Hq Hns Hold. assert (Hn : q ∉ concat (map files before) ++ kept) by (intros Hin; by rewrite (RoseSpeech.new_fresh _ _ _ H1 q Hin) in Hold).
      pose proof (RoseSpeech.new_frame _ _ _ H1 q Hn) as E1. rewrite not_elem_of_app, all_files_elem in Hn.
      rewrite (RoseSpeech.cleaned_frame _ _ _ C) by (done || tauto). rewrite (RoseSpeech.tidied_old _ _ _ H), E1; congruence.
    + intros Hw q Hq Hns. specialize (H2 Hw). assert (Hw1 : RoseSpeech.works w) by (by apply (RoseSpeech.new_works _ _ _ H2)).
      destruct (decide (q ∈ concat (map names before))) as [Hin|Hin].
      * rewrite (RoseSpeech.cleaned_gone _ _ _ C); [|by apply (RoseSpeech.tidied_works _ _ _ H)|done|done].
        by rewrite (RoseSpeech.new_fresh _ _ _ H2) by (by rewrite all_files_elem).
      * rewrite (RoseSpeech.cleaned_frame _ _ _ C), (RoseSpeech.tidied_all _ _ _ H) by done. apply (RoseSpeech.new_frame _ _ _ H2). rewrite all_files_elem. tauto.
    + intros Hw. by apply (RoseSpeech.cleaned_works _ _ _ C), (RoseSpeech.tidied_works _ _ _ H), (RoseSpeech.new_works _ _ _ (H2 Hw)).
Qed.

End camera.

(** A class between 91 and 99 whose score reaches the threshold ends the program. *)
Lemma unnamed_class_crashes v n threshold scale i c : Dbl.trunc (entry v (n * 5 + i)) = Some c -> 91 <= c <= 99 ->
  Dbl.ltb (entry v (n * 4 + i)) threshold = false -> detect v n threshold scale i = Crash.
Proof.
  intros Ht Hc Hs. unfold detect. rewrite Ht, Hs. destruct (Z.ltb_spec c (- 2 ^ 31)); [lia|]. destruct (Z.leb_spec (2 ^ 31) c); [lia|].
  destruct (Z.ltb_spec c 0); [lia|]. destruct (Z.leb_spec 100 c); [lia|]. cbn [orb]. rewrite lookup_ge_None_2; [done|]. change (length classes) with 91%nat. lia.
Qed.

(** ** An example: one object found by one network *)

Definition example_share : bytes := str "/home/rose/.local/share/rose-tools/camera".
Definition example_metadata : bytes := str "{" ++ DQ :: str "CnnOutputTensor" ++ DQ :: str ": [ 0.25, 0.5, 0.75, 1.0, 0.9, 16, 1 ]}".
Definition example_camera (config image metadata : bytes) : st world bool :=
  modify (store image (str "jpeg")) ;; modify (store metadata example_metadata) ;; mret true.
Definition example_world : world :=
  World {[example_share ++ str "/imx500_mobilenet_ssd.json" := str "{ /usr/share/imx500-models/old.rpk }"]} 0 [] [] [] [] ∅ [] [].

Lemma example_camera_writes config image metadata w : w_kept (example_camera config image metadata w).2 = w_kept w
  /\ forall q, q ∉ [image; metadata] -> w_fs (example_camera config image metadata w).2 !! q = w_fs w !! q.
Proof.
  unfold example_camera. rewrite !st_bind_run. cbn [modify fst snd mret st_ret store w_fs w_kept]. split; [done|].
  intros q. rewrite !not_elem_of_cons. intros (H1 & H2 & _). by rewrite !lookup_insert_ne.
Qed.


Example detection_found :
  let '((code, rs), w') := rose_detect RoseSpeech.new_file example_camera (str "/home/rose") (str "0.5") [str "object0"] example_world in
  (code, map (fun r => bool_decide (is_Some (strstr (default [] (w_fs w' !! results r)) (DQ :: str "cat")))) rs, size (w_fs w')) = (0, [true], 4%nat).
Proof. vm_compute. reflexivity. Qed.

End RoseCamera.
